(* ===== verification/_CoqProject ===== *)
-Q . S2P
Prelude.v
Calendar.v
Utf8.v
MemCopy.v
Strings.v
Words.v
Ctype.v
Substring.v
Fnmatch.v
Patterns.v
IntScan.v
Prng.v
Threads.v
Locks.v
Progress.v
Hash.v
Tree.v
HashTable.v
Leonardo.v
Sort.v
Search.v
Dns.v
Inet.v
Stdio.v
StreamOut.v
StreamIn.v
Printf.v
Format.v
Directive.v
Groups.v
Print.v
Ntop.v
Malloc.v
Slots.v
Frames.v
Rings.v
Layout.v
Heap.v
HeapOps.v
HeapTake.v
HeapGrow.v
HeapMalloc.v
HeapFree.v
HeapUse.v
HeapRealloc.v
HeapAlign.v
Allocator.v
