(* ===== verification/Prelude.v ===== *)
(** * leblibc: a verification library

    leblibc is a C standard library (a fork of musl).  This library models the
    parts of it that hold its own logic, as executable definitions translated
    from the C sources, and proves what makes them correct.  Paths are those of
    the repository; the C sources are below src/, the headers below include/.
    The target modelled is x86_64: little endian, 64-bit long and pointers,
    signed char.

    ** Conventions

    An integer is a [Z] and every wrap-around is written out ([u8], [u32],
    [u64], [s8], [s32], [s64]).  Memory is flat, a byte for every address ([mem],
    with [load] and [store] for words), except where the code works on nodes it
    allocates itself: the trees of tsearch are a finite map of nodes, the queues
    of insque a store of nodes, messages and hash inputs lists of bytes.  NULL is
    0, or [None] where a field is an option.  A loop whose end is not obvious
    from its arguments takes fuel and the function then returns an option: [None]
    says that the fuel was not enough, or (in Tree, Dns and Malloc) that the code would
    access memory it must not or an assertion of it fails.  The theorems say that the fuel a function is
    given is enough, so that the code ends: the length of the string, and twice that of the needle (Strings, Substring, Fnmatch,
    IntScan, Inet, Format), the number of size classes for the calls that alloc_slot and
    nontrivial_free make of themselves and 65 slots for the search of a page boundary
    (Malloc), the height of the tree (Tree), the size of the table
    (HashTable), the number of elements (Sort), 65 halvings (Search), half the
    bytes of the message (Dns, where the bound is the code's own).
    What the code calls and this library does not model (a system call, malloc,
    the refill of a stream, the caller's comparison) is an argument.

    ** Files

    - Prelude: the integers, memory, strings ([cstr]), loops, transition systems,
      the automation, and the interface [CmpOrder]: what a comparison function
      of the caller must satisfy, used by Tree, Sort and their instances.
    - Calendar: src/time, seconds to broken-down time and back (__secs_to_tm,
      __tm_to_secs, timegm, gmtime_r).  Both directions agree with the Gregorian
      calendar and are inverse; overflow is rejected.
    - Utf8: src/multibyte, mbrtowc with its state table, mbtowc, wcrtomb, the
      UTF-16 layer, btowc and wctob.  Decoding is the UTF-8 of Unicode, in one
      piece or in several; encoding and decoding are inverse.
    - MemCopy: memcpy.c, memmove.c, memset.c of src/string with their word-wise
      and shifted copies.  They equal the byte-wise copies and fills.
    - Strings: the scanning, comparing, copying and tokenising functions of
      src/string.  Each equals its definition on lists; the bounded copies keep
      their bounds.
    - Words and Substring: strstr.c, memmem.c and wcsstr.c of src/string.  Words is
      the combinatorics of the two-way search (periods, maximal suffixes, the
      critical factorisation); Substring the code, which finds the first
      occurrence, and the comparisons without case.
    - Ctype: src/ctype for bytes, the published tables, and the wide functions
      that need no generated table.
    - Fnmatch and Patterns: src/regex/fnmatch.c.  Fnmatch is the code, the meaning of
      a pattern as a list of elements, and the match of any pattern that pat_next
      reads; Patterns the grammar of patterns and UTF-8 texts, on which fnmatch
      decides exactly that meaning.
    - IntScan: __intscan (src/internal/intscan.c), the counted reader it uses and
      strtol.c.  The value of the subject sequence, clamped; errno; the end
      pointer.
    - Prng: src/prng.  The rand48 family and random are the recurrences they are
      documented to be; arc4random_buf fills its buffer.
    - Threads and Locks: the atomic operations and futex calls as a machine, a
      counting logic over it, and on it the rwlocks, the internal lock, semaphores
      and pthread_once of src/thread.  Exclusion and counting hold for any number
      of threads and every interleaving.  Progress: calls of pthread_once can be
      finished from every reachable state.
    - Hash: SHA-256, SHA-512 and MD5 of src/crypt.  Streaming any pieces equals
      the standard's hash of the whole.
    - Tree: tsearch, tfind, tdelete, twalk and tdestroy of src/search.  The store
      holds an AVL search tree before and after, the path array is never overrun,
      keys are inserted and removed.
    - HashTable: src/search/hsearch.c, which refines a finite map.
    - Leonardo and Sort: src/stdlib/qsort.c.  Leonardo is the theory of the heaps
      of smoothsort on arrays as functions; Sort the code on memory, which sorts.
    - Search: bsearch, lsearch and lfind on arrays, insque and remque on lists.
    - Dns: dn_expand, dn_skipname and the record parser of src/network.  Names are
      expanded as RFC 1035 says, within the buffer; no message makes the parser
      read outside it.
    - Inet: inet_pton, inet_aton and the classful functions of src/network, with
      strtoul of IntScan.
    - Stdio: the buffered streams of src/stdio as operations on a FILE, its memory
      and what is behind it ([FileOps]): a descriptor, a block of memory (fmemopen)
      or the string vsnprintf prints to.
    - StreamOut and StreamIn: what the output and the input functions do, proved
      against the interfaces [Sink], [Source] and [Seekable], which the
      implementations of [FileOps] are shown to satisfy.
    - Printf: vfprintf.c without fmt_fp, and vsnprintf.c.
    - Format: the text of a format: the loop of printf_core ends and counts its
      bytes; the digits of the integer conversions; any destination gets the same
      text until it fails.
    - Directive: formats whose directives have no flags, width or precision.
    - Groups: the texts of IPv6 addresses as lists of groups, and how inet_pton
      reads them.
    - Print: vfprintf on any stream, vsnprintf on strings, and reading a printed
      number back with strtol.
    - Ntop: inet_ntop and inet_ntoa of src/network, on vsnprintf and Strings.
      inet_pton reads back every address printed.
    - Malloc: the allocator, src/malloc/mallocng (meta.h, malloc.c, free.c,
      realloc.c, aligned_alloc.c, malloc_usable_size.c, donate.c) with calloc.c,
      memalign.c, posix_memalign.c, reallocarray.c and __mmap, __munmap, __mremap
      of src/mman, in a state and error monad over the heap: bytes, struct metas,
      meta areas, ctx and the kernel ([Kernel]).
    - Slots: the size classes and the sizes of groups.  Frames: a weakest
      precondition for the monad; the header and the reserved bytes of a slot, which
      enframe and set_size write and get_meta and get_nominal_size read.  Rings: the
      circular lists.  Layout: who owns which byte, with groups inside slots.
    - Heap: the invariant ([heap_inv]) and what the kernel promises ([KernelLaws]).
      HeapOps: lists, struct metas, new memory.  HeapTake: try_avail.  HeapGrow:
      alloc_group and alloc_slot, which call each other.  HeapMalloc: malloc.
      HeapFree: free, with the groups that are freed behind it.  HeapUse: writes,
      malloc_usable_size, calloc.  HeapRealloc: realloc with mremap.  HeapAlign:
      aligned_alloc.
    - Allocator: the allocator as its clients see it, a map of blocks ([heap_ok]).
      Every call keeps it, blocks are apart and keep their bytes, and no client that
      frees, resizes and writes only what it was given stops the allocator.

    ** How the parts interact

    Strings calls the copies of MemCopy by their specification [mcopy]; IntScan
    uses the classes of Ctype and the strings of Strings; Inet calls strtoul of
    IntScan and isdigit of Ctype; Sort moves elements with [mcopy], Search reads
    the elements of Sort; Tree and Sort take the caller's comparison through
    [CmpOrder].  The functions of Stdio call f->read, f->write and f->seek through
    [FileOps]; Printf writes through __fwritex of Stdio and converts wide
    characters with wcrtomb of Utf8; Fnmatch decodes with mbtowc.  Malloc moves bytes with [mcopy]; the calls of
    malloc elsewhere (Tree, HashTable) are arguments.

    ** Groups of theorems

    Functional correctness of each routine on every branch, errors included
    (MemCopy, Strings, Utf8, Patterns, IntScan, Inet, Dns, StreamIn, StreamOut, Print);
    equivalence of the optimised
    routines with plain definitions (MemCopy, Strings, Substring, Hash); refinement of an
    abstract object (HashTable, Hash, Prng, Utf8; a descriptor as a Sink, StreamOut);
    invariants kept by every operation (Tree, Locks, the streams, the heap of Malloc); safety under every interleaving (Locks) and on every
    input (Dns) and for every client (Allocator); liveness (Progress); round trips (Calendar, Utf8, StreamIn, Print, Ntop); bounds and
    overflow (Calendar, IntScan, Strings, Format); termination with a result (Sort,
    Search, and all theorems stated as "there is a result").

    ** Not modelled

    Floating point (src/math, src/complex, the conversions of vfprintf and
    strtod); the generated tables of wide characters and of iconv; wrappers of
    system calls; assembly, thread creation and cancellation; the dynamic linker;
    the TRE regular expression matcher and the DES and Blowfish ciphers, which
    are third-party code.  Of what is modelled: rootp of tsearch is not NULL; the
    flag table and the writers of ns_parse.c; towctrans and the iswalpha tables; the
    locks of streams, the list of open files, opening and closing; fmt_fp, formatted
    input and wide output.  Of the allocator: the lock, for which a call of malloc or
    free is one step; a_cas fails for no other thread; the bytes of a struct meta are a
    record at an address, apart from the bytes of blocks; donate is a definition without
    a theorem (its groups have no pin in front and are in no mapping); alignments of more
    than 2^30, where the int of set_size overflows; a size of 2^64 or more is no size_t.

    ** Plan

    What would come next: the lock of the allocator on the machine of Threads;
    mutexes, condition variables and barriers on the machine of Threads; environment
    updates and atexit; the string conversions of src/multibyte; getdelim and vfscanf. *)

From Stdlib Require Import ZArith Lia ZifyBool List Bool Setoid Morphisms.
Import ListNotations.
Open Scope Z_scope.

(** Arithmetic is kept folded by [simpl]; constants are computed with
    [vm_compute] or [lia]. *)
#[global] Arguments Z.add : simpl never.
#[global] Arguments Z.sub : simpl never.
#[global] Arguments Z.mul : simpl never.
#[global] Arguments Z.leb : simpl never.
#[global] Arguments Z.ltb : simpl never.
#[global] Arguments Z.eqb : simpl never.
#[global] Arguments Z.lor : simpl never.
#[global] Arguments Z.land : simpl never.
#[global] Arguments Z.shiftl : simpl never.
#[global] Arguments Z.shiftr : simpl never.

(** ** Machine integers

    A C integer is a [Z]; [uN] reduces a value to the N-bit unsigned type and
    [sN] to the N-bit two's complement type. *)

Definition u8 (z : Z) : Z := z mod 256.
Definition u32 (z : Z) : Z := z mod 4294967296.
Definition u64 (z : Z) : Z := z mod 18446744073709551616.
Definition s8 (z : Z) : Z := (z + 128) mod 256 - 128.
Definition s32 (z : Z) : Z := (z + 2147483648) mod 4294967296 - 2147483648.
Definition s64 (z : Z) : Z :=
  (z + 9223372036854775808) mod 18446744073709551616 - 9223372036854775808.

Definition INT_MAX : Z := 2147483647.
Definition INT_MIN : Z := -2147483648.
Definition UINT_MAX : Z := 4294967295.
Definition ULLONG_MAX : Z := 18446744073709551615.
Definition SIZE_MAX : Z := 18446744073709551615.

(** C's truth value of a comparison used as an int. *)
Definition b2z (b : bool) : Z := if b then 1 else 0.

(** errno values (arch/generic/bits/errno.h). *)
Definition EPERM : Z := 1.
Definition EINTR : Z := 4.
Definition EAGAIN : Z := 11.
Definition ENOMEM : Z := 12.
Definition EBUSY : Z := 16.
Definition EINVAL : Z := 22.
Definition ERANGE : Z := 34.
Definition EDEADLK : Z := 35.
Definition EOVERFLOW : Z := 75.
Definition EILSEQ : Z := 84.
Definition ETIMEDOUT : Z := 110.

Create HintDb leb discriminated.

(** [zlia]: linear arithmetic with C and Euclidean divisions made explicit. *)
Ltac zlia := Z.to_euclidean_division_equations; lia.

(** Turn the boolean comparisons of the context and the goal into facts. *)
Ltac breflect :=
  repeat match goal with
  | H : (_ =? _) = true |- _ => apply Z.eqb_eq in H
  | H : (_ =? _) = false |- _ => apply Z.eqb_neq in H
  | H : (_ <=? _) = true |- _ => apply Z.leb_le in H
  | H : (_ <=? _) = false |- _ => apply Z.leb_gt in H
  | H : (_ <? _) = true |- _ => apply Z.ltb_lt in H
  | H : (_ <? _) = false |- _ => apply Z.ltb_ge in H
  | H : _ && _ = true |- _ => apply andb_true_iff in H; destruct H
  | H : _ || _ = false |- _ => apply orb_false_iff in H; destruct H
  | H : negb _ = true |- _ => apply negb_true_iff in H
  | H : negb _ = false |- _ => apply negb_false_iff in H
  end.

(** Case split on the first conditional of the goal. *)
Ltac case_if :=
  match goal with
  | |- context [if ?b then _ else _] => let E := fresh "E" in destruct b eqn:E
  end.

Ltac simplify_ifs := repeat (case_if; breflect; try lia).

Lemma u8_small z : 0 <= z < 256 -> u8 z = z.
Proof. apply Z.mod_small. Qed.
Lemma u32_small z : 0 <= z < 4294967296 -> u32 z = z.
Proof. apply Z.mod_small. Qed.
Lemma u64_small z : 0 <= z < 18446744073709551616 -> u64 z = z.
Proof. apply Z.mod_small. Qed.
Lemma s32_small z : -2147483648 <= z <= 2147483647 -> s32 z = z.
Proof. intros. unfold s32. rewrite Z.mod_small; lia. Qed.
Lemma s64_small z :
  -9223372036854775808 <= z <= 9223372036854775807 -> s64 z = z.
Proof. intros. unfold s64. rewrite Z.mod_small; lia. Qed.

Lemma u8_range z : 0 <= u8 z < 256.
Proof. apply Z.mod_pos_bound; lia. Qed.
Lemma u32_range z : 0 <= u32 z < 4294967296.
Proof. apply Z.mod_pos_bound; lia. Qed.
Lemma u64_range z : 0 <= u64 z < 18446744073709551616.
Proof. apply Z.mod_pos_bound; lia. Qed.
Lemma s32_range z : -2147483648 <= s32 z <= 2147483647.
Proof. unfold s32. pose proof (Z.mod_pos_bound (z + 2147483648) 4294967296). lia. Qed.

(** Remove the reductions to a width whose argument [lia] shows in range,
    innermost first. *)
Ltac drop_wraps :=
  repeat match goal with
  | |- context [u8 ?x] => rewrite (u8_small x) by lia
  | |- context [u32 ?x] => rewrite (u32_small x) by lia
  | |- context [u64 ?x] => rewrite (u64_small x) by lia
  | |- context [s32 ?x] => rewrite (s32_small x) by lia
  | |- context [s64 ?x] => rewrite (s64_small x) by lia
  end.

#[export] Hint Resolve u8_range u32_range u64_range s32_range : leb.

(** ** Bits *)

(** An or of parts that do not overlap is a sum. *)
Lemma lor_add k x y : 0 <= k -> 0 <= y < 2 ^ k -> Z.lor (x * 2 ^ k) y = x * 2 ^ k + y.
Proof.
  intros Hk Hy. rewrite <- Z.lxor_lor, <- Z.add_nocarry_lxor; [reflexivity| |].
  all: apply Z.bits_inj'; intros i Hi; rewrite Z.land_spec, Z.bits_0.
  all: destruct (Z.lt_ge_cases i k).
  all: try (rewrite Z.mul_pow2_bits_low by lia; reflexivity).
  all: rewrite <- (Z.mod_small y (2 ^ k)), Z.mod_pow2_bits_high by lia.
  all: apply andb_false_r.
Qed.

Lemma land_bit x k :
  0 <= k -> Z.land x (2 ^ k) = if Z.testbit x k then 2 ^ k else 0.
Proof.
  intros Hk. apply Z.bits_inj'; intros i Hi.
  rewrite Z.land_spec, Z.pow2_bits_eqb by lia.
  destruct (Z.eqb_spec k i) as [<-|Hne].
  - rewrite andb_true_r. destruct (Z.testbit x k); [now rewrite Z.pow2_bits_true by lia|].
    now rewrite Z.bits_0.
  - rewrite andb_false_r. destruct (Z.testbit x k); [|now rewrite Z.bits_0].
    rewrite Z.pow2_bits_eqb by lia. symmetry. now apply Z.eqb_neq.
Qed.

(** The top bit of a word. *)
Lemma testbit_top x k : 0 <= k -> 0 <= x < 2 ^ (k + 1) -> Z.testbit x k = (2 ^ k <=? x).
Proof.
  intros Hk Hx. rewrite Z.testbit_eqb by lia.
  rewrite Z.pow_add_r, Z.pow_1_r in Hx by lia.
  assert (Hp : 0 < 2 ^ k) by lia.
  destruct (Z.leb_spec (2 ^ k) x).
  - replace (x / 2 ^ k) with 1; [reflexivity|].
    apply Z.div_unique with (x - 2 ^ k); lia.
  - now rewrite Z.div_small by lia.
Qed.

(** Words as bytes: bit operations work byte by byte. *)
Lemma testbit_byte b x i :
  0 <= b < 256 -> 0 <= i ->
  Z.testbit (b + 256 * x) i = if i <? 8 then Z.testbit b i else Z.testbit x (i - 8).
Proof.
  intros Hb Hi. replace (b + 256 * x) with (x * 2 ^ 8 + b) by lia.
  rewrite <- lor_add by lia.
  rewrite Z.lor_spec. destruct (Z.ltb_spec i 8).
  - now rewrite Z.mul_pow2_bits_low by lia.
  - rewrite Z.mul_pow2_bits by lia.
    rewrite <- (Z.mod_small b (2 ^ 8)) by lia. rewrite Z.mod_pow2_bits_high by lia.
    apply orb_false_r.
Qed.

Lemma land_byte_range a b : 0 <= a < 256 -> 0 <= b -> 0 <= Z.land a b < 256.
Proof.
  intros Ha Hb. pose proof (Z.land_nonneg a b). split; [tauto|].
  rewrite <- (Z.mod_small a 256) by lia. change 256 with (2 ^ 8).
  rewrite <- (Z.land_ones a 8) by lia. rewrite <- Z.land_assoc, (Z.land_comm (Z.ones 8)),
    Z.land_assoc, Z.land_ones by lia. apply Z.mod_pos_bound. lia.
Qed.

Lemma lxor_byte_range a b : 0 <= a < 256 -> 0 <= b < 256 -> 0 <= Z.lxor a b < 256.
Proof.
  intros Ha Hb. split; [apply Z.lxor_nonneg; lia|].
  replace (Z.lxor a b) with (Z.lxor a b mod 2 ^ 8); [apply Z.mod_pos_bound; lia|].
  apply Z.bits_inj'; intros i Hi. destruct (Z.lt_ge_cases i 8).
  - now rewrite Z.mod_pow2_bits_low by lia.
  - rewrite Z.mod_pow2_bits_high, Z.lxor_spec by lia.
    rewrite <- (Z.mod_small a (2 ^ 8)), <- (Z.mod_small b (2 ^ 8)) by lia.
    now rewrite !Z.mod_pow2_bits_high by lia.
Qed.

Lemma land_bytes a x b y :
  0 <= a < 256 -> 0 <= b < 256 ->
  Z.land (a + 256 * x) (b + 256 * y) = Z.land a b + 256 * Z.land x y.
Proof.
  intros Ha Hb. apply Z.bits_inj'; intros i Hi.
  rewrite Z.land_spec, !testbit_byte by (try apply land_byte_range; lia).
  destruct (i <? 8); now rewrite Z.land_spec.
Qed.

Lemma lxor_bytes a x b y :
  0 <= a < 256 -> 0 <= b < 256 ->
  Z.lxor (a + 256 * x) (b + 256 * y) = Z.lxor a b + 256 * Z.lxor x y.
Proof.
  intros Ha Hb. apply Z.bits_inj'; intros i Hi.
  rewrite Z.lxor_spec, !testbit_byte by (try apply lxor_byte_range; lia).
  destruct (i <? 8); now rewrite Z.lxor_spec.
Qed.

(** ** Lists *)

Lemma firstn_S_nth {A} (j : nat) (xs : list A) d :
  (j < length xs)%nat -> firstn (S j) xs = firstn j xs ++ [nth j xs d].
Proof.
  revert xs; induction j as [|j IH]; intros [|x xs] H; cbn in *; try lia; [reflexivity|].
  f_equal. apply IH. lia.
Qed.

Lemma firstn_firstn_skipn {A} i j (l : list A) :
  firstn j l ++ firstn i (skipn j l) = firstn (j + i) l.
Proof.
  revert l; induction j as [|j IH]; intros [|x l]; cbn; try reflexivity.
  - now destruct i.
  - now rewrite IH.
Qed.

(** ** Finite checks

    A decidable property of a small range of integers is proved by computing
    it on every member. *)

Fixpoint zrange (lo : Z) (n : nat) : list Z :=
  match n with O => [] | S k => lo :: zrange (lo + 1) k end.

Lemma in_zrange lo n x : In x (zrange lo n) <-> lo <= x < lo + Z.of_nat n.
Proof.
  revert lo; induction n as [|n IH]; intro lo.
  - simpl. lia.
  - cbn [zrange In]. rewrite IH, Nat2Z.inj_succ. lia.
Qed.

Lemma zrange_check (f : Z -> bool) lo n :
  forallb f (zrange lo n) = true ->
  forall x, lo <= x < lo + Z.of_nat n -> f x = true.
Proof.
  intros H x Hx. rewrite forallb_forall in H. now apply H, in_zrange.
Qed.

(** ** Loops

    A C loop is the iteration of its body: [inl] continues with a new state,
    [inr] leaves the loop.  The fuel bounds the number of rounds; [None] is
    "the bound was not enough". *)

Section Loop.
Context {S R : Type}.
Variable body : S -> S + R.

Fixpoint loop (fuel : nat) (s : S) : option R :=
  match fuel with
  | O => None
  | Datatypes.S k => match body s with inl s' => loop k s' | inr r => Some r end
  end.

(** The invariant rule with a variant: from any state that satisfies the
    invariant the loop ends, within [mu s + 1] rounds. *)
Lemma loop_total (I : S -> Prop) (Q : R -> Prop) (mu : S -> nat) :
  (forall s, I s -> match body s with
                    | inl s' => I s' /\ (mu s' < mu s)%nat
                    | inr r => Q r
                    end) ->
  forall fuel s, I s -> (mu s < fuel)%nat ->
  exists r, loop fuel s = Some r /\ Q r.
Proof.
  intros Hstep fuel; induction fuel as [|fuel IH]; intros s HI Hf; [lia|].
  simpl. specialize (Hstep s HI). destruct (body s) as [s'|r].
  - destruct Hstep as [HI' Hlt]. apply IH; [assumption|lia].
  - eauto.
Qed.

(** More fuel never changes an answer. *)
Lemma loop_mono fuel fuel' s r :
  loop fuel s = Some r -> (fuel <= fuel')%nat -> loop fuel' s = Some r.
Proof.
  revert fuel' s; induction fuel as [|fuel IH]; intros fuel' s H Hle; [discriminate|].
  destruct fuel' as [|fuel']; [lia|]. simpl in *.
  destruct (body s); [apply IH; [assumption|lia] | assumption].
Qed.

Lemma loop_inl fuel s s' :
  body s = inl s' -> loop (Datatypes.S fuel) s = loop fuel s'.
Proof. intros H. simpl. now rewrite H. Qed.

Lemma loop_inr fuel s r :
  body s = inr r -> loop (Datatypes.S fuel) s = Some r.
Proof. intros H. simpl. now rewrite H. Qed.
End Loop.

(** Sequencing of computations that may run out of fuel. *)
Definition bind {A B} (o : option A) (k : A -> option B) : option B :=
  match o with Some a => k a | None => None end.
Notation "'let?' x := e 'in' k" := (bind e (fun x => k))
  (at level 10, x pattern, e at level 100, k at level 200).

(** [while fuel cond body s]: a loop without early exit, as a total function.
    [while_rule] shows that with fuel at least the variant the loop is left
    because its condition is false. *)
Section While.
Context {S : Type}.
Variables (cond : S -> bool) (body : S -> S).

Fixpoint while (fuel : nat) (s : S) : S :=
  match fuel with
  | O => s
  | Datatypes.S k => if cond s then while k (body s) else s
  end.

Lemma while_rule (I : S -> Prop) (mu : S -> nat) fuel s :
  (forall s, I s -> cond s = true -> I (body s) /\ (mu (body s) < mu s)%nat) ->
  I s -> (mu s <= fuel)%nat ->
  I (while fuel s) /\ cond (while fuel s) = false.
Proof.
  intros Hstep. revert s; induction fuel as [|fuel IH]; intros s HI Hf; simpl.
  - split; [assumption|]. destruct (cond s) eqn:E; [|reflexivity].
    destruct (Hstep s HI E). lia.
  - destruct (cond s) eqn:E; [|auto]. destruct (Hstep s HI E). apply IH; [assumption|lia].
Qed.
End While.

(** ** Comparison functions

    What bsearch, qsort and tsearch ask of the caller's comparison: its sign is
    that of a total preorder. *)

Class CmpOrder {A : Type} (cmp : A -> A -> Z) : Prop := {
  cmp_anti x y : Z.sgn (cmp y x) = - Z.sgn (cmp x y);
  cmp_le_trans x y z : cmp x y <= 0 -> cmp y z <= 0 -> cmp x z <= 0
}.

Section Cmp.
Context {A : Type} (cmp : A -> A -> Z) `{CmpOrder A cmp}.

Lemma cmp_refl x : cmp x x = 0.
Proof. pose proof (cmp_anti x x). lia. Qed.

Lemma cmp_flip x y : cmp x y <= 0 <-> 0 <= cmp y x.
Proof. pose proof (cmp_anti x y). lia. Qed.

Lemma cmp_lt_le_trans x y z : cmp x y < 0 -> cmp y z <= 0 -> cmp x z < 0.
Proof.
  intros H1 H2. pose proof (cmp_anti x y). pose proof (cmp_anti x z).
  pose proof (cmp_le_trans y z x). pose proof (cmp_le_trans x y z). lia.
Qed.

Lemma cmp_le_lt_trans x y z : cmp x y <= 0 -> cmp y z < 0 -> cmp x z < 0.
Proof.
  intros H1 H2. pose proof (cmp_anti y z). pose proof (cmp_anti x z).
  pose proof (cmp_le_trans z x y). pose proof (cmp_le_trans x y z). lia.
Qed.
End Cmp.

(** Comparing integers. *)
#[export] Instance cmp_sub : CmpOrder Z.sub.
Proof. split; intros; lia. Qed.

(** ** Transition systems *)

Section Star.
Context {A : Type}.
Variable R : A -> A -> Prop.

Inductive star : A -> A -> Prop :=
| star_refl a : star a a
| star_step a b c : star a b -> R b c -> star a c.

Lemma star_invariant (I : A -> Prop) a b :
  (forall x y, I x -> R x y -> I y) -> I a -> star a b -> I b.
Proof. intros Hp Ha H; induction H; eauto. Qed.
End Star.

(** ** Byte memory

    The flat address space: a byte (0..255) at every address; pointers are
    addresses. *)

Definition mem : Type := Z -> Z.

Definition mset (m : mem) (a v : Z) : mem := fun x => if x =? a then v else m x.

Declare Scope c_scope.
Delimit Scope c_scope with c.
Notation "m <{ a := v }>" := (mset m a v)
  (at level 1, a at level 60, v at level 60, format "m <{ a := v }>") : c_scope.
Open Scope c_scope.

Definition wf_mem (m : mem) : Prop := forall a, 0 <= m a < 256.

(** Little-endian access of [n] bytes (both supported targets, i386 and
    x86_64, are little endian). *)
Fixpoint load (n : nat) (m : mem) (a : Z) : Z :=
  match n with
  | O => 0
  | S k => m a + 256 * load k m (a + 1)
  end.

Fixpoint store (n : nat) (m : mem) (a v : Z) : mem :=
  match n with
  | O => m
  | S k => store k (m<{a := v mod 256}>) (a + 1) (v / 256)
  end.

(** The byte range [a, a+n). *)
Definition within (a n x : Z) : bool := (a <=? x) && (x <? a + n).

(** Two memories that hold the same bytes; functions are compared pointwise. *)
Definition meq (m1 m2 : mem) : Prop := forall a, m1 a = m2 a.

Infix "=m" := meq (at level 70, no associativity) : c_scope.

#[export] Instance meq_equiv : Equivalence meq.
Proof.
  split; unfold meq; [easy | easy | intros x y z H1 H2 a; now rewrite H1].
Qed.

#[export] Instance mset_proper : Proper (meq ==> eq ==> eq ==> meq) mset.
Proof. intros m1 m2 H a ? <- v ? <- x. unfold mset. now rewrite H. Qed.

#[export] Instance load_proper n : Proper (meq ==> eq ==> eq) (load n).
Proof.
  intros m1 m2 H a ? <-. revert a; induction n as [|n IH]; intro a; simpl; [easy|].
  now rewrite H, IH.
Qed.

#[export] Instance store_proper n : Proper (meq ==> eq ==> eq ==> meq) (store n).
Proof.
  intros m1 m2 H a ? <- v ? <-. revert m1 m2 H a v.
  induction n as [|n IH]; intros m1 m2 H a v; simpl; [easy|].
  apply IH. now rewrite H.
Qed.

Lemma mset_eq m a v : (m<{a := v}>) a = v.
Proof. unfold mset. now rewrite Z.eqb_refl. Qed.

Lemma mset_ne m a v x : x <> a -> (m<{a := v}>) x = m x.
Proof. intros H. unfold mset. now apply Z.eqb_neq in H as ->. Qed.

Lemma mset_wf m a v : wf_mem m -> 0 <= v < 256 -> wf_mem (m<{a := v}>).
Proof. intros Hm Hv x. unfold mset. destruct (x =? a); auto. Qed.

Lemma store_wf n m a v : wf_mem m -> wf_mem (store n m a v).
Proof.
  revert m a v; induction n as [|n IH]; intros m a v Hm; simpl; [assumption|].
  apply IH, mset_wf; [assumption|]. apply Z.mod_pos_bound; lia.
Qed.

#[export] Hint Resolve mset_wf store_wf : leb.

Lemma load_range n m a : wf_mem m -> 0 <= load n m a < 256 ^ Z.of_nat n.
Proof.
  intros Hm. revert a; induction n as [|n IH]; intro a; [simpl; lia|].
  rewrite Nat2Z.inj_succ, Z.pow_succ_r by lia. cbn [load].
  specialize (IH (a + 1)). specialize (Hm a). nia.
Qed.

Lemma load_app j k m a :
  load (j + k) m a = load j m a + 256 ^ Z.of_nat j * load k m (a + Z.of_nat j).
Proof.
  revert a; induction j as [|j IH]; intro a.
  - cbn [Nat.add load Z.of_nat]. rewrite Z.add_0_r. lia.
  - cbn [Nat.add load]. rewrite IH, Nat2Z.inj_succ, Z.pow_succ_r by lia.
    replace (a + 1 + Z.of_nat j) with (a + Z.succ (Z.of_nat j)) by lia. ring.
Qed.

(** The high and the low bytes of a word. *)
Lemma load_div j k m a :
  wf_mem m -> load (j + k) m a / 256 ^ Z.of_nat j = load k m (a + Z.of_nat j).
Proof.
  intros Hm. rewrite load_app. pose proof (load_range j m a Hm).
  rewrite Z.mul_comm, Z.div_add by lia. rewrite Z.div_small by lia. lia.
Qed.

Lemma load_mod j k m a :
  wf_mem m -> load (j + k) m a mod 256 ^ Z.of_nat j = load j m a.
Proof.
  intros Hm. rewrite load_app. pose proof (load_range j m a Hm).
  rewrite Z.mul_comm, Z.mod_add by lia. apply Z.mod_small. lia.
Qed.

(** What a store leaves at each address. *)
Lemma store_lookup n m a v x :
  store n m a v x =
  if within a (Z.of_nat n) x then (v / 256 ^ (x - a)) mod 256 else m x.
Proof.
  revert m a v; induction n as [|n IH]; intros m a v; unfold within.
  - simpl. replace (x <? a + 0) with (negb (a <=? x)) by (destruct (a <=? x) eqn:?; breflect;
      symmetry; [apply Z.ltb_ge|apply Z.ltb_lt]; lia).
    now destruct (a <=? x).
  - cbn [store]. rewrite IH. unfold within, mset. rewrite Nat2Z.inj_succ. unfold Z.succ.
    destruct (Z.eqb_spec x a) as [->|Hne].
    + rewrite Z.sub_diag, Z.pow_0_r, Z.div_1_r.
      replace (a + 1 <=? a) with false by lia.
      replace (a <=? a) with true by lia.
      now replace (a <? a + (Z.of_nat n + 1)) with true by lia.
    + replace ((a + 1 <=? x) && (x <? a + 1 + Z.of_nat n))
        with ((a <=? x) && (x <? a + (Z.of_nat n + 1))) by lia.
      destruct ((a <=? x) && _) eqn:E; [|reflexivity]. breflect.
      replace (x - a) with (Z.succ (x - (a + 1))) by lia.
      rewrite Z.pow_succ_r, Z.div_div by lia. reflexivity.
Qed.

(** The i-th byte of a loaded word. *)
Lemma load_byte n m a i :
  wf_mem m -> 0 <= i < Z.of_nat n -> (load n m a / 256 ^ i) mod 256 = m (a + i).
Proof.
  intros Hm. revert a i; induction n as [|n IH]; intros a i Hi; [lia|].
  cbn [load]. destruct (Z.eq_dec i 0) as [->|Hi0].
  - rewrite Z.pow_0_r, Z.div_1_r, Z.add_0_r, Z.mul_comm, Z.mod_add by lia.
    apply Z.mod_small, Hm.
  - replace i with (Z.succ (i - 1)) by lia.
    rewrite Z.pow_succ_r, <- Z.div_div by lia.
    rewrite (Z.mul_comm 256), Z.div_add, (Z.div_small (m a)) by (lia || apply Hm).
    rewrite Z.add_0_l, IH by lia. f_equal; lia.
Qed.

(** [mcopy m d s n]: [m] with [n] bytes of [m] at [s] placed at [d], all read
    before any is written: the specification of a move. *)
Definition mcopy (m : mem) (d s n : Z) : mem :=
  fun x => if within d n x then m (x - d + s) else m x.

(** [mfill m d c n]: [m] with [n] bytes of value [c] at [d]. *)
Definition mfill (m : mem) (d c n : Z) : mem :=
  fun x => if within d n x then c else m x.

#[export] Instance mcopy_proper : Proper (meq ==> eq ==> eq ==> eq ==> meq) mcopy.
Proof.
  intros m1 m2 H d ? <- s ? <- n ? <- x. unfold mcopy. now rewrite !H.
Qed.

(** Copying a word by load and store copies its bytes. *)
Lemma store_load n m d s :
  wf_mem m -> store n m d (load n m s) =m mcopy m d s (Z.of_nat n).
Proof.
  intros Hm x. rewrite store_lookup. unfold mcopy, within.
  destruct ((d <=? x) && (x <? d + Z.of_nat n)) eqn:E; [|reflexivity].
  breflect. rewrite load_byte by (assumption || lia). f_equal; lia.
Qed.

Lemma mcopy_0 m d s n : n <= 0 -> mcopy m d s n =m m.
Proof.
  intros Hn x. unfold mcopy, within.
  destruct (_ && _) eqn:E; breflect; [lia|reflexivity].
Qed.

(** Consecutive copies are one copy, when the first did not overwrite what
    the second reads. *)
Lemma mcopy_app m d s j k :
  0 <= j -> 0 <= k ->
  (forall x, s + j <= x < s + j + k -> ~ d <= x < d + j) ->
  mcopy (mcopy m d s j) (d + j) (s + j) k =m mcopy m d s (j + k).
Proof.
  intros Hj Hk Hsafe x. unfold mcopy, within.
  destruct ((d + j <=? x) && (x <? d + j + k)) eqn:E1; breflect.
  - replace ((d <=? x) && (x <? d + (j + k))) with true by lia.
    replace ((d <=? x - (d + j) + (s + j)) && (x - (d + j) + (s + j) <? d + j)) with false.
    + f_equal. lia.
    + specialize (Hsafe (x - (d + j) + (s + j))). lia.
  - destruct ((d <=? x) && (x <? d + j)) eqn:E2; breflect.
    + now replace ((d <=? x) && (x <? d + (j + k))) with true by lia.
    + now replace ((d <=? x) && (x <? d + (j + k))) with false by lia.
Qed.

Lemma mset_mcopy m d s : mset m d (m s) =m mcopy m d s 1.
Proof.
  intros x. unfold mset, mcopy, within. destruct (Z.eqb_spec x d) as [->|].
  - replace ((d <=? d) && (d <? d + 1)) with true by lia. f_equal. lia.
  - now replace ((d <=? x) && (x <? d + 1)) with false by lia.
Qed.

Lemma mcopy_wf m d s n : wf_mem m -> wf_mem (mcopy m d s n).
Proof. intros Hm x. unfold mcopy. destruct (within d n x); apply Hm. Qed.

Lemma mfill_wf m d c n : wf_mem m -> 0 <= c < 256 -> wf_mem (mfill m d c n).
Proof. intros Hm Hc x. unfold mfill. destruct (within d n x); auto. Qed.

#[export] Hint Resolve mcopy_wf mfill_wf : leb.

(** NUL-terminated strings: [cstr m s l] says that the bytes at [s] are [l],
    none of them NUL, followed by a NUL. *)
Fixpoint cstr (m : mem) (s : Z) (l : list Z) : Prop :=
  match l with
  | [] => m s = 0
  | b :: l' => m s = b /\ 0 < b < 256 /\ cstr m (s + 1) l'
  end.

(** The bytes of a region, in order. *)
Fixpoint bytes_at (m : mem) (a : Z) (n : nat) : list Z :=
  match n with O => [] | S k => m a :: bytes_at m (a + 1) k end.

Lemma bytes_at_forall m a n (P : Z -> Prop) :
  (forall x, P (m x)) -> Forall P (bytes_at m a n).
Proof. intros H. revert a; induction n; intro a; simpl; constructor; auto. Qed.

Lemma bytes_at_length m a n : length (bytes_at m a n) = n.
Proof. revert a; induction n; intro a; simpl; auto. Qed.

Lemma bytes_at_app m a n1 n2 :
  bytes_at m a (n1 + n2) = bytes_at m a n1 ++ bytes_at m (a + Z.of_nat n1) n2.
Proof.
  revert a; induction n1 as [|n1 IH]; intro a; simpl.
  - now rewrite Z.add_0_r.
  - rewrite IH. f_equal. f_equal. f_equal. lia.
Qed.

Lemma bytes_at_ext m1 m2 a n :
  (forall x, a <= x < a + Z.of_nat n -> m1 x = m2 x) -> bytes_at m1 a n = bytes_at m2 a n.
Proof.
  revert a; induction n as [|n IH]; intros a H; simpl; [reflexivity|].
  rewrite H, IH; [reflexivity| |lia]. intros x Hx. apply H. lia.
Qed.

Lemma bytes_at_skipn m a n j :
  (j <= n)%nat -> skipn j (bytes_at m a n) = bytes_at m (a + Z.of_nat j) (n - j).
Proof.
  intros Hj. replace n with (j + (n - j))%nat at 1 by lia.
  rewrite bytes_at_app, skipn_app, skipn_all2, bytes_at_length, Nat.sub_diag
    by (rewrite bytes_at_length; lia).
  reflexivity.
Qed.

Lemma bytes_at_firstn m a n j :
  (j <= n)%nat -> firstn j (bytes_at m a n) = bytes_at m a j.
Proof.
  intros Hj. replace n with (j + (n - j))%nat by lia.
  rewrite bytes_at_app, firstn_app, firstn_all2, bytes_at_length, Nat.sub_diag
    by (rewrite bytes_at_length; lia).
  apply app_nil_r.
Qed.

Lemma bytes_at_upto m a n j :
  bytes_at m a (Nat.min n j) = firstn j (bytes_at m a n).
Proof.
  destruct (Nat.le_gt_cases j n).
  - now rewrite Nat.min_r, bytes_at_firstn by lia.
  - rewrite Nat.min_l, firstn_all2 by (rewrite ?bytes_at_length; lia). reflexivity.
Qed.

Lemma bytes_at_mcopy m d s n : bytes_at (mcopy m d s (Z.of_nat n)) d n = bytes_at m s n.
Proof.
  assert (H : forall k i, (i + k <= n)%nat ->
    bytes_at (mcopy m d s (Z.of_nat n)) (d + Z.of_nat i) k = bytes_at m (s + Z.of_nat i) k).
  - induction k as [|k IH]; intros i Hi; [reflexivity|]. cbn [bytes_at].
    replace (d + Z.of_nat i + 1) with (d + Z.of_nat (S i)) by lia.
    replace (s + Z.of_nat i + 1) with (s + Z.of_nat (S i)) by lia.
    rewrite IH by lia. f_equal. unfold mcopy, within.
    replace ((d <=? d + Z.of_nat i) && _) with true by lia. f_equal. lia.
  - specialize (H n 0%nat). cbn [Z.of_nat] in H. rewrite !Z.add_0_r in H. auto with arith.
Qed.

Lemma mcopy_out m d s n x : ~ d <= x < d + n -> mcopy m d s n x = m x.
Proof.
  intros Hx. unfold mcopy, within. now replace ((d <=? x) && _) with false by lia.
Qed.

Definition upd_list (m : mem) (a : Z) (l : list Z) : mem :=
  fun x => if within a (Z.of_nat (length l)) x then nth (Z.to_nat (x - a)) l 0 else m x.

(** Writing a list byte by byte. *)
Lemma upd_list_cons m a b l : upd_list m a (b :: l) =m upd_list (m<{a := b}>) (a + 1) l.
Proof.
  intros x. unfold upd_list, mset. cbn [length]. unfold within.
  destruct (Z.eqb_spec x a) as [->|Hne].
  - rewrite Z.sub_diag. replace (a + 1 <=? a) with false by lia.
    replace (a <=? a) with true by lia.
    now replace (a <? a + Z.of_nat (S (length l))) with true by lia.
  - replace ((a + 1 <=? x) && (x <? a + 1 + Z.of_nat (length l)))
      with ((a <=? x) && (x <? a + Z.of_nat (S (length l)))) by lia.
    destruct (_ && _) eqn:E; [|reflexivity]. breflect.
    now replace (Z.to_nat (x - a)) with (S (Z.to_nat (x - (a + 1)))) by lia.
Qed.

Lemma upd_list_nil m a : upd_list m a [] =m m.
Proof.
  intros x. unfold upd_list, within. cbn [length].
  now replace ((a <=? x) && _) with false by lia.
Qed.

Lemma upd_list_wf m a l :
  wf_mem m -> Forall (fun b => 0 <= b < 256) l -> wf_mem (upd_list m a l).
Proof.
  intros Hm Hl x. unfold upd_list. destruct (within _ _ x) eqn:E; [|apply Hm].
  unfold within in E. rewrite Forall_forall in Hl. apply Hl, nth_In. lia.
Qed.

Lemma bytes_at_upd_list m a l k :
  bytes_at (upd_list m a l) a (length l + k) = l ++ bytes_at m (a + Z.of_nat (length l)) k.
Proof.
  rewrite bytes_at_app. f_equal.
  - revert m a; induction l as [|b l IH]; intros m a; cbn [length bytes_at]; [reflexivity|].
    f_equal.
    + unfold upd_list, within. rewrite Z.sub_diag.
      now replace ((a <=? a) && _) with true by (cbn [length]; lia).
    + etransitivity; [|apply (IH (m<{a := b}>) (a + 1))]. apply bytes_at_ext.
      intros. apply upd_list_cons.
  - apply bytes_at_ext. intros x Hx. unfold upd_list, within.
    now replace ((a <=? x) && _) with false by lia.
Qed.

Lemma upd_list_out m a l x :
  ~ a <= x < a + Z.of_nat (length l) -> upd_list m a l x = m x.
Proof.
  intros Hx. unfold upd_list, within. now replace ((a <=? x) && _) with false by lia.
Qed.

Lemma bytes_at_upd m a l : bytes_at (upd_list m a l) a (length l) = l.
Proof.
  rewrite <- (Nat.add_0_r (length l)), bytes_at_upd_list. cbn. apply app_nil_r.
Qed.

#[export] Instance bytes_at_proper : Proper (meq ==> eq ==> eq ==> eq) bytes_at.
Proof. intros m1 m2 H a ? <- n ? <-. apply bytes_at_ext. auto. Qed.
