(* ===== verification/Calendar.v ===== *)
(** * Calendar: broken-down time and seconds since the epoch

    Models src/time/__year_to_secs.c, __month_to_secs.c, __tm_to_secs.c,
    __secs_to_tm.c, timegm.c and gmtime_r.c.  The specification is the
    proleptic Gregorian calendar, written independently of the code: leap
    years by the 4/100/400 rule, days before a year and before a month as
    sums.  The theorems say that both directions agree with it and are inverse
    to each other, and when a time is rejected. *)

From Stdlib Require Import ZArith Lia List Bool String.
From S2P Require Import Prelude.
Import ListNotations.
Open Scope Z_scope.

(** ** The code *)

(** struct tm (include/time.h); the zone name is the pointed-to string. *)
Record tm := mk_tm {
  tm_sec : Z; tm_min : Z; tm_hour : Z; tm_mday : Z; tm_mon : Z; tm_year : Z;
  tm_wday : Z; tm_yday : Z; tm_isdst : Z; tm_gmtoff : Z; tm_zone : string }.

(** __month_to_secs *)
Definition secs_through_month : list Z :=
  [0; 31*86400; 59*86400; 90*86400; 120*86400; 151*86400; 181*86400; 212*86400;
   243*86400; 273*86400; 304*86400; 334*86400].

Definition month_to_secs (month is_leap : Z) : Z :=
  let t := nth (Z.to_nat month) secs_through_month 0 in
  if negb (is_leap =? 0) && (2 <=? month) then t + 86400 else t.

(** The part of __year_to_secs that splits the year of a 400-year cycle into
    centuries and leap days. *)
Definition century_split (rem : Z) : Z * Z * Z :=
  if rem =? 0 then (0, 0, 1)
  else
    let '(centuries, rem) :=
      if 200 <=? rem then
        if 300 <=? rem then (3, rem - 300) else (2, rem - 200)
      else
        if 100 <=? rem then (1, rem - 100) else (0, rem) in
    if rem =? 0 then (centuries, 0, 0)
    else (centuries, u32 rem / 4, b2z (u32 rem mod 4 =? 0)).

(** __year_to_secs: the seconds and the value stored through [is_leap]. *)
Definition year_to_secs (year : Z) : Z * Z :=
  if u64 (year - 2) <=? 136 then
    let y := s32 year in
    let leaps := Z.shiftr (y - 68) 2 in
    let '(leaps, is_leap) :=
      if Z.land (y - 68) 3 =? 0 then (leaps - 1, 1) else (leaps, 0) in
    (s32 (s32 (31536000 * (y - 70)) + s32 (86400 * leaps)), is_leap)
  else
    let cycles := s32 (Z.quot (year - 100) 400) in
    let rem := s32 (Z.rem (year - 100) 400) in
    let '(cycles, rem) := if rem <? 0 then (cycles - 1, rem + 400) else (cycles, rem) in
    let '(centuries, leaps, is_leap) := century_split rem in
    let leaps := s32 (leaps + s32 (97 * cycles + 24 * centuries - is_leap)) in
    (s64 ((year - 100) * 31536000 + leaps * 86400 + 946684800 + 86400), is_leap).

(** __tm_to_secs *)
Definition tm_to_secs (t : tm) : Z :=
  let year := tm_year t in
  let month := tm_mon t in
  let '(year, month) :=
    if (12 <=? month) || (month <? 0) then
      let adj := Z.quot month 12 in
      let month := Z.rem month 12 in
      let '(adj, month) := if month <? 0 then (adj - 1, month + 12) else (adj, month) in
      (year + adj, month)
    else (year, month) in
  let '(r, is_leap) := year_to_secs year in
  let r := s64 (r + month_to_secs month is_leap) in
  let r := s64 (r + s64 (86400 * s32 (tm_mday t - 1))) in
  let r := s64 (r + s64 (3600 * tm_hour t)) in
  let r := s64 (r + s64 (60 * tm_min t)) in
  s64 (r + tm_sec t).

(** __secs_to_tm *)
Definition LEAPOCH : Z := 946684800 + 86400 * (31 + 29).
Definition DAYS_PER_400Y : Z := 365 * 400 + 97.
Definition DAYS_PER_100Y : Z := 365 * 100 + 24.
Definition DAYS_PER_4Y : Z := 365 * 4 + 1.

Definition days_in_month : list Z := [31; 30; 31; 30; 31; 31; 30; 31; 30; 31; 31; 29].

(** The month loop; the table is walked from its start. *)
Fixpoint month_loop (table : list Z) (months remdays : Z) : Z * Z :=
  match table with
  | [] => (months, remdays)
  | d :: table' =>
      if d <=? remdays then month_loop table' (months + 1) (remdays - d)
      else (months, remdays)
  end.

(** The split of the days of a 400-year cycle into centuries, four-year
    cycles, years and days, with the last day of a leap cycle kept in it. *)
Definition split_days (remdays : Z) : Z * Z * Z * Z :=
  let c_cycles := Z.quot remdays DAYS_PER_100Y in
  let c_cycles := if c_cycles =? 4 then c_cycles - 1 else c_cycles in
  let remdays := remdays - c_cycles * DAYS_PER_100Y in
  let q_cycles := Z.quot remdays DAYS_PER_4Y in
  let q_cycles := if q_cycles =? 25 then q_cycles - 1 else q_cycles in
  let remdays := remdays - q_cycles * DAYS_PER_4Y in
  let remyears := Z.quot remdays 365 in
  let remyears := if remyears =? 4 then remyears - 1 else remyears in
  let remdays := remdays - remyears * 365 in
  (c_cycles, q_cycles, remyears, remdays).

(** [None] is the return value -1; otherwise the struct as the code leaves it:
    tm_isdst, tm_gmtoff and tm_zone are not written. *)
Definition secs_to_tm (t : Z) (tm0 : tm) : option tm :=
  if (t <? INT_MIN * 31622400) || (INT_MAX * 31622400 <? t) then None
  else
  let secs := t - LEAPOCH in
  let days := Z.quot secs 86400 in
  let remsecs := Z.rem secs 86400 in
  let '(remsecs, days) :=
    if remsecs <? 0 then (remsecs + 86400, days - 1) else (remsecs, days) in
  let wday := Z.rem (3 + days) 7 in
  let wday := if wday <? 0 then wday + 7 else wday in
  let qc_cycles := s32 (Z.quot days DAYS_PER_400Y) in
  let remdays := s32 (Z.rem days DAYS_PER_400Y) in
  let '(remdays, qc_cycles) :=
    if remdays <? 0 then (remdays + DAYS_PER_400Y, qc_cycles - 1)
    else (remdays, qc_cycles) in
  let '(c_cycles, q_cycles, remyears, remdays) := split_days remdays in
  let leap := b2z ((remyears =? 0) && (negb (q_cycles =? 0) || (c_cycles =? 0))) in
  let yday := remdays + 31 + 28 + leap in
  let yday := if 365 + leap <=? yday then yday - (365 + leap) else yday in
  let years := remyears + 4 * q_cycles + 100 * c_cycles + 400 * qc_cycles in
  let '(months, remdays) := month_loop days_in_month 0 remdays in
  let '(months, years) :=
    if 10 <=? months then (months - 12, years + 1) else (months, years) in
  if (INT_MAX <? years + 100) || (years + 100 <? INT_MIN) then None
  else Some
    {| tm_year := years + 100;
       tm_mon := months + 2;
       tm_mday := remdays + 1;
       tm_wday := wday;
       tm_yday := yday;
       tm_hour := Z.quot remsecs 3600;
       tm_min := Z.rem (Z.quot remsecs 60) 60;
       tm_sec := Z.rem remsecs 60;
       tm_isdst := tm_isdst tm0; tm_gmtoff := tm_gmtoff tm0; tm_zone := tm_zone tm0 |}.

(** The effect of a call that may set errno and fail. *)
Definition set_utc (t : tm) : tm :=
  {| tm_sec := tm_sec t; tm_min := tm_min t; tm_hour := tm_hour t;
     tm_mday := tm_mday t; tm_mon := tm_mon t; tm_year := tm_year t;
     tm_wday := tm_wday t; tm_yday := tm_yday t;
     tm_isdst := 0; tm_gmtoff := 0; tm_zone := "UTC" |}.

(** timegm: return value, the caller's struct after the call, errno if set.
    [new0] is the uninitialised local. *)
Definition timegm (new0 t : tm) : Z * tm * option Z :=
  let r := tm_to_secs t in
  match secs_to_tm r new0 with
  | None => (-1, t, Some EOVERFLOW)
  | Some new => (r, set_utc new, None)
  end.

(** gmtime_r: the filled struct, or NULL with errno. *)
Definition gmtime_r (t : Z) (tm0 : tm) : option tm * option Z :=
  match secs_to_tm t tm0 with
  | None => (None, Some EOVERFLOW)
  | Some r => (Some (set_utc r), None)
  end.

(** ** The Gregorian calendar *)

Definition leap_year (y : Z) : bool :=
  (y mod 4 =? 0) && (negb (y mod 100 =? 0) || (y mod 400 =? 0)).

(** Days from 1 January of year 1 to 1 January of year [y]. *)
Definition days_before_year (y : Z) : Z :=
  365 * (y - 1) + (y - 1) / 4 - (y - 1) / 100 + (y - 1) / 400.

Definition month_len (leap : bool) (mon : Z) : Z :=
  nth (Z.to_nat mon) [31; if leap then 29 else 28; 31; 30; 31; 30;
                      31; 31; 30; 31; 30; 31] 0.

Definition month_start (leap : bool) (mon : Z) : Z :=
  fold_left Z.add (map (month_len leap) (zrange 0 (Z.to_nat mon))) 0.

Definition month_length (y mon : Z) : Z := month_len (leap_year y) mon.
Definition days_before_month (y mon : Z) : Z := month_start (leap_year y) mon.

(** Days since 1970-01-01 of a date (month 0..11, day 1..). *)
Definition civil_days (y mon mday : Z) : Z :=
  days_before_year y - days_before_year 1970 + days_before_month y mon + (mday - 1).

Definition valid_date (y mon mday : Z) : Prop :=
  0 <= mon <= 11 /\ 1 <= mday <= month_length y mon.

(** A broken-down time denotes the date and time [t] seconds after the epoch:
    every field in its range, the day of the week and of the year included. *)
Record denotes (r : tm) (t : Z) : Prop := mk_denotes {
  den_date : valid_date (tm_year r + 1900) (tm_mon r) (tm_mday r);
  den_time : 0 <= tm_hour r <= 23 /\ 0 <= tm_min r <= 59 /\ 0 <= tm_sec r <= 59;
  den_wday : tm_wday r = (civil_days (tm_year r + 1900) (tm_mon r) (tm_mday r) + 4) mod 7;
  den_yday : tm_yday r =
    days_before_month (tm_year r + 1900) (tm_mon r) + (tm_mday r - 1);
  den_secs : t = 86400 * civil_days (tm_year r + 1900) (tm_mon r) (tm_mday r)
                 + 3600 * tm_hour r + 60 * tm_min r + tm_sec r }.

(** ** Facts of the calendar *)

Lemma days_before_year_400 k a :
  days_before_year (400 * k + a) = 146097 * k + days_before_year a.
Proof. unfold days_before_year. zlia. Qed.

Lemma leap_year_400 k a : leap_year (400 * k + a) = leap_year a.
Proof.
  unfold leap_year.
  replace ((400 * k + a) mod 4) with (a mod 4) by zlia.
  replace ((400 * k + a) mod 100) with (a mod 100) by zlia.
  now replace ((400 * k + a) mod 400) with (a mod 400) by zlia.
Qed.

Lemma days_before_year_succ y :
  days_before_year (y + 1) = days_before_year y + 365 + b2z (leap_year y).
Proof.
  assert (H : forall r, 0 <= r < 400 ->
    (days_before_year (r + 1) =? days_before_year r + 365 + b2z (leap_year r)) = true).
  { apply (zrange_check _ 0 400). vm_compute. reflexivity. }
  specialize (H (y mod 400) ltac:(zlia)). apply Z.eqb_eq in H.
  rewrite (Z.div_mod y 400) by lia.
  rewrite <- Z.add_assoc, !days_before_year_400, leap_year_400, H. lia.
Qed.

Lemma days_before_year_mono y y' : y <= y' -> days_before_year y <= days_before_year y'.
Proof. intros H. unfold days_before_year. zlia. Qed.

(** A check over the months and both kinds of year. *)
Lemma month_check (f : bool -> Z -> bool) :
  forallb (fun b => forallb (f b) (zrange 0 12)) [true; false] = true ->
  forall b m, 0 <= m <= 11 -> f b m = true.
Proof.
  intros H b m Hm. rewrite forallb_forall in H.
  apply (zrange_check (f b) 0 12); [apply H; destruct b; simpl; auto | lia].
Qed.

Lemma month_start_bounds leap m :
  0 <= m <= 11 ->
  0 <= month_start leap m /\ month_start leap m + month_len leap m <= 365 + b2z leap /\
  28 <= month_len leap m <= 31.
Proof.
  intros Hm.
  assert (H : (0 <=? month_start leap m) &&
    (month_start leap m + month_len leap m <=? 365 + b2z leap) &&
    (28 <=? month_len leap m) && (month_len leap m <=? 31) = true).
  { revert leap m Hm. apply month_check. reflexivity. }
  lia.
Qed.

Lemma month_start_next leap m m' :
  0 <= m <= 11 -> 0 <= m' <= 11 -> m < m' ->
  month_start leap m + month_len leap m <= month_start leap m'.
Proof.
  intros Hm Hm' Hlt.
  assert (H : forallb (fun n => (n <=? m) ||
    (month_start leap m + month_len leap m <=? month_start leap n)) (zrange 0 12) = true).
  { clear Hlt. revert leap m Hm. apply month_check. vm_compute. reflexivity. }
  pose proof (zrange_check _ _ _ H m' ltac:(lia)). simpl in H0. lia.
Qed.

Lemma civil_days_year y m d :
  valid_date y m d ->
  days_before_year y <= civil_days y m d + days_before_year 1970 < days_before_year (y + 1).
Proof.
  intros [Hm Hd]. unfold civil_days, days_before_month, month_length in *.
  rewrite days_before_year_succ.
  pose proof (month_start_bounds (leap_year y) m Hm). lia.
Qed.

(** A day has one date. *)
Lemma civil_days_inj y m d y' m' d' :
  valid_date y m d -> valid_date y' m' d' -> civil_days y m d = civil_days y' m' d' ->
  y = y' /\ m = m' /\ d = d'.
Proof.
  intros H H' E.
  assert (y = y') as <-.
  { pose proof (civil_days_year _ _ _ H). pose proof (civil_days_year _ _ _ H').
    destruct (Z.lt_trichotomy y y') as [L|[L|L]]; [|assumption|];
      [pose proof (days_before_year_mono (y + 1) y' ltac:(lia))
      |pose proof (days_before_year_mono (y' + 1) y ltac:(lia))]; lia. }
  split; [reflexivity|].
  destruct H as [Hm Hd], H' as [Hm' Hd'].
  unfold civil_days, days_before_month, month_length in *.
  destruct (Z.lt_trichotomy m m') as [L|[->|L]]; [exfalso| |exfalso].
  - pose proof (month_start_next (leap_year y) m m' Hm Hm' L). lia.
  - split; lia.
  - pose proof (month_start_next (leap_year y) m' m Hm' Hm L). lia.
Qed.

(** ** From broken-down time to seconds *)

Lemma century_split_spec rem c l i :
  0 <= rem < 400 -> century_split rem = (c, l, i) ->
  0 <= c <= 3 /\ 0 <= l <= 25 /\ i = b2z (leap_year (2000 + rem)) /\
  365 * rem + (l + 24 * c - i) + 1 = days_before_year (2000 + rem) - days_before_year 2000.
Proof.
  intros Hr E.
  assert (H : (let '(c, l, i) := century_split rem in
    (0 <=? c) && (c <=? 3) && (0 <=? l) && (l <=? 25) && (i =? b2z (leap_year (2000 + rem))) &&
    (365 * rem + (l + 24 * c - i) + 1 =?
       days_before_year (2000 + rem) - days_before_year 2000)) = true).
  { clear E. revert rem Hr. apply (zrange_check _ 0 400). vm_compute. reflexivity. }
  rewrite E in H. lia.
Qed.

Definition int_year (year : Z) : Prop := -4294967296 <= year <= 4294967296.

(** Seconds at the start of a year, and its leap flag. *)
Lemma year_to_secs_spec year :
  int_year year ->
  year_to_secs year =
  (86400 * (days_before_year (year + 1900) - days_before_year 1970),
   b2z (leap_year (year + 1900))).
Proof.
  unfold int_year. intros Hy.
  destruct (Z.leb_spec (u64 (year - 2)) 136) as [Hw|Hw].
  - assert (Hsmall : 2 <= year < 2 + Z.of_nat 137) by (unfold u64 in Hw; zlia).
    assert (H : (let '(t, i) := year_to_secs year in
      (t =? 86400 * (days_before_year (year + 1900) - days_before_year 1970)) &&
      (i =? b2z (leap_year (year + 1900)))) = true).
    { clear Hy Hw. revert year Hsmall. apply zrange_check. vm_compute. reflexivity. }
    destruct (year_to_secs year) as [t i]. f_equal; lia.
  - unfold year_to_secs. apply Z.leb_gt in Hw as ->.
    set (q := (year - 100) / 400). set (r := (year - 100) mod 400).
    assert (Hqr : year - 100 = 400 * q + r /\ 0 <= r < 400) by (subst q r; zlia).
    clearbody q r.
    rewrite (s32_small (Z.quot _ _)), (s32_small (Z.rem _ _)) by zlia.
    replace (if _ <? 0 then _ else _) with (q, r) by (case_if; f_equal; zlia).
    destruct (century_split r) as [[c l] i] eqn:E.
    destruct (century_split_spec r c l i (proj2 Hqr) E) as (Hc & Hl & Hi & Hd).
    assert (Hi' : 0 <= i <= 1) by (rewrite Hi; destruct (leap_year _); simpl; lia).
    rewrite (s32_small (97 * q + 24 * c - i)), s32_small by lia.
    assert (Hyear : year + 1900 = 400 * q + (2000 + r)) by lia.
    rewrite Hyear, leap_year_400, days_before_year_400, <- Hi.
    f_equal. rewrite s64_small by lia.
    change (days_before_year 2000) with 730119 in Hd.
    change (days_before_year 1970) with 719162. lia.
Qed.

Lemma month_to_secs_spec month leap :
  0 <= month <= 11 -> month_to_secs month (b2z leap) = 86400 * month_start leap month.
Proof.
  intros Hm. apply Z.eqb_eq. revert leap month Hm. apply month_check. reflexivity.
Qed.

(** The fields are C ints. *)
Definition int_fields (t : tm) : Prop :=
  let int z := INT_MIN <= z <= INT_MAX in
  int (tm_sec t) /\ int (tm_min t) /\ int (tm_hour t) /\
  INT_MIN < tm_mday t <= INT_MAX /\ int (tm_mon t) /\ int (tm_year t).

(** What a broken-down time stands for, its fields normalised or not. *)
Definition secs_of_fields (t : tm) : Z :=
  86400 * civil_days (tm_year t + tm_mon t / 12 + 1900) (tm_mon t mod 12) (tm_mday t)
  + 3600 * tm_hour t + 60 * tm_min t + tm_sec t.

Lemma days_before_year_bound y :
  -4294970000 <= y <= 4294970000 -> Z.abs (days_before_year y) <= 1600000000000.
Proof. unfold days_before_year. intros. zlia. Qed.

Lemma tm_to_secs_fields t : int_fields t -> tm_to_secs t = secs_of_fields t.
Proof.
  unfold int_fields, INT_MIN, INT_MAX. intros (Hs & Hmi & Hh & Hd & Hm & Hy).
  unfold tm_to_secs, secs_of_fields.
  set (Y := tm_year t + tm_mon t / 12). set (M := tm_mon t mod 12).
  assert (HM : 0 <= M <= 11) by (subst M; zlia).
  assert (HY : int_year Y) by (unfold int_year; subst Y; zlia).
  replace (if (12 <=? tm_mon t) || (tm_mon t <? 0) then _ else _) with (Y, M).
  2:{ subst Y M. destruct (_ || _) eqn:E; [case_if|]; f_equal; zlia. }
  rewrite (year_to_secs_spec Y HY), month_to_secs_spec by exact HM.
  pose proof (month_start_bounds (leap_year (Y + 1900)) M HM) as HB.
  assert (HYb : Z.abs (days_before_year (Y + 1900)) <= 1600000000000)
    by (apply days_before_year_bound; unfold int_year in HY; lia).
  assert (Hlb : 0 <= b2z (leap_year (Y + 1900)) <= 1) by (destruct (leap_year _); simpl; lia).
  unfold civil_days, days_before_month. change (days_before_year 1970) with 719162 in *.
  drop_wraps. lia.
Qed.

(** ** From seconds to broken-down time *)

Lemma split_days_spec rd c q y d :
  0 <= rd < 146097 -> split_days rd = (c, q, y, d) ->
  0 <= c <= 3 /\ 0 <= q <= 24 /\ 0 <= y <= 3 /\ 0 <= d <= 365 /\
  rd = 36524 * c + 1461 * q + 365 * y + d /\
  (d = 365 -> y = 3 /\ (q < 24 \/ c = 3)).
Proof.
  unfold split_days. change DAYS_PER_100Y with 36524. change DAYS_PER_4Y with 1461.
  intros Hr.
  set (c' := if Z.quot rd 36524 =? 4 then _ else _).
  assert (Hc : 0 <= c' <= 3 /\ 0 <= rd - c' * 36524 <= 36524 /\
               (c' < 3 -> rd - c' * 36524 < 36524)).
  { subst c'. case_if; breflect; zlia. }
  clearbody c'. set (r1 := rd - c' * 36524) in *.
  set (q' := if Z.quot r1 1461 =? 25 then _ else _).
  assert (Hq : 0 <= q' <= 24 /\ 0 <= r1 - q' * 1461 <= 1460 /\
               (r1 < 36524 -> q' = 24 -> r1 - q' * 1461 < 1460)).
  { subst q'. case_if; breflect; zlia. }
  clearbody q'. set (r2 := r1 - q' * 1461) in *.
  set (y' := if Z.quot r2 365 =? 4 then _ else _).
  assert (Hy : 0 <= y' <= 3 /\ 0 <= r2 - y' * 365 <= 365 /\
               (r2 - y' * 365 = 365 -> y' = 3)).
  { subst y'. case_if; breflect; zlia. }
  clearbody y'. intros [= <- <- <- <-]. subst r1 r2. lia.
Qed.

(** Years are counted from 1 March: a cycle position names a leap year
    exactly when the code's [leap] says so. *)
Lemma cycle_leap qc c q y :
  0 <= c <= 3 -> 0 <= q <= 24 -> 0 <= y <= 3 ->
  leap_year (2000 + (y + 4 * q + 100 * c + 400 * qc)) =
  (y =? 0) && (negb (q =? 0) || (c =? 0)).
Proof.
  intros. unfold leap_year.
  replace ((2000 + (y + 4 * q + 100 * c + 400 * qc)) mod 4) with y by zlia.
  replace ((2000 + (y + 4 * q + 100 * c + 400 * qc)) mod 100) with (4 * q + y) by zlia.
  replace ((2000 + (y + 4 * q + 100 * c + 400 * qc)) mod 400) with (100 * c + 4 * q + y) by zlia.
  lia.
Qed.

Lemma cycle_days qc c q y :
  0 <= c <= 3 -> 0 <= q <= 24 -> 0 <= y <= 3 ->
  days_before_year (2000 + (y + 4 * q + 100 * c + 400 * qc) + 1) =
  730485 + 146097 * qc + 36524 * c + 1461 * q + 365 * y.
Proof. intros. unfold days_before_year. zlia. Qed.

(** The month loop against the calendar: day [d] after 1 March of year [Y]. *)
Definition after_march (Y d m r : Z) : Prop :=
  if 10 <=? m
  then 306 <= d /\ valid_date (Y + 1) (m - 10) (r + 1) /\
       days_before_month (Y + 1) (m - 10) + r = d - 306
  else d < 306 /\ valid_date Y (m + 2) (r + 1) /\
       days_before_month Y (m + 2) + r = d + 59 + b2z (leap_year Y).

Lemma month_loop_check b d :
  0 <= d <= 365 -> (d = 365 -> b = true) ->
  let '(m, r) := month_loop days_in_month 0 d in
  if 10 <=? m
  then 306 <= d /\ 0 <= m - 10 <= 11 /\ 1 <= r + 1 <= month_len b (m - 10) /\
       month_start b (m - 10) + r = d - 306
  else d < 306 /\ 0 <= m + 2 <= 11 /\ 1 <= r + 1 <= month_len b (m + 2) /\
       month_start b (m + 2) + r = d + 59 + b2z b.
Proof.
  intros Hd Hb.
  assert (H : (negb b && (d =? 365)) || (let '(m, r) := month_loop days_in_month 0 d in
    if 10 <=? m
    then (306 <=? d) && (0 <=? m - 10) && (m - 10 <=? 11) && (1 <=? r + 1) &&
         (r + 1 <=? month_len b (m - 10)) && (month_start b (m - 10) + r =? d - 306)
    else (d <? 306) && (0 <=? m + 2) && (m + 2 <=? 11) && (1 <=? r + 1) &&
         (r + 1 <=? month_len b (m + 2)) &&
         (month_start b (m + 2) + r =? d + 59 + b2z b)) = true).
  { clear Hb. assert (Hd' : 0 <= d < 0 + Z.of_nat 366) by lia. clear Hd. revert d Hd'.
    apply zrange_check. destruct b; vm_compute; reflexivity. }
  destruct (month_loop days_in_month 0 d) as [m r].
  assert (Hx : negb b && (d =? 365) = false) by (destruct b; simpl; lia).
  rewrite Hx in H. simpl in H. destruct (10 <=? m); lia.
Qed.

Lemma month_loop_spec Y d m r :
  0 <= d <= 365 -> (d = 365 -> leap_year (Y + 1) = true) ->
  month_loop days_in_month 0 d = (m, r) -> after_march Y d m r.
Proof.
  intros Hd Hl E. unfold after_march, valid_date, days_before_month, month_length.
  pose proof (month_loop_check (leap_year (Y + 1)) d Hd Hl) as H1. rewrite E in H1.
  destruct (10 <=? m) eqn:Em; [tauto|].
  pose proof (month_loop_check (leap_year Y) d Hd ltac:(lia)) as H2.
  rewrite E, Em in H2. tauto.
Qed.

(** The fields __secs_to_tm leaves alone. *)
Definition same_zone (r tm0 : tm) : Prop :=
  tm_isdst r = tm_isdst tm0 /\ tm_gmtoff r = tm_gmtoff tm0 /\ tm_zone r = tm_zone tm0.

Lemma time_of_day s :
  0 <= s < 86400 ->
  (0 <= Z.quot s 3600 <= 23 /\ 0 <= Z.rem (Z.quot s 60) 60 <= 59 /\ 0 <= Z.rem s 60 <= 59) /\
  s = 3600 * Z.quot s 3600 + 60 * Z.rem (Z.quot s 60) 60 + Z.rem s 60.
Proof. intros. zlia. Qed.

Lemma after_march_civil Y d m r :
  after_march Y d m r ->
  civil_days (if 10 <=? m then Y + 1 else Y) (if 10 <=? m then m - 10 else m + 2) (r + 1)
  = days_before_year (Y + 1) - 306 + d - days_before_year 1970.
Proof.
  unfold after_march, civil_days. rewrite days_before_year_succ.
  destruct (10 <=? m); intros (_ & _ & E); [rewrite days_before_year_succ|]; lia.
Qed.

Lemma secs_to_tm_in_range t tm0 :
  INT_MIN * 31622400 <= t <= INT_MAX * 31622400 ->
  exists r, denotes r t /\ same_zone r tm0 /\
    secs_to_tm t tm0 =
    if (INT_MIN <=? tm_year r) && (tm_year r <=? INT_MAX) then Some r else None.
Proof.
  unfold INT_MIN, INT_MAX. intros Ht. unfold secs_to_tm.
  replace (_ || _) with false by (unfold INT_MIN, INT_MAX; lia).
  change LEAPOCH with 951868800. change DAYS_PER_400Y with 146097.
  set (D := (t - 951868800) / 86400). set (sd := (t - 951868800) mod 86400).
  assert (HD : t = 951868800 + 86400 * D + sd /\ 0 <= sd < 86400) by (subst D sd; zlia).
  replace (if Z.rem (t - _) _ <? 0 then _ else _) with (sd, D)
    by (subst D sd; case_if; breflect; f_equal; zlia).
  clearbody D sd.
  replace (if Z.rem (3 + D) 7 <? 0 then _ else _) with ((3 + D) mod 7)
    by (case_if; breflect; zlia).
  set (qc := D / 146097). set (rd := D mod 146097).
  assert (Hqc : D = 146097 * qc + rd /\ 0 <= rd < 146097) by (subst qc rd; zlia).
  rewrite (s32_small (Z.quot _ _)), (s32_small (Z.rem _ _)) by zlia.
  replace (if Z.rem D _ <? 0 then _ else _) with (rd, qc)
    by (subst qc rd; case_if; breflect; f_equal; zlia).
  clearbody qc rd.
  destruct (split_days rd) as [[[c q] y] d] eqn:Es.
  destruct (split_days_spec _ _ _ _ _ (proj2 Hqc) Es) as (Hc & Hq & Hy & Hd & Hrd & Hlast).
  set (Y := 2000 + (y + 4 * q + 100 * c + 400 * qc)).
  rewrite <- (cycle_leap qc c q y Hc Hq Hy). fold Y.
  destruct (month_loop days_in_month 0 d) as [m r] eqn:Em.
  assert (HM : after_march Y d m r).
  { apply month_loop_spec; [lia| |assumption]. intros H365.
    destruct (Hlast H365) as [-> Hqc'].
    destruct (Z.eq_dec q 24) as [->|].
    - replace (Y + 1) with (2000 + (0 + 4 * 0 + 100 * 0 + 400 * (qc + 1))) by (subst Y; lia).
      now rewrite cycle_leap by lia.
    - replace (Y + 1) with (2000 + (0 + 4 * (q + 1) + 100 * c + 400 * qc)) by (subst Y; lia).
      rewrite cycle_leap by lia. lia. }
  pose proof (after_march_civil _ _ _ _ HM) as HC.
  pose proof (cycle_days qc c q y Hc Hq Hy) as HYd. fold Y in HYd. rewrite HYd in HC.
  change (days_before_year 1970) with 719162 in HC.
  destruct (time_of_day sd (proj2 HD)) as [Htod Hsd].
  unfold after_march in HM.
  set (yd := if 365 + _ <=? _ then _ else _).
  assert (Hyd : yd = if 10 <=? m then d - 306 else d + 59 + b2z (leap_year Y)).
  { subst yd. destruct (10 <=? m); case_if; breflect; lia. }
  exists {| tm_sec := Z.rem sd 60; tm_min := Z.rem (Z.quot sd 60) 60;
            tm_hour := Z.quot sd 3600; tm_mday := r + 1;
            tm_mon := (if 10 <=? m then m - 10 else m + 2);
            tm_year := (if 10 <=? m then Y + 1 else Y) - 1900;
            tm_wday := (3 + D) mod 7; tm_yday := yd; tm_isdst := tm_isdst tm0;
            tm_gmtoff := tm_gmtoff tm0; tm_zone := tm_zone tm0 |}.
  split; [|split; [repeat split|]].
  - constructor; cbn [tm_sec tm_min tm_hour tm_mday tm_mon tm_year tm_wday tm_yday];
      rewrite ?Z.sub_add; [destruct (10 <=? m); apply HM | exact Htod | | | ].
    + rewrite HC. replace (_ + 4) with (3 + D + 1574 * 7) by lia. now rewrite Z.mod_add.
    + rewrite Hyd. destruct (10 <=? m); lia.
    + rewrite HC. lia.
  - cbn [tm_year]. destruct (10 <=? m) eqn:E10.
    all: destruct (_ || _) eqn:E1; destruct (_ && _) eqn:E2; try reflexivity;
      try (unfold INT_MIN, INT_MAX in *; subst Y; lia).
    all: f_equal; f_equal; subst Y; lia.
Qed.

Lemma denotes_int_fields r t :
  denotes r t -> INT_MIN <= tm_year r <= INT_MAX -> int_fields r.
Proof.
  intros [[Hmon Hmd] Ht _ _ _] Hy.
  pose proof (month_start_bounds (leap_year (tm_year r + 1900)) (tm_mon r) Hmon).
  unfold month_length in Hmd. unfold int_fields, INT_MIN, INT_MAX in *. lia.
Qed.

Lemma denotes_secs_of_fields r t : denotes r t -> secs_of_fields r = t.
Proof.
  intros [[Hmon Hmd] Ht _ _ Hs]. unfold secs_of_fields.
  rewrite Z.div_small, Z.mod_small by lia. rewrite Z.add_0_r. lia.
Qed.

(** Two descriptions of the same second have the same fields. *)
Definition same_fields (r r' : tm) : Prop :=
  tm_sec r = tm_sec r' /\ tm_min r = tm_min r' /\ tm_hour r = tm_hour r' /\
  tm_mday r = tm_mday r' /\ tm_mon r = tm_mon r' /\ tm_year r = tm_year r' /\
  tm_wday r = tm_wday r' /\ tm_yday r = tm_yday r'.

Lemma denotes_unique r r' t : denotes r t -> denotes r' t -> same_fields r r'.
Proof.
  intros [Hv Ht Hw Hyd Hs] [Hv' Ht' Hw' Hyd' Hs'].
  set (c := civil_days _ _ _) in Hs. set (c' := civil_days _ _ _) in Hs'.
  assert (Hc : c = c') by lia.
  destruct (civil_days_inj _ _ _ _ _ _ Hv Hv' Hc) as (Ey & Em & Ed).
  assert (Ey' : tm_year r = tm_year r') by lia.
  unfold same_fields. rewrite Hw, Hw', Hyd, Hyd', Ey, Em, Ed. lia.
Qed.

Lemma denotes_range r t :
  denotes r t -> INT_MIN <= tm_year r <= INT_MAX ->
  INT_MIN * 31622400 <= t <= INT_MAX * 31622400.
Proof.
  intros [Hv Ht _ _ Hs] Hy. pose proof (civil_days_year _ _ _ Hv) as Hc.
  unfold INT_MIN, INT_MAX in *.
  change (days_before_year 1970) with 719162 in Hc.
  unfold days_before_year in Hc. zlia.
Qed.

Lemma secs_to_tm_some t tm0 r :
  secs_to_tm t tm0 = Some r -> denotes r t /\ INT_MIN <= tm_year r <= INT_MAX.
Proof.
  intros E.
  assert (Ht : INT_MIN * 31622400 <= t <= INT_MAX * 31622400).
  { revert E. unfold secs_to_tm. destruct (_ || _) eqn:Eo; [discriminate|]. breflect. lia. }
  destruct (secs_to_tm_in_range t tm0 Ht) as (r' & Hden & _ & Heq).
  rewrite Heq in E. destruct (_ && _) eqn:Ey in E; [|discriminate].
  injection E as <-. split; [assumption|lia].
Qed.

Lemma secs_to_tm_none t tm0 r :
  secs_to_tm t tm0 = None -> denotes r t -> ~ (INT_MIN <= tm_year r <= INT_MAX).
Proof.
  intros E Hden Hy.
  destruct (secs_to_tm_in_range t tm0 (denotes_range _ _ Hden Hy)) as (r' & Hden' & _ & Heq).
  pose proof (denotes_unique _ _ _ Hden Hden') as (_ & _ & _ & _ & _ & S6 & _).
  rewrite Heq, <- S6 in E. replace (_ && _) with true in E by lia. discriminate.
Qed.

Lemma denotes_set_utc r t : denotes r t -> denotes (set_utc r) t.
Proof. now intros []. Qed.

(** C31. Whenever __secs_to_tm accepts a time, the struct it fills is the
    Gregorian date and time of day of that second (day of the week and day of
    the year included), and __tm_to_secs maps it back to the same second. *)
Theorem secs_to_tm_roundtrip t tm0 r :
  secs_to_tm t tm0 = Some r -> denotes r t /\ tm_to_secs r = t.
Proof.
  intros E. destruct (secs_to_tm_some _ _ _ E) as [Hden Hy]. split; [assumption|].
  rewrite tm_to_secs_fields by exact (denotes_int_fields _ _ Hden Hy).
  now apply denotes_secs_of_fields.
Qed.

Definition tm_zero : tm := mk_tm 0 0 0 0 0 0 0 0 0 0 "".

Lemma secs_to_tm_roundtrip_witness :
  exists r, secs_to_tm 1709164800 tm_zero = Some r /\ denotes r 1709164800 /\
            tm_to_secs r = 1709164800.
Proof.
  eexists. split; [vm_compute; reflexivity|].
  apply (secs_to_tm_roundtrip 1709164800 tm_zero). vm_compute. reflexivity.
Defined.

(** __secs_to_tm rejects no representable time: every second whose
    Gregorian year fits in tm_year is converted, to exactly its date, and the
    zone fields are left alone. *)
Theorem secs_to_tm_complete r t tm0 :
  denotes r t -> INT_MIN <= tm_year r <= INT_MAX ->
  exists r', secs_to_tm t tm0 = Some r' /\ same_fields r r' /\ same_zone r' tm0.
Proof.
  intros Hden Hy.
  destruct (secs_to_tm_in_range t tm0 (denotes_range _ _ Hden Hy)) as (r' & Hden' & Hz & Heq).
  pose proof (denotes_unique _ _ _ Hden Hden') as Hsame.
  exists r'. rewrite Heq. destruct Hsame as (S1 & S2 & S3 & S4 & S5 & S6 & S7 & S8).
  rewrite <- S6. replace (_ && _) with true by lia. unfold same_fields. tauto.
Qed.

(** 2000-02-29 23:59:59, a Tuesday. *)
Definition leap_second_before : tm := mk_tm 59 59 23 29 1 100 2 59 0 0 "".

Lemma secs_to_tm_complete_witness :
  exists r', secs_to_tm 951868799 tm_zero = Some r' /\
             same_fields leap_second_before r' /\ same_zone r' tm_zero.
Proof.
  apply (secs_to_tm_complete leap_second_before 951868799 tm_zero).
  - constructor; try (vm_compute; reflexivity); vm_compute; intuition discriminate.
  - cbn. unfold INT_MIN, INT_MAX. lia.
Defined.



(** timegm either returns the value of the caller's fields and rewrites
    them to the normalised UTC date of that second, or fails with EOVERFLOW,
    leaving the struct alone, and then no int year names that second. *)
Theorem timegm_normalises new0 t :
  int_fields t ->
  match timegm new0 t with
  | (v, t', None) => v = secs_of_fields t /\ denotes t' v /\
                     tm_isdst t' = 0 /\ tm_gmtoff t' = 0 /\ tm_zone t' = "UTC"%string
  | (v, t', Some e) => v = -1 /\ e = EOVERFLOW /\ t' = t /\
                       forall r, denotes r (secs_of_fields t) ->
                                 ~ (INT_MIN <= tm_year r <= INT_MAX)
  end.
Proof.
  intros Hi. unfold timegm. rewrite (tm_to_secs_fields t Hi).
  destruct (secs_to_tm (secs_of_fields t) new0) as [r|] eqn:E.
  - destruct (secs_to_tm_some _ _ _ E) as [Hden _].
    split; [reflexivity|]. split; [now apply denotes_set_utc|]. auto.
  - repeat split. intros r. now apply secs_to_tm_none with new0.
Qed.

Lemma timegm_normalises_witness :
  let t := mk_tm 0 0 0 32 11 123 0 0 1 3600 "CET" in
  fst (fst (timegm tm_zero t)) = 1704067200 /\
  denotes (snd (fst (timegm tm_zero t))) 1704067200.
Proof.
  assert (Hi : int_fields (mk_tm 0 0 0 32 11 123 0 0 1 3600 "CET"))
    by (unfold int_fields, INT_MIN, INT_MAX; cbn; lia).
  pose proof (timegm_normalises tm_zero _ Hi) as H. cbv zeta.
  destruct (timegm _ _) as [[v t'] e] eqn:E in H |- *. vm_compute in E.
  injection E as <- <- <-. split; [reflexivity|]. apply H.
Defined.
