(* ===== verification/Utf8.v ===== *)
(** * Utf8: the multibyte conversions

    Models src/multibyte: the state table of internal.c with the tests of
    internal.h, the restartable decoder mbrtowc, the one-shot decoder mbtowc,
    the encoder wcrtomb, the UTF-16 converters c16rtomb and mbrtoc16 and the
    byte/character maps btowc and wctob.  The specification is the UTF-8
    encoding form of a Unicode scalar value, written with division and
    remainder.  [utf8] says whether MB_CUR_MAX is 4 (a UTF-8 locale) or 1. *)

From Stdlib Require Import ZArith Lia ZifyBool List Bool.
From S2P Require Import Prelude.
Import ListNotations.
Open Scope Z_scope.

(** ** The code *)

(** internal.h *)
Definition R (a b : Z) : Z :=
  u32 (Z.shiftl (u32 (if a =? 0x80 then 0x40 - b else 0 - a)) 23).

Definition SA : Z := 0xc2.
Definition SB : Z := 0xf4.

Definition OOB (c b : Z) : bool :=
  negb (Z.land (Z.lor (Z.shiftr b 3 - 0x10) (Z.shiftr b 3 + Z.shiftr (s32 c) 26))
               (Z.lnot 7) =? 0).

Definition CODEUNIT (c : Z) : Z := Z.land 0xdfff (s8 c).
Definition IS_CODEUNIT (c : Z) : bool := u32 (u32 c - 0xdf80) <? 0x80.

(** internal.c *)
Definition C_ (x : Z) : Z := if x <? 2 then u32 (-1) else Z.lor (R 0x80 0xc0) x.
Definition D_ (x : Z) : Z := C_ (x + 16).
Definition E_ (x : Z) : Z :=
  Z.lor (Z.lor (if x =? 0 then R 0xa0 0xc0
                else if x =? 0xd then R 0x80 0xa0
                else R 0x80 0xc0)
               (Z.shiftr (R 0x80 0xc0) 6)) x.
Definition F_ (x : Z) : Z :=
  Z.lor (Z.lor (Z.lor (if 5 <=? x then 0
                       else if x =? 0 then R 0x90 0xc0
                       else if x =? 4 then R 0x80 0x90
                       else R 0x80 0xc0)
                      (Z.shiftr (R 0x80 0xc0) 6))
               (Z.shiftr (R 0x80 0xc0) 12)) x.

Definition bittab : list Z :=
  [C_ 0x2; C_ 0x3; C_ 0x4; C_ 0x5; C_ 0x6; C_ 0x7;
   C_ 0x8; C_ 0x9; C_ 0xa; C_ 0xb; C_ 0xc; C_ 0xd; C_ 0xe; C_ 0xf;
   D_ 0x0; D_ 0x1; D_ 0x2; D_ 0x3; D_ 0x4; D_ 0x5; D_ 0x6; D_ 0x7;
   D_ 0x8; D_ 0x9; D_ 0xa; D_ 0xb; D_ 0xc; D_ 0xd; D_ 0xe; D_ 0xf;
   E_ 0x0; E_ 0x1; E_ 0x2; E_ 0x3; E_ 0x4; E_ 0x5; E_ 0x6; E_ 0x7;
   E_ 0x8; E_ 0x9; E_ 0xa; E_ 0xb; E_ 0xc; E_ 0xd; E_ 0xe; E_ 0xf;
   F_ 0x0; F_ 0x1; F_ 0x2; F_ 0x3; F_ 0x4].

Definition bittab_at (b : Z) : Z := nth (Z.to_nat (b - SA)) bittab 0.

(** c<<6 | *s++-0x80 in 32 bits, and c&(1U<<31). *)
Definition shift_in (c b : Z) : Z := Z.lor (u32 (Z.shiftl c 6)) (u32 (b - 0x80)).
Definition more (c : Z) : bool := negb (Z.land c (Z.shiftl 1 31) =? 0).

(** What a call returns and leaves behind: the return value (a size_t), the
    character stored through wc if any, the conversion state, and errno if
    the call set it. *)
Record mbres := mk_mbres { ret : Z; wcv : option Z; stv : Z; err : option Z }.

Definition size_m1 : Z := u64 (-1).
Definition size_m2 : Z := u64 (-2).

Definition ilseq : mbres := mk_mbres size_m1 None 0 (Some EILSEQ).

(** The label [loop] of mbrtowc: [n] bytes are left, the first of them has
    been checked. *)
Fixpoint mbr_loop (m : mem) (N : Z) (n : nat) (s c : Z) : mbres :=
  match n with
  | O => mk_mbres size_m2 None c None
  | S n' =>
      let c := shift_in c (m s) in
      if negb (more c) then mk_mbres (N - Z.of_nat n') (Some c) 0 None
      else match n' with
           | O => mk_mbres size_m2 None c None
           | S _ => if 0x40 <=? u32 (m (s + 1) - 0x80) then ilseq
                    else mbr_loop m N n' (s + 1) c
           end
  end.

(** mbrtowc with the state value [c] of the mbstate_t in use; [src] is NULL or
    an address. *)
Definition mbrtowc (utf8 : bool) (m : mem) (src : option Z) (n c : Z) : mbres :=
  match src with
  | None => if c =? 0 then mk_mbres 0 None c None else ilseq
  | Some s =>
      if n =? 0 then mk_mbres size_m2 None c None
      else
        let continue s n' c :=
          if n' =? 0 then mk_mbres size_m2 None c None
          else if OOB c (m s) then ilseq
          else mbr_loop m n (Z.to_nat n') s c in
        if c =? 0 then
          if m s <? 0x80 then mk_mbres (b2z (negb (m s =? 0))) (Some (m s)) c None
          else if negb utf8 then mk_mbres 1 (Some (CODEUNIT (m s))) c None
          else if SB - SA <? u32 (m s - SA) then ilseq
          else continue (s + 1) (n - 1) (bittab_at (m s))
        else continue s n c
  end.

(** mbtowc: no state; the return value is an int. *)
Definition ilseq_int : mbres := mk_mbres (-1) None 0 (Some EILSEQ).

Definition mbtowc (utf8 : bool) (m : mem) (src : option Z) (n : Z) : mbres :=
  match src with
  | None => mk_mbres 0 None 0 None
  | Some s =>
      if n =? 0 then ilseq_int
      else if m s <? 0x80 then mk_mbres (b2z (negb (m s =? 0))) (Some (m s)) 0 None
      else if negb utf8 then mk_mbres 1 (Some (CODEUNIT (m s))) 0 None
      else if SB - SA <? u32 (m s - SA) then ilseq_int
      else
        let c := bittab_at (m s) in
        if (n <? 4) && negb (Z.land (u32 (Z.shiftl c (6 * n - 6))) (Z.shiftl 1 31) =? 0)
        then ilseq_int
        else if OOB c (m (s + 1)) then ilseq_int
        else
          let c := shift_in c (m (s + 1)) in
          if negb (more c) then mk_mbres 2 (Some c) 0 None
          else if 0x40 <=? u32 (m (s + 2) - 0x80) then ilseq_int
          else
            let c := shift_in c (m (s + 2)) in
            if negb (more c) then mk_mbres 3 (Some c) 0 None
            else if 0x40 <=? u32 (m (s + 3) - 0x80) then ilseq_int
            else mk_mbres 4 (Some (shift_in c (m (s + 3)))) 0 None
  end.

(** wcrtomb: return value, memory after the call, errno if set.  [wc] is a
    wchar_t (an int). *)
Definition put (m : mem) (a v : Z) : mem := mset m a (u8 v).

Definition wcrtomb (utf8 : bool) (m : mem) (dst : option Z) (wc : Z) : Z * mem * option Z :=
  match dst with
  | None => (1, m, None)
  | Some s =>
      if u32 wc <? 0x80 then (1, put m s wc, None)
      else if negb utf8 then
        if negb (IS_CODEUNIT wc) then (size_m1, m, Some EILSEQ)
        else (1, put m s wc, None)
      else if u32 wc <? 0x800 then
        let m := put m s (Z.lor 0xc0 (Z.shiftr wc 6)) in
        let m := put m (s + 1) (Z.lor 0x80 (Z.land wc 0x3f)) in
        (2, m, None)
      else if (u32 wc <? 0xd800) || (u32 (u32 wc - 0xe000) <? 0x2000) then
        let m := put m s (Z.lor 0xe0 (Z.shiftr wc 12)) in
        let m := put m (s + 1) (Z.lor 0x80 (Z.land (Z.shiftr wc 6) 0x3f)) in
        let m := put m (s + 2) (Z.lor 0x80 (Z.land wc 0x3f)) in
        (3, m, None)
      else if u32 (u32 wc - 0x10000) <? 0x100000 then
        let m := put m s (Z.lor 0xf0 (Z.shiftr wc 18)) in
        let m := put m (s + 1) (Z.lor 0x80 (Z.land (Z.shiftr wc 12) 0x3f)) in
        let m := put m (s + 2) (Z.lor 0x80 (Z.land (Z.shiftr wc 6) 0x3f)) in
        let m := put m (s + 3) (Z.lor 0x80 (Z.land wc 0x3f)) in
        (4, m, None)
      else (size_m1, m, Some EILSEQ)
  end.

(** btowc and wctob; EOF is -1 and WEOF is the unsigned -1. *)
Definition WEOF : Z := u32 (-1).

Definition btowc (utf8 : bool) (c : Z) : Z :=
  let b := u8 c in
  if b <? 128 then b
  else if negb utf8 && negb (c =? -1) then CODEUNIT c else WEOF.

Definition wctob (utf8 : bool) (c : Z) : Z :=
  if c <? 128 then c
  else if negb utf8 && IS_CODEUNIT c then u8 c
  else -1.

(** c16rtomb: return value, memory, state, errno. *)
Definition c16rtomb (utf8 : bool) (m : mem) (dst : option Z) (c16 x : Z)
  : Z * mem * Z * option Z :=
  let fail := (size_m1, m, 0, Some EILSEQ) in
  match dst with
  | None => if x =? 0 then (1, m, x, None) else fail
  | Some _ =>
      if (x =? 0) && (u32 (c16 - 0xd800) <? 0x400) then
        (0, m, u32 (Z.shiftl (c16 - 0xd7c0) 10), None)
      else if negb (x =? 0) then
        if 0x400 <=? u32 (c16 - 0xdc00) then fail
        else
          let '(r, m', e) := wcrtomb utf8 m dst (s32 (u32 (x + c16 - 0xdc00))) in
          (r, m', 0, e)
      else
        let '(r, m', e) := wcrtomb utf8 m dst c16 in (r, m', x, e)
  end.

(** mbrtoc16: the code unit for pc16 is [wcv].  A NULL source stands for the
    empty string. *)
Definition size_m3 : Z := u64 (-3).

Definition mbrtoc16 (utf8 : bool) (m : mem) (src : option Z) (n pending : Z) : mbres :=
  let '(m, s, n) := match src with
                    | None => ((fun _ => 0) : mem, 0, 1)
                    | Some s => (m, s, n)
                    end in
  if 0 <? s32 pending then mk_mbres size_m3 (Some pending) 0 None
  else
    let r := mbrtowc utf8 m (Some s) n pending in
    if ret r <=? 4 then
      match wcv r with
      | Some wc =>
          if 0x10000 <=? wc
          then mk_mbres (ret r) (Some (0xd7c0 + Z.shiftr wc 10))
                        (Z.land wc 0x3ff + 0xdc00) (err r)
          else r
      | None => r
      end
    else r.

(** ** UTF-8 *)

Definition scalar (cp : Z) : Prop :=
  0 <= cp < 0xd800 \/ 0xe000 <= cp < 0x110000.

Definition utf8_encode (cp : Z) : list Z :=
  if cp <? 0x80 then [cp]
  else if cp <? 0x800 then [0xc0 + cp / 64; 0x80 + cp mod 64]
  else if cp <? 0x10000 then
    [0xe0 + cp / 4096; 0x80 + cp / 64 mod 64; 0x80 + cp mod 64]
  else
    [0xf0 + cp / 262144; 0x80 + cp / 4096 mod 64; 0x80 + cp / 64 mod 64; 0x80 + cp mod 64].

(** The well-formed byte sequences as a machine over bytes: what a lead byte
    announces, and what may follow it. *)
Definition lead (b : Z) : bool := (0xc2 <=? b) && (b <=? 0xf4).
Definition tail_len (b : Z) : nat :=
  if b <? 0xe0 then 1 else if b <? 0xf0 then 2 else 3.
Definition payload (b : Z) : Z :=
  b - (if b <? 0xe0 then 0xc0 else if b <? 0xf0 then 0xe0 else 0xf0).
Definition second_ok (b0 b1 : Z) : bool :=
  ((if b0 =? 0xe0 then 0xa0 else if b0 =? 0xf0 then 0x90 else 0x80) <=? b1) &&
  (b1 <=? (if b0 =? 0xed then 0x9f else if b0 =? 0xf4 then 0x8f else 0xbf)).
Definition cont (b : Z) : bool := (0x80 <=? b) && (b <=? 0xbf).

(** Between calls a decoder has read nothing, a lead byte, or a lead byte and
    some of its tail ([k] bytes missing, the value [v] so far). *)
Inductive dstate := Start | Lead (b : Z) | Mid (k : nat) (v : Z).
Inductive outcome := Done (cp : Z) (used : nat) | More (st : dstate) | Bad.

Fixpoint run_tail (k : nat) (v : Z) (used : nat) (l : list Z) : outcome :=
  match k with
  | O => Done v used
  | S k' => match l with
            | [] => More (Mid k v)
            | b :: l' => if cont b then run_tail k' (64 * v + (b - 0x80)) (S used) l'
                         else Bad
            end
  end.

Definition run_lead (b0 : Z) (used : nat) (l : list Z) : outcome :=
  match l with
  | [] => More (Lead b0)
  | b1 :: _ => if second_ok b0 b1 then run_tail (tail_len b0) (payload b0) used l else Bad
  end.

Definition run (st : dstate) (l : list Z) : outcome :=
  match st with
  | Start => match l with
             | [] => More Start
             | b :: l' => if b <? 0x80 then Done b 1
                          else if lead b then run_lead b 1 l' else Bad
             end
  | Lead b0 => run_lead b0 0 l
  | Mid k v => run_tail k v 0 l
  end.

(** The value of the mbstate_t in each state. *)
Definition pend (k : nat) (v : Z) : Z :=
  match k with
  | O => v
  | S O => 0xC0000000 + v
  | _ => 0xC3000000 + v
  end.

Definition conc (st : dstate) : Z :=
  match st with Start => 0 | Lead b => bittab_at b | Mid k v => pend k v end.

(** The largest value with [k] tail bytes missing. *)
Definition vbound (k : nat) : Z :=
  match k with O => 0x110000 | S O => 0x4400 | _ => 0x110 end.

Definition wf_dstate (st : dstate) : Prop :=
  match st with
  | Start => True
  | Lead b => lead b = true
  | Mid k v => (1 <= k <= 2)%nat /\ 0 <= v < vbound k
  end.

(** ** The table and the bit tests *)

Lemma shift_in_val c b :
  0 <= c -> cont b = true -> shift_in c b = u32 (64 * c) + (b - 0x80).
Proof.
  unfold cont, shift_in. intros Hc Hb.
  rewrite Z.shiftl_mul_pow2, (u32_small (b - 0x80)) by lia.
  replace (u32 (c * 2 ^ 6)) with ((c mod 2 ^ 26) * 2 ^ 6).
  - rewrite lor_add by lia. unfold u32. change (2 ^ 26) with 67108864.
    change (2 ^ 6) with 64. zlia.
  - unfold u32. change (2 ^ 26) with 67108864. change (2 ^ 6) with 64. zlia.
Qed.

Lemma more_val c : 0 <= c < 0x100000000 -> more c = (0x80000000 <=? c).
Proof.
  intros Hc. unfold more. change (Z.shiftl 1 31) with (2 ^ 31).
  rewrite land_bit, testbit_top by lia. now destruct (2 ^ 31 <=? c) eqn:E.
Qed.

Lemma pend_range k v :
  (k <= 2)%nat -> 0 <= v < vbound k -> 0 <= pend k v < 0x100000000.
Proof. intros. unfold pend, vbound in *. destruct k as [|[|[|]]]; lia. Qed.

Lemma more_pend k v :
  (k <= 2)%nat -> 0 <= v < vbound k -> more (pend k v) = negb (Nat.eqb k 0).
Proof.
  intros Hk Hv. rewrite more_val by now apply pend_range.
  unfold pend, vbound in *. destruct k as [|[|[|]]]; cbn [Nat.eqb negb]; lia.
Qed.

Lemma shift_in_pend k v b :
  (k <= 1)%nat -> 0 <= v < vbound (S k) -> cont b = true ->
  shift_in (pend (S k) v) b = pend k (64 * v + (b - 0x80)).
Proof.
  intros Hk Hv Hb. pose proof (pend_range (S k) v ltac:(lia) Hv).
  rewrite shift_in_val by (assumption || lia).
  unfold cont in Hb. unfold pend, vbound, u32 in *. destruct k as [|[|]]; zlia.
Qed.

Lemma lead_check (f : Z -> bool) :
  forallb f (zrange 0xc2 51) = true -> forall b, lead b = true -> f b = true.
Proof.
  intros H b Hb. apply (zrange_check f 0xc2 51 H). unfold lead in Hb. lia.
Qed.

Lemma shift_in_lead b0 b1 :
  lead b0 = true -> cont b1 = true ->
  shift_in (bittab_at b0) b1 =
  pend (tail_len b0 - 1) (64 * payload b0 + (b1 - 0x80)).
Proof.
  intros H0 H1.
  assert (H : (0 <=? bittab_at b0) &&
    (u32 (64 * bittab_at b0) =? pend (tail_len b0 - 1) 0 + 64 * payload b0) = true).
  { revert b0 H0. apply lead_check. vm_compute. reflexivity. }
  rewrite shift_in_val by (assumption || lia).
  unfold pend in *. destruct (tail_len b0 - 1)%nat as [|[|]]; lia.
Qed.

Lemma OOB_lead b0 b1 :
  lead b0 = true -> 0 <= b1 < 256 -> OOB (bittab_at b0) b1 = negb (second_ok b0 b1).
Proof.
  intros H0 H1. apply eqb_prop.
  assert (H : forallb (fun b => eqb (OOB (bittab_at b0) b) (negb (second_ok b0 b)))
                (zrange 0 256) = true).
  { revert b0 H0. apply lead_check. vm_compute. reflexivity. }
  exact (zrange_check _ 0 256 H b1 H1).
Qed.

Lemma OOB_pend k v b :
  wf_dstate (Mid k v) -> 0 <= b < 256 -> OOB (pend k v) b = negb (cont b).
Proof.
  intros Hw Hb. unfold OOB.
  replace (Z.shiftr (s32 (pend k v)) 26) with (-16).
  - apply eqb_prop. revert b Hb. apply (zrange_check _ 0 256). vm_compute. reflexivity.
  - rewrite Z.shiftr_div_pow2 by lia. change (2 ^ 26) with 67108864.
    unfold s32, pend. destruct Hw as [Hk Hv]. unfold vbound in Hv.
    destruct k as [|[|[|]]]; zlia.
Qed.

Lemma bittab_nonzero b : lead b = true -> bittab_at b <> 0.
Proof.
  intros H. apply Z.eqb_neq. apply negb_true_iff. revert b H. apply lead_check.
  vm_compute. reflexivity.
Qed.

Lemma lead_test b :
  0 <= b < 256 -> 0x80 <= b -> (SB - SA <? u32 (b - SA)) = negb (lead b).
Proof.
  intros Hb Hge. unfold SB, SA, lead, u32.
  destruct (Z.lt_ge_cases b 0xc2); [|rewrite Z.mod_small; lia].
  replace ((b - 194) mod 4294967296) with (b - 194 + 4294967296) by zlia. lia.
Qed.

Lemma cont_test b :
  0 <= b < 256 -> (0x40 <=? u32 (b - 0x80)) = negb (cont b).
Proof.
  intros Hb. unfold cont, u32.
  destruct (Z.lt_ge_cases b 0x80); [|rewrite Z.mod_small; lia].
  replace ((b - 128) mod 4294967296) with (b - 128 + 4294967296) by zlia. lia.
Qed.

(** ** The machine accepts exactly UTF-8 *)

Lemma utf8_encode_length cp : (1 <= length (utf8_encode cp) <= 4)%nat.
Proof. unfold utf8_encode. simplify_ifs; simpl; lia. Qed.

Lemma second_ok_iff b0 b1 :
  second_ok b0 b1 = true <->
  0x80 <= b1 <= 0xbf /\ (b0 = 0xe0 -> 0xa0 <= b1) /\ (b0 = 0xf0 -> 0x90 <= b1) /\
  (b0 = 0xed -> b1 <= 0x9f) /\ (b0 = 0xf4 -> b1 <= 0x8f).
Proof.
  unfold second_ok. destruct (Z.eqb_spec b0 0xe0), (Z.eqb_spec b0 0xf0),
    (Z.eqb_spec b0 0xed), (Z.eqb_spec b0 0xf4); lia.
Qed.

(** The three multi-byte forms: the lead byte and the value of the tail. *)
Lemma encode_2 b0 b1 :
  lead b0 = true -> b0 < 0xe0 -> cont b1 = true ->
  let cp := 64 * payload b0 + (b1 - 0x80) in
  scalar cp /\ utf8_encode cp = [b0; b1].
Proof.
  unfold lead, cont, payload. intros H0 Hlt H1. replace (b0 <? 0xe0) with true by lia.
  cbv zeta. split; [unfold scalar; lia|].
  unfold utf8_encode. replace (_ <? 0x80) with false by lia.
  replace (_ <? 0x800) with true by lia. repeat (f_equal; try zlia).
Qed.

Lemma encode_3 b0 b1 b2 :
  lead b0 = true -> 0xe0 <= b0 < 0xf0 -> second_ok b0 b1 = true -> cont b2 = true ->
  let cp := 64 * (64 * payload b0 + (b1 - 0x80)) + (b2 - 0x80) in
  scalar cp /\ utf8_encode cp = [b0; b1; b2].
Proof.
  unfold lead, cont, payload. intros H0 Hlt H1 H2. apply second_ok_iff in H1.
  replace (b0 <? 0xe0) with false by lia. replace (b0 <? 0xf0) with true by lia.
  cbv zeta. split; [unfold scalar; lia|].
  unfold utf8_encode. replace (_ <? 0x80) with false by lia.
  replace (_ <? 0x800) with false by lia.
  replace (_ <? 0x10000) with true by lia. repeat (f_equal; try zlia).
Qed.

Lemma encode_4 b0 b1 b2 b3 :
  lead b0 = true -> 0xf0 <= b0 -> second_ok b0 b1 = true -> cont b2 = true -> cont b3 = true ->
  let cp := 64 * (64 * (64 * payload b0 + (b1 - 0x80)) + (b2 - 0x80)) + (b3 - 0x80) in
  scalar cp /\ utf8_encode cp = [b0; b1; b2; b3].
Proof.
  unfold lead, cont, payload. intros H0 Hlt H1 H2 H3. apply second_ok_iff in H1.
  replace (b0 <? 0xe0) with false by lia. replace (b0 <? 0xf0) with false by lia.
  cbv zeta. split; [unfold scalar; lia|].
  unfold utf8_encode. replace (_ <? 0x80) with false by lia.
  replace (_ <? 0x800) with false by lia. replace (_ <? 0x10000) with false by lia.
  repeat (f_equal; try zlia).
Qed.

(** Conversely, the bytes of an encoding pass every test of the machine. *)
Definition passes (cp : Z) (l : list Z) : Prop :=
  match l with
  | [b0] => b0 = cp /\ b0 < 0x80
  | b0 :: b1 :: tl =>
      0x80 <= b0 /\ lead b0 = true /\ second_ok b0 b1 = true /\
      Forall (fun b => cont b = true) (b1 :: tl) /\
      tail_len b0 = length (b1 :: tl) /\
      fold_left (fun v b => 64 * v + (b - 0x80)) (b1 :: tl) (payload b0) = cp
  | [] => False
  end.

Lemma encode_passes cp : scalar cp -> passes cp (utf8_encode cp).
Proof.
  unfold scalar, utf8_encode. intros Hs.
  destruct (cp <? 0x80) eqn:E1; [cbn; lia|].
  destruct (cp <? 0x800) eqn:E2; [|destruct (cp <? 0x10000) eqn:E3]; cbn [passes length fold_left].
  - assert (H : 2 <= cp / 64 < 32 /\ 0 <= cp mod 64 < 64 /\ cp = 64 * (cp / 64) + cp mod 64) by zlia.
    generalize dependent (cp / 64); generalize dependent (cp mod 64); intros y x H.
    rewrite second_ok_iff. unfold lead, tail_len, payload.
    replace (0xc0 + x <? 0xe0) with true by lia. repeat split; try lia.
    repeat constructor; unfold cont; lia.
  - assert (H : 0 <= cp / 4096 < 16 /\ 0 <= cp / 64 mod 64 < 64 /\ 0 <= cp mod 64 < 64 /\
      cp = 4096 * (cp / 4096) + 64 * (cp / 64 mod 64) + cp mod 64) by zlia.
    generalize dependent (cp / 4096); generalize dependent (cp / 64 mod 64);
      generalize dependent (cp mod 64); intros z y x H.
    rewrite second_ok_iff. unfold lead, tail_len, payload.
    replace (0xe0 + x <? 0xe0) with false by lia. replace (0xe0 + x <? 0xf0) with true by lia.
    repeat split; try lia.
    repeat constructor; unfold cont; lia.
  - assert (H : 0 <= cp / 262144 < 5 /\ 0 <= cp / 4096 mod 64 < 64 /\ 0 <= cp / 64 mod 64 < 64 /\
      0 <= cp mod 64 < 64 /\
      cp = 262144 * (cp / 262144) + 4096 * (cp / 4096 mod 64) + 64 * (cp / 64 mod 64) + cp mod 64)
      by zlia.
    generalize dependent (cp / 262144); generalize dependent (cp / 4096 mod 64);
      generalize dependent (cp / 64 mod 64); generalize dependent (cp mod 64).
    intros w z y x H.
    rewrite second_ok_iff. unfold lead, tail_len, payload.
    replace (0xf0 + x <? 0xe0) with false by lia. replace (0xf0 + x <? 0xf0) with false by lia.
    repeat split; try lia.
    repeat constructor; unfold cont; lia.
Qed.

Lemma run_tail_all k v u l rest :
  k = length l -> Forall (fun b => cont b = true) l ->
  run_tail k v u (l ++ rest) =
  Done (fold_left (fun v b => 64 * v + (b - 0x80)) l v) (u + k).
Proof.
  revert v u l. induction k as [|k IH]; intros v u [|b l] Hl Hf; try discriminate.
  - simpl. f_equal. lia.
  - cbn. inversion Hf as [|? ? Hb Hf']. subst. rewrite Hb, IH by (assumption || (simpl in Hl; lia)).
    cbn. f_equal. lia.
Qed.

Lemma run_tail_prefix k v u l :
  (length l < k)%nat -> Forall (fun b => cont b = true) l ->
  run_tail k v u l = More (Mid (k - length l) (fold_left (fun v b => 64 * v + (b - 0x80)) l v)).
Proof.
  revert v u l. induction k as [|k IH]; intros v u [|b l] Hl Hf; simpl in Hl; try lia.
  - reflexivity.
  - cbn. inversion Hf as [|? ? Hb Hf']. subst. rewrite Hb. now apply IH; [lia|].
Qed.

(** An encoding is decoded to its character, whatever follows it. *)
Lemma run_encode cp rest :
  scalar cp -> run Start (utf8_encode cp ++ rest) = Done cp (length (utf8_encode cp)).
Proof.
  intros Hs. pose proof (encode_passes cp Hs) as Hp.
  destruct (utf8_encode cp) as [|b0 [|b1 tl]]; cbn [passes] in Hp; [easy| |]; cbn [app run].
  - destruct Hp as [-> Hlt]. now replace (cp <? 0x80) with true by lia.
  - destruct Hp as (Hge & Hl & H2 & Hf & Ht & Hv).
    replace (b0 <? 0x80) with false by lia. rewrite Hl. cbn [run_lead app]. rewrite H2.
    rewrite (run_tail_all _ _ _ (b1 :: tl) rest Ht Hf).
    rewrite Hv, Ht. reflexivity.
Qed.

(** A proper prefix of an encoding leaves the machine waiting. *)
Lemma run_prefix cp l rest :
  scalar cp -> utf8_encode cp = l ++ rest -> rest <> [] -> exists st, run Start l = More st.
Proof.
  intros Hs E Hr. pose proof (encode_passes cp Hs) as Hp. rewrite E in Hp.
  destruct l as [|b0 [|b1 l]]; cbn [run]; [eauto| |].
  - destruct rest as [|b1 rest]; [easy|]. cbn [app passes] in Hp. destruct Hp as (Hge & Hl & _).
    replace (b0 <? 0x80) with false by lia. rewrite Hl. cbn. eauto.
  - cbn [app passes] in Hp. destruct Hp as (Hge & Hl & H2 & Hf & Ht & Hv).
    replace (b0 <? 0x80) with false by lia. rewrite Hl. cbn [run_lead]. rewrite H2.
    rewrite run_tail_prefix; [eauto| |].
    + rewrite Ht. rewrite app_comm_cons, length_app. destruct rest; [easy|]. simpl. lia.
    + rewrite app_comm_cons in Hf. now apply Forall_app in Hf as [].
Qed.

Lemma tail_len_cases b0 :
  (b0 < 0xe0 /\ tail_len b0 = 1%nat) \/
  (0xe0 <= b0 < 0xf0 /\ tail_len b0 = 2%nat) \/ (0xf0 <= b0 /\ tail_len b0 = 3%nat).
Proof. unfold tail_len. destruct (Z.ltb_spec b0 0xe0), (Z.ltb_spec b0 0xf0); lia. Qed.

(** The machine accepts nothing else. *)
Lemma run_done l cp u :
  Forall (fun b => 0 <= b) l -> run Start l = Done cp u ->
  scalar cp /\ u = length (utf8_encode cp) /\ exists rest, l = utf8_encode cp ++ rest.
Proof.
  intros Hf E. destruct l as [|b0 l]; [discriminate|]. cbn [run] in E.
  destruct (Z.ltb_spec b0 0x80) as [Hlt|Hge].
  - injection E as <- <-. inversion Hf; subst. unfold utf8_encode, scalar.
    replace (b0 <? 0x80) with true by lia. split; [lia|]. split; [reflexivity|]. now exists l.
  - destruct (lead b0) eqn:El; [|discriminate]. unfold run_lead in E.
    destruct l as [|b1 l]; [discriminate|].
    destruct (second_ok b0 b1) eqn:E2; [|discriminate].
    assert (Hc1 : cont b1 = true) by (apply second_ok_iff in E2; unfold cont; lia).
    pose proof (tail_len_cases b0) as Hcase.
    destruct Hcase as [[Hb Ht]|[[Hb Ht]|[Hb Ht]]]; rewrite Ht in E; cbn [run_tail] in E;
      rewrite Hc1 in E.
    + injection E as <- <-. destruct (encode_2 b0 b1 El Hb Hc1) as [Hs He].
      rewrite He. split; [exact Hs|]. split; [easy|]. now exists l.
    + destruct l as [|b2 l]; [discriminate|]. destruct (cont b2) eqn:Hc2; [|discriminate].
      injection E as <- <-. destruct (encode_3 b0 b1 b2 El Hb E2 Hc2) as [Hs He].
      rewrite He. split; [exact Hs|]. split; [easy|]. now exists l.
    + destruct l as [|b2 l]; [discriminate|]. destruct (cont b2) eqn:Hc2; [|discriminate].
      destruct l as [|b3 l]; [discriminate|]. destruct (cont b3) eqn:Hc3; [|discriminate].
      injection E as <- <-. destruct (encode_4 b0 b1 b2 b3 El Hb E2 Hc2 Hc3) as [Hs He].
      rewrite He. split; [exact Hs|]. split; [easy|]. now exists l.
Qed.

(** A lead byte and an allowed second byte can be completed. *)
Lemma complete_2 b0 b1 tl :
  lead b0 = true -> second_ok b0 b1 = true -> Forall (fun b => cont b = true) tl ->
  S (length tl) = tail_len b0 ->
  exists cp, scalar cp /\ utf8_encode cp = b0 :: b1 :: tl.
Proof.
  intros El E2 Hf Ht.
  assert (Hc1 : cont b1 = true) by (apply second_ok_iff in E2; unfold cont; lia).
  destruct (tail_len_cases b0) as [[Hb H]|[[Hb H]|[Hb H]]]; rewrite H in Ht.
  - destruct tl; [|discriminate]. eexists. now apply encode_2.
  - destruct tl as [|b2 [|]]; try discriminate. inversion Hf; subst.
    eexists. now apply encode_3.
  - destruct tl as [|b2 [|b3 [|]]]; try discriminate. inversion Hf as [|? ? ? Hf']; subst.
    inversion Hf'; subst. eexists. now apply encode_4.
Qed.

Lemma cont_pad n : Forall (fun b => cont b = true) (repeat 0x80 n).
Proof. induction n; simpl; constructor; auto. Qed.

Lemma complete_prefix b0 b1 tl :
  lead b0 = true -> second_ok b0 b1 = true -> Forall (fun b => cont b = true) tl ->
  (S (length tl) < tail_len b0)%nat ->
  exists cp rest, scalar cp /\ rest <> [] /\ utf8_encode cp = (b0 :: b1 :: tl) ++ rest.
Proof.
  intros El E2 Hf Ht. set (pad := repeat 0x80 (tail_len b0 - S (length tl))).
  destruct (complete_2 b0 b1 (tl ++ pad) El E2) as (cp & Hs & He).
  - apply Forall_app. split; [assumption|apply cont_pad].
  - rewrite length_app. subst pad. rewrite repeat_length. lia.
  - exists cp, pad. repeat split; [assumption| |exact He].
    subst pad. destruct (tail_len b0 - S (length tl))%nat eqn:E; [lia|easy].
Qed.

Lemma run_tail_more k v u l st :
  run_tail k v u l = More st -> (length l < k)%nat /\ Forall (fun b => cont b = true) l.
Proof.
  revert v u l. induction k as [|k IH]; intros v u l H; [discriminate|].
  destruct l as [|b l]; [split; [simpl; lia|constructor]|].
  cbn in H. destruct (cont b) eqn:Hb; [|discriminate].
  apply IH in H as [H1 H2]. split; [simpl; lia|now constructor].
Qed.

(** When the machine waits, the bytes read are a proper prefix of an
    encoding, and the state is one mbrtowc can store. *)
Lemma run_more l st :
  run Start l = More st ->
  exists cp rest, scalar cp /\ rest <> [] /\ utf8_encode cp = l ++ rest.
Proof.
  intros E. destruct l as [|b0 l].
  { exists 0x41, [0x41]. split; [unfold scalar; lia|]. now split. }
  cbn [run] in E. destruct (b0 <? 0x80); [discriminate|].
  destruct (lead b0) eqn:El; [|discriminate]. unfold run_lead in E.
  destruct l as [|b1 tl].
  - set (b1 := if b0 =? 0xe0 then 0xa0 else if b0 =? 0xf0 then 0x90 else 0x80).
    assert (Hb1 : second_ok b0 b1 = true).
    { apply second_ok_iff. subst b1. destruct (Z.eqb_spec b0 0xe0), (Z.eqb_spec b0 0xf0); lia. }
    destruct (complete_2 b0 b1 (repeat 0x80 (tail_len b0 - 1)) El Hb1 (cont_pad _))
      as (cp & Hs & He).
    { rewrite repeat_length. destruct (tail_len_cases b0) as [[_ ->]|[[_ ->]|[_ ->]]]; reflexivity. }
    eexists cp, _. split; [assumption|]. split; [|exact He]. discriminate.
  - destruct (second_ok b0 b1) eqn:E2; [|discriminate].
    apply run_tail_more in E as [Hlen Hf]. inversion Hf; subst.
    now apply complete_prefix.
Qed.

Lemma run_tail_wf k v u l st :
  (k <= 3)%nat -> (l <> [] \/ (1 <= k <= 2)%nat /\ 0 <= v < vbound k) ->
  (match l with [] => True | b :: _ => cont b = true /\ (1 <= k)%nat /\
     0 <= 64 * v + (b - 0x80) < vbound (k - 1) end) ->
  run_tail k v u l = More st -> wf_dstate st.
Proof.
  revert v u l. induction k as [|k IH]; intros v u l Hk Hl Hb E; [discriminate|].
  destruct l as [|b l].
  - injection E as <-. cbn. destruct Hl as [|Hl]; [easy|]. exact Hl.
  - destruct Hb as (Hc & _ & Hv). cbn [run_tail] in E. rewrite Hc in E.
    rewrite Nat.sub_1_r, Nat.pred_succ in Hv.
    destruct k as [|k]; [discriminate|].
    apply IH in E; [assumption|lia| |].
    + right. split; [lia|exact Hv].
    + destruct l as [|b2 l]; [easy|]. cbn [run_tail] in E.
      destruct (cont b2) eqn:Hc2; [|discriminate]. split; [reflexivity|]. split; [lia|].
      cbn [Nat.sub]. rewrite Nat.sub_0_r.
      unfold cont in Hc2; unfold vbound in *; destruct k as [|[|[|]]]; lia.
Qed.

Lemma lead_vbound b0 b1 :
  lead b0 = true -> second_ok b0 b1 = true ->
  (tail_len b0 - 1 <= 2)%nat /\
  0 <= 64 * payload b0 + (b1 - 0x80) < vbound (tail_len b0 - 1).
Proof.
  unfold lead, payload. intros H1 H2. apply second_ok_iff in H2.
  destruct (tail_len_cases b0) as [[Hb ->]|[[Hb ->]|[Hb ->]]]; cbn [Nat.sub vbound].
  - replace (b0 <? 0xe0) with true by lia. lia.
  - replace (b0 <? 0xe0) with false by lia. replace (b0 <? 0xf0) with true by lia. lia.
  - replace (b0 <? 0xe0) with false by lia. replace (b0 <? 0xf0) with false by lia. lia.
Qed.

Lemma run_wf st l st' : wf_dstate st -> run st l = More st' -> wf_dstate st'.
Proof.
  assert (HL : forall b u l, lead b = true -> run_lead b u l = More st' -> wf_dstate st').
  { intros b u l0 El E. unfold run_lead in E. destruct l0 as [|b1 l1]; [now injection E as <-|].
    destruct (second_ok b b1) eqn:E2; [|discriminate].
    pose proof (lead_vbound b b1 El E2) as [Hk Hv].
    assert (Hc1 : cont b1 = true) by (apply second_ok_iff in E2; unfold cont; lia).
    assert (1 <= tail_len b)%nat
      by (destruct (tail_len_cases b) as [[_ ->]|[[_ ->]|[_ ->]]]; lia).
    refine (run_tail_wf _ _ _ _ _ _ _ _ E); [lia|now left|auto]. }
  intros Hw E. destruct st as [|b|k v]; cbn [run] in E.
  - destruct l as [|b l]; [now injection E as <-|]. destruct (b <? 0x80); [discriminate|].
    destruct (lead b) eqn:El; [|discriminate]. eapply HL; eauto.
  - eapply HL; eauto.
  - destruct Hw as [Hk Hv]. refine (run_tail_wf _ _ _ _ _ _ _ _ E); [lia|now right|].
    destruct l as [|b l]; [easy|]. destruct k as [|k]; [lia|]. cbn [run_tail] in E.
    destruct (cont b) eqn:Hc; [|discriminate]. split; [reflexivity|]. split; [lia|].
    cbn [Nat.sub]. rewrite Nat.sub_0_r.
    unfold cont in Hc; unfold vbound in *; destruct k as [|[|]]; lia.
Qed.

(** ** mbrtowc implements the machine *)

(** Count [d] more bytes as used. *)
Definition bump (d : nat) (o : outcome) : outcome :=
  match o with Done cp u => Done cp (d + u) | _ => o end.

Lemma run_tail_bump k v u l : run_tail k v u l = bump u (run_tail k v 0 l).
Proof.
  revert v u l. induction k as [|k IH]; intros v u [|b l]; simpl;
    rewrite ?Nat.add_0_r; try reflexivity.
  destruct (cont b); [|reflexivity].
  rewrite (IH _ (S u)), (IH _ 1%nat). destruct (run_tail k _ 0 l); simpl; [|easy|easy].
  f_equal. lia.
Qed.

(** The answer of a call that had [N] bytes: [n] of them when the machine
    starts. *)
Definition answer (N n : Z) (o : outcome) : mbres :=
  match o with
  | Done cp u => mk_mbres (N - (n - Z.of_nat u)) (Some cp) 0 None
  | More st => mk_mbres size_m2 None (conc st) None
  | Bad => ilseq
  end.

Lemma answer_bump N n d o : answer N n (bump d o) = answer N (n - Z.of_nat d) o.
Proof. destruct o; simpl; [|reflexivity|reflexivity]. f_equal. lia. Qed.

Lemma vbound_step k v b :
  (k <= 1)%nat -> 0 <= v < vbound (S k) -> cont b = true ->
  0 <= 64 * v + (b - 0x80) < vbound k.
Proof. unfold vbound, cont. destruct k as [|[|]]; lia. Qed.

Lemma mbr_loop_run m N : wf_mem m ->
  forall k n s c v,
  (k <= 2)%nat -> 0 <= v < vbound k -> shift_in c (m s) = pend k v ->
  mbr_loop m N (S n) s c = answer N (Z.of_nat n) (run_tail k v 0 (bytes_at m (s + 1) n)).
Proof.
  intros Hm. induction k as [|k IH]; intros n s c v Hk Hv Hc.
  - cbn [mbr_loop]. rewrite Hc, more_pend by assumption. cbn. f_equal. lia.
  - destruct n as [|n].
    + cbn [mbr_loop]. rewrite Hc, more_pend by assumption. reflexivity.
    + change (mbr_loop m N (S (S n)) s c) with
        (let c' := shift_in c (m s) in
         if negb (more c') then mk_mbres (N - Z.of_nat (S n)) (Some c') 0 None
         else if 0x40 <=? u32 (m (s + 1) - 0x80) then ilseq
              else mbr_loop m N (S n) (s + 1) c').
      cbv zeta. rewrite Hc, more_pend, cont_test by (assumption || apply Hm).
      cbn [bytes_at run_tail Nat.eqb negb]. destruct (cont (m (s + 1))) eqn:Eb; [|reflexivity].
      cbn [negb]. rewrite (run_tail_bump _ _ 1), answer_bump.
      rewrite (IH n (s + 1) (pend (S k) v) (64 * v + (m (s + 1) - 0x80)));
        [|lia|now apply vbound_step; [lia|..]|now apply shift_in_pend; [lia|..]].
      f_equal. lia.
Qed.

(** The continuation branch of mbrtowc, from any state but the initial one. *)
Definition resume (m : mem) (N s n c : Z) : mbres :=
  if n =? 0 then mk_mbres size_m2 None c None
  else if OOB c (m s) then ilseq
  else mbr_loop m N (Z.to_nat n) s c.

Lemma second_ok_cont b0 b1 : second_ok b0 b1 = true -> cont b1 = true.
Proof.
  intros H. apply second_ok_iff in H. unfold cont. lia.
Qed.

Lemma resume_run m N s n st :
  wf_mem m -> 0 <= n -> wf_dstate st -> st <> Start ->
  resume m N s n (conc st) = answer N n (run st (bytes_at m s (Z.to_nat n))).
Proof.
  intros Hm Hn Hst Hs. unfold resume.
  destruct (Z.eqb_spec n 0) as [->|Hn0].
  - destruct st as [|b|k v]; [easy|reflexivity|]. destruct k; [cbn in Hst; lia|reflexivity].
  - replace (Z.to_nat n) with (S (Z.to_nat (n - 1))) by lia.
    destruct st as [|b|k v]; [easy| |]; cbn [conc run bytes_at].
    + unfold run_lead. rewrite OOB_lead by (assumption || apply Hm).
      destruct (second_ok b (m s)) eqn:E2; [|reflexivity]. cbn [negb].
      pose proof (second_ok_cont _ _ E2) as Hc. pose proof (lead_vbound _ _ Hst E2) as [Hk Hv].
      rewrite (mbr_loop_run m N Hm (tail_len b - 1) _ s _ _ Hk Hv)
        by now apply shift_in_lead.
      destruct (tail_len b) as [|t] eqn:Et.
      { unfold tail_len in Et. now destruct (b <? 0xe0), (b <? 0xf0). }
      cbn [run_tail Nat.sub]. rewrite Nat.sub_0_r, Hc, (run_tail_bump t _ 1), answer_bump.
      f_equal. lia.
    + destruct Hst as [Hk Hv]. destruct k as [|k]; [lia|].
      rewrite OOB_pend by (split; assumption || apply Hm). cbn [run_tail].
      destruct (cont (m s)) eqn:Ec; [|reflexivity]. cbn [negb].
      rewrite (mbr_loop_run m N Hm k _ s _ (64 * v + (m s - 0x80)));
        [|lia|now apply vbound_step; [lia|..]|now apply shift_in_pend; [lia|..]].
      rewrite (run_tail_bump _ _ 1), answer_bump. f_equal. lia.
Qed.

Lemma mbrtowc_run_resume m s n st :
  wf_mem m -> 0 < n -> wf_dstate st -> st <> Start ->
  mbrtowc true m (Some s) n (conc st) = answer n n (run st (bytes_at m s (Z.to_nat n))).
Proof.
  intros Hm Hn Hst Hs. rewrite <- (resume_run m n s n st Hm) by (assumption || lia).
  unfold mbrtowc, resume. replace (n =? 0) with false by lia.
  replace (conc st =? 0) with false; [reflexivity|]. symmetry. apply Z.eqb_neq.
  destruct st as [|b|k v]; [easy|now apply bittab_nonzero|].
  cbn in *. unfold pend, vbound in *. destruct k as [|[|[|]]]; lia.
Qed.

Lemma mbrtowc_run_start m s n :
  wf_mem m -> 0 < n ->
  mbrtowc true m (Some s) n 0 =
  match run Start (bytes_at m s (Z.to_nat n)) with
  | Done 0 u => mk_mbres 0 (Some 0) 0 None
  | o => answer n n o
  end.
Proof.
  intros Hm Hn. unfold mbrtowc. replace (n =? 0) with false by lia.
  replace (Z.to_nat n) with (S (Z.to_nat (n - 1))) by lia.
  change (0 =? 0) with true. cbn [bytes_at run negb].
  destruct (Z.ltb_spec (m s) 0x80) as [Hlt|Hge].
  - destruct (Z.eqb_spec (m s) 0) as [->|Hnz]; [reflexivity|]. cbn [negb b2z].
    pose proof (Hm s). destruct (m s) as [|p|p]; [lia| |lia]. cbn [answer]. f_equal. lia.
  - rewrite lead_test by (apply Hm || lia).
    destruct (lead (m s)) eqn:El; [|reflexivity]. cbn [negb].
    change (if n - 1 =? 0 then _ else _) with (resume m n (s + 1) (n - 1) (conc (Lead (m s)))).
    rewrite resume_run by (assumption || lia || discriminate || exact El).
    cbn [run]. unfold run_lead.
    destruct (bytes_at m (s + 1) (Z.to_nat (n - 1))) as [|b1 l] eqn:Eb; [reflexivity|].
    destruct (second_ok (m s) b1) eqn:E2; [|reflexivity].
    rewrite (run_tail_bump _ _ 1).
    destruct (run_tail (tail_len (m s)) (payload (m s)) 0 (b1 :: l)) eqn:Er; try reflexivity.
    cbn [bump]. assert (Hcp : cp <> 0).
    2:{ destruct cp; [easy| |]; cbn [answer]; f_equal; lia. }
    intros ->. destruct (run_done (m s :: b1 :: l) 0 (1 + used)) as (_ & _ & rest & Hr).
    + rewrite <- Eb. apply (bytes_at_forall m s (S (Z.to_nat (n - 1)))). apply Hm.
    + cbn [run]. replace (m s <? 0x80) with false by lia. rewrite El. cbn [run_lead].
      now rewrite E2, (run_tail_bump _ _ 1), Er.
    + change (utf8_encode 0) with [0] in Hr. injection Hr as Hr _. lia.
Qed.

(** Reading [l1] and then [l2] is reading [l1 ++ l2]. *)
Lemma run_tail_app k v u l1 l2 :
  run_tail k v u (l1 ++ l2) =
  match run_tail k v u l1 with
  | More (Mid k' v') => run_tail k' v' (u + length l1) l2
  | o => o
  end.
Proof.
  revert v u l1. induction k as [|k IH]; intros v u l1; [reflexivity|].
  destruct l1 as [|b l1]; cbn [app length].
  - cbn [run_tail]. now rewrite Nat.add_0_r.
  - cbn [run_tail]. destruct (cont b); [|reflexivity]. rewrite IH.
    destruct (run_tail k _ (S u) l1) as [|[| |]|]; try reflexivity. f_equal. lia.
Qed.

Lemma run_tail_more_mid k v u l st : run_tail k v u l = More st -> exists k' v', st = Mid k' v'.
Proof.
  revert v u l. induction k as [|k IH]; intros v u l H; [discriminate|].
  destruct l as [|b l]; [injection H as <-; eauto|]. cbn [run_tail] in H.
  destruct (cont b); [eauto|discriminate].
Qed.

Lemma run_lead_app b u l1 l2 :
  run_lead b u (l1 ++ l2) =
  match run_lead b u l1 with
  | More st => bump (u + length l1) (run st l2)
  | o => o
  end.
Proof.
  unfold run_lead. destruct l1 as [|b1 l1]; cbn [app].
  - cbn [run length]. unfold run_lead. destruct l2 as [|b1 l2]; [reflexivity|].
    destruct (second_ok b b1); [|reflexivity]. rewrite Nat.add_0_r. apply run_tail_bump.
  - destruct (second_ok b b1); [|reflexivity].
    rewrite app_comm_cons, run_tail_app.
    destruct (run_tail _ _ u (b1 :: l1)) as [|st|] eqn:E; try reflexivity.
    destruct (run_tail_more_mid _ _ _ _ _ E) as (k' & v' & ->). apply run_tail_bump.
Qed.

Lemma run_app l1 l2 :
  l1 <> [] ->
  run Start (l1 ++ l2) =
  match run Start l1 with
  | More st => bump (length l1) (run st l2)
  | o => o
  end.
Proof.
  intros H. destruct l1 as [|b l1]; [easy|]. cbn [app run].
  destruct (b <? 0x80); [reflexivity|]. destruct (lead b); [|reflexivity].
  apply run_lead_app.
Qed.

Lemma run_more_not_start l st : l <> [] -> run Start l = More st -> st <> Start.
Proof.
  intros Hl E ->. destruct l as [|b l]; [easy|]. cbn [run] in E.
  destruct (b <? 0x80); [discriminate|]. destruct (lead b); [|discriminate].
  unfold run_lead in E. destruct l as [|b1 l]; [discriminate|].
  destruct (second_ok b b1); [|discriminate].
  now destruct (run_tail_more_mid _ _ _ _ _ E) as (? & ? & ?).
Qed.

(** C17. mbrtowc from the initial state classifies its input completely: it
    returns a character exactly when the bytes begin with the UTF-8 encoding of a
    Unicode scalar value (the character, its length, or 0 for NUL), (size_t)-2
    exactly when they are a proper prefix of one, and EILSEQ exactly when
    neither holds: no overlong form, surrogate or value over 0x10FFFF is
    accepted. *)
Theorem mbrtowc_utf8 m s n :
  wf_mem m -> 0 < n ->
  let bs := bytes_at m s (Z.to_nat n) in
  let r := mbrtowc true m (Some s) n 0 in
  (exists cp rest, scalar cp /\ bs = utf8_encode cp ++ rest /\
     r = mk_mbres (if cp =? 0 then 0 else Z.of_nat (length (utf8_encode cp))) (Some cp) 0 None) \/
  (exists cp rest st, scalar cp /\ rest <> [] /\ utf8_encode cp = bs ++ rest /\
     wf_dstate st /\ r = mk_mbres size_m2 None (conc st) None) \/
  ((forall cp rest, scalar cp -> bs <> utf8_encode cp ++ rest) /\
   (forall cp rest, scalar cp -> utf8_encode cp <> bs ++ rest) /\ r = ilseq).
Proof.
  intros Hm Hn bs r. subst r. rewrite mbrtowc_run_start by assumption. fold bs.
  assert (Hbs : Forall (fun b => 0 <= b) bs) by (apply bytes_at_forall, Hm).
  destruct (run Start bs) as [cp u|st|] eqn:E.
  - left. destruct (run_done _ _ _ Hbs E) as (Hs & -> & rest & Hr).
    exists cp, rest. split; [assumption|]. split; [assumption|].
    destruct (Z.eqb_spec cp 0) as [->|Hz]; [reflexivity|].
    destruct cp; [easy| |]; cbn [answer]; f_equal; lia.
  - right; left. destruct (run_more _ _ E) as (cp & rest & Hs & Hr & He).
    exists cp, rest, st. repeat split; try assumption. now apply (run_wf Start bs).
  - right; right. repeat split.
    + intros cp rest Hs Hr. rewrite Hr, run_encode in E by assumption. discriminate.
    + intros cp rest Hs Hr. destruct rest as [|b rest].
      * rewrite app_nil_r in Hr. rewrite <- Hr in E.
        pose proof (run_encode cp [] Hs) as E'. rewrite app_nil_r in E'. congruence.
      * destruct (run_prefix cp bs (b :: rest) Hs Hr) as [st E']; [discriminate|congruence].
Qed.

(** A memory that holds the given bytes at an address. *)
Definition mem_of (a : Z) (l : list Z) : mem := upd_list (fun _ => 0) a l.

Lemma mem_of_wf a l : Forall (fun b => 0 <= b < 256) l -> wf_mem (mem_of a l).
Proof.
  intros H x. unfold mem_of, upd_list. destruct (within _ _ x) eqn:E; [|lia].
  unfold within in E. rewrite Forall_forall in H. apply H, nth_In. lia.
Qed.

Lemma mbrtowc_utf8_witness :
  exists st, mbrtowc true (mem_of 16 [0xe2; 0x82]) (Some 16) 2 0 = mk_mbres size_m2 None (conc st) None.
Proof.
  destruct (mbrtowc_utf8 (mem_of 16 [0xe2; 0x82]) 16 2) as [H|[H|H]].
  - apply mem_of_wf. repeat constructor; lia.
  - lia.
  - destruct H as (cp & rest & _ & _ & H). vm_compute in H. destruct cp; discriminate.
  - destruct H as (cp & rest & st & _ & _ & _ & _ & H). exists st. exact H.
  - destruct H as (_ & _ & H). vm_compute in H. discriminate.
Defined.

(** mbrtowc is restartable: when the first [n1] bytes of a buffer leave it
    incomplete, decoding the next [n2] from the state it stored gives the
    character, the final state and the error that decoding all of them at once
    gives, with the bytes of the first call deducted from the length. *)
Theorem mbrtowc_restart m s n1 n2 :
  wf_mem m -> 0 < n1 < size_m2 -> 0 < n2 -> n1 + n2 < size_m2 ->
  let r1 := mbrtowc true m (Some s) n1 0 in
  let r2 := mbrtowc true m (Some (s + n1)) n2 (stv r1) in
  let r := mbrtowc true m (Some s) (n1 + n2) 0 in
  ret r1 = size_m2 ->
  wcv r2 = wcv r /\ stv r2 = stv r /\ err r2 = err r /\
  ret r2 = if ret r <? size_m2 then ret r - n1 else ret r.
Proof.
  intros Hm Hn1 Hn2 Hs r1 r2 r E1. subst r1 r2 r.
  rewrite (mbrtowc_run_start m s n1) in * by (assumption || lia).
  assert (Hl : bytes_at m s (Z.to_nat (n1 + n2)) =
    bytes_at m s (Z.to_nat n1) ++ bytes_at m (s + n1) (Z.to_nat n2)).
  { rewrite Z2Nat.inj_add, bytes_at_app by lia. now rewrite Z2Nat.id by lia. }
  set (l1 := bytes_at m s (Z.to_nat n1)) in *.
  set (l2 := bytes_at m (s + n1) (Z.to_nat n2)) in *.
  assert (Hlen : length l1 = Z.to_nat n1) by apply bytes_at_length.
  assert (Hne : l1 <> []) by (intros H; rewrite H in Hlen; simpl in Hlen; lia).
  assert (Hpos : Forall (fun b => 0 <= b) l1) by (apply bytes_at_forall, Hm).
  destruct (run Start l1) as [cp u|st|] eqn:Er.
  1:{ destruct (run_done _ _ _ Hpos Er) as (_ & -> & rest & Hrest).
      pose proof (utf8_encode_length cp). rewrite Hrest, length_app in Hlen.
      exfalso. destruct cp; cbn [answer ret] in E1; change size_m2 with 18446744073709551614 in *; lia. }
  2:{ vm_compute in E1. discriminate. }
  pose proof (run_wf Start l1 st I Er) as Hwf.
  pose proof (run_more_not_start _ _ Hne Er) as Hns.
  cbn [answer stv]. rewrite mbrtowc_run_resume by assumption. fold l2.
  rewrite mbrtowc_run_start, Hl, run_app, Er, Hlen by (assumption || lia).
  destruct (run st l2) as [cp u|st'|] eqn:E2; cbn [bump]; [|now repeat split|now repeat split].
  destruct (run_done (l1 ++ l2) cp (Z.to_nat n1 + u)) as (_ & Hu & rest & H).
  { rewrite <- Hl. apply bytes_at_forall, Hm. }
  { now rewrite run_app, Er, E2, <- Hlen. }
  assert (Hcp : cp <> 0).
  { intros ->. destruct l1 as [|b l1]; [easy|]. injection H as -> _. discriminate. }
  apply (f_equal (@length Z)) in H. rewrite !length_app, Hlen, <- Hu in H.
  assert (length l2 = Z.to_nat n2) by apply bytes_at_length.
  destruct cp as [|p|p]; [easy| |]; cbn [answer wcv stv err ret].
  all: repeat split; rewrite Nat2Z.inj_add, Z2Nat.id by lia.
  all: replace (_ <? size_m2) with true by lia; lia.
Qed.

Lemma mbrtowc_restart_witness :
  let m := mem_of 0 [0xf0; 0x9f; 0x98; 0x80] in
  let r1 := mbrtowc true m (Some 0) 3 0 in
  wcv (mbrtowc true m (Some 3) 1 (stv r1)) = Some 0x1f600.
Proof.
  intros m r1. destruct (mbrtowc_restart m 0 3 1) as (H & _).
  - apply mem_of_wf. repeat constructor; lia.
  - vm_compute. split; reflexivity.
  - lia.
  - reflexivity.
  - vm_compute. reflexivity.
  - etransitivity; [exact H|]. vm_compute. reflexivity.
Defined.

(** ** Encoding *)

Lemma shiftr_div z k : 0 <= k -> Z.shiftr z k = z / 2 ^ k.
Proof. apply Z.shiftr_div_pow2. Qed.

Lemma low6 z : Z.land z 0x3f = z mod 64.
Proof. change 0x3f with (Z.ones 6). now rewrite Z.land_ones by lia. Qed.

Lemma tail_byte x : 0 <= x < 64 -> Z.lor 0x80 x = 0x80 + x.
Proof. intros. change 0x80 with (2 * 2 ^ 6). now apply lor_add. Qed.

Lemma lead_byte2 x : 0 <= x < 32 -> Z.lor 0xc0 x = 0xc0 + x.
Proof. intros. change 0xc0 with (6 * 2 ^ 5). now apply lor_add. Qed.
Lemma lead_byte3 x : 0 <= x < 16 -> Z.lor 0xe0 x = 0xe0 + x.
Proof. intros. change 0xe0 with (14 * 2 ^ 4). now apply lor_add. Qed.
Lemma lead_byte4 x : 0 <= x < 8 -> Z.lor 0xf0 x = 0xf0 + x.
Proof. intros. change 0xf0 with (30 * 2 ^ 3). now apply lor_add. Qed.

Lemma put_byte m a v : 0 <= v < 256 -> put m a v = m<{a := v}>%c.
Proof. intros. unfold put. now rewrite u8_small. Qed.

Lemma encode_bytes cp : scalar cp -> Forall (fun b => 0 <= b < 256) (utf8_encode cp).
Proof.
  unfold scalar, utf8_encode. intros.
  destruct (cp <? 0x80) eqn:?, (cp <? 0x800) eqn:?, (cp <? 0x10000) eqn:?;
    repeat constructor; zlia.
Qed.

(** wcrtomb writes the encoding of a scalar value and nothing else. *)
Lemma wcrtomb_scalar m s cp :
  scalar cp ->
  exists m', wcrtomb true m (Some s) cp = (Z.of_nat (length (utf8_encode cp)), m', None) /\
             meq m' (upd_list m s (utf8_encode cp)).
Proof.
  intros Hs. unfold wcrtomb, utf8_encode, scalar in *. rewrite (u32_small cp) by lia.
  destruct (Z.ltb_spec cp 0x80).
  { eexists. split; [reflexivity|]. rewrite upd_list_cons, upd_list_nil, put_byte by lia.
    reflexivity. }
  cbn [negb]. destruct (Z.ltb_spec cp 0x800).
  { eexists. split; [reflexivity|]. rewrite !upd_list_cons, upd_list_nil.
    rewrite low6, shiftr_div, tail_byte, lead_byte2 by zlia.
    rewrite !put_byte by zlia. reflexivity. }
  replace ((cp <? 0xd800) || _) with (cp <? 0x10000).
  2:{ unfold u32. destruct (Z.ltb_spec cp 0x10000); [|zlia].
      destruct (Z.ltb_spec cp 0xd800); [reflexivity|]. rewrite Z.mod_small by lia. lia. }
  destruct (Z.ltb_spec cp 0x10000).
  { eexists. split; [reflexivity|]. rewrite !upd_list_cons, upd_list_nil.
    rewrite !low6, !shiftr_div, !tail_byte, lead_byte3 by zlia.
    rewrite !put_byte by zlia. rewrite <- Z.add_assoc. reflexivity. }
  rewrite u32_small by lia. replace (cp - 0x10000 <? 0x100000) with true by lia.
  eexists. split; [reflexivity|]. rewrite !upd_list_cons, upd_list_nil.
  rewrite !low6, !shiftr_div, !tail_byte, lead_byte4 by zlia.
  rewrite !put_byte by zlia. rewrite <- !Z.add_assoc. reflexivity.
Qed.

(** wcrtomb and mbrtowc are inverse in a UTF-8 locale: for every Unicode
    scalar value wcrtomb writes exactly its UTF-8 encoding (no byte outside it
    changes) and mbrtowc reads that character back from any buffer at least as
    long; every other wchar_t value is refused with EILSEQ and nothing is
    written. *)
Theorem wcrtomb_mbrtowc m s wc n :
  wf_mem m -> INT_MIN <= wc <= INT_MAX -> 4 <= n ->
  match wcrtomb true m (Some s) wc with
  | (len, m', None) =>
      scalar wc /\ len = Z.of_nat (length (utf8_encode wc)) /\
      meq m' (upd_list m s (utf8_encode wc)) /\
      mbrtowc true m' (Some s) n 0 =
        mk_mbres (if wc =? 0 then 0 else len) (Some wc) 0 None
  | (r, m', Some e) => ~ scalar wc /\ r = size_m1 /\ m' = m /\ e = EILSEQ
  end.
Proof.
  intros Hm Hwc Hn. unfold INT_MIN, INT_MAX in Hwc.
  assert (Hdec : scalar wc \/ ~ scalar wc) by (unfold scalar; lia).
  destruct Hdec as [Hs|Hs].
  - destruct (wcrtomb_scalar m s wc Hs) as (m' & -> & Hm').
    assert (Hwf : wf_mem m').
    { intros x. rewrite Hm'. apply upd_list_wf; [assumption|now apply encode_bytes]. }
    repeat split; try assumption.
    rewrite mbrtowc_run_start by (assumption || lia).
    pose proof (utf8_encode_length wc).
    replace (Z.to_nat n) with (length (utf8_encode wc) + (Z.to_nat n - length (utf8_encode wc)))%nat
      by lia.
    rewrite Hm', bytes_at_upd_list, run_encode by assumption.
    destruct (Z.eqb_spec wc 0) as [->|Hz]; [reflexivity|].
    destruct wc; [easy| |]; cbn [answer]; f_equal; lia.
  - unfold wcrtomb, scalar, u32 in *.
    replace (wc mod 4294967296 <? 0x80) with false by zlia. cbn [negb].
    replace (wc mod 4294967296 <? 0x800) with false by zlia.
    replace (wc mod 4294967296 <? 0xd800) with false by zlia. cbn [orb].
    replace ((wc mod 4294967296 - 0xe000) mod 4294967296 <? 0x2000) with false by zlia.
    replace ((wc mod 4294967296 - 0x10000) mod 4294967296 <? 0x100000) with false by zlia.
    repeat split. exact Hs.
Qed.

Lemma wcrtomb_mbrtowc_witness :
  mbrtowc true (snd (fst (wcrtomb true (fun _ => 0) (Some 5) 0x20ac))) (Some 5) 6 0
  = mk_mbres 3 (Some 0x20ac) 0 None.
Proof.
  assert (Hm : wf_mem (fun _ => 0)) by (intros x; lia).
  pose proof (wcrtomb_mbrtowc (fun _ => 0) 5 0x20ac 6 Hm
                ltac:(unfold INT_MIN, INT_MAX; lia) ltac:(lia)) as H.
  destruct (wcrtomb true (fun _ => 0) (Some 5) 0x20ac) as [[len m'] [e|]].
  - destruct H as (H & _). exfalso. apply H. unfold scalar. lia.
  - destruct H as (_ & -> & _ & H). exact H.
Defined.

(** ** The C locale *)

(** In the C locale every byte is a character: each maps to a wide
    character that wcrtomb, and wctob after btowc, turn back into the same
    byte, and bytes from 0x80 map outside the Unicode scalar values. *)
Theorem c_locale_transparent m s n b :
  m s = b -> 0 <= b < 256 -> 0 < n ->
  exists wc,
    mbrtowc false m (Some s) n 0 =
      mk_mbres (if b =? 0 then 0 else 1) (Some wc) 0 None /\
    (0x80 <= b -> ~ scalar wc) /\
    (forall m' d, wcrtomb false m' (Some d) wc = (1, mset m' d b, None)) /\
    btowc false b = wc /\ wctob false wc = b.
Proof.
  intros Hb Hr Hn. unfold mbrtowc. replace (n =? 0) with false by lia. rewrite Hb.
  change (0 =? 0) with true. cbn [negb].
  destruct (Z.ltb_spec b 0x80) as [Hlt|Hge].
  - exists b. split; [destruct (b =? 0); reflexivity|]. split; [lia|].
    unfold wcrtomb, btowc, wctob, put. drop_wraps.
    replace (b <? 0x80) with true by lia. auto.
  - exists (CODEUNIT b). replace (b =? 0) with false by lia. split; [reflexivity|].
    assert (Hc : (0xdf80 <=? CODEUNIT b) && (CODEUNIT b <=? 0xdfff) &&
      (u8 (CODEUNIT b) =? b) && IS_CODEUNIT (CODEUNIT b) = true).
    { clear Hb. assert (Hr' : 0x80 <= b < 0x80 + Z.of_nat 128) by lia.
      clear Hge Hr. revert b Hr'. apply zrange_check. vm_compute. reflexivity. }
    apply andb_prop in Hc as [Hc Hiu].
    split; [unfold scalar; lia|].
    unfold wcrtomb, btowc, wctob, put. rewrite Hiu. rewrite (u32_small (CODEUNIT b)) by lia.
    replace (CODEUNIT b <? 0x80) with false by lia.
    rewrite (u8_small b) by lia. replace (b <? 128) with false by lia.
    replace (b =? -1) with false by lia. cbn [negb andb].
    replace (u8 (CODEUNIT b)) with b by lia. auto.
Qed.

Lemma c_locale_transparent_witness :
  exists wc, mbrtowc false (mem_of 7 [0xe9]) (Some 7) 1 0 = mk_mbres 1 (Some wc) 0 None /\
             wctob false wc = 0xe9.
Proof.
  destruct (c_locale_transparent (mem_of 7 [0xe9]) 7 1 0xe9) as (wc & H1 & _ & _ & _ & H2);
    [reflexivity|lia|lia|]. exists wc. split; assumption.
Defined.

(** ** UTF-16 *)

Definition high_surrogate (cp : Z) : Z := 0xd800 + (cp - 0x10000) / 1024.
Definition low_surrogate (cp : Z) : Z := 0xdc00 + (cp - 0x10000) mod 1024.

Lemma c16_high m d cp :
  0x10000 <= cp < 0x110000 ->
  c16rtomb true m (Some d) (high_surrogate cp) 0 =
  (0, m, 0x10000 + 1024 * ((cp - 0x10000) / 1024), None).
Proof.
  intros H. unfold c16rtomb, high_surrogate. change (0 =? 0) with true. cbn [andb].
  rewrite u32_small by zlia. replace (_ <? 0x400) with true by zlia.
  rewrite Z.shiftl_mul_pow2, u32_small by zlia.
  replace (_ * 2 ^ 10) with (0x10000 + 1024 * ((cp - 0x10000) / 1024)) by lia. reflexivity.
Qed.

Lemma c16_low m d cp :
  0x10000 <= cp < 0x110000 ->
  c16rtomb true m (Some d) (low_surrogate cp) (0x10000 + 1024 * ((cp - 0x10000) / 1024)) =
  let '(r, m', e) := wcrtomb true m (Some d) cp in (r, m', 0, e).
Proof.
  intros H. unfold c16rtomb, low_surrogate.
  replace (0x10000 + _ =? 0) with false by zlia. cbn [andb negb].
  rewrite (u32_small (0xdc00 + _ - 0xdc00)) by zlia.
  replace (0x400 <=? _) with false by zlia.
  replace (s32 _) with cp; [reflexivity|].
  rewrite u32_small, s32_small by zlia. zlia.
Qed.

Lemma mbrtoc16_pair m s n cp :
  0x10000 <= cp -> scalar cp -> mbrtowc true m (Some s) n 0 = mk_mbres 4 (Some cp) 0 None ->
  mbrtoc16 true m (Some s) n 0 =
    mk_mbres 4 (Some (high_surrogate cp)) (low_surrogate cp) None.
Proof.
  intros Hge Hs E. unfold mbrtoc16. change (0 <? s32 0) with false. rewrite E.
  cbn [ret wcv err]. change (4 <=? 4) with true. replace (0x10000 <=? cp) with true by lia.
  unfold scalar in Hs. change 0x3ff with (Z.ones 10).
  rewrite Z.land_ones, shiftr_div by lia. unfold high_surrogate, low_surrogate.
  change (2 ^ 10) with 1024. f_equal; [f_equal; zlia|zlia].
Qed.

(** Characters above the basic plane survive UTF-16: c16rtomb takes the
    high surrogate (writing nothing) and then the low one, and writes the four
    UTF-8 bytes of the character; mbrtoc16 reads them back as the same two
    code units, the second from its state with return value (size_t)-3. *)
Theorem c16_roundtrip m s cp n :
  wf_mem m -> 0x10000 <= cp < 0x110000 -> 4 <= n ->
  exists x m',
    c16rtomb true m (Some s) (high_surrogate cp) 0 = (0, m, x, None) /\
    c16rtomb true m (Some s) (low_surrogate cp) x = (4, m', 0, None) /\
    meq m' (upd_list m s (utf8_encode cp)) /\
    mbrtoc16 true m' (Some s) n 0 =
      mk_mbres 4 (Some (high_surrogate cp)) (low_surrogate cp) None /\
    mbrtoc16 true m' (Some (s + 4)) (n - 4) (low_surrogate cp) =
      mk_mbres size_m3 (Some (low_surrogate cp)) 0 None.
Proof.
  intros Hm Hcp Hn. assert (Hs : scalar cp) by (unfold scalar; lia).
  destruct (wcrtomb_scalar m s cp Hs) as (m' & Hw & Hm').
  assert (Hlen : length (utf8_encode cp) = 4%nat).
  { unfold utf8_encode. replace (cp <? 0x80) with false by lia.
    replace (cp <? 0x800) with false by lia. now replace (cp <? 0x10000) with false by lia. }
  exists (0x10000 + 1024 * ((cp - 0x10000) / 1024)), m'.
  split; [now apply c16_high|]. split; [now rewrite c16_low, Hw, Hlen|].
  split; [assumption|]. split.
  - apply mbrtoc16_pair; [lia|assumption|].
    assert (Hwf : wf_mem m').
    { intros x. rewrite Hm'. apply upd_list_wf; [assumption|now apply encode_bytes]. }
    rewrite mbrtowc_run_start by (assumption || lia).
    replace (Z.to_nat n) with (length (utf8_encode cp) + (Z.to_nat n - 4))%nat by lia.
    rewrite Hm', bytes_at_upd_list, run_encode, Hlen by assumption.
    destruct cp; [lia| |lia]. cbn [answer]. f_equal. lia.
  - unfold mbrtoc16, low_surrogate.
    rewrite s32_small by zlia. now replace (0 <? 0xdc00 + _) with true by zlia.
Qed.

Lemma c16_roundtrip_witness :
  exists x m', c16rtomb true (fun _ => 0) (Some 3) 0xd83d 0 = (0, (fun _ => 0), x, None) /\
               c16rtomb true (fun _ => 0) (Some 3) 0xde00 x = (4, m', 0, None).
Proof.
  destruct (c16_roundtrip (fun _ => 0) 3 0x1f600 4) as (x & m' & H1 & H2 & _);
    [intros a; lia|lia|lia|]. exists x, m'. split; assumption.
Defined.

(** ** mbtowc *)

(** The length test mbtowc makes on the lead byte. *)
Lemma mbtowc_len_test b n :
  lead b = true -> 1 <= n ->
  (n <? 4) && negb (Z.land (u32 (Z.shiftl (bittab_at b) (6 * n - 6))) (Z.shiftl 1 31) =? 0)
  = (n <=? Z.of_nat (tail_len b)).
Proof.
  intros Hb Hn. destruct (Z.ltb_spec n 4) as [Hlt|Hge]; cbn [andb].
  - apply eqb_prop.
    assert (H : forallb (fun n => eqb (negb (Z.land (u32 (Z.shiftl (bittab_at b) (6 * n - 6)))
      (Z.shiftl 1 31) =? 0)) (n <=? Z.of_nat (tail_len b))) (zrange 1 3) = true).
    { clear Hn Hlt n. revert b Hb. apply lead_check. vm_compute. reflexivity. }
    exact (zrange_check _ 1 3 H n ltac:(lia)).
  - destruct (tail_len_cases b) as [[_ ->]|[[_ ->]|[_ ->]]]; lia.
Qed.

(** The answer of mbtowc: an incomplete character is an error. *)
Definition answer_int (o : outcome) : mbres :=
  match o with
  | Done cp u => mk_mbres (Z.of_nat u) (Some cp) 0 None
  | _ => ilseq_int
  end.

Lemma run_tail_done k v u l cp u' :
  run_tail k v u l = Done cp u' -> (u' = u + k /\ k <= length l)%nat.
Proof.
  revert v u l. induction k as [|k IH]; intros v u l H; cbn [run_tail] in H.
  - injection H as _ <-. lia.
  - destruct l as [|b l]; [discriminate|]. destruct (cont b); [|discriminate].
    apply IH in H. simpl. lia.
Qed.

(** The part of mbtowc after the length test. *)
Lemma mbtowc_tail m s tl :
  wf_mem m -> lead (m s) = true ->
  (if OOB (bittab_at (m s)) (m (s + 1)) then ilseq_int
   else
     let c := shift_in (bittab_at (m s)) (m (s + 1)) in
     if negb (more c) then mk_mbres 2 (Some c) 0 None
     else if 0x40 <=? u32 (m (s + 2) - 0x80) then ilseq_int
     else
       let c := shift_in c (m (s + 2)) in
       if negb (more c) then mk_mbres 3 (Some c) 0 None
       else if 0x40 <=? u32 (m (s + 3) - 0x80) then ilseq_int
       else mk_mbres 4 (Some (shift_in c (m (s + 3)))) 0 None)
  = answer_int (run_lead (m s) 1 (bytes_at m (s + 1) (tail_len (m s)) ++ tl)).
Proof.
  intros Hm El. rewrite OOB_lead by (assumption || apply Hm).
  assert (Happ : exists k, tail_len (m s) = S k /\ (k <= 2)%nat)
    by (destruct (tail_len_cases (m s)) as [[_ ->]|[[_ ->]|[_ ->]]]; eexists; split; auto; lia).
  destruct Happ as (k & Ek & Hk).
  rewrite Ek. cbn [bytes_at app run_lead].
  destruct (second_ok (m s) (m (s + 1))) eqn:E2; [|reflexivity]. cbn [negb].
  pose proof (second_ok_cont _ _ E2) as Hc. destruct (lead_vbound _ _ El E2) as [_ Hv].
  rewrite (shift_in_lead _ _ El Hc). rewrite Ek in *. cbn [Nat.sub] in *. rewrite Nat.sub_0_r in *.
  cbv zeta. rewrite more_pend by assumption. cbn [run_tail]. rewrite Hc.
  set (v := 64 * payload (m s) + (m (s + 1) - 0x80)) in *. clearbody v.
  destruct k as [|k]; [reflexivity|]. cbn [Nat.eqb negb bytes_at app run_tail].
  rewrite cont_test by apply Hm. replace (s + 1 + 1) with (s + 2) by lia.
  destruct (cont (m (s + 2))) eqn:Hc2; [|reflexivity]. cbn [negb].
  rewrite shift_in_pend by (assumption || lia).
  assert (Hv2 : 0 <= 64 * v + (m (s + 2) - 0x80) < vbound k) by now apply vbound_step; [lia|..].
  rewrite more_pend by (assumption || lia).
  destruct k as [|k]; [reflexivity|]. cbn [Nat.eqb negb bytes_at app run_tail].
  rewrite cont_test by apply Hm. replace (s + 2 + 1) with (s + 3) by lia.
  destruct (cont (m (s + 3))) eqn:Hc3; [|reflexivity]. cbn [negb].
  rewrite shift_in_pend by (assumption || lia).
  destruct k as [|k]; [reflexivity|lia].
Qed.

(** mbtowc agrees with mbrtowc: the same character and length whenever
    mbrtowc from the initial state produces one, and EILSEQ when mbrtowc fails
    or the bytes end inside a character; it never looks at a byte past the
    limit to accept one. *)
Theorem mbtowc_agrees m s n :
  wf_mem m -> 0 < n < size_m2 ->
  let r := mbrtowc true m (Some s) n 0 in
  mbtowc true m (Some s) n =
  if ret r <? size_m2 then mk_mbres (ret r) (wcv r) 0 None else ilseq_int.
Proof.
  intros Hm Hn r. unfold mbtowc. replace (n =? 0) with false by lia.
  assert (Hsz : size_m2 = 18446744073709551614) by reflexivity.
  destruct (Z.ltb_spec (m s) 0x80) as [Hlt|Hge].
  { subst r. unfold mbrtowc. replace (n =? 0) with false by lia.
    replace (m s <? 0x80) with true by lia. change (0 =? 0) with true. cbn [ret wcv].
    replace (_ <? size_m2) with true by (destruct (m s =? 0); cbn [negb b2z]; lia).
    reflexivity. }
  cbn [negb]. rewrite lead_test by (apply Hm || lia).
  destruct (lead (m s)) eqn:El; cbn [negb].
  2:{ subst r. unfold mbrtowc. replace (n =? 0) with false by lia.
      replace (m s <? 0x80) with false by lia. change (0 =? 0) with true. cbn [negb].
      rewrite lead_test, El by (apply Hm || lia). reflexivity. }
  rewrite mbtowc_len_test by (assumption || lia). cbv zeta.
  assert (Hrun : forall k, bytes_at m s (S k) = m s :: bytes_at m (s + 1) k) by reflexivity.
  subst r. rewrite mbrtowc_run_start by (assumption || lia).
  replace (Z.to_nat n) with (S (Z.to_nat (n - 1))) by lia. rewrite Hrun. cbn [run].
  replace (m s <? 0x80) with false by lia. rewrite El.
  destruct (Z.leb_spec n (Z.of_nat (tail_len (m s)))) as [Hshort|Hlong].
  - destruct (run_lead (m s) 1 (bytes_at m (s + 1) (Z.to_nat (n - 1)))) as [cp u|st|] eqn:E;
      [exfalso|reflexivity|reflexivity].
    unfold run_lead in E. destruct (bytes_at _ _ _) as [|b l] eqn:Eb; [discriminate|].
    destruct (second_ok (m s) b); [|discriminate]. apply run_tail_done in E as [_ E].
    rewrite <- Eb, bytes_at_length in E. lia.
  - pose proof (mbtowc_tail m s (bytes_at m (s + 1 + Z.of_nat (tail_len (m s)))
      (Z.to_nat (n - 1) - tail_len (m s))) Hm El) as Ht. cbv zeta in Ht. rewrite Ht. clear Ht.
    rewrite <- bytes_at_app, Nat.add_comm, Nat.sub_add by lia.
    set (l := bytes_at m (s + 1) _).
    destruct (run_lead (m s) 1 l) as [cp u|st|] eqn:E; [|reflexivity|reflexivity].
    destruct (run_done (m s :: l) cp u) as (_ & Hu & rest & Hr).
    { constructor; [apply Hm|]. apply bytes_at_forall, Hm. }
    { cbn [run]. replace (m s <? 0x80) with false by lia. now rewrite El. }
    assert (Hcp : cp <> 0) by (intros ->; injection Hr as Hr _; lia).
    pose proof (utf8_encode_length cp).
    destruct cp as [|p|p]; [easy| |]; cbn [answer answer_int ret wcv].
    all: replace (_ <? size_m2) with true by lia; f_equal; lia.
Qed.

Lemma mbtowc_agrees_witness :
  mbtowc true (mem_of 9 [0xc3; 0xa9]) (Some 9) 2 = mk_mbres 2 (Some 0xe9) 0 None.
Proof.
  etransitivity; [apply (mbtowc_agrees (mem_of 9 [0xc3; 0xa9]) 9 2)|].
  - apply mem_of_wf. repeat constructor; lia.
  - vm_compute. split; reflexivity.
  - vm_compute. reflexivity.
Defined.
