(* ===== verification/MemCopy.v ===== *)
(** * MemCopy: memcpy, memmove, memset

    Models src/string/memcpy.c, memmove.c and memset.c on the flat byte memory
    of Prelude: the word-at-a-time loops, the shifted copies of memcpy for
    misaligned destinations and the overlapping stores of memset are the
    code's, on 32- and 64-bit little-endian words.  Loops run on the remaining
    length, which bounds their rounds.  The theorems say that each function is
    the byte-wise specification ([mcopy], [mfill]): equivalence of the
    optimised routine with the reference, and nothing outside the destination
    changes. *)

From Stdlib Require Import ZArith Lia ZifyBool List Bool Setoid Morphisms.
From S2P Require Import Prelude.
Open Scope Z_scope.

(** ** The code *)

Definition cst : Type := mem * Z * Z * Z.   (* memory, d, s, n *)

(** The statement "d[0] = s[0], both pointers stepped", k times. *)
Fixpoint copy_bytes (k : nat) (m : mem) (d s : Z) : mem :=
  match k with
  | O => m
  | S k' => copy_bytes k' (mset m d (m s)) (d + 1) (s + 1)
  end.

Definition bit (n k : Z) : bool := negb (Z.land n k =? 0).

(** One aligned 32-bit word read and written. *)
Definition copy_word (m : mem) (d s : Z) : mem := store 4 m d (load 4 m s).

Definition head_cond (t : cst) : bool :=
  let '(_, _, s, n) := t in negb (s mod 4 =? 0) && negb (n =? 0).

Definition head_step (t : cst) : cst :=
  let '(m, d, s, n) := t in (mset m d (m s), d + 1, s + 1, n - 1).

Definition aligned_step (t : cst) : cst :=
  let '(m, d, s, n) := t in
  let m := copy_word m (d + 0) (s + 0) in
  let m := copy_word m (d + 4) (s + 4) in
  let m := copy_word m (d + 8) (s + 8) in
  let m := copy_word m (d + 12) (s + 12) in
  (m, d + 16, s + 16, n - 16).

(** The branch for a destination that is also aligned. *)
Definition memcpy_aligned (t : cst) : mem :=
  let '(m, d, s, n) := t in
  let '(m, d, s, n) :=
    while (fun '(_, _, _, n) => 16 <=? n) aligned_step (Z.to_nat n) (m, d, s, n) in
  let '(m, d, s) :=
    if bit n 8 then
      (copy_word (copy_word m (d + 0) (s + 0)) (d + 4) (s + 4), d + 8, s + 8)
    else (m, d, s) in
  let '(m, d, s) :=
    if bit n 4 then (copy_word m (d + 0) (s + 0), d + 4, s + 4) else (m, d, s) in
  let '(m, d, s) :=
    if bit n 2 then (copy_bytes 2 m d s, d + 2, s + 2) else (m, d, s) in
  if bit n 1 then copy_bytes 1 m d s else m.

(** The loops of the three misaligned cases: destination d % 4 = 4 - k, so
    that the source words straddle; [k] bytes of [w] are already copied and
    the next source word is at s + (4 - k).  [k] is 3, 2, 1. *)
Definition shift_step (k : Z) (t : cst * Z) : cst * Z :=
  let '((m, d, s, n), w) := t in
  let o := 4 - k in
  let x := load 4 m (s + o) in
  let m := store 4 m (d + 0)
             (Z.lor (Z.shiftr w (8 * k)) (u32 (Z.shiftl x (8 * o)))) in
  let w := load 4 m (s + (o + 4)) in
  let m := store 4 m (d + 4)
             (Z.lor (Z.shiftr x (8 * k)) (u32 (Z.shiftl w (8 * o)))) in
  let x := load 4 m (s + (o + 8)) in
  let m := store 4 m (d + 8)
             (Z.lor (Z.shiftr w (8 * k)) (u32 (Z.shiftl x (8 * o)))) in
  let w := load 4 m (s + (o + 12)) in
  let m := store 4 m (d + 12)
             (Z.lor (Z.shiftr x (8 * k)) (u32 (Z.shiftl w (8 * o)))) in
  ((m, d + 16, s + 16, n - 16), w).

(** case 4-k of the switch: read w, copy k bytes, run the loop while
    n >= 20 - k. *)
Definition shift_case (k : Z) (t : cst) : cst :=
  let '(m, d, s, n) := t in
  let w := load 4 m s in
  let m := copy_bytes (Z.to_nat k) m d s in
  let '(t, _) :=
    while (fun '((_, _, _, n), _) => 20 - k <=? n) (shift_step k) (Z.to_nat n)
      ((m, d + k, s + k, n - k), w) in
  t.

Definition memcpy_tail (t : cst) : mem :=
  let '(m, d, s, n) := t in
  let '(m, d, s) :=
    if bit n 16 then (copy_bytes 16 m d s, d + 16, s + 16) else (m, d, s) in
  let '(m, d, s) :=
    if bit n 8 then (copy_bytes 8 m d s, d + 8, s + 8) else (m, d, s) in
  let '(m, d, s) :=
    if bit n 4 then (copy_bytes 4 m d s, d + 4, s + 4) else (m, d, s) in
  let '(m, d, s) :=
    if bit n 2 then (copy_bytes 2 m d s, d + 2, s + 2) else (m, d, s) in
  if bit n 1 then copy_bytes 1 m d s else m.

(** memcpy: the memory after the call and the return value. *)
Definition memcpy (m : mem) (dest src n : Z) : mem * Z :=
  let '(m, d, s, n) :=
    while head_cond head_step 3 (m, dest, src, n) in
  if d mod 4 =? 0 then (memcpy_aligned (m, d, s, n), dest)
  else
    let '(m, d, s, n) :=
      if 32 <=? n then
        match d mod 4 with
        | 1 => shift_case 3 (m, d, s, n)
        | 2 => shift_case 2 (m, d, s, n)
        | 3 => shift_case 1 (m, d, s, n)
        | _ => (m, d, s, n)
        end
      else (m, d, s, n) in
    (memcpy_tail (m, d, s, n), dest).

(** memmove, on 64-bit words.  The alignment loops leave the function when the
    length runs out ([inr]); [n] counts what is left. *)
Definition WS : Z := 8.

Definition fwd_align (t : cst) : cst + (cst + mem) :=
  let '(m, d, s, n) := t in
  if d mod WS =? 0 then inr (inl t)
  else if n =? 0 then inr (inr m)
  else inl (mset m d (m s), d + 1, s + 1, n - 1).

Definition fwd_word_step (t : cst) : cst :=
  let '(m, d, s, n) := t in (store 8 m d (load 8 m s), d + WS, s + WS, n - WS).

Definition fwd_byte_step (t : cst) : cst :=
  let '(m, d, s, n) := t in (mset m d (m s), d + 1, s + 1, n - 1).

Definition fwd_bytes_loop (t : cst) : mem :=
  let '(m, _, _, n) := t in
  let '(m, _, _, _) :=
    while (fun '(_, _, _, n) => negb (n =? 0)) fwd_byte_step (Z.to_nat n) t in m.

Definition bwd_align (t : cst) : cst + (cst + mem) :=
  let '(m, d, s, n) := t in
  if (d + n) mod WS =? 0 then inr (inl t)
  else if n =? 0 then inr (inr m)
  else inl (mset m (d + (n - 1)) (m (s + (n - 1))), d, s, n - 1).

Definition bwd_word_step (t : cst) : cst :=
  let '(m, d, s, n) := t in
  let n := n - WS in (store 8 m (d + n) (load 8 m (s + n)), d, s, n).

Definition bwd_byte_step (t : cst) : cst :=
  let '(m, d, s, n) := t in
  let n := n - 1 in (mset m (d + n) (m (s + n)), d, s, n).

Definition bwd_bytes_loop (t : cst) : mem :=
  let '(m, _, _, n) := t in
  let '(m, _, _, _) :=
    while (fun '(_, _, _, n) => negb (n =? 0)) bwd_byte_step (Z.to_nat n) t in m.

(** [None]: the bound on an alignment loop (one word) was not enough; the
    theorem shows that it always is. *)
Definition memmove (m : mem) (dest src n : Z) : option (mem * Z) :=
  if dest =? src then Some (m, dest)
  else if u64 (src - dest - n) <=? u64 (-2 * n) then Some (memcpy m dest src n)
  else if dest <? src then
    if src mod WS =? dest mod WS then
      match loop fwd_align 9 (m, dest, src, n) with
      | None => None
      | Some (inr m) => Some (m, dest)
      | Some (inl (m, d, s, n)) =>
          let t := while (fun '(_, _, _, n) => WS <=? n) fwd_word_step (Z.to_nat n) (m, d, s, n) in
          Some (fwd_bytes_loop t, dest)
      end
    else Some (fwd_bytes_loop (m, dest, src, n), dest)
  else
    if src mod WS =? dest mod WS then
      match loop bwd_align 9 (m, dest, src, n) with
      | None => None
      | Some (inr m) => Some (m, dest)
      | Some (inl (m, d, s, n)) =>
          let t := while (fun '(_, _, _, n) => WS <=? n) bwd_word_step (Z.to_nat n) (m, d, s, n) in
          Some (bwd_bytes_loop t, dest)
      end
    else Some (bwd_bytes_loop (m, dest, src, n), dest).

(** memset.  Bytes are stored as the unsigned char of [c]. *)
Definition c32 (c : Z) : Z := u32 (u32 (-1) / 255 * u8 c).
Definition c64 (c : Z) : Z := Z.lor (c32 c) (u64 (Z.shiftl (c32 c) 32)).

Definition fill64_step (c : Z) (t : mem * Z * Z) : mem * Z * Z :=
  let '(m, s, n) := t in
  let m := store 8 m (s + 0) (c64 c) in
  let m := store 8 m (s + 8) (c64 c) in
  let m := store 8 m (s + 16) (c64 c) in
  let m := store 8 m (s + 24) (c64 c) in
  (m, s + 32, n - 32).

Definition memset (m : mem) (dest c n : Z) : mem * Z :=
  let s := dest in
  let b := u8 c in
  if n =? 0 then (m, dest)
  else
  let m := mset m (s + 0) b in
  let m := mset m (s + (n - 1)) b in
  if n <=? 2 then (m, dest)
  else
  let m := mset m (s + 1) b in
  let m := mset m (s + 2) b in
  let m := mset m (s + (n - 2)) b in
  let m := mset m (s + (n - 3)) b in
  if n <=? 6 then (m, dest)
  else
  let m := mset m (s + 3) b in
  let m := mset m (s + (n - 4)) b in
  if n <=? 8 then (m, dest)
  else
  let k := Z.land (u64 (- s)) 3 in
  let s := s + k in
  let n := n - k in
  let n := Z.land n (u64 (-4)) in
  let w := c32 c in
  let m := store 4 m (s + 0) w in
  let m := store 4 m (s + n - 4) w in
  if n <=? 8 then (m, dest)
  else
  let m := store 4 m (s + 4) w in
  let m := store 4 m (s + 8) w in
  let m := store 4 m (s + n - 12) w in
  let m := store 4 m (s + n - 8) w in
  if n <=? 24 then (m, dest)
  else
  let m := store 4 m (s + 12) w in
  let m := store 4 m (s + 16) w in
  let m := store 4 m (s + 20) w in
  let m := store 4 m (s + 24) w in
  let m := store 4 m (s + n - 28) w in
  let m := store 4 m (s + n - 24) w in
  let m := store 4 m (s + n - 20) w in
  let m := store 4 m (s + n - 16) w in
  let k := 24 + Z.land s 4 in
  let s := s + k in
  let n := n - k in
  let '(m, _, _) :=
    while (fun '(_, _, n) => 32 <=? n) (fill64_step c) (Z.to_nat n) (m, s, n) in
  (m, dest).

(** ** memcpy is a byte-wise copy *)

(** The straddling words: the high bytes of one source word and the low bytes
    of the next are the word between them. *)
Lemma straddle m a k :
  wf_mem m -> 1 <= k <= 3 ->
  Z.lor (Z.shiftr (load 4 m (a - k)) (8 * k))
        (u32 (Z.shiftl (load 4 m (a + (4 - k))) (8 * (4 - k)))) = load 4 m a.
Proof.
  intros Hm Hk. rewrite Z.lor_comm, Z.shiftl_mul_pow2, Z.shiftr_div_pow2 by lia.
  set (x := load 4 m (a + (4 - k))). set (w := load 4 m (a - k)).
  assert (Hu : u32 (x * 2 ^ (8 * (4 - k))) = (x mod 2 ^ (8 * k)) * 2 ^ (8 * (4 - k))).
  { unfold u32. change 4294967296 with (2 ^ 32).
    replace 32 with (8 * k + 8 * (4 - k)) by lia.
    rewrite Z.pow_add_r, Z.mul_mod_distr_r by lia. reflexivity. }
  rewrite Hu. pose (i := Z.to_nat k). pose (j := (4 - i)%nat).
  assert (Hij : (i + j = 4 /\ j + i = 4)%nat /\ k = Z.of_nat i /\ 4 - k = Z.of_nat j) by lia.
  destruct Hij as [[H4 H4'] [Hki Hkj]].
  assert (Hpow : forall e, 0 <= e -> 2 ^ (8 * e) = 256 ^ e).
  { intros e He. now rewrite Z.pow_mul_r by lia. }
  rewrite !Hpow, Hkj, Hki by lia.
  assert (Hw : w / 256 ^ Z.of_nat i = load j m a).
  { subst w. rewrite <- H4, load_div by assumption. f_equal. lia. }
  assert (Hx : x mod 256 ^ Z.of_nat i = load i m (a + Z.of_nat j)).
  { subst x. rewrite <- H4, load_mod by assumption. f_equal. lia. }
  rewrite Hw, Hx, <- Hpow, lor_add, Hpow by (rewrite ?Hpow by lia; lia || apply load_range, Hm).
  rewrite <- H4', load_app. lia.
Qed.

(** [copied m0 d0 s0 k m d s]: [k] bytes have been copied. *)
Definition copied (m0 : mem) (d0 s0 k : Z) (m : mem) (d s : Z) : Prop :=
  meq m (mcopy m0 d0 s0 k) /\ d = d0 + k /\ s = s0 + k.

(** What a forward copy may assume: the bytes still to be read are not among
    those already written. *)
Section Forward.
Variables (m0 : mem) (d0 s0 N : Z).
Hypothesis Hwf : wf_mem m0.
Hypothesis Hsafe : d0 < s0 \/ s0 + N <= d0.

Lemma copied_source k m d s x :
  copied m0 d0 s0 k m d s -> 0 <= k -> s0 + k <= x < s0 + N -> m x = m0 x.
Proof.
  intros [Hm _] Hk Hx. rewrite Hm. unfold mcopy, within.
  now replace ((d0 <=? x) && (x <? d0 + k)) with false by lia.
Qed.

Lemma copied_wf k m d s : copied m0 d0 s0 k m d s -> wf_mem m.
Proof. intros [Hm _] x. rewrite Hm. now apply mcopy_wf. Qed.

Lemma copied_0 : copied m0 d0 s0 0 m0 d0 s0.
Proof. split; [|lia]. now rewrite mcopy_0 by lia. Qed.

(** Copying [j] more bytes, in any way that amounts to [mcopy]. *)
Lemma copied_more k j m d s m' :
  copied m0 d0 s0 k m d s -> 0 <= k -> 0 <= j -> k + j <= N ->
  meq m' (mcopy m d s j) -> copied m0 d0 s0 (k + j) m' (d + j) (s + j).
Proof.
  intros (Hm & -> & ->) Hk Hj HN Hm'. split; [|lia].
  rewrite Hm', Hm. apply mcopy_app; lia.
Qed.

Lemma copied_byte k m d s :
  copied m0 d0 s0 k m d s -> 0 <= k -> k + 1 <= N ->
  copied m0 d0 s0 (k + 1) (mset m d (m s)) (d + 1) (s + 1).
Proof. intros. eapply copied_more; eauto; try lia. apply mset_mcopy. Qed.

Lemma copied_bytes j k m d s :
  copied m0 d0 s0 k m d s -> 0 <= k -> k + Z.of_nat j <= N ->
  copied m0 d0 s0 (k + Z.of_nat j) (copy_bytes j m d s) (d + Z.of_nat j) (s + Z.of_nat j).
Proof.
  revert k m d s; induction j as [|j IH]; intros k m d s H Hk HN; cbn [copy_bytes].
  - cbn [Z.of_nat]. now rewrite !Z.add_0_r.
  - apply copied_byte in H; [|lia..]. apply IH in H; [|lia..].
    replace (Z.of_nat (S j)) with (1 + Z.of_nat j) by lia. now rewrite !Z.add_assoc.
Qed.

(** A word whose value is the source's is a copy of its [n] bytes. *)
Lemma copied_store n k m d s v :
  copied m0 d0 s0 k m d s -> 0 <= k -> k + Z.of_nat n <= N -> v = load n m s ->
  copied m0 d0 s0 (k + Z.of_nat n) (store n m d v) (d + Z.of_nat n) (s + Z.of_nat n).
Proof.
  intros H Hk HN ->. apply (copied_more k _ m d s); auto; try lia.
  apply store_load. eapply copied_wf; eauto.
Qed.

Lemma copied_word k m d s :
  copied m0 d0 s0 k m d s -> 0 <= k -> k + 4 <= N ->
  copied m0 d0 s0 (k + 4) (copy_word m d s) (d + 4) (s + 4).
Proof. intros. now apply (copied_store 4). Qed.

(** A loaded source word does not depend on what has been copied. *)
Lemma copied_load n k m d s a :
  copied m0 d0 s0 k m d s -> 0 <= k -> s0 + k <= a -> a + Z.of_nat n <= s0 + N ->
  load n m a = load n m0 a.
Proof.
  intros H Hk. revert a; induction n as [|n IH]; intros a Ha HN; cbn [load]; [reflexivity|].
  rewrite IH by lia. f_equal. eapply copied_source; eauto. lia.
Qed.

(** The loop state of a forward copy. *)
Definition fwd (t : cst) : Prop :=
  let '(m, d, s, n) := t in 0 <= n <= N /\ copied m0 d0 s0 (N - n) m d s.

Lemma fwd_start : 0 <= N -> fwd (m0, d0, s0, N).
Proof. intros. split; [lia|]. rewrite Z.sub_diag. apply copied_0. Qed.

Lemma fwd_more j m d s n m' :
  fwd (m, d, s, n) -> 0 <= j <= n ->
  copied m0 d0 s0 (N - n + j) m' (d + j) (s + j) -> fwd (m', d + j, s + j, n - j).
Proof.
  intros [Hn H] Hj H'. split; [lia|]. now replace (N - (n - j)) with (N - n + j) by lia.
Qed.

Lemma fwd_byte m d s n :
  fwd (m, d, s, n) -> 0 < n -> fwd (mset m d (m s), d + 1, s + 1, n - 1).
Proof.
  intros H Hn. eapply fwd_more; eauto; [lia|]. destruct H. apply copied_byte; auto; lia.
Qed.

Lemma fwd_bytes j m d s n :
  fwd (m, d, s, n) -> Z.of_nat j <= n ->
  fwd (copy_bytes j m d s, d + Z.of_nat j, s + Z.of_nat j, n - Z.of_nat j).
Proof.
  intros H Hn. eapply fwd_more; eauto; [lia|]. destruct H. apply copied_bytes; auto; lia.
Qed.

Lemma fwd_word m d s n :
  fwd (m, d, s, n) -> 4 <= n -> fwd (copy_word m d s, d + 4, s + 4, n - 4).
Proof.
  intros H Hn. eapply fwd_more; eauto; [lia|]. destruct H. apply copied_word; auto; lia.
Qed.

Lemma fwd_done m d s : fwd (m, d, s, 0) -> meq m (mcopy m0 d0 s0 N).
Proof. intros [_ [H _]]. now rewrite Z.sub_0_r in H. Qed.

Lemma fwd_aligned_step m d s n :
  fwd (m, d, s, n) -> 16 <= n -> fwd (aligned_step (m, d, s, n)).
Proof.
  intros H Hn. unfold aligned_step. rewrite !Z.add_0_r.
  do 4 (apply fwd_word in H; [|lia]). rewrite <- !Z.add_assoc, <- !Z.sub_add_distr in H.
  exact H.
Qed.

(** The optional copies of the tail, each for one bit of the length. *)
Lemma fwd_opt (b : bool) j m d s r m' :
  fwd (m, d, s, b2z b * j + r) -> 0 <= r ->
  (forall n, fwd (m, d, s, n) -> j <= n -> fwd (m', d + j, s + j, n - j)) ->
  let '(m1, d1, s1) := if b then (m', d + j, s + j) else (m, d, s) in
  fwd (m1, d1, s1, r).
Proof.
  intros H Hr Hstep. destruct b; cbn [b2z] in H.
  - specialize (Hstep _ H ltac:(lia)). now replace (1 * j + r - j) with r in Hstep by lia.
  - now replace (0 * j + r) with r in H by lia.
Qed.

Lemma fwd_opt_last (b : bool) m d s :
  fwd (m, d, s, b2z b * 1) ->
  meq (if b then copy_bytes 1 m d s else m) (mcopy m0 d0 s0 N).
Proof.
  intros H. destruct b; cbn [b2z] in H.
  - apply (fwd_bytes 1) in H; [|lia]. now apply fwd_done in H.
  - now apply fwd_done in H.
Qed.
End Forward.

Lemma bits_sum n :
  0 <= n < 32 ->
  n = b2z (bit n 16) * 16 + (b2z (bit n 8) * 8 + (b2z (bit n 4) * 4 +
      (b2z (bit n 2) * 2 + b2z (bit n 1) * 1))).
Proof.
  intros H. apply Z.eqb_eq. revert n H. apply (zrange_check _ 0 32). vm_compute. reflexivity.
Qed.

Lemma bit16_small n : 0 <= n < 16 -> bit n 16 = false.
Proof.
  intros H. apply negb_true_iff. revert n H. apply (zrange_check _ 0 16).
  vm_compute. reflexivity.
Qed.

Lemma b2z_range b : 0 <= b2z b <= 1.
Proof. destruct b; simpl; lia. Qed.

Section Memcpy.
Variables (m0 : mem) (d0 s0 N : Z).
Hypothesis Hwf : wf_mem m0.
Hypothesis Hdisj : d0 + N <= s0 \/ s0 + N <= d0.
Hypothesis HN : 0 <= N.

Let F := fwd m0 d0 s0 N.

Lemma memcpy_aligned_ok m d s n :
  0 < N -> F (m, d, s, n) -> meq (memcpy_aligned (m, d, s, n)) (mcopy m0 d0 s0 N).
Proof.
  intros HN0 H. assert (Hs : d0 < s0 \/ s0 + N <= d0) by lia.
  unfold memcpy_aligned.
  destruct (while_rule (fun '(_, _, _, n) => 16 <=? n) aligned_step F
              (fun '(_, _, _, n) => Z.to_nat n) (Z.to_nat n) (m, d, s, n)) as [H1 Hlt].
  { intros [[[m1 d1] s1] n1] H1 E. split; [apply fwd_aligned_step; auto; lia|simpl; lia]. }
  { exact H. } { lia. }
  destruct (while _ _ _ _) as [[[m1 d1] s1] n1]. clear H m d s n.
  assert (Hn1 : 0 <= n1 < 16) by (destruct H1 as [? _]; lia).
  pose proof (bits_sum n1 ltac:(lia)) as Hb. rewrite (bit16_small n1 Hn1) in Hb.
  cbn [b2z] in Hb. rewrite Z.mul_0_l, Z.add_0_l in Hb. rewrite Hb in H1.
  set (b8 := bit n1 8) in *. set (b4 := bit n1 4) in *. set (b2 := bit n1 2) in *.
  set (b1 := bit n1 1) in *. clearbody b8 b4 b2 b1. clear Hlt Hn1 Hb n1.
  pose proof (b2z_range b1). pose proof (b2z_range b2). pose proof (b2z_range b4).
  apply (fwd_opt _ _ _ _ b8 8 m1 d1 s1 _
    (copy_word (copy_word m1 (d1 + 0) (s1 + 0)) (d1 + 4) (s1 + 4))) in H1; [|lia|].
  2:{ intros n Hf Hn. rewrite !Z.add_0_r. do 2 (apply fwd_word in Hf; [|auto; lia..]).
      now rewrite <- !Z.add_assoc, <- !Z.sub_add_distr in Hf. }
  destruct (if b8 then _ else _) as [[m2 d2] s2].
  apply (fwd_opt _ _ _ _ b4 4 m2 d2 s2 _ (copy_word m2 (d2 + 0) (s2 + 0))) in H1; [|lia|].
  2:{ intros n Hf Hn. rewrite !Z.add_0_r. now apply fwd_word. }
  destruct (if b4 then _ else _) as [[m3 d3] s3].
  apply (fwd_opt _ _ _ _ b2 2 m3 d3 s3 _ (copy_bytes 2 m3 d3 s3)) in H1; [|lia|].
  2:{ intros n Hf Hn. now apply fwd_bytes with (j := 2%nat). }
  destruct (if b2 then _ else _) as [[m4 d4] s4].
  now apply fwd_opt_last.
Qed.

Lemma memcpy_tail_ok m d s n :
  0 < N -> n < 32 -> F (m, d, s, n) -> meq (memcpy_tail (m, d, s, n)) (mcopy m0 d0 s0 N).
Proof.
  intros HN0 Hlt H. assert (Hs : d0 < s0 \/ s0 + N <= d0) by lia.
  unfold memcpy_tail.
  pose proof (bits_sum n ltac:(destruct H; lia)) as Hb. rewrite Hb in H.
  set (b16 := bit n 16) in *.
  set (b8 := bit n 8) in *. set (b4 := bit n 4) in *. set (b2 := bit n 2) in *.
  set (b1 := bit n 1) in *. clearbody b16 b8 b4 b2 b1. clear Hlt Hb n.
  pose proof (b2z_range b1). pose proof (b2z_range b2). pose proof (b2z_range b4).
  pose proof (b2z_range b8).
  apply (fwd_opt _ _ _ _ b16 16 m d s _ (copy_bytes 16 m d s)) in H; [|lia|].
  2:{ intros n Hf Hn. now apply fwd_bytes with (j := 16%nat). }
  destruct (if b16 then _ else _) as [[m1 d1] s1].
  apply (fwd_opt _ _ _ _ b8 8 m1 d1 s1 _ (copy_bytes 8 m1 d1 s1)) in H; [|lia|].
  2:{ intros n Hf Hn. now apply fwd_bytes with (j := 8%nat). }
  destruct (if b8 then _ else _) as [[m2 d2] s2].
  apply (fwd_opt _ _ _ _ b4 4 m2 d2 s2 _ (copy_bytes 4 m2 d2 s2)) in H; [|lia|].
  2:{ intros n Hf Hn. now apply fwd_bytes with (j := 4%nat). }
  destruct (if b4 then _ else _) as [[m3 d3] s3].
  apply (fwd_opt _ _ _ _ b2 2 m3 d3 s3 _ (copy_bytes 2 m3 d3 s3)) in H; [|lia|].
  2:{ intros n Hf Hn. now apply fwd_bytes with (j := 2%nat). }
  destruct (if b2 then _ else _) as [[m4 d4] s4].
  now apply fwd_opt_last.
Qed.

(** A source word is the same in every state of the copy. *)
Lemma memcpy_load n k m d s a :
  copied m0 d0 s0 k m d s -> 0 <= k <= N -> s0 <= a -> a + Z.of_nat n <= s0 + N ->
  load n m a = load n m0 a.
Proof.
  intros [Hm _] Hk. revert a; induction n as [|n IH]; intros a Ha HaN; cbn [load]; [reflexivity|].
  rewrite IH by lia. f_equal. rewrite Hm. unfold mcopy, within.
  now replace ((d0 <=? a) && (a <? d0 + k)) with false by lia.
Qed.

(** One straddling word. *)
Lemma fwd_shift k m d s n w x :
  1 <= k <= 3 -> F (m, d, s, n) -> 8 - k <= n -> s0 + k <= s ->
  w = load 4 m0 (s - k) -> x = load 4 m0 (s + (4 - k)) ->
  F (store 4 m d (Z.lor (Z.shiftr w (8 * k)) (u32 (Z.shiftl x (8 * (4 - k))))),
     d + 4, s + 4, n - 4).
Proof.
  intros Hk [Hn H] Hkn Hs -> ->. apply (fwd_more m0 d0 s0 N 4 m d s n); [split; auto|lia|].
  rewrite straddle by assumption.
  apply (copied_store m0 d0 s0 N) with (n := 4%nat); auto; try lia.
  symmetry. eapply memcpy_load; eauto; destruct H as (_ & _ & ->); lia.
Qed.

Definition shift_inv (k : Z) (t : cst * Z) : Prop :=
  let '((m, d, s, n), w) := t in
  F (m, d, s, n) /\ s0 + k <= s /\ w = load 4 m0 (s - k).

Lemma shift_step_inv k t :
  1 <= k <= 3 -> shift_inv k t -> 20 - k <= snd (fst t) ->
  shift_inv k (shift_step k t).
Proof.
  destruct t as [[[[m d] s] n] w]. cbn [fst snd]. intros Hk (H & Hs & Hw) Hn.
  assert (Hload : forall m' d' s' n' a, F (m', d', s', n') -> s0 <= a -> a + 4 <= s0 + N ->
    load 4 m' a = load 4 m0 a).
  { intros m' d' s' n' a [Hn' Hc] Ha Ha'. eapply memcpy_load; eauto. lia. }
  assert (HsN : s = s0 + (N - n)) by (destruct H as [_ (_ & _ & ->)]; lia).
  unfold shift_step.
  rewrite (Hload m d s n (s + (4 - k)) H) by lia.
  rewrite Z.add_0_r.
  pose proof (fwd_shift k m d s n w _ Hk H ltac:(lia) Hs Hw eq_refl) as H1.
  set (m1 := store 4 m d _) in *. clearbody m1. clear H.
  rewrite (Hload _ _ _ _ (s + (4 - k + 4)) H1) by lia.
  epose proof (fwd_shift k m1 (d + 4) (s + 4) (n - 4) (load 4 m0 (s + (4 - k))) 
    (load 4 m0 (s + (4 - k + 4))) Hk H1 ltac:(lia) ltac:(lia) ltac:(f_equal; lia) ltac:(f_equal; lia)) as H2.
  set (m2 := store 4 m1 _ _) in *. clearbody m2. clear H1.
  rewrite (Hload _ _ _ _ (s + (4 - k + 8)) H2) by lia.
  rewrite <- !Z.add_assoc, <- !Z.sub_add_distr in H2.
  epose proof (fwd_shift k m2 (d + 8) (s + 8) (n - 8) (load 4 m0 (s + (4 - k + 4)))
    (load 4 m0 (s + (4 - k + 8))) Hk H2 ltac:(lia) ltac:(lia) ltac:(f_equal; lia) ltac:(f_equal; lia)) as H3.
  set (m3 := store 4 m2 _ _) in *. clearbody m3. clear H2.
  rewrite (Hload _ _ _ _ (s + (4 - k + 12)) H3) by lia.
  rewrite <- !Z.add_assoc, <- !Z.sub_add_distr in H3.
  epose proof (fwd_shift k m3 (d + 12) (s + 12) (n - 12) (load 4 m0 (s + (4 - k + 8)))
    (load 4 m0 (s + (4 - k + 12))) Hk H3 ltac:(lia) ltac:(lia) ltac:(f_equal; lia) ltac:(f_equal; lia)) as H4.
  rewrite <- !Z.add_assoc, <- !Z.sub_add_distr in H4.
  split; [exact H4|]. split; [lia|]. f_equal. lia.
Qed.

Lemma shift_case_ok k m d s n :
  1 <= k <= 3 -> 0 < N -> F (m, d, s, n) -> 32 <= n ->
  let '(m', d', s', n') := shift_case k (m, d, s, n) in F (m', d', s', n') /\ n' < 32.
Proof.
  intros Hk HN0 H Hn. assert (Hs : d0 < s0 \/ s0 + N <= d0) by lia. unfold shift_case.
  destruct (while_rule (fun '((_, _, _, n), _) => 20 - k <=? n) (shift_step k) (shift_inv k)
    (fun '((_, _, _, n), _) => Z.to_nat n) (Z.to_nat n)
    ((copy_bytes (Z.to_nat k) m d s, d + k, s + k, n - k), load 4 m s)) as [H1 Hlt].
  - intros [[[[m1 d1] s1] n1] w1] H1 E. apply Z.leb_le in E. split.
    + apply shift_step_inv; auto.
    + simpl. lia.
  - assert (Hss : s0 <= s) by (destruct H as [? (_ & _ & ->)]; lia).
    pose proof (fwd_bytes m0 d0 s0 N Hs (Z.to_nat k) m d s n H ltac:(lia)) as Hf.
    rewrite Z2Nat.id in Hf by lia. split; [exact Hf|]. split; [lia|].
    replace (s + k - k) with s by lia. destruct H as [Hn' Hc].
    eapply memcpy_load; eauto; destruct Hc as (_ & _ & ->); lia.
  - lia.
  - destruct (while _ _ _ _) as [[[[m1 d1] s1] n1] w1]. destruct H1 as [H1 _].
    split; [exact H1|lia].
Qed.

Lemma memcpy_ok : 0 < N -> meq (fst (memcpy m0 d0 s0 N)) (mcopy m0 d0 s0 N).
Proof.
  intros HN0. assert (Hs : d0 < s0 \/ s0 + N <= d0) by lia. unfold memcpy.
  destruct (while_rule head_cond head_step F
    (fun '(_, _, s, n) => if n =? 0 then O else Z.to_nat ((- s) mod 4)) 3 (m0, d0, s0, N))
    as [H1 _].
  - intros [[[m d] s] n] H E. unfold head_cond in E.
    assert (Hn : 0 < n) by (destruct H; lia).
    split; [now apply fwd_byte|]. cbn [head_step].
    replace (n =? 0) with false by lia. destruct (n - 1 =? 0); zlia.
  - apply fwd_start; lia.
  - destruct (N =? 0); zlia.
  - destruct (while head_cond head_step 3 _) as [[[m d] s] n]. cbn [fst].
    destruct (d mod 4 =? 0) eqn:Ed; [now apply memcpy_aligned_ok|].
    destruct (Z.leb_spec 32 n) as [H32|H32]; [|now apply memcpy_tail_ok].
    assert (Hd : d mod 4 = 1 \/ d mod 4 = 2 \/ d mod 4 = 3) by zlia.
    destruct Hd as [-> | [-> | ->]];
      [pose proof (shift_case_ok 3 m d s n) as Hc | pose proof (shift_case_ok 2 m d s n) as Hc
      | pose proof (shift_case_ok 1 m d s n) as Hc];
      specialize (Hc ltac:(lia) HN0 H1 H32);
      destruct (shift_case _ _) as [[[m' d'] s'] n']; destruct Hc as [Hf Hlt];
      now apply memcpy_tail_ok.
Qed.
End Memcpy.

Lemma memcpy_returns m dest src n : memcpy m dest src n = (fst (memcpy m dest src n), dest).
Proof.
  unfold memcpy. destruct (while _ _ _ _) as [[[? ?] ?] ?].
  destruct (_ =? 0); [reflexivity|]. now destruct (if 32 <=? _ then _ else _) as [[[? ?] ?] ?].
Qed.

(** C7. memcpy copies: on regions that do not overlap, whatever the alignment
    of either pointer and the length, the memory after the call has the source
    bytes at the destination and is unchanged elsewhere, and dest is returned. *)
Theorem memcpy_correct m dest src n :
  wf_mem m -> 0 <= n -> dest + n <= src \/ src + n <= dest ->
  meq (fst (memcpy m dest src n)) (mcopy m dest src n) /\ snd (memcpy m dest src n) = dest.
Proof.
  intros Hm Hn Hd. split.
  - destruct (Z.eq_dec n 0) as [->|].
    + unfold memcpy. cbn [while head_cond]. rewrite andb_false_r.
      destruct (dest mod 4 =? 0); cbn; rewrite mcopy_0 by lia; reflexivity.
    + apply memcpy_ok; auto; lia.
  - now rewrite memcpy_returns.
Qed.

(** An overlap-free instance at odd alignments, long enough for a shifted loop. *)
Lemma memcpy_correct_witness :
  meq (fst (memcpy (fun a => a mod 256) 3 101 40)) (mcopy (fun a => a mod 256) 3 101 40) /\
  fst (memcpy (fun a => a mod 256) 3 101 40) 42 = 140.
Proof.
  assert (H : meq (fst (memcpy (fun a => a mod 256) 3 101 40))
                  (mcopy (fun a => a mod 256) 3 101 40)).
  { apply (memcpy_correct (fun a => a mod 256) 3 101 40); [|lia|lia].
    intros a. apply Z.mod_pos_bound. lia. }
  split; [exact H|]. rewrite (H 42). reflexivity.
Defined.

(** ** memmove *)

Section Move.
Variables (m0 : mem) (d0 s0 N : Z).
Hypothesis Hwf : wf_mem m0.
Hypothesis HN : 0 <= N.

Lemma fwd_bytes_loop_ok t :
  d0 < s0 -> fwd m0 d0 s0 N t -> meq (fwd_bytes_loop t) (mcopy m0 d0 s0 N).
Proof.
  intros Hd H. destruct t as [[[m d] s] n]. unfold fwd_bytes_loop.
  destruct (while_rule (fun '(_, _, _, n) => negb (n =? 0)) fwd_byte_step (fwd m0 d0 s0 N)
    (fun '(_, _, _, n) => Z.to_nat n) (Z.to_nat n) (m, d, s, n)) as [H1 E]; auto.
  - intros [[[m1 d1] s1] n1] H1 E. assert (0 < n1) by (destruct H1; lia).
    split; [apply fwd_byte; auto; lia|simpl; lia].
  - destruct (while _ _ _ _) as [[[m1 d1] s1] n1].
    assert (n1 = 0) as -> by lia. now apply fwd_done in H1.
Qed.

Lemma fwd_words_ok t :
  d0 < s0 -> fwd m0 d0 s0 N t ->
  fwd m0 d0 s0 N
    (while (fun '(_, _, _, n) => WS <=? n) fwd_word_step (Z.to_nat (snd t)) t).
Proof.
  intros Hd H. apply (while_rule (fun '(_, _, _, n) => WS <=? n) fwd_word_step
    (fwd m0 d0 s0 N) (fun '(_, _, _, n) => Z.to_nat n)); auto.
  - intros [[[m1 d1] s1] n1] H1 E. unfold WS in E. split; [|simpl; unfold WS; lia].
    unfold fwd_word_step, WS. eapply fwd_more; eauto; [lia|]. destruct H1.
    apply copied_store with (n := 8%nat) (N := N); auto; lia.
  - now destruct t as [[[? ?] ?] ?].
Qed.

Lemma fwd_align_ok t :
  d0 < s0 -> fwd m0 d0 s0 N t ->
  exists r, loop fwd_align 9 t = Some r /\
  match r with inl t' => fwd m0 d0 s0 N t' | inr m => meq m (mcopy m0 d0 s0 N) end.
Proof.
  intros Hd H. apply (loop_total fwd_align (fwd m0 d0 s0 N) _
    (fun '(_, d, _, _) => Z.to_nat ((- d) mod 8))); auto.
  - intros [[[m d] s] n] H1. unfold fwd_align, WS.
    destruct (Z.eqb_spec (d mod 8) 0); [assumption|].
    destruct (Z.eqb_spec n 0) as [->|]; [now apply fwd_done in H1|].
    split; [|zlia]. apply fwd_byte; auto; destruct H1; lia.
  - destruct t as [[[? ?] ?] ?]. zlia.
Qed.

(** The mirror image: the last bytes first. *)
Definition bwd (t : cst) : Prop :=
  let '(m, d, s, n) := t in
  0 <= n <= N /\ meq m (mcopy m0 (d0 + n) (s0 + n) (N - n)) /\ d = d0 /\ s = s0.

Lemma bwd_more j m n m' :
  s0 < d0 -> bwd (m, d0, s0, n) -> 0 <= j <= n ->
  meq m' (mcopy m (d0 + (n - j)) (s0 + (n - j)) j) -> bwd (m', d0, s0, n - j).
Proof.
  intros Hd (Hn & Hm & _ & _) Hj Hm'. repeat split; try lia.
  rewrite Hm', Hm. intros x. unfold mcopy, within.
  destruct ((d0 + (n - j) <=? x) && (x <? d0 + (n - j) + j)) eqn:E1; breflect.
  - replace ((d0 + (n - j) <=? x) && (x <? d0 + (n - j) + (N - (n - j)))) with true by lia.
    set (y := x - (d0 + (n - j)) + (s0 + (n - j))).
    now replace ((d0 + n <=? y) && (y <? d0 + n + (N - n))) with false by (subst y; lia).
  - destruct ((d0 + n <=? x) && (x <? d0 + n + (N - n))) eqn:E2; breflect.
    + replace ((d0 + (n - j) <=? x) && (x <? d0 + (n - j) + (N - (n - j)))) with true by lia.
      f_equal. lia.
    + now replace ((d0 + (n - j) <=? x) && (x <? d0 + (n - j) + (N - (n - j)))) with false by lia.
Qed.

Lemma bwd_wf t : bwd t -> wf_mem (fst (fst (fst t))).
Proof.
  destruct t as [[[m d] s] n]. intros (_ & Hm & _) x. cbn. rewrite Hm. now apply mcopy_wf.
Qed.

Lemma bwd_done m d s : bwd (m, d, s, 0) -> meq m (mcopy m0 d0 s0 N).
Proof. intros (_ & Hm & _). now rewrite !Z.add_0_r, Z.sub_0_r in Hm. Qed.

Lemma bwd_byte m d s n :
  s0 < d0 -> bwd (m, d, s, n) -> 0 < n ->
  bwd (mset m (d + (n - 1)) (m (s + (n - 1))), d, s, n - 1).
Proof.
  intros Hd H Hn. assert (d = d0 /\ s = s0) as [-> ->] by (destruct H as (_ & _ & ?); auto).
  apply (bwd_more 1 m n); auto; [lia|]. apply mset_mcopy.
Qed.

Lemma bwd_bytes_loop_ok t :
  s0 < d0 -> bwd t -> meq (bwd_bytes_loop t) (mcopy m0 d0 s0 N).
Proof.
  intros Hd H. destruct t as [[[m d] s] n]. unfold bwd_bytes_loop.
  destruct (while_rule (fun '(_, _, _, n) => negb (n =? 0)) bwd_byte_step bwd
    (fun '(_, _, _, n) => Z.to_nat n) (Z.to_nat n) (m, d, s, n)) as [H1 E]; auto.
  - intros [[[m1 d1] s1] n1] H1 E. assert (0 < n1) by (destruct H1; lia).
    split; [now apply bwd_byte|simpl; lia].
  - destruct (while _ _ _ _) as [[[m1 d1] s1] n1].
    assert (n1 = 0) as -> by lia. now apply bwd_done in H1.
Qed.

Lemma bwd_words_ok t :
  s0 < d0 -> bwd t ->
  bwd (while (fun '(_, _, _, n) => WS <=? n) bwd_word_step (Z.to_nat (snd t)) t).
Proof.
  intros Hd H. apply (while_rule (fun '(_, _, _, n) => WS <=? n) bwd_word_step
    bwd (fun '(_, _, _, n) => Z.to_nat n)); auto.
  - intros [[[m1 d1] s1] n1] H1 E. unfold WS in E. split; [|simpl; unfold WS; lia].
    assert (d1 = d0 /\ s1 = s0) as [-> ->] by (destruct H1 as (_ & _ & ?); auto).
    unfold bwd_word_step, WS. apply (bwd_more 8 m1 n1); auto; [lia|].
    apply store_load. exact (bwd_wf _ H1).
  - now destruct t as [[[? ?] ?] ?].
Qed.

Lemma bwd_align_ok t :
  s0 < d0 -> bwd t ->
  exists r, loop bwd_align 9 t = Some r /\
  match r with inl t' => bwd t' | inr m => meq m (mcopy m0 d0 s0 N) end.
Proof.
  intros Hd H. apply (loop_total bwd_align bwd _
    (fun '(_, d, _, n) => Z.to_nat ((d + n) mod 8))); auto.
  - intros [[[m d] s] n] H1. unfold bwd_align, WS.
    destruct (Z.eqb_spec ((d + n) mod 8) 0); [assumption|].
    destruct (Z.eqb_spec n 0) as [->|]; [now apply bwd_done in H1|].
    split; [|zlia]. apply bwd_byte; auto; destruct H1; lia.
  - destruct t as [[[? ?] ?] ?]. zlia.
Qed.
End Move.

(** The test of memmove for regions that do not overlap, in wrap-around
    arithmetic on addresses. *)
Definition in_space (a n : Z) : Prop :=
  0 <= a < 18446744073709551616 /\ a + n <= 18446744073709551616.

Lemma overlap_test src dest n :
  in_space src n -> in_space dest n -> 0 < n < 9223372036854775808 ->
  (u64 (src - dest - n) <=? u64 (-2 * n)) = (dest + n <=? src) || (src + n <=? dest).
Proof.
  unfold in_space, u64. intros Hs Hd Hn.
  replace ((-2 * n) mod 18446744073709551616) with (18446744073709551616 - 2 * n) by zlia.
  destruct (Z.lt_ge_cases (src - dest - n) 0).
  - replace ((src - dest - n) mod 18446744073709551616)
      with (src - dest - n + 18446744073709551616) by zlia. lia.
  - rewrite Z.mod_small by lia. lia.
Qed.

(** C8. memmove moves: for any two regions of the address space, overlapping
    or not and at any alignment, the destination receives the bytes the source
    had before the call, nothing else changes, and dest is returned; the
    alignment loops end within a word. *)
Theorem memmove_correct m dest src n :
  wf_mem m -> 0 <= n < 9223372036854775808 -> in_space src n -> in_space dest n ->
  exists m', memmove m dest src n = Some (m', dest) /\ meq m' (mcopy m dest src n).
Proof.
  intros Hm Hn Hs Hd. unfold memmove.
  destruct (Z.eqb_spec dest src) as [->|Hne].
  { exists m. split; [reflexivity|]. intros x. unfold mcopy.
    destruct (within src n x); [f_equal; lia|reflexivity]. }
  destruct (u64 (src - dest - n) <=? u64 (-2 * n)) eqn:Eo.
  { exists (fst (memcpy m dest src n)).
    destruct (Z.eq_dec n 0) as [->|]; [|rewrite overlap_test in Eo by (assumption || lia)].
    - unfold in_space, u64 in *. zlia.
    - assert (Hdisj : dest + n <= src \/ src + n <= dest) by lia.
      split; [now rewrite memcpy_returns|apply memcpy_ok; auto; lia]. }
  assert (HF : fwd m dest src n (m, dest, src, n)) by (apply fwd_start; lia).
  assert (HB : bwd m dest src n (m, dest, src, n)).
  { repeat split; try lia. now rewrite mcopy_0 by lia. }
  destruct (Z.ltb_spec dest src) as [Hlt|Hge].
  - destruct (src mod WS =? dest mod WS).
    + destruct (fwd_align_ok m dest src n _ Hlt HF) as ([[[[m1 d1] s1] n1]|m1] & -> & Hr);
        eexists; (split; [reflexivity|]).
      * apply fwd_bytes_loop_ok; [assumption|].
        exact (fwd_words_ok m dest src n Hm _ Hlt Hr).
      * exact Hr.
    + eexists. split; [reflexivity|]. now apply fwd_bytes_loop_ok.
  - assert (Hgt : src < dest) by lia. destruct (src mod WS =? dest mod WS).
    + destruct (bwd_align_ok m dest src n _ Hgt HB) as ([[[[m1 d1] s1] n1]|m1] & -> & Hr);
        eexists; (split; [reflexivity|]).
      * apply bwd_bytes_loop_ok; [assumption|].
        exact (bwd_words_ok m dest src n Hm _ Hgt Hr).
      * exact Hr.
    + eexists. split; [reflexivity|]. now apply bwd_bytes_loop_ok.
Qed.

(** An overlapping move, destination above the source, same alignment. *)
Lemma memmove_correct_witness :
  exists m', memmove (fun a => a mod 256) 24 16 20 = Some (m', 24) /\ m' 43 = 35.
Proof.
  destruct (memmove_correct (fun a => a mod 256) 24 16 20) as (m' & E & Hm').
  - intros a. apply Z.mod_pos_bound. lia.
  - lia.
  - unfold in_space. lia.
  - unfold in_space. lia.
  - exists m'. split; [exact E|]. rewrite Hm'. reflexivity.
Defined.

(** ** memset *)

(** [filled m c P m']: [m'] is [m] with [c] at the addresses in [P]. *)
Definition filled (m : mem) (c : Z) (P : Z -> bool) (m' : mem) : Prop :=
  forall x, m' x = if P x then c else m x.

Lemma filled_byte m c P m' a :
  filled m c P m' -> filled m c (fun x => (x =? a) || P x) (mset m' a c).
Proof.
  intros H x. unfold mset. destruct (x =? a); [reflexivity|apply H].
Qed.

Lemma filled_store n m c P m' a v :
  filled m c P m' -> (forall i, 0 <= i < Z.of_nat n -> (v / 256 ^ i) mod 256 = c) ->
  filled m c (fun x => within a (Z.of_nat n) x || P x) (store n m' a v).
Proof.
  intros H Hv x. rewrite store_lookup. destruct (within a (Z.of_nat n) x) eqn:E; cbn [orb].
  - unfold within in E. apply Hv. lia.
  - apply H.
Qed.

Lemma c32_bytes c i : 0 <= i < 4 -> (c32 c / 256 ^ i) mod 256 = u8 c.
Proof.
  intros Hi. unfold c32. change (u32 (-1) / 255) with 16843009.
  pose proof (u8_range c). rewrite u32_small by lia.
  assert (Hc : i = 0 \/ i = 1 \/ i = 2 \/ i = 3) by lia.
  destruct Hc as [-> | [-> | [-> | ->]]];
    [change (256 ^ 0) with 1 | change (256 ^ 1) with 256
    | change (256 ^ 2) with 65536 | change (256 ^ 3) with 16777216]; zlia.
Qed.

Lemma c64_bytes c i : 0 <= i < 8 -> (c64 c / 256 ^ i) mod 256 = u8 c.
Proof.
  intros Hi.
  assert (Hc32 : 0 <= c32 c < 4294967296) by apply u32_range.
  assert (Hv : c64 c = c32 c + 256 ^ 4 * c32 c).
  { unfold c64. rewrite Z.shiftl_mul_pow2, u64_small, Z.lor_comm, lor_add by lia. lia. }
  rewrite Hv. destruct (Z.lt_ge_cases i 4).
  - rewrite <- (c32_bytes c i) by lia.
    replace (256 ^ 4) with (256 ^ i * 256 ^ (4 - i)) by (rewrite <- Z.pow_add_r by lia; f_equal; lia).
    rewrite <- Z.mul_assoc, (Z.mul_comm (256 ^ i)), Z.div_add by lia.
    replace (4 - i) with (Z.succ (3 - i)) by lia. rewrite Z.pow_succ_r by lia.
    rewrite <- Z.mul_assoc, (Z.mul_comm 256), Z.mod_add by lia. reflexivity.
  - rewrite <- (c32_bytes c (i - 4)) by lia.
    replace (256 ^ i) with (256 ^ 4 * 256 ^ (i - 4)) by (rewrite <- Z.pow_add_r by lia; f_equal; lia).
    rewrite <- Z.div_div by lia. rewrite (Z.mul_comm (256 ^ 4)), Z.div_add by lia.
    rewrite (Z.div_small (c32 c)) by lia. reflexivity.
Qed.

Lemma filled_refl m c : filled m c (fun _ => false) m.
Proof. intros x. reflexivity. Qed.

Lemma filled_done m c P m' d n :
  filled m c P m' -> (forall x, P x = within d n x) -> meq m' (mfill m d c n).
Proof. intros H HP x. rewrite H, HP. reflexivity. Qed.

Lemma filled_word m c P m' a :
  filled m (u8 c) P m' -> filled m (u8 c) (fun x => within a 4 x || P x) (store 4 m' a (c32 c)).
Proof. intros H. apply (filled_store 4); [assumption|]. intros. now apply c32_bytes. Qed.

Lemma filled_dword m c P m' a :
  filled m (u8 c) P m' -> filled m (u8 c) (fun x => within a 8 x || P x) (store 8 m' a (c64 c)).
Proof. intros H. apply (filled_store 8); [assumption|]. intros. now apply c64_bytes. Qed.

#[local] Hint Resolve filled_refl filled_byte filled_word filled_dword : leb.

Ltac filled_tac :=
  eapply filled_done;
  [ repeat first [ apply filled_refl | eapply filled_byte | eapply filled_word | eassumption ]
  | let x := fresh "x" in intros x; cbv beta; unfold within; lia ].

Lemma round_down_4 n :
  0 <= n < 18446744073709551616 -> Z.land n (u64 (-4)) = n - n mod 4.
Proof.
  intros Hn. change (u64 (-4)) with (Z.shiftl (Z.ones 62) 2).
  replace (n - n mod 4) with (Z.shiftl (Z.shiftr n 2) 2)
    by (rewrite Z.shiftl_mul_pow2, Z.shiftr_div_pow2 by lia; zlia).
  apply Z.bits_inj'; intros i Hi. rewrite Z.land_spec, !Z.shiftl_spec by lia.
  destruct (Z.lt_ge_cases i 2).
  - now rewrite (Z.testbit_neg_r (Z.ones 62)), (Z.testbit_neg_r (Z.shiftr n 2)), andb_false_r by lia.
  - rewrite Z.shiftr_spec, Z.sub_add by lia.
    destruct (Z.lt_ge_cases i 64).
    + rewrite Z.ones_spec_low by lia. apply andb_true_r.
    + rewrite Z.ones_spec_high, andb_false_r by lia. symmetry.
      rewrite <- (Z.mod_small n (2 ^ 64)) by lia. apply Z.mod_pow2_bits_high. lia.
Qed.

Lemma fill64_loop m c b n0 (P : Z -> bool) m1 s n :
  b = u8 c -> filled m b P m1 -> 0 <= n -> n mod 4 = 0 -> s + n = n0 ->
  (forall x, s <= x < n0 -> n0 - 28 <= x -> P x = true) ->
  exists m2 s2 n2,
    while (fun '(_, _, n) => 32 <=? n) (fill64_step c) (Z.to_nat n) (m1, s, n) = (m2, s2, n2) /\
    filled m b (fun x => within s (n0 - s) x || P x) m2.
Proof.
  intros -> Hf Hn H4 Hn0 HP.
  destruct (while_rule (fun '(_, _, n) => 32 <=? n) (fill64_step c)
    (fun '(m', s', n') => 0 <= n' /\ n' mod 4 = 0 /\ s' + n' = n0 /\ s <= s' /\
       filled m (u8 c) (fun x => within s (s' - s) x || P x) m')
    (fun '(_, _, n) => Z.to_nat n) (Z.to_nat n) (m1, s, n)) as [H E].
  - intros [[m' s'] n'] (Hn' & H4' & Hs' & Hle & Hf') E. split; [|simpl; lia].
    unfold fill64_step. split; [lia|]. split; [zlia|]. split; [lia|]. split; [lia|].
    do 4 eapply filled_dword in Hf'. intros x. rewrite (Hf' x).
    replace (within s (s' + 32 - s) x || P x) with
      (within (s' + 24) 8 x || (within (s' + 16) 8 x || (within (s' + 8) 8 x ||
        (within (s' + 0) 8 x || (within s (s' - s) x || P x))))); [reflexivity|].
    unfold within. destruct (P x); lia.
  - split; [lia|]. split; [assumption|]. split; [lia|]. split; [lia|].
    intros x. rewrite Hf. replace (within s (s - s) x) with false by (unfold within; lia).
    reflexivity.
  - lia.
  - destruct (while _ _ _ _) as [[m2 s2] n2]. exists m2, s2, n2. split; [reflexivity|].
    destruct H as (Hn2 & H42 & Hs2 & Hle & Hf2). intros x. rewrite Hf2.
    replace (within s (n0 - s) x || P x) with (within s (s2 - s) x || P x); [reflexivity|].
    unfold within. destruct (P x) eqn:EP; [lia|].
    specialize (HP x). rewrite EP in HP. zlia.
Qed.

Lemma memset_fills m dest c n :
  0 <= dest -> 0 <= n -> dest + n < 18446744073709551616 ->
  meq (fst (memset m dest c n)) (mfill m dest (u8 c) n) /\ snd (memset m dest c n) = dest.
Proof.
  intros Hd Hn Hsp. unfold memset.
  destruct (Z.eqb_spec n 0) as [->|Hn0]; [split; [cbn [fst]; filled_tac|reflexivity]|].
  destruct (Z.leb_spec n 2); [split; [cbn [fst]; filled_tac|reflexivity]|].
  destruct (Z.leb_spec n 6); [split; [cbn [fst]; filled_tac|reflexivity]|].
  destruct (Z.leb_spec n 8); [split; [cbn [fst]; filled_tac|reflexivity]|].
  set (k := Z.land (u64 (- dest)) 3).
  assert (Hk : 0 <= k <= 3).
  { subst k. rewrite (Z.land_ones _ 2 ltac:(lia)). change (2 ^ 2) with 4. zlia. }
  clearbody k. rewrite round_down_4 by lia.
  set (n1 := n - k - (n - k) mod 4).
  assert (Hn1 : n - k - 3 <= n1 <= n - k /\ n1 mod 4 = 0) by (subst n1; zlia).
  clearbody n1. assert (Hq : exists q, n1 = 4 * q) by (exists (n1 / 4); zlia).
  destruct Hq as [q Hq].
  destruct (Z.leb_spec n1 8).
  { split; [cbn [fst]; filled_tac|reflexivity]. }
  destruct (Z.leb_spec n1 24).
  { split; [cbn [fst]; filled_tac|reflexivity]. }
  set (k2 := 24 + Z.land (dest + k) 4).
  assert (Hk2 : k2 = 24 \/ k2 = 28).
  { subst k2. rewrite (land_bit _ 2) by lia. destruct (Z.testbit _ _); [right|left]; reflexivity. }
  clearbody k2.
  match goal with |- context [while _ _ _ (?mm, _, _)] => set (m1 := mm) end.
  assert (Hf : exists P, filled m (u8 c) P m1 /\
    forall x, P x = within dest (k + 28) x || within (dest + k + n1 - 28) (n - k - n1 + 28) x).
  { eexists. split.
    - subst m1.
      repeat first [ apply filled_refl | eapply filled_byte | eapply filled_word ].
    - intros x. cbv beta. unfold within. lia. }
  destruct Hf as (P & Hf & HP). clearbody m1.
  destruct (fill64_loop m c (u8 c) (dest + k + n1) P m1 (dest + k + k2) (n1 - k2))
    as (m2 & s2 & n2 & -> & Hf2); auto; try lia; try zlia.
  { intros x Hx1 Hx2. rewrite HP. unfold within. lia. }
  split; [|reflexivity]. cbn [fst]. eapply filled_done; [exact Hf2|].
  intros x. cbv beta. rewrite HP. unfold within. lia.
Qed.

(** memset fills: the [n] bytes from dest hold the unsigned char value of
    [c], no other byte changes, and dest is returned, for every length and
    alignment (the overlapping head and tail stores and the word loops leave
    no gap). *)
Theorem memset_correct m dest c n :
  0 <= dest -> 0 <= n -> dest + n < 18446744073709551616 ->
  meq (fst (memset m dest c n)) (mfill m dest (u8 c) n) /\ snd (memset m dest c n) = dest.
Proof. apply memset_fills. Qed.

Lemma memset_correct_witness :
  meq (fst (memset (fun _ => 7) 13 (-1) 100)) (mfill (fun _ => 7) 13 255 100).
Proof. apply (memset_correct (fun _ => 7) 13 (-1) 100); lia. Defined.
