(* ===== verification/Strings.v ===== *)
(** * Strings: searching, comparing and copying strings

    Models the C string functions of src/string on the byte memory of Prelude:
    the word-at-a-time scans with the HASZERO test (strlen, memchr, strchrnul
    and what is built on them), comparison (strcmp, strncmp, memcmp), the
    256-bit byte sets of strspn and strcspn, tokenising (strpbrk, strsep,
    strtok_r), and bounded and unbounded copies (stpcpy, strcpy, strcat,
    stpncpy, strncpy, strlcpy, strlcat, memccpy, strncat).

    A function that runs to a terminator takes [fuel], a bound on the rounds of
    each of its loops; [None] is "not enough".  The theorems give a fuel that is
    enough from the length of the string. *)

From Stdlib Require Import ZArith Lia ZifyBool List Bool Setoid Morphisms.
From S2P Require Import Prelude MemCopy.
Import ListNotations.
Open Scope Z_scope.

(** ** The code *)

Definition ALIGN : Z := 8.
Definition ONES : Z := u64 (-1) / 255.
Definition HIGHS : Z := u64 (ONES * (255 / 2 + 1)).
Definition HASZERO (x : Z) : bool :=
  negb (Z.land (Z.land (u64 (x - ONES)) (u64 (Z.lnot x))) HIGHS =? 0).

Definition word (m : mem) (a : Z) : Z := load 8 m a.

(** The three loops of a scan: to an aligned address (leaving early at a byte
    that stops it), over words, over bytes. *)
Definition scan_head (stop : Z -> bool) (m : mem) (s : Z) : Z + (Z + Z) :=
  if s mod ALIGN =? 0 then inr (inl s)
  else if stop (m s) then inr (inr s)
  else inl (s + 1).

Definition scan_words (wstop : Z -> bool) (m : mem) (s : Z) : Z + Z :=
  if wstop (word m s) then inr s else inl (s + 8).

Definition scan_bytes (stop : Z -> bool) (m : mem) (s : Z) : Z + Z :=
  if stop (m s) then inr s else inl (s + 1).

Definition scan (stop wstop : Z -> bool) (fuel : nat) (m : mem) (s : Z) : option Z :=
  let? r := loop (scan_head stop m) 9 s in
  match r with
  | inr s => Some s
  | inl s => let? s := loop (scan_words wstop m) fuel s in
             loop (scan_bytes stop m) fuel s
  end.

Definition strlen (fuel : nat) (m : mem) (s : Z) : option Z :=
  let? e := scan (fun b => b =? 0) HASZERO fuel m s in Some (e - s).

Definition strchrnul (fuel : nat) (m : mem) (s c : Z) : option Z :=
  let c := u8 c in
  if c =? 0 then let? l := strlen fuel m s in Some (s + l)
  else
    let k := u64 (ONES * c) in
    scan (fun b => (b =? 0) || (b =? c))
         (fun w => HASZERO w || HASZERO (Z.lxor w k)) fuel m s.

(** strchr: NULL is [None] inside. *)
Definition strchr (fuel : nat) (m : mem) (s c : Z) : option (option Z) :=
  let? r := strchrnul fuel m s c in
  Some (if m r =? u8 c then Some r else None).

(** memchr: the pointer and what is left of the length. *)
Definition memchr (m : mem) (src c n : Z) : option Z :=
  let c := u8 c in
  let byte '(s, n) := negb (n =? 0) && negb (m s =? c) in
  let step1 '(s, n) := (s + 1, n - 1) in
  let '(s, n) :=
    while (fun t => negb (Z.land (fst t) 7 =? 0) && byte t) step1 8 (src, n) in
  let '(s, n) :=
    if byte (s, n) then
      let k := u64 (ONES * c) in
      while (fun '(s, n) => (8 <=? n) && negb (HASZERO (Z.lxor (word m s) k)))
            (fun '(s, n) => (s + 8, n - 8)) (Z.to_nat n) (s, n)
    else (s, n) in
  let '(s, n) := while byte step1 (Z.to_nat n) (s, n) in
  if n =? 0 then None else Some s.

Definition strnlen (m : mem) (s n : Z) : Z :=
  match memchr m s 0 n with Some p => p - s | None => n end.

(** memrchr: from the end. *)
Fixpoint memrchr_loop (m : mem) (s c : Z) (n : nat) : option Z :=
  match n with
  | O => None
  | S n => if m (s + Z.of_nat n) =? c then Some (s + Z.of_nat n) else memrchr_loop m s c n
  end.

Definition memrchr (m : mem) (s c n : Z) : option Z := memrchr_loop m s (u8 c) (Z.to_nat n).

Definition strrchr (fuel : nat) (m : mem) (s c : Z) : option (option Z) :=
  let? l := strlen fuel m s in Some (memrchr m s c (l + 1)).

(** Comparison: the difference of the bytes where the loop stops. *)
Definition strcmp (fuel : nat) (m : mem) (l r : Z) : option Z :=
  loop (fun '(l, r) =>
    if (m l =? m r) && negb (m l =? 0) then inl (l + 1, r + 1) else inr (m l - m r))
    fuel (l, r).

Definition strncmp (m : mem) (l r n : Z) : Z :=
  if n =? 0 then 0
  else
    let n := n - 1 in
    let '(l, r, _) :=
      while (fun '(l, r, n) => negb (m l =? 0) && negb (m r =? 0) && negb (n =? 0) && (m l =? m r))
            (fun '(l, r, n) => (l + 1, r + 1, n - 1)) (Z.to_nat n) (l, r, n) in
    m l - m r.

Definition memcmp (m : mem) (l r n : Z) : Z :=
  let '(l, r, n) :=
    while (fun '(l, r, n) => negb (n =? 0) && (m l =? m r))
          (fun '(l, r, n) => (l + 1, r + 1, n - 1)) (Z.to_nat n) (l, r, n) in
  if n =? 0 then 0 else m l - m r.

(** BITOP on size_t byteset[4]. *)
Definition byteset : Type := list Z.
Definition byteset_empty : byteset := [0; 0; 0; 0].
Definition bit_set (a : byteset) (b : Z) : byteset :=
  let i := Z.to_nat (b / 64) in
  firstn i a ++ [Z.lor (nth i a 0) (Z.shiftl 1 (b mod 64))] ++ skipn (S i) a.
Definition bit_test (a : byteset) (b : Z) : bool :=
  negb (Z.land (nth (Z.to_nat (b / 64)) a 0) (Z.shiftl 1 (b mod 64)) =? 0).

(** The loop that enters the bytes of the string [c]. *)
Definition byteset_step (m : mem) (t : Z * byteset) : (Z * byteset) + byteset :=
  let '(c, a) := t in if m c =? 0 then inr a else inl (c + 1, bit_set a (m c)).

Definition byteset_of (fuel : nat) (m : mem) (c : Z) : option byteset :=
  loop (byteset_step m) fuel (c, byteset_empty).

Definition strspn (fuel : nat) (m : mem) (s c : Z) : option Z :=
  if m c =? 0 then Some 0
  else if m (c + 1) =? 0 then
    let? e := loop (scan_bytes (fun b => negb (b =? m c)) m) fuel s in Some (e - s)
  else
    let? a := byteset_of fuel m c in
    let? e := loop (scan_bytes (fun b => (b =? 0) || negb (bit_test a b)) m) fuel s in
    Some (e - s).

Definition strcspn (fuel : nat) (m : mem) (s c : Z) : option Z :=
  if (m c =? 0) || (m (c + 1) =? 0) then
    let? e := strchrnul fuel m s (m c) in Some (e - s)
  else
    let? a := byteset_of fuel m c in
    let? e := loop (scan_bytes (fun b => (b =? 0) || bit_test a b) m) fuel s in
    Some (e - s).

Definition strpbrk (fuel : nat) (m : mem) (s b : Z) : option (option Z) :=
  let? l := strcspn fuel m s b in
  Some (if m (s + l) =? 0 then None else Some (s + l)).

(** strsep: the token, the new value of the caller's pointer, the memory. *)
Definition strsep (fuel : nat) (m : mem) (str : option Z) (sep : Z)
  : option (option Z * option Z * mem) :=
  match str with
  | None => Some (None, None, m)
  | Some s =>
      let? l := strcspn fuel m s sep in
      let e := s + l in
      Some (if m e =? 0 then (Some s, None, m) else (Some s, Some (e + 1), mset m e 0))
  end.

(** strtok_r: the token, the saved pointer, the memory. *)
Definition strtok_r (fuel : nat) (m : mem) (s : option Z) (sep : Z) (p : option Z)
  : option (option Z * option Z * mem) :=
  match (match s with Some _ => s | None => p end) with
  | None => Some (None, p, m)
  | Some s =>
      let? k := strspn fuel m s sep in
      let s := s + k in
      if m s =? 0 then Some (None, None, m)
      else
        let? l := strcspn fuel m s sep in
        let e := s + l in
        Some (if m e =? 0 then (Some s, None, m) else (Some s, Some (e + 1), mset m e 0))
  end.

(** Copies.  The first loops of stpcpy, with the word copy when both pointers
    have the same alignment; [inr] is an early return. *)
Definition stpcpy_head (t : mem * Z * Z) : (mem * Z * Z) + (mem * Z * Z + mem * Z) :=
  let '(m, d, s) := t in
  if s mod ALIGN =? 0 then inr (inl (m, d, s))
  else let m := mset m d (m s) in
       if m d =? 0 then inr (inr (m, d)) else inl (m, d + 1, s + 1).

Definition stpcpy_words (t : mem * Z * Z) : (mem * Z * Z) + (mem * Z * Z) :=
  let '(m, d, s) := t in
  if HASZERO (word m s) then inr (m, d, s)
  else inl (store 8 m d (word m s), d + 8, s + 8).

Definition stpcpy_bytes (t : mem * Z * Z) : (mem * Z * Z) + (mem * Z) :=
  let '(m, d, s) := t in
  let m := mset m d (m s) in
  if m d =? 0 then inr (m, d) else inl (m, d + 1, s + 1).

Definition stpcpy (fuel : nat) (m : mem) (d s : Z) : option (mem * Z) :=
  if s mod ALIGN =? d mod ALIGN then
    let? r := loop stpcpy_head 9 (m, d, s) in
    match r with
    | inr r => Some r
    | inl t => let? t := loop stpcpy_words fuel t in loop stpcpy_bytes fuel t
    end
  else loop stpcpy_bytes fuel (m, d, s).

Definition strcpy (fuel : nat) (m : mem) (dest src : Z) : option (mem * Z) :=
  let? (m, _) := stpcpy fuel m dest src in Some (m, dest).

Definition strcat (fuel : nat) (m : mem) (dest src : Z) : option (mem * Z) :=
  let? l := strlen fuel m dest in
  let? (m, _) := strcpy fuel m (dest + l) src in Some (m, dest).

(** A bounded copy loop: n && (d[0]=s[0]) != c. *)
Definition copy_cond (c : Z) (t : mem * Z * Z * Z) : bool :=
  let '(m, d, s, n) := t in negb (n =? 0) && negb (m s =? c).

(** The state after the loop for (; n && (d[0]=s[0])!=c; n--, s++, d++): when it
    stops at the byte [c] that byte has been stored too. *)
Definition copy_until (c : Z) (aligned : bool) (t : mem * Z * Z * Z) : mem * Z * Z * Z :=
  let '(m, d, s, n) := t in
  let '(m, d, s, n) :=
    while (fun t => (negb aligned || negb (Z.land (snd (fst t)) 7 =? 0)) && copy_cond c t)
          (fun '(m, d, s, n) => (mset m d (m s), d + 1, s + 1, n - 1)) (Z.to_nat n) t in
  if negb (aligned && (Z.land s 7 =? 0)) && negb (n =? 0) then (mset m d (m s), d, s, n)
  else (m, d, s, n).

(** The word loop: while eight bytes are left and HASZERO of the next word,
    xored with [k], says no. *)
Definition copy_words (k : Z) (t : mem * Z * Z * Z) : mem * Z * Z * Z :=
  let '(m, d, s, n) := t in
  while (fun '(m, d, s, n) => (8 <=? n) && negb (HASZERO (Z.lxor (word m s) k)))
        (fun '(m, d, s, n) => (store 8 m d (word m s), d + 8, s + 8, n - 8)) (Z.to_nat n) t.

Definition stpncpy (m : mem) (d s n : Z) : mem * Z :=
  let finish '(m, d, n) := (fst (memset m d 0 n), d) in
  let tail t := let '(m, d, s, n) := copy_until 0 false t in finish (m, d, n) in
  if Z.land s 7 =? Z.land d 7 then
    let '(m, d, s, n) := copy_until 0 true (m, d, s, n) in
    if (n =? 0) || (m s =? 0) then finish (m, d, n)
    else tail (copy_words 0 (m, d, s, n))
  else tail (m, d, s, n).

Definition strncpy (m : mem) (d s n : Z) : mem * Z := (fst (stpncpy m d s n), d).

Definition strlcpy (fuel : nat) (m : mem) (d s n : Z) : option (mem * Z) :=
  let d0 := d in
  let finish '(m, d, s) := let? l := strlen fuel m s in Some (m, d - d0 + l) in
  if n =? 0 then finish (m, d, s)
  else
    let n := n - 1 in
    let t :=
      if Z.land s 7 =? Z.land d 7 then
        let '(m, d, s, n) := copy_until 0 true (m, d, s, n) in
        if negb (n =? 0) && negb (m s =? 0) then copy_words 0 (m, d, s, n)
        else (m, d, s, n)
      else (m, d, s, n) in
    let '(m, d, s, n) := copy_until 0 false t in
    finish (mset m d 0, d, s).

(** strncat: at most [n] bytes, and a NUL. *)
Definition strncat (fuel : nat) (m : mem) (d s n : Z) : option (mem * Z) :=
  let a := d in
  let? l := strlen fuel m d in
  let d := d + l in
  let '(m, d, s, n) :=
    while (copy_cond 0) (fun '(m, d, s, n) => (mset m d (m s), d + 1, s + 1, n - 1))
          (Z.to_nat n) (m, d, s, n) in
  Some (mset m d 0, a).

Definition strlcat (fuel : nat) (m : mem) (d s n : Z) : option (mem * Z) :=
  let l := strnlen m d n in
  if l =? n then let? k := strlen fuel m s in Some (m, l + k)
  else let? (m, r) := strlcpy fuel m (d + l) s (n - l) in Some (m, l + r).

Definition memccpy (m : mem) (dest src c n : Z) : mem * option Z :=
  let c := u8 c in
  let tail '(m, d, n) := (m, if n =? 0 then None else Some (d + 1)) in
  let last t := let '(m, d, s, n) := copy_until c false t in tail (m, d, n) in
  if Z.land src 7 =? Z.land dest 7 then
    let '(m, d, s, n) := copy_until c true (m, dest, src, n) in
    if negb (Z.land s 7 =? 0) then tail (m, d, n)
    else last (copy_words (u64 (ONES * c)) (m, d, s, n))
  else last (m, dest, src, n).

(** ** The HASZERO test *)

Fixpoint rep_byte (n : nat) (c : Z) : Z :=
  match n with O => 0 | S k => c + 256 * rep_byte k c end.

Definition hz (n : nat) (x : Z) : Z :=
  Z.land (Z.land (x - rep_byte n 1) (Z.lnot x)) (rep_byte n 128).

Lemma hz_step n b x :
  0 <= b < 256 ->
  hz (S n) (b + 256 * x) =
  if b =? 0 then 128 + 256 * Z.land (Z.land (x - rep_byte n 1 - 1) (Z.lnot x)) (rep_byte n 128)
  else 256 * hz n x.
Proof.
  intros Hb. unfold hz. cbn [rep_byte].
  replace (Z.lnot (b + 256 * x)) with ((255 - b) + 256 * Z.lnot x)
    by (unfold Z.lnot; lia).
  destruct (Z.eqb_spec b 0) as [->|Hne].
  - replace (0 + 256 * x - (1 + 256 * rep_byte n 1))
      with (255 + 256 * (x - rep_byte n 1 - 1)) by lia.
    rewrite !land_bytes by (try apply land_byte_range; lia). reflexivity.
  - replace (b + 256 * x - (1 + 256 * rep_byte n 1))
      with ((b - 1) + 256 * (x - rep_byte n 1)) by lia.
    rewrite !land_bytes by (try apply land_byte_range; lia).
    replace (Z.land (Z.land (b - 1) (255 - b)) 128) with 0; [lia|].
    assert (H : (Z.land (Z.land (b - 1) (255 - b)) 128 =? 0) = true).
    { assert (Hb' : 1 <= b < 1 + Z.of_nat 255) by lia. clear Hb Hne. revert b Hb'.
      apply zrange_check. vm_compute. reflexivity. }
    lia.
Qed.

Lemma hz_zero n m a :
  wf_mem m -> hz n (load n m a) = 0 <-> (forall i, 0 <= i < Z.of_nat n -> m (a + i) <> 0).
Proof.
  intros Hm. revert a; induction n as [|n IH]; intro a.
  - cbn. split; [lia|reflexivity].
  - cbn [load]. rewrite hz_step by apply Hm. destruct (Z.eqb_spec (m a) 0) as [E|E].
    + split; [lia|]. intros H. exfalso. apply (H 0); [lia|]. now rewrite Z.add_0_r.
    + transitivity (hz n (load n m (a + 1)) = 0); [lia|]. rewrite IH. split; intros H i Hi.
      * destruct (Z.eq_dec i 0) as [->|]; [now rewrite Z.add_0_r|].
        replace (a + i) with (a + 1 + (i - 1)) by lia. apply H. lia.
      * replace (a + 1 + i) with (a + (i + 1)) by lia. apply H. lia.
Qed.

Lemma HASZERO_hz x : HASZERO x = negb (hz 8 x =? 0).
Proof.
  unfold HASZERO, hz. do 2 f_equal. unfold u64. change 18446744073709551616 with (2 ^ 64).
  rewrite <- !(Z.land_ones _ 64) by lia.
  change HIGHS with (rep_byte 8 128). change ONES with (rep_byte 8 1).
  replace (rep_byte 8 128) with (Z.land (Z.ones 64) (rep_byte 8 128)) at 2
    by (vm_compute; reflexivity).
  replace (rep_byte 8 128) with (Z.land (Z.ones 64) (rep_byte 8 128)) at 1
    by (vm_compute; reflexivity).
  apply Z.bits_inj'; intros i Hi. rewrite !Z.land_spec.
  destruct (Z.testbit (Z.ones 64) i); rewrite ?andb_true_r, ?andb_false_r; reflexivity.
Qed.

(** The word test finds a zero byte exactly when there is one. *)
Lemma HASZERO_false m a :
  wf_mem m ->
  HASZERO (word m a) = false <-> (forall i, 0 <= i < 8 -> m (a + i) <> 0).
Proof.
  intros Hm. rewrite HASZERO_hz, negb_false_iff, Z.eqb_eq. apply (hz_zero 8 m a Hm).
Qed.

(** Xor with a repeated byte moves the test to that byte. *)
Lemma load_lxor n m a c :
  wf_mem m -> 0 <= c < 256 ->
  Z.lxor (load n m a) (rep_byte n c) = load n (fun x => Z.lxor (m x) c) a.
Proof.
  intros Hm Hc. revert a; induction n as [|n IH]; intro a; cbn [load rep_byte]; [reflexivity|].
  rewrite lxor_bytes by (apply Hm || lia). now rewrite IH.
Qed.

Lemma ONES_mul c : 0 <= c < 256 -> u64 (ONES * c) = rep_byte 8 c.
Proof.
  intros Hc. change ONES with 72340172838076673. rewrite u64_small by lia.
  cbn [rep_byte]. lia.
Qed.

Lemma HASZERO_xor_false m a c :
  wf_mem m -> 0 <= c < 256 ->
  HASZERO (Z.lxor (word m a) (u64 (ONES * c))) = false <->
  (forall i, 0 <= i < 8 -> m (a + i) <> c).
Proof.
  intros Hm Hc. unfold word. rewrite ONES_mul, load_lxor by assumption.
  assert (Hx : wf_mem (fun x => Z.lxor (m x) c))
    by (intros x; apply lxor_byte_range; [apply Hm|lia]).
  rewrite (HASZERO_false _ a Hx).
  split; intros H i Hi E; apply (H i Hi).
  - rewrite E. apply Z.lxor_nilpotent.
  - now apply Z.lxor_eq in E.
Qed.

(** ** Scanning *)

(** [L] is the distance from [s] to the first byte that satisfies [stop]. *)
Definition first_at (stop : Z -> bool) (m : mem) (s L : Z) : Prop :=
  0 <= L /\ stop (m (s + L)) = true /\ forall i, 0 <= i < L -> stop (m (s + i)) = false.

Section Scan.
Variables (stop wstop : Z -> bool) (m : mem) (s L : Z).
Hypothesis Hfirst : first_at stop m s L.
Hypothesis Hword : forall a, wstop (word m a) = false ->
  forall i, 0 <= i < 8 -> stop (m (a + i)) = false.

Definition before (t : Z) : Prop := s <= t <= s + L.

Lemma before_step t : before t -> stop (m t) = false -> before (t + 1).
Proof.
  destruct Hfirst as (HL & Hs & _). unfold before. intros Ht E.
  destruct (Z.eq_dec t (s + L)) as [->|]; [congruence|lia].
Qed.

Lemma before_stop t : before t -> stop (m t) = true -> t = s + L.
Proof.
  destruct Hfirst as (HL & _ & Hn). unfold before. intros Ht E.
  destruct (Z.eq_dec t (s + L)) as [->|]; [reflexivity|].
  specialize (Hn (t - s) ltac:(lia)). replace (s + (t - s)) with t in Hn by lia. congruence.
Qed.

Lemma scan_bytes_ok fuel t :
  before t -> (Z.to_nat L < fuel)%nat -> loop (scan_bytes stop m) fuel t = Some (s + L).
Proof.
  intros Ht Hf. destruct (loop_total (scan_bytes stop m) before (fun r => r = s + L)
    (fun t => Z.to_nat (s + L - t))) with (fuel := fuel) (s := t) as (r & -> & ->);
    [|assumption|unfold before in Ht; lia|reflexivity].
  intros t' Ht'. unfold scan_bytes. destruct (stop (m t')) eqn:E.
  - now apply before_stop.
  - pose proof (before_step t' Ht' E). split; [assumption|unfold before in *; lia].
Qed.

Lemma scan_words_ok fuel t :
  before t -> (Z.to_nat L < fuel)%nat ->
  exists t', loop (scan_words wstop m) fuel t = Some t' /\ before t'.
Proof.
  intros Ht Hf. destruct (loop_total (scan_words wstop m) before before
    (fun t => Z.to_nat (s + L - t))) with (fuel := fuel) (s := t) as (r & -> & Hr);
    [|assumption|unfold before in Ht; lia|eauto].
  intros t' Ht'. unfold scan_words. destruct (wstop (word m t')) eqn:E; [assumption|].
  assert (Hfar : t' + 8 <= s + L).
  { destruct (Z.le_gt_cases (t' + 8) (s + L)); [assumption|exfalso].
    pose proof (Hword t' E (s + L - t') ltac:(unfold before in Ht'; lia)) as Hf'.
    replace (t' + (s + L - t')) with (s + L) in Hf' by lia.
    destruct Hfirst as (_ & Hs & _). congruence. }
  unfold before in *. lia.
Qed.

Lemma scan_head_ok :
  exists r, loop (scan_head stop m) 9 s = Some r /\
  match r with inr t => t = s + L | inl t => before t end.
Proof.
  apply (loop_total (scan_head stop m) before _ (fun t => Z.to_nat ((- t) mod 8))).
  - intros t Ht. unfold scan_head, ALIGN.
    destruct (Z.eqb_spec (t mod 8) 0); [assumption|].
    destruct (stop (m t)) eqn:E; [now apply before_stop|].
    split; [now apply before_step|zlia].
  - destruct Hfirst. unfold before. lia.
  - zlia.
Qed.

Lemma scan_ok fuel : (Z.to_nat L < fuel)%nat -> scan stop wstop fuel m s = Some (s + L).
Proof.
  intros Hf. unfold scan. destruct scan_head_ok as ([t|t] & -> & Hr); cbn [bind].
  - destruct (scan_words_ok fuel t Hr Hf) as (t' & -> & Ht'). cbn [bind].
    now apply scan_bytes_ok.
  - now rewrite Hr.
Qed.
End Scan.

(** A terminated string has its NUL where it says. *)
Lemma cstr_first m s l :
  cstr m s l -> first_at (fun b => b =? 0) m s (Z.of_nat (length l)).
Proof.
  revert s; induction l as [|b l IH]; intros s H; cbn in H.
  - split; [cbn; lia|]. rewrite Z.add_0_r, H. split; [reflexivity|cbn; lia].
  - destruct H as (Hb & Hr & Ht). destruct (IH _ Ht) as (_ & H1 & H2).
    split; [lia|]. split.
    + now replace (s + Z.of_nat (length (b :: l))) with (s + 1 + Z.of_nat (length l))
        by (cbn [length]; lia).
    + intros i Hi. cbn [length] in Hi. destruct (Z.eq_dec i 0) as [->|].
      * rewrite Z.add_0_r, Hb. lia.
      * replace (s + i) with (s + 1 + (i - 1)) by lia. apply H2. lia.
Qed.

Lemma strlen_cstr m s l fuel :
  wf_mem m -> cstr m s l -> (length l < fuel)%nat ->
  strlen fuel m s = Some (Z.of_nat (length l)).
Proof.
  intros Hm Hs Hf. unfold strlen.
  rewrite (scan_ok (fun b => b =? 0) HASZERO m s (Z.of_nat (length l))); cbn [bind].
  - f_equal. lia.
  - now apply cstr_first.
  - intros a E i Hi. apply Z.eqb_neq. now apply (HASZERO_false m a Hm).
  - lia.
Qed.

(** ** Specifications over lists of bytes *)

Fixpoint span (p : Z -> bool) (l : list Z) : nat :=
  match l with
  | [] => O
  | b :: l => if p b then S (span p l) else O
  end.

Lemma span_le p l : (span p l <= length l)%nat.
Proof. induction l as [|b l IH]; cbn; [lia|]. destruct (p b); lia. Qed.

Lemma span_ext p q l : (forall b, In b l -> p b = q b) -> span p l = span q l.
Proof.
  induction l as [|b l IH]; intros H; cbn; [reflexivity|].
  rewrite (H b) by now left. destruct (q b); [|reflexivity]. f_equal. apply IH.
  intros x Hx. apply H. now right.
Qed.

Lemma cstr_nth m s l i : cstr m s l -> (i <= length l)%nat -> m (s + Z.of_nat i) = nth i l 0.
Proof.
  revert s i; induction l as [|b l IH]; intros s i H Hi; cbn in H, Hi.
  - replace i with O by lia. cbn. now rewrite Z.add_0_r.
  - destruct H as (Hb & _ & Ht). destruct i as [|i]; cbn [nth].
    + now rewrite Z.add_0_r.
    + replace (s + Z.of_nat (S i)) with (s + 1 + Z.of_nat i) by lia. apply IH; [assumption|lia].
Qed.

Lemma cstr_bytes m s l : cstr m s l -> Forall (fun b => 0 < b < 256) l.
Proof.
  revert s; induction l as [|b l IH]; intros s H; constructor; cbn in H; [tauto|].
  destruct H as (_ & _ & H). eauto.
Qed.

Lemma cstr_skip m s l n :
  cstr m s l -> (n <= length l)%nat -> cstr m (s + Z.of_nat n) (skipn n l).
Proof.
  revert s n; induction l as [|b l IH]; intros s [|n] H Hn; cbn [length skipn] in *; try lia.
  - now rewrite Z.add_0_r.
  - now rewrite Z.add_0_r.
  - destruct H as (_ & _ & H). replace (s + Z.of_nat (S n)) with (s + 1 + Z.of_nat n) by lia.
    apply IH; [assumption|lia].
Qed.

Lemma cstr_ext m m' s l :
  (forall x, s <= x <= s + Z.of_nat (length l) -> m' x = m x) -> cstr m s l -> cstr m' s l.
Proof.
  revert s; induction l as [|b l IH]; intros s He H; cbn [cstr length] in *.
  - rewrite He; [assumption|lia].
  - rewrite He by lia. destruct H as (Hb & Hr & H). repeat split; try assumption; try lia.
    apply IH; [|assumption]. intros x Hx. apply He. lia.
Qed.

(** A NUL written into a string ends it there. *)
Lemma cstr_cut m s l j :
  cstr m s l -> (j <= length l)%nat -> cstr (mset m (s + Z.of_nat j) 0) s (firstn j l).
Proof.
  revert s j; induction l as [|b l IH]; intros s j H Hj; cbn [length cstr] in *.
  - replace j with O by lia. cbn. now rewrite Z.add_0_r, mset_eq.
  - destruct j as [|j]; [cbn; now rewrite Z.add_0_r, mset_eq|].
    destruct H as (Hb & Hr & H). cbn [firstn cstr]. rewrite mset_ne by lia.
    repeat split; try assumption; try lia.
    replace (s + Z.of_nat (S j)) with (s + 1 + Z.of_nat j) by lia. apply IH; [assumption|lia].
Qed.

(** A predicate that the NUL satisfies stops where the span of its complement
    ends. *)
Lemma cstr_span m s l stop :
  cstr m s l -> stop 0 = true ->
  first_at stop m s (Z.of_nat (span (fun b => negb (stop b)) l)).
Proof.
  intros H H0. revert s H; induction l as [|b l IH]; intros s H; cbn [cstr span] in *.
  - split; [cbn; lia|]. rewrite Z.add_0_r, H. split; [assumption|cbn; lia].
  - destruct H as (Hb & Hr & Ht). destruct (stop b) eqn:E; cbn [negb].
    + split; [cbn; lia|]. rewrite Z.add_0_r, Hb. split; [assumption|cbn; lia].
    + destruct (IH _ Ht) as (_ & H1 & H2). split; [lia|]. split.
      * now replace (s + Z.of_nat (S (span (fun b => negb (stop b)) l)))
          with (s + 1 + Z.of_nat (span (fun b => negb (stop b)) l)) by lia.
      * intros i Hi. destruct (Z.eq_dec i 0) as [->|].
        -- now rewrite Z.add_0_r, Hb.
        -- replace (s + i) with (s + 1 + (i - 1)) by lia. apply H2. lia.
Qed.

Lemma scan_bytes_span m s l stop fuel :
  cstr m s l -> stop 0 = true -> (length l < fuel)%nat ->
  loop (scan_bytes stop m) fuel s
  = Some (s + Z.of_nat (span (fun b => negb (stop b)) l)).
Proof.
  intros H H0 Hf. pose proof (span_le (fun b => negb (stop b)) l).
  apply (scan_bytes_ok stop m s); [now apply cstr_span | unfold before; lia | lia].
Qed.

Lemma strchrnul_cstr m s l c fuel :
  wf_mem m -> cstr m s l -> (length l < fuel)%nat ->
  strchrnul fuel m s c = Some (s + Z.of_nat (span (fun b => negb (b =? u8 c)) l)).
Proof.
  intros Hm Hs Hf. unfold strchrnul. pose proof (u8_range c) as Hc.
  set (c' := u8 c) in *. clearbody c'. destruct (Z.eqb_spec c' 0) as [->|Hne].
  - rewrite (strlen_cstr m s l) by assumption. cbn [bind]. do 3 f_equal.
    apply cstr_bytes in Hs. clear -Hs. induction Hs; cbn [span length]; [reflexivity|].
    replace (x =? 0) with false by lia. cbn. now f_equal.
  - assert (E : span (fun b => negb (b =? c')) l
             = span (fun b => negb ((b =? 0) || (b =? c'))) l).
    { apply span_ext. apply cstr_bytes in Hs. rewrite Forall_forall in Hs.
      intros b Hb. specialize (Hs b Hb). now replace (b =? 0) with false by lia. }
    rewrite E. pose proof (span_le (fun b => negb ((b =? 0) || (b =? c'))) l).
    apply scan_ok; [now apply cstr_span| |lia].
    intros a Ew i Hi. apply orb_false_iff in Ew as [E1 E2].
    apply orb_false_iff. split; apply Z.eqb_neq.
    + now apply (HASZERO_false m a).
    + now apply (HASZERO_xor_false m a c').
Qed.

(** ** Byte sets *)

Lemma nth_update (a : byteset) i j v :
  (i < length a)%nat ->
  nth j (firstn i a ++ [v] ++ skipn (S i) a) 0 = if (j =? i)%nat then v else nth j a 0.
Proof.
  intros Hi. assert (Hl : length (firstn i a) = i) by (rewrite length_firstn; lia).
  destruct (Nat.eqb_spec j i) as [->|Hne].
  - rewrite app_nth2, Hl, Nat.sub_diag by lia. reflexivity.
  - destruct (Nat.lt_ge_cases j i).
    + rewrite app_nth1 by lia. rewrite <- (firstn_skipn i a) at 2.
      now rewrite app_nth1 by lia.
    + rewrite app_nth2, Hl by lia. replace (j - i)%nat with (S (j - S i)) by lia. cbn [app nth].
      rewrite nth_skipn. f_equal. lia.
Qed.

Lemma land_shiftl_1 x k : 0 <= k -> negb (Z.land x (Z.shiftl 1 k) =? 0) = Z.testbit x k.
Proof.
  intros Hk. rewrite Z.shiftl_1_l, land_bit by lia.
  destruct (Z.testbit x k); [|reflexivity]. cbn. lia.
Qed.

Lemma bit_set_test a x b :
  length a = 4%nat -> 0 <= x < 256 -> 0 <= b < 256 ->
  bit_test (bit_set a x) b = (b =? x) || bit_test a b.
Proof.
  intros Ha Hx Hb. unfold bit_test, bit_set. rewrite nth_update by zlia.
  rewrite !land_shiftl_1 by zlia.
  destruct (Nat.eqb_spec (Z.to_nat (b / 64)) (Z.to_nat (x / 64))) as [E|E].
  - rewrite E, Z.lor_spec, Z.shiftl_1_l, Z.pow2_bits_eqb by zlia.
    replace (x mod 64 =? b mod 64) with (b =? x) by zlia. apply orb_comm.
  - now replace (b =? x) with false by zlia.
Qed.

Lemma bit_set_length a x : length a = 4%nat -> 0 <= x < 256 -> length (bit_set a x) = 4%nat.
Proof.
  intros Ha Hx. unfold bit_set. rewrite !length_app, length_firstn, length_skipn. cbn [length].
  assert (0 <= x / 64 < 4) by zlia. lia.
Qed.

Lemma bit_test_empty b : bit_test byteset_empty b = false.
Proof.
  unfold bit_test, byteset_empty. destruct (Z.to_nat (b / 64)) as [|[|[|[|n]]]]; cbn [nth];
    rewrite ?Z.land_0_l; try reflexivity. destruct n; now rewrite Z.land_0_l.
Qed.

Definition inb (l : list Z) (b : Z) : bool := existsb (Z.eqb b) l.

(** The set the loop builds holds exactly the bytes of the string. *)
Lemma byteset_of_cstr m c l fuel :
  cstr m c l -> (length l < fuel)%nat ->
  exists a, byteset_of fuel m c = Some a /\
  forall b, 0 <= b < 256 -> bit_test a b = inb l b.
Proof.
  intros Hc Hf. unfold byteset_of.
  assert (H : forall l fuel c (acc : byteset), cstr m c l -> (length l < fuel)%nat -> length acc = 4%nat ->
    exists a, loop (byteset_step m) fuel (c, acc) = Some a /\
    forall b, 0 <= b < 256 -> bit_test a b = inb l b || bit_test acc b).
  { clear. induction l as [|x l IH]; intros [|fuel] c acc Hc Hf Ha; cbn [length cstr] in *; try lia.
    - exists acc. rewrite (loop_inr _ _ _ acc) by (cbn; now rewrite Hc). now split.
    - destruct Hc as (Hx & Hr & Ht). rewrite (loop_inl _ _ _ (c + 1, bit_set acc x))
        by (cbn; rewrite Hx; now replace (x =? 0) with false by lia).
      destruct (IH fuel (c + 1) (bit_set acc x) Ht) as (a & -> & Hb);
        [lia|apply bit_set_length; lia|].
      exists a. split; [reflexivity|]. intros b Hb'. rewrite Hb, bit_set_test by lia.
      cbn [inb existsb]. unfold inb. now rewrite orb_assoc, (orb_comm (existsb _ l)). }
  destruct (H l fuel c byteset_empty Hc Hf eq_refl) as (a & -> & Hb).
  exists a. split; [reflexivity|]. intros b Hb'. now rewrite Hb, bit_test_empty, orb_false_r.
Qed.

Lemma cstr_inb m s l b : cstr m s l -> In b l -> 0 < b < 256.
Proof. intros H. apply cstr_bytes in H. rewrite Forall_forall in H. apply H. Qed.

Lemma strspn_cstr m s l c set fuel :
  cstr m s l -> cstr m c set -> (length l < fuel)%nat -> (length set < fuel)%nat ->
  strspn fuel m s c = Some (Z.of_nat (span (inb set) l)).
Proof.
  intros Hs Hc Hl Hset. unfold strspn. destruct set as [|x [|y set]].
  - cbn in Hc. rewrite Hc. cbn. f_equal. destruct l; reflexivity.
  - destruct Hc as (Hx & Hr & Hn). cbn in Hn. rewrite Hx, Hn.
    replace (x =? 0) with false by lia. change (0 =? 0) with true. cbv iota.
    rewrite (scan_bytes_span m s l) by (try assumption; lia). cbn [bind].
    rewrite (span_ext _ (inb [x])); [f_equal; lia|].
    intros b Hb. rewrite negb_involutive. cbn. now rewrite orb_false_r.
  - destruct (byteset_of_cstr m c (x :: y :: set) fuel Hc Hset) as (a & Ea & Ha).
    cbn [cstr] in Hc. destruct Hc as (Hx & Hr & Hy & Hr' & _). rewrite Hx, Hy, Ea.
    replace (x =? 0) with false by lia. replace (y =? 0) with false by lia. cbn [bind].
    rewrite (scan_bytes_span m s l) by (try assumption; reflexivity). cbn [bind].
    rewrite (span_ext _ (inb (x :: y :: set))); [f_equal; lia|].
    intros b Hb. pose proof (cstr_inb _ _ _ b Hs Hb). rewrite Ha by lia.
    replace (b =? 0) with false by lia. apply negb_involutive.
Qed.

Lemma strcspn_cstr m s l c set fuel :
  wf_mem m -> cstr m s l -> cstr m c set -> (length l < fuel)%nat -> (length set < fuel)%nat ->
  strcspn fuel m s c = Some (Z.of_nat (span (fun b => negb (inb set b)) l)).
Proof.
  intros Hm Hs Hc Hl Hset. unfold strcspn.
  destruct set as [|x [|y set]].
  - cbn in Hc. rewrite Hc. change (0 =? 0) with true. cbn [orb]. rewrite (strchrnul_cstr m s l) by assumption.
    cbn [bind]. rewrite (span_ext _ (fun b => negb (inb [] b))); [f_equal; lia|].
    intros b Hb. pose proof (cstr_inb _ _ _ b Hs Hb).
    replace (b =? u8 0) with false by (change (u8 0) with 0; lia). reflexivity.
  - destruct Hc as (Hx & Hr & Hn). cbn in Hn. rewrite Hx, Hn.
    change (0 =? 0) with true. rewrite orb_true_r.
    rewrite (strchrnul_cstr m s l) by assumption. cbn [bind].
    rewrite (span_ext _ (fun b => negb (inb [x] b))); [f_equal; lia|].
    intros b Hb. rewrite u8_small by lia. cbn. now rewrite orb_false_r.
  - destruct (byteset_of_cstr m c (x :: y :: set) fuel Hc Hset) as (a & Ea & Ha).
    cbn [cstr] in Hc. destruct Hc as (Hx & Hr & Hy & Hr' & _). rewrite Hx, Hy, Ea.
    replace (x =? 0) with false by lia. replace (y =? 0) with false by lia. cbn [bind orb].
    rewrite (scan_bytes_span m s l) by (try assumption; reflexivity). cbn [bind].
    rewrite (span_ext _ (fun b => negb (inb (x :: y :: set) b))); [f_equal; lia|].
    intros b Hb. pose proof (cstr_inb _ _ _ b Hs Hb). rewrite Ha by lia.
    now replace (b =? 0) with false by lia.
Qed.

(** ** memchr *)

(** [r] is the first address of [c] in the [n] bytes at [src], if there is one. *)
Definition first_in (m : mem) (src c n : Z) (r : option Z) : Prop :=
  match r with
  | Some p => src <= p < src + n /\ m p = c /\ forall x, src <= x < p -> m x <> c
  | None => forall x, src <= x < src + n -> m x <> c
  end.

Section Memchr.
Variables (m : mem) (src c N : Z).
Hypothesis Hm : wf_mem m.
Hypothesis Hc : 0 <= c < 256.

(** No [c] before [s], [n] bytes left. *)
Definition sought (t : Z * Z) : Prop :=
  let '(s, n) := t in s + n = src + N /\ 0 <= n /\ src <= s /\
  forall x, src <= x < s -> m x <> c.

Lemma sought_more j s n :
  sought (s, n) -> 0 <= j <= n -> (forall i, 0 <= i < j -> m (s + i) <> c) ->
  sought (s + j, n - j).
Proof.
  intros (H1 & H2 & H3 & H4) Hj Hn. repeat split; try lia.
  intros x Hx. destruct (Z.lt_ge_cases x s); [apply H4; lia|].
  replace x with (s + (x - s)) by lia. apply Hn. lia.
Qed.

Lemma sought_byte s n : sought (s, n) -> 0 < n -> m s <> c -> sought (s + 1, n - 1).
Proof.
  intros H Hn Hs. apply sought_more; [assumption|lia|]. intros i Hi.
  now replace (s + i) with s by lia.
Qed.
End Memchr.

Lemma memchr_first m src c n :
  wf_mem m -> 0 <= n -> first_in m src (u8 c) n (memchr m src c n).
Proof.
  intros Hm Hn. unfold memchr. pose proof (u8_range c) as Hc.
  set (c' := u8 c) in *. clearbody c'. cbv zeta.
  set (byte := fun '(s, n) => negb (n =? 0) && negb (m s =? c')).
  assert (Hbyte : forall t, sought m src c' n t -> byte t = true ->
    sought m src c' n (fst t + 1, snd t - 1) /\ (Z.to_nat (snd t - 1) < Z.to_nat (snd t))%nat).
  { intros [s k] H E. unfold byte in E. cbn [fst snd]. pose proof H as (_ & Hk & _).
    split; [apply sought_byte; [assumption|lia..]|lia]. }
  destruct (while_rule (fun t => negb (Z.land (fst t) 7 =? 0) && byte t)
    (fun '(s, n) => (s + 1, n - 1)) (sought m src c' n)
    (fun t => Z.to_nat ((- fst t) mod 8)) 8 (src, n)) as [H1 _].
  { intros [s k] H E. apply andb_true_iff in E as [E1 E2]. cbn [fst] in *.
    split; [now apply (Hbyte (s, k))|].
    rewrite (Z.land_ones _ 3) in E1 by lia. change (2 ^ 3) with 8 in E1. zlia. }
  { repeat split; lia. }
  { cbn [fst]. zlia. }
  destruct (while _ _ 8 _) as [s1 n1].
  match goal with |- context [if ?b then ?x else (s1, n1)] =>
    set (t2 := if b then x else (s1, n1)) end.
  assert (H2 : sought m src c' n t2).
  { subst t2. destruct (_ && _); [|assumption].
    apply (while_rule _ _ (sought m src c' n) (fun t => Z.to_nat (snd t)) _ (s1, n1));
      [|assumption|reflexivity].
    intros [s k] H E. apply andb_true_iff in E as [E1 E2]. cbn [snd].
    split; [|lia]. apply (sought_more m src c' n 8); [assumption|lia|].
    apply HASZERO_xor_false; [assumption..|]. now apply negb_true_iff in E2. }
  clearbody t2. destruct t2 as [s2 n2].
  destruct (while_rule byte (fun '(s, n) => (s + 1, n - 1)) (sought m src c' n)
    (fun t => Z.to_nat (snd t)) (Z.to_nat n2) (s2, n2)) as [H3 E];
    [intros [s k] H E; now apply (Hbyte (s, k)) | assumption | reflexivity |].
  destruct (while _ _ _ _) as [s3 n3]. unfold byte in E. destruct H3 as (H3 & H4 & H5 & H6).
  destruct (Z.eqb_spec n3 0) as [->|Hn3]; cbn [first_in].
  - intros x Hx. apply H6. lia.
  - repeat split; try lia. assumption.
Qed.

Lemma strnlen_min m s l n :
  wf_mem m -> cstr m s l -> 0 <= n -> strnlen m s n = Z.min (Z.of_nat (length l)) n.
Proof.
  intros Hm Hs Hn. unfold strnlen. pose proof (memchr_first m s 0 n Hm Hn) as H.
  change (u8 0) with 0 in H. destruct (cstr_first _ _ _ Hs) as (HL & H0 & Hlt).
  destruct (memchr m s 0 n) as [p|]; cbn in H.
  - destruct H as (H1 & H2 & H3).
    assert (p = s + Z.of_nat (length l)); [|lia].
    destruct (Z.lt_trichotomy p (s + Z.of_nat (length l))) as [H|[H|H]]; [|assumption|].
    + specialize (Hlt (p - s) ltac:(lia)). replace (s + (p - s)) with p in Hlt by lia. lia.
    + exfalso. apply (H3 (s + Z.of_nat (length l))); lia.
  - destruct (Z.le_gt_cases n (Z.of_nat (length l))); [lia|].
    exfalso. apply (H (s + Z.of_nat (length l))); lia.
Qed.

(** [r] is the last address of [c] in the [n] bytes at [src], if there is one. *)
Definition last_in (m : mem) (src c n : Z) (r : option Z) : Prop :=
  match r with
  | Some p => src <= p < src + n /\ m p = c /\ forall x, p < x < src + n -> m x <> c
  | None => forall x, src <= x < src + n -> m x <> c
  end.

Lemma memrchr_last m src c n : 0 <= n -> last_in m src (u8 c) n (memrchr m src c n).
Proof.
  intros Hn. unfold memrchr. rewrite <- (Z2Nat.id n) at 1 by lia. generalize (Z.to_nat n) as k.
  clear n Hn. induction k as [|k IH]; cbn [memrchr_loop]; [cbn; lia|].
  destruct (Z.eqb_spec (m (src + Z.of_nat k)) (u8 c)) as [E|E]; cbn [last_in].
  - repeat split; try lia; assumption.
  - destruct (memrchr_loop _ _ _ _) as [p|]; cbn [last_in] in *.
    + destruct IH as (H1 & H2 & H3). repeat split; try lia.
      intros x Hx. destruct (Z.eq_dec x (src + Z.of_nat k)) as [->|]; [assumption|].
      apply H3. lia.
    + intros x Hx. destruct (Z.eq_dec x (src + Z.of_nat k)) as [->|]; [assumption|].
      apply IH. lia.
Qed.

Lemma nth_span_eq c l :
  0 < c -> (nth (span (fun b => negb (b =? c)) l) l 0 =? c) = inb l c.
Proof.
  intros Hc. induction l as [|b l IH]; cbn [span nth inb existsb]; [lia|].
  destruct (Z.eqb_spec b c) as [->|Hne]; cbn [negb nth].
  - now rewrite Z.eqb_refl.
  - replace (c =? b) with false by lia. exact IH.
Qed.

(** The string searches, on a terminated string [l] at [s] of any
    alignment: strlen is the number of bytes before the NUL; strchrnul points at
    the first byte equal to [c] or else at the NUL; strchr gives that pointer when
    the byte is there (always for the NUL) and NULL otherwise; strrchr the last
    one.  The word-at-a-time loops therefore find exactly what a byte loop finds. *)
Theorem strchr_correct m s l c fuel :
  wf_mem m -> cstr m s l -> (length l < fuel)%nat ->
  let i := span (fun b => negb (b =? u8 c)) l in
  strlen fuel m s = Some (Z.of_nat (length l)) /\
  strchrnul fuel m s c = Some (s + Z.of_nat i) /\
  strchr fuel m s c
    = Some (if inb (l ++ [0]) (u8 c) then Some (s + Z.of_nat i) else None) /\
  exists r, strrchr fuel m s c = Some r /\
            last_in m s (u8 c) (Z.of_nat (length l) + 1) r.
Proof.
  intros Hm Hs Hf i. pose proof (strlen_cstr m s l fuel Hm Hs Hf) as El.
  pose proof (strchrnul_cstr m s l c fuel Hm Hs Hf) as Ec. fold i in Ec.
  split; [assumption|]. split; [assumption|]. split.
  - unfold strchr. rewrite Ec. cbn [bind]. rewrite (cstr_nth m s l) by (assumption || apply span_le).
    pose proof (u8_range c). subst i. set (c' := u8 c) in *. clearbody c'. f_equal.
    unfold inb. rewrite existsb_app. fold (inb l c'). cbn [existsb].
    destruct (Z.eq_dec c' 0) as [->|Hne].
    + rewrite (span_ext _ (fun _ => true)); [|intros b Hb; pose proof (cstr_inb _ _ _ b Hs Hb); lia].
      rewrite nth_overflow; [now rewrite orb_true_r|]. clear. induction l; cbn; lia.
    + rewrite nth_span_eq by lia. replace (c' =? 0) with false by lia. now rewrite !orb_false_r.
  - unfold strrchr. rewrite El. cbn [bind]. eexists. split; [reflexivity|].
    apply memrchr_last. lia.
Qed.

(** The bytes of a literal string in an otherwise zero memory. *)
Definition str_mem (a : Z) (l : list Z) : mem := upd_list (fun _ => 0) a l.

Lemma str_mem_wf a l : Forall (fun b => 0 <= b < 256) l -> wf_mem (str_mem a l).
Proof. intros H. apply upd_list_wf; [|assumption]. intros x. lia. Qed.

Lemma strchr_correct_witness :
  strchr 11 (str_mem 13 [104; 101; 108; 108; 111; 44; 32; 119; 111]) 13 111
  = Some (Some 17).
Proof.
  apply (strchr_correct _ 13 [104; 101; 108; 108; 111; 44; 32; 119; 111] 111 11).
  - apply str_mem_wf. repeat constructor; lia.
  - vm_compute. repeat split; lia.
  - cbn. lia.
Defined.

(** memchr points at the first byte equal to the unsigned char value of [c]
    among the [n] bytes, or is NULL when there is none, at every alignment;
    memrchr points at the last; strnlen of a terminated string is the smaller of the length and the bound. *)
Theorem memchr_correct m src c n :
  wf_mem m -> 0 <= n ->
  first_in m src (u8 c) n (memchr m src c n) /\
  last_in m src (u8 c) n (memrchr m src c n) /\
  forall l, cstr m src l -> strnlen m src n = Z.min (Z.of_nat (length l)) n.
Proof.
  intros Hm Hn. split; [now apply memchr_first|]. split; [now apply memrchr_last|].
  intros l Hl. now apply strnlen_min.
Qed.

Lemma memchr_correct_witness :
  first_in (str_mem 5 [9; 200; 9]) 5 200 3 (memchr (str_mem 5 [9; 200; 9]) 5 (-56) 3).
Proof.
  apply (memchr_correct (str_mem 5 [9; 200; 9]) 5 (-56) 3).
  - apply str_mem_wf. repeat constructor; lia.
  - lia.
Defined.

(** ** Comparison *)

(** The lexicographic order of strings as lists of unsigned bytes. *)
Fixpoint lex (l r : list Z) : comparison :=
  match l, r with
  | [], [] => Eq
  | [], _ :: _ => Lt
  | _ :: _, [] => Gt
  | a :: l, b :: r => match a ?= b with Eq => lex l r | o => o end
  end.

Lemma lex_same a l r : lex (a :: l) (a :: r) = lex l r.
Proof. cbn. now rewrite Z.compare_refl. Qed.

(** The difference of two bytes has the sign of their comparison. *)
Lemma sub_compare a b : (a - b ?= 0) = (a ?= b).
Proof.
  destruct (Z.compare_spec a b), (Z.compare_spec (a - b) 0); reflexivity || lia.
Qed.

Lemma lex_diff a b l r : a <> b -> lex (a :: l) (b :: r) = (a - b ?= 0).
Proof. intros H. cbn. rewrite sub_compare. destruct (Z.compare_spec a b); congruence. Qed.

Lemma strcmp_lex fuel m l r x y :
  cstr m l x -> cstr m r y -> (length x < fuel)%nat ->
  exists v, strcmp fuel m l r = Some v /\ (v ?= 0) = lex x y.
Proof.
  unfold strcmp. revert fuel l r y.
  induction x as [|a x IH]; intros [|fuel] l r y Hx Hy Hf; cbn [length cstr] in *; try lia;
    cbn [loop]; destruct y as [|b y]; cbn [cstr] in Hy.
  - rewrite Hx, Hy. change (0 =? 0) with true. cbn [andb negb]. now exists 0.
  - destruct Hy as (Hb & Hr & Hy). rewrite Hx, Hb. replace (0 =? b) with false by lia.
    cbn [andb]. eexists. split; [reflexivity|]. cbn. apply Z.compare_lt_iff. lia.
  - destruct Hx as (Ha & Hr & Hx). rewrite Ha, Hy. replace (a =? 0) with false by lia.
    cbn [andb]. eexists. split; [reflexivity|]. cbn. apply Z.compare_gt_iff. lia.
  - destruct Hx as (Ha & Hr & Hx), Hy as (Hb & Hr' & Hy). rewrite Ha, Hb.
    replace (a =? 0) with false by lia. destruct (Z.eqb_spec a b) as [<-|Hne]; cbn [andb negb].
    + rewrite lex_same. apply IH; [assumption..|lia].
    + eexists. split; [reflexivity|]. now rewrite lex_diff.
Qed.

Lemma memcmp_lex m l r n :
  0 <= n ->
  (memcmp m l r n ?= 0) = lex (bytes_at m l (Z.to_nat n)) (bytes_at m r (Z.to_nat n)).
Proof.
  intros Hn. unfold memcmp. rewrite <- (Z2Nat.id n) at 2 by lia. generalize (Z.to_nat n) as k.
  clear n Hn. intros k. revert l r. induction k as [|k IH]; intros l r; [reflexivity|].
  cbn [while bytes_at]. replace (Z.of_nat (S k) =? 0) with false by lia. cbn [negb andb].
  destruct (Z.eqb_spec (m l) (m r)) as [E|E].
  - rewrite E, lex_same. replace (Z.of_nat (S k) - 1) with (Z.of_nat k) by lia. apply IH.
  - replace (Z.of_nat (S k) =? 0) with false by lia. now rewrite lex_diff.
Qed.

Lemma strncmp_lex m l r x y n :
  cstr m l x -> cstr m r y -> 0 <= n ->
  (strncmp m l r n ?= 0) = lex (firstn (Z.to_nat n) x) (firstn (Z.to_nat n) y).
Proof.
  intros Hx Hy Hn. unfold strncmp. destruct (Z.eqb_spec n 0) as [->|H0]; [reflexivity|].
  replace (Z.to_nat n) with (S (Z.to_nat (n - 1))) by lia.
  rewrite <- (Z2Nat.id (n - 1)) at 2 by lia. generalize (Z.to_nat (n - 1)) as k.
  clear n Hn H0. intros k. revert l r x y Hx Hy.
  induction k as [|k IH]; intros l r x y Hx Hy; cbn [while];
    destruct x as [|a x], y as [|b y]; cbn [cstr] in Hx, Hy;
    try destruct Hx as (Ha & Hr & Hx); try destruct Hy as (Hb & Hr' & Hy).
  1-4: try rewrite Ha; try rewrite Hb; try rewrite Hx; try rewrite Hy; cbn [firstn].
  - reflexivity.
  - cbn. apply Z.compare_lt_iff. lia.
  - cbn. apply Z.compare_gt_iff. lia.
  - destruct (Z.eq_dec a b) as [<-|Hne]; [|now rewrite lex_diff].
    now rewrite lex_same, Z.sub_diag.
  - rewrite Hx. change (0 =? 0) with true. cbn [negb andb]. now rewrite Hx, Hy.
  - rewrite Hx. change (0 =? 0) with true. cbn [negb andb]. rewrite Hx, Hb.
    cbn. apply Z.compare_lt_iff. lia.
  - rewrite Ha, Hy. replace (0 =? 0) with true by lia. cbn [negb andb].
    rewrite andb_false_r. cbn [andb]. rewrite Ha, Hy. cbn. apply Z.compare_gt_iff. lia.
  - rewrite Ha, Hb. replace (a =? 0) with false by lia. replace (b =? 0) with false by lia.
    replace (Z.of_nat (S k) =? 0) with false by lia. cbn [negb andb].
    rewrite !(firstn_cons (S k)). destruct (Z.eqb_spec a b) as [<-|Hne].
    + rewrite lex_same. replace (Z.of_nat (S k) - 1) with (Z.of_nat k) by lia. now apply IH.
    + rewrite Ha, Hb. now rewrite lex_diff.
Qed.

(** Comparison: strcmp of two terminated strings ends and its sign is their
    lexicographic order as unsigned bytes; strncmp orders their first [n] bytes
    that way, memcmp any two byte ranges of length [n]. *)
Theorem compare_correct fuel m l r x y n :
  cstr m l x -> cstr m r y -> (length x < fuel)%nat -> 0 <= n ->
  (exists v, strcmp fuel m l r = Some v /\ (v ?= 0) = lex x y) /\
  (strncmp m l r n ?= 0) = lex (firstn (Z.to_nat n) x) (firstn (Z.to_nat n) y) /\
  (memcmp m l r n ?= 0) = lex (bytes_at m l (Z.to_nat n)) (bytes_at m r (Z.to_nat n)).
Proof.
  intros Hx Hy Hf Hn. split; [now apply strcmp_lex|].
  split; [now apply strncmp_lex | now apply memcmp_lex].
Qed.

Lemma compare_correct_witness :
  exists v, strcmp 3 (str_mem 5 [97; 98; 0; 97; 200]) 5 8 = Some v /\ (v ?= 0) = Lt.
Proof.
  apply (compare_correct 3 (str_mem 5 [97; 98; 0; 97; 200]) 5 8 [97; 98] [97; 200] 0);
    solve [vm_compute; repeat split; lia | cbn; lia].
Defined.

(** The byte-set scans: strspn is the length of the longest prefix of the
    string made of bytes of the set, strcspn of bytes not in it, and strpbrk
    points at the first byte of the set or is NULL; the special cases for sets
    of at most one byte and the 256-bit set agree. *)
Theorem strspn_correct fuel m s l c set :
  wf_mem m -> cstr m s l -> cstr m c set -> (length l < fuel)%nat -> (length set < fuel)%nat ->
  let i := span (fun b => negb (inb set b)) l in
  strspn fuel m s c = Some (Z.of_nat (span (inb set) l)) /\
  strcspn fuel m s c = Some (Z.of_nat i) /\
  strpbrk fuel m s c
    = Some (if existsb (inb set) l then Some (s + Z.of_nat i) else None).
Proof.
  intros Hm Hs Hc Hl Hset i. split; [now apply strspn_cstr|].
  pose proof (strcspn_cstr m s l c set fuel Hm Hs Hc Hl Hset) as E.
  split; [assumption|]. unfold strpbrk. rewrite E. cbn [bind]. fold i.
  rewrite (cstr_nth m s l) by (assumption || apply span_le). f_equal.
  replace (existsb (inb set) l) with (negb (nth i l 0 =? 0)); [now destruct (_ =? 0)|].
  subst i. apply cstr_bytes in Hs. clear -Hs.
  induction Hs as [|b l Hb Hl IH]; [reflexivity|]. cbn [span existsb].
  destruct (inb set b); cbn [negb nth orb]; [lia|exact IH].
Qed.

Lemma strspn_correct_witness :
  strpbrk 8 (str_mem 3 [104; 101; 108; 108; 111; 0; 111; 108]) 3 9 = Some (Some 5).
Proof.
  apply (strspn_correct 8 (str_mem 3 [104; 101; 108; 108; 111; 0; 111; 108]) 3
           [104; 101; 108; 108; 111] 9 [111; 108]).
  - apply str_mem_wf. repeat constructor; lia.
  - vm_compute. repeat split; lia.
  - vm_compute. repeat split; lia.
  - cbn. lia.
  - cbn. lia.
Defined.

(** ** Tokenising *)

(** The maximal nonempty runs of bytes outside [p], in order. *)
Fixpoint tokens (p : Z -> bool) (l : list Z) : list (list Z) :=
  match l with
  | [] => []
  | b :: l' =>
      if p b then tokens p l'
      else match l' with
           | [] => [[b]]
           | c :: _ =>
               if p c then [b] :: tokens p l'
               else match tokens p l' with
                    | t :: ts => (b :: t) :: ts
                    | [] => [[b]]
                    end
           end
  end.

Lemma tokens_skip p l : tokens p (skipn (span p l) l) = tokens p l.
Proof.
  induction l as [|b l IH]; [reflexivity|]. cbn [span].
  destruct (p b) eqn:E; [|reflexivity]. cbn [skipn]. rewrite IH. cbn [tokens]. now rewrite E.
Qed.

Lemma tokens_cons2 p b c l :
  tokens p (b :: c :: l) =
  if p b then tokens p (c :: l)
  else if p c then [b] :: tokens p (c :: l)
  else match tokens p (c :: l) with t :: ts => (b :: t) :: ts | [] => [[b]] end.
Proof. reflexivity. Qed.

Lemma tokens_run p b l :
  p b = false ->
  let j := span (fun x => negb (p x)) (b :: l) in
  tokens p (b :: l) = firstn j (b :: l) :: tokens p (skipn j (b :: l)).
Proof.
  revert b; induction l as [|c l IH]; intros b Hb.
  - cbn. now rewrite Hb.
  - cbv zeta. rewrite tokens_cons2, Hb. specialize (IH c). cbv zeta in IH.
    cbn [span] in *. rewrite Hb. destruct (p c) eqn:Ec; cbn [negb firstn skipn] in *.
    + reflexivity.
    + now rewrite IH.
Qed.

(** A caller's loop: strtok_r until it returns NULL. *)
Fixpoint strtok_all (rounds fuel : nat) (m : mem) (s : option Z) (sep : Z) (p : option Z)
  : option (list Z * mem) :=
  match rounds with
  | O => None
  | S k =>
      let? r := strtok_r fuel m s sep p in
      let '(tok, p, m) := r in
      match tok with
      | None => Some ([], m)
      | Some t => let? r := strtok_all k fuel m None sep p in Some (t :: fst r, snd r)
      end
  end.

Lemma span_stop p l : (span p l < length l)%nat -> p (nth (span p l) l 0) = false.
Proof.
  induction l as [|b l IH]; cbn [span length nth]; [lia|].
  destruct (p b) eqn:E; [|auto]. intros H. apply IH. lia.
Qed.

(** One call, on the string [l] from the pointer it starts at. *)
Lemma strtok_r_step fuel m s p x l c set :
  wf_mem m -> (match s with Some _ => s | None => p end) = Some x ->
  cstr m x l -> cstr m c set -> (length l < fuel)%nat -> (length set < fuel)%nat ->
  let k := span (inb set) l in
  let l1 := skipn k l in
  let j := span (fun b => negb (inb set b)) l1 in
  strtok_r fuel m s c p = Some (
    if (k =? length l)%nat then (None, None, m)
    else if (j =? length l1)%nat then (Some (x + Z.of_nat k), None, m)
    else (Some (x + Z.of_nat k), Some (x + Z.of_nat (k + j) + 1),
          mset m (x + Z.of_nat (k + j)) 0)).
Proof.
  intros Hm Hx Hl Hc Hf Hf' k l1 j. unfold strtok_r. rewrite Hx.
  pose proof (span_le (inb set) l) as Hk. fold k in Hk.
  assert (H0 : forall i y n, cstr m y n -> (i <= length n)%nat ->
            (m (y + Z.of_nat i) =? 0) = (i =? length n)%nat).
  { clear. intros i y n H Hi. rewrite (cstr_nth _ _ _ _ H Hi).
    destruct (Nat.eqb_spec i (length n)) as [->|Hne]; [now rewrite nth_overflow|].
    apply Z.eqb_neq. pose proof (cstr_inb _ _ _ (nth i n 0) H) as Hn.
    specialize (Hn ltac:(apply nth_In; lia)). lia. }
  rewrite (strspn_cstr m x l c set) by assumption. cbn [bind]. fold k.
  rewrite (H0 k x l) by assumption. destruct (Nat.eqb_spec k (length l)); [reflexivity|].
  assert (Hl1 : cstr m (x + Z.of_nat k) l1) by now apply cstr_skip.
  rewrite (strcspn_cstr m (x + Z.of_nat k) l1 c set); try assumption;
    [|unfold l1; rewrite length_skipn; lia]. cbn [bind]. fold j.
  rewrite (H0 j _ l1) by (assumption || apply span_le).
  replace (x + Z.of_nat (k + j)) with (x + Z.of_nat k + Z.of_nat j) by lia.
  now destruct (j =? length l1)%nat.
Qed.

(** From any pointer into the string the loop yields its tokens, and writes
    only inside the string. *)
Lemma strtok_all_tokens c set : forall n l fuel m s p x,
  (length l < n)%nat -> wf_mem m -> (match s with Some _ => s | None => p end) = Some x ->
  cstr m x l -> cstr m c set -> (length l < fuel)%nat -> (length set < fuel)%nat ->
  c + Z.of_nat (length set) < x \/ x + Z.of_nat (length l) < c ->
  exists ts m', strtok_all (S n) fuel m s c p = Some (ts, m') /\
    Forall2 (cstr m') ts (tokens (inb set) l) /\
    forall y, ~ (x <= y <= x + Z.of_nat (length l)) -> m' y = m y.
Proof.
  induction n as [|n IH]; intros l fuel m s p x Hn Hm Hx Hl Hc Hf Hf' Hd; [lia|].
  set (r := S n). cbn [strtok_all]. rewrite (strtok_r_step fuel m s p x l c set) by assumption.
  set (k := span (inb set) l). set (l1 := skipn k l).
  set (j := span (fun b => negb (inb set b)) l1). cbn [bind].
  pose proof (span_le (inb set) l) as Hk. fold k in Hk.
  pose proof (span_le (fun b => negb (inb set b)) l1) as Hj. fold j in Hj.
  assert (Hlen : length l1 = (length l - k)%nat) by apply length_skipn.
  assert (Hl1 : cstr m (x + Z.of_nat k) l1) by now apply cstr_skip.
  rewrite <- (tokens_skip (inb set) l). fold k l1.
  destruct (Nat.eqb_spec k (length l)) as [E|Hne].
  { exists [], m. split; [reflexivity|]. split; [|auto].
    replace l1 with (@nil Z) by (symmetry; apply length_zero_iff_nil; lia). constructor. }
  assert (Hhd : exists b l2, l1 = b :: l2 /\ inb set b = false).
  { pose proof (span_stop (inb set) l ltac:(fold k; lia)) as Hb. fold k in Hb.
    destruct l1 as [|b l2] eqn:El; [cbn in Hlen; lia|]. exists b, l2. split; [reflexivity|].
    replace b with (nth k l 0); [assumption|].
    pose proof (nth_skipn k l 0 0) as Hs. fold l1 in Hs. rewrite El, Nat.add_0_r in Hs.
    now cbn in Hs. }
  assert (Htok : tokens (inb set) l1 = firstn j l1 :: tokens (inb set) (skipn j l1)).
  { destruct Hhd as (b & l2 & El & Hb). subst j. rewrite El. now apply tokens_run. }
  rewrite Htok. destruct (Nat.eqb_spec j (length l1)) as [E|Hjn].
  { exists [x + Z.of_nat k], m. split; [subst r; destruct n; reflexivity|]. split; [|auto].
    rewrite E, firstn_all, skipn_all. constructor; [assumption|constructor]. }
  set (e := x + Z.of_nat (k + j)). set (m1 := mset m e 0).
  set (l2 := skipn (S j) l1).
  assert (Hm1 : forall y, y <> e -> m1 y = m y) by (intros y Hy; unfold m1; now apply mset_ne).
  assert (Hl2len : length l2 = (length l1 - S j)%nat) by apply length_skipn.
  destruct (IH l2 fuel m1 None (Some (e + 1)) (e + 1)) as (ts & m' & Hr & Hts & Hout);
    try assumption; try reflexivity; try lia.
  - apply mset_wf; [assumption|lia].
  - apply (cstr_ext m); [intros y Hy; apply Hm1; lia|].
    replace (e + 1) with (x + Z.of_nat k + Z.of_nat (S j)) by lia. apply cstr_skip; [assumption|lia].
  - apply (cstr_ext m); [intros y Hy; apply Hm1; lia|assumption].
  - exists (x + Z.of_nat k :: ts), m'. fold r in Hr. cbv beta iota. rewrite Hr.
    split; [reflexivity|]. split.
    + assert (Hsep : tokens (inb set) (skipn j l1) = tokens (inb set) l2).
      { pose proof (span_stop (fun b => negb (inb set b)) l1 ltac:(fold j; lia)) as Hb.
        fold j in Hb. apply negb_false_iff in Hb. subst l2.
        rewrite <- (Nat.add_1_l j), Nat.add_comm, Nat.add_comm, <- skipn_skipn.
        pose proof (nth_skipn j l1 0 0) as Hs. rewrite Nat.add_0_r in Hs. rewrite <- Hs in Hb.
        destruct (skipn j l1) as [|b l3] eqn:El.
        - exfalso. pose proof (length_skipn j l1) as Hsl. rewrite El in Hsl. cbn in Hsl. lia.
        - cbn in Hb. cbn [tokens skipn]. now rewrite Hb. }
      rewrite Hsep. constructor; [|assumption].
      assert (H : cstr m1 (x + Z.of_nat k) (firstn j l1)); [|].
      { subst m1 e. replace (x + Z.of_nat (k + j)) with (x + Z.of_nat k + Z.of_nat j) by lia.
        now apply cstr_cut. }
      apply (cstr_ext m1); [|assumption].
      intros y Hy. apply Hout. rewrite length_firstn in Hy. lia.
    + intros y Hy. rewrite Hout by lia. apply Hm1. lia.
Qed.

(** strtok_r tokenises: called with the string and then with NULL until it
    returns NULL, it ends after at most one call more than the string has bytes,
    and the pointers it returned are, in order, the maximal nonempty runs of
    bytes outside the separator set, each terminated in place; it writes nothing
    outside the string. *)
Theorem strtok_r_tokens m x l c set fuel :
  wf_mem m -> cstr m x l -> cstr m c set -> (length l < fuel)%nat -> (length set < fuel)%nat ->
  c + Z.of_nat (length set) < x \/ x + Z.of_nat (length l) < c ->
  exists ts m', strtok_all (2 + length l) fuel m (Some x) c None = Some (ts, m') /\
    Forall2 (cstr m') ts (tokens (inb set) l) /\
    forall y, ~ (x <= y <= x + Z.of_nat (length l)) -> m' y = m y.
Proof.
  intros Hm Hl Hc Hf Hf' Hd. apply strtok_all_tokens; auto.
Qed.

Lemma strtok_r_tokens_witness :
  exists ts m',
    strtok_all 8 7 (str_mem 3 [44; 97; 98; 44; 44; 99; 0; 44; 59]) (Some 3) 10 None
      = Some (ts, m') /\
    Forall2 (cstr m') ts [[97; 98]; [99]] /\
    forall y, ~ (3 <= y <= 9) -> m' y = str_mem 3 [44; 97; 98; 44; 44; 99; 0; 44; 59] y.
Proof.
  apply (strtok_r_tokens (str_mem 3 [44; 97; 98; 44; 44; 99; 0; 44; 59]) 3
           [44; 97; 98; 44; 44; 99] 10 [44; 59] 7).
  - apply str_mem_wf. repeat constructor; lia.
  - vm_compute. repeat split; lia.
  - vm_compute. repeat split; lia.
  - cbn. lia.
  - cbn. lia.
  - right. cbn. lia.
Defined.

(** ** Bounded copies *)

(** [k] of the at most [N] bytes at [s0] come before the first [c]. *)
Definition copy_len (m0 : mem) (s0 c N k : Z) : Prop :=
  0 <= k <= N /\ (forall i, 0 <= i < k -> m0 (s0 + i) <> c) /\ (k < N -> m0 (s0 + k) = c).

Section BoundedCopy.
Variables (m0 : mem) (d0 s0 c N k : Z).
Hypothesis Hwf : wf_mem m0.
Hypothesis Hc : 0 <= c < 256.
Hypothesis Hk : copy_len m0 s0 c N k.

(** The bytes the loop reads: those before [c], and [c]. *)
Let K := Z.min N (k + 1).
Hypothesis Hdisj : d0 + K <= s0 \/ s0 + K <= d0.

(** [j] bytes copied, none of them [c]. *)
Definition copying (t : mem * Z * Z * Z) : Prop :=
  let '(m, d, s, n) := t in
  exists j, 0 <= j <= k /\ n = N - j /\ d = d0 + j /\ s = s0 + j /\ m =m mcopy m0 d0 s0 j.

(** Where the byte loop stops. *)
Definition stopped (t : mem * Z * Z * Z) : Prop :=
  let '(m, d, s, n) := t in
  n = N - k /\ d = d0 + k /\ s = s0 + k /\ m =m mcopy m0 d0 s0 K.

Lemma copying_start : copying (m0, d0, s0, N).
Proof.
  destruct Hk as (H1 & _). exists 0. rewrite !Z.add_0_r, Z.sub_0_r.
  repeat split; try lia. symmetry. apply mcopy_0. lia.
Qed.

Lemma copying_wf m d s n : copying (m, d, s, n) -> wf_mem m.
Proof. intros (j & _ & _ & _ & _ & Hm) x. rewrite Hm. apply mcopy_wf, Hwf. Qed.

(** The source is as it was. *)
Lemma copied_src j i : 0 <= j <= K -> 0 <= i < K -> mcopy m0 d0 s0 j (s0 + i) = m0 (s0 + i).
Proof.
  intros Hj Hi. unfold mcopy, within.
  now replace ((d0 <=? s0 + i) && (s0 + i <? d0 + j)) with false by lia.
Qed.

(** At most [k] bytes are before [c]: a stretch without [c] stays inside. *)
Lemma copying_more m d s n i m' :
  copying (m, d, s, n) -> 0 <= i <= n -> (forall x, 0 <= x < i -> m (s + x) <> c) ->
  m' =m mcopy m d s i -> copying (m', d + i, s + i, n - i).
Proof.
  destruct Hk as (Hk0 & Hkn & Hks).
  intros (j & Hj & -> & -> & -> & Hm) Hi Hn Hm'.
  assert (Hji : j + i <= k).
  { destruct (Z.le_gt_cases (j + i) k); [assumption|exfalso].
    assert (k < N) by lia. apply (Hn (k - j)); [lia|].
    rewrite Hm. replace (s0 + j + (k - j)) with (s0 + k) by lia.
    rewrite copied_src by lia. auto. }
  exists (j + i). repeat split; try lia. rewrite Hm', Hm. apply mcopy_app; lia.
Qed.

Lemma copying_step m d s n :
  copying (m, d, s, n) -> copy_cond c (m, d, s, n) = true ->
  copying (mset m d (m s), d + 1, s + 1, n - 1).
Proof.
  intros H E. cbn in E. pose proof H as (j & Hj & Hn & _). destruct Hk as (Hk0 & _).
  apply (copying_more m d s n 1); [assumption|lia| |apply mset_mcopy].
  intros x Hx. replace (s + x) with s by lia. lia.
Qed.

Lemma copying_stop m d s n :
  copying (m, d, s, n) -> copy_cond c (m, d, s, n) = false ->
  stopped (if n =? 0 then m else mset m d (m s), d, s, n).
Proof.
  destruct Hk as (Hk0 & Hkn & Hks).
  intros (j & Hj & -> & -> & -> & Hm) E. cbn in E.
  assert (j = k).
  { destruct (Z.eq_dec (N - j) 0); [lia|].
    destruct (Z.eq_dec j k); [assumption|exfalso].
    apply (Hkn j); [lia|]. rewrite <- (copied_src j j) by lia. rewrite <- Hm. lia. }
  subst j. repeat split. destruct (Z.eqb_spec (N - k) 0).
  - now replace K with k by (unfold K; lia).
  - replace K with (k + 1) by (unfold K; lia). rewrite (mset_mcopy m (d0 + k) (s0 + k) : _ =m _), Hm.
    apply mcopy_app; lia.
Qed.

(** The word loop copies whole words without [c]. *)
Lemma copy_words_ok t :
  copying t -> copying (copy_words (u64 (ONES * c)) t).
Proof.
  destruct t as [[[m d] s] n]. intros H. unfold copy_words.
  apply (while_rule _ _ copying (fun '(m, d, s, n) => Z.to_nat n)); [|assumption|reflexivity].
  clear m d s n H. intros [[[m d] s] n] H E. pose proof (copying_wf m d s n H) as Hw.
  apply andb_true_iff in E as [E1 E2]. apply negb_true_iff in E2.
  split; [|lia]. apply (copying_more m d s n 8); [assumption|lia| |].
  - now apply HASZERO_xor_false.
  - now apply (store_load 8).
Qed.

Lemma copy_until_bytes t : copying t -> stopped (copy_until c false t).
Proof.
  destruct t as [[[m d] s] n]. intros H. unfold copy_until. cbn [negb orb andb].
  destruct (while_rule (fun t => copy_cond c t)
    (fun '(m, d, s, n) => (mset m d (m s), d + 1, s + 1, n - 1)) copying
    (fun '(m, d, s, n) => Z.to_nat n) (Z.to_nat n) (m, d, s, n)) as [H1 E];
    [|assumption|reflexivity|].
  - clear m d s n H. intros [[[m d] s] n] H E. split; [now apply copying_step|].
    cbn in E. pose proof H as (j & ? & ? & _). destruct Hk as (? & _). lia.
  - destruct (while _ _ _ _) as [[[m1 d1] s1] n1].
    pose proof (copying_stop _ _ _ _ H1 E) as Hs. now destruct (n1 =? 0).
Qed.

(** To an aligned source address: there, or stopped before it. *)
Lemma copy_until_aligned t :
  copying t ->
  let t' := copy_until c true t in
  if Z.land (snd (fst t')) 7 =? 0 then copying t' else stopped t'.
Proof.
  destruct t as [[[m d] s] n]. intros H. unfold copy_until. cbn [negb orb andb].
  destruct (while_rule (fun t => negb (Z.land (snd (fst t)) 7 =? 0) && copy_cond c t)
    (fun '(m, d, s, n) => (mset m d (m s), d + 1, s + 1, n - 1)) copying
    (fun '(m, d, s, n) => Z.to_nat n) (Z.to_nat n) (m, d, s, n)) as [H1 E];
    [|assumption|reflexivity|].
  - clear m d s n H. intros [[[m d] s] n] H E. apply andb_true_iff in E as [_ E].
    split; [now apply copying_step|].
    cbn in E. pose proof H as (j & ? & ? & _). destruct Hk as (? & _). lia.
  - destruct (while _ _ _ _) as [[[m1 d1] s1] n1]. cbn [fst snd] in *.
    destruct (Z.land s1 7 =? 0) eqn:Ea; cbn [negb andb fst snd] in *; [now rewrite Ea|].
    pose proof (copying_stop _ _ _ _ H1 E) as Hs.
    destruct (n1 =? 0); cbn [negb fst snd]; now rewrite Ea.
Qed.

(** A stopped loop, started again, changes nothing. *)
Lemma copy_until_again t : stopped t -> stopped (copy_until c false t).
Proof.
  destruct t as [[[m d] s] n]. destruct Hk as (Hk0 & Hkn & Hks).
  intros (-> & -> & -> & Hm). unfold copy_until. cbn [negb orb andb].
  destruct (Z.eq_dec (N - k) 0) as [E|E].
  - rewrite E. cbn [Z.to_nat while]. change (0 =? 0) with true. cbn [negb]. now repeat split.
  - assert (Hsc : m (s0 + k) = c)
      by (rewrite Hm, copied_src by (unfold K; lia); apply Hks; lia).
    assert (Hw : forall f, while (fun t => copy_cond c t)
      (fun '(m, d, s, n) => (mset m d (m s), d + 1, s + 1, n - 1)) f (m, d0 + k, s0 + k, N - k)
      = (m, d0 + k, s0 + k, N - k)).
    { intros [|f]; [reflexivity|]. cbn [while copy_cond]. rewrite Hsc, Z.eqb_refl.
      now rewrite andb_false_r. }
    rewrite Hw. replace (N - k =? 0) with false by lia. cbn [negb]. repeat split.
    rewrite <- Hm. intros x. unfold mset. destruct (Z.eqb_spec x (d0 + k)) as [->|]; [|reflexivity].
    rewrite Hsc, Hm. unfold mcopy, within.
    replace ((d0 <=? d0 + k) && (d0 + k <? d0 + K)) with true by (unfold K; lia).
    replace (d0 + k - d0 + s0) with (s0 + k) by lia. symmetry. apply Hks. lia.
Qed.
End BoundedCopy.

(** The string in a memory that holds its bytes and a NUL. *)
Lemma cstr_intro m d l :
  Forall (fun b => 0 < b < 256) l ->
  (forall i, (i < length l)%nat -> m (d + Z.of_nat i) = nth i l 0) ->
  m (d + Z.of_nat (length l)) = 0 -> cstr m d l.
Proof.
  intros Hl. revert d; induction Hl as [|b l Hb Hl IH]; intros d Hi Hn; cbn [cstr length] in *.
  - now rewrite Z.add_0_r in Hn.
  - split; [rewrite <- (Z.add_0_r d); apply (Hi O); lia|]. split; [lia|]. apply IH.
    + intros i Hlt. specialize (Hi (S i) ltac:(lia)). cbn [nth] in Hi. rewrite <- Hi. f_equal. lia.
    + rewrite <- Hn. f_equal. lia.
Qed.

Lemma firstn_bytes n (l : list Z) (P : Z -> Prop) : Forall P l -> Forall P (firstn n l).
Proof.
  intros H. revert n; induction H; intros [|n]; cbn; constructor; auto.
Qed.

(** [k] bytes of a string copied, and a NUL: its prefix of length [k]. *)
Lemma cstr_copied m d s l k m' :
  cstr m s l -> (k <= length l)%nat ->
  m' =m mset (mcopy m d s (Z.of_nat k)) (d + Z.of_nat k) 0 -> cstr m' d (firstn k l).
Proof.
  intros Hs Hk Hm'. assert (Hlen : length (firstn k l) = k) by (rewrite length_firstn; lia).
  apply cstr_intro.
  - apply firstn_bytes. now apply cstr_bytes in Hs.
  - intros i Hi. rewrite Hlen in Hi. rewrite Hm', mset_ne by lia.
    unfold mcopy, within. replace ((d <=? d + Z.of_nat i) && _) with true by lia.
    replace (d + Z.of_nat i - d + s) with (s + Z.of_nat i) by lia.
    rewrite (cstr_nth m s l) by (assumption || lia).
    rewrite <- (firstn_skipn k l) at 1. apply app_nth1. lia.
  - rewrite Hlen, Hm'. apply mset_eq.
Qed.

(** A string in front of a terminated one. *)
Lemma cstr_app m d l1 l2 :
  Forall (fun b => 0 < b < 256) l1 ->
  (forall i, (i < length l1)%nat -> m (d + Z.of_nat i) = nth i l1 0) ->
  cstr m (d + Z.of_nat (length l1)) l2 -> cstr m d (l1 ++ l2).
Proof.
  intros Hl. revert d; induction Hl as [|b l Hb Hl IH]; intros d Hi H2;
    cbn [cstr length app] in *.
  - now rewrite Z.add_0_r in H2.
  - split; [rewrite <- (Z.add_0_r d); apply (Hi O); lia|]. split; [lia|]. apply IH.
    + intros i Hlt. specialize (Hi (S i) ltac:(lia)). cbn [nth] in Hi. rewrite <- Hi. f_equal. lia.
    + now replace (d + 1 + Z.of_nat (length l)) with (d + Z.of_nat (S (length l))) by lia.
Qed.

Lemma copy_len_cstr m s l n :
  cstr m s l -> 0 <= n -> copy_len m s 0 n (Z.min n (Z.of_nat (length l))).
Proof.
  intros Hs Hn. destruct (cstr_first _ _ _ Hs) as (_ & H0 & Hlt). split; [lia|]. split.
  - intros i Hi. specialize (Hlt i). lia.
  - intros H. replace (Z.min n (Z.of_nat (length l))) with (Z.of_nat (length l)) by lia. lia.
Qed.

(** stpncpy: the bytes before the NUL, then NULs up to [n]. *)
Lemma stpncpy_pads m d s n k :
  wf_mem m -> copy_len m s 0 n k -> 0 <= d -> d + n < 18446744073709551616 ->
  d + Z.min n (k + 1) <= s \/ s + Z.min n (k + 1) <= d ->
  fst (stpncpy m d s n) =m mfill (mcopy m d s k) (d + k) 0 (n - k) /\
  snd (stpncpy m d s n) = d + k.
Proof.
  intros Hm Hk Hd Hn Hdisj. pose proof Hk as (Hk0 & Hk1 & Hk2).
  assert (Hfin : forall m' d' n', n' = n - k -> d' = d + k ->
    (m' =m mcopy m d s k \/ m' =m mcopy m d s (Z.min n (k + 1))) ->
    fst (fst (memset m' d' 0 n'), d') =m mfill (mcopy m d s k) (d + k) 0 (n - k) /\
    snd (fst (memset m' d' 0 n'), d') = d + k).
  { intros m' d' n' -> -> Hm'. split; [|reflexivity]. cbn [fst].
    destruct (memset_fills m' (d + k) 0 (n - k)) as [-> _]; [lia..|].
    intros x. unfold mfill, mcopy, within, meq in *.
    destruct ((d + k <=? x) && (x <? d + k + (n - k))) eqn:E; [reflexivity|].
    destruct Hm' as [Hm'|Hm']; rewrite Hm'; [reflexivity|].
    replace ((d <=? x) && (x <? d + Z.min n (k + 1))) with ((d <=? x) && (x <? d + k)) by lia.
    reflexivity. }
  assert (Htail : forall t, copying m d s n k t ->
    let '(m', d', s', n') := copy_until 0 false t in
    fst (fst (memset m' d' 0 n'), d') =m mfill (mcopy m d s k) (d + k) 0 (n - k) /\
    snd (fst (memset m' d' 0 n'), d') = d + k).
  { intros t Ht. apply (copy_until_bytes m d s 0 n k Hk Hdisj) in Ht.
    destruct (copy_until 0 false t) as [[[m' d'] s'] n']. destruct Ht as (? & ? & _ & ?). auto. }
  pose proof (copying_start m d s 0 n k Hk) as H0.
  unfold stpncpy. cbv zeta. destruct (Z.land s 7 =? Z.land d 7).
  2:{ specialize (Htail _ H0). now destruct (copy_until 0 false _) as [[[m' d'] s'] n']. }
  pose proof (copy_until_aligned m d s 0 n k Hk Hdisj _ H0) as Ha. cbv zeta in Ha.
  destruct (copy_until 0 true _) as [[[m1 d1] s1] n1]. cbn [fst snd] in Ha.
  destruct (Z.land s1 7 =? 0).
  - destruct ((n1 =? 0) || (m1 s1 =? 0)) eqn:E.
    + destruct Ha as (j & Hj & En & Ed & Es & Em). assert (j = k).
      { destruct (Z.eq_dec j k) as [|Hne]; [assumption|exfalso]. apply orb_true_iff in E as [E|E]; [lia|].
        apply (Hk1 j ltac:(lia)). apply Z.eqb_eq in E. rewrite Es, Em in E.
        rewrite <- E. symmetry. apply (copied_src m d s n k Hdisj); lia. }
      subst j. apply Hfin; [lia..|]. now left.
    + specialize (Htail (copy_words 0 (m1, d1, s1, n1))).
      destruct (copy_until 0 false _) as [[[m' d'] s'] n']. apply Htail.
      change (copy_words 0) with (copy_words (u64 (ONES * 0))).
      now apply (copy_words_ok m d s 0 n k Hm ltac:(lia) Hk).
  - destruct Ha as (En & Ed & Es & Em).
    assert (Hs : (n1 =? 0) || (m1 s1 =? 0) = true).
    { destruct (Z.eqb_spec n1 0); [reflexivity|]. cbn [orb]. apply Z.eqb_eq.
      rewrite Es, Em, (copied_src m d s n k Hdisj) by lia. apply Hk2. lia. }
    rewrite Hs. apply Hfin; auto.
Qed.

(** memccpy: the bytes up to and including [c]. *)
Lemma memccpy_copies m d s c n k :
  wf_mem m -> copy_len m s (u8 c) n k ->
  d + Z.min n (k + 1) <= s \/ s + Z.min n (k + 1) <= d ->
  fst (memccpy m d s c n) =m mcopy m d s (Z.min n (k + 1)) /\
  snd (memccpy m d s c n) = if k <? n then Some (d + k + 1) else None.
Proof.
  intros Hm Hk Hdisj. unfold memccpy. cbv zeta. pose proof (u8_range c) as Hc.
  set (c' := u8 c) in *. clearbody c'. pose proof Hk as (Hk0 & Hk1 & Hk2).
  pose proof (copying_start m d s c' n k Hk) as H0.
  assert (Hfin : forall t, stopped m d s n k t ->
    let '(m', d', s', n') := t in
    fst (m', if n' =? 0 then None else Some (d' + 1)) =m mcopy m d s (Z.min n (k + 1)) /\
    snd (m', if n' =? 0 then None else Some (d' + 1))
      = if k <? n then Some (d + k + 1) else None).
  { intros [[[m' d'] s'] n'] (-> & -> & -> & Em). cbn [fst snd]. split; [assumption|].
    replace (n - k =? 0) with (negb (k <? n)) by lia. now destruct (k <? n). }
  destruct (Z.land s 7 =? Z.land d 7).
  2:{ apply (copy_until_bytes m d s c' n k Hk Hdisj), Hfin in H0.
      now destruct (copy_until c' false _) as [[[m' d'] s'] n']. }
  pose proof (copy_until_aligned m d s c' n k Hk Hdisj _ H0) as Ha. cbv zeta in Ha.
  destruct (copy_until c' true _) as [[[m1 d1] s1] n1]. cbn [fst snd] in Ha.
  destruct (Z.land s1 7 =? 0); cbn [negb].
  - apply (copy_words_ok m d s c' n k Hm Hc Hk Hdisj) in Ha.
    apply (copy_until_bytes m d s c' n k Hk Hdisj), Hfin in Ha.
    now destruct (copy_until c' false _) as [[[m' d'] s'] n'].
  - now apply Hfin in Ha.
Qed.

(** strlcpy: at most [n - 1] bytes and a NUL; the length of the source. *)
Lemma strlcpy_copies fuel m d s n l :
  wf_mem m -> cstr m s l -> 0 <= n -> (length l < fuel)%nat ->
  d + n <= s \/ s + Z.of_nat (length l) + 1 <= d ->
  let k := Z.min (n - 1) (Z.of_nat (length l)) in
  exists m', strlcpy fuel m d s n = Some (m', Z.of_nat (length l)) /\
    m' =m (if n =? 0 then m else mset (mcopy m d s k) (d + k) 0).
Proof.
  intros Hm Hs Hn Hf Hdisj k. unfold strlcpy. cbv zeta.
  destruct (Z.eqb_spec n 0) as [->|Hn0].
  { rewrite (strlen_cstr m s l) by assumption. cbn [bind]. rewrite Z.sub_diag.
    exists m. split; [reflexivity|]. intros x. reflexivity. }
  pose proof (copy_len_cstr m s l (n - 1) Hs ltac:(lia)) as Hk. fold k in Hk.
  assert (HK : Z.min (n - 1) (k + 1) <= Z.of_nat (length l) + 1 /\ Z.min (n - 1) (k + 1) <= n - 1) by lia.
  assert (Hdisj' : d + Z.min (n - 1) (k + 1) <= s \/ s + Z.min (n - 1) (k + 1) <= d) by lia.
  pose proof (copying_start m d s 0 (n - 1) k Hk) as H0.
  assert (Hfin : forall t, stopped m d s (n - 1) k t ->
    exists m', (let '(m, d1, s, n) := t in
      let? l := strlen fuel (mset m d1 0) s in Some (mset m d1 0, d1 - d + l))
      = Some (m', Z.of_nat (length l)) /\ m' =m mset (mcopy m d s k) (d + k) 0).
  { intros [[[m1 d1] s1] n1] (-> & -> & -> & Em). set (m' := mset m1 (d + k) 0).
    assert (Em' : m' =m mset (mcopy m d s k) (d + k) 0).
    { intros x. unfold m'. unfold mset. destruct (Z.eqb_spec x (d + k)); [reflexivity|].
      rewrite Em. unfold mcopy, within.
      now replace ((d <=? x) && (x <? d + Z.min (n - 1) (k + 1)))
        with ((d <=? x) && (x <? d + k)) by lia. }
    assert (Hl : cstr m' (s + k) (skipn (Z.to_nat k) l)).
    { apply (cstr_ext m).
      - intros x Hx. rewrite length_skipn in Hx. rewrite Em', mset_ne by lia.
        unfold mcopy, within. now replace ((d <=? x) && (x <? d + k)) with false by lia.
      - replace k with (Z.of_nat (Z.to_nat k)) at 1 by lia. apply cstr_skip; [assumption|lia]. }
    assert (Hw : wf_mem m').
    { intros x. rewrite Em'. apply mset_wf; [now apply mcopy_wf|lia]. }
    exists m'. rewrite (strlen_cstr m' _ _ fuel Hw Hl) by (rewrite length_skipn; lia).
    cbn [bind]. rewrite length_skipn. split; [|assumption]. do 2 f_equal. lia. }
  set (t1 := if Z.land s 7 =? Z.land d 7 then _ else _).
  assert (Ht1 : copying m d s (n - 1) k t1 \/ stopped m d s (n - 1) k t1).
  { subst t1. destruct (Z.land s 7 =? Z.land d 7); [|now left].
    pose proof (copy_until_aligned m d s 0 (n - 1) k Hk Hdisj' _ H0) as Ha. cbv zeta in Ha.
    destruct (copy_until 0 true _) as [[[m1 d1] s1] n1]. cbn [fst snd] in Ha.
    destruct (Z.land s1 7 =? 0).
    - left. destruct (negb _ && negb _); [|assumption].
      change (copy_words 0) with (copy_words (u64 (ONES * 0))).
      now apply (copy_words_ok m d s 0 (n - 1) k Hm ltac:(lia) Hk).
    - right. pose proof Ha as (-> & -> & -> & Em).
      destruct (negb (n - 1 - k =? 0) && negb (m1 (s + k) =? 0)) eqn:E; [exfalso|assumption].
      destruct Hk as (Hk0 & Hk1 & Hk2).
      rewrite Em, (copied_src m d s (n - 1) k Hdisj'), Hk2 in E by lia. lia. }
  clearbody t1.
  assert (Ht2 : stopped m d s (n - 1) k (copy_until 0 false t1)).
  { destruct Ht1 as [H|H]; [now apply (copy_until_bytes m d s 0 (n - 1) k Hk Hdisj')|].
    now apply (copy_until_again m d s 0 (n - 1) k Hk Hdisj'). }
  apply Hfin in Ht2. now destruct (copy_until 0 false t1) as [[[m2 d2] s2] n2].
Qed.

(** ** Unbounded copies *)

Section Stpcpy.
Variables (m0 : mem) (d0 s0 k : Z).
Hypothesis Hwf : wf_mem m0.
Hypothesis Hk : copy_len m0 s0 0 (k + 1) k.
Hypothesis Hdisj : d0 + (k + 1) <= s0 \/ s0 + (k + 1) <= d0.

Definition at_string (t : mem * Z * Z) : Prop :=
  let '(m, d, s) := t in copying m0 d0 s0 (k + 1) k (m, d, s, k + 1 - (s - s0)).

Definition copied_string (r : mem * Z) : Prop :=
  let '(m, d) := r in d = d0 + k /\ m =m mcopy m0 d0 s0 (k + 1).

Let left_of (t : mem * Z * Z) : nat := Z.to_nat (s0 + k - snd t).

Lemma min_k : Z.min (k + 1) (k + 1) = k + 1.
Proof. lia. Qed.

(** One byte: the loop stops at the NUL, with the NUL stored. *)
Lemma stpcpy_byte m d s :
  at_string (m, d, s) ->
  if (mset m d (m s)) d =? 0 then copied_string (mset m d (m s), d)
  else at_string (mset m d (m s), d + 1, s + 1) /\ s + 1 <= s0 + k.
Proof.
  intros H. unfold at_string in H. rewrite mset_eq. cbn [copied_string].
  destruct (copy_cond 0 (m, d, s, k + 1 - (s - s0))) eqn:E.
  - apply (copying_step m0 d0 s0 0 (k + 1) k Hk) in H; [|rewrite min_k; assumption|assumption].
    cbn in E. replace (m s =? 0) with false by lia.
    replace (k + 1 - (s - s0) - 1) with (k + 1 - (s + 1 - s0)) in H by lia.
    split; [exact H|]. destruct H as (j & Hj & _ & _ & Hs & _). lia.
  - pose proof H as (j & Hj & _ & _ & Hs & _).
    apply (copying_stop m0 d0 s0 0 (k + 1) k Hk) in H; [|rewrite min_k; assumption|assumption].
    cbn in E. replace (k + 1 - (s - s0) =? 0) with false in * by lia.
    destruct H as (_ & Hd & Hs' & Hm). cbn [negb andb] in E. replace (m s =? 0) with true by lia.
    rewrite min_k in Hm. now split.
Qed.

Lemma stpcpy_start : at_string (m0, d0, s0).
Proof.
  unfold at_string. rewrite Z.sub_diag, Z.sub_0_r. now apply (copying_start m0 d0 s0 0).
Qed.

Lemma stpcpy_bytes_ok fuel t :
  at_string t -> (Z.to_nat k < fuel)%nat ->
  exists r, loop stpcpy_bytes fuel t = Some r /\ copied_string r.
Proof.
  intros Ht Hf. apply (loop_total stpcpy_bytes at_string copied_string left_of); [|assumption|].
  - intros [[m d] s] H. unfold stpcpy_bytes. pose proof (stpcpy_byte m d s H) as Hb.
    destruct (_ =? 0); [assumption|]. destruct Hb as [Hb Hs]. split; [assumption|].
    unfold left_of. cbn [snd]. destruct H as (j & Hj & _ & _ & -> & _). lia.
  - destruct t as [[m d] s]. destruct Ht as (j & Hj & _ & _ & -> & _). unfold left_of. cbn [snd]. lia.
Qed.

Lemma stpcpy_words_ok fuel t :
  at_string t -> (Z.to_nat k < fuel)%nat ->
  exists t', loop stpcpy_words fuel t = Some t' /\ at_string t'.
Proof.
  intros Ht Hf. apply (loop_total stpcpy_words at_string at_string left_of); [|assumption|].
  - intros [[m d] s] H. unfold stpcpy_words.
    destruct (HASZERO (word m s)) eqn:E; [assumption|].
    assert (Hw : wf_mem m) by now apply (copying_wf m0 d0 s0 (k + 1) k Hwf m d s (k + 1 - (s - s0))).
    rewrite HASZERO_false in E by assumption.
    pose proof H as (j & Hj & _ & Hd & Hs & Hm). cbn in Hm.
    assert (Hj8 : j + 8 <= k).
    { destruct (Z.le_gt_cases (j + 8) k); [assumption|exfalso]. apply (E (k - j)); [lia|].
      rewrite Hm, Hs. replace (s0 + j + (k - j)) with (s0 + k) by lia.
      rewrite (copied_src m0 d0 s0 (k + 1) k) by (rewrite ?min_k; assumption || lia).
      apply Hk. lia. }
    split.
    + unfold at_string in *. apply (copying_more m0 d0 s0 0 (k + 1) k Hk) with (i := 8)
        (m' := store 8 m d (word m s)) in H; [|rewrite min_k; assumption|lia|assumption|
        now apply (store_load 8)].
      now replace (k + 1 - (s - s0) - 8) with (k + 1 - (s + 8 - s0)) in H by lia.
    + unfold left_of. cbn [snd]. lia.
  - destruct t as [[m d] s]. destruct Ht as (j & Hj & _ & _ & -> & _). unfold left_of. cbn [snd]. lia.
Qed.

Lemma stpcpy_head_ok :
  exists r, loop stpcpy_head 9 (m0, d0, s0) = Some r /\
  match r with inl t => at_string t | inr r => copied_string r end.
Proof.
  apply (loop_total stpcpy_head at_string _ (fun t => Z.to_nat ((- snd t) mod 8)));
    [|apply stpcpy_start|cbn [snd]; zlia].
  intros [[m d] s] H. unfold stpcpy_head, ALIGN.
  destruct (Z.eqb_spec (s mod 8) 0); [assumption|].
  pose proof (stpcpy_byte m d s H) as Hb. destruct (_ =? 0); [assumption|].
  destruct Hb as [Hb _]. split; [assumption|]. cbn [snd]. zlia.
Qed.

Lemma stpcpy_ok fuel :
  (Z.to_nat k < fuel)%nat ->
  exists m', stpcpy fuel m0 d0 s0 = Some (m', d0 + k) /\ m' =m mcopy m0 d0 s0 (k + 1).
Proof.
  intros Hf.
  assert (H : exists r, stpcpy fuel m0 d0 s0 = Some r /\ copied_string r).
  { unfold stpcpy. destruct (_ =? _).
    - destruct stpcpy_head_ok as ([t|r] & -> & Hr); cbn [bind]; [|eauto].
      destruct (stpcpy_words_ok fuel t Hr Hf) as (t' & -> & Ht'). cbn [bind].
      now apply stpcpy_bytes_ok.
    - apply stpcpy_bytes_ok; [apply stpcpy_start|assumption]. }
  destruct H as ([m' d'] & -> & -> & Hm'). eauto.
Qed.
End Stpcpy.

(** The copy of a terminated string. *)
Lemma stpcpy_cstr fuel m d s l :
  wf_mem m -> cstr m s l -> (length l < fuel)%nat ->
  d + Z.of_nat (length l) + 1 <= s \/ s + Z.of_nat (length l) + 1 <= d ->
  exists m', stpcpy fuel m d s = Some (m', d + Z.of_nat (length l)) /\
    m' =m mcopy m d s (Z.of_nat (length l) + 1) /\ cstr m' d l.
Proof.
  intros Hm Hs Hf Hdisj. set (k := Z.of_nat (length l)) in *.
  pose proof (copy_len_cstr m s l (k + 1) Hs ltac:(lia)) as Hk.
  replace (Z.min (k + 1) (Z.of_nat (length l))) with k in Hk by lia.
  destruct (stpcpy_ok m d s k Hm Hk) with (fuel := fuel) as (m' & -> & Hm'); [lia..|].
  exists m'. split; [reflexivity|]. split; [assumption|].
  rewrite <- (firstn_all l). apply (cstr_copied m d s l); [assumption|lia|]. fold k.
  rewrite Hm'. intros x. unfold mset, mcopy, within.
  destruct (Z.eqb_spec x (d + k)) as [->|Hne].
  - replace ((d <=? d + k) && (d + k <? d + (k + 1))) with true by lia.
    replace (d + k - d + s) with (s + k) by lia. apply Hk. lia.
  - now replace ((d <=? x) && (x <? d + (k + 1))) with ((d <=? x) && (x <? d + k)) by lia.
Qed.

(** The two strings a concatenation joins, in a memory that differs from [m]
    only from the end of the first on. *)
Lemma cstr_join m m' d ld l :
  cstr m d ld -> (forall x, d <= x < d + Z.of_nat (length ld) -> m' x = m x) ->
  cstr m' (d + Z.of_nat (length ld)) l -> cstr m' d (ld ++ l).
Proof.
  intros Hd He Hl. apply cstr_app; [now apply cstr_bytes in Hd| |assumption].
  intros i Hi. rewrite He by lia. apply cstr_nth; [assumption|lia].
Qed.

Lemma strcat_cstr fuel m d s ld l :
  wf_mem m -> cstr m d ld -> cstr m s l ->
  (length ld < fuel)%nat -> (length l < fuel)%nat ->
  let e := d + Z.of_nat (length ld) in
  e + Z.of_nat (length l) + 1 <= s \/ s + Z.of_nat (length l) + 1 <= e ->
  exists m', strcat fuel m d s = Some (m', d) /\ cstr m' d (ld ++ l) /\
    forall x, within e (Z.of_nat (length l) + 1) x = false -> m' x = m x.
Proof.
  intros Hm Hd Hs Hf Hf' e Hdisj. unfold strcat. rewrite (strlen_cstr m d ld) by assumption.
  cbn [bind]. fold e. unfold strcpy.
  destruct (stpcpy_cstr fuel m e s l) as (m' & -> & Em & Hl); try assumption. cbn [bind].
  assert (Hout : forall x, within e (Z.of_nat (length l) + 1) x = false -> m' x = m x)
    by (intros x Hx; rewrite Em; unfold mcopy; now rewrite Hx).
  exists m'. split; [reflexivity|]. split; [|assumption].
  apply (cstr_join m); [assumption| |assumption].
  intros x Hx. apply Hout. unfold within. lia.
Qed.

Lemma strncat_cstr fuel m d s n ld l :
  wf_mem m -> cstr m d ld -> cstr m s l -> 0 <= n -> (length ld < fuel)%nat ->
  let e := d + Z.of_nat (length ld) in
  let k := Z.min n (Z.of_nat (length l)) in
  e + (k + 1) <= s \/ s + (k + 1) <= e ->
  exists m', strncat fuel m d s n = Some (m', d) /\
    cstr m' d (ld ++ firstn (Z.to_nat n) l) /\
    forall x, within e (k + 1) x = false -> m' x = m x.
Proof.
  intros Hm Hd Hs Hn Hf e k Hdisj. unfold strncat. rewrite (strlen_cstr m d ld) by assumption.
  cbn [bind]. fold e. pose proof (copy_len_cstr m s l n Hs Hn) as Hk. fold k in Hk.
  assert (Hdisj' : e + Z.min n (k + 1) <= s \/ s + Z.min n (k + 1) <= e) by lia.
  destruct (while_rule (copy_cond 0) (fun '(m, d, s, n) => (mset m d (m s), d + 1, s + 1, n - 1))
    (copying m e s n k) (fun '(m, d, s, n) => Z.to_nat n) (Z.to_nat n) (m, e, s, n)) as [H1 E];
    [|now apply (copying_start m e s 0)|reflexivity|].
  - intros [[[m1 d1] s1] n1] H E. split; [now apply (copying_step m e s 0 n k Hk)|].
    cbn in E. destruct H as (j & ? & ? & _). destruct Hk as (? & _). lia.
  - destruct (while _ _ _ _) as [[[m1 d1] s1] n1].
    assert (Hst : d1 = e + k /\ m1 =m mcopy m e s k).
    { destruct H1 as (j & Hj & -> & -> & -> & Em). assert (j = k); [|now subst j].
      destruct (Z.eq_dec j k) as [|Hne]; [assumption|exfalso]. cbn in E.
      destruct Hk as (_ & Hk1 & _). apply (Hk1 j ltac:(lia)).
      rewrite <- (copied_src m e s n k Hdisj' j j) by lia. rewrite <- Em. lia. }
    destruct Hst as [-> Em]. set (m' := mset m1 (e + k) 0).
    assert (Em' : m' =m mset (mcopy m e s k) (e + k) 0).
    { intros x. unfold m', mset. destruct (x =? e + k); [reflexivity|apply Em]. }
    assert (Hout : forall x, within e (k + 1) x = false -> m' x = m x).
    { intros x Hx. unfold within in Hx. rewrite Em', mset_ne by lia. unfold mcopy, within.
      now replace ((e <=? x) && (x <? e + k)) with false by lia. }
    exists m'. split; [reflexivity|]. split; [|assumption].
    apply (cstr_join m); [assumption|intros x Hx; apply Hout; unfold within; lia|].
    fold e. replace (firstn (Z.to_nat n) l) with (firstn (Z.to_nat k) l).
    + apply (cstr_copied m e s l); [assumption|lia|].
      now replace (Z.of_nat (Z.to_nat k)) with k by lia.
    + destruct (Z.le_gt_cases n (Z.of_nat (length l))); [f_equal; lia|].
      rewrite !firstn_all2 by lia. reflexivity.
Qed.

(** Unbounded copies: stpcpy (and so strcpy) leaves a copy of the string at
    the destination and returns the address of its NUL (strcpy the destination),
    changing nothing else, whether the pointers share an alignment (word loop)
    or not; strcat leaves the concatenation, strncat the concatenation with at
    most the first [n] bytes. *)
Theorem strcpy_correct fuel m d s ld l n :
  wf_mem m -> cstr m s l -> (length l < fuel)%nat -> 0 <= n ->
  let len := Z.of_nat (length l) in
  let e := d + Z.of_nat (length ld) in
  (d + len + 1 <= s \/ s + len + 1 <= d ->
   exists m', stpcpy fuel m d s = Some (m', d + len) /\
     strcpy fuel m d s = Some (m', d) /\ m' =m mcopy m d s (len + 1) /\ cstr m' d l) /\
  (cstr m d ld -> (length ld < fuel)%nat ->
   e + len + 1 <= s \/ s + len + 1 <= e ->
   (exists m', strcat fuel m d s = Some (m', d) /\ cstr m' d (ld ++ l) /\
      forall x, within e (len + 1) x = false -> m' x = m x) /\
   (exists m', strncat fuel m d s n = Some (m', d) /\
      cstr m' d (ld ++ firstn (Z.to_nat n) l) /\
      forall x, within e (Z.min n len + 1) x = false -> m' x = m x)).
Proof.
  intros Hm Hs Hf Hn len e. split.
  - intros Hdisj. destruct (stpcpy_cstr fuel m d s l) as (m' & E & Em & Hl); try assumption.
    exists m'. unfold strcpy. rewrite E. cbn [bind]. auto.
  - intros Hd Hf' Hdisj. split; [now apply strcat_cstr|]. apply strncat_cstr; auto. lia.
Qed.

Lemma strcpy_correct_witness :
  exists m', strcat 8 (str_mem 8 [97; 98; 0; 0; 0; 0; 0; 0; 99; 100; 101]) 8 16 = Some (m', 8) /\
    cstr m' 8 [97; 98; 99; 100; 101] /\
    forall x, within 10 4 x = false ->
      m' x = str_mem 8 [97; 98; 0; 0; 0; 0; 0; 0; 99; 100; 101] x.
Proof.
  apply (strcpy_correct 8 (str_mem 8 [97; 98; 0; 0; 0; 0; 0; 0; 99; 100; 101]) 8 16
           [97; 98] [99; 100; 101] 0).
  - apply str_mem_wf. repeat constructor; lia.
  - vm_compute. repeat split; lia.
  - cbn. lia.
  - lia.
  - vm_compute. repeat split; lia.
  - cbn. lia.
  - left. cbn. lia.
Defined.

(** Bounded copies: strlcpy returns the length of the source and, when the
    size [n] is not 0, leaves its first [n - 1] bytes (all of them if they fit)
    terminated at the destination and writes nothing beyond; strlcat returns the
    length it tried to create and leaves the concatenation cut to [n - 1] bytes,
    or touches nothing when the destination has no NUL in its [n] bytes. *)
Theorem strlcpy_correct fuel m d s n ld l :
  wf_mem m -> cstr m s l -> 0 <= n -> (length l < fuel)%nat ->
  d + n <= s \/ s + Z.of_nat (length l) + 1 <= d ->
  let len := Z.of_nat (length l) in
  let dlen := Z.of_nat (length ld) in
  (exists m', strlcpy fuel m d s n = Some (m', len) /\
     (0 < n -> cstr m' d (firstn (Z.to_nat (n - 1)) l)) /\
     forall x, within d n x = false -> m' x = m x) /\
  (cstr m d ld ->
   exists m', strlcat fuel m d s n = Some (m', Z.min dlen n + len) /\
     (dlen < n -> cstr m' d (ld ++ firstn (Z.to_nat (n - 1 - dlen)) l)) /\
     (forall x, within (d + dlen) (n - dlen) x = false -> m' x = m x)).
Proof.
  intros Hm Hs Hn Hf Hdisj len dlen.
  assert (H : forall d n, 0 <= n -> d + n <= s \/ s + len + 1 <= d ->
    exists m', strlcpy fuel m d s n = Some (m', len) /\
     (0 < n -> cstr m' d (firstn (Z.to_nat (n - 1)) l)) /\
     forall x, within d n x = false -> m' x = m x).
  { clear d n Hn Hdisj. intros d n Hn Hdisj.
    destruct (strlcpy_copies fuel m d s n l) as (m' & E & Em); try assumption.
    exists m'. split; [assumption|]. destruct (Z.eqb_spec n 0) as [->|Hn0].
    - split; [lia|]. intros x _. apply Em.
    - split.
      + intros _. replace (firstn (Z.to_nat (n - 1)) l)
          with (firstn (Z.to_nat (Z.min (n - 1) (Z.of_nat (length l)))) l).
        * apply (cstr_copied m d s l); [assumption|lia|].
          rewrite Z2Nat.id by lia. assumption.
        * destruct (Z.le_gt_cases (n - 1) (Z.of_nat (length l))); [f_equal; lia|].
          rewrite !firstn_all2 by lia. reflexivity.
      + intros x Hx. unfold within in Hx. rewrite Em, mset_ne by lia. unfold mcopy, within.
        now replace ((d <=? x) && _) with false by lia. }
  split; [now apply H|]. intros Hd. unfold strlcat. rewrite (strnlen_min m d ld) by assumption.
  fold dlen. destruct (Z.eqb_spec (Z.min dlen n) n) as [E|E].
  - rewrite (strlen_cstr m s l) by assumption. cbn [bind]. rewrite E. exists m.
    split; [reflexivity|]. split; [lia|auto].
  - replace (Z.min dlen n) with dlen by lia.
    destruct (H (d + dlen) (n - dlen)) as (m' & -> & Hc & Hout); [lia..|]. cbn [bind].
    exists m'. split; [reflexivity|]. split; [|assumption]. intros _.
    apply (cstr_join m); [assumption| |].
    + intros x Hx. apply Hout. unfold within. lia.
    + replace (n - 1 - dlen) with (n - dlen - 1) by lia. apply Hc. lia.
Qed.

Lemma strlcpy_correct_witness :
  exists m', strlcpy 8 (str_mem 8 [104; 101; 108; 108; 111]) 64 8 4 = Some (m', 5) /\
    (0 < 4 -> cstr m' 64 [104; 101; 108]) /\
    forall x, within 64 4 x = false -> m' x = str_mem 8 [104; 101; 108; 108; 111] x.
Proof.
  refine (proj1 (strlcpy_correct 8 (str_mem 8 [104; 101; 108; 108; 111]) 64 8 4 []
           [104; 101; 108; 108; 111] _ _ _ _ _)).
  - apply str_mem_wf. repeat constructor; lia.
  - vm_compute. repeat split; lia.
  - lia.
  - cbn. lia.
  - right. cbn. lia.
Defined.

(** The copies of exactly bounded extent: with [k] bytes before the first
    stop byte (at most [n]), strncpy copies them and fills the rest of the [n]
    bytes with NULs, stpncpy returning the address past them; memccpy copies up
    to and including the stop byte and returns the address after it, or copies
    all [n] bytes and returns NULL. *)
Theorem strncpy_correct m d s c n k kc :
  wf_mem m -> 0 <= d -> d + n < 18446744073709551616 ->
  copy_len m s 0 n k -> copy_len m s (u8 c) n kc ->
  d + n <= s \/ s + n <= d ->
  (fst (stpncpy m d s n) =m mfill (mcopy m d s k) (d + k) 0 (n - k) /\
   snd (stpncpy m d s n) = d + k) /\
  (fst (strncpy m d s n) =m mfill (mcopy m d s k) (d + k) 0 (n - k) /\
   snd (strncpy m d s n) = d) /\
  (fst (memccpy m d s c n) =m mcopy m d s (Z.min n (kc + 1)) /\
   snd (memccpy m d s c n) = if kc <? n then Some (d + kc + 1) else None).
Proof.
  intros Hm Hd Hn Hk Hkc Hdisj. pose proof Hk as (H0 & _). pose proof Hkc as (H0' & _).
  assert (Hp : fst (stpncpy m d s n) =m mfill (mcopy m d s k) (d + k) 0 (n - k) /\
               snd (stpncpy m d s n) = d + k) by (apply stpncpy_pads; auto; lia).
  split; [assumption|]. split; [now split|]. apply memccpy_copies; auto. lia.
Qed.

Lemma strncpy_correct_witness :
  snd (memccpy (str_mem 8 [104; 101; 108; 108; 111]) 64 8 108 8) = Some 67.
Proof.
  apply (strncpy_correct (str_mem 8 [104; 101; 108; 108; 111]) 64 8 108 8 5 2).
  - apply str_mem_wf. repeat constructor; lia.
  - lia.
  - lia.
  - split; [lia|]. split; [|intros _; reflexivity]. intros i Hi.
    apply Z.eqb_neq, negb_true_iff. revert i Hi. apply (zrange_check _ 0 5).
    vm_compute. reflexivity.
  - split; [lia|]. split; [|intros _; reflexivity]. intros i Hi.
    apply Z.eqb_neq, negb_true_iff. revert i Hi. apply (zrange_check _ 0 2).
    vm_compute. reflexivity.
  - right. lia.
Defined.
