(* ===== verification/Words.v ===== *)
(** * Words: periods, maximal suffixes and the critical factorisation

    The combinatorics behind the two-way search of src/string/strstr.c,
    memmem.c and wcsstr.c, on words given as functions of an index: periods,
    local repetitions at a position, the invariant of the maximal-suffix scan
    (its candidate suffix, the period of what is compared), and the critical
    factorisation: at the shorter of the two maximal suffixes of a word, for
    an order and for its opposite, every local repetition is a period of the
    whole word.  What a search may skip follows from that alone. *)

From Stdlib Require Import ZArith Lia ZifyBool List Bool.
From S2P Require Import Prelude.
Open Scope Z_scope.

(** ** Comparing two positions of a word *)

Section Word.
Variables (f : Z -> Z) (l : Z).

(** [d] letters at [i] and [j] are the same. *)
Definition agree (i j d : Z) : Prop := forall k, 0 <= k < d -> f (i + k) = f (j + k).

(** The suffix at [i] is smaller than the one at [j], and the difference shows
    before index [b]. *)
Definition below (i j b : Z) : Prop :=
  exists d, 0 <= d /\ i + d < b /\ j + d < b /\ agree i j d /\ f (i + d) < f (j + d).

(** No suffix of the segment from [a] to [b] is seen to be greater than the segment. *)
Definition weak (a b : Z) : Prop :=
  forall e d, 1 <= e -> 0 <= d -> a + e + d < b -> agree (a + e) a d -> f (a + e + d) <= f (a + d).

(** [p] is a period of the segment from [a] to [b]. *)
Definition period (a b p : Z) : Prop := forall i, a <= i -> i + p < b -> f i = f (i + p).

(** [s] is a local repetition at position [c] of the word. *)
Definition local_rep (c s : Z) : Prop :=
  forall i, 0 <= i -> c - s <= i < c -> i + s < l -> f i = f (i + s).

Lemma agree_step i j d : agree i j d -> f (i + d) = f (j + d) -> agree i j (d + 1).
Proof.
  intros H E k Hk. destruct (Z.eq_dec k d) as [->|]; [assumption|apply H; lia].
Qed.

Lemma agree_less i j d d' : agree i j d -> d' <= d -> agree i j d'.
Proof. intros H Hd k Hk. apply H. lia. Qed.

(** Two positions agree on [d] letters, or differ at a first place before. *)
Lemma agree_or (i j d : Z) :
  0 <= d ->
  agree i j d \/ exists k, 0 <= k < d /\ agree i j k /\ f (i + k) <> f (j + k).
Proof.
  intros Hd. pattern d. apply natlike_ind; [left; intros k Hk; lia| |assumption].
  clear d Hd. intros d Hd [H|(k & Hk & Ha & Hn)].
  - destruct (Z.eq_dec (f (i + d)) (f (j + d))).
    + left. now apply agree_step.
    + right. exists d. split; [lia|now split].
  - right. exists k. split; [lia|now split].
Qed.

Lemma period_mult a b p q i :
  period a b p -> 0 <= p -> 0 <= q -> a <= i -> i + q * p < b -> f i = f (i + q * p).
Proof.
  intros H Hp Hq Hi. revert q Hq. refine (natlike_ind _ _ _).
  - intros _. f_equal. lia.
  - intros q Hq IH Hb. assert (0 <= q * p) by nia.
    rewrite IH by nia. rewrite (H (i + q * p)) by nia. f_equal. lia.
Qed.

Lemma below_chain t a b c1 c2 :
  t < a -> below t a c1 -> below a b c2 -> a < b -> below t b c2.
Proof.
  intros Hta (d1 & H1 & _ & _ & A1 & L1) (d2 & H2 & _ & B2 & A2 & L2) Hab.
  exists (Z.min d1 d2). split; [lia|]. split; [lia|]. split; [lia|].
  split.
  - intros k Hk. rewrite A1 by lia. apply A2. lia.
  - destruct (Z.lt_trichotomy d1 d2) as [H|[H|H]].
    + rewrite Z.min_l by lia. now rewrite <- A2 by lia.
    + rewrite Z.min_l by lia. subst d2. lia.
    + rewrite Z.min_r by lia. now rewrite A1 by lia.
Qed.

(** ** The maximal-suffix scan *)

(** The candidate starts at [a]; the suffix at [j] is compared with it, [k]
    letters done; [p] is the least period of the segment from [a] to [j + k]. *)
Record scanning (a j k p : Z) : Prop := {
  sc_a : 0 <= a;
  sc_k : 0 <= k < p;
  sc_end : j + k <= l;
  sc_mult : exists q, 1 <= q /\ j = a + q * p;
  sc_weak : weak a (j + k);
  sc_period : period a (j + k) p;
  sc_min : forall e, 1 <= e < p -> below (a + e) a (j + k);
  sc_left : forall t, 0 <= t < a -> below t a l }.

(** [a] starts the maximal suffix of the word, whose least period is [p]. *)
Record maximal (a p : Z) : Prop := {
  mx_a : 0 <= a;
  mx_p : 1 <= p <= l - a;
  mx_weak : weak a l;
  mx_period : period a l p;
  mx_min : forall e, 1 <= e < p -> ~ period a l e;
  mx_left : forall t, 0 <= t < a -> below t a l }.

Lemma scanning_start : 1 <= l -> scanning 0 1 0 1.
Proof.
  intros Hl. constructor; try lia.
  - exists 1. lia.
  - intros e d He Hd Hb. lia.
  - intros i Hi Hb. lia.
Qed.

Lemma scanning_maximal a j k p : scanning a j k p -> j + k = l -> maximal a p.
Proof.
  intros [Ha Hk He (q & Hq & ->) Hw Hp Hm Hl] E. rewrite E in *.
  constructor; try assumption.
  - nia.
  - intros e Hee Hpe. destruct (Hm e Hee) as (d & Hd & B1 & _ & _ & Hlt).
    rewrite (Hpe (a + d)) in Hlt by lia. replace (a + d + e) with (a + e + d) in Hlt by lia. lia.
Qed.

Section Step.
Variables a j k p : Z.
Hypothesis Hs : scanning a j k p.

(** The letter that continues the period. *)
Lemma scan_letter : f (a + k) = f (j + k - p).
Proof.
  destruct Hs as [Ha Hk He (q & Hq & Ej) Hw Hp Hm Hl].
  rewrite (period_mult a (j + k) p (q - 1) (a + k)); [f_equal; nia|assumption|lia..|nia].
Qed.

(** A proper suffix of the compared segment that is also a prefix of it starts
    at the period or later, and goes on with at least the period's letter. *)
Lemma scan_border e d :
  1 <= e -> 0 <= d -> a + e + d = j + k -> agree (a + e) a d -> p <= e /\ f (a + k) <= f (a + d).
Proof.
  intros He Hd E A. pose proof scan_letter as Hy.
  destruct Hs as [Ha Hk Hend (q & Hq & Ej) Hw Hp Hm Hl].
  destruct (Z.lt_ge_cases e p) as [Hlt|Hge].
  { exfalso. destruct (Hm e ltac:(lia)) as (d0 & Hd0 & B1 & _ & _ & L).
    rewrite A in L by lia. lia. }
  split; [assumption|]. rewrite Hy. destruct (Z.eq_dec e p) as [->|Hne].
  - replace (j + k - p) with (a + d) by lia. lia.
  - replace (j + k - p) with (a + (e - p) + d) by lia. apply Hw; [lia..|].
    intros i Hi. rewrite <- (A i Hi). rewrite (Hp (a + (e - p) + i)) by lia. f_equal. lia.
Qed.

(** One more letter that is not greater keeps the segment self-maximal. *)
Lemma weak_more : f (j + k) <= f (a + k) -> weak a (j + k + 1).
Proof.
  intros Hy e d He Hd Hb A. destruct (Z.eq_dec (a + e + d) (j + k)) as [E|].
  - rewrite E. pose proof (scan_border e d He Hd E A). lia.
  - now apply (sc_weak _ _ _ _ Hs); try lia.
Qed.

Lemma below_more e b : below (a + e) a b -> below (a + e) a (b + 1).
Proof. intros (d & H1 & H2 & H3 & H4). exists d. repeat split; lia || apply H4. Qed.

(** The letters are equal: the period goes on. *)
Lemma scan_equal :
  j + k < l -> f (a + k) = f (j + k) ->
  (k + 1 = p -> scanning a (j + p) 0 p) /\ (k + 1 < p -> scanning a j (k + 1) p).
Proof.
  intros Hend E. pose proof (weak_more ltac:(lia)) as Hw'. pose proof scan_letter as Hy.
  destruct Hs as [Ha Hk He (q & Hq & Ej) Hw Hp Hm Hl].
  assert (Hp' : period a (j + k + 1) p).
  { intros i Hi Hb. destruct (Z.eq_dec (i + p) (j + k)) as [Ei|].
    - rewrite Ei. replace i with (j + k - p) by lia. congruence.
    - apply Hp; lia. }
  assert (Hm' : forall e, 1 <= e < p -> below (a + e) a (j + k + 1))
    by (intros e Hee; now apply below_more, Hm).
  split; intros Hkp.
  - replace (j + k + 1) with (j + p + 0) in * by lia.
    constructor; auto; [lia..|]. exists (q + 1). lia.
  - replace (j + k + 1) with (j + (k + 1)) in * by lia.
    constructor; auto; [lia..|]. now exists q.
Qed.

(** The new letter is smaller: the whole segment is the new period. *)
Lemma scan_smaller :
  j + k < l -> f (j + k) < f (a + k) -> scanning a (j + k + 1) 0 (j + k + 1 - a).
Proof.
  intros Hend Hy. pose proof (weak_more ltac:(lia)) as Hw'.
  pose proof Hs as [Ha Hk He (q & Hq & Ej) Hw Hp Hm Hl].
  assert (0 < j - a) by nia.
  constructor; rewrite ?Z.add_0_r; auto; try lia.
  - exists 1. lia.
  - intros i Hi Hb. lia.
  - intros e Hee. destruct (agree_or (a + e) a (j + k - a - e) ltac:(lia)) as [A|(d & Hd & A & N)].
    + exists (j + k - a - e). split; [lia|]. split; [lia|]. split; [lia|]. split; [assumption|].
      destruct (scan_border e (j + k - a - e) ltac:(lia) ltac:(lia) ltac:(lia) A) as [_ HH].
      replace (a + e + (j + k - a - e)) with (j + k) by lia. lia.
    + exists d. split; [lia|]. split; [lia|]. split; [lia|]. split; [assumption|].
      pose proof (Hw e d ltac:(lia) ltac:(lia) ltac:(lia) A). lia.
Qed.

(** The new letter is greater: the suffix compared is the new candidate. *)
Lemma scan_greater : j + k < l -> f (a + k) < f (j + k) -> scanning j (j + 1) 0 1.
Proof.
  intros Hend Hy. pose proof Hs as [Ha Hk He (q & Hq & Ej) Hw Hp Hm Hl].
  assert (Hja : 0 < j - a) by nia.
  assert (Hjk : agree a j k).
  { intros i Hi. rewrite (period_mult a (j + k) p q (a + i)); [f_equal; lia|assumption|lia..]. }
  assert (Haj : below a j l) by (exists k; repeat split; lia || assumption).
  constructor; try lia.
  - exists 1. lia.
  - intros e d H1 H2 H3. lia.
  - intros i H1 H2. lia.
  - intros t Ht. destruct (Z.lt_ge_cases t a) as [Hta|Hta].
    { apply (below_chain t a j l l); [lia|apply Hl; lia|assumption|lia]. }
    destruct (Z.eq_dec t a) as [->|Hne]; [assumption|].
    replace t with (a + (t - a)) by lia.
    destruct (agree_or (a + (t - a)) a k ltac:(lia)) as [A|(d & Hd & A & N)].
    + exists k. split; [lia|]. split; [lia|]. split; [lia|]. split.
      * intros i Hi. rewrite A by lia. apply Hjk. lia.
      * pose proof (Hw (t - a) k ltac:(lia) ltac:(lia) ltac:(lia) A). lia.
    + exists d. split; [lia|]. split; [lia|]. split; [lia|]. split.
      * intros i Hi. rewrite A by lia. apply Hjk. lia.
      * pose proof (Hw (t - a) d ltac:(lia) ltac:(lia) ltac:(lia) A).
        rewrite <- (Hjk d) by lia. lia.
Qed.
End Step.

(** ** The critical factorisation *)

(** A local repetition is never contained in the part left of a maximal suffix. *)
Lemma maximal_not_left c p s : maximal c p -> 1 <= s -> local_rep c s -> c < s.
Proof.
  intros [Ha Hp Hw _ _ Hl] Hs Hr. destruct (Z.lt_ge_cases c s) as [|Hge]; [assumption|exfalso].
  destruct (Hl (c - s) ltac:(lia)) as (d & Hd & B1 & B2 & A & L).
  destruct (Z.lt_ge_cases d s) as [Hds|Hds].
  - rewrite (Hr (c - s + d)) in L by lia. replace (c - s + d + s) with (c + d) in L by lia. lia.
  - assert (HH : f (c + s + (d - s)) <= f (c + (d - s))).
    { apply Hw; [lia..|]. intros i Hi. rewrite <- (Z.add_assoc c s i).
      rewrite <- (A (s + i)) by lia. f_equal. lia. }
    replace (c + s + (d - s)) with (c + d) in HH by lia.
    replace (c - s + d) with (c + (d - s)) in L by lia. lia.
Qed.
End Word.

(** At the shorter maximal suffix every local repetition is a period of the word. *)
Lemma critical f g l c p c2 p2 :
  (forall i, g i = - f i) -> maximal f l c p -> maximal g l c2 p2 -> c2 <= c ->
  forall s, 1 <= s -> local_rep f l c s -> c < s /\ period f 0 l s.
Proof.
  intros Hg Hf Hg2 Hc s Hs Hr. pose proof (maximal_not_left f l c p s Hf Hs Hr) as Hcs.
  split; [assumption|].
  destruct Hf as [Ha Hp Hw _ _ _], Hg2 as [Ha2 Hp2 Hw2 _ _ _].
  assert (Hright : forall d, 0 <= d -> c + s + d < l -> f (c + d) = f (c + s + d)).
  { enough (H : forall d, 0 <= d -> 0 <= d -> c + s + d < l -> f (c + d) = f (c + s + d)) by auto.
    apply (Z_lt_induction (fun d => 0 <= d -> c + s + d < l -> f (c + d) = f (c + s + d))).
    intros d IH Hd Hend.
    apply Z.le_antisymm.
    - enough (g (c2 + s + (c - c2 + d)) <= g (c2 + (c - c2 + d))) as HH.
      { rewrite !Hg in HH. replace (c2 + s + (c - c2 + d)) with (c + s + d) in HH by lia.
        replace (c2 + (c - c2 + d)) with (c + d) in HH by lia. lia. }
      apply Hw2; [lia..|]. intros i Hi. rewrite !Hg. f_equal.
      destruct (Z.lt_ge_cases (c2 + i) c) as [Hlt|Hge].
      + rewrite (Hr (c2 + i)) by lia. f_equal. lia.
      + pose proof (IH (c2 + i - c) ltac:(lia) ltac:(lia) ltac:(lia)) as E.
        replace (c + (c2 + i - c)) with (c2 + i) in E by lia.
        replace (c + s + (c2 + i - c)) with (c2 + s + i) in E by lia. now symmetry.
    - apply Hw; [lia..|]. intros i Hi. symmetry. apply IH; lia. }
  intros i Hi Hend. destruct (Z.lt_ge_cases i c).
  - apply Hr; lia.
  - pose proof (Hright (i - c) ltac:(lia) ltac:(lia)) as E.
    replace (c + (i - c)) with i in E by lia. replace (c + s + (i - c)) with (i + s) in E by lia.
    assumption.
Qed.

(** ** What a search may skip *)

Section Skip.
Variables (x : Z -> Z) (l c q : Z).

(** [c] is a critical position of the word [x] of length [l], [q] the least
    period of the part right of it. *)
Record critical_at : Prop := {
  cr_c : 0 <= c;
  cr_q : 1 <= q <= l - c;
  cr_local : forall s, 1 <= s -> local_rep x l c s -> c < s /\ period x 0 l s;
  cr_period : period x c l q;
  cr_min : forall e, 1 <= e < q -> ~ period x c l e }.

(** The word is in the text [T] at [i]; the part of it from [a] to [b] is. *)
Definition matched (T : Z -> Z) (i a b : Z) : Prop := forall j, a <= j < b -> T (i + j) = x j.
Definition occurs (T : Z -> Z) (i : Z) : Prop := matched T i 0 l.

Hypothesis Hcrit : critical_at.

Lemma period_local s : period x 0 l s -> local_rep x l c s.
Proof. intros H i Hi _ Hb. now apply H. Qed.

Lemma period_weaken a b s e : period x a b s -> a <= e -> period x e b s.
Proof. intros H He i Hi. apply H. lia. Qed.

(** The critical position is inside the first period. *)
Lemma period_past s : 1 <= s -> period x 0 l s -> c < s.
Proof. intros Hs H. now apply (cr_local Hcrit), period_local. Qed.

Variables (T : Z -> Z) (i : Z).

(** A second occurrence over a matched part is a local repetition. *)
Lemma shift_local k s :
  matched T i c k -> occurs T (i + s) -> 1 <= s -> s <= k - c \/ k = l -> local_rep x l c s.
Proof.
  intros Hm Ho Hs Hk j Hj Hc Hb. pose proof (cr_q Hcrit).
  rewrite <- (Ho j) by lia. replace (i + s + j) with (i + (j + s)) by lia.
  apply Hm. lia.
Qed.

(** After a mismatch in the right part: up to one past the mismatch. *)
Lemma skip_right k s :
  matched T i c k -> c <= k < l -> T (i + k) <> x k -> 0 <= s <= k - c -> ~ occurs T (i + s).
Proof.
  intros Hm Hk Hne Hs Ho. destruct (Z.eq_dec s 0) as [->|Hs0].
  - apply Hne. rewrite <- (Ho k) by (pose proof (cr_c Hcrit); lia). f_equal. lia.
  - destruct (cr_local Hcrit s ltac:(lia)) as [_ Hp].
    { apply (shift_local k); auto; lia. }
    pose proof (cr_c Hcrit). apply Hne.
    replace k with (k - s + s) at 2 by lia. rewrite <- (Hp (k - s)) by lia.
    rewrite <- (Ho (k - s)) by lia. f_equal. lia.
Qed.

(** After the right part has matched, when the word has period [q]: less than [q]. *)
Lemma skip_period s : matched T i c l -> 1 <= s < q -> ~ occurs T (i + s).
Proof.
  intros Hm Hs Ho. destruct (cr_local Hcrit s ltac:(lia)) as [_ Hp].
  { apply (shift_local l); auto; lia. }
  apply (cr_min Hcrit s Hs), (period_weaken 0); [assumption|apply (cr_c Hcrit)].
Qed.

(** A period no longer than the right part is [q]. *)
Lemma short_period s : 1 <= s <= l - c -> period x 0 l s -> period x 0 l q.
Proof.
  intros Hs Hp. destruct Hcrit as [Hc Hq Hl Hqp Hmin].
  assert (H0 : 0 <= s) by lia. revert Hs Hp. pattern s. apply Z_lt_induction; [|assumption].
  clear s H0. intros s IH Hs Hp.
  destruct (Z.lt_trichotomy s q) as [Hlt|[->|Hgt]]; [|assumption|].
  - exfalso. apply (Hmin s ltac:(lia)), (period_weaken 0); assumption.
  - apply (IH (s - q)); [lia..|]. apply Hl; [lia|]. intros j Hj Hc' Hb.
    rewrite (Hp j) by lia. replace (j + s) with (j + (s - q) + q) by lia.
    symmetry. apply Hqp; lia.
Qed.

(** After the right part has matched, when the word has not period [q]. *)
Lemma skip_long s :
  ~ period x 0 l q -> matched T i c l -> 1 <= s -> s < Z.max c (l - c + 1) -> ~ occurs T (i + s).
Proof.
  intros Hn Hm Hs Hb Ho. destruct (cr_local Hcrit s ltac:(lia)) as [Hc Hp].
  { apply (shift_local l); auto; lia. }
  apply Hn, (short_period s); [lia|assumption].
Qed.

(** With the first [l - q] letters known and the last letter wrong: as many. *)
Lemma skip_memory s :
  period x 0 l q -> matched T i 0 (l - q) -> T (i + (l - 1)) <> x (l - 1) ->
  1 <= s < l - q -> ~ occurs T (i + s).
Proof.
  intros Hp Hm Hne Hs Ho. pose proof (cr_q Hcrit). pose proof (cr_c Hcrit). apply Hne.
  assert (E1 : x (l - q - 1 - s) = x (l - 1)).
  { rewrite <- (Ho (l - q - 1 - s)) by lia.
    replace (i + s + (l - q - 1 - s)) with (i + (l - q - 1)) by lia.
    rewrite Hm by lia. rewrite (Hp (l - q - 1)) by lia. f_equal. lia. }
  replace (i + (l - 1)) with (i + s + (l - 1 - s)) by lia. rewrite Ho by lia.
  rewrite <- E1, (Hp (l - q - 1 - s)) by lia. f_equal. lia.
Qed.

(** The prefix known after a shift by the period. *)
Lemma memory_after : period x 0 l q -> matched T i c l -> matched T (i + q) 0 (l - q).
Proof.
  intros Hp Hm j Hj. pose proof (cr_q Hcrit).
  pose proof (period_past q ltac:(lia) Hp). rewrite (Hp j) by lia.
  rewrite <- Hm by lia. f_equal. lia.
Qed.
End Skip.

(** The maximal suffixes of a word give a critical position. *)
Lemma maximal_critical x f g l c p c2 p2 :
  (forall i j, f i = f j -> x i = x j) -> (forall i j, x i = x j -> f i = f j) ->
  (forall i, g i = - f i) -> maximal f l c p -> maximal g l c2 p2 -> c2 <= c ->
  critical_at x l c p.
Proof.
  intros Hfx Hxf Hg Hf Hg2 Hc. pose proof Hf as [Ha Hp _ Hper Hmin _].
  constructor; auto.
  - intros s Hs Hr. destruct (critical f g l c p c2 p2 Hg Hf Hg2 Hc s Hs) as [H1 H2].
    + intros i Hi Hb He. now apply Hxf, Hr.
    + split; [assumption|]. intros i Hi Hb. now apply Hfx, H2.
  - intros i Hi Hb. now apply Hfx, Hper.
  - intros e He H. apply (Hmin e He). intros i Hi Hb. now apply Hxf, H.
Qed.
