(* ===== verification/Ctype.v ===== *)
(** * Ctype: character classification and case mapping

    Models the functions of src/ctype for the byte character set (isalpha and
    its relatives, tolower, toupper), the three tables that
    __ctype_b_loc, __ctype_tolower_loc and __ctype_toupper_loc publish, and the
    wide functions that need no generated table (iswcntrl, iswprint, iswspace,
    iswgraph, iswdigit, iswxdigit, iswblank).  An int argument is any [Z] of 32
    signed bits; (unsigned)c is [u32 c]. *)

From Stdlib Require Import ZArith Lia ZifyBool List Bool.
From S2P Require Import Prelude.
Import ListNotations.
Open Scope Z_scope.

(** ** The functions on int *)

Definition isdigit (c : Z) : bool := u32 (c - 48) <? 10.
Definition isalpha (c : Z) : bool := u32 (Z.lor (u32 c) 32 - 97) <? 26.
Definition isalnum (c : Z) : bool := isalpha c || isdigit c.
Definition isascii (c : Z) : bool := Z.land c (Z.lnot 127) =? 0.
Definition isblank (c : Z) : bool := (c =? 32) || (c =? 9).
Definition iscntrl (c : Z) : bool := (u32 c <? 32) || (c =? 127).
Definition isgraph (c : Z) : bool := u32 (c - 33) <? 94.
Definition islower (c : Z) : bool := u32 (c - 97) <? 26.
Definition isprint (c : Z) : bool := u32 (c - 32) <? 95.
Definition ispunct (c : Z) : bool := isgraph c && negb (isalnum c).
Definition isspace (c : Z) : bool := (c =? 32) || (u32 (c - 9) <? 5).
Definition isupper (c : Z) : bool := u32 (c - 65) <? 26.
Definition isxdigit (c : Z) : bool := isdigit c || (u32 (Z.lor (u32 c) 32 - 97) <? 6).
Definition toascii (c : Z) : Z := Z.land c 127.
Definition tolower (c : Z) : Z := if isupper c then Z.lor c 32 else c.
Definition toupper (c : Z) : Z := if islower c then Z.land c 95 else c.

(** ** The published tables *)

(** The bytes of an entry, swapped for a little-endian target. *)
Definition X (x : Z) : Z := Z.lor (x / 256) (x * 256) mod 65536.

Definition ctype_b_table : list Z :=
  repeat 0 128 ++
  repeat (X 512) 9 ++
  [X 800; X 544; X 544; X 544; X 544] ++
  repeat (X 512) 18 ++
  [X 352] ++
  repeat (X 1216) 15 ++
  repeat (X 2264) 10 ++
  repeat (X 1216) 7 ++
  repeat (X 2261) 6 ++
  repeat (X 2245) 20 ++
  repeat (X 1216) 6 ++
  repeat (X 2262) 6 ++
  repeat (X 2246) 20 ++
  [X 1216; X 1216; X 1216; X 1216; X 512] ++
  repeat 0 128.

Definition tolower_table : list Z :=
  repeat 0 129 ++
  [1; 2; 3; 4; 5; 6; 7; 8; 9; 10; 11; 12; 13; 14; 15; 16; 17; 18; 19; 20; 21; 22; 23; 24;
     25; 26; 27; 28; 29; 30; 31; 32; 33; 34; 35; 36; 37; 38; 39; 40; 41; 42; 43; 44; 45; 46;
     47; 48; 49; 50; 51; 52; 53; 54; 55; 56; 57; 58; 59; 60; 61; 62; 63; 64; 97; 98; 99;
     100; 101; 102; 103; 104; 105; 106; 107; 108; 109; 110; 111; 112; 113; 114; 115; 116;
     117; 118; 119; 120; 121; 122; 91; 92; 93; 94; 95; 96; 97; 98; 99; 100; 101; 102; 103;
     104; 105; 106; 107; 108; 109; 110; 111; 112; 113; 114; 115; 116; 117; 118; 119; 120;
     121; 122; 123; 124; 125; 126; 127] ++
  repeat 0 128.

Definition toupper_table : list Z :=
  repeat 0 129 ++
  [1; 2; 3; 4; 5; 6; 7; 8; 9; 10; 11; 12; 13; 14; 15; 16; 17; 18; 19; 20; 21; 22; 23; 24;
     25; 26; 27; 28; 29; 30; 31; 32; 33; 34; 35; 36; 37; 38; 39; 40; 41; 42; 43; 44; 45; 46;
     47; 48; 49; 50; 51; 52; 53; 54; 55; 56; 57; 58; 59; 60; 61; 62; 63; 64; 65; 66; 67; 68;
     69; 70; 71; 72; 73; 74; 75; 76; 77; 78; 79; 80; 81; 82; 83; 84; 85; 86; 87; 88; 89; 90;
     91; 92; 93; 94; 95; 96; 65; 66; 67; 68; 69; 70; 71; 72; 73; 74; 75; 76; 77; 78; 79; 80;
     81; 82; 83; 84; 85; 86; 87; 88; 89; 90; 123; 124; 125; 126; 127] ++
  repeat 0 128.

(** The pointers published point 128 entries into the tables. *)
Definition ctype_b (c : Z) : Z := nth (Z.to_nat (128 + c)) ctype_b_table 0.
Definition ctype_tolower (c : Z) : Z := nth (Z.to_nat (128 + c)) tolower_table 0.
Definition ctype_toupper (c : Z) : Z := nth (Z.to_nat (128 + c)) toupper_table 0.

(** ** The wide functions *)

Definition iswcntrl (wc : Z) : bool :=
  (wc <? 32) || (u32 (wc - 127) <? 33) || (u32 (wc - 8232) <? 2) || (u32 (wc - 65529) <? 3).

Definition iswprint (wc : Z) : bool :=
  if wc <? 255 then 33 <=? Z.land (u32 (wc + 1)) 127
  else if (wc <? 8232) || (u32 (wc - 8234) <? 55296 - 8234)
          || (u32 (wc - 57344) <? 65529 - 57344) then true
  else if (1114111 - 65532 <? u32 (wc - 65532)) || (Z.land wc 65534 =? 65534) then false
  else true.

Definition spaces : list Z :=
  [32; 9; 10; 13; 11; 12; 133; 8192; 8193; 8194; 8195; 8196; 8197; 8198; 8200; 8201; 8202;
   8232; 8233; 8287; 12288].

Definition iswspace (wc : Z) : bool := negb (wc =? 0) && existsb (Z.eqb wc) spaces.
Definition iswgraph (wc : Z) : bool := negb (iswspace wc) && iswprint wc.
Definition iswdigit (wc : Z) : bool := u32 (wc - 48) <? 10.
Definition iswxdigit (wc : Z) : bool :=
  (u32 (wc - 48) <? 10) || (u32 (Z.lor wc 32 - 97) <? 6).
Definition iswblank (wc : Z) : bool := isblank wc.

(** ** Ranges *)

Definition in_range (lo hi c : Z) : bool := (lo <=? c) && (c <=? hi).

(** (unsigned)c - lo < n is a range test. *)
Lemma range_test c lo n :
  -2147483648 <= c < 4294967296 -> 0 <= lo -> 0 < n -> lo + n <= 2147483648 ->
  (u32 (c - lo) <? n) = in_range lo (lo + n - 1) c.
Proof. unfold u32, in_range. intros. zlia. Qed.

(** |32 joins the two cases. *)
Lemma lor_32 x : Z.lor x 32 = if Z.odd (x / 32) then x else x + 32.
Proof.
  assert (Hb : Z.testbit x 5 = Z.odd (x / 32)).
  { rewrite Z.testbit_odd, Z.shiftr_div_pow2 by lia. reflexivity. }
  rewrite <- Hb. destruct (Z.testbit x 5) eqn:E.
  - apply Z.bits_inj'; intros i Hi. rewrite Z.lor_spec. change 32 with (2 ^ 5).
    rewrite Z.pow2_bits_eqb by lia. destruct (Z.eqb_spec 5 i) as [<-|]; [now rewrite E|].
    apply orb_false_r.
  - rewrite Z.add_nocarry_lxor, Z.lxor_lor; [reflexivity| |].
    all: change 32 with (2 ^ 5); rewrite land_bit by lia; now rewrite E.
Qed.

Lemma letter_test c n :
  -2147483648 <= c < 4294967296 -> 0 < n <= 26 ->
  (u32 (Z.lor (u32 c) 32 - 97) <? n) = in_range 65 (64 + n) c || in_range 97 (96 + n) c.
Proof.
  intros Hc Hn. rewrite lor_32. unfold in_range.
  pose proof (Zmod_odd (u32 c / 32)) as Ho. unfold u32 in *.
  destruct (Z.odd _); zlia.
Qed.

Definition int_range (c : Z) : Prop := INT_MIN <= c <= INT_MAX.

(** Every classification function, on every int (negative values and EOF
    included), is membership in its ASCII class, and the case mappings move
    exactly the letters, by 32. *)
Theorem ctype_ascii c :
  int_range c ->
  isdigit c = in_range 48 57 c /\
  isupper c = in_range 65 90 c /\
  islower c = in_range 97 122 c /\
  isalpha c = isupper c || islower c /\
  isalnum c = isalpha c || isdigit c /\
  isxdigit c = isdigit c || in_range 65 70 c || in_range 97 102 c /\
  isspace c = (c =? 32) || in_range 9 13 c /\
  isprint c = in_range 32 126 c /\
  isgraph c = isprint c && negb (c =? 32) /\
  ispunct c = isgraph c && negb (isalnum c) /\
  iscntrl c = isascii c && negb (isprint c) /\
  isascii c = in_range 0 127 c /\
  tolower c = (if isupper c then c + 32 else c) /\
  toupper c = (if islower c then c - 32 else c).
Proof.
  unfold int_range, INT_MIN, INT_MAX. intros Hc.
  unfold isdigit, isupper, islower, isalpha, isalnum, isxdigit, isspace, isprint, isgraph,
    ispunct, iscntrl, tolower, toupper, isalnum, isalpha, isdigit, isgraph, isupper, islower.
  assert (Ha : isascii c = in_range 0 127 c).
  { unfold isascii. replace (Z.land c (Z.lnot 127)) with (c - c mod 128).
    - unfold in_range. zlia.
    - change 128 with (2 ^ 7). rewrite <- (Z.land_ones c 7) by lia. change (Z.ones 7) with 127.
      rewrite <- Z.ldiff_land. rewrite Z.sub_nocarry_ldiff.
      + apply Z.bits_inj'; intros i Hi. rewrite !Z.ldiff_spec, Z.land_spec.
        now destruct (Z.testbit c i), (Z.testbit 127 i).
      + apply Z.bits_inj'; intros i Hi. rewrite Z.ldiff_spec, Z.land_spec, Z.bits_0.
        now destruct (Z.testbit c i), (Z.testbit 127 i). }
  rewrite !letter_test, !range_test by lia. rewrite Ha. unfold in_range, u32.
  repeat split; try lia.
  - zlia.
  - case_if; [|reflexivity]. rewrite lor_32. pose proof (Zmod_odd (c / 32)) as Ho.
    destruct (Z.odd _); zlia.
  - case_if; [|reflexivity]. apply Z.eqb_eq.
    assert (Hr : 97 <= c < 97 + Z.of_nat 26) by lia. clear -Hr. revert c Hr.
    apply zrange_check. vm_compute. reflexivity.
Qed.

Lemma ctype_ascii_witness : isspace (-1) = (-1 =? 32) || in_range 9 13 (-1).
Proof. apply (ctype_ascii (-1)). vm_compute. split; discriminate. Defined.

(** The bits of an entry of the published table, from the functions. *)
Definition class_bits (c : Z) : Z :=
  b2z (isupper c) * 256 + b2z (islower c) * 512 + b2z (isalpha c) * 1024 +
  b2z (isdigit c) * 2048 + b2z (isxdigit c) * 4096 + b2z (isspace c) * 8192 +
  b2z (isprint c) * 16384 + b2z (isgraph c) * 32768 + b2z (isblank c) * 1 +
  b2z (iscntrl c) * 2 + b2z (ispunct c) * 4 + b2z (isalnum c) * 8.

(** The tables other code reads through __ctype_b_loc and its siblings agree
    with the functions: for every index a program may use (-128 to 255, EOF
    included) the class bits are those of the functions, and for the ASCII
    range the case tables hold tolower and toupper. *)
Theorem ctype_tables c :
  -128 <= c < 256 ->
  ctype_b c = class_bits c /\
  (0 <= c < 128 -> ctype_tolower c = tolower c /\ ctype_toupper c = toupper c).
Proof.
  intros Hc. split.
  - apply Z.eqb_eq. assert (Hr : -128 <= c < -128 + Z.of_nat 384) by lia. clear Hc. revert c Hr.
    apply zrange_check. vm_compute. reflexivity.
  - clear Hc. intros Hc. assert (H : ((ctype_tolower c =? tolower c) && (ctype_toupper c =? toupper c)) = true);
      [|apply andb_true_iff in H; lia].
    assert (Hr : 0 <= c < 0 + Z.of_nat 128) by lia. clear Hc. revert c Hr.
    apply zrange_check. vm_compute. reflexivity.
Qed.

Lemma ctype_tables_witness : ctype_b (-1) = class_bits (-1).
Proof. apply (ctype_tables (-1)). lia. Defined.

Lemma land_127 x : Z.land x 127 = x mod 128.
Proof. apply (Z.land_ones x 7). lia. Qed.

Lemma land_fffe x : Z.land x 65534 = x mod 65536 - x mod 2.
Proof.
  assert (E : Z.land x 65534 = Z.shiftl (Z.land (Z.shiftr x 1) (Z.ones 15)) 1).
  { apply Z.bits_inj'; intros i Hi. rewrite Z.shiftl_spec, Z.land_spec by lia.
    destruct (Z.eq_dec i 0) as [->|Hne].
    - rewrite (Z.testbit_neg_r (Z.land (Z.shiftr x 1) (Z.ones 15)) (0 - 1)) by lia.
      change (Z.testbit 65534 0) with false. apply andb_false_r.
    - rewrite Z.land_spec, Z.shiftr_spec by lia. replace (i - 1 + 1) with i by lia. f_equal.
      change 65534 with (Z.shiftl (Z.ones 15) 1). now rewrite Z.shiftl_spec by lia. }
  rewrite E, Z.land_ones, Z.shiftl_mul_pow2, Z.shiftr_div_pow2 by lia.
  change (2 ^ 15) with 32768. change (2 ^ 1) with 2.
  change 65536 with (2 * 32768). rewrite (Z.rem_mul_r x 2 32768) by lia. lia.
Qed.

Lemma iswcntrl_ranges wc :
  0 <= wc < 4294967296 ->
  iswcntrl wc = in_range 0 31 wc || in_range 127 159 wc || in_range 8232 8233 wc
                || in_range 65529 65531 wc.
Proof.
  intros Hwc. unfold iswcntrl. rewrite !range_test by lia. unfold in_range. lia.
Qed.

Lemma iswprint_ranges wc :
  0 <= wc < 4294967296 ->
  iswprint wc = in_range 32 126 wc || in_range 160 8231 wc || in_range 8234 55295 wc
                || in_range 57344 65528 wc
                || (in_range 65532 1114111 wc && (wc mod 65536 <? 65534)).
Proof.
  intros Hwc. unfold iswprint. rewrite land_127, land_fffe, !range_test by lia.
  replace (1114111 - 65532 <? u32 (wc - 65532)) with (negb (in_range 65532 1114111 wc))
    by (unfold in_range, u32; zlia).
  destruct (Z.ltb_spec wc 255).
  - rewrite u32_small by lia. unfold in_range. zlia.
  - assert (Hm : (wc mod 65536 - wc mod 2 =? 65534) = (65534 <=? wc mod 65536)) by zlia.
    rewrite Hm. unfold in_range. clear Hm. pose proof (Z.mod_pos_bound wc 65536).
    destruct (Z.leb_spec wc 65535); [rewrite (Z.mod_small wc 65536) in * by lia|];
      repeat case_if; lia.
Qed.

(** The wide classes: on every wint_t value printable and control
    characters are disjoint; what is neither is a surrogate, a noncharacter or
    beyond U+10FFFF; on ASCII the wide functions are the byte functions. *)
Theorem iswprint_partition wc :
  0 <= wc < 4294967296 ->
  iswprint wc && iswcntrl wc = false /\
  (iswprint wc || iswcntrl wc
   = negb (in_range 55296 57343 wc || (1114111 <? wc)
           || (65534 <=? wc mod 65536))) /\
  (wc < 128 ->
   iswprint wc = isprint wc /\ iswcntrl wc = iscntrl wc /\ iswspace wc = isspace wc /\
   iswgraph wc = isgraph wc /\ iswdigit wc = isdigit wc /\ iswxdigit wc = isxdigit wc).
Proof.
  intros Hwc. split; [|split].
  - rewrite iswprint_ranges, iswcntrl_ranges by assumption. unfold in_range. zlia.
  - rewrite iswprint_ranges, iswcntrl_ranges by assumption. unfold in_range. zlia.
  - intros Ha. assert (H : (Bool.eqb (iswprint wc) (isprint wc) &&
      Bool.eqb (iswcntrl wc) (iscntrl wc) && Bool.eqb (iswspace wc) (isspace wc) &&
      Bool.eqb (iswgraph wc) (isgraph wc) && Bool.eqb (iswdigit wc) (isdigit wc) &&
      Bool.eqb (iswxdigit wc) (isxdigit wc)) = true).
    { assert (Hr : 0 <= wc < 0 + Z.of_nat 128) by lia. clear -Hr. revert wc Hr.
      apply zrange_check. vm_compute. reflexivity. }
    rewrite !andb_true_iff, !Bool.eqb_true_iff in H. tauto.
Qed.

Lemma iswprint_partition_witness : iswprint 57343 || iswcntrl 57343 = false.
Proof.
  refine (eq_trans (proj1 (proj2 (iswprint_partition 57343 _))) _); [lia|reflexivity].
Defined.
