(* ===== verification/Substring.v ===== *)
(** * Substring search

    Models strstr and memmem (src/string/strstr.c, memmem.c), the wide wcsstr
    (wcsstr.c) with the wmemcmp, wmemchr, wcslen and wcschr it uses, and
    strcasecmp, strncasecmp and strcasestr.  The first three are the searches for
    needles of two, three and four bytes, which slide the needle's length over the
    text in one integer, and the two-way search for longer ones, with its
    maximal-suffix scans, its table of last positions, its period test and the
    memory of what is already known to match.

    The arithmetic of the factorisation is size_t arithmetic, with the code's
    use of [-1] as the index before the first.  A loop over a string takes
    [fuel]; the theorems give a fuel that is enough from the two lengths.  The
    array [shift] is not initialised in C: its first contents are an argument. *)

From Stdlib Require Import ZArith Lia ZifyBool List Bool.
From S2P Require Import Prelude MemCopy Strings Words.
From S2P Require Ctype.
Import ListNotations.
Open Scope Z_scope.

(** ** The code *)

Definition u16 (z : Z) : Z := z mod 65536.

Definition twobyte_strstr (fuel : nat) (m : mem) (h n : Z) : option (option Z) :=
  let pair a := u16 (Z.lor (Z.shiftl (m a) 8) (m (a + 1))) in
  let nw := pair n in
  let? h := loop (fun '(h, hw) =>
      if negb (m h =? 0) && negb (hw =? nw)
      then inl (h + 1, u16 (Z.lor (Z.shiftl hw 8) (m (h + 1)))) else inr h)
    fuel (h + 1, pair h) in
  Some (if m h =? 0 then None else Some (h - 1)).

Definition threebyte_strstr (fuel : nat) (m : mem) (h n : Z) : option (option Z) :=
  let triple a := Z.lor (Z.lor (Z.shiftl (m a) 24) (Z.shiftl (m (a + 1)) 16)) (Z.shiftl (m (a + 2)) 8) in
  let nw := triple n in
  let? h := loop (fun '(h, hw) =>
      if negb (m h =? 0) && negb (hw =? nw)
      then inl (h + 1, u32 (Z.shiftl (Z.lor hw (m (h + 1))) 8)) else inr h)
    fuel (h + 2, triple h) in
  Some (if m h =? 0 then None else Some (h - 2)).

Definition fourbyte_strstr (fuel : nat) (m : mem) (h n : Z) : option (option Z) :=
  let quad a := Z.lor (Z.lor (Z.lor (Z.shiftl (m a) 24) (Z.shiftl (m (a + 1)) 16))
                             (Z.shiftl (m (a + 2)) 8)) (m (a + 3)) in
  let nw := quad n in
  let? h := loop (fun '(h, hw) =>
      if negb (m h =? 0) && negb (hw =? nw)
      then inl (h + 1, u32 (Z.lor (Z.shiftl hw 8) (m (h + 1)))) else inr h)
    fuel (h + 3, quad h) in
  Some (if m h =? 0 then None else Some (h - 3)).

(** One round of a maximal-suffix scan, for the comparison [gt]; the state is
    ip, jp, k and p, the result ip and p. *)
Definition suffix_step (gt : Z -> Z -> bool) (m : mem) (n l : Z) (t : Z * Z * Z * Z)
  : (Z * Z * Z * Z) + Z * Z :=
  let '(ip, jp, k, p) := t in
  if u64 (jp + k) <? l then
    let a := m (n + u64 (ip + k)) in
    let b := m (n + u64 (jp + k)) in
    if a =? b then
      if k =? p then inl (ip, u64 (jp + p), 1, p) else inl (ip, jp, u64 (k + 1), p)
    else if gt a b then inl (ip, u64 (jp + k), 1, u64 (u64 (jp + k) - ip))
    else inl (jp, u64 (jp + 1), 1, 1)
  else inr (ip, p).

Definition maximal_suffix (gt : Z -> Z -> bool) (fuel : nat) (m : mem) (n l : Z)
  : option (Z * Z) :=
  loop (suffix_step gt m n l) fuel (u64 (-1), 0, 1, 1).

(** The factorisation of the needle: ms, p and mem0; [cmp] is memcmp or wmemcmp. *)
Definition factorize (cmp : mem -> Z -> Z -> Z -> Z) (fuel : nat) (m : mem) (n l : Z)
  : option (Z * Z * Z) :=
  let? (ms, p0) := maximal_suffix Z.gtb fuel m n l in
  let? (ip, p) := maximal_suffix Z.ltb fuel m n l in
  let '(ms, p) := if u64 (ms + 1) <? u64 (ip + 1) then (ip, p) else (ms, p0) in
  Some (if negb (cmp m n (n + p) (u64 (ms + 1)) =? 0)
        then (ms, u64 (Z.max ms (u64 (u64 (l - ms) - 1)) + 1), 0)
        else (ms, p, u64 (l - p))).

(** The two comparisons of a round: the right part forwards, then the left part
    backwards.  [more k] is the code's test that [k] is before the needle's end.
    The result is the next position and memory, or the match. *)
Definition right_scan (more : Z -> bool) (fuel : nat) (m : mem) (h n k : Z) : option Z :=
  loop (fun k => if more k && (m (n + k) =? m (h + k)) then inl (u64 (k + 1)) else inr k) fuel k.

Definition left_scan (fuel : nat) (m : mem) (h n mm k : Z) : option Z :=
  loop (fun k => if (mm <? k) && (m (n + u64 (k - 1)) =? m (h + u64 (k - 1)))
                 then inl (u64 (k - 1)) else inr k) fuel k.

Definition compare_halves (more : Z -> bool) (fuel : nat) (m : mem) (h n ms p mem0 mm : Z)
  : option (Z * Z + Z) :=
  let? k := right_scan more fuel m h n (Z.max (u64 (ms + 1)) mm) in
  if more k then Some (inl (h + u64 (k - ms), 0))
  else
    let? k := left_scan fuel m h n mm (u64 (ms + 1)) in
    Some (if k <=? mm then inr h else inl (h + p, mem0)).

(** The last-position table: the set of the needle's bytes, and for each of them
    the position after its last occurrence. *)
Definition table : Type := byteset * (Z -> Z).
Definition table_enter (t : table) (b i : Z) : table :=
  (bit_set (fst t) b, fun x => if x =? b then i + 1 else snd t x).

(** What the last byte of the window at [h] allows: a shift, or a comparison. *)
Definition last_byte_shift (t : table) (m : mem) (h l mm : Z) : option Z :=
  let c := m (h + u64 (l - 1)) in
  if bit_test (fst t) c then
    let k := u64 (l - snd t c) in
    if negb (k =? 0) then Some (Z.max k mm) else None
  else Some l.

Definition twoway_round (more : Z -> bool) (fuel : nat) (m : mem) (n l ms p mem0 : Z) (t : table)
    (h z mm : Z) : (Z * Z * Z) + option (option Z) :=
  match last_byte_shift t m h l mm with
  | Some k => inl (h + k, z, 0)
  | None => match compare_halves more fuel m h n ms p mem0 mm with
            | Some (inl (h, mm)) => inl (h, z, mm)
            | Some (inr h) => inr (Some (Some h))
            | None => inr None
            end
  end.

(** The check for the end of the text: [None] is "return 0", else the new [z]. *)
Definition grow_end (chr : mem -> Z -> Z -> option Z) (m : mem) (h z l : Z) : option Z :=
  if u64 (z - h) <? l then
    let grow := Z.lor l 63 in
    match chr m z grow with
    | Some z2 => if u64 (z2 - h) <? l then None else Some z2
    | None => Some (z + grow)
    end
  else Some z.

Definition twoway_strstr (fuel : nat) (m : mem) (shift0 : Z -> Z) (h n : Z) : option (option Z) :=
  let? (l, t) := loop (fun '(l, t) =>
      if negb (m (n + l) =? 0) && negb (m (h + l) =? 0)
      then inl (u64 (l + 1), table_enter t (m (n + l)) l) else inr (l, t))
    fuel (0, (byteset_empty, shift0)) in
  if negb (m (n + l) =? 0) then Some None
  else
    let? (ms, p, mem0) := factorize memcmp fuel m n l in
    let? r := loop (fun '(h, z, mm) =>
        match grow_end (fun m s k => memchr m s 0 k) m h z l with
        | None => inr (Some None)
        | Some z => twoway_round (fun k => negb (m (n + k) =? 0)) fuel m n l ms p mem0 t h z mm
        end) fuel (h, h, 0) in
    r.

Definition strstr (fuel : nat) (m : mem) (shift0 : Z -> Z) (h n : Z) : option (option Z) :=
  if m n =? 0 then Some (Some h)
  else
    let? r := strchr fuel m h (m n) in
    match r with
    | None => Some None
    | Some h =>
        if m (n + 1) =? 0 then Some (Some h)
        else if m (h + 1) =? 0 then Some None
        else if m (n + 2) =? 0 then twobyte_strstr fuel m h n
        else if m (h + 2) =? 0 then Some None
        else if m (n + 3) =? 0 then threebyte_strstr fuel m h n
        else if m (h + 3) =? 0 then Some None
        else if m (n + 4) =? 0 then fourbyte_strstr fuel m h n
        else twoway_strstr fuel m shift0 h n
    end.

(** memmem: the text has [k] bytes. *)
Definition twobyte_memmem (m : mem) (h k n : Z) : option Z :=
  let pair a := u16 (Z.lor (Z.shiftl (m a) 8) (m (a + 1))) in
  let nw := pair n in
  let '(h, k, hw) :=
    while (fun '(h, k, hw) => negb (k =? 0) && negb (hw =? nw))
          (fun '(h, k, hw) => (h + 1, u64 (k - 1), u16 (Z.lor (Z.shiftl hw 8) (m h))))
          (Z.to_nat (u64 (k - 2))) (h + 2, u64 (k - 2), pair h) in
  if hw =? nw then Some (h - 2) else None.

Definition threebyte_memmem (m : mem) (h k n : Z) : option Z :=
  let triple a := Z.lor (Z.lor (Z.shiftl (m a) 24) (Z.shiftl (m (a + 1)) 16)) (Z.shiftl (m (a + 2)) 8) in
  let nw := triple n in
  let '(h, k, hw) :=
    while (fun '(h, k, hw) => negb (k =? 0) && negb (hw =? nw))
          (fun '(h, k, hw) => (h + 1, u64 (k - 1), u32 (Z.shiftl (Z.lor hw (m h)) 8)))
          (Z.to_nat (u64 (k - 3))) (h + 3, u64 (k - 3), triple h) in
  if hw =? nw then Some (h - 3) else None.

Definition fourbyte_memmem (m : mem) (h k n : Z) : option Z :=
  let quad a := Z.lor (Z.lor (Z.lor (Z.shiftl (m a) 24) (Z.shiftl (m (a + 1)) 16))
                             (Z.shiftl (m (a + 2)) 8)) (m (a + 3)) in
  let nw := quad n in
  let '(h, k, hw) :=
    while (fun '(h, k, hw) => negb (k =? 0) && negb (hw =? nw))
          (fun '(h, k, hw) => (h + 1, u64 (k - 1), u32 (Z.lor (Z.shiftl hw 8) (m h))))
          (Z.to_nat (u64 (k - 4))) (h + 4, u64 (k - 4), quad h) in
  if hw =? nw then Some (h - 4) else None.

Definition twoway_memmem (fuel : nat) (m : mem) (shift0 : Z -> Z) (h z n l : Z)
  : option (option Z) :=
  let '(_, t) :=
    while (fun '(i, t) => i <? l) (fun '(i, t) => (u64 (i + 1), table_enter t (m (n + i)) i))
          (Z.to_nat l) (0, (byteset_empty, shift0)) in
  let? (ms, p, mem0) := factorize memcmp fuel m n l in
  let? r := loop (fun '(h, _, mm) =>
      if u64 (z - h) <? l then inr (Some None)
      else twoway_round (fun k => k <? l) fuel m n l ms p mem0 t h z mm) fuel (h, z, 0) in
  r.

Definition memmem (fuel : nat) (m : mem) (shift0 : Z -> Z) (h0 k n0 l : Z) : option (option Z) :=
  if l =? 0 then Some (Some h0)
  else if k <? l then Some None
  else
    match memchr m h0 (m n0) k with
    | None => Some None
    | Some h =>
        if l =? 1 then Some (Some h)
        else
          let k := u64 (k - u64 (h - h0)) in
          if k <? l then Some None
          else if l =? 2 then Some (twobyte_memmem m h k n0)
          else if l =? 3 then Some (threebyte_memmem m h k n0)
          else if l =? 4 then Some (fourbyte_memmem m h k n0)
          else twoway_memmem fuel m shift0 h (h + k) n0 l
    end.

(** The wide functions; pointers count in wchar_t. *)
Definition wmemcmp (m : mem) (l r n : Z) : Z :=
  let '(n, l, r) :=
    while (fun '(n, l, r) => negb (n =? 0) && (m l =? m r))
          (fun '(n, l, r) => (n - 1, l + 1, r + 1)) (Z.to_nat n) (n, l, r) in
  if negb (n =? 0) then (if m l <? m r then -1 else b2z (m r <? m l)) else 0.

Definition wmemchr (m : mem) (s c n : Z) : option Z :=
  let '(n, s) :=
    while (fun '(n, s) => negb (n =? 0) && negb (m s =? c))
          (fun '(n, s) => (n - 1, s + 1)) (Z.to_nat n) (n, s) in
  if negb (n =? 0) then Some s else None.

Definition wcslen (fuel : nat) (m : mem) (s : Z) : option Z :=
  let? e := loop (fun a => if m a =? 0 then inr a else inl (a + 1)) fuel s in Some (e - s).

Definition wcschr (fuel : nat) (m : mem) (s c : Z) : option (option Z) :=
  if c =? 0 then let? k := wcslen fuel m s in Some (Some (s + k))
  else
    let? e := loop (fun s => if negb (m s =? 0) && negb (m s =? c) then inl (s + 1) else inr s)
                fuel s in
    Some (if m e =? 0 then None else Some e).

Definition twoway_wcsstr (fuel : nat) (m : mem) (h n : Z) : option (option Z) :=
  let? l := loop (fun l => if negb (m (n + l) =? 0) && negb (m (h + l) =? 0)
                           then inl (u64 (l + 1)) else inr l) fuel 0 in
  if negb (m (n + l) =? 0) then Some None
  else
    let? (ms, p, mem0) := factorize wmemcmp fuel m n l in
    let? r := loop (fun '(h, z, mm) =>
        match grow_end (fun m s k => wmemchr m s 0 k) m h z l with
        | None => inr (Some None)
        | Some z =>
            match compare_halves (fun k => negb (m (n + k) =? 0)) fuel m h n ms p mem0 mm with
            | Some (inl (h, mm)) => inl (h, z, mm)
            | Some (inr h) => inr (Some (Some h))
            | None => inr None
            end
        end) fuel (h, h, 0) in
    r.

Definition wcsstr (fuel : nat) (m : mem) (h n : Z) : option (option Z) :=
  if m n =? 0 then Some (Some h)
  else if m h =? 0 then Some None
  else
    let? r := wcschr fuel m h (m n) in
    match r with
    | None => Some None
    | Some h =>
        if m (n + 1) =? 0 then Some (Some h)
        else if m (h + 1) =? 0 then Some None
        else twoway_wcsstr fuel m h n
    end.

(** Without case, for the C locale's letters. *)
Definition same_fold (a b : Z) : bool := (a =? b) || (Ctype.tolower a =? Ctype.tolower b).

Definition strcasecmp (fuel : nat) (m : mem) (l r : Z) : option Z :=
  let? (l, r) := loop (fun '(l, r) =>
      if negb (m l =? 0) && negb (m r =? 0) && same_fold (m l) (m r)
      then inl (l + 1, r + 1) else inr (l, r)) fuel (l, r) in
  Some (Ctype.tolower (m l) - Ctype.tolower (m r)).

Definition strncasecmp (m : mem) (l r n : Z) : Z :=
  if n =? 0 then 0
  else
    let '(l, r, n) :=
      while (fun '(l, r, n) => negb (m l =? 0) && negb (m r =? 0) && negb (n =? 0) &&
                               same_fold (m l) (m r))
            (fun '(l, r, n) => (l + 1, r + 1, n - 1)) (Z.to_nat (n - 1)) (l, r, n - 1) in
    Ctype.tolower (m l) - Ctype.tolower (m r).

Definition strcasestr (fuel : nat) (m : mem) (h n : Z) : option (option Z) :=
  let? l := strlen fuel m n in
  if l =? 0 then Some (Some h)
  else loop (fun h => if negb (m h =? 0)
                      then if strncasecmp m h n l =? 0 then inr (Some h) else inl (h + 1)
                      else inr None) fuel h.

(** ** The factorisation *)

Section Factorize.
Variables (m : mem) (n l : Z).
Hypothesis Hl : 1 <= l < 2 ^ 62.
Let x (i : Z) : Z := m (n + i).

Section Scan.
Variables (gt : Z -> Z -> bool) (sg : Z -> Z).
Hypothesis Hgt : forall a b, gt a b = (sg b <? sg a).
Hypothesis Hinj : forall a b, sg a = sg b -> a = b.
Let f (i : Z) : Z := sg (x i).

(** The state of the loop, for a scan in the sense of [scanning]. *)
Definition scan_state (t : Z * Z * Z * Z) : Prop :=
  let '(ip, jp, k, p) := t in
  exists a, ip = u64 (a - 1) /\ 0 <= a <= jp /\ scanning f l a (jp + 1) (k - 1) p.

Definition scan_left (t : Z * Z * Z * Z) : nat :=
  let '(ip, jp, k, p) := t in Z.to_nat (2 * l - (u64 (ip + 1) + jp + k)).

Lemma scan_indices ip jp k p a :
  ip = u64 (a - 1) -> 0 <= a <= jp -> scanning f l a (jp + 1) (k - 1) p ->
  u64 (ip + 1) = a /\ u64 (ip + k) = a + (k - 1) /\ u64 (jp + k) = jp + k /\
  1 <= k <= p /\ p <= jp + 1 - a /\ jp + k <= l.
Proof.
  intros -> Ha [Ha' Hk He (q & Hq & Ej) _ _ _ _].
  assert (p <= jp + 1 - a) by nia.
  unfold u64. repeat split; zlia.
Qed.

Lemma suffix_step_ok t :
  scan_state t ->
  match suffix_step gt m n l t with
  | inl t' => scan_state t' /\ (scan_left t' < scan_left t)%nat
  | inr (ip, p) => exists a, ip = u64 (a - 1) /\ 0 <= a < l /\ maximal f l a p
  end.
Proof.
  destruct t as [[[ip jp] k] p]. intros (a & Eip & Ha & Hs).
  destruct (scan_indices ip jp k p a Eip Ha Hs) as (E1 & E2 & E3 & Hk & Hp & He).
  cbn [suffix_step]. rewrite E2, E3. unfold scan_left. rewrite E1.
  destruct (Z.ltb_spec (jp + k) l) as [Hlt|Hge].
  2: { exists a. split; [assumption|]. split; [lia|].
       apply (scanning_maximal f l a (jp + 1) (k - 1)); [assumption|lia]. }
  pose proof (scan_equal f l a (jp + 1) (k - 1) p Hs ltac:(lia)) as Heq.
  pose proof (scan_smaller f l a (jp + 1) (k - 1) p Hs ltac:(lia)) as Hsm.
  pose proof (scan_greater f l a (jp + 1) (k - 1) p Hs ltac:(lia)) as Hgr.
  replace (jp + 1 + (k - 1)) with (jp + k) in * by lia.
  unfold f, x in Heq, Hsm, Hgr.
  destruct (Z.eqb_spec (m (n + (a + (k - 1)))) (m (n + (jp + k)))) as [E|E].
  - rewrite E in Heq. destruct (Heq eq_refl) as [H1 H2].
    destruct (Z.eqb_spec k p) as [->|Hne].
    + rewrite (u64_small (jp + p)) by lia. rewrite E1. split; [|lia].
      exists a. split; [assumption|]. split; [lia|].
      replace (jp + p + 1) with (jp + 1 + p) by lia. apply H1. lia.
    + rewrite (u64_small (k + 1)) by lia. rewrite E1. split; [|lia].
      exists a. split; [assumption|]. split; [lia|].
      replace (k + 1 - 1) with (k - 1 + 1) by lia. apply H2. lia.
  - rewrite Hgt. destruct (Z.ltb_spec (sg (m (n + (jp + k)))) (sg (m (n + (a + (k - 1)))))) as [H|H].
    + assert (Ep : u64 (jp + k - ip) = jp + k + 1 - a) by (subst ip; unfold u64; zlia).
      rewrite E1, Ep. split; [|lia].
      exists a. split; [assumption|]. split; [lia|]. now apply Hsm.
    + assert (Hlt' : sg (m (n + (a + (k - 1)))) < sg (m (n + (jp + k)))).
      { enough (sg (m (n + (a + (k - 1)))) <> sg (m (n + (jp + k)))) by lia.
        intros E'. now apply E, Hinj. }
      rewrite (u64_small (jp + 1)) by lia. split; [|lia].
      exists (jp + 1). split; [rewrite u64_small; lia|]. split; [lia|].
      replace (jp + 1 + 1 - 1) with (jp + 1) by lia. now apply Hgr.
Qed.

Lemma maximal_suffix_ok fuel :
  (Z.to_nat (2 * l) < fuel)%nat ->
  exists a p, maximal_suffix gt fuel m n l = Some (u64 (a - 1), p) /\ 0 <= a < l /\ maximal f l a p.
Proof.
  intros Hf. unfold maximal_suffix.
  destruct (loop_total (suffix_step gt m n l) scan_state
    (fun '(ip, p) => exists a, ip = u64 (a - 1) /\ 0 <= a < l /\ maximal f l a p) scan_left)
    with (fuel := fuel) (s := (u64 (-1), 0, 1, 1)) as ([ip p] & E & a & -> & Ha & Hm).
  - intros t Ht. pose proof (suffix_step_ok t Ht). now destruct (suffix_step gt m n l t) as [|[ip p]].
  - exists 0. split; [reflexivity|]. split; [lia|]. apply scanning_start. lia.
  - cbn [scan_left]. change (u64 (u64 (-1) + 1)) with 0. lia.
  - now exists a, p.
Qed.
End Scan.

(** What the code knows of the needle: [c = ms + 1] is a critical position, and
    either [p] is the period, remembered in [mem0], or a shift that needs none. *)
Definition factorized (ms p mem0 : Z) : Prop :=
  exists c q, ms = u64 (c - 1) /\ 0 <= c < l /\ critical_at x l c q /\
  (period x 0 l q /\ p = q /\ mem0 = l - q \/
   ~ period x 0 l q /\ p = Z.max c (l - c + 1) /\ mem0 = 0).

Variable cmp : mem -> Z -> Z -> Z -> Z.
Hypothesis Hcmp : forall a b k, 0 <= k ->
  cmp m a b k = 0 <-> forall i, 0 <= i < k -> m (a + i) = m (b + i).

Lemma factorized_of ms p a b p1 p2 :
  maximal (fun i => x i) l a p1 -> maximal (fun i => - x i) l b p2 -> 0 <= a < l -> 0 <= b < l ->
  ms = u64 (Z.max a b - 1) -> p = (if a <? b then p2 else p1) ->
  let '(ms', p', mem0) :=
    if negb (cmp m n (n + p) (u64 (ms + 1)) =? 0)
    then (ms, u64 (Z.max ms (u64 (u64 (l - ms) - 1)) + 1), 0) else (ms, p, u64 (l - p)) in
  factorized ms' p' mem0.
Proof.
  intros H1 H2 Ha Hb -> Ep. set (c := Z.max a b) in *.
  assert (Hc : critical_at x l c p).
  { subst p c. destruct (Z.ltb_spec a b) as [Hlt|Hge].
    - rewrite Z.max_r by lia.
      apply (maximal_critical x (fun i => - x i) (fun i => x i) l b p2 a p1); auto; intros; lia.
    - rewrite Z.max_l by lia.
      apply (maximal_critical x (fun i => x i) (fun i => - x i) l a p1 b p2); auto; intros; lia. }
  clearbody c. clear Ep. pose proof (cr_q _ _ _ _ Hc) as Hq. pose proof (cr_c _ _ _ _ Hc) as Hc0.
  assert (Ec : u64 (u64 (c - 1) + 1) = c) by (unfold u64; zlia). rewrite Ec.
  assert (Hper : cmp m n (n + p) c = 0 <-> period x 0 l p).
  { rewrite Hcmp by lia. split; intros H i Hi.
    - intros Hb'. destruct (Z.lt_ge_cases i c).
      + unfold x. rewrite H by lia. f_equal. lia.
      + apply (cr_period _ _ _ _ Hc); lia.
    - pose proof (H i ltac:(lia) ltac:(lia)) as E. unfold x in E. rewrite E. f_equal. lia. }
  destruct (Z.eqb_spec (cmp m n (n + p) c) 0) as [E|E]; cbn [negb].
  - exists c, p. rewrite (u64_small (l - p)) by lia. split; [reflexivity|]. split; [lia|].
    split; [assumption|]. left. tauto.
  - assert (0 < c).
    { destruct (Z.eq_dec c 0) as [->|]; [|lia]. exfalso. apply E, Hcmp; [lia|]. intros i Hi. lia. }
    exists c, p. split; [reflexivity|]. split; [lia|]. split; [assumption|]. right.
    split; [tauto|]. split; [|reflexivity].
    rewrite (u64_small (c - 1)), (u64_small (l - (c - 1))) by lia.
    rewrite (u64_small (l - (c - 1) - 1)), u64_small by lia. lia.
Qed.

Lemma factorize_ok fuel :
  (Z.to_nat (2 * l) < fuel)%nat ->
  exists ms p mem0, factorize cmp fuel m n l = Some (ms, p, mem0) /\ factorized ms p mem0.
Proof.
  intros Hf. unfold factorize.
  destruct (maximal_suffix_ok Z.gtb (fun v => v) Z.gtb_ltb ltac:(auto) fuel Hf)
    as (a & p1 & -> & Ha & H1).
  destruct (maximal_suffix_ok Z.ltb Z.opp ltac:(intros; lia) ltac:(intros; lia) fuel Hf)
    as (b & p2 & -> & Hb & H2).
  cbn [bind].
  replace (u64 (u64 (a - 1) + 1)) with a by (unfold u64; zlia).
  replace (u64 (u64 (b - 1) + 1)) with b by (unfold u64; zlia).
  pose proof (factorized_of (u64 (Z.max a b - 1)) (if a <? b then p2 else p1) a b p1 p2
    H1 H2 Ha Hb eq_refl eq_refl) as H.
  destruct (Z.ltb_spec a b); [rewrite Z.max_r in H by lia | rewrite Z.max_l in H by lia];
    destruct (negb _); do 3 eexists; (split; [reflexivity|exact H]).
Qed.

(** ** One window *)

Variable more : Z -> bool.
Hypothesis Hmore : forall k, 0 <= k <= l -> more k = (k <? l).

Lemma right_scan_ok fuel h k0 :
  0 <= k0 <= l -> (Z.to_nat l < fuel)%nat ->
  exists k, right_scan more fuel m h n k0 = Some k /\ k0 <= k <= l /\
            matched x m h k0 k /\ (k < l -> m (h + k) <> x k).
Proof.
  intros Hk0 Hf. unfold right_scan. apply (loop_total _
    (fun k => k0 <= k <= l /\ matched x m h k0 k) _ (fun k => Z.to_nat (l - k))).
  - intros k [Hk Hm]. rewrite Hmore by lia.
    destruct (Z.ltb_spec k l) as [Hlt|Hge]; cbn [andb]; [|repeat split; lia || assumption].
    destruct (Z.eqb_spec (m (n + k)) (m (h + k))) as [E|E].
    + rewrite u64_small by lia. split; [|lia]. split; [lia|]. intros j Hj.
      destruct (Z.eq_dec j k) as [->|]; [now symmetry|apply Hm; lia].
    + repeat split; try lia; [assumption|]. intros _ E'. now apply E.
  - split; [lia|]. intros j Hj. lia.
  - lia.
Qed.

Lemma left_scan_ok fuel h mm c :
  0 <= mm -> 0 <= c <= l -> (Z.to_nat l < fuel)%nat ->
  exists k, left_scan fuel m h n mm c = Some k /\ 0 <= k <= c /\
            matched x m h k c /\ (mm < k -> m (h + (k - 1)) <> x (k - 1)).
Proof.
  intros Hmm Hc Hf. unfold left_scan. apply (loop_total _
    (fun k => 0 <= k <= c /\ matched x m h k c) _ Z.to_nat).
  - intros k [Hk Hm].
    destruct (Z.ltb_spec mm k) as [Hlt|Hge]; cbn [andb]; [|repeat split; lia || assumption].
    rewrite u64_small by lia.
    destruct (Z.eqb_spec (m (n + (k - 1))) (m (h + (k - 1)))) as [E|E].
    + split; [|lia]. split; [lia|]. intros j Hj.
      destruct (Z.eq_dec j (k - 1)) as [->|]; [now symmetry|apply Hm; lia].
    + repeat split; try lia; [assumption|]. intros _ E'. now apply E.
  - split; [lia|]. intros j Hj. lia.
  - lia.
Qed.

(** What [mem] says: nothing, or that the first [mem0] letters match. *)
Definition remembered (mem0 h mm : Z) : Prop :=
  mm = 0 \/ mm = mem0 /\ 0 < mm /\ matched x m h 0 mm.

(** A step of the search: past no occurrence, and by at most the needle. *)
Definition advances (mem0 h h' mm' : Z) : Prop :=
  h < h' <= h + l /\ (forall i, h <= i < h' -> ~ occurs x l m i) /\ remembered mem0 h' mm'.

Lemma matched_app T i a b c : matched x T i a b -> matched x T i b c -> matched x T i a c.
Proof. intros H1 H2 j Hj. destruct (Z.lt_ge_cases j b); [apply H1|apply H2]; lia. Qed.

Lemma compare_halves_ok fuel h ms p mem0 mm :
  factorized ms p mem0 -> remembered mem0 h mm -> (Z.to_nat l < fuel)%nat ->
  exists r, compare_halves more fuel m h n ms p mem0 mm = Some r /\
  match r with
  | inr a => a = h /\ occurs x l m h
  | inl (h', mm') => advances mem0 h h' mm'
  end.
Proof.
  intros (c & q & -> & Hc & Hcr & Hp) Hmm Hf. unfold compare_halves.
  pose proof (cr_q _ _ _ _ Hcr) as Hq.
  assert (Hmr : 0 <= mm <= l /\ matched x m h 0 mm).
  { destruct Hmm as [->|(-> & Hpos & Hm)]; [split; [lia|intros j Hj; lia]|].
    split; [destruct Hp as [(_ & _ & ->)|(_ & _ & ->)]; lia|assumption]. }
  destruct Hmr as [Hmr Hpre].
  assert (Ec : u64 (u64 (c - 1) + 1) = c) by (unfold u64; zlia). rewrite Ec.
  destruct (right_scan_ok fuel h (Z.max c mm) ltac:(lia) Hf) as (k & -> & Hk & Hm & Hn).
  cbn [bind]. rewrite Hmore by lia.
  assert (Hright : matched x m h c k).
  { intros j Hj. destruct (Z.lt_ge_cases j mm); [apply Hpre|apply Hm]; lia. }
  destruct (Z.ltb_spec k l) as [Hlt|Hge].
  - eexists. split; [reflexivity|]. cbv beta iota.
    replace (u64 (k - u64 (c - 1))) with (k - c + 1) by (unfold u64; zlia).
    split; [lia|]. split; [|now left]. intros i Hi.
    replace i with (h + (i - h)) by lia. apply (skip_right x l c q Hcr m h k); auto; lia.
  - replace k with l in * by lia.
    destruct (left_scan_ok fuel h mm c ltac:(lia) ltac:(lia) Hf) as (j & -> & Hj & Hjm & Hjn).
    cbn [bind]. eexists. split; [reflexivity|]. destruct (Z.leb_spec j mm) as [Hle|Hgt].
    + split; [reflexivity|]. apply (matched_app m h 0 c l); [|assumption].
      intros i Hi. destruct (Z.lt_ge_cases i mm); [apply Hpre|apply Hjm]; lia.
    + assert (H0 : ~ occurs x l m h) by (intros Ho; apply Hjn; [lia|apply Ho; lia]).
      unfold advances. destruct Hp as [(Hper & -> & ->)|(Hper & -> & ->)].
      * split; [lia|]. split.
        -- intros i Hi. destruct (Z.eq_dec i h) as [->|]; [assumption|].
           replace i with (h + (i - h)) by lia. apply (skip_period x l c q Hcr m h); auto; lia.
        -- destruct (Z.eq_dec (l - q) 0) as [->|]; [now left|]. right. split; [reflexivity|].
           split; [lia|]. now apply (memory_after x l c q Hcr).
      * split; [lia|]. split; [|now left].
        intros i Hi. destruct (Z.eq_dec i h) as [->|]; [assumption|].
        replace i with (h + (i - h)) by lia. apply (skip_long x l c q Hcr m h); auto; lia.
Qed.

(** ** The last byte of the window *)

(** The table of the needle's first [i] bytes. *)
Definition table_of (i : Z) (t : table) : Prop :=
  length (fst t) = 4%nat /\
  forall b, 0 <= b < 256 ->
    if bit_test (fst t) b
    then 1 <= snd t b <= i /\ x (snd t b - 1) = b /\ forall j, snd t b <= j < i -> x j <> b
    else forall j, 0 <= j < i -> x j <> b.

Lemma table_enter_ok t i : 0 <= x i < 256 -> 0 <= i -> table_of i t -> table_of (i + 1) (table_enter t (x i) i).
Proof.
  intros Hx Hi [Hlen Ht]. destruct t as [bs sh]. unfold table_enter. cbn [fst snd] in *.
  split; [now apply bit_set_length|]. intros b Hb. cbn [fst snd]. rewrite bit_set_test by assumption.
  specialize (Ht b Hb). destruct (Z.eqb_spec b (x i)) as [->|Hne]; cbn [orb].
  - split; [lia|]. split; [f_equal; lia|]. intros j Hj. lia.
  - destruct (bit_test bs b).
    + destruct Ht as (H1 & H2 & H3). split; [lia|]. split; [assumption|]. intros j Hj.
      destruct (Z.eq_dec j i) as [->|]; [congruence|apply H3; lia].
    + intros j Hj. destruct (Z.eq_dec j i) as [->|]; [congruence|apply Ht; lia].
Qed.

Lemma table_start sh : table_of 0 (byteset_empty, sh).
Proof.
  split; [reflexivity|]. intros b Hb. cbn [fst snd]. rewrite bit_test_empty. intros j Hj. lia.
Qed.

Lemma last_byte_shift_ok t h mm ms p mem0 :
  (forall a, 0 <= m a < 256) -> table_of l t -> factorized ms p mem0 -> remembered mem0 h mm ->
  match last_byte_shift t m h l mm with
  | Some k => advances mem0 h (h + k) 0
  | None => m (h + (l - 1)) = x (l - 1)
  end.
Proof.
  intros Hm [_ Ht] (c & q & -> & Hc & Hcr & Hp) Hmm. unfold last_byte_shift.
  pose proof (cr_q _ _ _ _ Hcr) as Hq.
  rewrite (u64_small (l - 1)) by lia.
  specialize (Ht (m (h + (l - 1))) (Hm _)). set (b := m (h + (l - 1))) in *.
  destruct (bit_test (fst t) b).
  - destruct Ht as (H1 & H2 & H3). rewrite u64_small by lia.
    destruct (Z.eqb_spec (l - snd t b) 0) as [E|E]; cbn [negb].
    { rewrite <- H2. f_equal. lia. }
    assert (Hmml : mm <= l).
    { destruct Hmm as [->|(-> & Hpos & _)]; [lia|].
      destruct Hp as [(_ & _ & ->)|(_ & _ & ->)]; lia. }
    split; [lia|]. split; [|now left]. intros i Hi Ho.
    destruct (Z.lt_ge_cases (i - h) (l - snd t b)) as [Hlt|Hge].
    + apply (H3 (l - 1 - (i - h))); [lia|]. rewrite <- (Ho (l - 1 - (i - h))) by lia.
      unfold b. f_equal. lia.
    + destruct Hmm as [->|(-> & Hpos & Hpre)]; [lia|].
      destruct Hp as [(Hper & -> & ->)|(_ & _ & ->)]; [|lia].
      apply (skip_memory x l c q Hcr m h (i - h)); auto; try lia.
      * intros Eb. apply (H3 (l - 1)); [lia|]. symmetry. exact Eb.
      * now replace (h + (i - h)) with i by lia.
  - split; [lia|]. split; [|now left]. intros i Hi Ho.
    apply (Ht (l - 1 - (i - h))); [lia|]. rewrite <- (Ho (l - 1 - (i - h))) by lia.
    unfold b. f_equal. lia.
Qed.

(** ** The two-way loops *)

Lemma twoway_round_ok fuel t h z mm ms p mem0 :
  (forall a, 0 <= m a < 256) -> table_of l t -> factorized ms p mem0 -> remembered mem0 h mm ->
  (Z.to_nat l < fuel)%nat ->
  match twoway_round more fuel m n l ms p mem0 t h z mm with
  | inl (h', z', mm') => z' = z /\ advances mem0 h h' mm'
  | inr r => r = Some (Some h) /\ occurs x l m h
  end.
Proof.
  intros Hm Ht Hfa Hmm Hf. unfold twoway_round.
  pose proof (last_byte_shift_ok t h mm ms p mem0 Hm Ht Hfa Hmm) as Hs.
  destruct (last_byte_shift t m h l mm); [now split|].
  destruct (compare_halves_ok fuel h ms p mem0 mm Hfa Hmm Hf) as (r & -> & Hr).
  destruct r as [[h' mm']|a]; [now split|]. destruct Hr as [-> Hr]. now split.
Qed.

(** The first occurrence at or after [h0] that ends before [E]. *)
Definition first_occ (h0 E : Z) (r : option Z) : Prop :=
  match r with
  | Some a => h0 <= a /\ a + l <= E /\ occurs x l m a /\ forall i, h0 <= i < a -> ~ occurs x l m i
  | None => forall i, h0 <= i -> i + l <= E -> ~ occurs x l m i
  end.

(** The state of a search from [h0] in a text that ends at [E]. *)
Definition searching (mem0 h0 E : Z) (t : Z * Z * Z) : Prop :=
  let '(h, z, mm) := t in
  h0 <= h <= z /\ z <= E /\ remembered mem0 h mm /\ forall i, h0 <= i < h -> ~ occurs x l m i.

Lemma searching_advances mem0 h0 E h z mm h' mm' :
  searching mem0 h0 E (h, z, mm) -> h + l <= z -> advances mem0 h h' mm' ->
  searching mem0 h0 E (h', z, mm').
Proof.
  intros (H1 & H2 & _ & H3) Hz (A1 & A2 & A3). repeat split; try lia; [assumption|].
  intros i Hi. destruct (Z.lt_ge_cases i h); [apply H3|apply A2]; lia.
Qed.

Lemma searching_found mem0 h0 E h z mm :
  searching mem0 h0 E (h, z, mm) -> h + l <= z -> occurs x l m h -> first_occ h0 E (Some h).
Proof. intros (H1 & H2 & _ & H3) Hz Ho. repeat split; try lia; assumption. Qed.

Lemma searching_end mem0 h0 E h z mm :
  searching mem0 h0 E (h, z, mm) -> E - h < l -> first_occ h0 E None.
Proof. intros (H1 & H2 & _ & H3) Hz i Hi Hb. apply H3. lia. Qed.

(** A loop whose rounds advance the window while it is in the text. *)
Lemma search_loop mem0 h0 E (body : Z * Z * Z -> (Z * Z * Z) + option (option Z)) z0 fuel :
  h0 <= z0 <= E ->
  (forall h z mm, searching mem0 h0 E (h, z, mm) ->
     match body (h, z, mm) with
     | inl (h', z', mm') => h < h' /\ searching mem0 h0 E (h', z', mm')
     | inr r => exists a, r = Some a /\ first_occ h0 E a
     end) ->
  (Z.to_nat (E - h0) < fuel)%nat ->
  exists a, (let? r := loop body fuel (h0, z0, 0) in r) = Some a /\ first_occ h0 E a.
Proof.
  intros Hz Hb Hf.
  destruct (loop_total body (searching mem0 h0 E)
    (fun r => exists a, r = Some a /\ first_occ h0 E a) (fun '(h, _, _) => Z.to_nat (E - h)))
    with (fuel := fuel) (s := (h0, z0, 0)) as (r & -> & a & -> & Ha).
  - intros [[h z] mm] Hs. specialize (Hb h z mm Hs).
    destruct (body (h, z, mm)) as [[[h' z'] mm']|]; [|assumption].
    destruct Hb as [Hlt Hs']. split; [assumption|]. destruct Hs' as (? & ? & _). lia.
  - repeat split; try lia. now left.
  - assumption.
  - cbn [bind]. now exists a.
Qed.

(** The search for the end of a terminated text never passes it. *)
Lemma grow_end_ok chr h z E :
  (forall s k, 0 <= k -> first_in m s 0 k (chr m s k)) ->
  h <= z <= E -> E - h < 2 ^ 62 -> m E = 0 -> (forall i, h <= i < E -> m i <> 0) ->
  match grow_end chr m h z l with
  | None => E - h < l
  | Some z' => h + l <= z' <= E
  end.
Proof.
  intros Hchr Hz HE H0 Hne. unfold grow_end. rewrite u64_small by lia.
  destruct (Z.ltb_spec (z - h) l) as [Hlt|Hge]; [|lia].
  assert (Hgrow : l <= Z.lor l 63).
  { pose proof (Z.add_lor_land l 63) as E0. change (Z.land l 63) with (Z.land l (Z.ones 6)) in E0.
    rewrite (Z.land_ones l 6) in E0 by lia.
    change (2 ^ 6) with 64 in E0. zlia. }
  specialize (Hchr z (Z.lor l 63) ltac:(lia)).
  destruct (chr m z (Z.lor l 63)) as [z2|]; cbn [first_in] in Hchr.
  - destruct Hchr as (H1 & H2 & H3).
    assert (z2 = E).
    { destruct (Z.lt_trichotomy z2 E) as [H|[H|H]]; [|assumption|].
      - exfalso. apply (Hne z2); [lia|assumption].
      - exfalso. apply (H3 E); [lia|assumption]. }
    subst z2. rewrite u64_small by lia. destruct (Z.ltb_spec (E - h) l); lia.
  - destruct (Z.lt_ge_cases E (z + Z.lor l 63)) as [H|H]; [|lia].
    exfalso. apply (Hchr E); [lia|assumption].
Qed.
End Factorize.

(** ** Short needles: the window in one integer *)

Section Sliding.
Variables (m : mem) (n l : Z).
Variables (wd : Z -> Z) (step : Z -> Z -> Z).
Hypothesis Hl : 1 <= l.
Hypothesis Hstep : forall a, step (wd a) (m (a + l)) = wd (a + 1).
Hypothesis Hwd : forall a, wd a = wd n <-> occurs (fun i => m (n + i)) l m a.

Lemma slide_strstr h E fuel :
  h + l <= E -> m E = 0 -> (forall i, h <= i < E -> m i <> 0) -> (Z.to_nat (E - h) < fuel)%nat ->
  exists g, loop (fun '(h, hw) => if negb (m h =? 0) && negb (hw =? wd n)
                                  then inl (h + 1, step hw (m (h + 1))) else inr h)
              fuel (h + (l - 1), wd h) = Some g /\
            first_occ m n l h E (if m g =? 0 then None else Some (g - (l - 1))).
Proof.
  intros Hh H0 Hne Hf. apply (loop_total _
    (fun '(g, hw) => h + (l - 1) <= g <= E /\ hw = wd (g - (l - 1)) /\
       forall i, h <= i < g - (l - 1) -> ~ occurs (fun i => m (n + i)) l m i)
    _ (fun '(g, _) => Z.to_nat (E - g))).
  - intros [g hw] (Hg & -> & Hn). destruct (Z.eqb_spec (m g) 0) as [E0|E0]; cbn [negb andb].
    + assert (g = E).
      { destruct (Z.eq_dec g E); [assumption|]. exfalso. apply (Hne g); [lia|assumption]. }
      subst g. rewrite E0. change (0 =? 0) with true. intros i Hi Hb. apply Hn. lia.
    + assert (Hlt : g < E) by (destruct (Z.eq_dec g E) as [->|]; [contradiction|lia]).
      destruct (Z.eqb_spec (wd (g - (l - 1))) (wd n)) as [Ew|Ew]; cbn [negb].
      * destruct (Z.eqb_spec (m g) 0); [contradiction|]. apply Hwd in Ew.
        repeat split; try lia; assumption.
      * split; [|lia]. split; [lia|]. split.
        -- replace (m (g + 1)) with (m (g - (l - 1) + l)) by (f_equal; lia).
           rewrite Hstep. f_equal. lia.
        -- intros i Hi. destruct (Z.eq_dec i (g - (l - 1))) as [->|]; [now rewrite <- Hwd|].
           apply Hn. lia.
  - split; [lia|]. split; [f_equal; lia|]. intros i Hi. lia.
  - lia.
Qed.

Lemma slide_memmem h k :
  l <= k < 2 ^ 62 ->
  exists g k' hw, while (fun '(h, k, hw) => negb (k =? 0) && negb (hw =? wd n))
          (fun '(h, k, hw) => (h + 1, u64 (k - 1), step hw (m h)))
          (Z.to_nat (u64 (k - l))) (h + l, u64 (k - l), wd h) = (g, k', hw) /\
          first_occ m n l h (h + k) (if hw =? wd n then Some (g - l) else None).
Proof.
  intros Hk. rewrite u64_small by lia.
  set (I := fun '(g, k', hw) => h + l <= g /\ 0 <= k' /\ g + k' = h + k /\ hw = wd (g - l) /\
       forall i, h <= i < g - l -> ~ occurs (fun i => m (n + i)) l m i).
  destruct (while_rule (fun '(h, k, hw) => negb (k =? 0) && negb (hw =? wd n))
    (fun '(h, k, hw) => (h + 1, u64 (k - 1), step hw (m h))) I
    (fun '(_, k, _) => Z.to_nat k) (Z.to_nat (k - l)) (h + l, k - l, wd h)) as [HI Hc].
  - intros [[g k'] hw] (H1 & H2 & H3 & -> & Hn) E. apply andb_true_iff in E as [E1 E2].
    rewrite u64_small by lia. split; [|lia]. repeat split; try lia.
    + replace (m g) with (m (g - l + l)) by (f_equal; lia). rewrite Hstep. f_equal. lia.
    + intros i Hi. destruct (Z.eq_dec i (g - l)) as [->|]; [rewrite <- Hwd; lia|]. apply Hn. lia.
  - repeat split; try lia. f_equal. lia.
  - lia.
  - destruct (while _ _ _ _) as [[g k'] hw]. destruct HI as (H1 & H2 & H3 & -> & Hn).
    exists g, k', (wd (g - l)). split; [reflexivity|].
    destruct (Z.eqb_spec (wd (g - l)) (wd n)) as [Ew|Ew].
    + apply Hwd in Ew. repeat split; try lia; assumption.
    + intros i Hi Hb. destruct (Z.eq_dec i (g - l)) as [->|]; [now rewrite <- Hwd|]. apply Hn. lia.
Qed.
End Sliding.

Section Windows.
Variable m : mem.
Hypothesis Hm : wf_mem m.

Definition word2 (a : Z) : Z := m a * 256 + m (a + 1).
Definition word3 (a : Z) : Z := m a * 16777216 + m (a + 1) * 65536 + m (a + 2) * 256.
Definition word4 (a : Z) : Z := m a * 16777216 + m (a + 1) * 65536 + m (a + 2) * 256 + m (a + 3).

Lemma shiftl_byte v k y : 0 <= k -> 0 <= y < 2 ^ k -> Z.lor (Z.shiftl v k) y = v * 2 ^ k + y.
Proof. intros Hk Hy. rewrite Z.shiftl_mul_pow2 by lia. now apply lor_add. Qed.

Lemma pair_val a : u16 (Z.lor (Z.shiftl (m a) 8) (m (a + 1))) = word2 a.
Proof.
  pose proof (Hm a). pose proof (Hm (a + 1)). rewrite shiftl_byte by lia.
  unfold u16, word2. rewrite Z.mod_small; lia.
Qed.

Lemma triple_val a :
  Z.lor (Z.lor (Z.shiftl (m a) 24) (Z.shiftl (m (a + 1)) 16)) (Z.shiftl (m (a + 2)) 8) = word3 a.
Proof.
  pose proof (Hm (a + 1)). pose proof (Hm (a + 2)). rewrite <- Z.lor_assoc.
  rewrite (Z.shiftl_mul_pow2 (m (a + 2))) by lia.
  rewrite (shiftl_byte (m (a + 1))) by lia. rewrite shiftl_byte by lia. unfold word3. lia.
Qed.

Lemma quad_val a :
  Z.lor (Z.lor (Z.lor (Z.shiftl (m a) 24) (Z.shiftl (m (a + 1)) 16)) (Z.shiftl (m (a + 2)) 8))
        (m (a + 3)) = word4 a.
Proof.
  pose proof (Hm (a + 1)). pose proof (Hm (a + 2)). pose proof (Hm (a + 3)).
  rewrite <- !Z.lor_assoc. rewrite (shiftl_byte (m (a + 2))) by lia.
  rewrite (shiftl_byte (m (a + 1))) by lia. rewrite shiftl_byte by lia. unfold word4. lia.
Qed.

Lemma word2_step a : u16 (Z.lor (Z.shiftl (word2 a) 8) (m (a + 2))) = word2 (a + 1).
Proof.
  pose proof (Hm a). pose proof (Hm (a + 1)). pose proof (Hm (a + 2)).
  rewrite shiftl_byte by lia. unfold u16, word2. replace (a + 1 + 1) with (a + 2) by lia. zlia.
Qed.

Lemma word3_step a : u32 (Z.shiftl (Z.lor (word3 a) (m (a + 3))) 8) = word3 (a + 1).
Proof.
  pose proof (Hm a). pose proof (Hm (a + 1)). pose proof (Hm (a + 2)). pose proof (Hm (a + 3)).
  replace (word3 a) with (Z.shiftl (m a * 65536 + m (a + 1) * 256 + m (a + 2)) 8)
    by (rewrite Z.shiftl_mul_pow2; unfold word3; lia).
  rewrite shiftl_byte, Z.shiftl_mul_pow2 by lia. unfold u32, word3.
  replace (a + 1 + 1) with (a + 2) by lia. replace (a + 1 + 2) with (a + 3) by lia. zlia.
Qed.

Lemma word4_step a : u32 (Z.lor (Z.shiftl (word4 a) 8) (m (a + 4))) = word4 (a + 1).
Proof.
  pose proof (Hm a). pose proof (Hm (a + 1)). pose proof (Hm (a + 2)). pose proof (Hm (a + 3)).
  pose proof (Hm (a + 4)). rewrite shiftl_byte by lia. unfold u32, word4.
  replace (a + 1 + 1) with (a + 2) by lia. replace (a + 1 + 2) with (a + 3) by lia.
  replace (a + 1 + 3) with (a + 4) by lia. zlia.
Qed.

Lemma occurs_cons (x : Z -> Z) l a :
  0 <= l -> occurs x (l + 1) m a <-> occurs x l m a /\ m (a + l) = x l.
Proof.
  intros Hl. split.
  - intros H. split; [intros j Hj|]; apply H; lia.
  - intros [H E] j Hj. destruct (Z.eq_dec j l) as [->|]; [assumption|apply H; lia].
Qed.

Lemma occurs_0 (x : Z -> Z) a : occurs x 0 m a <-> True.
Proof. split; [trivial|]. intros _ j Hj. lia. Qed.

Ltac occurs_word :=
  intros n a; cbv delta [word2 word3 word4] beta;
  lazymatch goal with |- _ <-> occurs _ ?k _ _ =>
    first [change k with (0 + 1 + 1 + 1 + 1) | change k with (0 + 1 + 1 + 1)
          | change k with (0 + 1 + 1)] end;
  rewrite !occurs_cons, occurs_0 by lia; cbv beta; change (0 + 1) with 1; change (1 + 1) with 2; change (2 + 1) with 3;
  rewrite ?Z.add_0_r;
  pose proof (Hm a); pose proof (Hm n);
  repeat match goal with |- context [m (?b + ?k)] =>
    lazymatch goal with _ : 0 <= m (b + k) < 256 |- _ => fail | _ => pose proof (Hm (b + k)) end end;
  lia.

Lemma word2_occurs : forall n a, word2 a = word2 n <-> occurs (fun i => m (n + i)) 2 m a.
Proof. occurs_word. Qed.
Lemma word3_occurs : forall n a, word3 a = word3 n <-> occurs (fun i => m (n + i)) 3 m a.
Proof. occurs_word. Qed.
Lemma word4_occurs : forall n a, word4 a = word4 n <-> occurs (fun i => m (n + i)) 4 m a.
Proof. occurs_word. Qed.
End Windows.

(** ** Occurrences in lists *)

(** The reference search: the first position at which [n] is a prefix. *)
Fixpoint prefix_of (n h : list Z) : bool :=
  match n, h with
  | [], _ => true
  | a :: n, b :: h => (a =? b) && prefix_of n h
  | _ :: _, [] => false
  end.

Fixpoint find_sub (n h : list Z) : option nat :=
  if prefix_of n h then Some O
  else match h with [] => None | _ :: h => option_map S (find_sub n h) end.

(** The list [h] has [n] at [i]. *)
Definition sub_at (n h : list Z) (i : nat) : Prop :=
  (i + length n <= length h)%nat /\ forall j, (j < length n)%nat -> nth (i + j) h 0 = nth j n 0.

Lemma prefix_of_spec n h : prefix_of n h = true <-> sub_at n h 0.
Proof.
  revert h. induction n as [|a n IH]; intros [|b h]; cbn [prefix_of].
  - split; [|trivial]. intros _. split; [lia|]. cbn [length]. lia.
  - split; [|trivial]. intros _. split; [cbn [length]; lia|]. cbn [length]. lia.
  - split; [discriminate|]. intros [H _]. cbn [length] in H. lia.
  - rewrite andb_true_iff, IH, Z.eqb_eq. split.
    + intros [-> [Hl H]]. split; [cbn [length]; lia|]. intros [|j] Hj; [reflexivity|].
      apply (H j). cbn [length] in Hj. lia.
    + intros [Hl H]. split; [symmetry; apply (H O); cbn [length]; lia|].
      split; [cbn [length] in Hl; lia|]. intros j Hj. apply (H (S j)). cbn [length]. lia.
Qed.

Lemma sub_at_S n b h i : sub_at n (b :: h) (S i) <-> sub_at n h i.
Proof. unfold sub_at. cbn [length nth Nat.add]. now rewrite <- Nat.succ_le_mono. Qed.

Lemma find_sub_spec n h :
  match find_sub n h with
  | Some i => sub_at n h i /\ forall k, (k < i)%nat -> ~ sub_at n h k
  | None => forall k, ~ sub_at n h k
  end.
Proof.
  induction h as [|b h IH]; cbn [find_sub].
  - destruct (prefix_of n []) eqn:E.
    + split; [now apply prefix_of_spec|lia].
    + intros k [Hk _]. cbn [length] in Hk. destruct n; [discriminate|]. cbn [length] in Hk. lia.
  - destruct (prefix_of n (b :: h)) eqn:E; [split; [now apply prefix_of_spec|lia]|].
    assert (H0 : ~ sub_at n (b :: h) 0) by (rewrite <- prefix_of_spec; congruence).
    destruct (find_sub n h) as [i|]; cbn [option_map].
    + destruct IH as [H1 H2]. split; [now apply sub_at_S|].
      intros [|k] Hk; [assumption|]. rewrite sub_at_S. apply H2. lia.
    + intros [|k]; [assumption|]. now rewrite sub_at_S.
Qed.

(** The memory at [h] holds the list [hs]. *)
Definition holds (m : mem) (h : Z) (hs : list Z) : Prop :=
  forall i, (i < length hs)%nat -> m (h + Z.of_nat i) = nth i hs 0.

Lemma occurs_sub m n h ns hs i :
  holds m n ns -> holds m h hs -> (i + length ns <= length hs)%nat ->
  occurs (fun j => m (n + j)) (Z.of_nat (length ns)) m (h + Z.of_nat i) <-> sub_at ns hs i.
Proof.
  intros Hn Hh Hi. split.
  - intros H. split; [assumption|]. intros j Hj. rewrite <- Hn, <- Hh by lia.
    rewrite <- (H (Z.of_nat j)) by lia. f_equal. lia.
  - intros [_ H] j Hj. replace (h + Z.of_nat i + j) with (h + Z.of_nat (i + Z.to_nat j)) by lia.
    rewrite Hh, H by lia. rewrite <- Hn by lia. f_equal. lia.
Qed.

(** The first occurrence in memory is the reference search's. *)
Lemma first_occ_find m n h ns hs r :
  holds m n ns -> holds m h hs ->
  first_occ m n (Z.of_nat (length ns)) h (h + Z.of_nat (length hs)) r ->
  r = option_map (fun i => h + Z.of_nat i) (find_sub ns hs).
Proof.
  intros Hn Hh Hr. pose proof (find_sub_spec ns hs) as Hf.
  assert (Hsub : forall i, sub_at ns hs i ->
    occurs (fun j => m (n + j)) (Z.of_nat (length ns)) m (h + Z.of_nat i)).
  { intros i Hi. apply (occurs_sub m n h ns hs); [assumption..|apply Hi|assumption]. }
  destruct r as [a|]; cbn [first_occ] in Hr.
  - destruct Hr as (H1 & H2 & H3 & H4).
    replace a with (h + Z.of_nat (Z.to_nat (a - h))) in H3 by lia.
    rewrite (occurs_sub m n h ns hs) in H3 by (assumption || lia).
    destruct (find_sub ns hs) as [i|]; cbn [option_map]; [|now destruct (Hf (Z.to_nat (a - h)))].
    destruct Hf as [H5 H6]. f_equal.
    destruct (lt_eq_lt_dec (Z.to_nat (a - h)) i) as [[Hlt|He]|Hgt]; [|lia|].
    + now destruct (H6 _ Hlt).
    + exfalso. apply (H4 (h + Z.of_nat i)); [lia|]. now apply Hsub.
  - destruct (find_sub ns hs) as [i|]; cbn [option_map]; [|reflexivity].
    destruct Hf as [H5 _]. exfalso. apply (Hr (h + Z.of_nat i)); [lia| |now apply Hsub].
    destruct H5. lia.
Qed.

(** ** Terminated words *)

(** Nonzero letters, then a zero: a C string, of bytes or of wide characters. *)
Record terminated (m : mem) (s L : Z) : Prop := {
  tm_len : 0 <= L;
  tm_nonzero : forall i, 0 <= i < L -> m (s + i) <> 0;
  tm_end : m (s + L) = 0 }.

Lemma cstr_terminated m s l : cstr m s l -> terminated m s (Z.of_nat (length l)).
Proof.
  intros H. destruct (cstr_first m s l H) as (H1 & H2 & H3). constructor; [assumption| |lia].
  intros i Hi. specialize (H3 i Hi). lia.
Qed.

Lemma cstr_holds m s l : cstr m s l -> holds m s l.
Proof. intros H i Hi. apply (cstr_nth m s l i H). lia. Qed.

Lemma terminated_zero m s L i : terminated m s L -> 0 <= i <= L -> m (s + i) =? 0 = (i =? L).
Proof.
  intros [H1 H2 H3] Hi. destruct (Z.eqb_spec i L) as [->|Hne]; [now rewrite H3|].
  apply Z.eqb_neq, H2. lia.
Qed.

Lemma terminated_nonzero m s L i : terminated m s L -> 0 <= i <= L -> negb (m (s + i) =? 0) = (i <? L).
Proof. intros H Hi. rewrite (terminated_zero m s L i H Hi). lia. Qed.

Lemma terminated_skip m s L k : terminated m s L -> 0 <= k <= L -> terminated m (s + k) (L - k).
Proof.
  intros [H1 H2 H3] Hk. constructor; [lia| |].
  - intros i Hi. rewrite <- Z.add_assoc. apply H2. lia.
  - now replace (s + k + (L - k)) with (s + L) by lia.
Qed.

(** An occurrence is a place of the first letter. *)
Lemma first_occ_skip m n l h h1 E r :
  1 <= l -> h <= h1 -> (forall i, h <= i < h1 -> m i <> m n) ->
  first_occ m n l h1 E r -> first_occ m n l h E r.
Proof.
  intros Hl Hh Hne.
  assert (Hno : forall i, h <= i < h1 -> ~ occurs (fun j => m (n + j)) l m i).
  { intros i Hi Ho. apply (Hne i Hi). rewrite <- (Z.add_0_r i), <- (Z.add_0_r n).
    apply (Ho 0). lia. }
  destruct r as [a|]; cbn [first_occ].
  - intros (H1 & H2 & H3 & H4). repeat split; try lia; [assumption|]. intros i Hi.
    destruct (Z.lt_ge_cases i h1); [apply Hno|apply H4]; lia.
  - intros H i Hi Hb. destruct (Z.lt_ge_cases i h1); [apply Hno|apply H]; lia.
Qed.

Lemma first_occ_one m n h h1 E :
  h <= h1 < E -> m h1 = m n -> (forall i, h <= i < h1 -> m i <> m n) ->
  first_occ m n 1 h E (Some h1).
Proof.
  intros Hh He Hne. apply (first_occ_skip m n 1 h h1); [lia..|assumption|].
  repeat split; try lia.
  intros j Hj. replace j with 0 by lia. rewrite !Z.add_0_r. assumption.
Qed.

Lemma first_occ_short m n l h E : E - h < l -> first_occ m n l h E None.
Proof. intros Hl i Hi Hb. lia. Qed.

(** ** strstr and memmem *)

Lemma memcmp_zero m a b k :
  0 <= k -> memcmp m a b k = 0 <-> forall i, 0 <= i < k -> m (a + i) = m (b + i).
Proof.
  intros Hk. unfold memcmp.
  destruct (while_rule (fun '(l, r, n) => negb (n =? 0) && (m l =? m r))
    (fun '(l, r, n) => (l + 1, r + 1, n - 1))
    (fun '(l, r, n) => 0 <= n <= k /\ l = a + (k - n) /\ r = b + (k - n) /\
                       forall i, 0 <= i < k - n -> m (a + i) = m (b + i))
    (fun '(_, _, n) => Z.to_nat n) (Z.to_nat k) (a, b, k)) as [HI Hc].
  - intros [[l r] n] (Hn & -> & -> & He) E. breflect. split; [|lia]. repeat split; try lia.
    intros i Hi. destruct (Z.eq_dec i (k - n)) as [->|]; [assumption|apply He; lia].
  - repeat split; lia.
  - lia.
  - destruct (while _ _ _ _) as [[l r] n]. destruct HI as (Hn & -> & -> & He).
    destruct (Z.eqb_spec n 0) as [->|Hn0]; cbn [negb andb] in Hc.
    + split; [intros _ i Hi; apply He; lia|reflexivity].
    + apply Z.eqb_neq in Hc. split; [lia|]. intros H. exfalso. apply Hc, H. lia.
Qed.

Lemma wmemcmp_zero m a b k :
  0 <= k -> wmemcmp m a b k = 0 <-> forall i, 0 <= i < k -> m (a + i) = m (b + i).
Proof.
  intros Hk. unfold wmemcmp.
  destruct (while_rule (fun '(n, l, r) => negb (n =? 0) && (m l =? m r))
    (fun '(n, l, r) => (n - 1, l + 1, r + 1))
    (fun '(n, l, r) => 0 <= n <= k /\ l = a + (k - n) /\ r = b + (k - n) /\
                       forall i, 0 <= i < k - n -> m (a + i) = m (b + i))
    (fun '(n, _, _) => Z.to_nat n) (Z.to_nat k) (k, a, b)) as [HI Hc].
  - intros [[n l] r] (Hn & -> & -> & He) E. breflect. split; [|lia]. repeat split; try lia.
    intros i Hi. destruct (Z.eq_dec i (k - n)) as [->|]; [assumption|apply He; lia].
  - repeat split; lia.
  - lia.
  - destruct (while _ _ _ _) as [[n l] r]. destruct HI as (Hn & -> & -> & He).
    destruct (Z.eqb_spec n 0) as [->|Hn0]; cbn [negb andb] in *.
    + split; [intros _ i Hi; apply He; lia|reflexivity].
    + apply Z.eqb_neq in Hc. destruct (Z.ltb_spec (m (a + (k - n))) (m (b + (k - n)))) as [E|E].
      * split; [discriminate|]. intros H. exfalso. apply Hc, H. lia.
      * destruct (Z.ltb_spec (m (b + (k - n))) (m (a + (k - n)))) as [E'|E']; [|lia].
        split; [discriminate|]. intros H. exfalso. apply Hc, H. lia.
Qed.

Section Strstr.
Variables (m : mem) (sh : Z -> Z) (h n H L : Z) (fuel : nat).
Hypothesis Hm : wf_mem m.
Hypothesis Hh : terminated m h H.
Hypothesis Hn : terminated m n L.
Hypothesis HL : 1 <= L.
Hypothesis HH : H < 2 ^ 62.
Hypothesis Hf : (Z.to_nat (2 * L + H) < fuel)%nat.

Lemma needle_more k : 0 <= k <= L -> negb (m (n + k) =? 0) = (k <? L).
Proof. apply terminated_nonzero, Hn. Qed.

Lemma strstr_table :
  exists l t, loop (fun '(l, t) =>
      if negb (m (n + l) =? 0) && negb (m (h + l) =? 0)
      then inl (u64 (l + 1), table_enter t (m (n + l)) l) else inr (l, t))
    fuel (0, (byteset_empty, sh)) = Some (l, t) /\
  l = Z.min L H /\ table_of m n l t.
Proof.
  pose proof (tm_len _ _ _ Hh).
  destruct (loop_total (fun '(l, t) =>
      if negb (m (n + l) =? 0) && negb (m (h + l) =? 0)
      then inl (u64 (l + 1), table_enter t (m (n + l)) l) else inr (l, t))
    (fun '(l, t) => 0 <= l <= L /\ l <= H /\ table_of m n l t)
    (fun '(l, t) => l = Z.min L H /\ table_of m n l t)
    (fun '(l, _) => Z.to_nat (L - l))) with (fuel := fuel) (s := (0, (byteset_empty, sh)))
    as ([l t] & E & Hr).
  - intros [l t] (H1 & H2 & Ht). rewrite needle_more, (terminated_nonzero m h H) by (assumption || lia).
    destruct (Z.ltb_spec l L), (Z.ltb_spec l H); cbn [andb]; try (split; [lia|assumption]).
    rewrite u64_small by lia. split; [|lia]. split; [lia|]. split; [lia|].
    apply (table_enter_ok m n); [apply Hm|lia|assumption].
  - split; [lia|]. split; [lia|]. apply table_start.
  - lia.
  - now exists l, t.
Qed.

Lemma twoway_strstr_ok :
  exists r, twoway_strstr fuel m sh h n = Some r /\ first_occ m n L h (h + H) r.
Proof.
  unfold twoway_strstr. destruct strstr_table as (l & t & -> & El & Ht). cbn [bind].
  pose proof (tm_len _ _ _ Hh). rewrite needle_more by lia.
  destruct (Z.ltb_spec l L) as [Hlt|Hge].
  { exists None. split; [reflexivity|]. apply first_occ_short. lia. }
  assert (HLH : L <= H) by lia. replace l with L in Ht |- * by lia. clear l Hge El.
  destruct (factorize_ok m n L ltac:(lia) memcmp (memcmp_zero m) fuel ltac:(lia))
    as (ms & p & mem0 & -> & Hfa). cbn [bind].
  apply (search_loop m n L ltac:(lia) mem0); [lia| |lia].
  intros g z mm Hs. pose proof Hs as (S1 & S2 & S3 & S4).
  pose proof (grow_end_ok m n L ltac:(lia) (fun m s k => memchr m s 0 k) g z (h + H)) as Hz.
  destruct (grow_end _ m g z L) as [z'|].
  - specialize (Hz ltac:(intros s k Hk; apply (memchr_first m s 0 k Hm Hk)) ltac:(lia) ltac:(lia)
      (tm_end _ _ _ Hh)).
    assert (Hz' : g + L <= z' <= h + H).
    { apply Hz. intros i Hi. replace i with (h + (i - h)) by lia. apply (tm_nonzero _ _ _ Hh). lia. }
    assert (Hs' : searching m n L mem0 h (h + H) (g, z', mm)) by (repeat split; lia || assumption).
    pose proof (twoway_round_ok m n L ltac:(lia) (fun k => negb (m (n + k) =? 0)) needle_more
      fuel t g z' mm ms p mem0 Hm Ht Hfa S3 ltac:(lia)) as Hr.
    destruct (twoway_round _ _ _ _ _ _ _ _ _ _ _ _) as [[[g' z''] mm']|r].
    + destruct Hr as [-> Ha]. split; [destruct Ha; lia|].
      apply (searching_advances m n L mem0 h (h + H) g z' mm); [assumption|lia|assumption].
    + destruct Hr as [-> Ho]. exists (Some g). split; [reflexivity|].
      apply (searching_found m n L mem0 h (h + H) g z' mm); [assumption|lia|assumption].
  - exists None. split; [reflexivity|].
    apply (searching_end m n L mem0 h (h + H) g z mm); [assumption|]. apply Hz; auto; try lia.
    + intros s k Hk. apply (memchr_first m s 0 k Hm Hk).
    + apply (tm_end _ _ _ Hh).
    + intros i Hi. replace i with (h + (i - h)) by lia. apply (tm_nonzero _ _ _ Hh). lia.
Qed.
End Strstr.

Lemma bytes_at_holds m a k : holds m a (bytes_at m a k).
Proof.
  intros i Hi. rewrite bytes_at_length in Hi. revert a i Hi.
  induction k as [|k IH]; intros a [|i] Hi; cbn [bytes_at nth]; try lia.
  - f_equal. lia.
  - rewrite <- IH by lia. f_equal. lia.
Qed.

(** strchr for a byte that is not NUL: the first place of it in the string. *)
Lemma strchr_first fuel m h hs c :
  wf_mem m -> cstr m h hs -> (length hs < fuel)%nat -> 0 < c < 256 ->
  exists r, strchr fuel m h c = Some r /\ first_in m h c (Z.of_nat (length hs)) r.
Proof.
  intros Hm Hs Hf Hc. unfold strchr. rewrite (strchrnul_cstr m h hs) by assumption. cbn [bind].
  rewrite u8_small by lia. eexists. split; [reflexivity|].
  set (stop := fun b => (b =? 0) || (b =? c)).
  pose proof (cstr_span m h hs stop Hs eq_refl) as (H1 & H2 & H3).
  rewrite (span_ext _ (fun b => negb (stop b)) hs).
  2: { intros b Hb. pose proof (cstr_bytes _ _ _ Hs) as Hbs.
       rewrite Forall_forall in Hbs. specialize (Hbs b Hb). unfold stop.
       now replace (b =? 0) with false by lia. }
  set (j := span (fun b => negb (stop b)) hs) in *. pose proof (span_le (fun b => negb (stop b)) hs).
  fold j in H. destruct (cstr_first m h hs Hs) as (E1 & E2 & E3). unfold stop in *.
  assert (Hbefore : forall a, h <= a < h + Z.of_nat j -> m a <> c).
  { intros a Ha. specialize (H3 (a - h) ltac:(lia)). replace (h + (a - h)) with a in H3 by lia.
    lia. }
  destruct (Z.eqb_spec (m (h + Z.of_nat j)) c) as [E|E]; cbn [first_in].
  - split; [|now split]. split; [lia|].
    destruct (Z.eq_dec (Z.of_nat j) (Z.of_nat (length hs))) as [Ej|]; [|lia].
    rewrite Ej in E. lia.
  - intros a Ha. apply Hbefore. split; [lia|].
    destruct (Z.eq_dec (Z.of_nat j) (Z.of_nat (length hs))) as [Ej|Ej]; [lia|].
    specialize (E3 (Z.of_nat j) ltac:(lia)). lia.
Qed.

(** From the first place of the needle's first byte. *)
Lemma strstr_rest fuel m sh h n H L :
  wf_mem m -> terminated m h H -> terminated m n L -> 1 <= L -> 1 <= H < 2 ^ 62 ->
  (Z.to_nat (2 * L + H) < fuel)%nat -> m h = m n ->
  exists r,
    (if m (n + 1) =? 0 then Some (Some h)
     else if m (h + 1) =? 0 then Some None
     else if m (n + 2) =? 0 then twobyte_strstr fuel m h n
     else if m (h + 2) =? 0 then Some None
     else if m (n + 3) =? 0 then threebyte_strstr fuel m h n
     else if m (h + 3) =? 0 then Some None
     else if m (n + 4) =? 0 then fourbyte_strstr fuel m h n
     else twoway_strstr fuel m sh h n) = Some r /\
    first_occ m n L h (h + H) r.
Proof.
  intros Hm Hh Hn HL HH Hf E0.
  assert (Hne : forall i, h <= i < h + H -> m i <> 0).
  { intros i Hi. replace i with (h + (i - h)) by lia. apply (tm_nonzero _ _ _ Hh). lia. }
  pose proof (tm_end _ _ _ Hh) as Hend.
  assert (Hz : forall k, 0 <= k <= L -> m (n + k) =? 0 = (k =? L))
    by (intros; now apply terminated_zero).
  assert (Hzh : forall k, 0 <= k <= H -> m (h + k) =? 0 = (k =? H))
    by (intros; now apply terminated_zero).
  assert (Hshort : forall k, L = k -> H < k -> first_occ m n L h (h + H) None)
    by (intros; apply first_occ_short; lia).
  rewrite (Hz 1), (Hzh 1) by lia. destruct (Z.eqb_spec 1 L) as [<-|H1].
  { eexists. split; [reflexivity|]. apply first_occ_one; [lia|assumption|]. intros i Hi. lia. }
  destruct (Z.eqb_spec 1 H) as [<-|H1'];
    [eexists; split; [reflexivity|]; apply first_occ_short; lia|].
  rewrite (Hz 2), (Hzh 2) by lia. destruct (Z.eqb_spec 2 L) as [<-|H2].
  { unfold twobyte_strstr. rewrite !pair_val by assumption.
    destruct (slide_strstr m n 2 (word2 m) (fun hw b => u16 (Z.lor (Z.shiftl hw 8) b)) ltac:(lia)
      (word2_step m Hm) (word2_occurs m Hm n) h (h + H) fuel ltac:(lia) Hend Hne ltac:(lia))
      as (g & E & Hg). change (2 - 1) with 1 in *. rewrite E. cbn [bind]. now eexists. }
  destruct (Z.eqb_spec 2 H) as [<-|H2'];
    [eexists; split; [reflexivity|]; apply first_occ_short; lia|].
  rewrite (Hz 3), (Hzh 3) by lia. destruct (Z.eqb_spec 3 L) as [<-|H3].
  { unfold threebyte_strstr. rewrite !triple_val by assumption.
    destruct (slide_strstr m n 3 (word3 m) (fun hw b => u32 (Z.shiftl (Z.lor hw b) 8)) ltac:(lia)
      (word3_step m Hm) (word3_occurs m Hm n) h (h + H) fuel ltac:(lia) Hend Hne ltac:(lia))
      as (g & E & Hg). change (3 - 1) with 2 in *. rewrite E. cbn [bind]. now eexists. }
  destruct (Z.eqb_spec 3 H) as [<-|H3'];
    [eexists; split; [reflexivity|]; apply first_occ_short; lia|].
  rewrite (Hz 4) by lia. destruct (Z.eqb_spec 4 L) as [<-|H4].
  { unfold fourbyte_strstr. rewrite !quad_val by assumption.
    destruct (slide_strstr m n 4 (word4 m) (fun hw b => u32 (Z.lor (Z.shiftl hw 8) b)) ltac:(lia)
      (word4_step m Hm) (word4_occurs m Hm n) h (h + H) fuel ltac:(lia) Hend Hne ltac:(lia))
      as (g & E & Hg). change (4 - 1) with 3 in *. rewrite E. cbn [bind]. now eexists. }
  apply twoway_strstr_ok; auto; lia.
Qed.

(** C15. strstr finds the first occurrence: on terminated strings of any length
    it ends, and its result is the pointer to the first place at which the needle
    is a prefix of the rest of the text, or NULL when there is none.  The
    one-integer searches for needles of two to four bytes and the two-way search
    with its skips and its memory of matched letters find what the search at
    every place finds, whatever the uninitialised [shift] array holds. *)
Theorem strstr_correct fuel m sh h n hs ns :
  wf_mem m -> cstr m h hs -> cstr m n ns -> Z.of_nat (length hs) < 2 ^ 62 ->
  (2 * length ns + length hs < fuel)%nat ->
  strstr fuel m sh h n = Some (option_map (fun i => h + Z.of_nat i) (find_sub ns hs)).
Proof.
  intros Hm Hh Hn Hlen Hf. unfold strstr.
  pose proof (cstr_terminated _ _ _ Hh) as Th. pose proof (cstr_terminated _ _ _ Hn) as Tn.
  destruct ns as [|b ns].
  { cbn [cstr] in Hn. rewrite Hn. destruct hs; cbn [find_sub prefix_of option_map Z.of_nat]; now rewrite Z.add_0_r. }
  assert (Hb : m n = b /\ 0 < b < 256) by (cbn [cstr] in Hn; tauto). destruct Hb as [Eb Hb].
  rewrite Eb. replace (b =? 0) with false by lia.
  destruct (strchr_first fuel m h hs b Hm Hh ltac:(lia) Hb) as (r & -> & Hr). cbn [bind].
  destruct r as [h1|]; cbn [first_in] in Hr.
  - destruct Hr as (H1 & H2 & H3).
    destruct (strstr_rest fuel m sh h1 n (Z.of_nat (length hs) - (h1 - h)) (Z.of_nat (length (b :: ns))))
      as (r & -> & Hr); try assumption; try (cbn [length] in *; lia).
    { replace h1 with (h + (h1 - h)) at 1 by lia. apply terminated_skip; [assumption|lia]. }
    f_equal. apply (first_occ_find m n h (b :: ns) hs); [now apply cstr_holds..|].
    replace (h1 + (Z.of_nat (length hs) - (h1 - h))) with (h + Z.of_nat (length hs)) in Hr by lia.
    apply (first_occ_skip m n _ h h1); [cbn [length]; lia|lia| |assumption].
    intros i Hi. rewrite Eb. now apply H3.
  - f_equal. apply (first_occ_find m n h (b :: ns) hs); [now apply cstr_holds..|].
    intros i Hi Hbd Ho. cbn [length] in Hbd. apply (Hr i); [lia|].
    rewrite <- Eb, <- (Z.add_0_r i), <- (Z.add_0_r n). apply (Ho 0). cbn [length]. lia.
Qed.

Lemma strstr_correct_witness :
  strstr 64 (upd_list (str_mem 5 [97; 98; 97; 97; 98; 97; 98; 97; 98; 99; 97]) 40 [97; 98; 97; 98; 99])
    (fun _ => 0) 5 40 = Some (Some 10).
Proof.
  apply (strstr_correct 64 _ (fun _ => 0) 5 40 [97; 98; 97; 97; 98; 97; 98; 97; 98; 99; 97] [97; 98; 97; 98; 99]).
  - apply upd_list_wf; [apply str_mem_wf|]; repeat constructor; lia.
  - vm_compute. repeat split; lia.
  - vm_compute. repeat split; lia.
  - reflexivity.
  - cbn. lia.
Defined.

(** *** memmem *)

Section Memmem.
Variables (m : mem) (sh : Z -> Z) (n l : Z) (fuel : nat).
Hypothesis Hm : wf_mem m.
Hypothesis Hl : 1 <= l < 2 ^ 62.

Lemma memmem_table :
  exists i t, while (fun '(i, t) => i <? l)
    (fun '(i, t) => (u64 (i + 1), table_enter t (m (n + i)) i)) (Z.to_nat l) (0, (byteset_empty, sh))
    = (i, t) /\ table_of m n l t.
Proof.
  destruct (while_rule (fun '(i, t) => i <? l)
    (fun '(i, t) => (u64 (i + 1), table_enter t (m (n + i)) i))
    (fun '(i, t) => 0 <= i <= l /\ table_of m n i t) (fun '(i, _) => Z.to_nat (l - i))
    (Z.to_nat l) (0, (byteset_empty, sh))) as [HI Hc].
  - intros [i t] [Hi Ht] E. rewrite u64_small by lia. split; [|lia]. split; [lia|].
    apply (table_enter_ok m n); [apply Hm|lia|assumption].
  - split; [lia|]. apply table_start.
  - lia.
  - destruct (while _ _ _ _) as [i t]. exists i, t. split; [reflexivity|].
    destruct HI as [Hi Ht]. now replace l with i by lia.
Qed.

Lemma twoway_memmem_ok h z :
  h <= z -> z - h < 2 ^ 62 -> (Z.to_nat (2 * l + (z - h)) < fuel)%nat ->
  exists r, twoway_memmem fuel m sh h z n l = Some r /\ first_occ m n l h z r.
Proof.
  intros Hz Hz' Hf. unfold twoway_memmem. destruct memmem_table as (i & t & -> & Ht).
  destruct (factorize_ok m n l Hl memcmp (memcmp_zero m) fuel ltac:(lia))
    as (ms & p & mem0 & -> & Hfa). cbn [bind].
  apply (search_loop m n l Hl mem0); [lia| |lia].
  intros g z' mm Hs. pose proof Hs as (S1 & S2 & S3 & S4).
  assert (Hs' : searching m n l mem0 h z (g, z, mm)) by (repeat split; lia || assumption).
  rewrite u64_small by lia. destruct (Z.ltb_spec (z - g) l) as [Hlt|Hge].
  - exists None. split; [reflexivity|].
    apply (searching_end m n l mem0 h z g z mm); [assumption|lia].
  - pose proof (twoway_round_ok m n l Hl (fun k => k <? l) ltac:(reflexivity)
      fuel t g z mm ms p mem0 Hm Ht Hfa S3 ltac:(lia)) as Hr.
    destruct (twoway_round _ _ _ _ _ _ _ _ _ _ _ _) as [[[g' z''] mm']|r].
    + destruct Hr as [-> Ha]. split; [destruct Ha; lia|].
      apply (searching_advances m n l mem0 h z g z mm); [assumption|lia|assumption].
    + destruct Hr as [-> Ho]. exists (Some g). split; [reflexivity|].
      apply (searching_found m n l mem0 h z g z mm); [assumption|lia|assumption].
Qed.
End Memmem.

(** C16. memmem finds the first occurrence: for any two regions it ends, and
    its result is the pointer to the first place at which the needle's bytes are
    those of the text, or NULL when there is none; an empty needle is found at the
    start, and a needle longer than what is left of the text is not looked for. *)
Theorem memmem_correct fuel m sh h n k l :
  wf_mem m -> 0 <= l -> 0 <= k < 2 ^ 62 -> (Z.to_nat (2 * l + k) < fuel)%nat ->
  memmem fuel m sh h k n l
  = Some (option_map (fun i => h + Z.of_nat i)
      (find_sub (bytes_at m n (Z.to_nat l)) (bytes_at m h (Z.to_nat k)))).
Proof.
  intros Hm Hl Hk Hf.
  enough (H : exists r, memmem fuel m sh h k n l = Some r /\ first_occ m n l h (h + k) r).
  { destruct H as (r & -> & Hr). f_equal.
    apply (first_occ_find m n h); [apply bytes_at_holds..|].
    rewrite !bytes_at_length, !Z2Nat.id by lia. assumption. }
  unfold memmem. destruct (Z.eqb_spec l 0) as [->|Hl0].
  { eexists. split; [reflexivity|]. repeat split; try lia. intros j Hj. lia. }
  destruct (Z.ltb_spec k l) as [Hkl|Hkl].
  { eexists. split; [reflexivity|]. apply first_occ_short. lia. }
  pose proof (memchr_first m h (m n) k Hm ltac:(lia)) as Hr.
  rewrite (u8_small (m n)) in Hr by apply Hm.
  destruct (memchr m h (m n) k) as [h1|]; cbn [first_in] in Hr.
  - destruct Hr as (H1 & H2 & H3). destruct (Z.eqb_spec l 1) as [->|Hl1].
    { eexists. split; [reflexivity|]. now apply first_occ_one. }
    enough (H : exists r, _ = Some r /\ first_occ m n l h1 (h + k) r) by
      (destruct H as (r & E & Hr); exists r; split; [exact E|];
       apply (first_occ_skip m n l h h1); [lia|lia|assumption|assumption]).
    rewrite (u64_small (h1 - h)), u64_small by lia.
    destruct (Z.ltb_spec (k - (h1 - h)) l) as [Hs|Hs].
    { eexists. split; [reflexivity|]. apply first_occ_short. lia. }
    replace (h + k) with (h1 + (k - (h1 - h))) by lia. set (k1 := k - (h1 - h)) in *.
    destruct (Z.eqb_spec l 2) as [->|H2l].
    { eexists. split; [reflexivity|]. unfold twobyte_memmem. rewrite !pair_val by assumption.
      destruct (slide_memmem m n 2 (word2 m) (fun hw b => u16 (Z.lor (Z.shiftl hw 8) b)) ltac:(lia)
        (word2_step m Hm) (word2_occurs m Hm n) h1 k1 ltac:(lia)) as (g & k' & hw & E & Hg).
      now rewrite E. }
    destruct (Z.eqb_spec l 3) as [->|H3l].
    { eexists. split; [reflexivity|]. unfold threebyte_memmem. rewrite !triple_val by assumption.
      destruct (slide_memmem m n 3 (word3 m) (fun hw b => u32 (Z.shiftl (Z.lor hw b) 8)) ltac:(lia)
        (word3_step m Hm) (word3_occurs m Hm n) h1 k1 ltac:(lia)) as (g & k' & hw & E & Hg).
      now rewrite E. }
    destruct (Z.eqb_spec l 4) as [->|H4l].
    { eexists. split; [reflexivity|]. unfold fourbyte_memmem. rewrite !quad_val by assumption.
      destruct (slide_memmem m n 4 (word4 m) (fun hw b => u32 (Z.lor (Z.shiftl hw 8) b)) ltac:(lia)
        (word4_step m Hm) (word4_occurs m Hm n) h1 k1 ltac:(lia)) as (g & k' & hw & E & Hg).
      now rewrite E. }
    apply twoway_memmem_ok; auto; lia.
  - eexists. split; [reflexivity|]. intros i Hi Hb Ho. apply (Hr i); [lia|].
    rewrite <- (Z.add_0_r i), <- (Z.add_0_r n). apply (Ho 0). lia.
Qed.

Lemma memmem_correct_witness :
  memmem 64 (upd_list (str_mem 5 [1; 0; 1; 1; 0; 1; 0; 0]) 40 [1; 0; 1; 0; 0]) (fun _ => 0) 5 8 40 5
  = Some (Some 8).
Proof.
  apply (memmem_correct 64
    (upd_list (str_mem 5 [1; 0; 1; 1; 0; 1; 0; 0]) 40 [1; 0; 1; 0; 0]) (fun _ => 0) 5 40 8 5); try lia; try (cbn; lia).
  apply upd_list_wf; [apply str_mem_wf|]; repeat constructor; lia.
Defined.

(** *** wcsstr *)

(** A terminated wide string: any nonzero wchar_t values. *)
Definition wcstr (m : mem) (s : Z) (l : list Z) : Prop :=
  holds m s l /\ Forall (fun c => c <> 0) l /\ m (s + Z.of_nat (length l)) = 0.

Lemma wcstr_terminated m s l : wcstr m s l -> terminated m s (Z.of_nat (length l)).
Proof.
  intros (H1 & H2 & H3). constructor; [lia| |assumption].
  intros i Hi. replace i with (Z.of_nat (Z.to_nat i)) by lia. rewrite H1 by lia.
  rewrite Forall_forall in H2. apply H2, nth_In. lia.
Qed.

Lemma wmemchr_first m s c k : 0 <= k -> first_in m s c k (wmemchr m s c k).
Proof.
  intros Hk. unfold wmemchr.
  destruct (while_rule (fun '(n, s) => negb (n =? 0) && negb (m s =? c))
    (fun '(n, s) => (n - 1, s + 1))
    (fun '(n, a) => 0 <= n <= k /\ a = s + (k - n) /\ forall i, s <= i < a -> m i <> c)
    (fun '(n, _) => Z.to_nat n) (Z.to_nat k) (k, s)) as [HI Hc].
  - intros [n a] (Hn & -> & He) E. breflect. split; [|lia]. split; [lia|]. split; [lia|].
    intros i Hi. destruct (Z.eq_dec i (s + (k - n))) as [->|]; [assumption|apply He; lia].
  - repeat split; lia.
  - lia.
  - destruct (while _ _ _ _) as [n a]. destruct HI as (Hn & -> & He).
    destruct (Z.eqb_spec n 0) as [->|Hn0]; cbn [negb andb first_in] in *.
    + intros i Hi. apply He. lia.
    + apply negb_false_iff, Z.eqb_eq in Hc. repeat split; try lia; assumption.
Qed.

Section Wcsstr.
Variables (m : mem) (h n H L : Z) (fuel : nat).
Hypothesis Hh : terminated m h H.
Hypothesis Hn : terminated m n L.
Hypothesis HL : 1 <= L.
Hypothesis HH : H < 2 ^ 62.
Hypothesis Hf : (Z.to_nat (2 * L + H) < fuel)%nat.

Lemma wcschr_first c :
  c <> 0 -> exists r, wcschr fuel m h c = Some r /\ first_in m h c H r.
Proof.
  intros Hc. pose proof (tm_len _ _ _ Hh). unfold wcschr. replace (c =? 0) with false by lia.
  destruct (loop_total (fun s => if negb (m s =? 0) && negb (m s =? c) then inl (s + 1) else inr s)
    (fun s => h <= s <= h + H /\ forall i, h <= i < s -> m i <> c)
    (fun r => first_in m h c H (if m r =? 0 then None else Some r))
    (fun s => Z.to_nat (h + H - s))) with (fuel := fuel) (s := h) as (r & -> & Hr).
  - intros s [Hs He].
    pose proof (terminated_zero m h H (s - h) Hh ltac:(lia)) as E.
    replace (h + (s - h)) with s in E by lia. rewrite E.
    destruct (Z.eqb_spec (s - h) H) as [Es|Es]; cbn [negb andb].
    + rewrite E. replace (s - h =? H) with true by lia. intros i Hi. apply He. lia.
    + destruct (Z.eqb_spec (m s) c) as [Ec|Ec]; cbn [negb].
      * rewrite E. replace (s - h =? H) with false by lia. repeat split; try lia; assumption.
      * split; [|lia]. split; [lia|]. intros i Hi.
        destruct (Z.eq_dec i s) as [->|]; [assumption|apply He; lia].
  - split; [lia|]. intros i Hi. lia.
  - lia.
  - cbn [bind]. eexists. split; [reflexivity|assumption].
Qed.

Lemma twoway_wcsstr_ok :
  exists r, twoway_wcsstr fuel m h n = Some r /\ first_occ m n L h (h + H) r.
Proof.
  pose proof (tm_len _ _ _ Hh). unfold twoway_wcsstr.
  destruct (loop_total (fun l => if negb (m (n + l) =? 0) && negb (m (h + l) =? 0)
                                 then inl (u64 (l + 1)) else inr l)
    (fun l => 0 <= l <= L /\ l <= H) (fun l => l = Z.min L H) (fun l => Z.to_nat (L - l)))
    with (fuel := fuel) (s := 0) as (l & -> & El); [|lia..|].
  { intros l [H1 H2].
    rewrite (terminated_nonzero m n L), (terminated_nonzero m h H) by (assumption || lia).
    destruct (Z.ltb_spec l L), (Z.ltb_spec l H); cbn [andb]; try lia.
    rewrite u64_small by lia. lia. }
  cbn [bind]. rewrite (terminated_nonzero m n L) by (assumption || lia).
  destruct (Z.ltb_spec l L) as [Hlt|Hge].
  { exists None. split; [reflexivity|]. apply first_occ_short. lia. }
  assert (HLH : L <= H) by lia. replace l with L by lia. clear l Hge El.
  destruct (factorize_ok m n L ltac:(lia) wmemcmp (wmemcmp_zero m) fuel ltac:(lia))
    as (ms & p & mem0 & -> & Hfa). cbn [bind].
  apply (search_loop m n L ltac:(lia) mem0); [lia| |lia].
  intros g z mm Hs. pose proof Hs as (S1 & S2 & S3 & S4).
  pose proof (grow_end_ok m n L ltac:(lia) (fun m s k => wmemchr m s 0 k) g z (h + H)
    ltac:(intros s k Hk; now apply wmemchr_first) ltac:(lia) ltac:(lia) (tm_end _ _ _ Hh)) as Hz.
  assert (Hne : forall i, g <= i < h + H -> m i <> 0).
  { intros i Hi. replace i with (h + (i - h)) by lia. apply (tm_nonzero _ _ _ Hh). lia. }
  specialize (Hz Hne). destruct (grow_end _ m g z L) as [z'|].
  - assert (Hs' : searching m n L mem0 h (h + H) (g, z', mm)) by (repeat split; lia || assumption).
    destruct (compare_halves_ok m n L ltac:(lia) (fun k => negb (m (n + k) =? 0))
      ltac:(intros k Hk; now apply terminated_nonzero) fuel g ms p mem0 mm Hfa S3 ltac:(lia))
      as (r & -> & Hr).
    destruct r as [[g' mm']|a].
    + split; [destruct Hr; lia|].
      apply (searching_advances m n L mem0 h (h + H) g z' mm); [assumption|lia|assumption].
    + destruct Hr as [-> Ho]. exists (Some g). split; [reflexivity|].
      apply (searching_found m n L mem0 h (h + H) g z' mm); [assumption|lia|assumption].
  - exists None. split; [reflexivity|].
    apply (searching_end m n L mem0 h (h + H) g z mm); [assumption|lia].
Qed.
End Wcsstr.

(** wcsstr finds the first occurrence: for terminated wide strings, of any
    nonzero wchar_t values, it ends with the pointer to the first place at which the
    needle is a prefix of the rest of the text, or NULL when there is none. *)
Theorem wcsstr_correct fuel m h n hs ns :
  wcstr m h hs -> wcstr m n ns -> Z.of_nat (length hs) < 2 ^ 62 ->
  (2 * length ns + length hs < fuel)%nat ->
  wcsstr fuel m h n = Some (option_map (fun i => h + Z.of_nat i) (find_sub ns hs)).
Proof.
  intros Hh Hn Hlen Hf.
  pose proof (wcstr_terminated _ _ _ Hh) as Th. pose proof (wcstr_terminated _ _ _ Hn) as Tn.
  set (H := Z.of_nat (length hs)) in *. set (L := Z.of_nat (length ns)) in *.
  enough (E : exists r, wcsstr fuel m h n = Some r /\ first_occ m n L h (h + H) r).
  { destruct E as (r & -> & Hr). f_equal. apply (first_occ_find m n h ns hs); [apply Hn|apply Hh|exact Hr]. }
  pose proof (tm_len _ _ _ Th) as LH. pose proof (tm_len _ _ _ Tn) as LN.
  pose proof (terminated_zero m n L 0 Tn ltac:(lia)) as E0. rewrite Z.add_0_r in E0.
  pose proof (terminated_zero m h H 0 Th ltac:(lia)) as E1. rewrite Z.add_0_r in E1.
  unfold wcsstr. rewrite E0, E1. destruct (Z.eqb_spec 0 L) as [EL|EL].
  { exists (Some h). split; [reflexivity|]. rewrite <- EL. repeat split; try lia. intros j Hj. lia. }
  destruct (Z.eqb_spec 0 H) as [EH|EH].
  { exists None. split; [reflexivity|]. apply first_occ_short. lia. }
  apply Z.eqb_neq in E0.
  destruct (wcschr_first m h H L fuel Th ltac:(lia) ltac:(lia) (m n) E0) as (r & -> & Hr). cbn [bind].
  destruct r as [h1|]; cbn [first_in] in Hr.
  - destruct Hr as (H1 & H2 & H3).
    pose proof (terminated_skip m h H (h1 - h) Th ltac:(lia)) as T1.
    replace (h + (h1 - h)) with h1 in T1 by lia.
    rewrite (terminated_zero m n L 1 Tn), (terminated_zero m h1 (H - (h1 - h)) 1 T1) by lia.
    destruct (Z.eqb_spec 1 L) as [<-|EL1].
    { eexists. split; [reflexivity|]. now apply first_occ_one. }
    enough (E : exists r, (if 1 =? H - (h1 - h) then Some None else twoway_wcsstr fuel m h1 n) = Some r /\
                          first_occ m n L h1 (h1 + (H - (h1 - h))) r).
    { destruct E as (r & -> & Hr). exists r. split; [reflexivity|].
      apply (first_occ_skip m n L h h1); [lia|lia|assumption|].
      now replace (h + H) with (h1 + (H - (h1 - h))) by lia. }
    destruct (Z.eqb_spec 1 (H - (h1 - h))) as [EH1|EH1].
    + exists None. split; [reflexivity|]. apply first_occ_short. lia.
    + apply twoway_wcsstr_ok; auto; lia.
  - eexists. split; [reflexivity|]. intros i Hi Hb Ho. apply (Hr i); [lia|].
    rewrite <- (Z.add_0_r i), <- (Z.add_0_r n). apply (Ho 0). lia.
Qed.

Lemma wcsstr_correct_witness :
  wcsstr 64 (upd_list (str_mem 5 [-7; 300; -7; 300; 20000; 65]) 40 [-7; 300; 20000]) 5 40
  = Some (Some 7).
Proof.
  apply (wcsstr_correct 64 _ 5 40 [-7; 300; -7; 300; 20000; 65] [-7; 300; 20000]);
    [| |reflexivity|cbn; lia];
    (split; [intros i Hi; cbn [length] in Hi; do 6 (destruct i as [|i]; [reflexivity|]); lia|]);
    (split; [repeat constructor; lia|reflexivity]).
Defined.

(** *** Comparison and search without case *)

Lemma tolower_pos b : 0 < b < 256 -> 0 < Ctype.tolower b.
Proof.
  intros Hb. assert (H : forallb (fun b => 0 <? Ctype.tolower b) (zrange 1 255) = true)
    by (vm_compute; reflexivity).
  rewrite forallb_forall in H. apply Z.ltb_lt, H, in_zrange. lia.
Qed.

Lemma same_fold_eq a b : same_fold a b = (Ctype.tolower a =? Ctype.tolower b).
Proof. unfold same_fold. destruct (Z.eqb_spec a b) as [->|]; [|reflexivity]. now rewrite Z.eqb_refl. Qed.

Local Notation fold := (map Ctype.tolower).

Lemma strcasecmp_lex fuel m l r x y :
  cstr m l x -> cstr m r y -> (length x < fuel)%nat ->
  exists v, strcasecmp fuel m l r = Some v /\ (v ?= 0) = lex (fold x) (fold y).
Proof.
  unfold strcasecmp. revert fuel l r y.
  induction x as [|a x IH]; intros [|fuel] l r y Hx Hy Hf; cbn [length cstr] in *; try lia;
    cbn [loop]; destruct y as [|b y]; cbn [cstr] in Hy.
  - rewrite Hx, Hy. change (0 =? 0) with true. cbn [negb andb bind]. rewrite Hx, Hy. now eexists.
  - destruct Hy as (Hb & Hr & Hy). rewrite Hx, Hb. change (0 =? 0) with true. cbn [negb andb bind]. rewrite Hx, Hb.
    eexists. split; [reflexivity|]. pose proof (tolower_pos b Hr).
    change (Ctype.tolower 0) with 0. cbn [map lex]. apply Z.compare_lt_iff. lia.
  - destruct Hx as (Ha & Hr & Hx). rewrite Ha, Hy. replace (a =? 0) with false by lia.
    change (0 =? 0) with true. cbn [negb andb bind]. rewrite Ha, Hy.
    eexists. split; [reflexivity|]. pose proof (tolower_pos a Hr).
    change (Ctype.tolower 0) with 0. cbn [map lex]. apply Z.compare_gt_iff. lia.
  - destruct Hx as (Ha & Hr & Hx), Hy as (Hb & Hr' & Hy). rewrite Ha, Hb, same_fold_eq.
    replace (a =? 0) with false by lia. replace (b =? 0) with false by lia. cbn [negb andb map].
    destruct (Z.eqb_spec (Ctype.tolower a) (Ctype.tolower b)) as [E|Hne].
    + rewrite E, lex_same. apply IH; [assumption..|lia].
    + cbn [bind]. rewrite Ha, Hb. eexists. split; [reflexivity|]. now rewrite lex_diff.
Qed.

Lemma strncasecmp_lex m l r x y n :
  cstr m l x -> cstr m r y -> 0 <= n ->
  (strncasecmp m l r n ?= 0)
  = lex (fold (firstn (Z.to_nat n) x)) (fold (firstn (Z.to_nat n) y)).
Proof.
  intros Hx Hy Hn. unfold strncasecmp. destruct (Z.eqb_spec n 0) as [->|H0]; [reflexivity|].
  replace (Z.to_nat n) with (S (Z.to_nat (n - 1))) by lia.
  rewrite <- (Z2Nat.id (n - 1)) at 2 by lia. generalize (Z.to_nat (n - 1)) as k.
  clear n Hn H0. intros k. revert l r x y Hx Hy.
  induction k as [|k IH]; intros l r x y Hx Hy; cbn [while];
    destruct x as [|a x], y as [|b y]; cbn [cstr] in Hx, Hy;
    try destruct Hx as (Ha & Hr & Hx); try destruct Hy as (Hb & Hr' & Hy);
    try (rewrite Ha; replace (a =? 0) with false by lia);
    try (rewrite Hb; replace (b =? 0) with false by lia);
    try rewrite Hx; try rewrite Hy;
    try pose proof (tolower_pos a Hr); try pose proof (tolower_pos b Hr');
    change (0 =? 0) with true; cbn [negb andb firstn map]; change (Ctype.tolower 0) with 0;
    rewrite ?andb_false_r; cbn [andb];
    rewrite ?Ha, ?Hb; try rewrite Hx; try rewrite Hy; change (Ctype.tolower 0) with 0;
    try reflexivity; try (cbn [lex]; apply Z.compare_lt_iff + apply Z.compare_gt_iff; lia).
  - destruct (Z.eq_dec (Ctype.tolower a) (Ctype.tolower b)) as [E|Hne]; [|now rewrite lex_diff].
    now rewrite E, lex_same, Z.sub_diag.
  - rewrite same_fold_eq. replace (Z.of_nat (S k) =? 0) with false by lia. cbn [negb andb].
    destruct (Z.eqb_spec (Ctype.tolower a) (Ctype.tolower b)) as [E|Hne].
    + rewrite E, lex_same. replace (Z.of_nat (S k) - 1) with (Z.of_nat k) by lia. now apply IH.
    + cbv beta iota. rewrite Ha, Hb. now rewrite lex_diff.
Qed.

Lemma lex_Eq_eq x y : lex x y = Eq <-> x = y.
Proof.
  split; [|intros ->; induction y as [|b y IH]; [reflexivity|now rewrite lex_same]].
  revert y. induction x as [|a x IH]; intros [|b y]; try discriminate; [reflexivity|].
  cbn [lex]. destruct (Z.compare_spec a b) as [->|H|H]; try discriminate.
  intros H. f_equal. now apply IH.
Qed.

Lemma prefix_of_firstn n h : prefix_of n h = true <-> firstn (length n) h = n.
Proof.
  revert h. induction n as [|a n IH]; intros [|b h]; cbn [prefix_of length firstn];
    try (split; [reflexivity + discriminate|]; reflexivity + discriminate).
  rewrite andb_true_iff, IH, Z.eqb_eq. split; [intros [-> ->]; reflexivity|].
  intros [= -> E]. now split.
Qed.

(** One place of strcasestr. *)
Lemma strncasecmp_prefix m h n hs ns :
  cstr m h hs -> cstr m n ns ->
  strncasecmp m h n (Z.of_nat (length ns)) =? 0 = prefix_of (fold ns) (fold hs).
Proof.
  intros Hh Hn. pose proof (strncasecmp_lex m h n hs ns (Z.of_nat (length ns)) Hh Hn ltac:(lia)) as H.
  rewrite Nat2Z.id, firstn_all in H.
  apply eq_true_iff_eq. rewrite prefix_of_firstn, length_map, firstn_map, <- lex_Eq_eq, <- H.
  now rewrite Z.eqb_eq, Z.compare_eq_iff.
Qed.

(** strcasestr finds the first place where the needle is a prefix of the text up
    to the case of the letters A to Z; strcasecmp and strncasecmp order the folded
    strings, and their first [k] bytes. *)
Theorem strcasestr_correct fuel m h n hs ns k :
  wf_mem m -> cstr m h hs -> cstr m n ns -> (length hs + length ns < fuel)%nat -> 0 <= k ->
  strcasestr fuel m h n
  = Some (option_map (fun i => h + Z.of_nat i) (find_sub (fold ns) (fold hs))) /\
  (exists v, strcasecmp fuel m h n = Some v /\ (v ?= 0) = lex (fold hs) (fold ns)) /\
  (strncasecmp m h n k ?= 0) = lex (fold (firstn (Z.to_nat k) hs)) (fold (firstn (Z.to_nat k) ns)).
Proof.
  intros Hm Hh Hn Hf Hk. split; [|split; [apply strcasecmp_lex; auto; lia|now apply strncasecmp_lex]].
  unfold strcasestr. rewrite (strlen_cstr m n ns) by (assumption || lia). cbn [bind].
  destruct (Z.eqb_spec (Z.of_nat (length ns)) 0) as [E|E].
  { destruct ns; [|cbn [length] in E; lia].
    destruct hs; cbn [find_sub prefix_of option_map map]; now rewrite Z.add_0_r. }
  clear Hm Hk. revert h fuel Hh Hf. induction hs as [|b hs IH]; intros h [|fuel] Hh Hf;
    cbn [length] in Hf; try lia; cbn [loop].
  - cbn [cstr] in Hh. rewrite Hh. change (0 =? 0) with true. cbn [negb]. destruct ns; [cbn in E; lia|reflexivity].
  - pose proof Hh as (Hb & Hr & Ht). rewrite (strncasecmp_prefix m h n (b :: hs) ns Hh Hn), Hb.
    replace (b =? 0) with false by lia. cbn [negb map find_sub].
    destruct (prefix_of (fold ns) (Ctype.tolower b :: fold hs)).
    + cbn [option_map]. now rewrite Z.add_0_r.
    + rewrite (IH (h + 1) fuel Ht ltac:(lia)). f_equal.
      destruct (find_sub (fold ns) (fold hs)) as [i|]; cbn [option_map]; [|reflexivity]. f_equal. lia.
Qed.

Lemma strcasestr_correct_witness :
  strcasestr 64 (upd_list (str_mem 5 [104; 101; 76; 76; 111]) 40 [108; 76; 79]) 5 40 = Some (Some 7).
Proof.
  apply (strcasestr_correct 64 _ 5 40 [104; 101; 76; 76; 111] [108; 76; 79] 0); try lia.
  - apply upd_list_wf; [apply str_mem_wf|]; repeat constructor; lia.
  - vm_compute. repeat split; lia.
  - vm_compute. repeat split; lia.
  - cbn. lia.
Defined.
