(* ===== verification/Fnmatch.v ===== *)
(** * Fnmatch: matching a string against a shell pattern

    Models src/regex/fnmatch.c: the readers str_next and pat_next, bracket
    expressions, fnmatch_internal with its three phases (what precedes the first
    star from the front, what follows the last star from the back, what is between
    stars leftmost first) and fnmatch with the path components of FNM_PATHNAME and
    FNM_LEADING_DIR.

    Characters are decoded with mbtowc of Utf8.  What depends on the generated
    tables of src/ctype is a [ctype]: towupper, towlower, and iswctype of the
    class of a given name.  The scans of a pattern take [fuel]; [None] says that it
    was not enough. *)

From Stdlib Require Import ZArith Lia ZifyBool List Bool.
From S2P Require Import Prelude Strings Utf8.
Import ListNotations.
Open Scope Z_scope.

(** ** The code *)

Definition FNM_PATHNAME : Z := 1.
Definition FNM_NOESCAPE : Z := 2.
Definition FNM_PERIOD : Z := 4.
Definition FNM_LEADING_DIR : Z := 8.
Definition FNM_CASEFOLD : Z := 16.
Definition FNM_NOMATCH : Z := 1.

Definition END : Z := 0.
Definition UNMATCHABLE : Z := -2.
Definition BRACKET : Z := -3.
Definition QUESTION : Z := -4.
Definition STAR : Z := -5.

Definition flag (flags f : Z) : bool := negb (Z.land flags f =? 0).

(** A loop whose rounds may run out of fuel. *)
Definition loop_opt {S R} (body : S -> option (S + R)) (fuel : nat) (s : S) : option R :=
  let? r := loop (fun s => match body s with
                           | Some (inl s) => inl s
                           | Some (inr r) => inr (Some r)
                           | None => inr None
                           end) fuel s in
  r.

(** The locale: MB_CUR_MAX is not 1, and the tables of the wide characters. *)
Record ctype := { utf8 : bool; towupper : Z -> Z; towlower : Z -> Z;
                  iswctype : list Z -> Z -> bool }.

Section Code.
Variables (loc : ctype) (m : mem).

(** The character mbtowc stores. *)
Definition stored (r : mbres) : Z := match wcv r with Some wc => wc | None => 0 end.

Definition str_next (str n : Z) : Z * Z :=
  if n =? 0 then (0, 0)
  else if 128 <=? u32 (s8 (m str)) then
    let r := mbtowc (utf8 loc) m (Some str) n in
    if ret r <? 0 then (-1, 1) else (stored r, ret r)
  else (m str, 1).

Definition class_mark (c : Z) : bool := (c =? 58) || (c =? 46) || (c =? 61).   (* : . = *)

(** The end of the bracket expression at [pat]: the loop over k. *)
Definition bracket_scan (fuel : nat) (pat n : Z) : option Z :=
  let k := 1 in
  let k := if (k <? n) && ((m (pat + k) =? 94) || (m (pat + k) =? 33)) then k + 1 else k in
  let k := if (k <? n) && (m (pat + k) =? 93) then k + 1 else k in
  loop_opt (fun k =>
    if (k <? n) && negb (m (pat + k) =? 0) && negb (m (pat + k) =? 93) then
      if (k + 1 <? n) && negb (m (pat + (k + 1)) =? 0) && (m (pat + k) =? 91) &&
         class_mark (m (pat + (k + 1))) then
        let z := m (pat + (k + 1)) in
        let k := k + 2 in
        let k := if (k <? n) && negb (m (pat + k) =? 0) then k + 1 else k in
        let? k := loop (fun k =>
            if (k <? n) && negb (m (pat + k) =? 0) &&
               (negb (m (pat + (k - 1)) =? z) || negb (m (pat + k) =? 93))
            then inl (k + 1) else inr k) fuel k in
        Some (if (k =? n) || (m (pat + k) =? 0) then inr k else inl (k + 1))
      else Some (inl (k + 1))
    else Some (inr k)) fuel k.

(** The character at [pat], after a backslash when [esc] is 1. *)
Definition pat_literal (pat n step esc : Z) : Z * Z :=
  if 128 <=? u32 (s8 (m pat)) then
    let r := mbtowc (utf8 loc) m (Some pat) n in
    if ret r <? 0 then (UNMATCHABLE, 0) else (stored r, ret r + esc)
  else (m pat, step).

Definition pat_next (fuel : nat) (pat n flags : Z) : option (Z * Z) :=
  if (n =? 0) || (m pat =? 0) then Some (END, 0)
  else if (m pat =? 92) && negb (m (pat + 1) =? 0) && negb (flag flags FNM_NOESCAPE) then
    Some (pat_literal (pat + 1) n 2 1)
  else if m pat =? 91 then
    let? k := bracket_scan fuel pat n in
    Some (if (k =? n) || (m (pat + k) =? 0) then (91, 1) else (BRACKET, k + 1))
  else if m pat =? 42 then Some (STAR, 1)
  else if m pat =? 63 then Some (QUESTION, 1)
  else Some (pat_literal pat n 1 0).

Definition casefold (k : Z) : Z :=
  let c := towupper loc k in if c =? k then towlower loc k else c.

(** [k] or [kfold] is between [wc] and [wc2], in unsigned arithmetic. *)
Definition in_range (k kfold wc wc2 : Z) : bool :=
  (wc <=? wc2) && ((u32 (k - wc) <=? u32 (wc2 - wc)) || (u32 (kfold - wc) <=? u32 (wc2 - wc))).

(** One round of the loop over the members of a bracket expression. *)
Definition bracket_round (fuel : nat) (inv : bool) (k kfold : Z) (t : Z * Z)
  : option ((Z * Z) + bool) :=
  let '(p, wc) := t in
  if m p =? 93 then Some (inr inv)
  else if (m p =? 45) && negb (m (p + 1) =? 93) then
    let r := mbtowc (utf8 loc) m (Some (p + 1)) 4 in
    if ret r <? 0 then Some (inr false)
    else if in_range k kfold wc (stored r) then Some (inr (negb inv))
    else Some (inl (p + (ret r - 1) + 1, wc))
  else if (m p =? 91) && class_mark (m (p + 1)) then
    let p0 := p + 2 in
    let z := m (p + 1) in
    let? p := loop (fun p => if negb (m (p - 1) =? z) || negb (m p =? 93)
                             then inl (p + 1) else inr p) fuel (p + 3) in
    let name := bytes_at m p0 (Z.to_nat (p - 1 - p0)) in
    if (z =? 58) && (p - 1 - p0 <? 16) && (iswctype loc name k || iswctype loc name kfold)
    then Some (inr (negb inv)) else Some (inl (p + 1, wc))
  else if m p <? 128 then
    if (m p =? k) || (m p =? kfold) then Some (inr (negb inv)) else Some (inl (p + 1, m p))
  else
    let r := mbtowc (utf8 loc) m (Some p) 4 in
    if ret r <? 0 then Some (inr false)
    else if (stored r =? k) || (stored r =? kfold) then Some (inr (negb inv))
    else Some (inl (p + (ret r - 1) + 1, stored r)).

Definition match_bracket (fuel : nat) (p k kfold : Z) : option bool :=
  let p := p + 1 in
  let inv := (m p =? 94) || (m p =? 33) in
  let p := if inv then p + 1 else p in
  if (m p =? 93) && (k =? 93) then Some (negb inv)
  else if (m p =? 45) && (k =? 45) then Some (negb inv)
  else
    let p := if (m p =? 93) || (m p =? 45) then p + 1 else p in
    loop_opt (bracket_round fuel inv k kfold) fuel (p, s8 (m (p - 1))).

(** A pattern element that is no star, against a character. *)
Definition elem_match (fuel : nat) (flags c p k : Z) : option bool :=
  let kfold := if flag flags FNM_CASEFOLD then casefold k else k in
  if c =? BRACKET then match_bracket fuel p k kfold
  else Some (negb (negb (c =? QUESTION) && negb (k =? c) && negb (kfold =? c))).

(** The first loop: a return value, or pat, m, str and n after the first star. *)
Definition head_round (fuel : nat) (flags : Z) (t : Z * Z * Z * Z)
  : option ((Z * Z * Z * Z) + (Z + Z * Z * Z * Z)) :=
  let '(pat, mm, str, n) := t in
  let? (c, pinc) := pat_next fuel pat mm flags in
  if c =? UNMATCHABLE then Some (inr (inl FNM_NOMATCH))
  else if c =? STAR then Some (inr (inr (pat + 1, mm - 1, str, n)))
  else
    let '(k, sinc) := str_next str n in
    if k <=? 0 then Some (inr (inl (if c =? END then 0 else FNM_NOMATCH)))
    else
      let? b := elem_match fuel flags c pat k in
      if b then Some (inl (pat + pinc, mm - pinc, str + sinc, n - sinc))
      else Some (inr (inl FNM_NOMATCH)).

(** The scan for the last star: ptail and tailcnt; [None] inside is UNMATCHABLE. *)
Definition tail_scan_round (fuel : nat) (flags endpat : Z) (t : Z * Z * Z)
  : option ((Z * Z * Z) + option (Z * Z)) :=
  let '(p, ptail, tailcnt) := t in
  if p <? endpat then
    let? (c, pinc) := pat_next fuel p (endpat - p) flags in
    if c =? UNMATCHABLE then Some (inr None)
    else if c =? STAR then Some (inl (p + pinc, p + 1, 0))
    else Some (inl (p + pinc, ptail, tailcnt + 1))
  else Some (inr (Some (ptail, tailcnt))).

(** One character back: the inner loop of the search for the tail. *)
Definition step_back (str s : Z) : Z :=
  if (u32 (s8 (m (s - 1))) <? 128) || negb (utf8 loc) then s - 1
  else while (fun s => (u32 (m s - 128) <? 64) && (str <? s)) (fun s => s - 1)
             (Z.to_nat (s - str)) (s - 1).

Definition find_tail (str endstr tailcnt : Z) : Z * Z :=
  while (fun '(s, tailcnt) => (str <? s) && negb (tailcnt =? 0))
        (fun '(s, tailcnt) => (step_back str s, tailcnt - 1))
        (Z.to_nat tailcnt) (endstr, tailcnt).

(** The match of the tail: true or false. *)
Definition tail_round (fuel : nat) (flags endpat endstr : Z) (t : Z * Z)
  : option ((Z * Z) + bool) :=
  let '(p, s) := t in
  let? (c, pinc) := pat_next fuel p (endpat - p) flags in
  let '(k, sinc) := str_next s (endstr - s) in
  if k <=? 0 then Some (inr (c =? END))
  else
    let? b := elem_match fuel flags c p k in
    if b then Some (inl (p + pinc, s + sinc)) else Some (inr false).

(** A component between two stars at one place: [inl] the pattern and the string
    after the star, [inr true] no match here, [inr false] "return FNM_NOMATCH". *)
Definition component_round (fuel : nat) (flags endpat endstr : Z) (t : Z * Z)
  : option ((Z * Z) + ((Z * Z) + bool)) :=
  let '(p, s) := t in
  let? (c, pinc) := pat_next fuel p (endpat - p) flags in
  if c =? STAR then Some (inr (inl (p + pinc, s)))
  else
    let '(k, sinc) := str_next s (endstr - s) in
    if k =? 0 then Some (inr (inr false))
    else
      let? b := elem_match fuel flags c p k in
      if b then Some (inl (p + pinc, s + sinc)) else Some (inr (inr true)).

(** The next place in the string: one character on, past invalid bytes. *)
Definition advance (fuel : nat) (str endstr : Z) : option Z :=
  let '(k, sinc) := str_next str (endstr - str) in
  if 0 <? k then Some (str + sinc)
  else loop (fun str => if fst (str_next str (endstr - str)) <? 0 then inl (str + 1) else inr str)
            fuel (str + 1).

(** The loop over the components between stars. *)
Definition middle_round (fuel : nat) (flags endpat endstr : Z) (t : Z * Z)
  : option ((Z * Z) + Z) :=
  let '(pat, str) := t in
  if pat <? endpat then
    let? r := loop_opt (component_round fuel flags endpat endstr) fuel (pat, str) in
    match r with
    | inl (pat, str) => Some (inl (pat, str))
    | inr false => Some (inr FNM_NOMATCH)
    | inr true => let? str := advance fuel str endstr in Some (inl (pat, str))
    end
  else Some (inr 0).

(** After the first star. *)
Definition after_star (fuel : nat) (flags pat mm str n : Z) : option Z :=
  let endpat := pat + strnlen m pat mm in
  let? r := loop_opt (tail_scan_round fuel flags endpat) fuel (pat, pat, 0) in
  match r with
  | None => Some FNM_NOMATCH
  | Some (ptail, tailcnt) =>
      let n := strnlen m str n in
      let endstr := str + n in
      if n <? tailcnt then Some FNM_NOMATCH
      else
        let '(stail, rest) := find_tail str endstr tailcnt in
        if negb (rest =? 0) then Some FNM_NOMATCH
        else
          let? b := loop_opt (tail_round fuel flags endpat endstr) fuel (ptail, stail) in
          if b then loop_opt (middle_round fuel flags ptail stail) fuel (pat, str)
          else Some FNM_NOMATCH
  end.

Definition fnmatch_internal (fuel : nat) (pat mm str n flags : Z) : option Z :=
  if flag flags FNM_PERIOD && (m str =? 46) && negb (m pat =? 46) then Some FNM_NOMATCH
  else
    let? r := loop_opt (head_round fuel flags) fuel (pat, mm, str, n) in
    match r with
    | inl v => Some v
    | inr (pat, mm, str, n) => after_star fuel flags pat mm str n
    end.

(** fnmatch: the scans for a slash in the string and for one in the pattern. *)
Definition slash_in_str (fuel : nat) (str : Z) : option Z :=
  loop (fun s => if negb (m s =? 0) && negb (m s =? 47) then inl (s + 1) else inr s) fuel str.

Definition slash_in_pat (fuel : nat) (flags pat : Z) : option (Z * Z * Z) :=
  loop_opt (fun p =>
    let? (c, inc) := pat_next fuel p SIZE_MAX flags in
    Some (if negb (c =? END) && negb (c =? 47) then inl (p + inc) else inr (p, c, inc))) fuel pat.

Definition pathname_round (fuel : nat) (flags : Z) (t : Z * Z) : option ((Z * Z) + Z) :=
  let '(pat, str) := t in
  let? s := slash_in_str fuel str in
  let? (p, c, inc) := slash_in_pat fuel flags pat in
  if negb (c =? m s) && ((m s =? 0) || negb (flag flags FNM_LEADING_DIR))
  then Some (inr FNM_NOMATCH)
  else
    let? r := fnmatch_internal fuel pat (p - pat) str (s - str) flags in
    if negb (r =? 0) then Some (inr FNM_NOMATCH)
    else if c =? 0 then Some (inr 0)
    else Some (inl (p + inc, s + 1)).

Definition leading_round (fuel : nat) (flags pat str s : Z) : option (Z + option Z) :=
  if m s =? 0 then Some (inr None)
  else if negb (m s =? 47) then Some (inl (s + 1))
  else
    let? r := fnmatch_internal fuel pat SIZE_MAX str (s - str) flags in
    Some (if r =? 0 then inr (Some 0) else inl (s + 1)).

Definition fnmatch (fuel : nat) (pat str flags : Z) : option Z :=
  if flag flags FNM_PATHNAME then loop_opt (pathname_round fuel flags) fuel (pat, str)
  else
    let? r := if flag flags FNM_LEADING_DIR
              then loop_opt (leading_round fuel flags pat str) fuel str else Some None in
    match r with
    | Some v => Some v
    | None => fnmatch_internal fuel pat SIZE_MAX str SIZE_MAX flags
    end.
End Code.

(** ** Shell patterns *)

Lemma app_inv_length {A} (a b c d : list A) : a ++ b = c ++ d -> length a = length c -> a = c /\ b = d.
Proof.
  revert c. induction a as [|x a IH]; intros [|y c] E Hl; cbn [app length] in *; try lia; [now split|].
  injection E as -> E. destruct (IH c E) as [-> ->]; [lia|now split].
Qed.

Section Glob.
Context {T : Type}.
Variables (star : T -> bool) (mt : T -> Z -> bool).

(** What a pattern means: a star takes any characters, every other element one
    that it matches. *)
Fixpoint glob (ts : list T) (cs : list Z) : bool :=
  match ts with
  | [] => match cs with [] => true | _ => false end
  | t :: ts =>
      if star t then
        (fix any (cs : list Z) : bool :=
           glob ts cs || match cs with [] => false | _ :: cs => any cs end) cs
      else match cs with [] => false | k :: cs => mt t k && glob ts cs end
  end.

Inductive Glob : list T -> list Z -> Prop :=
| Glob_nil : Glob [] []
| Glob_elem t k ts cs : star t = false -> mt t k = true -> Glob ts cs -> Glob (t :: ts) (k :: cs)
| Glob_skip t ts cs : star t = true -> Glob ts cs -> Glob (t :: ts) cs
| Glob_eat t ts k cs : star t = true -> Glob (t :: ts) cs -> Glob (t :: ts) (k :: cs).

Lemma glob_star t ts cs :
  star t = true -> glob (t :: ts) cs = glob ts cs || match cs with [] => false | _ :: cs => glob (t :: ts) cs end.
Proof. intros H. destruct cs; cbn [glob]; now rewrite H. Qed.

Lemma glob_iff ts cs : glob ts cs = true <-> Glob ts cs.
Proof.
  split.
  - revert cs. induction ts as [|t ts IH]; intros cs.
    + destruct cs; [constructor|discriminate].
    + destruct (star t) eqn:E.
      * induction cs as [|k cs IHc]; rewrite glob_star by assumption; intros H;
          apply orb_prop in H as [H|H]; try discriminate;
          try (apply Glob_skip; [assumption|now apply IH]).
        apply Glob_eat; [assumption|now apply IHc].
      * destruct cs as [|k cs]; cbn [glob]; rewrite E; [discriminate|].
        intros H. apply andb_prop in H as [H1 H2]. constructor; auto.
  - induction 1 as [|t k ts cs E Hm H IH|t ts cs E H IH|t ts k cs E H IH].
    + reflexivity.
    + cbn [glob]. now rewrite E, Hm, IH.
    + rewrite glob_star, IH by assumption. reflexivity.
    + rewrite glob_star, IH by assumption. now rewrite orb_true_r.
Qed.

(** Two patterns that match the same are equal as functions. *)
Lemma glob_eq ts cs ts' cs' : (Glob ts cs <-> Glob ts' cs') -> glob ts cs = glob ts' cs'.
Proof. intros H. apply eq_true_iff_eq. now rewrite !glob_iff. Qed.

Lemma glob_false ts cs : ~ Glob ts cs -> glob ts cs = false.
Proof. rewrite <- glob_iff. now destruct (glob ts cs). Qed.

Lemma Glob_app a b cs : Glob (a ++ b) cs <-> exists c1 c2, cs = c1 ++ c2 /\ Glob a c1 /\ Glob b c2.
Proof.
  split.
  - remember (a ++ b) as ts eqn:E. intros H. revert a E.
    induction H as [|t k ts cs Et Hm H IH|t ts cs Et H IH|t ts k cs Et H IH]; intros a E.
    + symmetry in E. apply app_eq_nil in E as [-> ->]. exists [], []. repeat split; constructor.
    + destruct a as [|a0 a]; cbn [app] in E.
      * subst b. exists [], (k :: cs). repeat split; now constructor.
      * injection E as <- ->. destruct (IH a eq_refl) as (c1 & c2 & -> & H1 & H2).
        exists (k :: c1), c2. repeat split; [now constructor|assumption].
    + destruct a as [|a0 a]; cbn [app] in E.
      * subst b. exists [], cs. repeat split; now constructor.
      * injection E as <- ->. destruct (IH a eq_refl) as (c1 & c2 & -> & H1 & H2).
        exists c1, c2. repeat split; [now apply Glob_skip|assumption].
    + destruct a as [|a0 a]; cbn [app] in E.
      * subst b. exists [], (k :: cs). repeat split; [constructor|now apply Glob_eat].
      * injection E as <- ->. destruct (IH (t :: a) eq_refl) as (c1 & c2 & -> & H1 & H2).
        exists (k :: c1), c2. repeat split; [now apply Glob_eat|assumption].
  - intros (c1 & c2 & -> & H1 & H2).
    induction H1; cbn [app]; [assumption|constructor; auto|apply Glob_skip; auto|apply Glob_eat; auto].
Qed.

Definition starless (g : list T) : Prop := Forall (fun t => star t = false) g.

Lemma Glob_starless g cs : starless g -> Glob g cs -> length cs = length g.
Proof.
  intros Hg H. induction H as [|t k ts cs E Hm H IH|t ts cs E H IH|t ts k cs E H IH];
    inversion Hg; subst; cbn [length]; try congruence. f_equal. auto.
Qed.

Lemma Glob_one t cs : star t = false -> Glob [t] cs <-> exists k, cs = [k] /\ mt t k = true.
Proof.
  intros E. split.
  - intros H. inversion H as [|t' k ts cs' E' Hm H'| |]; subst; try congruence.
    inversion H'; subst. now exists k.
  - intros (k & -> & Hm). constructor; [assumption..|constructor].
Qed.

(** A star takes any prefix more. *)
Lemma Glob_eats t ts c cs : star t = true -> Glob (t :: ts) cs -> Glob (t :: ts) (c ++ cs).
Proof. intros E H. induction c; [assumption|]. now apply Glob_eat. Qed.

Lemma Glob_star t ts cs :
  star t = true -> Glob (t :: ts) cs <-> exists c1 c2, cs = c1 ++ c2 /\ Glob ts c2.
Proof.
  intros E. split.
  - remember (t :: ts) as l eqn:El. intros H. revert El.
    induction H as [|t' k ts' cs E' Hm H IH|t' ts' cs E' H IH|t' ts' k cs E' H IH]; intros El;
      try discriminate; injection El as -> ->.
    + congruence.
    + now exists [], cs.
    + destruct (IH eq_refl) as (c1 & c2 & -> & H2). now exists (k :: c1), c2.
  - intros (c1 & c2 & -> & H). apply Glob_eats; [assumption|]. now apply Glob_skip.
Qed.

Lemma app_suffix (a b c d : list Z) :
  a ++ b = c ++ d -> (length b <= length d)%nat -> exists e, d = e ++ b.
Proof.
  revert c. induction a as [|x a IH]; intros c E Hl.
  - cbn [app] in E. subst b. rewrite length_app in Hl. destruct c; [now exists []|cbn in Hl; lia].
  - destruct c as [|y c]; cbn [app] in E; [now exists (x :: a)|].
    injection E as -> E. now apply (IH c).
Qed.

Lemma Glob_mismatch g t r c0 k c :
  starless g -> star t = false -> length c0 = length g -> mt t k = false ->
  ~ Glob (g ++ t :: r) (c0 ++ k :: c).
Proof.
  intros Hg Ht Hl Hm H. apply Glob_app in H as (d1 & d2 & E & H1 & H2).
  pose proof (Glob_starless _ _ Hg H1). apply app_inv_length in E as [-> <-]; [|lia].
  inversion H2; subst; congruence.
Qed.

Variable st : T.
Hypothesis Hst : star st = true.

(** The tail: the elements after the last star match the last characters. *)
Lemma glob_tail mid tl c1 c2 :
  starless tl -> length c2 = length tl ->
  glob (st :: mid ++ tl) (c1 ++ c2) = glob tl c2 && glob (st :: mid) c1.
Proof.
  intros Htl Hl. apply eq_true_iff_eq. rewrite andb_true_iff, !glob_iff.
  rewrite app_comm_cons, Glob_app. split.
  - intros (d1 & d2 & E & H1 & H2). pose proof (Glob_starless tl d2 Htl H2) as Hd.
    assert (length c1 = length d1).
    { apply (f_equal (@length Z)) in E. rewrite !length_app in E. lia. }
    apply app_inv_length in E as [-> ->]; [now split|assumption].
  - intros [H2 H1]. now exists c1, c2.
Qed.

Lemma glob_tail_short mid tl cs :
  starless tl -> (length cs < length tl)%nat -> glob (st :: mid ++ tl) cs = false.
Proof.
  intros Htl Hl. apply glob_false. rewrite app_comm_cons, Glob_app.
  intros (d1 & d2 & -> & _ & H2). apply Glob_starless in H2; [|assumption].
  rewrite length_app in Hl. lia.
Qed.

(** The first match of a component between stars is as good as any. *)
Lemma glob_component g t r c0 c :
  starless g -> star t = true -> Glob g c0 ->
  glob (st :: g ++ t :: r) (c0 ++ c) = glob (t :: r) c.
Proof.
  intros Hg Ht H0. apply glob_eq. rewrite (Glob_star st (g ++ _)) by assumption. split.
  - intros (d1 & d2 & E & H). apply Glob_app in H as (e1 & e2 & -> & H1 & H2).
    rewrite app_assoc in E. pose proof (Glob_starless _ _ Hg H0). pose proof (Glob_starless _ _ Hg H1).
    destruct (app_suffix (d1 ++ e1) e2 c0 c) as (e & ->); [now symmetry| |now apply Glob_eats].
    apply (f_equal (@length Z)) in E. rewrite !length_app in E. lia.
  - intros H. exists [], (c0 ++ c). split; [reflexivity|]. apply Glob_app. now exists c0, c.
Qed.

(** No match at this place: the star takes the next character. *)
Lemma glob_advance ts k cs :
  ~ Glob ts (k :: cs) -> glob (st :: ts) (k :: cs) = glob (st :: ts) cs.
Proof.
  intros H. rewrite glob_star by assumption.
  apply glob_false in H. now rewrite H.
Qed.

Lemma glob_exhausted g t r c0 :
  starless g -> star t = false -> length c0 = length g ->
  glob (st :: g ++ t :: r) c0 = false.
Proof.
  intros Hg Ht Hl. apply glob_false. rewrite Glob_star by assumption.
  intros (d1 & d2 & -> & H). apply Glob_app in H as (e1 & e2 & -> & H1 & H2).
  pose proof (Glob_starless _ _ Hg H1). rewrite !length_app in Hl.
  destruct e2; [|cbn [length] in Hl; lia]. inversion H2; subst; congruence.
Qed.
End Glob.

Lemma loop_opt_total {S R} (body : S -> option (S + R)) (I : S -> Prop) (Q : R -> Prop) (mu : S -> nat) :
  (forall s, I s -> exists r, body s = Some r /\
     match r with inl s' => I s' /\ (mu s' < mu s)%nat | inr r => Q r end) ->
  forall fuel s, I s -> (mu s < fuel)%nat -> exists r, loop_opt body fuel s = Some r /\ Q r.
Proof.
  intros Hb fuel s Hs Hf. unfold loop_opt.
  destruct (loop_total (fun s => match body s with
                                 | Some (inl s) => inl s
                                 | Some (inr r) => inr (Some r)
                                 | None => inr None
                                 end) I (fun r => exists v, r = Some v /\ Q v) mu) with (fuel := fuel) (s := s)
    as (r & -> & v & -> & Hv); [|assumption..|now exists v].
  intros s' Hs'. destruct (Hb s' Hs') as ([s''|r] & -> & H); [assumption|now exists r].
Qed.

(** ** Patterns and texts in memory *)

Section Match.
Variables (loc : ctype) (m : mem) (flags : Z) (fuel : nat).
Hypothesis Hm : wf_mem m.

(** An element is the code of pat_next and the place it was read at. *)
Definition tok : Type := Z * Z.
Definition is_star (t : tok) : bool := fst t =? STAR.

Variable mt : tok -> Z -> bool.

(** Folding the case of a character does not give NUL. *)
Hypothesis Hfold : forall k, 0 < k < 2 ^ 31 -> casefold loc k <> 0.

(** The memory from [p] to [e] holds a pattern with the elements [ts], which
    [mt] says how to match. *)
Inductive pat_at : Z -> Z -> list tok -> Prop :=
| pat_nil e : pat_at e e []
| pat_cons p e c inc ts :
    (forall n, inc <= n -> pat_next loc m fuel p n flags = Some (c, inc)) ->
    0 < inc -> c <> END -> c <> UNMATCHABLE -> (c = STAR -> inc = 1) ->
    (c <> STAR -> forall k, 0 < k < 2 ^ 31 -> elem_match loc m fuel flags c p k = Some (mt (c, p) k)) ->
    (forall i, p <= i < p + inc -> m i <> 0) ->
    pat_at (p + inc) e ts -> pat_at p e ((c, p) :: ts).

(** The memory from [s] to [e] holds the characters [cs]. *)
Inductive txt_at : Z -> Z -> list Z -> Prop :=
| txt_nil e : txt_at e e []
| txt_cons s e k inc cs :
    (forall n, inc <= n -> str_next loc m s n = (k, inc)) -> 0 < k < 2 ^ 31 -> 0 < inc ->
    (forall str, str <= s -> step_back loc m str (s + inc) = s) ->
    (forall i, s <= i < s + inc -> m i <> 0) ->
    txt_at (s + inc) e cs -> txt_at s e (k :: cs).

(** A limit that ends the text at [e], or a NUL there. *)
Definition stops (a e n : Z) : Prop := n = e - a \/ e - a < n /\ m e = 0.

Lemma pat_at_le p e ts : pat_at p e ts -> p <= e.
Proof. induction 1; lia. Qed.

Lemma txt_at_le s e cs : txt_at s e cs -> s + Z.of_nat (length cs) <= e.
Proof. induction 1; cbn [length]; lia. Qed.

Lemma pat_at_count p e ts : pat_at p e ts -> Z.of_nat (length ts) <= e - p.
Proof. induction 1; cbn [length]; lia. Qed.

Lemma pat_at_app a b c xs ys : pat_at a b xs -> pat_at b c ys -> pat_at a c (xs ++ ys).
Proof. induction 1; intros; cbn [app]; [assumption|]. econstructor; eauto. Qed.

Lemma txt_at_app a b c xs ys : txt_at a b xs -> txt_at b c ys -> txt_at a c (xs ++ ys).
Proof. induction 1; intros; cbn [app]; [assumption|]. econstructor; eauto. Qed.

Lemma txt_at_split a c xs ys : txt_at a c (xs ++ ys) -> exists b, txt_at a b xs /\ txt_at b c ys.
Proof.
  revert a. induction xs as [|x xs IH]; intros a H; cbn [app] in H.
  - exists a. split; [constructor|assumption].
  - inversion H; subst. destruct (IH (a + inc)) as (b & Hb1 & Hb2); [assumption|].
    exists b. split; [|assumption]. econstructor; eauto.
Qed.

Lemma pat_at_nonzero p e ts : pat_at p e ts -> forall i, p <= i < e -> m i <> 0.
Proof.
  induction 1 as [|p e c inc ts _ _ _ _ _ _ Hz _ IH]; intros i Hi; [lia|].
  destruct (Z.lt_ge_cases i (p + inc)); [apply Hz|apply IH]; lia.
Qed.

Lemma txt_at_nonzero s e cs : txt_at s e cs -> forall i, s <= i < e -> m i <> 0.
Proof.
  induction 1 as [|s e k inc cs _ _ _ _ Hz _ IH]; intros i Hi; [lia|].
  destruct (Z.lt_ge_cases i (s + inc)); [apply Hz|apply IH]; lia.
Qed.

Lemma stops_len a e n : a <= e -> (forall i, a <= i < e -> m i <> 0) -> stops a e n -> strnlen m a n = e - a.
Proof.
  intros Hae Hz Hs. unfold strnlen.
  assert (Hn : 0 <= n) by (destruct Hs; lia).
  pose proof (memchr_first m a 0 n Hm Hn) as H. change (u8 0) with 0 in H.
  destruct (memchr m a 0 n) as [p|]; cbn [first_in] in H.
  - destruct H as (H1 & H2 & H3). destruct (Z.lt_trichotomy p e) as [Hlt|[->|Hgt]]; [|reflexivity|].
    + exfalso. apply (Hz p); [lia|assumption].
    + exfalso. destruct Hs as [->|[Hs E]]; [lia|]. apply (H3 e); [lia|assumption].
  - destruct Hs as [->|[Hs E]]; [reflexivity|]. exfalso. apply (H e); [lia|assumption].
Qed.

Lemma pat_next_end e n : stops e e n -> pat_next loc m fuel e n flags = Some (END, 0).
Proof.
  intros [->|[_ E]]; unfold pat_next; [now rewrite Z.sub_diag|]. rewrite E. now rewrite orb_true_r.
Qed.

Lemma str_next_end e n : stops e e n -> fst (str_next loc m e n) = 0.
Proof.
  unfold str_next. intros [->|[H E]]; [now rewrite Z.sub_diag|].
  replace (n =? 0) with false by lia. rewrite E. reflexivity.
Qed.

Lemma stops_more a b e n : stops a e n -> stops b e (n - (b - a)).
Proof. unfold stops. lia. Qed.

(** ** The head: up to the first star *)

Definition pmatch (ts : list tok) (cs : list Z) : bool := glob is_star mt ts cs.
Definition answer (b : bool) : Z := if b then 0 else FNM_NOMATCH.
Definition a_star : tok := (STAR, 0).

Lemma pmatch_elem t ts k cs :
  is_star t = false -> pmatch (t :: ts) (k :: cs) = mt t k && pmatch ts cs.
Proof. intros H. unfold pmatch. cbn [glob]. now rewrite H. Qed.

Lemma pmatch_star t ts cs : is_star t = true -> pmatch (t :: ts) cs = pmatch (a_star :: ts) cs.
Proof.
  intros H. apply glob_eq. rewrite !(Glob_star is_star mt); [reflexivity..|assumption].
Qed.

Definition in_head (p0 s0 pe se : Z) (ts0 : list tok) (cs0 : list Z) (t : Z * Z * Z * Z) : Prop :=
  let '(pat, mm, str, n) := t in
  exists ts cs, pmatch ts0 cs0 = pmatch ts cs /\ pat_at pat pe ts /\ txt_at str se cs /\
    stops pat pe mm /\ stops str se n /\ p0 <= pat /\ s0 <= str.

Definition head_done (p0 s0 pe se : Z) (ts0 : list tok) (cs0 : list Z) (r : Z + Z * Z * Z * Z) : Prop :=
  match r with
  | inl v => v = answer (pmatch ts0 cs0)
  | inr (pat, mm, str, n) =>
      exists ts cs, pmatch ts0 cs0 = pmatch (a_star :: ts) cs /\ pat_at pat pe ts /\ txt_at str se cs /\
        stops pat pe mm /\ stops str se n /\ p0 <= pat /\ s0 <= str
  end.

Lemma elem_end p k : 0 < k < 2 ^ 31 -> elem_match loc m fuel flags END p k = Some false.
Proof.
  intros Hk. unfold elem_match. change (END =? BRACKET) with false. change (END =? QUESTION) with false.
  unfold END. replace (k =? 0) with false by lia. pose proof (Hfold k Hk).
  destruct (flag flags FNM_CASEFOLD); [|now replace (k =? 0) with false by lia].
  now replace (casefold loc k =? 0) with false by lia.
Qed.

Lemma head_round_ok p0 s0 pe se ts0 cs0 t :
  in_head p0 s0 pe se ts0 cs0 t ->
  exists r, head_round loc m fuel flags t = Some r /\
  match r with
  | inl t' => in_head p0 s0 pe se ts0 cs0 t' /\
      (let '(pat', _, _, _) := t' in let '(pat, _, _, _) := t in pat < pat' <= pe)
  | inr r => head_done p0 s0 pe se ts0 cs0 r
  end.
Proof.
  destruct t as [[[pat mm] str] n]. intros (ts & cs & E & Hp & Ht & Sp & Ss & Gp & Gs). unfold head_round.
  inversion Hp as [e|p e c inc ts' Hn Hi Hend Hun Hst Hel Hz Hp' E1 E2 E3]; subst.
  - rewrite (pat_next_end pe mm Sp). cbn [bind]. change (END =? UNMATCHABLE) with false.
    change (END =? STAR) with false. change (END =? END) with true. cbv iota.
    inversion Ht as [e|s e k sinc cs' Hns Hk His Hb Hzs Ht' E1 E2 E3]; subst.
    + pose proof (str_next_end se n Ss) as E0. destruct (str_next loc m se n) as [k sinc].
      cbn [fst] in E0. subst k. eexists. split; [reflexivity|]. cbn [head_done]. now rewrite E.
    + rewrite Hns by (pose proof (txt_at_le _ _ _ Ht'); unfold stops in Ss; lia).
      replace (k <=? 0) with false by lia. rewrite elem_end by assumption. cbn [bind].
      eexists. split; [reflexivity|]. cbn [head_done]. now rewrite E.
  - pose proof (pat_at_le _ _ _ Hp') as Hle.
    rewrite Hn by (unfold stops in Sp; lia). cbn [bind].
    replace (c =? UNMATCHABLE) with false by lia.
    destruct (Z.eqb_spec c STAR) as [Ec|Ec].
    { eexists. split; [reflexivity|]. rewrite (Hst Ec) in Hp'. exists ts', cs.
      rewrite E, (pmatch_star (c, pat)) by (unfold is_star; cbn [fst]; lia).
      repeat split; try assumption; try lia. replace (mm - 1) with (mm - (pat + 1 - pat)) by lia. now apply stops_more. }
    assert (Hns0 : is_star (c, pat) = false) by (unfold is_star; cbn [fst]; lia).
    inversion Ht as [e0|s e0 k sinc cs' Hns Hk His Hb Hzs Ht' E1 E2 E3]; subst.
    + pose proof (str_next_end se n Ss) as E0. destruct (str_next loc m se n) as [k sinc].
      cbn [fst] in E0. subst k. eexists. split; [reflexivity|]. cbn [head_done]. rewrite E.
      replace (c =? END) with false by lia. unfold pmatch. cbn [glob]. now rewrite Hns0.
    + rewrite Hns by (pose proof (txt_at_le _ _ _ Ht'); unfold stops in Ss; lia).
      replace (k <=? 0) with false by lia. rewrite Hel by assumption. cbn [bind].
      rewrite (pmatch_elem (c, pat)) in E by assumption.
      destruct (mt (c, pat) k); (eexists; split; [reflexivity|]).
      * split; [|lia]. exists ts', cs'. repeat split; try assumption; try lia.
        -- replace (mm - inc) with (mm - (pat + inc - pat)) by lia. now apply stops_more.
        -- replace (n - sinc) with (n - (str + sinc - str)) by lia. now apply stops_more.
      * cbn [head_done]. now rewrite E.
Qed.

Lemma head_ok pe se ts cs pat mm str n :
  pat_at pat pe ts -> txt_at str se cs -> stops pat pe mm -> stops str se n ->
  (Z.to_nat (pe - pat) < fuel)%nat ->
  exists r, loop_opt (head_round loc m fuel flags) fuel (pat, mm, str, n) = Some r /\
            head_done pat str pe se ts cs r.
Proof.
  intros Hp Ht Sp Ss Hf.
  apply (loop_opt_total _ (in_head pat str pe se ts cs) (head_done pat str pe se ts cs)
    (fun '(pat, _, _, _) => Z.to_nat (pe - pat))); [|exists ts, cs; repeat split; lia || assumption|assumption].
  intros [[[p mm'] s] n'] Hi. destruct (head_round_ok _ _ _ _ _ _ _ Hi) as (r & Er & Hr).
  exists r. split; [assumption|]. destruct r as [[[[p' mm''] s'] n'']|r]; [|assumption].
  destruct Hr as [H1 H2]. split; [assumption|lia].
Qed.

(** ** The tail: after the last star *)

Definition starless_toks (ts : list tok) : Prop := starless is_star ts.

(** The pattern splits after its last star. *)
Definition last_star (pat pe : Z) (ts : list tok) (ptail cnt : Z) : Prop :=
  exists mid tl, ts = mid ++ tl /\ pat_at pat ptail mid /\ pat_at ptail pe tl /\
    starless_toks tl /\ cnt = Z.of_nat (length tl) /\
    (mid = [] \/ exists mid' t, mid = mid' ++ [t] /\ is_star t = true).

Lemma tail_scan_ok p1 pe ts :
  pat_at p1 pe ts -> (Z.to_nat (pe - p1) < fuel)%nat ->
  exists ptail cnt, loop_opt (tail_scan_round loc m fuel flags pe) fuel (p1, p1, 0) = Some (Some (ptail, cnt)) /\
    last_star p1 pe ts ptail cnt.
Proof.
  intros Hp Hf.
  destruct (loop_opt_total (tail_scan_round loc m fuel flags pe)
    (fun '(p, ptail, cnt) => exists xs todo, ts = xs ++ todo /\ pat_at p1 p xs /\ pat_at p pe todo /\
       last_star p1 p xs ptail cnt)
    (fun r => exists ptail cnt, r = Some (ptail, cnt) /\ last_star p1 pe ts ptail cnt)
    (fun '(p, _, _) => Z.to_nat (pe - p))) with (fuel := fuel) (s := (p1, p1, 0))
    as (r & -> & ptail & cnt & -> & H); [| |assumption|now exists ptail, cnt].
  2:{ exists [], ts. split; [reflexivity|]. split; [constructor|]. split; [assumption|].
      exists [], []. split; [reflexivity|]. split; [constructor|]. split; [constructor|].
      split; [constructor|]. split; [reflexivity|now left]. }
  intros [[p ptail] cnt] (xs & todo & -> & Hx & Ht & Hl). unfold tail_scan_round.
  inversion Ht as [e|p0 e c inc ts' Hn Hi Hend Hun Hst Hel Hz Hp' E1 E2 E3]; subst.
  - rewrite Z.ltb_irrefl. eexists. split; [reflexivity|]. exists ptail, cnt.
    split; [reflexivity|]. now rewrite app_nil_r.
  - pose proof (pat_at_le _ _ _ Hp') as Hle. replace (p <? pe) with true by lia.
    rewrite Hn by lia. cbn [bind]. replace (c =? UNMATCHABLE) with false by lia.
    assert (H1 : pat_at p (p + inc) [(c, p)]) by (econstructor; eauto; constructor).
    destruct (Z.eqb_spec c STAR) as [Ec|Ec]; (eexists; split; [reflexivity|]); (split; [|lia]);
      exists (xs ++ [(c, p)]), ts'; rewrite <- app_assoc; (split; [reflexivity|]);
      (split; [now apply (pat_at_app _ p)|]); (split; [assumption|]).
    + exists (xs ++ [(c, p)]), []. rewrite app_nil_r. split; [reflexivity|].
      replace (p + 1) with (p + inc) by (rewrite (Hst Ec); reflexivity).
      split; [now apply (pat_at_app _ p)|]. split; [constructor|]. split; [constructor|].
      split; [reflexivity|]. right. exists xs, (c, p). split; [reflexivity|]. unfold is_star. cbn [fst]. lia.
    + destruct Hl as (mid & tl & -> & Hm1 & Hm2 & Hsl & -> & Hlast). exists mid, (tl ++ [(c, p)]).
      rewrite <- app_assoc. split; [reflexivity|]. split; [assumption|].
      split; [now apply (pat_at_app _ p)|]. split.
      { apply Forall_app. split; [assumption|]. repeat constructor. unfold is_star. cbn [fst]. lia. }
      split; [rewrite length_app; cbn [length]; lia|assumption].
Qed.

Lemma find_tail_ok str se cs cnt :
  txt_at str se cs -> 0 <= cnt ->
  let '(s, rest) := find_tail loc m str se cnt in
  (rest <> 0 -> Z.of_nat (length cs) < cnt) /\
  (rest = 0 -> exists c1 c2, cs = c1 ++ c2 /\ txt_at str s c1 /\ txt_at s se c2 /\
                             Z.of_nat (length c2) = cnt).
Proof.
  intros Ht Hc. unfold find_tail.
  destruct (while_rule (fun '(s, tailcnt) => (str <? s) && negb (tailcnt =? 0))
        (fun '(s, tailcnt) => (step_back loc m str s, tailcnt - 1))
    (fun '(s, k) => 0 <= k /\ exists c1 c2, cs = c1 ++ c2 /\ txt_at str s c1 /\ txt_at s se c2 /\
                      Z.of_nat (length c2) = cnt - k)
    (fun '(_, k) => Z.to_nat k) (Z.to_nat cnt) (se, cnt)) as [HI Hd].
  - intros [s k] (Hk & c1 & c2 & -> & H1 & H2 & Hl) Eb. breflect. split; [|lia]. split; [lia|].
    destruct c1 as [|x c1 _] using rev_ind; [inversion H1; subst; lia|].
    apply txt_at_split in H1 as (b & Hb1 & Hb2).
    inversion Hb2 as [|s0 e0 k0 inc cs0 Hns Hk0 Hinc Hback Hz Hnil E1 E2 E3]; subst.
    inversion Hnil; subst.
    rewrite Hback by (pose proof (txt_at_le _ _ _ Hb1); lia).
    exists c1, (x :: c2). rewrite <- app_assoc. split; [reflexivity|]. split; [assumption|].
    split; [econstructor; eauto|]. cbn [length]. lia.
  - split; [lia|]. exists cs, []. rewrite app_nil_r. repeat split; [assumption|constructor|cbn [length]; lia].
  - lia.
  - destruct (while _ _ _ _) as [s k]. destruct HI as (Hk & c1 & c2 & -> & H1 & H2 & Hl).
    split; intros Hr.
    + assert (Es : s <= str) by lia. pose proof (txt_at_le _ _ _ H1).
      rewrite length_app. lia.
    + exists c1, c2. repeat split; try assumption. lia.
Qed.

Lemma tail_ok p pe s se tl cs :
  pat_at p pe tl -> starless_toks tl -> txt_at s se cs -> length cs = length tl ->
  (Z.to_nat (pe - p) < fuel)%nat ->
  loop_opt (tail_round loc m fuel flags pe se) fuel (p, s) = Some (pmatch tl cs).
Proof.
  intros Hp Hs Ht Hl Hf.
  destruct (loop_opt_total (tail_round loc m fuel flags pe se)
    (fun '(p, s) => exists tl' cs', pmatch tl cs = pmatch tl' cs' /\ pat_at p pe tl' /\
       starless_toks tl' /\ txt_at s se cs' /\ length cs' = length tl')
    (fun b => b = pmatch tl cs) (fun '(p, s) => Z.to_nat (pe - p))) with (fuel := fuel) (s := (p, s))
    as (r & E & ->); [| | |assumption].
  - clear p s Hp Ht Hf. intros [p s] (tl' & cs' & E & Hp & Hsl & Ht & El). unfold tail_round.
    inversion Hp as [e|p0 e c inc ts' Hn Hi Hend Hun Hst Hel Hz Hp' E1 E2 E3]; subst.
    + destruct cs'; [|discriminate]. inversion Ht; subst.
      rewrite pat_next_end by (left; lia). cbn [bind].
      pose proof (str_next_end se (se - se) ltac:(left; lia)) as E0.
      destruct (str_next loc m se (se - se)) as [k sinc]. cbn [fst] in E0. subst k.
      eexists. split; [reflexivity|]. now rewrite E.
    + destruct cs' as [|k cs']; [discriminate|].
      inversion Ht as [|s0 e0 k0 sinc cs0 Hns Hk0 Hsinc Hback Hzs Ht' E1 E2 E3]; subst.
      inversion Hsl as [|t0 l0 Ht0 Hsl' E1]; subst.
      rewrite Hn by (pose proof (pat_at_le _ _ _ Hp'); lia). cbn [bind].
      rewrite Hns by (pose proof (txt_at_le _ _ _ Ht'); lia).
      replace (k <=? 0) with false by lia.
      rewrite Hel by (assumption || (unfold is_star in Ht0; cbn [fst] in Ht0; lia)). cbn [bind].
      rewrite pmatch_elem in E by assumption.
      destruct (mt (c, p) k); (eexists; split; [reflexivity|]); [|now rewrite E].
      split; [|pose proof (pat_at_le _ _ _ Hp'); lia]. exists ts', cs'. injection El as El. now repeat split.
  - exists tl, cs. now repeat split.
  - assumption.
Qed.

(** ** Between the stars *)

Definition ends_star (ts : list tok) : Prop := exists ts' t, ts = ts' ++ [t] /\ is_star t = true.

Lemma ends_star_after a t r : ends_star (a ++ t :: r) -> r = [] \/ ends_star r.
Proof.
  intros (ts' & t' & E & Hs). destruct r as [|x r _] using rev_ind; [now left|right].
  exists r, x. split; [reflexivity|]. rewrite app_comm_cons, app_assoc in E.
  apply app_inj_tail in E as [_ ->]. assumption.
Qed.

Lemma ends_star_starless g : starless_toks g -> ~ ends_star g.
Proof.
  intros Hg (ts' & t & -> & Hs). apply Forall_app in Hg as [_ Hg]. inversion Hg; subst. congruence.
Qed.

Definition component_done (p s ptail se : Z) (mid : list tok) (cs : list Z)
  (r : (Z * Z) + bool) : Prop :=
  match r with
  | inl (p', s') => p < p' /\ s <= s' /\ exists mid' cs',
      pat_at p' ptail mid' /\ txt_at s' se cs' /\ (mid' = [] \/ ends_star mid') /\
      pmatch (a_star :: mid) cs = pmatch (a_star :: mid') cs'
  | inr false => pmatch (a_star :: mid) cs = false
  | inr true => exists k cs', cs = k :: cs' /\
      pmatch (a_star :: mid) cs = pmatch (a_star :: mid) cs'
  end.

Lemma component_ok p s ptail se mid cs :
  pat_at p ptail mid -> ends_star mid -> txt_at s se cs -> (Z.to_nat (ptail - p) < fuel)%nat ->
  exists r, loop_opt (component_round loc m fuel flags ptail se) fuel (p, s) = Some r /\
            component_done p s ptail se mid cs r.
Proof.
  intros Hp Hes Ht Hf.
  apply (loop_opt_total _ (fun '(q, u) => exists g r c0 c, mid = g ++ r /\ cs = c0 ++ c /\
      starless_toks g /\ Glob is_star mt g c0 /\ pat_at q ptail r /\ txt_at u se c /\
      p <= q /\ s <= u) _ (fun '(q, _) => Z.to_nat (ptail - q))).
  2:{ exists [], mid, [], cs. repeat (split; [reflexivity|]). split; [constructor|]. split; [constructor|].
      split; [assumption|]. split; [assumption|]. lia. }
  2: assumption.
  intros [q u] (g & r & c0 & c & -> & -> & Hg & Hgl & Hq & Hu & Hpq & Hsu). unfold component_round.
  inversion Hq as [e|p0 e c1 inc ts' Hn Hi Hend Hun Hst Hel Hz Hp' E1 E2 E3]; subst.
  { exfalso. rewrite app_nil_r in Hes. now apply (ends_star_starless g). }
  rewrite Hn by (pose proof (pat_at_le _ _ _ Hp'); lia). cbn [bind].
  pose proof (Glob_starless is_star mt g c0 Hg Hgl) as Hlen.
  destruct (Z.eqb_spec c1 STAR) as [Ec|Ec].
  - eexists. split; [reflexivity|]. cbn [component_done]. split; [lia|]. split; [lia|].
    exists ts', c. split; [assumption|]. split; [assumption|].
    split; [now apply ends_star_after in Hes|].
    assert (Hs : is_star (c1, q) = true) by (unfold is_star; cbn [fst]; lia).
    unfold pmatch. rewrite (glob_component is_star mt a_star eq_refl) by assumption.
    apply (pmatch_star (c1, q) ts' c Hs).
  - assert (Hns0 : is_star (c1, q) = false) by (unfold is_star; cbn [fst]; lia).
    inversion Hu as [e0|u0 e0 k sinc c' Hns Hk His Hb Hzs Hu' E1 E2 E3]; subst.
    + pose proof (str_next_end se (se - se) ltac:(left; lia)) as E0.
      destruct (str_next loc m se (se - se)) as [k sinc]. cbn [fst] in E0. subst k.
      eexists. split; [reflexivity|]. cbn [component_done]. rewrite app_nil_r.
      now apply (glob_exhausted is_star mt a_star eq_refl).
    + rewrite Hns by (pose proof (txt_at_le _ _ _ Hu'); lia).
      replace (k =? 0) with false by lia. rewrite Hel by assumption. cbn [bind].
      destruct (mt (c1, q) k) eqn:Em; (eexists; split; [reflexivity|]).
      * split; [|pose proof (pat_at_le _ _ _ Hp'); lia].
        exists (g ++ [(c1, q)]), ts', (c0 ++ [k]), c'. rewrite <- !app_assoc.
        split; [reflexivity|]. split; [reflexivity|].
        split; [apply Forall_app; split; [assumption|now repeat constructor]|].
        split; [|split; [assumption|split; [assumption|lia]]].
        apply Glob_app. exists c0, [k]. split; [reflexivity|]. split; [assumption|].
        apply Glob_one; [assumption|now exists k].
      * cbn [component_done].
        pose proof (Glob_mismatch is_star mt g (c1, q) ts' c0 k c' Hg Hns0 Hlen Em) as Hno.
        destruct (c0 ++ k :: c') as [|k1 c1'] eqn:E; [destruct c0; discriminate|].
        exists k1, c1'. split; [reflexivity|].
        now apply (glob_advance is_star mt a_star eq_refl).
Qed.

Lemma advance_ok s se k cs :
  txt_at s se (k :: cs) -> exists s', advance loc m fuel s se = Some s' /\ s < s' /\ txt_at s' se cs.
Proof.
  intros H. inversion H as [|s0 e0 k0 sinc c' Hns Hk His Hb Hzs Hu' E1 E2 E3]; subst.
  exists (s + sinc). unfold advance. rewrite Hns by (pose proof (txt_at_le _ _ _ Hu'); lia).
  replace (0 <? k) with true by lia. split; [reflexivity|]. split; [lia|assumption].
Qed.

Lemma middle_ok p s ptail se mid cs :
  pat_at p ptail mid -> (mid = [] \/ ends_star mid) -> txt_at s se cs ->
  (Z.to_nat ((ptail - p) + (se - s)) < fuel)%nat ->
  loop_opt (middle_round loc m fuel flags ptail se) fuel (p, s)
  = Some (answer (pmatch (a_star :: mid) cs)).
Proof.
  intros Hp Hes Ht Hf.
  destruct (loop_opt_total (middle_round loc m fuel flags ptail se)
    (fun '(q, u) => p <= q /\ s <= u /\ exists mid' cs', pat_at q ptail mid' /\ txt_at u se cs' /\
       (mid' = [] \/ ends_star mid') /\ pmatch (a_star :: mid) cs = pmatch (a_star :: mid') cs')
    (fun v => v = answer (pmatch (a_star :: mid) cs))
    (fun '(q, u) => Z.to_nat ((ptail - q) + (se - u)))) with (fuel := fuel) (s := (p, s))
    as (r & E & ->); [| |assumption|assumption].
  2:{ split; [lia|]. split; [lia|]. now exists mid, cs. }
  intros [q u] (Hpq & Hsu & mid' & cs' & Hq & Hu & Hes' & E). unfold middle_round.
  pose proof (pat_at_le _ _ _ Hq) as Hle. pose proof (txt_at_le _ _ _ Hu) as Hle'.
  destruct (Z.ltb_spec q ptail) as [Hlt|Hge].
  - assert (Hne : ends_star mid').
    { destruct Hes' as [->|]; [|assumption]. inversion Hq; subst. lia. }
    destruct (component_ok q u ptail se mid' cs' Hq Hne Hu ltac:(lia)) as (r & -> & Hr). cbn [bind].
    destruct r as [[q' u']|[|]]; cbn [component_done] in Hr.
    + destruct Hr as (H1 & H2 & mid'' & cs'' & H3 & H4 & H5 & H6).
      eexists. split; [reflexivity|]. pose proof (pat_at_le _ _ _ H3). pose proof (txt_at_le _ _ _ H4).
      split; [|lia]. split; [lia|]. split; [lia|]. exists mid'', cs''. now rewrite E.
    + destruct Hr as (k & cs'' & -> & Er).
      destruct (advance_ok u se k cs'' Hu) as (u' & -> & Hlt' & Hu'). cbn [bind].
      eexists. split; [reflexivity|]. pose proof (txt_at_le _ _ _ Hu').
      split; [|lia]. split; [lia|]. split; [lia|]. exists mid', cs''. now rewrite E.
    + eexists. split; [reflexivity|]. now rewrite E, Hr.
  - eexists. split; [reflexivity|]. rewrite E. assert (mid' = []).
    { inversion Hq; subst; [reflexivity|]. match goal with H : pat_at (_ + _) _ _ |- _ =>
        apply pat_at_le in H end. lia. }
    subst mid'. unfold pmatch. rewrite <- (app_nil_r cs').
    replace (glob is_star mt [a_star] (cs' ++ [])) with true; [reflexivity|]. symmetry.
    apply glob_iff. apply Glob_eats; [reflexivity|]. apply Glob_skip; [reflexivity|constructor].
Qed.

(** ** The whole match *)

Lemma after_star_ok p pe ts s se cs mm n :
  pat_at p pe ts -> txt_at s se cs -> stops p pe mm -> stops s se n ->
  (Z.to_nat ((pe - p) + (se - s)) < fuel)%nat ->
  after_star loc m fuel flags p mm s n = Some (answer (pmatch (a_star :: ts) cs)).
Proof.
  intros Hp Ht Sp Ss Hf. pose proof (pat_at_le _ _ _ Hp) as Hle. pose proof (txt_at_le _ _ _ Ht) as Hle'.
  unfold after_star.
  rewrite (stops_len p pe mm) by (assumption || now apply (pat_at_nonzero _ _ _ Hp)).
  rewrite (stops_len s se n) by (assumption || lia || now apply (txt_at_nonzero _ _ _ Ht)).
  replace (p + (pe - p)) with pe by lia. replace (s + (se - s)) with se by lia.
  destruct (tail_scan_ok p pe ts Hp ltac:(lia)) as (ptail & cnt & -> & mid & tl & -> & H1 & H2 & Hsl & -> & Hl).
  cbn [bind]. pose proof (pat_at_le _ _ _ H1). pose proof (pat_at_le _ _ _ H2).
  destruct (Z.ltb_spec (se - s) (Z.of_nat (length tl))) as [Hlt|Hge].
  { assert (Hs : (length cs < length tl)%nat) by lia.
    unfold pmatch. now rewrite (glob_tail_short is_star mt a_star) by (reflexivity || assumption). }
  pose proof (find_tail_ok s se cs (Z.of_nat (length tl)) Ht ltac:(lia)) as Hft.
  destruct (find_tail loc m s se (Z.of_nat (length tl))) as [stail rest]. destruct Hft as [F1 F2].
  destruct (Z.eqb_spec rest 0) as [->|Hr]; cbn [negb].
  - destruct (F2 eq_refl) as (c1 & c2 & -> & T1 & T2 & El). assert (Hs : length c2 = length tl) by lia.
    rewrite (tail_ok ptail pe stail se tl c2) by (assumption || lia). cbn [bind].
    unfold pmatch at 2. rewrite (glob_tail is_star mt a_star) by (reflexivity || assumption).
    fold (pmatch tl c2). fold (pmatch (a_star :: mid) c1).
    destruct (pmatch tl c2); [|reflexivity]. cbn [andb].
    apply middle_ok; try assumption.
    pose proof (txt_at_le _ _ _ T2). pose proof (txt_at_le _ _ _ T1). lia.
  - specialize (F1 Hr). assert (Hs : (length cs < length tl)%nat) by lia.
    unfold pmatch. now rewrite (glob_tail_short is_star mt a_star) by (reflexivity || assumption).
Qed.

(** A leading period asks for one in the pattern. *)
Definition period_clash (p s : Z) : bool := flag flags FNM_PERIOD && (m s =? 46) && negb (m p =? 46).

Lemma fnmatch_internal_ok p pe ts s se cs mm n :
  pat_at p pe ts -> txt_at s se cs -> stops p pe mm -> stops s se n ->
  (Z.to_nat ((pe - p) + (se - s)) < fuel)%nat ->
  fnmatch_internal loc m fuel p mm s n flags
  = Some (answer (negb (period_clash p s) && pmatch ts cs)).
Proof.
  intros Hp Ht Sp Ss Hf. unfold fnmatch_internal. fold (period_clash p s).
  destruct (period_clash p s); [reflexivity|]. cbn [negb andb].
  pose proof (txt_at_le _ _ _ Ht).
  destruct (head_ok pe se ts cs p mm s n Hp Ht Sp Ss ltac:(lia)) as (r & -> & Hr). cbn [bind].
  destruct r as [v|[[[p' mm'] s'] n']]; cbn [head_done] in Hr; [now rewrite Hr|].
  destruct Hr as (ts' & cs' & -> & Hp' & Ht' & Sp' & Ss' & Hge1 & Hge2).
  apply (after_star_ok p' pe ts' s' se cs'); try assumption. lia.
Qed.
End Match.
