(* ===== verification/Patterns.v ===== *)
(** * Patterns: what fnmatch matches

    The grammar of shell patterns, as a list of items and the bytes that write
    them, UTF-8 texts in memory, and the theorems on fnmatch (Fnmatch): the bytes of
    a pattern are read back as its items, a bracket expression matches what its
    members match, and fnmatch returns 0 exactly on the strings the items match,
    without FNM_PATHNAME and, component by component, with it.  Two examples at the
    end show what the code does with a range that ends in a character of several
    bytes and with an escaped leading period. *)

From Stdlib Require Import ZArith Lia ZifyBool List Bool.
From S2P Require Import Prelude Strings Utf8 Fnmatch.
Import ListNotations.
Open Scope Z_scope.

(** ** UTF-8 texts *)

(** The memory at [a] begins with the bytes [l]. *)
Fixpoint seg (m : mem) (a : Z) (l : list Z) : Prop :=
  match l with [] => True | b :: l => m a = b /\ seg m (a + 1) l end.

Lemma seg_app m a l1 l2 : seg m a (l1 ++ l2) <-> seg m a l1 /\ seg m (a + Z.of_nat (length l1)) l2.
Proof.
  revert a. induction l1 as [|b l1 IH]; intros a; cbn [app seg length].
  - rewrite Z.add_0_r. tauto.
  - rewrite IH. replace (a + 1 + Z.of_nat (length l1)) with (a + Z.of_nat (S (length l1))) by lia. tauto.
Qed.

Lemma seg_nth m a l i : seg m a l -> 0 <= i < Z.of_nat (length l) -> m (a + i) = nth (Z.to_nat i) l 0.
Proof.
  revert a i. induction l as [|b l IH]; intros a i Hs Hi; cbn [seg length] in *; [lia|].
  destruct Hs as [Hb Hs]. destruct (Z.eq_dec i 0) as [->|].
  - rewrite Z.add_0_r. assumption.
  - replace (Z.to_nat i) with (S (Z.to_nat (i - 1))) by lia. cbn [nth].
    rewrite <- (IH (a + 1)) by (assumption || lia). f_equal. lia.
Qed.

Lemma seg_bytes m a l : seg m a l -> bytes_at m a (length l) = l.
Proof.
  revert a. induction l as [|b l IH]; intros a Hs; cbn [seg length bytes_at] in *; [reflexivity|].
  destruct Hs as [<- Hs]. f_equal. now apply IH.
Qed.

Lemma cstr_seg m a l : cstr m a l -> seg m a l /\ m (a + Z.of_nat (length l)) = 0.
Proof.
  revert a. induction l as [|b l IH]; intros a H; cbn [cstr seg length] in *.
  - now rewrite Z.add_0_r.
  - destruct H as (Hb & _ & H). destruct (IH _ H) as [H1 H2].
    now replace (a + Z.of_nat (S (length l))) with (a + 1 + Z.of_nat (length l)) by lia.
Qed.

Definition char_ok (c : Z) : Prop := scalar c /\ 0 < c.
Definition text (cs : list Z) : list Z := concat (map utf8_encode cs).

Lemma high_byte b : 0 <= b < 256 -> (128 <=? u32 (s8 b)) = (128 <=? b).
Proof. intros Hb. unfold u32, s8. destruct (Z.lt_ge_cases b 128); zlia. Qed.

Section Utf8Text.
Variables (m : mem) (s cp : Z).
Hypothesis Hm : wf_mem m.
Hypothesis Hcp : char_ok cp.
Hypothesis Hs : seg m s (utf8_encode cp).
Let len : Z := Z.of_nat (length (utf8_encode cp)).

(** The bytes of a character: one below 128, or a lead byte and others. *)
Lemma encode_shape :
  (len = 1 /\ m s = cp /\ cp < 128) \/
  (1 < len <= 4 /\ 128 <= m s /\ lead (m s) = true /\ len = 1 + Z.of_nat (tail_len (m s)) /\
   forall i, 0 < i < len -> cont (m (s + i)) = true).
Proof.
  destruct Hcp as [Hsc Hpos]. pose proof (encode_passes cp Hsc) as Hp.
  pose proof (utf8_encode_length cp) as Hl. subst len.
  destruct (utf8_encode cp) as [|b0 [|b1 tl]] eqn:E; cbn [passes] in Hp; [easy|left|right].
  - destruct Hp as [-> Hlt]. cbn [seg length] in *. destruct Hs as [-> _]. lia.
  - destruct Hp as (Hge & Hld & H2 & Hf & Ht & Hv).
    pose proof Hs as [E0 _]. rewrite E0. cbn [length] in *. repeat split; try lia; try assumption.
    intros i Hi. rewrite (seg_nth m s (b0 :: b1 :: tl)) by (assumption || (cbn [length]; lia)).
    replace (Z.to_nat i) with (S (Z.to_nat (i - 1))) by lia.
    rewrite Forall_forall in Hf. apply Hf. apply (nth_In (b1 :: tl)). cbn [length]. lia.
Qed.

Lemma encode_len : 1 <= len <= 4.
Proof. subst len. pose proof (utf8_encode_length cp). lia. Qed.

Lemma mbtowc_encode n : len <= n -> mbtowc true m (Some s) n = mk_mbres len (Some cp) 0 None.
Proof.
  intros Hn. pose proof encode_len as Hl. unfold mbtowc. replace (n =? 0) with false by lia.
  destruct encode_shape as [(E & Eb & Hlt)|(Hl4 & Hge & Hld & Hlen & Hc)].
  - rewrite Eb. replace (cp <? 128) with true by lia. rewrite E.
    destruct Hcp. now replace (cp =? 0) with false by lia.
  - replace (m s <? 128) with false by lia. cbn [negb].
    rewrite lead_test by (apply Hm || lia). rewrite Hld. cbn [negb].
    rewrite mbtowc_len_test by (assumption || lia).
    replace (n <=? Z.of_nat (tail_len (m s))) with false by lia.
    pose proof (mbtowc_tail m s [] Hm Hld) as Ht. cbv zeta in Ht |- *. rewrite Ht, app_nil_r. clear Ht.
    pose proof (run_encode cp [] (proj1 Hcp)) as Hr. rewrite app_nil_r in Hr.
    rewrite <- (seg_bytes m s _ Hs) in Hr at 1.
    replace (length (utf8_encode cp)) with (S (tail_len (m s))) in Hr at 1 by (subst len; lia).
    cbn [bytes_at run] in Hr. replace (m s <? 128) with false in Hr by lia. rewrite Hld in Hr.
    rewrite Hr. reflexivity.
Qed.

Lemma str_next_encode loc n :
  utf8 loc = true -> len <= n -> str_next loc m s n = (cp, len).
Proof.
  intros Hu Hn. pose proof encode_len. unfold str_next. replace (n =? 0) with false by lia.
  rewrite high_byte by apply Hm. destruct encode_shape as [(E & Eb & Hlt)|(Hl4 & Hge & _)].
  - rewrite Eb. replace (128 <=? cp) with false by lia. now rewrite E.
  - replace (128 <=? m s) with true by lia. rewrite Hu, mbtowc_encode by assumption. cbn [ret].
    now replace (len <? 0) with false by lia.
Qed.

Lemma step_back_encode loc str :
  utf8 loc = true -> str <= s -> step_back loc m str (s + len) = s.
Proof.
  intros Hu Hstr. pose proof encode_len. unfold step_back. rewrite Hu. cbn [negb]. rewrite orb_false_r.
  replace (u32 (s8 (m (s + len - 1))) <? 128) with (negb (128 <=? m (s + len - 1)))
    by (rewrite <- high_byte by apply Hm; lia).
  destruct encode_shape as [(E & Eb & Hlt)|(Hl4 & Hge & Hld & Hlen & Hc)].
  - rewrite E. replace (s + 1 - 1) with s by lia. rewrite Eb. now replace (128 <=? cp) with false by lia.
  - pose proof (Hc (len - 1) ltac:(lia)) as Hlast. replace (s + (len - 1)) with (s + len - 1) in Hlast by lia.
    replace (128 <=? m (s + len - 1)) with true by (unfold cont in Hlast; lia). cbn [negb].
    destruct (while_rule (fun u => (u32 (m u - 128) <? 64) && (str <? u)) (fun u => u - 1)
      (fun u => s <= u < s + len) (fun u => Z.to_nat (u - s)) (Z.to_nat (s + len - str)) (s + len - 1))
      as [HI Hd]; [|lia..|].
    + intros u Hi E. destruct (Z.eq_dec u s) as [->|]; [|lia]. exfalso.
      pose proof (Hm s). unfold lead in Hld. rewrite u32_small in E by lia. lia.
    + set (u := while _ _ _ _) in *. destruct (Z.eq_dec u s) as [->|Hne]; [reflexivity|].
      exfalso. pose proof (Hc (u - s) ltac:(lia)) as Hcu. replace (s + (u - s)) with u in Hcu by lia.
      pose proof (cont_test (m u) (Hm u)) as Ht. rewrite Hcu in Ht. cbn [negb] in Ht. lia.
Qed.

Lemma encode_nonzero i : 0 <= i < len -> m (s + i) <> 0.
Proof.
  intros Hi. destruct encode_shape as [(E & Eb & Hlt)|(Hl4 & Hge & Hld & Hlen & Hc)].
  - replace i with 0 by lia. rewrite Z.add_0_r. destruct Hcp. lia.
  - destruct (Z.eq_dec i 0) as [->|]; [rewrite Z.add_0_r; lia|].
    specialize (Hc i ltac:(lia)). unfold cont in Hc. lia.
Qed.
End Utf8Text.

Lemma text_cons c cs : text (c :: cs) = utf8_encode c ++ text cs.
Proof. reflexivity. Qed.

Lemma text_at loc m s cs :
  wf_mem m -> utf8 loc = true -> Forall char_ok cs -> seg m s (text cs) ->
  txt_at loc m s (s + Z.of_nat (length (text cs))) cs.
Proof.
  intros Hm Hu Hcs. revert s. induction Hcs as [|c cs Hc Hcs IH]; intros s Hs.
  - cbn [text map concat length]. rewrite Z.add_0_r. constructor.
  - rewrite text_cons in *. apply seg_app in Hs as [H1 H2]. rewrite length_app.
    pose proof (utf8_encode_length c).
    apply (txt_cons loc m s _ c (Z.of_nat (length (utf8_encode c)))).
    + intros n Hn. now apply str_next_encode.
    + destruct Hc as [Hsc Hpos]. unfold scalar in Hsc. lia.
    + lia.
    + intros str Hstr. now apply (step_back_encode m s c).
    + intros i Hi. replace i with (s + (i - s)) by lia. apply (encode_nonzero m s c); auto. lia.
    + replace (s + Z.of_nat (length (utf8_encode c) + length (text cs)))
        with (s + Z.of_nat (length (utf8_encode c)) + Z.of_nat (length (text cs))) by lia.
      now apply IH.
Qed.

(** ** The grammar of patterns *)

(** Members of a bracket expression: a character, a range, a class. *)
Inductive member := MChar (c : Z) | MRange (a b : Z) | MClass (name : list Z).

(** Elements of a pattern; the mark of a bracket expression is its ! or ^. *)
Inductive item := IStar | IAny | IChar (c : Z) | IEscape (c : Z)
  | ISet (mark : option Z) (xs : list member).

Definition member_bytes (x : member) : list Z :=
  match x with
  | MChar c => utf8_encode c
  | MRange a b => utf8_encode a ++ [45; b]
  | MClass name => [91; 58] ++ name ++ [58; 93]
  end.

Definition members_bytes (xs : list member) : list Z := concat (map member_bytes xs).
Definition mark_bytes (mark : option Z) : list Z := match mark with Some c => [c] | None => [] end.

Definition item_bytes (it : item) : list Z :=
  match it with
  | IStar => [42]
  | IAny => [63]
  | IChar c => utf8_encode c
  | IEscape c => 92 :: utf8_encode c
  | ISet mark xs => 91 :: mark_bytes mark ++ members_bytes xs ++ [93]
  end.

Definition pattern_bytes (its : list item) : list Z := concat (map item_bytes its).

(** A member is written with characters that have no meaning of their own there;
    the upper end of a range is a single byte. *)
Definition plain (c : Z) : Prop :=
  char_ok c /\ c <> 33 /\ c <> 45 /\ c <> 91 /\ c <> 93 /\ c <> 94.

Definition member_ok (x : member) : Prop :=
  match x with
  | MChar c => plain c
  | MRange a b => plain a /\ plain b /\ a <= b < 128
  | MClass name => Forall (fun b => 97 <= b <= 122) name /\ (length name < 16)%nat
  end.

Definition item_ok (flags : Z) (it : item) : Prop :=
  match it with
  | IStar | IAny => True
  | IChar c => char_ok c /\ c <> 42 /\ c <> 63 /\ c <> 91 /\ (c <> 92 \/ flag flags FNM_NOESCAPE = true)
  | IEscape c => char_ok c /\ flag flags FNM_NOESCAPE = false
  | ISet mark xs => xs <> [] /\ Forall member_ok xs /\
                    match mark with Some c => c = 33 \/ c = 94 | None => True end
  end.

(** What they match: [kf] is the character with its case folded, if asked for. *)
Definition member_match (loc : ctype) (k kf : Z) (x : member) : bool :=
  match x with
  | MChar c => (c =? k) || (c =? kf)
  | MRange a b => ((a <=? k) && (k <=? b)) || ((a <=? kf) && (kf <=? b))
  | MClass name => iswctype loc name k || iswctype loc name kf
  end.

Definition folded (loc : ctype) (flags k : Z) : Z :=
  if flag flags FNM_CASEFOLD then casefold loc k else k.

Definition item_match (loc : ctype) (flags : Z) (it : item) (k : Z) : bool :=
  let kf := folded loc flags k in
  match it with
  | IStar => false
  | IAny => true
  | IChar c | IEscape c => (k =? c) || (kf =? c)
  | ISet mark xs => xorb (match mark with Some _ => true | None => false end)
                         (existsb (member_match loc k kf) xs)
  end.

Definition item_star (it : item) : bool := match it with IStar => true | _ => false end.

(** ** Bracket expressions *)

Lemma loop_opt_inl {S R} (body : S -> option (S + R)) n s s' :
  body s = Some (inl s') -> loop_opt body (Datatypes.S n) s = loop_opt body n s'.
Proof. intros H. unfold loop_opt. cbn [loop]. now rewrite H. Qed.

Lemma loop_opt_inr {S R} (body : S -> option (S + R)) n s r :
  body s = Some (inr r) -> loop_opt body (Datatypes.S n) s = Some r.
Proof. intros H. unfold loop_opt. cbn [loop]. now rewrite H. Qed.

(** [c] rounds from [s] end in [s'], whatever fuel is left. *)
Definition rounds {S R} (body : S -> option (S + R)) (c : nat) (s s' : S) : Prop :=
  forall n, loop_opt body (c + n) s = loop_opt body n s'.

Lemma rounds_one {S R} (body : S -> option (S + R)) s s' : body s = Some (inl s') -> rounds body 1 s s'.
Proof. intros H n. now apply loop_opt_inl. Qed.

Lemma rounds_app {S R} (body : S -> option (S + R)) c1 c2 s1 s2 s3 :
  rounds body c1 s1 s2 -> rounds body c2 s2 s3 -> rounds body (c1 + c2) s1 s3.
Proof. intros H1 H2 n. rewrite <- Nat.add_assoc, H1. apply H2. Qed.

Lemma seg_ext_byte m a l : seg m a l -> forall P : Z -> Prop, Forall P l ->
  forall i, 0 <= i < Z.of_nat (length l) -> P (m (a + i)).
Proof.
  intros Hs P Hl i Hi. rewrite (seg_nth m a l i) by assumption.
  rewrite Forall_forall in Hl. apply Hl, nth_In. lia.
Qed.

Section Brackets.
Variables (m : mem) (fuel : nat).

(** The bytes of a character: the character, or not below 128. *)
Lemma char_bytes c : char_ok c ->
  Forall (fun b => b = c /\ c < 128 \/ 128 <= b < 256) (utf8_encode c).
Proof.
  intros [Hsc _]. pose proof (encode_passes c Hsc) as Hp.
  destruct (utf8_encode c) as [|b0 [|b1 tl]]; cbn [passes] in Hp; [easy| |].
  - constructor; [lia|constructor].
  - destruct Hp as (Hge & Hld & _ & Hf & _). unfold lead in Hld. constructor; [lia|].
    eapply Forall_impl; [|exact Hf]. unfold cont. cbv beta. lia.
Qed.

Definition inner (b : Z) : Prop := b <> 0 /\ b <> 91 /\ b <> 93.

Lemma plain_inner c : plain c -> Forall inner (utf8_encode c).
Proof.
  intros (Hc & Hp). eapply Forall_impl; [|now apply char_bytes]. unfold inner. destruct Hc.
  cbv beta. intros b. lia.
Qed.

Lemma plain_first c b l : plain c -> utf8_encode c = b :: l ->
  b <> 33 /\ b <> 45 /\ b <> 91 /\ b <> 93 /\ b <> 94.
Proof.
  intros (Hc & Hp) E. pose proof (char_bytes c Hc) as H. rewrite E in H. inversion H; subst. lia.
Qed.

(** The scan for the end of a class name in pat_next and in match_bracket. *)
Lemma class_end (cond : Z -> bool) o k name :
  seg m (o + k) ([91; 58] ++ name ++ [58; 93]) -> Forall (fun b => 97 <= b <= 122) name ->
  (forall j, k + 3 <= j <= k + 3 + Z.of_nat (length name) ->
     cond j = negb (m (o + (j - 1)) =? 58) || negb (m (o + j) =? 93)) ->
  (length name < fuel)%nat ->
  loop (fun j => if cond j then inl (j + 1) else inr j) fuel (k + 3)
  = Some (k + 3 + Z.of_nat (length name)).
Proof.
  intros Hs Hn Hcond Hf. set (e := k + 3 + Z.of_nat (length name)).
  apply seg_app in Hs as [_ Hs]. cbn [length] in Hs. apply seg_app in Hs as [H1 H2].
  replace (o + k + Z.of_nat 2) with (o + k + 2) in * by lia.
  destruct (loop_total (fun j => if cond j then inl (j + 1) else inr j)
    (fun j => k + 3 <= j <= e) (fun r => r = e) (fun j => Z.to_nat (e - j)))
    with (fuel := fuel) (s := k + 3) as (r & -> & ->); [|lia..|reflexivity].
  intros j Hj. rewrite Hcond by lia.
  destruct (Z.eq_dec j e) as [->|Hne].
  - cbn [seg] in H2. destruct H2 as (E1 & E2 & _).
    replace (m (o + (e - 1))) with 58 by (rewrite <- E1; f_equal; lia).
    now replace (m (o + e)) with 93 by (rewrite <- E2; f_equal; lia).
  - pose proof (seg_ext_byte m _ name H1 _ Hn (j - 3 - k) ltac:(lia)) as Hb.
    cbv beta in Hb. replace (o + k + 2 + (j - 3 - k)) with (o + (j - 1)) in Hb by lia.
    replace (m (o + (j - 1)) =? 58) with false by lia. cbn [negb orb]. lia.
Qed.

(** *** The scan of pat_next *)

Section Scan.
Variables pat n : Z.

Definition scan_body (k : Z) : option (Z + Z) :=
    if (k <? n) && negb (m (pat + k) =? 0) && negb (m (pat + k) =? 93) then
      if (k + 1 <? n) && negb (m (pat + (k + 1)) =? 0) && (m (pat + k) =? 91) &&
         class_mark (m (pat + (k + 1))) then
        let z := m (pat + (k + 1)) in
        let k := k + 2 in
        let k := if (k <? n) && negb (m (pat + k) =? 0) then k + 1 else k in
        let? k := loop (fun k =>
            if (k <? n) && negb (m (pat + k) =? 0) &&
               (negb (m (pat + (k - 1)) =? z) || negb (m (pat + k) =? 93))
            then inl (k + 1) else inr k) fuel k in
        Some (if (k =? n) || (m (pat + k) =? 0) then inr k else inl (k + 1))
      else Some (inl (k + 1))
    else Some (inr k).

Lemma scan_inner l k :
  seg m (pat + k) l -> Forall inner l -> k + Z.of_nat (length l) <= n ->
  rounds scan_body (length l) k (k + Z.of_nat (length l)).
Proof.
  revert k. induction l as [|b l IH]; intros k Hs Hi Hn.
  - intros j. cbn [length Nat.add]. f_equal. lia.
  - destruct Hs as [Hb Hs]. inversion Hi as [|? ? (Hb0 & Hb1 & Hb2) Hi']; subst. cbn [length] in *.
    replace (k + Z.of_nat (S (length l))) with (k + 1 + Z.of_nat (length l)) by lia.
    apply (rounds_app _ 1 (length l) k (k + 1)).
    + apply rounds_one. unfold scan_body.
      replace (k <? n) with true by lia. replace (m (pat + k) =? 0) with false by lia.
      replace (m (pat + k) =? 93) with false by lia. replace (m (pat + k) =? 91) with false by lia.
      cbn [negb andb]. now rewrite andb_false_r.
    + apply IH; [|assumption|lia]. now replace (pat + (k + 1)) with (pat + k + 1) by lia.
Qed.

Lemma scan_class name k :
  seg m (pat + k) (member_bytes (MClass name)) -> member_ok (MClass name) ->
  k + Z.of_nat (length name) + 4 <= n -> (length name < fuel)%nat ->
  rounds scan_body 1 k (k + Z.of_nat (length name) + 4).
Proof.
  cbn [member_bytes member_ok]. intros Hs [Hn Hl] Hk Hf. apply rounds_one.
  pose proof Hs as Hall. cbn [app seg] in Hs. destruct Hs as (E0 & E1 & Hs). unfold scan_body.
  replace (k <? n) with true by lia. replace (k + 1 <? n) with true by lia. rewrite E0.
  replace (pat + (k + 1)) with (pat + k + 1) by lia. rewrite E1.
  change (91 =? 0) with false. change (91 =? 93) with false. change (58 =? 0) with false.
  change (91 =? 91) with true. change (class_mark 58) with true. cbn [negb andb].
  assert (Hnz : forall i, 0 <= i < Z.of_nat (length name) + 2 -> m (pat + k + 2 + i) <> 0).
  { intros i Hi. replace (pat + k + 1 + 1) with (pat + k + 2) in Hs by lia.
    apply (seg_ext_byte m (pat + k + 2) (name ++ [58; 93]) Hs (fun b => b <> 0));
      [|rewrite length_app; cbn [length]; lia].
    apply Forall_app. split; [eapply Forall_impl; [|exact Hn]; cbv beta; intros; lia|].
    repeat constructor; lia. }
  replace (pat + (k + 2)) with (pat + k + 2 + 0) by lia.
  replace (m (pat + k + 2 + 0) =? 0) with false by (specialize (Hnz 0); lia).
  replace (k + 2 <? n) with true by lia. cbn [negb andb].
  assert (Hloop : loop (fun k => if (k <? n) && negb (m (pat + k) =? 0) &&
               (negb (m (pat + (k - 1)) =? 58) || negb (m (pat + k) =? 93))
            then inl (k + 1) else inr k) fuel (k + 2 + 1) = Some (k + 3 + Z.of_nat (length name))).
  { replace (k + 2 + 1) with (k + 3) by lia.
    apply (class_end (fun k => (k <? n) && negb (m (pat + k) =? 0) &&
               (negb (m (pat + (k - 1)) =? 58) || negb (m (pat + k) =? 93))) pat k name Hall Hn); [|assumption].
    intros j Hj. replace (j <? n) with true by lia.
    specialize (Hnz (j - k - 2) ltac:(lia)). replace (pat + k + 2 + (j - k - 2)) with (pat + j) in Hnz by lia.
    now replace (m (pat + j) =? 0) with false by lia. }
  rewrite Hloop. cbn [bind].
  replace (pat + (k + 3 + Z.of_nat (length name))) with (pat + k + 2 + (Z.of_nat (length name) + 1)) by lia.
  replace (m _ =? 0) with false by (specialize (Hnz (Z.of_nat (length name) + 1)); lia).
  replace (_ =? n) with false by lia. cbn [orb]. do 2 f_equal. lia.
Qed.

Lemma scan_member x k :
  seg m (pat + k) (member_bytes x) -> member_ok x ->
  k + Z.of_nat (length (member_bytes x)) <= n -> (length (member_bytes x) <= fuel)%nat ->
  exists c, (c <= length (member_bytes x))%nat /\
            rounds scan_body c k (k + Z.of_nat (length (member_bytes x))).
Proof.
  intros Hs Hok Hn Hf. destruct x as [c|a b|name]; cbn [member_ok] in Hok.
  - eexists. split; [|apply scan_inner; [exact Hs|now apply plain_inner|assumption]]. reflexivity.
  - eexists. split; [|apply scan_inner; [exact Hs| |assumption]]; [reflexivity|].
    destruct Hok as (Ha & (Hb & Hb') & _). destruct Hb. apply Forall_app.
    split; [now apply plain_inner|]. unfold inner. repeat constructor; lia.
  - exists 1%nat. cbn [member_bytes length app] in *. rewrite length_app in *. cbn [length] in *.
    split; [lia|].
    replace (k + Z.of_nat (S (S (length name + 2)))) with (k + Z.of_nat (length name) + 4) by lia.
    apply scan_class; [exact Hs|exact Hok|lia|lia].
Qed.

Lemma scan_members xs k :
  seg m (pat + k) (members_bytes xs) -> Forall member_ok xs ->
  k + Z.of_nat (length (members_bytes xs)) <= n -> (length (members_bytes xs) <= fuel)%nat ->
  exists c, (c <= length (members_bytes xs))%nat /\
            rounds scan_body c k (k + Z.of_nat (length (members_bytes xs))).
Proof.
  intros Hs Hok. revert k Hs. induction Hok as [|x xs Hx Hxs IH]; intros k Hs Hn Hf.
  - exists O. split; [lia|]. intros j. cbn [members_bytes map concat length Nat.add]. f_equal. lia.
  - unfold members_bytes in *. cbn [map concat] in *. rewrite length_app in *.
    apply seg_app in Hs as [H1 H2].
    destruct (scan_member x k H1 Hx ltac:(lia) ltac:(lia)) as (c1 & Hc1 & R1).
    destruct (IH (k + Z.of_nat (length (member_bytes x)))) as (c2 & Hc2 & R2); [|lia|lia|].
    { now rewrite Z.add_assoc. }
    exists (c1 + c2)%nat. split; [lia|].
    replace (k + Z.of_nat (length (member_bytes x) + length (concat (map member_bytes xs))))
      with (k + Z.of_nat (length (member_bytes x)) + Z.of_nat (length (concat (map member_bytes xs)))) by lia.
    now apply (rounds_app _ _ _ _ (k + Z.of_nat (length (member_bytes x)))).
Qed.
End Scan.

(** The first byte of a list of members is none that is special there. *)
Lemma members_first xs b l :
  xs <> [] -> Forall member_ok xs -> members_bytes xs = b :: l ->
  b <> 33 /\ b <> 93 /\ b <> 94 /\ b <> 45.
Proof.
  intros Hne Hok E. destruct Hok as [|x xs Hx _]; [easy|].
  unfold members_bytes in E. cbn [map concat] in E. destruct x as [c|a b'|name]; cbn [member_bytes member_ok] in *.
  - destruct (utf8_encode c) as [|b0 l0] eqn:Ec; [pose proof (utf8_encode_length c) as H; rewrite Ec in H; cbn in H; lia|].
    cbn [app] in E. injection E as <- _. pose proof (plain_first c b0 l0 Hx Ec). lia.
  - destruct (utf8_encode a) as [|b0 l0] eqn:Ec; [pose proof (utf8_encode_length a) as H; rewrite Ec in H; cbn in H; lia|].
    cbn [app] in E. injection E as <- _. pose proof (plain_first a b0 l0 (proj1 Hx) Ec). lia.
  - cbn [app] in E. injection E as <- _. lia.
Qed.

Lemma members_nonempty xs : xs <> [] -> members_bytes xs <> [].
Proof.
  destruct xs as [|x xs]; [easy|]. intros _. unfold members_bytes. cbn [map concat].
  assert (member_bytes x <> []); [|destruct (member_bytes x); easy].
  pose proof (utf8_encode_length) as H.
  destruct x as [c|a b|name]; cbn [member_bytes]; [|now destruct (utf8_encode a)|easy].
  intros E. specialize (H c). rewrite E in H. cbn in H. lia.
Qed.

Definition mark_ok (mark : option Z) : Prop := match mark with Some c => c = 33 \/ c = 94 | None => True end.

Lemma bracket_scan_ok pat n mark xs :
  let len := Z.of_nat (length (item_bytes (ISet mark xs))) in
  seg m pat (item_bytes (ISet mark xs)) -> xs <> [] -> Forall member_ok xs -> mark_ok mark ->
  len <= n -> (Z.to_nat len < fuel)%nat ->
  bracket_scan m fuel pat n = Some (len - 1) /\ m (pat + (len - 1)) = 93.
Proof.
  cbv zeta. cbn [item_bytes]. intros Hs Hne Hok Hmark Hn Hf.
  cbn [length] in *. rewrite !length_app in *. cbn [length] in *.
  destruct Hs as [E0 Hs]. apply seg_app in Hs as [Hs1 Hs2]. apply seg_app in Hs2 as [Hs2 Hs3].
  destruct Hs3 as [Eend _].
  pose proof (members_nonempty xs Hne) as Hnn. pose proof (members_first xs) as Hfst.
  destruct (members_bytes xs) as [|b l] eqn:Eb; [easy|].
  specialize (Hfst b l Hne Hok eq_refl). rewrite <- Eb in *.
  set (M := Z.of_nat (length (members_bytes xs))) in *.
  set (k0 := 1 + Z.of_nat (length (mark_bytes mark))).
  assert (Efst : m (pat + k0) = b).
  { rewrite Eb in Hs2. destruct Hs2 as [E _]. rewrite <- E. f_equal. lia. }
  assert (Eend' : m (pat + (k0 + M)) = 93) by (rewrite <- Eend; f_equal; lia).
  split.
  - unfold bracket_scan.
    assert (Ek : (if (1 <? n) && ((m (pat + 1) =? 94) || (m (pat + 1) =? 33)) then 1 + 1 else 1) = k0).
    { subst k0. destruct mark as [c|]; cbn [mark_bytes length mark_ok] in *.
      - destruct Hs1 as [E1 _]. rewrite E1. replace (1 <? n) with true by lia.
        replace ((c =? 94) || (c =? 33)) with true by lia. reflexivity.
      - change (1 + Z.of_nat 0) with 1 in *. rewrite Efst. replace ((b =? 94) || (b =? 33)) with false by lia.
        now rewrite andb_false_r. }
    rewrite Ek, Efst. replace (b =? 93) with false by lia. rewrite andb_false_r.
    change (loop_opt (scan_body pat n) fuel k0 = Some (Z.of_nat (S (length (mark_bytes mark) + (length (members_bytes xs) + 1))) - 1)).
    destruct (scan_members pat n xs k0) as (c & Hc & R); [|assumption|lia|lia|].
    { now replace (pat + k0) with (pat + 1 + Z.of_nat (length (mark_bytes mark))) by lia. }
    fold M in R. pose proof (R (S (fuel - c - 1))) as R'.
    replace (c + S (fuel - c - 1))%nat with fuel in R' by lia. rewrite R'.
    rewrite (loop_opt_inr _ _ _ (k0 + M)); [f_equal; lia|].
    unfold scan_body. rewrite Eend'. change (93 =? 93) with true. now rewrite andb_false_r.
  - rewrite <- Eend'. f_equal. lia.
Qed.

(** *** The match of a bracket expression *)

Section Members.
Variables (loc : ctype) (inv : bool) (k kf : Z).
Hypothesis Hm : wf_mem m.
Hypothesis Hu : utf8 loc = true.
Hypothesis Hk : 0 < k < 2 ^ 31.
Hypothesis Hkf : 0 < kf < 2 ^ 31.

Notation body := (bracket_round loc m fuel inv k kf).

(** After [c] rounds from [t]: the answer if [b], or the place [p']. *)
Definition member_done (len : nat) (t : Z * Z) (p' : Z) (b : bool) : Prop :=
  exists c, (c <= len)%nat /\
  if b then forall n, loop_opt body (c + n) t = Some (negb inv)
  else exists wc', rounds body c t (p', wc').

Lemma round_char c p wc :
  plain c -> seg m p (utf8_encode c) ->
  body (p, wc) = Some (if (c =? k) || (c =? kf) then inr (negb inv)
                       else inl (p + Z.of_nat (length (utf8_encode c)), c)).
Proof.
  intros [Hc Hp] Hs. unfold bracket_round.
  destruct (encode_shape m p c Hc Hs) as [(E & Eb & Hlt)|(Hl4 & Hge & Hld & Hlen & Hcont)].
  - rewrite Eb, E. replace (c =? 93) with false by lia. replace (c =? 45) with false by lia.
    replace (c =? 91) with false by lia. replace (c <? 128) with true by lia. cbn [andb].
    now destruct (_ || _).
  - replace (m p =? 93) with false by lia. replace (m p =? 45) with false by lia.
    replace (m p =? 91) with false by lia. replace (m p <? 128) with false by lia. cbn [andb].
    rewrite Hu, (mbtowc_encode m p c Hm Hc Hs) by lia. cbn [ret]. replace (_ <? 0) with false by lia.
    unfold stored. cbn [wcv]. destruct (_ || _); [reflexivity|]. do 3 f_equal. lia.
Qed.

Lemma span_test a b : 0 < a <= b -> b < 128 \/ b < 2 ^ 31 ->
  in_range k kf a b = ((a <=? k) && (k <=? b)) || ((a <=? kf) && (kf <=? b)).
Proof.
  intros Hab Hb. unfold in_range. replace (a <=? b) with true by lia. cbn [andb].
  rewrite (u32_small (b - a)) by lia.
  assert (H : forall j, 0 < j < 2 ^ 31 -> (u32 (j - a) <=? b - a) = (a <=? j) && (j <=? b)).
  { intros j Hj. unfold u32. destruct (Z.le_gt_cases a j).
    - rewrite Z.mod_small by lia. lia.
    - replace ((j - a) mod 4294967296) with (j - a + 4294967296) by zlia. lia. }
  now rewrite !H.
Qed.

Lemma member_ok_done x p wc :
  seg m p (member_bytes x) -> member_ok x -> (length (member_bytes x) <= fuel)%nat ->
  member_done (length (member_bytes x)) (p, wc) (p + Z.of_nat (length (member_bytes x)))
    (member_match loc k kf x).
Proof.
  intros Hs Hok Hf. destruct x as [c|a b|name]; cbn [member_ok member_bytes member_match] in *.
  - pose proof (round_char c p wc Hok Hs) as Hr. exists 1%nat.
    split; [pose proof (utf8_encode_length c); lia|].
    destruct (_ || _); [intros n; now apply loop_opt_inr|]. exists c. now apply rounds_one.
  - destruct Hok as (Ha & Hb & Hab & Hb'). apply seg_app in Hs as [H1 H2].
    destruct H2 as (E1 & E2 & _). set (la := Z.of_nat (length (utf8_encode a))) in *.
    pose proof (round_char a p wc Ha H1) as R1. rewrite length_app in *. cbn [length] in *.
    pose proof (utf8_encode_length a).
    assert (Ha0 : 0 < a) by (destruct Ha as [[_ ?] _]; assumption).
    assert (R2 : body (p + la, a) = Some (if ((a <=? k) && (k <=? b)) || ((a <=? kf) && (kf <=? b))
      then inr (negb inv) else inl (p + la + 1, a))).
    { unfold bracket_round. rewrite E1. change (45 =? 93) with false. change (45 =? 45) with true.
      rewrite E2. destruct Hb as [Hbc Hbp]. replace (b =? 93) with false by lia. cbn [negb andb].
      assert (Hsb : seg m (p + la + 1) (utf8_encode b)).
      { unfold utf8_encode. replace (b <? 128) with true by lia. now split. }
      assert (Hlb : length (utf8_encode b) = 1%nat).
      { unfold utf8_encode. now replace (b <? 128) with true by lia. }
      rewrite Hu, (mbtowc_encode m (p + la + 1) b Hm Hbc Hsb) by lia. cbn [ret]. rewrite Hlb.
      change (Z.of_nat 1 <? 0) with false. unfold stored. cbn [wcv].
      rewrite span_test by lia.
      destruct (((a <=? k) && (k <=? b)) || ((a <=? kf) && (kf <=? b))); [reflexivity|]. do 3 f_equal. lia. }
    destruct (((a <=? k) && (k <=? b)) || ((a <=? kf) && (kf <=? b))) eqn:Em.
    + destruct ((a =? k) || (a =? kf)).
      * exists 1%nat. split; [lia|]. intros n. now apply loop_opt_inr.
      * exists 2%nat. split; [lia|]. intros n. change (2 + n)%nat with (S (S n)).
        rewrite (loop_opt_inl _ _ _ _ R1).
        now apply loop_opt_inr.
    + replace ((a =? k) || (a =? kf)) with false in R1 by lia.
      assert (R3 : body (p + la + 1, a) = Some (inl (p + la + 2, b))).
      { destruct Hb as [Hbc Hbp]. unfold bracket_round. rewrite E2.
        replace (b =? 93) with false by lia. replace (b =? 45) with false by lia.
        replace (b =? 91) with false by lia. replace (b <? 128) with true by lia. cbn [andb].
        replace ((b =? k) || (b =? kf)) with false by lia. do 3 f_equal. lia. }
      exists 3%nat. split; [lia|]. exists b.
      replace (p + Z.of_nat (length (utf8_encode a) + 2)) with (p + la + 2) by lia.
      apply (rounds_app _ 1 2 _ _ _ (rounds_one _ _ _ R1)).
      apply (rounds_app _ 1 1 _ _ _ (rounds_one _ _ _ R2)). now apply rounds_one.
  - destruct Hok as [Hn Hl]. exists 1%nat. cbn [app length] in *. rewrite length_app in *. cbn [length] in *.
    split; [lia|]. pose proof Hs as Hall. cbn [seg] in Hs. destruct Hs as (E0 & E1 & Hs).
    assert (R : body (p, wc) = Some (if iswctype loc name k || iswctype loc name kf then inr (negb inv)
                                     else inl (p + Z.of_nat (S (S (length name + 2))), wc))).
    { unfold bracket_round. rewrite E0, E1. change (91 =? 93) with false. change (91 =? 45) with false.
      change (91 =? 91) with true. change (class_mark 58) with true. cbn [andb].
      replace p with (0 + p) in Hall at 1 by lia.
      pose proof (class_end (fun q => negb (m (q - 1) =? 58) || negb (m q =? 93)) 0 p name Hall Hn) as He.
      rewrite He by (intros; rewrite ?Z.add_0_l; reflexivity || lia). cbn [bind].
      replace (p + 3 + Z.of_nat (length name) - 1 - (p + 2)) with (Z.of_nat (length name)) by lia.
      rewrite Nat2Z.id. apply seg_app in Hs as [Hs _]. replace (p + 1 + 1) with (p + 2) in Hs by lia.
      rewrite (seg_bytes m (p + 2) name Hs). change (58 =? 58) with true.
      replace (Z.of_nat (length name) <? 16) with true by lia. cbn [andb].
      destruct (_ || _); [reflexivity|]. do 3 f_equal. lia. }
    destruct (iswctype loc name k || iswctype loc name kf); [intros n; now apply loop_opt_inr|].
    exists wc. now apply rounds_one.
Qed.

Lemma members_done xs p wc :
  seg m p (members_bytes xs) -> Forall member_ok xs -> (length (members_bytes xs) <= fuel)%nat ->
  member_done (length (members_bytes xs)) (p, wc) (p + Z.of_nat (length (members_bytes xs)))
    (existsb (member_match loc k kf) xs).
Proof.
  intros Hs Hok. revert p wc Hs. induction Hok as [|x xs Hx Hxs IH]; intros p wc Hs Hf.
  - exists O. split; [lia|]. exists wc. intros n. cbn [members_bytes map concat length Nat.add]. do 2 f_equal. lia.
  - unfold members_bytes in *. cbn [map concat existsb] in *. rewrite length_app in *.
    apply seg_app in Hs as [H1 H2].
    destruct (member_ok_done x p wc H1 Hx ltac:(lia)) as (c1 & Hc1 & R1).
    destruct (member_match loc k kf x); cbn [orb].
    + exists c1. split; [lia|assumption].
    + destruct R1 as [wc1 R1].
      destruct (IH _ wc1 H2 ltac:(lia)) as (c2 & Hc2 & R2).
      exists (c1 + c2)%nat. split; [lia|]. destruct (existsb _ xs).
      * intros n. rewrite <- Nat.add_assoc, R1. apply R2.
      * destruct R2 as [wc2 R2]. exists wc2.
        replace (p + Z.of_nat (length (member_bytes x) + length (concat (map member_bytes xs))))
          with (p + Z.of_nat (length (member_bytes x)) + Z.of_nat (length (concat (map member_bytes xs)))) by lia.
        now apply (rounds_app _ _ _ _ _ _ R1).
Qed.

Lemma match_bracket_ok p mark xs :
  inv = match mark with Some _ => true | None => false end ->
  seg m p (item_bytes (ISet mark xs)) -> xs <> [] -> Forall member_ok xs -> mark_ok mark ->
  (length (item_bytes (ISet mark xs)) < fuel)%nat ->
  match_bracket loc m fuel p k kf = Some (xorb inv (existsb (member_match loc k kf) xs)).
Proof.
  intros Einv Hs Hne Hok Hmark Hf. cbn [item_bytes length] in *. rewrite !length_app in *. cbn [length] in *.
  destruct Hs as [E0 Hs]. apply seg_app in Hs as [Hs1 Hs2]. apply seg_app in Hs2 as [Hs2 Hs3].
  destruct Hs3 as [Eend _].
  pose proof (members_nonempty xs Hne) as Hnn. pose proof (members_first xs) as Hfst.
  destruct (members_bytes xs) as [|b l] eqn:Eb; [easy|].
  specialize (Hfst b l Hne Hok eq_refl). rewrite <- Eb in *.
  set (p1 := p + 1 + Z.of_nat (length (mark_bytes mark))) in *.
  assert (Efst : m p1 = b) by (rewrite Eb in Hs2; apply Hs2).
  unfold match_bracket.
  assert (Ei : (m (p + 1) =? 94) || (m (p + 1) =? 33) = inv /\ (if inv then p + 1 + 1 else p + 1) = p1).
  { subst p1 inv. destruct mark as [c|]; cbn [mark_bytes length mark_ok] in *.
    - destruct Hs1 as [E1 _]. rewrite E1. split; [lia|reflexivity].
    - replace (p + 1 + Z.of_nat 0) with (p + 1) in * by lia. rewrite Efst. split; [lia|reflexivity]. }
  destruct Ei as [-> ->]. rewrite Efst.
  replace (b =? 93) with false by lia. replace (b =? 45) with false by lia. cbn [andb orb].
  destruct (members_done xs p1 (s8 (m (p1 - 1))) Hs2 Hok ltac:(lia)) as (c & Hc & R).
  destruct (existsb (member_match loc k kf) xs).
  - specialize (R (fuel - c)%nat). replace (c + (fuel - c))%nat with fuel in R by lia.
    rewrite R. now rewrite xorb_true_r.
  - destruct R as [wc' R]. specialize (R (S (fuel - c - 1))).
    replace (c + S (fuel - c - 1))%nat with fuel in R by lia. rewrite R.
    rewrite (loop_opt_inr _ _ _ inv); [now rewrite xorb_false_r|].
    unfold bracket_round. now rewrite Eend.
Qed.
End Members.
End Brackets.

Lemma item_length it : (1 <= length (item_bytes it))%nat.
Proof.
  destruct it as [| |c|c|mark xs]; cbn [item_bytes length]; try lia.
  pose proof (utf8_encode_length c). lia.
Qed.

(** ** Patterns in memory *)

Section Patterns.
Variables (loc : ctype) (m : mem) (flags : Z) (fuel : nat).
Hypothesis Hm : wf_mem m.
Hypothesis Hu : utf8 loc = true.

(** Folding the case of a character gives a character. *)
Hypothesis Hfold : forall k, 0 < k < 2 ^ 31 -> 0 < casefold loc k < 2 ^ 31.

(** How an element of the pattern matches, as the code decides it. *)
Definition tok_match (t : tok) (k : Z) : bool :=
  match elem_match loc m fuel flags (fst t) (snd t) k with Some b => b | None => false end.

Lemma folded_ok k : 0 < k < 2 ^ 31 -> 0 < folded loc flags k < 2 ^ 31.
Proof. intros Hk. unfold folded. destruct (flag _ _); auto. Qed.

Definition item_tok (it : item) (t : tok) : Prop :=
  is_star t = item_star it /\
  (is_star t = false -> forall k, 0 < k < 2 ^ 31 ->
     elem_match loc m fuel flags (fst t) (snd t) k = Some (item_match loc flags it k)).

(** The token of an item, and its length. *)
Definition item_code (it : item) : Z :=
  match it with
  | IStar => STAR
  | IAny => QUESTION
  | IChar c | IEscape c => c
  | ISet _ _ => BRACKET
  end.

Lemma item_next it p n :
  item_ok flags it -> seg m p (item_bytes it) -> (length (item_bytes it) < fuel)%nat ->
  Z.of_nat (length (item_bytes it)) <= n ->
  pat_next loc m fuel p n flags = Some (item_code it, Z.of_nat (length (item_bytes it))).
Proof.
  intros Hok Hs Hf Hn. unfold pat_next.
  assert (Hl : 1 <= Z.of_nat (length (item_bytes it))).
  { pose proof (item_length it). lia. }
  replace (n =? 0) with false by lia.
  destruct it as [| |c|c|mark xs]; cbn [item_ok item_bytes item_code] in *.
  - destruct Hs as [-> _]. reflexivity.
  - destruct Hs as [-> _]. reflexivity.
  - destruct Hok as (Hc & H1 & H2 & H3 & H4).
    assert (Hlit : pat_literal loc m p n 1 0 = (c, Z.of_nat (length (utf8_encode c)))).
    { unfold pat_literal. rewrite high_byte by apply Hm.
      destruct (encode_shape m p c Hc Hs) as [(E & Eb & Hlt)|(Hl4 & Hge & _)].
      - rewrite Eb. replace (128 <=? c) with false by lia. now rewrite E.
      - replace (128 <=? m p) with true by lia. rewrite Hu, (mbtowc_encode m p c Hm Hc Hs) by assumption.
        cbn [ret]. replace (_ <? 0) with false by lia. unfold stored. cbn [wcv]. now rewrite Z.add_0_r. }
    assert (Hb : m p <> 0 /\ m p <> 91 /\ m p <> 42 /\ m p <> 63 /\
                 (m p <> 92 \/ flag flags FNM_NOESCAPE = true)).
    { destruct (encode_shape m p c Hc Hs) as [(E & Eb & Hlt)|(Hl4 & Hge & _)]; destruct Hc; [|lia].
      rewrite Eb. lia. }
    destruct Hb as (B0 & B1 & B2 & B3 & B4).
    replace (m p =? 0) with false by lia. cbn [orb].
    replace ((m p =? 92) && negb (m (p + 1) =? 0) && negb (flag flags FNM_NOESCAPE)) with false
      by (destruct B4 as [B4| ->]; [replace (m p =? 92) with false by lia; reflexivity|now rewrite andb_false_r]).
    replace (m p =? 91) with false by lia. replace (m p =? 42) with false by lia.
    replace (m p =? 63) with false by lia. now rewrite Hlit.
  - destruct Hok as (Hc & Hesc). destruct Hs as [E0 Hs]. rewrite E0, Hesc.
    pose proof (encode_nonzero m (p + 1) c Hc Hs 0 ltac:(pose proof (utf8_encode_length c); lia)) as Hnz.
    rewrite Z.add_0_r in Hnz. replace (m (p + 1) =? 0) with false by lia.
    change (92 =? 0) with false. change (92 =? 92) with true. cbn [orb negb andb]. f_equal.
    unfold pat_literal. rewrite high_byte by apply Hm. cbn [length] in *.
    destruct (encode_shape m (p + 1) c Hc Hs) as [(E & Eb & Hlt)|(Hl4 & Hge & _)].
    + rewrite Eb. replace (128 <=? c) with false by lia. f_equal. lia.
    + replace (128 <=? m (p + 1)) with true by lia. rewrite Hu, (mbtowc_encode m (p + 1) c Hm Hc Hs) by lia.
      cbn [ret]. replace (_ <? 0) with false by lia. unfold stored. cbn [wcv]. f_equal. lia.
  - destruct Hok as (Hne & Hx & Hmark).
    destruct (bracket_scan_ok m fuel p n mark xs) as [Hb He]; try assumption; [cbn [item_bytes]; lia|].
    cbn [item_bytes] in Hb, He. set (len := Z.of_nat (length (91 :: _))) in *.
    destruct Hs as [E0 _]. rewrite E0. change (91 =? 0) with false. change (91 =? 92) with false.
    change (91 =? 91) with true. cbn [orb andb]. rewrite Hb. cbn [bind]. rewrite He.
    replace (len - 1 =? n) with false by lia. change (93 =? 0) with false. cbn [orb]. do 2 f_equal. lia.
Qed.

Lemma item_elem it p k :
  item_ok flags it -> seg m p (item_bytes it) -> (length (item_bytes it) < fuel)%nat ->
  0 < k < 2 ^ 31 -> item_star it = false ->
  elem_match loc m fuel flags (item_code it) p k = Some (item_match loc flags it k).
Proof.
  intros Hok Hs Hf Hk Hst. unfold elem_match. fold (folded loc flags k).
  pose proof (folded_ok k Hk) as Hkf.
  assert (Hch : forall c, char_ok c -> item_code it = c -> item_match loc flags it k = (k =? c) || (folded loc flags k =? c) ->
    (if item_code it =? BRACKET then match_bracket loc m fuel p k (folded loc flags k)
     else Some (negb (negb (item_code it =? QUESTION) && negb (k =? item_code it) && negb (folded loc flags k =? item_code it))))
    = Some (item_match loc flags it k)).
  { intros c [_ Hc] -> ->. unfold BRACKET, QUESTION. replace (c =? -3) with false by lia.
    replace (c =? -4) with false by lia. cbn [negb andb]. f_equal. destruct (k =? c), (folded loc flags k =? c); reflexivity. }
  destruct it as [| |c|c|mark xs]; cbn [item_ok item_star] in *; try discriminate.
  - reflexivity.
  - apply (Hch c); tauto || reflexivity.
  - apply (Hch c); tauto || reflexivity.
  - cbn [item_code item_match]. change (BRACKET =? BRACKET) with true. cbv iota.
    destruct Hok as (H1 & H2 & H3). apply (match_bracket_ok m fuel loc (match mark with Some _ => true | None => false end) k
      (folded loc flags k) Hm Hu Hk Hkf p mark xs eq_refl); assumption.
Qed.

(** The bytes of an item are not NUL. *)
Lemma item_nonzero it : item_ok flags it -> Forall (fun b => b <> 0) (item_bytes it).
Proof.
  assert (Hc : forall c, char_ok c -> Forall (fun b => b <> 0) (utf8_encode c)).
  { intros c Hc. eapply Forall_impl; [|now apply char_bytes]. destruct Hc. cbv beta. lia. }
  intros Hok. destruct it as [| |c|c|mark xs]; cbn [item_ok item_bytes] in *.
  - repeat constructor; lia.
  - repeat constructor; lia.
  - apply Hc. tauto.
  - constructor; [lia|]. apply Hc. tauto.
  - destruct Hok as (_ & Hx & Hmark). constructor; [lia|]. apply Forall_app. split.
    { destruct mark; repeat constructor. lia. }
    apply Forall_app. split; [|repeat constructor; lia].
    induction Hx as [|x xs Hx Hxs IH]; [constructor|]. unfold members_bytes. cbn [map concat].
    apply Forall_app. split; [|assumption].
    destruct x as [c|a b|name]; cbn [member_bytes member_ok] in *.
    + apply Hc, Hx.
    + apply Forall_app. split; [apply Hc, Hx|]. destruct Hx as (_ & ((_ & Hb) & _) & _).
      repeat constructor; lia.
    + repeat (constructor; [lia|]). apply Forall_app. split; [|repeat constructor; lia].
      eapply Forall_impl; [|apply Hx]. cbv beta. lia.
Qed.

Lemma pattern_at its p :
  Forall (item_ok flags) its -> seg m p (pattern_bytes its) -> (length (pattern_bytes its) < fuel)%nat ->
  exists ts, pat_at loc m flags fuel tok_match p (p + Z.of_nat (length (pattern_bytes its))) ts /\
             Forall2 item_tok its ts.
Proof.
  intros Hok. revert p. induction Hok as [|it its Hit Hits IH]; intros p Hs Hf.
  - exists []. split; [|constructor]. cbn [pattern_bytes map concat length]. rewrite Z.add_0_r. constructor.
  - unfold pattern_bytes in *. cbn [map concat] in *. rewrite length_app in *.
    apply seg_app in Hs as [H1 H2].
    destruct (IH _ H2 ltac:(lia)) as (ts & Hp & Hts).
    pose proof (item_length it) as Hl.
    assert (Hstar : is_star (item_code it, p) = item_star it).
    { unfold is_star. cbn [fst]. destruct it as [| |c|c|mark xs]; try reflexivity;
        cbn [item_code item_star item_ok] in *; unfold char_ok, STAR in *; lia. }
    assert (Hel : item_star it = false -> forall k, 0 < k < 2 ^ 31 ->
      elem_match loc m fuel flags (item_code it) p k = Some (item_match loc flags it k)).
    { intros Hst k Hk. apply item_elem; auto. lia. }
    exists ((item_code it, p) :: ts). split.
    + apply (pat_cons loc m flags fuel tok_match p _ (item_code it) (Z.of_nat (length (item_bytes it)))).
      * intros n Hn. apply item_next; auto. lia.
      * lia.
      * destruct it as [| |c|c|mark xs]; try easy; cbn [item_code item_ok] in *;
          unfold char_ok, END in *; lia.
      * destruct it as [| |c|c|mark xs]; try easy; cbn [item_code item_ok] in *;
          unfold char_ok, UNMATCHABLE in *; lia.
      * intros E. destruct it as [| |c|c|mark xs]; try easy; cbn [item_code item_ok] in *;
          unfold char_ok, STAR in *; lia.
      * intros E k Hk. assert (Hst : item_star it = false) by (destruct it; try reflexivity; easy).
        unfold tok_match. cbn [fst snd]. now rewrite Hel.
      * intros i Hi. replace i with (p + (i - p)) by lia.
        apply (seg_ext_byte m p (item_bytes it) H1 (fun b => b <> 0)); [now apply item_nonzero|lia].
      * now replace (p + Z.of_nat (length (item_bytes it) + length (concat (map item_bytes its))))
          with (p + Z.of_nat (length (item_bytes it)) + Z.of_nat (length (concat (map item_bytes its)))) by lia.
    + constructor; [|assumption]. split; [assumption|]. intros Hst. cbn [fst snd]. apply Hel.
      now rewrite <- Hstar.
Qed.

(** The pattern matches what its items match. *)
Lemma pmatch_items its ts cs :
  Forall2 item_tok its ts -> Forall char_ok cs ->
  pmatch tok_match ts cs = glob item_star (item_match loc flags) its cs.
Proof.
  intros H. revert cs. induction H as [|it t its ts [Hst Hm'] H IH]; intros cs Hcs; [reflexivity|].
  unfold pmatch in *. destruct (is_star t) eqn:E.
  - induction Hcs as [|c cs Hc Hcs IHc].
    + rewrite !glob_star by congruence. now rewrite IH by constructor.
    + rewrite !(glob_star _ _ _ _ (c :: cs)) by congruence. rewrite IHc. f_equal.
      apply IH. now constructor.
  - cbn [glob]. rewrite E, <- Hst. destruct Hcs as [|c cs Hc Hcs]; [reflexivity|].
    rewrite IH by assumption. f_equal. unfold tok_match.
    destruct Hc as [Hsc Hpos]. rewrite Hm'; [reflexivity|reflexivity|]. unfold scalar in Hsc. lia.
Qed.
End Patterns.

(** ** fnmatch *)

(** One component: a period in front asks for one in the pattern. *)
Definition dot_item (its : list item) : bool := match its with IChar c :: _ => c =? 46 | _ => false end.
Definition dot_text (cs : list Z) : bool := match cs with c :: _ => c =? 46 | [] => false end.

Definition component_match (loc : ctype) (flags : Z) (its : list item) (cs : list Z) : bool :=
  negb (flag flags FNM_PERIOD && dot_text cs && negb (dot_item its)) &&
  glob item_star (item_match loc flags) its cs.

(** With FNM_PATHNAME the components between slashes match one by one. *)
Fixpoint path_match (loc : ctype) (flags : Z) (pcs : list (list item)) (scs : list (list Z)) : bool :=
  match pcs, scs with
  | [p], [s] => component_match loc flags p s
  | p :: pcs, s :: scs => component_match loc flags p s && path_match loc flags pcs scs
  | _, _ => false
  end.

Fixpoint joined (ls : list (list Z)) : list Z :=
  match ls with
  | [] => []
  | [l] => l
  | l :: ls => l ++ 47 :: joined ls
  end.

Definition no_slash (it : item) : Prop := match it with IChar c | IEscape c => c <> 47 | _ => True end.

(** The locale is a UTF-8 one and folds characters to characters. *)
Definition ctype_ok (loc : ctype) : Prop :=
  utf8 loc = true /\ forall k, 0 < k < 2 ^ 31 -> 0 < casefold loc k < 2 ^ 31.

Section Components.
Variables (loc : ctype) (m : mem) (flags : Z) (fuel : nat).
Hypothesis Hm : wf_mem m.
Hypothesis Hloc : ctype_ok loc.

Lemma text_first s cs : Forall char_ok cs -> seg m s (text cs) ->
  m (s + Z.of_nat (length (text cs))) <> 46 -> (m s =? 46) = dot_text cs.
Proof.
  intros Hcs Hs He. destruct Hcs as [|c cs Hc Hcs]; cbn [dot_text].
  - cbn [text map concat length] in He. rewrite Z.add_0_r in He. lia.
  - rewrite text_cons in Hs. apply seg_app in Hs as [Hs _].
    destruct (encode_shape m s c Hc Hs) as [(E & -> & _)|(Hl & Hge & _ & Hlen & _)]; [reflexivity|].
    replace (m s =? 46) with false by lia.
    assert (128 <= c); [|lia]. unfold utf8_encode in Hl. destruct (Z.ltb_spec c 128); [cbn in Hl|]; lia.
Qed.

Lemma pattern_first p its : Forall (item_ok flags) its -> seg m p (pattern_bytes its) ->
  m (p + Z.of_nat (length (pattern_bytes its))) <> 46 -> (m p =? 46) = dot_item its.
Proof.
  intros Hok Hs He. destruct Hok as [|it its Hit Hits]; cbn [dot_item].
  - cbn [pattern_bytes map concat length] in He. rewrite Z.add_0_r in He. lia.
  - unfold pattern_bytes in Hs. cbn [map concat] in Hs. apply seg_app in Hs as [Hs _].
    destruct it as [| |c|c|mark xs]; cbn [item_bytes seg item_ok] in *;
      try (destruct Hs as [-> _]; reflexivity).
    destruct Hit as (Hc & _).
    destruct (encode_shape m p c Hc Hs) as [(E & -> & _)|(Hl & Hge & _ & Hlen & _)]; [reflexivity|].
    replace (m p =? 46) with false by lia.
    assert (128 <= c); [|lia]. unfold utf8_encode in Hl. destruct (Z.ltb_spec c 128); [cbn in Hl|]; lia.
Qed.

Lemma component_internal its cs p s mm n :
  let pe := p + Z.of_nat (length (pattern_bytes its)) in
  let se := s + Z.of_nat (length (text cs)) in
  Forall (item_ok flags) its -> Forall char_ok cs ->
  seg m p (pattern_bytes its) -> seg m s (text cs) -> stops m p pe mm -> stops m s se n ->
  m pe <> 46 -> m se <> 46 ->
  (length (pattern_bytes its) + length (text cs) < fuel)%nat ->
  fnmatch_internal loc m fuel p mm s n flags = Some (answer (component_match loc flags its cs)).
Proof.
  cbv zeta. intros Hits Hcs Hp Hs Sp Ss Hpe Hse Hf. destruct Hloc as [Hu Hfold].
  destruct (pattern_at loc m flags fuel Hm Hu Hfold its p Hits Hp ltac:(lia)) as (ts & Hpt & Hts).
  pose proof (text_at loc m s cs Hm Hu Hcs Hs) as Htt.
  rewrite (fnmatch_internal_ok loc m flags fuel Hm (tok_match loc m flags fuel)
    ltac:(intros k Hk; specialize (Hfold k Hk); lia) p _ ts s _ cs mm n Hpt Htt Sp Ss ltac:(lia)).
  rewrite (pmatch_items loc m flags fuel Hu its ts cs Hts Hcs). unfold period_clash, component_match.
  rewrite (text_first s cs), (pattern_first p its) by assumption. reflexivity.
Qed.

(** The scans for a slash. *)
Lemma slash_in_str_ok s cs e :
  Forall char_ok cs -> Forall (fun c => c <> 47) cs -> seg m s (text cs) ->
  e = s + Z.of_nat (length (text cs)) -> m e = 0 \/ m e = 47 -> (length (text cs) < fuel)%nat ->
  slash_in_str m fuel s = Some e.
Proof.
  intros Hcs Hns Hs -> He Hf. unfold slash_in_str. set (e := s + _) in *.
  assert (Hb : Forall (fun b => b <> 0 /\ b <> 47) (text cs)).
  { clear - Hcs Hns. induction Hcs as [|c cs Hc Hcs IH]; [constructor|]. rewrite text_cons.
    inversion Hns; subst. apply Forall_app. split; [|auto].
    eapply Forall_impl; [|apply (char_bytes c Hc)]. destruct Hc. cbv beta. lia. }
  destruct (loop_total (fun s => if negb (m s =? 0) && negb (m s =? 47) then inl (s + 1) else inr s)
    (fun q => s <= q <= e) (fun r => r = e) (fun q => Z.to_nat (e - q))) with (fuel := fuel) (s := s)
    as (r & -> & ->); [|lia..|reflexivity].
  intros q Hq. destruct (Z.eq_dec q e) as [->|Hne].
  - destruct He as [-> | ->]; reflexivity.
  - pose proof (seg_ext_byte m s _ Hs _ Hb (q - s) ltac:(lia)) as H. cbv beta in H.
    replace (s + (q - s)) with q in H by lia.
    replace (m q =? 0) with false by lia. replace (m q =? 47) with false by lia. cbn [negb andb]. lia.
Qed.

Lemma slash_in_pat_ok p its e :
  Forall (item_ok flags) its -> Forall no_slash its -> seg m p (pattern_bytes its) ->
  e = p + Z.of_nat (length (pattern_bytes its)) -> m e = 0 \/ m e = 47 ->
  (length (pattern_bytes its) < fuel)%nat -> Z.of_nat (length (pattern_bytes its)) < 2 ^ 63 ->
  slash_in_pat loc m fuel flags p = Some (e, m e, if m e =? 0 then 0 else 1).
Proof.
  intros Hits Hns Hs -> He Hf Hlen. destruct Hloc as [Hu Hfold]. unfold slash_in_pat.
  set (body := fun p => let? (c, inc) := pat_next loc m fuel p SIZE_MAX flags in
    Some (if negb (c =? END) && negb (c =? 47) then inl (p + inc) else inr (p, c, inc))).
  assert (R : exists c, (c <= length (pattern_bytes its))%nat /\
                        rounds body c p (p + Z.of_nat (length (pattern_bytes its)))).
  { clear He. revert p Hs. induction Hits as [|it its Hit Hits IH]; intros p Hs.
    - exists O. split; [lia|]. intros n. cbn [pattern_bytes map concat length Nat.add]. f_equal. lia.
    - unfold pattern_bytes in *. cbn [map concat] in *. rewrite length_app in *.
      apply seg_app in Hs as [H1 H2]. inversion Hns; subst.
      destruct (IH ltac:(assumption) ltac:(lia) ltac:(lia) _ H2) as (c & Hc & R).
      pose proof (item_length it). exists (1 + c)%nat. split; [lia|].
      replace (p + Z.of_nat (length (item_bytes it) + length (concat (map item_bytes its))))
        with (p + Z.of_nat (length (item_bytes it)) + Z.of_nat (length (concat (map item_bytes its)))) by lia.
      refine (rounds_app _ _ _ _ _ _ _ R). apply rounds_one. unfold body.
      rewrite (item_next loc m flags fuel Hm Hu it p SIZE_MAX Hit H1) by (unfold SIZE_MAX; lia). cbn [bind].
      assert (Hcode : item_code it <> END /\ item_code it <> 47).
      { destruct it as [| |c0|c0|mark xs]; try (cbn [item_code]; split; discriminate);
          cbn [item_code item_ok no_slash] in *; unfold char_ok, END in *; lia. }
      replace (item_code it =? END) with false by lia. replace (item_code it =? 47) with false by lia.
      reflexivity. }
  destruct R as (c & Hc & R). specialize (R (S (fuel - c - 1))).
  replace (c + S (fuel - c - 1))%nat with fuel in R by lia. rewrite R.
  apply loop_opt_inr. unfold body, pat_next, pat_literal. destruct He as [E|E]; rewrite E; reflexivity.
Qed.

(** ** The theorems *)


Definition path_components (p : Z) (pcs : list (list item)) : Prop :=
  seg m p (joined (map pattern_bytes pcs)) /\ m (p + Z.of_nat (length (joined (map pattern_bytes pcs)))) = 0.

Lemma joined_cons l ls : ls <> [] -> joined (l :: ls) = l ++ 47 :: joined ls.
Proof. now destruct ls. Qed.

Lemma pathname_ok pcs : forall scs p s n,
  pcs <> [] -> scs <> [] ->
  Forall (Forall (item_ok flags)) pcs -> Forall (Forall no_slash) pcs ->
  Forall (Forall char_ok) scs -> Forall (Forall (fun c => c <> 47)) scs ->
  seg m p (joined (map pattern_bytes pcs) ++ [0]) -> seg m s (joined (map text scs) ++ [0]) ->
  flag flags FNM_LEADING_DIR = false ->
  (length (joined (map pattern_bytes pcs)) + length (joined (map text scs)) < fuel)%nat ->
  (length (joined (map pattern_bytes pcs)) < n)%nat -> Z.of_nat fuel < 2 ^ 63 ->
  loop_opt (pathname_round loc m fuel flags) n (p, s) = Some (answer (path_match loc flags pcs scs)).
Proof.
  induction pcs as [|its pcs IH]; intros [|cs scs] p s [|n] Hne1 Hne2 Hits Hns Hcs Hnc Hp Hs Hld Hf Hn Hlen;
    try easy.
  inversion Hits as [|? ? Hit Hits']; subst. inversion Hns as [|? ? Hn1 Hns']; subst.
  inversion Hcs as [|? ? Hc1 Hcs']; subst. inversion Hnc as [|? ? Hnc1 Hnc']; subst. clear Hits Hns Hcs Hnc.
  set (P := pattern_bytes its) in *. set (X := text cs) in *.
  set (pe := p + Z.of_nat (length P)). set (se := s + Z.of_nat (length X)).
  assert (HP : seg m p P /\ (length P <= length (joined (map pattern_bytes (its :: pcs))))%nat /\
    m pe = (match pcs with [] => 0 | _ => 47 end) /\
    (pcs <> [] -> seg m (pe + 1) (joined (map pattern_bytes pcs) ++ [0]) /\
      length (joined (map pattern_bytes (its :: pcs))) = S (length P + length (joined (map pattern_bytes pcs))))).
  { cbn [map] in Hp |- *. fold P in Hp |- *. destruct pcs as [|q pcs].
    - cbn [map joined] in *. apply seg_app in Hp as [H1 [H2 _]]. now repeat split.
    - rewrite joined_cons in * by discriminate. rewrite <- app_assoc in Hp.
      apply seg_app in Hp as [H1 [H2 H3]]. rewrite length_app. cbn [length].
      repeat split; try assumption; try lia. }
  assert (HX : seg m s X /\ (length X <= length (joined (map text (cs :: scs))))%nat /\
    m se = (match scs with [] => 0 | _ => 47 end) /\
    (scs <> [] -> seg m (se + 1) (joined (map text scs) ++ [0]) /\
      length (joined (map text (cs :: scs))) = S (length X + length (joined (map text scs))))).
  { cbn [map] in Hs |- *. fold X in Hs |- *. destruct scs as [|q scs].
    - cbn [map joined] in *. apply seg_app in Hs as [H1 [H2 _]]. now repeat split.
    - rewrite joined_cons in * by discriminate. rewrite <- app_assoc in Hs.
      apply seg_app in Hs as [H1 [H2 H3]]. rewrite length_app. cbn [length].
      repeat split; try assumption; try lia. }
  destruct HP as (HP1 & HP2 & HPe & HP3), HX as (HX1 & HX2 & HXe & HX3).
  assert (HPe' : m pe = 0 \/ m pe = 47) by (destruct pcs; auto).
  assert (HXe' : m se = 0 \/ m se = 47) by (destruct scs; auto).
  assert (Hint : fnmatch_internal loc m fuel p (pe - p) s (se - s) flags
    = Some (answer (component_match loc flags its cs))).
  { apply component_internal; auto; try (left; reflexivity); fold P X pe se; lia. }
  assert (Hround : pathname_round loc m fuel flags (p, s) =
    Some (if negb (m pe =? m se) then inr FNM_NOMATCH
          else if negb (component_match loc flags its cs) then inr FNM_NOMATCH
          else if m pe =? 0 then inr 0 else inl (pe + 1, se + 1))).
  { unfold pathname_round. rewrite (slash_in_str_ok s cs se) by (assumption || reflexivity || (fold X; lia)).
    rewrite (slash_in_pat_ok p its pe) by (assumption || reflexivity || (fold P; lia)). cbn [bind].
    rewrite Hld. cbn [negb]. rewrite orb_true_r, andb_true_r. destruct (negb (m pe =? m se)); [reflexivity|].
    rewrite Hint. cbn [bind]. destruct (component_match loc flags its cs); [|reflexivity].
    change (answer true) with 0. change (0 =? 0) with true. cbn [negb].
    destruct HPe' as [-> | ->]; reflexivity. }
  destruct pcs as [|q pcs], scs as [|r scs].
  - apply loop_opt_inr. rewrite Hround, HPe, HXe. cbn [path_match].
    now destruct (component_match loc flags its cs).
  - apply loop_opt_inr. rewrite Hround, HPe, HXe. cbn [path_match].
    now destruct (component_match loc flags its cs).
  - apply loop_opt_inr. rewrite Hround, HPe, HXe. cbn [path_match].
    destruct (component_match loc flags its cs); try reflexivity; now destruct pcs.
  - rewrite HPe, HXe in Hround. change (47 =? 47) with true in Hround. change (47 =? 0) with false in Hround.
    cbn [negb] in Hround.
    change (path_match loc flags (its :: q :: pcs) (cs :: r :: scs)) with
      (component_match loc flags its cs && path_match loc flags (q :: pcs) (r :: scs)).
    destruct (component_match loc flags its cs); cbn [negb andb] in *.
    + rewrite (loop_opt_inl _ _ _ _ Hround).
      destruct (HP3 ltac:(discriminate)) as [S1 L1], (HX3 ltac:(discriminate)) as [S2 L2].
      apply IH; try assumption; try discriminate; lia.
    + now apply loop_opt_inr.
Qed.

End Components.

(** A concrete locale: UTF-8, no case, one class. *)
Definition plain_ctype : ctype :=
  {| utf8 := true; towupper := fun k => k; towlower := fun k => k;
     iswctype := fun name k => if list_eq_dec Z.eq_dec name [100; 105; 103; 105; 116]
                               then (48 <=? k) && (k <=? 57) else false |}.

Lemma plain_ctype_ok : ctype_ok plain_ctype.
Proof. split; [reflexivity|]. intros k Hk. unfold casefold. cbn. now rewrite Z.eqb_refl. Qed.

Definition fn_mem (pat str : list Z) : mem := upd_list (upd_list (fun _ => 0) 1000 pat) 5000 str.

Lemma fn_mem_wf pat str :
  Forall (fun b => 0 <= b < 256) pat -> Forall (fun b => 0 <= b < 256) str -> wf_mem (fn_mem pat str).
Proof. intros H1 H2. apply upd_list_wf; [apply upd_list_wf|]; try assumption. intros a. lia. Qed.

Ltac fn_bytes := vm_compute; repeat constructor; (discriminate || reflexivity).



(** What the grammar leaves out: after a range whose upper end has more than
    one byte, match_bracket goes on at the last byte of that end, takes it for a bad
    character and reports no match, also for a negated set ("[!à-é]" and "x") and
    for the members that follow ("[à-éx]" and "x"). *)
Example range_multibyte_end :
  fnmatch plain_ctype (fn_mem [91; 33; 195; 160; 45; 195; 169; 93] [120]) 64 1000 5000 0 = Some FNM_NOMATCH /\
  fnmatch plain_ctype (fn_mem [91; 195; 160; 45; 195; 169; 120; 93] [120]) 64 1000 5000 0 = Some FNM_NOMATCH.
Proof. vm_compute. split; reflexivity. Qed.

(** With FNM_PERIOD an escaped period in the pattern does not match a leading
    period, though it is an explicit one. *)
Example escaped_period :
  fnmatch plain_ctype (fn_mem [92; 46] [46]) 64 1000 5000 FNM_PERIOD = Some FNM_NOMATCH.
Proof. vm_compute. reflexivity. Qed.
