(* ===== verification/IntScan.v ===== *)
(** * IntScan: integer scanning and the strtol family

    Models src/internal/shgetc.c and shgetc.h (the counted reader on a FILE, as
    a record of its buffer pointers), src/internal/intscan.c (__intscan with its
    digit table, prefixes, 32-bit and 64-bit accumulation loops and saturation)
    and src/stdlib/strtol.c.

    __uflow, called when the buffer is empty, is an argument: a string read by
    strtox never calls it.  [fuel] bounds the rounds of each loop over the
    input; a string shorter than the fuel is scanned completely. *)

From Stdlib Require Import ZArith Lia ZifyBool List Bool.
From S2P Require Import Prelude Ctype Strings.
Import ListNotations.
Open Scope Z_scope.

(** ** The counted reader *)

(** The members of FILE that shgetc.h uses. *)
Record shfile : Type := mk_shfile {
  buf : Z; rpos : Z; rend : Z; shend : Z; shlim : Z; shcnt : Z
}.

Definition set_rpos (f : shfile) (v : Z) : shfile :=
  mk_shfile (buf f) v (rend f) (shend f) (shlim f) (shcnt f).
Definition set_sh (f : shfile) (e l c : Z) : shfile :=
  mk_shfile (buf f) (rpos f) (rend f) e l c.

Definition stream : Type := mem * shfile.

(** The macro shcnt. *)
Definition sh_count (f : shfile) : Z := shcnt f + (rpos f - buf f).

(** __shlim *)
Definition sh_lim (f : shfile) (lim : Z) : shfile :=
  set_sh f (if negb (lim =? 0) && (lim <? rend f - rpos f) then rpos f + lim else rend f)
           lim (buf f - rpos f).

Definition EOF : Z := -1.

Section Reader.
Variable uflow : stream -> Z * stream.

(** __shgetc *)
Definition shgetc_slow (t : stream) : Z * stream :=
  let '(m, f) := t in
  let cnt := sh_count f in
  let fail '(m, f) :=
    (EOF, (m, set_sh f (rpos f) (-1) (buf f - rpos f + cnt))) in
  if negb (shlim f =? 0) && (shlim f <=? cnt) then fail (m, f)
  else
    let '(c, (m, f)) := uflow (m, f) in
    if c <? 0 then fail (m, f)
    else
      let cnt := cnt + 1 in
      let f := set_sh f
        (if negb (shlim f =? 0) && (shlim f - cnt <? rend f - rpos f)
         then rpos f + (shlim f - cnt) else rend f)
        (shlim f) (buf f - rpos f + cnt) in
      (c, (if rpos f <=? buf f then mset m (rpos f - 1) c else m, f)).

(** The macro shgetc. *)
Definition shgetc (t : stream) : Z * stream :=
  let '(m, f) := t in
  if negb (rpos f =? shend f) then (m (rpos f), (m, set_rpos f (rpos f + 1)))
  else shgetc_slow t.

Definition shunget (t : stream) : stream :=
  let '(m, f) := t in if 0 <=? shlim f then (m, set_rpos f (rpos f - 1)) else t.

Definition shlim0 (t : stream) : stream := let '(m, f) := t in (m, sh_lim f 0).

(** ** __intscan *)

(** The bytes of [table]; -1 is 255 in an unsigned char. *)
Definition table : list Z :=
  repeat 255 49 ++ [0; 1; 2; 3; 4; 5; 6; 7; 8; 9] ++ repeat 255 7 ++
  [10;11;12;13;14;15;16;17;18;19;20;21;22;23;24;25;26;27;28;29;30;31;32;33;34;35] ++
  repeat 255 6 ++
  [10;11;12;13;14;15;16;17;18;19;20;21;22;23;24;25;26;27;28;29;30;31;32;33;34;35] ++
  repeat 255 133.

Definition val (c : Z) : Z := nth (Z.to_nat (c + 1)) table 0.

Definition skip_space (fuel : nat) (t : stream) : option (Z * stream) :=
  loop (fun t => let '(c, t) := shgetc t in if isspace c then inl t else inr (c, t)) fuel t.

(** A digit loop: for (; cond; c=shgetc(f)) x = upd. *)
Definition acc_step (cond : Z -> Z -> bool) (upd : Z -> Z -> Z) (s : Z * Z * stream)
  : (Z * Z * stream) + (Z * Z * stream) :=
  let '(c, x, t) := s in
  if cond c x then let '(c', t') := shgetc t in inl (c', upd x c, t') else inr s.

Definition acc_loop cond upd (fuel : nat) (s : Z * Z * stream) : option (Z * Z * stream) :=
  loop (acc_step cond upd) fuel s.

Definition bs_of (base : Z) : Z :=
  nth (Z.to_nat (Z.land (Z.shiftr (23 * base) 5) 7)) [0; 1; 2; 4; 7; 3; 6; 5] 0.

(** Lines 63 to 80: the accumulation, for the three kinds of base. *)
Definition accumulate (fuel : nat) (base c : Z) (t : stream) : option (Z * Z * stream) :=
  if base =? 10 then
    let dig c := isdigit c in
    let? s := acc_loop (fun c x => dig c && (x <=? UINT_MAX / 10 - 1))
                       (fun x c => u32 (x * 10 + (c - 48))) fuel (c, 0, t) in
    acc_loop (fun c y => dig c && (y <=? ULLONG_MAX / 10)
                         && (u64 (10 * y) <=? u64 (ULLONG_MAX - (c - 48))))
             (fun y c => u64 (y * 10 + (c - 48))) fuel s
  else if Z.land base (base - 1) =? 0 then
    let bs := bs_of base in
    let? s := acc_loop (fun c x => (val c <? base) && (x <=? UINT_MAX / 32))
                       (fun x c => Z.lor (u32 (Z.shiftl x bs)) (val c)) fuel (c, 0, t) in
    acc_loop (fun c y => (val c <? base) && (y <=? Z.shiftr ULLONG_MAX bs))
             (fun y c => Z.lor (u64 (Z.shiftl y bs)) (val c)) fuel s
  else
    let? s := acc_loop (fun c x => (val c <? base) && (x <=? UINT_MAX / 36 - 1))
                       (fun x c => u32 (x * base + val c)) fuel (c, 0, t) in
    acc_loop (fun c y => (val c <? base) && (y <=? ULLONG_MAX / base)
                         && (u64 (base * y) <=? ULLONG_MAX - val c))
             (fun y c => u64 (y * base + val c)) fuel s.

(** The value, the stream and errno.  For base 10 a character that is no digit
    jumps to [done]; [val c < base] is false there too. *)
Definition finish_scan (fuel : nat) (base neg lim : Z) (s : Z * Z * stream) (errno : Z)
  : option (Z * stream * Z) :=
  let '(c, y, t) := s in
  let over := if base =? 10 then isdigit c && (val c <? base) else val c <? base in
  let? s :=
    if over then
      let? s := acc_loop (fun c _ => val c <? base) (fun x _ => x) fuel (c, y, t) in
      Some (snd s, lim, if negb (Z.land lim 1 =? 0) then 0 else neg, ERANGE)
    else Some (t, y, neg, errno) in
  let '(t, y, neg, errno) := s in
  let t := shunget t in
  Some (
    if (lim <=? y) && (Z.land lim 1 =? 0) && (neg =? 0) then (u64 (lim - 1), t, ERANGE)
    else if (lim <=? y) && (lim <? y) then (lim, t, ERANGE)
    else (u64 (Z.lxor y (u64 neg) - neg), t, errno)).

Definition intscan (fuel : nat) (t : stream) (base : Z) (pok : bool) (lim errno : Z)
  : option (Z * stream * Z) :=
  if (36 <? base) || (base =? 1) then Some (0, t, EINVAL)
  else
    let? s := skip_space fuel t in
    let '(c, t) := s in
    let '(neg, c, t) :=
      if (c =? 43) || (c =? 45) then
        let '(c', t) := shgetc t in ((if c =? 45 then -1 else 0), c', t)
      else (0, c, t) in
    let go base c t :=
      let? s := accumulate fuel base c t in finish_scan fuel base neg lim s errno in
    if ((base =? 0) || (base =? 16)) && (c =? 48) then
      let '(c, t) := shgetc t in
      if Z.lor c 32 =? 120 then
        let '(c, t) := shgetc t in
        if 16 <=? val c then
          let t := shunget t in
          Some (0, (if pok then shunget t else shlim0 t), errno)
        else go 16 c t
      else go (if base =? 0 then 8 else base) c t
    else
      let base := if base =? 0 then 10 else base in
      if base <=? val c then Some (0, shlim0 (shunget t), EINVAL)
      else go base c t.

(** ** strtol and its family *)

(** sh_fromstring and shlim(&f, 0): (void* )-1 is the end of the address space. *)
Definition from_string (m : mem) (s : Z) : stream :=
  shlim0 (m, mk_shfile s s SIZE_MAX 0 0 0).

(** strtox: the value, the count stored through the end pointer, errno. *)
Definition strtox (fuel : nat) (m : mem) (s base lim errno : Z) : option (Z * Z * Z) :=
  let? r := intscan fuel (from_string m s) (u32 base) true lim errno in
  let '(y, t, errno) := r in Some (y, s + sh_count (snd t), errno).

Definition LLONG_MIN_bits : Z := 9223372036854775808.

Definition strtoull fuel m s base errno := strtox fuel m s base ULLONG_MAX errno.
Definition strtoll fuel m s base errno : option (Z * Z * Z) :=
  let? r := strtox fuel m s base LLONG_MIN_bits errno in
  let '(y, e, errno) := r in Some (s64 y, e, errno).
Definition strtoul fuel m s base errno := strtox fuel m s base ULLONG_MAX errno.
Definition strtol fuel m s base errno : option (Z * Z * Z) :=
  let? r := strtox fuel m s base LLONG_MIN_bits errno in
  let '(y, e, errno) := r in Some (s64 y, e, errno).
Definition strtoimax := strtoll.
Definition strtoumax := strtoull.
End Reader.

(** ** Specification *)

Definition digit_val (c : Z) : Z :=
  if (48 <=? c) && (c <=? 57) then c - 48
  else if (65 <=? c) && (c <=? 90) then c - 55
  else if (97 <=? c) && (c <=? 122) then c - 87
  else 255.

Lemma val_digit c : 0 <= c < 256 -> val c = digit_val c.
Proof.
  intros Hc. apply Z.eqb_eq. revert c Hc. apply (zrange_check _ 0 256). vm_compute. reflexivity.
Qed.

Lemma isdigit_val c : 0 <= c < 256 -> isdigit c = (digit_val c <? 10).
Proof.
  intros Hc. apply Bool.eqb_prop. revert c Hc. apply (zrange_check _ 0 256). vm_compute. reflexivity.
Qed.

Lemma digit_val_range c : 0 <= digit_val c <= 255.
Proof. unfold digit_val. repeat case_if; lia. Qed.

(** The value of digits, most significant first. *)
Definition horner (b : Z) (ds : list Z) (x : Z) : Z := fold_left (fun a d => a * b + d) ds x.

Lemma horner_ge b ds x : 2 <= b -> 0 <= x -> Forall (fun d => 0 <= d) ds -> x <= horner b ds x.
Proof.
  intros Hb. revert x; induction ds as [|d ds IH]; intros x Hx H; [cbn; lia|].
  inversion H; subst. cbn [horner fold_left]. specialize (IH (x * b + d)). unfold horner in IH.
  specialize (IH ltac:(nia) ltac:(assumption)). nia.
Qed.

Lemma horner_app b ds ds' x : horner b (ds ++ ds') x = horner b ds' (horner b ds x).
Proof. apply fold_left_app. Qed.

(** The parts of the subject sequence: white space, a sign, a hexadecimal
    prefix, digits.  [None]: there are no digits.  Otherwise the sign, the
    magnitude (unbounded) and the number of bytes used. *)
Definition hex_prefix (base : Z) (l : list Z) : bool :=
  match l with
  | z :: x :: d :: _ =>
      ((base =? 0) || (base =? 16)) && (z =? 48) && ((x =? 120) || (x =? 88)) && (digit_val d <? 16)
  | _ => false
  end.

Definition radix (base : Z) (l : list Z) : Z :=
  if hex_prefix base l then 16
  else if base =? 0 then match l with z :: _ => if z =? 48 then 8 else 10 | [] => 10 end
  else base.

Definition subject (base : Z) (l : list Z) : option (bool * Z * nat) :=
  let w := span isspace l in
  let l1 := skipn w l in
  let '(neg, g) := match l1 with
                   | c :: _ => if c =? 45 then (true, 1%nat) else if c =? 43 then (false, 1%nat)
                               else (false, 0%nat)
                   | [] => (false, 0%nat)
                   end in
  let l2 := skipn g l1 in
  let h := if hex_prefix base l2 then 2%nat else 0%nat in
  let b := radix base l2 in
  let l3 := skipn h l2 in
  let n := span (fun c => digit_val c <? b) l3 in
  if (n =? 0)%nat then None
  else Some (neg, horner b (map digit_val (firstn n l3)) 0, (w + g + h + n)%nat).

(** ** A string as a stream *)

Definition str_at (m : mem) (s p : Z) : stream :=
  (m, mk_shfile s p SIZE_MAX SIZE_MAX 0 0).

Lemma from_string_at m s : from_string m s = str_at m s s.
Proof.
  unfold from_string, shlim0, sh_lim, set_sh, str_at. cbn. now rewrite Z.sub_diag.
Qed.

(** The shifts of the power-of-two bases. *)
Lemma bs_of_pow2 b :
  2 <= b <= 36 -> Z.land b (b - 1) = 0 ->
  2 ^ bs_of b = b /\ In (bs_of b) [1; 2; 3; 4; 5].
Proof.
  intros Hb E.
  assert (H : (negb (Z.land b (b - 1) =? 0) ||
    ((2 ^ bs_of b =? b) && existsb (Z.eqb (bs_of b)) [1; 2; 3; 4; 5])) = true).
  { clear E. assert (Hb' : 2 <= b < 2 + Z.of_nat 35) by lia. clear Hb. revert b Hb'.
    apply zrange_check. vm_compute. reflexivity. }
  rewrite E in H. change (negb (0 =? 0)) with false in H. cbn [orb] in H.
  apply andb_true_iff in H as [H1 H2]. split; [lia|].
  apply existsb_exists in H2 as (x & Hx & Ex). now replace (bs_of b) with x by lia.
Qed.

(** Or-ing a digit into a shifted word. *)
Lemma shift_digit x bs d b lim :
  0 <= x -> 0 <= bs -> 2 ^ bs = b -> 0 <= d < b -> x * b + d < lim -> 0 < lim ->
  Z.lor ((Z.shiftl x bs) mod lim) d = x * b + d.
Proof.
  intros Hx Hbs <- Hd Hl Hp. rewrite Z.shiftl_mul_pow2 by lia.
  rewrite Z.mod_small by nia. now apply lor_add.
Qed.

Section OnString.
Variable uflow : stream -> Z * stream.
Variables (m : mem) (s : Z).
Hypothesis Hm : wf_mem m.

Lemma shgetc_at p : p < SIZE_MAX -> shgetc uflow (str_at m s p) = (m p, str_at m s (p + 1)).
Proof.
  intros Hp. unfold shgetc, str_at. cbn [rpos shend].
  now replace (p =? SIZE_MAX) with false by lia.
Qed.

Lemma shunget_at p : shunget (str_at m s p) = str_at m s (p - 1).
Proof. reflexivity. Qed.

Lemma count_at p : sh_count (snd (str_at m s p)) = p - s.
Proof. reflexivity. Qed.

Lemma count_shlim0 p : sh_count (snd (shlim0 (str_at m s p))) = 0.
Proof. unfold sh_count. cbn. lia. Qed.

Section Digits.
Variables (b q : Z) (l : list Z) (fuel : nat).
Hypothesis Hb : 2 <= b <= 36.
Hypothesis Hl : cstr m q l.
Hypothesis Hend : q + Z.of_nat (length l) < SIZE_MAX.
Hypothesis Hfuel : (length l < fuel)%nat.

Let isd c := digit_val c <? b.
Let n := span isd l.
Let ds := map digit_val (firstn n l).
Let c_at (j : nat) := m (q + Z.of_nat j).

(** [j] digits consumed; the current character is the next one. *)
Definition digits_read (x : Z) (j : nat) (st : Z * Z * stream) : Prop :=
  st = (c_at j, x, str_at m s (q + Z.of_nat j + 1)) /\ (j <= n)%nat.

Lemma n_le : (n <= length l)%nat.
Proof. apply span_le. Qed.

Lemma digit_here j : (j < n)%nat -> isd (c_at j) = true.
Proof.
  intros Hj. unfold c_at. pose proof n_le. rewrite (cstr_nth m q l) by (assumption || lia).
  unfold n in Hj. clear -Hj. revert j Hj; induction l as [|c l' IH]; intros j Hj; cbn in *; [lia|].
  destruct (isd c) eqn:E; [|lia]. destruct j; [assumption|]. apply IH. lia.
Qed.

Lemma no_digit_end : isd (c_at n) = false.
Proof.
  unfold c_at. pose proof n_le. rewrite (cstr_nth m q l) by (assumption || lia).
  destruct (Nat.eq_dec n (length l)) as [E|E].
  - rewrite E, nth_overflow by lia. unfold isd. change (digit_val 0) with 255. lia.
  - apply (span_stop isd). unfold n in *. lia.
Qed.

Lemma digit_iff j : (j <= n)%nat -> isd (c_at j) = negb (j =? n)%nat.
Proof.
  intros Hj. destruct (Nat.eqb_spec j n) as [->|].
  - apply no_digit_end.
  - apply digit_here. lia.
Qed.

Lemma ds_length : length ds = n.
Proof. unfold ds. pose proof n_le. rewrite length_map, length_firstn. lia. Qed.

Lemma nth_ds j : (j < n)%nat -> nth j ds 0 = digit_val (c_at j).
Proof.
  intros Hj. pose proof n_le. unfold ds, c_at. rewrite (cstr_nth m q l) by (assumption || lia).
  rewrite (nth_indep _ 0 (digit_val 0)) by (rewrite length_map, length_firstn; lia).
  rewrite map_nth. f_equal. rewrite <- (firstn_skipn n l) at 2.
  symmetry. apply app_nth1. rewrite length_firstn. lia.
Qed.

Lemma ds_nonneg : Forall (fun d => 0 <= d) ds.
Proof.
  unfold ds. apply Forall_forall. intros d Hd. apply in_map_iff in Hd as (c & <- & _).
  apply digit_val_range.
Qed.

Definition value (j : nat) : Z := horner b (firstn j ds) 0.

Lemma value_nonneg j : 0 <= value j.
Proof.
  apply horner_ge; [lia..|]. apply Forall_forall. intros d Hd.
  pose proof ds_nonneg as H. rewrite Forall_forall in H. apply H.
  rewrite <- (firstn_skipn j ds). apply in_or_app. now left.
Qed.

Lemma value_S j : (j < n)%nat -> value (S j) = value j * b + digit_val (c_at j).
Proof.
  intros Hj. unfold value. rewrite (firstn_S_nth j ds 0) by (rewrite ds_length; lia).
  rewrite horner_app, nth_ds by assumption. reflexivity.
Qed.

Lemma value_mono j : (j <= n)%nat -> value j <= value n.
Proof.
  intros Hj. unfold value. rewrite <- (firstn_skipn j (firstn n ds)), firstn_firstn, horner_app.
  replace (Nat.min j n) with j by lia. apply horner_ge; [lia|apply value_nonneg|].
  apply Forall_forall. intros d Hd. pose proof ds_nonneg as H. rewrite Forall_forall in H.
  apply H. rewrite <- (firstn_skipn n ds). apply in_or_app. left.
  rewrite <- (firstn_skipn j (firstn n ds)). apply in_or_app. now right.
Qed.

(** A digit loop whose body is exact where its condition holds. *)
Lemma acc_loop_ok (cond : Z -> Z -> bool) (upd : Z -> Z -> Z) lim j :
  (forall c x, 0 <= c < 256 -> 0 <= x <= lim -> cond c x = true ->
     isd c = true /\ upd x c = x * b + digit_val c /\ x * b + digit_val c <= lim) ->
  (j <= n)%nat -> value j <= lim ->
  exists j', acc_loop uflow cond upd fuel (c_at j, value j, str_at m s (q + Z.of_nat j + 1))
    = Some (c_at j', value j', str_at m s (q + Z.of_nat j' + 1)) /\
    (j <= j' <= n)%nat /\ value j' <= lim /\ cond (c_at j') (value j') = false.
Proof.
  intros Hstep Hj Hv. pose proof n_le as Hn.
  destruct (loop_total (acc_step uflow cond upd)
    (fun st => exists i, digits_read (value i) i st /\ (j <= i)%nat /\ value i <= lim)
    (fun st => exists i, digits_read (value i) i st /\ (j <= i)%nat /\ value i <= lim /\
               cond (c_at i) (value i) = false)
    (fun st => Z.to_nat (q + Z.of_nat n + 1 - rpos (snd (snd st))))) with (fuel := fuel)
    (s := (c_at j, value j, str_at m s (q + Z.of_nat j + 1)))
    as (r & Hr & i & (-> & Hi) & Hji & Hvi & Hc).
  - intros st (i & (-> & Hi) & Hji & Hvi). unfold acc_step.
    destruct (cond (c_at i) (value i)) eqn:E.
    + destruct (Hstep _ _ (Hm _) (conj (value_nonneg i) Hvi) E) as (Hd & Hu & Hx).
      change (isd (c_at i) = true) in Hd. rewrite digit_iff in Hd by assumption. assert (Hlt : (i < n)%nat) by lia.
      rewrite shgetc_at by lia. split.
      * change (value i * b + digit_val (c_at i) <= lim) in Hx.
        exists (S i). split; [|rewrite value_S by assumption; lia].
        split; [|assumption]. rewrite value_S by assumption. unfold c_at in *. rewrite Hu.
        now replace (q + Z.of_nat (S i)) with (q + Z.of_nat i + 1) by lia.
      * cbn. lia.
    + exists i. repeat split; try assumption.
  - exists j. split; [split; [reflexivity|assumption]|]. split; [reflexivity|assumption].
  - cbn. lia.
  - exists i. unfold acc_loop. rewrite Hr. auto.
Qed.

(** The two loops: all the digits, or the first one that overflows. *)
Lemma two_loops cond1 upd1 cond2 upd2 :
  (forall c x, 0 <= c < 256 -> 0 <= x <= UINT_MAX -> cond1 c x = true ->
     isd c = true /\ upd1 x c = x * b + digit_val c /\ x * b + digit_val c <= UINT_MAX) ->
  (forall c x, 0 <= c < 256 -> 0 <= x <= ULLONG_MAX -> cond2 c x = true ->
     isd c = true /\ upd2 x c = x * b + digit_val c /\ x * b + digit_val c <= ULLONG_MAX) ->
  (forall c x, 0 <= c < 256 -> 0 <= x <= ULLONG_MAX -> cond2 c x = false -> isd c = true ->
     ULLONG_MAX < x * b + digit_val c) ->
  exists j,
    (let? s := acc_loop uflow cond1 upd1 fuel (m q, 0, str_at m s (q + 1)) in
     acc_loop uflow cond2 upd2 fuel s)
    = Some (c_at j, value j, str_at m s (q + Z.of_nat j + 1)) /\
    ((j = n /\ value n <= ULLONG_MAX) \/ ((j < n)%nat /\ ULLONG_MAX < value n)).
Proof.
  intros H1 H2 H3.
  destruct (acc_loop_ok cond1 upd1 UINT_MAX 0 H1) as (j1 & E1 & Hj1 & Hv1 & _);
    [lia|change (value 0) with 0; unfold UINT_MAX; lia|].
  unfold c_at in E1 at 1. cbn [Z.of_nat] in E1. rewrite Z.add_0_r in E1.
  change (value 0) with 0 in E1. rewrite E1. cbn [bind].
  destruct (acc_loop_ok cond2 upd2 ULLONG_MAX j1 H2) as (j & E2 & Hj & Hv & Hc);
    [lia|unfold UINT_MAX, ULLONG_MAX in *; lia|].
  exists j. split; [exact E2|]. destruct (Nat.eq_dec j n) as [->|Hne]; [now left|right].
  split; [lia|]. pose proof (H3 (c_at j) (value j) (Hm _) (conj (value_nonneg j) Hv) Hc) as H.
  rewrite digit_iff in H by lia. specialize (H ltac:(lia)).
  rewrite <- value_S in H by lia. pose proof (value_mono (S j) ltac:(lia)). lia.
Qed.

Lemma accumulate_ok :
  exists j,
    accumulate uflow fuel b (m q) (str_at m s (q + 1))
    = Some (c_at j, value j, str_at m s (q + Z.of_nat j + 1)) /\
    ((j = n /\ value n <= ULLONG_MAX) \/ ((j < n)%nat /\ ULLONG_MAX < value n)).
Proof.
  unfold accumulate. destruct (Z.eqb_spec b 10) as [E10|Hne].
  - apply two_loops; unfold isd, UINT_MAX, ULLONG_MAX; intros c x Hc Hx E.
    + rewrite isdigit_val in E by assumption. pose proof (digit_val_range c).
      change (4294967295 / 10 - 1) with 429496728 in E.
      assert (Hd : c - 48 = digit_val c) by (unfold digit_val in *; revert E; repeat case_if; lia).
      rewrite Hd, E10. rewrite u32_small by lia. lia.
    + rewrite isdigit_val in E by assumption. pose proof (digit_val_range c).
      change (18446744073709551615 / 10) with 1844674407370955161 in E.
      apply andb_true_iff in E as [E E'].
      assert (Hd : c - 48 = digit_val c) by (unfold digit_val in *; revert E; repeat case_if; lia).
      rewrite Hd, E10 in *. rewrite !u64_small in E' by lia. rewrite u64_small by lia. lia.
    + rewrite isdigit_val in E by assumption. pose proof (digit_val_range c). intros Hd.
      change (18446744073709551615 / 10) with 1844674407370955161 in E. rewrite E10 in *.
      assert (Hd' : c - 48 = digit_val c) by (unfold digit_val in *; revert Hd; repeat case_if; lia).
      rewrite Hd' in E. rewrite Hd in E. cbn [andb] in E.
      destruct (Z.leb_spec x 1844674407370955161); [|lia]. cbn [andb] in E.
      rewrite !u64_small in E by lia. lia.
  - destruct (Z.eqb_spec (Z.land b (b - 1)) 0) as [Ep|Ep].
    + destruct (bs_of_pow2 b Hb Ep) as [Hp Hbs]. set (bs := bs_of b) in *. clearbody bs.
      assert (Hs : Z.shiftr ULLONG_MAX bs = ULLONG_MAX / b)
        by (rewrite Z.shiftr_div_pow2, Hp by (cbn in Hbs; lia); reflexivity).
      rewrite Hs. clear Hs Ep Hne.
      assert (Hbs' : 0 <= bs) by (cbn in Hbs; lia).
      apply two_loops; unfold isd, UINT_MAX, ULLONG_MAX; intros c x Hc Hx E;
        rewrite val_digit in * by assumption; pose proof (digit_val_range c).
      * change (4294967295 / 32) with 134217727 in E.
        assert (Hx' : x * b + digit_val c < 4294967296).
        { cbn in Hbs. repeat destruct Hbs as [<-|Hbs]; try contradiction; cbn in Hp; subst b; lia. }
        unfold u32. rewrite (shift_digit x bs (digit_val c) b) by lia. lia.
      * assert (Hx' : x * b + digit_val c < 18446744073709551616).
        { cbn in Hbs. repeat destruct Hbs as [<-|Hbs]; try contradiction; cbn in Hp; subst b; zlia. }
        unfold u64. rewrite (shift_digit x bs (digit_val c) b) by lia. lia.
      * intros Hd. cbn in Hbs.
        repeat destruct Hbs as [<-|Hbs]; try contradiction; cbn in Hp; subst b; zlia.
    + clear Ep Hne.
      apply two_loops; unfold isd, UINT_MAX, ULLONG_MAX; intros c x Hc Hx E;
        rewrite val_digit in * by assumption; pose proof (digit_val_range c).
      * change (4294967295 / 36 - 1) with 119304646 in E.
        assert (x * b + digit_val c <= 4294967295) by nia. rewrite u32_small by nia. lia.
      * apply andb_true_iff in E as [E E']. apply andb_true_iff in E as [E1 E2].
        assert (Hyb : b * x <= 18446744073709551615).
        { pose proof (Z.mul_div_le 18446744073709551615 b). nia. }
        rewrite u64_small in E' by nia. rewrite u64_small by nia. lia.
      * intros Hd. rewrite Hd in E. cbn [andb] in E.
        destruct (Z.leb_spec x (18446744073709551615 / b)) as [Hle|Hgt].
        -- cbn [andb] in E. assert (Hyb : b * x <= 18446744073709551615).
           { pose proof (Z.mul_div_le 18446744073709551615 b). nia. }
           rewrite u64_small in E by nia. lia.
        -- pose proof (Z.mul_succ_div_gt 18446744073709551615 b ltac:(lia)). nia.
Qed.

(** After an overflow the rest of the digits are read and dropped. *)
Lemma skip_digits j x :
  (j <= n)%nat ->
  exists c y, acc_loop uflow (fun c _ => val c <? b) (fun x _ => x) fuel
    (c_at j, x, str_at m s (q + Z.of_nat j + 1)) = Some (c, y, str_at m s (q + Z.of_nat n + 1)).
Proof.
  intros Hj. pose proof n_le as Hn.
  destruct (loop_total (acc_step uflow (fun c _ => val c <? b) (fun x _ => x))
    (fun st => exists i, digits_read x i st)
    (fun st => exists c y, st = (c, y, str_at m s (q + Z.of_nat n + 1)))
    (fun st => Z.to_nat (q + Z.of_nat n + 1 - rpos (snd (snd st))))) with (fuel := fuel)
    (s := (c_at j, x, str_at m s (q + Z.of_nat j + 1)))
    as (r & Hr & c & y & ->).
  - intros st (i & -> & Hi). unfold acc_step. rewrite val_digit by apply Hm.
    change (digit_val (c_at i) <? b) with (isd (c_at i)). rewrite digit_iff by assumption.
    destruct (Nat.eqb_spec i n) as [->|Hne]; cbn [negb]; [eauto|].
    rewrite shgetc_at by lia. split; [|cbn; lia]. exists (S i). split; [|lia].
    unfold c_at. now replace (q + Z.of_nat (S i)) with (q + Z.of_nat i + 1) by lia.
  - exists j. now split.
  - cbn. lia.
  - exists c, y. exact Hr.
Qed.
End Digits.
End OnString.

(** ** The result *)

(** What is returned for a magnitude: a value beyond 64 bits becomes the limit
    (and loses its sign when the limit is odd); then the limit is applied. *)
Definition scan_result (lim neg v errno : Z) : Z * Z :=
  let '(y, neg, errno) :=
    if ULLONG_MAX <? v then (lim, if Z.odd lim then 0 else neg, ERANGE) else (v, neg, errno) in
  if (lim <=? y) && negb (Z.odd lim) && (neg =? 0) then (u64 (lim - 1), ERANGE)
  else if lim <? y then (lim, ERANGE)
  else (u64 (if neg =? 0 then y else - y), errno).

(** y ^ neg - neg is y or -y. *)
Lemma negate y neg :
  0 <= y <= ULLONG_MAX -> neg = 0 \/ neg = -1 ->
  u64 (Z.lxor y (u64 neg) - neg) = u64 (if neg =? 0 then y else - y).
Proof.
  unfold ULLONG_MAX. intros Hy [-> | ->].
  - change (u64 0) with 0. now rewrite Z.lxor_0_r, Z.sub_0_r.
  - change (-1 =? 0) with false. cbv iota. change (u64 (-1)) with (Z.ones 64).
    assert (E : Z.lxor y (Z.ones 64) = Z.ones 64 - y).
    { assert (H0 : Z.lxor y (Z.ones 64) = Z.ldiff (Z.ones 64) y).
      { apply Z.bits_inj'; intros i Hi. rewrite Z.lxor_spec, Z.ldiff_spec.
        destruct (Z.lt_ge_cases i 64).
        - rewrite Z.ones_spec_low by lia. now destruct (Z.testbit y i).
        - rewrite Z.ones_spec_high by lia. rewrite xorb_false_r. cbn [andb].
          rewrite <- (Z.mod_small y (2 ^ 64)) by lia. now rewrite Z.mod_pow2_bits_high by lia. }
      rewrite H0, <- Z.sub_nocarry_ldiff; [reflexivity|].
      apply Z.bits_inj'; intros i Hi. rewrite Z.ldiff_spec, Z.bits_0.
      destruct (Z.lt_ge_cases i 64).
      - rewrite Z.ones_spec_low by lia. apply andb_false_r.
      - rewrite <- (Z.mod_small y (2 ^ 64)) by lia. now rewrite Z.mod_pow2_bits_high by lia. }
    rewrite E. unfold u64. change (Z.ones 64) with 18446744073709551615. zlia.
Qed.

Lemma land_1_odd x : negb (Z.land x 1 =? 0) = Z.odd x.
Proof.
  replace (Z.land x 1) with (x mod 2) by (symmetry; apply (Z.land_ones x 1); lia).
  rewrite Zmod_odd. now destruct (Z.odd x).
Qed.

(** The first byte of a string. *)
Lemma cstr_hd m q l : cstr m q l -> m q = hd 0 l.
Proof. destruct l; cbn; tauto. Qed.

Lemma cstr_tl m q b l : cstr m q (b :: l) -> cstr m (q + 1) l.
Proof. cbn. tauto. Qed.

(** Equal results at addresses that are equal by arithmetic. *)
Ltac same_at :=
  match goal with
  | |- context [str_at ?m ?s ?p] =>
      match goal with |- context [str_at m s ?p'] =>
        lazymatch p' with p => fail | _ => replace p with p' by lia; reflexivity end end
  end.

(** c|32 is 'x' for the two letters only. *)
Lemma lor_32_x c : 0 <= c < 256 -> (Z.lor c 32 =? 120) = (c =? 120) || (c =? 88).
Proof.
  intros Hc. apply Bool.eqb_prop. revert c Hc. apply (zrange_check _ 0 256).
  vm_compute. reflexivity.
Qed.

Section Scan.
Variable uflow : stream -> Z * stream.
Variables (m : mem) (s lim : Z) (fuel : nat).
Hypothesis Hm : wf_mem m.
Hypothesis Hlim : 0 < lim <= ULLONG_MAX.

(** The digits [l] at [q], in base [b], then the tail of the function. *)
Lemma digits_ok b q l neg errno :
  2 <= b <= 36 -> cstr m q l -> q + Z.of_nat (length l) < SIZE_MAX -> (length l < fuel)%nat ->
  neg = 0 \/ neg = -1 ->
  let n := span (fun c => digit_val c <? b) l in
  let '(y, e) := scan_result lim neg (horner b (map digit_val (firstn n l)) 0) errno in
  (let? t := accumulate uflow fuel b (m q) (str_at m s (q + 1)) in
   finish_scan uflow fuel b neg lim t errno)
  = Some (y, str_at m s (q + Z.of_nat n), e).
Proof.
  intros Hb Hl Hend Hf Hneg n.
  assert (Hall : value b l n = horner b (map digit_val (firstn n l)) 0).
  { unfold value. rewrite firstn_all2; [reflexivity|]. rewrite length_map, length_firstn. lia. }
  rewrite <- Hall.
  destruct (accumulate_ok uflow m s Hm b q l fuel Hb Hl Hend Hf) as (j & -> & Hj).
  cbn [bind]. unfold finish_scan. set (c := m (q + Z.of_nat j)).
  assert (Hover : (if b =? 10 then isdigit c && (val c <? b) else val c <? b)
                  = (digit_val c <? b)).
  { rewrite val_digit, isdigit_val by apply Hm. destruct (Z.eqb_spec b 10) as [->|]; [|reflexivity].
    apply andb_diag. }
  rewrite Hover. change (digit_val c <? b) with (digit_val (m (q + Z.of_nat j)) <? b).
  pose proof (digit_iff m b q l fuel Hb Hl Hf j ltac:(fold n; lia)) as Hd. cbv beta in Hd. rewrite Hd.
  fold n in Hj |- *. unfold scan_result. rewrite <- (negb_involutive (Z.land lim 1 =? 0)), land_1_odd.
  destruct Hj as [[-> Hv]|[Hlt Hv]].
  - rewrite Nat.eqb_refl. cbn [negb bind]. replace (ULLONG_MAX <? value b l n) with false by lia.
    rewrite shunget_at, negate by (try assumption; pose proof (value_nonneg b l fuel Hb Hf n); lia).
    replace (q + Z.of_nat n + 1 - 1) with (q + Z.of_nat n) by lia.
    repeat (case_if; breflect; try reflexivity; try lia).
  - replace (j =? n)%nat with false by lia. cbn [negb].
    destruct (skip_digits uflow m s Hm b q l fuel Hb Hl Hend Hf j (value b l j)) as (c' & y' & E);
      [fold n; lia|]. fold c. cbv beta in E. fold n in E. unfold c. rewrite E. cbn [bind snd].
    replace (ULLONG_MAX <? value b l n) with true by lia.
    rewrite shunget_at. replace (q + Z.of_nat n + 1 - 1) with (q + Z.of_nat n) by lia.
    rewrite Z.ltb_irrefl, Z.leb_refl, andb_false_r. cbn [andb].
    destruct (Z.odd lim); cbn [negb andb]; rewrite negate by (destruct Hneg; lia);
      repeat (case_if; try reflexivity).
Qed.

(** White space is skipped. *)
Lemma skip_space_ok q l :
  cstr m q l -> q + Z.of_nat (length l) < SIZE_MAX -> (length l < fuel)%nat ->
  let w := Z.of_nat (span isspace l) in
  skip_space uflow fuel (str_at m s q) = Some (m (q + w), str_at m s (q + w + 1)).
Proof.
  intros Hl Hend Hf w. unfold skip_space. pose proof (span_le isspace l) as Hw.
  pose proof (cstr_span m q l (fun c => negb (isspace c)) Hl eq_refl) as (_ & Hstop & Hsp).
  rewrite (span_ext _ isspace) in Hstop, Hsp by (intros; apply negb_involutive).
  fold w in Hstop, Hsp.
  destruct (loop_total
    (fun t => let '(c, t) := shgetc uflow t in if isspace c then inl t else inr (c, t))
    (fun t => exists i, 0 <= i <= w /\ t = str_at m s (q + i))
    (fun r => r = (m (q + w), str_at m s (q + w + 1)))
    (fun t => Z.to_nat (q + w - rpos (snd t)))) with (fuel := fuel) (s := str_at m s q)
    as (r & -> & ->).
  - intros t (i & Hi & ->). rewrite shgetc_at by lia. destruct (isspace (m (q + i))) eqn:E.
    + destruct (Z.eq_dec i w) as [->|Hne]; [rewrite E in Hstop; discriminate|].
      split; [|cbn; lia]. exists (i + 1). split; [lia|]. f_equal. lia.
    + destruct (Z.eq_dec i w) as [->|Hne]; [reflexivity|].
      specialize (Hsp i ltac:(lia)). rewrite E in Hsp. discriminate.
  - exists 0. rewrite Z.add_0_r. split; [lia|reflexivity].
  - cbn. lia.
  - reflexivity.
Qed.

(** The prefix, the digits and the tail, from the first byte after the sign. *)
Lemma prefix_ok base q l neg errno :
  0 <= base <= 36 -> base <> 1 ->
  cstr m q l -> q + Z.of_nat (length l) < SIZE_MAX -> (length l < fuel)%nat ->
  neg = 0 \/ neg = -1 ->
  let go base c t :=
    let? t := accumulate uflow fuel base c t in finish_scan uflow fuel base neg lim t errno in
  let h := if hex_prefix base l then 2%nat else 0%nat in
  let b := radix base l in
  let n := span (fun c => digit_val c <? b) (skipn h l) in
  let c := m q in
  let t := str_at m s (q + 1) in
  let r :=
    if ((base =? 0) || (base =? 16)) && (c =? 48) then
      let '(c, t) := shgetc uflow t in
      if Z.lor c 32 =? 120 then
        let '(c, t) := shgetc uflow t in
        if 16 <=? val c then Some (0, shunget (shunget t), errno) else go 16 c t
      else go (if base =? 0 then 8 else base) c t
    else
      let base := if base =? 0 then 10 else base in
      if base <=? val c then Some (0, shlim0 (shunget t), EINVAL) else go base c t in
  if (n =? 0)%nat then r = Some (0, shlim0 (str_at m s q), EINVAL)
  else
    let '(y, e) := scan_result lim neg (horner b (map digit_val (firstn n (skipn h l))) 0) errno in
    r = Some (y, str_at m s (q + Z.of_nat (h + n)), e).
Proof.
  intros Hb0 Hb1 Hl Hend Hf Hneg go h b n c t r.
  assert (Hbase : 2 <= b <= 36 \/ b = base).
  { unfold b, radix. destruct (hex_prefix base l); [left; lia|].
    destruct (Z.eqb_spec base 0); [left|now right]. destruct l as [|z l']; [lia|].
    destruct (z =? 48); lia. }
  unfold r, c, t. rewrite (cstr_hd m q l Hl). clear r c t.
  destruct (((base =? 0) || (base =? 16)) && (hd 0 l =? 48)) eqn:EA.
  - destruct l as [|z l']; [cbn in EA; lia|]. cbn [hd] in EA. cbn [length] in *.
    assert (z = 48) by lia. subst z. pose proof (cstr_tl _ _ _ _ Hl) as Hl'.
    rewrite shgetc_at by lia. rewrite (cstr_hd _ _ _ Hl').
    assert (Hx : 0 <= hd 0 l' < 256) by (rewrite <- (cstr_hd _ _ _ Hl'); apply Hm).
    rewrite (lor_32_x _ Hx).
    destruct ((hd 0 l' =? 120) || (hd 0 l' =? 88)) eqn:EX.
    + destruct l' as [|x l'']; [cbn in EX; lia|]. cbn [hd] in EX, Hx. cbn [length] in *.
      pose proof (cstr_tl _ _ _ _ Hl') as Hl''. rewrite shgetc_at by lia.
      rewrite val_digit by apply Hm. rewrite (cstr_hd _ _ _ Hl'').
      destruct (Z.leb_spec 16 (digit_val (hd 0 l''))) as [Hd|Hd].
      * assert (Eh : hex_prefix base (48 :: x :: l'') = false).
        { destruct l'' as [|d l3]; [reflexivity|]. cbn [hd] in Hd. unfold hex_prefix. lia. }
        unfold n, h, b, radix. rewrite Eh. cbn [skipn].
        set (b' := if base =? 0 then if 48 =? 48 then 8 else 10 else base).
        assert (Hb' : 0 < b' <= 16) by (unfold b'; change (48 =? 48) with true;
          destruct (Z.eqb_spec base 0); lia).
        assert (Hdx : digit_val x = 33).
        { assert (Hxx : x = 120 \/ x = 88) by lia. destruct Hxx; subst x; reflexivity. }
        cbn [span]. change (digit_val 48) with 0. rewrite Hdx.
        replace (0 <? b') with true by lia. replace (33 <? b') with false by lia.
        cbn [Nat.eqb firstn map]. change (digit_val 48) with 0.
        unfold scan_result. change (horner b' [0] 0) with 0.
        replace (ULLONG_MAX <? 0) with false by reflexivity.
        replace (lim <=? 0) with false by lia. cbn [andb]. replace (lim <? 0) with false by lia.
        rewrite !shunget_at. replace (u64 (if neg =? 0 then 0 else - 0)) with 0 by now case_if.
        same_at.
      * assert (Eh : hex_prefix base (48 :: x :: l'') = true).
        { destruct l'' as [|d l3]; [change (digit_val (hd 0 [])) with 255 in Hd; lia|].
          cbn [hd] in Hd. unfold hex_prefix. lia. }
        unfold n, h, b, radix. rewrite Eh. cbn [skipn].
        set (n' := span (fun c => digit_val c <? 16) l'').
        assert (Hn' : n' <> O).
        { unfold n'. destruct l'' as [|d l3]; [change (digit_val (hd 0 [])) with 255 in Hd; lia|].
          cbn [hd] in Hd. cbn [span]. now replace (digit_val d <? 16) with true by lia. }
        replace (n' =? 0)%nat with false by lia.
        pose proof (digits_ok 16 (q + 1 + 1) l'' neg errno ltac:(lia) Hl'' ltac:(lia) ltac:(lia) Hneg)
          as H. cbv zeta in H. fold n' in H. rewrite (cstr_hd _ _ _ Hl'') in H.
        destruct (scan_result _ _ _ _) as [y e]. unfold go. rewrite H.
        same_at.
    + assert (Eh : hex_prefix base (48 :: l') = false).
      { destruct l' as [|x [|d l3]]; [reflexivity..|]. cbn [hd] in EX.
        unfold hex_prefix. lia. }
      unfold n, h, b, radix. rewrite Eh. cbn [skipn]. change (48 =? 48) with true. cbv iota.
      set (b' := if base =? 0 then 8 else base).
      assert (Hb' : 2 <= b' <= 36) by (unfold b'; destruct (Z.eqb_spec base 0); lia).
      cbn [span]. change (digit_val 48) with 0. replace (0 <? b') with true by lia.
      cbn [Nat.eqb]. set (n' := span (fun c => digit_val c <? b') l').
      pose proof (digits_ok b' (q + 1) l' neg errno Hb' Hl' ltac:(lia) ltac:(lia) Hneg) as H.
      cbv zeta in H. fold n' in H. rewrite (cstr_hd _ _ _ Hl') in H.
      cbn [firstn map]. change (digit_val 48) with 0.
      change (horner b' (0 :: map digit_val (firstn n' l')) 0)
        with (horner b' (map digit_val (firstn n' l')) (0 * b' + 0)). rewrite Z.mul_0_l, Z.add_0_r.
      destruct (scan_result _ _ _ _) as [y e]. unfold go. rewrite H. same_at.
  - assert (Eh : hex_prefix base l = false).
    { destruct l as [|z [|x [|d l3]]]; try reflexivity. cbn [hd] in EA.
      unfold hex_prefix. lia. }
    assert (Eb : b = if base =? 0 then 10 else base).
    { unfold b, radix. rewrite Eh. destruct (Z.eqb_spec base 0) as [->|]; [|reflexivity].
      destruct l as [|z l']; [reflexivity|]. cbn in EA. now rewrite EA. }
    unfold n, h. rewrite Eh. cbn [skipn Nat.add]. rewrite <- Eb.
    assert (Hb : 2 <= b <= 36) by (rewrite Eb; destruct (Z.eqb_spec base 0); lia).
    rewrite <- (cstr_hd m q l Hl), val_digit by apply Hm. rewrite (cstr_hd m q l Hl).
    clear n h. set (n := span (fun c => digit_val c <? b) l).
    assert (Hn : (n =? 0)%nat = (b <=? digit_val (hd 0 l))).
    { unfold n. destruct l as [|z l']; cbn [span hd].
      - change (digit_val 0) with 255. cbn. lia.
      - destruct (Z.ltb_spec (digit_val z) b); cbn; lia. }
    rewrite Hn. destruct (b <=? digit_val (hd 0 l)).
    + rewrite shunget_at. same_at.
    + pose proof (digits_ok b q l neg errno Hb Hl Hend Hf Hneg) as H.
      cbv zeta in H. fold n in H. rewrite (cstr_hd m q l Hl) in H.
      destruct (scan_result _ _ _ _) as [y e]. exact H.
Qed.
End Scan.

Section Strtol.
Variable uflow : stream -> Z * stream.
Variables (m : mem) (s : Z) (l : list Z) (fuel : nat).
Hypothesis Hm : wf_mem m.
Hypothesis Hl : cstr m s l.
Hypothesis Hend : s + Z.of_nat (length l) < SIZE_MAX.
Hypothesis Hf : (length l < fuel)%nat.

Lemma span_skip_hd p (xs : list Z) :
  hd 0 (skipn (span p xs) xs) = nth (span p xs) xs 0.
Proof. induction xs as [|x xs IH]; [reflexivity|]. cbn. destruct (p x); [exact IH|reflexivity]. Qed.

(** __intscan on a string: nothing but the subject sequence is used. *)
Lemma intscan_ok base lim errno :
  0 <= base <= 36 -> base <> 1 -> 0 < lim <= ULLONG_MAX ->
  let r := intscan uflow fuel (str_at m s s) base true lim errno in
  match subject base l with
  | None => exists p, r = Some (0, shlim0 (str_at m s p), EINVAL)
  | Some (neg, v, k) =>
      let '(y, e) := scan_result lim (if neg then -1 else 0) v errno in
      r = Some (y, str_at m s (s + Z.of_nat k), e)
  end.
Proof.
  intros Hb0 Hb1 Hlim r. unfold r, intscan, subject.
  replace ((36 <? base) || (base =? 1)) with false by lia.
  rewrite (skip_space_ok uflow m s fuel s l Hl Hend Hf). cbn [bind].
  pose proof (span_le isspace l) as Hw. set (w := span isspace l) in *.
  assert (Hl1 : cstr m (s + Z.of_nat w) (skipn w l)) by now apply cstr_skip.
  assert (Hlen1 : length (skipn w l) = (length l - w)%nat) by apply length_skipn.
  rewrite (cstr_hd _ _ _ Hl1). set (l1 := skipn w l) in *. clearbody l1.
  set (neg := hd 0 l1 =? 45). set (g := if (hd 0 l1 =? 43) || (hd 0 l1 =? 45) then 1%nat else 0%nat).
  assert (Hsign : match l1 with
    | [] => (false, 0%nat)
    | c :: _ => if c =? 45 then (true, 1%nat) else if c =? 43 then (false, 1%nat) else (false, 0%nat)
    end = (neg, g)).
  { unfold neg, g. destruct l1 as [|c l1']; [reflexivity|]. cbn [hd].
    destruct (Z.eqb_spec c 45) as [->|]; [reflexivity|]. now destruct (c =? 43). }
  rewrite Hsign.
  assert (Hg : (g <= length l1)%nat).
  { unfold g. destruct l1; cbn [hd length]; [vm_compute; lia|]. case_if; lia. }
  assert (Hl2 : cstr m (s + Z.of_nat w + Z.of_nat g) (skipn g l1)) by now apply cstr_skip.
  pose proof (length_skipn g l1) as Hlen2. set (l2 := skipn g l1) in *.
  assert (Hread : (if (hd 0 l1 =? 43) || neg
     then let '(c', t) := shgetc uflow (str_at m s (s + Z.of_nat w + 1)) in
          ((if neg then -1 else 0), c', t)
     else (0, hd 0 l1, str_at m s (s + Z.of_nat w + 1)))
    = ((if neg then -1 else 0), m (s + Z.of_nat w + Z.of_nat g),
       str_at m s (s + Z.of_nat w + Z.of_nat g + 1))).
  { unfold neg, g in *. clear Hsign. destruct ((hd 0 l1 =? 43) || (hd 0 l1 =? 45)) eqn:E.
    - rewrite shgetc_at by lia. reflexivity.
    - replace (hd 0 l1 =? 45) with false by lia. cbn [Z.of_nat]. rewrite Z.add_0_r.
      now rewrite (cstr_hd _ _ _ Hl1). }
  fold neg. rewrite Hread. clear Hread Hsign.
  pose proof (prefix_ok uflow m s lim fuel Hm Hlim base (s + Z.of_nat w + Z.of_nat g) l2
    (if neg then -1 else 0) errno Hb0 Hb1 Hl2 ltac:(lia) ltac:(lia)
    ltac:(destruct neg; lia)) as H.
  cbv zeta in H |- *. set (h := if hex_prefix base l2 then 2%nat else 0%nat) in *.
  set (n := span (fun c => digit_val c <? radix base l2) (skipn h l2)) in *.
  destruct (n =? 0)%nat; [eexists; exact H|].
  destruct (scan_result _ _ _ _) as [y e]. rewrite H. clear H. do 4 f_equal. lia.
Qed.

Lemma bad_base base lim errno :
  (36 <? base) || (base =? 1) = true ->
  intscan uflow fuel (str_at m s s) base true lim errno = Some (0, str_at m s s, EINVAL).
Proof. intros H. unfold intscan. now rewrite H. Qed.

Lemma subject_nonneg base neg v k :
  0 <= base <= 36 -> base <> 1 -> subject base l = Some (neg, v, k) -> 0 <= v.
Proof.
  clear -l. intros Hb0 Hb1. unfold subject. destruct (match skipn _ _ with [] => _ | _ => _ end) as [sg g].
  set (l2 := skipn g _). case_if; [discriminate|]. intros [= <- <- <-].
  apply horner_ge; [|lia|].
  - unfold radix. case_if; [lia|]. destruct (Z.eqb_spec base 0); [|lia].
    destruct l2 as [|z ?]; [lia|]. destruct (z =? 48); lia.
  - apply Forall_forall. intros d Hd. apply in_map_iff in Hd as (c & <- & _).
    apply digit_val_range.
Qed.

Definition LLONG_MAX : Z := 9223372036854775807.
Definition LLONG_MIN : Z := -9223372036854775808.

(** The value of strtol, used by its clients. *)
Lemma strtol_value base errno :
  0 <= base <= 36 -> base <> 1 ->
  strtol uflow fuel m s base errno =
  match subject base l with
  | None => Some (0, s, EINVAL)
  | Some (neg, v, k) =>
      let x := if neg then - v else v in
      Some (Z.max LLONG_MIN (Z.min LLONG_MAX x), s + Z.of_nat k,
            if (LLONG_MIN <=? x) && (x <=? LLONG_MAX) then errno else ERANGE)
  end.
Proof.
  intros Hb Hb1. unfold strtol, strtox. rewrite from_string_at, u32_small by lia.
  pose proof (intscan_ok base LLONG_MIN_bits errno ltac:(lia) ltac:(lia)
    ltac:(unfold LLONG_MIN_bits, ULLONG_MAX; lia)) as H.
  cbv zeta in H. destruct (subject base l) as [[[neg v] k]|] eqn:Es.
  - apply subject_nonneg in Es; [|lia..]. cbv zeta.
    unfold LLONG_MAX, LLONG_MIN, LLONG_MIN_bits, scan_result, ULLONG_MAX in *.
    change (Z.odd 9223372036854775808) with false in H.
    destruct (Z.ltb_spec 18446744073709551615 v), neg; cbn [negb] in H;
      rewrite andb_true_r in H; revert H; repeat case_if; intros ->;
      breflect; try lia; cbn [bind]; rewrite count_at; repeat f_equal; try lia;
      unfold s64, u64; zlia.
  - destruct H as (p & ->). cbn [bind]. now rewrite count_shlim0, Z.add_0_r.
Qed.

(** C22. strtol (strtoll, strtoimax), on any terminated string and any base:
    a bad base or a string without digits gives 0, EINVAL and the end pointer at
    the start; otherwise the value is the mathematical value of the subject
    sequence (white space, sign, prefix, longest run of digits of the radix)
    clamped to 64 signed bits, errno is ERANGE exactly when it was clamped and
    is left alone otherwise, and the end pointer is past the last digit ("0x"
    without a hexadecimal digit ends after the 0). *)
Theorem strtol_correct base errno :
  INT_MIN <= base <= INT_MAX ->
  let r := strtol uflow fuel m s base errno in
  if (base <? 0) || (36 <? base) || (base =? 1) then r = Some (0, s, EINVAL)
  else match subject base l with
  | None => r = Some (0, s, EINVAL)
  | Some (neg, v, k) =>
      let x := if neg then - v else v in
      r = Some (Z.max LLONG_MIN (Z.min LLONG_MAX x), s + Z.of_nat k,
                if (LLONG_MIN <=? x) && (x <=? LLONG_MAX) then errno else ERANGE)
  end.
Proof.
  intros Hb r. unfold INT_MIN, INT_MAX in Hb. unfold r.
  destruct ((base <? 0) || (36 <? base) || (base =? 1)) eqn:Eb.
  - unfold strtol, strtox. rewrite from_string_at, bad_base by (unfold u32; zlia).
    cbn [bind]. now rewrite count_at, Z.sub_diag, Z.add_0_r.
  - rewrite strtol_value by lia. now destruct (subject base l) as [[[neg v] k]|].
Qed.

(** The value of strtoul, used by the callers of strtoul. *)
Lemma strtoul_value base errno :
  INT_MIN <= base <= INT_MAX ->
  let r := strtoul uflow fuel m s base errno in
  if (base <? 0) || (36 <? base) || (base =? 1) then r = Some (0, s, EINVAL)
  else match subject base l with
  | None => r = Some (0, s, EINVAL)
  | Some (neg, v, k) =>
      r = if v <=? ULLONG_MAX
          then Some (u64 (if neg then - v else v), s + Z.of_nat k, errno)
          else Some (ULLONG_MAX, s + Z.of_nat k, ERANGE)
  end.
Proof.
  intros Hb r. unfold INT_MIN, INT_MAX in Hb. unfold r, strtoul, strtox. rewrite from_string_at.
  destruct ((base <? 0) || (36 <? base) || (base =? 1)) eqn:Eb.
  - rewrite bad_base by (unfold u32; zlia). cbn [bind]. now rewrite count_at, Z.sub_diag, Z.add_0_r.
  - rewrite u32_small by lia.
    pose proof (intscan_ok base ULLONG_MAX errno ltac:(lia) ltac:(lia)
      ltac:(unfold ULLONG_MAX; lia)) as H.
    cbv zeta in H. destruct (subject base l) as [[[neg v] k]|] eqn:Es.
    + apply subject_nonneg in Es; [|lia..]. unfold scan_result, ULLONG_MAX in *.
      change (Z.odd 18446744073709551615) with true in H.
      destruct (Z.ltb_spec 18446744073709551615 v), neg; cbn [negb] in H;
        rewrite andb_false_r in H; cbn [andb] in H; revert H; repeat case_if; intros ->;
        breflect; try lia; cbn [bind]; rewrite count_at; repeat f_equal; try lia.
    + destruct H as (p & ->). cbn [bind]. now rewrite count_shlim0, Z.add_0_r.
Qed.

(** strtoul (strtoull, strtoumax): likewise, with the value negated modulo
    2^64 after a minus sign, and ULONG_MAX with ERANGE exactly when the magnitude
    does not fit 64 bits. *)
Theorem strtoul_correct base errno :
  INT_MIN <= base <= INT_MAX ->
  let r := strtoul uflow fuel m s base errno in
  if (base <? 0) || (36 <? base) || (base =? 1) then r = Some (0, s, EINVAL)
  else match subject base l with
  | None => r = Some (0, s, EINVAL)
  | Some (neg, v, k) =>
      r = if v <=? ULLONG_MAX
          then Some (u64 (if neg then - v else v), s + Z.of_nat k, errno)
          else Some (ULLONG_MAX, s + Z.of_nat k, ERANGE)
  end.
Proof. apply strtoul_value. Qed.
End Strtol.

Lemma strtol_correct_witness :
  strtol (fun t => (0, t)) 30 (str_mem 5 [32; 45; 48; 88; 56; 48; 48; 48; 48; 48; 48; 48;
    48; 48; 48; 48; 48; 48; 48; 49; 103]) 5 0 7
  = Some (LLONG_MIN, 25, ERANGE).
Proof.
  apply (strtol_correct (fun t => (0, t)) (str_mem 5 [32; 45; 48; 88; 56; 48; 48; 48; 48; 48; 48;
    48; 48; 48; 48; 48; 48; 48; 48; 49; 103]) 5 [32; 45; 48; 88; 56; 48; 48; 48; 48; 48; 48; 48;
    48; 48; 48; 48; 48; 48; 48; 49; 103] 30) with (base := 0).
  - apply str_mem_wf. repeat constructor; lia.
  - vm_compute. repeat split; lia.
  - vm_compute. reflexivity.
  - cbn. lia.
  - vm_compute. split; discriminate.
Defined.

Lemma strtoul_correct_witness :
  strtoul (fun t => (0, t)) 30 (str_mem 5 [45; 51; 55; 57]) 5 8 7
  = Some (18446744073709551585, 8, 7).
Proof.
  apply (strtoul_correct (fun t => (0, t)) (str_mem 5 [45; 51; 55; 57]) 5 [45; 51; 55; 57] 30)
    with (base := 8).
  - apply str_mem_wf. repeat constructor; lia.
  - vm_compute. repeat split; lia.
  - vm_compute. reflexivity.
  - cbn. lia.
  - vm_compute. split; discriminate.
Defined.
