(* ===== verification/Prng.v ===== *)
(** * Prng: pseudo-random number generators

    Models src/prng: the 48-bit family (__rand48_step and the functions over the
    shared __seed48), rand and rand_r, the additive feedback generator of
    random.c with its state buffers, and arc4random_buf, whose getrandom is an
    argument.

    The 48-bit state is three halfwords as in the code; the cells of a random
    state are 32-bit words of a memory indexed by cell.  The lock of random.c
    (component Locks) serialises its functions, which are modelled as the
    sequential state changes under it. *)

From Stdlib Require Import ZArith Lia ZifyBool List Bool.
From S2P Require Import Prelude.
Import ListNotations.
Open Scope Z_scope.

(** ** The 48-bit generators *)

(** unsigned short xi[3]; unsigned short lc[4]. *)
Definition xsubi : Type := Z * Z * Z.
Definition lcong : Type := Z * Z * Z * Z.

(** __seed48[7]: the state, then the multiplier and the addend. *)
Record seed48_t : Type := mk_seed48 { seed_x : xsubi; seed_lc : lcong }.

Definition seed48_init : seed48_t := mk_seed48 (0, 0, 0) (58989, 57068, 5, 11).

Definition u16 (z : Z) : Z := z mod 65536.

(** x[0] | x[1]+0U<<16 | x[2]+0ULL<<32 *)
Definition join48 (x0 x1 x2 : Z) : Z :=
  Z.lor (Z.lor x0 (u32 (Z.shiftl x1 16))) (u64 (Z.shiftl x2 32)).

Definition rand48_step (xi : xsubi) (lc : lcong) : xsubi * Z :=
  let '(x0, x1, x2) := xi in
  let '(a0, a1, a2, c) := lc in
  let x := join48 x0 x1 x2 in
  let a := join48 a0 a1 a2 in
  let x := u64 (u64 (a * x) + c) in
  ((u16 x, u16 (Z.shiftr x 16), u16 (Z.shiftr x 32)), Z.land x 281474976710655).

(** erand48: the bits of the double in [1, 2) before 1.0 is subtracted. *)
Definition erand48_bits (xi : xsubi) (lc : lcong) : xsubi * Z :=
  let '(xi, r) := rand48_step xi lc in
  (xi, Z.lor 4607182418800017408 (u64 (Z.shiftl r 4))).

Definition nrand48 (xi : xsubi) (lc : lcong) : xsubi * Z :=
  let '(xi, r) := rand48_step xi lc in (xi, Z.shiftr r 17).

Definition jrand48 (xi : xsubi) (lc : lcong) : xsubi * Z :=
  let '(xi, r) := rand48_step xi lc in (xi, s32 (u32 (Z.shiftr r 16))).

Definition on_seed (f : xsubi -> lcong -> xsubi * Z) (s : seed48_t) : seed48_t * Z :=
  let '(xi, r) := f (seed_x s) (seed_lc s) in (mk_seed48 xi (seed_lc s), r).

Definition drand48_bits := on_seed erand48_bits.
Definition lrand48 := on_seed nrand48.
Definition mrand48 := on_seed jrand48.

(** seed48 returns the old state; lcong48 sets all seven. *)
Definition seed48 (s : seed48_t) (x : xsubi) : seed48_t * xsubi :=
  (mk_seed48 x (seed_lc s), seed_x s).
Definition lcong48 (p : xsubi * lcong) : seed48_t := mk_seed48 (fst p) (snd p).
Definition srand48 (s : seed48_t) (seed : Z) : seed48_t :=
  fst (seed48 s (13070, u16 seed, u16 (Z.shiftr seed 16))).

(** ** rand, rand_r *)

Definition srand (s : Z) : Z := u32 (s - 1).
Definition rand (seed : Z) : Z * Z :=
  let seed := u64 (6364136223846793005 * seed + 1) in (seed, Z.shiftr seed 33).

Definition temper (x : Z) : Z :=
  let x := Z.lxor x (Z.shiftr x 11) in
  let x := Z.lxor x (Z.land (u32 (Z.shiftl x 7)) 2636928640) in
  let x := Z.lxor x (Z.land (u32 (Z.shiftl x 15)) 4022730752) in
  Z.lxor x (Z.shiftr x 18).

Definition rand_r (seed : Z) : Z * Z :=
  let seed := u32 (u32 (seed * 1103515245) + 12345) in (seed, temper seed / 2).

(** ** random *)

Record rstate : Type := mk_rstate {
  r_n : Z; r_i : Z; r_j : Z; r_x : Z; r_mem : Z -> Z
}.

Definition set_cell (st : rstate) (a v : Z) : rstate :=
  mk_rstate (r_n st) (r_i st) (r_j st) (r_x st) (mset (r_mem st) a v).
Definition cell (st : rstate) (k : Z) : Z := r_mem st (r_x st + k).

Definition lcg31 (x : Z) : Z := Z.land (u32 (1103515245 * x + 12345)) 2147483647.
Definition lcg64 (x : Z) : Z := u64 (6364136223846793005 * x + 1).

Definition savestate (st : rstate) : rstate * Z :=
  (set_cell st (r_x st - 1)
     (u32 (Z.lor (Z.lor (Z.shiftl (r_n st) 16) (Z.shiftl (r_i st) 8)) (r_j st))),
   r_x st - 1).

Definition loadstate (st : rstate) (state : Z) : rstate :=
  let x := state + 1 in
  let w := r_mem st (x - 1) in
  mk_rstate (Z.shiftr w 16) (Z.land (Z.shiftr w 8) 255) (Z.land w 255) x (r_mem st).

(** The seeding loop of __srandom. *)
Fixpoint seed_cells (k : nat) (a s : Z) (m : Z -> Z) : Z -> Z :=
  match k with
  | O => m
  | S k => let s := lcg64 s in seed_cells k (a + 1) s (mset m a (u32 (Z.shiftr s 32)))
  end.

Definition srandom_ (st : rstate) (seed : Z) : rstate :=
  if r_n st =? 0 then set_cell st (r_x st) (u32 seed)
  else
    let m := seed_cells (Z.to_nat (r_n st)) (r_x st) seed (r_mem st) in
    mk_rstate (r_n st) (if (r_n st =? 31) || (r_n st =? 7) then 3 else 1) 0 (r_x st)
      (mset m (r_x st) (Z.lor (m (r_x st)) 1)).

(** initstate: NULL is [None]. *)
Definition initstate (st : rstate) (seed state size : Z) : rstate * option Z :=
  if size <? 8 then (st, None)
  else
    let '(st, old) := savestate st in
    let n := if size <? 32 then 0 else if size <? 64 then 7 else if size <? 128 then 15
             else if size <? 256 then 31 else 63 in
    let st := mk_rstate n (r_i st) (r_j st) (state + 1) (r_mem st) in
    let st := srandom_ st seed in
    (fst (savestate st), Some old).

Definition setstate (st : rstate) (state : Z) : rstate * Z :=
  let '(st, old) := savestate st in (loadstate st state, old).

Definition random (st : rstate) : rstate * Z :=
  if r_n st =? 0 then
    let k := lcg31 (cell st 0) in (set_cell st (r_x st) k, k)
  else
    let v := u32 (cell st (r_i st) + cell st (r_j st)) in
    let k := Z.shiftr v 1 in
    let i := if r_i st + 1 =? r_n st then 0 else r_i st + 1 in
    let j := if r_j st + 1 =? r_n st then 0 else r_j st + 1 in
    (mk_rstate (r_n st) i j (r_x st) (mset (r_mem st) (r_x st + r_i st) v), k).

(** ** arc4random_buf *)

(** One return of getrandom: a byte count with the bytes, or -1 with errno. *)
Inductive sysret : Type :=
| Got (bytes : list Z)
| Failed (errno : Z).

Inductive outcome : Type :=
| Filled (m : mem)
| Aborted
| Pending (m : mem) (position length : Z).

(** The loop over the results of the calls it makes, in order. *)
Fixpoint arc4random_buf (rs : list sysret) (m : mem) (position length : Z) : outcome :=
  if 0 <? length then
    match rs with
    | [] => Pending m position length
    | r :: rs =>
        let '(result, errno, m') :=
          match r with
          | Got bytes => (Z.of_nat (List.length bytes), 0, upd_list m position bytes)
          | Failed errno => (-1, errno, m)
          end in
        if (result <? 0) && (errno =? EINTR) then arc4random_buf rs m' position length
        else if result <=? 0 then Aborted
        else arc4random_buf rs m' (position + result) (length - result)
    end
  else Filled m.

(** ** The 48-bit family is the linear congruential generator *)

Definition half (x : Z) : Prop := 0 <= x < 65536.
Definition wf48 (xi : xsubi) : Prop := let '(x0, x1, x2) := xi in half x0 /\ half x1 /\ half x2.
Definition value48 (xi : xsubi) : Z := let '(x0, x1, x2) := xi in x0 + 65536 * x1 + 4294967296 * x2.
Definition wf_lc (lc : lcong) : Prop :=
  let '(a0, a1, a2, c) := lc in half a0 /\ half a1 /\ half a2 /\ half c.
Definition mult48 (lc : lcong) : Z := let '(a0, a1, a2, _) := lc in value48 (a0, a1, a2).
Definition add48 (lc : lcong) : Z := let '(_, _, _, c) := lc in c.

(** The mathematical step. *)
Definition lcg48 (lc : lcong) (x : Z) : Z := (mult48 lc * x + add48 lc) mod 281474976710656.

Lemma join48_value x0 x1 x2 :
  half x0 -> half x1 -> half x2 -> join48 x0 x1 x2 = value48 (x0, x1, x2).
Proof.
  unfold half, join48, value48. intros H0 H1 H2.
  rewrite !Z.shiftl_mul_pow2 by lia. change (2 ^ 16) with 65536. change (2 ^ 32) with 4294967296.
  rewrite u32_small, u64_small by lia.
  change 65536 with (2 ^ 16) at 1. rewrite (Z.lor_comm x0), (lor_add 16 x1 x0) by lia.
  rewrite Z.lor_comm. change 4294967296 with (2 ^ 32). rewrite lor_add by lia. lia.
Qed.

Lemma split48 x : value48 (u16 x, u16 (Z.shiftr x 16), u16 (Z.shiftr x 32)) = x mod 281474976710656.
Proof.
  unfold value48, u16. rewrite !Z.shiftr_div_pow2 by lia. change (2 ^ 16) with 65536.
  change (2 ^ 32) with (65536 * 65536). rewrite <- Z.div_div by lia.
  change 281474976710656 with (65536 * (65536 * 65536)).
  rewrite (Z.rem_mul_r x 65536 (65536 * 65536)), (Z.rem_mul_r (x / 65536) 65536 65536) by lia. lia.
Qed.

Lemma u16_half x : half (u16 x).
Proof. apply Z.mod_pos_bound. lia. Qed.

Lemma rand48_step_lcg xi lc :
  wf48 xi -> wf_lc lc ->
  let '(xi', r) := rand48_step xi lc in
  wf48 xi' /\ value48 xi' = lcg48 lc (value48 xi) /\ r = lcg48 lc (value48 xi).
Proof.
  destruct xi as [[x0 x1] x2], lc as [[[a0 a1] a2] c]. intros (H0 & H1 & H2) (A0 & A1 & A2 & HC).
  unfold rand48_step. rewrite !join48_value by assumption.
  set (X := value48 (x0, x1, x2)). set (A := value48 (a0, a1, a2)).
  set (y := u64 (u64 (A * X) + c)).
  assert (Hy : y mod 281474976710656 = lcg48 (a0, a1, a2, c) X).
  { unfold y, u64, lcg48. cbn [mult48 add48]. fold A.
    rewrite Zplus_mod_idemp_l. change 18446744073709551616 with (281474976710656 * 65536).
    rewrite Z.rem_mul_r, (Z.mul_comm 281474976710656), Z.mod_add, Z.mod_mod by lia. reflexivity. }
  split; [repeat split; apply u16_half|]. rewrite split48, Hy. split; [reflexivity|].
  rewrite <- Hy. apply (Z.land_ones y 48). lia.
Qed.

(** [k] calls of a drawing function. *)
Fixpoint draws (f : seed48_t -> seed48_t * Z) (k : nat) (s : seed48_t) : list Z :=
  match k with O => [] | S k => let '(s, r) := f s in r :: draws f k s end.

Fixpoint lcg_seq (lc : lcong) (k : nat) (x : Z) : list Z :=
  match k with O => [] | S k => lcg48 lc x :: lcg_seq lc k (lcg48 lc x) end.

Lemma draws_lcg (f : xsubi -> lcong -> xsubi * Z) (out : Z -> Z) :
  (forall xi lc, f xi lc = let '(xi', r) := rand48_step xi lc in (xi', out r)) ->
  forall k s, wf48 (seed_x s) -> wf_lc (seed_lc s) ->
  draws (on_seed f) k s = map out (lcg_seq (seed_lc s) k (value48 (seed_x s))).
Proof.
  intros Hf k. induction k as [|k IH]; intros [xi lc] Hx Hlc; [reflexivity|].
  cbn [draws lcg_seq map]. unfold on_seed at 1. cbn [seed_x seed_lc] in *. rewrite Hf.
  pose proof (rand48_step_lcg xi lc Hx Hlc) as H.
  destruct (rand48_step xi lc) as [xi' r]. destruct H as (Hx' & Hv & ->).
  rewrite IH by assumption. cbn [seed_x seed_lc]. now rewrite Hv.
Qed.

(** The 48-bit family: after srand48, successive calls of lrand48, mrand48
    and drand48 all walk the sequence X' = (a X + c) mod 2^48 from
    2^16 seed + 0x330e; lrand48 returns its top 31 bits, mrand48 its top 32 bits
    as a signed number, and drand48 forms the double 1 + X/2^48 (exponent 0, the
    48 bits at the top of the mantissa) before subtracting 1; and the state
    seed48 returns, passed back to it, restores the generator. *)
Theorem rand48_sequences s seed k :
  wf_lc (seed_lc s) ->
  let s0 := srand48 s seed in
  let xs := lcg_seq (seed_lc s) k (65536 * (seed mod 4294967296) + 13070) in
  draws lrand48 k s0 = map (fun x => x / 131072) xs /\
  draws mrand48 k s0 = map (fun x => s32 (x / 65536)) xs /\
  draws drand48_bits k s0 = map (fun x => 1023 * 2 ^ 52 + 16 * x) xs /\
  (forall x, let '(s1, old) := seed48 s x in fst (seed48 s1 old) = s).
Proof.
  intros Hlc s0 xs.
  assert (Hx : wf48 (seed_x s0)) by (split; [unfold half; lia|]; split; apply u16_half).
  assert (Hv : value48 (seed_x s0) = 65536 * (seed mod 4294967296) + 13070).
  { cbn. unfold u16. rewrite Z.shiftr_div_pow2 by lia. change (2 ^ 16) with 65536.
    change 4294967296 with (65536 * 65536) at 2. rewrite (Z.rem_mul_r seed) by lia. lia. }
  assert (Hxs : xs = lcg_seq (seed_lc s0) k (value48 (seed_x s0))) by now rewrite Hv.
  assert (Hr : Forall (fun x => 0 <= x < 281474976710656) xs).
  { subst xs. generalize (65536 * (seed mod 4294967296) + 13070) as x. clear.
    induction k as [|k IH]; intro x; constructor; [apply Z.mod_pos_bound; lia|apply IH]. }
  rewrite Forall_forall in Hr.
  assert (Hd : forall f out out', (forall xi lc, f xi lc = let '(xi', r) := rand48_step xi lc in (xi', out r)) ->
    (forall x, 0 <= x < 281474976710656 -> out x = out' x) -> draws (on_seed f) k s0 = map out' xs).
  { intros f out out' Hf Ho. rewrite (draws_lcg f out Hf k s0 Hx Hlc), <- Hxs.
    apply map_ext_in. intros x Hin. apply Ho, Hr, Hin. }
  split; [|split; [|split]].
  - apply (Hd _ (fun r => Z.shiftr r 17)); [reflexivity|].
    intros x _. now rewrite Z.shiftr_div_pow2 by lia.
  - apply (Hd _ (fun r => s32 (u32 (Z.shiftr r 16)))); [reflexivity|].
    intros x Hx'. rewrite Z.shiftr_div_pow2 by lia. change (2 ^ 16) with 65536.
    now rewrite u32_small by zlia.
  - apply (Hd _ (fun r => Z.lor 4607182418800017408 (u64 (Z.shiftl r 4)))); [reflexivity|].
    intros x Hx'. rewrite Z.shiftl_mul_pow2 by lia. change (2 ^ 4) with 16.
    rewrite u64_small by lia. change 4607182418800017408 with (1023 * 2 ^ 52).
    rewrite lor_add by lia. lia.
  - intros x. destruct s. reflexivity.
Qed.

Lemma rand48_sequences_witness :
  draws lrand48 3 (srand48 seed48_init 42)
  = map (fun x => x / 131072) (lcg_seq (seed_lc seed48_init) 3 2765582).
Proof.
  apply (rand48_sequences seed48_init 42 3). vm_compute. intuition discriminate.
Defined.

(** ** The additive feedback generator *)

(** The degrees the code uses, with the distance between the two pointers. *)
Definition degree_ok (n : Z) : bool := existsb (Z.eqb n) [7; 15; 31; 63].

Definition wf_r (st : rstate) : Prop :=
  degree_ok (r_n st) = true /\ 0 <= r_i st < r_n st /\ 0 <= r_j st < r_n st.

Lemma degree_bounds n : degree_ok n = true -> n = 7 \/ n = 15 \/ n = 31 \/ n = 63.
Proof. unfold degree_ok. cbn. lia. Qed.

(** The last [n] values produced, oldest first: the ring from the pointer i. *)
Definition window (st : rstate) (k : Z) : Z := cell st ((r_i st + k) mod r_n st).

(** How far the second tap is behind the first. *)
Definition lag (st : rstate) : Z := (r_i st - r_j st) mod r_n st.

Lemma succ_mod a n : 0 <= a < n -> (if a + 1 =? n then 0 else a + 1) = (a + 1) mod n.
Proof.
  intros H. destruct (Z.eqb_spec (a + 1) n) as [->|]; [now rewrite Z.mod_same by lia|].
  now rewrite Z.mod_small by lia.
Qed.

(** random is the lagged Fibonacci generator: each call shifts the window of
    the last [n] 32-bit values by one, appending the sum modulo 2^32 of the value
    [n] back and the value [lag] back, and returns the high 31 bits of that sum;
    the lag (3 for degrees 31 and 7, 1 for 15 and 63) and the ring invariant are
    set up by seeding and kept, and no cell outside the ring is written. *)
Theorem random_lagged_fibonacci st :
  wf_r st ->
  let '(st', k) := random st in
  let v := u32 (window st 0 + window st ((r_n st - lag st) mod r_n st)) in
  k = v / 2 /\ 0 <= k < 2147483648 /\
  wf_r st' /\ r_n st' = r_n st /\ lag st' = lag st /\ r_x st' = r_x st /\
  window st' (r_n st - 1) = v /\
  (forall i, 0 <= i < r_n st - 1 -> window st' i = window st (i + 1)) /\
  (forall a, ~ r_x st <= a < r_x st + r_n st -> r_mem st' a = r_mem st a) /\
  (forall seed, let s0 := srandom_ st seed in
     wf_r s0 /\ lag s0 = if (r_n st =? 31) || (r_n st =? 7) then 3 else 1).
Proof.
  intros (Hn & Hi & Hj). pose proof (degree_bounds _ Hn) as Hd. unfold random.
  replace (r_n st =? 0) with false by lia. rewrite !succ_mod by assumption.
  assert (Hw0 : window st 0 = cell st (r_i st))
    by (unfold window; now rewrite Z.add_0_r, Z.mod_small by lia).
  assert (Hwl : window st ((r_n st - lag st) mod r_n st) = cell st (r_j st)).
  { unfold window, lag. f_equal. rewrite Zplus_mod_idemp_r.
    rewrite Z.add_sub_assoc, Zminus_mod_idemp_r.
    replace (r_i st + r_n st - (r_i st - r_j st)) with (r_j st + 1 * r_n st) by lia.
    rewrite Z.mod_add by lia. apply Z.mod_small. lia. }
  cbv zeta. rewrite Hw0, Hwl. set (v := u32 (cell st (r_i st) + cell st (r_j st))).
  pose proof (u32_range (cell st (r_i st) + cell st (r_j st))) as Hv. fold v in Hv.
  rewrite Z.shiftr_div_pow2 by lia. change (2 ^ 1) with 2.
  split; [reflexivity|]. split; [zlia|].
  assert (Hcell : forall i, 0 <= i < r_n st ->
    window (mk_rstate (r_n st) ((r_i st + 1) mod r_n st) ((r_j st + 1) mod r_n st) (r_x st)
              (mset (r_mem st) (r_x st + r_i st) v)) i
    = if i =? r_n st - 1 then v else window st (i + 1)).
  { intros i Hir. unfold window, cell, mset. cbn [r_i r_n r_x r_mem].
    rewrite Zplus_mod_idemp_l. destruct (Z.eqb_spec i (r_n st - 1)) as [->|Hne].
    - replace (r_i st + 1 + (r_n st - 1)) with (r_i st + 1 * r_n st) by lia.
      rewrite Z.mod_add, Z.mod_small by lia. now rewrite Z.eqb_refl.
    - replace (r_i st + 1 + i) with (r_i st + (i + 1)) by lia.
      replace (r_x st + (r_i st + (i + 1)) mod r_n st =? r_x st + r_i st) with false; [reflexivity|].
      symmetry. apply Z.eqb_neq. destruct (Z.lt_ge_cases (r_i st + (i + 1)) (r_n st)).
      + rewrite Z.mod_small by lia. lia.
      + replace (r_i st + (i + 1)) with (r_i st + (i + 1) - r_n st + 1 * r_n st) by lia.
        rewrite Z.mod_add, Z.mod_small by lia. lia. }
  split. { split; [assumption|]. cbn. split; apply Z.mod_pos_bound; lia. }
  split; [reflexivity|]. split.
  { unfold lag. cbn [r_i r_j r_n]. rewrite Zminus_mod_idemp_l, Zminus_mod_idemp_r. f_equal. lia. }
  split; [reflexivity|]. split; [rewrite Hcell by lia; now rewrite Z.eqb_refl|].
  split; [intros i Hir; rewrite Hcell by lia; now replace (i =? r_n st - 1) with false by lia|].
  split; [intros a Ha; cbn; apply mset_ne; lia|].
  intros seed. unfold srandom_. replace (r_n st =? 0) with false by lia.
  unfold wf_r, lag. cbn [r_n r_i r_j]. split.
  - split; [assumption|]. destruct ((r_n st =? 31) || (r_n st =? 7)); lia.
  - destruct ((r_n st =? 31) || (r_n st =? 7)); rewrite Z.sub_0_r, Z.mod_small by lia; reflexivity.
Qed.

(** The state random.c starts with, over a memory [m]. *)
Definition r_start (m : Z -> Z) : rstate := mk_rstate 31 3 0 1 m.

Lemma random_lagged_fibonacci_witness :
  let '(st', k) := random (r_start (fun a => a * 1000)) in
  let v := u32 (window (r_start (fun a => a * 1000)) 0
                + window (r_start (fun a => a * 1000)) ((31 - 3) mod 31)) in
  k = v / 2 /\ 0 <= k < 2147483648.
Proof.
  assert (H : wf_r (r_start (fun a => a * 1000))) by (split; [reflexivity|]; cbn; lia).
  pose proof (random_lagged_fibonacci (r_start (fun a => a * 1000)) H) as T.
  destruct (random (r_start (fun a => a * 1000))) as [st' k]. split; apply T.
Defined.

(** Packing and unpacking the three counters. *)
Lemma pack_unpack n i j :
  0 <= n < 64 -> 0 <= i < 256 -> 0 <= j < 256 ->
  let w := u32 (Z.lor (Z.lor (Z.shiftl n 16) (Z.shiftl i 8)) j) in
  Z.shiftr w 16 = n /\ Z.land (Z.shiftr w 8) 255 = i /\ Z.land w 255 = j.
Proof.
  intros Hn Hi Hj w.
  assert (E : w = n * 65536 + i * 256 + j).
  { unfold w. rewrite !Z.shiftl_mul_pow2 by lia. change (2 ^ 8) with 256.
    rewrite (lor_add 16 n (i * 256)) by lia. change (2 ^ 16) with (256 * 256).
    replace (n * (256 * 256) + i * 256) with ((n * 256 + i) * 2 ^ 8) by lia.
    rewrite lor_add by lia. rewrite u32_small by lia. lia. }
  rewrite E, !Z.shiftr_div_pow2, !(Z.land_ones _ 8) by lia.
  change (2 ^ 16) with 65536. change (2 ^ 8) with 256. repeat split; zlia.
Qed.

Lemma initstate_header st seed state size :
  0 <= r_i st < 256 -> 0 <= r_j st < 256 -> 8 <= size ->
  let '(st3, old3) := initstate st seed state size in
  old3 = Some (r_x st - 1) /\ r_x st3 = state + 1 /\
  4 * (1 + Z.max 1 (r_n st3)) <= size /\
  let st4 := loadstate st3 state in
  r_n st4 = r_n st3 /\ r_i st4 = r_i st3 /\ r_j st4 = r_j st3.
Proof.
  intros Hi Hj Hs. unfold initstate. replace (size <? 8) with false by lia.
  unfold savestate at 1.
  set (n := if size <? 32 then 0 else _).
  assert (Hn : 0 <= n < 64 /\ 4 * (1 + Z.max 1 n) <= size) by (unfold n; repeat case_if; lia).
  clearbody n. set (st' := mk_rstate n _ _ _ _). cbv zeta.
  assert (Hk : r_n (srandom_ st' seed) = n /\ 0 <= r_i (srandom_ st' seed) < 256 /\
               0 <= r_j (srandom_ st' seed) < 256 /\ r_x (srandom_ st' seed) = state + 1).
  { unfold srandom_. cbn [r_n st']. destruct (n =? 0); cbn; [lia|]. case_if; lia. }
  destruct Hk as (K1 & K2 & K3 & K4). set (s0 := srandom_ st' seed) in *. clearbody s0.
  unfold savestate, loadstate, set_cell. cbn [fst r_n r_i r_j r_x r_mem].
  split; [reflexivity|]. split; [assumption|]. split; [lia|].
  replace (state + 1 - 1) with (r_x s0 - 1) by lia. rewrite mset_eq.
  apply pack_unpack; lia.
Qed.

(** State buffers: setstate to any other state and back restores the
    generator: degree, both pointers and the buffer address are those of
    before, as is every cell but the header word of the buffer, where they are
    kept; and initstate leaves a generator that fits the buffer (header and ring),
    whose header holds its degree and pointers, and returns the old buffer. *)
Theorem setstate_roundtrip st state :
  0 <= r_n st < 64 -> 0 <= r_i st < 256 -> 0 <= r_j st < 256 ->
  state <> r_x st - 1 ->
  let '(st1, old) := setstate st state in
  let '(st2, back) := setstate st1 old in
  back = state /\
  r_n st2 = r_n st /\ r_i st2 = r_i st /\ r_j st2 = r_j st /\ r_x st2 = r_x st /\
  (forall a, a <> r_x st - 1 -> a <> state -> r_mem st2 a = r_mem st a) /\
  forall seed size, 8 <= size ->
    let '(st3, old3) := initstate st seed state size in
    old3 = Some (r_x st - 1) /\ r_x st3 = state + 1 /\
    4 * (1 + Z.max 1 (r_n st3)) <= size /\
    let st4 := loadstate st3 state in
    r_n st4 = r_n st3 /\ r_i st4 = r_i st3 /\ r_j st4 = r_j st3.
Proof.
  intros Hn Hi Hj Hst. unfold setstate, savestate, loadstate, set_cell.
  cbn [r_n r_i r_j r_x r_mem]. replace (state + 1 - 1) with state by lia.
  rewrite (mset_ne _ state _ (r_x st - 1 + 1 - 1)) by lia.
  replace (r_x st - 1 + 1 - 1) with (r_x st - 1) by lia. rewrite mset_eq.
  destruct (pack_unpack (r_n st) (r_i st) (r_j st) Hn Hi Hj) as (E1 & E2 & E3).
  rewrite E1, E2, E3. split; [lia|]. do 4 (split; [lia|]).
  split; [intros a Ha Ha'; now rewrite !mset_ne by lia|].
  intros seed size Hs. pose proof (initstate_header st seed state size Hi Hj Hs) as H.
  destruct (initstate st seed state size) as [st3 old3]. unfold loadstate in H.
  cbn [r_n r_i r_j r_mem] in H. now replace (state + 1 - 1) with state in H by lia.
Qed.

Lemma setstate_roundtrip_witness :
  let '(st1, old) := setstate (r_start (fun a => a)) 100 in
  let '(st2, back) := setstate st1 old in
  back = 100 /\ r_n st2 = 31 /\ r_i st2 = 3 /\ r_j st2 = 0 /\ r_x st2 = 1 /\
  (forall a, a <> 0 -> a <> 100 -> r_mem st2 a = a) /\
  forall seed size, 8 <= size ->
    let '(st3, old3) := initstate (r_start (fun a => a)) seed 100 size in
    old3 = Some 0 /\ r_x st3 = 101 /\ 4 * (1 + Z.max 1 (r_n st3)) <= size /\
    let st4 := loadstate st3 100 in
    r_n st4 = r_n st3 /\ r_i st4 = r_i st3 /\ r_j st4 = r_j st3.
Proof.
  apply (setstate_roundtrip (r_start (fun a => a)) 100); cbn; lia.
Defined.

(** ** arc4random_buf *)

(** What getrandom may return for a request of [len] bytes: a nonempty part of
    it, or EINTR. *)
Fixpoint good_calls (rs : list sysret) (len : Z) : Prop :=
  match rs with
  | [] => len = 0
  | Failed e :: rs => 0 < len /\ e = EINTR /\ good_calls rs len
  | Got bs :: rs => 0 < Z.of_nat (length bs) <= len /\ good_calls rs (len - Z.of_nat (length bs))
  end.

Fixpoint received (rs : list sysret) : list Z :=
  match rs with
  | [] => []
  | Failed _ :: rs => received rs
  | Got bs :: rs => bs ++ received rs
  end.

Lemma upd_list_app m a l1 l2 :
  upd_list (upd_list m a l1) (a + Z.of_nat (length l1)) l2 =m upd_list m a (l1 ++ l2).
Proof.
  intros x. unfold upd_list, within. rewrite length_app.
  destruct ((a + Z.of_nat (length l1) <=? x) && _) eqn:E1.
  - replace ((a <=? x) && (x <? a + Z.of_nat (length l1 + length l2))) with true by lia.
    rewrite app_nth2 by lia. f_equal. lia.
  - destruct ((a <=? x) && (x <? a + Z.of_nat (length l1))) eqn:E2.
    + replace ((a <=? x) && (x <? a + Z.of_nat (length l1 + length l2))) with true by lia.
      rewrite app_nth1 by lia. reflexivity.
    + now replace ((a <=? x) && (x <? a + Z.of_nat (length l1 + length l2))) with false by lia.
Qed.

Lemma good_calls_nonneg rs len : good_calls rs len -> 0 <= len.
Proof.
  revert len; induction rs as [|[bs|e] rs IH]; intros len H; cbn in H; [lia| |lia].
  destruct H as [H1 H2]. lia.
Qed.

Lemma upd_list_ext m1 m2 a l : m1 =m m2 -> upd_list m1 a l =m upd_list m2 a l.
Proof. intros H x. unfold upd_list. destruct (within _ _ x); [reflexivity|apply H]. Qed.

(** arc4random_buf: through any run of short counts and interruptions it
    ends with exactly the requested bytes filled, in order, with what getrandom
    gave; a call that returns 0, or fails otherwise than by EINTR, after such a
    run and before the buffer is full, aborts: it never returns a partly filled
    buffer. *)
Theorem arc4random_buf_fills rs len m position :
  good_calls rs len ->
  (exists m', arc4random_buf rs m position len = Filled m' /\
              m' =m upd_list m position (received rs)) /\
  Z.of_nat (length (received rs)) = len /\
  forall more r rs', 0 < more ->
    match r with Got bs => bs = [] | Failed e => e <> EINTR end ->
    arc4random_buf (rs ++ r :: rs') m position (len + more) = Aborted.
Proof.
  revert len m position; induction rs as [|[bs|e] rs IH]; intros len m position H;
    pose proof (good_calls_nonneg _ _ H) as Hlen; cbn [good_calls received] in *.
  - subst len. split; [|split; [reflexivity|]].
    + exists m. split; [reflexivity|]. now rewrite (upd_list_nil m position : _ =m _).
    + intros more r rs' Hm Hr. cbn [app arc4random_buf].
      replace (0 <? 0 + more) with true by lia. destruct r as [bs|e]; [subst bs; reflexivity|].
      replace (e =? EINTR) with false by lia. reflexivity.
  - destruct H as [Hb H]. cbn [app arc4random_buf].
    destruct (IH _ (upd_list m position bs) (position + Z.of_nat (length bs)) H)
      as ((m' & E & Em) & Hl & Hab).
    split; [|split].
    + replace (0 <? len) with true by lia. replace (Z.of_nat (length bs) <? 0) with false by lia.
      cbn [andb]. replace (Z.of_nat (length bs) <=? 0) with false by lia. rewrite E.
      exists m'. split; [reflexivity|]. rewrite Em. apply upd_list_app.
    + rewrite length_app. lia.
    + intros more r rs' Hm Hr. replace (0 <? len + more) with true by lia.
      replace (Z.of_nat (length bs) <? 0) with false by lia. cbn [andb].
      replace (Z.of_nat (length bs) <=? 0) with false by lia.
      replace (len + more - Z.of_nat (length bs)) with (len - Z.of_nat (length bs) + more) by lia.
      now apply Hab.
  - destruct H as (Hb & -> & H). cbn [app arc4random_buf].
    destruct (IH _ m position H) as ((m' & E & Em) & Hl & Hab).
    change ((-1 <? 0) && (EINTR =? EINTR)) with true.
    split; [|split; [assumption|]].
    + replace (0 <? len) with true by lia. eauto.
    + intros more r rs' Hm Hr. replace (0 <? len + more) with true by lia. now apply Hab.
Qed.

Lemma arc4random_buf_fills_witness :
  exists m', arc4random_buf [Got [7; 8]; Failed EINTR; Got [9]] (fun _ => 0) 50 3 = Filled m' /\
             m' =m upd_list (fun _ => 0) 50 [7; 8; 9].
Proof.
  apply (arc4random_buf_fills [Got [7; 8]; Failed EINTR; Got [9]] 3 (fun _ => 0) 50).
  cbn. repeat split; lia.
Defined.
