(* ===== verification/Threads.v ===== *)
(** * Threads: interleaved atomic operations and a counting logic

    The machine the locks of src/thread run on, and the proof rule for them.

    A thread is a program over the atomic operations of src/internal/atomic.h
    and the futex calls: a tree of operations with continuations, cut at labels
    (loop heads, call returns); [body] gives the program at a label.  The system
    is a memory of ints and the list of the threads, and a step runs one
    operation of one thread: every interleaving is a path.  futex waits and the
    client's choices return an arbitrary value (a wait may time out, be
    interrupted or return spuriously), wakes do not change the memory.

    The logic gives each thread a ghost count; [wp] checks a program operation
    by operation against an invariant of the memory and the counts of all the
    threads, and [invariant_reachable] carries it to every reachable state. *)

From Stdlib Require Import ZArith Lia List Bool Permutation.
From S2P Require Import Prelude.
Import ListNotations.
Open Scope Z_scope.

(** ** Operations *)

Definition ints : Type := Z -> Z.

Inductive op : Type :=
| Load (a : Z)
| Store (a v : Z)
| Cas (a t s : Z)         (** a_cas *)
| Swap (a v : Z)          (** a_swap *)
| FetchAdd (a v : Z)      (** a_fetch_add; a_inc and a_dec are +1 and -1 *)
| FutexWait (a v : Z)     (** __futexwait, __timedwait *)
| Wake (a n : Z)          (** __wake *)
| Spin                    (** a_spin, a_barrier *)
| Choose.                 (** the client decides *)

(** The value an operation returns and the memory it leaves; [c] is the value
    the kernel or the client returns.  ints are 32-bit signed. *)
Definition exec (o : op) (m : ints) (c : Z) : Z * ints :=
  match o with
  | Load a => (m a, m)
  | Store a v => (0, mset m a v)
  | Cas a t s => (m a, if m a =? t then mset m a s else m)
  | Swap a v => (m a, mset m a v)
  | FetchAdd a v => (m a, mset m a (s32 (m a + v)))
  | FutexWait _ _ | Choose => (c, m)
  | Wake _ _ | Spin => (0, m)
  end.

Section Programs.
Context {label : Type}.

Inductive prog : Type :=
| Do (o : op) (k : Z -> prog)
| Goto (l : label).

(** The program at a label, for the thread with a given id. *)
Variable body : Z -> label -> prog.

Inductive tstep (i : Z) : ints -> prog -> ints -> prog -> Prop :=
| tstep_do m o k c :
    tstep i m (Do o k) (snd (exec o m c)) (k (fst (exec o m c)))
| tstep_goto m l : tstep i m (Goto l) m (body i l).

Definition system : Type := ints * list (Z * prog).

Inductive sys_step : system -> system -> Prop :=
| sys_step_intro m i p m' p' l1 l2 :
    tstep i m p m' p' ->
    sys_step (m, l1 ++ (i, p) :: l2) (m', l1 ++ (i, p') :: l2).

Definition reachable : system -> system -> Prop := star sys_step.

(** A run given by its schedule: at each entry the index of the thread that
    moves and the value chosen. *)
Fixpoint run (sched : list (nat * Z)) (s : system) : system :=
  match sched with
  | [] => s
  | (n, c) :: sched =>
      let '(m, ts) := s in
      run sched
        match nth_error ts n with
        | Some (i, Do o k) =>
            (snd (exec o m c), firstn n ts ++ (i, k (fst (exec o m c))) :: skipn (S n) ts)
        | Some (i, Goto l) => (m, firstn n ts ++ (i, body i l) :: skipn (S n) ts)
        | None => s
        end
  end.

Lemma nth_error_cut {A} n (ts : list A) t :
  nth_error ts n = Some t -> ts = firstn n ts ++ t :: skipn (S n) ts.
Proof.
  revert n; induction ts as [|x ts IH]; intros [|n] H; cbn in *; try discriminate.
  - now injection H as ->.
  - f_equal. now apply IH.
Qed.

Lemma run_reachable sched s s0 : reachable s0 s -> reachable s0 (run sched s).
Proof.
  revert s; induction sched as [|[n c] sched IH]; intros [m ts] H; [exact H|].
  cbn [run]. apply IH. destruct (nth_error ts n) as [[i [o k|l]]|] eqn:E; [| |exact H].
  all: eapply star_step; [exact H|]; apply nth_error_cut in E; rewrite E at 1.
  - apply sys_step_intro, tstep_do.
  - apply sys_step_intro, tstep_goto.
Qed.

(** ** The logic *)

(** Three counts per thread. *)
Definition ghost : Type := Z * Z * Z.
Definition g1 (g : ghost) : Z := fst (fst g).
Definition g2 (g : ghost) : Z := snd (fst g).
Definition g3 (g : ghost) : Z := snd g.

Fixpoint total (f : ghost -> Z) (gs : list (Z * ghost)) : Z :=
  match gs with [] => 0 | (_, g) :: gs => f g + total f gs end.

Lemma total_perm f gs gs' : Permutation gs gs' -> total f gs = total f gs'.
Proof.
  induction 1 as [|[i g] l l' H IH|[i g] [j h] l|]; cbn; lia.
Qed.

Lemma total_app f gs gs' : total f (gs ++ gs') = total f gs + total f gs'.
Proof. induction gs as [|[i g] gs IH]; cbn; lia. Qed.

Variable Inv : ints -> list (Z * ghost) -> Prop.
Hypothesis Inv_perm : forall m gs gs', Permutation gs gs' -> Inv m gs -> Inv m gs'.
(** The counts a thread may have, and the number of threads allowed. *)
Variable gok : ghost -> Prop.
Variable limit : nat.
(** The labels that occur, and the counts of a thread there. *)
Variable lok : label -> Prop.
Variable own : label -> ghost.

(** From every memory the invariant allows, whatever the other threads hold,
    the operation leaves a memory the invariant allows with new counts for this
    thread, from which the rest of the program is correct. *)
Fixpoint wp (i : Z) (p : prog) (g : ghost) : Prop :=
  match p with
  | Goto l => lok l /\ g = own l
  | Do o k =>
      forall m c others,
        Forall (fun h => gok (snd h)) others -> (length others < limit)%nat ->
        Inv m ((i, g) :: others) ->
        exists g', gok g' /\ Inv (snd (exec o m c)) ((i, g') :: others) /\
                   wp i (k (fst (exec o m c))) g'
  end.

(** An operation that writes nothing the invariant looks at. *)
Definition frame_op (watched : Z -> bool) (o : op) : bool :=
  match o with
  | Store a _ | Cas a _ _ | Swap a _ | FetchAdd a _ => negb (watched a)
  | _ => true
  end.

Lemma wp_frame (watched : Z -> bool) i o k g :
  (forall m gs a v, watched a = false -> Inv m gs -> Inv (mset m a v) gs) ->
  gok g -> frame_op watched o = true -> (forall r, wp i (k r) g) -> wp i (Do o k) g.
Proof.
  intros Hw Hg Ho Hk m c others _ _ Hinv. exists g. split; [assumption|]. split; [|apply Hk].
  destruct o; cbn in *; try assumption; try (apply Hw; [now apply negb_true_iff|assumption]).
  destruct (m a =? t); [apply Hw; [now apply negb_true_iff|assumption]|assumption].
Qed.

Hypothesis body_ok : forall i l, lok l -> wp i (body i l) (own l).

(** The counts of all threads, in order. *)
Definition sys_inv (s : system) : Prop :=
  exists gs : list ghost,
    Forall2 (fun t g => wp (fst t) (snd t) g /\ gok g) (snd s) gs /\
    (length gs <= limit)%nat /\
    Inv (fst s) (combine (map fst (snd s)) gs).

Lemma combine_mid {A B} (l1 l2 : list A) (h1 h2 : list B) x y :
  length l1 = length h1 ->
  combine (l1 ++ x :: l2) (h1 ++ y :: h2) = combine l1 h1 ++ (x, y) :: combine l2 h2.
Proof.
  revert h1; induction l1 as [|a l1 IH]; intros [|b h1] H; cbn in *; try lia; [reflexivity|].
  f_equal. apply IH. lia.
Qed.

Lemma combine_ghosts ts gs :
  Forall2 (fun (t : Z * prog) g => wp (fst t) (snd t) g /\ gok g) ts gs ->
  Forall (fun h => gok (snd h)) (combine (map fst ts) gs) /\
  length (combine (map fst ts) gs) = length gs /\ length ts = length gs.
Proof.
  induction 1 as [|t g ts gs [_ Hg] H (IH1 & IH2 & IH3)]; cbn; [auto|].
  split; [now constructor|]. lia.
Qed.

Lemma sys_step_inv s s' : sys_inv s -> sys_step s s' -> sys_inv s'.
Proof.
  intros (gs & Hf & Hlen & Hinv) Hst. destruct Hst as [m i p m' p' l1 l2 Hst]. cbn in *.
  apply Forall2_app_inv_l in Hf as (h1 & hh & H1 & Hh & ->).
  destruct hh as [|g h2]; [inversion Hh|].
  apply Forall2_cons_iff in Hh as [[Hwp Hg] H2]. cbn in Hwp.
  destruct (combine_ghosts _ _ H1) as (G1 & L1 & L1').
  destruct (combine_ghosts _ _ H2) as (G2 & L2 & L2').
  rewrite length_app in Hlen. cbn [length] in Hlen.
  rewrite map_app in Hinv. cbn [map fst] in Hinv.
  rewrite combine_mid in Hinv by (rewrite length_map; lia).
  set (others := combine (map fst l1) h1 ++ combine (map fst l2) h2).
  assert (Hperm : forall y, Permutation
    (combine (map fst l1) h1 ++ (i, y) :: combine (map fst l2) h2) ((i, y) :: others)).
  { intros y. unfold others. symmetry. apply Permutation_middle. }
  assert (Hnew : exists g', gok g' /\ Inv m' ((i, g') :: others) /\ wp i p' g').
  { apply (Inv_perm _ _ _ (Hperm g)) in Hinv. inversion Hst; subst.
    - cbn [wp] in Hwp. apply (Hwp _ _ others); [now apply Forall_app| |assumption].
      unfold others. rewrite length_app. lia.
    - cbn [wp] in Hwp. destruct Hwp as [Hl ->]. exists (own l). auto. }
  destruct Hnew as (g' & Hg' & Hinv' & Hwp').
  exists (h1 ++ g' :: h2). cbn [fst snd]. split; [|split].
  - apply Forall2_app; [assumption|]. constructor; auto.
  - rewrite length_app. cbn [length]. lia.
  - rewrite map_app. cbn [map fst]. rewrite combine_mid by (rewrite length_map; lia).
    eapply Inv_perm; [|exact Hinv']. symmetry. apply Hperm.
Qed.

(** Threads that start at labels, with the invariant true of what they own. *)
Lemma invariant_reachable m ts s :
  Forall (fun l => lok l /\ gok (own l)) (map snd ts) -> (length ts <= limit)%nat ->
  Inv m (map (fun t => (fst t, own (snd t))) ts) ->
  reachable (m, map (fun t => (fst t, Goto (snd t))) ts) s -> sys_inv s.
Proof.
  intros Hok Hlen Hinv. apply star_invariant; [apply sys_step_inv|].
  exists (map (fun t => own (snd t)) ts). cbn. split; [|split].
  - clear Hlen Hinv. induction ts as [|[i l] ts IH]; cbn in *; [constructor|].
    inversion Hok; subst. constructor; [|apply IH; assumption]. cbn. tauto.
  - now rewrite length_map.
  - rewrite map_map. cbn. replace (combine _ _) with (map (fun t => (fst t, own (snd t))) ts);
      [assumption|]. clear. induction ts as [|[i l] ts IH]; cbn; [reflexivity|]. now f_equal.
Qed.

(** A thread at a label contributes its count to the total. *)
Lemma at_label_total (f : ghost -> Z) (s : system) (i : Z) (l : label) :
  (forall g, gok g -> 0 <= f g) -> sys_inv s -> In (i, Goto l) (snd s) ->
  exists gs, Inv (fst s) gs /\ Forall (fun h => gok (snd h)) gs /\ (length gs <= limit)%nat /\
             f (own l) <= total f gs.
Proof.
  intros Hf (gs & H2 & Hlen & Hinv) Hin. eexists. split; [exact Hinv|].
  destruct (combine_ghosts _ _ H2) as (Hg & Hl & _). split; [assumption|].
  split; [lia|]. clear Hinv Hg Hl Hlen.
  induction H2 as [|t g ts gs [Hwp Hg] H2 IH]; [contradiction|]. cbn.
  assert (Hrest : 0 <= total f (combine (map fst ts) gs)).
  { clear -H2 Hf. induction H2 as [|t g ts gs [_ Hg] H2 IH]; cbn; [lia|].
    specialize (Hf g Hg). lia. }
  destruct Hin as [->|Hin]; [cbn in Hwp; destruct Hwp as [_ ->]; lia|].
  specialize (IH Hin). specialize (Hf g Hg). lia.
Qed.

(** When every thread is at a label the counts are known. *)
Lemma all_at_labels (s : system) (ts : list (Z * label)) :
  sys_inv s -> snd s = map (fun t => (fst t, Goto (snd t))) ts ->
  Inv (fst s) (map (fun t => (fst t, own (snd t))) ts).
Proof.
  intros (gs & H2 & _ & Hinv) E. rewrite E in *.
  replace (map (fun t => (fst t, own (snd t))) ts)
    with (combine (map fst (map (fun t : Z * label => (fst t, Goto (snd t))) ts)) gs);
    [assumption|]. clear -H2. revert gs H2.
  induction ts as [|[i l] ts IH]; intros gs H2; inversion H2 as [|t g ts' gs' [Hw _] H2']; subst;
    [reflexivity|]. cbn in Hw |- *. destruct Hw as [_ ->]. f_equal. now apply IH.
Qed.

Lemma total_none f ids : f (0, 0, 0) = 0 -> total f (map (fun i : Z => (i, (0, 0, 0))) ids) = 0.
Proof. intros Hf. induction ids; cbn [map total]; lia. Qed.

(** Two different threads at labels. *)
Lemma two_at_labels (f : ghost -> Z) (s : system) l1 i j l2 l3 la lb :
  (forall g, gok g -> 0 <= f g) -> sys_inv s ->
  snd s = l1 ++ (i, Goto la) :: l2 ++ (j, Goto lb) :: l3 ->
  exists gs, Inv (fst s) gs /\ f (own la) + f (own lb) <= total f gs.
Proof.
  intros Hf (gs & H2 & _ & Hinv) E. eexists. split; [exact Hinv|]. clear Hinv. rewrite E in *. clear E.
  assert (Hpos : forall ts gs, Forall2 (fun t g => wp (fst t) (snd t) g /\ gok g) ts gs ->
            0 <= total f (combine (map fst ts) gs)).
  { clear -Hf. induction 1 as [|t g ts gs [_ Hg] H2 IH]; cbn; [lia|]. specialize (Hf g Hg). lia. }
  apply Forall2_app_inv_l in H2 as (h1 & hh & H1 & H2 & ->).
  destruct hh as [|ga hh]; [inversion H2|]. apply Forall2_cons_iff in H2 as [[Ha _] H2].
  apply Forall2_app_inv_l in H2 as (h2 & hh' & H2 & H3 & ->).
  destruct hh' as [|gb h3]; [inversion H3|]. apply Forall2_cons_iff in H3 as [[Hb _] H3].
  cbn in Ha, Hb. destruct Ha as [_ ->], Hb as [_ ->].
  pose proof (Hpos _ _ H1). pose proof (Hpos _ _ H2). pose proof (Hpos _ _ H3).
  destruct (combine_ghosts _ _ H1) as (_ & _ & L1). destruct (combine_ghosts _ _ H2) as (_ & _ & L2).
  rewrite !map_app. cbn [map fst]. rewrite !combine_mid by (rewrite length_map; lia).
  rewrite map_app. cbn [map fst]. rewrite combine_mid by (rewrite length_map; lia).
  rewrite total_app. cbn [total]. rewrite total_app. cbn [total]. lia.
Qed.
End Programs.

Arguments prog : clear implicits.
Arguments system : clear implicits.
