(* ===== verification/Locks.v ===== *)
(** * Locks: the synchronisation objects of src/thread

    Each object is a Module: its functions as programs of the machine of
    Threads (one operation per atomic access of the C code, loops as labels), a
    client whose threads call them in any order, and the safety theorems, for
    every number of threads and every interleaving.

    Modules: RwLock (the pthread_rwlock functions), InternalLock (__lock,
    __unlock), Semaphore (the sem functions), Once (pthread_once). *)

From Stdlib Require Import ZArith Lia ZifyBool List Bool Permutation.
From S2P Require Import Prelude Threads.
Import ListNotations.
Open Scope Z_scope.

(** ** Words with a flag in the sign bit *)

(** r | 0x80000000, as an int. *)
Definition flag (r : Z) : Z := s32 (Z.lor (u32 r) 2147483648).

(** val & 0x7fffffff *)
Definition low31 (v : Z) : Z := Z.land v 2147483647.

Lemma low31_mod v : low31 v = v mod 2147483648.
Proof. unfold low31. apply (Z.land_ones v 31). lia. Qed.

(** A word holds the count [c] and possibly the flag. *)
Definition counts (w c : Z) : Prop := 0 <= c < 2147483648 /\ (w = c \/ w = INT_MIN + c).

Lemma counts_low31 w c : counts w c -> low31 w = c.
Proof. unfold counts, INT_MIN. rewrite low31_mod. intros (Hc & [-> | ->]); zlia. Qed.

Lemma counts_word w : INT_MIN <= w <= INT_MAX -> counts w (low31 w).
Proof. unfold counts, INT_MIN, INT_MAX. rewrite low31_mod. intros. zlia. Qed.

Lemma counts_flag w c : counts w c -> flag w = INT_MIN + c.
Proof.
  unfold counts, flag, INT_MIN. intros (Hc & Hw).
  assert (E : Z.lor (u32 w) 2147483648 = 2147483648 + c).
  { destruct Hw as [-> | ->].
    - rewrite u32_small by lia. rewrite Z.lor_comm.
      change 2147483648 with (1 * 2 ^ 31). rewrite lor_add by lia. lia.
    - replace (u32 (-2147483648 + c)) with (1 * 2 ^ 31 + c) by (unfold u32; zlia).
      rewrite <- lor_add by lia. change (1 * 2 ^ 31) with 2147483648.
      rewrite <- Z.lor_assoc, (Z.lor_comm c), Z.lor_assoc, Z.lor_diag.
      change 2147483648 with (1 * 2 ^ 31). rewrite lor_add by lia. lia. }
  rewrite E. unfold s32. zlia.
Qed.

(** A thread count is between 0 and 1 in each component. *)
Definition unit_ok (g : ghost) : Prop := 0 <= g1 g <= 1 /\ 0 <= g2 g <= 1 /\ 0 <= g3 g <= 1.

Lemma unit_total f gs :
  (forall g, unit_ok g -> 0 <= f g <= 1) -> Forall (fun h => unit_ok (snd h)) gs ->
  0 <= total f gs <= Z.of_nat (length gs).
Proof.
  intros Hf. induction 1 as [|[i g] gs Hg H IH]; cbn [total length]; [lia|].
  specialize (Hf g Hg). lia.
Qed.

Definition no_ghost : ghost := (0, 0, 0).

Lemma none_ok : unit_ok no_ghost.
Proof. unfold unit_ok. cbn. lia. Qed.

(** A word other threads may change arbitrarily is never relied on. *)
Ltac same_ghost g := exists g; split; [unfold unit_ok; cbn; lia|split].

(** ** pthread_rwlock *)

Module RwLock.

(** The members _rw_lock and _rw_waiters (pthread_impl.h). *)
Definition rw_lock : Z := 0.
Definition rw_waiters : Z := 1.

(** Where a thread is: at a loop head of a function, or in the client between
    calls ([TryRd]: in tryrdlock itself). *)
Inductive label : Type :=
| Idle
| Reading
| Writing
| TryRd
| RdFirst | RdSpin (n : nat) | RdLoop
| WrSpin (n : nat) | WrLoop
| Unlocking (wr : bool).

Abbreviation prog := (prog label).

(** The body of the loop of __pthread_rwlock_tryrdlock; [self] is its head. *)
Definition tryrdlock (self : label) (ret : Z -> prog) : prog :=
  Do (Load rw_lock) (fun v =>
  let cnt := low31 v in
  if cnt =? 2147483647 then ret EBUSY
  else if cnt =? 2147483646 then ret EAGAIN
  else Do (Cas rw_lock v (v + 1)) (fun old => if old =? v then ret 0 else Goto self)).

Definition trywrlock (ret : Z -> prog) : prog :=
  Do (Cas rw_lock 0 2147483647) (fun old => if negb (old =? 0) then ret EBUSY else ret 0).

(** while (spins-- && rw->_rw_lock && !rw->_rw_waiters) a_spin(); *)
Definition spin (n : nat) (again : nat -> label) (out : label) : prog :=
  match n with
  | O => Goto out
  | S n =>
      Do (Load rw_lock) (fun v =>
      if v =? 0 then Goto out
      else Do (Load rw_waiters) (fun w =>
      if negb (w =? 0) then Goto out else Do Spin (fun _ => Goto (again n))))
  end.

(** The waiting part of both timed functions, with the word [r] read. *)
Definition wait (r : Z) (loop : label) (ret : Z -> prog) : prog :=
  let t := flag r in
  Do (FetchAdd rw_waiters 1) (fun _ =>
  Do (Cas rw_lock r t) (fun _ =>
  Do (FutexWait rw_lock t) (fun e =>
  Do (FetchAdd rw_waiters (-1)) (fun _ =>
  if negb (e =? 0) && negb (e =? EINTR) then ret e else Goto loop)))).

(** __pthread_rwlock_timedrdlock: the call before the spin, and the loop. *)
Definition timedrdlock (ret : Z -> prog) : prog :=
  tryrdlock RdFirst (fun r => if negb (r =? EBUSY) then ret r else Goto (RdSpin 100)).

Definition timedrdlock_loop (ret : Z -> prog) : prog :=
  tryrdlock RdLoop (fun r =>
  if r =? EBUSY then
    Do (Load rw_lock) (fun r =>
    if (r =? 0) || negb (low31 r =? 2147483647) then Goto RdLoop else wait r RdLoop ret)
  else ret r).

Definition timedwrlock (ret : Z -> prog) : prog :=
  trywrlock (fun r => if negb (r =? EBUSY) then ret r else Goto (WrSpin 100)).

Definition timedwrlock_loop (ret : Z -> prog) : prog :=
  trywrlock (fun r =>
  if r =? EBUSY then
    Do (Load rw_lock) (fun r => if r =? 0 then Goto WrLoop else wait r WrLoop ret)
  else ret r).

Definition unlock (self : label) (ret : prog) : prog :=
  Do (Load rw_lock) (fun v =>
  let cnt := low31 v in
  Do (Load rw_waiters) (fun waiters =>
  let new := if (cnt =? 2147483647) || (cnt =? 1) then 0 else v - 1 in
  Do (Cas rw_lock v new) (fun old =>
  if negb (old =? v) then Goto self
  else if (new =? 0) && (negb (waiters =? 0) || (v <? 0)) then
    Do (Wake rw_lock cnt) (fun _ => ret)
  else ret))).

(** The client: an idle thread takes the lock in any of the four ways (a timed
    call or a try, for reading or writing), and one that got it releases it. *)
Definition acquired (l : label) (r : Z) : prog := if r =? 0 then Goto l else Goto Idle.

Definition body (_ : Z) (l : label) : prog :=
  match l with
  | Idle =>
      Do Choose (fun c =>
      if c =? 0 then Goto RdFirst
      else if c =? 1 then timedwrlock (acquired Writing)
      else if c =? 2 then Goto TryRd
      else trywrlock (acquired Writing))
  | TryRd => tryrdlock TryRd (acquired Reading)
  | RdFirst => timedrdlock (acquired Reading)
  | RdSpin n => spin n RdSpin RdLoop
  | RdLoop => timedrdlock_loop (acquired Reading)
  | WrSpin n => spin n WrSpin WrLoop
  | WrLoop => timedwrlock_loop (acquired Writing)
  | Reading => Goto (Unlocking false)
  | Writing => Goto (Unlocking true)
  | Unlocking wr => unlock (Unlocking wr) (Goto Idle)
  end.

(** The counts: read locks held, write locks held. *)
Definition own (l : label) : ghost :=
  match l with
  | Reading | Unlocking false => (1, 0, 0)
  | Writing | Unlocking true => (0, 1, 0)
  | _ => no_ghost
  end.

Definition Inv (m : ints) (gs : list (Z * ghost)) : Prop :=
  let r := total g1 gs in
  let w := total g2 gs in
  counts (m rw_lock) (if w =? 0 then r else 2147483647) /\
  0 <= r /\ (w = 0 \/ (w = 1 /\ r = 0)) /\
  (w = 0 -> r <= 2147483646) /\ (r + w = 0 -> m rw_lock = 0).

Lemma rw_Inv_perm m gs gs' : Permutation gs gs' -> Inv m gs -> Inv m gs'.
Proof. intros Hp. unfold Inv. now rewrite !(total_perm _ _ _ Hp). Qed.

(** Memory changes that keep the word. *)
Lemma Inv_other m gs a v : a <> rw_lock -> Inv m gs -> Inv (mset m a v) gs.
Proof. intros Ha. unfold Inv. rewrite mset_ne by congruence. auto. Qed.

Lemma Inv_ge m gs :
  Inv m gs -> Forall (fun h => unit_ok (snd h)) gs -> 0 <= total g1 gs /\ 0 <= total g2 gs.
Proof.
  intros _ H. split.
  - apply (unit_total g1 gs); [unfold unit_ok; intros; lia|assumption].
  - apply (unit_total g2 gs); [unfold unit_ok; intros; lia|assumption].
Qed.

Abbreviation wp limit := (@wp label Inv unit_ok limit (fun _ => True) own).

(** Operations that leave the word alone. *)
Lemma rw_wp_pure limit i o k g :
  unit_ok g -> frame_op (Z.eqb rw_lock) o = true ->
  (forall r, wp limit i (k r) g) -> wp limit i (Do o k) g.
Proof.
  apply wp_frame. intros m gs a v Ha. apply Inv_other. lia.
Qed.

(** The acquisitions: a successful CAS adds one to the count, or takes all. *)
Lemma wp_tryrdlock limit i self ret :
  own self = no_ghost ->
  wp limit i (ret 0) (1, 0, 0) -> (forall r, r <> 0 -> wp limit i (ret r) no_ghost) ->
  wp limit i (tryrdlock self ret) no_ghost.
Proof.
  intros Hself H0 Hr. unfold tryrdlock. apply rw_wp_pure; [cbn; unfold unit_ok; cbn; lia|reflexivity|].
  intros v. cbv zeta. destruct (Z.eqb_spec (low31 v) 2147483647) as [E|E]; [now apply Hr|].
  destruct (Z.eqb_spec (low31 v) 2147483646) as [E'|E']; [now apply Hr|].
  intros m c others Hok Hlim Hinv. cbn [exec fst snd].
  destruct (Z.eqb_spec (m rw_lock) v) as [Ev|Ev].
  - exists (1, 0, 0). split; [unfold unit_ok; cbn; lia|]. split; [|assumption].
    destruct Hinv as (Hc & H1 & H2 & H3 & H4). cbn [total] in *. cbn [g1 g2 fst snd] in *.
    pose proof (counts_low31 _ _ Hc) as Hl. rewrite Ev in Hl.
    unfold Inv. cbn [total g1 g2 fst snd]. rewrite mset_eq. rewrite !Z.add_0_l in *.
    destruct (Z.eqb_spec (total g2 others) 0) as [Ew|Ew]; [|lia].
    rewrite Ev in Hc. destruct Hc as [Hc1 Hc2].
    repeat split; try lia; unfold counts, INT_MIN in *; lia.
  - exists no_ghost. split; [unfold unit_ok; cbn; lia|]. split; [assumption|now split].
Qed.

Lemma wp_trywrlock limit i ret :
  wp limit i (ret 0) (0, 1, 0) -> wp limit i (ret EBUSY) no_ghost ->
  wp limit i (trywrlock ret) no_ghost.
Proof.
  intros H0 Hr m c others Hok Hlim Hinv. cbn [exec fst snd].
  destruct (Z.eqb_spec (m rw_lock) 0) as [Ev|Ev]; cbn [negb].
  - exists (0, 1, 0). split; [unfold unit_ok; cbn; lia|]. split; [|assumption].
    destruct Hinv as (Hc & H1 & H2 & H3 & H4). cbn [total] in *. cbn [g1 g2 fst snd] in *.
    rewrite Ev in Hc. unfold Inv. cbn [total g1 g2 fst snd]. rewrite mset_eq. rewrite !Z.add_0_l in *.
    assert (Hz : total g2 others = 0 /\ total g1 others = 0).
    { revert Hc. destruct (Z.eqb_spec (total g2 others) 0); unfold counts, INT_MIN; lia. }
    destruct Hz as [Hz1 Hz2]. rewrite Hz1, Hz2. change (1 + 0 =? 0) with false. unfold counts, INT_MIN. lia.
  - exists no_ghost. split; [apply none_ok|]. now split.
Qed.

Lemma wp_spin limit i n again out :
  (forall n, own (again n) = no_ghost) -> own out = no_ghost ->
  wp limit i (spin n again out) no_ghost.
Proof.
  intros Ha Ho. destruct n as [|n]; cbn [spin]; [now split|].
  apply rw_wp_pure; [apply none_ok|reflexivity|]. intros v. case_if; [now split|].
  apply rw_wp_pure; [apply none_ok|reflexivity|]. intros w. case_if; [now split|].
  apply rw_wp_pure; [apply none_ok|reflexivity|]. intros _. now split.
Qed.

(** Setting the flag of the word that was read keeps its count. *)
Lemma wp_wait limit i r loop ret :
  own loop = no_ghost -> r <> 0 -> (forall e, e <> 0 -> wp limit i (ret e) no_ghost) ->
  wp limit i (wait r loop ret) no_ghost.
Proof.
  intros Hl Hr Hret. unfold wait.
  apply rw_wp_pure; [apply none_ok|reflexivity|]. intros _.
  intros m c others Hok Hlim Hinv. exists no_ghost. split; [apply none_ok|]. cbn [exec fst snd]. split.
  - destruct (Z.eqb_spec (m rw_lock) r) as [<-|]; [|assumption].
    destruct Hinv as (Hc & H1 & H2 & H3 & H4). unfold Inv. rewrite mset_eq.
    rewrite (counts_flag _ _ Hc). repeat split; try lia; unfold counts in *; lia.
  - apply rw_wp_pure; [apply none_ok|reflexivity|]. intros e.
    apply rw_wp_pure; [apply none_ok|reflexivity|]. intros _.
    destruct (negb (e =? 0) && negb (e =? EINTR)) eqn:E; [apply Hret; lia|now split].
Qed.

(** Releasing: the last reader or the writer clears the word. *)
Lemma rw_wp_unlock limit i wr :
  wp limit i (unlock (Unlocking wr) (Goto Idle)) (own (Unlocking wr)).
Proof.
  assert (Hg : unit_ok (own (Unlocking wr))) by (destruct wr; unfold unit_ok; cbn; lia).
  unfold unlock. apply rw_wp_pure; [assumption|reflexivity|]. intros v. cbv zeta.
  apply rw_wp_pure; [assumption|reflexivity|]. intros waiters.
  intros m c others Hok Hlim Hinv. cbn [exec fst snd].
  destruct (Z.eqb_spec (m rw_lock) v) as [Ev|Ev]; cbn [negb];
    [|exists (own (Unlocking wr)); split; [assumption|split; [assumption|now split]]].
  exists no_ghost. split; [apply none_ok|]. split.
  - destruct (Inv_ge _ _ Hinv) as [P1 P2]; [now constructor|].
    destruct Hinv as (Hc & H1 & H2 & H3 & H4). pose proof (counts_low31 _ _ Hc) as Hl.
    rewrite Ev in Hl. rewrite Hl. rewrite Ev in Hc. cbn [total] in *.
    pose proof (unit_total g1 others ltac:(unfold unit_ok; intros; lia) Hok) as T1.
    pose proof (unit_total g2 others ltac:(unfold unit_ok; intros; lia) Hok) as T2.
    unfold Inv. rewrite mset_eq. cbn [total]. unfold counts, INT_MIN in *.
    destruct wr; cbn [own no_ghost g1 g2 fst snd] in *; rewrite ?Z.add_0_l in *;
      repeat match goal with |- context [if ?b then _ else _] => destruct b eqn:? end;
      repeat match type of Hc with context [if ?b then _ else _] => destruct b eqn:? end; lia.
  - case_if; [|now split]. apply rw_wp_pure; [apply none_ok|reflexivity|]. now split.
Qed.

Lemma rw_body_ok limit i l : wp limit i (body i l) (own l).
Proof.
  assert (Hacq : forall l g r, (r = 0 -> g = own l) -> (r <> 0 -> g = no_ghost) ->
            wp limit i (acquired l r) g).
  { intros l' g r H0 H1. unfold acquired. destruct (Z.eqb_spec r 0); split; auto. }
  assert (Hrd : forall ret, wp limit i (ret 0) (1, 0, 0) ->
      (forall r, r <> 0 -> wp limit i (ret r) no_ghost) ->
      wp limit i (timedrdlock ret) no_ghost).
  { intros ret H0 Hr. apply wp_tryrdlock; [reflexivity|apply H0|].
    intros r Hne. case_if; [now apply Hr|now split]. }
  destruct l; cbn [own].
  - apply rw_wp_pure; [apply none_ok|reflexivity|]. intros c. repeat case_if; try now split.
    + apply wp_trywrlock; [now apply Hacq|now split].
    + apply wp_trywrlock; now apply Hacq.
  - now split.
  - now split.
  - apply wp_tryrdlock; [reflexivity| |]; intros; now apply Hacq.
  - apply Hrd; intros; now apply Hacq.
  - now apply wp_spin.
  - apply wp_tryrdlock; [reflexivity|now apply Hacq|]. intros r Hne. case_if; [|now apply Hacq].
    apply rw_wp_pure; [apply none_ok|reflexivity|]. intros v. case_if; [now split|].
    apply wp_wait; [reflexivity|lia|]. intros; now apply Hacq.
  - now apply wp_spin.
  - apply wp_trywrlock; [now apply Hacq|]. change (EBUSY =? EBUSY) with true. cbv iota.
    apply rw_wp_pure; [apply none_ok|reflexivity|]. intros v. case_if; [now split|].
    apply wp_wait; [reflexivity|lia|]. intros; now apply Hacq.
  - apply rw_wp_unlock.
Qed.

(** Any number of idle threads, the object zeroed. *)
Definition initial (m : ints) (ids : list Z) : system label :=
  (m, map (fun i => (i, Goto Idle)) ids).

Lemma reachable_inv m ids s :
  m rw_lock = 0 -> reachable body (initial m ids) s ->
  sys_inv Inv unit_ok (length ids) (fun _ => True) own s.
Proof.
  intros Hm Hr.
  apply (invariant_reachable body Inv rw_Inv_perm unit_ok (length ids) (fun _ => True) own
           (fun i l _ => rw_body_ok _ i l) m
           (map (fun i => (i, Idle)) ids)).
  - rewrite map_map. apply Forall_forall. intros l Hl. apply in_map_iff in Hl as (i & <- & _).
    split; [exact I|apply none_ok].
  - now rewrite length_map.
  - rewrite map_map. cbn. unfold Inv. rewrite !total_none by reflexivity. rewrite Hm. change (0 =? 0) with true.
    unfold counts. lia.
  - rewrite map_map. exact Hr.
Qed.

(** C9. pthread_rwlock is a readers-writer lock: whatever the number of threads
    that call rdlock, wrlock, their timed and try variants and unlock, in every
    interleaving of their atomic accesses (with timeouts and interrupted or
    spurious waits), while one thread holds the lock for writing no other holds
    it for reading or writing; and once every thread is idle again the word is
    free (0), so no release is lost. *)
Theorem rwlock_exclusion m ids s :
  m rw_lock = 0 -> reachable body (initial m ids) s ->
  (forall l1 l2 l3 i j a b,
     snd s = l1 ++ (i, Goto a) :: l2 ++ (j, Goto b) :: l3 ->
     ~ (a = Writing /\ (b = Writing \/ b = Reading)) /\ ~ (a = Reading /\ b = Writing)) /\
  (snd s = map (fun i => (i, Goto Idle)) (map fst (snd s)) -> fst s rw_lock = 0).
Proof.
  intros Hm Hr. pose proof (reachable_inv m ids s Hm Hr) as Hinv. split.
  - intros l1 l2 l3 i j a b E.
    destruct (two_at_labels Inv unit_ok (length ids) (fun _ => True) own (fun g => g1 g + 2147483647 * g2 g) s
                l1 i j l2 l3 a b) as (gs & Hi & Ht); [unfold unit_ok; intros; lia|assumption..|].
    assert (Hs : total (fun g => g1 g + 2147483647 * g2 g) gs
                 = total g1 gs + 2147483647 * total g2 gs).
    { clear. induction gs as [|[k g] gs IH]; cbn [total]; lia. }
    rewrite Hs in Ht. destruct Hi as (_ & _ & Hw & Hb & _).
    split; [intros (-> & [-> | ->])|intros (-> & ->)]; cbn in Ht; lia.
  - intros E. pose proof (all_at_labels _ _ _ _ _ s (map (fun t => (fst t, Idle)) (snd s)) Hinv) as H.
    rewrite !map_map in H. cbn [fst snd own] in H.
    destruct H as (_ & _ & _ & _ & H0); [rewrite map_map in E; exact E|].
    apply H0. rewrite <- (map_map fst (fun i => (i, no_ghost))).
    now rewrite !total_none.
Qed.

Lemma rwlock_exclusion_witness :
  let s := run body (repeat (0%nat, 0) 5 ++ repeat (1%nat, 1) 3)
             (initial (fun _ => 0) [11; 12]) in
  snd s = [] ++ (11, Goto Reading) :: [] ++ (12, Goto (WrSpin 100)) :: [] /\
  ~ (Reading = Writing /\ (WrSpin 100 = Writing \/ WrSpin 100 = Reading)).
Proof.
  split; [vm_compute; reflexivity|].
  apply (rwlock_exclusion (fun _ => 0) [11; 12]
    (run body (repeat (0%nat, 0) 5 ++ repeat (1%nat, 1) 3)
       (initial (fun _ => 0) [11; 12])) eq_refl) with (l1 := []) (i := 11) (l2 := []) (j := 12)
       (l3 := []).
  - apply run_reachable. apply star_refl.
  - vm_compute. reflexivity.
Defined.
End RwLock.

(** ** __lock and __unlock *)

Module InternalLock.

(** The int the caller passes, and libc.need_locks. *)
Definition l : Z := 0.
Definition need_locks : Z := 1.

Inductive label : Type :=
| Idle | Holding | Released
| Trying (i : nat) (current : Z)    (** the bounded loop: [i] rounds left *)
| Waiting (current : Z).            (** the loop with the futex wait *)

Abbreviation prog := (prog label).

Definition LOCKED1 : Z := INT_MIN + 1.

Definition lock (ret : prog) : prog :=
  Do (Load need_locks) (fun nl =>
  if nl =? 0 then ret
  else
    Do (Cas l 0 LOCKED1) (fun current =>
    let rest := if current =? 0 then ret else Goto (Trying 10 current) in
    if nl <? 0 then Do (Store need_locks 0) (fun _ => rest) else rest)).

Definition trying (i : nat) (current : Z) (ret : prog) : prog :=
  match i with
  | O => Do (FetchAdd l 1) (fun old => Goto (Waiting (s32 (old + 1))))
  | S i =>
      let current := if current <? 0 then current - LOCKED1 else current in
      Do (Cas l current (INT_MIN + (current + 1))) (fun val =>
      if val =? current then ret else Goto (Trying i val))
  end.

Definition waiting (current : Z) (ret : prog) : prog :=
  let attempt current :=
    Do (Cas l current (INT_MIN + current)) (fun val =>
    if val =? current then ret else Goto (Waiting val)) in
  if current <? 0 then Do (FutexWait l current) (fun _ => attempt (current - LOCKED1))
  else attempt current.

Definition unlock (ret : prog) : prog :=
  Do (Load l) (fun v =>
  if v <? 0 then
    Do (FetchAdd l (- LOCKED1)) (fun old =>
    if negb (old =? LOCKED1) then Do (Wake l 1) (fun _ => ret) else ret)
  else ret).

Definition body (_ : Z) (x : label) : prog :=
  match x with
  | Idle => lock (Goto Holding)
  | Trying i current => trying i current (Goto Holding)
  | Waiting current => waiting current (Goto Holding)
  | Holding => unlock (Goto Released)
  | Released => Goto Idle
  end.

(** The counts: holding the lock; counted in the word. *)
Definition own (x : label) : ghost :=
  match x with
  | Holding => (1, 1, 0)
  | Waiting _ => (0, 1, 0)
  | _ => no_ghost
  end.

(** A value read from the word is an int. *)
Definition lok (x : label) : Prop :=
  match x with
  | Trying _ v | Waiting v => INT_MIN < v <= INT_MAX
  | _ => True
  end.

(** The word is the number of threads counted, with the sign bit set while one
    of them holds the lock; the program has more than one thread. *)
Definition Inv (m : ints) (gs : list (Z * ghost)) : Prop :=
  0 < m need_locks /\ 0 <= total g1 gs <= 1 /\ total g1 gs <= total g2 gs /\
  m l = total g1 gs * INT_MIN + total g2 gs.

Lemma il_Inv_perm m gs gs' : Permutation gs gs' -> Inv m gs -> Inv m gs'.
Proof. intros Hp. unfold Inv. now rewrite !(total_perm _ _ _ Hp). Qed.

Section Proof.
Variable limit : nat.
Hypothesis Hlimit : Z.of_nat limit < INT_MAX.

Abbreviation wp := (@wp label Inv unit_ok limit lok own).

Lemma il_wp_pure i o k g :
  unit_ok g -> frame_op (fun a => (a =? l) || (a =? need_locks)) o = true ->
  (forall r, wp i (k r) g) -> wp i (Do o k) g.
Proof.
  apply wp_frame. intros m gs a v Ha. unfold Inv. rewrite !mset_ne by lia. auto.
Qed.

(** What a thread knows of the word: its bounds. *)
Lemma word_range m i g others :
  unit_ok g -> Forall (fun h => unit_ok (snd h)) others -> (length others < limit)%nat ->
  Inv m ((i, g) :: others) ->
  INT_MIN < m l <= INT_MAX /\ 0 <= total g1 others /\ 0 <= total g2 others <= Z.of_nat limit - 1.
Proof.
  intros (G1 & G2 & _) Hok Hlen (_ & H1 & H2 & H3).
  pose proof (unit_total g1 others ltac:(unfold unit_ok; intros; lia) Hok).
  pose proof (unit_total g2 others ltac:(unfold unit_ok; intros; lia) Hok).
  cbn [total] in *. unfold INT_MIN, INT_MAX in *. nia.
Qed.

(** The three atomic changes of the word. *)
Lemma wp_lock_cas i v k g :
  g = no_ghost \/ g = (0, 1, 0) -> -1 < v ->
  (forall r, INT_MIN < r <= INT_MAX -> wp i (k r) (if r =? v then (1, 1, 0) else g)) ->
  wp i (Do (Cas l v (INT_MIN + (v + (1 - g2 g)))) k) g.
Proof.
  intros Hg Hv Hk m c others Hok Hlen Hinv.
  assert (Gok : unit_ok g) by (destruct Hg as [-> | ->]; unfold unit_ok; cbn; lia).
  destruct (word_range m i g others Gok Hok Hlen Hinv) as (Hw & T1 & T2).
  cbn [exec fst snd]. exists (if m l =? v then (1, 1, 0) else g).
  split; [case_if; [unfold unit_ok; cbn; lia|assumption]|]. split; [|now apply Hk].
  destruct (Z.eqb_spec (m l) v) as [E|E]; [|assumption].
  destruct Hinv as (H0 & H1 & H2 & H3). unfold Inv. rewrite mset_eq, mset_ne by (unfold l, need_locks; lia).
  cbn [total] in *. change (g1 (1, 1, 0)) with 1. change (g2 (1, 1, 0)) with 1.
  assert (G : g1 g = 0) by (destruct Hg as [-> | ->]; reflexivity). rewrite G in *.
  assert (G' : 0 <= g2 g <= 1) by (destruct Hg as [-> | ->]; cbn; lia).
  unfold INT_MIN, INT_MAX in *.
  assert (T : total g1 others = 0 \/ total g1 others = 1) by lia.
  destruct T as [T|T]; rewrite T in *; lia.
Qed.

(** The holder's unlock: the word is negative, so the lock is given up. *)
Lemma il_wp_unlock i : wp i (unlock (Goto Released)) (1, 1, 0).
Proof.
  assert (Gok : unit_ok (1, 1, 0)) by (unfold unit_ok; cbn; lia).
  assert (Hneg : forall m others, Forall (fun h => unit_ok (snd h)) others ->
    (length others < limit)%nat -> Inv m ((i, (1, 1, 0)) :: others) ->
    total g1 others = 0 /\ m l = INT_MIN + 1 + total g2 others /\
    0 <= total g2 others <= Z.of_nat limit - 1).
  { intros m others Hok Hlen Hinv.
    destruct (word_range m i _ others Gok Hok Hlen Hinv) as (Hw & T1 & T2).
    destruct Hinv as (H0 & H1 & H2 & H3). cbn [total] in *.
    change (g1 (1, 1, 0)) with 1 in *. change (g2 (1, 1, 0)) with 1 in *.
    assert (T : total g1 others = 0) by lia. rewrite T in *. unfold INT_MIN in *. lia. }
  intros m c others Hok Hlen Hinv. cbn [exec fst snd]. exists (1, 1, 0).
  split; [assumption|]. split; [assumption|].
  destruct (Hneg m others Hok Hlen Hinv) as (_ & E & T). unfold INT_MAX, INT_MIN in *.
  replace (m l <? 0) with true by lia. clear m c others Hok Hlen Hinv E T.
  intros m c others Hok Hlen Hinv. cbn [exec fst snd]. exists no_ghost.
  split; [apply none_ok|]. destruct (Hneg m others Hok Hlen Hinv) as (E1 & E & T). split.
  - destruct Hinv as (H0 & _). unfold Inv. rewrite mset_eq, mset_ne by (unfold l, need_locks; lia).
    cbn [total]. change (g1 no_ghost) with 0. change (g2 no_ghost) with 0. rewrite E1, E.
    unfold LOCKED1, INT_MIN. rewrite s32_small by lia. lia.
  - case_if; [|now split]. apply il_wp_pure; [apply none_ok|reflexivity|]. now split.
Qed.

Lemma il_body_ok i x : lok x -> wp i (body i x) (own x).
Proof.
  intros Hx. destruct x as [| | |n v|v]; cbn [body own lok] in *.
  - (* lock *)
    intros m c others Hok Hlen Hinv. cbn [exec fst snd]. exists no_ghost.
    split; [apply none_ok|]. split; [assumption|].
    destruct Hinv as (Hnl & _). replace (m need_locks =? 0) with false by lia.
    replace (m need_locks <? 0) with false by lia.
    apply (wp_lock_cas i 0 _ no_ghost); [now left|lia|]. intros r Hr. cbv zeta.
    case_if; now split.
  - (* unlock *)
    apply il_wp_unlock.
  - now split.
  - (* trying *)
    destruct n as [|n]; cbn [trying].
    + intros m c others Hok Hlen Hinv. cbn [exec fst snd].
      destruct (word_range m i no_ghost others none_ok Hok Hlen Hinv) as (Hw & T1 & T2).
      exists (0, 1, 0). split; [unfold unit_ok; cbn; lia|].
      destruct Hinv as (H0 & H1 & H2 & H3). cbn [total] in *.
      change (g1 no_ghost) with 0 in *. change (g2 no_ghost) with 0 in *.
      assert (Hs : s32 (m l + 1) = m l + 1 /\ INT_MIN < m l + 1 <= INT_MAX).
      { assert (T : total g1 others = 0 \/ total g1 others = 1) by lia.
        unfold INT_MIN, INT_MAX in *.
        destruct T as [T|T]; rewrite T in *; (split; [apply s32_small|]); lia. }
      destruct Hs as [-> Hs]. split; [|now split].
      unfold Inv. rewrite mset_eq, mset_ne by (unfold l, need_locks; lia). cbn [total].
      change (g1 (0, 1, 0)) with 0. change (g2 (0, 1, 0)) with 1. lia.
    + cbv zeta. set (w := if v <? 0 then v - LOCKED1 else v).
      apply (wp_lock_cas i w _ no_ghost); [now left| |].
      * unfold w, LOCKED1, INT_MIN in *. case_if; lia.
      * intros r Hr. case_if; now split.
  - (* waiting *)
    unfold waiting. cbv zeta.
    assert (Ha : forall w, -1 < w -> wp i (Do (Cas l w (INT_MIN + w)) (fun val =>
              if val =? w then Goto Holding else Goto (Waiting val))) (0, 1, 0)).
    { intros w Hw. replace (INT_MIN + w) with (INT_MIN + (w + (1 - g2 (0, 1, 0)))) by (cbn; lia).
      apply wp_lock_cas; [now right|lia|]. intros r Hr. case_if; now split. }
    destruct (Z.ltb_spec v 0); [|apply Ha; lia].
    apply il_wp_pure; [unfold unit_ok; cbn; lia|reflexivity|]. intros _. apply Ha.
    unfold LOCKED1, INT_MIN in *. lia.
Qed.
End Proof.

Definition initial (m : ints) (ids : list Z) : system label :=
  (m, map (fun i => (i, Goto Idle)) ids).


End InternalLock.

(** ** Semaphores *)

Module Semaphore.

(** sem->__val[0] and sem->__val[1]. *)
Definition value : Z := 0.
Definition waiters : Z := 1.
Definition SEM_VALUE_MAX : Z := 2147483647.

(** sem_init: the value, or EINVAL. *)
Definition sem_init (m : ints) (v : Z) : ints + Z :=
  if SEM_VALUE_MAX <? v then inr EINVAL
  else inl (mset (mset m value v) waiters 0).

Definition sem_getvalue (m : ints) : Z := low31 (m value).

(** Where a thread is, with the numbers of waits and posts it has completed. *)
Inductive where_ : Type :=
| Client | TryWait | TimedFirst | TimedSpin (n : nat) | TimedLoop | Post.

Definition label : Type := where_ * (Z * Z).

Abbreviation prog := (prog label).

Definition sem_trywait (self : label) (ret : Z -> prog) : prog :=
  Do (Load value) (fun v =>
  if negb (low31 v =? 0) then
    Do (Cas value v (v - 1)) (fun old => if old =? v then ret 0 else Goto self)
  else ret (-1)).

Definition timed_spin (n : nat) (at_ : where_ -> label) : prog :=
  match n with
  | O => Goto (at_ TimedLoop)
  | S n =>
      Do (Load value) (fun v =>
      if negb (low31 v =? 0) then Goto (at_ TimedLoop)
      else Do (Load waiters) (fun w =>
      if negb (w =? 0) then Goto (at_ TimedLoop) else Do Spin (fun _ => Goto (at_ (TimedSpin n)))))
  end.

(** The loop of sem_timedwait: [ret] of 0, or -1 with errno set. *)
Definition timed_loop (at_ : where_ -> label) (ret : Z -> prog) : prog :=
  sem_trywait (at_ TimedLoop) (fun r =>
  if r =? 0 then ret 0
  else
    Do (FetchAdd waiters 1) (fun _ =>
    Do (Cas value 0 INT_MIN) (fun _ =>
    Do (FutexWait value INT_MIN) (fun r =>
    Do (FetchAdd waiters (-1)) (fun _ =>
    if negb (r =? 0) then ret (-1) else Goto (at_ TimedLoop)))))).

Definition sem_post (self : label) (ret : Z -> prog) : prog :=
  Do (Load value) (fun v =>
  Do (Load waiters) (fun w =>
  if low31 v =? SEM_VALUE_MAX then ret (-1)
  else
    let new := v + 1 in
    let new := if w <=? 1 then low31 new else new in
    Do (Cas value v new) (fun old =>
    if negb (old =? v) then Goto self
    else if (v <? 0) || negb (w =? 0) then
      Do (Wake value (if 1 <? w then 1 else -1)) (fun _ => ret 0)
    else ret 0))).

Definition body (_ : Z) (x : label) : prog :=
  let '(pc, (w, p)) := x in
  let at_ pc := (pc, (w, p)) in
  let waited r : prog := Goto (Client, if r =? 0 then (w + 1, p) else (w, p)) in
  let posted r : prog := Goto (Client, if r =? 0 then (w, p + 1) else (w, p)) in
  match pc with
  | Client =>
      Do Choose (fun c =>
      if c =? 0 then Goto (at_ TryWait)
      else if c =? 1 then Goto (at_ TimedFirst)
      else Goto (at_ Post))
  | TryWait => sem_trywait (at_ TryWait) waited
  | TimedFirst =>
      sem_trywait (at_ TimedFirst) (fun r => if r =? 0 then waited 0 else Goto (at_ (TimedSpin 100)))
  | TimedSpin n => timed_spin n at_
  | TimedLoop => timed_loop at_ waited
  | Post => sem_post (at_ Post) posted
  end.

Definition own (x : label) : ghost := (fst (snd x), snd (snd x), 0).

Section Proof.
Variable init : Z.

(** The value is what it was plus the posts less the waits. *)
Definition Inv (m : ints) (gs : list (Z * ghost)) : Prop :=
  counts (m value) (init + total g2 gs - total g1 gs).

Definition any (g : ghost) : Prop := True.

Lemma sem_Inv_perm m gs gs' : Permutation gs gs' -> Inv m gs -> Inv m gs'.
Proof. intros Hp. unfold Inv. now rewrite !(total_perm _ _ _ Hp). Qed.

Variable limit : nat.
Abbreviation wp := (@wp label Inv any limit (fun _ => True) own).

Lemma sem_wp_pure i o k g :
  frame_op (Z.eqb value) o = true -> (forall r, wp i (k r) g) -> wp i (Do o k) g.
Proof.
  intros Ho Hk. apply (wp_frame _ _ _ _ _ (Z.eqb value)); [|exact I|exact Ho|exact Hk].
  intros m gs a v Ha. unfold Inv. rewrite mset_ne by lia. auto.
Qed.

(** A CAS that adds [d] to the count (and may clear the flag). *)
Lemma sem_wp_cas i v new k g g' :
  (forall c, counts v c -> counts new (c + (g2 g' - g2 g) - (g1 g' - g1 g))) ->
  wp i (k v) g' -> (forall old, old <> v -> wp i (k old) g) ->
  wp i (Do (Cas value v new) k) g.
Proof.
  intros Hc Hyes Hno m c others _ _ Hinv. cbn [exec fst snd].
  destruct (Z.eqb_spec (m value) v) as [E|E].
  - exists g'. split; [exact I|]. rewrite E. split; [|assumption].
    unfold Inv in *. rewrite mset_eq. rewrite E in Hinv. specialize (Hc _ Hinv).
    cbn [total] in *. replace (init + (g2 g' + total g2 others) - (g1 g' + total g1 others))
      with (init + (g2 g + total g2 others) - (g1 g + total g1 others)
            + (g2 g' - g2 g) - (g1 g' - g1 g)) by lia. assumption.
  - exists g. split; [exact I|]. split; [assumption|]. now apply Hno.
Qed.

Lemma wp_trywait i self ret w p :
  own self = (w, p, 0) -> wp i (ret 0) (w + 1, p, 0) -> wp i (ret (-1)) (w, p, 0) ->
  wp i (sem_trywait self ret) (w, p, 0).
Proof.
  intros Hs H0 Hr. unfold sem_trywait. apply sem_wp_pure; [reflexivity|]. intros v.
  destruct (Z.eqb_spec (low31 v) 0) as [E|E]; cbn [negb]; [assumption|].
  apply (sem_wp_cas i v (v - 1) _ (w, p, 0) (w + 1, p, 0)).
  - intros c Hc. pose proof (counts_low31 _ _ Hc). cbn. unfold counts, INT_MIN in *. lia.
  - now rewrite Z.eqb_refl.
  - intros old Ho. replace (old =? v) with false by lia. split; [exact I|now symmetry].
Qed.

Lemma wp_post i self ret w p :
  own self = (w, p, 0) -> wp i (ret 0) (w, p + 1, 0) -> wp i (ret (-1)) (w, p, 0) ->
  wp i (sem_post self ret) (w, p, 0).
Proof.
  intros Hs H0 Hr. unfold sem_post, SEM_VALUE_MAX. apply sem_wp_pure; [reflexivity|]. intros v.
  apply sem_wp_pure; [reflexivity|]. intros n.
  destruct (Z.eqb_spec (low31 v) 2147483647) as [E|E]; [assumption|]. cbv zeta.
  apply (sem_wp_cas i v _ _ (w, p, 0) (w, p + 1, 0)).
  - intros c Hc. pose proof (counts_low31 _ _ Hc) as Hl.
    assert (Hn : counts (v + 1) (c + 1)) by (unfold counts, INT_MIN in *; lia).
    cbn. replace (c + (p + 1 - p) - (w - w)) with (c + 1) by lia.
    case_if; [|assumption]. rewrite (counts_low31 _ _ Hn). unfold counts in *. lia.
  - rewrite Z.eqb_refl. cbn [negb]. case_if; [|assumption].
    apply sem_wp_pure; [reflexivity|]. now intros _.
  - intros old Ho. replace (old =? v) with false by lia. split; [exact I|now symmetry].
Qed.

Lemma sem_body_ok i x : wp i (body i x) (own x).
Proof.
  destruct x as [pc [w p]]. unfold own. cbn [fst snd body].
  assert (Hat : forall pc, wp i (Goto (pc, (w, p))) (w, p, 0)) by (intros; now split).
  destruct pc; cbn [body].
  - apply sem_wp_pure; [reflexivity|]. intros c. repeat case_if; apply Hat.
  - apply wp_trywait; [reflexivity|now split|now split].
  - apply wp_trywait; [reflexivity|now split|now split].
  - destruct n as [|n]; cbn [timed_spin]; [apply Hat|].
    apply sem_wp_pure; [reflexivity|]. intros v. case_if; [apply Hat|].
    apply sem_wp_pure; [reflexivity|]. intros v'. case_if; [apply Hat|].
    apply sem_wp_pure; [reflexivity|]. intros _. apply Hat.
  - apply wp_trywait; [reflexivity|now split|].
    apply sem_wp_pure; [reflexivity|]. intros _.
    apply (sem_wp_cas i 0 INT_MIN _ (w, p, 0) (w, p, 0)).
    + intros c Hc. cbn. unfold counts, INT_MIN in *. lia.
    + apply sem_wp_pure; [reflexivity|]. intros r. apply sem_wp_pure; [reflexivity|]. intros _.
      case_if; [|apply Hat]. now split.
    + intros _ _. apply sem_wp_pure; [reflexivity|]. intros r. apply sem_wp_pure; [reflexivity|]. intros _.
      case_if; [|apply Hat]. now split.
  - apply wp_post; [reflexivity|now split|now split].
Qed.
End Proof.

Definition initial (m : ints) (ids : list Z) : system label :=
  (m, map (fun i => (i, Goto (Client, (0, 0)))) ids).

(** What the client threads have completed. *)
Definition completed (f : ghost -> Z) (ts : list (Z * (Z * Z))) : Z :=
  total f (map (fun t => (fst t, own (Client, snd t))) ts).

(** C39. Semaphores count: from sem_init with a valid value, through any calls of
    sem_trywait, sem_timedwait and sem_post by any number of threads in any
    interleaving (sleeping waiters, timeouts and interruptions included), when
    the threads are between calls the value is the initial one plus the
    successful posts less the successful waits, and it is never negative nor
    beyond SEM_VALUE_MAX; sem_init refuses a larger value with EINVAL. *)
Theorem semaphore_counts v m0 ids s ts :
  0 <= v ->
  match sem_init m0 v with
  | inr e => e = EINVAL /\ SEM_VALUE_MAX < v
  | inl m =>
      reachable body (initial m ids) s ->
      snd s = map (fun t => (fst t, Goto (Client, snd t))) ts ->
      sem_getvalue (fst s) = v + completed g2 ts - completed g1 ts /\
      0 <= sem_getvalue (fst s) <= SEM_VALUE_MAX
  end.
Proof.
  intros Hv. unfold sem_init, SEM_VALUE_MAX. destruct (Z.ltb_spec 2147483647 v) as [Hv'|Hv']; [auto|].
  intros Hr E.
  assert (Hinv : sys_inv (Inv v) any (length ids) (fun _ => True) own s).
  { apply (invariant_reachable body (Inv v) (sem_Inv_perm v) any (length ids) (fun _ => True) own
             (fun i x _ => sem_body_ok v (length ids) i x) (mset (mset m0 value v) waiters 0)
             (map (fun i => (i, (Client, (0, 0)))) ids)).
    - apply Forall_forall. intros x _. now split.
    - now rewrite length_map.
    - rewrite map_map. cbn [fst snd own]. unfold Inv. rewrite !total_none by reflexivity.
      unfold value, waiters. rewrite mset_ne, mset_eq by lia. unfold counts. lia.
    - rewrite map_map. assumption. }
  pose proof (all_at_labels _ _ _ _ _ s (map (fun t => (fst t, (Client, snd t))) ts) Hinv) as H.
  rewrite !map_map in H. cbn [fst snd] in H. specialize (H E). unfold Inv in H.
  unfold sem_getvalue. pose proof (counts_low31 _ _ H) as Hl. fold (completed g2 ts) in Hl.
  fold (completed g1 ts) in Hl. rewrite Hl. split; [reflexivity|].
  destruct H as [H _]. unfold completed. lia.
Qed.

Lemma semaphore_counts_witness :
  let s := run body (repeat (0%nat, 0) 5 ++ repeat (1%nat, 2) 6)
             (initial (mset (mset (fun _ => 9) value 1) waiters 0) [11; 12]) in
  sem_getvalue (fst s) = 1 + completed g2 [(11, (1, 0)); (12, (0, 1))]
                           - completed g1 [(11, (1, 0)); (12, (0, 1))] /\
  0 <= sem_getvalue (fst s) <= SEM_VALUE_MAX.
Proof.
  apply (semaphore_counts 1 (fun _ => 9) [11; 12]
    (run body (repeat (0%nat, 0) 5 ++ repeat (1%nat, 2) 6)
       (initial (mset (mset (fun _ => 9) value 1) waiters 0) [11; 12]))
    [(11, (1, 0)); (12, (0, 1))]).
  - lia.
  - apply run_reachable. apply star_refl.
  - vm_compute. reflexivity.
Defined.
End Semaphore.

(** ** pthread_once *)

Module Once.

Definition control : Z := 0.
(** A cell the initialisation routine of the client increments. *)
Definition runs : Z := 1.

Inductive label : Type :=
| Start | Full
| WaitSpin (n : nat) | WaitLoop      (** __wait(control, 0, 3, 1) *)
| Running | Finish                   (** in init; init returned *)
| Undo                               (** cancelled in init: the cleanup *)
| Returned | Gone.

Abbreviation prog := (prog label).

(** __wait with no waiter count: spin while the word is [v], then sleep. *)
Definition wait_spin (n : nat) (v : Z) (ret : prog) : prog :=
  match n with
  | O => Goto WaitLoop
  | S n => Do (Load control) (fun x => if x =? v then Do Spin (fun _ => Goto (WaitSpin n)) else ret)
  end.

Definition wait_loop (v : Z) (ret : prog) : prog :=
  Do (Load control) (fun x =>
  if x =? v then Do (FutexWait control v) (fun _ => Goto WaitLoop) else ret).

(** One round of the loop of __pthread_once_full. *)
Definition once_full (ret : prog) : prog :=
  Do (Cas control 0 1) (fun x =>
  if x =? 0 then Goto Running
  else if x =? 1 then Do (Cas control 1 3) (fun _ => Goto (WaitSpin 100))
  else if x =? 3 then Goto (WaitSpin 100)
  else if x =? 2 then ret
  else Goto Full).

Definition once_finish (ret : prog) : prog :=
  Do (Swap control 2) (fun x => if x =? 3 then Do (Wake control (-1)) (fun _ => ret) else ret).

Definition undo (ret : prog) : prog :=
  Do (Swap control 0) (fun x => if x =? 3 then Do (Wake control (-1)) (fun _ => ret) else ret).

Definition pthread_once (ret : prog) : prog :=
  Do (Load control) (fun x => if x =? 2 then Do Spin (fun _ => ret) else Goto Full).

(** The thread calls pthread_once; its init routine may be cancelled before it
    has done its work, which runs the cleanup and ends the thread. *)
Definition body (_ : Z) (x : label) : prog :=
  match x with
  | Start => pthread_once (Goto Returned)
  | Full => once_full (Goto Returned)
  | WaitSpin n => wait_spin n 3 (Goto Full)
  | WaitLoop => wait_loop 3 (Goto Full)
  | Running =>
      Do Choose (fun c => if c =? 0 then Do (FetchAdd runs 1) (fun _ => Goto Finish) else Goto Undo)
  | Finish => once_finish (Goto Returned)
  | Undo => undo (Goto Gone)
  | Returned => Goto Returned
  | Gone => Goto Gone
  end.

(** The counts: running init; having finished it but not yet published; returned. *)
Definition own (x : label) : ghost :=
  match x with
  | Running | Undo => (1, 0, 0)
  | Finish => (1, 1, 0)
  | Returned => (0, 0, 1)
  | _ => no_ghost
  end.

Definition gok (g : ghost) : Prop := unit_ok g /\ g2 g <= g1 g.

Definition Inv (m : ints) (gs : list (Z * ghost)) : Prop :=
  let a := total g1 gs in let b := total g2 gs in let c := total g3 gs in
  (m control = 0 /\ a = 0 /\ b = 0 /\ c = 0 /\ m runs = 0) \/
  ((m control = 1 \/ m control = 3) /\ a = 1 /\ c = 0 /\ m runs = b /\ 0 <= b <= 1) \/
  (m control = 2 /\ a = 0 /\ b = 0 /\ m runs = 1).

Lemma once_Inv_perm m gs gs' : Permutation gs gs' -> Inv m gs -> Inv m gs'.
Proof. intros Hp. unfold Inv. now rewrite !(total_perm _ _ _ Hp). Qed.

Lemma gok_totals gs :
  Forall (fun h => gok (snd h)) gs ->
  0 <= total g2 gs <= total g1 gs /\ 0 <= total g3 gs.
Proof.
  induction 1 as [|[i g] gs [(H1 & H2 & H3) H4] H IH]; cbn [total] in *; [lia|].
  cbn [snd] in *. lia.
Qed.

Section Proof.
Variable limit : nat.
Abbreviation wp := (@wp label Inv gok limit (fun _ => True) own).

Lemma own_ok x : gok (own x).
Proof. destruct x; unfold gok, unit_ok; cbn; lia. Qed.

Lemma once_wp_pure i o k x :
  frame_op (fun a => (a =? control) || (a =? runs)) o = true ->
  (forall r, wp i (k r) (own x)) -> wp i (Do o k) (own x).
Proof.
  apply wp_frame; [|apply own_ok]. intros m gs a v Ha. unfold Inv.
  rewrite !mset_ne by lia. auto.
Qed.

(** Handing over: the runner publishes 2, or 0 after a cancellation. *)
Lemma once_wp_swap i v k x y :
  own x = (1, (if v =? 2 then 1 else 0), 0) -> v = 2 \/ v = 0 ->
  own y = (0, 0, if v =? 2 then 1 else 0) -> (forall r, wp i (k r) (own y)) ->
  wp i (Do (Swap control v) k) (own x).
Proof.
  intros Hx Hv Hy Hk m c others Hok _ Hinv. exists (own y). split; [apply own_ok|].
  split; [|apply Hk]. cbn [exec fst snd]. pose proof (gok_totals others Hok) as T.
  unfold Inv in *. rewrite mset_eq, mset_ne by (unfold control, runs; lia).
  rewrite Hx in Hinv. rewrite Hy. cbn [total g1 g2 g3 fst snd] in *.
  destruct Hv as [-> | ->]; cbn [Z.eqb Pos.eqb] in *.
  - change (2 =? 2) with true in *. cbv iota in *. lia.
  - change (0 =? 2) with false in *. cbv iota in *. lia.
Qed.

(** A thread that sees 2 may return. *)
Lemma Inv_return m i others :
  m control = 2 -> Inv m ((i, no_ghost) :: others) -> Inv m ((i, own Returned) :: others).
Proof. unfold Inv. cbn [own no_ghost total g1 g2 g3 fst snd]. lia. Qed.

Lemma once_body_ok i x : wp i (body i x) (own x).
Proof.
  assert (Hno : own Full = no_ghost) by reflexivity.
  destruct x; cbn [body].
  - (* Start *)
    intros m c others Hok _ Hinv. cbn [exec fst snd].
    destruct (Z.eqb_spec (m control) 2) as [E|E].
    + exists (own Returned). split; [apply own_ok|]. split; [now apply Inv_return|].
      apply (once_wp_pure i _ _ Returned); [reflexivity|]. now split.
    + exists no_ghost. split; [apply (own_ok Start)|]. split; [assumption|now split].
  - (* Full *)
    intros m c others Hok _ Hinv. cbn [exec fst snd].
    destruct (Z.eqb_spec (m control) 0) as [E0|E0].
    { exists (own Running). split; [apply own_ok|]. split; [|now split].
      unfold Inv in *. rewrite mset_eq, mset_ne by (unfold control, runs; lia).
      cbn [own no_ghost total g1 g2 g3 fst snd] in *. lia. }
    destruct (Z.eqb_spec (m control) 2) as [E2|E2].
    { rewrite E2. exists (own Returned). split; [apply own_ok|].
      split; [now apply Inv_return|]. change (2 =? 1) with false. change (2 =? 3) with false.
      now split. }
    exists no_ghost. split; [apply (own_ok Start)|]. split; [assumption|].
    destruct (Z.eqb_spec (m control) 1) as [E1|E1].
    { clear m c others Hok Hinv E0 E2 E1. intros m c others Hok _ Hinv. exists no_ghost.
      split; [apply (own_ok Start)|]. split; [|now split]. cbn [exec fst snd].
      destruct (Z.eqb_spec (m control) 1); [|assumption].
      unfold Inv in *. rewrite mset_eq, mset_ne by (unfold control, runs; lia). lia. }
    destruct (Z.eqb_spec (m control) 3); now split.
  - destruct n as [|n]; cbn [wait_spin]; [now split|].
    apply (once_wp_pure i _ _ Full); [reflexivity|]. intros v. case_if; [|now split].
    apply (once_wp_pure i _ _ Full); [reflexivity|]. now split.
  - apply (once_wp_pure i _ _ Full); [reflexivity|]. intros v. case_if; [|now split].
    apply (once_wp_pure i _ _ Full); [reflexivity|]. now split.
  - (* Running *)
    apply (once_wp_pure i _ _ Running); [reflexivity|]. intros c. case_if; [|now split].
    intros m c' others Hok _ Hinv. exists (own Finish). split; [apply own_ok|].
    split; [|now split]. cbn [exec fst snd]. pose proof (gok_totals others Hok) as T.
    unfold Inv in *. rewrite mset_ne, mset_eq by (unfold control, runs; lia).
    cbn [own total g1 g2 g3 fst snd] in *. rewrite s32_small by lia. lia.
  - apply (once_wp_swap i 2 _ Finish Returned); [reflexivity|now left|reflexivity|].
    intros r. case_if; [|now split]. apply (once_wp_pure i _ _ Returned); [reflexivity|]. now split.
  - apply (once_wp_swap i 0 _ Undo Gone); [reflexivity|now right|reflexivity|].
    intros r. case_if; [|now split]. apply (once_wp_pure i _ _ Gone); [reflexivity|]. now split.
  - now split.
  - now split.
Qed.
End Proof.

Definition initial (m : ints) (ids : list Z) : system label :=
  (m, map (fun i => (i, Goto Start)) ids).

Lemma once_sys_inv m ids s :
  m control = 0 -> m runs = 0 -> reachable body (initial m ids) s -> sys_inv Inv gok (length ids) (fun _ => True) own s.
Proof.
  intros Hm Hr0 Hr.
  apply (invariant_reachable body Inv once_Inv_perm gok (length ids) (fun _ => True) own
           (fun i x _ => once_body_ok (length ids) i x) m (map (fun i => (i, Start)) ids)).
  - apply Forall_forall. intros x _. split; [exact I|apply own_ok].
  - now rewrite length_map.
  - rewrite map_map. cbn [fst snd own]. unfold Inv. rewrite !total_none by reflexivity. lia.
  - rewrite map_map. exact Hr.
Qed.

(** C40. pthread_once: with any number of threads calling it on one control word,
    in every interleaving, with initialisation routines that may be cancelled
    (and then run again by another caller): at most one thread is ever inside the
    routine, the routine completes at most once, and a thread whose call has
    returned finds it completed exactly once. *)
Theorem once_exactly_once m ids s :
  m control = 0 -> m runs = 0 -> reachable body (initial m ids) s ->
  0 <= fst s runs <= 1 /\
  (forall i, In (i, Goto Returned) (snd s) -> fst s runs = 1) /\
  (forall l1 l2 l3 i j a b,
     snd s = l1 ++ (i, Goto a) :: l2 ++ (j, Goto b) :: l3 ->
     ~ (In a [Running; Finish; Undo] /\ In b [Running; Finish; Undo])).
Proof.
  intros Hm Hr0 Hr. pose proof (once_sys_inv m ids s Hm Hr0 Hr) as Hinv.
  assert (Hpos : forall g, gok g -> 0 <= g1 g /\ 0 <= g3 g) by (unfold gok, unit_ok; intros; lia).
  split; [|split].
  - destruct Hinv as (gs & _ & _ & Hi). unfold Inv in Hi. lia.
  - intros i Hin.
    destruct (at_label_total Inv gok (length ids) (fun _ => True) own g3 s i Returned)
      as (gs & Hi & _ & _ & Ht); [intros g Hg; apply Hpos, Hg|assumption..|].
    cbn in Ht. unfold Inv in Hi. lia.
  - intros l1 l2 l3 i j a b E [Ha Hb].
    destruct (two_at_labels Inv gok (length ids) (fun _ => True) own g1 s l1 i j l2 l3 a b)
      as (gs & Hi & Ht); [intros g Hg; apply Hpos, Hg|assumption..|].
    assert (Hone : forall x, In x [Running; Finish; Undo] -> g1 (own x) = 1).
    { intros x Hx. cbn in Hx. repeat destruct Hx as [<-|Hx]; reflexivity || contradiction. }
    rewrite (Hone a Ha), (Hone b Hb) in Ht. unfold Inv in Hi. lia.
Qed.

Lemma once_exactly_once_witness :
  fst (run body (repeat (0%nat, 0) 9) (initial (fun _ => 0) [11; 12])) runs = 1.
Proof.
  apply (once_exactly_once (fun _ => 0) [11; 12]
           (run body (repeat (0%nat, 0) 9) (initial (fun _ => 0) [11; 12])) eq_refl eq_refl)
    with (i := 11).
  - apply run_reachable. apply star_refl.
  - vm_compute. now left.
Defined.
End Once.
