(* ===== verification/Progress.v ===== *)
(** * Progress: calls that can always be finished

    Whatever the threads have done so far, what they have begun can be brought to an
    end: pthread_once of Locks, from every reachable state.  A thread that runs alone
    comes to a label ([drain]); at labels the invariant says how to go on. *)

From Stdlib Require Import ZArith Lia ZifyBool List Bool Permutation.
From S2P Require Import Prelude Threads Locks.
Import ListNotations.
Open Scope Z_scope.

(** ** Threads that run alone *)

Lemma star_trans {A} (R : A -> A -> Prop) a b c : star R a b -> star R b c -> star R a c.
Proof. intros H1 H2. induction H2 as [|b c d H2 IH Hd]; [assumption|]. eapply star_step; [now apply IH|assumption]. Qed.

Section Solo.
Context {label : Type}.
Variable body : Z -> label -> prog label.
Notation reach := (reachable body).

Definition at_labels (xs : list (Z * label)) : list (Z * prog label) := map (fun t => (fst t, Goto (snd t))) xs.

Lemma reach_step m i p m' p' l1 l2 s :
  tstep body i m p m' p' -> reach (m', l1 ++ (i, p') :: l2) s -> reach (m, l1 ++ (i, p) :: l2) s.
Proof. intros Hs Hr. eapply star_trans; [|exact Hr]. eapply star_step; [apply star_refl|]. now apply sys_step_intro. Qed.

(** To the next label. *)
Lemma drain p : forall m i l1 l2, exists m' x, reach (m, l1 ++ (i, p) :: l2) (m', l1 ++ (i, Goto x) :: l2).
Proof.
  induction p as [o k IH|x]; intros m i l1 l2; [|exists m, x; apply star_refl].
  destruct (IH (fst (exec o m 0)) (snd (exec o m 0)) i l1 l2) as (m' & x & Hr). exists m', x.
  exact (reach_step _ _ _ _ _ _ _ _ (tstep_do body i m o k 0) Hr).
Qed.

Lemma drain_all ts : forall m pre, exists m' xs, reach (m, at_labels pre ++ ts) (m', at_labels (pre ++ xs)).
Proof.
  induction ts as [|[i p] ts IH]; intros m pre; [exists m, []; rewrite !app_nil_r; apply star_refl|].
  destruct (drain p m i (at_labels pre) ts) as (m1 & x & H1). destruct (IH m1 (pre ++ [(i, x)])) as (m' & xs & H2).
  exists m', ((i, x) :: xs). eapply star_trans; [exact H1|]. unfold at_labels in *. rewrite map_app, <- app_assoc in H2. cbn in H2.
  now rewrite <- app_assoc in H2.
Qed.

End Solo.

(** ** pthread_once *)

Module OnceProgress.
Import Once.

Notation reach := (reachable body).

(** The call is over: it has returned, or its routine was cancelled. *)
Definition over (x : label) : bool := match x with Returned | Gone => true | _ => false end.

Fixpoint open_calls (xs : list (Z * label)) : nat :=
  match xs with [] => 0 | (_, x) :: xs => (if over x then 0 else 1) + open_calls xs end.

Lemma open_calls_app xs ys : open_calls (xs ++ ys) = (open_calls xs + open_calls ys)%nat.
Proof. induction xs as [|[i x] xs IH]; cbn; lia. Qed.

Section Solo.
Variables (i : Z) (l1 l2 : list (Z * prog)).
Notation solo m x m' y := (reach (m, l1 ++ (i, Goto x) :: l2) (m', l1 ++ (i, Goto y) :: l2)).

Ltac go c := eapply (reach_step body); [first [apply (tstep_do body i _ _ _ c)|apply (tstep_goto body i)]|];
  cbn [body exec fst snd pthread_once once_full once_finish undo wait_spin wait_loop].

(** Once the routine has run every call returns. *)
Lemma full_returns m : m control = 2 -> solo m Full m Returned.
Proof. intros E. go 0. go 0. rewrite E. cbn. apply star_refl. Qed.

Lemma late_returns m x : m control = 2 -> over x = false -> ~ In x [Running; Finish; Undo] -> solo m x m Returned.
Proof.
  intros E Hx Hn. destruct x as [| |n| | | | | |]; try discriminate; try (destruct Hn; cbn; tauto).
  - go 0. go 0. rewrite E. cbn. go 0. apply star_refl.
  - now apply full_returns.
  - go 0. destruct n as [|n]; cbn.
    + go 0. go 0. rewrite E. cbn. now apply full_returns.
    + go 0. rewrite E. cbn. now apply full_returns.
  - go 0. go 0. rewrite E. cbn. now apply full_returns.
Qed.

(** The routine, to its end. *)
Lemma running_ends m x : In x [Running; Finish; Undo] -> exists m' y, solo m x m' y /\ over y = true.
Proof.
  intros Hx.
  assert (HF : forall m, exists m' y, solo m Finish m' y /\ over y = true).
  { intros m0. eexists _, Returned. split; [|reflexivity]. go 0. go 0. destruct (m0 control =? 3); [go 0|]; apply star_refl. }
  cbn in Hx. destruct Hx as [<-|[<-|[<-|[]]]]; [|apply HF|].
  - destruct (HF (mset m runs (s32 (m runs + 1)))) as (m' & y & Hr & Hy). exists m', y. split; [|assumption].
    go 0. go 0. cbn. go 0. exact Hr.
  - eexists _, Gone. split; [|reflexivity]. go 0. go 0. destruct (m control =? 3); [go 0|]; apply star_refl.
Qed.

(** Nobody is in the routine: the thread runs it. *)
Lemma first_returns m x : m control = 0 -> over x = false -> ~ In x [Running; Finish; Undo] -> exists m' y, solo m x m' y /\ over y = true.
Proof.
  intros E Hx Hn.
  assert (HF : exists m' y, solo m Full m' y /\ over y = true).
  { destruct (running_ends (mset m control 1) Running ltac:(now left)) as (m' & y & Hr & Hy). exists m', y. split; [|assumption].
    go 0. go 0. rewrite E. cbn. exact Hr. }
  destruct HF as (m' & y & Hr & Hy). exists m', y. split; [|assumption].
  destruct x as [| |n| | | | | |]; try discriminate; try (destruct Hn; cbn; tauto).
  - go 0. go 0. rewrite E. cbn. exact Hr.
  - exact Hr.
  - go 0. destruct n as [|n]; cbn.
    + go 0. go 0. rewrite E. cbn. exact Hr.
    + go 0. rewrite E. cbn. exact Hr.
  - go 0. go 0. rewrite E. cbn. exact Hr.
Qed.
End Solo.

(** One more call comes to its end. *)
Lemma one_over m xs :
  Inv m (map (fun t => (fst t, own (snd t))) xs) -> open_calls xs <> O ->
  exists m' ys, reach (m, at_labels xs) (m', at_labels ys) /\ (open_calls ys < open_calls xs)%nat.
Proof.
  intros HI Hopen.
  assert (Hmove : forall l1 i x l2 m' y, xs = l1 ++ (i, x) :: l2 -> over x = false -> over y = true ->
    reach (m, at_labels l1 ++ (i, Goto x) :: at_labels l2) (m', at_labels l1 ++ (i, Goto y) :: at_labels l2) ->
    exists m' ys, reach (m, at_labels xs) (m', at_labels ys) /\ (open_calls ys < open_calls xs)%nat).
  { intros l1 i x l2 m' y -> Hx Hy Hr. exists m', (l1 ++ (i, y) :: l2). split; [unfold at_labels in *; now rewrite !map_app|].
    rewrite !open_calls_app. cbn [open_calls]. rewrite Hx, Hy. lia. }
  (* somebody in the routine *)
  destruct (Exists_dec (fun t : Z * label => In (snd t) [Running; Finish; Undo]) xs) as [Hin|Hno].
  { intros [j x]. cbn. destruct x; first [left; tauto|right; intuition discriminate]. }
  - apply Exists_exists in Hin as ([j x] & Hin & Hx). apply in_split in Hin as (l1 & l2 & E).
    destruct (running_ends j (at_labels l1) (at_labels l2) m x Hx) as (m' & y & Hr & Hy).
    apply (Hmove l1 j x l2 m' y E); try assumption. cbn in Hx. now destruct Hx as [<-|[<-|[<-|[]]]].
  - assert (Hn : forall t, In t xs -> ~ In (snd t) [Running; Finish; Undo]) by (intros t Ht Hr; apply Hno, Exists_exists; eauto).
    assert (Hfirst : exists l1 j x l2, xs = l1 ++ (j, x) :: l2 /\ over x = false).
    { clear HI Hmove Hno Hn. induction xs as [|[j x] l IH]; cbn in Hopen; [now destruct Hopen|].
      destruct (over x) eqn:Ex; [|now exists [], j, x, l]. destruct IH as (l1 & k & y & l2 & -> & Hy); [exact Hopen|].
      now exists ((j, x) :: l1), k, y, l2. }
    destruct Hfirst as (l1 & j & x & l2 & E & Hx). assert (Hxr : ~ In x [Running; Finish; Undo]) by (apply (Hn (j, x)); rewrite E; apply in_or_app; right; now left).
    assert (Ht : total g1 (map (fun t => (fst t, own (snd t))) xs) = 0).
    { clear -Hn. induction xs as [|[k y] l IH]; cbn [map total]; [reflexivity|]. rewrite IH by (intros t Ht; apply Hn; now right).
      specialize (Hn (k, y) (or_introl eq_refl)). cbn in Hn. destruct y; cbn; try lia; destruct Hn; tauto. }
    assert (Hc : m control = 0 \/ m control = 2) by (unfold Inv in HI; lia).
    destruct Hc as [Hc|Hc].
    + destruct (first_returns j (at_labels l1) (at_labels l2) m x Hc Hx Hxr) as (m' & y & Hr & Hy). now apply (Hmove l1 j x l2 m' y).
    + apply (Hmove l1 j x l2 m Returned E); try assumption; [reflexivity|]. now apply late_returns.
Qed.

Lemma all_over m0 ids m xs :
  m0 control = 0 -> m0 runs = 0 -> reach (initial m0 ids) (m, at_labels xs) ->
  exists m' ys, reach (m, at_labels xs) (m', at_labels ys) /\ open_calls ys = O.
Proof.
  intros Hc Hr0. remember (open_calls xs) as k eqn:Ek. revert m xs Ek. induction k as [k IH] using lt_wf_ind. intros m xs -> Hr.
  destruct (Nat.eq_dec (open_calls xs) 0) as [E|E]; [exists m, xs; split; [apply star_refl|exact E]|].
  pose proof (once_sys_inv m0 ids _ Hc Hr0 Hr) as HS.
  pose proof (all_at_labels Inv gok (length ids) (fun _ => True) own (m, at_labels xs) xs HS eq_refl) as HI.
  destruct (one_over m xs HI E) as (m1 & ys & H1 & Hlt).
  destruct (IH (open_calls ys) Hlt m1 ys eq_refl) as (m' & zs & H2 & Hz); [now eapply star_trans; [exact Hr|]|].
  exists m', zs. split; [now eapply star_trans; [exact H1|]|exact Hz].
Qed.

Lemma open_calls_none xs : open_calls xs = O -> forall i x, In (i, x) xs -> x = Returned \/ x = Gone.
Proof.
  induction xs as [|[j y] xs IH]; cbn; [tauto|]. intros E i x [[= -> ->]|Hin].
  - destruct x; cbn in E; try lia; auto.
  - apply (IH ltac:(lia) i x Hin).
Qed.


End OnceProgress.
