(* ===== verification/Hash.v ===== *)
(** * Hash: the hash functions behind crypt

    Models the SHA-256, SHA-512 and MD5 implementations of
    src/crypt/crypt_sha256.c, crypt_sha512.c and crypt_md5.c: the block
    functions with their word operations, and the streaming context (length,
    state, partial block) with its init, update, pad and sum.

    The three files have the same streaming code up to the block size, the
    padding limit, the length field and the byte order, which are the fields of
    a [hash_alg]; Module Sha256, Sha512 and Md5 give the values and the block
    functions.  The theorems compare with the standards (FIPS 180-4, RFC 1321),
    stated with their own functions on whole messages.  A message is a list of
    bytes. *)

From Stdlib Require Import ZArith Lia ZifyBool List Bool.
From S2P Require Import Prelude.
Import ListNotations.
Open Scope Z_scope.

(** ** The streaming context *)

(** struct sha256, sha512, md5. *)
Record ctx : Type := mk_ctx { c_len : Z; c_h : list Z; c_buf : list Z }.

(** What differs between the three files. *)
Record hash_alg : Type := mk_alg {
  block : nat;                             (** bytes in a block *)
  limit : nat;                             (** where padding needs a new block *)
  len_at : nat;                            (** where the 64-bit length goes *)
  len_bytes : Z -> list Z;                 (** its eight bytes *)
  init_h : list Z;
  compress : list Z -> list Z -> list Z;   (** processblock: state and block *)
  out_bytes : Z -> list Z                  (** a word of the digest *)
}.

Section Streaming.
Variable A : hash_alg.

(** memcpy or memset into the buffer at [r]. *)
Definition splice (buf : list Z) (r : nat) (l : list Z) : list Z :=
  firstn r buf ++ l ++ skipn (r + length l) buf.

(** processblock(s, b). *)
Definition run_block (s : ctx) (b : list Z) : ctx :=
  mk_ctx (c_len s) (compress A (c_h s) b) (c_buf s).

Definition set_buf (s : ctx) (b : list Z) : ctx := mk_ctx (c_len s) (c_h s) b.

Definition residue (s : ctx) : nat := Z.to_nat (c_len s mod Z.of_nat (block A)).

Definition hash_init (buf : list Z) : ctx := mk_ctx 0 (init_h A) buf.

(** for (; len >= block; len -= block, p += block) processblock(s, p); *)
Fixpoint absorb (fuel : nat) (s : ctx) (p : list Z) : ctx * list Z :=
  match fuel with
  | O => (s, p)
  | S fuel =>
      if (block A <=? length p)%nat
      then absorb fuel (run_block s (firstn (block A) p)) (skipn (block A) p)
      else (s, p)
  end.

Definition hash_update (s : ctx) (m : list Z) : ctx :=
  let r := residue s in
  let s := mk_ctx (u64 (c_len s + Z.of_nat (length m))) (c_h s) (c_buf s) in
  let finish s p :=
    let '(s, p) := absorb (length p) s p in set_buf s (splice (c_buf s) 0 p) in
  if negb (r =? 0)%nat then
    if (length m <? block A - r)%nat then set_buf s (splice (c_buf s) r m)
    else
      let s := set_buf s (splice (c_buf s) r (firstn (block A - r) m)) in
      finish (run_block s (c_buf s)) (skipn (block A - r) m)
  else finish s m.

Definition pad (s : ctx) : ctx :=
  let r := residue s in
  let s := set_buf s (splice (c_buf s) r [128]) in
  let r := S r in
  let '(s, r) :=
    if (limit A <? r)%nat then
      let s := set_buf s (splice (c_buf s) r (repeat 0 (block A - r))) in
      (run_block s (c_buf s), O)
    else (s, r) in
  let s := set_buf s (splice (c_buf s) r (repeat 0 (len_at A - r))) in
  let s := mk_ctx (u64 (c_len s * 8)) (c_h s) (c_buf s) in
  let s := set_buf s (splice (c_buf s) (len_at A) (len_bytes A (c_len s))) in
  run_block s (c_buf s).

Definition hash_sum (s : ctx) : list Z := flat_map (out_bytes A) (c_h (pad s)).
End Streaming.

(** The bytes of a 64-bit or 32-bit value, from the high or the low end. *)
Definition bytes_be (n : nat) (v : Z) : list Z :=
  map (fun i => u8 (Z.shiftr v (8 * (Z.of_nat n - 1 - Z.of_nat i)))) (seq 0 n).
Definition bytes_le (n : nat) (v : Z) : list Z :=
  map (fun i => u8 (Z.shiftr v (8 * Z.of_nat i))) (seq 0 n).

(** W[i] = buf[n*i]<<.. | ..: a word from [n] bytes at [off]. *)
Definition word_be (n : nat) (buf : list Z) (off : nat) : Z :=
  fold_left (fun acc k => Z.lor acc (Z.shiftl (nth (off + k) buf 0) (8 * (Z.of_nat n - 1 - Z.of_nat k))))
            (seq 0 n) 0.
Definition word_le (n : nat) (buf : list Z) (off : nat) : Z :=
  fold_left (fun acc k => Z.lor acc (Z.shiftl (nth (off + k) buf 0) (8 * Z.of_nat k))) (seq 0 n) 0.

(** ** The SHA-2 block function *)

Section Sha2.
(** The word size in bits, the constants and the amounts of the rotations. *)
Variables (w : Z) (K : list Z).
Variables (s0 s1 r0 r1 : Z * Z * Z).

Definition wrap (x : Z) : Z := x mod 2 ^ w.
Definition ror (n k : Z) : Z := Z.lor (Z.shiftr n k) (wrap (Z.shiftl n (w - k))).
Definition Ch (x y z : Z) : Z := Z.lxor z (Z.land x (Z.lxor y z)).
Definition Maj (x y z : Z) : Z := Z.lor (Z.land x y) (Z.land z (Z.lor x y)).
Definition big_sigma (r : Z * Z * Z) (x : Z) : Z :=
  let '(a, b, c) := r in Z.lxor (Z.lxor (ror x a) (ror x b)) (ror x c).
Definition small_sigma (r : Z * Z * Z) (x : Z) : Z :=
  let '(a, b, c) := r in Z.lxor (Z.lxor (ror x a) (ror x b)) (Z.shiftr x c).
Definition S0 := big_sigma s0.
Definition S1 := big_sigma s1.
Definition R0 := small_sigma r0.
Definition R1 := small_sigma r1.

(** The loop that extends W. *)
Fixpoint extend (n : nat) (W : list Z) : list Z :=
  match n with
  | O => W
  | S n =>
      let i := length W in
      extend n (W ++ [wrap (wrap (wrap (R1 (nth (i - 2) W 0) + nth (i - 7) W 0)
                                  + R0 (nth (i - 15) W 0)) + nth (i - 16) W 0)])
  end.

Definition work : Type := Z * Z * Z * Z * Z * Z * Z * Z.

Definition round (v : work) (i : nat) (W : list Z) : work :=
  let '(a, b, c, d, e, f, g, h) := v in
  let t1 := wrap (wrap (wrap (wrap (h + S1 e) + Ch e f g) + nth i K 0) + nth i W 0) in
  let t2 := wrap (S0 a + Maj a b c) in
  (wrap (t1 + t2), a, b, c, wrap (d + t1), e, f, g).

Definition sha2_processblock (hs buf : list Z) : list Z :=
  let W := extend (length K - 16)
             (map (fun i => word_be (Z.to_nat (w / 8)) buf (Z.to_nat (w / 8) * i)) (seq 0 16)) in
  let n i := nth i hs 0 in
  let v := fold_left (fun v i => round v i W) (seq 0 (length K))
             (n 0%nat, n 1%nat, n 2%nat, n 3%nat, n 4%nat, n 5%nat, n 6%nat, n 7%nat) in
  let '(a, b, c, d, e, f, g, h) := v in
  [wrap (n 0%nat + a); wrap (n 1%nat + b); wrap (n 2%nat + c); wrap (n 3%nat + d);
   wrap (n 4%nat + e); wrap (n 5%nat + f); wrap (n 6%nat + g); wrap (n 7%nat + h)].
End Sha2.

Module Sha256.
(** The rows of the table. *)
Definition K : list Z := concat
  [[0x428a2f98; 0x71374491; 0xb5c0fbcf; 0xe9b5dba5; 0x3956c25b; 0x59f111f1; 0x923f82a4; 0xab1c5ed5];
   [0xd807aa98; 0x12835b01; 0x243185be; 0x550c7dc3; 0x72be5d74; 0x80deb1fe; 0x9bdc06a7; 0xc19bf174];
   [0xe49b69c1; 0xefbe4786; 0x0fc19dc6; 0x240ca1cc; 0x2de92c6f; 0x4a7484aa; 0x5cb0a9dc; 0x76f988da];
   [0x983e5152; 0xa831c66d; 0xb00327c8; 0xbf597fc7; 0xc6e00bf3; 0xd5a79147; 0x06ca6351; 0x14292967];
   [0x27b70a85; 0x2e1b2138; 0x4d2c6dfc; 0x53380d13; 0x650a7354; 0x766a0abb; 0x81c2c92e; 0x92722c85];
   [0xa2bfe8a1; 0xa81a664b; 0xc24b8b70; 0xc76c51a3; 0xd192e819; 0xd6990624; 0xf40e3585; 0x106aa070];
   [0x19a4c116; 0x1e376c08; 0x2748774c; 0x34b0bcb5; 0x391c0cb3; 0x4ed8aa4a; 0x5b9cca4f; 0x682e6ff3];
   [0x748f82ee; 0x78a5636f; 0x84c87814; 0x8cc70208; 0x90befffa; 0xa4506ceb; 0xbef9a3f7; 0xc67178f2]].
Definition h0 : list Z :=
  [0x6a09e667; 0xbb67ae85; 0x3c6ef372; 0xa54ff53a; 0x510e527f; 0x9b05688c; 0x1f83d9ab;
   0x5be0cd19].

Definition processblock : list Z -> list Z -> list Z :=
  sha2_processblock 32 K (2, 13, 22) (6, 11, 25) (7, 18, 3) (17, 19, 10).
Definition alg : hash_alg :=
  mk_alg 64 56 56 (bytes_be 8) h0 processblock (bytes_be 4).
Definition sha256_init := hash_init alg.
Definition sha256_update := hash_update alg.
Definition sha256_sum := hash_sum alg.
End Sha256.

Module Sha512.
Definition K : list Z :=
  [0x428a2f98d728ae22; 0x7137449123ef65cd; 0xb5c0fbcfec4d3b2f; 0xe9b5dba58189dbbc;
   0x3956c25bf348b538; 0x59f111f1b605d019; 0x923f82a4af194f9b; 0xab1c5ed5da6d8118;
   0xd807aa98a3030242; 0x12835b0145706fbe; 0x243185be4ee4b28c; 0x550c7dc3d5ffb4e2;
   0x72be5d74f27b896f; 0x80deb1fe3b1696b1; 0x9bdc06a725c71235; 0xc19bf174cf692694;
   0xe49b69c19ef14ad2; 0xefbe4786384f25e3; 0x0fc19dc68b8cd5b5; 0x240ca1cc77ac9c65;
   0x2de92c6f592b0275; 0x4a7484aa6ea6e483; 0x5cb0a9dcbd41fbd4; 0x76f988da831153b5;
   0x983e5152ee66dfab; 0xa831c66d2db43210; 0xb00327c898fb213f; 0xbf597fc7beef0ee4;
   0xc6e00bf33da88fc2; 0xd5a79147930aa725; 0x06ca6351e003826f; 0x142929670a0e6e70;
   0x27b70a8546d22ffc; 0x2e1b21385c26c926; 0x4d2c6dfc5ac42aed; 0x53380d139d95b3df;
   0x650a73548baf63de; 0x766a0abb3c77b2a8; 0x81c2c92e47edaee6; 0x92722c851482353b;
   0xa2bfe8a14cf10364; 0xa81a664bbc423001; 0xc24b8b70d0f89791; 0xc76c51a30654be30;
   0xd192e819d6ef5218; 0xd69906245565a910; 0xf40e35855771202a; 0x106aa07032bbd1b8;
   0x19a4c116b8d2d0c8; 0x1e376c085141ab53; 0x2748774cdf8eeb99; 0x34b0bcb5e19b48a8;
   0x391c0cb3c5c95a63; 0x4ed8aa4ae3418acb; 0x5b9cca4f7763e373; 0x682e6ff3d6b2b8a3;
   0x748f82ee5defb2fc; 0x78a5636f43172f60; 0x84c87814a1f0ab72; 0x8cc702081a6439ec;
   0x90befffa23631e28; 0xa4506cebde82bde9; 0xbef9a3f7b2c67915; 0xc67178f2e372532b;
   0xca273eceea26619c; 0xd186b8c721c0c207; 0xeada7dd6cde0eb1e; 0xf57d4f7fee6ed178;
   0x06f067aa72176fba; 0x0a637dc5a2c898a6; 0x113f9804bef90dae; 0x1b710b35131c471b;
   0x28db77f523047d84; 0x32caab7b40c72493; 0x3c9ebe0a15c9bebc; 0x431d67c49c100d4c;
   0x4cc5d4becb3e42b6; 0x597f299cfc657e2a; 0x5fcb6fab3ad6faec; 0x6c44198c4a475817].
Definition h0 : list Z :=
  [0x6a09e667f3bcc908; 0xbb67ae8584caa73b; 0x3c6ef372fe94f82b; 0xa54ff53a5f1d36f1;
   0x510e527fade682d1; 0x9b05688c2b3e6c1f; 0x1f83d9abfb41bd6b; 0x5be0cd19137e2179].

Definition processblock : list Z -> list Z -> list Z :=
  sha2_processblock 64 K (28, 34, 39) (14, 18, 41) (1, 8, 7) (19, 61, 6).
Definition alg : hash_alg :=
  mk_alg 128 112 120 (bytes_be 8) h0 processblock (bytes_be 8).
Definition sha512_init := hash_init alg.
Definition sha512_update := hash_update alg.
Definition sha512_sum := hash_sum alg.
End Sha512.

Module Md5.
Definition tab : list Z :=
  [0xd76aa478; 0xe8c7b756; 0x242070db; 0xc1bdceee; 0xf57c0faf; 0x4787c62a; 0xa8304613;
   0xfd469501; 0x698098d8; 0x8b44f7af; 0xffff5bb1; 0x895cd7be; 0x6b901122; 0xfd987193;
   0xa679438e; 0x49b40821; 0xf61e2562; 0xc040b340; 0x265e5a51; 0xe9b6c7aa; 0xd62f105d;
   0x02441453; 0xd8a1e681; 0xe7d3fbc8; 0x21e1cde6; 0xc33707d6; 0xf4d50d87; 0x455a14ed;
   0xa9e3e905; 0xfcefa3f8; 0x676f02d9; 0x8d2a4c8a; 0xfffa3942; 0x8771f681; 0x6d9d6122;
   0xfde5380c; 0xa4beea44; 0x4bdecfa9; 0xf6bb4b60; 0xbebfbc70; 0x289b7ec6; 0xeaa127fa;
   0xd4ef3085; 0x04881d05; 0xd9d4d039; 0xe6db99e5; 0x1fa27cf8; 0xc4ac5665; 0xf4292244;
   0x432aff97; 0xab9423a7; 0xfc93a039; 0x655b59c3; 0x8f0ccc92; 0xffeff47d; 0x85845dd1;
   0x6fa87e4f; 0xfe2ce6e0; 0xa3014314; 0x4e0811a1; 0xf7537e82; 0xbd3af235; 0x2ad7d2bb;
   0xeb86d391].
Definition h0 : list Z :=
  [0x67452301; 0xefcdab89; 0x98badcfe; 0x10325476].

Definition rol (n k : Z) : Z := Z.lor (u32 (Z.shiftl n k)) (Z.shiftr n (32 - k)).
Definition F (x y z : Z) : Z := Z.lxor z (Z.land x (Z.lxor y z)).
Definition G (x y z : Z) : Z := Z.lxor y (Z.land z (Z.lxor y x)).
Definition H (x y z : Z) : Z := Z.lxor (Z.lxor x y) z.
Definition I (x y z : Z) : Z := Z.lxor y (Z.lor x (u32 (Z.lnot z))).

(** FF, GG, HH, II: the new value of the first variable. *)
Definition step (f : Z -> Z -> Z -> Z) (a b c d w s t : Z) : Z :=
  let a := u32 (a + u32 (u32 (f b c d + w) + t)) in u32 (rol a s + b).

(** Four steps of a loop: the index of the word and the four rotations. *)
Definition four (f : Z -> Z -> Z -> Z) (index : nat -> nat) (s : Z * Z * Z * Z)
  (W : list Z) (v : Z * Z * Z * Z) (i : nat) : Z * Z * Z * Z :=
  let '(a, b, c, d) := v in
  let '(p, q, r, t) := s in
  let w i := nth (index i) W 0 in
  let k i := nth i tab 0 in
  let a := step f a b c d (w i) p (k i) in
  let i := S i in
  let d := step f d a b c (w i) q (k i) in
  let i := S i in
  let c := step f c d a b (w i) r (k i) in
  let i := S i in
  let b := step f b c d a (w i) t (k i) in
  (a, b, c, d).

Definition processblock (hs buf : list Z) : list Z :=
  let W := map (fun i => word_le 4 buf (4 * i)) (seq 0 16) in
  let n i := nth i hs 0 in
  let v := (n 0%nat, n 1%nat, n 2%nat, n 3%nat) in
  let fours k := map (fun j => (k + 4 * j)%nat) (seq 0 4) in
  let v := fold_left (four F (fun i => i) (7, 12, 17, 22) W) (fours 0%nat) v in
  let v := fold_left (four G (fun i => (5 * i + 1) mod 16)%nat (5, 9, 14, 20) W) (fours 16%nat) v in
  let v := fold_left (four H (fun i => (3 * i + 5) mod 16)%nat (4, 11, 16, 23) W) (fours 32%nat) v in
  let '(a, b, c, d) :=
    fold_left (four I (fun i => 7 * i mod 16)%nat (6, 10, 15, 21) W) (fours 48%nat) v in
  [u32 (n 0%nat + a); u32 (n 1%nat + b); u32 (n 2%nat + c); u32 (n 3%nat + d)].

Definition alg : hash_alg :=
  mk_alg 64 56 56 (bytes_le 8) h0 processblock (bytes_le 4).
Definition md5_init := hash_init alg.
Definition md5_update := hash_update alg.
Definition md5_sum := hash_sum alg.
End Md5.

(** ** The standards, on whole messages

    [enc] is the encoding of the message length in bits, which fills the last
    block from [limit] on. *)

Section Standard.
Variables (bs limit : nat) (enc : Z -> list Z).
Variables (h0 : list Z) (comp : list Z -> list Z -> list Z) (out : Z -> list Z).

(** The message, a one bit, the least number of zeros, the length. *)
Definition padded (msg : list Z) : list Z :=
  msg ++ [128] ++ repeat 0 ((limit + bs - S (length msg mod bs)) mod bs)
      ++ enc (8 * Z.of_nat (length msg)).

Fixpoint blocks (n : nat) (l : list Z) : list (list Z) :=
  match n with O => [] | S n => firstn bs l :: blocks n (skipn bs l) end.

Definition digest (msg : list Z) : list Z :=
  let p := padded msg in
  flat_map out (fold_left comp (blocks (length p / bs) p) h0).
End Standard.

Section Fips.
Variables (w : Z) (K : list Z).
Variables (s0 s1 r0 r1 : Z * Z * Z).

(** FIPS 180-4, sections 2.2.2 and 4.1: ROTR, Ch, Maj and the four sums. *)
Definition fips_rotr (n x : Z) : Z := Z.lor (x / 2 ^ n) ((x * 2 ^ (w - n)) mod 2 ^ w).
Definition fips_Ch (x y z : Z) : Z := Z.lxor (Z.land x y) (Z.land (Z.lnot x) z).
Definition fips_Maj (x y z : Z) : Z :=
  Z.lxor (Z.lxor (Z.land x y) (Z.land x z)) (Z.land y z).
Definition fips_Sigma (r : Z * Z * Z) (x : Z) : Z :=
  let '(a, b, c) := r in Z.lxor (Z.lxor (fips_rotr a x) (fips_rotr b x)) (fips_rotr c x).
Definition fips_sigma (r : Z * Z * Z) (x : Z) : Z :=
  let '(a, b, c) := r in Z.lxor (Z.lxor (fips_rotr a x) (fips_rotr b x)) (x / 2 ^ c).

(** The big-endian word of [n] bytes. *)
Fixpoint be_value (l : list Z) : Z :=
  match l with [] => 0 | b :: l => b * 256 ^ Z.of_nat (length l) + be_value l end.

(** Section 6.2.2, step 1: W_0 .. W_{t-1}, latest word first. *)
Fixpoint fips_schedule (M : list Z) (t : nat) : list Z :=
  match t with
  | O => rev M
  | S t =>
      let Ws := fips_schedule M t in
      ((fips_sigma r1 (nth 1 Ws 0) + nth 6 Ws 0 + fips_sigma r0 (nth 14 Ws 0) + nth 15 Ws 0)
         mod 2 ^ w) :: Ws
  end.

Definition fips_round (v : work) (kw : Z * Z) : work :=
  let '(a, b, c, d, e, f, g, h) := v in
  let '(k, x) := kw in
  let T1 := h + fips_Sigma s1 e + fips_Ch e f g + k + x in
  let T2 := fips_Sigma s0 a + fips_Maj a b c in
  ((T1 + T2) mod 2 ^ w, a, b, c, (d + T1) mod 2 ^ w, e, f, g).

Definition fips_compress (hs block : list Z) : list Z :=
  let n := Z.to_nat (w / 8) in
  let M := map be_value (blocks n 16 block) in
  let W := rev (fips_schedule M (length K - 16)) in
  let H i := nth i hs 0 in
  let '(a, b, c, d, e, f, g, h) :=
    fold_left fips_round (combine K W) (H 0%nat, H 1%nat, H 2%nat, H 3%nat, H 4%nat, H 5%nat, H 6%nat, H 7%nat) in
  map (fun p => (fst p + snd p) mod 2 ^ w)
      (combine (map H (seq 0 8)) [a; b; c; d; e; f; g; h]).
End Fips.

(** The Secure Hash Standard's SHA-256 and SHA-512. *)
Definition fips_sha256 : list Z -> list Z :=
  digest 64 56 (bytes_be 8) Sha256.h0
    (fips_compress 32 Sha256.K (2, 13, 22) (6, 11, 25) (7, 18, 3) (17, 19, 10)) (bytes_be 4).
Definition fips_sha512 : list Z -> list Z :=
  digest 128 112 (bytes_be 16) Sha512.h0
    (fips_compress 64 Sha512.K (28, 34, 39) (14, 18, 41) (1, 8, 7) (19, 61, 6)) (bytes_be 8).

(** RFC 1321: one of the 64 operations on (a, b, c, d); the registers rotate
    after it. *)
Definition rfc_F (x y z : Z) : Z := Z.lor (Z.land x y) (Z.land (Z.lnot x) z).
Definition rfc_G (x y z : Z) : Z := Z.lor (Z.land x z) (Z.land y (Z.lnot z)).
Definition rfc_H (x y z : Z) : Z := Z.lxor x (Z.lxor y z).
Definition rfc_I (x y z : Z) : Z := Z.lxor y (Z.lor x (Z.lnot z)).

Definition rfc_rotl (x s : Z) : Z := Z.lor ((x * 2 ^ s) mod 2 ^ 32) (x / 2 ^ (32 - s)).

(** The round's function, index of the word and amount of the rotation. *)
Definition rfc_params (i : nat) : (Z -> Z -> Z -> Z) * nat * Z :=
  let pick (l : list Z) := nth (i mod 4) l 0 in
  match (i / 16)%nat with
  | 0%nat => (rfc_F, i, pick [7; 12; 17; 22])
  | 1%nat => (rfc_G, ((5 * i + 1) mod 16)%nat, pick [5; 9; 14; 20])
  | 2%nat => (rfc_H, ((3 * i + 5) mod 16)%nat, pick [4; 11; 16; 23])
  | _ => (rfc_I, (7 * i mod 16)%nat, pick [6; 10; 15; 21])
  end.

Definition rfc_operation (X : list Z) (v : Z * Z * Z * Z) (i : nat) : Z * Z * Z * Z :=
  let '(a, b, c, d) := v in
  let '(f, k, s) := rfc_params i in
  let t := (a + f b c d + nth k X 0 + nth i Md5.tab 0) mod 2 ^ 32 in
  (d, (b + rfc_rotl t s) mod 2 ^ 32, b, c).

Definition rfc_compress (hs block : list Z) : list Z :=
  let X := map (fun l => be_value (rev l)) (blocks 4 16 block) in
  let H i := nth i hs 0 in
  let '(a, b, c, d) :=
    fold_left (rfc_operation X) (seq 0 64) (H 0%nat, H 1%nat, H 2%nat, H 3%nat) in
  map (fun p => (fst p + snd p) mod 2 ^ 32) (combine (map H (seq 0 4)) [a; b; c; d]).

Definition rfc_md5 : list Z -> list Z :=
  digest 64 56 (bytes_le 8) Md5.h0 rfc_compress (bytes_le 4).

(** ** Streaming *)

Section Splice.
Variables (buf l : list Z) (r : nat).
Hypothesis Hfit : (r + length l <= length buf)%nat.

Lemma splice_length : length (splice buf r l) = length buf.
Proof. unfold splice. rewrite !length_app, length_firstn, length_skipn. lia. Qed.

Lemma splice_prefix : firstn (r + length l) (splice buf r l) = firstn r buf ++ l.
Proof.
  unfold splice. rewrite app_assoc, firstn_app, firstn_all2.
  - rewrite length_app, length_firstn.
    replace (_ - _)%nat with O by lia. apply app_nil_r.
  - rewrite length_app, length_firstn. lia.
Qed.

Lemma splice_full : (r + length l)%nat = length buf -> splice buf r l = firstn r buf ++ l.
Proof.
  intros E. rewrite <- splice_prefix, E, firstn_all2; [reflexivity|].
  rewrite splice_length. lia.
Qed.
End Splice.

Lemma fold_left_snoc {X Y} (f : X -> Y -> X) l y a :
  fold_left f (l ++ [y]) a = f (fold_left f l a) y.
Proof. now rewrite fold_left_app. Qed.

Lemma blocks_concat bs n l tl :
  Forall (fun b : list Z => length b = bs) l ->
  blocks bs (length l + n) (concat l ++ tl) = l ++ blocks bs n tl.
Proof.
  induction 1 as [|b l Hb _ IH]; simpl; [reflexivity|].
  rewrite <- app_assoc, firstn_app, skipn_app, Hb, Nat.sub_diag.
  rewrite firstn_all2, skipn_all2 by lia. simpl. rewrite app_nil_r, IH. reflexivity.
Qed.

Lemma length_concat_blocks bs (l : list (list Z)) :
  Forall (fun b : list Z => length b = bs) l -> length (concat l) = (length l * bs)%nat.
Proof. induction 1; simpl; [reflexivity|]. rewrite length_app. lia. Qed.

(** What the streaming code needs of its parameters. *)
Record wf_alg (A : hash_alg) : Prop := {
  wa_div : (Z.of_nat (block A) | 18446744073709551616);
  wa_len : (len_at A + 8)%nat = block A;
  wa_limit : (limit A <= len_at A)%nat;
  wa_bytes v : length (len_bytes A v) = 8%nat
}.

Section StreamProof.
Variable A : hash_alg.
Hypothesis HA : wf_alg A.

Let Hdiv := wa_div _ HA.
Let Hlen := wa_len _ HA.
Let Hlimit := wa_limit _ HA.
Let Hbytes := wa_bytes _ HA.

(** [repr s msg]: the context after the bytes of [msg]. *)
Definition repr (s : ctx) (msg : list Z) : Prop :=
  exists (full : list (list Z)) (rest : list Z),
    msg = concat full ++ rest /\
    Forall (fun b : list Z => length b = block A) full /\ (length rest < block A)%nat /\
    c_len s = u64 (Z.of_nat (length msg)) /\
    c_h s = fold_left (compress A) full (init_h A) /\
    length (c_buf s) = block A /\ firstn (length rest) (c_buf s) = rest.

Lemma residue_spec s (full : list (list Z)) (rest : list Z) :
  Forall (fun b : list Z => length b = block A) full -> (length rest < block A)%nat ->
  c_len s = u64 (Z.of_nat (length (concat full ++ rest))) ->
  residue A s = length rest.
Proof.
  intros Hf Hr E. unfold residue. rewrite E. unfold u64.
  rewrite Z.mod_mod_divide by assumption.
  rewrite length_app, (length_concat_blocks (block A)) by assumption.
  rewrite Nat2Z.inj_add, Nat2Z.inj_mul, Z.add_comm, Z.mod_add, Z.mod_small by lia. lia.
Qed.

Lemma absorb_spec fuel s p :
  (length p <= fuel)%nat ->
  exists (full : list (list Z)) (rest : list Z),
    p = concat full ++ rest /\
    Forall (fun b : list Z => length b = block A) full /\ (length rest < block A)%nat /\
    absorb A fuel s p = (mk_ctx (c_len s) (fold_left (compress A) full (c_h s)) (c_buf s), rest).
Proof.
  revert s p; induction fuel as [|fuel IH]; intros s p Hp; simpl.
  - exists [], p. destruct s. repeat split; auto; lia.
  - destruct (Nat.leb_spec (block A) (length p)).
    + destruct (IH (run_block A s (firstn (block A) p)) (skipn (block A) p))
        as (full & rest & E & Hf & Hr & Ha); [rewrite length_skipn; lia|].
      exists (firstn (block A) p :: full), rest. repeat split; auto.
      * simpl. rewrite <- app_assoc, <- E. symmetry. apply firstn_skipn.
      * constructor; [|assumption]. rewrite length_firstn. lia.
    + exists [], p. destruct s. repeat split; auto.
Qed.

Lemma init_repr buf : length buf = block A -> repr (hash_init A buf) [].
Proof. intros H. exists [], []. simpl. repeat split; auto. lia. Qed.

(** The last part of update, from a context with no partial block. *)
Lemma finish_repr len (full : list (list Z)) s p msg :
  Forall (fun b : list Z => length b = block A) full ->
  c_h s = fold_left (compress A) full (init_h A) -> length (c_buf s) = block A ->
  msg = concat full ++ p -> c_len s = len -> len = u64 (Z.of_nat (length msg)) ->
  repr (let '(s, p) := absorb A (length p) s p in set_buf s (splice (c_buf s) 0 p)) msg.
Proof.
  intros Hf Hh Hb -> Hl El.
  destruct (absorb_spec (length p) s p (le_n _)) as (f2 & rest & E & Hf2 & Hr & ->).
  exists (full ++ f2), rest. simpl.
  rewrite concat_app, <- app_assoc, <- E, fold_left_app, <- Hh.
  repeat split; auto; [now apply Forall_app | congruence | |].
  - rewrite splice_length; lia.
  - exact (splice_prefix (c_buf s) rest 0 ltac:(lia)).
Qed.

Lemma update_repr s msg m : repr s msg -> repr (hash_update A s m) (msg ++ m).
Proof.
  intros (full & rest & -> & Hf & Hr & El & Hh & Hb & Hrest).
  unfold hash_update. rewrite (residue_spec s full rest) by assumption.
  assert (El' : u64 (c_len s + Z.of_nat (length m))
                = u64 (Z.of_nat (length ((concat full ++ rest) ++ m)))).
  { rewrite El, (length_app _ m), Nat2Z.inj_add. unfold u64.
    now rewrite Zplus_mod_idemp_l. }
  destruct (length rest =? 0)%nat eqn:E0; simpl negb; cbv iota.
  - apply Nat.eqb_eq, length_zero_iff_nil in E0. subst rest. rewrite app_nil_r in *.
    eapply finish_repr; eauto.
  - destruct (Nat.ltb_spec (length m) (block A - length rest)) as [Hlt|Hge].
    + exists full, (rest ++ m). simpl. rewrite app_assoc, length_app.
      repeat split; auto; [lia | |].
      * rewrite splice_length; lia.
      * rewrite splice_prefix by lia. now rewrite Hrest.
    + assert (Ef : length (firstn (block A - length rest) m) = (block A - length rest)%nat)
        by (rewrite length_firstn; lia).
      simpl. rewrite splice_full by lia. rewrite Hrest.
      set (b := rest ++ firstn (block A - length rest) m).
      assert (Hlb : length b = block A) by (unfold b; rewrite length_app; lia).
      eapply finish_repr with (full := full ++ [b]); simpl; eauto.
      * apply Forall_app. auto.
      * now rewrite fold_left_snoc, <- Hh.
      * rewrite concat_app. unfold b. simpl. rewrite <- !app_assoc. do 2 f_equal.
        simpl. symmetry. apply firstn_skipn.
Qed.

Lemma updates_repr chunks s msg :
  repr s msg -> repr (fold_left (hash_update A) chunks s) (msg ++ concat chunks).
Proof.
  revert s msg; induction chunks as [|m chunks IH]; intros s msg H; simpl.
  - now rewrite app_nil_r.
  - rewrite app_assoc. apply IH, update_repr, H.
Qed.

(** The bytes that pad puts after the message. *)
Definition padding (r : nat) (len : Z) : list Z :=
  [128] ++ repeat 0 ((limit A + block A - S r) mod block A)
        ++ repeat 0 (len_at A - limit A) ++ len_bytes A (u64 (len * 8)).

(** Zeros from [r] up to the length field, and the length. *)
Lemma last_block b r v :
  length b = block A -> (r <= len_at A)%nat ->
  splice (splice b r (repeat 0 (len_at A - r))) (len_at A) (len_bytes A v) =
  firstn r b ++ repeat 0 (len_at A - r) ++ len_bytes A v.
Proof.
  intros Hb Hr. rewrite splice_full.
  - replace (len_at A) with (r + length (repeat 0%Z (len_at A - r)))%nat at 1
      by (rewrite repeat_length; lia).
    rewrite splice_prefix, <- app_assoc; [reflexivity|]. rewrite repeat_length. lia.
  - rewrite splice_length; rewrite ?Hbytes, ?repeat_length; lia.
  - rewrite splice_length; rewrite ?Hbytes, ?repeat_length; lia.
Qed.

Lemma zeros_app a b c : (a + b)%nat = c -> repeat 0 a ++ repeat 0 b = repeat 0 c.
Proof. intros <-. symmetry. apply repeat_app. Qed.

Lemma pad_state s (rest : list Z) :
  residue A s = length rest -> (length rest < block A)%nat ->
  length (c_buf s) = block A -> firstn (length rest) (c_buf s) = rest ->
  exists n, length (rest ++ padding (length rest) (c_len s)) = (n * block A)%nat /\
    c_h (pad A s) =
    fold_left (compress A) (blocks (block A) n (rest ++ padding (length rest) (c_len s))) (c_h s).
Proof.
  intros Er Hr Hb Hrest. unfold pad, padding. rewrite Er.
  set (r := length rest) in *.
  assert (L1 : length (splice (c_buf s) r [128]) = block A)
    by (rewrite splice_length; simpl; lia).
  assert (F1 : firstn (S r) (splice (c_buf s) r [128]) = rest ++ [128]).
  { rewrite <- Nat.add_1_r. change 1%nat with (length [128]) at 1.
    rewrite splice_prefix by (simpl; lia). now rewrite Hrest. }
  cbn [set_buf c_buf]. set (b1 := splice (c_buf s) r [128]) in *.
  clearbody b1. destruct (Nat.ltb_spec (limit A) (S r)) as [Hlt|Hge];
    cbn [set_buf c_buf c_len c_h run_block].
  - rewrite (splice_full b1), F1 by (rewrite ?repeat_length; lia).
    set (b2 := (rest ++ [128]) ++ repeat 0 (block A - S r)).
    assert (L2 : length b2 = block A)
      by (unfold b2; rewrite !length_app, repeat_length; simpl; lia).
    rewrite last_block, Nat.sub_0_r, Nat.mod_small by lia. simpl firstn. rewrite app_nil_l.
    set (b3 := repeat 0 (len_at A) ++ len_bytes A (u64 (c_len s * 8))).
    assert (L3 : length b3 = block A) by (unfold b3; rewrite length_app, repeat_length, Hbytes; lia).
    exists 2%nat. replace (rest ++ _) with (concat [b2; b3] ++ []).
    + split; [simpl; rewrite !length_app; simpl; lia|].
      change 2%nat with (length [b2; b3] + 0)%nat.
      rewrite (blocks_concat (block A) 0) by auto. reflexivity.
    + unfold b2, b3. simpl. rewrite !app_nil_r, <- !app_assoc. simpl. do 2 f_equal.
      rewrite !(app_assoc (repeat 0 _)), !(zeros_app _ _ (block A - S r + len_at A)) by lia.
      reflexivity.
  - rewrite last_block, F1 by lia. exists 1%nat.
    replace ((limit A + block A - S r) mod block A)%nat with (limit A - S r)%nat.
    + rewrite <- app_assoc, (app_assoc (repeat 0 _)), (zeros_app _ _ (len_at A - S r)) by lia.
      set (b := rest ++ _). assert (L : length b = block A)
        by (unfold b; rewrite !length_app, repeat_length, Hbytes; simpl; lia).
      split; [lia|]. simpl. rewrite firstn_all2 by lia. reflexivity.
    + replace (limit A + block A - S r)%nat with ((limit A - S r) + 1 * block A)%nat by lia.
      rewrite Nat.Div0.mod_add, Nat.mod_small by lia. reflexivity.
Qed.

Lemma sum_state s msg :
  repr s msg -> 8 * Z.of_nat (length msg) < 18446744073709551616 ->
  let p := msg ++ padding (length msg mod block A) (Z.of_nat (length msg)) in
  c_h (pad A s) = fold_left (compress A) (blocks (block A) (length p / block A) p) (init_h A) /\
  exists n, length p = (n * block A)%nat.
Proof.
  intros (full & rest & -> & Hf & Hr & El & Hh & Hb & Hrest) Hsmall. cbv zeta.
  destruct (pad_state s rest) as (n & Hn & Hp); auto.
  { eapply residue_spec; eauto. }
  rewrite Hh in Hp. rewrite El, u64_small in Hn, Hp by lia.
  set (len := Z.of_nat (length (concat full ++ rest))) in *.
  replace (length (concat full ++ rest) mod block A)%nat with (length rest).
  - rewrite <- app_assoc.
    assert (E : length (concat full ++ rest ++ padding (length rest) len)
                = ((length full + n) * block A)%nat)
      by (rewrite length_app, Hn, (length_concat_blocks (block A)) by assumption; lia).
    rewrite E. split; [|eauto].
    rewrite Nat.div_mul, blocks_concat, fold_left_app by (assumption || lia). assumption.
  - rewrite length_app, (length_concat_blocks (block A)) by assumption.
    rewrite Nat.add_comm, Nat.Div0.mod_add, Nat.mod_small by lia. reflexivity.
Qed.
End StreamProof.

Lemma fold_left_ext_in {X Y} (f g : X -> Y -> X) (Q : Y -> Prop) l a :
  (forall a x, Q x -> f a x = g a x) -> Forall Q l -> fold_left f l a = fold_left g l a.
Proof.
  intros H Hl. revert a; induction Hl as [|y l Hy _ IH]; intro a; simpl; [reflexivity|].
  now rewrite H, IH.
Qed.

Definition is_byte (b : Z) : Prop := 0 <= b < 256.

Lemma blocks_forall (P : Z -> Prop) bs n l :
  length l = (n * bs)%nat -> Forall P l ->
  Forall (fun b : list Z => length b = bs /\ Forall P b) (blocks bs n l).
Proof.
  revert l; induction n as [|n IH]; intros l Hl HP; simpl; constructor.
  - rewrite length_firstn. split; [simpl in Hl; lia|].
    rewrite <- (firstn_skipn bs l) in HP. now apply Forall_app in HP.
  - apply IH; [rewrite length_skipn; simpl in Hl; lia|].
    rewrite <- (firstn_skipn bs l) in HP. now apply Forall_app in HP.
Qed.

(** The streaming code, whatever the chunks, computes the digest of the whole
    message. *)
Lemma hash_streams (A : hash_alg) enc comp chunks buf :
  wf_alg A -> length buf = block A ->
  let msg := concat chunks in
  8 * Z.of_nat (length msg) < 18446744073709551616 -> Forall is_byte msg ->
  (forall v, 0 <= v < 18446744073709551616 ->
     enc v = repeat 0 (len_at A - limit A) ++ len_bytes A v) ->
  (forall v, Forall is_byte (len_bytes A v)) ->
  (forall h b, length b = block A /\ Forall is_byte b -> compress A h b = comp h b) ->
  hash_sum A (fold_left (hash_update A) chunks (hash_init A buf)) =
  digest (block A) (limit A) enc (init_h A) comp (out_bytes A) msg.
Proof.
  intros HA Hb msg Hsmall Hbytes Henc Hlb Hcomp. unfold hash_sum, digest.
  assert (Hp : padded (block A) (limit A) enc msg
               = msg ++ padding A (length msg mod block A) (Z.of_nat (length msg))).
  { unfold padded, padding. rewrite Henc, u64_small, Z.mul_comm by lia.
    reflexivity. }
  destruct (sum_state A HA (fold_left (hash_update A) chunks (hash_init A buf)) msg)
    as [E [n Hn]]; [|assumption|].
  { exact (updates_repr A HA chunks _ [] (init_repr A HA buf Hb)). }
  rewrite Hp, E. f_equal. eapply fold_left_ext_in; [exact Hcomp|].
  rewrite Hn, Nat.div_mul by (pose proof (wa_len _ HA); lia).
  apply blocks_forall; [assumption|]. unfold padding, is_byte in *.
  rewrite !Forall_app. repeat split; auto; try (repeat constructor; lia).
  all: apply Forall_forall; intros x Hx; apply repeat_spec in Hx; lia.
Qed.

(** ** Words and bytes *)

Lemma be_value_range l :
  Forall is_byte l -> 0 <= be_value l < 2 ^ (8 * Z.of_nat (length l)).
Proof.
  induction 1 as [|b l Hb _ IH]; cbn [be_value length]; [lia|].
  rewrite Nat2Z.inj_succ, Z.mul_succ_r, Z.pow_add_r by lia.
  rewrite (Z.pow_mul_r 2 8) in * by lia. unfold is_byte in Hb. change (2 ^ 8) with 256 in *. nia.
Qed.

Lemma be_value_app l1 l2 :
  be_value (l1 ++ l2) = be_value l1 * 256 ^ Z.of_nat (length l2) + be_value l2.
Proof.
  induction l1 as [|b l1 IH]; cbn [be_value app]; [lia|].
  rewrite IH, length_app, Nat2Z.inj_add, Z.pow_add_r by lia. ring.
Qed.

Lemma nth_skipn_Z off k (l : list Z) : nth (off + k) l 0 = nth k (skipn off l) 0.
Proof. symmetry. apply nth_skipn. Qed.

Lemma word_le_value n buf off :
  Forall is_byte buf -> (off + n <= length buf)%nat ->
  word_le n buf off = be_value (rev (firstn n (skipn off buf))).
Proof.
  intros Hb. unfold word_le. induction n as [|n IH]; intros Hn; [reflexivity|].
  rewrite seq_S, fold_left_app, IH by lia. cbn [fold_left Nat.add].
  rewrite (firstn_S_nth _ _ 0) by (rewrite length_skipn; lia).
  rewrite rev_unit. cbn [be_value]. rewrite length_rev, length_firstn, length_skipn.
  replace (Nat.min n (length buf - off)) with n by lia.
  rewrite nth_skipn_Z, Z.lor_comm, Z.shiftl_mul_pow2 by lia.
  change 256 with (2 ^ 8). rewrite <- Z.pow_mul_r by lia. apply lor_add; [lia|].
  pose proof (be_value_range (rev (firstn n (skipn off buf)))) as Hr.
  rewrite length_rev, length_firstn, length_skipn in Hr.
  replace (Nat.min n (length buf - off)) with n in Hr by lia. apply Hr, Forall_rev.
  rewrite <- (firstn_skipn off buf) in Hb. apply Forall_app in Hb as [_ Hb].
  rewrite <- (firstn_skipn n (skipn off buf)) in Hb. now apply Forall_app in Hb.
Qed.

Lemma word_be_value n buf off :
  Forall is_byte buf -> (off + n <= length buf)%nat ->
  word_be n buf off = be_value (firstn n (skipn off buf)).
Proof.
  intros Hb Hn. unfold word_be.
  enough (H : forall m, (m <= n)%nat ->
    fold_left (fun acc k => Z.lor acc (Z.shiftl (nth (off + k) buf 0) (8 * (Z.of_nat n - 1 - Z.of_nat k))))
      (seq 0 m) 0 = be_value (firstn m (skipn off buf)) * 2 ^ (8 * Z.of_nat (n - m))).
  { rewrite H, Nat.sub_diag by lia. simpl. apply Z.mul_1_r. }
  induction m as [|m IH]; intros Hm; [reflexivity|].
  rewrite seq_S, fold_left_app, IH by lia. cbn [fold_left Nat.add].
  rewrite (firstn_S_nth _ _ 0) by (rewrite length_skipn; lia).
  rewrite be_value_app, nth_skipn_Z. cbn [be_value length].
  assert (Hx : is_byte (nth m (skipn off buf) 0)).
  { apply Forall_nth; [|rewrite length_skipn; lia].
    rewrite <- (firstn_skipn off buf) in Hb. now apply Forall_app in Hb. }
  set (x := nth m (skipn off buf) 0) in *. unfold is_byte in Hx.
  rewrite Z.shiftl_mul_pow2 by lia.
  replace (8 * (Z.of_nat n - 1 - Z.of_nat m)) with (8 * Z.of_nat (n - S m)) by lia.
  replace (8 * Z.of_nat (n - m)) with (8 + 8 * Z.of_nat (n - S m)) by lia.
  pose proof (Z.pow_pos_nonneg 2 (8 * Z.of_nat (n - S m))).
  rewrite lor_add; [|lia|]; rewrite Z.pow_add_r by lia; change (2 ^ 8) with 256; [|nia].
  change (Z.of_nat 1) with 1. change (Z.of_nat 0) with 0. change (256 ^ 1) with 256.
  change (256 ^ 0) with 1. ring.
Qed.

(** The words of a block, read one after the other. *)
Lemma words_of_block (word : nat -> list Z -> nat -> Z) (value : list Z -> Z) n m buf :
  (forall off, (off + n <= length buf)%nat -> word n buf off = value (firstn n (skipn off buf))) ->
  (m * n <= length buf)%nat ->
  map (fun i => word n buf (n * i)%nat) (seq 0 m) = map value (blocks n m buf).
Proof.
  intros Hw Hm.
  enough (H : forall k, ((k + m) * n <= length buf)%nat ->
    map (fun i => word n buf (n * i)%nat) (seq k m) = map value (blocks n m (skipn (n * k) buf))).
  { rewrite H by lia. now rewrite Nat.mul_0_r. }
  clear Hm. induction m as [|m IH]; intros k Hk; simpl; [reflexivity|].
  rewrite Hw, IH, skipn_skipn by lia. do 4 f_equal. lia.
Qed.

(** Two bitwise expressions over the same variables. *)
Ltac bitwise :=
  apply Z.bits_inj'; intros i Hi;
  repeat (rewrite ?Z.lxor_spec, ?Z.land_spec, ?Z.lor_spec, ?Z.lnot_spec by lia);
  repeat match goal with |- context [Z.testbit ?x i] => destruct (Z.testbit x i) end;
  reflexivity.

Lemma fold_left_nth {V} (g : V -> Z * Z -> V) K W v :
  length K = length W ->
  fold_left (fun v i => g v (nth i K 0, nth i W 0)) (seq 0 (length K)) v
  = fold_left g (combine K W) v.
Proof.
  revert W v; induction K as [|k K IH]; intros [|x W] v H; try discriminate; [reflexivity|].
  cbn [combine fold_left length seq]. rewrite <- IH by auto. cbn [nth].
  rewrite <- seq_shift. generalize (g v (k, x)) (seq 0 (length K)). clear.
  intros v l; revert v; induction l as [|i l IH]; intros v; simpl; auto.
Qed.

(** Sums reduced at every step. *)
Lemma mod_sum3 m a b c : ((a + b) mod m + c) mod m = (a + b + c) mod m.
Proof. apply Zplus_mod_idemp_l. Qed.
Lemma mod_sum4 m a b c d : (((a + b) mod m + c) mod m + d) mod m = (a + b + c + d) mod m.
Proof. now rewrite (mod_sum3 m a b c), mod_sum3. Qed.
Lemma mod_sum5 m a b c d e :
  ((((a + b) mod m + c) mod m + d) mod m + e) mod m = (a + b + c + d + e) mod m.
Proof. now rewrite (mod_sum4 m a b c d), mod_sum3. Qed.

(** ** SHA-2 *)

Section Sha2Proof.
Variables (w : Z) (K : list Z).
Variables (s0 s1 r0 r1 : Z * Z * Z).

(** The amounts of the rotations are below the word size. *)
Definition amounts (r : Z * Z * Z) : Prop :=
  let '(a, b, c) := r in 0 <= a <= w /\ 0 <= b <= w /\ 0 <= c <= w.
Hypotheses (Hs0 : amounts s0) (Hs1 : amounts s1) (Hr0 : amounts r0) (Hr1 : amounts r1).
Hypotheses (Hw : 8 <= w) (HK : (16 <= length K)%nat).

Lemma ror_fips k x : 0 <= k <= w -> ror w x k = fips_rotr w k x.
Proof.
  intros Hk. unfold ror, fips_rotr, wrap.
  now rewrite Z.shiftr_div_pow2, Z.shiftl_mul_pow2 by lia.
Qed.

Lemma big_sigma_fips r x : amounts r -> big_sigma w r x = fips_Sigma w r x.
Proof.
  destruct r as [[a b] c]. intros (Ha & Hb & Hc). unfold big_sigma, fips_Sigma.
  now rewrite !ror_fips.
Qed.

Lemma small_sigma_fips r x : amounts r -> small_sigma w r x = fips_sigma w r x.
Proof.
  destruct r as [[a b] c]. intros (Ha & Hb & Hc). unfold small_sigma, fips_sigma.
  now rewrite !ror_fips, Z.shiftr_div_pow2 by lia.
Qed.

Lemma Ch_fips x y z : Ch x y z = fips_Ch x y z.
Proof. unfold Ch, fips_Ch. bitwise. Qed.

Lemma Maj_fips x y z : Maj x y z = fips_Maj x y z.
Proof. unfold Maj, fips_Maj. bitwise. Qed.

Lemma schedule_length M t : length (fips_schedule w r0 r1 M t) = (t + length M)%nat.
Proof. induction t; simpl; [apply length_rev|]. now rewrite IHt. Qed.

Lemma extend_schedule M n t :
  length M = 16%nat ->
  extend w r0 r1 n (rev (fips_schedule w r0 r1 M t)) = rev (fips_schedule w r0 r1 M (n + t)).
Proof.
  intros HM. revert t; induction n as [|n IH]; intros t; [reflexivity|].
  cbn [extend]. replace (S n + t)%nat with (n + S t)%nat by lia. rewrite <- IH.
  f_equal. cbn [fips_schedule rev]. f_equal. f_equal.
  rewrite length_rev, schedule_length, HM, !rev_nth by (rewrite schedule_length; lia).
  rewrite schedule_length, HM. unfold R0, R1, wrap. rewrite !small_sigma_fips by assumption.
  rewrite mod_sum4.
  replace (t + 16 - S (t + 16 - 2))%nat with 1%nat by lia.
  replace (t + 16 - S (t + 16 - 7))%nat with 6%nat by lia.
  replace (t + 16 - S (t + 16 - 15))%nat with 14%nat by lia.
  replace (t + 16 - S (t + 16 - 16))%nat with 15%nat by lia.
  reflexivity.
Qed.

Lemma round_fips v i W :
  round w K s0 s1 v i W = fips_round w s0 s1 v (nth i K 0, nth i W 0).
Proof.
  destruct v as [[[[[[[a b] c] d] e] f] g] h]. unfold round, fips_round, S0, S1, wrap.
  rewrite !big_sigma_fips, Ch_fips, Maj_fips by assumption.
  rewrite (mod_sum5 _ h), <- Zplus_mod, Zplus_mod_idemp_r. reflexivity.
Qed.

Lemma sha2_compress hs buf :
  length buf = (16 * Z.to_nat (w / 8))%nat /\ Forall is_byte buf ->
  sha2_processblock w K s0 s1 r0 r1 hs buf = fips_compress w K s0 s1 r0 r1 hs buf.
Proof.
  intros [Hl Hb]. unfold sha2_processblock, fips_compress.
  rewrite (words_of_block word_be be_value) by (lia || (intros; now apply word_be_value)).
  set (M := map be_value _).
  assert (HM : length M = 16%nat).
  { unfold M. rewrite length_map. generalize (Z.to_nat (w / 8)). reflexivity. }
  pose proof (extend_schedule M (length K - 16) 0 HM) as HE.
  cbn [fips_schedule] in HE. rewrite rev_involutive, Nat.add_0_r in HE. rewrite HE.
  set (W := rev _).
  assert (HW : length K = length W)
    by (unfold W; rewrite length_rev, schedule_length; lia).
  rewrite <- fold_left_nth by assumption.
  erewrite (fold_left_ext_in _ _ (fun _ => True) (seq 0 (length K)))
    by (intros; try apply round_fips; try (apply Forall_forall; trivial)).
  destruct (fold_left _ _ _) as [[[[[[[a b] c] d] e] f] g] h]. reflexivity.
Qed.
End Sha2Proof.

(** ** MD5 *)

Section Md5Proof.
(** Functions that agree on 32-bit words. *)
Definition agree32 (f f' : Z -> Z -> Z -> Z) : Prop := forall x y z, u32 (f x y z) = u32 (f' x y z).

Lemma F_rfc : agree32 Md5.F rfc_F.
Proof. intros x y z. f_equal. unfold Md5.F, rfc_F. bitwise. Qed.
Lemma G_rfc : agree32 Md5.G rfc_G.
Proof. intros x y z. f_equal. unfold Md5.G, rfc_G. bitwise. Qed.
Lemma H_rfc : agree32 Md5.H rfc_H.
Proof. intros x y z. f_equal. unfold Md5.H, rfc_H. bitwise. Qed.
Lemma I_rfc : agree32 Md5.I rfc_I.
Proof.
  intros x y z. unfold Md5.I, rfc_I, u32. change 4294967296 with (2 ^ 32).
  rewrite <- !Z.land_ones by lia. bitwise.
Qed.

Lemma step_rfc f f' a b c d x s t :
  agree32 f f' -> 0 <= s <= 32 ->
  Md5.step f a b c d x s t = u32 (b + rfc_rotl (u32 (a + f' b c d + x + t)) s).
Proof.
  intros Hf Hs. unfold Md5.step, Md5.rol, rfc_rotl.
  rewrite Z.shiftl_mul_pow2, Z.shiftr_div_pow2 by lia.
  replace (u32 (a + u32 (u32 (f b c d + x) + t))) with (u32 (a + f' b c d + x + t)).
  - rewrite Z.add_comm. reflexivity.
  - unfold u32. rewrite mod_sum3, Zplus_mod_idemp_r.
    replace (a + f' b c d + x + t) with (f' b c d + (a + x + t)) by ring.
    replace (a + (f b c d + x + t)) with (f b c d + (a + x + t)) by ring.
    rewrite <- (Zplus_mod_idemp_l (f b c d)), <- (Zplus_mod_idemp_l (f' b c d)).
    unfold agree32, u32 in Hf. now rewrite Hf.
Qed.

Lemma four_rfc f f' index s W v i :
  agree32 f f' ->
  (let '(p, q, r, t) := s in
   rfc_params i = (f', index i, p) /\ rfc_params (S i) = (f', index (S i), q) /\
   rfc_params (S (S i)) = (f', index (S (S i)), r) /\
   rfc_params (S (S (S i))) = (f', index (S (S (S i))), t) /\
   0 <= p <= 32 /\ 0 <= q <= 32 /\ 0 <= r <= 32 /\ 0 <= t <= 32) ->
  Md5.four f index s W v i =
  fold_left (rfc_operation W) [i; S i; S (S i); S (S (S i))] v.
Proof.
  intros Hf. destruct s as [[[p q] r] t], v as [[[a b] c] d].
  intros (E1 & E2 & E3 & E4 & Hp & Hq & Hr & Ht).
  unfold Md5.four. cbn [fold_left]. unfold rfc_operation at 4. rewrite E1.
  unfold rfc_operation at 3. rewrite E2. unfold rfc_operation at 2. rewrite E3.
  unfold rfc_operation. rewrite E4. rewrite !(step_rfc f f') by assumption. reflexivity.
Qed.

Lemma md5_compress hs buf :
  length buf = 64%nat /\ Forall is_byte buf -> Md5.processblock hs buf = rfc_compress hs buf.
Proof.
  intros [Hl Hb]. unfold Md5.processblock, rfc_compress.
  rewrite (words_of_block word_le (fun l => be_value (rev l)))
    by (lia || (intros; now apply word_le_value)).
  set (W := map _ (blocks 4 16 buf)). clearbody W.
  cbn [map seq Nat.mul Nat.add fold_left].
  rewrite !(four_rfc _ _ _ _ _ _ _ F_rfc) by (repeat split; lia || reflexivity).
  rewrite !(four_rfc _ _ _ _ _ _ _ G_rfc) by (repeat split; lia || reflexivity).
  rewrite !(four_rfc _ _ _ _ _ _ _ H_rfc) by (repeat split; lia || reflexivity).
  rewrite !(four_rfc _ _ _ _ _ _ _ I_rfc) by (repeat split; lia || reflexivity).
  cbn [fold_left]. destruct (rfc_operation W _ 63) as [[[a b] c] d]. reflexivity.
Qed.
End Md5Proof.

(** ** The three hash functions *)

Lemma bytes_be_byte n v : Forall is_byte (bytes_be n v).
Proof. apply Forall_map, Forall_forall. intros. apply u8_range. Qed.
Lemma bytes_le_byte n v : Forall is_byte (bytes_le n v).
Proof. apply Forall_map, Forall_forall. intros. apply u8_range. Qed.

Lemma sha256_wf : wf_alg Sha256.alg.
Proof. split; simpl; try lia. now exists (2 ^ 58). Qed.
Lemma sha512_wf : wf_alg Sha512.alg.
Proof. split; simpl; try lia. now exists (2 ^ 57). Qed.
Lemma md5_wf : wf_alg Md5.alg.
Proof. split; simpl; try lia. now exists (2 ^ 58). Qed.

(** The 128-bit length of a short message. *)
Lemma bytes_be_16 v :
  0 <= v < 18446744073709551616 -> bytes_be 16 v = repeat 0 8 ++ bytes_be 8 v.
Proof.
  intros Hv. assert (H0 : forall k, 64 <= k -> u8 (Z.shiftr v k) = 0).
  { intros k Hk. pose proof (Z.pow_le_mono_r 2 64 k).
    rewrite Z.shiftr_div_pow2, Z.div_small by lia. reflexivity. }
  unfold bytes_be. cbn [seq map repeat app]. rewrite !H0 by lia. reflexivity.
Qed.

(** C35. SHA-256 and SHA-512 are the Secure Hash Standard's functions: whatever
    the pieces in which a message of less than 2^64 bits is given to update, and
    whatever the context's buffer held before init, sum returns the digest that
    FIPS 180-4 defines for the whole message (padding to a block multiple,
    big-endian words, the recursive message schedule and the standard's Ch, Maj
    and Sigma functions). *)
Theorem sha2_streams chunks buf256 buf512 :
  length buf256 = 64%nat -> length buf512 = 128%nat ->
  Forall is_byte (concat chunks) ->
  8 * Z.of_nat (length (concat chunks)) < 18446744073709551616 ->
  Sha256.sha256_sum (fold_left Sha256.sha256_update chunks (Sha256.sha256_init buf256))
    = fips_sha256 (concat chunks) /\
  Sha512.sha512_sum (fold_left Sha512.sha512_update chunks (Sha512.sha512_init buf512))
    = fips_sha512 (concat chunks).
Proof.
  intros H1 H2 Hb Hl. split; apply hash_streams; auto using sha256_wf, sha512_wf.
  - intros. apply bytes_be_byte.
  - intros h b Hx. apply sha2_compress; simpl; unfold amounts; lia || assumption.
  - exact bytes_be_16.
  - intros. apply bytes_be_byte.
  - intros h b Hx. apply sha2_compress; simpl; unfold amounts; lia || assumption.
Qed.

(** The message "abc" in two pieces. *)
Lemma sha2_streams_witness :
  Sha256.sha256_sum (fold_left Sha256.sha256_update [[97]; [98; 99]]
                       (Sha256.sha256_init (repeat 7 64))) = fips_sha256 [97; 98; 99] /\
  Sha512.sha512_sum (fold_left Sha512.sha512_update [[97]; [98; 99]]
                       (Sha512.sha512_init (repeat 7 128))) = fips_sha512 [97; 98; 99].
Proof.
  apply (sha2_streams [[97]; [98; 99]]); try reflexivity.
  repeat constructor; lia.
Defined.

(** MD5 is RFC 1321's function: whatever the pieces in which a message of
    less than 2^64 bits is given to update, sum returns the digest of the whole
    message, computed with the RFC's 64 operations and its functions F, G, H
    and I. *)
Theorem md5_streams chunks buf :
  length buf = 64%nat -> Forall is_byte (concat chunks) ->
  8 * Z.of_nat (length (concat chunks)) < 18446744073709551616 ->
  Md5.md5_sum (fold_left Md5.md5_update chunks (Md5.md5_init buf)) = rfc_md5 (concat chunks).
Proof.
  intros H1 Hb Hl. apply hash_streams; auto using md5_wf.
  - intros. apply bytes_le_byte.
  - intros h b Hx. now apply md5_compress.
Qed.

Lemma md5_streams_witness :
  Md5.md5_sum (fold_left Md5.md5_update [[97]; []; [98; 99]] (Md5.md5_init (repeat 0 64)))
  = [0x90; 0x01; 0x50; 0x98; 0x3c; 0xd2; 0x4f; 0xb0;
     0xd6; 0x96; 0x3f; 0x7d; 0x28; 0xe1; 0x7f; 0x72].
Proof.
  etransitivity; [apply md5_streams|vm_compute; reflexivity]; try reflexivity.
  repeat constructor; lia.
Defined.
