(* ===== verification/Tree.v ===== *)
(** * Tree: tsearch, tfind, tdelete, twalk

    Models the balanced binary trees of src/search (tsearch.c, tfind.c,
    tdelete.c, twalk.c) over a store of nodes: a node is a record at an address,
    a pointer is an address (0 for NULL), and the array of pointers to pointers
    that the operations push is a list of slots, innermost first, each the root
    pointer or a child field of a node.  An operation returns [None] where the C
    code would read or write a node that is not allocated, or overrun that
    array; the theorems show that this does not happen.

    The store is compared with a tree (Inductive [tree]) that carries the
    address, key and recorded height of every node. *)

From stdpp Require Import gmap list sorting.
From Stdlib Require Import ZArith Lia ZifyBool.
From S2P Require Import Prelude.
Open Scope Z_scope.

(** ** The store *)

(** struct node *)
Record node : Type := Node { nkey : Z; a0 : Z; a1 : Z; h : Z }.

Definition child (n : node) (d : bool) : Z := if d then a1 n else a0 n.
Definition set_child (d : bool) (v : Z) (n : node) : node :=
  if d then Node (nkey n) (a0 n) v (h n) else Node (nkey n) v (a1 n) (h n).
Definition set_h (v : Z) (n : node) : node := Node (nkey n) (a0 n) (a1 n) v.
Definition set_key (v : Z) (n : node) : node := Node v (a0 n) (a1 n) (h n).

(** The root pointer and the allocated nodes. *)
Record store : Type := Store { root : Z; nodes : gmap Z node }.

(** A pointer to a pointer. *)
Inductive slot : Type :=
| Rootp
| Field (n : Z) (d : bool).

(** n->..: fails when n is not a node. *)
Definition deref (s : store) (p : Z) : option node := nodes s !! p.
Definition update (p : Z) (f : node -> node) (s : store) : option store :=
  let? n := deref s p in Some (Store (root s) (<[p := f n]> (nodes s))).

Definition get (s : store) (sl : slot) : option Z :=
  match sl with
  | Rootp => Some (root s)
  | Field p d => let? n := deref s p in Some (child n d)
  end.
Definition set (s : store) (sl : slot) (v : Z) : option store :=
  match sl with
  | Rootp => Some (Store v (nodes s))
  | Field p d => update p (set_child d v) s
  end.

(** ** The operations *)

(** 3/2 of the bits of a pointer. *)
Definition MAXH : nat := 96.

Definition height (s : store) (n : Z) : option Z :=
  if n =? 0 then Some 0 else let? n := deref s n in Some (h n).

Definition rot (s : store) (p : slot) (x : Z) (dir : bool) : option (store * Z) :=
  let? nx := deref s x in
  let y := child nx dir in
  let? ny := deref s y in
  let z := child ny (negb dir) in
  let hx := h nx in
  let? hz := height s z in
  let? hy := height s (child ny dir) in
  let? (s, z) :=
    if hy <? hz then
      let? nz := deref s z in
      let? s := update x (set_child dir (child nz (negb dir))) s in
      let? nz := deref s z in
      let? s := update y (set_child (negb dir) (child nz dir)) s in
      let? s := update z (set_child (negb dir) x) s in
      let? s := update z (set_child dir y) s in
      let? s := update x (set_h hz) s in
      let? s := update y (set_h hz) s in
      let? s := update z (set_h (hz + 1)) s in
      Some (s, z)
    else
      let? s := update x (set_child dir z) s in
      let? s := update y (set_child (negb dir) x) s in
      let? s := update x (set_h (hz + 1)) s in
      let? s := update y (set_h (hz + 2)) s in
      Some (s, y) in
  let? s := set s p z in
  let? nz := deref s z in
  Some (s, h nz - hx).

(** __tsearch_balance *)
Definition balance (s : store) (p : slot) : option (store * Z) :=
  let? n := get s p in
  let? nn := deref s n in
  let? h0 := height s (a0 nn) in
  let? h1 := height s (a1 nn) in
  if u32 (h0 - h1 + 1) <? 3 then
    let old := h nn in
    let v := if h0 <? h1 then h1 + 1 else h0 + 1 in
    let? s := update n (set_h v) s in
    Some (s, v - old)
  else rot s p n (h0 <? h1).

(** while (i && __tsearch_balance(a[--i])); *)
Fixpoint rebalance (s : store) (a : list slot) : option store :=
  match a with
  | [] => Some s
  | p :: a =>
      let? (s, c) := balance s p in
      if c =? 0 then Some s else rebalance s a
  end.

(** a[i++] = p, in an array of [n] elements. *)
Definition push (n : nat) (p : slot) (a : list slot) : option (list slot) :=
  if (length a <? n)%nat then Some (p :: a) else None.

Section Ops.
Variable cmp : Z -> Z -> Z.

(** The search loop: the node with the key, or 0, and the slots passed. *)
Fixpoint descend (fuel : nat) (s : store) (max : nat) (key n : Z) (a : list slot)
  : option (Z * list slot) :=
  match fuel with
  | O => None
  | S fuel =>
      if n =? 0 then Some (0, a)
      else
        let? nn := deref s n in
        let c := cmp key (nkey nn) in
        if c =? 0 then Some (n, a)
        else
          let? a := push max (Field n (0 <? c)) a in
          descend fuel s max key (child nn (0 <? c)) a
  end.

(** tsearch: [mem] is what malloc returns, an address or NULL.  The result is
    the returned pointer and the store. *)
Definition tsearch (fuel : nat) (key : Z) (s : store) (mem : Z) : option (Z * store) :=
  let? (n, a) := descend fuel s MAXH key (root s) [Rootp] in
  if negb (n =? 0) then Some (n, s)
  else
    let r := mem in
    if r =? 0 then Some (0, s)
    else
      let s := Store (root s) (<[r := Node key 0 0 1]> (nodes s)) in
      match a with
      | [] => None
      | p :: a =>
          let? s := set s p r in
          let? s := rebalance s a in
          Some (r, s)
      end.

Fixpoint tfind_loop (fuel : nat) (s : store) (key n : Z) : option Z :=
  match fuel with
  | O => None
  | S fuel =>
      if n =? 0 then Some n
      else
        let? nn := deref s n in
        let c := cmp key (nkey nn) in
        if c =? 0 then Some n else tfind_loop fuel s key (child nn (0 <? c))
  end.
Definition tfind (fuel : nat) (key : Z) (s : store) : option Z :=
  tfind_loop fuel s key (root s).

(** while (n->a[1]) { a[i++] = &n->a[1]; n = n->a[1]; } *)
Fixpoint rightmost (fuel : nat) (s : store) (n : Z) (a : list slot) : option (Z * list slot) :=
  match fuel with
  | O => None
  | S fuel =>
      let? nn := deref s n in
      if a1 nn =? 0 then Some (n, a)
      else
        let? a := push (MAXH + 1) (Field n true) a in
        rightmost fuel s (a1 nn) a
  end.

(** while (--i && __tsearch_balance(a[i])); stops before a[0]. *)
Fixpoint rebalance_above (s : store) (a : list slot) : option store :=
  match a with
  | [] => Some s
  | p :: a =>
      match a with
      | [] => Some s
      | _ :: _ =>
          let? (s, c) := balance s p in
          if c =? 0 then Some s else rebalance_above s a
      end
  end.

Definition tdelete (fuel : nat) (key : Z) (s : store) : option (Z * store) :=
  let? (n, a) := descend fuel s (MAXH + 1) key (root s) [Rootp; Rootp] in
  if n =? 0 then Some (0, s)
  else
    match a with
    | _ :: q :: _ =>
        let? parent := get s q in
        let? nn := deref s n in
        let? (s, n, child, a) :=
          if negb (a0 nn =? 0) then
            let deleted := n in
            let? a := push (MAXH + 1) (Field n false) a in
            let? (n, a) := rightmost fuel s (a0 nn) a in
            let? nn := deref s n in
            let? s := update deleted (set_key (nkey nn)) s in
            let? nn := deref s n in
            Some (s, n, a0 nn, a)
          else Some (s, n, a1 nn, a) in
        let s := Store (root s) (delete n (nodes s)) in
        match a with
        | [] => None
        | p :: a =>
            let? s := set s p child in
            let? s := rebalance_above s a in
            Some (parent, s)
        end
    | _ => None
    end.
End Ops.

(** twalk: the calls of the action, in order. *)
Inductive VISIT : Type := preorder | postorder | endorder | leaf.

Fixpoint walk (fuel : nat) (s : store) (r d : Z) : option (list (Z * VISIT * Z)) :=
  match fuel with
  | O => None
  | S fuel =>
      if r =? 0 then Some []
      else
        let? n := deref s r in
        if h n =? 1 then Some [(r, leaf, d)]
        else
          let? l0 := walk fuel s (a0 n) (d + 1) in
          let? l1 := walk fuel s (a1 n) (d + 1) in
          Some ((r, preorder, d) :: l0 ++ (r, postorder, d) :: l1 ++ [(r, endorder, d)])
  end.
Definition twalk (fuel : nat) (s : store) : option (list (Z * VISIT * Z)) :=
  walk fuel s (root s) 0.

(** tdestroy: the keys given to freekey and the nodes freed, in order. *)
Fixpoint tdestroy (fuel : nat) (s : store) (r : Z) : option (list Z * store) :=
  match fuel with
  | O => None
  | S fuel =>
      if r =? 0 then Some ([], s)
      else
        let? n := deref s r in
        let? (k0, s) := tdestroy fuel s (a0 n) in
        let? n := deref s r in
        let? (k1, s) := tdestroy fuel s (a1 n) in
        let? n := deref s r in
        Some (k0 ++ k1 ++ [nkey n], Store (root s) (delete r (nodes s)))
  end.

(** ** Trees, contexts and their representation *)

Inductive tree : Type :=
| E
| T (p k h : Z) (l r : tree).

Definition ptr (t : tree) : Z := match t with E => 0 | T p _ _ _ _ => p end.
Definition hgt (t : tree) : Z := match t with E => 0 | T _ _ h _ _ => h end.

Fixpoint addrs (t : tree) : list Z :=
  match t with E => [] | T p _ _ l r => p :: addrs l ++ addrs r end.

(** Addresses and keys, in order. *)
Fixpoint inorder (t : tree) : list (Z * Z) :=
  match t with E => [] | T p k _ l r => inorder l ++ (p, k) :: inorder r end.

(** A node seen from the side [d]: the child on that side and the other. *)
Definition mk (d : bool) (p k h : Z) (c o : tree) : tree :=
  if d then T p k h o c else T p k h c o.
Definition mkn (d : bool) (k c o h : Z) : node := if d then Node k o c h else Node k c o h.

Fixpoint rep (m : gmap Z node) (t : tree) : Prop :=
  match t with
  | E => True
  | T p k h l r =>
      p <> 0 /\ m !! p = Some (Node k (ptr l) (ptr r) h) /\ rep m l /\ rep m r
  end.

(** The nodes above a subtree, innermost first: the side it is on and the
    other child. *)
Record frame : Type := Frame { f_dir : bool; f_ptr : Z; f_key : Z; f_h : Z; f_other : tree }.

Fixpoint plug (c : list frame) (t : tree) : tree :=
  match c with
  | [] => t
  | Frame d p k h o :: c => plug c (mk d p k h t o)
  end.

Fixpoint addrsc (c : list frame) : list Z :=
  match c with [] => [] | f :: c => f_ptr f :: addrs (f_other f) ++ addrsc c end.

Definition slot_of (c : list frame) : slot :=
  match c with [] => Rootp | f :: _ => Field (f_ptr f) (f_dir f) end.

(** The slots that hold the nodes above. *)
Fixpoint above (c : list frame) : list slot :=
  match c with [] => [] | _ :: c => slot_of c :: above c end.

Fixpoint repc (m : gmap Z node) (rt : Z) (c : list frame) (x : Z) : Prop :=
  match c with
  | [] => rt = x
  | Frame d p k h o :: c =>
      p <> 0 /\ m !! p = Some (mkn d k x (ptr o) h) /\ rep m o /\ repc m rt c p
  end.

(** The store holds the tree [plug c t], seen from its subtree [t]. *)
Definition Rep (s : store) (c : list frame) (t : tree) : Prop :=
  repc (nodes s) (root s) c (ptr t) /\ rep (nodes s) t /\ NoDup (addrsc c ++ addrs t).

Lemma rep_frame m m' t :
  (forall p, p ∈ addrs t -> m' !! p = m !! p) -> rep m t -> rep m' t.
Proof.
  induction t as [|p k h l IHl r IHr]; simpl; [done|].
  intros Hm (Hp & Hn & Hl & Hr). rewrite Hm by set_solver.
  split_and!; auto; [apply IHl | apply IHr]; auto; intros; apply Hm; set_solver.
Qed.

Lemma repc_frame m m' rt c x :
  (forall p, p ∈ addrsc c -> m' !! p = m !! p) -> repc m rt c x -> repc m' rt c x.
Proof.
  revert x; induction c as [|[d p k h o] c IH]; intro x; simpl; [done|].
  intros Hm (Hp & Hn & Ho & Hc). rewrite Hm by set_solver. split_and!; auto.
  - apply (rep_frame m); auto. intros; apply Hm; set_solver.
  - apply IH; auto. intros; apply Hm; set_solver.
Qed.

Lemma rep_mk m d p k h c o :
  rep m (mk d p k h c o) <->
  p <> 0 /\ m !! p = Some (mkn d k (ptr c) (ptr o) h) /\ rep m c /\ rep m o.
Proof. destruct d; simpl; tauto. Qed.

Lemma addrs_mk d p k h c o : addrs (mk d p k h c o) ≡ₚ p :: addrs c ++ addrs o.
Proof. destruct d; simpl; [|done]. constructor. apply Permutation_app_comm. Qed.

Lemma ptr_mk d p k h c o : ptr (mk d p k h c o) = p.
Proof. by destruct d. Qed.
Lemma hgt_mk d p k h c o : hgt (mk d p k h c o) = h.
Proof. by destruct d. Qed.

Lemma child_mkn d k c o h : child (mkn d k c o h) d = c.
Proof. by destruct d. Qed.
Lemma child_mkn_neg d k c o h : child (mkn d k c o h) (negb d) = o.
Proof. by destruct d. Qed.
Lemma child_neg_mkn d k c o h : child (mkn (negb d) k c o h) d = o.
Proof. by destruct d. Qed.
Lemma set_child_mkn d k c o h v : set_child d v (mkn d k c o h) = mkn d k v o h.
Proof. by destruct d. Qed.
Lemma set_child_mkn_neg d k c o h v : set_child (negb d) v (mkn d k c o h) = mkn d k c v h.
Proof. by destruct d. Qed.
Lemma set_child_neg_mkn d k c o h v : set_child d v (mkn (negb d) k c o h) = mkn (negb d) k c v h.
Proof. by destruct d. Qed.
Lemma set_h_mkn d k c o h v : set_h v (mkn d k c o h) = mkn d k c o v.
Proof. by destruct d. Qed.
Lemma h_mkn d k c o v : h (mkn d k c o v) = v.
Proof. by destruct d. Qed.

Lemma mkn_neg d k c o v : mkn (negb d) k c o v = mkn d k o c v.
Proof. by destruct d. Qed.

Create Rewrite HintDb tree.
#[export] Hint Rewrite ptr_mk hgt_mk child_mkn child_mkn_neg child_neg_mkn set_child_mkn
  set_child_mkn_neg set_child_neg_mkn set_h_mkn h_mkn negb_involutive : tree.

Lemma update_ok p f s n :
  nodes s !! p = Some n -> update p f s = Some (Store (root s) (<[p := f n]> (nodes s))).
Proof. intros H. unfold update, deref. by rewrite H. Qed.

Lemma height_ok s t : rep (nodes s) t -> height s (ptr t) = Some (hgt t).
Proof.
  unfold height. destruct t as [|p k h l r]; simpl; [done|]. intros (Hp & Hn & _).
  rewrite (proj2 (Z.eqb_neq p 0) Hp). unfold deref. by rewrite Hn.
Qed.

Lemma addrsc_plug c t : addrs (plug c t) ≡ₚ addrsc c ++ addrs t.
Proof.
  revert t; induction c as [|[d p k h o] c IH]; intro t; simpl; [done|].
  rewrite IH, addrs_mk. solve_Permutation.
Qed.

(** Moving the focus. *)
Lemma addrs_up d p k h o c t :
  addrsc (Frame d p k h o :: c) ++ addrs t ≡ₚ addrsc c ++ addrs (mk d p k h t o).
Proof. rewrite addrs_mk. simpl. solve_Permutation. Qed.

Lemma Rep_up s d p k h o c t :
  Rep s (Frame d p k h o :: c) t <-> Rep s c (mk d p k h t o).
Proof. unfold Rep. rewrite rep_mk, ptr_mk, <- addrs_up. simpl. tauto. Qed.

(** *p = v, where p is the slot of the focus. *)
Lemma get_focus s c x : repc (nodes s) (root s) c x -> get s (slot_of c) = Some x.
Proof.
  destruct c as [|[d p k h o] c]; simpl; [by intros ->|]. intros (_ & Hn & _).
  unfold deref. rewrite Hn. simpl. by autorewrite with tree.
Qed.

Lemma set_focus s c x v l :
  repc (nodes s) (root s) c x -> NoDup (addrsc c ++ l) ->
  exists s', set s (slot_of c) v = Some s' /\ repc (nodes s') (root s') c v /\
    (forall p, p ∈ l -> nodes s' !! p = nodes s !! p) /\
    (forall p, is_Some (nodes s' !! p) <-> is_Some (nodes s !! p)).
Proof.
  destruct c as [|[d p k h o] c]; simpl; intros Hc Hnd; [by eauto 10|].
  destruct Hc as (Hp & Hn & Ho & Hc). rewrite (update_ok _ _ _ _ Hn).
  autorewrite with tree. eexists; split_and!; [done| done | | | | |]; simpl.
  - by rewrite lookup_insert_eq.
  - apply (rep_frame (nodes s)); auto. intros q Hq. rewrite lookup_insert_ne; [done|].
    intros ->. apply NoDup_cons in Hnd as [Hnd _]. set_solver.
  - apply (repc_frame (nodes s)); auto. intros q Hq. rewrite lookup_insert_ne; [done|].
    intros ->. apply NoDup_cons in Hnd as [Hnd _]. set_solver.
  - intros q Hq. rewrite lookup_insert_ne; [done|].
    intros ->. apply NoDup_cons in Hnd as [Hnd _]. set_solver.
  - intros q. rewrite lookup_insert_is_Some.
    split; [intros [<-|[_ H]] | destruct (decide (p = q))]; eauto.
Qed.

(** Replacing the subtree in focus: its nodes and the slot are rewritten,
    nothing else. *)
Lemma Rep_replace s c x t m v :
  repc (nodes s) (root s) c x -> rep m t -> NoDup (addrsc c ++ addrs t) -> v = ptr t ->
  (forall p, p ∈ addrsc c -> m !! p = nodes s !! p) ->
  exists s', set (Store (root s) m) (slot_of c) v = Some s' /\ Rep s' c t /\
    (forall p, p ∈ addrs t -> nodes s' !! p = m !! p) /\
    (forall p, is_Some (nodes s' !! p) <-> is_Some (m !! p)).
Proof.
  intros Hc Ht Hnd -> Hm.
  destruct (set_focus (Store (root s) m) c x (ptr t) (addrs t)) as (s' & E & Hc' & Hs & Hd); auto.
  { by apply (repc_frame (nodes s)). }
  exists s'. split_and!; auto. split_and!; auto. by apply (rep_frame m).
Qed.

(** Both sides have the same allocated nodes. *)
Definition same_dom (m m' : gmap Z node) : Prop := forall p, is_Some (m' !! p) <-> is_Some (m !! p).

Lemma same_dom_insert m m' p n :
  same_dom m m' -> is_Some (m !! p) -> same_dom m (<[p := n]> m').
Proof.
  intros H Hp q. rewrite lookup_insert_is_Some, (H q).
  split; [intros [<-|[_ Hq]] | destruct (decide (p = q))]; eauto.
Qed.

Lemma same_dom_trans m1 m2 m3 : same_dom m1 m2 -> same_dom m2 m3 -> same_dom m1 m3.
Proof. intros H1 H2 p. rewrite (H2 p). apply H1. Qed.

Lemma same_dom_refl m : same_dom m m.
Proof. done. Qed.

(** A freshness fact from the disjointness of the parts of a tree. *)
Ltac nodup H :=
  repeat (rewrite ?NoDup_app, ?NoDup_cons in H; simpl in H); set_solver.

(** ** Balancing *)

(** One store of a C statement, and the lookups it leaves. *)
Ltac lookups :=
  simpl; repeat (rewrite lookup_insert_eq || rewrite lookup_insert_ne by congruence); eassumption || reflexivity.
Ltac run := simpl bind; autorewrite with tree; unfold deref; simpl nodes.
Ltac store_step := erewrite update_ok by lookups; run.

(** *p = z; return z->h - hx: the end of rot, when the nodes [m] hold the
    rotated tree. *)
Lemma rot_end s c x t m hx v :
  repc (nodes s) (root s) c x -> v = ptr t -> rep m t -> NoDup (addrsc c ++ addrs t) -> t <> E ->
  (forall p, p ∉ addrs t -> m !! p = nodes s !! p) -> same_dom (nodes s) m ->
  exists s', (let? s := set (Store (root s) m) (slot_of c) v in
              let? nz := deref s v in Some (s, h nz - hx)) = Some (s', hgt t - hx) /\
             Rep s' c t /\ same_dom (nodes s) (nodes s').
Proof.
  intros Hc -> Ht Hnd Hne Hm Hsame.
  destruct (Rep_replace s c x t m (ptr t) Hc) as (s' & E1 & HR & Hs & Hd); auto.
  { intros p Hp. apply Hm. nodup Hnd. }
  exists s'. rewrite E1. split_and!; [|done|by apply (same_dom_trans _ m)].
  destruct t as [|p k v l r]; [done|]. destruct HR as (_ & (_ & Hn & _) & _). simpl in *.
  unfold deref. by rewrite Hn.
Qed.

Lemma rot_single s c dir px kx hx py ky hy tz tb o :
  let X := mk dir px kx hx (mk (negb dir) py ky hy tz tb) o in
  let X' := mk (negb dir) py ky (hgt tz + 2) (mk dir px kx (hgt tz + 1) tz o) tb in
  Rep s c X -> hgt tz <= hgt tb ->
  exists s', rot s (slot_of c) px dir = Some (s', hgt X' - hx) /\ Rep s' c X' /\
             same_dom (nodes s) (nodes s').
Proof.
  intros X X' (Hc & HX & Hnd) Hle.
  assert (HP : addrs X' ≡ₚ addrs X) by (unfold X, X'; rewrite !addrs_mk; solve_Permutation).
  assert (Hnd' : NoDup (addrsc c ++ addrs X')) by (by rewrite HP).
  unfold X in HX, Hnd. rewrite !rep_mk, !ptr_mk in HX.
  destruct HX as (Hpx & Hnx & (Hpy & Hny & HZ & HB) & Ho).
  rewrite !addrs_mk in Hnd. assert (Hxy : px <> py) by nodup Hnd.
  unfold rot, deref. rewrite Hnx. run. rewrite Hny. run.
  rewrite (height_ok s tz HZ), (height_ok s tb HB). run.
  replace (hgt tb <? hgt tz) with false by lia.
  do 4 store_step.
  set (m := <[py := _]> _).
  assert (Hm : forall p, p <> px -> p <> py -> m !! p = nodes s !! p) by (intros; unfold m; lookups).
  eapply (rot_end s c); eauto.
  - unfold X'. by rewrite ptr_mk.
  - unfold X'. rewrite !rep_mk, !ptr_mk. split_and!; auto; try (unfold m; lookups).
    all: apply (rep_frame (nodes s)); auto; intros p Hp; apply Hm; intros ->; nodup Hnd.
  - unfold X'. by destruct dir.
  - intros p Hp. rewrite HP in Hp. unfold X in Hp. rewrite !addrs_mk in Hp. apply Hm; set_solver.
  - unfold m. repeat apply same_dom_insert; eauto using same_dom_refl.
Qed.

Lemma rot_double s c dir px kx hx py ky hy pz kz hz td tn tb o :
  let X := mk dir px kx hx (mk (negb dir) py ky hy (mk dir pz kz hz td tn) tb) o in
  let X' := mk (negb dir) pz kz (hz + 1) (mk dir px kx hz tn o) (mk (negb dir) py ky hz td tb) in
  Rep s c X -> hgt tb < hz ->
  exists s', rot s (slot_of c) px dir = Some (s', hgt X' - hx) /\ Rep s' c X' /\
             same_dom (nodes s) (nodes s').
Proof.
  intros X X' (Hc & HX & Hnd) Hlt.
  assert (HP : addrs X' ≡ₚ addrs X) by (unfold X, X'; rewrite !addrs_mk; solve_Permutation).
  assert (Hnd' : NoDup (addrsc c ++ addrs X')) by (by rewrite HP).
  unfold X in HX, Hnd. rewrite !rep_mk, !ptr_mk in HX.
  destruct HX as (Hpx & Hnx & (Hpy & Hny & HZ & HB) & Ho).
  assert (Hh := height_ok s (mk dir pz kz hz td tn)). rewrite rep_mk, ptr_mk, hgt_mk in Hh.
  rewrite !addrs_mk in Hnd.
  assert (px <> py /\ px <> pz /\ py <> pz) as (Hxy & Hxz & Hyz) by (split_and!; nodup Hnd).
  unfold rot, deref. rewrite Hnx. run. rewrite Hny. run.
  rewrite Hh, (height_ok s tb HB) by done. run.
  replace (hgt tb <? hz) with true by lia. destruct HZ as (Hpz & Hnz & Hd & Hn).
  rewrite Hnz. run. store_step.
  rewrite lookup_insert_ne, Hnz by congruence. run.
  do 6 store_step.
  set (m := <[pz := _]> _).
  assert (Hm : forall p, p <> px -> p <> py -> p <> pz -> m !! p = nodes s !! p)
    by (intros; unfold m; lookups).
  eapply (rot_end s c); eauto.
  - unfold X'. by rewrite ptr_mk.
  - unfold X'. rewrite !rep_mk, !ptr_mk. rewrite (mkn_neg dir kz). split_and!; auto; try (unfold m; lookups).
    all: apply (rep_frame (nodes s)); auto; intros p Hp; apply Hm; intros ->; nodup Hnd.
  - unfold X'. by destruct dir.
  - intros p Hp. rewrite HP in Hp. unfold X in Hp. rewrite !addrs_mk in Hp. apply Hm; set_solver.
  - unfold m. repeat apply same_dom_insert; eauto using same_dom_refl.
Qed.

(** The AVL invariant: the recorded height is the height, and the children's
    differ by at most one. *)
Fixpoint avl (t : tree) : Prop :=
  match t with
  | E => True
  | T _ _ h l r =>
      h = 1 + Z.max (hgt l) (hgt r) /\ -1 <= hgt l - hgt r <= 1 /\ avl l /\ avl r
  end.

Lemma avl_mk d p k h c o :
  avl (mk d p k h c o) <->
  h = 1 + Z.max (hgt c) (hgt o) /\ -1 <= hgt c - hgt o <= 1 /\ avl c /\ avl o.
Proof. destruct d; simpl; [|done]. rewrite Z.max_comm. intuition lia. Qed.

Lemma avl_hgt t : avl t -> 0 <= hgt t.
Proof. induction t; simpl; [lia|]. intros (-> & _ & Hl & Hr). apply IHt1 in Hl. lia. Qed.

Lemma avl_pos t : avl t -> 0 < hgt t -> exists p k h l r, t = T p k h l r.
Proof. destruct t; simpl; [lia|eauto 10]. Qed.

Definition inorder_mk_eq d p k h c o :
  inorder (mk d p k h c o) = if d then inorder o ++ (p, k) :: inorder c
                             else inorder c ++ (p, k) :: inorder o.
Proof. by destruct d. Qed.

Lemma addrs_inorder t : addrs t ≡ₚ map fst (inorder t).
Proof.
  induction t as [|p k h l IHl r IHr]; simpl; [done|].
  rewrite map_app. simpl. rewrite IHl, IHr. solve_Permutation.
Qed.

(** The subtree with the larger height, seen from its side. *)
Lemma tree_side d t : t <> E -> exists p k h c o, t = mk d p k h c o.
Proof. destruct t as [|p k h l r]; [done|]. exists p, k, h. destruct d; eauto. Qed.

(** The heights that a rotation may leave. *)
Definition balanced_height (l r v : Z) : Prop :=
  if (Z.abs (l - r) <=? 1) then v = 1 + Z.max l r
  else v = Z.max l r \/ v = 1 + Z.max l r.

Lemma rot_ok s c dir px kx hx y o :
  Rep s c (mk dir px kx hx y o) -> avl y -> avl o -> hgt y = hgt o + 2 ->
  exists s' t', rot s (slot_of c) px dir = Some (s', hgt t' - hx) /\ Rep s' c t' /\ avl t' /\
    inorder t' = inorder (mk dir px kx hx y o) /\ same_dom (nodes s) (nodes s') /\
    (hgt t' = hgt y \/ hgt t' = hgt y + 1).
Proof.
  intros HR Hy Ho Hh. pose proof (avl_hgt _ Ho).
  destruct (tree_side (negb dir) y) as (py & ky & hy & tz & tb & ->); [by intros ->; simpl in Hh; lia|].
  rewrite avl_mk in Hy. rewrite hgt_mk in *. destruct Hy as (-> & Hd & Hz & Hb).
  destruct (Z.le_gt_cases (hgt tz) (hgt tb)) as [Hle|Hgt].
  - destruct (rot_single s c dir px kx hx py ky _ tz tb o HR Hle) as (s' & E1 & HR' & Hs).
    eexists s', _. split_and!; [exact E1|exact HR'| | |done|].
    + rewrite !avl_mk, !hgt_mk. split_and!; auto; lia.
    + rewrite !inorder_mk_eq. destruct dir; simpl; by rewrite <- ?app_assoc.
    + rewrite hgt_mk. lia.
  - pose proof (avl_hgt _ Hb).
    destruct (tree_side dir tz) as (pz & kz & hz & td & tn & ->); [by intros ->; simpl in Hgt; lia|].
    rewrite avl_mk in Hz. rewrite hgt_mk in *. destruct Hz as (-> & Hdz & Htd & Htn).
    destruct (rot_double s c dir px kx hx py ky _ pz kz _ td tn tb o HR) as (s' & E1 & HR' & Hs); [lia|].
    eexists s', _. split_and!; [exact E1|exact HR'| | |done|].
    + rewrite !avl_mk, !hgt_mk. split_and!; auto; lia.
    + rewrite !inorder_mk_eq. destruct dir; simpl; rewrite <- ?app_assoc; simpl; by rewrite <- ?app_assoc.
    + rewrite hgt_mk. lia.
Qed.

Lemma balance_ok s c p k h0 l r :
  Rep s c (T p k h0 l r) -> avl l -> avl r -> -2 <= hgt l - hgt r <= 2 ->
  exists s' t', balance s (slot_of c) = Some (s', hgt t' - h0) /\ Rep s' c t' /\ avl t' /\
    inorder t' = inorder (T p k h0 l r) /\ same_dom (nodes s) (nodes s') /\
    balanced_height (hgt l) (hgt r) (hgt t').
Proof.
  intros HR Hl Hr Hd. pose proof HR as (Hc & (Hp & Hn & Hrl & Hrr) & Hnd).
  unfold balance. rewrite (get_focus _ _ _ Hc). run. rewrite Hn. run. simpl a0. simpl a1.
  rewrite (height_ok _ _ Hrl), (height_ok _ _ Hrr). run. unfold balanced_height.
  replace (u32 (hgt l - hgt r + 1) <? 3) with (Z.abs (hgt l - hgt r) <=? 1) by (unfold u32; zlia).
  destruct (Z.leb_spec (Z.abs (hgt l - hgt r)) 1) as [Hb|Hb].
  - rewrite (update_ok _ _ _ _ Hn). run. eexists _, (T p k _ l r).
    split_and!; [reflexivity| |simpl; split_and!; auto; try lia; case_if; lia|done| |simpl; case_if; lia].
    + split_and!; simpl in *; auto.
      * apply (repc_frame (nodes s)); auto. intros q Hq. rewrite lookup_insert_ne; [done|].
        intros ->. nodup Hnd.
      * split_and!; auto; [by rewrite lookup_insert_eq| |].
        all: apply (rep_frame (nodes s)); auto; intros q Hq; rewrite lookup_insert_ne; [done|].
        all: intros ->; nodup Hnd.
    + apply same_dom_insert; eauto using same_dom_refl.
  - destruct (Z.ltb_spec (hgt l) (hgt r)).
    + destruct (rot_ok s c true p k h0 r l) as (s' & t' & ? & ? & ? & ? & ? & ?); auto; [lia|].
      eexists s', t'. split_and!; auto; lia.
    + destruct (rot_ok s c false p k h0 l r) as (s' & t' & ? & ? & ? & ? & ? & ?); auto; [lia|].
      eexists s', t'. split_and!; auto; lia.
Qed.

(** ** Rebalancing on the way up *)

(** What surrounds the focus, in order. *)
Fixpoint lpart (c : list frame) : list (Z * Z) :=
  match c with
  | [] => []
  | Frame d p k _ o :: c => lpart c ++ (if d then inorder o ++ [(p, k)] else [])
  end.
Fixpoint rpart (c : list frame) : list (Z * Z) :=
  match c with
  | [] => []
  | Frame d p k _ o :: c => (if d then [] else (p, k) :: inorder o) ++ rpart c
  end.

Lemma inorder_plug c t : inorder (plug c t) = lpart c ++ inorder t ++ rpart c.
Proof.
  revert t; induction c as [|[d p k h o] c IH]; intro t; simpl; [by rewrite app_nil_r|].
  rewrite IH, inorder_mk_eq. destruct d; by rewrite <- !app_assoc.
Qed.

Lemma Rep_plug s c t : Rep s c t <-> Rep s [] (plug c t).
Proof.
  revert t; induction c as [|[d p k h o] c IH]; intro t; [done|]. by rewrite Rep_up, IH.
Qed.

(** The context of an AVL tree whose focus has height [v]. *)
Fixpoint avlc (c : list frame) (v : Z) : Prop :=
  match c with
  | [] => True
  | Frame d p k h o :: c =>
      h = 1 + Z.max v (hgt o) /\ -1 <= v - hgt o <= 1 /\ avl o /\ avlc c h
  end.

Lemma avl_plug c t : avl (plug c t) <-> avlc c (hgt t) /\ avl t.
Proof.
  revert t; induction c as [|[d p k h o] c IH]; intro t; simpl; [tauto|].
  rewrite IH, avl_mk, hgt_mk. tauto.
Qed.

Lemma balance_focus s d p k h0 o c t :
  Rep s (Frame d p k h0 o :: c) t -> avl t -> avl o -> -2 <= hgt t - hgt o <= 2 ->
  exists s' t', balance s (slot_of c) = Some (s', hgt t' - h0) /\ Rep s' c t' /\ avl t' /\
    inorder t' = inorder (mk d p k h0 t o) /\ same_dom (nodes s) (nodes s') /\
    balanced_height (hgt t) (hgt o) (hgt t').
Proof.
  rewrite Rep_up. intros HR Ht Ho Hd. destruct d; simpl in *.
  - destruct (balance_ok s c p k h0 o t) as (s' & t' & ? & ? & ? & ? & ? & Hb); auto; [lia|].
    exists s', t'. split_and!; auto. revert Hb. unfold balanced_height.
    replace (Z.abs (hgt o - hgt t)) with (Z.abs (hgt t - hgt o)) by lia.
    by rewrite (Z.max_comm (hgt o)).
  - destruct (balance_ok s c p k h0 t o) as (s' & t' & ? & ? & ? & ? & ? & Hb); eauto 10.
Qed.

Lemma rebalance_ok c s t v :
  Rep s c t -> avl t -> avlc c v -> -1 <= hgt t - v <= 1 ->
  exists s' t', rebalance s (above c) = Some s' /\ Rep s' [] t' /\ avl t' /\
    inorder t' = lpart c ++ inorder t ++ rpart c /\ same_dom (nodes s) (nodes s').
Proof.
  revert s t v; induction c as [|[d p k h o] c IH]; intros s t v HR Ht Hc Hv; simpl.
  - exists s, t. rewrite app_nil_r. eauto using same_dom_refl.
  - destruct Hc as (-> & Hd & Ho & Hc).
    destruct (balance_focus _ _ _ _ _ _ _ _ HR Ht Ho) as (s' & t' & E1 & HR' & Ht' & Hin & Hs & Hh);
      [lia|].
    rewrite E1. simpl bind. unfold balanced_height in Hh.
    destruct (Z.eqb_spec (hgt t' - (1 + Z.max v (hgt o))) 0) as [E2|E2].
    + exists s', (plug c t'). rewrite <- Rep_plug, avl_plug, inorder_plug, Hin, inorder_mk_eq.
      replace (hgt t') with (1 + Z.max v (hgt o)) by lia.
      split_and!; auto. destruct d; by rewrite <- !app_assoc.
    + destruct (IH s' t' _ HR' Ht' Hc) as (s2 & t2 & E3 & HR2 & Ht2 & Hin2 & Hs2).
      { destruct (Z.abs (hgt t - hgt o) <=? 1) eqn:?; lia. }
      exists s2, t2. split_and!; eauto using same_dom_trans.
      rewrite Hin2, Hin, inorder_mk_eq. destruct d; by rewrite <- !app_assoc.
Qed.

Lemma rebalance_above_snoc s a x : rebalance_above s (a ++ [x]) = rebalance s a.
Proof.
  revert s; induction a as [|p a IH]; intro s; [done|].
  assert (Ha : rebalance_above s ((p :: a) ++ [x]) =
               let? (s, c) := balance s p in
               if c =? 0 then Some s else rebalance_above s (a ++ [x])) by (by destruct a).
  rewrite Ha. simpl. destruct (balance s p) as [[s' v]|]; simpl; [|done]. by rewrite IH.
Qed.

(** ** Height and size *)

Fixpoint fib (n : nat) : Z * Z :=
  match n with O => (1, 2) | S n => let (a, b) := fib n in (b, a + b) end.

Lemma fib_pos n : 0 < fst (fib n) < snd (fib n).
Proof. induction n as [|n IH]; simpl; [lia|]. destruct (fib n); simpl in *; lia. Qed.

Lemma fib_mono n m : (n <= m)%nat -> fst (fib n) <= fst (fib m).
Proof.
  induction 1 as [|m _ IH]; [lia|]. simpl. pose proof (fib_pos m). destruct (fib m); simpl in *; lia.
Qed.

Definition tsize (t : tree) : Z := Z.of_nat (length (inorder t)).

Lemma tsize_T p k h l r : tsize (T p k h l r) = tsize l + tsize r + 1.
Proof. unfold tsize. simpl. rewrite length_app. simpl. lia. Qed.

Lemma avl_size t : avl t -> fst (fib (Z.to_nat (hgt t))) <= tsize t + 1.
Proof.
  induction t as [|p k h l IHl r IHr]; [done|]. intros (-> & Hd & Hl & Hr).
  pose proof (avl_hgt _ Hl). pose proof (avl_hgt _ Hr).
  specialize (IHl Hl). specialize (IHr Hr). rewrite tsize_T. simpl hgt.
  assert (Hpair : forall n a b, fst (fib (Z.to_nat n)) <= a -> fst (fib (Z.to_nat (n - 1))) <= b ->
                  0 <= n -> 1 <= b -> fst (fib (Z.to_nat (1 + n))) <= a + b).
  { intros n a b Ha Hb Hn H1. destruct (Z.eq_dec n 0) as [->|]; [simpl in *; lia|].
    replace (Z.to_nat (1 + n)) with (S (S (Z.to_nat (n - 1)))) by lia.
    replace (Z.to_nat n) with (S (Z.to_nat (n - 1))) in Ha by lia.
    simpl in *. destruct (fib (Z.to_nat (n - 1))); simpl in *. lia. }
  assert (0 <= tsize l /\ 0 <= tsize r) by (unfold tsize; lia).
  pose proof (fib_mono (Z.to_nat (Z.max (hgt l) (hgt r) - 1)) (Z.to_nat (hgt l)) ltac:(lia)).
  pose proof (fib_mono (Z.to_nat (Z.max (hgt l) (hgt r) - 1)) (Z.to_nat (hgt r)) ltac:(lia)).
  destruct (Z.max_spec (hgt l) (hgt r)) as [[? E1]|[? E1]]; rewrite E1 in *.
  - specialize (Hpair (hgt r) (tsize r + 1) (tsize l + 1)). lia.
  - specialize (Hpair (hgt l) (tsize l + 1) (tsize r + 1)). lia.
Qed.

(** A tree of fewer than 2^64 nodes has height at most 91. *)
Lemma avl_height_bound t : avl t -> tsize t < 18446744073709551616 -> hgt t <= 91.
Proof.
  intros Ht Hs. destruct (Z.le_gt_cases (hgt t) 91) as [|Hgt]; [done|].
  pose proof (avl_size t Ht). pose proof (fib_mono 92 (Z.to_nat (hgt t)) ltac:(lia)) as Hm.
  assert (H92 : fst (fib 92) = 19740274219868223167) by (vm_compute; done). lia.
Qed.

(** ** Searching *)

Lemma rep_alloc m t p : rep m t -> p ∈ addrs t -> is_Some (m !! p).
Proof.
  induction t as [|q k h l IHl r IHr]; simpl; [set_solver|].
  intros (_ & Hn & Hl & Hr) Hp. rewrite elem_of_cons, elem_of_app in Hp.
  destruct Hp as [->|[Hp|Hp]]; eauto.
Qed.

Lemma repc_alloc m rt c x p : repc m rt c x -> p ∈ addrsc c -> is_Some (m !! p).
Proof.
  revert x; induction c as [|[d q k h o] c IH]; intro x; simpl; [set_solver|].
  intros (_ & Hn & Ho & Hc) Hp. rewrite elem_of_cons, elem_of_app in Hp.
  destruct Hp as [->|[Hp|Hp]]; eauto using rep_alloc.
Qed.

Section Keys.
Variable cmp : Z -> Z -> Z.
Context `{CmpOrder Z cmp}.

Definition keylt (x y : Z * Z) : Prop := cmp (snd x) (snd y) < 0.
Definition below (key : Z) (l : list (Z * Z)) : Prop := Forall (fun x => cmp (snd x) key < 0) l.
Definition over (key : Z) (l : list (Z * Z)) : Prop := Forall (fun x => cmp key (snd x) < 0) l.

Lemma keylt_trans x y z : keylt x y -> keylt y z -> keylt x z.
Proof. unfold keylt. intros H1 H2. eapply cmp_lt_le_trans; eauto. lia. Qed.

(** One node against the key: the part of the order on its side. *)
Lemma sorted_cons_mid l1 p k l2 :
  StronglySorted keylt (l1 ++ (p, k) :: l2) -> below k l1 /\ over k l2.
Proof.
  intros Hs. split; apply Forall_forall; intros x Hx.
  - apply (StronglySorted_app_1_elem_of keylt _ _ x (p, k) Hs); set_solver.
  - apply StronglySorted_app_1_r, StronglySorted_inv in Hs as [_ Hs].
    by apply (proj1 (Forall_forall _ _) Hs).
Qed.

Lemma below_trans k key l : below k l -> cmp k key < 0 -> below key l.
Proof.
  intros Hl Hk. eapply Forall_impl; [exact Hl|]. simpl. intros x Hx.
  eapply cmp_lt_le_trans; eauto. lia.
Qed.
Lemma over_trans k key l : over k l -> cmp key k < 0 -> over key l.
Proof.
  intros Hl Hk. eapply Forall_impl; [exact Hl|]. simpl. intros x Hx.
  eapply cmp_lt_le_trans; eauto. lia.
Qed.

(** Where the descent goes on. *)
Definition found (key : Z) (t : tree) : Prop :=
  t = E \/ exists p k h l r, t = T p k h l r /\ cmp key k = 0.

Lemma push_ok n p a : (length a < n)%nat -> push n p a = Some (p :: a).
Proof. intros Hl. unfold push. by rewrite (proj2 (Nat.ltb_lt _ _) Hl). Qed.

Lemma above_length c : length (above c) = length c.
Proof. induction c; simpl; auto. Qed.

Lemma descend_ok max tl key fuel s c t :
  Rep s c t -> avl t -> StronglySorted keylt (inorder (plug c t)) ->
  below key (lpart c) -> over key (rpart c) ->
  (Z.to_nat (hgt t) < fuel)%nat -> (S (length c + length tl) + Z.to_nat (hgt t) <= max)%nat ->
  exists c' t',
    descend cmp fuel s max key (ptr t) (slot_of c :: above c ++ tl)
      = Some (ptr t', slot_of c' :: above c' ++ tl) /\
    plug c' t' = plug c t /\ Rep s c' t' /\ below key (lpart c') /\ over key (rpart c') /\
    (length c' + Z.to_nat (hgt t') <= length c + Z.to_nat (hgt t))%nat /\ found key t'.
Proof.
  revert c t; induction fuel as [|fuel IH]; intros c t HR Ht Hs Hb Ho Hf Hm; [lia|].
  destruct t as [|p k h0 l r].
  { exists c, E. split_and!; auto; by left. }
  pose proof HR as (Hc & (Hp & Hn & Hrl & Hrr) & Hnd). destruct Ht as (-> & Hd & Hl & Hr).
  pose proof (avl_hgt _ Hl). pose proof (avl_hgt _ Hr).
  cbn [descend ptr]. rewrite (proj2 (Z.eqb_neq p 0) Hp). run. rewrite Hn. run. simpl nkey.
  destruct (Z.eqb_spec (cmp key k) 0) as [E0|E0].
  { exists c, (T p k (1 + Z.max (hgt l) (hgt r)) l r). split_and!; auto. right. eauto 10. }
  cbn [hgt] in *.
  rewrite push_ok by (simpl; rewrite length_app, above_length; lia). run.
  rewrite inorder_plug in Hs. simpl in Hs. rewrite <- !app_assoc in Hs.
  rewrite app_assoc in Hs. apply sorted_cons_mid in Hs as Hm'. destruct Hm' as [Hbk Hok].
  pose proof (cmp_anti key k) as Hanti.
  destruct (Z.ltb_spec 0 (cmp key k)).
  - destruct (IH (Frame true p k (1 + Z.max (hgt l) (hgt r)) l :: c) r)
      as (c' & t' & E1 & E2 & E3).
    + by rewrite Rep_up.
    + done.
    + simpl. rewrite inorder_plug. simpl. by rewrite <- !app_assoc, app_assoc.
    + simpl. rewrite app_assoc. apply Forall_app. split.
      * eapply below_trans; [exact Hbk|]. lia.
      * repeat constructor. simpl. lia.
    + done.
    + lia.
    + simpl. lia.
    + exists c', t'. split_and!; [exact E1|done|..]; try tauto. simpl in *. lia.
  - destruct (IH (Frame false p k (1 + Z.max (hgt l) (hgt r)) r :: c) l)
      as (c' & t' & E1 & E2 & E3).
    + by rewrite Rep_up.
    + done.
    + simpl. rewrite inorder_plug. simpl. by rewrite <- !app_assoc, app_assoc.
    + simpl. by rewrite app_nil_r.
    + simpl. constructor; [simpl; lia|]. eapply over_trans; [exact Hok|]. lia.
    + lia.
    + simpl. lia.
    + exists c', t'. split_and!; [exact E1|done|..]; try tauto. simpl in *. lia.
Qed.

(** ** The contracts *)

(** The store holds the search tree [t]: represented, AVL and sorted. *)
Definition holds (s : store) (t : tree) : Prop :=
  Rep s [] t /\ avl t /\ StronglySorted keylt (inorder t).

Definition absent (key : Z) (t : tree) : Prop :=
  Forall (fun x => cmp key (snd x) <> 0) (inorder t).

Lemma below_absent key l : below key l -> Forall (fun x : Z * Z => cmp key (snd x) <> 0) l.
Proof.
  intros Hl. eapply Forall_impl; [exact Hl|]. simpl. intros x Hx.
  pose proof (cmp_anti key (snd x)). lia.
Qed.
Lemma over_absent key l : over key l -> Forall (fun x : Z * Z => cmp key (snd x) <> 0) l.
Proof. intros Hl. eapply Forall_impl; [exact Hl|]. simpl. intros x Hx. lia. Qed.

(** The descent from the root, whatever follows the root slot in the array. *)
Lemma descend_root max tl fuel key s t :
  holds s t -> tsize t < 18446744073709551616 -> (96 <= fuel)%nat -> (92 + length tl <= max)%nat ->
  exists c' t',
    descend cmp fuel s max key (root s) (Rootp :: tl)
      = Some (ptr t', slot_of c' :: above c' ++ tl) /\
    plug c' t' = t /\ Rep s c' t' /\ avlc c' (hgt t') /\ avl t' /\
    below key (lpart c') /\ over key (rpart c') /\
    (length c' + Z.to_nat (hgt t') <= 91)%nat /\ found key t'.
Proof.
  intros (HR & Ht & Hs) Hsz Hf Hm. pose proof (avl_height_bound t Ht Hsz).
  destruct (descend_ok max tl key fuel s [] t HR Ht Hs) as (c' & t' & E1 & E2 & HR' & Hb & Ho & Hl & Hfd);
    [constructor|constructor|lia|simpl; lia|].
  destruct HR as (Hroot & _). simpl in *. rewrite <- Hroot in E1.
  rewrite <- E2, avl_plug in Ht. exists c', t'. split_and!; tauto || lia || done.
Qed.

Lemma tfind_descend fuel s max key n a n' a' :
  descend cmp fuel s max key n a = Some (n', a') -> tfind_loop cmp fuel s key n = Some n'.
Proof.
  revert n a; induction fuel as [|fuel IH]; intros n a; simpl; [done|].
  destruct (Z.eqb_spec n 0) as [->|Hn]; [by intros [= <- _]|].
  destruct (deref s n) as [nn|]; simpl; [|done].
  destruct (cmp key (nkey nn) =? 0); [by intros [= <- _]|].
  destruct (push _ _ _) as [a2|]; simpl; [apply IH|done].
Qed.

(** Inserting a node at an empty place. *)
Lemma insert_node c s key r :
  Rep s c E -> avlc c 0 -> r <> 0 -> nodes s !! r = None ->
  exists s1 s2 t', set (Store (root s) (<[r := Node key 0 0 1]> (nodes s))) (slot_of c) r = Some s1 /\
    rebalance s1 (above c) = Some s2 /\ Rep s2 [] t' /\ avl t' /\
    inorder t' = lpart c ++ (r, key) :: rpart c /\
    same_dom (<[r := Node key 0 0 1]> (nodes s)) (nodes s2).
Proof.
  intros (Hc & _ & Hnd) Ha Hr Hfresh.
  set (m := <[r := _]> _).
  assert (Hnot : forall p, p ∈ addrsc c -> p <> r).
  { intros p Hp ->. destruct (repc_alloc _ _ _ _ _ Hc Hp) as [n Hn]. congruence. }
  destruct (Rep_replace s c 0 (T r key 1 E E) m r Hc) as (s1 & E1 & HR & _ & Hd); [..|done| |].
  - simpl. split_and!; auto. unfold m. by rewrite lookup_insert_eq.
  - simpl. rewrite app_nil_r in Hnd. apply NoDup_app. split_and!; auto.
    + intros p Hp Hpr. apply (Hnot p Hp). set_solver.
    + apply NoDup_singleton.
  - intros p Hp. unfold m. rewrite lookup_insert_ne; [done|]. intros ->. by apply (Hnot p).
  - destruct (rebalance_ok c s1 (T r key 1 E E) 0 HR) as (s2 & t' & E2 & HR2 & Ht2 & Hin & Hs);
      [simpl; intuition lia|done|simpl; lia|].
    exists s1, s2, t'. split_and!; eauto using same_dom_trans.
Qed.

Lemma sorted_insert key r l1 l2 :
  StronglySorted keylt (l1 ++ l2) -> below key l1 -> over key l2 ->
  StronglySorted keylt (l1 ++ (r, key) :: l2).
Proof.
  intros Hs Hb Ho. apply StronglySorted_app in Hs as (H12 & H1 & H2).
  apply StronglySorted_app. split_and!; auto.
  - intros x y Hx Hy. apply elem_of_cons in Hy as [->|Hy]; [|by apply H12].
    by apply (proj1 (Forall_forall _ _) Hb).
  - by constructor.
Qed.

(** C13. tsearch inserts or finds, and never touches memory it should not: on a
    store that holds an AVL search tree of fewer than 2^64 nodes, with any
    address array of MAXH slots, it does not overrun the array or follow a bad
    pointer; if a node's key compares equal it returns that node and leaves the
    store alone; otherwise it returns NULL without any change when malloc does,
    and else returns the new node, after which the store again holds an AVL
    search tree, whose nodes in order are the old ones, at their old addresses,
    with the new node between the smaller and the greater keys.  tfind finds
    the node in exactly the first case. *)
Theorem tsearch_correct fuel key s t mem :
  holds s t -> tsize t < 18446744073709551616 -> (96 <= fuel)%nat ->
  (mem <> 0 -> nodes s !! mem = None) ->
  (exists p k, In (p, k) (inorder t) /\ cmp key k = 0 /\
     tsearch cmp fuel key s mem = Some (p, s) /\ tfind cmp fuel key s = Some p) \/
  (absent key t /\ tfind cmp fuel key s = Some 0 /\
   if mem =? 0 then tsearch cmp fuel key s mem = Some (0, s)
   else exists s' t' l1 l2,
     tsearch cmp fuel key s mem = Some (mem, s') /\ holds s' t' /\
     inorder t = l1 ++ l2 /\ inorder t' = l1 ++ (mem, key) :: l2 /\
     (forall p, is_Some (nodes s' !! p) <-> p = mem \/ is_Some (nodes s !! p))).
Proof.
  intros Hh Hsz Hf Hmem.
  destruct (descend_root MAXH [] fuel key s t Hh Hsz Hf) as
    (c & t0 & E1 & Hpl & HR & Hac & Hat & Hb & Ho & Hlen & Hfd); [unfold MAXH; simpl; lia|].
  rewrite app_nil_r in E1. unfold tsearch, tfind.
  rewrite (tfind_descend _ _ _ _ _ _ _ _ E1), E1. run.
  destruct Hh as (_ & _ & Hs). rewrite <- Hpl, inorder_plug in Hs.
  destruct Hfd as [->|(p & k & v & l & r & -> & Ek)].
  - right. unfold absent. rewrite <- Hpl, inorder_plug. simpl in *.
    split_and!; [apply Forall_app; auto using below_absent, over_absent|done|].
    destruct (Z.eqb_spec mem 0) as [->|Hm]; [done|].
    destruct (insert_node c s key mem HR Hac Hm (Hmem Hm)) as
      (s1 & s2 & t' & E2 & E3 & HR2 & Ht2 & Hin & Hd).
    rewrite E2. run. rewrite E3. run. exists s2, t', (lpart c), (rpart c).
    split_and!; auto.
    + split_and!; auto. rewrite Hin. by apply sorted_insert.
    + intros q. rewrite (Hd q), lookup_insert_is_Some.
      split; [intros [<-|[_ ?]]; auto|intros [->|?]; [by left|]].
      destruct (decide (mem = q)); auto.
  - left. exists p, k. destruct HR as (_ & (Hp & _) & _). simpl.
    rewrite (proj2 (Z.eqb_neq p 0) Hp). split_and!; auto.
    rewrite <- Hpl, inorder_plug. simpl. rewrite !in_app_iff. simpl. auto.
Qed.

(** ** Deletion *)

(** Changing the key of a node above the focus. *)
Lemma Rep_app s c1 c t : Rep s (c1 ++ c) t <-> Rep s c (plug c1 t).
Proof.
  revert t; induction c1 as [|[d p k h o] c1 IH]; intro t; simpl; [done|].
  by rewrite Rep_up, IH.
Qed.

Lemma Rep_set_key s c1 d p k k' v o c t :
  Rep s (c1 ++ Frame d p k v o :: c) t ->
  exists s', update p (set_key k') s = Some s' /\ Rep s' (c1 ++ Frame d p k' v o :: c) t /\
    same_dom (nodes s) (nodes s').
Proof.
  rewrite Rep_app. setoid_rewrite Rep_app. set (X := plug c1 t). intros (Hc & Ht & Hnd).
  destruct Hc as (Hp & Hn & Ho & Hc). rewrite (update_ok _ _ _ _ Hn). eexists. split; [reflexivity|].
  assert (Hm : forall q, q <> p -> <[p := set_key k' (mkn d k (ptr X) (ptr o) v)]> (nodes s) !! q
                                   = nodes s !! q) by (intros; by rewrite lookup_insert_ne).
  split; [|apply same_dom_insert; eauto using same_dom_refl].
  simpl in Hnd. split_and!; simpl; [split_and!| |]; auto.
  - rewrite lookup_insert_eq. by destruct d.
  - apply (rep_frame (nodes s)); auto. intros q Hq. apply Hm. intros ->. nodup Hnd.
  - apply (repc_frame (nodes s)); auto. intros q Hq. apply Hm. intros ->. nodup Hnd.
  - apply (rep_frame (nodes s)); auto. intros q Hq. apply Hm. intros ->. nodup Hnd.
Qed.

(** The end of the right spine: the node whose right child is NULL. *)
Lemma rightmost_ok tl fuel s c t :
  Rep s c t -> avl t -> t <> E -> (Z.to_nat (hgt t) < fuel)%nat ->
  (S (length c + length tl) + Z.to_nat (hgt t) <= MAXH + 1)%nat ->
  exists c1 q kq hq lq,
    rightmost fuel s (ptr t) (slot_of c :: above c ++ tl)
      = Some (q, slot_of (c1 ++ c) :: above (c1 ++ c) ++ tl) /\
    plug c1 (T q kq hq lq E) = t /\ rpart c1 = [].
Proof.
  revert c t; induction fuel as [|fuel IH]; intros c t HR Ht Hne Hf Hm; [lia|].
  destruct t as [|p k h0 l r]; [done|].
  pose proof HR as (_ & (Hp & Hn & _ & _) & _). destruct Ht as (-> & Hd & Hl & Hr).
  pose proof (avl_hgt _ Hl). pose proof (avl_hgt _ Hr). cbn [hgt] in *.
  cbn [rightmost ptr]. unfold deref. rewrite Hn. run. cbn [a1].
  destruct r as [|pr kr hr lr rr]; [by exists [], p, k, (1 + Z.max (hgt l) (hgt E)), l|].
  assert (HR2 : Rep s (Frame true p k (1 + Z.max (hgt l) (hgt (T pr kr hr lr rr))) l :: c)
                  (T pr kr hr lr rr)) by (by rewrite Rep_up).
  assert (Hpr : pr <> 0) by (destruct HR2 as (_ & (? & _) & _); done).
  cbn [ptr]. rewrite (proj2 (Z.eqb_neq pr 0) Hpr).
  rewrite push_ok by (unfold MAXH in *; simpl; rewrite length_app, above_length; lia). run.
  destruct (IH _ _ HR2 Hr) as (c1 & q & kq & hq & lq & E1 & E2 & E3); [done|lia|cbn [length hgt] in *; lia|].
  exists (c1 ++ [Frame true p k (1 + Z.max (hgt l) (hgt (T pr kr hr lr rr))) l]), q, kq, hq, lq.
  rewrite <- app_assoc. split_and!; [exact E1| |].
  - clear -E2. revert E2. generalize (T q kq hq lq E). induction c1 as [|[d p1 k1 h1 o1] c1 IH]; simpl.
    + by intros t ->.
    + intros t. apply IH.
  - clear -E3. induction c1 as [|[d p1 k1 h1 o1] c1 IH]; simpl in *; [done|].
    apply app_eq_nil in E3 as [-> E3]. by rewrite IH.
Qed.

(** Freeing the node in focus, which has at most the child [ch]. *)
Lemma unlink c s q kq hq l r ch :
  Rep s c (T q kq hq l r) -> avlc c hq -> avl (T q kq hq l r) ->
  (l = E /\ ch = r \/ r = E /\ ch = l) ->
  exists s1 s2 t',
    set (Store (root s) (delete q (nodes s))) (slot_of c) (ptr ch) = Some s1 /\
    rebalance s1 (above c) = Some s2 /\ Rep s2 [] t' /\ avl t' /\
    inorder t' = lpart c ++ inorder ch ++ rpart c /\
    (forall x, is_Some (nodes s2 !! x) <-> x <> q /\ is_Some (nodes s !! x)).
Proof.
  intros (Hc & (Hq & Hn & Hl & Hr) & Hnd) Hac (Hh & Hb & Hal & Har) Hch.
  assert (Hrch : rep (nodes s) ch /\ avl ch /\ hgt ch = hq - 1 /\ NoDup (q :: addrsc c ++ addrs ch)).
  { pose proof (avl_hgt _ Hal). pose proof (avl_hgt _ Har). simpl in Hnd.
    rewrite <- Permutation_middle in Hnd.
    destruct Hch as [[-> ->]|[-> ->]]; simpl in *; rewrite ?app_nil_r in Hnd; split_and!; auto; lia. }
  destruct Hrch as (Hrch & Hach & Hhc & Hnd').
  apply NoDup_cons in Hnd' as [Hq' Hnd']. rewrite not_elem_of_app in Hq'. destruct Hq' as [Hqc Hqt].
  assert (Hm : forall x, x <> q -> delete q (nodes s) !! x = nodes s !! x)
    by (intros; by rewrite lookup_delete_ne).
  destruct (Rep_replace s c q ch (delete q (nodes s)) (ptr ch) Hc) as (s1 & E1 & HR1 & _ & Hd1); auto.
  { apply (rep_frame (nodes s)); auto. intros x Hx. apply Hm. by intros ->. }
  { intros x Hx. apply Hm. by intros ->. }
  destruct (rebalance_ok c s1 ch hq HR1 Hach Hac ltac:(lia)) as (s2 & t' & E2 & HR2 & Ht2 & Hin & Hd2).
  exists s1, s2, t'. split_and!; auto. intros x. rewrite (Hd2 x), (Hd1 x), lookup_delete_is_Some. naive_solver.
Qed.

Lemma parts_app c1 c :
  lpart (c1 ++ c) = lpart c ++ lpart c1 /\ rpart (c1 ++ c) = rpart c1 ++ rpart c.
Proof.
  induction c1 as [|[d p k h o] c1 [IH1 IH2]]; simpl; [by rewrite app_nil_r|].
  rewrite IH1, IH2. by rewrite !app_assoc.
Qed.

Lemma slots_key c1 d p k k' v o c :
  slot_of (c1 ++ Frame d p k v o :: c) = slot_of (c1 ++ Frame d p k' v o :: c) /\
  above (c1 ++ Frame d p k v o :: c) = above (c1 ++ Frame d p k' v o :: c).
Proof.
  induction c1 as [|[d1 p1 k1 h1 o1] c1 [IH1 IH2]]; simpl; [done|]. by rewrite IH1, IH2.
Qed.

Lemma avlc_set_key c1 d p k k' v o c x :
  avlc (c1 ++ Frame d p k v o :: c) x -> avlc (c1 ++ Frame d p k' v o :: c) x.
Proof. revert x; induction c1 as [|[d1 p1 k1 h1 o1] c1 IH]; intro x; simpl; naive_solver. Qed.

Lemma avlc_app c1 c t : avlc c (hgt (plug c1 t)) -> avl (plug c1 t) -> avlc (c1 ++ c) (hgt t) /\ avl t.
Proof.
  revert t; induction c1 as [|[d p k h o] c1 IH]; intros t; simpl; [done|].
  intros Hc Ht. destruct (IH _ Hc Ht) as [H1 H2]. rewrite hgt_mk in H1.
  apply avl_mk in H2. tauto.
Qed.

Lemma sorted_remove (R : Z -> Z -> Prop) l1 k l2 :
  StronglySorted R (l1 ++ k :: l2) -> StronglySorted R (l1 ++ l2).
Proof.
  rewrite !StronglySorted_app. intros (H12 & H1 & H2). apply StronglySorted_inv in H2 as [H2 _].
  split_and!; auto. intros x y Hx Hy. apply H12; set_solver.
Qed.

Lemma sorted_keys l :
  StronglySorted keylt l <-> StronglySorted (fun x y => cmp x y < 0) (map snd l).
Proof.
  induction l as [|x l IH]; simpl; [split; constructor|].
  split; intros Hs; apply StronglySorted_inv in Hs as [H1 H2]; constructor; try (by apply IH).
  - by apply Forall_map.
  - by apply Forall_map in H2.
Qed.

(** The node found is freed itself, or takes the key of its predecessor, which
    is freed: the part of tdelete after the descent. *)
Lemma tdelete_found fuel s c p k v l r tl :
  (96 <= fuel)%nat -> (S (length c + length tl) + Z.to_nat v <= MAXH + 1)%nat ->
  Rep s c (T p k v l r) -> avlc c v -> avl (T p k v l r) ->
  exists s1 n x a1 s2 s3 t' freed,
    (if negb (ptr l =? 0) then
       let? a := push (MAXH + 1) (Field p false) (slot_of c :: above c ++ tl) in
       let? (n, a) := rightmost fuel s (ptr l) a in
       let? nn := deref s n in
       let? s := update p (set_key (nkey nn)) s in
       let? nn := deref s n in
       Some (s, n, a0 nn, a)
     else Some (s, p, ptr r, slot_of c :: above c ++ tl)) = Some (s1, n, x, slot_of a1 :: above a1 ++ tl) /\
    set (Store (root s1) (delete n (nodes s1))) (slot_of a1) x = Some s2 /\
    rebalance s2 (above a1) = Some s3 /\ Rep s3 [] t' /\ avl t' /\
    map snd (inorder t') = map snd (lpart c) ++ map snd (inorder l ++ inorder r) ++ map snd (rpart c) /\
    is_Some (nodes s !! freed) /\
    (forall y, is_Some (nodes s3 !! y) <-> y <> freed /\ is_Some (nodes s !! y)).
Proof.
  intros Hf Hlen HR Hac Ht. pose proof HR as (_ & (Hp & Hn & Hrl & Hrr) & _).
  pose proof Ht as (Hv & Hd & Hal & Har).
  destruct l as [|pl kl hl ll lr].
  - destruct (unlink c s p k v E r r HR Hac Ht) as (s2 & s3 & t' & E1 & E2 & HR' & Ht' & Hin & Hdom);
      [auto|].
    exists s, p, (ptr r), c, s2, s3, t', p. split_and!; eauto. rewrite Hin. by rewrite !map_app.
  - assert (Hpl : pl <> 0) by (simpl in Hrl; tauto).
    remember (T pl kl hl ll lr) as L eqn:EL.
    replace (ptr L =? 0) with false by (rewrite EL; simpl; lia). simpl negb. cbv iota.
    pose proof (avl_hgt _ Hal). pose proof (avl_hgt _ Har).
    rewrite push_ok by (unfold MAXH in *; simpl; rewrite length_app, above_length; lia). run.
    assert (HRL : Rep s (Frame false p k v r :: c) L) by (by rewrite Rep_up).
    destruct (rightmost_ok tl fuel s _ L HRL Hal) as (c1 & q & kq & hq & lq & E1 & E2 & E3);
      [by rewrite EL|unfold MAXH in *; lia|cbn [length]; lia|].
    cbn [slot_of f_ptr f_dir above app] in E1. rewrite E1. run. rewrite <- E2, <- Rep_app in HRL.
    pose proof HRL as (_ & (Hq & Hnq & _) & _). rewrite Hnq. run. simpl nkey.
    destruct (Rep_set_key s c1 false p k kq v r c _ HRL) as (s1 & E4 & HR1 & Hd1).
    rewrite E4. run. pose proof HR1 as (_ & (_ & Hnq1 & _) & _). rewrite Hnq1. run. simpl a0.
    assert (Hac1 : avlc (c1 ++ Frame false p kq v r :: c) hq /\ avl (T q kq hq lq E)).
    { destruct (avlc_app c1 (Frame false p kq v r :: c) (T q kq hq lq E)) as [HX1 HX2]; rewrite ?E2; auto.
      simpl. auto. }
    destruct Hac1 as [Hac1 Haq].
    destruct (unlink _ s1 q kq hq lq E lq HR1 Hac1 Haq) as (s2 & s3 & t' & E5 & E6 & HR' & Ht' & Hin & Hdom);
      [auto|].
    exists s1, q, (ptr lq), (c1 ++ Frame false p kq v r :: c), s2, s3, t', q.
    replace (slot_of (c1 ++ Frame false p k v r :: c) :: above (c1 ++ Frame false p k v r :: c) ++ tl)
      with (slot_of (c1 ++ Frame false p kq v r :: c) :: above (c1 ++ Frame false p kq v r :: c) ++ tl).
    + split_and!; eauto.
      * rewrite Hin, <- E2, inorder_plug, E3, app_nil_r.
        destruct (parts_app c1 (Frame false p kq v r :: c)) as [-> ->]. rewrite E3. simpl.
        rewrite app_nil_r, !map_app. simpl. rewrite map_app, <- !app_assoc. done.
      * intros y. rewrite (Hdom y), (Hd1 y). done.
    + by destruct (slots_key c1 false p k kq v r c) as [-> ->].
Qed.

(** C18. tdelete removes one key: on a store that holds an AVL search tree of
    fewer than 2^64 nodes it does not overrun its address array, does not read
    a freed node while rebalancing, and returns NULL without any change when no
    node compares equal to the key; otherwise it frees exactly one node, returns
    a non-NULL pointer, and the store again holds an AVL search tree, with
    the same keys in the same order but the one found. *)
Theorem tdelete_correct fuel key s t :
  holds s t -> tsize t < 18446744073709551616 -> (96 <= fuel)%nat ->
  (absent key t /\ tdelete cmp fuel key s = Some (0, s)) \/
  exists ret s' t' k1 k k2 freed,
    tdelete cmp fuel key s = Some (ret, s') /\ ret <> 0 /\ holds s' t' /\
    cmp key k = 0 /\ map snd (inorder t) = k1 ++ k :: k2 /\ map snd (inorder t') = k1 ++ k2 /\
    is_Some (nodes s !! freed) /\
    (forall p, is_Some (nodes s' !! p) <-> p <> freed /\ is_Some (nodes s !! p)).
Proof.
  intros Hh Hsz Hf.
  destruct (descend_root (MAXH + 1) [Rootp] fuel key s t Hh Hsz Hf) as
    (c & t0 & E1 & Hpl & HR & Hac & Hat & Hb & Ho & Hlen & Hfd); [unfold MAXH; simpl; lia|].
  unfold tdelete. rewrite E1. run.
  destruct Hh as (_ & _ & Hs). rewrite <- Hpl, inorder_plug in Hs.
  destruct Hfd as [->|(p & k & v & l & r & -> & Ek)].
  - left. unfold absent. rewrite <- Hpl, inorder_plug. simpl in *.
    split; [apply Forall_app; auto using below_absent, over_absent|done].
  - right. pose proof HR as (Hc & (Hp & Hn & _) & _). cbn [ptr hgt] in *.
    rewrite (proj2 (Z.eqb_neq p 0) Hp).
    assert (Hpar : exists q a ret, above c ++ [Rootp] = q :: a /\ get s q = Some ret /\ ret <> 0).
    { destruct c as [|[d1 p1 k1 h1 o1] c']; simpl in *.
      { exists Rootp, [], p. split_and!; [done|by rewrite <- Hc|done]. }
      destruct Hc as (Hp1 & _ & _ & Hc'). exists (slot_of c'), (above c' ++ [Rootp]), p1.
      split_and!; auto. by apply get_focus. }
    destruct Hpar as (q & a & ret & Ea & Eg & Hret).
    destruct (tdelete_found fuel s c p k v l r [Rootp] Hf) as
      (s1 & n & x & ca & s2 & s3 & t' & freed & E2 & E3 & E4 & HR' & Ht' & Hk & Hfr & Hdom); auto.
    { unfold MAXH. simpl. lia. }
    rewrite Ea in E2 |- *. rewrite Eg. run. rewrite Hn. run. cbn [a0 a1].
    match goal with |- context [if negb (ptr l =? 0) then ?A else ?B] =>
      match type of E2 with ?L = _ => change (if negb (ptr l =? 0) then A else B) with L end end.
    rewrite E2. run.
    rewrite E3. run. rewrite rebalance_above_snoc, E4. run.
    apply sorted_keys in Hs. rewrite <- inorder_plug, Hpl in Hs.
    assert (Hkt : map snd (inorder t) = (map snd (lpart c) ++ map snd (inorder l)) ++
                  k :: map snd (inorder r) ++ map snd (rpart c)).
    { rewrite <- Hpl, inorder_plug. simpl. rewrite !map_app. simpl.
      by rewrite <- !app_assoc. }
    assert (Hk' : map snd (inorder t') = (map snd (lpart c) ++ map snd (inorder l)) ++
                  map snd (inorder r) ++ map snd (rpart c)).
    { rewrite Hk, map_app. by rewrite <- !app_assoc. }
    exists ret, s3, t', (map snd (lpart c) ++ map snd (inorder l)), k,
      (map snd (inorder r) ++ map snd (rpart c)), freed.
    split_and!; auto. split_and!; auto. rewrite sorted_keys, Hk'. rewrite Hkt in Hs.
    by eapply sorted_remove.
Qed.
End Keys.

(** ** Walking and destroying *)

Lemma avl_empty t : avl t -> hgt t = 0 -> t = E.
Proof.
  destruct t as [|p k h l r]; [done|]. simpl. intros (-> & _ & Hl & _) H0.
  apply avl_hgt in Hl. lia.
Qed.

(** The visits at which a node is seen between its subtrees. *)
Definition middle (v : Z * VISIT * Z) : bool :=
  match snd (fst v) with postorder | leaf => true | _ => false end.

Lemma walk_ok fuel s t d :
  rep (nodes s) t -> avl t -> (Z.to_nat (hgt t) < fuel)%nat ->
  exists vs, walk fuel s (ptr t) d = Some vs /\
    map (fun v => fst (fst v)) (List.filter middle vs) = map fst (inorder t) /\
    Forall (fun v => d <= snd v < d + Z.max 1 (hgt t)) vs.
Proof.
  revert t d; induction fuel as [|fuel IH]; intros t d Hr Ht Hf; [lia|].
  destruct t as [|p k v l r]; [by exists []|]. destruct Hr as (Hp & Hn & Hl & Hr).
  destruct Ht as (-> & Hd & Hal & Har). pose proof (avl_hgt _ Hal). pose proof (avl_hgt _ Har).
  cbn [walk ptr hgt]. rewrite (proj2 (Z.eqb_neq p 0) Hp). unfold deref. rewrite Hn. cbn [hgt] in *. run.
  simpl h. simpl a0. simpl a1.
  destruct (Z.eqb_spec (1 + Z.max (hgt l) (hgt r)) 1).
  - apply avl_empty in Hal as ->; [|lia]. apply avl_empty in Har as ->; [|lia].
    eexists. split_and!; [done|done|]. repeat constructor; simpl; lia.
  - destruct (IH l (d + 1) Hl Hal) as (vl & El & Fl & Dl); [lia|].
    destruct (IH r (d + 1) Hr Har) as (vr & Er & Fr & Dr); [lia|].
    rewrite El. run. rewrite Er. run. eexists. split_and!; [done| |].
    + simpl. rewrite !List.filter_app. simpl. rewrite !List.filter_app. simpl. rewrite app_nil_r, !map_app. simpl.
      by rewrite Fl, Fr.
    + constructor; [simpl; lia|]. apply Forall_app. split; [|constructor; [simpl; lia|]; apply Forall_app; split].
      * eapply Forall_impl; [exact Dl|]. simpl. lia.
      * eapply Forall_impl; [exact Dr|]. simpl. lia.
      * repeat constructor; simpl; lia.
Qed.

(** tdestroy: the keys in postorder. *)
Fixpoint post_keys (t : tree) : list Z :=
  match t with E => [] | T _ k _ l r => post_keys l ++ post_keys r ++ [k] end.

Lemma tdestroy_ok fuel s t :
  rep (nodes s) t -> avl t -> NoDup (addrs t) -> (Z.to_nat (hgt t) < fuel)%nat ->
  exists s', tdestroy fuel s (ptr t) = Some (post_keys t, s') /\
    (forall p, nodes s' !! p = if decide (p ∈ addrs t) then None else nodes s !! p).
Proof.
  revert s t; induction fuel as [|fuel IH]; intros s t Hr Ht Hnd Hf; [lia|].
  destruct t as [|p k v l r]; [exists s; split; [done|]; intros q; by rewrite decide_False by set_solver|].
  destruct Hr as (Hp & Hn & Hl & Hr).
  destruct Ht as (-> & Hd & Hal & Har). pose proof (avl_hgt _ Hal). pose proof (avl_hgt _ Har).
  cbn [hgt addrs] in *. apply NoDup_cons in Hnd as [Hpn Hnd]. apply NoDup_app in Hnd as (Hndl & Hlr & Hndr).
  cbn [tdestroy ptr]. rewrite (proj2 (Z.eqb_neq p 0) Hp). unfold deref. rewrite Hn. run. simpl a0.
  destruct (IH s l Hl Hal Hndl) as (s1 & E1 & D1); [lia|]. rewrite E1. run.
  assert (Hn1 : nodes s1 !! p = nodes s !! p) by (rewrite D1, decide_False; [done|set_solver]).
  rewrite Hn1, Hn. run. simpl a1.
  destruct (IH s1 r) as (s2 & E2 & D2); auto; [|lia|].
  { apply (rep_frame (nodes s)); auto. intros q Hq. rewrite D1, decide_False; [done|]. naive_solver. }
  rewrite E2. run.
  assert (Hn2 : nodes s2 !! p = nodes s !! p) by (rewrite D2, decide_False; [done|set_solver]).
  rewrite Hn2, Hn. run. eexists. split; [done|]. intros q. simpl.
  rewrite lookup_delete. case_decide as Hq.
  - subst. by rewrite decide_True by set_solver.
  - rewrite D2, D1. repeat case_decide; set_solver.
Qed.

(** Walking a tree: on a store that holds an AVL search tree, twalk visits
    every node, the postorder and leaf visits in key order, at depths below the
    height; tdestroy gives every key to freekey after the keys below it, frees
    every node of the tree exactly once and nothing else. *)
Theorem twalk_tdestroy cmp fuel s t :
  holds cmp s t -> tsize t < 18446744073709551616 -> (96 <= fuel)%nat ->
  (exists vs, twalk fuel s = Some vs /\
     map (fun v => fst (fst v)) (List.filter middle vs) = map fst (inorder t) /\
     Forall (fun v => 0 <= snd v < Z.max 1 (hgt t)) vs) /\
  (exists s', tdestroy fuel s (root s) = Some (post_keys t, s') /\
     forall p, nodes s' !! p = if decide (p ∈ addrs t) then None else nodes s !! p).
Proof.
  intros ((Hroot & Hr & Hnd) & Ht & _) Hsz Hf. simpl in *.
  pose proof (avl_height_bound t Ht Hsz).
  unfold twalk. rewrite Hroot. split; [apply walk_ok | apply tdestroy_ok]; auto; lia.
Qed.

(** ** Witnesses: the integers with subtraction *)

(** The store after inserting 2, 1, 3 at 100, 200, 300. *)
Definition ex_tree : tree := T 100 2 2 (T 200 1 1 E E) (T 300 3 1 E E).
Definition ex_store : store :=
  Store 100 (<[100 := Node 2 200 300 2]> (<[200 := Node 1 0 0 1]> (<[300 := Node 3 0 0 1]> ∅))).

Lemma ex_holds : holds Z.sub ex_store ex_tree.
Proof.
  unfold holds, Rep. split_and!; try done.
  - simpl. repeat constructor; set_solver.
  - simpl. repeat (constructor; unfold keylt; simpl; try lia).
Qed.

Lemma tsearch_correct_witness :
  (exists s' t', tsearch Z.sub 96 5 ex_store 400 = Some (400, s') /\ holds Z.sub s' t' /\
                 tsize t' = 4) /\
  tsearch Z.sub 96 3 ex_store 400 = Some (300, ex_store).
Proof.
  split; [|vm_compute; reflexivity].
  destruct (tsearch_correct Z.sub 96 5 ex_store ex_tree 400 ex_holds) as
    [(p & k & Hin & E1 & _)|(_ & _ & s' & t' & l1 & l2 & E1 & Hh & Hi & Hi' & _)].
  - vm_compute; reflexivity.
  - lia.
  - intros _. vm_compute. reflexivity.
  - exfalso. simpl in Hin. destruct Hin as [H|[H|[H|[]]]]; injection H as <- <-; lia.
  - exists s', t'. split; [exact E1|split; [exact Hh|]].
    apply (f_equal length) in Hi. unfold tsize. rewrite Hi'.
    rewrite length_app in *. simpl in *. lia.
Defined.

Lemma tdelete_correct_witness :
  exists ret s' t', tdelete Z.sub 96 2 ex_store = Some (ret, s') /\ ret <> 0 /\ holds Z.sub s' t'.
Proof.
  destruct (tdelete_correct Z.sub 96 2 ex_store ex_tree ex_holds) as
    [[Ha _]|(ret & s' & t' & k1 & k & k2 & fr & E1 & E2 & E3 & _)].
  - vm_compute; reflexivity.
  - lia.
  - exfalso. unfold absent in Ha. simpl in Ha. rewrite !Forall_cons in Ha. simpl in Ha. lia.
  - exists ret, s', t'. auto.
Defined.

Lemma twalk_tdestroy_witness :
  (exists vs, twalk 96 ex_store = Some vs /\
     map (fun v => fst (fst v)) (List.filter middle vs) = [200; 100; 300]) /\
  tdestroy 96 ex_store 100 = Some ([1; 3; 2], Store 100 ∅).
Proof.
  destruct (twalk_tdestroy Z.sub 96 ex_store ex_tree ex_holds) as [(vs & E1 & E2 & _) _].
  - vm_compute; reflexivity.
  - lia.
  - split; [exists vs; auto|vm_compute; reflexivity].
Defined.
