(* ===== verification/HashTable.v ===== *)
(** * HashTable: hcreate, hsearch, hdestroy

    Models src/search/hsearch.c: an open-addressing table of a power of two
    entries, probed at triangular distances and doubled when it is more than
    three quarters full.  A key is the content of its string (the caller keeps
    it unchanged, as the table only stores the pointer); a pointer to an entry
    is its index; a calloc is a Boolean argument, false for a failure.

    The abstract specification is a finite map from keys to data; the theorems
    show that the table refines it, that every probe loop ends, and that a
    failed allocation changes nothing. *)

From stdpp Require Import gmap list.
From Stdlib Require Import ZArith Lia ZifyBool.
From S2P Require Import Prelude.
Open Scope Z_scope.

(** ** Data *)

(** ENTRY: a NULL key marks a free entry. *)
Record entry : Type := Entry { ekey : option (list Z); edata : Z }.
Definition zero_entry : entry := Entry None 0.

(** struct __tab *)
Record tab : Type := Tab { entries : option (list entry); mask : Z; used : Z }.

Inductive ACTION : Type := FIND | ENTER.

Definition MINSIZE : Z := 8.
Definition MAXSIZE : Z := SIZE_MAX / 2 + 1.

(** ** Operations *)

Definition keyhash (k : list Z) : Z := fold_left (fun h c => u64 (31 * h + c)) k 0.

Definition entry_at (es : list entry) (i : Z) : entry := nth (Z.to_nat i) es zero_entry.

(** for (i=hash, j=1; ; i+=j++): the first entry of the probe sequence that
    satisfies [stop]. *)
Fixpoint probe (fuel : nat) (stop : entry -> bool) (es : list entry) (m i j : Z) : option Z :=
  match fuel with
  | O => None
  | S fuel =>
      let e := Z.land i m in
      if stop (entry_at es e) then Some e
      else probe fuel stop es m (u64 (i + j)) (j + 1)
  end.

Definition is_free (e : entry) : bool := match ekey e with None => true | Some _ => false end.
Definition free_or_key (k : list Z) (e : entry) : bool :=
  match ekey e with None => true | Some k' => bool_decide (k' = k) end.

Definition lookup (k : list Z) (hash : Z) (es : list entry) (m : Z) : option Z :=
  probe (length es) (free_or_key k) es m hash 1.

(** for (newsize = MINSIZE; newsize < nel; newsize *= 2); *)
Definition newsize (nel : Z) : Z :=
  while (fun n => n <? nel) (fun n => u64 (n * 2)) 64 MINSIZE.

(** *newe = *e for every entry that has a key. *)
Fixpoint rehash (old es : list entry) (m : Z) : option (list entry) :=
  match old with
  | [] => Some es
  | e :: old =>
      match ekey e with
      | None => rehash old es m
      | Some k =>
          let? i := probe (length es) is_free es m (keyhash k) 1 in
          rehash old (<[Z.to_nat i := e]> es) m
      end
  end.

(** resize: the returned int and the table. *)
Definition resize (alloc : bool) (nel : Z) (t : tab) : option (Z * tab) :=
  let oldtab := entries t in
  let nel := if MAXSIZE <? nel then MAXSIZE else nel in
  let n := newsize nel in
  if negb alloc then Some (0, Tab oldtab (mask t) (used t))
  else
    let es := replicate (Z.to_nat n) zero_entry in
    match oldtab with
    | None => Some (1, Tab (Some es) (n - 1) (used t))
    | Some old =>
        let? es := rehash old es (n - 1) in
        Some (1, Tab (Some es) (n - 1) (used t))
    end.

(** __hcreate_r: the result and htab->__tab. *)
Definition hcreate_r (alloc1 alloc2 : bool) (nel : Z) : option (Z * option tab) :=
  if negb alloc1 then Some (0, None)
  else
    let? (r, t) := resize alloc2 nel (Tab None 0 0) in
    Some (r, if r =? 0 then None else Some t).

(** __hdestroy_r *)
Definition hdestroy_r (t : option tab) : option tab := None.

(** __hsearch_r: the result, *retval and the table. *)
Definition hsearch_r (alloc : bool) (k : list Z) (d : Z) (action : ACTION) (t : tab)
  : option (Z * option Z * tab) :=
  let hash := keyhash k in
  match entries t with
  | None => None
  | Some es =>
      let? e := lookup k hash es (mask t) in
      if negb (is_free (entry_at es e)) then Some (1, Some e, t)
      else
        match action with
        | FIND => Some (0, None, t)
        | ENTER =>
            let es := <[Z.to_nat e := Entry (Some k) d]> es in
            let t := Tab (Some es) (mask t) (u64 (used t + 1)) in
            if mask t - mask t / 4 <? used t then
              let? (r, t) := resize alloc (u64 (2 * used t)) t in
              match entries t with
              | None => None
              | Some es =>
                  if r =? 0 then
                    let es := <[Z.to_nat e := Entry None (edata (entry_at es e))]> es in
                    Some (0, None, Tab (Some es) (mask t) (u64 (used t - 1)))
                  else
                    let? e := lookup k hash es (mask t) in
                    Some (1, Some e, t)
              end
            else Some (1, Some e, t)
        end
  end.

(** ** The probe sequence visits the whole table *)

(** The distance of the [n]-th probe. *)
Definition tri (n : Z) : Z := n * (n + 1) / 2.

Lemma tri_double n : 2 * tri n = n * (n + 1).
Proof.
  unfold tri. rewrite <- Z.divide_div_mul_exact; [|lia|].
  - rewrite Z.mul_comm. apply Z.div_mul. lia.
  - destruct (Z.Even_or_Odd n) as [[m ->]|[m ->]].
    + exists (m * (2 * m + 1)). lia.
    + exists ((2 * m + 1) * (m + 1)). lia.
Qed.

Lemma tri_succ n : tri (n + 1) = tri n + (n + 1).
Proof. pose proof (tri_double n). pose proof (tri_double (n + 1)). nia. Qed.

(** A power of two that divides a product of an even and an odd number divides
    the even one. *)
Lemma odd_coprime_pow2 k x : 0 <= k -> Z.odd x = true -> Z.gcd (2 ^ k) x = 1.
Proof.
  intros Hk Hx. apply Z.coprime_pow_l; [done|]. apply Z.odd_spec in Hx as [m ->].
  apply Z.bezout_1_gcd. exists (- m), 1. lia.
Qed.

Lemma tri_inj k a b :
  0 <= k -> 0 <= a < 2 ^ k -> 0 <= b < 2 ^ k -> tri a mod 2 ^ k = tri b mod 2 ^ k -> a = b.
Proof.
  intros Hk. enough (H : forall a b, 0 <= a < b -> b < 2 ^ k -> tri a mod 2 ^ k <> tri b mod 2 ^ k).
  { intros Ha Hb E. destruct (Z.lt_trichotomy a b) as [Hl|[?|Hl]]; [|done|].
    - destruct (H a b ltac:(lia) ltac:(lia) E).
    - destruct (H b a ltac:(lia) ltac:(lia) (eq_sym E)). }
  clear a b. intros a b Ha Hb E.
  assert (Hdiv : (2 ^ k * 2 | (b - a) * (b + a + 1))).
  { replace ((b - a) * (b + a + 1)) with ((tri b - tri a) * 2)
      by (pose proof (tri_double a); pose proof (tri_double b); nia).
    apply Z.mul_divide_mono_r, Z.mod_divide; [lia|].
    rewrite Zminus_mod, E, Z.sub_diag. apply Z.mod_0_l. lia. }
  rewrite (Z.mul_comm (2 ^ k)), <- Z.pow_succ_r in Hdiv by done.
  destruct (Z.odd (b - a)) eqn:Eo.
  - apply Z.gauss in Hdiv; [|by apply odd_coprime_pow2; [lia|]].
    apply Z.divide_pos_le in Hdiv; [|lia]. rewrite Z.pow_succ_r in Hdiv by done. lia.
  - rewrite Z.mul_comm in Hdiv. apply Z.gauss in Hdiv.
    + apply Z.divide_pos_le in Hdiv; [|lia]. rewrite Z.pow_succ_r in Hdiv by done. lia.
    + apply odd_coprime_pow2; [lia|].
      replace (b + a + 1) with (b - a + (2 * a + 1)) by ring.
      rewrite Z.odd_add, Eo, Z.odd_add, Z.odd_mul. done.
Qed.

(** The index of the [n]-th probe for a hash. *)
Definition pos (k hash n : Z) : Z := (hash + tri n) mod 2 ^ k.

Lemma pos_range k hash n : 0 <= k -> 0 <= pos k hash n < 2 ^ k.
Proof. intros. apply Z.mod_pos_bound. lia. Qed.

Lemma pos_inj k hash a b :
  0 <= k -> 0 <= a < 2 ^ k -> 0 <= b < 2 ^ k -> pos k hash a = pos k hash b -> a = b.
Proof.
  intros Hk Ha Hb E. apply (tri_inj k); auto. unfold pos in E.
  replace (tri a) with (hash + tri a - hash) by ring.
  replace (tri b) with (hash + tri b - hash) by ring.
  by rewrite Zminus_mod, E, <- Zminus_mod.
Qed.

(** Every index is probed within 2^k probes. *)
Lemma pos_onto k hash i :
  0 <= k -> 0 <= i < 2 ^ k -> exists n, 0 <= n < 2 ^ k /\ pos k hash n = i.
Proof.
  intros Hk Hi. set (l := seqZ 0 (2 ^ k)).
  assert (Hincl : List.incl l (List.map (pos k hash) l)).
  { apply NoDup_length_incl.
    - apply NoDup_ListNoDup, NoDup_fmap_2_strong; [|apply NoDup_seqZ].
      intros a b Ha Hb. apply elem_of_seqZ in Ha, Hb. apply pos_inj; lia.
    - by rewrite length_map.
    - intros x Hx. apply in_map_iff in Hx as (n & <- & Hn).
      apply list_elem_of_In, elem_of_seqZ. pose proof (pos_range k hash n Hk). lia. }
  assert (Hin : In i l) by (apply list_elem_of_In, elem_of_seqZ; lia).
  apply Hincl, in_map_iff in Hin as (n & E & Hn). exists n. split; [|done].
  apply list_elem_of_In, elem_of_seqZ in Hn. lia.
Qed.

Lemma land_mask i k : 0 <= k -> Z.land i (2 ^ k - 1) = i mod 2 ^ k.
Proof. intros. rewrite <- Z.land_ones, Z.ones_equiv by done. done. Qed.

Lemma u64_mod x k : 0 <= k <= 64 -> u64 x mod 2 ^ k = x mod 2 ^ k.
Proof.
  intros Hk. unfold u64. change 18446744073709551616 with (2 ^ 64).
  apply Z.mod_mod_divide. exists (2 ^ (64 - k)). rewrite <- Z.pow_add_r by lia. f_equal. lia.
Qed.

(** The probe loop returns the first probe that satisfies [stop]. *)
Lemma probe_ok k hash stop es fuel n :
  0 <= k <= 64 -> 0 <= n ->
  (exists n', n <= n' < n + Z.of_nat fuel /\ stop (entry_at es (pos k hash n')) = true) ->
  exists n', n <= n' < n + Z.of_nat fuel /\ stop (entry_at es (pos k hash n')) = true /\
    (forall m, n <= m < n' -> stop (entry_at es (pos k hash m)) = false) /\
    probe fuel stop es (2 ^ k - 1) (u64 (hash + tri n)) (n + 1) = Some (pos k hash n').
Proof.
  intros Hk. revert n; induction fuel as [|fuel IH]; intros n Hn (n' & Hn' & Hs); [lia|].
  cbn [probe]. rewrite land_mask, u64_mod by lia. fold (pos k hash n).
  destruct (stop (entry_at es (pos k hash n))) eqn:E.
  { exists n. split_and!; try lia; done. }
  replace (u64 (u64 (hash + tri n) + (n + 1))) with (u64 (hash + tri (n + 1)))
    by (rewrite tri_succ; unfold u64; rewrite Zplus_mod_idemp_l; f_equal; ring).
  destruct (IH (n + 1)) as (n2 & H1 & H2 & H3 & H4); [lia| |].
  { exists n'. split; [|done]. assert (n <> n') by congruence. lia. }
  exists n2. split_and!; try lia; auto.
  intros m Hm. destruct (Z.eq_dec m n) as [->|]; [done|]. apply H3. lia.
Qed.

(** ** Valid tables *)

Definition pair_of (e : entry) : option (list Z * Z) := k ← ekey e; Some (k, edata e).
Definition pairs (es : list entry) : list (list Z * Z) := omap pair_of es.

(** The entry with key [key] is where its probe sequence first leaves the
    entries of other keys. *)
Definition placed (k : Z) (es : list entry) : Prop :=
  forall i e key, es !! i = Some e -> ekey e = Some key ->
  exists n, 0 <= n < 2 ^ k /\ Z.to_nat (pos k (keyhash key) n) = i /\
    forall m, 0 <= m < n -> exists key', ekey (entry_at es (pos k (keyhash key) m)) = Some key' /\ key' <> key.

Definition valid (k : Z) (es : list entry) : Prop :=
  3 <= k <= 63 /\ Z.of_nat (length es) = 2 ^ k /\ placed k es /\ NoDup (map fst (pairs es)).

Lemma entry_at_lookup es i : (Z.to_nat i < length es)%nat -> es !! Z.to_nat i = Some (entry_at es i).
Proof.
  intros H. unfold entry_at. destruct (lookup_lt_is_Some_2 es _ H) as [e He].
  rewrite He. f_equal. symmetry. by apply nth_lookup_Some.
Qed.

Lemma entry_at_pos k es hash n :
  valid k es -> es !! Z.to_nat (pos k hash n) = Some (entry_at es (pos k hash n)).
Proof.
  intros (Hk & Hl & _). apply entry_at_lookup. pose proof (pos_range k hash n). lia.
Qed.

Lemma pairs_app l1 l2 : pairs (l1 ++ l2) = pairs l1 ++ pairs l2.
Proof. apply omap_app. Qed.

Lemma pairs_insert es i e e' :
  es !! i = Some e -> ekey e = None ->
  pairs (<[i := e']> es) ≡ₚ from_option (fun p => [p]) [] (pair_of e') ++ pairs es.
Proof.
  intros Hi He. assert (Hlt : (i < length es)%nat) by (by eapply lookup_lt_Some).
  rewrite insert_take_drop by done. rewrite <- (take_drop_middle es i e Hi) at 3.
  rewrite !pairs_app. unfold pairs at 2 4. simpl.
  assert (pair_of e = None) as -> by (unfold pair_of; by rewrite He).
  destruct (pair_of e') as [p|]; simpl; [|done]. by rewrite Permutation_middle.
Qed.

Lemma pairs_in es key d :
  (key, d) ∈ pairs es <-> exists i, es !! i = Some (Entry (Some key) d).
Proof.
  unfold pairs. rewrite list_elem_of_omap. split.
  - intros ([[k'|] d'] & Hx & E); simpl in E; [|done]. injection E as -> ->.
    by apply list_elem_of_lookup in Hx.
  - intros [i Hi]. exists (Entry (Some key) d). split; [by eapply list_elem_of_lookup_2|done].
Qed.

(** The probe of a key ends at its entry or, if it is absent, at a free one. *)
Definition stops_at (k : Z) (es : list entry) (key : list Z) (i : Z) : Prop :=
  exists n, 0 <= n < 2 ^ k /\ pos k (keyhash key) n = i /\
    forall m, 0 <= m < n -> exists key', ekey (entry_at es (pos k (keyhash key) m)) = Some key' /\ key' <> key.

Lemma keyhash_range key : 0 <= keyhash key < 18446744073709551616.
Proof.
  unfold keyhash. rewrite <- fold_left_rev_right. destruct (rev key); simpl; [lia|]. apply u64_range.
Qed.

Lemma free_exists k es :
  valid k es -> Z.of_nat (length (pairs es)) < 2 ^ k ->
  exists i e, es !! i = Some e /\ ekey e = None.
Proof.
  intros (_ & Hl & _) Hc.
  destruct (decide (Exists (fun e => ekey e = None) es)) as [Hx|Hx].
  - apply Exists_exists in Hx as (e & He & E). apply list_elem_of_lookup in He as [i Hi]. eauto.
  - exfalso. apply not_Exists_Forall in Hx; [|intros e; destruct (ekey e); [by right|by left]].
    enough (length (pairs es) = length es) by lia.
    clear -Hx. induction Hx as [|e es He _ IH]; simpl; [done|].
    unfold pairs, pair_of in *. simpl in *. destruct (ekey e); simpl; [by rewrite IH|done].
Qed.

(** A probe from the start, for a test that some entry passes. *)
Lemma probe_start k es key stop i e :
  valid k es -> es !! i = Some e -> stop e = true ->
  exists n, 0 <= n < 2 ^ k /\ stop (entry_at es (pos k (keyhash key) n)) = true /\
    (forall m, 0 <= m < n -> stop (entry_at es (pos k (keyhash key) m)) = false) /\
    probe (length es) stop es (2 ^ k - 1) (keyhash key) 1 = Some (pos k (keyhash key) n).
Proof.
  intros (Hk & Hl & _) Hi He. pose proof (lookup_lt_Some _ _ _ Hi).
  destruct (pos_onto k (keyhash key) (Z.of_nat i)) as (n0 & Hn0 & Hp0); [lia|lia|].
  destruct (probe_ok k (keyhash key) stop es (length es) 0) as (n & H1 & H2 & H3 & H4); [lia|lia| |].
  - exists n0. split; [lia|]. rewrite Hp0. unfold entry_at. rewrite Nat2Z.id.
    by rewrite (nth_lookup_Some _ _ _ _ Hi).
  - rewrite Hl in H1. unfold tri at 1 in H4. simpl in H4. rewrite Z.add_0_r, Z.add_0_l in H4.
    rewrite u64_small in H4 by apply keyhash_range. exists n. split_and!; auto; lia.
Qed.

Lemma entry_at_insert_ne es i e x :
  Z.to_nat x <> i -> entry_at (<[i := e]> es) x = entry_at es x.
Proof.
  intros Hx. unfold entry_at. rewrite !nth_lookup. by rewrite list_lookup_insert_ne.
Qed.

Lemma lookup_present k es i key d :
  valid k es -> es !! i = Some (Entry (Some key) d) ->
  lookup key (keyhash key) es (2 ^ k - 1) = Some (Z.of_nat i).
Proof.
  intros Hv Hi. pose proof Hv as (_ & _ & Hpl & _).
  assert (Hstop : free_or_key key (Entry (Some key) d) = true)
    by (unfold free_or_key; simpl; by apply bool_decide_eq_true).
  destruct (probe_start k es key (free_or_key key) i _ Hv Hi Hstop) as (n & Hn & Hs & Hb & E).
  destruct (Hpl i _ key Hi eq_refl) as (n0 & Hn0 & Hp & Hpre). unfold lookup. rewrite E.
  assert (n = n0) as ->; [|f_equal; pose proof (pos_range k (keyhash key) n0); destruct Hv; lia].
  destruct (Z.lt_trichotomy n n0) as [Hl|[?|Hl]]; [|done|].
  - destruct (Hpre n) as (key' & Ek & Hne); [lia|]. unfold free_or_key in Hs. rewrite Ek in Hs.
    by apply bool_decide_eq_true in Hs.
  - specialize (Hb n0 ltac:(lia)). pose proof (entry_at_pos k es (keyhash key) n0 Hv) as He.
    rewrite Hp, Hi in He. injection He as He. rewrite <- He in Hb. congruence.
Qed.

Lemma lookup_absent k es key :
  valid k es -> Z.of_nat (length (pairs es)) < 2 ^ k -> key ∉ map fst (pairs es) ->
  exists i, lookup key (keyhash key) es (2 ^ k - 1) = Some i /\ stops_at k es key i /\
    0 <= i < 2 ^ k /\ exists e, es !! Z.to_nat i = Some e /\ ekey e = None.
Proof.
  intros Hv Hc Hk. destruct (free_exists k es Hv Hc) as (i0 & e0 & Hi0 & He0).
  assert (Hstop : free_or_key key e0 = true) by (unfold free_or_key; by rewrite He0).
  destruct (probe_start k es key (free_or_key key) i0 _ Hv Hi0 Hstop) as (n & Hn & Hs & Hb & E).
  exists (pos k (keyhash key) n).
  split; [exact E|split; [|split; [apply pos_range; destruct Hv; lia|]]].
  - exists n. split; [lia|split; [done|]]. intros m Hm. specialize (Hb m Hm). revert Hb. unfold free_or_key.
    destruct (ekey (entry_at es (pos k (keyhash key) m))) as [key'|]; [|done]. intros Hb. apply bool_decide_eq_false in Hb. eauto.
  - pose proof (entry_at_pos k es (keyhash key) n Hv) as He. eexists. split; [exact He|].
    revert Hs. unfold free_or_key. 
    destruct (ekey (entry_at es (pos k (keyhash key) n))) as [key'|] eqn:Ek; [|done]. intros Hs.
    apply bool_decide_eq_true in Hs as ->. destruct Hk. apply list_elem_of_fmap.
    exists (key, edata (entry_at es (pos k (keyhash key) n))). split; [done|].
    apply pairs_in. exists (Z.to_nat (pos k (keyhash key) n)). rewrite He. f_equal.
    destruct (entry_at es (pos k (keyhash key) n)); simpl in *. by rewrite Ek.
Qed.

(** Filling the free entry where the probe of an absent key stops. *)
Lemma valid_insert k es i e0 key d :
  valid k es -> 0 <= i -> es !! Z.to_nat i = Some e0 -> ekey e0 = None -> stops_at k es key i ->
  key ∉ map fst (pairs es) ->
  valid k (<[Z.to_nat i := Entry (Some key) d]> es) /\
  pairs (<[Z.to_nat i := Entry (Some key) d]> es) ≡ₚ (key, d) :: pairs es.
Proof.
  intros Hv Hi0 Hi He (n & Hn & Hp & Hpre) Hk. pose proof Hv as (Hk3 & Hl & Hpl & Hnd).
  assert (Hfree : forall h m key', ekey (entry_at es (pos k h m)) = Some key' -> Z.to_nat (pos k h m) <> Z.to_nat i).
  { intros h m key' Hkey E. pose proof (entry_at_pos k es h m Hv) as Hx. rewrite E, Hi in Hx.
    injection Hx as Hx. rewrite <- Hx in Hkey. congruence. }
  assert (Hperm := pairs_insert es _ e0 (Entry (Some key) d) Hi He). simpl in Hperm.
  split; [|done]. split_and!; try lia.
  - by rewrite length_insert.
  - intros j e key' Hj Hkey. apply list_lookup_insert_Some in Hj as [(<- & <- & _)|[Hne Hj]].
    + injection Hkey as <-. exists n. rewrite Hp. split_and!; try lia.
      intros m Hm. destruct (Hpre m Hm) as (key'' & E & ?). exists key''.
      by rewrite entry_at_insert_ne by (by eapply Hfree).
    + destruct (Hpl j e key' Hj Hkey) as (n' & Hn' & Hp' & Hpre'). exists n'. split_and!; try lia.
      intros m Hm. destruct (Hpre' m Hm) as (key'' & E & ?). exists key''.
      by rewrite entry_at_insert_ne by (by eapply Hfree).
  - rewrite Hperm. simpl. by constructor.
Qed.

(** Overwriting a free entry by a free one. *)
Lemma valid_free k es i e0 e :
  valid k es -> es !! i = Some e0 -> ekey e0 = None -> ekey e = None ->
  valid k (<[i := e]> es) /\ pairs (<[i := e]> es) ≡ₚ pairs es.
Proof.
  intros Hv Hi H0 He. pose proof Hv as (Hk3 & Hl & Hpl & Hnd).
  assert (Hperm := pairs_insert es i e0 e Hi H0). unfold pair_of in Hperm. rewrite He in Hperm.
  simpl in Hperm. split; [|done]. split_and!; try lia.
  - by rewrite length_insert.
  - intros j e' key' Hj Hkey. apply list_lookup_insert_Some in Hj as [(<- & <- & _)|[Hne Hj]]; [congruence|].
    destruct (Hpl j e' key' Hj Hkey) as (n' & Hn' & Hp' & Hpre'). exists n'. split_and!; try lia.
    intros m Hm. destruct (Hpre' m Hm) as (key'' & E & ?). exists key''.
    rewrite entry_at_insert_ne; [done|]. intros E'.
    pose proof (entry_at_pos k es (keyhash key') m Hv) as Hx. rewrite E', Hi in Hx.
    injection Hx as Hx. rewrite <- Hx in E. congruence.
  - by rewrite Hperm.
Qed.

Lemma rehash_ok k old es :
  valid k es -> NoDup (map fst (pairs old ++ pairs es)) ->
  Z.of_nat (length (pairs old) + length (pairs es)) < 2 ^ k ->
  exists es', rehash old es (2 ^ k - 1) = Some es' /\ valid k es' /\ pairs es' ≡ₚ pairs old ++ pairs es.
Proof.
  revert es; induction old as [|[[key|] d] old IH]; intros es Hv Hnd Hc; simpl.
  - by exists es.
  - change (pairs (Entry (Some key) d :: old)) with ((key, d) :: pairs old) in *. simpl in Hnd, Hc.
    apply NoDup_cons in Hnd as [Hkey Hnd].
    assert (Hk : key ∉ map fst (pairs es)) by (rewrite map_app in Hkey; set_solver).
    destruct (free_exists k es Hv) as (i0 & e0 & Hi0 & He0); [lia|].
    destruct (probe_start k es key is_free i0 e0 Hv Hi0) as (n & Hn & Hs & Hb & E);
      [unfold is_free; by rewrite He0|].
    rewrite E. simpl. pose proof (entry_at_pos k es (keyhash key) n Hv) as He.
    assert (Hst : stops_at k es key (pos k (keyhash key) n)).
    { exists n. split; [lia|split; [done|]]. intros m Hm. specialize (Hb m Hm).
      revert Hb. unfold is_free.
      destruct (ekey (entry_at es (pos k (keyhash key) m))) as [key'|] eqn:Ek; [|done].
      intros _. exists key'. split; [done|]. intros ->. apply Hk, list_elem_of_fmap.
      exists (key, edata (entry_at es (pos k (keyhash key) m))). split; [done|].
      apply pairs_in. exists (Z.to_nat (pos k (keyhash key) m)).
      rewrite (entry_at_pos k es _ _ Hv). f_equal.
      destruct (entry_at es (pos k (keyhash key) m)); simpl in *. by rewrite Ek. }
    destruct (valid_insert k es _ _ key d Hv (proj1 (pos_range k (keyhash key) n ltac:(destruct Hv; lia))) He)
      as [Hv' Hp']; auto.
    { revert Hs. unfold is_free. by destruct (ekey (entry_at es (pos k (keyhash key) n))). }
    destruct (IH _ Hv') as (es' & E' & Hv'' & Hp''); [|rewrite Hp'; simpl; lia|].
    { rewrite Hp'. rewrite <- Permutation_middle. simpl. by constructor. }
    exists es'. split_and!; auto. rewrite Hp'', Hp'. by rewrite <- Permutation_middle.
  - apply IH; auto.
Qed.

(** ** Sizes *)

Lemma newsize_ok nel :
  nel <= 2 ^ 63 -> exists k, 3 <= k <= 63 /\ newsize nel = 2 ^ k /\ nel <= 2 ^ k /\ (k = 3 \/ 2 ^ (k - 1) < nel).
Proof.
  intros Hnel. unfold newsize.
  destruct (while_rule (fun n => n <? nel) (fun n => u64 (n * 2))
    (fun n => exists k, 3 <= k <= 63 /\ n = 2 ^ k /\ (k = 3 \/ 2 ^ (k - 1) < nel))
    (fun n => Z.to_nat (63 - Z.log2 n)) 64 MINSIZE) as [(k & Hk & E & Hm) Hc].
  - intros s (k & Hk & -> & Hm) Hlt. apply Z.ltb_lt in Hlt.
    assert (Hk63 : k < 63) by (apply (Z.pow_lt_mono_r_iff 2); lia).
    assert (E : u64 (2 ^ k * 2) = 2 ^ (k + 1)).
    { rewrite Z.pow_add_r, Z.pow_1_r by lia. apply u64_small.
      pose proof (Z.pow_le_mono_r 2 k 62). lia. }
    rewrite E, !Z.log2_pow2 by lia. split; [|lia]. exists (k + 1). split_and!; try lia.
    right. by replace (k + 1 - 1) with k by lia.
  - exists 3. split; [lia|split; [done|by left]].
  - simpl. lia.
  - exists k. apply Z.ltb_ge in Hc. rewrite E in *. split_and!; auto; lia.
Qed.

(** ** Refinement of a finite map *)

Lemma valid_replicate k :
  3 <= k <= 63 -> valid k (replicate (Z.to_nat (2 ^ k)) zero_entry) /\
  pairs (replicate (Z.to_nat (2 ^ k)) zero_entry) = [].
Proof.
  intros Hk. assert (Hp : pairs (replicate (Z.to_nat (2 ^ k)) zero_entry) = []).
  { induction (Z.to_nat (2 ^ k)) as [|n IH]; [done|]. exact IH. }
  split; [|done]. split; [done|split; [rewrite length_replicate; lia|split]].
  - intros i e key Hi He. apply lookup_replicate in Hi as [-> _]. done.
  - rewrite Hp. constructor.
Qed.

(** The table holds the finite map [m]. *)
Definition table (t : tab) (m : gmap (list Z) Z) : Prop :=
  exists k es, entries t = Some es /\ mask t = 2 ^ k - 1 /\ valid k es /\
    pairs es ≡ₚ map_to_list m /\ used t = Z.of_nat (size m) /\ used t <= mask t - mask t / 4.

(** Where a pointer returned by hsearch points. *)
Definition points_to (t : tab) (i : Z) (key : list Z) (d : Z) : Prop :=
  exists es, entries t = Some es /\ es !! Z.to_nat i = Some (Entry (Some key) d).

Lemma quarter k : 3 <= k -> 2 ^ k - 1 - (2 ^ k - 1) / 4 = 3 * 2 ^ (k - 2) /\ 2 ^ k = 4 * 2 ^ (k - 2) /\ 2 <= 2 ^ (k - 2).
Proof.
  intros Hk. assert (E : 2 ^ k = 4 * 2 ^ (k - 2)).
  { replace k with (2 + (k - 2)) at 1 by lia. by rewrite Z.pow_add_r by lia. }
  pose proof (Z.pow_le_mono_r 2 1 (k - 2)). rewrite E. split; [zlia|]. lia.
Qed.

Lemma pairs_keys (es : list entry) (m : gmap (list Z) Z) : pairs es ≡ₚ map_to_list m -> forall key, key ∈ map fst (pairs es) <-> is_Some (m !! key).
Proof.
  intros Hp key. rewrite Hp. split.
  - intros Hin. apply list_elem_of_fmap in Hin as ([k d] & -> & Hin).
    apply elem_of_map_to_list in Hin. eauto.
  - intros [d Hd]. apply list_elem_of_fmap. exists (key, d). split; [done|].
    by apply elem_of_map_to_list.
Qed.

Lemma resize_ok (alloc : bool) (k : Z) (es : list entry) (u nel : Z) (m : gmap (list Z) Z) :
  valid k es -> pairs es ≡ₚ map_to_list m -> nel <= 2 ^ 63 -> 2 * Z.of_nat (size m) <= nel -> 0 < nel ->
  if alloc then
    exists k' es', resize alloc nel (Tab (Some es) (2 ^ k - 1) u) = Some (1, Tab (Some es') (2 ^ k' - 1) u) /\
      valid k' es' /\ pairs es' ≡ₚ map_to_list m /\ nel <= 2 ^ k'
  else resize alloc nel (Tab (Some es) (2 ^ k - 1) u) = Some (0, Tab (Some es) (2 ^ k - 1) u).
Proof.
  intros Hv Hp Hnel Hsz Hpos. unfold resize. destruct alloc; [|done]. simpl negb. cbv iota.
  replace (if MAXSIZE <? nel then MAXSIZE else nel) with nel
    by (change MAXSIZE with (2 ^ 63); case_if; lia).
  destruct (newsize_ok nel Hnel) as (k' & Hk' & -> & Hle & _).
  destruct (valid_replicate k' Hk') as [Hv' Hp'].
  destruct (rehash_ok k' es _ Hv') as (es' & E & Hv2 & Hp2).
  - rewrite Hp', app_nil_r. by destruct Hv as (_ & _ & _ & ?).
  - rewrite Hp', Hp, length_map_to_list. simpl. lia.
  - simpl entries. cbv iota. rewrite E. simpl. exists k', es'. rewrite Hp', app_nil_r in Hp2.
    split_and!; auto. by rewrite Hp2.
Qed.

(** C21. hsearch refines a finite map: on a table that holds the map [m] and has
    fewer than 2^61 entries, no probe runs forever; when the key is bound, FIND
    and ENTER both return the entry that holds it and change nothing; when it
    is not, FIND returns NULL and changes nothing, and ENTER either returns an
    entry that holds the new pair in a table for [m] extended with it, possibly
    a table of twice the size, or, only when an allocation failed, returns NULL
    with a table that still holds [m]. *)
Theorem hsearch_refines alloc key d action t m :
  table t m -> mask t < 2 ^ 61 ->
  match m !! key with
  | Some d' => exists i, hsearch_r alloc key d action t = Some (1, Some i, t) /\ points_to t i key d'
  | None =>
      match action with
      | FIND => hsearch_r alloc key d action t = Some (0, None, t)
      | ENTER =>
          (exists i t', hsearch_r alloc key d action t = Some (1, Some i, t') /\
             table t' (<[key := d]> m) /\ points_to t' i key d) \/
          (alloc = false /\
           exists t', hsearch_r alloc key d action t = Some (0, None, t') /\ table t' m)
      end
  end.
Proof.
  intros (k & es & Ees & Em & Hv & Hp & Hu & Hload) Hsmall.
  pose proof Hv as (Hk & Hl & _). destruct (quarter k) as (Hq & H4 & H2); [lia|].
  rewrite Em, Hq in Hload. unfold hsearch_r. rewrite Ees, Em.
  destruct (m !! key) as [d'|] eqn:Ekey.
  - assert (Hin : (key, d') ∈ pairs es) by (rewrite Hp; by apply elem_of_map_to_list).
    apply pairs_in in Hin as [i Hi]. rewrite (lookup_present k es i key d' Hv Hi). simpl.
    unfold entry_at. rewrite Nat2Z.id, (nth_lookup_Some _ _ _ _ Hi). simpl.
    eexists. split; [done|]. exists es. by rewrite Nat2Z.id.
  - assert (Hkey : key ∉ map fst (pairs es)) by (rewrite (pairs_keys es m Hp), Ekey; by intros [? ?]).
    destruct (lookup_absent k es key Hv) as (i & E & Hst & Hi & e & He & Hfree); auto.
    { rewrite Hp, length_map_to_list. unfold size in *. lia. }
    assert (Hei : entry_at es i = e) by (unfold entry_at; by apply nth_lookup_Some).
    assert (Hfr : is_free e = true) by (unfold is_free; by rewrite Hfree).
    rewrite E. simpl bind. rewrite Hei, Hfr. simpl negb. cbv iota.
    destruct action; [done|].
    destruct (valid_insert k es i e key d) as [Hv1 Hp1]; auto; [lia|].
    set (es1 := <[Z.to_nat i := Entry (Some key) d]> es) in *.
    assert (Hp1' : pairs es1 ≡ₚ map_to_list (<[key := d]> m))
      by (rewrite Hp1, Hp, map_to_list_insert by done; done).
    assert (Hsz : Z.of_nat (size (<[key := d]> m)) = used t + 1) by (rewrite map_size_insert_None; [lia|done]).
    assert (H2k : 2 ^ k <= 2 ^ 61) by lia.
    rewrite (u64_small (used t + 1)) by lia. rewrite Hq.
    destruct (Z.ltb_spec (3 * 2 ^ (k - 2)) (used t + 1)) as [Hgrow|Hfit].
    + rewrite u64_small by lia.
      pose proof (resize_ok alloc k es1 (used t + 1) (2 * (used t + 1)) _ Hv1 Hp1') as Hr.
      cbn [used mask entries] in *. destruct alloc.
      * destruct Hr as (k' & es' & E' & Hv' & Hp' & Hle); [lia|lia|lia|]. rewrite E'. simpl bind.
        left. cbn [entries mask]. change (1 =? 0) with false. cbv iota.
        assert (Hin : (key, d) ∈ pairs es').
        { rewrite Hp'. apply elem_of_map_to_list, lookup_insert_eq. }
        apply pairs_in in Hin as [i' Hi'].
        rewrite (lookup_present k' es' i' key d Hv' Hi'). simpl bind.
        eexists _, _. split; [reflexivity|]. split.
        -- destruct (quarter k') as (Hq' & ? & ?); [destruct Hv'; lia|].
           exists k', es'. cbn [used mask entries]. split_and!; auto; lia.
        -- exists es'. by rewrite Nat2Z.id.
      * rewrite Hr by lia. simpl bind. cbn [entries mask used]. change (0 =? 0) with true. cbv iota.
        right. split; [done|]. eexists. split; [reflexivity|].
        assert (Hins : forall x, <[Z.to_nat i := x]> es1 = <[Z.to_nat i := x]> es)
          by (intros; unfold es1; apply list_insert_insert_eq). rewrite Hins.
        destruct (valid_free k es (Z.to_nat i) e (Entry None (edata (entry_at es1 i)))) as [Hv2 Hp2]; auto.
        exists k. eexists. cbn [entries used mask].
        rewrite (u64_small (used t + 1 - 1)) by lia.
        split_and!; [reflexivity|done|exact Hv2|by rewrite Hp2|lia|lia].
    + left. eexists i, _. split; [reflexivity|]. split.
      * exists k, es1. cbn [entries used mask]. split_and!; auto; lia.
      * exists es1. split; [done|]. unfold es1. apply list_lookup_insert_eq. lia.
Qed.

(** Creating a table: hcreate fails only when an allocation does, and otherwise
    gives an empty map, whatever the size asked for. *)
Lemma hcreate_ok alloc1 alloc2 nel :
  0 <= nel <= SIZE_MAX ->
  if alloc1 && alloc2 then exists t, hcreate_r alloc1 alloc2 nel = Some (1, Some t) /\ table t ∅
  else hcreate_r alloc1 alloc2 nel = Some (0, None).
Proof.
  intros Hnel. unfold hcreate_r, resize. destruct alloc1; [|done]. simpl. destruct alloc2; [|done]. simpl.
  destruct (newsize_ok (if MAXSIZE <? nel then MAXSIZE else nel)) as (k & Hk & -> & _);
    [change MAXSIZE with (2 ^ 63); case_if; lia|].
  destruct (valid_replicate k Hk) as [Hv Hp]. eexists. split; [reflexivity|].
  destruct (quarter k) as (Hq & _ & _); [lia|].
  exists k. eexists. split_and!; [reflexivity|done|exact Hv|by rewrite Hp, map_to_list_empty|done|].
  simpl. rewrite Hq. lia.
Qed.

Lemma hsearch_refines_witness :
  exists t, hcreate_r true true 5 = Some (1, Some t) /\
    exists i t', hsearch_r true [97; 98] 7 ENTER t = Some (1, Some i, t') /\ points_to t' i [97; 98] 7.
Proof.
  exists (Tab (Some (replicate 8 zero_entry)) 7 0). split; [vm_compute; reflexivity|].
  pose proof (hsearch_refines true [97; 98] 7 ENTER (Tab (Some (replicate 8 zero_entry)) 7 0) ∅) as Hs.
  rewrite lookup_empty in Hs. destruct Hs as [(i & t' & E & _ & Hp)|[Hf _]].
  - destruct (valid_replicate 3 ltac:(lia)) as [Hv Hp]. exists 3, (replicate 8 zero_entry).
    split_and!; [done|done|exact Hv|by rewrite map_to_list_empty|done|vm_compute; discriminate].
  - vm_compute; reflexivity.
  - eauto.
  - discriminate.
Defined.

(** hsearch on a failing allocation: a full table of seven keys stays as it is. *)
Example hsearch_full :
  let t0 := Tab (Some (replicate 8 zero_entry)) 7 0 in
  let add n t := let? t := t in let? (r, p, t) := hsearch_r false [n] n ENTER t in Some t in
  let t6 := fold_left (fun t n => add n t) [1; 2; 3; 4; 5; 6] (Some t0) in
  exists t, t6 = Some t /\ used t = 6 /\
    exists t', hsearch_r false [7] 7 ENTER t = Some (0, None, t') /\ used t' = 6 /\
      option_map pairs (entries t') = option_map pairs (entries t).
Proof. simpl. eexists. split; [vm_compute; reflexivity|]. split; [done|]. eexists. split; [vm_compute; reflexivity|done]. Qed.
