(* ===== verification/Leonardo.v ===== *)
(** * Leonardo: heaps of Leonardo trees

    The data structure of smoothsort, on an array given as a function from
    indices to elements: a tree of order [k] occupies [leo k] elements and ends
    with its root; a forest is a list of orders, the last tree first.  Moving a
    cycle of elements ([putpath]), sifting a root down its tree and trinkling it
    along the roots are defined as index paths; Sort shows that the code of
    qsort.c follows the same paths in memory. *)

From Stdlib Require Import ZArith Lia ZifyBool List Bool Permutation.
From S2P Require Import Prelude.
Import ListNotations.
Open Scope Z_scope.

(** ** Leonardo numbers *)

Fixpoint leo_pair (n : nat) : Z * Z :=
  match n with O => (1, 1) | S n => let '(a, b) := leo_pair n in (b, a + b + 1) end.
Definition leo (n : nat) : Z := fst (leo_pair n).

Lemma leo_SS n : leo (S (S n)) = leo (S n) + leo n + 1.
Proof. unfold leo. simpl. destruct (leo_pair n); simpl. lia. Qed.

Lemma leo_pos n : 1 <= leo n /\ leo n <= leo (S n).
Proof.
  induction n as [|n IH]; [now compute|]. rewrite leo_SS. lia.
Qed.

Lemma leo_mono n m : (n <= m)%nat -> leo n <= leo m.
Proof. induction 1 as [|m _ IH]; [lia|]. pose proof (leo_pos m). lia. Qed.

Lemma leo_lt n m : (1 <= n < m)%nat -> leo n < leo m.
Proof.
  intros H. destruct m as [|[|m]]; try lia.
  pose proof (leo_mono n (S m)). rewrite leo_SS. pose proof (leo_pos m). lia.
Qed.

Section Heaps.
Context {A : Type} (cmp : A -> A -> Z) `{Hcmp : CmpOrder A cmp}.

Definition le (a b : A) : Prop := cmp a b <= 0.

Lemma le_refl a : le a a.
Proof. unfold le. now rewrite cmp_refl. Qed.
Lemma le_trans a b c : le a b -> le b c -> le a c.
Proof. apply cmp_le_trans. Qed.
Lemma ge_le a b : 0 <= cmp a b <-> le b a.
Proof. unfold le. pose proof (cmp_anti a b). lia. Qed.
Lemma not_le a b : ~ le a b -> le b a.
Proof. unfold le. pose proof (cmp_anti a b). lia. Qed.

(** ** Arrays *)

Definition upd (g : Z -> A) (i : Z) (x : A) : Z -> A := fun j => if j =? i then x else g j.

Lemma upd_eq g i x : upd g i x i = x.
Proof. unfold upd. now rewrite Z.eqb_refl. Qed.
Lemma upd_ne g i x j : j <> i -> upd g i x j = g j.
Proof. intros Hj. unfold upd. now replace (j =? i) with false by lia. Qed.

(** The element at each index of the path is replaced by the next one, the last
    by [x]. *)
Fixpoint putpath (g : Z -> A) (l : list Z) (x : A) : Z -> A :=
  match l with
  | [] => g
  | i :: l' => match l' with
               | [] => upd g i x
               | j :: _ => putpath (upd g i (g j)) l' x
               end
  end.

Lemma putpath_cons2 g i j l x :
  putpath g (i :: j :: l) x = putpath (upd g i (g j)) (j :: l) x.
Proof. reflexivity. Qed.

Lemma putpath_out g l x i : ~ In i l -> putpath g l x i = g i.
Proof.
  revert g; induction l as [|a [|b l] IH]; intros g Hi; [reflexivity| |].
  - apply upd_ne. simpl in Hi. intuition.
  - rewrite putpath_cons2, IH by (simpl in *; intuition). apply upd_ne. simpl in Hi. intuition.
Qed.

Lemma putpath_ext g g' l x :
  (forall i, g i = g' i) -> forall i, putpath g l x i = putpath g' l x i.
Proof.
  revert g g'; induction l as [|a [|b l] IH]; intros g g' Hg i; [apply Hg| |].
  - simpl. unfold upd. destruct (i =? a); auto.
  - rewrite !putpath_cons2. rewrite (IH _ (upd g' a (g' b))); [reflexivity|]. intros j. unfold upd. rewrite Hg. destruct (j =? a); auto.
Qed.

(** A property of all the elements of a set of indices that holds the path. *)
Lemma putpath_all (Q : A -> Prop) (S : Z -> Prop) g l x :
  (forall i, In i l -> S i) -> Q x -> (forall i, S i -> Q (g i)) ->
  forall i, S i -> Q (putpath g l x i).
Proof.
  revert g; induction l as [|a [|b l] IH]; intros g Hl Hx Hg i Hi; [now apply Hg| |].
  - simpl. unfold upd. destruct (i =? a); auto.
  - rewrite putpath_cons2. apply IH; auto.
    + intros j Hj. apply Hl. now right.
    + intros j Hj. unfold upd. destruct (j =? a); [|auto]. apply Hg, Hl. simpl. auto.
Qed.

(** A cycle permutes the elements. *)
Definition transp (i j x : Z) : Z := if x =? i then j else if x =? j then i else x.

Lemma transp_perm i j l : NoDup l -> In i l -> In j l -> Permutation (map (transp i j) l) l.
Proof.
  intros Hnd Hi Hj.
  assert (Hinv : forall x, transp i j (transp i j x) = x).
  { intros x. unfold transp at 2. destruct (Z.eqb_spec x i) as [->|]; [|destruct (Z.eqb_spec x j) as [->|]];
      unfold transp; simplify_ifs. }
  assert (Hin : forall x, In x l -> In (transp i j x) l).
  { intros x Hx. unfold transp. destruct (x =? i); [auto|]. destruct (x =? j); auto. }
  apply NoDup_Permutation; [|assumption|].
  - apply NoDup_map_NoDup_ForallPairs; [|assumption]. intros x y _ _ E.
    rewrite <- (Hinv x), <- (Hinv y). now rewrite E.
  - intros x. rewrite in_map_iff. split.
    + intros (y & <- & Hy). auto.
    + intros Hx. exists (transp i j x). auto.
Qed.

Lemma putpath_perm g p l :
  NoDup l -> NoDup p -> (forall i, In i p -> In i l) ->
  forall i0 r, p = i0 :: r -> Permutation (map (putpath g p (g i0)) l) (map g l).
Proof.
  intros Hl. revert g. induction p as [|a [|b p] IH]; intros g Hp Hin i0 r E; [discriminate| |];
    injection E as <- <-.
  - cbn [putpath]. erewrite map_ext; [reflexivity|]. intros x. unfold upd.
    destruct (Z.eqb_spec x a); congruence.
  - inversion_clear Hp as [|? ? Hab Hp'].
    set (g1 := fun x => g (transp a b x)).
    assert (E1 : forall x, putpath (upd g a (g b)) (b :: p) (g a) x = putpath g1 (b :: p) (g1 b) x).
    { assert (Hb : g1 b = g a).
      { unfold g1, transp. destruct (Z.eqb_spec b a); [congruence|]. now rewrite Z.eqb_refl. }
      rewrite Hb. intros x.
      assert (Hg1 : forall y, y <> b -> upd g a (g b) y = g1 y).
      { intros y Hy. unfold upd, g1, transp. destruct (Z.eqb_spec y a); [reflexivity|].
        now replace (y =? b) with false by lia. }
      destruct p as [|c p].
      - simpl. unfold upd at 1 3. destruct (Z.eqb_spec x b); [reflexivity|]. now apply Hg1.
      - assert (c <> b) by (inversion_clear Hp' as [|? ? Hn _]; intros ->; apply Hn; now left).
        rewrite !putpath_cons2. apply putpath_ext. intros y. destruct (Z.eqb_spec y b) as [->|].
        + rewrite !upd_eq. now apply Hg1.
        + rewrite !(upd_ne _ b) by assumption. now apply Hg1. }
    rewrite putpath_cons2, (map_ext _ _ E1), (IH g1 Hp') with (i0 := b) (r := p); [|intros; apply Hin; now right|reflexivity].
    unfold g1. rewrite <- map_map. apply Permutation_map, transp_perm; auto; apply Hin; simpl; auto.
Qed.

(** ** Trees

    The children of a tree of order [k + 2] rooted at [r] are a tree of order
    [k] at [r - 1] and one of order [k + 1] at [r - 1 - leo k]. *)

Definition rchild (r : Z) : Z := r - 1.
Definition lchild (k : nat) (r : Z) : Z := r - 1 - leo k.

Fixpoint heap (k : nat) (g : Z -> A) (r : Z) : Prop :=
  match k with
  | S (S k2 as k1) =>
      le (g (lchild k2 r)) (g r) /\ le (g (rchild r)) (g r) /\
      heap k1 g (lchild k2 r) /\ heap k2 g (rchild r)
  | _ => True
  end.

(** A tree whose root may be too small. *)
Definition preheap (k : nat) (g : Z -> A) (r : Z) : Prop :=
  match k with
  | S (S k2 as k1) => heap k1 g (lchild k2 r) /\ heap k2 g (rchild r)
  | _ => True
  end.

(** The children's roots are at most [v]. *)
Definition kids_le (k : nat) (g : Z -> A) (r : Z) (v : A) : Prop :=
  match k with
  | S (S k2) => le (g (lchild k2 r)) v /\ le (g (rchild r)) v
  | _ => True
  end.

Lemma heap_SS k g r :
  heap (S (S k)) g r =
  (le (g (lchild k r)) (g r) /\ le (g (rchild r)) (g r) /\ heap (S k) g (lchild k r) /\ heap k g (rchild r)).
Proof. reflexivity. Qed.

Lemma heap_pre k g r : heap k g r -> preheap k g r.
Proof. destruct k as [|[|k]]; simpl; tauto. Qed.
Lemma heap_kids k g r : heap k g r -> kids_le k g r (g r).
Proof. destruct k as [|[|k]]; simpl; tauto. Qed.
Lemma heap_intro k g r : preheap k g r -> kids_le k g r (g r) -> heap k g r.
Proof. destruct k as [|[|k]]; simpl; tauto. Qed.
Lemma kids_trans k g r v w : kids_le k g r v -> le v w -> kids_le k g r w.
Proof. destruct k as [|[|k]]; simpl; intros; [tauto|tauto|]. split; eapply le_trans; intuition eauto. Qed.

Lemma heap_ext k g g' r :
  (forall i, r - leo k < i <= r -> g' i = g i) -> heap k g r -> heap k g' r.
Proof.
  revert r. induction k as [k IH] using lt_wf_ind. destruct k as [|[|k]]; intros r Hg; [simpl; tauto|simpl; tauto|].
  rewrite leo_SS in Hg. pose proof (leo_pos k). pose proof (leo_pos (S k)).
  rewrite !heap_SS. unfold lchild, rchild. intros (H1 & H2 & H3 & H4).
  rewrite !Hg by lia. repeat split; auto; (apply IH; [lia| |assumption]); intros; apply Hg; lia.
Qed.

Lemma preheap_ext k g g' r :
  (forall i, r - leo k < i < r -> g' i = g i) -> preheap k g r -> preheap k g' r.
Proof.
  destruct k as [|[|k]]; intros Hg; [simpl; tauto|simpl; tauto|].
  rewrite leo_SS in Hg. pose proof (leo_pos k). pose proof (leo_pos (S k)). cbn [preheap].
  unfold lchild, rchild. intros [H1 H2].
  split; (eapply heap_ext; [|eassumption]); intros; apply Hg; lia.
Qed.

Lemma kids_ext k g g' r v :
  (forall i, r - leo k < i < r -> g' i = g i) -> kids_le k g r v -> kids_le k g' r v.
Proof.
  destruct k as [|[|k]]; intros Hg; [simpl; tauto|simpl; tauto|].
  rewrite leo_SS in Hg. pose proof (leo_pos k). pose proof (leo_pos (S k)). cbn [kids_le].
  unfold lchild, rchild. now rewrite !Hg by lia.
Qed.

(** The root of a heap is its maximum. *)
Lemma heap_max k g r i : heap k g r -> r - leo k < i <= r -> le (g i) (g r).
Proof.
  revert r. induction k as [k IH] using lt_wf_ind. intros r Hh Hi.
  destruct (Z.eq_dec i r) as [->|Hne]; [apply le_refl|].
  destruct k as [|[|k]]; [unfold leo in Hi; simpl in Hi; lia|unfold leo in Hi; simpl in Hi; lia|].
  rewrite leo_SS in Hi. destruct Hh as (H1 & H2 & H3 & H4). unfold lchild, rchild in *.
  destruct (Z.le_gt_cases i (r - 1 - leo k)).
  - eapply le_trans; [apply (IH (S k)); eauto; lia|assumption].
  - eapply le_trans; [apply (IH k); eauto; lia|assumption].
Qed.

(** ** Sifting *)

(** The path of sift after the root, for the element [x]. *)
Fixpoint spath (k : nat) (g : Z -> A) (x : A) (r : Z) : list Z :=
  match k with
  | S (S k2 as k1) =>
      let rt := rchild r in
      let lf := lchild k2 r in
      if (0 <=? cmp x (g lf)) && (0 <=? cmp x (g rt)) then []
      else if 0 <=? cmp (g lf) (g rt) then lf :: spath k1 g x lf
      else rt :: spath k2 g x rt
  | _ => []
  end.

Lemma spath_SS k g x r :
  spath (S (S k)) g x r =
  (if (0 <=? cmp x (g (lchild k r))) && (0 <=? cmp x (g (rchild r))) then []
   else if 0 <=? cmp (g (lchild k r)) (g (rchild r)) then lchild k r :: spath (S k) g x (lchild k r)
   else rchild r :: spath k g x (rchild r)).
Proof. reflexivity. Qed.

Lemma spath_ext k g g' x r :
  (forall i, r - leo k < i < r -> g' i = g i) -> spath k g' x r = spath k g x r.
Proof.
  revert r. induction k as [k IH] using lt_wf_ind. destruct k as [|[|k]]; intros r Hg; [reflexivity|reflexivity|].
  rewrite leo_SS in Hg. pose proof (leo_pos k). pose proof (leo_pos (S k)). rewrite ?spath_SS.
  unfold lchild, rchild. rewrite !(Hg (r - 1 - leo k)), !(Hg (r - 1)) by lia.
  rewrite !IH; [reflexivity|lia|intros; apply Hg; lia|lia|intros; apply Hg; lia].
Qed.

(** The path goes down the tree. *)
Lemma spath_range k g x r i : In i (spath k g x r) -> r - leo k < i < r.
Proof.
  revert r. induction k as [k IH] using lt_wf_ind. destruct k as [|[|k]]; intros r; [simpl; tauto|simpl; tauto|].
  rewrite leo_SS. pose proof (leo_pos k). pose proof (leo_pos (S k)). rewrite ?spath_SS.
  unfold lchild, rchild. destruct (_ && _); [simpl; tauto|].
  destruct (0 <=? _); intros [<-|Hi]; try lia; apply IH in Hi; lia.
Qed.

Lemma spath_NoDup k g x r : NoDup (r :: spath k g x r).
Proof.
  revert r. induction k as [k IH] using lt_wf_ind. intros r.
  constructor; [intros Hi; apply spath_range in Hi; lia|].
  destruct k as [|[|k]]; [constructor|constructor|]. rewrite ?spath_SS.
  destruct (_ && _); [constructor|]. destruct (0 <=? _); apply IH; lia.
Qed.

(** Sifting makes a heap; the new root is at most any bound of the element and
    of the children, and at least each of them. *)
Definition sifted (k : nat) (g : Z -> A) (x : A) (r : Z) : Z -> A := putpath g (r :: spath k g x r) x.

Lemma sifted_out k g x r i : ~ (r - leo k < i <= r) -> sifted k g x r i = g i.
Proof.
  intros Hi. apply putpath_out. intros [<-|Hin].
  - pose proof (leo_pos k). lia.
  - apply spath_range in Hin. lia.
Qed.

Lemma sifted_step k g x r j rest :
  spath k g x r = j :: rest ->
  sifted k g x r = putpath (upd g r (g j)) (j :: rest) x.
Proof. intros E. unfold sifted. now rewrite E, putpath_cons2. Qed.

Lemma heap_upd_out k g r i v : ~ (r - leo k < i <= r) -> heap k g r -> heap k (upd g i v) r.
Proof. intros Hi. apply heap_ext. intros j Hj. apply upd_ne. lia. Qed.

Definition sifts (k : nat) : Prop := forall g x r,
  preheap k g r ->
  heap k (sifted k g x r) r /\
  (forall v, le x v -> kids_le k g r v -> le (sifted k g x r r) v) /\
  le x (sifted k g x r r) /\ kids_le k g r (sifted k g x r r).

(** One step down, to the child [c]. *)
Lemma sifts_child k g x r c :
  sifts k -> heap k g c -> le x (g c) -> c < r ->
  let g2 := sifted k (upd g r (g c)) x c in
  heap k g2 c /\ le (g2 c) (g c) /\ g2 r = g c /\
  (forall i, ~ (c - leo k < i <= c) -> i <> r -> g2 i = g i).
Proof.
  intros Hs Hh Hx Hc g2. pose proof (leo_pos k) as L.
  destruct (Hs (upd g r (g c)) x c) as (I1 & I2 & _ & _).
  { eapply preheap_ext; [|apply heap_pre, Hh]. intros. apply upd_ne. lia. }
  repeat split; [assumption| | |].
  - apply I2; [assumption|]. eapply kids_ext; [|apply heap_kids, Hh]. intros. apply upd_ne. lia.
  - unfold g2. rewrite sifted_out by lia. apply upd_eq.
  - intros i Hi Hr. unfold g2. rewrite sifted_out by assumption. now apply upd_ne.
Qed.

Lemma not_ge x y : (0 <=? cmp x y) = false -> le x y.
Proof. intros E. apply not_le. intros ?%ge_le. lia. Qed.

Lemma sifted_SS k g x r :
  sifted (S (S k)) g x r =
  (if (0 <=? cmp x (g (lchild k r))) && (0 <=? cmp x (g (rchild r))) then upd g r x
   else if 0 <=? cmp (g (lchild k r)) (g (rchild r))
        then sifted (S k) (upd g r (g (lchild k r))) x (lchild k r)
        else sifted k (upd g r (g (rchild r))) x (rchild r)).
Proof.
  pose proof (leo_pos k). unfold sifted. rewrite spath_SS. destruct (_ && _); [reflexivity|].
  destruct (0 <=? _); rewrite putpath_cons2; f_equal; f_equal; symmetry; apply spath_ext;
    intros; apply upd_ne; unfold lchild, rchild in *; lia.
Qed.

Lemma sifted_ok k : sifts k.
Proof.
  induction k as [k IH] using lt_wf_ind. intros g x r Hpre.
  destruct k as [|[|k]].
  1, 2: unfold sifted; simpl; rewrite upd_eq; repeat split; auto using le_refl.
  destruct Hpre as [Hl Hr]. rewrite sifted_SS, heap_SS. cbn [kids_le].
  pose proof (leo_pos k) as L1. pose proof (leo_pos (S k)) as L2.
  set (rt := rchild r) in *. set (lf := lchild k r) in *.
  assert (Hrt : rt = r - 1) by reflexivity. assert (Hlf : lf = r - 1 - leo k) by reflexivity.
  destruct (0 <=? cmp x (g lf)) eqn:E1; destruct (0 <=? cmp x (g rt)) eqn:E2; cbn [andb].
  { apply Z.leb_le, ge_le in E1, E2. rewrite upd_eq, !upd_ne by lia.
    repeat split; auto using le_refl; apply heap_upd_out; auto; lia. }
  all: destruct (0 <=? cmp (g lf) (g rt)) eqn:E3;
    [ apply Z.leb_le, ge_le in E3;
      assert (Hx : le x (g lf)) by eauto using le_trans, not_ge;
      destruct (sifts_child (S k) g x r lf) as (J1 & J2 & J3 & J4); auto; [lia|]
    | apply not_ge in E3;
      assert (Hx : le x (g rt)) by eauto using le_trans, not_ge;
      destruct (sifts_child k g x r rt) as (J1 & J2 & J3 & J4); auto; [lia|] ].
  all: rewrite J3; repeat split; auto using le_refl; try tauto.
  all: try (rewrite J4 by lia; assumption).
  all: eapply heap_ext; [|eassumption]; intros; apply J4; lia.
Qed.

Lemma sifted_perm k g r l :
  NoDup l -> (forall i, r - leo k < i <= r -> In i l) ->
  Permutation (map (sifted k g (g r) r) l) (map g l).
Proof.
  intros Hl Hin. unfold sifted. eapply putpath_perm; eauto using spath_NoDup.
  pose proof (leo_pos k). intros i [<-|Hi]; apply Hin; [lia|]. apply spath_range in Hi. lia.
Qed.

(** ** Forests

    [ks] are the orders of the trees to the left of the tree of order [k] rooted
    at [r]; the root of the next one is at [r - leo k]. *)

Fixpoint forest (g : Z -> A) (k : nat) (r : Z) (ks : list nat) : Prop :=
  heap k g r /\
  match ks with
  | [] => True
  | k1 :: ks' => le (g (r - leo k)) (g r) /\ forest g k1 (r - leo k) ks'
  end.

Definition lforest (g : Z -> A) (k : nat) (r : Z) (ks : list nat) : Prop :=
  match ks with [] => True | k1 :: ks' => forest g k1 (r - leo k) ks' end.

(** The root of the left neighbour, if any, is at most [v]. *)
Definition left_le (g : Z -> A) (k : nat) (r : Z) (ks : list nat) (v : A) : Prop :=
  match ks with [] => True | _ => le (g (r - leo k)) v end.

Fixpoint total (ks : list nat) : Z := match ks with [] => 0 | k :: ks => leo k + total ks end.

Lemma total_nonneg ks : 0 <= total ks.
Proof. induction ks as [|k ks IH]; simpl; [lia|]. pose proof (leo_pos k). lia. Qed.

Lemma forest_split g k r ks :
  forest g k r ks <-> heap k g r /\ left_le g k r ks (g r) /\ lforest g k r ks.
Proof. destruct ks; simpl; tauto. Qed.

Lemma forest_ext g g' k r ks :
  (forall i, r - leo k - total ks < i <= r -> g' i = g i) -> forest g k r ks -> forest g' k r ks.
Proof.
  revert k r; induction ks as [|k1 ks IH]; intros k r Hg [Hh Hf]; (split; [|]);
    pose proof (leo_pos k); cbn [total] in Hg; try pose proof (leo_pos k1); try pose proof (total_nonneg ks).
  - eapply heap_ext; [|exact Hh]. intros. apply Hg. lia.
  - exact I.
  - eapply heap_ext; [|exact Hh]. intros. apply Hg. lia.
  - rewrite !Hg by lia. split; [tauto|]. apply IH; [|tauto]. intros. apply Hg. lia.
Qed.

(** The last root is the maximum of the forest. *)
Lemma forest_max g k r ks i : forest g k r ks -> r - leo k - total ks < i <= r -> le (g i) (g r).
Proof.
  revert k r; induction ks as [|k1 ks IH]; intros k r [Hh Hf] Hi; cbn [total] in Hi.
  - eapply heap_max; [eassumption|lia].
  - destruct (Z.le_gt_cases i (r - leo k)).
    + eapply le_trans; [eapply IH; [apply Hf|lia]|apply Hf].
    + eapply heap_max; [eassumption|lia].
Qed.

(** ** Trinkling

    The roots the element [x] moves along, and the tree it ends in. *)
Definition tstop (g : Z -> A) (x : A) (k : nat) (r : Z) (trusty : bool) : bool :=
  let s := r - leo k in
  (cmp (g s) x <=? 0) ||
  (negb trusty && (1 <? Z.of_nat k)) &&
  ((0 <=? cmp (g (rchild r)) (g s)) || (0 <=? cmp (g (lchild (k - 2) r)) (g s))).

Fixpoint tpath (ks : list nat) (g : Z -> A) (x : A) (k : nat) (r : Z) (trusty : bool)
  : list Z * nat * Z * bool :=
  match ks with
  | [] => ([], k, r, trusty)
  | k1 :: ks' =>
      if tstop g x k r trusty then ([], k, r, trusty)
      else let '(l, k', r', t') := tpath ks' g x k1 (r - leo k) false in (r - leo k :: l, k', r', t')
  end.

(** The result, by recursion on the trees. *)
Fixpoint trinkled (ks : list nat) (g : Z -> A) (x : A) (k : nat) (r : Z) (trusty : bool) : Z -> A :=
  let stay := if trusty then g else sifted k g x r in
  match ks with
  | [] => stay
  | k1 :: ks' =>
      if tstop g x k r trusty then stay
      else trinkled ks' (upd g r (g (r - leo k))) x k1 (r - leo k) false
  end.

Lemma tpath_ext ks g g' x k r t :
  (forall i, i <= r -> i <> r -> g' i = g i) -> tpath ks g' x k r t = tpath ks g x k r t.
Proof.
  revert k r t; induction ks as [|k1 ks IH]; intros k r t Hg; [reflexivity|]. cbn [tpath].
  pose proof (leo_pos k). unfold tstop, lchild, rchild. pose proof (leo_pos (k - 2)).
  rewrite !Hg by lia. destruct (_ || _); [reflexivity|]. rewrite IH; [reflexivity|].
  intros. apply Hg; lia.
Qed.

Lemma putpath_head g g' r l x :
  ~ In r l -> (forall i, i <> r -> g' i = g i) ->
  forall i, putpath g' (r :: l) x i = putpath g (r :: l) x i.
Proof.
  intros Hr Hg i. destruct l as [|b l].
  - simpl. unfold upd. destruct (Z.eqb_spec i r); auto.
  - rewrite !putpath_cons2. apply putpath_ext. intros j. unfold upd.
    destruct (Z.eqb_spec j r); [|auto]. apply Hg. simpl in Hr. intuition.
Qed.

Lemma sifted_head g g' k x r :
  (forall i, i <> r -> g' i = g i) -> forall i, sifted k g' x r i = sifted k g x r i.
Proof.
  intros Hg i. unfold sifted. rewrite (spath_ext k g g') by (intros; apply Hg; lia).
  apply putpath_head; [|assumption]. intros Hi%spath_range. lia.
Qed.

Lemma sifted_ext g g' k x r :
  (forall i, g' i = g i) -> forall i, sifted k g' x r i = sifted k g x r i.
Proof. intros Hg. apply sifted_head. auto. Qed.

Lemma trinkled_ext ks g g' x k r t :
  (forall i, g' i = g i) -> forall i, trinkled ks g' x k r t i = trinkled ks g x k r t i.
Proof.
  revert g g' k r t; induction ks as [|k1 ks IH]; intros g g' k r t Hg i; cbn [trinkled].
  - destruct t; auto using sifted_ext.
  - unfold tstop. rewrite !Hg. destruct (_ || _); [destruct t; auto using sifted_ext|].
    apply IH. intros j. unfold upd. now destruct (j =? r).
Qed.

Lemma tpath_untrusty ks g x k r : snd (tpath ks g x k r false) = false.
Proof.
  revert k r; induction ks as [|k1 ks IH]; intros k r; [reflexivity|]. cbn [tpath].
  destruct (tstop _ _ _ _ _); [reflexivity|]. specialize (IH k1 (r - leo k)).
  destruct (tpath ks _ _ _ _ _) as [[[? ?] ?] ?]. exact IH.
Qed.

(** What trinkle does: a cycle along the path, then a sift. *)
Lemma trinkled_path ks g x k r t :
  let '(l, k', r', t') := tpath ks g x k r t in
  forall i, trinkled ks g x k r t i = if t' then g i else sifted k' (putpath g (r :: l) x) x r' i.
Proof.
  assert (Hstay : forall g k r (t : bool) i,
    (if t then g else sifted k g x r) i = if t then g i else sifted k (putpath g [r] x) x r i).
  { clear. intros g k r [] i; [reflexivity|]. symmetry. apply sifted_head.
    intros. now apply upd_ne. }
  revert g k r t; induction ks as [|k1 ks IH]; intros g k r t; [exact (Hstay g k r t)|].
  cbn [tpath trinkled]. destruct (tstop _ _ _ _ _); [exact (Hstay g k r t)|].
  specialize (IH (upd g r (g (r - leo k))) k1 (r - leo k) false).
  pose proof (leo_pos k).
  rewrite (tpath_ext ks g) in IH by (intros; apply upd_ne; lia).
  destruct (tpath ks g x k1 (r - leo k) false) as [[[l k'] r'] t'] eqn:E.
  intros i. rewrite IH. destruct t'; [|now rewrite putpath_cons2].
  pose proof (tpath_untrusty ks g x k1 (r - leo k)) as Hf. rewrite E in Hf. discriminate.
Qed.

Lemma trinkled_out ks g x k r t i : ~ (r - leo k - total ks < i <= r) -> trinkled ks g x k r t i = g i.
Proof.
  assert (Hstay : forall g k r (t : bool),
    ~ (r - leo k < i <= r) -> (if t then g else sifted k g x r) i = g i).
  { intros g' k' r' [] Hi; [reflexivity|now apply sifted_out]. }
  revert g k r t; induction ks as [|k1 ks IH]; intros g k r t Hi; cbn [trinkled total] in *;
    pose proof (leo_pos k).
  - apply Hstay. lia.
  - pose proof (leo_pos k1). pose proof (total_nonneg ks).
    destruct (tstop _ _ _ _ _); [apply Hstay; lia|]. rewrite IH by lia. apply upd_ne. lia.
Qed.

(** The tests that stop trinkle: the left neighbour's root is not above the
    element, or a child of an untrusted root is not below it. *)
Lemma tstop_true g x k r (t : bool) :
  preheap k g r -> tstop g x k r t = true -> (t = true -> heap k g r /\ g r = x) ->
  le (g (r - leo k)) ((if t then g else sifted k g x r) r).
Proof.
  intros Hpre Ht Htr. destruct (sifted_ok k g x r Hpre) as (_ & _ & S3 & S4).
  apply orb_true_iff in Ht as [Ht|Ht].
  - assert (Hs : le (g (r - leo k)) x) by (unfold le; lia).
    destruct t; [destruct (Htr eq_refl) as [_ ->]; assumption|]. eapply le_trans; eassumption.
  - destruct t; [discriminate|]. destruct k as [|[|k]]; [discriminate|discriminate|].
    destruct S4 as [S4 S5]. replace (S (S k) - 2)%nat with k in Ht by lia.
    apply andb_true_iff in Ht as [_ Ht]. apply orb_true_iff in Ht.
    destruct Ht as [Ht|Ht]; apply Z.leb_le, ge_le in Ht; eapply le_trans; eassumption.
Qed.

(** When it goes on, the left neighbour's root bounds the tree. *)
Lemma tstop_false g x k r (t : bool) :
  tstop g x k r t = false -> (t = true -> heap k g r /\ g r = x) ->
  le x (g (r - leo k)) /\ kids_le k g r (g (r - leo k)).
Proof.
  intros Ht Htr. apply orb_false_iff in Ht as [Ht1 Ht2].
  assert (Hx : le x (g (r - leo k))) by (apply not_le; unfold le; lia). split; [assumption|].
  destruct t.
  - destruct (Htr eq_refl) as [Hh E]. apply kids_trans with x; [|assumption]. rewrite <- E. now apply heap_kids.
  - destruct k as [|[|k]]; [exact I|exact I|]. replace (S (S k) - 2)%nat with k in Ht2 by lia.
    replace (1 <? Z.of_nat (S (S k))) with true in Ht2 by lia. cbn [negb andb] in Ht2.
    apply orb_false_iff in Ht2 as [H1 H2]. split; apply not_ge; assumption.
Qed.

(** Trinkling the root of the last tree makes a forest. *)
Lemma trinkled_ok ks g k r (t : bool) x :
  preheap k g r -> lforest g k r ks -> (t = true -> heap k g r /\ g r = x) ->
  let g2 := trinkled ks g x k r t in
  forest g2 k r ks /\
  (forall v, le x v -> kids_le k g r v -> left_le g k r ks v -> le (g2 r) v).
Proof.
  assert (Hstay : forall g k r (t : bool) ks, preheap k g r -> lforest g k r ks ->
    (t = true -> heap k g r /\ g r = x) ->
    let g2 := if t then g else sifted k g x r in
    left_le g k r ks (g2 r) ->
    forest g2 k r ks /\ (forall v, le x v -> kids_le k g r v -> le (g2 r) v)).
  { clear -Hcmp. intros g k r t ks Hpre Hl Ht g2 Hs.
    destruct (sifted_ok k g x r Hpre) as (S1 & S2 & _). pose proof (leo_pos k).
    destruct t; [destruct (Ht eq_refl) as [Hh E]; subst g2; split; [now apply forest_split|now rewrite E]|].
    split; [|assumption]. apply forest_split. split; [assumption|].
    destruct ks as [|k1 ks]; [easy|]. cbn [left_le lforest] in *. split.
    - unfold g2. now rewrite sifted_out by lia.
    - eapply forest_ext; [|exact Hl]. intros. apply sifted_out. lia. }
  revert g k r t; induction ks as [|k1 ks IH]; intros g k r t Hpre Hleft Ht g2.
  { destruct (Hstay g k r t [] Hpre I Ht I) as [F B]. split; [exact F|auto]. }
  subst g2. cbn [trinkled]. destruct (tstop g x k r t) eqn:Es.
  { destruct (Hstay g k r t (k1 :: ks) Hpre Hleft Ht) as [F B]; [now apply tstop_true|]. split; auto. }
  pose proof (leo_pos k) as L. pose proof (leo_pos k1) as L1.
  destruct (tstop_false _ _ _ _ _ Es Ht) as [Hx Hk]. cbn [lforest left_le] in *.
  set (s := r - leo k) in *. set (g1 := upd g r (g s)) in *.
  assert (Hf1 : forest g1 k1 s ks) by (eapply forest_ext; [|exact Hleft]; intros; apply upd_ne; lia).
  apply forest_split in Hf1 as (F1 & F2 & F3). apply forest_split in Hleft as (G1 & G2 & _).
  assert (Es1 : g1 s = g s) by (apply upd_ne; lia).
  destruct (IH g1 k1 s false) as [F B]; [now apply heap_pre|assumption|discriminate|].
  set (g2 := trinkled ks g1 x k1 s false) in *.
  assert (Er : g2 r = g s) by (unfold g2; rewrite trinkled_out by lia; apply upd_eq).
  assert (Hb : le (g2 s) (g s)).
  { apply B; [assumption| |]; rewrite <- Es1; [now apply heap_kids|assumption]. }
  rewrite Er. split; [|auto]. cbn [forest]. fold s. rewrite Er.
  repeat split; [|assumption|assumption].
  assert (Hin : forall i, s < i < r -> g2 i = g i).
  { intros i Hi. unfold g2. rewrite trinkled_out by lia. apply upd_ne. lia. }
  apply heap_intro; [eapply preheap_ext; eassumption|].
  rewrite Er. eapply kids_ext; eassumption.
Qed.

Lemma trinkled_perm ks g x k r (t : bool) l :
  NoDup l -> (forall i, r - leo k - total ks < i <= r -> In i l) -> (t = true -> g r = x) ->
  Permutation (map (trinkled ks g x k r t) l) (map (upd g r x) l).
Proof.
  intros Hl. assert (Hstay : forall g k r (t : bool), (forall i, r - leo k < i <= r -> In i l) ->
    (t = true -> g r = x) ->
    Permutation (map (if t then g else sifted k g x r) l) (map (upd g r x) l)).
  { clear -Hl Hcmp. intros g k r t Hin Ht. destruct t.
    - rewrite <- (Ht eq_refl). erewrite map_ext; [reflexivity|]. intros i. unfold upd.
      destruct (Z.eqb_spec i r); congruence.
    - erewrite map_ext by (intros i; symmetry; apply (sifted_head g (upd g r x)); intros; now apply upd_ne).
      pose proof (sifted_perm k (upd g r x) r l Hl Hin) as P. now rewrite upd_eq in P. }
  revert g k r t; induction ks as [|k1 ks IH]; intros g k r t Hin Ht; cbn [trinkled total] in *.
  { apply Hstay; [|assumption]. intros. apply Hin. lia. }
  pose proof (leo_pos k) as L. pose proof (leo_pos k1) as L1. pose proof (total_nonneg ks) as L2.
  destruct (tstop _ _ _ _ _).
  { apply Hstay; [|assumption]. intros. apply Hin. lia. }
  set (s := r - leo k) in *.
  rewrite IH; [|intros; apply Hin; lia|discriminate].
  rewrite <- (putpath_perm (upd g r x) [r; s] l Hl) with (i0 := r) (r := [s]); [| | |reflexivity].
  - apply Permutation_refl', map_ext. intros i. simpl. unfold upd. rewrite Z.eqb_refl.
    replace (s =? r) with false by lia. destruct (i =? s), (i =? r); reflexivity.
  - repeat constructor; simpl; intuition lia.
  - simpl. intros i [<-|[<-|[]]]; apply Hin; lia.
Qed.

Lemma NoDup_zrange lo n : NoDup (zrange lo n).
Proof.
  revert lo; induction n as [|n IH]; intros lo; constructor; [|apply IH].
  rewrite in_zrange. lia.
Qed.

Lemma trinkled_perm_self ks g k r t l :
  NoDup l -> (forall i, r - leo k - total ks < i <= r -> In i l) ->
  Permutation (map (trinkled ks g (g r) k r t) l) (map g l).
Proof.
  intros Hl Hin. rewrite (trinkled_perm ks g (g r) k r t l Hl Hin) by auto.
  apply Permutation_refl', map_ext. intros i. unfold upd. destruct (Z.eqb_spec i r); congruence.
Qed.

Lemma trinkled_bound ks g k r t v i :
  (forall j, r - leo k - total ks < j <= r -> le (g j) v) ->
  r - leo k - total ks < i <= r -> le (trinkled ks g (g r) k r t i) v.
Proof.
  intros Hv Hi. set (lo := r - leo k - total ks) in *.
  set (l := zrange (lo + 1) (Z.to_nat (r - lo))).
  assert (Hin : forall j, In j l <-> lo < j <= r) by (intros j; unfold l; rewrite in_zrange; lia).
  assert (P : Permutation (map (trinkled ks g (g r) k r t) l) (map g l)).
  { apply trinkled_perm_self; [apply NoDup_zrange|]. intros j Hj. now apply Hin. }
  apply Hin, (in_map (trinkled ks g (g r) k r t)) in Hi. eapply Permutation_in in Hi; [|exact P].
  apply in_map_iff in Hi as (j & <- & Hj). apply Hv, Hin, Hj.
Qed.

(** ** The orders of the trees

    From the last tree on the orders grow, by at least two after the second; a
    last tree of order 0 has one of order 1 on its left. *)
Fixpoint gaps (k : nat) (ks : list nat) : Prop :=
  match ks with [] => True | k1 :: ks' => (k + 2 <= k1)%nat /\ gaps k1 ks' end.

Definition orders (k : nat) (ks : list nat) : Prop :=
  match ks with [] => k <> O | k1 :: ks' => (k < k1)%nat /\ (k = O -> k1 = 1%nat) /\ gaps k1 ks' end.

Lemma orders_merge k ks : orders k (S k :: ks) -> orders (S (S k)) ks.
Proof. destruct ks as [|k2 ks]; simpl; [lia|]. intuition lia. Qed.

Definition next_order (k : nat) : nat := if (k =? 1)%nat then O else 1%nat.

Lemma orders_push k ks : orders k ks -> hd O ks <> S k -> orders (next_order k) (k :: ks).
Proof.
  unfold next_order. intros H Hne. cbn [orders].
  assert (k <> O) by (destruct ks as [|k1 ks]; simpl in *; lia).
  destruct (Nat.eqb_spec k 1); repeat split; try lia; destruct ks; simpl in *; intuition lia.
Qed.

Lemma orders_pop k k1 ks : orders k (k1 :: ks) -> orders k1 ks.
Proof. destruct ks as [|k2 ks]; simpl; intuition lia. Qed.

Lemma orders_split k ks : orders (S (S k)) ks -> orders k (S k :: ks).
Proof. destruct ks as [|k1 ks]; simpl; intuition lia. Qed.

(** ** The first phase

    A tree is final when no tree of the next lower order and a root fit in the
    rest of the array: it will not become a subtree.  Final trees satisfy the
    forest condition; all trees but the last are heaps. *)
Definition final (rest : Z) (k : nat) : Prop := rest <= leo (k - 1).

Fixpoint wleft (N : Z) (g : Z -> A) (k : nat) (r : Z) (ks : list nat) : Prop :=
  match ks with
  | [] => True
  | k1 :: ks' =>
      let s := r - leo k in
      heap k1 g s /\ (final (N - 1 - s) k1 -> left_le g k1 s ks' (g s)) /\ wleft N g k1 s ks'
  end.

Lemma wleft_ext N g g' k r ks :
  (forall i, i <= r - leo k -> g' i = g i) -> wleft N g k r ks -> wleft N g' k r ks.
Proof.
  revert k r; induction ks as [|k1 ks IH]; intros k r Hg; [easy|]. cbn [wleft].
  pose proof (leo_pos k1). intros (H1 & H2 & H3). repeat split.
  - eapply heap_ext; [|exact H1]. intros. apply Hg. lia.
  - intros Hf. specialize (H2 Hf). destruct ks; [exact I|]. cbn [left_le] in *. now rewrite !Hg by lia.
  - apply IH; [|assumption]. intros. apply Hg. lia.
Qed.

(** The trees left of a final one are final. *)
Lemma wleft_final N g k r ks :
  (1 <= k)%nat -> gaps k ks -> final (N - 1 - r) k -> wleft N g k r ks -> lforest g k r ks.
Proof.
  revert k r; induction ks as [|k1 ks IH]; intros k r Hk Hg Hf; [easy|].
  cbn [wleft lforest gaps] in *. intros (H1 & H2 & H3). destruct Hg as [Hg1 Hg2].
  assert (Hf1 : final (N - 1 - (r - leo k)) k1).
  { unfold final in *. pose proof (leo_mono (k + 1) (k1 - 1) ltac:(lia)).
    pose proof (leo_SS (k - 1)). replace (S (S (k - 1))) with (k + 1)%nat in * by lia.
    replace (S (k - 1)) with k in * by lia. lia. }
  apply forest_split. repeat split; [assumption|auto|]. apply IH; auto; lia.
Qed.

Lemma wleft_last N g k r ks :
  orders k ks -> final (N - 1 - r) k -> hd O ks <> S k \/ N - 1 <= r ->
  wleft N g k r ks -> lforest g k r ks.
Proof.
  intros Ho Hf Hne Hw. destruct ks as [|k1 ks]; [exact I|]. destruct Ho as (Ho1 & Ho2 & Ho3).
  assert (Hf1 : final (N - 1 - (r - leo k)) k1).
  { unfold final in *. cbn [hd] in Hne. destruct Hne as [Hne|Hr].
    - pose proof (leo_mono (k + 1) (k1 - 1) ltac:(lia)). assert (k <> O) by (intros ->; lia).
      pose proof (leo_SS (k - 1)). replace (S (S (k - 1))) with (k + 1)%nat in * by lia.
      replace (S (k - 1)) with k in * by lia. lia.
    - pose proof (leo_mono k (k1 - 1) ltac:(lia)). lia. }
  destruct Hw as (H1 & H2 & H3). apply forest_split. repeat split; auto.
  eapply wleft_final; eauto. lia.
Qed.

(** [r] is the last element taken in; its tree's root is not yet in place. *)
Definition Inv1 (N : Z) (g : Z -> A) (k : nat) (r : Z) (ks : list nat) : Prop :=
  orders k ks /\ leo k + total ks = r + 1 /\ preheap k g r /\ wleft N g k r ks.

Lemma inv1_merge N g k r ks :
  Inv1 N g k r (S k :: ks) -> Inv1 N (sifted k g (g r) r) (S (S k)) (r + 1) ks.
Proof.
  intros (Ho & Ht & Hp & Hh & _ & Hw). cbn [total] in Ht. pose proof (leo_pos k).
  split; [now apply orders_merge|]. rewrite leo_SS. split; [lia|].
  destruct (sifted_ok k g (g r) r Hp) as (S1 & _). split.
  - split.
    + unfold lchild. replace (r + 1 - 1 - leo k) with (r - leo k) by lia.
      eapply heap_ext; [|exact Hh]. intros. apply sifted_out. lia.
    + unfold rchild. now replace (r + 1 - 1) with r by lia.
  - assert (E : wleft N (sifted k g (g r) r) (S k) (r - leo k) ks).
    { eapply wleft_ext; [|exact Hw]. pose proof (leo_pos (S k)). intros. apply sifted_out. lia. }
    destruct ks as [|k2 ks]; [exact I|]. cbn [wleft] in *. rewrite leo_SS.
    now replace (r + 1 - (leo (S k) + leo k + 1)) with (r - leo k - leo (S k)) by lia.
Qed.

Lemma forest_wleft N g k r ks : forest g k r ks -> wleft N g k r ks.
Proof.
  revert k r; induction ks as [|k1 ks IH]; intros k r; [easy|]. intros (_ & _ & Hf).
  cbn [wleft]. apply forest_split in Hf as Hf'. destruct Hf' as (F1 & F2 & _). auto.
Qed.

Lemma inv1_push N g g2 k r ks :
  Inv1 N g k r ks -> hd O ks <> S k -> heap k g2 r ->
  (final (N - 1 - r) k -> left_le g2 k r ks (g2 r)) -> wleft N g2 k r ks ->
  Inv1 N g2 (next_order k) (r + 1) (k :: ks).
Proof.
  intros (Ho & Ht & _) Hne Hh Hf Hw.
  assert (E : leo (next_order k) = 1) by (unfold next_order; now destruct (k =? 1)%nat).
  split; [now apply orders_push|]. rewrite E. cbn [total wleft]. rewrite E.
  replace (r + 1 - 1) with r by lia. repeat split; auto; [lia|].
  unfold next_order. now destruct (k =? 1)%nat.
Qed.

(** Not final: the root is only sifted. *)
Lemma inv1_sift N g k r ks :
  Inv1 N g k r ks -> hd O ks <> S k -> ~ final (N - 1 - r) k ->
  Inv1 N (sifted k g (g r) r) (next_order k) (r + 1) (k :: ks).
Proof.
  intros Hi Hne Hf. assert (Hi' := Hi). destruct Hi' as (Ho & Ht & Hp & Hw).
  eapply inv1_push; eauto; [now apply sifted_ok|tauto|].
  eapply wleft_ext; [|exact Hw]. intros. apply sifted_out. lia.
Qed.

(** Final: it is trinkled. *)
Lemma inv1_trinkle N g k r ks :
  Inv1 N g k r ks -> hd O ks <> S k \/ N - 1 <= r -> final (N - 1 - r) k ->
  forest (trinkled ks g (g r) k r false) k r ks.
Proof.
  intros (Ho & Ht & Hp & Hw) Hne Hf.
  apply trinkled_ok; [assumption| |discriminate]. eapply wleft_last; eauto.
Qed.

Lemma inv1_trinkle_push N g k r ks :
  Inv1 N g k r ks -> hd O ks <> S k -> final (N - 1 - r) k ->
  Inv1 N (trinkled ks g (g r) k r false) (next_order k) (r + 1) (k :: ks).
Proof.
  intros Hi Hne Hf. assert (F := inv1_trinkle _ _ _ _ _ Hi (or_introl Hne) Hf).
  apply forest_split in F as F'. destruct F' as (F1 & F2 & _).
  eapply inv1_push; eauto using forest_wleft.
Qed.

(** ** The second phase

    What is right of the forest is sorted and bounds what is left. *)
Definition tail (N : Z) (g : Z -> A) (r : Z) : Prop :=
  forall i j, 0 <= i <= j -> r < j < N -> le (g i) (g j).

Definition Inv2 (N : Z) (g : Z -> A) (k : nat) (r : Z) (ks : list nat) : Prop :=
  orders k ks /\ leo k + total ks = r + 1 /\ forest g k r ks /\ tail N g r /\ r < N.

Lemma tail_pop N g k r ks :
  leo k + total ks = r + 1 -> forest g k r ks -> tail N g r -> tail N g (r - 1).
Proof.
  intros Ht Hf Hs i j Hi Hj. destruct (Z.eq_dec j r) as [->|]; [|apply Hs; lia].
  eapply forest_max; [exact Hf|]. lia.
Qed.

Lemma inv2_pop N g k r k1 ks :
  Inv2 N g k r (k1 :: ks) -> (k <= 1)%nat -> Inv2 N g k1 (r - 1) ks.
Proof.
  intros (Ho & Ht & Hf & Hs & Hr) Hk. pose proof (tail_pop _ _ _ _ _ Ht Hf Hs).
  assert (E : leo k = 1) by (destruct k as [|[|k]]; [reflexivity|reflexivity|lia]).
  cbn [total] in Ht. destruct Hf as (_ & _ & Hf). rewrite E in *.
  split; [eapply orders_pop; eauto|]. repeat split; auto; lia.
Qed.

(** The trinkled part keeps to the left of the tail. *)
Lemma tail_trinkled N ks g k r t r0 :
  tail N g r0 -> r - leo k - total ks = -1 -> r <= r0 -> tail N (trinkled ks g (g r) k r t) r0.
Proof.
  intros Hs Hlo Hr i j Hi Hj. rewrite (trinkled_out _ _ _ _ _ _ j) by lia.
  destruct (Z.le_gt_cases i r).
  - apply trinkled_bound; [|lia]. intros. apply Hs; lia.
  - rewrite trinkled_out by lia. now apply Hs.
Qed.

Definition split_left (g : Z -> A) (k : nat) (r : Z) (ks : list nat) : Z -> A :=
  trinkled ks g (g (lchild k r)) (S k) (lchild k r) true.
Definition split_tree (g : Z -> A) (k : nat) (r : Z) (ks : list nat) : Z -> A :=
  let g1 := split_left g k r ks in
  trinkled (S k :: ks) g1 (g1 (rchild r)) k (rchild r) true.

Lemma inv2_split N g k r ks :
  Inv2 N g (S (S k)) r ks -> Inv2 N (split_tree g k r ks) k (r - 1) (S k :: ks).
Proof.
  intros (Ho & Ht & Hf & Hs & Hr). pose proof (tail_pop _ _ _ _ _ Ht Hf Hs) as Hs'.
  rewrite leo_SS in Ht. pose proof (leo_pos k) as L. pose proof (total_nonneg ks) as Lt.
  apply forest_split in Hf as (F1 & _ & F3). rewrite heap_SS in F1. destruct F1 as (_ & _ & H1 & H2).
  assert (Hl : lchild k r = r - 1 - leo k) by reflexivity.
  assert (G1 : forest (split_left g k r ks) (S k) (lchild k r) ks).
  { apply trinkled_ok; [now apply heap_pre| |auto]. destruct ks as [|k1 ks]; [exact I|].
    cbn [lforest] in *. rewrite leo_SS in F3.
    now replace (lchild k r - leo (S k)) with (r - (leo (S k) + leo k + 1)) by lia. }
  assert (G2 : heap k (split_left g k r ks) (rchild r)).
  { eapply heap_ext; [|exact H2]. unfold rchild. intros. apply trinkled_out. lia. }
  split; [now apply orders_split|]. cbn [total]. split; [lia|]. split; [|split; [|lia]].
  - apply trinkled_ok; [now apply heap_pre| |auto]. cbn [lforest].
    unfold rchild. now replace (r - 1 - leo k) with (lchild k r) by lia.
  - apply tail_trinkled; [|unfold rchild; cbn [total]; lia|unfold rchild; lia].
    apply tail_trinkled; [assumption| |]; lia.
Qed.

(** At the end a single element is left: the array is sorted. *)
Lemma inv2_done N g k r ks :
  Inv2 N g k r ks -> ks = [] -> (k <= 1)%nat -> forall i j, 0 <= i <= j -> j < N -> le (g i) (g j).
Proof.
  intros (Ho & Ht & Hf & Hs & Hr) -> Hk i j Hi Hj.
  assert (E : leo k = 1) by (destruct k as [|[|k]]; [reflexivity|reflexivity|lia]).
  cbn [total] in Ht. destruct (Z.eq_dec j 0) as [->|].
  - replace i with 0 by lia. apply le_refl.
  - apply Hs; lia.
Qed.
End Heaps.
