(* ===== verification/Sort.v ===== *)
(** * Sort: qsort

    Models src/stdlib/qsort.c (smoothsort) on the flat memory: an element is
    [width] bytes, a comparison is a function of the contents of two elements
    (cmp of qsort_r with its argument; qsort passes the caller's function
    through), the bit vector p of the heap sizes is a pair of 64-bit words, the
    local arrays ar, lp and tmp are lists.  A call of memcpy is its
    specification [mcopy], which MemCopy proves of the code.

    Loops take fuel and return [None] when it runs out; the theorem that qsort
    sorts states that it returns.  The proof follows Leonardo: [cycle] moves the
    elements as [putpath] does, [sift] and [trinkle] compute the paths of
    [sifted] and [trinkled], and the two loops keep the invariants [Inv1] and
    [Inv2]. *)

From Stdlib Require Import ZArith Lia ZifyBool List Bool Permutation Sorted Setoid Morphisms.
From S2P Require Import Prelude MemCopy Leonardo.
Import ListNotations.
Open Scope Z_scope.

(** ** The bit vector *)

Definition psize : Type := Z * Z.

(** a_ctz_l: the number of trailing zeros. *)
Definition ntz (x : Z) : Z := Z.log2 (Z.land x (- x)).

Definition pntz (p : psize) : Z :=
  if negb (fst p =? 1) then ntz (fst p - 1)
  else if negb (snd p =? 0) then 64 + ntz (snd p)
  else 0.

Definition shl (p : psize) (n : Z) : psize :=
  let short p n :=
    (u64 (Z.shiftl (fst p) n),
     Z.lor (u64 (Z.shiftl (snd p) n)) (Z.shiftr (fst p) (64 - n))) in
  if 64 <=? n then
    let n := n - 64 in
    let p := (0, fst p) in
    if n =? 0 then p else short p n
  else short p n.

Definition shr (p : psize) (n : Z) : psize :=
  let short p n :=
    (Z.lor (Z.shiftr (fst p) n) (u64 (Z.shiftl (snd p) (64 - n))), Z.shiftr (snd p) n) in
  if 64 <=? n then
    let n := n - 64 in
    let p := (snd p, 0) in
    if n =? 0 then p else short p n
  else short p n.

(** p[0] |= 1 and p[0] ^= 7 *)
Definition or1 (p : psize) : psize := (Z.lor (fst p) 1, snd p).
Definition xor7 (p : psize) : psize := (Z.lxor (fst p) 7, snd p).

Definition is_one (p : psize) : bool := (fst p =? 1) && (snd p =? 0).

Section Qsort.
Variable width : Z.
Variable cmp : list Z -> list Z -> Z.

(** The element at an address. *)
Definition elem (m : mem) (a : Z) : list Z := bytes_at m a (Z.to_nat width).

(** ** Moving elements *)

(** for (i = 0; i < n; i++) memcpy(ar[i], ar[i+1], l), with ar[n] = tmp. *)
Fixpoint copies (m : mem) (l : Z) (ar : list Z) (tmp : list Z) : mem :=
  match ar with
  | [] => m
  | a :: ar' =>
      match ar' with
      | [] => upd_list m a tmp
      | b :: _ => copies (mcopy m a b l) l ar' tmp
      end
  end.

Fixpoint cycle_loop (fuel : nat) (m : mem) (w : Z) (ar : list Z) : mem :=
  match fuel with
  | O => m
  | S fuel =>
      if w =? 0 then m
      else
        let l := if 256 <? w then 256 else w in
        let tmp := bytes_at m (hd 0 ar) (Z.to_nat l) in
        let m := copies m l ar tmp in
        cycle_loop fuel m (w - l) (map (fun a => a + l) ar)
  end.

Definition cycle (m : mem) (ar : list Z) : mem :=
  if (length ar <? 2)%nat then m else cycle_loop (Z.to_nat width) m width ar.

(** ** Heaps *)

(** lp[i] *)
Definition lpat (lp : list Z) (i : Z) : Z := if i <? 0 then 0 else nth (Z.to_nat i) lp 0.

(** The loop of sift: the addresses after ar[0]. *)
Fixpoint sift_path (fuel : nat) (m : mem) (x head pshift : Z) (lp : list Z) : list Z :=
  match fuel with
  | O => []
  | S fuel =>
      if pshift <=? 1 then []
      else
        let rt := head - width in
        let lf := head - width - lpat lp (pshift - 2) in
        if (0 <=? cmp (elem m x) (elem m lf)) && (0 <=? cmp (elem m x) (elem m rt)) then []
        else if 0 <=? cmp (elem m lf) (elem m rt) then lf :: sift_path fuel m x lf (pshift - 1) lp
        else rt :: sift_path fuel m x rt (pshift - 2) lp
  end.

Definition sift (m : mem) (head pshift : Z) (lp : list Z) : mem :=
  cycle m (head :: sift_path (Z.to_nat pshift) m head head pshift lp).

(** The loop of trinkle: the addresses after ar[0], and head, pshift and trusty
    at the end. *)
Fixpoint trinkle_path (fuel : nat) (m : mem) (x head : Z) (p : psize) (pshift : Z)
  (trusty : bool) (lp : list Z) : option (list Z * Z * Z * bool) :=
  match fuel with
  | O => None
  | S fuel =>
      if is_one p then Some ([], head, pshift, trusty)
      else
        let stepson := head - lpat lp pshift in
        if cmp (elem m stepson) (elem m x) <=? 0 then Some ([], head, pshift, trusty)
        else if (negb trusty && (1 <? pshift)) &&
                (let rt := head - width in
                 let lf := head - width - lpat lp (pshift - 2) in
                 (0 <=? cmp (elem m rt) (elem m stepson)) || (0 <=? cmp (elem m lf) (elem m stepson)))
        then Some ([], head, pshift, trusty)
        else
          let trail := pntz p in
          let? (ar, h, ps, t) :=
            trinkle_path fuel m x stepson (shr p trail) (pshift + trail) false lp in
          Some (stepson :: ar, h, ps, t)
  end.

Definition trinkle (m : mem) (head : Z) (p : psize) (pshift : Z) (trusty : bool) (lp : list Z)
  : option mem :=
  let? (ar, h, ps, t) := trinkle_path 128 m head head p pshift trusty lp in
  if negb t then Some (sift (cycle m (head :: ar)) h ps lp) else Some m.

(** ** The sort *)

(** for (lp[0]=lp[1]=width, i=2; (lp[i]=lp[i-2]+lp[i-1]+width) < size; i++); in
    an array of 96. *)
Fixpoint lp_loop (fuel : nat) (size : Z) (lp : list Z) : option (list Z) :=
  match fuel with
  | O => None
  | S fuel =>
      let i := length lp in
      let v := u64 (nth (i - 2) lp 0 + nth (i - 1) lp 0 + width) in
      let lp := lp ++ [v] in
      if v <? size then lp_loop fuel size lp else Some lp
  end.

(** while (head < high) *)
Fixpoint build (fuel : nat) (m : mem) (head high : Z) (p : psize) (pshift : Z) (lp : list Z)
  : option (mem * Z * psize * Z) :=
  match fuel with
  | O => None
  | S fuel =>
      if head <? high then
        let? (m, p, pshift) :=
          if Z.land (fst p) 3 =? 3 then
            Some (sift m head pshift lp, shr p 2, pshift + 2)
          else
            let? m := if high - head <=? lpat lp (pshift - 1)
                      then trinkle m head p pshift false lp
                      else Some (sift m head pshift lp) in
            if pshift =? 1 then Some (m, shl p 1, 0) else Some (m, shl p (pshift - 1), 1) in
        build fuel m (head + width) high (or1 p) pshift lp
      else Some (m, head, p, pshift)
  end.

(** while (pshift != 1 || p[0] != 1 || p[1] != 0) *)
Fixpoint dequeue (fuel : nat) (m : mem) (head : Z) (p : psize) (pshift : Z) (lp : list Z)
  : option mem :=
  match fuel with
  | O => None
  | S fuel =>
      if negb (pshift =? 1) || negb (is_one p) then
        let? (m, p, pshift) :=
          if pshift <=? 1 then
            let trail := pntz p in
            Some (m, shr p trail, pshift + trail)
          else
            let p := shl p 2 in
            let pshift := pshift - 2 in
            let p := xor7 p in
            let p := shr p 1 in
            let? m := trinkle m (head - lpat lp pshift - width) p (pshift + 1) true lp in
            let p := or1 (shl p 1) in
            let? m := trinkle m (head - width) p pshift true lp in
            Some (m, p, pshift) in
        dequeue fuel m (head - width) p pshift lp
      else Some m
  end.

(** __qsort_r(base, nel, width, cmp, arg) *)
Definition qsort_r (m : mem) (base nel : Z) : option mem :=
  let size := u64 (width * nel) in
  if size =? 0 then Some m
  else
    let head := base in
    let high := head + size - width in
    let? lp := lp_loop 94 size [width; width] in
    let fuel := S (Z.to_nat nel) in
    let? (m, head, p, pshift) := build fuel m head high (1, 0) 1 lp in
    let? m := trinkle m head p pshift false lp in
    dequeue fuel m head p pshift lp.
End Qsort.

(** ** The bit vector of a forest *)

Definition pval (p : psize) : Z := fst p + 18446744073709551616 * snd p.
Definition word (x : Z) : Prop := 0 <= x < 18446744073709551616.
Definition wfp (p : psize) : Prop := word (fst p) /\ word (snd p).

(** A bit per tree: tree [i] is at the bit [k_i - k]. *)
Fixpoint pof (k : nat) (ks : list nat) : Z :=
  match ks with [] => 1 | k1 :: ks' => 1 + 2 ^ Z.of_nat (k1 - k) * pof k1 ks' end.

Lemma wfp_range p : wfp p -> 0 <= pval p < 2 ^ 128.
Proof. unfold wfp, word, pval. lia. Qed.

(** The lowest bit of a word. *)
Lemma land_neg_odd q : Z.land (2 * q + 1) (- (2 * q + 1)) = 1.
Proof.
  replace (- (2 * q + 1)) with (Z.lnot (2 * q)) by (unfold Z.lnot; lia).
  apply Z.bits_inj'. intros i Hi. rewrite Z.land_spec, Z.lnot_spec by lia.
  destruct (Z.eq_dec i 0) as [->|].
  - rewrite Z.testbit_odd_0, Z.testbit_even_0. reflexivity.
  - replace i with (Z.succ (Z.pred i)) by lia.
    rewrite Z.testbit_odd_succ, Z.testbit_even_succ by lia.
    change 1 with (2 * 0 + 1). rewrite Z.testbit_odd_succ, Z.bits_0 by lia. apply andb_negb_r.
Qed.

Lemma ntz_spec t q : 0 <= t -> ntz (2 ^ t * (2 * q + 1)) = t.
Proof.
  intros Ht. unfold ntz. replace (- (2 ^ t * (2 * q + 1))) with (- (2 * q + 1) * 2 ^ t) by ring.
  rewrite (Z.mul_comm (2 ^ t)), <- !Z.shiftl_mul_pow2, <- Z.shiftl_land, land_neg_odd by assumption.
  rewrite Z.shiftl_1_l. now apply Z.log2_pow2.
Qed.

Lemma pow2_split a b : 0 <= a <= b -> 2 ^ b = 2 ^ a * 2 ^ (b - a).
Proof. intros. rewrite <- Z.pow_add_r by lia. f_equal. lia. Qed.

Lemma pntz_spec p t q :
  wfp p -> 1 <= t -> pval p = 1 + 2 ^ t * (2 * q + 1) -> 0 <= q -> pntz p = t.
Proof.
  intros [H0 H1] Ht Hv Hq. unfold word in *. unfold pntz, pval in *.
  destruct (Z.lt_ge_cases t 64) as [Hlt|Hge].
  - assert (E : fst p - 1 = 2 ^ t * (2 * (q - 2 ^ (64 - t - 1) * snd p) + 1)).
    { assert (EB : 2 ^ (64 - t) = 2 * 2 ^ (64 - t - 1)) by (rewrite (pow2_split 1 (64 - t)) by lia; reflexivity).
      replace 18446744073709551616 with (2 ^ t * 2 ^ (64 - t)) in Hv
        by (rewrite <- pow2_split by lia; reflexivity).
      rewrite EB in Hv. lia. }
    assert (0 < 2 ^ t) by lia.
    destruct (Z.eqb_spec (fst p) 1) as [E1|E1]; cbn [negb].
    { rewrite E1, Z.sub_diag in E. symmetry in E. apply Z.mul_eq_0 in E. lia. }
    rewrite E. apply ntz_spec. lia.
  - assert (E : 2 ^ t = 2 ^ 64 * 2 ^ (t - 64)) by (apply pow2_split; lia).
    change 18446744073709551616 with (2 ^ 64) in *.
    set (X := 2 ^ (t - 64) * (2 * q + 1)). assert (0 < 2 ^ (t - 64)) by lia.
    assert (0 < X) by (unfold X; nia).
    replace (2 ^ t * (2 * q + 1)) with (2 ^ 64 * X) in Hv by (unfold X; rewrite E; ring).
    assert (E1 : snd p = X) by lia. assert (E0 : fst p = 1) by lia. rewrite E0, Z.eqb_refl. cbn [negb].
    destruct (Z.eqb_spec (snd p) 0); cbn [negb]; [lia|].
    rewrite E1. unfold X. rewrite ntz_spec by lia. lia.
Qed.

Lemma shr_spec p n : wfp p -> 1 <= n < 128 -> wfp (shr p n) /\ pval (shr p n) = pval p / 2 ^ n.
Proof.
  assert (Hs : forall p0 p1 n, word p0 -> word p1 -> 1 <= n < 64 ->
    let r := (Z.lor (Z.shiftr p0 n) (u64 (Z.shiftl p1 (64 - n))), Z.shiftr p1 n) in
    wfp r /\ pval r = (p0 + 18446744073709551616 * p1) / 2 ^ n).
  { clear. unfold word, wfp, pval, word, u64. intros p0 p1 n H0 H1 Hn. cbn [fst snd].
    assert (E : 18446744073709551616 = 2 ^ n * 2 ^ (64 - n)) by (rewrite <- (pow2_split n 64) by lia; reflexivity).
    assert (0 < 2 ^ n) by lia. assert (0 < 2 ^ (64 - n)) by lia.
    rewrite !Z.shiftr_div_pow2, Z.shiftl_mul_pow2 by lia.
    assert (Em : (p1 * 2 ^ (64 - n)) mod 18446744073709551616 = (p1 mod 2 ^ n) * 2 ^ (64 - n)).
    { rewrite E, Z.mul_mod_distr_r by lia. reflexivity. }
    assert (D0 : 0 <= p0 / 2 ^ n < 2 ^ (64 - n)).
    { split; [apply Z.div_pos; lia|]. apply Z.div_lt_upper_bound; lia. }
    pose proof (Z.mod_pos_bound p1 (2 ^ n) ltac:(lia)).
    assert (D1 : 0 <= p1 / 2 ^ n) by (apply Z.div_pos; lia).
    assert (D2 : p1 / 2 ^ n <= p1) by (apply Z.div_le_upper_bound; nia).
    rewrite Em, Z.lor_comm, lor_add by lia. split; [nia|].
    replace (p0 + 18446744073709551616 * p1) with (p0 + (2 ^ (64 - n) * p1) * 2 ^ n) by (rewrite E; ring).
    rewrite Z.div_add by lia. rewrite (Z.div_mod p1 (2 ^ n)) at 3 by lia. rewrite E. ring. }
  intros [H0 H1] Hn. unfold shr. destruct (Z.leb_spec 64 n).
  - change 18446744073709551616 with (2 ^ 64) in *. unfold pval at 2.
    assert (E : (fst p + 2 ^ 64 * snd p) / 2 ^ n = snd p / 2 ^ (n - 64)).
    { rewrite (pow2_split 64 n), <- Z.div_div by lia. f_equal.
      rewrite Z.mul_comm, Z.div_add, Z.div_small by (unfold word in *; lia). lia. }
    change 18446744073709551616 with (2 ^ 64). rewrite E. destruct (Z.eqb_spec (n - 64) 0) as [->|].
    + rewrite Z.pow_0_r, Z.div_1_r. unfold wfp, pval, word in *; cbn [fst snd]. lia.
    + cbn [fst snd]. destruct (Hs (snd p) 0 (n - 64)) as [W V]; [assumption|unfold word; lia|lia|].
      split; [exact W|]. etransitivity; [exact V|]. f_equal. lia.
  - apply Hs; auto; lia.
Qed.

Lemma shl_spec p n :
  wfp p -> 1 <= n < 128 -> pval p * 2 ^ n < 2 ^ 128 ->
  wfp (shl p n) /\ pval (shl p n) = pval p * 2 ^ n.
Proof.
  assert (Hs : forall p0 p1 n, word p0 -> word p1 -> 1 <= n < 64 ->
    (p0 + 18446744073709551616 * p1) * 2 ^ n < 2 ^ 128 ->
    let r := (u64 (Z.shiftl p0 n), Z.lor (u64 (Z.shiftl p1 n)) (Z.shiftr p0 (64 - n))) in
    wfp r /\ pval r = (p0 + 18446744073709551616 * p1) * 2 ^ n).
  { clear. unfold word, wfp, pval, word, u64. intros p0 p1 n H0 H1 Hn Hb. cbn [fst snd].
    change 18446744073709551616 with (2 ^ 64) in *.
    assert (E : 2 ^ 64 = 2 ^ (64 - n) * 2 ^ n) by (rewrite <- Z.pow_add_r by lia; f_equal; lia).
    assert (0 < 2 ^ n) by lia. assert (0 < 2 ^ (64 - n)) by lia.
    rewrite !Z.shiftl_mul_pow2, Z.shiftr_div_pow2 by lia.
    assert (D1 : p1 * 2 ^ n < 2 ^ 64) by (change (2 ^ 128) with (2 ^ 64 * 2 ^ 64) in Hb; nia).
    assert (D0 : 0 <= p0 / 2 ^ (64 - n) < 2 ^ n).
    { split; [apply Z.div_pos; lia|]. apply Z.div_lt_upper_bound; lia. }
    rewrite (Z.mod_small (p1 * 2 ^ n)) by nia. rewrite lor_add by lia.
    assert (E0 : (p0 * 2 ^ n) mod 2 ^ 64 = (p0 mod 2 ^ (64 - n)) * 2 ^ n).
    { rewrite E at 1. now rewrite Z.mul_mod_distr_r by lia. }
    assert (p1 + 1 <= 2 ^ (64 - n)) by nia.
    pose proof (Z.mod_pos_bound p0 (2 ^ (64 - n)) ltac:(lia)).
    rewrite E0. split; [nia|]. rewrite (Z.div_mod p0 (2 ^ (64 - n))) at 3 by lia.
    rewrite E. ring. }
  intros [H0 H1] Hn Hb. unfold shl. destruct (Z.leb_spec 64 n).
  - unfold pval in Hb. rewrite (pow2_split 64 n) in Hb by lia. change 18446744073709551616 with (2 ^ 64) in Hb.
    assert (0 < 2 ^ (n - 64)) by lia. unfold word in *.
    assert (E1 : snd p = 0) by (change (2 ^ 128) with (2 ^ 64 * 2 ^ 64) in Hb; nia).
    assert (E2 : fst p * 2 ^ (n - 64) < 2 ^ 64) by (change (2 ^ 128) with (2 ^ 64 * 2 ^ 64) in Hb; nia).
    unfold pval at 2. rewrite E1, (pow2_split 64 n) by lia.
    destruct (Z.eqb_spec (n - 64) 0) as [->|].
    + rewrite Z.pow_0_r. unfold wfp, pval, word in *; cbn [fst snd]. lia.
    + cbn [fst snd]. destruct (Hs 0 (fst p) (n - 64)) as [W V]; [unfold word; lia|assumption|lia| |].
      { change (2 ^ 128) with (2 ^ 64 * 2 ^ 64). change 18446744073709551616 with (2 ^ 64). nia. }
      split; [exact W|]. etransitivity; [exact V|]. change 18446744073709551616 with (2 ^ 64). ring.
  - apply Hs; auto; lia.
Qed.

Fixpoint inc (k : nat) (ks : list nat) : Prop :=
  match ks with [] => True | k1 :: ks' => (k < k1)%nat /\ inc k1 ks' end.

Lemma gaps_inc k ks : gaps k ks -> inc k ks.
Proof. revert k; induction ks as [|k1 ks IH]; intros k; [easy|]. intros [H1 H2]. split; [lia|auto]. Qed.
Lemma orders_inc k ks : orders k ks -> inc k ks.
Proof. destruct ks; [easy|]. intros (H1 & _ & H2). split; [assumption|]. now apply gaps_inc. Qed.

(** A forest with [B] as a bound of the orders. *)
Definition below (B : nat) (k : nat) (ks : list nat) : Prop := (k <= B)%nat /\ Forall (fun i => i <= B)%nat ks.

Lemma pof_odd k ks : inc k ks -> exists q, pof k ks = 2 * q + 1 /\ 0 <= q.
Proof.
  revert k; induction ks as [|k1 ks IH]; intros k; cbn [pof inc]; [exists 0; lia|].
  intros [Hk Hi]. destruct (IH k1 Hi) as (q & -> & Hq).
  rewrite (pow2_split 1 (Z.of_nat (k1 - k))) by lia.
  exists (2 ^ (Z.of_nat (k1 - k) - 1) * (2 * q + 1)). split; [ring|].
  assert (0 < 2 ^ (Z.of_nat (k1 - k) - 1)) by lia. nia.
Qed.

Lemma pof_bound B k ks : inc k ks -> below B k ks -> 1 <= pof k ks < 2 ^ Z.of_nat (B - k + 1).
Proof.
  revert k; induction ks as [|k1 ks IH]; intros k Hi [Hb HB]; cbn [pof].
  - split; [lia|]. apply Z.pow_gt_1; lia.
  - destruct Hi as [Hk Hi]. inversion_clear HB as [|? ? Hb1 HB'].
    specialize (IH k1 Hi (conj Hb1 HB')).
    replace (Z.of_nat (B - k + 1)) with (Z.of_nat (k1 - k) + Z.of_nat (B - k1 + 1)) by lia.
    rewrite Z.pow_add_r by lia. assert (2 <= 2 ^ Z.of_nat (k1 - k)).
    { rewrite (pow2_split 1) by lia. assert (0 < 2 ^ (Z.of_nat (k1 - k) - 1)) by lia. lia. }
    nia.
Qed.

(** [p] is the bit vector of the forest. *)
Definition bits (p : psize) (k : nat) (ks : list nat) : Prop := wfp p /\ pval p = pof k ks.

Lemma bits_one p k ks : inc k ks -> bits p k ks -> is_one p = match ks with [] => true | _ => false end.
Proof.
  intros Hi [[H0 H1] Hv]. unfold word, pval, is_one in *. destruct ks as [|k1 ks]; cbn [pof] in Hv; [lia|].
  destruct Hi as [Hk Hi]. destruct (pof_odd k1 ks Hi) as (q & Eq & Hq). rewrite Eq in Hv.
  assert (0 < 2 ^ Z.of_nat (k1 - k)) by lia. nia.
Qed.

(** To the next tree. *)
Lemma bits_pop p k k1 ks :
  inc k (k1 :: ks) -> (k1 < 128)%nat -> bits p k (k1 :: ks) ->
  pntz p = Z.of_nat k1 - Z.of_nat k /\ bits (shr p (pntz p)) k1 ks.
Proof.
  intros [Hk Hi] Hb [Hw Hv]. cbn [pof] in Hv. destruct (pof_odd k1 ks Hi) as (q & Hq & Hq0).
  assert (E : pntz p = Z.of_nat (k1 - k)) by (apply (pntz_spec p _ q); [assumption|lia|congruence|lia]).
  split; [lia|]. rewrite E. destruct (shr_spec p (Z.of_nat (k1 - k)) Hw ltac:(lia)) as [W V].
  split; [exact W|]. rewrite V, Hv, Z.mul_comm, Z.div_add by lia.
  rewrite Z.div_small; [lia|]. split; [lia|]. apply Z.pow_gt_1; lia.
Qed.

Lemma or1_spec p q : wfp p -> pval p = 2 * q -> wfp (or1 p) /\ pval (or1 p) = 2 * q + 1.
Proof.
  intros [H0 H1] Hv. unfold or1, pval, wfp, word in *; cbn [fst snd].
  replace (fst p) with ((fst p / 2) * 2 ^ 1) by (change (2 ^ 1) with 2; zlia).
  rewrite lor_add by lia. change (2 ^ 1) with 2. zlia.
Qed.

(** A new tree of order [j] below the last one. *)
Lemma bits_push p j k ks :
  inc k ks -> below 126 k ks -> (j < k)%nat -> bits p k ks ->
  bits (or1 (shl p (Z.of_nat k - Z.of_nat j))) j (k :: ks).
Proof.
  intros Hi Hb Hj [Hw Hv]. pose proof (pof_bound _ _ _ Hi Hb) as Hp. destruct Hb as [Hb _].
  set (d := Z.of_nat k - Z.of_nat j) in *.
  assert (H2 : 2 ^ d = 2 * 2 ^ (d - 1)) by (rewrite (pow2_split 1 d) by lia; reflexivity).
  destruct (shl_spec p d Hw ltac:(lia)) as [W V].
  { rewrite Hv. assert (E : 2 ^ 127 = 2 ^ Z.of_nat (126 - k + 1) * 2 ^ Z.of_nat k)
      by (rewrite <- Z.pow_add_r by lia; f_equal; lia).
    assert (2 ^ d <= 2 ^ Z.of_nat k) by (apply Z.pow_le_mono_r; lia).
    assert (0 < 2 ^ d) by lia. assert (2 ^ 127 < 2 ^ 128) by reflexivity. nia. }
  destruct (or1_spec _ (2 ^ (d - 1) * pof k ks) W) as [W' V']; [rewrite V, Hv, H2; ring|].
  split; [exact W'|]. rewrite V'. cbn [pof]. replace (Z.of_nat (k - j)) with d by lia. rewrite H2. ring.
Qed.

(** The last two orders are consecutive. *)
Lemma bits_three p k ks :
  orders k ks -> bits p k ks ->
  (Z.land (fst p) 3 =? 3) = match ks with k1 :: _ => (k1 =? S k)%nat | [] => false end.
Proof.
  intros Ho [[H0 H1] Hv]. change 3 with (Z.ones 2) at 1. rewrite Z.land_ones by lia. change (2 ^ 2) with 4.
  assert (E : fst p mod 4 = pval p mod 4).
  { unfold pval. replace (18446744073709551616 * snd p) with (4611686018427387904 * snd p * 4) by ring.
    now rewrite Z.mod_add. }
  rewrite E, Hv. destruct ks as [|k1 ks]; [reflexivity|]. cbn [pof].
  destruct Ho as (Hk & _ & Hg). destruct (pof_odd k1 ks (gaps_inc _ _ Hg)) as (q & -> & Hq).
  destruct (Nat.eqb_spec k1 (S k)) as [->|Hne].
  - replace (Z.of_nat (S k - k)) with 1 by lia. change (2 ^ 1) with 2. zlia.
  - rewrite (pow2_split 2 (Z.of_nat (k1 - k))) by lia. change (2 ^ 2) with 4.
    replace (1 + 4 * 2 ^ (Z.of_nat (k1 - k) - 2) * (2 * q + 1))
      with (1 + (2 ^ (Z.of_nat (k1 - k) - 2) * (2 * q + 1)) * 4) by ring.
    now rewrite Z.mod_add.
Qed.

(** They merge. *)
Lemma bits_merge p k ks :
  orders k (S k :: ks) -> bits p k (S k :: ks) -> bits (or1 (shr p 2)) (S (S k)) ks.
Proof.
  intros Ho [Hw Hv]. destruct (shr_spec p 2 Hw ltac:(lia)) as [W V].
  cbn [pof] in Hv. replace (Z.of_nat (S k - k)) with 1 in Hv by lia. change (2 ^ 1) with 2 in Hv.
  change (2 ^ 2) with 4 in V. rewrite Hv in V. destruct Ho as (_ & _ & Hg).
  destruct ks as [|k2 ks]; cbn [pof] in *.
  - destruct (or1_spec _ 0 W V) as [W' V']. now split.
  - destruct Hg as [Hk Hg]. destruct (pof_odd k2 ks (gaps_inc _ _ Hg)) as (q & Eq & Hq).
    assert (E : 2 ^ Z.of_nat (k2 - S k) = 2 * (2 * 2 ^ Z.of_nat (k2 - S k - 2))).
    { replace (Z.of_nat (k2 - S k)) with (2 + Z.of_nat (k2 - S k - 2)) by lia.
      rewrite Z.pow_add_r by lia. change (2 ^ 2) with 4. lia. }
    set (Y := 2 ^ Z.of_nat (k2 - S k - 2)) in *. set (X := pof k2 ks) in *.
    rewrite E in V. replace (1 + 2 * (1 + 2 * (2 * Y) * X)) with (3 + (2 * Y * X) * 4) in V by ring.
    rewrite Z.div_add in V by lia. change (3 / 4) with 0 in V.
    destruct (or1_spec _ (Y * X) W) as [W' V']; [lia|]. split; [exact W'|].
    rewrite V'. cbn [pof]. fold X. replace (Z.of_nat (k2 - S (S k))) with (1 + Z.of_nat (k2 - S k - 2)) by lia.
    rewrite Z.pow_add_r by lia. fold Y. change (2 ^ 1) with 2. ring.
Qed.

(** The first bits of a vector: a tree splits into two of the next lower orders. *)
Lemma lxor_7 x : Z.lxor (8 * x + 4) 7 = 8 * x + 3.
Proof.
  assert (E : forall y, 0 <= y < 8 -> 8 * x + y = Z.lor (x * 2 ^ 3) y).
  { intros y Hy. rewrite lor_add by lia. change (2 ^ 3) with 8. lia. }
  rewrite (E 4), (E 3) by lia. apply Z.bits_inj'. intros i Hi.
  rewrite Z.lxor_spec, !Z.lor_spec. destruct (Z.lt_ge_cases i 3).
  - rewrite Z.mul_pow2_bits_low by lia. assert (Hc : i = 0 \/ i = 1 \/ i = 2) by lia.
    now destruct Hc as [->|[->| ->]].
  - assert (Hs : forall y, 0 <= y < 8 -> Z.testbit y i = false).
    { intros y Hy. destruct (Z.eq_dec y 0) as [->|]; [apply Z.bits_0|].
      apply Z.bits_above_log2; [lia|]. apply Z.log2_lt_pow2; [lia|].
      assert (2 ^ 3 <= 2 ^ i) by (apply Z.pow_le_mono_r; lia). lia. }
    rewrite (Hs 4), (Hs 7), (Hs 3) by lia. now rewrite !orb_false_r, xorb_false_r.
Qed.

Lemma bits_split p k ks :
  orders (S (S k)) ks -> below 120 (S (S k)) ks -> bits p (S (S k)) ks ->
  let p1 := shr (xor7 (shl p 2)) 1 in
  bits p1 (S k) ks /\ bits (or1 (shl p1 1)) k (S k :: ks).
Proof.
  intros Ho Hb [Hw Hv] p1. pose proof (orders_inc _ _ Ho) as Hi.
  pose proof (pof_bound _ _ _ Hi Hb) as Hp. destruct (pof_odd _ _ Hi) as (q & Eq & Hq).
  assert (2 ^ Z.of_nat (120 - S (S k) + 1) <= 2 ^ 119) by (apply Z.pow_le_mono_r; lia).
  assert (2 ^ 119 * 4 < 2 ^ 128) by reflexivity.
  destruct (shl_spec p 2 Hw ltac:(lia)) as [W V]; [change (2 ^ 2) with 4; lia|].
  change (2 ^ 2) with 4 in V. rewrite Hv, Eq in V.
  assert (E : wfp (xor7 (shl p 2)) /\ pval (xor7 (shl p 2)) = 8 * q + 3).
  { destruct W as [W0 W1]. unfold xor7, wfp, pval, word in *; cbn [fst snd].
    assert (Ef : fst (shl p 2) = 8 * (fst (shl p 2) / 8) + 4) by zlia.
    rewrite Ef, lxor_7. lia. }
  destruct E as [WX VX]. destruct (shr_spec _ 1 WX ltac:(lia)) as [W1 V1].
  rewrite VX in V1. change (2 ^ 1) with 2 in V1.
  assert (B1 : bits p1 (S k) ks).
  { split; [exact W1|]. unfold p1. rewrite V1.
    destruct ks as [|k1 ks]; cbn [pof] in *; [zlia|].
    destruct Ho as (Hk1 & _). assert (E2 : 2 ^ Z.of_nat (k1 - S k) = 2 * 2 ^ Z.of_nat (k1 - S (S k))).
    { replace (Z.of_nat (k1 - S k)) with (1 + Z.of_nat (k1 - S (S k))) by lia.
      now rewrite Z.pow_add_r by lia. }
    rewrite E2. replace (1 + 2 * 2 ^ Z.of_nat (k1 - S (S k)) * pof k1 ks)
      with (1 + 2 * (2 ^ Z.of_nat (k1 - S (S k)) * pof k1 ks)) by ring. zlia. }
  split; [exact B1|]. replace 1 with (Z.of_nat (S k) - Z.of_nat k) by lia.
  apply bits_push; [| |lia|exact B1].
  - destruct (orders_split _ _ Ho) as (_ & _ & Hg). now apply gaps_inc.
  - destruct Hb. split; [lia|]. eapply Forall_impl; [|eassumption]. simpl. lia.
Qed.

(** ** Moving elements *)
Section Memory.
Variables (width base : Z) (cmp : list Z -> list Z -> Z).
Hypothesis Hwidth : 0 < width.

Definition addr (i : Z) : Z := base + i * width.

(** The memory as an array of elements; every address is in one of them. *)
Definition elems (m : mem) (i : Z) : list Z := elem width m (addr i).

Lemma addr_block a o len i j :
  0 <= o -> o + len <= width -> 0 <= j < width ->
  within (addr a + o) len (addr i + j) = (i =? a) && within o len j.
Proof.
  intros Ho Hl Hj. unfold within, addr. destruct (Z.eqb_spec i a) as [->|Hne]; cbn [andb]; [lia|].
  destruct (Z.lt_total i a) as [H|[H|H]]; [|lia|].
  - assert (i * width + width <= a * width) by nia. lia.
  - assert (a * width + width <= i * width) by nia. lia.
Qed.

Lemma copies_ok m len o l tmp :
  0 <= o -> 0 <= len -> o + len <= width -> length tmp = Z.to_nat len ->
  forall i j, 0 <= j < width ->
  copies m len (map (fun i => addr i + o) l) tmp (addr i + j) =
  if within o len j then putpath (fun i => m (addr i + j)) l (nth (Z.to_nat (j - o)) tmp 0) i
  else m (addr i + j).
Proof.
  intros Ho Hlen Hl Htmp i j Hj.
  revert m; induction l as [|a [|b l] IH]; intros m; [simpl; now destruct (within o len j)| |].
  - cbn [map copies putpath]. unfold upd_list, upd. rewrite Htmp, Z2Nat.id, addr_block by lia.
    destruct (Z.eqb_spec i a) as [->|]; cbn [andb]; [|now destruct (within o len j)].
    destruct (within o len j); [|reflexivity]. f_equal. unfold addr. lia.
  - change (copies m len (map (fun i => addr i + o) (a :: b :: l)) tmp)
      with (copies (mcopy m (addr a + o) (addr b + o) len) len (map (fun i => addr i + o) (b :: l)) tmp).
    rewrite IH, putpath_cons2. clear IH.
    assert (E : forall i, mcopy m (addr a + o) (addr b + o) len (addr i + j) =
      if within o len j then upd (fun i => m (addr i + j)) a (m (addr b + j)) i else m (addr i + j)).
    { intros i'. unfold mcopy, upd. rewrite addr_block by lia.
      destruct (Z.eqb_spec i' a) as [->|]; cbn [andb]; destruct (within o len j); auto. f_equal. lia. }
    destruct (within o len j) eqn:Ej; [|apply E]. now apply putpath_ext.
Qed.

Lemma nth_bytes_at m a n k : (k < n)%nat -> nth k (bytes_at m a n) 0 = m (a + Z.of_nat k).
Proof.
  revert a k; induction n as [|n IH]; intros a k Hk; [lia|]. destruct k as [|k]; cbn [bytes_at nth].
  - f_equal. lia.
  - rewrite IH by lia. f_equal. lia.
Qed.

(** The cycle in rounds of at most 256 bytes. *)
Lemma cycle_loop_ok i0 l fuel m w :
  0 <= w <= width -> (Z.to_nat w <= fuel)%nat ->
  forall i j, 0 <= j < width ->
  cycle_loop fuel m w (map (fun i => addr i + (width - w)) (i0 :: l)) (addr i + j) =
  if j <? width - w then m (addr i + j)
  else putpath (fun i => m (addr i + j)) (i0 :: l) (m (addr i0 + j)) i.
Proof.
  intros Hw Hf i j Hj. revert m w Hw Hf i.
  induction fuel as [|fuel IH]; intros m w Hw Hf i; cbn [cycle_loop].
  { now replace (j <? width - w) with true by lia. }
  destruct (Z.eqb_spec w 0) as [->|Hw0]; [now replace (j <? width - 0) with true by lia|].
  set (len := if 256 <? w then 256 else w).
  assert (Hlen : 1 <= len <= w) by (unfold len; destruct (Z.ltb_spec 256 w); lia).
  rewrite map_map. set (tmp := bytes_at m _ _).
  set (o := width - w). set (m2 := copies m len _ tmp).
  rewrite (map_ext _ (fun i => addr i + (width - (w - len)))) by (intros; unfold o; lia).
  assert (Hm2 : forall i, m2 (addr i + j) = if within o len j
    then putpath (fun i => m (addr i + j)) (i0 :: l) (m (addr i0 + j)) i else m (addr i + j)).
  { intros i'. unfold m2. rewrite copies_ok; try (unfold o; lia); [|unfold tmp; apply bytes_at_length].
    unfold within. destruct (Z.leb_spec o j), (Z.ltb_spec j (o + len)); try reflexivity. cbn [andb].
    f_equal. unfold tmp. cbn [map hd]. rewrite nth_bytes_at by lia. f_equal. unfold o in *. lia. }
  rewrite IH by lia. replace (width - (w - len)) with (o + len) by (unfold o; lia).
  unfold within in Hm2. destruct (Z.ltb_spec j (o + len)) as [H1|H1].
  - rewrite Hm2. destruct (Z.leb_spec o j), (Z.ltb_spec j o), (Z.ltb_spec j (o + len)); try lia; reflexivity.
  - replace (j <? o) with false by lia. rewrite Hm2.
    replace (o <=? j) with true by (unfold o; lia). replace (j <? o + len) with false in * by lia.
    cbn [andb]. apply putpath_ext. intros i'. rewrite Hm2. now destruct (o <=? j).
Qed.

(** Two memories with the same elements are the same. *)
Lemma elems_byte m i j : 0 <= j < width -> nth (Z.to_nat j) (elems m i) 0 = m (addr i + j).
Proof. intros Hj. unfold elems, elem. rewrite nth_bytes_at by lia. f_equal. lia. Qed.

Lemma elems_eq m i l :
  length l = Z.to_nat width -> (forall j, 0 <= j < width -> m (addr i + j) = nth (Z.to_nat j) l 0) ->
  elems m i = l.
Proof.
  intros Hl Hj. apply nth_ext with 0 0; unfold elems, elem; rewrite bytes_at_length; [now symmetry|].
  intros n Hn. rewrite nth_bytes_at by assumption. rewrite Hj by lia. f_equal. lia.
Qed.

Lemma elems_length m i : length (elems m i) = Z.to_nat width.
Proof. apply bytes_at_length. Qed.

Lemma elems_in m m' i : elems m i = elems m' i -> forall a, addr i <= a < addr i + width -> m a = m' a.
Proof.
  intros E a Ha. replace a with (addr i + (a - addr i)) by lia.
  rewrite <- !elems_byte by lia. now rewrite E.
Qed.

Lemma putpath_map {A B} (f : A -> B) g l x i : f (putpath g l x i) = putpath (fun i => f (g i)) l (f x) i.
Proof.
  revert g; induction l as [|a [|b l] IH]; intros g; [reflexivity| |].
  - simpl. unfold upd. now destruct (i =? a).
  - rewrite !putpath_cons2, IH. apply putpath_ext. intros j. unfold upd. now destruct (j =? a).
Qed.

(** cycle moves elements along a path. *)
Lemma cycle_ok m i0 l i : elems (cycle width m (map addr (i0 :: l))) i = putpath (elems m) (i0 :: l) (elems m i0) i.
Proof.
  apply elems_eq.
  { destruct l as [|i1 l]; [simpl; unfold upd; destruct (i =? i0); apply elems_length|].
    apply (putpath_all (fun e => length e = Z.to_nat width) (fun _ => True)); auto using elems_length. }
  intros j Hj. rewrite (putpath_map (fun e => nth (Z.to_nat j) e 0)).
  rewrite elems_byte, (putpath_ext _ (fun i => m (addr i + j))) by (auto using elems_byte).
  unfold cycle. rewrite length_map. destruct l as [|i1 l]; cbn [length Nat.ltb Nat.leb].
  - simpl. unfold upd. destruct (Z.eqb_spec i i0); congruence.
  - pose proof (cycle_loop_ok i0 (i1 :: l) (Z.to_nat width) m width ltac:(lia) ltac:(lia) i j Hj) as E.
    replace (j <? width - width) with false in E by lia. rewrite <- E.
    rewrite (map_ext (fun i => addr i + (width - width)) addr) by (intros; lia). reflexivity.
Qed.

(** ** Heaps in memory *)
Context `{Hcmp : CmpOrder (list Z) cmp}.

(** lp[k] is the size of a tree of order [k], for the orders in use. *)
Definition lpok (lp : list Z) (n : nat) : Prop :=
  forall k, (k <= n)%nat -> lpat lp (Z.of_nat k) = leo k * width.

Lemma lpat_k lp n k : lpok lp n -> (k <= n)%nat -> lpat lp (Z.of_nat k) = leo k * width.
Proof. auto. Qed.

Lemma sift_path_ok lp n k m x r fuel :
  lpok lp n -> (k <= n)%nat -> (k <= fuel)%nat ->
  sift_path width cmp fuel m x (addr r) (Z.of_nat k) lp =
  map addr (spath cmp k (elems m) (elem width m x) r).
Proof.
  intros Hlp. revert k r; induction fuel as [|fuel IH]; intros k r Hk Hf.
  { now replace k with O by lia. }
  cbn [sift_path]. destruct k as [|[|k]]; [reflexivity|reflexivity|].
  replace (Z.of_nat (S (S k)) <=? 1) with false by lia. rewrite spath_SS.
  replace (Z.of_nat (S (S k)) - 2) with (Z.of_nat k) by lia. rewrite (Hlp k) by lia.
  replace (addr r - width - leo k * width) with (addr (lchild k r)) by (unfold addr, lchild; ring).
  replace (addr r - width) with (addr (rchild r)) by (unfold addr, rchild; ring).
  replace (Z.of_nat (S (S k)) - 1) with (Z.of_nat (S k)) by lia.
  rewrite !IH by lia. unfold elems.
  destruct (_ && _); [reflexivity|]. now destruct (0 <=? _).
Qed.

Lemma sift_ok lp n k m r i :
  lpok lp n -> (k <= n)%nat ->
  elems (sift width cmp m (addr r) (Z.of_nat k) lp) i = sifted cmp k (elems m) (elems m r) r i.
Proof.
  intros Hlp Hk. unfold sift. rewrite (sift_path_ok lp n) by (assumption || lia).
  apply (cycle_ok m r).
Qed.

(** The path of trinkle. *)
Lemma trinkle_path_ok lp n ks k m x r p t fuel :
  lpok lp n -> (n < 128)%nat -> inc k ks -> below n k ks -> bits p k ks -> (length ks < fuel)%nat ->
  trinkle_path width cmp fuel m x (addr r) p (Z.of_nat k) t lp =
  let '(l, k', r', t') := tpath cmp ks (elems m) (elem width m x) k r t in
  Some (map addr l, addr r', Z.of_nat k', t').
Proof.
  intros Hlp Hn. revert k r p t fuel; induction ks as [|k1 ks IH]; intros k r p t fuel Hi Hb Hp Hf;
    (destruct fuel as [|fuel]; [cbn in Hf; lia|]); cbn [trinkle_path tpath];
    rewrite (bits_one _ _ _ Hi Hp); [reflexivity|].
  destruct Hb as [Hk Hb]. inversion_clear Hb as [|? ? Hk1 Hb'].
  destruct (bits_pop p k k1 ks Hi ltac:(lia) Hp) as [Et Hp']. rewrite Et in Hp'.
  rewrite (Hlp k) by lia. replace (addr r - leo k * width) with (addr (r - leo k)) by (unfold addr; ring).
  set (s := r - leo k). unfold tstop. fold s.
  change (elem width m (addr s)) with (elems m s).
  replace (addr r - width) with (addr (rchild r)) by (unfold addr, rchild; ring).
  change (elem width m (addr (rchild r))) with (elems m (rchild r)).
  assert (El : (1 <? Z.of_nat k) = true ->
    elem width m (addr (rchild r) - lpat lp (Z.of_nat k - 2)) = elems m (lchild (k - 2) r)).
  { intros H1. replace (Z.of_nat k - 2) with (Z.of_nat (k - 2)) by lia. rewrite (Hlp (k - 2)%nat) by lia.
    unfold elems. f_equal. unfold addr, rchild, lchild. ring. }
  assert (Ec : (negb t && (1 <? Z.of_nat k)) &&
      ((0 <=? cmp (elems m (rchild r)) (elems m s)) ||
       (0 <=? cmp (elem width m (addr (rchild r) - lpat lp (Z.of_nat k - 2))) (elems m s))) =
    (negb t && (1 <? Z.of_nat k)) &&
      ((0 <=? cmp (elems m (rchild r)) (elems m s)) || (0 <=? cmp (elems m (lchild (k - 2) r)) (elems m s)))).
  { destruct (1 <? Z.of_nat k) eqn:E1; [now rewrite El|]. now rewrite !andb_false_r. }
  cbv zeta. rewrite Ec. clear Ec El.
  destruct (cmp (elems m s) (elem width m x) <=? 0); [reflexivity|]. cbn [orb].
  destruct (_ && _); [reflexivity|]. rewrite Et.
  replace (Z.of_nat k + (Z.of_nat k1 - Z.of_nat k)) with (Z.of_nat k1) by lia.
  rewrite IH; [|apply Hi|now split|assumption|cbn in Hf; lia].
  now destruct (tpath cmp ks _ _ k1 s false) as [[[l k'] r'] t'].
Qed.

Lemma tpath_end ks g x k r t :
  let '(l, k', r', t') := tpath cmp ks g x k r t in
  In k' (k :: ks) /\ forall h y, putpath h (r :: l) y r' = y :> list Z.
Proof.
  revert k r t; induction ks as [|k1 ks IH]; intros k r t; cbn [tpath].
  { split; [now left|]. intros. apply upd_eq. }
  destruct (tstop _ _ _ _ _ _); [split; [now left|intros; apply upd_eq]|].
  specialize (IH k1 (r - leo k) false).
  destruct (tpath cmp ks g x k1 (r - leo k) false) as [[[l k'] r'] t']. destruct IH as [H1 H2].
  split; [now right|]. intros. rewrite putpath_cons2. apply H2.
Qed.

Lemma inc_length n k ks : inc k ks -> below n k ks -> (length ks <= n - k)%nat.
Proof.
  revert k; induction ks as [|k1 ks IH]; intros k Hi [Hk Hb]; cbn [length]; [lia|].
  destruct Hi as [Hi Hi']. inversion_clear Hb. specialize (IH k1 Hi' ltac:(now split)). lia.
Qed.

Lemma trinkle_ok lp n ks k m r p t :
  lpok lp n -> (n < 128)%nat -> inc k ks -> below n k ks -> bits p k ks ->
  exists m', trinkle width cmp m (addr r) p (Z.of_nat k) t lp = Some m' /\
  forall i, elems m' i = trinkled cmp ks (elems m) (elems m r) k r t i.
Proof.
  intros Hlp Hn Hi Hb Hp. unfold trinkle. pose proof (inc_length _ _ _ Hi Hb).
  rewrite (trinkle_path_ok lp n ks) by (auto; lia). change (elem width m (addr r)) with (elems m r).
  pose proof (trinkled_path cmp ks (elems m) (elems m r) k r t) as Ht.
  pose proof (tpath_end ks (elems m) (elems m r) k r t) as He.
  destruct (tpath cmp ks _ _ _ _ _) as [[[l k'] r'] t']. destruct He as [Hk' He]. cbn [bind].
  destruct t'; cbn [negb]; eexists; (split; [reflexivity|]); intros i; rewrite Ht; [reflexivity|].
  assert (k' <= n)%nat.
  { destruct Hb as [Hb1 Hb2], Hk' as [<-|Hin]; [assumption|]. rewrite Forall_forall in Hb2. auto. }
  rewrite (sift_ok lp n) by assumption. set (m1 := cycle _ _ _).
  assert (E : forall j, elems m1 j = putpath (elems m) (r :: l) (elems m r) j) by (intros; apply (cycle_ok m r)).
  rewrite (E r'), He. apply sifted_head. auto.
Qed.

(** ** The two phases in memory *)
Variable N : Z.

Definition sorts_in (m m' : mem) : Prop :=
  Permutation (map (elems m') (zrange 0 (Z.to_nat N))) (map (elems m) (zrange 0 (Z.to_nat N))) /\
  forall i, ~ (0 <= i < N) -> elems m' i = elems m i.

Lemma sorts_trans m1 m2 m3 : sorts_in m1 m2 -> sorts_in m2 m3 -> sorts_in m1 m3.
Proof.
  intros [P1 E1] [P2 E2]. split; [now rewrite P2|]. intros i Hi. rewrite E2, E1; auto.
Qed.
Lemma sorts_refl m : sorts_in m m.
Proof. split; auto. Qed.

Lemma sifted_sorts k m m' r :
  (forall i, elems m' i = sifted cmp k (elems m) (elems m r) r i) -> leo k <= r + 1 -> r < N -> sorts_in m m'.
Proof.
  intros E Hk Hr. split.
  - rewrite (map_ext _ _ E). apply sifted_perm; [apply NoDup_zrange|]. intros. apply in_zrange. lia.
  - intros i Hi. rewrite E. apply sifted_out. lia.
Qed.

Lemma trinkled_sorts ks k m m' r t :
  (forall i, elems m' i = trinkled cmp ks (elems m) (elems m r) k r t i) ->
  leo k + total ks <= r + 1 -> r < N -> sorts_in m m'.
Proof.
  intros E Hk Hr. split.
  - rewrite (map_ext _ _ E). apply trinkled_perm_self; auto; [apply NoDup_zrange|]. intros. apply in_zrange. lia.
  - intros i Hi. rewrite E. apply trinkled_out. lia.
Qed.

Lemma Inv1_ext g g' k r ks : (forall i, g' i = g i) -> Inv1 cmp N g k r ks -> Inv1 cmp N g' k r ks.
Proof.
  intros E (H1 & H2 & H3 & H4). split; [assumption|]. split; [assumption|].
  split; [eapply preheap_ext; eauto|eapply wleft_ext; eauto].
Qed.

Lemma Inv2_ext g g' k r ks : (forall i, g' i = g i) -> Inv2 cmp N g k r ks -> Inv2 cmp N g' k r ks.
Proof.
  intros E (H1 & H2 & H3 & H4 & H5). split; [assumption|]. split; [assumption|].
  split; [eapply forest_ext; eauto|]. split; [|assumption]. intros i j Hi Hj. rewrite !E. now apply H4.
Qed.

Variables (lp : list Z) (n : nat).
Hypothesis (Hlp : lpok lp n) (Hn : (n <= 95)%nat).
Hypothesis HN : forall k, leo k <= N -> (k <= n)%nat.

Lemma below_n k ks : leo k + total ks <= N -> below n k ks.
Proof.
  revert k; induction ks as [|k1 ks IH]; intros k Ht; cbn [total] in Ht.
  - split; [apply HN; lia|constructor].
  - pose proof (leo_pos k). pose proof (leo_pos k1). pose proof (total_nonneg ks).
    destruct (IH k1 ltac:(lia)) as [H1' H2']. split; [apply HN; lia|now constructor].
Qed.

Lemma below_le n1 n2 k ks : below n1 k ks -> (n1 <= n2)%nat -> below n2 k ks.
Proof. intros [H1 H2] Hle. split; [lia|]. eapply Forall_impl; [|exact H2]. simpl. lia. Qed.

Lemma high_test r v : addr (N - 1) - addr r <= v * width <-> N - 1 - r <= v.
Proof. unfold addr. nia. Qed.

(** The root of the last tree, which does not merge, is put in place. *)
Lemma place_ok m k r ks p :
  Inv1 cmp N (elems m) k r ks -> 0 <= r < N -> bits p k ks -> hd O ks <> S k -> k <> O ->
  exists m2,
    (if addr (N - 1) - addr r <=? lpat lp (Z.of_nat k - 1)
     then trinkle width cmp m (addr r) p (Z.of_nat k) false lp
     else Some (sift width cmp m (addr r) (Z.of_nat k) lp)) = Some m2 /\
    sorts_in m m2 /\ Inv1 cmp N (elems m2) (next_order k) (r + 1) (k :: ks).
Proof.
  intros Hinv Hr Hp Hne Hk0. assert (Hinv' := Hinv). destruct Hinv' as (Ho & Ht & _ & _).
  pose proof (below_n k ks ltac:(lia)) as Hb. pose proof (total_nonneg ks) as Ht0.
  replace (Z.of_nat k - 1) with (Z.of_nat (k - 1)) by lia.
  rewrite (Hlp (k - 1)%nat) by (destruct Hb; lia).
  destruct (Z.leb_spec (addr (N - 1) - addr r) (leo (k - 1) * width)) as [Hf1|Hf1].
  - apply high_test in Hf1.
    destruct (trinkle_ok lp n ks k m r p false Hlp ltac:(lia) (orders_inc _ _ Ho) Hb Hp) as (m2 & -> & E2).
    exists m2. split; [reflexivity|]. split; [eapply trinkled_sorts; eauto; lia|].
    eapply Inv1_ext; [exact E2|]. now apply inv1_trinkle_push.
  - pose proof (fun i => sift_ok lp n k m r i Hlp (proj1 Hb)) as Es.
    eexists; split; [reflexivity|]. split; [eapply sifted_sorts; eauto; lia|].
    eapply Inv1_ext; [exact Es|]. apply inv1_sift; auto. unfold final. rewrite <- high_test. lia.
Qed.

Lemma build_ok fuel m k r ks p :
  Inv1 cmp N (elems m) k r ks -> 0 <= r < N -> bits p k ks -> (Z.to_nat (N - 1 - r) < fuel)%nat ->
  exists m' p' k' ks',
    build width cmp fuel m (addr r) (addr (N - 1)) p (Z.of_nat k) lp = Some (m', addr (N - 1), p', Z.of_nat k') /\
    Inv1 cmp N (elems m') k' (N - 1) ks' /\ bits p' k' ks' /\ sorts_in m m'.
Proof.
  revert m k r ks p; induction fuel as [|fuel IH]; intros m k r ks p Hinv Hr Hp Hf; [lia|].
  cbn [build]. destruct (Z.ltb_spec (addr r) (addr (N - 1))) as [Hlt|Hge].
  2: { assert (r = N - 1) by (unfold addr in Hge; nia). subst r. exists m, p, k, ks.
       auto using sorts_refl. }
  assert (Hr' : r < N - 1) by (unfold addr in Hlt; nia).
  assert (Hinv' := Hinv). destruct Hinv' as (Ho & Ht & _ & _).
  pose proof (below_n k ks ltac:(lia)) as Hb. pose proof (total_nonneg ks) as Ht0.
  assert (Hgo : forall m2 k2 ks2 p2, sorts_in m m2 -> Inv1 cmp N (elems m2) k2 (r + 1) ks2 -> bits p2 k2 ks2 ->
    exists m' p' k' ks',
      build width cmp fuel m2 (addr r + width) (addr (N - 1)) p2 (Z.of_nat k2) lp
        = Some (m', addr (N - 1), p', Z.of_nat k') /\
      Inv1 cmp N (elems m') k' (N - 1) ks' /\ bits p' k' ks' /\ sorts_in m m').
  { intros m2 k2 ks2 p2 Hs Hi2 Hp2. replace (addr r + width) with (addr (r + 1)) by (unfold addr; ring).
    destruct (IH m2 k2 (r + 1) ks2 p2 Hi2 ltac:(lia) Hp2 ltac:(lia)) as (m' & p' & k' & ks' & E & F1 & F2 & F3).
    exists m', p', k', ks'. eauto using sorts_trans. }
  pose proof (fun i => sift_ok lp n k m r i Hlp (proj1 Hb)) as Es.
  rewrite (bits_three p k ks Ho Hp).
  destruct (match ks with k1 :: _ => (k1 =? S k)%nat | [] => false end) eqn:E3.
  - destruct ks as [|k1 ks]; [discriminate|]. apply Nat.eqb_eq in E3. subst k1. cbn [bind].
    replace (Z.of_nat k + 2) with (Z.of_nat (S (S k))) by lia.
    apply (Hgo _ (S (S k)) ks); [eapply sifted_sorts; eauto; cbn [total] in *; lia| |now apply bits_merge].
    eapply Inv1_ext; [exact Es|]. now apply inv1_merge.
  - assert (Hne : hd O ks <> S k) by (destruct ks; [discriminate|]; cbn [hd]; now apply Nat.eqb_neq in E3).
    assert (Hk0 : k <> O) by (intros ->; destruct ks as [|k1 ks]; simpl in *; [tauto|]; destruct Ho as (_ & E & _); rewrite E in Hne; auto).
    destruct (place_ok m k r ks p Hinv Hr Hp Hne Hk0) as (m2 & -> & Hs2 & Hi2). cbn [bind].
    assert (Hpush : bits (or1 (shl p (Z.of_nat k - Z.of_nat (next_order k)))) (next_order k) (k :: ks)).
    { apply bits_push; auto using orders_inc; [eapply below_le; [exact Hb|lia]|].
      unfold next_order. destruct (Nat.eqb_spec k 1); lia. }
    unfold next_order in *. destruct (Z.eqb_spec (Z.of_nat k) 1), (Nat.eqb_spec k 1); try lia; cbn [bind].
    + subst k. now apply (Hgo m2 O (1%nat :: ks)).
    + now apply (Hgo m2 1%nat (k :: ks)).
Qed.

(** The last tree loses its root: its subtrees' roots are trinkled. *)
Lemma split_ok m k r ks p :
  Inv2 cmp N (elems m) (S (S k)) r ks -> bits p (S (S k)) ks ->
  let p1 := shr (xor7 (shl p 2)) 1 in
  let p2 := or1 (shl p1 1) in
  exists m1 m2,
    trinkle width cmp m (addr r - lpat lp (Z.of_nat k) - width) p1 (Z.of_nat k + 1) true lp = Some m1 /\
    trinkle width cmp m1 (addr (r - 1)) p2 (Z.of_nat k) true lp = Some m2 /\
    bits p2 k (S k :: ks) /\ sorts_in m m2 /\ Inv2 cmp N (elems m2) k (r - 1) (S k :: ks).
Proof.
  intros Hinv Hp p1 p2. pose proof (inv2_split cmp N _ _ _ _ Hinv) as Hs.
  destruct Hinv as (Ho & Ht & _ & _ & HrN).
  pose proof (below_n (S (S k)) ks ltac:(lia)) as Hb.
  destruct (bits_split p k ks Ho (below_le n 120 _ _ Hb ltac:(lia)) Hp) as [B1 B2].
  rewrite leo_SS in Ht. pose proof (leo_pos k) as L0. pose proof (total_nonneg ks) as L1.
  rewrite (Hlp k) by (destruct Hb; lia).
  replace (addr r - leo k * width - width) with (addr (lchild k r)) by (unfold addr, lchild; ring).
  replace (Z.of_nat k + 1) with (Z.of_nat (S k)) by lia.
  pose proof (orders_inc _ _ (orders_split _ _ Ho)) as Hi2. assert (Hi1 : inc (S k) ks) by apply Hi2.
  destruct (trinkle_ok lp n ks (S k) m (lchild k r) _ true Hlp ltac:(lia) Hi1
    ltac:(destruct Hb; split; [lia|assumption]) B1) as (m1 & F1 & E1).
  destruct (trinkle_ok lp n (S k :: ks) k m1 (r - 1) _ true Hlp ltac:(lia) Hi2
    ltac:(apply below_n; cbn [total]; lia) B2) as (m2 & F2 & E2).
  exists m1, m2. split; [exact F1|]. split; [exact F2|]. split; [exact B2|]. split.
  - eapply sorts_trans; [eapply trinkled_sorts; [exact E1| |]|eapply trinkled_sorts; [exact E2| |]];
      unfold lchild; cbn [total]; lia.
  - eapply Inv2_ext; [|exact Hs]. intros i. rewrite E2. unfold split_tree, rchild.
    rewrite E1. now apply trinkled_ext.
Qed.

Lemma dequeue_ok fuel m k r ks p :
  Inv2 cmp N (elems m) k r ks -> bits p k ks -> 0 <= r -> (Z.to_nat r < fuel)%nat ->
  exists m', dequeue width cmp fuel m (addr r) p (Z.of_nat k) lp = Some m' /\ sorts_in m m' /\
  forall i j, 0 <= i <= j -> j < N -> cmp (elems m' i) (elems m' j) <= 0.
Proof.
  revert m k r ks p; induction fuel as [|fuel IH]; intros m k r ks p Hinv Hp Hr Hf; [lia|].
  cbn [dequeue]. assert (Hinv' := Hinv). destruct Hinv' as (Ho & Ht & _ & _ & HrN).
  pose proof (orders_inc _ _ Ho) as Hi. pose proof (below_n k ks ltac:(lia)) as Hb.
  rewrite (bits_one _ _ _ Hi Hp). pose proof (total_nonneg ks) as Ht0. pose proof (leo_pos k) as L0.
  replace (addr r - width) with (addr (r - 1)) by (unfold addr; ring).
  destruct (Z.leb_spec (Z.of_nat k) 1) as [Hk|Hk].
  - destruct ks as [|k1 ks].
    + assert (k = 1%nat) by (cbn in Ho; lia). subst k. cbn [Z.of_nat Z.eqb negb orb Pos.of_succ_nat Pos.eqb].
      exists m. split; [reflexivity|]. split; [apply sorts_refl|]. eapply inv2_done; eauto.
    + rewrite orb_true_r. cbn [bind]. pose proof (leo_pos k1). cbn [total] in Ht.
      destruct Hb as [_ Hb]. inversion_clear Hb as [|? ? Hk1 _]. pose proof (total_nonneg ks).
      destruct (bits_pop p k k1 ks Hi ltac:(lia) Hp) as [Et Hp'].
      replace (Z.of_nat k + pntz p) with (Z.of_nat k1) by lia.
      apply (IH m k1 (r - 1) ks); auto; [|lia|lia]. eapply inv2_pop; [exact Hcmp|exact Hinv|lia].
  - destruct k as [|[|k]]; try lia. replace (negb (Z.of_nat (S (S k)) =? 1)) with true by lia. cbn [orb].
    replace (Z.of_nat (S (S k)) - 2) with (Z.of_nat k) by lia.
    destruct (split_ok m k r ks p Hinv Hp) as (m1 & m2 & -> & F2 & B2 & S2 & I2).
    cbn [bind]. rewrite F2. cbn [bind]. rewrite leo_SS in Ht. pose proof (leo_pos k).
    destruct (IH m2 k (r - 1) (S k :: ks) _ I2 B2 ltac:(lia) ltac:(lia)) as (m' & -> & S3 & Hsorted).
    exists m'. eauto using sorts_trans.
Qed.
End Memory.

(** ** The table of tree sizes *)
Lemma leo_89 : 4611686018427387904 <= leo 89.
Proof. now vm_compute. Qed.

Definition sizes (width : Z) (i : nat) : list Z := map (fun k => leo k * width) (seq 0 i).

Lemma nth_sizes width i k : (k < i)%nat -> nth k (sizes width i) 0 = leo k * width.
Proof.
  intros Hk. unfold sizes. rewrite nth_indep with (d' := leo 0 * width) by (rewrite length_map, length_seq; lia).
  rewrite (map_nth (fun k => leo k * width)), seq_nth by lia. reflexivity.
Qed.

Lemma lp_loop_ok width size fuel i :
  0 < width <= size -> size < 4611686018427387904 -> (2 <= i)%nat -> (92 <= i + fuel)%nat ->
  (i = 2%nat \/ leo (i - 1) * width < size) ->
  exists n, lp_loop width fuel size (sizes width i) = Some (sizes width (S n)) /\
    (2 <= n <= 95)%nat /\ size <= leo n * width.
Proof.
  intros Hw Hs. revert i; induction fuel as [|fuel IH]; intros i Hi Hf Hlt.
  - exfalso. destruct Hlt as [->|Hlt]; [lia|]. pose proof leo_89.
    pose proof (leo_mono 89 (i - 1) ltac:(lia)). nia.
  - cbn [lp_loop]. assert (El : length (sizes width i) = i) by (unfold sizes; now rewrite length_map, length_seq).
    rewrite El, !nth_sizes by lia.
    assert (E : leo (i - 2) * width + leo (i - 1) * width + width = leo i * width).
    { replace i with (S (S (i - 2))) at 3 by lia. rewrite leo_SS.
      replace (S (i - 2)) with (i - 1)%nat by lia. ring. }
    assert (Hi90 : (i <= 90)%nat).
    { destruct (Nat.le_gt_cases i 90); [assumption|exfalso]. destruct Hlt as [->|Hlt]; [lia|].
      pose proof leo_89. pose proof (leo_mono 89 (i - 1) ltac:(lia)). nia. }
    assert (Hb : 0 <= leo i * width < 18446744073709551616).
    { pose proof (leo_pos i). split; [nia|]. rewrite <- E. pose proof (leo_mono (i - 2) (i - 1) ltac:(lia)).
      destruct Hlt as [->|Hlt]; [cbn [Nat.sub]; change (leo 0) with 1; change (leo 1) with 1; lia|nia]. }
    rewrite E, u64_small by exact Hb.
    assert (Ea : sizes width i ++ [leo i * width] = sizes width (S i)).
    { unfold sizes. rewrite seq_S, map_app. reflexivity. }
    rewrite Ea. destruct (Z.ltb_spec (leo i * width) size) as [Hl|Hl].
    + apply IH; [lia|lia|]. right. now replace (S i - 1)%nat with i by lia.
    + exists i. split; [reflexivity|]. split; [lia|assumption].
Qed.

Lemma lp_table width N lp n :
  0 < width -> lp = sizes width (S n) -> (2 <= n)%nat -> N * width <= leo n * width ->
  lpok width lp n /\ forall k, leo k <= N -> (k <= n)%nat.
Proof.
  intros Hw -> Hn Hs. split.
  - intros k Hk. unfold lpat. replace (Z.of_nat k <? 0) with false by lia. rewrite Nat2Z.id.
    apply nth_sizes. lia.
  - intros k Hk. destruct (Nat.le_gt_cases k n); [assumption|].
    pose proof (leo_lt n k ltac:(lia)). nia.
Qed.

(** ** The sort *)

(** The elements of an array, in order. *)
Definition elements (width : Z) (m : mem) (base nel : Z) : list (list Z) :=
  map (fun i => elem width m (base + i * width)) (zrange 0 (Z.to_nat nel)).

Lemma zrange_sorted {A} (R : A -> A -> Prop) (f : Z -> A) lo n :
  (forall i j, lo <= i <= j -> j < lo + Z.of_nat n -> R (f i) (f j)) ->
  StronglySorted R (map f (zrange lo n)).
Proof.
  revert lo; induction n as [|n IH]; intros lo H; cbn [zrange map]; constructor.
  - apply IH. intros. apply H; lia.
  - apply Forall_map, Forall_forall. intros x Hx%in_zrange. apply H; lia.
Qed.

(** Both phases, on at least one element. *)
Lemma phases_ok width base cmp `{CmpOrder (list Z) cmp} N lp n m :
  0 < width -> 0 < N -> lpok width lp n -> (n <= 95)%nat -> (forall k, leo k <= N -> (k <= n)%nat) ->
  exists m1 head p k m2 m3,
    build width cmp (S (Z.to_nat N)) m base (base + (N - 1) * width) (1, 0) 1 lp = Some (m1, head, p, k) /\
    trinkle width cmp m1 head p k false lp = Some m2 /\
    dequeue width cmp (S (Z.to_nat N)) m2 head p k lp = Some m3 /\
    sorts_in width base N m m3 /\
    forall i j, 0 <= i <= j -> j < N -> cmp (elems width base m3 i) (elems width base m3 j) <= 0.
Proof.
  intros Hw HN Hlp Hn Hk.
  destruct (build_ok width base cmp Hw N lp n Hlp Hn Hk (S (Z.to_nat N)) m 1 0 [] (1, 0))
    as (m1 & p & k & ks & B1 & I1 & B2 & S1); [|lia|split; [|reflexivity]|lia|].
  { split; [easy|]. split; [reflexivity|]. split; [exact I|exact I]. }
  { split; unfold word; cbn [fst snd]; lia. }
  replace (addr width base 0) with base in B1 by (unfold addr; lia).
  assert (I1' := I1). destruct I1' as (Ho & Ht & _ & _).
  pose proof (below_n N n Hn Hk k ks ltac:(lia)) as Hb.
  destruct (trinkle_ok width base cmp Hw lp n ks k m1 (N - 1) p false Hlp ltac:(lia) (orders_inc _ _ Ho) Hb B2)
    as (m2 & T2 & E2).
  assert (F : forest cmp (elems width base m2) k (N - 1) ks).
  { eapply forest_ext; [intros; apply E2|]. eapply inv1_trinkle; eauto; [right; lia|].
    unfold final. pose proof (leo_pos (k - 1)). lia. }
  destruct (dequeue_ok width base cmp Hw N lp n Hlp Hn Hk (S (Z.to_nat N)) m2 k (N - 1) ks p)
    as (m3 & D & S3 & Hs); [|assumption|lia|lia|].
  { split; [assumption|]. split; [assumption|]. split; [assumption|]. split; [|lia]. intros i j _ Hj. lia. }
  exists m1, (addr width base (N - 1)), p, (Z.of_nat k), m2, m3.
  split; [exact B1|]. split; [exact T2|]. split; [exact D|]. split; [|exact Hs].
  eapply sorts_trans; [exact S1|]. eapply sorts_trans; [|exact S3].
  pose proof (total_nonneg ks). eapply trinkled_sorts; [exact E2|lia|lia].
Qed.

(** C14. qsort sorts: for a comparison that is a total preorder on the contents
    of the elements, on an array of less than 2^62 bytes, it returns, the
    elements are the same up to their order and sorted, and no byte outside the
    array has changed. *)
Theorem qsort_sorts width cmp `{CmpOrder (list Z) cmp} m base nel :
  0 < width -> 0 <= nel -> width * nel < 4611686018427387904 ->
  exists m', qsort_r width cmp m base nel = Some m' /\
    Permutation (elements width m' base nel) (elements width m base nel) /\
    StronglySorted (fun a b => cmp a b <= 0) (elements width m' base nel) /\
    forall a, ~ base <= a < base + width * nel -> m' a = m a.
Proof.
  intros Hw Hn Hs. unfold qsort_r. rewrite u64_small by nia.
  destruct (Z.eq_dec nel 0) as [->|Hn0].
  { rewrite Z.mul_0_r. exists m. repeat split; auto. constructor. }
  destruct (Z.eqb_spec (width * nel) 0) as [E0|_]; [nia|].
  assert (E : [width; width] = sizes width 2).
  { unfold sizes. cbn [seq map]. change (leo 0) with 1. change (leo 1) with 1. now rewrite Z.mul_1_l. }
  rewrite E. destruct (lp_loop_ok width (width * nel) 94 2 ltac:(nia) Hs ltac:(lia) ltac:(lia) ltac:(auto))
    as (n & -> & Hn2 & Hmax). cbn [bind].
  destruct (lp_table width nel _ n Hw eq_refl ltac:(lia) ltac:(lia)) as [Hlp Hk].
  replace (base + width * nel - width) with (base + (nel - 1) * width) by ring.
  destruct (phases_ok width base cmp nel _ n m Hw ltac:(lia) Hlp ltac:(lia) Hk)
    as (m1 & head & p & k & m2 & m3 & -> & T & D & [P O] & Hsorted).
  cbn [bind]. rewrite T. cbn [bind]. exists m3. split; [exact D|]. split; [exact P|]. split.
  - apply zrange_sorted. intros i j Hi Hj. apply Hsorted; lia.
  - intros a Ha. set (i := (a - base) / width).
    assert (Hi : i * width <= a - base < i * width + width) by (unfold i; zlia).
    apply (elems_in width base Hw _ _ i); [|unfold addr; lia]. apply O. nia.
Qed.

(** A comparison of one-byte elements. *)
Definition byte_cmp (a b : list Z) : Z := hd 0 a - hd 0 b.
#[export] Instance byte_cmp_order : CmpOrder byte_cmp.
Proof. unfold byte_cmp. split; intros; lia. Qed.

Lemma qsort_sorts_witness :
  0 < 1 /\ 0 <= 3 /\
  exists m', qsort_r 1 byte_cmp (fun a => 7 - a) 1 3 = Some m' /\
    elements 1 m' 1 3 = [[4]; [5]; [6]] /\
    Permutation (elements 1 m' 1 3) (elements 1 (fun a => 7 - a) 1 3).
Proof.
  split; [lia|]. split; [lia|].
  destruct (qsort_sorts 1 byte_cmp (fun a => 7 - a) 1 3) as (m' & E & P & _ & _); [lia|lia|lia|].
  exists m'. split; [exact E|]. split; [|exact P].
  vm_compute in E. injection E as <-. vm_compute. reflexivity.
Defined.
