(* ===== verification/Search.v ===== *)
(** * Search: bsearch, lsearch and insque

    Models src/stdlib/bsearch.c, src/search/lsearch.c and src/search/insque.c.
    The arrays are those of Sort: [elem width m a] is the content of the element
    at the address [a].  The comparison of the key with an element is a function
    of the element's content.  The queues of insque are nodes with two links in
    a store indexed by addresses; NULL is 0. *)

From Stdlib Require Import ZArith Lia ZifyBool List Bool Permutation.
From S2P Require Import Prelude Sort.
Import ListNotations.
Open Scope Z_scope.

Section Arrays.
Variables (width : Z) (m : mem).
(** cmp(key, p) with the key fixed. *)
Variable keycmp : list Z -> Z.

(** while (nel > 0); the answer 0 is NULL. *)
Fixpoint bsearch_loop (fuel : nat) (base nel : Z) : option Z :=
  match fuel with
  | O => None
  | S fuel =>
      if 0 <? nel then
        let try := base + width * (nel / 2) in
        let sign := keycmp (elem width m try) in
        if sign <? 0 then bsearch_loop fuel base (nel / 2)
        else if 0 <? sign then bsearch_loop fuel (try + width) (nel - (nel / 2 + 1))
        else Some try
      else Some 0
  end.

Definition bsearch (base nel : Z) : option Z := bsearch_loop 65 base nel.

(** The element of index [i]. *)
Definition at_index (base i : Z) : list Z := elem width m (base + width * i).

(** The array is in the order of the comparison: the elements the key is above,
    then those it is equal to, then those it is below. *)
Definition partitioned (base nel : Z) : Prop :=
  forall i j, 0 <= i <= j -> j < nel ->
    (keycmp (at_index base i) < 0 -> keycmp (at_index base j) < 0) /\
    (0 < keycmp (at_index base j) -> 0 < keycmp (at_index base i)).

(** Found at an index, or nowhere. *)
Definition found_in (base nel r : Z) : Prop :=
  (exists i, 0 <= i < nel /\ r = base + width * i /\ keycmp (at_index base i) = 0) \/
  (r = 0 /\ forall i, 0 <= i < nel -> keycmp (at_index base i) <> 0).

Lemma at_index_shift base j i : at_index (base + width * j) i = at_index base (j + i).
Proof. unfold at_index. f_equal. ring. Qed.

Lemma bsearch_loop_ok fuel base nel :
  0 <= nel < 2 ^ (Z.of_nat fuel - 1) -> (1 <= fuel)%nat -> partitioned base nel ->
  exists r, bsearch_loop fuel base nel = Some r /\ found_in base nel r.
Proof.
  revert base nel; induction fuel as [|fuel IH]; intros base nel Hn Hf Hp; [lia|]. cbn [bsearch_loop].
  destruct (Z.ltb_spec 0 nel) as [Hpos|Hz].
  2: { exists 0. split; [reflexivity|]. right. split; [reflexivity|]. intros. lia. }
  assert (Hf1 : (1 <= fuel)%nat) by (destruct fuel; [cbn in Hn; lia|lia]).
  replace (Z.of_nat (S fuel) - 1) with (1 + (Z.of_nat fuel - 1)) in Hn by lia.
  rewrite Z.pow_add_r in Hn by lia. change (2 ^ 1) with 2 in Hn.
  set (h := nel / 2). assert (Hh : 0 <= h < nel /\ nel - (h + 1) <= h /\ h < 2 ^ (Z.of_nat fuel - 1)) by (unfold h; zlia).
  fold (at_index base h). destruct (Z.ltb_spec (keycmp (at_index base h)) 0) as [H1|H1].
  { destruct (IH base h) as (r & E & [(i & Hi & F)|[-> F]]); [lia|assumption| | |].
    - intros i j Hi Hj. apply Hp; lia.
    - exists r. split; [exact E|]. left. exists i. split; [lia|exact F].
    - exists 0. split; [exact E|]. right. split; [reflexivity|]. intros i Hi.
      destruct (Z.lt_ge_cases i h); [apply F; lia|]. destruct (Hp h i ltac:(lia) ltac:(lia)) as [F1 _].
      specialize (F1 H1). lia. }
  destruct (Z.ltb_spec 0 (keycmp (at_index base h))) as [H2|H2].
  { replace (base + width * h + width) with (base + width * (h + 1)) by ring.
    destruct (IH (base + width * (h + 1)) (nel - (h + 1))) as (r & E & [(i & Hi & -> & F)|[-> F]]);
      [lia|assumption| | |].
    - intros i j Hi Hj. rewrite !at_index_shift. apply Hp; lia.
    - exists (base + width * (h + 1) + width * i). split; [exact E|]. left. exists (h + 1 + i).
      rewrite <- at_index_shift. split; [lia|]. split; [ring|exact F].
    - exists 0. split; [exact E|]. right. split; [reflexivity|]. intros i Hi.
      destruct (Z.le_gt_cases i h).
      + destruct (Hp i h ltac:(lia) ltac:(lia)) as [_ F1]. specialize (F1 H2). lia.
      + replace i with (h + 1 + (i - (h + 1))) by lia. rewrite <- at_index_shift. apply F. lia. }
  exists (base + width * h). split; [reflexivity|]. left. exists h. split; [lia|]. split; [reflexivity|lia].
Qed.

(** for (i = 0; i < n; i++) if (compar(key, p[i]) == 0) return p[i]; *)
Fixpoint find_loop (p : Z) (n : nat) : option Z :=
  match n with
  | O => None
  | S n => if keycmp (elem width m p) =? 0 then Some p else find_loop (p + width) n
  end.

Definition lfind (base nel : Z) : Z :=
  match find_loop base (Z.to_nat nel) with Some p => p | None => 0 end.

(** lsearch: the answer, the memory and *nelp. *)
Definition lsearch (key base nel : Z) : Z * mem * Z :=
  match find_loop base (Z.to_nat nel) with
  | Some p => (p, m, nel)
  | None => let p := base + width * nel in (p, mcopy m p key width, nel + 1)
  end.

(** The first element that is equal to the key. *)
Definition first_at (base nel i : Z) : Prop :=
  0 <= i < nel /\ keycmp (at_index base i) = 0 /\ forall j, 0 <= j < i -> keycmp (at_index base j) <> 0.

Lemma find_loop_ok base n :
  match find_loop base n with
  | Some p => exists i, p = base + width * i /\ first_at base (Z.of_nat n) i
  | None => forall i, 0 <= i < Z.of_nat n -> keycmp (at_index base i) <> 0
  end.
Proof.
  revert base; induction n as [|n IH]; intros base; cbn [find_loop]; [intros; lia|].
  assert (E0 : elem width m base = at_index base 0) by (unfold at_index; f_equal; lia). rewrite E0.
  assert (Es : forall i, at_index (base + width) i = at_index base (1 + i)).
  { intros i. rewrite <- at_index_shift. now rewrite Z.mul_1_r. }
  assert (Hpos : forall P : Z -> Prop, P 0 -> (forall i, 0 <= i -> P (1 + i)) -> forall i, 0 <= i -> P i).
  { intros P P0 PS i Hi. destruct (Z.eq_dec i 0) as [->|]; [exact P0|].
    replace i with (1 + (i - 1)) by lia. apply PS. lia. }
  destruct (Z.eqb_spec (keycmp (at_index base 0)) 0) as [E|E].
  { exists 0. split; [lia|]. split; [lia|]. split; [exact E|]. intros. lia. }
  specialize (IH (base + width)). destruct (find_loop (base + width) n) as [p|].
  - destruct IH as (i & -> & Hi & F & G). exists (1 + i). split; [ring|]. split; [lia|].
    rewrite <- Es. split; [exact F|]. intros j [Hj1 Hj2]. revert j Hj1 Hj2. apply (Hpos (fun j => j < 1 + i -> _)).
    + auto.
    + intros j Hj Hj2. rewrite <- Es. apply G. lia.
  - intros i [Hi1 Hi2]. revert i Hi1 Hi2. apply (Hpos (fun i => i < _ -> _)).
    + auto.
    + intros i Hi Hi2. rewrite <- Es. apply IH. lia.
Qed.

(** The array after lsearch appended an element. *)
Lemma append_elem key base nel i :
  0 < width -> 0 <= i <= nel ->
  elem width (mcopy m (base + width * nel) key width) (base + width * i) =
  if i =? nel then elem width m key else at_index base i.
Proof.
  intros Hw Hi. unfold at_index, elem. destruct (Z.eqb_spec i nel) as [->|Hne].
  - apply nth_ext with 0 0; rewrite !bytes_at_length; [reflexivity|]. intros k Hk.
    rewrite !nth_bytes_at by assumption. unfold mcopy, within.
    replace ((_ <=? _) && _) with true by lia. f_equal. lia.
  - apply bytes_at_ext. intros x Hx. unfold mcopy, within.
    assert (width * i + width <= width * nel) by nia. now replace ((_ <=? _) && _) with false by lia.
Qed.
End Arrays.

(** bsearch finds: on an array in the order of the comparison it returns an
    element equal to the key if there is one and NULL otherwise; the number of
    elements may be anything a size_t holds. *)
Theorem bsearch_correct width m keycmp base nel :
  0 <= nel < 2 ^ 64 -> partitioned width m keycmp base nel ->
  exists r, bsearch width m keycmp base nel = Some r /\ found_in width m keycmp base nel r.
Proof. intros Hn Hp. apply bsearch_loop_ok; [cbn; lia|lia|assumption]. Qed.

Lemma bsearch_correct_witness :
  0 <= 5 < 2 ^ 64 /\
  exists r, bsearch 1 (fun a => 3 * a) (fun e => 6 - hd 0 e) 1 5 = Some r /\ r = 2.
Proof.
  split; [lia|].
  destruct (bsearch_correct 1 (fun a => 3 * a) (fun e => 6 - hd 0 e) 1 5) as (r & E & F).
  - lia.
  - intros i j Hi Hj. unfold at_index, elem. change (Z.to_nat 1) with 1%nat. cbn [bytes_at hd]. lia.
  - exists r. split; [exact E|]. vm_compute in E. now injection E as <-.
Defined.

(** lsearch finds the first equal element, or appends the key, which does not
    change the elements that were there; lfind only finds. *)
Theorem lsearch_correct width m keycmp key base nel :
  0 < width -> 0 <= nel ->
  (exists i, first_at width m keycmp base nel i /\
     lfind width m keycmp base nel = base + width * i /\
     lsearch width m keycmp key base nel = (base + width * i, m, nel)) \/
  ((forall i, 0 <= i < nel -> keycmp (at_index width m base i) <> 0) /\
   lfind width m keycmp base nel = 0 /\
   exists m', lsearch width m keycmp key base nel = (base + width * nel, m', nel + 1) /\
     at_index width m' base nel = elem width m key /\
     (forall i, 0 <= i < nel -> at_index width m' base i = at_index width m base i) /\
     forall a, ~ base + width * nel <= a < base + width * (nel + 1) -> m' a = m a).
Proof.
  intros Hw Hn. unfold lfind, lsearch. pose proof (find_loop_ok width m keycmp base (Z.to_nat nel)) as H.
  rewrite Z2Nat.id in H by lia. destruct (find_loop _ _ _ _ _) as [p|].
  - left. destruct H as (i & -> & F). exists i. auto.
  - right. split; [assumption|]. split; [reflexivity|]. eexists. split; [reflexivity|].
    split; [|split].
    + unfold at_index. rewrite append_elem by lia. now rewrite Z.eqb_refl.
    + intros i Hi. unfold at_index at 1. rewrite append_elem by lia. now replace (i =? nel) with false by lia.
    + intros a Ha. unfold mcopy, within. now replace ((_ <=? _) && _) with false by lia.
Qed.

(** ** Queues *)

Record qnode : Type := QNode { next : Z; prev : Z }.
Definition queue : Type := Z -> qnode.

Definition set_next (h : queue) (p v : Z) : queue := fun x => if x =? p then QNode v (prev (h p)) else h x.
Definition set_prev (h : queue) (p v : Z) : queue := fun x => if x =? p then QNode (next (h p)) v else h x.

Definition insque (h : queue) (e p : Z) : queue :=
  if p =? 0 then set_next (set_prev h e 0) e 0
  else
    let h := set_next h e (next (h p)) in
    let h := set_prev h e p in
    let h := set_next h p e in
    if negb (next (h e) =? 0) then set_prev h (next (h e)) e else h.

Definition remque (h : queue) (e : Z) : queue :=
  let h := if negb (next (h e) =? 0) then set_prev h (next (h e)) (prev (h e)) else h in
  if negb (prev (h e) =? 0) then set_next h (prev (h e)) (next (h e)) else h.

(** The nodes of [l] are linked in this order, after [b] and before [a]. *)
Fixpoint linked (h : queue) (b : Z) (l : list Z) (a : Z) : Prop :=
  match l with
  | [] => True
  | x :: l' => x <> 0 /\ h x = QNode (hd a l') b /\ linked h x l' a
  end.

Lemma linked_ext h h' b l a : (forall x, In x l -> h' x = h x) -> linked h b l a -> linked h' b l a.
Proof.
  revert b; induction l as [|x l IH]; intros b E; [easy|]. cbn [linked].
  intros (H1 & H2 & H3). rewrite E by now left. repeat split; auto. apply IH; [|assumption].
  intros. apply E. now right.
Qed.

Lemma linked_nonzero h b l a x : linked h b l a -> In x l -> x <> 0.
Proof.
  revert b; induction l as [|y l IH]; [easy|]. intros b (Hy & _ & L) [->|Hx]; eauto.
Qed.

Lemma last_cons (x : Z) l d : last (x :: l) d = last l x.
Proof. revert x d; induction l as [|y l IH]; intros x d; [reflexivity|]. transitivity (last (y :: l) d); [reflexivity|]. transitivity (last l y); [apply IH|symmetry; apply IH]. Qed.

Lemma linked_app h b l1 l2 a :
  linked h b (l1 ++ l2) a <-> linked h b l1 (hd a l2) /\ linked h (last l1 b) l2 a.
Proof.
  revert b; induction l1 as [|x l1 IH]; intros b; [cbn; tauto|].
  rewrite last_cons. cbn [app linked]. rewrite IH. destruct l1; cbn [app hd]; tauto.
Qed.

Definition links (n b : Z) : qnode := QNode n b.

(** The nodes after insque and remque. *)
Lemma insque_node h e p x :
  p <> 0 -> e <> p -> next (h p) <> e -> next (h p) <> p ->
  insque h e p x =
  if x =? e then links (next (h p)) p
  else if x =? p then links e (prev (h p))
  else if negb (next (h p) =? 0) && (x =? next (h p)) then links (next (h x)) e
  else h x.
Proof.
  intros Hp He Hn1 Hn2. unfold insque. replace (p =? 0) with false by lia.
  set (n := next (h p)) in *.
  assert (En : next (set_next (set_prev (set_next h e n) e p) p e e) = n).
  { unfold set_next, set_prev; cbn. replace (e =? p) with false by lia. now rewrite !Z.eqb_refl. }
  rewrite En. unfold links.
  clear En. unfold set_next, set_prev. simplify_ifs; cbn [next prev] in *; subst x || idtac; try congruence.
  all: try (f_equal; congruence).
Qed.

Lemma remque_node h e x :
  next (h e) <> e -> prev (h e) <> e -> (next (h e) <> 0 -> next (h e) <> prev (h e)) ->
  remque h e x =
  if negb (next (h e) =? 0) && (x =? next (h e)) then links (next (h x)) (prev (h e))
  else if negb (prev (h e) =? 0) && (x =? prev (h e)) then links (next (h e)) (prev (h x))
  else h x.
Proof.
  intros Hn Hp Hne. unfold remque, links.
  set (n := next (h e)) in *. set (p := prev (h e)) in *.
  assert (E1 : prev ((if negb (n =? 0) then set_prev h n p else h) e) = p).
  { destruct (negb _); [|reflexivity]. unfold set_prev. now replace (e =? n) with false by lia. }
  assert (E2 : next ((if negb (n =? 0) then set_prev h n p else h) e) = n).
  { destruct (negb _); [|reflexivity]. unfold set_prev. now replace (e =? n) with false by lia. }
  rewrite E1, E2.
  destruct (Z.eqb_spec n 0) as [En0|En0]; destruct (Z.eqb_spec p 0) as [Ep0|Ep0]; cbn [negb andb];
    unfold set_next, set_prev; simplify_ifs; subst; cbn [next prev]; try congruence; try lia; try reflexivity.
  all: try (now (destruct (h p))). 
Qed.

Lemma NoDup_mid (l1 : list Z) x l2 : NoDup (l1 ++ x :: l2) -> NoDup (l1 ++ l2) /\ ~ In x l1 /\ ~ In x l2.
Proof. intros H. apply NoDup_remove in H as [H1 H2]. rewrite in_app_iff in H2. tauto. Qed.

Lemma NoDup_meet (l1 l2 : list Z) x : NoDup (l1 ++ l2) -> In x l1 -> In x l2 -> False.
Proof.
  induction l1 as [|y l1 IH]; [easy|]. intros H [->|Hx] Hy; inversion_clear H; [|auto].
  match goal with H : ~ In _ _ |- _ => apply H, in_or_app end. auto.
Qed.

(** insque puts an element after another in a list that ends with NULL. *)
Lemma insque_linked h l1 p l2 e :
  linked h 0 (l1 ++ p :: l2) 0 -> NoDup (e :: l1 ++ p :: l2) -> e <> 0 ->
  linked (insque h e p) 0 (l1 ++ p :: e :: l2) 0.
Proof.
  intros H Hnd He. inversion_clear Hnd as [|? ? Hnin Hnd'].
  apply NoDup_mid in Hnd' as (Hnd & Hp1 & Hp2). rewrite in_app_iff in Hnin. cbn [In] in Hnin.
  apply linked_app in H as (L1 & Hp0 & Ep & L2). cbn [hd] in L1.
  assert (Hn : next (h p) = hd 0 l2) by now rewrite Ep.
  assert (Hnode := insque_node h e p). rewrite Hn in Hnode.
  assert (Hne : hd 0 l2 <> e /\ hd 0 l2 <> p /\ ~ In (hd 0 l2) l1 \/ l2 = []).
  { destruct l2 as [|n l2]; [now right|left]. cbn [hd]. cbn [In] in *.
    repeat split; try (intros ->; tauto). intros Hi. eapply (NoDup_meet l1 (n :: l2)); [exact Hnd|exact Hi|now left]. }
  assert (Hnode' : forall x, insque h e p x = if x =? e then links (hd 0 l2) p
    else if x =? p then links e (prev (h p))
    else if negb (hd 0 l2 =? 0) && (x =? hd 0 l2) then links (next (h x)) e else h x).
  { intros x. apply Hnode; [assumption|intros ->; tauto| |]; destruct Hne as [Hne| ->]; cbn [hd]; intuition. }
  clear Hnode. apply linked_app. cbn [hd linked]. split; [|split; [assumption|split; [|split; [assumption|split]]]].
  - eapply linked_ext; [|exact L1]. intros x Hx. rewrite Hnode'.
    replace (x =? e) with false by (symmetry; apply Z.eqb_neq; intros ->; tauto).
    replace (x =? p) with false by (symmetry; apply Z.eqb_neq; intros ->; tauto).
    destruct (Z.eqb_spec (hd 0 l2) 0); cbn [negb andb]; [reflexivity|].
    replace (x =? hd 0 l2) with false; [reflexivity|]. symmetry. apply Z.eqb_neq. intros ->.
    destruct Hne as [Hne| ->]; [tauto|auto].
  - rewrite Hnode', Z.eqb_refl. replace (p =? e) with false by (symmetry; apply Z.eqb_neq; intros ->; tauto).
    now rewrite Ep.
  - rewrite Hnode', Z.eqb_refl. reflexivity.
  - destruct l2 as [|n l2]; [exact I|]. cbn [linked hd In] in *. destruct L2 as (N0 & En & L2).
    split; [assumption|]. split.
    + rewrite Hnode'. replace (n =? e) with false by (symmetry; apply Z.eqb_neq; intros ->; tauto).
      replace (n =? p) with false by (symmetry; apply Z.eqb_neq; intros ->; tauto).
      rewrite Z.eqb_refl. replace (n =? 0) with false by lia. cbn. now rewrite En.
    + eapply linked_ext; [|exact L2]. intros x Hx. rewrite Hnode'.
      replace (x =? e) with false by (symmetry; apply Z.eqb_neq; intros ->; tauto).
      replace (x =? p) with false by (symmetry; apply Z.eqb_neq; intros ->; tauto).
      replace (x =? n) with false; [now rewrite andb_false_r|]. symmetry. apply Z.eqb_neq. intros ->.
      apply NoDup_mid in Hnd. tauto.
Qed.

(** remque takes a node out of such a list. *)
Lemma remque_linked h l1 e l2 :
  linked h 0 (l1 ++ e :: l2) 0 -> NoDup (l1 ++ e :: l2) ->
  linked (remque h e) 0 (l1 ++ l2) 0.
Proof.
  intros H Hnd. assert (Hnd' := Hnd). apply NoDup_mid in Hnd' as (Hnd' & Hp1 & Hp2).
  apply linked_app in H as (L1 & He0 & Ee & L2). cbn [hd] in L1.
  assert (Hn : next (h e) = hd 0 l2) by now rewrite Ee. assert (Hp : prev (h e) = last l1 0) by now rewrite Ee.
  assert (Hin1 : last l1 0 = 0 \/ In (last l1 0) l1).
  { destruct l1 as [|z l _] using rev_ind; [now left|right]. rewrite last_last. apply in_or_app. simpl. auto. }
  assert (Hin2 : hd 0 l2 = 0 \/ In (hd 0 l2) l2) by (destruct l2; [now left|right; now left]).
  assert (Hnode : forall x, remque h e x =
    if negb (hd 0 l2 =? 0) && (x =? hd 0 l2) then links (next (h x)) (last l1 0)
    else if negb (last l1 0 =? 0) && (x =? last l1 0) then links (hd 0 l2) (prev (h x))
    else h x).
  { intros x. rewrite <- Hn, <- Hp. apply remque_node; rewrite ?Hn, ?Hp.
    - intros E. destruct Hin2; congruence.
    - intros E. destruct Hin1; congruence.
    - intros E0 E. destruct Hin2 as [|Hi2]; [congruence|]. destruct Hin1 as [Hi1|Hi1]; [congruence|].
      rewrite E in Hi2. eapply (NoDup_meet l1 l2); eassumption. }
  assert (Hout : forall x, x <> hd 0 l2 -> x <> last l1 0 -> remque h e x = h x).
  { intros x H1 H2. rewrite Hnode. replace (x =? hd 0 l2) with false by lia.
    replace (x =? last l1 0) with false by lia. now rewrite !andb_false_r. }
  clear Hn Hp Ee. apply linked_app. split.
  - destruct l1 as [|z l _] using rev_ind; [exact I|]. rewrite last_last in *.
    apply linked_app in L1 as (L & Hz0 & Ez & _). cbn [hd] in L.
    assert (Hz : z <> hd 0 l2).
    { intros ->. destruct Hin2 as [|Hi]; [congruence|]. eapply (NoDup_meet (l ++ [hd 0 l2]) l2); eauto.
      apply in_or_app. simpl. auto. }
    apply linked_app. cbn [hd linked]. split; [|split; [assumption|split; [|exact I]]].
    + eapply linked_ext; [|exact L]. intros x Hx. apply Hout.
      * intros ->. destruct Hin2 as [Hi|Hi].
        { exact (linked_nonzero _ _ _ _ _ L Hx Hi). }
        eapply (NoDup_meet (l ++ [z]) l2); eauto. apply in_or_app. auto.
      * intros ->. rewrite <- app_assoc in Hnd'. cbn [app] in Hnd'. apply NoDup_mid in Hnd'. rewrite in_app_iff in *. tauto.
    + rewrite Hnode. replace (z =? hd 0 l2) with false by lia. rewrite andb_false_r, Z.eqb_refl.
      replace (z =? 0) with false by lia. cbn. now rewrite Ez.
  - destruct l2 as [|n l2]; [exact I|]. cbn [linked hd] in *. destruct L2 as (Hn0 & En & L2).
    split; [assumption|]. split.
    + rewrite Hnode, Z.eqb_refl. replace (n =? 0) with false by lia. cbn. now rewrite En.
    + eapply linked_ext; [|exact L2]. intros x Hx. apply Hout.
      * intros ->. apply NoDup_mid in Hnd'. tauto.
      * intros E. subst x. destruct Hin1 as [Hi|Hi].
        { exact (linked_nonzero _ _ _ _ _ L2 Hx Hi). }
        eapply (NoDup_meet l1 (n :: l2)); eauto. now right.
Qed.

(** Inserting and removing, together: the list is as before. *)
Theorem insque_remque h l1 p l2 e :
  linked h 0 (l1 ++ p :: l2) 0 -> NoDup (e :: l1 ++ p :: l2) -> e <> 0 ->
  linked (insque h e p) 0 (l1 ++ p :: e :: l2) 0 /\
  linked (remque (insque h e p) e) 0 (l1 ++ p :: l2) 0.
Proof.
  intros H Hnd He. pose proof (insque_linked _ _ _ _ _ H Hnd He) as Hi. split; [exact Hi|].
  change (l1 ++ p :: e :: l2) with (l1 ++ [p] ++ e :: l2) in Hi. rewrite app_assoc in Hi.
  apply remque_linked in Hi; [now rewrite <- app_assoc in Hi|].
  rewrite <- app_assoc. cbn [app].
  apply (Permutation_NoDup (l := e :: l1 ++ p :: l2)); [|assumption].
  change (l1 ++ p :: l2) with (l1 ++ [p] ++ l2). change (l1 ++ p :: e :: l2) with (l1 ++ [p] ++ e :: l2).
  rewrite !app_assoc. apply Permutation_middle.
Qed.
