(* ===== verification/Dns.v ===== *)
(** * Dns: names and records of DNS messages

    Models src/network/dn_expand.c, src/network/dn_skipname.c and the parser of
    src/network/ns_parse.c.  A message is the list of its bytes, from _msg to
    _eom; a pointer into it is an offset.  A read outside the message is [None]:
    that the parser returns at all says that it makes no such read.  The bytes
    written to a buffer are a list in the order of the writes.

    [name_at] is the meaning of a name: labels, and pointers to the rest of the
    name (RFC 1035, 4.1.4); dn_expand takes any byte with one of the two top bits
    set as a pointer. *)

From Stdlib Require Import ZArith Lia ZifyBool List Bool.
From S2P Require Import Prelude.
Import ListNotations.
Open Scope Z_scope.

Section Message.
Variable msg : list Z.
Definition eom : Z := Z.of_nat (length msg).

(** One byte, and [n] bytes, of the message. *)
Definition peek (i : Z) : option Z := if i <? 0 then None else nth_error msg (Z.to_nat i).
Definition peeks (i n : Z) : option (list Z) :=
  if (0 <=? i) && (i + n <=? eom) then Some (firstn (Z.to_nat n) (skipn (Z.to_nat i) msg)) else None.

(** ** Names *)

(** The body of dn_expand: [dest] holds the bytes written, [dend] is the index
    of the end of the buffer. *)
Fixpoint expand_loop (n : nat) (src dend p : Z) (dest : list Z) (len : Z) : option (Z * list Z) :=
  match n with
  | O => Some (-1, dest)
  | S n =>
      let? c := peek p in
      if negb (Z.land c 0xc0 =? 0) then
        if p + 1 =? eom then Some (-1, dest)
        else
          let? c1 := peek (p + 1) in
          let j := Z.lor (Z.shiftl (Z.land c 0x3f) 8) c1 in
          let len := if len <? 0 then p + 2 - src else len in
          if eom <=? j then Some (-1, dest) else expand_loop n src dend j dest len
      else if negb (c =? 0) then
        let dest := match dest with [] => [] | _ => dest ++ [46] end in
        let p := p + 1 in
        if (eom - p <=? c) || (dend - Z.of_nat (length dest) <=? c) then Some (-1, dest)
        else
          let? lab := peeks p c in
          expand_loop n src dend (p + c) (dest ++ lab) len
      else Some (if len <? 0 then p + 1 - src else len, dest ++ [0])
  end.

(** for (i=0; i < end-base; i+=2) *)
Definition expand_rounds : nat := Z.to_nat ((eom + 1) / 2).

Definition dn_expand (src space : Z) : option (Z * list Z) :=
  if (src =? eom) || (space <=? 0) then Some (-1, [])
  else expand_loop expand_rounds src (if 254 <? space then 254 else space) src [] (-1).

Fixpoint skip_loop (fuel : nat) (s p : Z) : option Z :=
  match fuel with
  | O => None
  | S fuel =>
      if p <? eom then
        let? c := peek p in
        if c =? 0 then Some (p - s + 1)
        else if 192 <=? c then (if p + 1 <? eom then Some (p - s + 2) else Some (-1))
        else if eom - p <? c + 1 then Some (-1)
        else skip_loop fuel s (p + (c + 1))
      else Some (-1)
  end.
Definition dn_skipname (s : Z) : option Z := skip_loop (S (length msg)) s s.

(** ** Records *)

Definition ns_get16 (p : Z) : option Z :=
  let? a := peek p in let? b := peek (p + 1) in Some (Z.lor (Z.shiftl a 8) b).
Definition ns_get32 (p : Z) : option Z :=
  let? a := peek p in let? b := peek (p + 1) in let? c := peek (p + 2) in let? d := peek (p + 3) in
  Some (Z.lor (Z.lor (Z.lor (u32 (Z.shiftl a 24)) (Z.shiftl b 16)) (Z.shiftl c 8)) d).

(** What a call returns, with errno on failure. *)
Inductive errno : Type := EMSGSIZE | ENODEV.
Inductive result : Type := Ret (r : Z) | Err (e : errno).

Definition ns_s_qd : Z := 0.
Definition ns_s_max : Z := 4.

Fixpoint skiprr_loop (count : nat) (ptr p section : Z) : option result :=
  match count with
  | O => Some (Ret (p - ptr))
  | S count =>
      let? r := dn_skipname p in
      if r <? 0 then Some (Err EMSGSIZE)
      else if eom - p <? r + 4 then Some (Err EMSGSIZE)
      else
        let p := p + (r + 4) in
        if negb (section =? ns_s_qd) then
          if eom - p <? 6 then Some (Err EMSGSIZE)
          else
            let? r := ns_get16 (p + 4) in
            let p := p + 4 + 2 in
            if eom - p <? r then Some (Err EMSGSIZE)
            else skiprr_loop count ptr (p + r) section
        else skiprr_loop count ptr p section
  end.
Definition ns_skiprr (ptr section count : Z) : option result :=
  skiprr_loop (Z.to_nat count) ptr ptr section.

(** A pointer member is [None] when it is NULL. *)
Record ns_msg : Type := NsMsg {
  _id : Z; _flags : Z; _counts : list Z; _sections : list (option Z);
  _sect : Z; _rrnum : Z; _msg_ptr : option Z
}.

Definition set_section (i : Z) (v : option Z) (h : ns_msg) : ns_msg :=
  let k := Z.to_nat i in
  NsMsg (_id h) (_flags h) (_counts h) (firstn k (_sections h) ++ v :: skipn (S k) (_sections h))
    (_sect h) (_rrnum h) (_msg_ptr h).
Definition set_pos (sect rrnum : Z) (p : option Z) (h : ns_msg) : ns_msg :=
  NsMsg (_id h) (_flags h) (_counts h) (_sections h) sect rrnum p.
Definition count_of (h : ns_msg) (i : Z) : Z := nth (Z.to_nat i) (_counts h) 0.
Definition section_of (h : ns_msg) (i : Z) : option Z := nth (Z.to_nat i) (_sections h) None.

(** for (i = 0; i < ns_s_max; i++), from section [i] on. *)
Fixpoint init_sections (k : nat) (i p : Z) (h : ns_msg) : option (result * ns_msg) :=
  match k with
  | O =>
      if negb (p =? eom) then Some (Err EMSGSIZE, h)
      else Some (Ret 0, set_pos ns_s_max (-1) None h)
  | S k =>
      if negb (count_of h i =? 0) then
        let h := set_section i (Some p) h in
        let? r := ns_skiprr p i (count_of h i) in
        match r with
        | Err e => Some (Err e, h)
        | Ret r => init_sections k (i + 1) (p + r) h
        end
      else init_sections k (i + 1) p (set_section i None h)
  end.

Definition ns_initparse (h : ns_msg) : option (result * ns_msg) :=
  if eom <? 12 then Some (Err EMSGSIZE, h)
  else
    let? id := ns_get16 0 in
    let? flags := ns_get16 2 in
    let? c0 := ns_get16 4 in let? c1 := ns_get16 6 in
    let? c2 := ns_get16 8 in let? c3 := ns_get16 10 in
    init_sections 4 0 12
      (NsMsg id flags [c0; c1; c2; c3] (_sections h) (_sect h) (_rrnum h) (_msg_ptr h)).

Record ns_rr : Type := NsRr {
  name : list Z; type : Z; rr_class : Z; ttl : Z; rdlength : Z; rdata : option Z
}.

Definition NS_MAXDNAME : Z := 1025.

Definition ns_name_uncompress (src dstsiz : Z) : option (result * list Z) :=
  let? (r, dst) := dn_expand src dstsiz in
  Some (if r <? 0 then Err EMSGSIZE else Ret r, dst).

(** The fields after the name, from the offset [p] on: the record and the
    offset after it, or the failure. *)
Definition rr_fields (section p : Z) (nm : list Z) : option (result * option ns_rr * Z) :=
  if eom - p <? 4 then Some (Err EMSGSIZE, None, p)
  else
    let? t := ns_get16 p in
    let? c := ns_get16 (p + 2) in
    let p := p + 4 in
    if negb (section =? ns_s_qd) then
      if eom - p <? 6 then Some (Err EMSGSIZE, None, p)
      else
        let? tl := ns_get32 p in
        let? rl := ns_get16 (p + 4) in
        let p := p + 6 in
        if eom - p <? rl then Some (Err EMSGSIZE, None, p)
        else Some (Ret 0, Some (NsRr nm t c tl rl (Some p)), p + rl)
    else Some (Ret 0, Some (NsRr nm t c 0 0 None), p).

(** handle->_rrnum++ and what follows. *)
Definition next_rr (section p : Z) (h : ns_msg) : ns_msg :=
  let n := _rrnum h + 1 in
  if count_of h section <? n then
    if section + 1 =? ns_s_max then set_pos (section + 1) (-1) None h
    else set_pos (section + 1) 0 (Some p) h
  else set_pos (_sect h) n (Some p) h.

(** The record of number [rrnum] of a section; [-1] is the next one. *)
Definition ns_parserr (h : ns_msg) (section rrnum : Z) : option (result * ns_msg * option ns_rr) :=
  if (section <? 0) || (ns_s_max <=? section) then Some (Err ENODEV, h, None)
  else
    let h := if negb (section =? _sect h) then set_pos section 0 (section_of h section) h else h in
    let rrnum := if rrnum =? -1 then _rrnum h else rrnum in
    if (rrnum <? 0) || (count_of h section <=? rrnum) then Some (Err ENODEV, h, None)
    else
      let h := if rrnum <? _rrnum h then set_pos (_sect h) 0 (section_of h section) h else h in
      let? (r, h) :=
        (if _rrnum h <? rrnum then
           let? p := _msg_ptr h in
           let? r := ns_skiprr p section (rrnum - _rrnum h) in
           match r with
           | Err e => Some (Err e, h)
           | Ret r => Some (Ret r, set_pos (_sect h) rrnum (Some (p + r)) h)
           end
         else Some (Ret 0, h)) in
      match r with
      | Err e => Some (Err e, h, None)
      | Ret _ =>
          let? p := _msg_ptr h in
          let? (r, nm) := ns_name_uncompress p NS_MAXDNAME in
          match r with
          | Err e => Some (Err e, h, None)
          | Ret r =>
              let? (r, rr, p) := rr_fields section (p + r) nm in
              match r with
              | Err e => Some (Err e, set_pos (_sect h) (_rrnum h) (Some p) h, None)
              | Ret _ => Some (Ret 0, next_rr section p h, rr)
              end
          end
      end.

(** ** What a name is *)

(** At [p] there is a name of labels [ls], read in [n] steps, of which the first
    [w] bytes are in place. *)
Inductive name_at : nat -> Z -> list (list Z) -> Z -> Prop :=
| name_end p : peek p = Some 0 -> name_at 1 p [] 1
| name_label n p c lab ls w :
    peek p = Some c -> 1 <= c <= 63 -> peeks (p + 1) c = Some lab ->
    name_at n (p + 1 + c) ls w -> name_at (S n) p (lab :: ls) (1 + c + w)
| name_ptr n p c c1 ls w :
    peek p = Some c -> Z.land c 192 <> 0 -> peek (p + 1) = Some c1 ->
    name_at n (Z.lor (Z.shiftl (Z.land c 63) 8) c1) ls w -> name_at (S n) p ls 2.

(** The text of a name: the labels with dots between them. *)
Definition add_label (d lab : list Z) : list Z := match d with [] => lab | _ => d ++ 46 :: lab end.
Definition dotted (ls : list (list Z)) : list Z := fold_left add_label ls [].

Hypothesis Hbytes : Forall (fun b => 0 <= b < 256) msg.

Lemma peek_in i : 0 <= i < eom -> exists b, peek i = Some b /\ 0 <= b < 256.
Proof.
  intros Hi. unfold peek. replace (i <? 0) with false by lia.
  destruct (nth_error msg (Z.to_nat i)) as [b|] eqn:E.
  - exists b. split; [reflexivity|]. apply nth_error_In in E. rewrite Forall_forall in Hbytes. auto.
  - apply nth_error_None in E. unfold eom in Hi. lia.
Qed.

Lemma peek_some i b : peek i = Some b -> 0 <= i < eom /\ 0 <= b < 256.
Proof.
  unfold peek, eom. destruct (Z.ltb_spec i 0); [discriminate|]. intros E.
  assert (Hi : (Z.to_nat i < length msg)%nat) by (apply nth_error_Some; congruence).
  split; [lia|]. apply nth_error_In in E. rewrite Forall_forall in Hbytes. auto.
Qed.

Lemma peeks_in i n :
  0 <= i -> 0 <= n -> i + n <= eom -> exists l, peeks i n = Some l /\ Z.of_nat (length l) = n.
Proof.
  intros Hi Hn Hle. unfold peeks. replace ((0 <=? i) && (i + n <=? eom)) with true by lia.
  eexists. split; [reflexivity|]. rewrite length_firstn, length_skipn. unfold eom in Hle. lia.
Qed.

(** The kinds of a byte. *)
Definition byte_kind (c : Z) : bool :=
  (if Z.land c 192 =? 0 then c <? 64 else 64 <=? c) && (0 <=? Z.shiftl (Z.land c 63) 8).
Lemma byte_kind_ok c : 0 <= c < 256 -> byte_kind c = true.
Proof. now apply (zrange_check byte_kind 0 256). Qed.

Lemma pointer_nonneg c c1 : 0 <= c < 256 -> 0 <= c1 < 256 -> 0 <= Z.lor (Z.shiftl (Z.land c 63) 8) c1.
Proof.
  intros Hc Hc1. apply Z.lor_nonneg. split; [|lia].
  apply byte_kind_ok, andb_true_iff in Hc. lia.
Qed.

Lemma label_byte c : 0 <= c < 256 -> Z.land c 192 = 0 <-> c < 64.
Proof.
  intros Hc. apply byte_kind_ok, andb_true_iff in Hc as [Hc _].
  destruct (Z.eqb_spec (Z.land c 192) 0); lia.
Qed.

Lemma add_label_length d lab : (length d <= length (add_label d lab))%nat.
Proof. destruct d; cbn [add_label]; [cbn; lia|]. rewrite length_app. lia. Qed.

Lemma fold_label_length ls d : (length d <= length (fold_left add_label ls d))%nat.
Proof.
  revert d; induction ls as [|lab ls IH]; intros d; cbn [fold_left]; [lia|].
  pose proof (add_label_length d lab). specialize (IH (add_label d lab)). lia.
Qed.

(** The ways a name starts are told apart by its first byte. *)
Lemma name_inv k p ls w c :
  name_at k p ls w -> peek p = Some c ->
  (c = 0 /\ k = 1%nat /\ ls = [] /\ w = 1) \/
  (1 <= c <= 63 /\ exists k' lab ls' w', k = S k' /\ ls = lab :: ls' /\ w = 1 + c + w' /\
     peeks (p + 1) c = Some lab /\ name_at k' (p + 1 + c) ls' w') \/
  (Z.land c 192 <> 0 /\ exists k' c1 w', k = S k' /\ w = 2 /\ peek (p + 1) = Some c1 /\
     name_at k' (Z.lor (Z.shiftl (Z.land c 63) 8) c1) ls w').
Proof.
  intros H E. inversion H; subst; match goal with H : peek p = Some _ |- _ => rewrite E in H; injection H as -> end.
  - left. auto.
  - right; left. split; [assumption|]. do 4 eexists. eauto.
  - right; right. split; [assumption|]. do 3 eexists. eauto.
Qed.

(** The loop succeeds, or fails on all names. *)
Definition expanded (n : nat) (src dend p : Z) (dest : list Z) (len r : Z) (out : list Z) : Prop :=
  Z.of_nat (length out) <= dend /\
  ((exists k ls w, name_at k p ls w /\ (k <= n)%nat /\
      Z.of_nat (length (fold_left add_label ls dest)) < dend /\
      r = (if len <? 0 then p + w - src else len) /\ out = fold_left add_label ls dest ++ [0]) \/
   (r = -1 /\ forall k ls w, name_at k p ls w ->
      (n < k)%nat \/ dend <= Z.of_nat (length (fold_left add_label ls dest)))).

Lemma expand_ptr n src dend p dest len r out c c1 :
  peek p = Some c -> Z.land c 192 <> 0 -> peek (p + 1) = Some c1 -> (0 <= len \/ src <= p) ->
  expanded n src dend (Z.lor (Z.shiftl (Z.land c 63) 8) c1) dest (if len <? 0 then p + 2 - src else len) r out ->
  expanded (S n) src dend p dest len r out.
Proof.
  intros Ec Hc E1 Hlen [Ho [(k & ls & w & Hn & Hk & Hl & -> & ->)|[-> Hno]]]; (split; [exact Ho|]).
  - left. exists (S k), ls, 2. split; [eapply name_ptr; eassumption|]. split; [lia|]. split; [exact Hl|].
    split; [|reflexivity]. destruct (Z.ltb_spec len 0); simplify_ifs.
  - right. split; [reflexivity|]. intros k ls w Hn.
    destruct (name_inv _ _ _ _ _ Hn Ec) as [(-> & _)|[(Hc' & _)|(_ & k' & c1' & w' & -> & _ & E1' & Hn')]].
    + now destruct Hc.
    + apply peek_some in Ec as [_ Hr]. exfalso. apply Hc, (label_byte c Hr). lia.
    + rewrite E1 in E1'. injection E1' as <-. apply Hno in Hn'. lia.
Qed.

Lemma expand_label n src dend p dest len r out c lab :
  peek p = Some c -> 1 <= c <= 63 -> peeks (p + 1) c = Some lab ->
  expanded n src dend (p + 1 + c) (add_label dest lab) len r out ->
  expanded (S n) src dend p dest len r out.
Proof.
  intros Ec Hc E1 [Ho [(k & ls & w & Hn & Hk & Hl & -> & ->)|[-> Hno]]]; (split; [exact Ho|]).
  - left. exists (S k), (lab :: ls), (1 + c + w). split; [eapply name_label; eassumption|].
    split; [lia|]. split; [exact Hl|]. split; [|reflexivity]. destruct (Z.ltb_spec len 0); lia.
  - right. split; [reflexivity|]. intros k ls w Hn.
    destruct (name_inv _ _ _ _ _ Hn Ec) as [(-> & _)|[(_ & k' & lab' & ls' & w' & -> & -> & _ & E1' & Hn')|(Hp & _)]].
    + lia.
    + rewrite E1 in E1'. injection E1' as <-. apply Hno in Hn'. cbn [fold_left]. lia.
    + apply peek_some in Ec as [_ Hr]. exfalso. apply Hp, (label_byte c Hr). lia.
Qed.

(** A failure: no name starts with these bytes, or none that fits. *)
Lemma expand_fail n src dend p dest len out :
  Z.of_nat (length out) <= dend ->
  (forall k ls w, name_at k p ls w -> (n < k)%nat \/ dend <= Z.of_nat (length (fold_left add_label ls dest))) ->
  exists r out', Some (-1, out) = Some (r, out') /\ expanded n src dend p dest len r out'.
Proof. intros Ho Hn. exists (-1), out. repeat split; auto. Qed.

Lemma expand_loop_ok n src dend p dest len :
  0 <= p < eom -> Z.of_nat (length dest) < dend -> (0 <= len \/ src <= p) ->
  exists r out, expand_loop n src dend p dest len = Some (r, out) /\ expanded n src dend p dest len r out.
Proof.
  revert p dest len; induction n as [|n IH]; intros p dest len Hp Hd Hlen; cbn [expand_loop].
  { apply expand_fail; [lia|]. intros k ls w Hn. left. inversion Hn; lia. }
  destruct (peek_in p Hp) as (c & Ec & Hc). rewrite Ec. cbn [bind].
  pose proof (label_byte c Hc) as Hlab.
  destruct (Z.eqb_spec (Z.land c 192) 0) as [E0|E0]; cbn [negb].
  - destruct (Z.eqb_spec c 0) as [->|Hc0]; cbn [negb].
    + exists (if len <? 0 then p + 1 - src else len), (dest ++ [0]). split; [reflexivity|].
      split; [rewrite length_app; cbn; lia|]. left. exists 1%nat, [], 1. cbn [fold_left].
      split; [now constructor|]. split; [lia|]. auto.
    + set (d := match dest with [] => [] | _ => dest ++ [46] end).
      assert (Hl : forall lab, d ++ lab = add_label dest lab).
      { intros lab. unfold d. destruct dest; [reflexivity|]. cbn [add_label]. now rewrite <- app_assoc. }
      assert (Hd2 : Z.of_nat (length d) <= dend).
      { unfold d. destruct dest; [cbn; lia|]. rewrite length_app. cbn [length] in *. lia. }
      destruct ((eom - (p + 1) <=? c) || (dend - Z.of_nat (length d) <=? c)) eqn:Et.
      * apply expand_fail; [assumption|]. intros k ls w Hn.
        destruct (name_inv _ _ _ _ _ Hn Ec) as [(-> & _)|[(_ & k' & lab & ls' & w' & -> & -> & _ & E1 & Hn')|(Hp' & _)]];
          [lia| |tauto].
        apply orb_true_iff in Et as [Et|Et].
        { exfalso. assert (Hin : exists b, peek (p + 1 + c) = Some b) by (inversion Hn'; eauto).
          destruct Hin as (b & Hin). apply peek_some in Hin. lia. }
        right. cbn [fold_left]. pose proof (fold_label_length ls' (add_label dest lab)) as HL.
        rewrite <- Hl, length_app in HL.
        destruct (peeks_in (p + 1) c) as (l & El & Hll); [lia|lia| |].
        { unfold peeks in E1. destruct ((0 <=? p + 1) && (p + 1 + c <=? eom)) eqn:E2; [lia|discriminate]. }
        rewrite E1 in El. injection El as <-. rewrite <- Hl. lia.
      * apply orb_false_iff in Et as [Et1 Et2].
        destruct (peeks_in (p + 1) c) as (lab & El & Hll); [lia|lia|lia|]. rewrite El. cbn [bind].
        destruct (IH (p + 1 + c) (d ++ lab) len) as (r & out & -> & Hx); [lia|rewrite length_app; lia|lia|].
        exists r, out. split; [reflexivity|]. rewrite Hl in Hx. eapply expand_label; eauto. lia.
  - destruct (Z.eqb_spec (p + 1) eom) as [Ee|Ee].
    + apply expand_fail; [lia|]. intros k ls w Hn. exfalso.
      destruct (name_inv _ _ _ _ _ Hn Ec) as [(-> & _)|[(Hr & _)|(_ & k' & c1 & w' & _ & _ & E1 & _)]];
        [now apply E0|lia|]. apply peek_some in E1. lia.
    + destruct (peek_in (p + 1)) as (c1 & E1 & Hc1); [lia|]. rewrite E1. cbn [bind].
      pose proof (pointer_nonneg c c1 Hc Hc1) as Hj. set (j := Z.lor _ c1) in *.
      destruct (Z.leb_spec eom j).
      * apply expand_fail; [lia|]. intros k ls w Hn. exfalso.
        destruct (name_inv _ _ _ _ _ Hn Ec) as [(-> & _)|[(Hr & _)|(_ & k' & c1' & w' & _ & _ & E1' & Hn')]];
          [now apply E0|lia|]. rewrite E1 in E1'. injection E1' as <-. fold j in Hn'.
        assert (Hin : exists b, peek j = Some b) by (inversion Hn'; eauto).
        destruct Hin as (b & Hin). apply peek_some in Hin. lia.
      * destruct (IH j dest (if len <? 0 then p + 2 - src else len)) as (r & out & -> & Hx); [lia|lia| |].
        { destruct (Z.ltb_spec len 0); lia. }
        exists r, out. split; [reflexivity|]. eapply expand_ptr; eauto.
Qed.

(** ** Reads stay inside the message *)

Lemma dn_skipname_ok s :
  0 <= s <= eom -> exists r, dn_skipname s = Some r /\ (r = -1 \/ 1 <= r <= eom - s).
Proof.
  intros Hs. unfold dn_skipname.
  assert (H : forall fuel p, s <= p <= eom -> eom - p < Z.of_nat fuel ->
    exists r, skip_loop fuel s p = Some r /\ (r = -1 \/ 1 <= r <= eom - s)).
  { induction fuel as [|fuel IH]; intros p Hp Hf; [lia|]. cbn [skip_loop].
    destruct (Z.ltb_spec p eom); [|eauto]. destruct (peek_in p) as (c & -> & Hc); [lia|]. cbn [bind].
    destruct (Z.eqb_spec c 0); [exists (p - s + 1); split; [reflexivity|lia]|].
    destruct (Z.leb_spec 192 c).
    { destruct (Z.ltb_spec (p + 1) eom); [exists (p - s + 2); split; [reflexivity|lia]|eauto]. }
    destruct (Z.ltb_spec (eom - p) (c + 1)); [eauto|]. apply IH; lia. }
  apply H; [lia|]. unfold eom in *. lia.
Qed.

Lemma get16_in p : 0 <= p -> p + 2 <= eom -> exists v, ns_get16 p = Some v /\ 0 <= v.
Proof.
  intros Hp He. unfold ns_get16.
  destruct (peek_in p) as (a & -> & Ha); [lia|]. destruct (peek_in (p + 1)) as (b & -> & Hb); [lia|].
  cbn [bind]. eexists. split; [reflexivity|]. apply Z.lor_nonneg. split; [|lia]. apply Z.shiftl_nonneg. lia.
Qed.

Lemma get32_in p : 0 <= p -> p + 4 <= eom -> exists v, ns_get32 p = Some v.
Proof.
  intros Hp He. unfold ns_get32.
  destruct (peek_in p) as (a & -> & _); [lia|]. destruct (peek_in (p + 1)) as (b & -> & _); [lia|].
  destruct (peek_in (p + 2)) as (c & -> & _); [lia|]. destruct (peek_in (p + 3)) as (d & -> & _); [lia|].
  cbn [bind]. eauto.
Qed.

Lemma skiprr_ok ptr section count :
  0 <= ptr <= eom -> exists res, ns_skiprr ptr section count = Some res /\
    match res with Ret r => 0 <= r /\ ptr + r <= eom | Err _ => True end.
Proof.
  intros Hp. unfold ns_skiprr. generalize (Z.to_nat count) as n. intros n.
  assert (H : forall p, ptr <= p <= eom -> exists res, skiprr_loop n ptr p section = Some res /\
    match res with Ret r => 0 <= r /\ ptr + r <= eom | Err _ => True end); [|apply H; lia].
  induction n as [|n IH]; intros p Hp'; cbn [skiprr_loop]; [exists (Ret (p - ptr)); split; [reflexivity|lia]|].
  destruct (dn_skipname_ok p) as (r & -> & Hr); [lia|]. cbn [bind].
  destruct (Z.ltb_spec r 0); [now exists (Err EMSGSIZE)|]. destruct (Z.ltb_spec (eom - p) (r + 4)); [now exists (Err EMSGSIZE)|].
  destruct (negb (section =? ns_s_qd)); [|apply IH; lia].
  destruct (Z.ltb_spec (eom - (p + (r + 4))) 6); [now exists (Err EMSGSIZE)|].
  destruct (get16_in (p + (r + 4) + 4)) as (v & -> & Hv); [lia|lia|]. cbn [bind].
  destruct (Z.ltb_spec (eom - (p + (r + 4) + 4 + 2)) v); [now exists (Err EMSGSIZE)|]. apply IH. lia.
Qed.

(** ** The invariant of a handle *)

Definition in_msg (o : option Z) : Prop := match o with Some p => 0 <= p <= eom | None => False end.

(** The sections that have records start inside the message, and so does the
    next record of the current section. *)
Definition handle_ok (h : ns_msg) : Prop :=
  (forall i, 0 <= i < 4 -> count_of h i <> 0 -> in_msg (section_of h i)) /\
  (_sect h = 4 \/
   0 <= _rrnum h /\ (0 <= _sect h < 4 -> count_of h (_sect h) <> 0 -> in_msg (_msg_ptr h))).

Lemma handle_set_pos h sect n p :
  handle_ok h -> sect = 4 \/ 0 <= n /\ (0 <= sect < 4 -> count_of h sect <> 0 -> in_msg p) ->
  handle_ok (set_pos sect n p h).
Proof. intros [H1 H2] Hp. split; [exact H1|exact Hp]. Qed.

Lemma section_set h i v j :
  length (_sections h) = 4%nat -> 0 <= i < 4 -> 0 <= j < 4 ->
  section_of (set_section i v h) j = if j =? i then v else section_of h j.
Proof.
  intros Hl Hi Hj. unfold section_of, set_section; cbn [_sections].
  destruct (_sections h) as [|a [|b [|c [|d [|]]]]]; try discriminate.
  assert (Hci : i = 0 \/ i = 1 \/ i = 2 \/ i = 3) by lia. assert (Hcj : j = 0 \/ j = 1 \/ j = 2 \/ j = 3) by lia.
  destruct Hci as [->|[->|[->| ->]]], Hcj as [->|[->|[->| ->]]]; reflexivity.
Qed.

Lemma set_section_length h i v :
  length (_sections h) = 4%nat -> 0 <= i < 4 -> length (_sections (set_section i v h)) = 4%nat.
Proof.
  intros Hl Hi. cbn [set_section _sections]. rewrite length_app, length_firstn. cbn [length].
  rewrite length_skipn. lia.
Qed.

Lemma init_sections_ok k i p h :
  i + Z.of_nat k = 4 -> 0 <= i -> 0 <= p <= eom -> length (_sections h) = 4%nat ->
  (forall j, 0 <= j < i -> count_of h j <> 0 -> in_msg (section_of h j)) ->
  exists res h', init_sections k i p h = Some (res, h') /\ (res = Ret 0 -> handle_ok h').
Proof.
  revert i p h; induction k as [|k IH]; intros i p h Hk Hi Hp Hl Hs; cbn [init_sections].
  { destruct (negb _); do 2 eexists; (split; [reflexivity|]); [discriminate|]. intros _.
    split; [|now left]. intros j Hj. apply Hs. lia. }
  assert (Hnext : forall v, (count_of h i <> 0 -> in_msg v) -> forall j, 0 <= j < i + 1 ->
    count_of (set_section i v h) j <> 0 -> in_msg (section_of (set_section i v h) j)).
  { intros v Hv j Hj Hc. change (count_of (set_section i v h) j) with (count_of h j) in Hc.
    rewrite section_set by lia. destruct (Z.eqb_spec j i) as [->|]; [auto|]. apply Hs; [lia|assumption]. }
  destruct (Z.eqb_spec (count_of h i) 0) as [E|E]; cbn [negb].
  - apply IH; try lia; [apply set_section_length; lia|]. apply Hnext. congruence.
  - destruct (skiprr_ok p i (count_of (set_section i (Some p) h) i) Hp) as (res & -> & Hr). cbn [bind]. destruct res as [r|e].
    + apply IH; try lia; [apply set_section_length; lia|]. apply Hnext. auto.
    + do 2 eexists. split; [reflexivity|discriminate].
Qed.

Lemma initparse_ok h :
  length (_sections h) = 4%nat ->
  exists res h', ns_initparse h = Some (res, h') /\ (res = Ret 0 -> handle_ok h').
Proof.
  intros Hl. unfold ns_initparse. destruct (Z.ltb_spec eom 12).
  { do 2 eexists. split; [reflexivity|discriminate]. }
  destruct (get16_in 0) as (x0 & -> & _); [lia|lia|]. destruct (get16_in 2) as (x1 & -> & _); [lia|lia|].
  destruct (get16_in 4) as (x2 & -> & _); [lia|lia|]. destruct (get16_in 6) as (x3 & -> & _); [lia|lia|].
  destruct (get16_in 8) as (x4 & -> & _); [lia|lia|]. destruct (get16_in 10) as (x5 & -> & _); [lia|lia|].
  cbn [bind]. apply init_sections_ok; [reflexivity|lia|lia|assumption|]. intros. lia.
Qed.

Lemma name_at_range k p ls w : name_at k p ls w -> 1 <= w /\ p + w <= eom.
Proof.
  induction 1 as [p H|n p c lab ls w H Hc Hl Hn IH|n p c c1 ls w H Hc H1 Hn IH].
  - apply peek_some in H. lia.
  - lia.
  - apply peek_some in H1. lia.
Qed.

(** dn_expand from any offset of the message, its end included. *)
Lemma dn_expand_ok src space :
  0 <= src <= eom ->
  exists r out, dn_expand src space = Some (r, out) /\ Z.of_nat (length out) <= Z.max 0 (Z.min space 254) /\
    ((exists k ls w, name_at k src ls w /\ (k <= expand_rounds)%nat /\
        Z.of_nat (length (dotted ls)) < Z.min space 254 /\ r = w /\ out = dotted ls ++ [0]) \/
     (r = -1 /\ forall k ls w, name_at k src ls w ->
        (expand_rounds < k)%nat \/ Z.min space 254 <= Z.of_nat (length (dotted ls)))).
Proof.
  intros Hs. unfold dn_expand. destruct ((src =? eom) || (space <=? 0)) eqn:E.
  - exists (-1), []. split; [reflexivity|]. split; [cbn; lia|]. right. split; [reflexivity|].
    intros k ls w Hn. apply orb_true_iff in E as [E|E]; [|lia].
    apply name_at_range in Hn. lia.
  - apply orb_false_iff in E as [E1 E2].
    replace (if 254 <? space then 254 else space) with (Z.min space 254) by (destruct (Z.ltb_spec 254 space); lia).
    destruct (expand_loop_ok expand_rounds src (Z.min space 254) src [] (-1)) as (r & out & -> & Ho & Hx);
      [lia|cbn; lia|lia|].
    exists r, out. split; [reflexivity|]. split; [lia|].
    destruct Hx as [(k & ls & w & Hn & Hk & Hl & -> & ->)|Hx]; [left|right; exact Hx].
    exists k, ls, w. replace (-1 <? 0) with true by lia. repeat split; auto. lia.
Qed.

Lemma expand_in src space :
  0 <= src <= eom ->
  exists r out, dn_expand src space = Some (r, out) /\ (r < 0 \/ 0 <= r /\ src + r <= eom).
Proof.
  intros Hs. destruct (dn_expand_ok src space Hs) as (r & out & -> & _ & Hx). exists r, out. split; [reflexivity|].
  destruct Hx as [(k & ls & w & Hn & _ & _ & -> & _)|[-> _]]; [right|lia]. apply name_at_range in Hn. lia.
Qed.

Lemma rr_fields_ok section p nm :
  0 <= p <= eom -> exists res rr q, rr_fields section p nm = Some (res, rr, q) /\ 0 <= q <= eom.
Proof.
  intros Hp. unfold rr_fields. destruct (Z.ltb_spec (eom - p) 4); [do 3 eexists; split; [reflexivity|lia]|].
  destruct (get16_in p) as (t & -> & _); [lia|lia|]. destruct (get16_in (p + 2)) as (c & -> & _); [lia|lia|].
  cbn [bind]. destruct (negb (section =? ns_s_qd)); [|do 3 eexists; split; [reflexivity|lia]].
  destruct (Z.ltb_spec (eom - (p + 4)) 6); [do 3 eexists; split; [reflexivity|lia]|].
  destruct (get32_in (p + 4)) as (tl & ->); [lia|lia|].
  destruct (get16_in (p + 4 + 4)) as (rl & -> & Hrl); [lia|lia|]. cbn [bind].
  destruct (Z.ltb_spec (eom - (p + 4 + 6)) rl); do 3 eexists; (split; [reflexivity|lia]).
Qed.

(** One call keeps the invariant. *)
Lemma parserr_ok h section rrnum :
  handle_ok h -> exists res h' rr, ns_parserr h section rrnum = Some (res, h', rr) /\ handle_ok h'.
Proof.
  intros H. unfold ns_parserr.
  destruct ((section <? 0) || (ns_s_max <=? section)) eqn:Es; [do 3 eexists; split; [reflexivity|assumption]|].
  apply orb_false_iff in Es. unfold ns_s_max in Es. assert (Hsec : 0 <= section < 4) by lia. clear Es.
  set (h1 := if negb (section =? _sect h) then _ else h).
  assert (H1 : handle_ok h1 /\ _sect h1 = section /\ 0 <= _rrnum h1).
  { unfold h1. destruct (Z.eqb_spec section (_sect h)) as [E|E]; cbn [negb].
    - split; [assumption|]. split; [now symmetry|]. destruct H as [_ [H|H]]; [lia|apply H].
    - split; [|split; [reflexivity|cbn; lia]]. apply handle_set_pos; [assumption|]. right. split; [lia|].
      intros _ Hc. now apply (proj1 H). }
  destruct H1 as (H1 & Hs1 & Hr1). clearbody h1. clear h H.
  set (num := if rrnum =? -1 then _rrnum h1 else rrnum). clearbody num.
  destruct ((num <? 0) || (count_of h1 section <=? num)) eqn:En; [do 3 eexists; split; [reflexivity|assumption]|].
  apply orb_false_iff in En. assert (Hc : count_of h1 section <> 0) by lia. assert (Hnum : 0 <= num) by lia.
  set (h2 := if num <? _rrnum h1 then _ else h1).
  assert (H2 : handle_ok h2 /\ _sect h2 = section /\ count_of h2 section <> 0 /\ 0 <= _rrnum h2).
  { unfold h2. destruct (num <? _rrnum h1); [|auto]. split; [|split; [exact Hs1|split; [exact Hc|cbn; lia]]].
    apply handle_set_pos; [assumption|]. right. split; [lia|]. intros _ _. apply (proj1 H1); assumption. }
  destruct H2 as (H2 & Hs2 & Hc2 & Hr2). clearbody h2. clear h1 H1 Hs1 Hr1 En Hc.
  assert (Hpos : forall h, handle_ok h -> _sect h = section -> count_of h section <> 0 -> in_msg (_msg_ptr h)).
  { intros h [_ [Hh|[_ Hh]]] Hs Hc; [lia|]. apply Hh; [lia|]. now rewrite Hs. }
  assert (H3 : exists r h3, (if _rrnum h2 <? num then
      let? p := _msg_ptr h2 in
      let? r := ns_skiprr p section (num - _rrnum h2) in
      match r with
      | Err e => Some (Err e, h2)
      | Ret r => Some (Ret r, set_pos (_sect h2) num (Some (p + r)) h2)
      end else Some (Ret 0, h2)) = Some (r, h3) /\
    handle_ok h3 /\ _sect h3 = section /\ count_of h3 section <> 0 /\ 0 <= _rrnum h3).
  { destruct (_rrnum h2 <? num); [|do 2 eexists; split; [reflexivity|auto]].
    pose proof (Hpos h2 H2 Hs2 Hc2) as Hp. destruct (_msg_ptr h2) as [p|]; [|now destruct Hp]. cbn [bind in_msg] in *.
    destruct (skiprr_ok p section (num - _rrnum h2) Hp) as (res & -> & Hr). cbn [bind].
    destruct res as [r|e]; do 2 eexists; (split; [reflexivity|]); [|auto].
    split; [|cbn; auto]. apply handle_set_pos; [assumption|]. right. split; [lia|]. intros _ _. cbn. lia. }
  destruct H3 as (r & h3 & -> & H3 & Hs3 & Hc3 & Hr3). cbn [bind].
  destruct r as [r|e]; [|do 3 eexists; split; [reflexivity|assumption]].
  pose proof (Hpos h3 H3 Hs3 Hc3) as Hp. destruct (_msg_ptr h3) as [p|]; [|now destruct Hp]. cbn [bind in_msg] in *.
  unfold ns_name_uncompress. destruct (expand_in p NS_MAXDNAME Hp) as (w & nm & -> & Hw). cbn [bind].
  destruct (Z.ltb_spec w 0); [do 3 eexists; split; [reflexivity|assumption]|].
  destruct (rr_fields_ok section (p + w) nm) as (res & rr & q & -> & Hq); [lia|]. cbn [bind].
  destruct res as [r'|e]; do 3 eexists; (split; [reflexivity|]).
  - unfold next_rr. destruct (_ <? _); [destruct (section + 1 =? ns_s_max) eqn:E4|]; apply handle_set_pos; auto;
      [left; unfold ns_s_max in E4; lia|right|right]; (split; [lia|]); intros; exact Hq.
  - apply handle_set_pos; [assumption|]. right. split; [assumption|]. intros; exact Hq.
Qed.

(** A client reads records with any arguments, one after the other. *)
Fixpoint parse_seq (h : ns_msg) (calls : list (Z * Z)) : option ns_msg :=
  match calls with
  | [] => Some h
  | (section, rrnum) :: calls =>
      let? (_, h, _) := ns_parserr h section rrnum in
      parse_seq h calls
  end.
End Message.


(** "ab" at 0, and "c.ab" at 4, with a pointer to the first name. *)
Definition ex_names : list Z := [2; 97; 98; 0; 1; 99; 0xc0; 0].


(** C29. Parsing a message never reads outside it: neither ns_initparse on any
    bytes, nor, once it has succeeded, any sequence of ns_parserr calls with any
    sections and record numbers, whatever they return. *)
Theorem ns_parse_safe msg h0 :
  Forall (fun b => 0 <= b < 256) msg -> length (_sections h0) = 4%nat ->
  exists res h, ns_initparse msg h0 = Some (res, h) /\
    (res = Ret 0 -> forall calls, exists h', parse_seq msg h calls = Some h').
Proof.
  intros Hb Hl. destruct (initparse_ok msg Hb h0 Hl) as (res & h & E & Hok).
  exists res, h. split; [exact E|]. intros Er calls. specialize (Hok Er). clear E Er.
  revert h Hok; induction calls as [|[section rrnum] calls IH]; intros h Hok; cbn [parse_seq]; [eauto|].
  destruct (parserr_ok msg Hb h section rrnum Hok) as (r & h' & rr & -> & H'). cbn [bind]. auto.
Qed.

(** A header that announces one question, and the question. *)
Definition ex_query : list Z := [0; 7; 1; 0; 0; 1; 0; 0; 0; 0; 0; 0; 2; 97; 98; 0; 0; 1; 0; 1].
Definition ex_handle : ns_msg := NsMsg 0 0 [] [None; None; None; None] 0 0 None.

Lemma ns_parse_safe_witness :
  length (_sections ex_handle) = 4%nat /\
  exists h, ns_initparse ex_query ex_handle = Some (Ret 0, h) /\
    exists h', parse_seq ex_query h [(0, -1); (0, 0); (2, 5)] = Some h'.
Proof.
  split; [reflexivity|].
  destruct (ns_parse_safe ex_query ex_handle) as (res & h & E & Hs).
  - repeat constructor; lia.
  - reflexivity.
  - assert (Er : res = Ret 0) by (vm_compute in E; congruence). subst res.
    exists h. split; [exact E|]. exact (Hs eq_refl [(0, -1); (0, 0); (2, 5)]).
Defined.

Example ns_parserr_ex :
  (let? (_, h) := ns_initparse ex_query ex_handle in
   let? (r, _, rr) := ns_parserr ex_query h 0 0 in Some (r, rr)) =
  Some (Ret 0, Some (NsRr [97; 98; 0] 1 1 0 0 None)).
Proof. reflexivity. Qed.
