(* ===== verification/Inet.v ===== *)
(** * Inet: addresses as text

    Models src/network/inet_pton.c, inet_aton.c, inet_addr.c and inet_legacy.c.
    A string is read from the flat memory; the address written through the
    result pointer is the list of the bytes written.  A char is signed. *)

From Stdlib Require Import ZArith Lia ZifyBool List Bool.
From S2P Require Import Prelude Strings Ctype IntScan.
Import ListNotations.
Open Scope Z_scope.

Definition AF_INET : Z := 2.
Definition AF_INET6 : Z := 10.

(** ** inet_pton *)

(** The argument is converted to unsigned. *)
Definition hexval (c : Z) : Z :=
  if u32 (c - 48) <? 10 then u32 (c - 48)
  else
    let c := Z.lor c 32 in
    if u32 (c - 97) <? 6 then u32 (c - 97) + 10 else -1.

(** for (v=j=0; j<3 && isdigit(s[j]); j++) v = 10*v + s[j]-'0'; the count and
    the value. *)
Fixpoint dec_loop (n : nat) (m : mem) (s j v : Z) : Z * Z :=
  match n with
  | O => (v, j)
  | S n => if isdigit (m (s + j)) then dec_loop n m s (j + 1) (10 * v + m (s + j) - 48) else (v, j)
  end.

(** The loop over the four numbers, from number [i] on: the answer and the
    bytes of [a] written. *)
Fixpoint pton4_loop (n : nat) (m : mem) (s i : Z) (a : list Z) : Z * list Z :=
  match n with
  | O => (0, a)
  | S n =>
      let '(v, j) := dec_loop 3 m s 0 0 in
      if (j =? 0) || ((1 <? j) && (m s =? 48)) || (255 <? v) then (0, a)
      else
        let a := a ++ [v] in
        if (m (s + j) =? 0) && (i =? 3) then (1, a)
        else if negb (m (s + j) =? 46) then (0, a)
        else pton4_loop n m (s + (j + 1)) (i + 1) a
  end.
Definition pton4 (m : mem) (s : Z) : Z * list Z := pton4_loop 4 m s 0 [].

(** for (v=j=0; j<4 && (d=hexval(s[j]))>=0; j++) v=16*v+d; *)
Fixpoint hex_loop (n : nat) (m : mem) (s j v : Z) : Z * Z :=
  match n with
  | O => (v, j)
  | S n =>
      let d := hexval (u32 (s8 (m (s + j)))) in
      if 0 <=? d then hex_loop n m s (j + 1) (16 * v + d) else (v, j)
  end.

(** ip[i&7] = v *)
Definition set_ip (ip : list Z) (i v : Z) : list Z :=
  let k := Z.to_nat (Z.land i 7) in firstn k ip ++ v :: skipn (S k) ip.

(** The loop over the groups, from group [i] on: [None] is return 0; otherwise
    ip, brk, i, need_v4 and s after the loop. *)
Fixpoint pton6_loop (n : nat) (m : mem) (s i brk : Z) (ip : list Z)
  : option (list Z * Z * Z * bool * Z) :=
  match n with
  | O => None
  | S n =>
      if (m s =? 58) && (brk <? 0) then
        let brk := i in
        let ip := set_ip ip i 0 in
        let s := s + 1 in
        if m s =? 0 then Some (ip, brk, i, false, s)
        else if i =? 7 then None
        else pton6_loop n m s (i + 1) brk ip
      else
        let '(v, j) := hex_loop 4 m s 0 0 in
        if j =? 0 then None
        else
          let ip := set_ip ip i v in
          if (m (s + j) =? 0) && ((0 <=? brk) || (i =? 7)) then Some (ip, brk, i, false, s)
          else if i =? 7 then None
          else if negb (m (s + j) =? 58) then
            if negb (m (s + j) =? 46) || ((i <? 6) && (brk <? 0)) then None
            else Some (set_ip ip (i + 1) 0, brk, i + 1, true, s)
          else pton6_loop n m (s + (j + 1)) (i + 1) brk ip
  end.

(** memmove(ip+brk+7-i, ip+brk, 2*(i+1-brk)) and the zeros before it. *)
Definition fill_gap (ip : list Z) (brk i : Z) : list Z :=
  let b := Z.to_nat brk in
  firstn b ip ++ repeat 0%Z (Z.to_nat (7 - i)) ++ firstn (Z.to_nat (i + 1 - brk)) (skipn b ip).

Definition group_bytes (ip : list Z) : list Z :=
  flat_map (fun v => [u8 (Z.shiftr v 8); u8 v]) ip.

(** What ip holds at first is undefined. *)
Definition pton6 (ip : list Z) (m : mem) (s : Z) : Z * list Z :=
  let colon := m s =? 58 in
  let s := if colon then s + 1 else s in
  if colon && negb (m s =? 58) then (0, [])
  else
    match pton6_loop 8 m s 0 (-1) ip with
    | None => (0, [])
    | Some (ip, brk, i, need_v4, s) =>
        let ip := if 0 <=? brk then fill_gap ip brk i else ip in
        let a := group_bytes ip in
        if need_v4 then
          let '(r, b) := pton4 m s in
          let a := firstn 12 a ++ b ++ skipn (12 + length b) a in
          if r <=? 0 then (0, a) else (1, a)
        else (1, a)
    end.

(** The answer [-1] comes with EAFNOSUPPORT. *)
Definition inet_pton (ip : list Z) (m : mem) (af s : Z) : Z * list Z :=
  if af =? AF_INET then pton4 m s
  else if negb (af =? AF_INET6) then (-1, [])
  else pton6 ip m s.

(** ** inet_aton *)
Section Aton.
Variable uflow : stream -> Z * stream.

(** The loop over the numbers, from number [i] on: [None] is return 0 (or no
    fuel for strtoul); otherwise i at the end and a. *)
Fixpoint aton_loop (n : nat) (fuel : nat) (m : mem) (s i : Z) (a : list Z) (errno : Z) : option (Z * list Z) :=
  match n with
  | O => None
  | S n =>
      let? (v, z, errno) := strtoul uflow fuel m s 0 errno in
      let a := a ++ [v] in
      if (z =? s) || (negb (m z =? 0) && negb (m z =? 46)) || negb (isdigit (m s)) then None
      else if m z =? 0 then Some (i, a)
      else aton_loop n fuel m (z + 1) (i + 1) a errno
  end.

(** The switch, falling through, on a with zeros after a[i]. *)
Definition spread (i : Z) (a : list Z) : list Z :=
  let a0 := nth 0 a 0 in let a1 := nth 1 a 0 in let a2 := nth 2 a 0 in let a3 := nth 3 a 0 in
  let '(a0, a1) := if i <=? 0 then (Z.shiftr a0 24, Z.land a0 0xffffff) else (a0, a1) in
  let '(a1, a2) := if i <=? 1 then (Z.shiftr a1 16, Z.land a1 0xffff) else (a1, a2) in
  let '(a2, a3) := if i <=? 2 then (Z.shiftr a2 8, Z.land a2 0xff) else (a2, a3) in
  [a0; a1; a2; a3].

(** The answer and the bytes written. *)
Fixpoint store_bytes (a d : list Z) : Z * list Z :=
  match a with
  | [] => (1, d)
  | x :: a => if 255 <? x then (0, d) else store_bytes a (d ++ [x])
  end.

Definition inet_aton (fuel : nat) (m : mem) (s errno : Z) : Z * list Z :=
  match aton_loop 4 fuel m s 0 [] errno with
  | None => (0, [])
  | Some (i, a) => store_bytes (spread i a) []
  end.

(** The bytes of an address in memory, as a number. *)
Definition s_addr (d : list Z) : Z :=
  nth 0 d 0 + 256 * nth 1 d 0 + 65536 * nth 2 d 0 + 16777216 * nth 3 d 0.

Definition inet_addr (fuel : nat) (m : mem) (p errno : Z) : Z :=
  let '(r, d) := inet_aton fuel m p errno in
  if r =? 0 then u32 (-1) else s_addr d.
End Aton.

(** ** The legacy interfaces *)

(** bswap_32 *)
Definition ntohl (n : Z) : Z :=
  Z.lor (Z.lor (Z.lor (Z.shiftr n 24) (Z.land (Z.shiftr n 8) 0xff00))
    (Z.land (u32 (Z.shiftl n 8)) 0xff0000)) (u32 (Z.shiftl n 24)).

Definition inet_network (uflow : stream -> Z * stream) (fuel : nat) (m : mem) (p errno : Z) : Z :=
  ntohl (inet_addr uflow fuel m p errno).

Definition inet_makeaddr (n h : Z) : Z :=
  if n <? 256 then Z.lor h (u32 (Z.shiftl n 24))
  else if n <? 65536 then Z.lor h (u32 (Z.shiftl n 16))
  else Z.lor h (u32 (Z.shiftl n 8)).

Definition inet_lnaof (h : Z) : Z :=
  if Z.shiftr h 24 <? 128 then Z.land h 0xffffff
  else if Z.shiftr h 24 <? 192 then Z.land h 0xffff
  else Z.land h 0xff.

Definition inet_netof (h : Z) : Z :=
  if Z.shiftr h 24 <? 128 then Z.shiftr h 24
  else if Z.shiftr h 24 <? 192 then Z.shiftr h 16
  else Z.shiftr h 8.


(** "1::a:1.2.3.4" and "10.2.255.0" *)
Example pton6_ex :
  inet_pton (repeat 77%Z 8) (str_mem 1 [49; 58; 58; 97; 58; 49; 46; 50; 46; 51; 46; 52]) AF_INET6 1 =
  (1, [0; 1; 0; 0; 0; 0; 0; 0; 0; 0; 0; 10; 1; 2; 3; 4]).
Proof. reflexivity. Qed.
Example pton4_ex :
  inet_pton [] (str_mem 1 [49; 48; 46; 50; 46; 50; 53; 53; 46; 48]) AF_INET 1 = (1, [10; 2; 255; 0]).
Proof. reflexivity. Qed.

(** ** Dotted decimal *)

(** The decimal digits of a byte, without leading zeros. *)
Definition dec (v : Z) : list Z :=
  if v <? 10 then [48 + v]
  else if v <? 100 then [48 + v / 10; 48 + v mod 10]
  else [48 + v / 100; 48 + v / 10 mod 10; 48 + v mod 10].

Definition byte (v : Z) : Prop := 0 <= v <= 255.

(** [dots [a; b; c; d]] is "a.b.c.d". *)
Fixpoint dots (vs : list Z) : list Z :=
  match vs with
  | [] => []
  | v :: vs' => match vs' with [] => dec v | _ => dec v ++ 46 :: dots vs' end
  end.

Lemma isdigit_range c : 0 <= c < 256 -> isdigit c = ((48 <=? c) && (c <=? 57)).
Proof. intros Hc. unfold isdigit, u32. destruct (Z.leb_spec 48 c); zlia. Qed.

(** The digits at the front of a list. *)
Fixpoint ldec (n : nat) (l : list Z) (j v : Z) : Z * Z :=
  match n, l with
  | S n, c :: l' => if isdigit c then ldec n l' (j + 1) (10 * v + c - 48) else (v, j)
  | _, _ => (v, j)
  end.

Lemma dec_loop_list n m s l j v : cstr m (s + j) l -> dec_loop n m s j v = ldec n l j v.
Proof.
  revert l j v; induction n as [|n IH]; intros l j v H; [reflexivity|]. cbn [dec_loop ldec].
  destruct l as [|c l]; cbn [cstr] in H.
  - now rewrite H.
  - destruct H as (-> & Hc & H). destruct (isdigit c); [|reflexivity]. apply IH.
    now replace (s + (j + 1)) with (s + j + 1) by lia.
Qed.

Lemma ldec_S n c l j v :
  ldec (S n) (c :: l) j v = if isdigit c then ldec n l (j + 1) (10 * v + c - 48) else (v, j).
Proof. reflexivity. Qed.

(** The test that accepts a number. *)
Definition num_ok (c v j : Z) : bool := negb ((j =? 0) || ((1 <? j) && (c =? 48)) || (255 <? v)).

Lemma num_sound l v j :
  Forall (fun b => 0 < b < 256) l -> ldec 3 l 0 0 = (v, j) -> num_ok (hd 0 l) v j = true ->
  byte v /\ j = Z.of_nat (length (dec v)) /\ exists l', l = dec v ++ l'.
Proof.
  intros Hl E Hok. unfold num_ok, byte in *.
  assert (Hdig : forall c, 0 < c < 256 -> isdigit c = true -> 48 <= c <= 57).
  { intros c Hc Hd. rewrite isdigit_range in Hd by lia. lia. }
  destruct l as [|c1 l]; [injection E as <- <-; discriminate|]. cbn [ldec hd] in *.
  inversion_clear Hl as [|? ? H1 Hl1]. destruct (isdigit c1) eqn:D1; [|injection E as <- <-; discriminate].
  specialize (Hdig c1 H1 D1) as R1.
  assert (Hone : forall l', v = 10 * 0 + c1 - 48 -> j = 1 -> l = l' ->
    0 <= v <= 255 /\ j = Z.of_nat (length (dec v)) /\ exists l', c1 :: l = dec v ++ l').
  { intros l' Ev -> ->. split; [lia|]. unfold dec. replace (v <? 10) with true by lia.
    split; [reflexivity|]. exists l'. cbn [app]. f_equal. lia. }
  destruct l as [|c2 l]; [injection E as <- <-; now apply (Hone [])|].
  inversion_clear Hl1 as [|? ? H2 Hl2]. destruct (isdigit c2) eqn:D2; [|injection E as <- <-; now apply (Hone (c2 :: l))].
  specialize (Hdig c2 H2 D2) as R2. clear Hone.
  assert (Htwo : forall l', v = 10 * (10 * 0 + c1 - 48) + c2 - 48 -> j = 0 + 1 + 1 -> l = l' ->
    0 <= v <= 255 /\ j = Z.of_nat (length (dec v)) /\ exists l', c1 :: c2 :: l = dec v ++ l').
  { intros l' Ev -> ->. split; [lia|]. unfold dec. replace (v <? 10) with false by lia.
    replace (v <? 100) with true by lia. split; [reflexivity|]. exists l'. cbn [app].
    replace (48 + v / 10) with c1 by zlia. replace (48 + v mod 10) with c2 by zlia. reflexivity. }
  destruct l as [|c3 l]; [injection E as <- <-; now apply (Htwo [])|].
  inversion_clear Hl2 as [|? ? H3 Hl3]. destruct (isdigit c3) eqn:D3; [|injection E as <- <-; now apply (Htwo (c3 :: l))].
  specialize (Hdig c3 H3 D3) as R3. clear Htwo.
  injection E as Ev <-. split; [lia|]. unfold dec.
  destruct (c1 =? 48) eqn:E1; [cbn in Hok; lia|]. replace (v <? 10) with false by lia.
  replace (v <? 100) with false by lia. split; [reflexivity|]. exists l. cbn [app].
  replace (48 + v / 100) with c1 by zlia. replace (48 + v / 10 mod 10) with c2 by zlia.
  replace (48 + v mod 10) with c3 by zlia. reflexivity.
Qed.

Lemma num_complete v l' :
  byte v -> (match l' with c :: _ => isdigit c = false | [] => True end) ->
  ldec 3 (dec v ++ l') 0 0 = (v, Z.of_nat (length (dec v))) /\
  num_ok (hd 0 (dec v ++ l')) v (Z.of_nat (length (dec v))) = true.
Proof.
  unfold byte. intros Hv Hl'.
  assert (Hd : forall d, 0 <= d <= 9 -> isdigit (48 + d) = true).
  { intros d Hd. rewrite isdigit_range by lia. lia. }
  assert (Hend : forall n j x, ldec n l' j x = (x, j)).
  { intros n j x. destruct n, l'; cbn [ldec]; try reflexivity. now rewrite Hl'. }
  unfold num_ok, dec. destruct (Z.ltb_spec v 10); [|destruct (Z.ltb_spec v 100)];
    cbn [app length hd]; rewrite ?ldec_S, ?Hd, ?ldec_S, ?Hd, ?ldec_S, ?Hd, ?Hend by zlia;
    (split; [apply f_equal2; [zlia|reflexivity]|zlia]).
Qed.

Lemma dots_cons v vs : dots (v :: vs) = dec v ++ match vs with [] => [] | _ => 46 :: dots vs end.
Proof. destruct vs; [symmetry; apply app_nil_r|reflexivity]. Qed.

(** The number a dotted text starts with is the one the loop reads. *)
Lemma num_dots v vs l v0 j0 :
  byte v -> l = dots (v :: vs) -> ldec 3 l 0 0 = (v0, j0) ->
  num_ok (hd 0 l) v0 j0 = true /\ v0 = v /\ j0 = Z.of_nat (length (dec v)).
Proof.
  intros Hv -> E. rewrite dots_cons in *.
  destruct (num_complete v (match vs with [] => [] | _ => 46 :: dots vs end) Hv) as [E1 Hok].
  { destruct vs; [exact I|reflexivity]. }
  rewrite E in E1. injection E1 as -> ->. auto.
Qed.

Lemma pton4_loop_ok n m s i a l :
  cstr m s l -> (1 <= n)%nat -> i + Z.of_nat n = 4 ->
  let '(r, b) := pton4_loop n m s i a in
  (r = 1 /\ exists vs, length vs = n /\ Forall byte vs /\ l = dots vs /\ b = a ++ vs) \/
  (r = 0 /\ forall vs, length vs = n -> Forall byte vs -> l <> dots vs).
Proof.
  revert s i a l; induction n as [|n IH]; intros s i a l Hs Hn Hi; [lia|]. cbn [pton4_loop].
  rewrite (dec_loop_list 3 m s l) by now rewrite Z.add_0_r.
  destruct (ldec 3 l 0 0) as [v j] eqn:E.
  assert (Eh : m s = hd 0 l) by (destruct l; cbn in Hs; tauto). rewrite Eh.
  pose proof (cstr_bytes _ _ _ Hs) as Hb.
  destruct ((j =? 0) || ((1 <? j) && (hd 0 l =? 48)) || (255 <? v)) eqn:Et.
  { right. split; [reflexivity|]. intros [|v' vs] Hlen Hvs El; [discriminate|]. inversion_clear Hvs as [|? ? Hv' _].
    destruct (num_dots _ _ _ _ _ Hv' El E) as [Hok _]. unfold num_ok in Hok. now rewrite Et in Hok. }
  destruct (num_sound l v j Hb E) as (Hv & -> & l' & El); [unfold num_ok; now rewrite Et|].
  assert (Huniq : forall v' vs, byte v' -> l = dots (v' :: vs) ->
    v' = v /\ l' = match vs with [] => [] | _ => 46 :: dots vs end).
  { intros v' vs Hv' Ed. destruct (num_dots _ _ _ _ _ Hv' Ed E) as (_ & -> & _). split; [reflexivity|].
    rewrite Ed, dots_cons in El. now apply app_inv_head in El. }
  assert (Hs' : cstr m (s + Z.of_nat (length (dec v))) l').
  { replace l' with (skipn (length (dec v)) l) by (rewrite El, skipn_app, skipn_all, Nat.sub_diag; reflexivity).
    apply cstr_skip; [assumption|]. rewrite El, length_app. lia. }
  set (j := Z.of_nat (length (dec v))) in *.
  destruct l' as [|c l']; cbn [cstr] in Hs'.
  - rewrite Hs', Z.eqb_refl. cbn [andb]. rewrite app_nil_r in El. destruct (Z.eqb_spec i 3) as [->|Hi3].
    + left. split; [reflexivity|]. exists [v]. repeat split; auto; cbn [length]; lia.
    + right. split; [reflexivity|]. intros [|v' vs] Hlen Hvs Ed; [discriminate|]. inversion_clear Hvs as [|? ? Hv' _].
      destruct (Huniq v' vs Hv' Ed) as [_ Hx]. destruct vs; [cbn in Hlen; lia|discriminate].
  - destruct Hs' as (-> & Hc & Hs'). replace (c =? 0) with false by lia. cbn [andb].
    destruct (Z.eqb_spec c 46) as [->|Hc46]; cbn [negb].
    + destruct n as [|n].
      { right. split; [reflexivity|]. intros [|v' vs] Hlen Hvs Ed; [discriminate|]. inversion_clear Hvs as [|? ? Hv' _].
        destruct (Huniq v' vs Hv' Ed) as [_ Hx]. destruct vs; [discriminate|cbn in Hlen; lia]. }
      replace (s + (j + 1)) with (s + j + 1) by lia.
      specialize (IH (s + j + 1) (i + 1) (a ++ [v]) l' Hs' ltac:(lia) ltac:(lia)).
      destruct (pton4_loop (S n) m (s + j + 1) (i + 1) (a ++ [v])) as [r b].
      destruct IH as [(-> & vs & Hlen & Hvs & -> & ->)|(-> & Hno)]; [left|right]; (split; [reflexivity|]).
      * exists (v :: vs). rewrite <- app_assoc. split; [cbn; lia|]. split; [now constructor|]. split; [|reflexivity].
        rewrite El, dots_cons. destruct vs; [discriminate|reflexivity].
      * intros [|v' vs] Hlen Hvs Ed; [discriminate|]. inversion_clear Hvs as [|? ? Hv' Hvs'].
        destruct (Huniq v' vs Hv' Ed) as [_ Hx]. destruct vs as [|v2 vs]; [discriminate|]. injection Hx as ->.
        apply (Hno (v2 :: vs)); [cbn in *; lia|assumption|reflexivity].
    + right. split; [reflexivity|]. intros [|v' vs] Hlen Hvs Ed; [discriminate|]. inversion_clear Hvs as [|? ? Hv' _].
      destruct (Huniq v' vs Hv' Ed) as [_ Hx]. destruct vs; [discriminate|]. injection Hx as ->. lia.
Qed.

(** C37. inet_pton on IPv4: on any terminated string, the answer is 1 with the
    four bytes exactly when the string is their dotted decimal form (no leading
    zeros, nothing before, between or after), and 0 otherwise. *)
Theorem inet_pton_v4 ip m s l :
  cstr m s l ->
  let '(r, a) := inet_pton ip m AF_INET s in
  (r = 1 /\ length a = 4%nat /\ Forall byte a /\ l = dots a) \/
  (r = 0 /\ forall a', length a' = 4%nat -> Forall byte a' -> l <> dots a').
Proof.
  intros Hs. unfold inet_pton. rewrite Z.eqb_refl. unfold pton4.
  pose proof (pton4_loop_ok 4 m s 0 [] l Hs ltac:(lia) ltac:(lia)) as H.
  destruct (pton4_loop 4 m s 0 []) as [r a].
  destruct H as [(-> & vs & Hlen & Hvs & -> & ->)|(-> & Hno)]; [left|right]; auto.
Qed.

Lemma inet_pton_v4_witness :
  inet_pton [] (str_mem 1 [49; 48; 46; 50; 46; 50; 53; 53; 46; 48]) AF_INET 1 = (1, [10; 2; 255; 0]) /\
  [49; 48; 46; 50; 46; 50; 53; 53; 46; 48] = dots [10; 2; 255; 0].
Proof.
  pose proof (inet_pton_v4 [] (str_mem 1 [49; 48; 46; 50; 46; 50; 53; 53; 46; 48]) 1
    [49; 48; 46; 50; 46; 50; 53; 53; 46; 48]) as H.
  assert (Hs : cstr (str_mem 1 [49; 48; 46; 50; 46; 50; 53; 53; 46; 48]) 1 [49; 48; 46; 50; 46; 50; 53; 53; 46; 48])
    by (vm_compute; repeat split; lia).
  specialize (H Hs). split; [vm_compute; reflexivity|].
  destruct (inet_pton [] _ AF_INET 1) as [r a] eqn:E in H. vm_compute in E. injection E as <- <-.
  destruct H as [(_ & _ & _ & Hd)|(H & _)]; [exact Hd|discriminate].
Defined.

(** ** Classful numbers *)

(** The numbers of a text for inet_aton: one to four C integer constants that
    start with a digit, with dots between them; a number above ULLONG_MAX counts
    as ULLONG_MAX. *)
Fixpoint aton_parts (n : nat) (l : list Z) : option (list Z) :=
  match n with
  | O => None
  | S n =>
      let? (_, v, k) := subject 0 l in
      if isdigit (hd 0 l) then
        match skipn k l with
        | [] => Some [Z.min v ULLONG_MAX]
        | c :: l' => if c =? 46 then (let? vs := aton_parts n l' in Some (Z.min v ULLONG_MAX :: vs)) else None
        end
      else None
  end.

(** The address they stand for: the last number fills the bytes that are left. *)
Definition addr_value (vs : list Z) : option Z :=
  match vs with
  | [a] => if a <? 2 ^ 32 then Some a else None
  | [a; b] => if (a <? 256) && (b <? 2 ^ 24) then Some (a * 2 ^ 24 + b) else None
  | [a; b; c] => if (a <? 256) && (b <? 256) && (c <? 2 ^ 16) then Some (a * 2 ^ 24 + b * 2 ^ 16 + c) else None
  | [a; b; c; d] =>
      if (a <? 256) && (b <? 256) && (c <? 256) && (d <? 256)
      then Some (a * 2 ^ 24 + b * 2 ^ 16 + c * 2 ^ 8 + d) else None
  | _ => None
  end.

Definition be32 (v : Z) : list Z := [v / 2 ^ 24; v / 2 ^ 16 mod 256; v / 2 ^ 8 mod 256; v mod 256].

Definition text_addr (l : list Z) : option Z := let? vs := aton_parts 4 l in addr_value vs.

Lemma store_bytes_ok a d :
  if forallb (fun x => x <=? 255) a then store_bytes a d = (1, d ++ a) else fst (store_bytes a d) = 0.
Proof.
  revert d; induction a as [|x a IH]; intros d; cbn [store_bytes forallb]; [now rewrite app_nil_r|].
  destruct (Z.leb_spec x 255), (Z.ltb_spec 255 x); try lia; cbn [andb]; [|reflexivity].
  specialize (IH (d ++ [x])). now rewrite <- app_assoc in IH.
Qed.

(** The switch and the stores. *)
Lemma spread_ok vs :
  Forall (fun v => 0 <= v) vs -> (1 <= length vs <= 4)%nat ->
  let r := store_bytes (spread (Z.of_nat (length vs) - 1) vs) [] in
  match addr_value vs with Some v => r = (1, be32 v) | None => fst r = 0 end.
Proof.
  intros Hv Hl r. unfold r. pose proof (store_bytes_ok (spread (Z.of_nat (length vs) - 1) vs) []) as H. cbn [app] in H.
  assert (Hand : forall x k, 0 <= k -> Z.land x (Z.ones k) = x mod 2 ^ k) by (intros; now apply Z.land_ones).
  assert (H24 : forall x, Z.land x 0xffffff = x mod 2 ^ 24) by (intros; now apply (Hand x 24)).
  assert (H16 : forall x, Z.land x 0xffff = x mod 2 ^ 16) by (intros; now apply (Hand x 16)).
  assert (H8 : forall x, Z.land x 0xff = x mod 2 ^ 8) by (intros; now apply (Hand x 8)). clear Hand.
  assert (Hs : forall x k, 0 <= k -> Z.shiftr x k = x / 2 ^ k) by (intros; now apply Z.shiftr_div_pow2).
  assert (Heq : forall x y z t x' y' z' t' : Z, x = x' -> y = y' -> z = z' -> t = t' ->
    (1, [x; y; z; t]) = (1, [x'; y'; z'; t'])) by congruence.
  revert H. destruct vs as [|a [|b [|c [|d [|]]]]]; cbn [length] in Hl; try lia;
    repeat match goal with H : Forall _ (_ :: _) |- _ => inversion_clear H end;
    unfold spread, addr_value, be32; cbn [length nth];
    repeat match goal with
    | |- context [Z.of_nat ?n - 1 <=? ?k] =>
        let b := eval vm_compute in (Z.of_nat n - 1 <=? k) in change (Z.of_nat n - 1 <=? k) with b
    end; cbv beta iota zeta; cbn [forallb andb]; rewrite ?andb_true_r;
    repeat first [rewrite H24|rewrite H16|rewrite H8|rewrite Hs by lia];
    match goal with |- (if ?t then _ else _) -> _ => destruct t eqn:Et end; intros ->;
    repeat match goal with |- context [if ?t then Some _ else None] => destruct t eqn:?; try (exfalso; zlia) end.
  all: try reflexivity.
  all: apply Heq; zlia.
Qed.

(** A subject sequence that starts with a digit has no white space and no sign. *)
Lemma subject_digit l neg v k :
  Forall (fun b => 0 < b < 256) l -> isdigit (hd 0 l) = true -> subject 0 l = Some (neg, v, k) ->
  neg = false /\ (1 <= k <= length l)%nat.
Proof.
  intros Hb Hd. destruct l as [|c l]; [discriminate|]. cbn [hd] in Hd. inversion_clear Hb as [|? ? Hc _].
  rewrite isdigit_range in Hd by lia. apply andb_true_iff in Hd as [Hd1 Hd2].
  unfold subject. assert (Es : isspace c = false).
  { unfold isspace. rewrite u32_small by lia. lia. }
  cbn [span]. rewrite Es. cbn [skipn]. replace (c =? 45) with false by lia. replace (c =? 43) with false by lia.
  cbn [skipn]. set (h := if hex_prefix 0 (c :: l) then 2%nat else 0%nat).
  assert (Hh : (h <= length (c :: l))%nat).
  { unfold h, hex_prefix. destruct l as [|x [|d l]]; cbn [length]; try lia. destruct (_ && _); lia. }
  pose proof (span_le (fun x => digit_val x <? radix 0 (c :: l)) (skipn h (c :: l))) as Hn.
  rewrite length_skipn in Hn. destruct (Nat.eqb_spec (span (fun x => digit_val x <? radix 0 (c :: l)) (skipn h (c :: l))) 0);
    [discriminate|]. intros E. injection E as <- <- <-. split; [reflexivity|]. lia.
Qed.

Section Strings.
Variables (uflow : stream -> Z * stream) (m : mem) (fuel : nat).
Hypothesis Hm : wf_mem m.

Lemma aton_loop_ok n s i a errno l :
  cstr m s l -> s + Z.of_nat (length l) < SIZE_MAX -> (length l < fuel)%nat ->
  aton_loop uflow n fuel m s i a errno =
  match aton_parts n l with
  | Some vs => Some (i + Z.of_nat (length vs) - 1, a ++ vs)
  | None => None
  end.
Proof.
  revert s i a errno l; induction n as [|n IH]; intros s i a errno l Hs Hend Hf; [reflexivity|].
  cbn [aton_loop aton_parts]. pose proof (cstr_bytes _ _ _ Hs) as Hb.
  pose proof (strtoul_value uflow m s l fuel Hm Hs Hend Hf 0 errno ltac:(unfold INT_MIN, INT_MAX; lia)) as Hv.
  cbv zeta in Hv. change ((0 <? 0) || (36 <? 0) || (0 =? 1)) with false in Hv. cbv iota in Hv.
  assert (Eh : m s = hd 0 l) by (destruct l; cbn in Hs; tauto). rewrite Eh.
  destruct (subject 0 l) as [[[neg v] k]|] eqn:Es; cbn [bind].
  2: { rewrite Hv. cbn [bind]. now rewrite Z.eqb_refl. }
  destruct (isdigit (hd 0 l)) eqn:Ed.
  2: { destruct (v <=? ULLONG_MAX); rewrite Hv; cbn [bind negb]; now rewrite !orb_true_r. }
  destruct (subject_digit _ _ _ _ Hb Ed Es) as [-> Hk]. apply subject_nonneg in Es; [|lia|lia].
  assert (Er : exists e, strtoul uflow fuel m s 0 errno = Some (Z.min v ULLONG_MAX, s + Z.of_nat k, e)).
  { destruct (Z.leb_spec v ULLONG_MAX); rewrite Hv; eexists; unfold ULLONG_MAX in *.
    - rewrite u64_small by lia. repeat f_equal. lia.
    - repeat f_equal. lia. }
  destruct Er as (e & ->). cbn [bind negb]. rewrite orb_false_r. clear Hv.
  pose proof (cstr_skip m s l k Hs ltac:(lia)) as Hz.
  replace (s + Z.of_nat k =? s) with false by lia. cbn [orb].
  destruct (skipn k l) as [|c l'] eqn:El; cbn [cstr] in Hz.
  - rewrite Hz, !Z.eqb_refl. cbn [negb andb length]. do 2 f_equal. lia.
  - destruct Hz as (-> & Hc & Hz). replace (c =? 0) with false by lia. cbn [negb andb].
    destruct (Z.eqb_spec c 46) as [->|]; cbn [negb]; [|reflexivity].
    assert (Hlen : length l = (k + S (length l'))%nat).
    { pose proof (length_skipn k l) as L. rewrite El in L. cbn [length] in L. lia. }
    rewrite (IH _ _ _ _ l') by (assumption || lia).
    destruct (aton_parts n l') as [vs|]; [|reflexivity]. cbn [bind length].
    rewrite <- app_assoc. cbn [app]. do 2 f_equal. lia.
Qed.
End Strings.

Lemma aton_parts_ok n l vs :
  aton_parts n l = Some vs -> (1 <= length vs <= n)%nat /\ Forall (fun v => 0 <= v) vs.
Proof.
  revert l vs; induction n as [|n IH]; intros l vs; cbn [aton_parts]; [discriminate|].
  destruct (subject 0 l) as [[[neg v] k]|] eqn:Es; [|discriminate]. cbn [bind].
  apply subject_nonneg in Es; [|lia|lia].
  assert (0 <= Z.min v ULLONG_MAX) by (unfold ULLONG_MAX; lia).
  destruct (isdigit (hd 0 l)); [|discriminate]. destruct (skipn k l) as [|c l'].
  - intros E. injection E as <-. split; [cbn; lia|]. repeat constructor; assumption.
  - destruct (c =? 46); [|discriminate]. destruct (aton_parts n l') as [vs'|] eqn:Ep; [|discriminate].
    cbn [bind]. intros E. injection E as <-. destruct (IH _ _ Ep). split; [cbn; lia|]. now constructor.
Qed.

(** One byte of a word, in place. *)
Lemma mask_byte x k : 0 <= k -> Z.land x (255 * 2 ^ k) = (x / 2 ^ k) mod 256 * 2 ^ k.
Proof.
  intros Hk. apply Z.bits_inj'. intros i Hi. rewrite Z.land_spec. destruct (Z.lt_ge_cases i k).
  - rewrite !Z.mul_pow2_bits_low by lia. apply andb_false_r.
  - rewrite !Z.mul_pow2_bits by lia. change 256 with (2 ^ 8). change 255 with (Z.ones 8).
    rewrite <- Z.land_ones, Z.land_spec, Z.div_pow2_bits by lia. f_equal. f_equal. lia.
Qed.

Lemma be32_swap v : 0 <= v < 2 ^ 32 -> ntohl (s_addr (be32 v)) = v.
Proof.
  intros Hv. unfold s_addr, be32; cbn [nth].
  set (a := v / 2 ^ 24). set (b := v / 2 ^ 16 mod 256). set (c := v / 2 ^ 8 mod 256). set (d := v mod 256).
  assert (Ev : v = a * 2 ^ 24 + b * 2 ^ 16 + c * 2 ^ 8 + d) by (unfold a, b, c, d; zlia).
  assert (H : 0 <= a < 256 /\ 0 <= b < 256 /\ 0 <= c < 256 /\ 0 <= d < 256) by (unfold a, b, c, d; zlia).
  clearbody a b c d. unfold ntohl, u32.
  change 0xff00 with (255 * 2 ^ 8). change 0xff0000 with (255 * 2 ^ 16).
  rewrite !mask_byte, !Z.shiftr_div_pow2, !Z.shiftl_mul_pow2 by lia.
  set (n := a + 256 * b + 65536 * c + 16777216 * d).
  replace (n / 2 ^ 24) with d by (unfold n; zlia).
  replace (n / 2 ^ 8 / 2 ^ 8 mod 256) with c by (unfold n; zlia).
  replace ((n * 2 ^ 8) mod 4294967296 / 2 ^ 16 mod 256) with b by (unfold n; zlia).
  replace ((n * 2 ^ 24) mod 4294967296) with (a * 2 ^ 24) by (unfold n; zlia).
  rewrite (Z.lor_comm d), (lor_add 8 c d), (Z.lor_comm _ (b * 2 ^ 16)), lor_add, Z.lor_comm, lor_add by lia. lia.
Qed.

(** inet_aton, inet_addr and inet_network on any terminated string: the text
    is taken exactly when it is one to four C integer constants with dots between
    them, each but the last a byte and the last in the range of the bytes it
    fills; the address is the value in network order, which inet_network gives
    as a number and inet_addr as it is in memory; otherwise they return 0 and
    the address of all ones. *)
Theorem inet_aton_correct uflow m s l fuel errno :
  wf_mem m -> cstr m s l -> s + Z.of_nat (length l) < SIZE_MAX -> (length l < fuel)%nat ->
  match text_addr l with
  | Some v =>
      0 <= v < 2 ^ 32 /\ inet_aton uflow fuel m s errno = (1, be32 v) /\
      inet_addr uflow fuel m s errno = s_addr (be32 v) /\ inet_network uflow fuel m s errno = v
  | None =>
      fst (inet_aton uflow fuel m s errno) = 0 /\ inet_addr uflow fuel m s errno = 4294967295
  end.
Proof.
  intros Hm Hs Hend Hf. unfold inet_network, inet_addr, inet_aton.
  rewrite (aton_loop_ok uflow m fuel Hm 4 s 0 [] errno l Hs Hend Hf). unfold text_addr.
  destruct (aton_parts 4 l) as [vs|] eqn:Ep; cbn [bind]; [|split; reflexivity].
  destruct (aton_parts_ok _ _ _ Ep) as [Hlen Hpos]. pose proof (spread_ok vs Hpos Hlen) as H. cbv zeta in H.
  cbn [app]. rewrite Z.add_0_l. destruct (addr_value vs) as [v|] eqn:Ev.
  - rewrite H. assert (Hv : 0 <= v < 2 ^ 32).
    { destruct vs as [|a [|b [|c [|d [|]]]]]; try discriminate; cbn [addr_value] in Ev;
        repeat match goal with H : Forall _ (_ :: _) |- _ => inversion_clear H end;
        revert Ev; case_if; intros Ev; [|discriminate| |discriminate| |discriminate| |discriminate];
        injection Ev as <-; lia. }
    split; [assumption|]. split; [reflexivity|]. cbn [Z.eqb]. split; [reflexivity|]. now apply be32_swap.
  - destruct (store_bytes _ _) as [r d]. cbn [fst] in H. subst r. split; reflexivity.
Qed.

(** "0x7f.1" is 127.0.0.1. *)
Lemma inet_aton_correct_witness :
  text_addr [48; 120; 55; 102; 46; 49] = Some 2130706433 /\
  inet_aton (fun t => (0, t)) 10 (str_mem 1 [48; 120; 55; 102; 46; 49]) 1 0 = (1, [127; 0; 0; 1]).
Proof.
  assert (E : text_addr [48; 120; 55; 102; 46; 49] = Some 2130706433) by (vm_compute; reflexivity).
  split; [exact E|].
  pose proof (inet_aton_correct (fun t => (0, t)) (str_mem 1 [48; 120; 55; 102; 46; 49]) 1
    [48; 120; 55; 102; 46; 49] 10 0) as H. rewrite E in H.
  apply H.
  - apply str_mem_wf. repeat constructor; lia.
  - vm_compute. repeat split; lia.
  - vm_compute. reflexivity.
  - cbn. lia.
Defined.

Lemma net_host h k : 0 <= h < 2 ^ 32 -> 0 <= k -> Z.lor (h mod 2 ^ k) (u32 (Z.shiftl (h / 2 ^ k) k)) = h.
Proof.
  intros Hh Hk. assert (0 < 2 ^ k) by lia. pose proof (Z.mod_pos_bound h (2 ^ k) ltac:(lia)).
  pose proof (Z.div_mod h (2 ^ k) ltac:(lia)). assert (0 <= h / 2 ^ k) by (apply Z.div_pos; lia).
  rewrite Z.shiftl_mul_pow2, u32_small by nia. rewrite Z.lor_comm, lor_add by lia. lia.
Qed.

(** The class of an address splits it into a network and a host, which
    inet_makeaddr puts together again. *)
Theorem inet_classes_roundtrip h :
  0 <= h < 2 ^ 32 -> inet_makeaddr (inet_netof h) (inet_lnaof h) = h.
Proof.
  intros Hh. unfold inet_makeaddr, inet_netof, inet_lnaof.
  change 0xffffff with (Z.ones 24). change 0xffff with (Z.ones 16). change 0xff with (Z.ones 8).
  rewrite !Z.land_ones, !Z.shiftr_div_pow2 by lia.
  destruct (Z.ltb_spec (h / 2 ^ 24) 128); [|destruct (Z.ltb_spec (h / 2 ^ 24) 192)].
  - replace (h / 2 ^ 24 <? 256) with true by lia. now apply net_host.
  - replace (h / 2 ^ 16 <? 256) with false by zlia. replace (h / 2 ^ 16 <? 65536) with true by zlia.
    now apply net_host.
  - replace (h / 2 ^ 8 <? 256) with false by zlia. replace (h / 2 ^ 8 <? 65536) with false by zlia.
    now apply net_host.
Qed.

Lemma inet_classes_roundtrip_witness :
  0 <= 3232235777 < 2 ^ 32 /\
  inet_makeaddr (inet_netof 3232235777) (inet_lnaof 3232235777) = 3232235777.
Proof. split; [lia|]. apply inet_classes_roundtrip. lia. Defined.
