(* ===== verification/Stdio.v ===== *)
(** * Stdio: buffered streams

    Models the buffered streams of src/stdio.  A stream is the FILE record and
    the memory its buffer lies in; what is behind it (a file descriptor, a
    string being printed to) is a value of a type E with the operations
    [FileOps] that the function pointers of a FILE stand for: [f_read],
    [f_write], [f_seek].  Two implementations are modelled: __stdio_read,
    __stdio_write and __stdio_seek on a file descriptor ([Kernel], the system
    calls, is a parameter) and sn_write of vsnprintf on a string.

    Pointers are addresses, NULL is 0.  The address of a local variable that is
    handed to f->read or f->write is the argument [loc].  The stream's lock is
    not modelled here: a function is what it does between FLOCK and FUNLOCK.

    StreamOut and StreamIn prove what the output and the input functions do. *)

From Stdlib Require Import ZArith Lia ZifyBool List Bool.
From S2P Require Import Prelude MemCopy Strings.
Import ListNotations.
Open Scope Z_scope.

(** ** The FILE record *)

Definition UNGET : Z := 8.
Definition F_PERM : Z := 1.
Definition F_NORD : Z := 4.
Definition F_NOWR : Z := 8.
Definition F_EOF : Z := 16.
Definition F_ERR : Z := 32.
Definition F_SVB : Z := 64.
Definition F_APP : Z := 128.
Definition EOF : Z := -1.

Definition SEEK_SET : Z := 0.
Definition SEEK_CUR : Z := 1.
Definition SEEK_END : Z := 2.

Definition _IOFBF : Z := 0.
Definition _IOLBF : Z := 1.
Definition _IONBF : Z := 2.

Record FILE := mkFILE {
  flags : Z;
  rpos : Z; rend : Z;
  wend : Z; wpos : Z; wbase : Z;
  buf : Z; buf_size : Z;
  mode : Z;
  lbf : Z
}.

Definition with_flags (f : FILE) (x : Z) : FILE :=
  mkFILE x (rpos f) (rend f) (wend f) (wpos f) (wbase f) (buf f) (buf_size f) (mode f) (lbf f).
Definition with_r (f : FILE) (p e : Z) : FILE :=
  mkFILE (flags f) p e (wend f) (wpos f) (wbase f) (buf f) (buf_size f) (mode f) (lbf f).
Definition with_w (f : FILE) (e p b : Z) : FILE :=
  mkFILE (flags f) (rpos f) (rend f) e p b (buf f) (buf_size f) (mode f) (lbf f).
Definition with_buf (f : FILE) (b n : Z) : FILE :=
  mkFILE (flags f) (rpos f) (rend f) (wend f) (wpos f) (wbase f) b n (mode f) (lbf f).
Definition with_mode (f : FILE) (x : Z) : FILE :=
  mkFILE (flags f) (rpos f) (rend f) (wend f) (wpos f) (wbase f) (buf f) (buf_size f) x (lbf f).
Definition with_lbf (f : FILE) (x : Z) : FILE :=
  mkFILE (flags f) (rpos f) (rend f) (wend f) (wpos f) (wbase f) (buf f) (buf_size f) (mode f) x.

Definition has (f : FILE) (b : Z) : bool := negb (Z.land (flags f) b =? 0).
Definition raise (f : FILE) (b : Z) : FILE := with_flags f (Z.lor (flags f) b).
Definition clear (f : FILE) (b : Z) : FILE := with_flags f (Z.ldiff (flags f) b).

(** The bytes of the buffer. *)
Definition in_buffer (f : FILE) (x : Z) : Prop := buf f <= x < buf f + buf_size f.

(** f->mode |= f->mode-1 *)
Definition touch (f : FILE) : FILE := with_mode f (Z.lor (mode f) (mode f - 1)).

(** A stream: the memory, the FILE, what is behind it, errno. *)
Record st (E : Type) := mkst { sm : mem; sf : FILE; se : E; serr : Z }.
Arguments mkst {E}. Arguments sm {E}. Arguments sf {E}. Arguments se {E}. Arguments serr {E}.

Definition on_file {E} (g : FILE -> FILE) (s : st E) : st E := mkst (sm s) (g (sf s)) (se s) (serr s).
Definition on_mem {E} (g : mem -> mem) (s : st E) : st E := mkst (g (sm s)) (sf s) (se s) (serr s).
Definition set_errno {E} (e : Z) (s : st E) : st E := mkst (sm s) (sf s) (se s) e.

(** The function pointers of a FILE. *)
Class FileOps (E : Type) : Type := {
  f_read : st E -> Z -> Z -> option (Z * st E);
  f_write : st E -> Z -> Z -> option (Z * st E);
  f_seek : st E -> Z -> Z -> Z * st E
}.

(** ** The functions on any stream *)

Section Ops.
Context {E : Type} `{FileOps E}.
Implicit Type s : st E.

(** *** Entering a mode *)

Definition __towrite s : Z * st E :=
  let s := on_file touch s in
  if has (sf s) F_NOWR then (EOF, on_file (fun f => raise f F_ERR) s)
  else
    let s := on_file (fun f => with_r f 0 0) s in
    (0, on_file (fun f => with_w f (buf f + buf_size f) (buf f) (buf f)) s).

Definition __toread s : option (Z * st E) :=
  let s := on_file touch s in
  let? s := (if wpos (sf s) =? wbase (sf s) then Some s
             else let? (_, s) := f_write s 0 0 in Some s) in
  let s := on_file (fun f => with_w f 0 0 0) s in
  if has (sf s) F_NORD then Some (EOF, on_file (fun f => raise f F_ERR) s)
  else
    let s := on_file (fun f => with_r f (buf f + buf_size f) (buf f + buf_size f)) s in
    Some (if has (sf s) F_EOF then EOF else 0, s).

(** *** Output *)

(** i = l; while (i && s[i-1] != '\n') i--; *)
Fixpoint last_newline (m : mem) (p : Z) (l : nat) : Z :=
  match l with
  | O => 0
  | S k => if m (p + Z.of_nat k) =? 10 then Z.of_nat l else last_newline m p k
  end.

(** memcpy(f->wpos, s, l); f->wpos += l; *)
Definition buffer_bytes (p l : Z) s : st E :=
  on_file (fun f => with_w f (wend f) (wpos f + l) (wbase f))
          (on_mem (fun m => mcopy m (wpos (sf s)) p l) s).

Definition __fwritex (p l : Z) s : option (Z * st E) :=
  let '(e, s) := if wend (sf s) =? 0 then __towrite s else (0, s) in
  if negb (e =? 0) then Some (0, s)
  else if u64 (wend (sf s) - wpos (sf s)) <? l then f_write s p l
  else
    let i := if 0 <=? lbf (sf s) then last_newline (sm s) p (Z.to_nat l) else 0 in
    if i =? 0 then Some (l, buffer_bytes p l s)
    else
      let? (n, s) := f_write s p i in
      if n <? i then Some (n, s)
      else Some (l - i + i, buffer_bytes (p + i) (l - i) s).

Definition fwrite (src size nmemb : Z) s : option (Z * st E) :=
  let l := u64 (size * nmemb) in
  let nmemb := if size =? 0 then 0 else nmemb in
  let? (k, s) := __fwritex src l s in
  Some (if k =? l then nmemb else k / size, s).

Definition fputs (fuel : nat) (p : Z) s : option (Z * st E) :=
  let? l := strlen fuel (sm s) p in
  let? (k, s) := fwrite p 1 l s in
  Some (b2z (k =? l) - 1, s).

(** *f->wpos++ = c *)
Definition put_byte (c : Z) s : Z * st E :=
  (c, on_file (fun f => with_w f (wend f) (wpos f + 1) (wbase f))
              (on_mem (fun m => m<{wpos (sf s) := c}>) s)).

Definition __overflow (loc _c : Z) s : option (Z * st E) :=
  let c := u8 _c in
  let s := on_mem (fun m => m<{loc := c}>) s in
  let '(e, s) := if wend (sf s) =? 0 then __towrite s else (0, s) in
  if negb (e =? 0) then Some (EOF, s)
  else if negb (wpos (sf s) =? wend (sf s)) && negb (c =? lbf (sf s)) then Some (put_byte c s)
  else
    let? (n, s) := f_write s loc 1 in
    if negb (n =? 1) then Some (EOF, s) else Some (c, s).

Definition putc_unlocked (loc c : Z) s : option (Z * st E) :=
  if negb (u8 c =? lbf (sf s)) && negb (wpos (sf s) =? wend (sf s))
  then Some (put_byte (u8 c) s)
  else __overflow loc (u8 c) s.

Definition puts (fuel : nat) (loc p : Z) s : option (Z * st E) :=
  let? (a, s) := fputs fuel p s in
  if a <? 0 then Some (-1, s)
  else
    let? (b, s) := putc_unlocked loc 10 s in
    Some (- b2z (b <? 0), s).

(** fflush(f) for a stream f. *)
Definition fflush s : option (Z * st E) :=
  let? (bad, s) :=
    (if wpos (sf s) =? wbase (sf s) then Some (false, s)
     else let? (_, s) := f_write s 0 0 in Some (wpos (sf s) =? 0, s)) in
  if bad then Some (EOF, s)
  else
    let s := if rpos (sf s) =? rend (sf s) then s
             else snd (f_seek s (rpos (sf s) - rend (sf s)) SEEK_CUR) in
    Some (0, on_file (fun f => with_r (with_w f 0 0 0) 0 0) s).

(** *** Input *)

Definition __uflow (loc : Z) s : option (Z * st E) :=
  let? (e, s) := __toread s in
  if negb (e =? 0) then Some (EOF, s)
  else
    let? (n, s) := f_read s loc 1 in
    if n =? 1 then Some (sm s loc, s) else Some (EOF, s).

Definition getc_unlocked (loc : Z) s : option (Z * st E) :=
  if rpos (sf s) =? rend (sf s) then __uflow loc s
  else Some (sm s (rpos (sf s)), on_file (fun f => with_r f (rpos f + 1) (rend f)) s).

(** memcpy(dest, f->rpos, k); f->rpos += k; *)
Definition take_bytes (dest k : Z) s : st E :=
  on_file (fun f => with_r f (rpos f + k) (rend f))
          (on_mem (fun m => mcopy m dest (rpos (sf s)) k) s).

(** for (; l; l-=k, dest+=k): the result is the number of bytes not read. *)
Definition fread_round (t : Z * Z * st E) : (Z * Z * st E) + option (Z * st E) :=
  let '(dest, l, s) := t in
  if l =? 0 then inr (Some (l, s))
  else
    match (let? (e, s) := __toread s in
           if negb (e =? 0) then Some (0, s) else f_read s dest l) with
    | None => inr None
    | Some (k, s) => if k =? 0 then inr (Some (l, s)) else inl (dest + k, l - k, s)
    end.

Definition fread (destv size nmemb : Z) s : option (Z * st E) :=
  let len := u64 (size * nmemb) in
  let nmemb := if size =? 0 then 0 else nmemb in
  let s := on_file touch s in
  let '(dest, l, s) :=
    if rpos (sf s) =? rend (sf s) then (destv, len, s)
    else
      let k := Z.min (rend (sf s) - rpos (sf s)) len in
      (destv + k, len - k, take_bytes destv k s) in
  let? r := loop fread_round (S (Z.to_nat l)) (dest, l, s) in
  let? (l, s) := r in
  Some (if l =? 0 then nmemb else (len - l) / size, s).

(** fgets: the state of the loop is p, n and the stream; it is left with the end
    of the line, or [None] for s = 0. *)
Definition fgets_round (loc s0 : Z) (t : Z * Z * st E)
  : (Z * Z * st E) + option (option Z * st E) :=
  let '(p, n, s) := t in
  if n =? 0 then inr (Some (Some p, s))
  else
    let '(stop, p, n, s) :=
      if rpos (sf s) =? rend (sf s) then (false, p, n, s)
      else
        let z := memchr (sm s) (rpos (sf s)) 10 (rend (sf s) - rpos (sf s)) in
        let k := match z with
                 | Some z => z - rpos (sf s) + 1
                 | None => rend (sf s) - rpos (sf s)
                 end in
        let k := Z.min k n in
        (match z with Some _ => true | None => n - k =? 0 end,
         p + k, n - k, take_bytes p k s) in
    if stop then inr (Some (Some p, s))
    else
      match getc_unlocked loc s with
      | None => inr None
      | Some (c, s) =>
          if c <? 0
          then inr (Some (if (p =? s0) || negb (has (sf s) F_EOF) then None else Some p, s))
          else
            let s := on_mem (fun m => m<{p := u8 c}>) s in
            if c =? 10 then inr (Some (Some (p + 1), s)) else inl (p + 1, n - 1, s)
      end.

Definition fgets (loc s0 n : Z) s : option (Z * st E) :=
  if n <=? 1 then
    let s := on_file touch s in
    if n <? 1 then Some (0, s) else Some (s0, on_mem (fun m => m<{s0 := 0}>) s)
  else
    let n := n - 1 in
    let? r := loop (fgets_round loc s0) (S (Z.to_nat n)) (s0, n, s) in
    let? (e, s) := r in
    match e with
    | None => Some (0, s)
    | Some p => Some (s0, on_mem (fun m => m<{p := 0}>) s)
    end.

Definition ungetc (c : Z) s : option (Z * st E) :=
  if c =? EOF then Some (c, s)
  else
    let? s := (if rpos (sf s) =? 0 then let? (_, s) := __toread s in Some s else Some s) in
    if (rpos (sf s) =? 0) || (rpos (sf s) <=? buf (sf s) - UNGET) then Some (EOF, s)
    else
      let s := on_file (fun f => with_r f (rpos f - 1) (rend f)) s in
      let s := on_mem (fun m => m<{rpos (sf s) := u8 c}>) s in
      Some (u8 c, on_file (fun f => clear f F_EOF) s).

(** *** Position *)

Definition __fseeko_unlocked (off whence : Z) s : option (Z * st E) :=
  if negb (whence =? SEEK_CUR) && negb (whence =? SEEK_SET) && negb (whence =? SEEK_END)
  then Some (-1, set_errno EINVAL s)
  else
    let off := if (whence =? SEEK_CUR) && negb (rend (sf s) =? 0)
               then s64 (off - (rend (sf s) - rpos (sf s))) else off in
    let? (bad, s) :=
      (if wpos (sf s) =? wbase (sf s) then Some (false, s)
       else let? (_, s) := f_write s 0 0 in Some (wpos (sf s) =? 0, s)) in
    if bad then Some (-1, s)
    else
      let s := on_file (fun f => with_w f 0 0 0) s in
      let '(r, s) := f_seek s off whence in
      if r <? 0 then Some (-1, s)
      else
        let s := on_file (fun f => with_r f 0 0) s in
        Some (0, on_file (fun f => clear f F_EOF) s).

Definition rewind s : option (st E) :=
  let? (_, s) := __fseeko_unlocked 0 SEEK_SET s in
  Some (on_file (fun f => clear f F_ERR) s).

Definition __ftello_unlocked s : Z * st E :=
  let '(pos, s) :=
    f_seek s 0 (if has (sf s) F_APP && negb (wpos (sf s) =? wbase (sf s))
                then SEEK_END else SEEK_CUR) in
  if pos <? 0 then (pos, s)
  else if negb (rend (sf s) =? 0) then (pos + (rpos (sf s) - rend (sf s)), s)
  else if negb (wbase (sf s) =? 0) then (pos + (wpos (sf s) - wbase (sf s)), s)
  else (pos, s).

(** *** Status and buffering *)

Definition feof (f : FILE) : Z := b2z (has f F_EOF).
Definition ferror (f : FILE) : Z := b2z (has f F_ERR).
Definition clearerr (f : FILE) : FILE := clear f (Z.lor F_EOF F_ERR).

Definition setvbuf (f : FILE) (b type size : Z) : Z * FILE :=
  let f := with_lbf f EOF in
  if type =? _IONBF then (0, raise (with_buf f (buf f) 0) F_SVB)
  else if (type =? _IOLBF) || (type =? _IOFBF) then
    let f := if negb (b =? 0) && (UNGET <=? size)
             then with_buf f (b + UNGET) (size - UNGET) else f in
    let f := if (type =? _IOLBF) && negb (buf_size f =? 0) then with_lbf f 10 else f in
    (0, raise f F_SVB)
  else (-1, f).

Definition BUFSIZ : Z := 1024.
Definition setbuf (f : FILE) (b : Z) : FILE :=
  snd (setvbuf f b (if b =? 0 then _IONBF else _IOFBF) BUFSIZ).
Definition setbuffer (f : FILE) (b size : Z) : FILE :=
  snd (setvbuf f b (if b =? 0 then _IONBF else _IOFBF) size).
Definition setlinebuf (f : FILE) : FILE := snd (setvbuf f 0 _IOLBF 0).

Definition __fwriting (f : FILE) : bool := has f F_NORD || negb (wend f =? 0).
Definition __freading (f : FILE) : bool := has f F_NOWR || negb (rend f =? 0).
Definition __freadable (f : FILE) : bool := negb (has f F_NORD).
Definition __fwritable (f : FILE) : bool := negb (has f F_NOWR).
Definition __flbf (f : FILE) : bool := 0 <=? lbf f.
Definition __fbufsize (f : FILE) : Z := buf_size f.
Definition __fpending (f : FILE) : Z := if wend f =? 0 then 0 else wpos f - wbase f.
Definition __fpurge (f : FILE) : FILE := with_r (with_w f 0 0 0) 0 0.
Definition __freadahead (f : FILE) : Z := if rend f =? 0 then 0 else rend f - rpos f.

(** close_file of __stdio_exit. *)
Definition close_file s : option (st E) :=
  let? s := (if wpos (sf s) =? wbase (sf s) then Some s
             else let? (_, s) := f_write s 0 0 in Some s) in
  Some (if rpos (sf s) =? rend (sf s) then s
        else snd (f_seek s (rpos (sf s) - rend (sf s)) SEEK_CUR)).
End Ops.

(** ** A file descriptor *)

(** The system calls on one descriptor: SYS_writev is given the bytes its
    vector gathers, SYS_readv and SYS_read the number of bytes asked for; they
    return -1 on an error, else the number of bytes written or the bytes read. *)
Class Kernel (K : Type) : Type := {
  sys_writev : K -> list Z -> Z * K;
  sys_readv : K -> Z -> option (list Z) * K;
  sys_lseek : K -> Z -> Z -> Z * K
}.

Section Descriptor.
Context {K : Type} `{Kernel K}.
Implicit Type s : st K.

Definition with_kernel s (k : K) : st K := mkst (sm s) (sf s) k (serr s).

(** The bytes of a vector of (base, length) pairs. *)
Definition gather (m : mem) (iov : list (Z * Z)) : list Z :=
  concat (map (fun v => bytes_at m (fst v) (Z.to_nat (snd v))) iov).

(** One round of the loop of __stdio_write; its state is the vector (iov and
    iovcnt), rem and the stream. *)
Definition stdio_write_round (len : Z) (t : list (Z * Z) * Z * st K)
  : (list (Z * Z) * Z * st K) + option (Z * st K) :=
  let '(iov, rem, s) := t in
  let '(cnt, k) := sys_writev (se s) (gather (sm s) iov) in
  let s := with_kernel s k in
  if cnt =? rem then
    inr (Some (len, on_file (fun f => with_w f (buf f + buf_size f) (buf f) (buf f)) s))
  else
    match iov with
    | [] => inr None
    | (base, n) :: iov' =>
        if cnt <? 0 then
          inr (Some (if Z.of_nat (length iov) =? 2 then 0 else len - n,
                     on_file (fun f => raise (with_w f 0 0 0) F_ERR) s))
        else
          let rem := rem - cnt in
          if n <? cnt then
            match iov' with
            | [] => inr None
            | (base', n') :: iov'' =>
                let cnt := cnt - n in
                inl ((base' + cnt, n' - cnt) :: iov'', rem, s)
            end
          else inl ((base + cnt, n - cnt) :: iov', rem, s)
    end.

Definition __stdio_write s (b len : Z) : option (Z * st K) :=
  let pending := wpos (sf s) - wbase (sf s) in
  let iov := [(wbase (sf s), pending); (b, len)] in
  let rem := pending + len in
  let iov := if pending =? 0 then tl iov else iov in
  let? r := loop (stdio_write_round len) (S (Z.to_nat rem)) (iov, rem, s) in r.

(** The bytes a readv delivers fill the first part of the vector, then the
    second. *)
Definition __stdio_read s (b len : Z) : option (Z * st K) :=
  let f := sf s in
  let n0 := u64 (len - b2z (negb (buf_size f =? 0))) in
  let '(r, k) := sys_readv (se s) (if n0 =? 0 then buf_size f else n0 + buf_size f) in
  let s := with_kernel s k in
  match r with
  | None => Some (0, on_file (fun f => raise f F_ERR) s)
  | Some d =>
      let cnt := Z.of_nat (length d) in
      let s := on_mem (fun m => upd_list (upd_list m b (firstn (Z.to_nat n0) d))
                                         (buf f) (skipn (Z.to_nat n0) d)) s in
      if cnt <=? 0 then Some (0, on_file (fun f => raise f F_EOF) s)
      else if cnt <=? n0 then Some (cnt, s)
      else
        let cnt := cnt - n0 in
        let s := on_file (fun f => with_r f (buf f) (buf f + cnt)) s in
        if buf_size f =? 0 then Some (len, s)
        else
          let s := on_mem (fun m => m<{b + len - 1 := m (rpos (sf s))}>) s in
          Some (len, on_file (fun f => with_r f (rpos f + 1) (rend f)) s)
  end.

Definition __stdio_seek s (off whence : Z) : Z * st K :=
  let '(r, k) := sys_lseek (se s) off whence in (r, with_kernel s k).

#[export] Instance fd_ops : FileOps K := {
  f_read := __stdio_read; f_write := __stdio_write; f_seek := __stdio_seek
}.
End Descriptor.

(** ** A string being printed to (vsnprintf) *)

Record cookie := mkcookie { c_s : Z; c_n : Z }.

(** if (k) { memcpy(c->s, p, k); c->s += k; c->n -= k; } *)
Definition sn_copy (s : st cookie) (p k : Z) : st cookie :=
  mkst (mcopy (sm s) (c_s (se s)) p k) (sf s)
       (mkcookie (c_s (se s) + k) (c_n (se s) - k)) (serr s).

Definition sn_write (s : st cookie) (p l : Z) : option (Z * st cookie) :=
  let s := sn_copy s (wbase (sf s)) (Z.min (c_n (se s)) (wpos (sf s) - wbase (sf s))) in
  let s := sn_copy s p (Z.min (c_n (se s)) l) in
  let s := on_mem (fun m => m<{c_s (se s) := 0}>) s in
  Some (l, on_file (fun f => with_w f (wend f) (buf f) (buf f)) s).

(** vsnprintf gives its FILE only a write function. *)
#[export] Instance sn_ops : FileOps cookie := {
  f_read := fun _ _ _ => None; f_write := sn_write; f_seek := fun s _ _ => (-1, s)
}.

(** ** A block of memory (fmemopen) *)

Record mcookie := mkmcookie { m_pos : Z; m_len : Z; m_size : Z; m_buf : Z; m_mode : Z }.

Definition with_pos (c : mcookie) (p : Z) : mcookie :=
  mkmcookie p (m_len c) (m_size c) (m_buf c) (m_mode c).
Definition on_cookie (g : mcookie -> mcookie) (s : st mcookie) : st mcookie :=
  mkst (sm s) (sf s) (g (se s)) (serr s).

Definition mseek (s : st mcookie) (off whence : Z) : Z * st mcookie :=
  let c := se s in
  if negb ((0 <=? whence) && (whence <=? 2)) then (-1, set_errno EINVAL s)
  else
    let base := if whence =? 0 then 0 else if whence =? 1 then m_pos c else m_len c in
    if (off <? - base) || (m_size c - base <? off) then (-1, set_errno EINVAL s)
    else (base + off, on_cookie (fun c => with_pos c (base + off)) s).

Definition mread (s : st mcookie) (b len : Z) : option (Z * st mcookie) :=
  let rem := if m_len (se s) <? m_pos (se s) then 0 else m_len (se s) - m_pos (se s) in
  let '(len, s) := if rem <? len then (rem, on_file (fun f => raise f F_EOF) s) else (len, s) in
  let s := on_mem (fun m => mcopy m b (m_buf (se s) + m_pos (se s)) len) s in
  let s := on_cookie (fun c => with_pos c (m_pos c + len)) s in
  let rem := Z.min (rem - len) (buf_size (sf s)) in
  let s := on_file (fun f => with_r f (buf f) (buf f + rem)) s in
  let s := on_mem (fun m => mcopy m (rpos (sf s)) (m_buf (se s) + m_pos (se s)) rem) s in
  Some (len, on_cookie (fun c => with_pos c (m_pos c + rem)) s).

(** mwrite when nothing is pending. *)
Definition mwrite_now (s : st mcookie) (b len : Z) : Z * st mcookie :=
  let s := if m_mode (se s) =? 97 then on_cookie (fun c => with_pos c (m_len c)) s else s in
  let c := se s in
  let len := Z.min len (m_size c - m_pos c) in
  let s := on_mem (fun m => mcopy m (m_buf c + m_pos c) b len) s in
  let s := on_cookie (fun c => with_pos c (m_pos c + len)) s in
  let c := se s in
  if m_len c <? m_pos c then
    let s := on_cookie (fun c => mkmcookie (m_pos c) (m_pos c) (m_size c) (m_buf c) (m_mode c)) s in
    let s :=
      if m_pos c <? m_size c then on_mem (fun m => m<{m_buf c + m_pos c := 0}>) s
      else if has (sf s) F_NORD && negb (m_size c =? 0)
           then on_mem (fun m => m<{m_buf c + m_size c - 1 := 0}>) s
           else s in
    (len, s)
  else (len, s).

Definition mwrite (s : st mcookie) (b len : Z) : option (Z * st mcookie) :=
  let len2 := wpos (sf s) - wbase (sf s) in
  if len2 =? 0 then Some (mwrite_now s b len)
  else
    let s := on_file (fun f => with_w f (wend f) (wbase f) (wbase f)) s in
    let '(k, s) := mwrite_now s (wpos (sf s)) len2 in
    if k <? len2 then Some (0, s) else Some (mwrite_now s b len).

#[export] Instance mem_ops : FileOps mcookie := {
  f_read := mread; f_write := mwrite; f_seek := mseek
}.

(** The FILE and the cookie that fmemopen makes for the mode string [md] and the
    caller's block [b] of [size] bytes; the FILE's buffer, with the room for
    ungetc before it, is at [f]. *)
Definition fmemopen (m : mem) (f b size : Z) (md : list Z) : option (st mcookie) :=
  let plus := existsb (Z.eqb 43) md in
  let c := nth 0 md 0 in
  if negb (existsb (Z.eqb c) [114; 119; 97; 0]) then None
  else
    let fl := if plus then 0 else if c =? 114 then F_NOWR else F_NORD in
    let n := strnlen m b size in
    let '(m, len, pos) :=
      if c =? 114 then (m, size, 0)
      else if c =? 97 then (m, n, n)
      else if plus then (m<{b := 0}>, 0, 0) else (m, 0, 0) in
    Some (mkst m (mkFILE fl 0 0 0 0 0 (f + UNGET) BUFSIZ 0 EOF)
               (mkmcookie pos len size b c) 0).
