(* ===== verification/StreamOut.v ===== *)
(** * StreamOut: what the output functions of Stdio do

    The interface [Sink] states what f->write promises: it delivers the bytes
    pending in the buffer and then the caller's, or fails having delivered a
    part.  __stdio_write on a descriptor whose system calls keep their
    documentation ([KernelOut]) and sn_write on a string keep the promise.
    Against the interface, the functions append to the text of the stream (what
    was delivered and what is pending): nothing is lost, doubled or reordered,
    line-buffered streams hold back no line, and an error leaves a prefix
    delivered and the error flag raised. *)

From Stdlib Require Import ZArith Lia ZifyBool List Bool.
From S2P Require Import Prelude MemCopy Strings Stdio.
Import ListNotations.
Open Scope Z_scope.

(** ** The interface *)

(** The bytes written to the stream and not handed to f->write. *)
Definition pending {E} (s : st E) : list Z :=
  bytes_at (sm s) (wbase (sf s)) (Z.to_nat (wpos (sf s) - wbase (sf s))).

(** The stream is in write mode. *)
Definition writing (f : FILE) : Prop :=
  wbase f = buf f /\ wend f = buf f + buf_size f /\ buf f <= wpos f <= wend f.

(** The FILE after f->write succeeds and after it fails. *)
Definition emptied (f : FILE) : FILE := with_w f (buf f + buf_size f) (buf f) (buf f).
Definition failed (f : FILE) : FILE := raise (with_w f 0 0 0) F_ERR.

Class Sink (E : Type) `{FileOps E} : Type := {
  (** what is behind the stream has been given these bytes *)
  received : st E -> list Z -> Prop;
  (** the memory it keeps them in *)
  owns : Z -> Prop;
  received_frame s s' r :
    received s r -> se s' = se s -> (forall x, owns x -> sm s' x = sm s x) -> received s' r;
  write_ok s b n r :
    wbase (sf s) <= wpos (sf s) ->
    (forall x, wbase (sf s) <= x < wpos (sf s) -> in_buffer (sf s) x) ->
    0 < buf (sf s) -> received s r -> 0 <= n ->
    (forall x, in_buffer (sf s) x \/ b <= x < b + n -> ~ owns x) ->
    let d := bytes_at (sm s) b (Z.to_nat n) in
    let t := pending s ++ d in
    exists k s', f_write s b n = Some (k, s') /\
      (forall x, ~ owns x -> sm s' x = sm s x) /\ serr s' = serr s /\
      (wf_mem (sm s) -> wf_mem (sm s')) /\
      ((k = n /\ received s' (r ++ t) /\
        exists e, sf s' = with_w (sf s) e (buf (sf s)) (buf (sf s)) /\
                  (writing (sf s) -> e = buf (sf s) + buf_size (sf s))) \/
       (sf s' = failed (sf s) /\
        exists j, (j <= length t)%nat /\ (t <> [] -> (j < length t)%nat) /\
          k = Z.max 0 (Z.of_nat j - Z.of_nat (length (pending s))) /\
          received s' (r ++ firstn j t)))
}.

(** ** A file descriptor keeps the promise *)

(** writev writes a prefix of what it is given, not nothing of something, or
    fails and writes nothing. *)
Class KernelOut (K : Type) `{Kernel K} : Type := {
  sunk : K -> list Z;
  writev_ok k d :
    let '(cnt, k') := sys_writev k d in
    cnt <= Z.of_nat (length d) /\ (d <> [] -> cnt <> 0) /\
    sunk k' = sunk k ++ firstn (Z.to_nat cnt) d
}.

Section Descriptor.
Context {K : Type} `{KernelOut K}.
Variables (s0 : st K) (b len : Z).
Let w := wbase (sf s0).
Let P := wpos (sf s0) - w.
Let t := pending s0 ++ bytes_at (sm s0) b (Z.to_nat len).
Hypothesis HP : 0 <= P.
Hypothesis Hlen : 0 <= len.

(** Of the text [j] bytes have been written; the vector holds the rest. *)
Definition sent (x : list (Z * Z) * Z * st K) (j : Z) : Prop :=
  let '(iov, rem, s) := x in
  0 <= j <= P + len /\ (0 < P + len -> j < P + len) /\ rem = P + len - j /\
  (iov = [(w + j, P - j); (b, len)] /\ j <= P \/
   iov = [(b + (j - P), len - (j - P))] /\ P <= j) /\
  sm s = sm s0 /\ sf s = sf s0 /\ serr s = serr s0 /\
  sunk (se s) = sunk (se s0) ++ firstn (Z.to_nat j) t.

Lemma text_length : Z.of_nat (length t) = P + len.
Proof. unfold t, pending. rewrite length_app, !bytes_at_length. fold w P. lia. Qed.

Lemma sent_gather iov rem s j :
  sent (iov, rem, s) j -> gather (sm s) iov = skipn (Z.to_nat j) t.
Proof.
  intros (Hj & _ & _ & Hiov & -> & _). unfold t, pending. fold w P.
  rewrite skipn_app, bytes_at_length.
  destruct Hiov as [[-> HjP]|[-> HjP]]; unfold gather; cbn [map concat fst snd].
  - rewrite app_nil_r, bytes_at_skipn by lia.
    replace (Z.to_nat j - Z.to_nat P)%nat with 0%nat by lia. cbn [skipn].
    replace (Z.to_nat (P - j)) with (Z.to_nat P - Z.to_nat j)%nat by lia.
    now rewrite Z2Nat.id by lia.
  - rewrite app_nil_r, (skipn_all2 (bytes_at _ _ _)) by (rewrite bytes_at_length; lia).
    rewrite bytes_at_skipn by lia. cbn [app].
    replace (Z.of_nat (Z.to_nat j - Z.to_nat P)) with (j - P) by lia.
    now replace (Z.to_nat (len - (j - P))) with (Z.to_nat len - (Z.to_nat j - Z.to_nat P))%nat by lia.
Qed.

Definition write_result (r : option (Z * st K)) : Prop :=
  exists k s', r = Some (k, s') /\ sm s' = sm s0 /\ serr s' = serr s0 /\
    ((k = len /\ sf s' = emptied (sf s0) /\ sunk (se s') = sunk (se s0) ++ t) \/
     (sf s' = failed (sf s0) /\
      exists j, (j <= length t)%nat /\ (t <> [] -> (j < length t)%nat) /\
        k = Z.max 0 (Z.of_nat j - P) /\ sunk (se s') = sunk (se s0) ++ firstn j t)).

(** What a round is given: the rest of the text, and a kernel that keeps its
    word about it. *)
Lemma round_writev iov rem s j cnt k :
  sent (iov, rem, s) j -> sys_writev (se s) (gather (sm s) iov) = (cnt, k) ->
  cnt <= rem /\ (rem <> 0 -> cnt <> 0) /\
  sunk k = sunk (se s0) ++ firstn (Z.to_nat j + Z.to_nat cnt) t.
Proof.
  intros HI E. rewrite (sent_gather _ _ _ _ HI) in E.
  pose proof (writev_ok (se s) (skipn (Z.to_nat j) t)) as HK. rewrite E in HK.
  destruct HI as (Hj & _ & Hrem & _ & _ & _ & _ & Hs). destruct HK as (Hc & Hnz & Hsk).
  pose proof text_length. rewrite length_skipn in Hc.
  split; [lia|]. split.
  - intros Hr. apply Hnz. intros Hnil. apply (f_equal (@length Z)) in Hnil.
    rewrite length_skipn in Hnil. cbn in Hnil. lia.
  - now rewrite Hsk, Hs, <- app_assoc, firstn_firstn_skipn.
Qed.

Lemma write_round x j :
  sent x j ->
  match stdio_write_round len x with
  | inl y => exists j', sent y j' /\ j < j'
  | inr r => write_result r
  end.
Proof.
  destruct x as [[iov rem] s]. intros HI. unfold stdio_write_round.
  destruct (sys_writev _ _) as [cnt k] eqn:E.
  destruct (round_writev _ _ _ _ _ _ HI E) as (Hc & Hnz & Hsk).
  pose proof text_length as Ht.
  destruct HI as (Hj & Hlt & Hrem & Hiov & Hsm & Hsf & Hse & Hs).
  destruct (Z.eqb_spec cnt rem) as [->|Hne].
  - exists len. eexists. split; [reflexivity|]. cbn [sm serr on_file with_kernel sf se].
    rewrite Hsf. split; [assumption|]. split; [assumption|]. left.
    split; [reflexivity|]. split; [reflexivity|]. rewrite Hsk. f_equal. apply firstn_all2. lia.
  - destruct Hiov as [[-> HjP]|[-> HjP]]; cbn [length].
    + destruct (Z.ltb_spec cnt 0).
      * eexists _, _. split; [reflexivity|]. cbn [sm serr on_file with_kernel sf se].
        rewrite Hsf. split; [assumption|]. split; [assumption|]. right. split; [reflexivity|].
        exists (Z.to_nat j). replace (Z.to_nat cnt) with 0%nat in Hsk by lia.
        rewrite Nat.add_0_r in Hsk. split; [lia|]. split; [|split; [|assumption]].
        -- intros Hnil. assert (length t <> 0%nat) by (now intros ?%length_zero_iff_nil). lia.
        -- replace (_ =? 2) with true by lia. lia.
      * destruct (Z.ltb_spec (P - j) cnt); exists (j + cnt); (split; [|lia]).
        -- repeat split; try assumption; try lia; cbn [se with_kernel].
           ++ right. split; [|lia]. f_equal. f_equal; lia.
           ++ rewrite Hsk. f_equal. f_equal. lia.
        -- repeat split; try assumption; try lia; cbn [se with_kernel].
           ++ left. split; [|lia]. f_equal. f_equal; lia.
           ++ rewrite Hsk. f_equal. f_equal. lia.
    + destruct (Z.ltb_spec cnt 0).
      * eexists _, _. split; [reflexivity|]. cbn [sm serr on_file with_kernel sf se].
        rewrite Hsf. split; [assumption|]. split; [assumption|]. right. split; [reflexivity|].
        exists (Z.to_nat j). replace (Z.to_nat cnt) with 0%nat in Hsk by lia.
        rewrite Nat.add_0_r in Hsk. split; [lia|]. split; [|split; [|assumption]].
        -- intros Hnil. assert (length t <> 0%nat) by (now intros ?%length_zero_iff_nil). lia.
        -- replace (_ =? 2) with false by lia. lia.
      * destruct (Z.ltb_spec (len - (j - P)) cnt); [lia|]. exists (j + cnt). split; [|lia].
        repeat split; try assumption; try lia; cbn [se with_kernel].
        -- right. split; [|lia]. f_equal. f_equal; lia.
        -- rewrite Hsk. f_equal. f_equal. lia.
Qed.

Lemma stdio_write_ok : write_result (__stdio_write s0 b len).
Proof.
  unfold __stdio_write. fold w P.
  set (iov := if P =? 0 then _ else _).
  destruct (loop_total (stdio_write_round len) (fun x => exists j, sent x j) write_result
              (fun x => Z.to_nat (snd (fst x)))) with (fuel := S (Z.to_nat (P + len)))
              (s := (iov, P + len, s0)) as (r & Hr & Hres).
  - intros x (j & HI). pose proof (write_round x j HI) as HR.
    destruct (stdio_write_round len x) as [y|r]; [|assumption].
    destruct HR as (j' & HI' & Hlt). split; [eauto|].
    destruct x as [[? ?] ?], y as [[? ?] ?]. cbn [fst snd] in *.
    destruct HI as (? & ? & -> & _), HI' as (? & ? & -> & _). lia.
  - exists 0. unfold sent. repeat split; try lia.
    + subst iov. rewrite Z.add_0_r, Z.sub_0_r. destruct (Z.eqb_spec P 0).
      * right. cbn [tl]. split; [|lia]. f_equal. f_equal; lia.
      * left. split; [reflexivity|lia].
    + cbn [firstn Z.to_nat]. now rewrite app_nil_r.
  - cbn [fst snd]. lia.
  - now rewrite Hr.
Qed.
End Descriptor.


#[export] Instance fd_sink {K} `{KernelOut K} : Sink K.
Proof.
  refine {| received := fun s r => sunk (se s) = r; owns := fun _ => False |}.
  - intros s s' r <- ->. reflexivity.
  - intros s b n r HW1 HW2 Hb Hr Hn _. cbn zeta.
    destruct (stdio_write_ok s b n) as (k & s' & Hw & Hm & He & Hres); [lia|lia|].
    exists k, s'. split; [exact Hw|]. split; [now rewrite Hm|]. split; [assumption|].
    split; [now rewrite Hm|].
    destruct Hres as [(? & ? & Hs)|(? & j & ? & ? & Hk & Hs)].
    { left. rewrite Hs, Hr. split; [assumption|]. split; [reflexivity|].
      exists (buf (sf s) + buf_size (sf s)). auto. }
    right. split; [assumption|]. exists j. repeat split; try assumption.
    + rewrite Hk. unfold pending. rewrite bytes_at_length. lia.
    + now rewrite Hs, Hr.
Defined.

(** ** A string keeps the promise

    vsnprintf with [N] bytes of room besides the terminator, at [D]: the string
    holds the first [N] bytes of what was delivered. *)
Section SnString.
Variables (D : Z) (N : nat).

Definition sn_holds (s : st cookie) (r : list Z) : Prop :=
  let k := Nat.min N (length r) in
  se s = mkcookie (D + Z.of_nat k) (Z.of_nat N - Z.of_nat k) /\
  bytes_at (sm s) D k = firstn N r.

Definition sn_owns (x : Z) : Prop := D <= x <= D + Z.of_nat N.

Lemma sn_copy_holds s r p l :
  sn_holds s r -> 0 <= l -> (forall x, p <= x < p + l -> ~ sn_owns x) ->
  forall s', s' = sn_copy s p (Z.min (c_n (se s)) l) ->
  sn_holds s' (r ++ bytes_at (sm s) p (Z.to_nat l)) /\
  sf s' = sf s /\ serr s' = serr s /\ forall x, ~ sn_owns x -> sm s' x = sm s x.
Proof.
  unfold sn_holds, sn_owns. set (k := Nat.min N (length r)).
  intros [He Hm] Hl Hp s' ->. unfold sn_copy. rewrite He. cbn [c_s c_n se sf sm serr].
  set (j := Nat.min (N - k) (Z.to_nat l)).
  replace (Z.min (Z.of_nat N - Z.of_nat k) l) with (Z.of_nat j) by lia.
  split; [split|].
  - rewrite length_app, bytes_at_length.
    replace (Nat.min N (length r + Z.to_nat l)) with (k + j)%nat by lia. f_equal; lia.
  - rewrite length_app, bytes_at_length.
    replace (Nat.min N (length r + Z.to_nat l)) with (k + j)%nat by lia.
    rewrite bytes_at_app, bytes_at_mcopy, firstn_app. f_equal.
    + rewrite <- Hm. apply bytes_at_ext. intros x Hx. apply mcopy_out. lia.
    + replace (N - length r)%nat with (N - k)%nat by lia. rewrite <- bytes_at_upto.
      now rewrite Nat.min_comm.
  - split; [reflexivity|]. split; [reflexivity|]. intros x Hx. apply mcopy_out. lia.
Qed.

Lemma sn_write_ok s b n r :
  wbase (sf s) <= wpos (sf s) ->
  (forall x, wbase (sf s) <= x < wpos (sf s) -> in_buffer (sf s) x) -> sn_holds s r -> 0 <= n ->
  (forall x, in_buffer (sf s) x \/ b <= x < b + n -> ~ sn_owns x) ->
  exists s', sn_write s b n = Some (n, s') /\
    (forall x, ~ sn_owns x -> sm s' x = sm s x) /\ serr s' = serr s /\
    (wf_mem (sm s) -> wf_mem (sm s')) /\
    sf s' = with_w (sf s) (wend (sf s)) (buf (sf s)) (buf (sf s)) /\
    sn_holds s' (r ++ pending s ++ bytes_at (sm s) b (Z.to_nat n)) /\
    sm s' (c_s (se s')) = 0.
Proof.
  intros HW1 HW2 Hr Hn Hout. unfold sn_write.
  set (l := wpos (sf s) - wbase (sf s)).
  set (s1 := sn_copy s _ _).
  destruct (sn_copy_holds s r (wbase (sf s)) l) with (s' := s1) as (H1 & Hf1 & He1 & Hm1);
    [assumption|lia| |reflexivity|].
  { intros x Hx. apply Hout. left. apply HW2. lia. }
  rewrite app_assoc. unfold pending. fold l. set (s2 := sn_copy s1 _ _).
  destruct (sn_copy_holds s1 _ b n H1) with (s' := s2) as (H2 & Hf2 & He2 & Hm2);
    [assumption| |reflexivity|].
  { intros x Hx. apply Hout. now right. }
  replace (bytes_at (sm s1) b (Z.to_nat n)) with (bytes_at (sm s) b (Z.to_nat n)) in H2.
  2: { apply bytes_at_ext. intros x Hx. symmetry. apply Hm1, Hout. right. lia. }
  eexists. split; [reflexivity|]. cbn [sm on_mem on_file serr sf se].
  destruct H2 as [HE HB].
  assert (HC : c_s (se s2) = D + Z.of_nat (Nat.min N (length (r ++ bytes_at (sm s) (wbase (sf s)) (Z.to_nat l) ++ bytes_at (sm s) b (Z.to_nat n))))).
  { rewrite HE, <- app_assoc. reflexivity. }
  split; [|split; [|split; [|split; [|split]]]].
  - intros x Hx. rewrite mset_ne; [now rewrite Hm2, Hm1|]. unfold sn_owns in Hx. lia.
  - now rewrite He2, He1.
  - intros Hwf. apply mset_wf; [|lia]. now apply mcopy_wf, mcopy_wf.
  - now rewrite Hf2, Hf1.
  - split; [exact HE|]. cbn [sm on_mem on_file]. rewrite <- HB. apply bytes_at_ext.
    intros x Hx. apply mset_ne. rewrite <- app_assoc in Hx. lia.
  - apply mset_eq.
Qed.

(** The string is also terminated. *)
Definition sn_received (s : st cookie) (r : list Z) : Prop :=
  sn_holds s r /\ sm s (c_s (se s)) = 0.

Definition sn_sink : Sink cookie.
Proof.
  refine {| received := sn_received; owns := sn_owns |}.
  - intros s s' r [[He Hm] H0] HE Hx.
    assert (HC : sm s' (c_s (se s')) = 0).
    { rewrite HE, Hx; [assumption|]. rewrite He. unfold sn_owns. cbn. lia. }
    split; [|assumption]. split; [now rewrite HE|].
    rewrite <- Hm. apply bytes_at_ext. intros x H. apply Hx. unfold sn_owns. lia.
  - intros s b n r HW1 HW2 _ [Hr _] Hn Hout. cbn zeta.
    destruct (sn_write_ok s b n r HW1 HW2 Hr Hn Hout) as (s' & Hw & Hm & He & Hwf & Hf & Hs & H0).
    exists n, s'. split; [assumption|]. split; [assumption|]. split; [assumption|].
    split; [assumption|]. left. split; [reflexivity|]. split; [now split|].
    exists (wend (sf s)). split; [assumption|]. now intros (_ & ? & _).
Defined.
End SnString.

(** ** The text of a stream *)

Section Output.
Context {E : Type} `{Sink E}.
Implicit Types (s : st E) (t : list Z).

(** Outside write mode there is nothing pending. *)
Definition idle (f : FILE) : Prop := wend f = 0 /\ wpos f = 0 /\ wbase f = 0.

(** A stream that can be written to.  A line-buffered one holds no newline. *)
Definition out_stream s : Prop :=
  0 < buf (sf s) /\ 0 <= buf_size (sf s) /\
  buf (sf s) + buf_size (sf s) < 2 ^ 63 /\
  (forall x, in_buffer (sf s) x -> ~ owns x) /\
  rpos (sf s) = rend (sf s) /\
  (lbf (sf s) = EOF \/ lbf (sf s) = 10 /\ ~ In 10 (pending s)) /\
  (idle (sf s) \/ writing (sf s)) /\ wf_mem (sm s).

(** What has been written to it: the bytes delivered and those pending. *)
Definition text s t : Prop := exists r, received s r /\ t = r ++ pending s.

(** A region the caller may print from. *)
Definition printable s (p l : Z) : Prop :=
  forall x, p <= x < p + l -> ~ owns x /\ ~ in_buffer (sf s) x.

(** What no output function changes. *)
Definition kept s s' : Prop :=
  (forall x, ~ owns x -> ~ in_buffer (sf s) x -> sm s' x = sm s x) /\
  serr s' = serr s /\ out_stream s' /\
  buf (sf s') = buf (sf s) /\ buf_size (sf s') = buf_size (sf s) /\ lbf (sf s') = lbf (sf s).

(** The text [t] has grown by [d]. *)
Definition grown s t (d : list Z) s' : Prop :=
  kept s s' /\ text s' (t ++ d) /\ flags (sf s') = flags (sf s).

(** Writing [d] after [t] failed: [j] bytes were delivered, the rest is lost. *)
Definition broken s t (d : list Z) (j : nat) s' : Prop :=
  kept s s' /\ received s' (firstn j (t ++ d)) /\ (j <= length (t ++ d))%nat /\
  idle (sf s') /\ flags (sf s') = Z.lor (flags (sf s)) F_ERR.

Lemma kept_trans s s1 s2 : kept s s1 -> kept s1 s2 -> kept s s2.
Proof.
  intros (Hm & He & Ho & Hb & Hz & Hl) (Hm' & He' & Ho' & Hb' & Hz' & Hl').
  split; [|repeat split; congruence || apply Ho'].
  intros x Hx Hi. rewrite Hm', Hm; auto. unfold in_buffer in *. now rewrite Hb, Hz.
Qed.

Lemma kept_printable s s' p l : kept s s' -> printable s p l -> printable s' p l.
Proof.
  intros (_ & _ & _ & Hb & Hz & _) Hp x Hx. unfold in_buffer. rewrite Hb, Hz. now apply Hp.
Qed.

Lemma kept_bytes s s' p l :
  kept s s' -> printable s p (Z.of_nat l) -> bytes_at (sm s') p l = bytes_at (sm s) p l.
Proof. intros (Hm & _) Hp. apply bytes_at_ext. intros x Hx. apply Hm; now apply Hp. Qed.

Lemma grown_trans s t d1 s1 d2 s2 :
  grown s t d1 s1 -> grown s1 (t ++ d1) d2 s2 -> grown s t (d1 ++ d2) s2.
Proof.
  intros (K1 & T1 & F1) (K2 & T2 & F2). split; [now apply (kept_trans s s1)|].
  rewrite app_assoc. split; [assumption|congruence].
Qed.

Lemma grown_broken s t d1 s1 d2 j s2 :
  grown s t d1 s1 -> broken s1 (t ++ d1) d2 j s2 -> broken s t (d1 ++ d2) j s2.
Proof.
  intros (K1 & T1 & F1) (K2 & R2 & L2 & I2 & F2).
  split; [now apply (kept_trans s s1)|]. rewrite app_assoc, <- F1. auto.
Qed.

Lemma pending_nil s : wpos (sf s) = wbase (sf s) -> pending s = [].
Proof. intros Hw. unfold pending. now rewrite Hw, Z.sub_diag. Qed.

Lemma idle_pending s : idle (sf s) -> pending s = [].
Proof. intros (_ & Hp & Hb). apply pending_nil. congruence. Qed.

Lemma idle_text s t : idle (sf s) -> text s t -> received s t.
Proof. intros Hi (r & Hr & ->). rewrite idle_pending, app_nil_r by assumption. assumption. Qed.

Lemma out_stream_step s s' :
  out_stream s -> buf (sf s') = buf (sf s) -> buf_size (sf s') = buf_size (sf s) ->
  lbf (sf s') = lbf (sf s) -> rpos (sf s') = rend (sf s') ->
  (lbf (sf s) = 10 -> ~ In 10 (pending s')) -> idle (sf s') \/ writing (sf s') ->
  wf_mem (sm s') -> out_stream s'.
Proof.
  intros (Hb & Hz & Hmax & Hown & _ & Hl & _) Eb Ez El Hr Hp HM Hwf.
  unfold out_stream, in_buffer. rewrite Eb, Ez, El.
  split; [assumption|]. split; [assumption|]. split; [assumption|]. split; [exact Hown|].
  split; [assumption|]. split; [tauto|]. split; assumption.
Qed.

(** f->write on a stream in write mode. *)
Lemma f_write_text s b n t :
  out_stream s -> writing (sf s) -> text s t -> 0 <= n ->
  (forall x, b <= x < b + n -> ~ owns x) ->
  let d := bytes_at (sm s) b (Z.to_nat n) in
  exists k s', f_write s b n = Some (k, s') /\
    ((k = n /\ grown s t d s' /\ received s' (t ++ d) /\ sf s' = emptied (sf s)) \/
     exists j, broken s t d j s' /\ k = Z.max 0 (Z.of_nat j - Z.of_nat (length t)) /\
               (pending s ++ d <> [] -> (j < length (t ++ d))%nat)).
Proof.
  intros HO HW (r & Hrec & ->) Hn Hout d.
  pose proof HO as (Hb & Hz & Hmax & Hown & Hr & Hl & _ & Hwf).
  destruct (write_ok s b n r) as (k & s' & Hw & Hm & He & Hwf' & Hres); try assumption.
  { destruct HW as (? & ? & ?). lia. }
  { intros x Hx. unfold in_buffer. destruct HW as (? & ? & ?). lia. }
  { intros x [Hx|Hx]; auto. }
  exists k, s'. split; [assumption|]. fold d in Hres.
  destruct Hres as [(-> & Hrec' & e & Hf & He')|(Hf & j & Hj & Hj' & Hk & Hrec')]; [left|right].
  - assert (HP : pending s' = []) by (apply pending_nil; now rewrite Hf).
    rewrite He' in Hf by assumption.
    split; [reflexivity|]. split; [|rewrite <- app_assoc; auto].
    split; [|split; [|now rewrite Hf]].
    + split; [auto|]. split; [assumption|].
      split; [|now rewrite Hf]. apply (out_stream_step s); rewrite ?Hf, ?HP; auto.
      right. unfold writing. cbn. lia.
    + exists (r ++ pending s ++ d). rewrite HP, app_nil_r, <- app_assoc. auto.
  - assert (HI : idle (sf s')) by (now rewrite Hf).
    exists (length r + j)%nat. split; [|split].
    + split; [|split; [|split; [|split; [assumption|now rewrite Hf]]]].
      * split; [auto|]. split; [assumption|]. split; [|now rewrite Hf].
        apply (out_stream_step s); rewrite ?(idle_pending s' HI); auto; now rewrite Hf.
      * rewrite <- app_assoc, firstn_app_2. assumption.
      * rewrite !length_app in *. lia.
    + rewrite !length_app. lia.
    + intros Hne. apply Hj' in Hne. rewrite !length_app in *. lia.
Qed.

(** f->write(f, 0, 0) in any mode. *)
Lemma f_write_flush s t :
  out_stream s -> text s t ->
  exists k s', f_write s 0 0 = Some (k, s') /\ serr s' = serr s /\ wf_mem (sm s') /\
    (forall x, ~ owns x -> sm s' x = sm s x) /\
    rpos (sf s') = rend (sf s') /\ lbf (sf s') = lbf (sf s) /\
    ((wpos (sf s') <> 0 /\ received s' t /\ flags (sf s') = flags (sf s)) \/
     (wpos (sf s') = 0 /\ flags (sf s') = Z.lor (flags (sf s)) F_ERR)).
Proof.
  intros (Hb & Hz & Hmax & Hown & Hr & Hl & HM & Hwf) (r & Hrec & ->).
  destruct (write_ok s 0 0 r) as (k & s' & Hw & Hm & He & Hwf' & Hres); try assumption; try lia.
  { destruct HM as [(? & ? & ?)|(? & ? & ?)]; lia. }
  { intros x Hx. unfold in_buffer. destruct HM as [(? & ? & ?)|(? & ? & ?)]; lia. }
  { intros x [Hx|Hx]; [auto|lia]. }
  exists k, s'. split; [assumption|]. split; [assumption|]. split; [auto|]. split; [assumption|].
  cbn [bytes_at Z.to_nat] in Hres. rewrite app_nil_r in Hres.
  destruct Hres as [(_ & Hrec' & e & Hf & _)|(Hf & _)]; rewrite Hf; cbn [with_w failed raise
    with_flags wpos flags rpos rend lbf]; (split; [assumption|]); (split; [reflexivity|]);
    [left|now right]. split; [lia|auto].
Qed.

(** Putting into the buffer what fits. *)
Lemma buffered s s' d t :
  out_stream s -> writing (sf s) -> text s t ->
  Z.of_nat (length d) <= wend (sf s) - wpos (sf s) ->
  (lbf (sf s) = 10 -> ~ In 10 d) ->
  sf s' = with_w (sf s) (wend (sf s)) (wpos (sf s) + Z.of_nat (length d)) (wbase (sf s)) ->
  se s' = se s -> serr s' = serr s -> wf_mem (sm s') ->
  (forall x, ~ wpos (sf s) <= x < wpos (sf s) + Z.of_nat (length d) -> sm s' x = sm s x) ->
  bytes_at (sm s') (wpos (sf s)) (length d) = d ->
  grown s t d s' /\ writing (sf s').
Proof.
  intros HO HW (r & Hrec & ->) Hfit Hnl Hf He Herr Hwf Hm Hd.
  pose proof HO as (Hb & Hz & Hmax & Hown & Hr & Hl & _). pose proof HW as (HW1 & HW2 & HW3).
  assert (HP : pending s' = pending s ++ d).
  { unfold pending. rewrite Hf. cbn [wpos wbase with_w].
    replace (Z.to_nat (wpos (sf s) + Z.of_nat (length d) - wbase (sf s)))
      with (Z.to_nat (wpos (sf s) - wbase (sf s)) + length d)%nat by lia.
    rewrite bytes_at_app. f_equal.
    - apply bytes_at_ext. intros x Hx. apply Hm. lia.
    - now replace (wbase (sf s) + Z.of_nat (Z.to_nat (wpos (sf s) - wbase (sf s))))
        with (wpos (sf s)) by lia. }
  assert (HW' : writing (sf s')) by (rewrite Hf; unfold writing; cbn; lia).
  split; [|assumption]. split; [|split; [|now rewrite Hf]].
  - split; [|split; [assumption|]].
    { intros x Hx Hi. apply Hm. unfold in_buffer in Hi. lia. }
    split; [|now rewrite Hf]. apply (out_stream_step s); try (now rewrite Hf); auto.
    rewrite HP, in_app_iff. intros Hl10 [?|?]; [|now apply Hnl].
    destruct Hl as [Hl|[_ Hl]]; [|now apply Hl]. rewrite Hl10 in Hl. discriminate.
  - exists r. rewrite HP, <- app_assoc. split; [|reflexivity].
    apply (received_frame s); [assumption|assumption|]. intros x Hx. apply Hm.
    intros Hx'. apply (Hown x); [|assumption]. unfold in_buffer. lia.
Qed.

Lemma buffer_text s p l t :
  out_stream s -> writing (sf s) -> text s t -> 0 <= l <= wend (sf s) - wpos (sf s) ->
  let d := bytes_at (sm s) p (Z.to_nat l) in
  (lbf (sf s) = 10 -> ~ In 10 d) -> grown s t d (buffer_bytes p l s).
Proof.
  intros HO HW HT Hl d Hnl.
  assert (Hd : Z.of_nat (length d) = l) by (unfold d; rewrite bytes_at_length; lia).
  apply (buffered s _ d); try assumption; try reflexivity; try lia.
  - unfold buffer_bytes. cbn. now rewrite Hd.
  - apply mcopy_wf. apply HO.
  - intros x Hx. unfold buffer_bytes. cbn. apply mcopy_out. lia.
  - unfold buffer_bytes. cbn. rewrite <- Hd, bytes_at_mcopy.
    unfold d. now rewrite bytes_at_length.
Qed.

Lemma put_text s c t :
  out_stream s -> writing (sf s) -> text s t -> wpos (sf s) <> wend (sf s) -> c <> lbf (sf s) ->
  0 <= c < 256 ->
  fst (put_byte c s) = c /\ grown s t [c] (snd (put_byte c s)).
Proof.
  intros HO HW HT Hne Hl Hc. split; [reflexivity|].
  pose proof HW as (HW1 & HW2 & HW3).
  apply (buffered s _ [c]); try assumption; try reflexivity; cbn [length In snd put_byte].
  - lia.
  - lia.
  - apply mset_wf; [apply HO|assumption].
  - intros x Hx. cbn. apply mset_ne. lia.
  - cbn. now rewrite mset_eq.
Qed.

(** Entering write mode; the wrong kind of stream reports an error. *)
Definition enter s : Z * st E := if wend (sf s) =? 0 then __towrite s else (0, s).

Lemma enter_ok s t :
  out_stream s -> text s t ->
  exists e s1, enter s = (e, s1) /\ sm s1 = sm s /\ lbf (sf s1) = lbf (sf s) /\
    kept s s1 /\
    ((e = 0 /\ text s1 t /\ flags (sf s1) = flags (sf s) /\ writing (sf s1)) \/
     (e <> 0 /\ forall d, broken s t d (length t) s1)).
Proof.
  intros HO HT. unfold enter. pose proof HO as (Hb & Hz & Hmax & Hown & Hr & Hl & HM & Hwf).
  destruct (Z.eqb_spec (wend (sf s)) 0) as [Hw|Hw].
  - assert (HI : idle (sf s)) by (destruct HM as [?|(? & ? & ?)]; [assumption|lia]).
    assert (HR := idle_text s t HI HT). assert (HP := idle_pending s HI).
    unfold __towrite. change (has (sf (on_file touch s)) F_NOWR) with (has (sf s) F_NOWR).
    destruct (has (sf s) F_NOWR); eexists _, _; (split; [reflexivity|]);
      (split; [reflexivity|]); (split; [reflexivity|]).
    + assert (HK : kept s (on_file (fun f => raise f F_ERR) (on_file touch s))).
      { split; [auto|]. split; [reflexivity|]. split; [|auto]. exact HO. }
      split; [assumption|]. right. split; [easy|]. intros d. split; [assumption|].
      rewrite firstn_app, Nat.sub_diag, firstn_all, app_nil_r, length_app.
      split; [|split; [lia|split; [exact HI|reflexivity]]].
      apply (received_frame s); auto.
    + set (s1 := on_file _ (on_file _ _)).
      assert (HP1 : pending s1 = []) by (apply pending_nil; reflexivity).
      assert (HW : writing (sf s1)) by (unfold writing; cbn; lia).
      split.
      { split; [auto|]. split; [reflexivity|]. split; [|auto].
        apply (out_stream_step s); rewrite ?HP1; auto. }
      left. split; [reflexivity|]. split; [|auto]. exists t.
      rewrite HP1, app_nil_r. split; [|reflexivity]. apply (received_frame s); auto.
  - exists 0, s. split; [reflexivity|]. split; [reflexivity|]. split; [reflexivity|].
    split; [split; auto|]. left. destruct HM as [[? _]|?]; [easy|]. auto.
Qed.

Lemma last_newline_spec (m : mem) p l :
  let i := last_newline m p l in
  0 <= i <= Z.of_nat l /\ ~ In 10 (bytes_at m (p + i) (l - Z.to_nat i)).
Proof.
  induction l as [|l IH]; [cbn; lia|]. cbn [last_newline].
  destruct (Z.eqb_spec (m (p + Z.of_nat l)) 10) as [|Hne].
  - split; [lia|]. rewrite Nat2Z.id, Nat.sub_diag. easy.
  - destruct IH as [Hi Hin]. set (i := last_newline m p l) in *. split; [lia|].
    replace (S l - Z.to_nat i)%nat with ((l - Z.to_nat i) + 1)%nat by lia.
    rewrite bytes_at_app, in_app_iff. cbn [bytes_at In].
    replace (p + i + Z.of_nat (l - Z.to_nat i)) with (p + Z.of_nat l) by lia.
    intros [?|[?|[]]]; [easy|]. congruence.
Qed.

Definition written s t d k s' : Prop :=
  (k = Z.of_nat (length d) /\ grown s t d s') \/
  (exists j, broken s t d j s' /\ k = Z.max 0 (Z.of_nat j - Z.of_nat (length t)) /\
             (d <> [] -> k < Z.of_nat (length d))).

Lemma writing_space (f : FILE) :
  writing f -> 0 <= buf_size f -> 0 < buf f -> buf f + buf_size f < 2 ^ 63 ->
  u64 (wend f - wpos f) = wend f - wpos f.
Proof. intros (? & ? & ?) ? ? ?. apply u64_small. lia. Qed.

(** Once in write mode. *)
Lemma fwritex_writing s p l t :
  out_stream s -> writing (sf s) -> text s t -> 0 <= l -> printable s p l ->
  exists k s', __fwritex p l s = Some (k, s') /\
    written s t (bytes_at (sm s) p (Z.to_nat l)) k s'.
Proof.
  intros HO HW HT Hl Hp. pose proof HO as (Hb & Hz & Hmax & _ & _ & Hlbf & _).
  set (d := bytes_at _ _ _).
  assert (Hd : Z.of_nat (length d) = l) by (unfold d; rewrite bytes_at_length; lia).
  unfold __fwritex. replace (wend (sf s) =? 0) with false
    by (destruct HW as (? & ? & ?); lia).
  cbn [negb Z.eqb]. replace (negb (0 =? 0)) with false by reflexivity.
  rewrite writing_space by assumption.
  destruct (Z.ltb_spec (wend (sf s) - wpos (sf s)) l).
  - destruct (f_write_text s p l t) as (k & s' & Hw & Hres); try assumption.
    { intros x Hx. now apply Hp. }
    fold d in Hres. exists k, s'. split; [assumption|].
    destruct Hres as [(-> & HG & _)|(j & HB & Hk & Hj)]; [left; auto|right].
    exists j. split; [assumption|]. split; [assumption|]. intros Hne.
    assert (pending s ++ d <> []) as Hne' by (intros [_ ?]%app_eq_nil; easy).
    apply Hj in Hne'. rewrite length_app in Hne'. destruct d; [easy|]. cbn [length] in *. lia.
  - set (i := if 0 <=? lbf (sf s) then _ else 0).
    assert (Hi : 0 <= i <= l /\
                 (lbf (sf s) = 10 -> ~ In 10 (bytes_at (sm s) (p + i) (Z.to_nat (l - i))))).
    { unfold i. destruct (Z.leb_spec 0 (lbf (sf s))).
      - destruct (last_newline_spec (sm s) p (Z.to_nat l)) as [Hr Hin].
        split; [lia|]. intros _. now rewrite Z2Nat.inj_sub by lia.
      - split; [lia|]. lia. }
    destruct Hi as [Hi Hnl]. clearbody i. destruct (Z.eqb_spec i 0) as [->|Hi0].
    + eexists _, _. split; [reflexivity|]. left. split; [lia|].
      rewrite Z.add_0_r, Z.sub_0_r in Hnl. apply buffer_text; assumption || lia.
    + destruct (f_write_text s p i t) as (k & s1 & Hw & Hres); try assumption; [lia| |].
      { intros x Hx. apply Hp. lia. }
      rewrite Hw. cbn [bind]. set (d1 := bytes_at (sm s) p (Z.to_nat i)) in *.
      set (d2 := bytes_at (sm s) (p + i) (Z.to_nat (l - i))) in *.
      assert (Hd12 : d = d1 ++ d2).
      { unfold d, d1, d2. replace (Z.to_nat l) with (Z.to_nat i + Z.to_nat (l - i))%nat by lia.
        rewrite bytes_at_app. now rewrite Z2Nat.id by lia. }
      assert (Hd1 : Z.of_nat (length d1) = i) by (unfold d1; rewrite bytes_at_length; lia).
      destruct Hres as [(-> & HG & Hrec & Hf)|(j & HB & Hk & Hj)].
      * rewrite Z.ltb_irrefl. eexists _, _. split; [reflexivity|]. left. split; [lia|].
        rewrite Hd12. apply (grown_trans s t d1 s1); [assumption|].
        destruct HG as (HK & HT1 & _).
        assert (Hsm : d2 = bytes_at (sm s1) (p + i) (Z.to_nat (l - i))).
        { symmetry. apply (kept_bytes s s1); [assumption|]. intros x Hx. apply Hp. lia. }
        rewrite Hsm in *. apply buffer_text.
        -- apply HK.
        -- rewrite Hf. unfold writing. cbn. lia.
        -- assumption.
        -- rewrite Hf. cbn. destruct HW as (? & ? & ?). lia.
        -- destruct HK as (_ & _ & _ & _ & _ & ->). assumption.
      * assert (Hlt : k < i).
        { assert (pending s ++ d1 <> []) as Hne.
          { intros [_ Hn]%app_eq_nil. rewrite Hn in Hd1. cbn in Hd1. lia. }
          apply Hj in Hne. rewrite length_app in Hne. lia. }
        replace (k <? i) with true by lia. eexists _, _. split; [reflexivity|]. right.
        exists j. split; [|split; [assumption|lia]].
        destruct HB as (HK & HR & HL & HI & HF).
        split; [assumption|]. rewrite length_app in *. rewrite Hd12, app_assoc, firstn_app.
        replace (j - length (t ++ d1))%nat with 0%nat by (rewrite length_app; lia).
        cbn [firstn]. rewrite app_nil_r, length_app. repeat split; try assumption; try lia.
        all: apply HI.
Qed.

(** The state the address of a local variable is written in. *)
Lemma scratch_text s t loc c :
  out_stream s -> text s t -> printable s loc 1 -> 0 <= c < 256 ->
  let s1 := on_mem (fun m => m<{loc := c}>) s in
  out_stream s1 /\ text s1 t /\ pending s1 = pending s.
Proof.
  intros HO (r & Hr & ->) Hp Hc s1.
  assert (HP : pending s1 = pending s).
  { apply bytes_at_ext. intros x Hx. apply mset_ne. intros ->.
    destruct HO as (Hb & Hz & _ & _ & _ & _ & [(? & ? & ?)|(? & ? & ?)] & _); [lia|].
    apply (Hp loc); unfold in_buffer; lia. }
  split; [|split; [|assumption]].
  - apply (out_stream_step s); try reflexivity; try apply HO.
    + rewrite HP. intros Hl Hin. destruct HO as (_ & _ & _ & _ & _ & [Hl'|[_ Hl']] & _);
        [rewrite Hl in Hl'; discriminate|now apply Hl'].
    + apply mset_wf; [apply HO|assumption].
  - exists r. rewrite HP. split; [|reflexivity]. apply (received_frame s); auto.
    intros x Hx. apply mset_ne. intros ->. destruct (Hp loc) as [Hno _]; [lia|easy].
Qed.

(** The same for a run of bytes. *)
Lemma scratch_list s t loc d :
  out_stream s -> text s t -> printable s loc (Z.of_nat (length d)) ->
  Forall (fun b => 0 <= b < 256) d ->
  let s1 := on_mem (fun m => upd_list m loc d) s in
  out_stream s1 /\ text s1 t /\ pending s1 = pending s.
Proof.
  intros HO (r & Hr & ->) Hp Hd s1.
  assert (HP : pending s1 = pending s).
  { apply bytes_at_ext. intros x Hx. apply upd_list_out. intros Hx'.
    destruct (Hp x Hx') as [_ Hno]. apply Hno.
    destruct HO as (Hb & Hz & _ & _ & _ & _ & [(? & ? & ?)|(? & ? & ?)] & _);
      unfold in_buffer; cbn in Hx; lia. }
  split; [|split; [|assumption]].
  - apply (out_stream_step s); try reflexivity; try apply HO.
    + rewrite HP. intros Hl Hin. destruct HO as (_ & _ & _ & _ & _ & [Hl'|[_ Hl']] & _);
        [rewrite Hl in Hl'; discriminate|now apply Hl'].
    + apply upd_list_wf; [apply HO|assumption].
  - exists r. rewrite HP. split; [|reflexivity]. apply (received_frame s); auto.
    intros x Hx. apply upd_list_out. intros Hx'. destruct (Hp x Hx') as [Hno _]. easy.
Qed.

Lemma enter_fwritex p l s s1 :
  enter s = (0, s1) -> wend (sf s1) <> 0 -> __fwritex p l s = __fwritex p l s1.
Proof.
  unfold enter, __fwritex. intros -> Hne. now replace (wend (sf s1) =? 0) with false by lia.
Qed.

Lemma fwritex_ok s p l t :
  out_stream s -> text s t -> 0 <= l -> printable s p l ->
  exists k s', __fwritex p l s = Some (k, s') /\
    written s t (bytes_at (sm s) p (Z.to_nat l)) k s'.
Proof.
  intros HO HT Hl Hp. destruct (enter_ok s t HO HT) as (e & s1 & HE & Hsm & _ & HK & Hcase).
  destruct Hcase as [(-> & HT1 & HF & HW)|(He & HB)].
  - rewrite (enter_fwritex p l s s1 HE) by (destruct HW as (? & ? & ?), HK as (_ & _ & (? & _) & _); lia).
    destruct (fwritex_writing s1 p l t) as (k & s' & Hw & Hres); try assumption; [apply HK| |].
    { now apply (kept_printable s). }
    exists k, s'. split; [assumption|]. rewrite Hsm in Hres.
    set (d := bytes_at _ _ _) in *.
    assert (HG : grown s t [] s1) by (split; [assumption|]; now rewrite app_nil_r).
    destruct Hres as [[Hk HG']|(j & HB' & Hk)]; [left|right; exists j];
      (split; [assumption || idtac|]); try assumption.
    + apply (grown_trans s t [] s1 d); [assumption|]. now rewrite app_nil_r.
    + apply (grown_broken s t [] s1 d); [assumption|]. now rewrite app_nil_r.
  - exists 0, s1. split; [|right; exists (length t)].
    + unfold __fwritex. unfold enter in HE. rewrite HE.
      now replace (negb (e =? 0)) with true by lia.
    + split; [apply HB|]. split; [lia|]. intros Hd.
      destruct (bytes_at _ _ _); [easy|]. cbn [length]. lia.
Qed.

(** What a byte put into a stream does: it is appended, or EOF is returned. *)
Definition byte_put s t c (r : option (Z * st E)) : Prop :=
  exists k s', r = Some (k, s') /\
    ((k = c /\ grown s t [c] s') \/ (k = EOF /\ exists j, broken s t [c] j s')).

Lemma byte_put_after s s1 t c r :
  grown s t [] s1 -> byte_put s1 t c r -> byte_put s t c r.
Proof.
  intros HG (k & s' & -> & HC). exists k, s'. split; [reflexivity|].
  destruct HC as [[-> HG']|[-> [j HB]]]; [left|right; split; [reflexivity|]; exists j].
  - split; [reflexivity|]. apply (grown_trans s t [] s1); [assumption|]. now rewrite app_nil_r.
  - apply (grown_broken s t [] s1); [assumption|]. now rewrite app_nil_r.
Qed.

Lemma f_write_byte s loc c t :
  out_stream s -> writing (sf s) -> text s t -> ~ owns loc -> sm s loc = c ->
  byte_put s t c (let? (n, s) := f_write s loc 1 in
                  if negb (n =? 1) then Some (EOF, s) else Some (c, s)).
Proof.
  intros HO HW HT Hown Hc.
  destruct (f_write_text s loc 1 t HO HW HT) as (k & s' & Hw & Hres); [lia| |].
  { intros x Hx. now replace x with loc by lia. }
  change (bytes_at (sm s) loc (Z.to_nat 1)) with [sm s loc] in Hres. rewrite Hc in Hres.
  rewrite Hw. cbn [bind]. destruct Hres as [(-> & HG & _)|(j & HB & Hk & Hj)].
  - exists c, s'. split; [reflexivity|]. now left.
  - assert (Hne : pending s ++ [c] <> []) by (intros [_ ?]%app_eq_nil; easy).
    apply Hj in Hne. rewrite length_app in Hne. cbn [length] in Hne.
    replace (negb (k =? 1)) with true by lia. exists EOF, s'. split; [reflexivity|].
    right. split; [reflexivity|]. now exists j.
Qed.

Lemma overflow_ok s loc c t :
  out_stream s -> text s t -> printable s loc 1 -> 0 <= c < 256 ->
  byte_put (on_mem (fun m => m<{loc := c}>) s) t c (__overflow loc c s).
Proof.
  intros HO HT Hp Hc. unfold __overflow. rewrite (u8_small c) by assumption.
  set (s1 := on_mem _ s).
  destruct (scratch_text s t loc c HO HT Hp Hc) as (HO1 & HT1 & _). fold s1 in HO1, HT1.
  destruct (enter_ok s1 t HO1 HT1) as (e & s2 & HE & Hsm & _ & HK & Hcase).
  unfold enter in HE. rewrite HE.
  destruct Hcase as [(-> & HT2 & HF & HW)|(He & HB)].
  - apply (byte_put_after s1 s2); [split; [assumption|]; now rewrite app_nil_r|].
    change (negb (0 =? 0)) with false. cbv iota.
    destruct (negb (wpos (sf s2) =? wend (sf s2)) && negb (c =? lbf (sf s2))) eqn:Efit.
    + exists c, (snd (put_byte c s2)). split; [reflexivity|]. left.
      apply put_text; try assumption; try lia. apply HK.
    + apply f_write_byte; try assumption; [apply HK|apply (Hp loc); lia|].
      rewrite Hsm. apply mset_eq.
  - replace (negb (e =? 0)) with true by lia. exists EOF, s2. split; [reflexivity|].
    right. split; [reflexivity|]. exists (length t). apply HB.
Qed.

(** putc: [loc] is written when the byte does not just go to the buffer. *)
Lemma putc_ok s loc c t :
  out_stream s -> text s t -> printable s loc 1 ->
  exists s1, (s1 = s \/ s1 = on_mem (fun m => m<{loc := u8 c}>) s) /\
    byte_put s1 t (u8 c) (putc_unlocked loc c s).
Proof.
  intros HO HT Hp. unfold putc_unlocked.
  destruct (negb (u8 c =? lbf (sf s)) && negb (wpos (sf s) =? wend (sf s))) eqn:Efit.
  - exists s. split; [now left|]. exists (u8 c), (snd (put_byte (u8 c) s)).
    split; [reflexivity|]. left. apply put_text; try assumption; try lia.
    + destruct HO as (_ & _ & _ & _ & _ & _ & [(? & ? & ?)|?] & _); [lia|assumption].
    + apply u8_range.
  - eexists. split; [now right|]. apply overflow_ok; auto. apply u8_range.
Qed.

Lemma has_raise (f : FILE) : has (raise f F_ERR) F_ERR = true.
Proof.
  unfold has, raise, F_ERR. cbn [flags with_flags].
  change 32 with (2 ^ 5). rewrite land_bit by lia.
  now rewrite Z.lor_spec, Z.pow2_bits_true, orb_true_r by lia.
Qed.

Lemma broken_err s t d j s' : broken s t d j s' -> has (sf s') F_ERR = true.
Proof. intros (_ & _ & _ & _ & HF). unfold has. rewrite HF. apply has_raise. Qed.

Lemma broken_nil s t j s' : broken s t [] j s' -> received s' (firstn j t).
Proof. intros (_ & HR & _). now rewrite app_nil_r in HR. Qed.

(** fflush: what is pending is delivered, or the stream is broken. *)
Definition flushed s t (ok : bool) s' : Prop :=
  if ok then kept s s' /\ received s' t /\ idle (sf s') /\ flags (sf s') = flags (sf s)
  else exists j, broken s t [] j s'.

Lemma flush_pending s t :
  out_stream s -> text s t ->
  exists s', (if wpos (sf s) =? wbase (sf s) then Some (false, s)
              else let? (_, s) := f_write s 0 0 in Some (wpos (sf s) =? 0, s))
             = Some (false, s') /\ kept s s' /\ received s' t /\ text s' t /\
               wpos (sf s') = wbase (sf s') /\ flags (sf s') = flags (sf s) \/
             (if wpos (sf s) =? wbase (sf s) then Some (false, s)
              else let? (_, s) := f_write s 0 0 in Some (wpos (sf s) =? 0, s))
             = Some (true, s') /\ exists j, broken s t [] j s'.
Proof.
  intros HO HT. destruct (Z.eqb_spec (wpos (sf s)) (wbase (sf s))) as [Hw|Hw].
  - exists s. left. destruct HT as (r & Hr & ->). rewrite pending_nil, app_nil_r in * by assumption.
    repeat split; auto; try apply HO. exists r. now rewrite pending_nil, app_nil_r.
  - assert (HW : writing (sf s)).
    { destruct HO as (_ & _ & _ & _ & _ & _ & [(? & ? & ?)|?] & _); [lia|assumption]. }
    destruct (f_write_text s 0 0 t HO HW HT) as (k & s' & Hwr & Hres); [lia|lia|].
    rewrite Hwr. cbn [bind]. cbn [bytes_at Z.to_nat] in Hres. rewrite app_nil_r in Hres.
    exists s'. destruct Hres as [(-> & (HK & HT' & HF) & HR & Hf)|(j & HB & _)].
    + left. rewrite app_nil_r in HT'. rewrite Hf at 1. cbn [emptied with_w wpos].
      replace (buf (sf s) =? 0) with false by (destruct HO; lia).
      repeat split; try assumption; try apply HK. now rewrite Hf.
    + right. assert (HI : idle (sf s')) by apply HB. destruct HI as (_ & -> & _).
      split; [reflexivity|]. now exists j.
Qed.

Lemma fflush_ok s t :
  out_stream s -> text s t ->
  exists r s', fflush s = Some (r, s') /\
    ((r = 0 /\ flushed s t true s') \/ (r = EOF /\ flushed s t false s')).
Proof.
  intros HO HT. unfold fflush.
  destruct (flush_pending s t HO HT) as (s1 & [(-> & HK & HR & HT1 & Hw & HF)|(-> & HB)]);
    cbn [bind].
  - pose proof HK as (_ & _ & (Hb & Hz & Hmax & Hown & Hr & Hl & _) & _).
    replace (rpos (sf s1) =? rend (sf s1)) with true by lia.
    eexists _, _. split; [reflexivity|]. left. split; [reflexivity|].
    set (s' := on_file _ s1).
    assert (HP : pending s' = []) by (apply pending_nil; reflexivity).
    split; [|split; [apply (received_frame s1); auto|now split]].
    apply (kept_trans s s1); [assumption|]. split; [auto|]. split; [reflexivity|].
    split; [|auto]. apply (out_stream_step s1); rewrite ?HP; auto; [apply HK|now left|apply HK].
  - exists EOF, s1. split; [reflexivity|]. now right.
Qed.

(** At exit. *)
Lemma close_file_ok s t :
  out_stream s -> text s t ->
  exists s', close_file s = Some s' /\ (received s' t \/ has (sf s') F_ERR = true).
Proof.
  intros HO HT. unfold close_file. destruct (flush_pending s t HO HT) as (s1 & HC).
  destruct (Z.eqb_spec (wpos (sf s)) (wbase (sf s))) as [Hw|Hw]; cbn [bind].
  - pose proof HO as (_ & _ & _ & _ & Hr & _). replace (rpos (sf s) =? rend (sf s)) with true by lia.
    destruct HC as [(HE & _ & HR & _)|(HE & _)]; [|discriminate].
    injection HE as <-. exists s. auto.
  - destruct (f_write s 0 0) as [[k s2]|]; [|destruct HC as [(HE & _)|(HE & _)]; discriminate].
    cbn [bind] in *.
    assert (HK : kept s s1) by (destruct HC as [(_ & HK & _)|(_ & j & HK & _)]; assumption).
    pose proof HK as (_ & _ & (_ & _ & _ & _ & Hr & _) & _).
    destruct HC as [(HE & _ & HR & _)|(HE & j & HB)]; injection HE as _ ->;
      replace (rpos (sf s1) =? rend (sf s1)) with true by lia; exists s1; split; auto.
    right. now apply (broken_err s t [] j).
Qed.

(** fwrite on any stream whose write function keeps the promise of [Sink]:
    all items are accepted and the text of the stream grows by exactly their
    bytes (held in the buffer or delivered; a line-buffered stream holds no
    newline back and an unbuffered one nothing, by [out_stream]), or the error
    flag is raised, a proper prefix was delivered and fewer items are reported. *)
Theorem fwrite_correct s t src size nmemb :
  out_stream s -> text s t -> 0 <= size -> 0 <= nmemb -> size * nmemb < 2 ^ 64 ->
  printable s src (size * nmemb) ->
  let d := bytes_at (sm s) src (Z.to_nat (size * nmemb)) in
  exists n s', fwrite src size nmemb s = Some (n, s') /\
    ((n = (if size =? 0 then 0 else nmemb) /\ grown s t d s') \/
     (exists j, broken s t d j s' /\
        n = Z.max 0 (Z.of_nat j - Z.of_nat (length t)) / size /\
        (0 < size * nmemb -> n < nmemb))).
Proof.
  intros HO HT Hs Hn Hmax Hp d. unfold fwrite. rewrite u64_small by lia.
  destruct (fwritex_ok s src (size * nmemb) t HO HT) as (k & s' & Hw & Hres); [lia|assumption|].
  fold d in Hres. rewrite Hw. cbn [bind].
  assert (Hd : Z.of_nat (length d) = size * nmemb) by (unfold d; rewrite bytes_at_length; lia).
  eexists _, _. split; [reflexivity|].
  destruct Hres as [[Hk HG]|(j & HB & Hk & Hlt)].
  - left. replace (k =? size * nmemb) with true by lia. now split.
  - destruct (Z.eq_dec (size * nmemb) 0) as [H0'|H0'].
    + right. exists j. split; [assumption|].
      assert (Hk0 : k = 0).
      { destruct HB as (_ & _ & HL & _). rewrite length_app in HL. lia. }
      rewrite <- Hk, Hk0, H0', Z.eqb_refl. split; [|lia].
      destruct (Z.eqb_spec size 0); [now subst size|]. rewrite Z.div_0_l by lia. nia.
    + right. exists j. split; [assumption|].
      assert (Hlt' : k < size * nmemb) by (rewrite <- Hd; apply Hlt; intros Hnil; rewrite Hnil in Hd; cbn in Hd; lia).
      replace (k =? size * nmemb) with false by lia. rewrite <- Hk. split; [reflexivity|].
      intros _. apply Z.div_lt_upper_bound; nia.
Qed.

(** ** A program's output *)

(** The output calls of a program.  [loc] is where putc keeps its byte. *)
Inductive output : Type :=
| Fwrite (src size nmemb : Z)
| Fputs (p : Z) (l : list Z)
| Fputc (c : Z)
| Fflush.

Definition call (fuel : nat) (loc : Z) (o : output) s : option (Z * st E) :=
  match o with
  | Fwrite src size nmemb => fwrite src size nmemb s
  | Fputs p _ => fputs fuel p s
  | Fputc c => putc_unlocked loc c s
  | Fflush => fflush s
  end.

Fixpoint calls (fuel : nat) (loc : Z) (os : list output) s : option (st E) :=
  match os with
  | [] => Some s
  | o :: os => let? (_, s) := call fuel loc o s in calls fuel loc os s
  end.

(** The bytes a call prints and its precondition: it prints from memory that is
    neither the stream's nor [loc]; what Fputs prints is the string [l]. *)
Definition prints (m : mem) (o : output) : list Z :=
  match o with
  | Fwrite src size nmemb => bytes_at m src (Z.to_nat (size * nmemb))
  | Fputs p l => l
  | Fputc c => [u8 c]
  | Fflush => []
  end.

Definition source (o : output) : Z * Z :=
  match o with
  | Fwrite src size nmemb => (src, size * nmemb)
  | Fputs p l => (p, Z.of_nat (length l) + 1)
  | _ => (0, 0)
  end.

Definition may_call (fuel : nat) (loc : Z) s (o : output) : Prop :=
  printable s (fst (source o)) (snd (source o)) /\
  (forall x, fst (source o) <= x < fst (source o) + snd (source o) -> x <> loc) /\
  match o with
  | Fwrite src size nmemb => 0 <= size /\ 0 <= nmemb /\ size * nmemb < 2 ^ 64
  | Fputs p l => cstr (sm s) p l /\ (length l < fuel)%nat /\ Z.of_nat (length l) < 2 ^ 64
  | _ => True
  end.

(** [s'] comes from [s] by output calls: its text has grown by [d], or its error
    flag is up. *)
Definition printed (loc : Z) s t (d : list Z) s' : Prop :=
  (forall x, ~ owns x -> ~ in_buffer (sf s) x -> x <> loc -> sm s' x = sm s x) /\
  out_stream s' /\ buf (sf s') = buf (sf s) /\ buf_size (sf s') = buf_size (sf s) /\
  (exists t', text s' t') /\
  (has (sf s) F_ERR = true -> has (sf s') F_ERR = true) /\
  (has (sf s') F_ERR = true \/ text s' (t ++ d)).

Lemma grown_printed loc s t d s' : grown s t d s' -> printed loc s t d s'.
Proof.
  intros ((Hm & _ & HO & Hb & Hz & _) & HT & HF).
  split; [auto|]. split; [assumption|]. split; [assumption|]. split; [assumption|].
  split; [eauto|]. unfold has. rewrite HF. auto.
Qed.

Lemma broken_printed loc s t d j s' : broken s t d j s' -> printed loc s t d s'.
Proof.
  intros HB. pose proof (broken_err _ _ _ _ _ HB) as HE.
  destruct HB as ((Hm & _ & HO & Hb & Hz & _) & HR & _ & HI & HF).
  split; [auto|]. split; [assumption|]. split; [assumption|]. split; [assumption|].
  split; [|auto]. exists (firstn j (t ++ d)), (firstn j (t ++ d)).
  rewrite idle_pending, app_nil_r by assumption. auto.
Qed.

Lemma scratch_printed loc c s t d s' :
  printed loc (on_mem (fun m => m<{loc := c}>) s) t d s' -> printed loc s t d s'.
Proof.
  intros (Hm & HR). split; [|assumption]. intros x Hx Hi Hl.
  rewrite Hm by assumption. now apply mset_ne.
Qed.

Lemma printed_trans loc s t d1 s1 d2 s2 :
  printed loc s t d1 s1 -> (forall t1, text s1 t1 -> printed loc s1 t1 d2 s2) ->
  printed loc s t (d1 ++ d2) s2.
Proof.
  intros (Hm & HO & Hb & Hz & (t1 & HT1) & He & HT) H2.
  destruct (H2 t1 HT1) as (Hm' & HO' & Hb' & Hz' & HT' & He' & _).
  split; [|split; [assumption|split; [congruence|split; [congruence|split; [assumption|]]]]].
  - intros x Hx Hi Hl. rewrite Hm', Hm; auto. unfold in_buffer in *. now rewrite Hb, Hz.
  - split; [auto|]. destruct HT as [HT|HT]; [auto|].
    rewrite app_assoc. apply (H2 _ HT).
Qed.

Lemma bytes_at_cstr (m : mem) p l : cstr m p l -> bytes_at m p (length l) = l.
Proof.
  revert p; induction l as [|b l IH]; intros p Hc; [reflexivity|]. cbn in *.
  destruct Hc as (-> & _ & Hc). now rewrite IH.
Qed.

Lemma fputs_ok fuel s p l t :
  out_stream s -> text s t -> cstr (sm s) p l -> (length l < fuel)%nat ->
  Z.of_nat (length l) < 2 ^ 64 -> printable s p (Z.of_nat (length l)) ->
  exists r s', fputs fuel p s = Some (r, s') /\
    ((r = 0 /\ grown s t l s') \/
     exists j, broken s t l j s' /\ (l <> [] -> r = -1)).
Proof.
  intros HO HT Hc Hf Hmax Hp. unfold fputs.
  rewrite (strlen_cstr (sm s) p l fuel) by (assumption || apply HO). cbn [bind].
  set (n := Z.of_nat (length l)).
  unfold fwrite. rewrite Z.mul_1_l, u64_small by lia. cbn [Z.eqb].
  destruct (fwritex_ok s p n t HO HT) as (k & s' & Hw & Hres); [lia|assumption|].
  rewrite Hw. cbn [bind]. unfold n in Hres. rewrite Nat2Z.id, bytes_at_cstr in Hres by assumption.
  eexists _, _. split; [reflexivity|]. destruct Hres as [[Hk HG]|(j & HB & Hk & Hlt)].
  - left. split; [|assumption]. replace (k =? n) with true by lia.
    replace (1 =? 0) with false by lia. now rewrite Z.eqb_refl.
  - right. exists j. split; [assumption|]. intros Hne. apply Hlt in Hne.
    replace (k =? n) with false by lia. rewrite Z.div_1_r. now replace (k =? n) with false by lia.
Qed.

Lemma call_ok fuel loc o s t :
  out_stream s -> text s t -> printable s loc 1 -> may_call fuel loc s o ->
  exists r s', call fuel loc o s = Some (r, s') /\ printed loc s t (prints (sm s) o) s'.
Proof.
  intros HO HT Hloc (Hp & _ & Hpre). destruct o as [src size nmemb|p l|c|]; cbn in *.
  - destruct (fwritex_ok s src (size * nmemb) t HO HT) as (k & s' & Hw & Hres);
      [lia|assumption|].
    unfold fwrite. rewrite u64_small, Hw by lia. cbn [bind]. eexists _, _. split; [reflexivity|].
    destruct Hres as [[_ HG]|(j & HB & _)];
      [now apply grown_printed|now apply (broken_printed _ _ _ _ j)].
  - destruct Hpre as (Hc & Hf & Hmax).
    destruct (fputs_ok fuel s p l t) as (r & s' & Hr & HC); try assumption.
    { intros x Hx. apply Hp. lia. }
    exists r, s'. split; [assumption|].
    destruct HC as [[_ HG]|(j & HB & _)];
      [now apply grown_printed|now apply (broken_printed _ _ _ _ j)].
  - destruct (putc_ok s loc c t HO HT Hloc) as (s1 & Hs1 & k & s' & Hr & HC).
    exists k, s'. split; [assumption|].
    assert (HP : printed loc s1 t [u8 c] s').
    { destruct HC as [[_ HG]|(_ & j & HB)];
        [now apply grown_printed|now apply (broken_printed _ _ _ _ j)]. }
    destruct Hs1 as [->| ->]; [assumption|]. now apply scratch_printed in HP.
  - destruct (fflush_ok s t HO HT) as (r & s' & Hr & HC). exists r, s'. split; [assumption|].
    destruct HC as [[_ (HK & HR & HI & HF)]|[_ (j & HB)]].
    + apply grown_printed. split; [assumption|]. rewrite app_nil_r. split; [|assumption].
      exists t. now rewrite idle_pending, app_nil_r.
    + now apply (broken_printed _ _ _ _ j).
Qed.
Lemma may_call_printed fuel loc s t d s' o :
  printed loc s t d s' -> may_call fuel loc s o ->
  may_call fuel loc s' o /\ prints (sm s') o = prints (sm s) o.
Proof.
  intros (Hm & _ & Hb & Hz & _) (Hp & Hl & Hpre).
  assert (Hsame : forall x, fst (source o) <= x < fst (source o) + snd (source o) ->
                            sm s' x = sm s x).
  { intros x Hx. apply Hm; [now apply Hp|now apply Hp|now apply Hl]. }
  split.
  - split; [|split; [assumption|]].
    + intros x Hx. unfold in_buffer. rewrite Hb, Hz. now apply Hp.
    + destruct o as [src size nmemb|p l|c|]; cbn [source fst snd] in *; try assumption.
      destruct Hpre as (Hc & Hf & Hpre). split; [|split; assumption].
      apply (cstr_ext (sm s)); [|assumption]. intros x Hx. apply Hsame. lia.
  - destruct o as [src size nmemb|p l|c|]; cbn [source fst snd prints] in *; try reflexivity.
    apply bytes_at_ext. intros x Hx. apply Hsame. lia.
Qed.

Lemma calls_ok fuel loc os s t :
  out_stream s -> text s t -> printable s loc 1 -> Forall (may_call fuel loc s) os ->
  exists s', calls fuel loc os s = Some s' /\
    printed loc s t (concat (map (prints (sm s)) os)) s'.
Proof.
  revert s t; induction os as [|o os IH]; intros s t HO HT Hloc Hmay; cbn [calls map concat].
  - exists s. split; [reflexivity|]. apply grown_printed.
    split; [repeat split; auto; apply HO|]. now rewrite app_nil_r.
  - inversion Hmay as [|? ? Ho Hos]; subst.
    destruct (call_ok fuel loc o s t HO HT Hloc Ho) as (r & s1 & Hr & HP).
    rewrite Hr. cbn [bind].
    assert (Hos1 : Forall (may_call fuel loc s1) os /\
                   map (prints (sm s1)) os = map (prints (sm s)) os).
    { clear -HP Hos. induction Hos as [|o' os' Ho' _ [IH1 IH2]]; [now split|].
      destruct (may_call_printed fuel loc s t _ s1 o' HP Ho') as [? He]. cbn [map].
      rewrite He, IH2. auto. }
    destruct Hos1 as [Hos1 Hmap]. pose proof HP as (_ & HO1 & Hb & Hz & (t1 & HT1) & _).
    assert (Hloc1 : printable s1 loc 1).
    { intros x Hx. unfold in_buffer. rewrite Hb, Hz. now apply Hloc. }
    destruct (IH s1 t1 HO1 HT1 Hloc1 Hos1) as (s' & Hs' & _).
    exists s'. split; [assumption|]. apply (printed_trans loc s t _ s1); [assumption|].
    intros t2 HT2. destruct (IH s1 t2 HO1 HT2 Hloc1 Hos1) as (s'' & Hs'' & HP'').
    rewrite Hs' in Hs''. injection Hs'' as <-. now rewrite Hmap in HP''.
Qed.


(** fputs and puts: 0 is returned and the text grows by the string (and a
    newline), or the call reports the error and the stream is marked broken.
    fputs of the empty string is 0 either way. *)
Theorem puts_correct fuel loc s p l t :
  out_stream s -> text s t -> cstr (sm s) p l -> (length l < fuel)%nat ->
  Z.of_nat (length l) < 2 ^ 64 -> printable s p (Z.of_nat (length l)) -> printable s loc 1 ->
  (exists r s', fputs fuel p s = Some (r, s') /\
    ((r = 0 /\ grown s t l s') \/ exists j, broken s t l j s' /\ (l <> [] -> r = -1))) /\
  (exists r s', puts fuel loc p s = Some (r, s') /\
    ((r = 0 /\ text s' (t ++ l ++ [10]) /\ flags (sf s') = flags (sf s)) \/
     (has (sf s') F_ERR = true /\ (r = -1 \/ l = [])))).
Proof.
  intros HO HT Hc Hf Hmax Hp Hloc.
  destruct (fputs_ok fuel s p l t HO HT Hc Hf Hmax Hp) as (r & s1 & Hr & HC).
  split; [eauto|]. unfold puts. rewrite Hr. cbn [bind].
  assert (HK : kept s s1) by (destruct HC as [[_ [HK _]]|(j & [HK _] & _)]; assumption).
  assert (HT1 : exists t1, text s1 t1).
  { destruct HC as [(_ & _ & HT1 & _)|(j & (_ & HR & _ & HI & _) & _)]; [eauto|].
    eexists _, _. rewrite idle_pending, app_nil_r by assumption. eauto. }
  destruct HT1 as [t1 HT1].
  destruct (Z.ltb_spec r 0).
  - exists (-1), s1. split; [reflexivity|]. right.
    destruct HC as [[-> _]|(j & HB & _)]; [lia|]. split; [|now left].
    now apply (broken_err s t l j).
  - assert (HO1 : out_stream s1) by apply HK.
    assert (Hloc1 := kept_printable s s1 loc 1 HK Hloc).
    destruct HC as [(_ & HG)|(j & HB & Hne)].
    + destruct HG as (_ & HT2 & HF).
      destruct (putc_ok s1 loc 10 (t ++ l) HO1 HT2 Hloc1) as (s2 & Hs2 & k & s' & -> & HC').
      assert (HF2 : flags (sf s2) = flags (sf s1)) by (destruct Hs2 as [->| ->]; reflexivity).
      cbn [bind]. eexists _, _. split; [reflexivity|].
      destruct HC' as [(-> & _ & HT3 & HF3)|(-> & j & HB)].
      * left. rewrite <- app_assoc in HT3. split; [reflexivity|]. split; [assumption|congruence].
      * right. split; [now apply broken_err in HB|]. now left.
    + destruct (putc_ok s1 loc 10 t1 HO1 HT1 Hloc1) as (s2 & Hs2 & k & s' & -> & HC').
      assert (HF2 : flags (sf s2) = flags (sf s1)) by (destruct Hs2 as [->| ->]; reflexivity).
      cbn [bind]. eexists _, _. split; [reflexivity|]. right. split.
      * apply broken_err in HB. destruct HC' as [(-> & _ & _ & HF3)|(-> & j' & HB')].
        -- unfold has in *. now rewrite HF3, HF2.
        -- now apply broken_err in HB'.
      * right. destruct l; [reflexivity|]. assert (r = -1) by (apply Hne; discriminate). lia.
Qed.
End Output.

(** ** Examples *)

(** A descriptor that takes three bytes at a time and logs them. *)
#[export] Instance slow_kernel : Kernel (list Z) := {
  sys_writev := fun k d => (Z.of_nat (length (firstn 3 d)), k ++ firstn 3 d);
  sys_readv := fun k _ => (None, k);
  sys_lseek := fun k _ _ => (-1, k)
}.

#[export] Instance slow_kernel_out : KernelOut (list Z).
Proof.
  refine {| sunk := fun k => k |}. intros k d. cbn [sys_writev slow_kernel]. rewrite length_firstn, Nat2Z.id.
  split; [lia|]. split; [destruct d; [easy|cbn [length]; lia]|]. f_equal.
  destruct (Nat.le_gt_cases 3 (length d)).
  - now rewrite Nat.min_l by lia.
  - rewrite Nat.min_r, !firstn_all2 by lia. reflexivity.
Defined.

(** A line-buffered stream with four bytes of buffer at 100; "ab\ncdefgh" at 200. *)
Definition demo_mem : mem := upd_list (fun _ => 0) 200 [97; 98; 10; 99; 100; 101; 102; 103; 104].
Definition demo_file : FILE := mkFILE 0 0 0 0 0 0 100 4 0 10.
Definition demo : st (list Z) := mkst demo_mem demo_file [] 0.

Lemma demo_wf : wf_mem demo_mem.
Proof. apply upd_list_wf; [intros ?; lia|repeat constructor; lia]. Qed.

Lemma demo_out : out_stream demo /\ text demo [].
Proof.
  split; [|exists []; now split].
  split; [reflexivity|]. split; [easy|]. split; [reflexivity|]. split; [easy|].
  split; [reflexivity|]. split; [right; split; [reflexivity|easy]|].
  split; [left; now split|apply demo_wf].
Qed.

Lemma demo_printable p l : 200 <= p -> printable demo p l.
Proof. intros Hp x Hx. split; [easy|]. unfold in_buffer. cbn. lia. Qed.

Definition demo_text : list Z := [97; 98; 10; 99; 100; 101; 102; 103; 104].


Lemma fwrite_correct_witness :
  exists n s', fwrite 200 3 2 demo = Some (n, s') /\
    ((n = 2 /\ grown demo [] (firstn 6 demo_text) s') \/
     (exists j, broken demo [] (firstn 6 demo_text) j s' /\ n = Z.max 0 (Z.of_nat j - 0) / 3 /\
        (0 < 3 * 2 -> n < 2))).
Proof.
  apply (fwrite_correct demo [] 200 3 2); try apply demo_out; try lia.
  now apply demo_printable.
Defined.


Lemma puts_correct_witness :
  (exists r s', fputs 10 200 demo = Some (r, s') /\
    ((r = 0 /\ grown demo [] demo_text s') \/
     exists j, broken demo [] demo_text j s' /\ (demo_text <> [] -> r = -1))) /\
  (exists r s', puts 10 300 200 demo = Some (r, s') /\
    ((r = 0 /\ text s' ([] ++ demo_text ++ [10]) /\ flags (sf s') = flags (sf demo)) \/
     (has (sf s') F_ERR = true /\ (r = -1 \/ demo_text = [])))).
Proof.
  apply (puts_correct 10 300 demo 200 demo_text []); try apply demo_out.
  - cbn. repeat split; lia.
  - cbn. lia.
  - now apply demo_printable.
  - now apply demo_printable.
Defined.

(** What the descriptor has after each call: the line is out, the rest is in the
    buffer until it is flushed. *)
Example demo_run :
  option_map se (calls 10 300 [Fputs 200 demo_text] demo) = Some [97; 98; 10; 99; 100; 101; 102; 103; 104] /\
  option_map se (calls 10 300 [Fwrite 200 1 4] demo) = Some [97; 98; 10] /\
  option_map se (calls 10 300 [Fwrite 200 1 4; Fflush] demo) = Some [97; 98; 10; 99].
Proof. vm_compute. auto. Qed.
