(* ===== verification/StreamIn.v ===== *)
(** * StreamIn: what the input functions of Stdio do

    The interface [Source] states what f->read promises: it delivers the first
    bytes of what remains, some to the caller and some to the buffer, and says
    whether it failed or reached the end.  __stdio_read on a descriptor whose
    system calls keep their documentation ([KernelIn]) and mread of fmemopen
    keep the promise.  Against the interface, the input functions take bytes from
    the front of what is available (the bytes in the buffer and those that
    remain): nothing is lost, doubled or reordered, whatever the sizes of the
    reads below. *)

From Stdlib Require Import ZArith Lia ZifyBool List Bool.
From S2P Require Import Prelude MemCopy Strings Stdio.
Import ListNotations.
Open Scope Z_scope.

(** ** The interface *)

(** The bytes read and not yet taken. *)
Definition ahead {E} (s : st E) : list Z :=
  bytes_at (sm s) (rpos (sf s)) (Z.to_nat (rend (sf s) - rpos (sf s))).

(** The buffer with the room for ungetc before it. *)
Definition in_area (f : FILE) (x : Z) : Prop := buf f - UNGET <= x < buf f + buf_size f.

Class Source (E : Type) `{FileOps E} : Type := {
  (** the bytes that were not read yet *)
  remaining : st E -> list Z;
  (** the memory they lie in, when they do *)
  keeps : Z -> Prop;
  (** what f->read relies on *)
  sound : E -> Prop;
  remaining_frame s s' :
    sound (se s) -> se s' = se s -> (forall x, keeps x -> sm s' x = sm s x) ->
    remaining s' = remaining s;
  read_ok s b n :
    sound (se s) -> 0 < buf (sf s) -> 0 <= buf_size (sf s) -> rpos (sf s) = rend (sf s) ->
    0 < n < 2 ^ 64 -> wf_mem (sm s) ->
    (forall x, in_area (sf s) x -> ~ keeps x /\ ~ b <= x < b + n) ->
    (forall x, b <= x < b + n -> ~ keeps x) ->
    exists k s' p e fl, f_read s b n = Some (k, s') /\ sound (se s') /\
      0 <= k <= n /\ serr s' = serr s /\ wf_mem (sm s') /\
      (forall x, ~ b <= x < b + n -> ~ in_buffer (sf s) x -> sm s' x = sm s x) /\
      sf s' = with_r (with_flags (sf s) fl) p e /\
      (k < n -> p = e) /\
      (p = rpos (sf s) /\ e = rend (sf s) \/
       buf (sf s) <= p <= e /\ e <= buf (sf s) + buf_size (sf s)) /\
      remaining s = bytes_at (sm s') b (Z.to_nat k) ++ ahead s' ++ remaining s' /\
      (0 < k /\ fl = flags (sf s) \/
       fl = Z.lor (flags (sf s)) F_EOF /\ ahead s' = [] /\ remaining s' = [] \/
       k = 0 /\ fl = Z.lor (flags (sf s)) F_ERR /\ ahead s' = [])
}.

(** ** A file descriptor keeps the promise *)

(** A read delivers the next bytes, at most as many as asked for, and nothing
    only at the end; or it fails and takes nothing. *)
Class KernelIn (K : Type) `{Kernel K} : Type := {
  rest : K -> list Z;
  readv_ok k n :
    0 < n ->
    match sys_readv k n with
    | (None, k') => rest k' = rest k
    | (Some d, k') =>
        Z.of_nat (length d) <= n /\ Forall (fun b => 0 <= b < 256) d /\
        rest k = d ++ rest k' /\ (d = [] -> rest k = [])
    end
}.

Section Descriptor.
Context {K : Type} `{KernelIn K}.
Implicit Type s : st K.

Lemma stdio_read_ok s b n :
  0 < buf (sf s) -> 0 <= buf_size (sf s) -> rpos (sf s) = rend (sf s) ->
  0 < n < 2 ^ 64 -> wf_mem (sm s) ->
  (forall x, in_area (sf s) x -> ~ b <= x < b + n) ->
  exists k s' p e fl, __stdio_read s b n = Some (k, s') /\
    0 <= k <= n /\ serr s' = serr s /\ wf_mem (sm s') /\
    (forall x, ~ b <= x < b + n -> ~ in_buffer (sf s) x -> sm s' x = sm s x) /\
    sf s' = with_r (with_flags (sf s) fl) p e /\
    (k < n -> p = e) /\
      (p = rpos (sf s) /\ e = rend (sf s) \/
       buf (sf s) <= p <= e /\ e <= buf (sf s) + buf_size (sf s)) /\
    rest (se s) = bytes_at (sm s') b (Z.to_nat k) ++ ahead s' ++ rest (se s') /\
    (0 < k /\ fl = flags (sf s) \/
     fl = Z.lor (flags (sf s)) F_EOF /\ ahead s' = [] /\ rest (se s') = [] \/
     k = 0 /\ fl = Z.lor (flags (sf s)) F_ERR /\ ahead s' = []).
Proof.
  intros Hb Hz Hr Hn Hwf Hout. unfold __stdio_read.
  set (z := buf_size (sf s)) in *. set (B := buf (sf s)) in *.
  set (n0 := u64 _).
  assert (Hn0 : z = 0 /\ n0 = n \/ z <> 0 /\ n0 = n - 1).
  { unfold n0. destruct (Z.eqb_spec z 0); cbn [negb b2z]; rewrite u64_small; lia. }
  clearbody n0. set (N := if n0 =? 0 then z else n0 + z).
  assert (HN : 0 < N <= n0 + z) by (unfold N; destruct (Z.eqb_spec n0 0); lia).
  pose proof (readv_ok (se s) N (proj1 HN)) as HK.
  destruct (sys_readv (se s) N) as [[d|] k].
  2: { exists 0. eexists. exists (rpos (sf s)), (rend (sf s)), (Z.lor (flags (sf s)) F_ERR).
       split; [reflexivity|]. cbn [sm serr se sf on_file with_kernel].
       assert (HA : ahead (on_file (fun f => raise f F_ERR) (with_kernel s k)) = []).
       { unfold ahead. cbn. now rewrite Hr, Z.sub_diag. }
       rewrite HA. cbn [Z.to_nat bytes_at app]. repeat split; auto; try lia; apply Hwf. }
  destruct HK as (Hd & Hby & Hrest & Heof).
  set (m1 := upd_list (upd_list (sm s) b (firstn (Z.to_nat n0) d)) B (skipn (Z.to_nat n0) d)).
  assert (Hwf1 : wf_mem m1).
  { unfold m1. rewrite <- (firstn_skipn (Z.to_nat n0) d) in Hby. apply Forall_app in Hby.
    apply upd_list_wf; [apply upd_list_wf|]; tauto. }
  assert (Hm1 : forall x, ~ b <= x < b + n -> ~ B <= x < B + z -> m1 x = sm s x).
  { intros x Hx Hx'. unfold m1. rewrite upd_list_out, upd_list_out; [reflexivity| |].
    all: rewrite ?length_firstn, ?length_skipn; lia. }
  assert (HB : bytes_at m1 b (length (firstn (Z.to_nat n0) d)) = firstn (Z.to_nat n0) d).
  { rewrite <- (bytes_at_upd (sm s) b (firstn (Z.to_nat n0) d)) at 2.
    apply bytes_at_ext. intros x Hx. apply upd_list_out. rewrite length_skipn, length_firstn in *.
    intros Hx'. apply (Hout x); unfold in_area, UNGET; fold B z; lia. }
  set (s1 := on_mem _ (with_kernel s k)).
  destruct (Z.leb_spec (Z.of_nat (length d)) 0).
  { destruct d; [|cbn [length] in *; lia]. specialize (Heof eq_refl).
    exists 0. eexists. exists (rpos (sf s)), (rend (sf s)), (Z.lor (flags (sf s)) F_EOF).
    split; [reflexivity|]. cbn [sm serr se sf on_file on_mem s1 with_kernel].
    match goal with |- context [ahead ?x] => assert (HA : ahead x = []) end.
    { unfold ahead. cbn. now rewrite Hr, Z.sub_diag. }
    rewrite HA. cbn [app] in Hrest. cbn [Z.to_nat bytes_at app]. rewrite <- Hrest.
    repeat split; auto; try lia; try apply Hwf1. }
  destruct (Z.leb_spec (Z.of_nat (length d)) n0).
  { exists (Z.of_nat (length d)), s1, (rpos (sf s)), (rend (sf s)), (flags (sf s)).
    split; [reflexivity|].
    assert (HA : ahead s1 = []) by (unfold ahead; cbn; now rewrite Hr, Z.sub_diag).
    rewrite HA, Nat2Z.id. cbn [app]. rewrite firstn_all2 in HB by lia. cbn [sm serr se sf on_mem s1 with_kernel].
    fold m1. rewrite HB. split; [lia|]. split; [reflexivity|].
    split; [assumption|]. split; [exact Hm1|]. split; [now destruct (sf s)|].
    split; [intros _; exact Hr|]. split; [now left|]. split; [assumption|]. left.
    split; [lia|reflexivity]. }
  assert (Hz0 : z <> 0 /\ n0 = n - 1) by (unfold N in HN; destruct (Z.eqb_spec n0 0); lia).
  replace (z =? 0) with false by lia.
  set (c := m1 B).
  assert (Hsk : skipn (Z.to_nat n0) d = c :: bytes_at m1 (B + 1) (length d - Z.to_nat n0 - 1)).
  { unfold c. rewrite <- (bytes_at_upd (upd_list (sm s) b (firstn (Z.to_nat n0) d)) B
                           (skipn (Z.to_nat n0) d)).
    fold m1. rewrite length_skipn.
    replace (length d - Z.to_nat n0)%nat with (S (length d - Z.to_nat n0 - 1)) at 1 by lia.
    reflexivity. }
  eexists n, _, (B + 1), (B + (Z.of_nat (length d) - n0)), (flags (sf s)).
  split; [reflexivity|]. cbn [sm serr se sf on_file on_mem s1 with_kernel rpos with_r].
  fold B m1 c. split; [lia|]. split; [reflexivity|].
  split; [apply mset_wf; [assumption|apply Hwf1]|].
  split; [intros x Hx Hx'; rewrite mset_ne by lia; now apply Hm1|].
  split; [now destruct (sf s)|]. split; [lia|]. split; [right; lia|]. split; [|left; split; [lia|reflexivity]].
  set (tl := bytes_at m1 (B + 1) (length d - Z.to_nat n0 - 1)) in *.
  match goal with |- context [ahead ?x] => assert (HA : ahead x = tl) end.
  { unfold ahead. cbn [sm sf on_file on_mem s1 with_kernel rpos rend with_r].
    fold B m1 c. replace (Z.to_nat _) with (length d - Z.to_nat n0 - 1)%nat by lia.
    apply bytes_at_ext. intros x Hx. apply mset_ne.
    intros ->. apply (Hout (b + n - 1)); unfold in_area, UNGET; fold B z; lia. }
  rewrite HA, Hrest. clearbody tl.
  assert (Hd' : d = firstn (Z.to_nat n0) d ++ c :: tl) by (rewrite <- Hsk; now rewrite firstn_skipn).
  rewrite Hd' at 1. replace (Z.to_nat n) with (Z.to_nat n0 + 1)%nat by lia.
  rewrite bytes_at_app, <- !app_assoc. f_equal.
  - rewrite <- HB at 1. rewrite length_firstn, Nat.min_l by lia. apply bytes_at_ext.
    intros x Hx. symmetry. apply mset_ne. lia.
  - cbn [bytes_at app]. f_equal. rewrite Z2Nat.id by lia.
    replace (b + n0) with (b + n - 1) by lia. now rewrite mset_eq.
Qed.

#[export] Instance fd_source : Source K.
Proof.
  refine {| remaining := fun s => rest (se s); keeps := fun _ => False; sound := fun _ => True |}.
  - intros s s' _ -> _. reflexivity.
  - intros s b n _ Hb Hz Hr Hn Hwf Hout _.
    destruct (stdio_read_ok s b n) as (k & s' & p & e & fl & HR); try assumption.
    { intros x Hx. now apply Hout. }
    exists k, s', p, e, fl. tauto.
Defined.
End Descriptor.

(** ** A block of memory keeps the promise *)

Section Block.
(** [L] bytes at [D]. *)
Variables (D L : Z).

Definition block_ok (c : mcookie) : Prop :=
  m_buf c = D /\ m_len c = L /\ 0 <= m_pos c /\ 0 <= L <= m_size c.

Definition block_rest (s : st mcookie) : list Z :=
  bytes_at (sm s) (D + m_pos (se s)) (Z.to_nat (L - m_pos (se s))).

Lemma mread_ok s b n :
  block_ok (se s) -> 0 < buf (sf s) -> 0 <= buf_size (sf s) -> rpos (sf s) = rend (sf s) ->
  0 < n < 2 ^ 64 -> wf_mem (sm s) ->
  (forall x, in_area (sf s) x -> ~ D <= x < D + L /\ ~ b <= x < b + n) ->
  (forall x, b <= x < b + n -> ~ D <= x < D + L) ->
  exists k s' p e fl, mread s b n = Some (k, s') /\ block_ok (se s') /\
    0 <= k <= n /\ serr s' = serr s /\ wf_mem (sm s') /\
    (forall x, ~ b <= x < b + n -> ~ in_buffer (sf s) x -> sm s' x = sm s x) /\
    sf s' = with_r (with_flags (sf s) fl) p e /\
    (k < n -> p = e) /\
      (p = rpos (sf s) /\ e = rend (sf s) \/
       buf (sf s) <= p <= e /\ e <= buf (sf s) + buf_size (sf s)) /\
    block_rest s = bytes_at (sm s') b (Z.to_nat k) ++ ahead s' ++ block_rest s' /\
    (0 < k /\ fl = flags (sf s) \/
     fl = Z.lor (flags (sf s)) F_EOF /\ ahead s' = [] /\ block_rest s' = [] \/
     k = 0 /\ fl = Z.lor (flags (sf s)) F_ERR /\ ahead s' = []).
Proof.
  intros (HD & HL & Hp & HLs) Hb Hz Hr Hn Hwf Hout Hdst.
  set (pos := m_pos (se s)) in *. set (rem := if L <? pos then 0 else L - pos).
  set (k := Z.min rem n). set (fl := if rem <? n then Z.lor (flags (sf s)) F_EOF else flags (sf s)).
  set (j := Z.min (rem - k) (buf_size (sf s))).
  set (m1 := mcopy (sm s) b (D + pos) k).
  set (m2 := mcopy m1 (buf (sf s)) (D + (pos + k)) j).
  set (s' := mkst m2 (with_r (with_flags (sf s) fl) (buf (sf s)) (buf (sf s) + j))
                  (mkmcookie (pos + k + j) L (m_size (se s)) D (m_mode (se s))) (serr s)).
  assert (HE : mread s b n = Some (k, s')).
  { unfold mread. rewrite HL. fold pos rem. unfold s', m2, m1, j, fl, k.
    destruct (Z.ltb_spec rem n); [rewrite (Z.min_l rem n) by lia|rewrite (Z.min_r rem n) by lia];
      unfold on_cookie, on_mem, on_file, with_pos, raise; cbn; fold pos; rewrite ?HL, ?HD;
      [reflexivity|].
    now destruct (sf s). }
  assert (Hrem : 0 <= rem /\ Z.to_nat rem = Z.to_nat (L - pos) /\ (rem = 0 \/ rem = L - pos))
    by (unfold rem; destruct (Z.ltb_spec L pos); lia).
  assert (Hfl : fl = flags (sf s) /\ n <= rem \/ fl = Z.lor (flags (sf s)) F_EOF /\ rem < n)
    by (unfold fl; destruct (Z.ltb_spec rem n); auto).
  clearbody rem fl.
  assert (Hm1 : forall x, ~ b <= x < b + n -> m1 x = sm s x) by (intros; apply mcopy_out; lia).
  assert (Hm2 : forall x, ~ in_buffer (sf s) x -> m2 x = m1 x).
  { intros x Hx. apply mcopy_out. unfold in_buffer in Hx. lia. }
  assert (Hblk : forall x, D <= x < D + L -> m2 x = sm s x).
  { intros x Hx. rewrite Hm2, Hm1; [reflexivity| |].
    - intros Hx'. now apply (Hdst x).
    - intros Hx'. destruct (Hout x) as [Hno _]; [unfold in_area, in_buffer, UNGET in *|]; lia. }
  assert (Hk : bytes_at m2 b (Z.to_nat k) = bytes_at (sm s) (D + pos) (Z.to_nat k)).
  { transitivity (bytes_at m1 b (Z.to_nat k)).
    - apply bytes_at_ext. intros x Hx. apply Hm2. intros Hx'.
      destruct (Hout x) as [_ Hno]; [unfold in_area, in_buffer, UNGET in *|]; lia.
    - unfold m1. replace k with (Z.of_nat (Z.to_nat k)) at 1 by lia. apply bytes_at_mcopy. }
  assert (HA : ahead s' = bytes_at (sm s) (D + (pos + k)) (Z.to_nat j)).
  { unfold ahead. cbn. replace (buf (sf s) + j - buf (sf s)) with j by lia.
    transitivity (bytes_at m1 (D + (pos + k)) (Z.to_nat j)).
    - unfold m2. replace j with (Z.of_nat (Z.to_nat j)) at 1 by lia. apply bytes_at_mcopy.
    - apply bytes_at_ext. intros x Hx. apply Hm1. intros Hx'. apply (Hdst x); lia. }
  assert (HR : block_rest s' = bytes_at (sm s) (D + (pos + k + j)) (Z.to_nat (rem - k - j))).
  { unfold block_rest. cbn. replace (Z.to_nat (L - (pos + k + j))) with (Z.to_nat (rem - k - j)) by lia.
    apply bytes_at_ext. intros x Hx. apply Hblk. lia. }
  exists k, s', (buf (sf s)), (buf (sf s) + j), fl. split; [assumption|].
  split; [repeat split; cbn; lia|]. split; [lia|]. split; [reflexivity|].
  split; [now apply mcopy_wf, mcopy_wf|].
  split; [intros x Hx Hx'; cbn; now rewrite Hm2, Hm1|]. split; [reflexivity|]. split; [lia|].
  split; [lia|]. cbn [sm s']. split.
  - rewrite Hk, HA, HR. unfold block_rest. fold pos.
    replace (Z.to_nat (L - pos)) with (Z.to_nat k + (Z.to_nat j + Z.to_nat (rem - k - j)))%nat by lia.
    rewrite !bytes_at_app. f_equal. f_equal; f_equal; lia.
  - destruct Hfl as [[-> Hfl]|[-> Hfl]]; [left; split; [lia|reflexivity]|]. right. left.
    rewrite HA, HR. replace (Z.to_nat j) with 0%nat by lia.
    replace (Z.to_nat (rem - k - j)) with 0%nat by lia. auto.
Qed.

Definition block_source : Source mcookie.
Proof.
  refine {| remaining := block_rest; keeps := fun x => D <= x < D + L; sound := block_ok |}.
  - intros s s' (_ & _ & Hp & _) HE Hx. unfold block_rest. rewrite HE. apply bytes_at_ext.
    intros x Hx'. apply Hx. lia.
  - apply mread_ok.
Defined.
End Block.

(** ** Taking bytes from a stream *)

Section Input.
Context {E : Type} `{Source E}.
Implicit Types (s : st E) (d : list Z).

(** A readable stream with nothing pending for output. *)
Definition in_stream s : Prop :=
  sound (se s) /\ UNGET < buf (sf s) /\ 0 <= buf_size (sf s) /\
  buf (sf s) + buf_size (sf s) < 2 ^ 63 /\
  (forall x, in_area (sf s) x -> ~ keeps x) /\
  has (sf s) F_NORD = false /\ wpos (sf s) = wbase (sf s) /\
  (rpos (sf s) = 0 /\ rend (sf s) = 0 \/
   buf (sf s) - UNGET <= rpos (sf s) <= rend (sf s) /\
   rend (sf s) <= buf (sf s) + buf_size (sf s)) /\
  wf_mem (sm s).

(** What a program can read: the bytes in the buffer, then those that remain. *)
Definition avail s : list Z := ahead s ++ remaining s.

(** A region the caller may read to. *)
Definition fillable s (p l : Z) : Prop :=
  forall x, p <= x < p + l -> ~ keeps x /\ ~ in_area (sf s) x.

(** [s'] is [s] after [d] was taken; only the region [R] and the buffer changed. *)
Definition span (p l x : Z) : Prop := p <= x < p + l.

Definition took s (R : Z -> Prop) d s' : Prop :=
  avail s = d ++ avail s' /\ in_stream s' /\
  (forall x, ~ R x -> ~ in_area (sf s) x -> sm s' x = sm s x) /\
  serr s' = serr s /\ buf (sf s') = buf (sf s) /\ buf_size (sf s') = buf_size (sf s) /\
  (has (sf s') F_EOF = true -> has (sf s) F_EOF = true \/ avail s' = []).

(** The end or an error was met; at the end, nothing is left (unless the stream
    was known to be at its end before). *)
Definition ended s s' : Prop :=
  has (sf s') F_ERR = true \/
  has (sf s') F_EOF = true /\ (has (sf s) F_EOF = false -> avail s' = []).

Lemma took_trans s (R R1 R2 : Z -> Prop) d1 s1 d2 s2 :
  took s R1 d1 s1 -> took s1 R2 d2 s2 ->
  (forall x, R1 x -> R x) -> (forall x, R2 x -> R x) ->
  took s R (d1 ++ d2) s2.
Proof.
  intros (A1 & I1 & M1 & E1 & B1 & Z1 & F1) (A2 & I2 & M2 & E2 & B2 & Z2 & F2) ? ?.
  split; [now rewrite A1, A2, app_assoc|]. split; [assumption|].
  split; [|repeat split; try congruence].
  - intros x Hx Ha. rewrite M2, M1; auto. unfold in_area in *. now rewrite B1, Z1.
  - intros HE. destruct (F2 HE) as [HE1|]; [|now right]. destruct (F1 HE1) as [|HA]; [now left|].
    rewrite HA in A2. right. now destruct (app_eq_nil _ _ (eq_sym A2)).
Qed.

Lemma took_ended s R d s1 R' d' s2 :
  took s R d s1 -> took s1 R' d' s2 -> ended s1 s2 -> ended s s2.
Proof.
  intros (_ & _ & _ & _ & _ & _ & F1) (A2 & _) [HR|[HE HA]]; [now left|right].
  split; [assumption|]. intros HF. destruct (has (sf s1) F_EOF) eqn:E1; [|auto].
  destruct (F1 eq_refl) as [|HN]; [congruence|].
  rewrite HN in A2. now destruct (app_eq_nil _ _ (eq_sym A2)).
Qed.

Lemma took_fillable s R d s' q n : took s R d s' -> fillable s q n -> fillable s' q n.
Proof.
  intros (_ & _ & _ & _ & B & Z & _) Hf x Hx. unfold in_area. rewrite B, Z. now apply Hf.
Qed.

Lemma took_refl s R : in_stream s -> took s R [] s.
Proof. intros HI. repeat split; try apply HI. now left. Qed.

Lemma ahead_nil s : rpos (sf s) = rend (sf s) -> ahead s = [].
Proof. intros Hr. unfold ahead. now rewrite Hr, Z.sub_diag. Qed.

Lemma has_lor_other f a b : Z.land a b = 0 -> has (raise f a) b = has f b.
Proof.
  intros Hab. unfold has, raise. cbn [flags with_flags]. now rewrite Z.land_lor_distr_l, Hab, Z.lor_0_r.
Qed.

Lemma has_clear_other f a b : Z.land a b = 0 -> has (clear f a) b = has f b.
Proof.
  intros Hab. unfold has, clear. cbn [flags with_flags]. f_equal. f_equal.
  apply Z.bits_inj'. intros i Hi. rewrite !Z.land_spec, Z.ldiff_spec.
  apply (f_equal (fun z => Z.testbit z i)) in Hab. rewrite Z.land_spec, Z.bits_0 in Hab.
  destruct (Z.testbit (flags f) i), (Z.testbit a i), (Z.testbit b i); easy.
Qed.

Lemma has_raised f b : 0 < b -> has (raise f b) b = true.
Proof.
  intros Hb. unfold has, raise. cbn [flags with_flags].
  rewrite Z.land_lor_distr_l, Z.land_diag. apply negb_true_iff, Z.eqb_neq.
  intros HE. apply Z.lor_eq_0_iff in HE. lia.
Qed.

(** Entering read mode with the buffer used up. *)
Lemma toread_ok s :
  in_stream s -> rpos (sf s) = rend (sf s) ->
  exists e s1, __toread s = Some (e, s1) /\ took s (span 0 0) [] s1 /\ sm s1 = sm s /\
    rpos (sf s1) = buf (sf s) + buf_size (sf s) /\ rend (sf s1) = rpos (sf s1) /\
    flags (sf s1) = flags (sf s) /\ wend (sf s1) = 0 /\
    e = if has (sf s) F_EOF then EOF else 0.
Proof.
  intros HI Hr. unfold __toread. cbn [on_file sf touch with_mode].
  pose proof HI as (Hs & Hb & Hz & Hm & Hk & Hn & Hw & Hrr & Hwf).
  replace (wpos (touch (sf s)) =? wbase (touch (sf s))) with true by (cbn; lia).
  cbn [bind on_file sf]. change (has (with_w (touch (sf s)) 0 0 0) F_NORD) with (has (sf s) F_NORD).
  rewrite Hn. eexists _, _. split; [reflexivity|]. cbn.
  split; [|repeat split].
  match goal with |- took s (span 0 0) [] ?x => set (s1 := x) end.
  assert (HR : remaining s1 = remaining s) by (apply remaining_frame; auto).
  split; [|split; [|repeat split; now left]].
  - unfold avail. rewrite HR, (ahead_nil s), (ahead_nil s1); auto.
  - repeat split; auto; try apply Hwf. right. cbn. unfold UNGET. lia.
Qed.

(** f->read in read mode. *)
Lemma f_read_ok s p n :
  in_stream s -> rpos (sf s) = rend (sf s) -> 0 < n < 2 ^ 64 -> fillable s p n ->
  exists k s', f_read s p n = Some (k, s') /\ 0 <= k <= n /\
    took s (span p n) (bytes_at (sm s') p (Z.to_nat k)) s' /\
    (k < n -> rpos (sf s') = rend (sf s')) /\
    (has (sf s) F_EOF = true -> has (sf s') F_EOF = true) /\
    (0 < k /\ has (sf s') F_EOF = has (sf s) F_EOF /\ has (sf s') F_ERR = has (sf s) F_ERR \/
     has (sf s') F_EOF = true /\ avail s' = [] \/ k = 0 /\ has (sf s') F_ERR = true).
Proof.
  intros HI Hr Hn Hf. pose proof HI as (Hs & Hb & Hz & Hm & Hk & Hnr & Hw & Hrr & Hwf).
  destruct (read_ok s p n) as (k & s' & q & e & fl & HR & Hs' & Hkn & Her & Hwf' & Hmem & Hsf
    & Hpe & Hqe & Hrem & Hout); try assumption; [unfold UNGET in Hb; lia| | |].
  { intros x Hx. split; [now apply Hk|]. intros Hx'. now apply (Hf x). }
  { intros x Hx. now apply Hf. }
  exists k, s'. split; [assumption|]. split; [assumption|].
  assert (Hhas : forall b, Z.land F_EOF b = 0 -> Z.land F_ERR b = 0 -> has (sf s') b = has (sf s) b).
  { intros b H1 H2. destruct Hout as [[_ ->]|[[-> _]|(_ & -> & _)]]; rewrite Hsf; [reflexivity| |].
    - now apply (has_lor_other (sf s) F_EOF).
    - now apply (has_lor_other (sf s) F_ERR). }
  split; [|split; [now rewrite Hsf|split]].
  - split; [unfold avail; now rewrite (ahead_nil s), Hrem|].
    split; [|split; [|]].
    + split; [assumption|]. rewrite (Hhas F_NORD) by reflexivity. rewrite Hsf. cbn.
      repeat split; try assumption; try apply Hwf'. cbn. unfold UNGET in *. lia.
    + intros x Hx Ha. apply Hmem; [assumption|]. unfold in_area, in_buffer, UNGET in *. lia.
    + split; [assumption|]. split; [now rewrite Hsf|]. split; [now rewrite Hsf|].
      destruct Hout as [[_ ->]|[(_ & HA & HRm)|(_ & -> & _)]]; rewrite Hsf; [now left| |].
      * right. unfold avail. now rewrite HA, HRm.
      * change (has (raise (sf s) F_ERR) F_EOF = true -> has (sf s) F_EOF = true \/ avail s' = []).
        rewrite has_lor_other by reflexivity. now left.
  - intros HE. destruct Hout as [[_ ->]|[[-> _]|(_ & -> & _)]]; rewrite Hsf; [exact HE| |].
    + now apply (has_raised (sf s) F_EOF).
    + change (has (raise (sf s) F_ERR) F_EOF = true). now rewrite has_lor_other.
  - destruct Hout as [[? ->]|[(-> & HA & HRm)|(? & -> & _)]]; rewrite Hsf.
    + left. auto.
    + right. left. split; [now apply (has_raised (sf s) F_EOF)|]. unfold avail. now rewrite HA, HRm.
    + right. right. split; [assumption|]. now apply (has_raised (sf s) F_ERR).
Qed.

(** Taking from the buffer. *)
Lemma take_ok s p k :
  in_stream s -> 0 <= k <= rend (sf s) - rpos (sf s) -> fillable s p k ->
  let d := bytes_at (sm s) (rpos (sf s)) (Z.to_nat k) in
  took s (span p k) d (take_bytes p k s) /\ bytes_at (sm (take_bytes p k s)) p (Z.to_nat k) = d.
Proof.
  intros HI Hk Hf d. pose proof HI as (Hs & Hb & Hz & Hm & Hkp & Hn & Hw & Hrr & Hwf).
  set (s' := take_bytes p k s).
  assert (Hmem : forall x, ~ p <= x < p + k -> sm s' x = sm s x).
  { intros x Hx. unfold s', take_bytes. cbn. now apply mcopy_out. }
  split.
  - assert (HR : remaining s' = remaining s).
    { apply remaining_frame; [assumption|reflexivity|]. intros x Hx. apply Hmem.
      intros Hx'. destruct (Hf x Hx') as [Hno _]. now apply Hno. }
    assert (HA : avail s = d ++ avail s').
    { unfold avail. rewrite HR, app_assoc. f_equal. unfold ahead, d.
      cbn [sf s' take_bytes on_file rpos rend with_r].
      replace (Z.to_nat (rend (sf s) - rpos (sf s)))
        with (Z.to_nat k + Z.to_nat (rend (sf s) - (rpos (sf s) + k)))%nat by lia.
      rewrite bytes_at_app, Z2Nat.id by lia. f_equal. apply bytes_at_ext. intros x Hx.
      symmetry. apply Hmem. intros Hx'. destruct (Hf x Hx') as [_ Ha]. apply Ha.
      cbn [on_mem sf] in Hx. unfold in_area, UNGET in *. lia. }
    split; [assumption|]. split; [|repeat split; auto].
    repeat split; try assumption; try now apply mcopy_wf.
    destruct Hrr as [Hrr|Hrr]; [left|right]; cbn; lia.
  - unfold s', take_bytes. cbn. unfold d. replace k with (Z.of_nat (Z.to_nat k)) at 1 by lia.
    apply bytes_at_mcopy.
Qed.

(** __toread and f->read of one or more bytes, as __uflow and fread do it. *)
Definition refill (p n : Z) s : option (Z * st E) :=
  let? (e, s) := __toread s in
  if negb (e =? 0) then Some (0, s) else f_read s p n.

Lemma refill_ok s p n :
  in_stream s -> rpos (sf s) = rend (sf s) -> 0 < n < 2 ^ 64 -> fillable s p n ->
  exists k s', refill p n s = Some (k, s') /\ 0 <= k <= n /\
    took s (span p n) (bytes_at (sm s') p (Z.to_nat k)) s' /\
    (k < n -> rpos (sf s') = rend (sf s')) /\ (k = 0 -> ended s s').
Proof.
  intros HI Hr Hn Hf. unfold refill.
  destruct (toread_ok s HI Hr) as (e & s1 & -> & HT & Hsm & Hrp & Hre & Hfl & Hwe & ->).
  cbn [bind]. assert (HF : has (sf s1) F_EOF = has (sf s) F_EOF) by (unfold has; now rewrite Hfl).
  destruct (has (sf s) F_EOF) eqn:HE; cbn [Z.eqb negb].
  - exists 0, s1. split; [reflexivity|]. split; [lia|]. split; [|split; [auto|]].
    + apply (took_trans s _ (span 0 0) (span p n) [] s1 [] s1); [assumption|apply took_refl, HT| |auto].
      unfold span. lia.
    + intros _. right. split; [assumption|]. now rewrite HE.
  - replace (negb (0 =? 0)) with false by reflexivity.
    destruct (f_read_ok s1 p n) as (k & s' & HR & Hk & HT' & Hpe & Hmono & Hout); try assumption;
      [apply HT|lia|now apply (took_fillable s (span 0 0) [])|].
    exists k, s'. split; [assumption|]. split; [assumption|]. split; [|split; [assumption|]].
    + apply (took_trans s _ (span 0 0) (span p n) [] s1 _ s'); try assumption; auto.
      unfold span. lia.
    + intros ->. destruct Hout as [[? _]|[[HE' HA]|[_ HRR]]]; [lia|right|now left]. auto.
Qed.

(** getc: the next byte, or the end. *)
Lemma getc_ok s loc :
  in_stream s -> fillable s loc 1 ->
  exists c s', getc_unlocked loc s = Some (c, s') /\
    ((0 <= c < 256 /\ took s (span loc 1) [c] s') \/
     (c = EOF /\ took s (span loc 1) [] s' /\ ended s s')).
Proof.
  intros HI Hf. unfold getc_unlocked. destruct (Z.eqb_spec (rpos (sf s)) (rend (sf s))) as [Hr|Hr].
  - destruct (refill_ok s loc 1 HI Hr) as (k & s' & HR & Hk & HT & _ & HE); [lia|assumption|].
    unfold refill, __uflow in *. destruct (__toread s) as [[e s1]|]; [|discriminate].
    cbn [bind] in *. destruct (negb (e =? 0)).
    + injection HR as <- <-. exists EOF, s1. split; [reflexivity|]. right. auto.
    + rewrite HR. cbn [bind]. destruct (Z.eqb_spec k 1) as [->|Hk1].
      * exists (sm s' loc), s'. split; [reflexivity|]. left. split; [apply HT|exact HT].
      * exists EOF, s'. split; [reflexivity|]. right. assert (k = 0) as -> by lia. auto.
  - eexists _, _. split; [reflexivity|]. left.
    pose proof HI as (Hs & Hb & Hz & Hm & Hkp & Hn & Hw & Hrr & Hwf). split; [apply Hwf|].
    set (s' := on_file _ s).
    assert (HR : remaining s' = remaining s) by (apply remaining_frame; auto).
    split; [|split; [|repeat split; auto]].
    + unfold avail. rewrite HR, app_assoc. f_equal. unfold ahead. cbn [s' on_file sf sm rpos rend with_r].
      replace (Z.to_nat (rend (sf s) - rpos (sf s)))
        with (S (Z.to_nat (rend (sf s) - (rpos (sf s) + 1)))) by lia. reflexivity.
    + repeat split; try assumption; try apply Hwf. destruct Hrr as [Hrr|Hrr]; [lia|right]. cbn. lia.
Qed.

(** ** fread *)

(** [i] of [l0] bytes have been read to [p]. *)
Definition filled s0 p l0 i s : Prop :=
  0 <= i <= l0 /\ took s0 (span p l0) (bytes_at (sm s) p (Z.to_nat i)) s /\
  (rpos (sf s) = rend (sf s) \/ i = l0).

Lemma took_more s0 p l0 i s k s' d :
  0 <= i -> 0 <= k -> i + k <= l0 -> fillable s0 p l0 ->
  took s0 (span p l0) (bytes_at (sm s) p (Z.to_nat i)) s ->
  took s (span (p + i) (l0 - i)) d s' -> bytes_at (sm s') (p + i) (Z.to_nat k) = d ->
  took s0 (span p l0) (bytes_at (sm s') p (Z.to_nat (i + k))) s'.
Proof.
  intros Hi Hk Hik Hf HT HT' Hd.
  replace (bytes_at (sm s') p (Z.to_nat (i + k))) with (bytes_at (sm s) p (Z.to_nat i) ++ d).
  - apply (took_trans s0 _ (span p l0) (span (p + i) (l0 - i)) _ s d s'); auto.
    unfold span. lia.
  - replace (Z.to_nat (i + k)) with (Z.to_nat i + Z.to_nat k)%nat by lia.
    rewrite bytes_at_app, Z2Nat.id, Hd by lia. f_equal. apply bytes_at_ext. intros x Hx.
    symmetry. apply HT'; [unfold span; lia|]. apply (took_fillable s0 (span p l0) _ s p l0 HT Hf). lia.
Qed.

Lemma fread_round_ok s0 p l0 i s :
  fillable s0 p l0 -> l0 < 2 ^ 64 -> filled s0 p l0 i s ->
  match fread_round (p + i, l0 - i, s) with
  | inl (dest', l', s') =>
      exists i', i < i' /\ dest' = p + i' /\ l' = l0 - i' /\ filled s0 p l0 i' s'
  | inr r => exists s', r = Some (l0 - i, s') /\ filled s0 p l0 i s' /\ (i < l0 -> ended s0 s')
  end.
Proof.
  intros Hf Hl (Hi & HT & Hr). unfold fread_round.
  destruct (Z.eqb_spec (l0 - i) 0) as [H0'|H0'].
  { exists s. split; [reflexivity|]. split; [|lia]. split; [assumption|]. auto. }
  assert (Hrr : rpos (sf s) = rend (sf s)) by (destruct Hr; [assumption|lia]).
  assert (Hf' : fillable s (p + i) (l0 - i)).
  { apply (took_fillable s0 _ _ s _ _ HT). intros x Hx. apply Hf. lia. }
  destruct (refill_ok s (p + i) (l0 - i)) as (k & s' & HR & Hk & HT' & Hpe & HE);
    [apply HT|assumption|lia|assumption|].
  fold (refill (p + i) (l0 - i) s). rewrite HR.
  assert (HTm : took s0 (span p l0) (bytes_at (sm s') p (Z.to_nat (i + k))) s')
    by (eapply took_more; eauto; lia).
  destruct (Z.eqb_spec k 0) as [->|Hk0].
  - exists s'. split; [reflexivity|]. rewrite Z.add_0_r in HTm. split.
    + split; [assumption|]. split; [assumption|]. left. apply Hpe. lia.
    + intros _. now apply (took_ended s0 _ _ s _ _ s' HT HT'), HE.
  - exists (i + k). split; [lia|]. split; [lia|]. split; [lia|].
    split; [lia|]. split; [assumption|].
    destruct (Z.eq_dec k (l0 - i)); [right; lia|left; apply Hpe; lia].
Qed.

Lemma fread_loop s0 p l0 i s :
  fillable s0 p l0 -> l0 < 2 ^ 64 -> filled s0 p l0 i s ->
  exists i' s', loop fread_round (S (Z.to_nat (l0 - i))) (p + i, l0 - i, s)
                = Some (Some (l0 - i', s')) /\
    filled s0 p l0 i' s' /\ (i' < l0 -> ended s0 s').
Proof.
  intros Hf Hl HI.
  destruct (loop_total fread_round
    (fun t => exists i, fst t = (p + i, l0 - i) /\ filled s0 p l0 i (snd t))
    (fun r => exists i' s', r = Some (l0 - i', s') /\ filled s0 p l0 i' s' /\
                            (i' < l0 -> ended s0 s'))
    (fun t => Z.to_nat (snd (fst t)))) with (fuel := S (Z.to_nat (l0 - i)))
    (s := (p + i, l0 - i, s)) as (r & Hr & i' & s' & -> & HR).
  - intros [[dest l] s1] (i1 & HE & HI1). cbn [fst snd] in *. injection HE as -> ->.
    pose proof (fread_round_ok s0 p l0 i1 s1 Hf Hl HI1) as HS.
    destruct (fread_round _) as [[[d' l'] s']|r]; cbn [fst snd].
    + destruct HS as (i' & Hlt & -> & -> & HI'). split; [eauto|]. destruct HI'. lia.
    + destruct HS as (s' & -> & HS). eauto.
  - exists i. split; [reflexivity|assumption].
  - cbn [fst snd]. lia.
  - exists i', s'. split; assumption.
Qed.

(** C20. fread on any stream whose read function keeps the promise of [Source]:
    the caller's region holds the next bytes available and they are no longer
    available; either that is all that was asked for, or the stream is at its
    end (and nothing is left) or has its error flag up, and the number of whole
    items is returned.  However the bytes are split over the buffer and the
    reads below makes no difference. *)
Theorem fread_correct s p size nmemb :
  in_stream s -> 0 <= size -> 0 <= nmemb -> size * nmemb < 2 ^ 64 ->
  fillable s p (size * nmemb) ->
  exists k s', fread p size nmemb s = Some (if size =? 0 then 0 else k / size, s') /\
    0 <= k <= size * nmemb /\
    took s (span p (size * nmemb)) (bytes_at (sm s') p (Z.to_nat k)) s' /\
    (k < size * nmemb -> ended s s').
Proof.
  intros HI Hsz Hnm Hmax Hf. set (l0 := size * nmemb) in *. unfold fread. fold l0.
  rewrite (u64_small l0) by nia.
  set (st1 := on_file touch s).
  assert (HI1 : in_stream st1) by exact HI.
  assert (HT1 : took s (span p l0) [] st1).
  { split; [|split; [exact HI|repeat split; auto]]. unfold avail. cbn [app]. f_equal.
    symmetry. apply remaining_frame; [apply HI|reflexivity|reflexivity]. }
  assert (HS : exists i s2, filled s p l0 i s2 /\
     (if rpos (sf st1) =? rend (sf st1) then (p, l0, st1)
      else (p + Z.min (rend (sf st1) - rpos (sf st1)) l0,
            l0 - Z.min (rend (sf st1) - rpos (sf st1)) l0,
            take_bytes p (Z.min (rend (sf st1) - rpos (sf st1)) l0) st1))
     = (p + i, l0 - i, s2)).
  { destruct (Z.eqb_spec (rpos (sf st1)) (rend (sf st1))) as [Hr|Hr].
    - exists 0, st1. rewrite Z.add_0_r, Z.sub_0_r. split; [|reflexivity].
      split; [nia|]. split; [exact HT1|]. now left.
    - set (k := Z.min _ l0).
      assert (Hge : rpos (sf st1) <= rend (sf st1)).
      { destruct HI1 as (_ & _ & _ & _ & _ & _ & _ & [?|?] & _); lia. }
      assert (Hk : 0 <= k <= l0) by (unfold k; nia).
      destruct (take_ok st1 p k HI1) as [HT2 Hd]; [unfold k; lia| |].
      { intros x Hx. apply (took_fillable s _ [] st1 p l0 HT1 Hf). lia. }
      exists k, (take_bytes p k st1). split; [|reflexivity]. split; [assumption|]. split.
      + rewrite Hd. apply (took_trans s _ (span p l0) (span p k) [] st1); auto. unfold span. lia.
      + cbn. unfold k. cbn. lia. }
  destruct HS as (i & s2 & HF & ->).
  destruct (fread_loop s p l0 i s2 Hf Hmax HF) as (k & s' & -> & (Hk & HT & _) & HE).
  cbn [bind]. exists k, s'. split; [|auto]. f_equal. f_equal.
  destruct (Z.eqb_spec size 0) as [->|Hs0].
  - replace l0 with 0 in * by lia. now replace (0 - k) with 0 by lia.
  - destruct (Z.eqb_spec (l0 - k) 0) as [H0'|_].
    + replace k with l0 by lia. unfold l0. now rewrite Z.mul_comm, Z.div_mul.
    + f_equal. lia.
Qed.

(** ** fgets *)

(** Storing in the caller's memory leaves the stream alone. *)
Lemma store_took s0 (R : Z -> Prop) d s q v :
  took s0 R d s -> R q -> fillable s0 q 1 -> 0 <= v < 256 ->
  took s0 R d (on_mem (fun m => m<{q := v}>) s).
Proof.
  intros HT Hq Hf Hv. set (s' := on_mem _ s).
  pose proof HT as (HA & HI & HM & He & HB & HZ & HE).
  pose proof HI as (Hs & Hb & Hz & Hm & Hkp & Hn & Hw & Hrr & Hwf).
  destruct (took_fillable s0 R d s q 1 HT Hf q) as [Hk Ha]; [lia|].
  assert (HA' : avail s' = avail s).
  { unfold avail. f_equal.
    - apply bytes_at_ext. intros x Hx. apply mset_ne. intros ->. apply Ha.
      cbn [s' on_mem sf] in Hx. unfold in_area, UNGET in *. lia.
    - apply remaining_frame; [assumption|reflexivity|]. intros x Hx. apply mset_ne. now intros ->. }
  split; [now rewrite HA'|]. split; [|split; [|rewrite HA'; auto]].
  - repeat split; try assumption; try now apply mset_wf. all: now apply (mset_wf (sm s)).
  - intros x Hx Ha'. cbn. rewrite mset_ne; [now apply HM|]. now intros ->.
Qed.

Section Fgets.
Variables (s0 : st E) (p loc N : Z).
Hypothesis HN : 0 < N.
Hypothesis Hdst : fillable s0 p (N + 1).
Hypothesis Hloc : fillable s0 loc 1.
Hypothesis Hsep : ~ p <= loc < p + N + 1.

Definition line_region (x : Z) : Prop := span p (N + 1) x \/ x = loc.

(** [i] bytes of the line have been read. *)
Definition line i s : Prop :=
  0 <= i <= N /\ took s0 line_region (bytes_at (sm s) p (Z.to_nat i)) s.

Definition no_nl (i : Z) s : Prop := ~ In 10 (bytes_at (sm s) p (Z.to_nat i)).

Lemma line_more i s (R : Z -> Prop) d s' :
  line i s -> took s R d s' -> (forall x, R x -> line_region x) ->
  (forall x, R x -> p <= x -> p + i <= x) -> i + Z.of_nat (length d) <= N ->
  bytes_at (sm s') (p + i) (length d) = d ->
  line (i + Z.of_nat (length d)) s' /\
  bytes_at (sm s') p (Z.to_nat (i + Z.of_nat (length d))) = bytes_at (sm s) p (Z.to_nat i) ++ d.
Proof.
  intros (Hi & HT) HT' HR Hlow Hd Hb.
  assert (HB : bytes_at (sm s') p (Z.to_nat (i + Z.of_nat (length d)))
               = bytes_at (sm s) p (Z.to_nat i) ++ d).
  { replace (Z.to_nat (i + Z.of_nat (length d))) with (Z.to_nat i + length d)%nat by lia.
    rewrite bytes_at_app, Z2Nat.id, Hb by lia. f_equal. apply bytes_at_ext. intros x Hx.
    apply HT'.
    - intros HRx. specialize (Hlow x HRx). lia.
    - apply (took_fillable s0 _ _ s p (N + 1) HT Hdst). lia. }
  split; [|assumption]. split; [lia|]. rewrite HB.
  now apply (took_trans s0 _ line_region R _ s).
Qed.

(** What a line that is complete looks like. *)
Definition complete (i : Z) s : Prop :=
  0 < i /\
  ((exists d, bytes_at (sm s) p (Z.to_nat i) = d ++ [10] /\ ~ In 10 d) \/
   no_nl i s /\ (i = N \/ ended s0 s /\ has (sf s) F_EOF = true)).

Definition fgets_result (r : option (option Z * st E)) : Prop :=
  exists e s', r = Some (e, s') /\ exists i, line i s' /\
    match e with
    | Some q => q = p + i /\ complete i s'
    | None => no_nl i s' /\ ended s0 s' /\ (i = 0 \/ has (sf s') F_EOF = false)
    end.

(** The part of the round that takes from the buffer. *)
Definition from_buffer (i : Z) s : bool * Z * Z * st E :=
  if rpos (sf s) =? rend (sf s) then (false, p + i, N - i, s)
  else
    let z := memchr (sm s) (rpos (sf s)) 10 (rend (sf s) - rpos (sf s)) in
    let k := match z with
             | Some z => z - rpos (sf s) + 1
             | None => rend (sf s) - rpos (sf s)
             end in
    let k := Z.min k (N - i) in
    (match z with Some _ => true | None => N - i - k =? 0 end,
     p + i + k, N - i - k, take_bytes (p + i) k s).

Lemma in_bytes_at (m : mem) b a n :
  In b (bytes_at m a n) -> exists x, a <= x < a + Z.of_nat n /\ m x = b.
Proof.
  revert a; induction n as [|n IH]; intros a; [easy|]. cbn [bytes_at In].
  intros [<-|Hin]; [exists a; split; [lia|reflexivity]|].
  destruct (IH _ Hin) as (x & Hx & Hm). exists x. split; [lia|assumption].
Qed.

Lemma from_buffer_ok i s :
  line i s -> no_nl i s -> i < N ->
  exists stop i' s', from_buffer i s = (stop, p + i', N - i', s') /\ line i' s' /\ i <= i' /\
    if stop then complete i' s'
    else no_nl i' s' /\ i' < N /\ rpos (sf s') = rend (sf s').
Proof.
  intros HL Hno Hi. unfold from_buffer. pose proof HL as (Hi0 & HT).
  destruct (Z.eqb_spec (rpos (sf s)) (rend (sf s))) as [Hr|Hr].
  { exists false, i, s. split; [reflexivity|]. split; [assumption|]. split; [lia|auto]. }
  assert (HI : in_stream s) by apply HT.
  pose proof HI as (_ & _ & _ & _ & _ & _ & _ & Hrr & Hwf).
  set (a := rpos (sf s)) in *. set (n := rend (sf s) - a).
  assert (Hn : 0 < n) by (unfold n; destruct Hrr; lia).
  pose proof (memchr_first (sm s) a 10 n Hwf ltac:(lia)) as HF.
  rewrite (u8_small 10) in HF by lia.
  set (z := memchr _ _ _ _) in *. set (k0 := match z with Some z => z - a + 1 | None => n end).
  set (k := Z.min k0 (N - i)).
  assert (Hk0 : 0 < k0 <= n) by (unfold k0, first_in in *; destruct z; lia).
  assert (Hk : 0 < k <= n /\ k <= k0 /\ k <= N - i) by (unfold k; lia).
  destruct (take_ok s (p + i) k HI) as [HT' Hd]; [fold a n; lia| |].
  { intros x Hx. apply (took_fillable s0 _ _ s p (N + 1) HT Hdst). lia. }
  fold a in HT', Hd. set (d := bytes_at (sm s) a (Z.to_nat k)) in *.
  set (s' := take_bytes (p + i) k s) in *.
  assert (Hdl : Z.of_nat (length d) = k) by (unfold d; rewrite bytes_at_length; lia).
  destruct (line_more i s (span (p + i) k) d s' HL HT') as [HL' HB].
  { intros x Hx. left. unfold span in *. lia. }
  { unfold span. lia. }
  { lia. }
  { replace (length d) with (Z.to_nat k) by lia. exact Hd. }
  rewrite Hdl in HL', HB.
  assert (Hnd : k < k0 \/ z = None -> no_nl (i + k) s').
  { intros Hz. unfold no_nl. rewrite HB, in_app_iff. intros [?|Hin]; [now apply Hno|].
    apply in_bytes_at in Hin as (x & Hx & Hm). unfold k0, first_in in *.
    destruct z as [z|]; [|apply (HF x); lia].
    destruct Hz as [Hz|]; [|discriminate]. apply (proj2 (proj2 HF) x); lia. }
  exists (match z with Some _ => true | None => N - i - k =? 0 end), (i + k), s'.
  split; [f_equal; f_equal; [f_equal|]; lia|]. split; [assumption|]. split; [lia|].
  destruct (Z.lt_ge_cases k k0) as [Hlt|Hge].
  { assert (HC : complete (i + k) s').
    { split; [lia|]. right. split; [auto|]. left. unfold k in *. lia. }
    destruct z; [assumption|]. now replace (N - i - k =? 0) with true by (unfold k in *; lia). }
  destruct z as [z|]; cbn [first_in] in HF.
  - split; [lia|]. left. assert (Hzk : Z.to_nat k = (Z.to_nat (z - a) + 1)%nat) by (unfold k0 in *; lia).
    exists (bytes_at (sm s) p (Z.to_nat i) ++ bytes_at (sm s) a (Z.to_nat (z - a))).
    rewrite HB. unfold d. rewrite Hzk, bytes_at_app, <- app_assoc. split.
    + f_equal. f_equal. cbn. f_equal. rewrite <- (proj1 (proj2 HF)). f_equal. lia.
    + rewrite in_app_iff. intros [?|Hin]; [now apply Hno|].
      apply in_bytes_at in Hin as (x & Hx & Hm). apply (proj2 (proj2 HF) x); lia.
  - destruct (Z.eqb_spec (N - i - k) 0) as [HNk|HNk].
    + split; [lia|]. right. split; [auto|]. left. lia.
    + split; [auto|]. split; [lia|]. unfold s'. cbn. fold a. unfold k0, n in *. lia.
Qed.

Lemma fgets_round_ok i s :
  line i s -> no_nl i s ->
  match fgets_round loc p (p + i, N - i, s) with
  | inl (q, n, s') => exists i', i < i' /\ q = p + i' /\ n = N - i' /\ line i' s' /\ no_nl i' s'
  | inr r => fgets_result r \/ i = N /\ r = Some (Some (p + i), s)
  end.
Proof.
  intros HL Hno. unfold fgets_round.
  destruct (Z.eqb_spec (N - i) 0) as [H0'|H0']; [right; split; [lia|reflexivity]|].
  pose proof HL as (Hi0 & HT). fold (from_buffer i s).
  destruct (from_buffer_ok i s HL Hno) as (stop & j & s1 & -> & HL1 & Hij & Hstop); [lia|].
  pose proof HL1 as (Hj0 & HT1). destruct stop.
  { left. exists (Some (p + j)), s1. split; [reflexivity|]. exists j. auto. }
  destruct Hstop as (Hno1 & HjN & Hr1).
  destruct (getc_ok s1 loc) as (c & s2 & HG & HC);
    [apply HT1|now apply (took_fillable s0 _ _ s1 loc 1 HT1)|].
  rewrite HG. destruct HC as [[Hc HT2]|(-> & HT2 & HE)].
  - replace (c <? 0) with false by lia. rewrite (u8_small c) by assumption.
    set (s3 := on_mem _ s2).
    assert (HT3 : took s1 (fun x => span loc 1 x \/ x = p + j) [c] s3).
    { apply store_took; [|now right| |assumption].
      - destruct HT2 as (A & B & C & D). split; [assumption|]. split; [assumption|].
        split; [|assumption]. intros x Hx. apply C. tauto.
      - intros x Hx. apply (took_fillable s0 _ _ s1 p (N + 1) HT1 Hdst). lia. }
    destruct (line_more j s1 _ [c] s3 HL1 HT3) as [HL3 HB]; cbn [length].
    { unfold line_region, span. lia. }
    { unfold span. lia. }
    { lia. }
    { cbn. now rewrite mset_eq. }
    cbn [length Z.of_nat Pos.of_succ_nat] in HL3, HB.
    destruct (Z.eqb_spec c 10) as [->|Hc10].
    + left. exists (Some (p + j + 1)), s3. split; [reflexivity|]. exists (j + 1).
      split; [assumption|]. split; [lia|]. split; [lia|]. left. eexists. split; [exact HB|exact Hno1].
    + exists (j + 1). split; [lia|]. split; [lia|]. split; [lia|]. split; [assumption|].
      unfold no_nl. rewrite HB, in_app_iff. cbn. intros [?|[?|[]]]; [now apply Hno1|lia].
  - replace (EOF <? 0) with true by reflexivity. left.
    destruct (line_more j s1 _ [] s2 HL1 HT2) as [HL2 HB]; try (unfold line_region, span; cbn; lia);
      [reflexivity|].
    cbn [length Z.of_nat] in HL2, HB. rewrite Z.add_0_r, app_nil_r in *.
    assert (Hno2 : no_nl j s2) by (unfold no_nl; now rewrite HB).
    assert (HE0 := took_ended s0 _ _ s1 _ _ s2 HT1 HT2 HE).
    eexists _, s2. split; [reflexivity|]. exists j. split; [assumption|].
    destruct (Z.eqb_spec (p + j) p) as [Hp|Hp]; cbn [orb].
    + split; [assumption|]. split; [assumption|]. left. lia.
    + destruct (has (sf s2) F_EOF) eqn:HF; cbn [negb].
      * split; [reflexivity|]. split; [lia|]. right. auto.
      * auto.
Qed.

Lemma fgets_loop :
  in_stream s0 ->
  exists r, loop (fgets_round loc p) (S (Z.to_nat N)) (p, N, s0) = Some r /\ fgets_result r.
Proof.
  intros HI.
  destruct (loop_total (fgets_round loc p)
    (fun t => exists i, fst t = (p + i, N - i) /\ line i (snd t) /\ no_nl i (snd t))
    fgets_result (fun t => Z.to_nat (snd (fst t)))) with (fuel := S (Z.to_nat N))
    (s := (p, N, s0)) as (r & Hr & HR).
  - intros [[q n] s1] (i & HE & HL & Hno). cbn [fst snd] in *. injection HE as -> ->.
    pose proof (fgets_round_ok i s1 HL Hno) as HS.
    destruct (fgets_round _ _ _) as [[[q' n'] s']|r]; cbn [fst snd].
    + destruct HS as (i' & Hlt & -> & -> & HL' & Hno'). split; [eauto|]. destruct HL'. lia.
    + destruct HS as [?|[-> ->]]; [assumption|]. exists (Some (p + N)), s1.
      split; [reflexivity|]. exists N. split; [assumption|]. split; [reflexivity|].
      split; [assumption|]. right. auto.
  - exists 0. cbn [fst snd]. rewrite Z.add_0_r, Z.sub_0_r. split; [reflexivity|].
    split; [|easy]. split; [lia|]. now apply took_refl.
  - cbn [fst snd]. lia.
  - eauto.
Qed.
End Fgets.


(** ** ungetc *)

(** The bytes that can be pushed back: UNGET of them when nothing was. *)
Definition room s : Z :=
  (if rpos (sf s) =? 0 then buf (sf s) + buf_size (sf s) else rpos (sf s)) - (buf (sf s) - UNGET).

(** A state in which the read pointer is set, as ungetc makes it. *)
Lemma unget_ready s :
  in_stream s ->
  exists s1, (if rpos (sf s) =? 0 then let? (_, s) := __toread s in Some s else Some s) = Some s1 /\
    in_stream s1 /\ avail s1 = avail s /\ sm s1 = sm s /\ rpos (sf s1) <> 0 /\
    room s1 = room s /\ buf (sf s1) = buf (sf s) /\ buf_size (sf s1) = buf_size (sf s).
Proof.
  intros HI. pose proof HI as (Hs & Hb & Hz & Hm & Hk & Hn & Hw & Hrr & Hwf).
  destruct (Z.eqb_spec (rpos (sf s)) 0) as [Hr|Hr].
  - assert (Hre : rpos (sf s) = rend (sf s)) by (destruct Hrr as [?|?]; unfold UNGET in *; lia).
    destruct (toread_ok s HI Hre) as (e & s1 & -> & HT & Hsm & Hp & _).
    cbn [bind]. exists s1. split; [reflexivity|].
    destruct HT as (HA & HI1 & _ & _ & HB & HZ & _).
    split; [assumption|]. split; [now rewrite HA|]. split; [assumption|].
    unfold room. rewrite HB, HZ, Hp, Hr, Z.eqb_refl. unfold UNGET in *.
    replace (buf (sf s) + buf_size (sf s) =? 0) with false by lia. repeat split; lia.
  - exists s. auto 10.
Qed.

(** C24. ungetc: with room left the byte is pushed back: it is the next one
    available, the end-of-file flag is down and getc returns it and restores what
    was available.  UNGET bytes always fit after a read, and without room nothing
    changes and EOF is returned. *)
Theorem ungetc_correct s c :
  in_stream s -> 0 <= c < 256 ->
  (buf (sf s) <= rpos (sf s) \/ rpos (sf s) = 0 -> UNGET <= room s) /\
  (0 < room s ->
   exists s', ungetc c s = Some (c, s') /\ in_stream s' /\ avail s' = c :: avail s /\
     room s' = room s - 1 /\ has (sf s') F_EOF = false /\
     forall loc, exists s'', getc_unlocked loc s' = Some (c, s'') /\ avail s'' = avail s) /\
  (room s <= 0 -> ungetc c s = Some (EOF, s)).
Proof.
  intros HI Hc. pose proof HI as (Hs & Hb & Hz & _).
  split; [unfold room, UNGET in *; destruct (Z.eqb_spec (rpos (sf s)) 0); lia|].
  unfold ungetc. replace (c =? EOF) with false by (unfold EOF; lia).
  split.
  - intros Hroom. destruct (unget_ready s HI) as (s1 & -> & HI1 & HA & Hsm & Hnz & HR & HB & HZ).
    cbn [bind]. rewrite <- HR in *. unfold room in Hroom.
    replace (rpos (sf s1) =? 0) with false in * by lia.
    replace (rpos (sf s1) <=? buf (sf s1) - UNGET) with false by lia. cbn [orb].
    rewrite (u8_small c) by assumption. set (s' := on_file _ (on_mem _ _)).
    pose proof HI1 as (Hs1 & Hb1 & Hz1 & Hm1 & Hk1 & Hn1 & Hw1 & Hrr1 & Hwf1).
    assert (Hr1 : rpos (sf s') = rpos (sf s1) - 1 /\ rend (sf s') = rend (sf s1)) by (now split).
    assert (Hmem : forall x, x <> rpos (sf s1) - 1 -> sm s' x = sm s1 x)
      by (intros x Hx; now apply mset_ne).
    assert (Hat : sm s' (rpos (sf s1) - 1) = c) by (apply mset_eq).
    assert (Hrem : remaining s' = remaining s1).
    { apply remaining_frame; [assumption|reflexivity|]. intros x Hx. apply Hmem. intros ->.
      apply (Hk1 (rpos (sf s1) - 1)); [unfold in_area, UNGET in *; lia|assumption]. }
    assert (HA' : avail s' = c :: avail s1).
    { unfold avail. rewrite Hrem. unfold ahead at 1. rewrite (proj1 Hr1), (proj2 Hr1).
      replace (Z.to_nat (rend (sf s1) - (rpos (sf s1) - 1)))
        with (S (Z.to_nat (rend (sf s1) - rpos (sf s1)))) by (destruct Hrr1; lia).
      cbn [bytes_at app]. rewrite Hat. f_equal. f_equal. rewrite Z.sub_add. unfold ahead.
      apply bytes_at_ext. intros x Hx. apply Hmem. lia. }
    assert (HF : has (sf s') F_EOF = false).
    { unfold has. cbn [s' on_file sf clear flags with_flags].
      now rewrite Z.land_ldiff. }
    assert (HI' : in_stream s').
    { split; [assumption|]. split; [exact Hb1|]. split; [exact Hz1|]. split; [exact Hm1|].
      split; [exact Hk1|]. split; [|split; [exact Hw1|split]].
      - rewrite <- Hn1. now apply (has_clear_other (sf s1) F_EOF F_NORD).
      - right. destruct Hr1 as [-> ->]. change (buf (sf s')) with (buf (sf s1)).
        change (buf_size (sf s')) with (buf_size (sf s1)). unfold UNGET in *. lia.
      - now apply (mset_wf (sm s1)). }
    exists s'. split; [reflexivity|]. split; [assumption|]. split; [now rewrite HA', HA|].
    split; [|split; [assumption|]].
    + unfold room. rewrite (proj1 Hr1). change (buf (sf s')) with (buf (sf s1)).
      unfold UNGET in *. replace (rpos (sf s1) - 1 =? 0) with false by lia. 
      replace (rpos (sf s1) =? 0) with false by lia. lia.
    + intros loc. unfold getc_unlocked. rewrite (proj1 Hr1), (proj2 Hr1).
      replace (rpos (sf s1) - 1 =? rend (sf s1)) with false by (destruct Hrr1; lia).
      rewrite Hat. eexists. split; [reflexivity|]. rewrite <- HA.
      set (s'' := on_file _ s').
      assert (Hrem' : remaining s'' = remaining s').
      { apply remaining_frame; [apply HI'|reflexivity|reflexivity]. }
      unfold avail in *. rewrite Hrem', Hrem. f_equal. unfold ahead.
      cbn [s'' on_file sf with_r rpos rend sm].
      replace (rpos (sf s') + 1) with (rpos (sf s1)) by lia. rewrite (proj2 Hr1).
      apply bytes_at_ext. intros x Hx. apply Hmem. lia.
  - intros Hroom. unfold room in Hroom.
    destruct (Z.eqb_spec (rpos (sf s)) 0); [unfold UNGET in *; lia|]. cbn [bind].
    replace (rpos (sf s) =? 0) with false by lia.
    now replace (rpos (sf s) <=? buf (sf s) - UNGET) with true by lia.
Qed.
End Input.

(** ** Position *)

(** A source with a position in a content of bytes. *)
Class Seekable (E : Type) `{Source E} : Type := {
  content : st E -> list Z;
  posn : E -> Z;
  content_frame s s' : sm s' = sm s -> se s' = se s -> content s' = content s;
  remaining_at s :
    sound (se s) -> 0 <= posn (se s) /\ remaining s = skipn (Z.to_nat (posn (se s))) (content s);
  seek_ok s off whence :
    sound (se s) -> 0 <= whence <= 2 ->
    let base := if whence =? SEEK_SET then 0 else if whence =? SEEK_CUR then posn (se s)
                else Z.of_nat (length (content s)) in
    let '(r, s') := f_seek s off whence in
    sm s' = sm s /\ sf s' = sf s /\ sound (se s') /\
    (0 <= base + off <= Z.of_nat (length (content s)) -> 0 <= r) /\
    (r = base + off /\ 0 <= r /\ posn (se s') = r /\ content s' = content s \/
     r < 0 /\ se s' = se s)
}.

Section Position.
Context {E : Type} `{Seekable E}.
Implicit Type s : st E.

(** Where the program is in the content: what it can read is what follows.  (A
    byte that was pushed back need not be one of the content.) *)
Definition at_position s (pos : Z) : Prop :=
  in_stream s /\ 0 <= pos <= Z.of_nat (length (content s)) /\
  Z.of_nat (length (content s)) < 2 ^ 62 /\
  posn (se s) = pos + Z.of_nat (length (ahead s)) /\
  avail s = skipn (Z.to_nat pos) (content s).

Lemma ahead_length s : length (ahead s) = Z.to_nat (rend (sf s) - rpos (sf s)).
Proof. apply bytes_at_length. Qed.

(** Seeking below an unchanged stream. *)
Lemma seek_stream s off whence r s' :
  in_stream s -> 0 <= whence <= 2 -> f_seek s off whence = (r, s') ->
  sm s' = sm s /\ sf s' = sf s /\ in_stream s' /\ ahead s' = ahead s /\
  remaining s' = skipn (Z.to_nat (posn (se s'))) (content s').
Proof.
  intros HI Hwh HE. pose proof HI as (Hs & Hst).
  pose proof (seek_ok s off whence Hs Hwh) as HS. rewrite HE in HS.
  destruct HS as (Hm & Hf & Hs' & _).
  split; [assumption|]. split; [assumption|]. split; [|split].
  - split; [assumption|]. now rewrite Hf, Hm.
  - unfold ahead. now rewrite Hf, Hm.
  - now apply remaining_at.
Qed.

Lemma posn_le s pos : at_position s pos -> posn (se s) <= Z.of_nat (length (content s)).
Proof.
  intros (_ & Hpos & _ & Hp & HA). apply (f_equal (@length Z)) in HA.
  unfold avail in HA. rewrite length_app, length_skipn in HA. lia.
Qed.

Lemma ftello_ok s pos :
  at_position s pos -> exists s', __ftello_unlocked s = (pos, s') /\ at_position s' pos.
Proof.
  intros HP. pose proof (posn_le s pos HP) as Hple.
  destruct HP as (HI & Hpos & Hlen & Hp & HA).
  pose proof HI as (Hs & Hb & Hz & Hm & Hk & Hn & Hw & Hrr & Hwf).
  unfold __ftello_unlocked. replace (wpos (sf s) =? wbase (sf s)) with true by lia.
  cbn [negb]. rewrite andb_false_r.
  assert (Hwh : 0 <= SEEK_CUR <= 2) by (unfold SEEK_CUR; lia).
  destruct (remaining_at s Hs) as [Hp0 Hrem].
  pose proof (seek_ok s 0 SEEK_CUR Hs Hwh) as HS.
  destruct (f_seek s 0 SEEK_CUR) as [r s'] eqn:HE.
  destruct (seek_stream s 0 SEEK_CUR r s' HI Hwh HE) as (Hm' & Hf' & HI' & Ha' & Hr').
  destruct HS as (_ & _ & _ & Hok & Hres).
  change (SEEK_CUR =? SEEK_SET) with false in *. change (SEEK_CUR =? SEEK_CUR) with true in *.
  cbv iota in *. rewrite Z.add_0_r in *.
  destruct Hres as [(-> & _ & Hp' & Hc')|[Hneg _]]; [|lia].
  assert (HP' : at_position s' pos).
  { split; [assumption|]. rewrite Hc', Hp', Ha'. split; [assumption|]. split; [assumption|].
    split; [assumption|]. unfold avail. rewrite Ha', Hr', Hp', Hc', <- Hrem. exact HA. }
  exists s'. split; [|assumption]. replace (posn (se s) <? 0) with false by lia.
  rewrite Hf'. rewrite ahead_length in Hp.
  destruct (Z.eqb_spec (rend (sf s)) 0); cbn [negb].
  - replace (wpos (sf s) - wbase (sf s)) with 0 by lia. rewrite Z.add_0_r.
    assert (posn (se s) = pos) as -> by (unfold UNGET in *; lia). now destruct (negb _).
  - f_equal. unfold UNGET in *. lia.
Qed.

Lemma fseeko_ok s pos off whence :
  at_position s pos -> 0 <= whence <= 2 -> - 2 ^ 62 <= off < 2 ^ 62 ->
  let target := (if whence =? SEEK_SET then 0 else if whence =? SEEK_CUR then pos
                 else Z.of_nat (length (content s))) + off in
  exists r s', __fseeko_unlocked off whence s = Some (r, s') /\
    (0 <= target <= Z.of_nat (length (content s)) ->
       r = 0 /\ at_position s' target /\ content s' = content s /\ has (sf s') F_EOF = false) /\
    (target < 0 -> r = -1 /\ avail s' = avail s).
Proof.
  intros HP Hwh Hoff target. pose proof (posn_le s pos HP) as Hple.
  destruct HP as (HI & Hpos & Hlen & Hp & HA).
  pose proof HI as (Hs & Hb & Hz & Hm & Hk & Hn & Hw & Hrr & Hwf).
  unfold __fseeko_unlocked.
  replace (negb (whence =? SEEK_CUR) && negb (whence =? SEEK_SET) && negb (whence =? SEEK_END))
    with false by (unfold SEEK_CUR, SEEK_SET, SEEK_END; lia).
  match goal with |- context [if ?b then s64 ?x else off] => set (off' := if b then s64 x else off) end.
  assert (Hoff' : off' = if whence =? SEEK_CUR then off - Z.of_nat (length (ahead s)) else off).
  { unfold off'. rewrite ahead_length. destruct (whence =? SEEK_CUR); cbn [andb]; [|reflexivity].
    destruct (Z.eqb_spec (rend (sf s)) 0); cbn [negb].
    - unfold UNGET in *. lia.
    - rewrite ahead_length in Hp. unfold UNGET in *. rewrite s64_small by lia. lia. }
  clearbody off'. replace (wpos (sf s) =? wbase (sf s)) with true by lia. cbn [bind].
  set (s1 := on_file _ s).
  assert (HI1 : in_stream s1) by exact (conj Hs (conj Hb (conj Hz (conj Hm (conj Hk (conj Hn
    (conj eq_refl (conj Hrr Hwf)))))))).
  assert (Hr1 : remaining s1 = remaining s) by (now apply remaining_frame).
  assert (Hc1 : content s1 = content s) by (now apply content_frame).
  pose proof (seek_ok s1 off' whence Hs Hwh) as HS.
  destruct (f_seek s1 off' whence) as [r s2] eqn:HE.
  destruct (seek_stream s1 off' whence r s2 HI1 Hwh HE) as (Hm2 & Hf2 & HI2 & Ha2 & Hr2).
  destruct HS as (_ & _ & _ & Hok & Hres). rewrite Hc1 in Hok, Hres.
  set (base := if whence =? SEEK_SET then 0 else _) in Hok, Hres.
  assert (Hbase : base + off' = target).
  { change (posn (se s1)) with (posn (se s)) in base. unfold base, target.
    rewrite Hoff'. unfold SEEK_SET, SEEK_CUR in *. destruct (Z.eqb_spec whence 0) as [->|];
      [reflexivity|]. destruct (whence =? 1); lia. }
  rewrite Hbase in Hok, Hres. clearbody base.
  destruct (Z.ltb_spec r 0) as [Hneg|Hpos'].
  - exists (-1), s2. split; [reflexivity|]. split; [lia|]. intros _. split; [reflexivity|].
    destruct Hres as [(_ & ? & _)|[_ He2]]; [lia|]. unfold avail. rewrite Ha2.
    change (ahead s1) with (ahead s). f_equal. rewrite <- Hr1.
    apply remaining_frame; [assumption|assumption|]. now rewrite Hm2.
  - destruct Hres as [(-> & _ & Hp2 & Hc2)|[? _]]; [|lia].
    set (s3 := on_file _ (on_file _ s2)).
    pose proof HI2 as (Hs2 & Hb2 & Hz2 & Hmx2 & Hk2 & Hn2 & Hw2 & _ & Hwf2).
    assert (HF : has (sf s3) F_NORD = false).
    { rewrite <- Hn2. apply (has_clear_other (with_r (sf s2) 0 0) F_EOF F_NORD). reflexivity. }
    assert (HI3 : in_stream s3).
    { exact (conj Hs2 (conj Hb2 (conj Hz2 (conj Hmx2 (conj Hk2 (conj HF (conj Hw2
        (conj (or_introl (conj eq_refl eq_refl)) Hwf2)))))))). }
    assert (Hr3 : remaining s3 = remaining s2) by (now apply remaining_frame).
    assert (Hc3 : content s3 = content s2) by (now apply content_frame).
    exists 0, s3. split; [reflexivity|]. split; [|lia]. intros Ht.
    split; [reflexivity|]. split; [|split; [congruence|]].
    + split; [assumption|]. rewrite Hc3, Hc2. split; [assumption|]. split; [assumption|].
      assert (Ha3 : ahead s3 = []) by reflexivity. unfold avail. rewrite Ha3, Hr3, Hr2, Hp2, Hc2.
      split; [cbn; change (se s3) with (se s2); lia|reflexivity].
    + unfold has. cbn [s3 on_file sf clear flags with_flags]. now rewrite Z.land_ldiff.
Qed.

End Position.

(** A block of memory is seekable. *)
Definition block_seekable (D L : Z) : @Seekable mcookie mem_ops (block_source D L).
Proof.
  refine (@Build_Seekable mcookie mem_ops (block_source D L)
            (fun s => bytes_at (sm s) D (Z.to_nat L)) m_pos _ _ _).
  - intros s s' -> _. reflexivity.
  - intros s (HD & HL & Hp & HLs). split; [assumption|]. cbn. unfold block_rest.
    destruct (Z.le_gt_cases (m_pos (se s)) L).
    + rewrite bytes_at_skipn, Z2Nat.id by lia. f_equal. lia.
    + rewrite skipn_all2 by (rewrite bytes_at_length; lia).
      now replace (Z.to_nat (L - m_pos (se s))) with 0%nat by lia.
  - intros s off whence (HD & HL & Hp & HLs) Hwh. cbn [f_seek mem_ops]. unfold mseek.
    replace ((0 <=? whence) && (whence <=? 2)) with true by lia. cbn [negb].
    rewrite bytes_at_length, Z2Nat.id by lia. rewrite HL.
    change SEEK_SET with 0. change SEEK_CUR with 1.
    set (base := if whence =? 0 then 0 else _).
    destruct ((off <? - base) || (m_size (se s) - base <? off)) eqn:Ebad.
    + split; [reflexivity|]. split; [reflexivity|]. split; [exact (conj HD (conj HL (conj Hp HLs)))|].
      split; [lia|]. right. split; [lia|reflexivity].
    + split; [reflexivity|]. split; [reflexivity|]. split; [repeat split; cbn; lia|].
      split; [lia|]. left. repeat split; lia.
Defined.

(** ** Examples *)

(** fmemopen of "ab\ncd" at 2100, read only; the FILE is at 1000. *)
Definition block_mem : mem := upd_list (fun _ => 0) 2100 [97; 98; 10; 99; 100].
Definition block_file : FILE := mkFILE F_NOWR 0 0 0 0 0 1008 1024 0 EOF.
Definition block_demo : st mcookie := mkst block_mem block_file (mkmcookie 0 5 5 2100 114) 0.

Example block_demo_opened :
  option_map (fun s => (sf s, se s, serr s)) (fmemopen block_mem 1000 2100 5 [114])
  = Some (sf block_demo, se block_demo, serr block_demo).
Proof. vm_compute. reflexivity. Qed.

Lemma block_demo_in : @in_stream _ _ (block_source 2100 5) block_demo.
Proof.
  assert (Hwf : wf_mem block_mem).
  { apply upd_list_wf; [intros ?; lia|]. repeat constructor; lia. }
  split; [repeat split; discriminate|]. split; [reflexivity|]. split; [easy|]. split; [reflexivity|].
  split; [intros x Hx Hk; unfold in_area, UNGET in Hx; cbn in Hx, Hk; lia|]. split; [reflexivity|].
  split; [reflexivity|]. split; [now left|exact Hwf].
Qed.

Lemma block_fillable p l :
  2105 <= p -> @fillable _ _ (block_source 2100 5) block_demo p l.
Proof. intros Hp x Hx. unfold in_area, UNGET. cbn. lia. Qed.

Lemma fread_correct_witness :
  exists k s', fread 3000 2 2 block_demo = Some (if 2 =? 0 then 0 else k / 2, s') /\
    0 <= k <= 2 * 2 /\
    @took _ _ (block_source 2100 5) block_demo (span 3000 (2 * 2))
      (bytes_at (sm s') 3000 (Z.to_nat k)) s' /\
    (k < 2 * 2 -> @ended _ _ (block_source 2100 5) block_demo s').
Proof.
  apply (@fread_correct _ _ (block_source 2100 5) block_demo 3000 2 2); try lia.
  - apply block_demo_in.
  - now apply block_fillable.
Defined.


Lemma ungetc_correct_witness :
  (1008 <= 0 \/ 0 = 0 -> UNGET <= room block_demo) /\
  (0 < room block_demo ->
   exists s', ungetc 120 block_demo = Some (120, s') /\
     @in_stream _ _ (block_source 2100 5) s' /\
     @avail _ _ (block_source 2100 5) s' = 120 :: @avail _ _ (block_source 2100 5) block_demo /\
     room s' = room block_demo - 1 /\ has (sf s') F_EOF = false /\
     forall loc, exists s'', getc_unlocked loc s' = Some (120, s'') /\
       @avail _ _ (block_source 2100 5) s'' = @avail _ _ (block_source 2100 5) block_demo) /\
  (room block_demo <= 0 -> ungetc 120 block_demo = Some (EOF, block_demo)).
Proof.
  apply (@ungetc_correct _ _ (block_source 2100 5) block_demo 120); [apply block_demo_in|lia].
Defined.


(** Reading the lines, to the end. *)
Example block_demo_run :
  match fgets 4000 3000 10 block_demo with
  | Some (r, s) =>
      (r, bytes_at (sm s) 3000 4, has (sf s) F_EOF,
       match fgets 4000 3100 10 s with
       | Some (r, s) => (r, bytes_at (sm s) 3100 3, has (sf s) F_EOF,
           option_map fst (fgets 4000 3200 10 s), fst (__ftello_unlocked s))
       | None => (0, [], false, None, 0)
       end)
  | None => (0, [], false, (0, [], false, None, 0))
  end = (3000, [97; 98; 10; 0], false, (3100, [99; 100; 0], true, Some 0, 5)).
Proof. vm_compute. reflexivity. Qed.
