(* ===== verification/Printf.v ===== *)
(** * Printf: formatted output

    Models src/stdio/vfprintf.c but for the floating-point conversions:
    printf_core with its table of conversions, its two passes (the first collects
    the types of positional arguments), the integer, character, string and wide
    conversions, padding, and the error paths; vfprintf on the streams of Stdio;
    vsnprintf.

    [printf_core] is written against any destination (type O) with an error flag
    and an operation that takes the bytes of one call of out().  The format and
    the strings it prints are read from the memory [m]; memory the call writes
    (%n, the destination) does not overlap them, as the restrict qualifiers say.
    A va_list is a list of arguments, integers and pointers being integers.  The
    conversion of floating-point values, fmt_fp, is a parameter, as are the type
    F of the values and the address of strerror's message. *)

From Stdlib Require Import ZArith Lia ZifyBool List Bool.
From S2P Require Import Prelude MemCopy Strings Ctype Utf8 Stdio.
Import ListNotations.
Open Scope Z_scope.

(** ** Flags and states *)

Definition ALT_FORM : Z := Z.shiftl 1 (35 - 32).
Definition ZERO_PAD : Z := Z.shiftl 1 (48 - 32).
Definition LEFT_ADJ : Z := Z.shiftl 1 (45 - 32).
Definition PAD_POS : Z := Z.shiftl 1 (32 - 32).
Definition MARK_POS : Z := Z.shiftl 1 (43 - 32).
Definition GROUPED : Z := Z.shiftl 1 (39 - 32).
Definition FLAGMASK : Z :=
  fold_left Z.lor [ALT_FORM; ZERO_PAD; LEFT_ADJ; PAD_POS; MARK_POS; GROUPED] 0.

Definition BARE : Z := 0.
Definition LPRE : Z := 1.
Definition LLPRE : Z := 2.
Definition HPRE : Z := 3.
Definition HHPRE : Z := 4.
Definition BIGLPRE : Z := 5.
Definition ZTPRE : Z := 6.
Definition JPRE : Z := 7.
Definition STOP : Z := 8.
Definition PTR : Z := 9.
Definition INT : Z := 10.
Definition UINT : Z := 11.
Definition ULLONG : Z := 12.
Definition LONG : Z := 13.
Definition ULONG : Z := 14.
Definition SHORT : Z := 15.
Definition USHORT : Z := 16.
Definition CHAR : Z := 17.
Definition UCHAR : Z := 18.
Definition LLONG : Z := 19.
Definition SIZET : Z := 20.
Definition IMAX : Z := 21.
Definition UMAX : Z := 22.
Definition PDIFF : Z := 23.
Definition UIPTR : Z := 24.
Definition DBL : Z := 25.
Definition LDBL : Z := 26.
Definition NOARG : Z := 27.

(** The rows of states[]: conversion characters with the state they lead to;
    what is not listed leads to 0. *)
Definition floats (st : Z) : list (Z * Z) :=
  map (fun c => (c, st)) [101; 102; 103; 97; 69; 70; 71; 65].

Definition states : list (list (Z * Z)) := [
  [(100, INT); (105, INT); (111, UINT); (117, UINT); (120, UINT); (88, UINT)] ++ floats DBL ++
  [(99, INT); (67, UINT); (115, PTR); (83, PTR); (112, UIPTR); (110, PTR); (109, NOARG);
   (108, LPRE); (104, HPRE); (76, BIGLPRE); (122, ZTPRE); (106, JPRE); (116, ZTPRE)];
  [(100, LONG); (105, LONG); (111, ULONG); (117, ULONG); (120, ULONG); (88, ULONG)] ++
  floats DBL ++ [(99, UINT); (115, PTR); (110, PTR); (108, LLPRE)];
  [(100, LLONG); (105, LLONG); (111, ULLONG); (117, ULLONG); (120, ULLONG); (88, ULLONG);
   (110, PTR)];
  [(100, SHORT); (105, SHORT); (111, USHORT); (117, USHORT); (120, USHORT); (88, USHORT);
   (110, PTR); (104, HHPRE)];
  [(100, CHAR); (105, CHAR); (111, UCHAR); (117, UCHAR); (120, UCHAR); (88, UCHAR);
   (110, PTR)];
  floats LDBL ++ [(110, PTR)];
  [(100, PDIFF); (105, PDIFF); (111, SIZET); (117, SIZET); (120, SIZET); (88, SIZET);
   (110, PTR)];
  [(100, IMAX); (105, IMAX); (111, UMAX); (117, UMAX); (120, UMAX); (88, UMAX); (110, PTR)]
].

Definition next_state (st c : Z) : Z :=
  match find (fun e => fst e =? c) (nth (Z.to_nat st) states []) with
  | Some e => snd e
  | None => 0
  end.

(** OOB(x) for a char x, given as a byte. *)
Definition OOB (b : Z) : bool := 122 - 65 <? u32 (s8 b - 65).

(** ** Arguments *)

Definition s16 (z : Z) : Z := (z + 32768) mod 65536 - 32768.
Definition u16 (z : Z) : Z := z mod 65536.
Definition NL_ARGMAX : Z := 9.
Definition INTMAX_MAX : Z := 9223372036854775807.

Section Core.
Context {F : Type}.

(** An argument of the caller: an integer or a pointer, or a floating value. *)
Inductive vararg : Type := VI (z : Z) | VF (x : F).

(** union arg *)
Inductive arg : Type := AI (i : Z) | AF (f : F).

Definition arg_i (a : arg) : Z := match a with AI i => i | AF _ => 0 end.

(** The conversion pop_arg makes of the value it takes; [None]: the argument is
    not of the kind the directive says. *)
Definition pop_value (type : Z) (v : vararg) : option arg :=
  match v with
  | VI z =>
      if (type =? INT) then Some (AI (u64 (s32 z)))
      else if type =? UINT then Some (AI (u32 z))
      else if type =? SHORT then Some (AI (u64 (s16 z)))
      else if type =? USHORT then Some (AI (u16 z))
      else if type =? CHAR then Some (AI (u64 (s8 z)))
      else if type =? UCHAR then Some (AI (u8 z))
      else if (type =? DBL) || (type =? LDBL) then None
      else Some (AI (u64 z))
  | VF x => if (type =? DBL) || (type =? LDBL) then Some (AF x) else None
  end.

Definition pop_arg (type : Z) (ap : list vararg) : option (arg * list vararg) :=
  match ap with
  | [] => None
  | v :: ap => match pop_value type v with Some a => Some (a, ap) | None => None end
  end.

(** ** The state of printf_core *)

(** Why the function stops: it returns r, at inval, at overflow, it returns -1
    because the stream has an error or because wctomb failed (and set errno), or
    the arguments do not fit the format. *)
Inductive stop : Type := Ret (r : Z) | Inval | Overflow | Fail | Illegal | Undef.

Context {O : Type}.

(** %n: the address, the number of bytes, the value. *)
Record core := mkcore {
  dst : O;
  cnt : Z; len : Z;
  fmt : Z;
  l10n : bool;
  ap : list vararg;
  nl_arg : list arg; nl_type : list Z;
  stores : list (Z * Z * Z)
}.

Definition with_dst (c : core) (o : O) : core :=
  mkcore o (cnt c) (len c) (fmt c) (l10n c) (ap c) (nl_arg c) (nl_type c) (stores c).
Definition with_len (c : core) (l : Z) : core :=
  mkcore (dst c) (cnt c) l (fmt c) (l10n c) (ap c) (nl_arg c) (nl_type c) (stores c).
Definition with_cnt (c : core) (n : Z) : core :=
  mkcore (dst c) n (len c) (fmt c) (l10n c) (ap c) (nl_arg c) (nl_type c) (stores c).
Definition with_fmt (c : core) (s : Z) : core :=
  mkcore (dst c) (cnt c) (len c) s (l10n c) (ap c) (nl_arg c) (nl_type c) (stores c).
Definition with_l10n (c : core) (b : bool) : core :=
  mkcore (dst c) (cnt c) (len c) (fmt c) b (ap c) (nl_arg c) (nl_type c) (stores c).
Definition with_ap (c : core) (a : list vararg) : core :=
  mkcore (dst c) (cnt c) (len c) (fmt c) (l10n c) a (nl_arg c) (nl_type c) (stores c).
Definition with_nl_arg (c : core) (a : list arg) : core :=
  mkcore (dst c) (cnt c) (len c) (fmt c) (l10n c) (ap c) a (nl_type c) (stores c).
Definition with_nl_type (c : core) (a : list Z) : core :=
  mkcore (dst c) (cnt c) (len c) (fmt c) (l10n c) (ap c) (nl_arg c) a (stores c).
Definition with_stores (c : core) (a : list (Z * Z * Z)) : core :=
  mkcore (dst c) (cnt c) (len c) (fmt c) (l10n c) (ap c) (nl_arg c) (nl_type c) a.

Fixpoint set_nth {A} (i : nat) (x : A) (l : list A) : list A :=
  match i, l with
  | Datatypes.O, _ :: l => x :: l
  | S i, y :: l => y :: set_nth i x l
  | _, [] => []
  end.

(** Sequencing with early exits. *)
Definition step {A B} (e : A + stop) (k : A -> B + stop) : B + stop :=
  match e with inl a => k a | inr r => inr r end.
Notation "'let!' x := e 'in' k" := (step e (fun x => k))
  (at level 10, x pattern, e at level 100, k at level 200).

Variables (err : O -> bool) (put : O -> list Z -> O).
(** fmt_fp(f, y, w, p, fl, t, ps): its result and the bytes of its calls of out()
    (none when the result is negative: it fails before it prints). *)
Variable fmt_fp : F -> Z -> Z -> Z -> Z -> Z -> Z * list (list Z).
Variable strerror_msg : Z.
Variables (utf8 : bool) (m : mem) (fuel : nat).
(** f is not NULL. *)
Variable live : bool.

(** ** Output *)

(** out(f, s, l): the chars go as unsigned chars. *)
Definition out (o : O) (d : list Z) : O := if err o then o else put o (map u8 d).

Definition pad (o : O) (c w l fl : Z) : O :=
  if negb (Z.land fl (Z.lor LEFT_ADJ ZERO_PAD) =? 0) || (w <=? l) then o
  else
    let '(o, l) := while (fun t => 256 <=? snd t)
                         (fun t => (out (fst t) (repeat c 256), snd t - 256))
                         (Z.to_nat ((w - l) / 256)) (o, w - l) in
    out o (repeat c (Z.to_nat l)).

(** ** Digits: the bytes from a to z, z being the end of buf[24] *)

Definition xdigits : list Z :=
  [48; 49; 50; 51; 52; 53; 54; 55; 56; 57; 65; 66; 67; 68; 69; 70].

Definition BUF : nat := 24.

Fixpoint fmt_x_loop (k : nat) (x lower : Z) (s : list Z) : list Z :=
  match k with
  | Datatypes.O => s
  | S k =>
      if x =? 0 then s
      else fmt_x_loop k (Z.shiftr x 4) lower
             (Z.lor (nth (Z.to_nat (Z.land x 15)) xdigits 0) lower :: s)
  end.

Fixpoint fmt_o_loop (k : nat) (x : Z) (s : list Z) : list Z :=
  match k with
  | Datatypes.O => s
  | S k => if x =? 0 then s else fmt_o_loop k (Z.shiftr x 3) (48 + Z.land x 7 :: s)
  end.

Fixpoint fmt_u_loop (k : nat) (y : Z) (s : list Z) : list Z :=
  match k with
  | Datatypes.O => s
  | S k =>
      if 10 <=? y then fmt_u_loop k (y / 10) (48 + y mod 10 :: s)
      else if y =? 0 then s else 48 + y :: s
  end.

Definition fmt_x (x lower : Z) : list Z := fmt_x_loop BUF x lower [].
Definition fmt_o (x : Z) : list Z := fmt_o_loop BUF x [].
Definition fmt_u (x : Z) : list Z := fmt_u_loop BUF x [].

(** ** Reading the format *)

(** for (a=s; *s && *s!='%'; s++); *)
Fixpoint skip_text (k : nat) (s : Z) : Z :=
  match k with
  | Datatypes.O => s
  | S k => if negb (m s =? 0) && negb (m s =? 37) then skip_text k (s + 1) else s
  end.

(** for (z=s; s[0]=='%' && s[1]=='%'; z++, s+=2); *)
Fixpoint skip_percents (k : nat) (z s : Z) : Z * Z :=
  match k with
  | Datatypes.O => (z, s)
  | S k => if (m s =? 37) && (m (s + 1) =? 37) then skip_percents k (z + 1) (s + 2) else (z, s)
  end.

Definition getint_step (i b : Z) : Z :=
  if (INT_MAX / 10 <? u32 i) || (INT_MAX - 10 * i <? b - 48) then -1 else 10 * i + (b - 48).

Fixpoint getint_loop (k : nat) (i s : Z) : Z * Z :=
  match k with
  | Datatypes.O => (i, s)
  | S k => if isdigit (s8 (m s)) then getint_loop k (getint_step i (m s)) (s + 1) else (i, s)
  end.

Definition getint (s : Z) : Z * Z := getint_loop fuel 0 s.

Definition is_flag (b : Z) : bool :=
  (u32 (s8 b - 32) <? 32) && negb (Z.land FLAGMASK (Z.shiftl 1 (s8 b - 32)) =? 0).

Fixpoint flags_loop (k : nat) (fl s : Z) : Z * Z :=
  match k with
  | Datatypes.O => (fl, s)
  | S k =>
      if is_flag (m s) then flags_loop k (Z.lor fl (Z.shiftl 1 (s8 (m s) - 32))) (s + 1)
      else (fl, s)
  end.

(** digit followed by a dollar sign *)
Definition positional (s : Z) : bool := isdigit (s8 (m s)) && (m (s + 1) =? 36).

(** argpos; -1 when the argument is the next one. *)
Definition parse_argpos (c : core) : Z * core :=
  let s := fmt c in
  if positional (s + 1) then (m (s + 1) - 48, with_fmt (with_l10n c true) (s + 3))
  else (-1, with_fmt c (s + 1)).

(** An asterisk at s-1: the int it stands for. *)
Definition star (c : core) (set_l10n : bool) : (Z * core) + stop :=
  let s := fmt c in
  if positional s then
    let c := if set_l10n then with_l10n c true else c in
    let i := Z.to_nat (m s - 48) in
    if live then inl (s32 (arg_i (nth i (nl_arg c) (AI 0))), with_fmt c (s + 2))
    else inl (0, with_fmt (with_nl_type c (set_nth i INT (nl_type c))) (s + 2))
  else if negb (l10n c) then
    if live then
      match pop_arg INT (ap c) with
      | Some (a, ap) => inl (s32 (arg_i a), with_ap c ap)
      | None => inr Undef
      end
    else inl (0, c)
  else inr Inval.

(** The width and the flags. *)
Definition parse_width (fl : Z) (c : core) : (Z * Z * core) + stop :=
  if m (fmt c) =? 42 then
    let! (w, c) := star (with_fmt c (fmt c + 1)) true in
    if w <? 0 then inl (s32 (- w), Z.lor fl LEFT_ADJ, c) else inl (w, fl, c)
  else
    let '(w, s) := getint (fmt c) in
    if w <? 0 then inr Overflow else inl (w, fl, with_fmt c s).

(** The precision and xp. *)
Definition parse_prec (c : core) : (Z * bool * core) + stop :=
  let s := fmt c in
  if (m s =? 46) && (m (s + 1) =? 42) then
    let! (p, c) := star (with_fmt c (s + 2)) false in
    inl (p, 0 <=? p, c)
  else if m s =? 46 then
    let '(p, s) := getint (s + 1) in inl (p, true, with_fmt c s)
  else inl (-1, false, c).

(** The states: ps, st and the end of the directive. *)
Fixpoint parse_type (k : nat) (st s : Z) : (Z * Z * Z) + stop :=
  match k with
  | Datatypes.O => inr Undef
  | S k =>
      if OOB (m s) then inr Inval
      else
        let st' := next_state st (m s) in
        if (1 <=? st') && (st' <=? STOP) then parse_type k st' (s + 1)
        else if st' =? 0 then inr Inval else inl (st, st', s + 1)
  end.

(** ** Conversions *)

(** What a conversion comes to: text for the common tail (the bytes a..z, the
    prefix, p, fl), or output done with l its count. *)
Inductive conv : Type :=
| Tail (a prefix : list Z) (p fl : Z)
| Done (c : core) (l : Z).

Definition prefixes : list Z := [45; 43; 32; 32; 32; 48; 88; 48; 120].  (* "-+   0X0x" *)
Definition prefix_at (k pl : Z) : list Z := firstn (Z.to_nat pl) (skipn (Z.to_nat k) prefixes).

Definition bit (fl b : Z) : bool := negb (Z.land fl b =? 0).

(** ifmt_tail *)
Definition ifmt_tail (i : Z) (a prefix : list Z) (xp : bool) (p fl : Z) : conv + stop :=
  if xp && (p <? 0) then inr Overflow
  else
    let fl := if xp then Z.ldiff fl ZERO_PAD else fl in
    if (i =? 0) && (p =? 0) then inl (Tail [] prefix p fl)
    else inl (Tail a prefix (Z.max p (Z.of_nat (length a) + b2z (i =? 0))) fl).

Definition conv_x (i t : Z) (xp : bool) (p fl : Z) : conv + stop :=
  let a := fmt_x i (Z.land t 32) in
  ifmt_tail i a (if negb (i =? 0) && bit fl ALT_FORM then prefix_at (Z.shiftr t 4) 2 else [])
            xp p fl.

Definition conv_o (i : Z) (xp : bool) (p fl : Z) : conv + stop :=
  let a := fmt_o i in
  let p := if bit fl ALT_FORM && (p <? Z.of_nat (length a) + 1)
           then Z.of_nat (length a) + 1 else p in
  ifmt_tail i a [] xp p fl.

Definition conv_d (i : Z) (xp : bool) (p fl : Z) : conv + stop :=
  let '(i, prefix) :=
    if INTMAX_MAX <? i then (u64 (- i), prefix_at 0 1)
    else if bit fl MARK_POS then (i, prefix_at 1 1)
    else if bit fl PAD_POS then (i, prefix_at 2 1)
    else (i, []) in
  ifmt_tail i (fmt_u i) prefix xp p fl.

Definition conv_u (i : Z) (xp : bool) (p fl : Z) : conv + stop :=
  ifmt_tail i (fmt_u i) [] xp p fl.

Definition conv_c (i fl : Z) : conv := Tail [u8 i] [] 1 (Z.ldiff fl ZERO_PAD).

Definition null_string : list Z := [40; 110; 117; 108; 108; 41].  (* "(null)" *)

Definition conv_s (a p fl : Z) : conv + stop :=
  let fl := Z.ldiff fl ZERO_PAD in
  let n := if p <? 0 then INT_MAX else p in
  if a =? 0 then
    let d := firstn (Z.to_nat n) null_string in
    inl (Tail d [] (Z.of_nat (length d)) fl)
  else
    let k := strnlen m a n in
    if (p <? 0) && negb (m (a + k) =? 0) then inr Overflow
    else inl (Tail (bytes_at m a (Z.to_nat k)) [] k fl).

(** wctomb(mb, wc): its result and the bytes. *)
Definition wctomb (wc : Z) : Z * list Z :=
  let '(r, mb, _) := wcrtomb utf8 (fun _ => 0) (Some 0) wc in
  (s32 r, bytes_at mb 0 (Z.to_nat (s32 r))).

(** The k-th wide character of the string: memory for S, wc[2] for C. *)
Definition wide (a : option Z) (v : Z) (k : Z) : Z :=
  match a with
  | Some a => s32 (load 4 m (a + 4 * k))
  | None => if k =? 0 then s32 v else 0
  end.

(** The first loop of case 'S': i and l when it is left. *)
Fixpoint wide_size (n : nat) (ws : Z -> Z) (p k i l : Z) : option (Z * Z) :=
  match n with
  | Datatypes.O => None
  | S n =>
      if negb (i <? u64 p) || (ws k =? 0) then Some (i, l)
      else
        let l := fst (wctomb (ws k)) in
        if (l <? 0) || (u64 (p - i) <? l) then Some (i, l)
        else wide_size n ws p (k + 1) (i + l) l
  end.

(** The second one. *)
Fixpoint wide_out (n : nat) (ws : Z -> Z) (p k i : Z) (o : O) : O :=
  match n with
  | Datatypes.O => o
  | S n =>
      if negb (i <? u32 p) || (ws k =? 0) then o
      else
        let '(l, mb) := wctomb (ws k) in
        if p <? i + l then o else wide_out n ws p (k + 1) (i + l) (out o mb)
  end.

Definition conv_S (c : core) (ws : Z -> Z) (w p fl : Z) : conv + stop :=
  match wide_size fuel ws p 0 0 0 with
  | None => inr Undef
  | Some (i, l) =>
      if l <? 0 then inr Illegal
      else if INT_MAX <? i then inr Overflow
      else
        let o := pad (dst c) 32 w i fl in
        let o := wide_out fuel ws i 0 0 o in
        let o := pad o 32 w i (Z.lxor fl LEFT_ADJ) in
        inl (Done (with_dst c o) (if i <? w then w else i))
  end.

(** %n: the number of bytes of the object pointed to, 0 for none. *)
Definition n_size (ps : Z) : Z :=
  if ps =? BARE then 4 else if ps =? LPRE then 8 else if ps =? LLPRE then 8
  else if ps =? HPRE then 2 else if ps =? HHPRE then 1
  else if (ps =? ZTPRE) || (ps =? JPRE) then 8 else 0.

Definition conv_n (c : core) (a ps : Z) : conv :=
  Done (if n_size ps =? 0 then c else with_stores c (stores c ++ [(a, n_size ps, cnt c)]))
       (len c).

(** The switch on the conversion character t. *)
Definition convert (c : core) (a : arg) (ps t w : Z) (xp : bool) (p fl : Z) : conv + stop :=
  let i := arg_i a in
  if t =? 110 then inl (conv_n c i ps)
  else if t =? 112 then
    conv_x i 120 xp (if 16 <? u64 p then p else 16) (Z.lor fl ALT_FORM)
  else if (t =? 120) || (t =? 88) then conv_x i t xp p fl
  else if t =? 111 then conv_o i xp p fl
  else if (t =? 100) || (t =? 105) then conv_d i xp p fl
  else if t =? 117 then conv_u i xp p fl
  else if t =? 99 then inl (conv_c i fl)
  else if t =? 109 then conv_s strerror_msg p fl
  else if t =? 115 then conv_s i p fl
  else if t =? 67 then if i =? 0 then inl (conv_c i fl) else conv_S c (wide None i) w (-1) fl
  else if t =? 83 then conv_S c (wide (Some i) 0) w p fl
  else
    match a with
    | AI _ => inr Undef
    | AF x =>
        if xp && (p <? 0) then inr Overflow
        else
          let '(l, ds) := fmt_fp x w p fl t ps in
          if l <? 0 then inr Overflow
          else inl (Done (with_dst c (fold_left out ds (dst c))) l)
    end.

(** The tail all the text conversions end in. *)
Definition emit (c : core) (a prefix : list Z) (w p fl : Z) : core + stop :=
  let za := Z.of_nat (length a) in
  let pl := Z.of_nat (length prefix) in
  let p := if p <? za then za else p in
  if INT_MAX - pl <? p then inr Overflow
  else
    let w := if w <? pl + p then pl + p else w in
    if INT_MAX - cnt c <? w then inr Overflow
    else
      let o := pad (dst c) 32 w (pl + p) fl in
      let o := out o prefix in
      let o := pad o 48 w (pl + p) (Z.lxor fl ZERO_PAD) in
      let o := pad o 48 p za 0 in
      let o := out o a in
      let o := pad o 32 w (pl + p) (Z.lxor fl LEFT_ADJ) in
      inl (with_len (with_dst c o) w).

(** The argument of the directive: [None] when the pass only collects types. *)
Definition take_arg (c : core) (argpos st : Z) : (option arg * core) + stop :=
  if st =? NOARG then
    if 0 <=? argpos then inr Inval else inl (Some (AI 0), c)
  else if 0 <=? argpos then
    if live then inl (Some (nth (Z.to_nat argpos) (nl_arg c) (AI 0)), c)
    else inl (None, with_nl_type c (set_nth (Z.to_nat argpos) st (nl_type c)))
  else if live then
    match pop_arg st (ap c) with
    | Some (a, ap) => inl (Some a, with_ap c ap)
    | None => inr Undef
    end
  else inr (Ret 0).

(** What is read of a directive: ps, the conversion character, fl, w, xp, p and
    the argument. *)
Record dir := mkdir {
  d_ps : Z; d_t : Z; d_fl : Z; d_w : Z; d_xp : bool; d_p : Z; d_arg : option arg
}.

(** A directive is read, [fmt c] being at its percent sign. *)
Definition parse (c : core) : (dir * core) + stop :=
  let '(argpos, c) := parse_argpos c in
  let '(fl, s) := flags_loop fuel 0 (fmt c) in
  let! (w, fl, c) := parse_width fl (with_fmt c s) in
  let! (p, xp, c) := parse_prec c in
  let! (ps, st, s) := parse_type 8 0 (fmt c) in
  let! (a, c) := take_arg (with_fmt c s) argpos st in
  inl (mkdir ps (m (s - 1)) fl w xp p a, c).

(** And printed. *)
Definition act (d : dir) (c : core) : core + stop :=
  if negb live then inl c
  else if err (dst c) then inr Fail
  else
    match d_arg d with
    | None => inr Undef
    | Some a =>
        let t := d_t d in
        let t := if negb (d_ps d =? 0) && (Z.land t 15 =? 3) then Z.ldiff t 32 else t in
        let fl := if bit (d_fl d) LEFT_ADJ then Z.ldiff (d_fl d) ZERO_PAD else d_fl d in
        let! r := convert c a (d_ps d) t (d_w d) (d_xp d) (d_p d) fl in
        match r with
        | Done c l => inl (with_len c l)
        | Tail a prefix p fl => emit c a prefix (d_w d) p fl
        end
    end.

Definition directive (c : core) : core + stop := let! (d, c) := parse c in act d c.

(** The end of the first pass: the positional arguments are fetched. *)
Fixpoint fetch (i : nat) (types : list Z) (ap : list vararg) (args : list arg)
  : option (nat * list vararg * list arg) :=
  match types with
  | [] => Some (i, ap, args)
  | t :: types =>
      if t =? 0 then Some (i, ap, args)
      else match pop_arg t ap with
           | Some (a, ap) => fetch (S i) types ap (set_nth i a args)
           | None => None
           end
  end.

Definition finish (c : core) : core * stop :=
  if live then (c, Ret (cnt c))
  else if negb (l10n c) then (c, Ret 0)
  else
    match fetch 1 (tl (nl_type c)) (ap c) (nl_arg c) with
    | None => (c, Undef)
    | Some (i, ap, args) =>
        let c := with_nl_arg (with_ap c ap) args in
        (c, if forallb (fun t => t =? 0) (skipn i (nl_type c)) then Ret 1 else Inval)
    end.

(** One round of the loop. *)
Definition core_round (c : core) : core + core * stop :=
  if INT_MAX - cnt c <? len c then inr (c, Overflow)
  else
    let c := with_cnt c (cnt c + len c) in
    if m (fmt c) =? 0 then inr (finish c)
    else
      let a := fmt c in
      let s := skip_text fuel a in
      let '(z, s) := skip_percents fuel s s in
      if INT_MAX - cnt c <? z - a then inr (c, Overflow)
      else
        let c := with_fmt (with_len c (z - a)) s in
        let c := if live then with_dst c (out (dst c) (bytes_at m a (Z.to_nat (z - a)))) else c in
        if negb (z - a =? 0) then inl c
        else match directive c with inl c => inl c | inr r => inr (c, r) end.

Definition printf_core (c : core) : option (core * stop) := loop core_round fuel c.
End Core.

(** ** vfprintf *)

Definition stop_value (r : stop) : Z := match r with Ret r => r | _ => -1 end.
Definition stop_errno (r : stop) (e : Z) : Z :=
  match r with Inval => EINVAL | Overflow => EOVERFLOW | Illegal => EILSEQ | _ => e end.

Section Vfprintf.
Context {E F : Type} `{FileOps E}.
Variable fmt_fp : F -> Z -> Z -> Z -> Z -> Z -> Z * list (list Z).
Variables (strerror_msg : Z) (utf8 : bool) (m : mem) (fuel : nat).
(** Where the bytes an out() prints lie, and internal_buf. *)
Variables (loc internal_buf : Z).

(** The destination is the stream; [None] is a call that would not end. *)
Definition stream_err (o : option (st E)) : bool :=
  match o with Some s => has (sf s) F_ERR | None => true end.

Definition stream_put (o : option (st E)) (d : list Z) : option (st E) :=
  let? s := o in
  let? (_, s) := __fwritex loc (Z.of_nat (length d)) (on_mem (fun m => upd_list m loc d) s) in
  Some s.

Definition start (o : option (st E)) (fmt : Z) (ap : list (@vararg F)) (args : list arg)
  : core (F:=F) (O:=option (st E)) :=
  mkcore o 0 0 fmt false ap args (repeat 0 10) [].

Definition core_of (live : bool) (c : core (F:=F)) : option (core * stop) :=
  printf_core stream_err stream_put fmt_fp strerror_msg utf8 m fuel live c.

(** The stream without its error flag, with a buffer if it had none. *)
Definition prepare (s : st E) : st E :=
  let s := on_file (fun f => clear f F_ERR) s in
  if buf_size (sf s) =? 0
  then on_file (fun f => with_w (with_buf f internal_buf 80) 0 0 0) s
  else s.

(** The buffer that was lent is flushed and taken back. *)
Definition give_back (saved_buf : option Z) (ret : Z) (s : st E) : option (Z * st E) :=
  match saved_buf with
  | Some b =>
      let? (_, s) := f_write s 0 0 in
      let ret := if wpos (sf s) =? 0 then -1 else ret in
      Some (ret, on_file (fun f => with_w (with_buf f b 0) 0 0 0) s)
  | None => Some (ret, s)
  end.

(** What is done when all is printed. *)
Definition conclude (saved_buf : option Z) (olderr ret : Z) (s : st E) (stores : list (Z * Z * Z))
  : option (Z * st E * list (Z * Z * Z)) :=
  let? (ret, s) := give_back saved_buf ret s in
  let ret := if has (sf s) F_ERR then -1 else ret in
  Some (ret, on_file (fun f => raise f olderr) s, stores).

Definition vfprintf (fmt : Z) (ap : list (@vararg F)) (s : st E)
  : option (Z * st E * list (Z * Z * Z)) :=
  let? (c, r) := core_of false (start None fmt ap (repeat (AI 0) 10)) in
  if stop_value r <? 0 then Some (-1, set_errno (stop_errno r (serr s)) s, [])
  else
    let olderr := Z.land (flags (sf s)) F_ERR in
    let saved_buf := if buf_size (sf s) =? 0 then Some (buf (sf s)) else None in
    let s := prepare s in
    let '(e, s) := if wend (sf s) =? 0 then __towrite s else (0, s) in
    let? (ret, s, stores) :=
      (if negb (e =? 0) then Some (-1, s, [])
       else
         let? (c, r) := core_of true (start (Some s) fmt (Printf.ap c) (nl_arg c)) in
         let? s := dst c in
         Some (stop_value r, set_errno (stop_errno r (serr s)) s, stores c)) in
    conclude saved_buf olderr ret s stores.
End Vfprintf.

(** vsnprintf prints to a FILE of its own, at [fbuf] (buf[1]), over the string of
    at most [n] bytes at [s]; [dummy] is where it puts the terminator when n is
    0. *)
Section Vsnprintf.
Context {F : Type}.
Variable fmt_fp : F -> Z -> Z -> Z -> Z -> Z -> Z * list (list Z).
Variables (strerror_msg : Z) (utf8 : bool) (fuel : nat).
Variables (loc internal_buf fbuf dummy : Z).

Definition sn_file : FILE := mkFILE 0 0 0 0 0 0 fbuf 0 0 Stdio.EOF.

Definition vsnprintf (m : mem) (s n fmt : Z) (ap : list (@vararg F)) (errno : Z)
  : option (Z * mem * Z * list (Z * Z * Z)) :=
  let c := if n =? 0 then mkcookie dummy 0 else mkcookie s (n - 1) in
  let st0 := mkst (m<{c_s c := 0}>) sn_file c errno in
  let? (ret, st1, stores) := vfprintf fmt_fp strerror_msg utf8 m fuel loc internal_buf fmt ap st0 in
  Some (ret, sm st1, serr st1, stores).
End Vsnprintf.
