(* ===== verification/Format.v ===== *)
(** * Format: the text of a format

    The text of a format is what [printf_core] gives a destination that collects
    bytes.  Any other destination gets the same text and the same result unless
    its error flag comes up ([printf_core_sim]).  The loop ends, reads the format
    within its bounds ([format_total]); the result is the length of the text
    ([format_count]); the digits of a conversion are those of its argument. *)

From Stdlib Require Import ZArith Lia ZifyBool List Bool.
From S2P Require Import Prelude MemCopy Strings Ctype Utf8 IntScan Stdio Printf.
Import ListNotations.
Open Scope Z_scope.

(** ** Two destinations *)

Section Sim.
Context {F O1 O2 : Type}.
Variables (err1 : O1 -> bool) (put1 : O1 -> list Z -> O1).
Variables (err2 : O2 -> bool) (put2 : O2 -> list Z -> O2).
Variable fmt_fp : F -> Z -> Z -> Z -> Z -> Z -> Z * list (list Z).
Variables (strerror_msg : Z) (utf8 : bool) (m : mem) (fuel : nat) (live : bool).

(** [Rel o1 o2]: the destinations agree and have no error; [Bad o2]: the second
    one has an error. *)
Variables (Rel : O1 -> O2 -> Prop) (Bad : O2 -> Prop).
Hypothesis Bad_err : forall o, Bad o -> err2 o = true.
Hypothesis Rel_ok : forall o1 o2, Rel o1 o2 -> err1 o1 = false /\ err2 o2 = false.
Hypothesis Rel_put : forall o1 o2 d,
  Forall (fun b => 0 <= b < 256) d -> Rel o1 o2 -> Rel (put1 o1 d) (put2 o2 d) \/ Bad (put2 o2 d).

(** They agree, or the second is broken. *)
Definition agree (o1 : O1) (o2 : O2) : Prop := Rel o1 o2 \/ Bad o2.

Notation core1 := (core (F:=F) (O:=O1)).
Notation core2 := (core (F:=F) (O:=O2)).

(** [c] with another destination. *)
Definition re (c : core1) (o : O2) : core2 :=
  mkcore o (cnt c) (len c) (fmt c) (l10n c) (ap c) (nl_arg c) (nl_type c) (stores c).

Lemma out_agree o1 o2 d : agree o1 o2 -> agree (out err1 put1 o1 d) (out err2 put2 o2 d).
Proof.
  intros [HR|HE]; unfold out, agree.
  - destruct (Rel_ok _ _ HR) as [-> ->]. apply Rel_put; [|assumption].
    apply Forall_map, Forall_forall. intros x _. apply u8_range.
  - rewrite (Bad_err _ HE). auto.
Qed.

Lemma outs_agree ds o1 o2 :
  agree o1 o2 -> agree (fold_left (out err1 put1) ds o1) (fold_left (out err2 put2) ds o2).
Proof. revert o1 o2; induction ds as [|d ds IH]; intros o1 o2 HA; [exact HA|]. now apply IH, out_agree. Qed.

Lemma pad_agree o1 o2 c w l fl :
  agree o1 o2 -> agree (pad err1 put1 o1 c w l fl) (pad err2 put2 o2 c w l fl).
Proof.
  intros HA. unfold pad. destruct (_ || _); [assumption|].
  set (k := Z.to_nat _). generalize (w - l). clearbody k. revert o1 o2 HA.
  induction k as [|k IH]; intros o1 o2 HA z; cbn [while].
  - now apply out_agree.
  - cbn [fst snd]. destruct (256 <=? z); [|now apply out_agree]. now apply IH, out_agree.
Qed.

Lemma wide_out_agree n ws p k i o1 o2 :
  agree o1 o2 ->
  agree (wide_out err1 put1 utf8 n ws p k i o1) (wide_out err2 put2 utf8 n ws p k i o2).
Proof.
  revert k i o1 o2; induction n as [|n IH]; intros k i o1 o2 HA; cbn [wide_out]; [assumption|].
  destruct (_ || _); [assumption|]. destruct (wctomb utf8 (ws k)) as [l mb].
  destruct (p <? i + l); [assumption|]. now apply IH, out_agree.
Qed.

Lemma emit_agree c o a prefix w p fl :
  agree (dst c) o ->
  match emit err1 put1 c a prefix w p fl, emit err2 put2 (re c o) a prefix w p fl with
  | inl c1, inl c2 => exists o', c2 = re c1 o' /\ agree (dst c1) o'
  | inr r1, inr r2 => r1 = r2
  | _, _ => False
  end.
Proof.
  intros HA. unfold emit. cbn [cnt re]. 
  destruct (INT_MAX - _ <? _); [reflexivity|]. destruct (INT_MAX - _ <? _); [reflexivity|].
  eexists. split; [reflexivity|]. cbn [dst with_len with_dst re].
  repeat (apply pad_agree || apply out_agree). assumption.
Qed.

Definition conv_agree (r1 : conv (F:=F) (O:=O1) + stop) (r2 : conv (F:=F) (O:=O2) + stop) : Prop :=
  match r1, r2 with
  | inl (Tail a1 q1 p1 f1), inl (Tail a2 q2 p2 f2) => a1 = a2 /\ q1 = q2 /\ p1 = p2 /\ f1 = f2
  | inl (Done c1 l1), inl (Done c2 l2) => l1 = l2 /\ exists o', c2 = re c1 o' /\ agree (dst c1) o'
  | inr r1, inr r2 => r1 = r2
  | _, _ => False
  end.

Lemma ifmt_tail_agree i a q xp p fl : conv_agree (ifmt_tail i a q xp p fl) (ifmt_tail i a q xp p fl).
Proof. unfold ifmt_tail. destruct (xp && _); [reflexivity|]. destruct (_ && _); cbn; auto. Qed.

Lemma convert_agree c o a ps t w xp p fl :
  agree (dst c) o ->
  conv_agree (convert err1 put1 fmt_fp strerror_msg utf8 m fuel c a ps t w xp p fl)
             (convert err2 put2 fmt_fp strerror_msg utf8 m fuel (re c o) a ps t w xp p fl).
Proof.
  intros HA. unfold convert.
  assert (HS : forall a p, conv_agree (conv_s m a p fl) (conv_s m a p fl)).
  { intros. unfold conv_s. destruct (_ =? 0); [cbn; auto|]. destruct (_ && _); cbn; auto. }
  assert (HW : forall ws p, conv_agree (conv_S err1 put1 utf8 fuel c ws w p fl)
                                       (conv_S err2 put2 utf8 fuel (re c o) ws w p fl)).
  { intros ws p'. unfold conv_S. destruct (wide_size _ _ _ _ _ _ _) as [[i l]|]; [|reflexivity].
    destruct (l <? 0); [reflexivity|]. destruct (INT_MAX <? i); [reflexivity|].
    cbn. split; [reflexivity|]. eexists. split; [reflexivity|].
    now apply pad_agree, wide_out_agree, pad_agree. }
  repeat (match goal with |- conv_agree (if ?b then _ else _) _ => destruct b end);
    try apply ifmt_tail_agree; auto.
  - unfold conv_n. cbn. destruct (_ =? 0); (split; [reflexivity|]); exists o; split; auto.
  - unfold conv_d. match goal with |- conv_agree (let '(_, _) := ?e in _) _ => destruct e end.
    apply ifmt_tail_agree.
  - cbn. auto.
  - cbn. auto.
  - destruct a as [i|x]; [reflexivity|]. destruct (xp && _); [reflexivity|].
    destruct (fmt_fp _ _ _ _ _ _) as [l ds]. destruct (l <? 0); [reflexivity|].
    cbn. split; [reflexivity|]. eexists. split; [reflexivity|]. now apply outs_agree.
Qed.

(** Reading the format does not look at the destination. *)
Definition re_res {A} (r : (A * core1) + stop) (o : O2) : (A * core2) + stop :=
  match r with inl (x, c) => inl (x, re c o) | inr r => inr r end.

Lemma star_re c o b : star m live (re c o) b = re_res (star m live c b) o.
Proof.
  unfold star. cbn [fmt re l10n nl_arg ap].
  destruct (positional m (fmt c)); [destruct live, b; reflexivity|].
  destruct (negb (l10n c)); [|reflexivity]. destruct live; [|reflexivity].
  destruct (pop_arg INT (ap c)) as [[a ap']|]; reflexivity.
Qed.

Lemma parse_width_re fl c o : parse_width m fuel live fl (re c o) = re_res (parse_width m fuel live fl c) o.
Proof.
  unfold parse_width. cbn [fmt re]. destruct (m (fmt c) =? 42).
  - change (with_fmt (re c o) (fmt c + 1)) with (re (with_fmt c (fmt c + 1)) o).
    rewrite star_re. destruct (star m live _ true) as [[w c']|r]; [|reflexivity].
    cbn. destruct (w <? 0); reflexivity.
  - destruct (getint m fuel (fmt c)) as [w s]. destruct (w <? 0); reflexivity.
Qed.

Lemma parse_prec_re c o : parse_prec m fuel live (re c o) = re_res (parse_prec m fuel live c) o.
Proof.
  unfold parse_prec. cbn [fmt re]. destruct ((_ =? 46) && _).
  - change (with_fmt (re c o) (fmt c + 2)) with (re (with_fmt c (fmt c + 2)) o).
    rewrite star_re. destruct (star m live _ false) as [[w c']|r]; reflexivity.
  - destruct (_ =? 46); [|reflexivity]. destruct (getint m fuel (fmt c + 1)). reflexivity.
Qed.

Lemma take_arg_re c o argpos st : take_arg live (re c o) argpos st = re_res (take_arg live c argpos st) o.
Proof.
  unfold take_arg. cbn [re nl_arg ap nl_type]. destruct (st =? NOARG); [now destruct (0 <=? argpos)|].
  destruct (0 <=? argpos); [now destruct live|]. destruct live; [|reflexivity].
  destruct (pop_arg st (ap c)) as [[a ap']|]; reflexivity.
Qed.

(** Nor does it change it, the counts or the arguments fetched. *)
Definition outputs (c : core1) : O1 * Z * Z * list arg := (dst c, cnt c, len c, nl_arg c).
Definition same_dst {A} (c : core1) (r : (A * core1) + stop) : Prop :=
  match r with inl (_, c') => outputs c' = outputs c | inr _ => True end.

Lemma star_dst c b : same_dst c (star m live c b).
Proof.
  unfold star. destruct (positional m (fmt c)); [destruct live, b; reflexivity|].
  destruct (negb (l10n c)); [|exact I]. destruct live; [|reflexivity].
  destruct (pop_arg INT (ap c)) as [[a ap']|]; [reflexivity|exact I].
Qed.

Lemma parse_width_dst fl c : same_dst c (parse_width m fuel live fl c).
Proof.
  unfold parse_width. destruct (m (fmt c) =? 42).
  - pose proof (star_dst (with_fmt c (fmt c + 1)) true) as HS.
    destruct (star m live _ true) as [[w c']|r]; [|exact I]. cbn. now destruct (w <? 0).
  - destruct (getint m fuel (fmt c)). now destruct (_ <? 0).
Qed.

Lemma parse_prec_dst c : same_dst c (parse_prec m fuel live c).
Proof.
  unfold parse_prec. destruct ((_ =? 46) && _).
  - pose proof (star_dst (with_fmt c (fmt c + 2)) false) as HS.
    destruct (star m live _ false) as [[w c']|r]; [exact HS|exact I].
  - destruct (_ =? 46); [|reflexivity]. now destruct (getint m fuel (fmt c + 1)).
Qed.

Lemma take_arg_dst c argpos st : same_dst c (take_arg live c argpos st).
Proof.
  unfold take_arg. destruct (st =? NOARG); [now destruct (0 <=? argpos)|].
  destruct (0 <=? argpos); [now destruct live|]. destruct live; [|exact I].
  now destruct (pop_arg st (ap c)) as [[a ap']|].
Qed.

Lemma parse_re c o : parse m fuel live (re c o) = re_res (parse m fuel live c) o.
Proof.
  unfold parse.
  assert (HA : parse_argpos m (re c o)
               = (fst (parse_argpos m c), re (snd (parse_argpos m c)) o) :> Z * core2).
  { unfold parse_argpos. cbn [fmt re]. now destruct (positional m (fmt c + 1)). }
  rewrite HA. destruct (parse_argpos m c) as [argpos c1]. cbn [fst snd fmt re].
  destruct (flags_loop m fuel 0 (fmt c1)) as [fl s].
  change (with_fmt (re c1 o) s) with (re (with_fmt c1 s) o). rewrite parse_width_re.
  destruct (parse_width m fuel live fl _) as [[[w fl'] c2]|r]; [|reflexivity].
  cbn [re_res step]. rewrite parse_prec_re.
  destruct (parse_prec m fuel live c2) as [[[p xp] c3]|r]; [|reflexivity].
  cbn [re_res step]. cbn [fmt re].
  destruct (parse_type m 8 0 (fmt c3)) as [[[ps st] s']|r]; [|reflexivity]. cbn [step].
  change (with_fmt (re c3 o) s') with (re (with_fmt c3 s') o). rewrite take_arg_re.
  now destruct (take_arg live _ argpos st) as [[a c4]|r].
Qed.

Lemma parse_dst c : same_dst c (parse m fuel live c).
Proof.
  unfold parse.
  assert (HA : outputs (snd (parse_argpos m c)) = outputs c).
  { unfold parse_argpos. now destruct (positional m (fmt c + 1)). }
  destruct (parse_argpos m c) as [argpos c1]. cbn [snd] in HA.
  destruct (flags_loop m fuel 0 (fmt c1)) as [fl s].
  pose proof (parse_width_dst fl (with_fmt c1 s)) as HW.
  destruct (parse_width m fuel live fl _) as [[[w fl'] c2]|r]; [|exact I].
  pose proof (parse_prec_dst c2) as HP. cbn [step].
  destruct (parse_prec m fuel live c2) as [[[p xp] c3]|r]; [|exact I]. cbn [step].
  destruct (parse_type m 8 0 (fmt c3)) as [[[ps st] s']|r]; [|exact I]. cbn [step].
  pose proof (take_arg_dst (with_fmt c3 s') argpos st) as HT.
  destruct (take_arg live _ argpos st) as [[a c4]|r]; [|exact I].
  unfold same_dst in *. cbn [step]. rewrite HT. etransitivity; [|exact HA].
  etransitivity; [|exact HW]. exact HP.
Qed.

(** One round: the same, unless the second destination is broken. *)
Definition core_agree (r1 : core1 + stop) (r2 : core2 + stop) : Prop :=
  match r1, r2 with
  | inl c1, inl c2 => exists o', c2 = re c1 o' /\ agree (dst c1) o'
  | inr r1, inr r2 => r1 = r2
  | _, _ => False
  end.

Lemma act_agree d c o :
  Rel (dst c) o ->
  core_agree (act err1 put1 fmt_fp strerror_msg utf8 m fuel live d c)
             (act err2 put2 fmt_fp strerror_msg utf8 m fuel live d (re c o)).
Proof.
  intros HR. assert (HA : agree (dst c) o) by now left.
  destruct (Rel_ok _ _ HR) as [E1 E2]. unfold act. cbn [dst re]. rewrite E1, E2.
  destruct (negb live); [exists o; auto|]. destruct (d_arg d) as [a|]; [|reflexivity].
  set (t := if _ && _ then _ else _). set (fl := if bit _ _ then _ else _).
  pose proof (convert_agree c o a (d_ps d) t (d_w d) (d_xp d) (d_p d) fl HA) as HC.
  destruct (convert err1 _ _ _ _ _ _ c _ _ _ _ _ _ _) as [[a1 q1 p1 f1|c1 l1]|r1],
           (convert err2 _ _ _ _ _ _ _ _ _ _ _ _ _ _) as [[a2 q2 p2 f2|c2 l2]|r2];
    cbn [conv_agree] in HC; try easy; cbn [step].
  - destruct HC as (<- & <- & <- & <-).
    pose proof (emit_agree c o a1 q1 (d_w d) p1 f1 HA) as HE.
    destruct (emit err1 _ _ _ _ _ _ _), (emit err2 _ _ _ _ _ _ _); exact HE.
  - destruct HC as (<- & o' & -> & HA'). exists o'. auto.
Qed.

Lemma finish_re (c : core1) o : finish live (re c o) = (re (fst (finish live c)) o, snd (finish live c)).
Proof.
  unfold finish. cbn [cnt l10n nl_type re ap nl_arg]. destruct live; [reflexivity|].
  destruct (negb (l10n c)); [reflexivity|].
  destruct (fetch 1 _ _ _) as [[[i ap'] args]|]; reflexivity.
Qed.

Lemma finish_dst (c : core1) : dst (fst (finish live c)) = dst c.
Proof.
  unfold finish. destruct live; [reflexivity|]. destruct (negb (l10n c)); [reflexivity|].
  destruct (fetch 1 _ _ _) as [[[i ap'] args]|]; reflexivity.
Qed.

Definition round1 := core_round err1 put1 fmt_fp strerror_msg utf8 m fuel live.
Definition round2 := core_round err2 put2 fmt_fp strerror_msg utf8 m fuel live.

Lemma round_agree c o :
  agree (dst c) o ->
  match round1 c, round2 (re c o) with
  | inl c1, inl c2 => exists o', c2 = re c1 o' /\ agree (dst c1) o'
  | inr (c1, r1), inr (c2, r2) =>
      exists o', c2 = re c1 o' /\ (r1 = r2 /\ Rel (dst c1) o' \/ Bad o')
  | inl _, inr (c2, _) => Bad (dst c2)
  | inr _, inl _ => False
  end.
Proof.
  intros HA. unfold round1, round2, core_round. cbn [cnt len re].
  destruct (INT_MAX - cnt c <? len c); [exists o; split; [reflexivity|]; destruct HA; auto|].
  change (with_cnt (re c o) (cnt c + len c)) with (re (with_cnt c (cnt c + len c)) o).
  set (c0 := with_cnt c (cnt c + len c)). change (dst c) with (dst c0) in HA.
  cbn [fmt re]. destruct (m (fmt c0) =? 0).
  { rewrite finish_re. pose proof (finish_dst c0) as HF.
    destruct (finish live c0) as [c1 r1]. cbn [fst snd] in *. exists o. split; [reflexivity|].
    rewrite HF. destruct HA; auto. }
  destruct (skip_percents m fuel _ _) as [z s]. cbn [cnt re].
  destruct (INT_MAX - cnt c0 <? z - fmt c0); [exists o; split; [reflexivity|]; destruct HA; auto|].
  set (tx := bytes_at m (fmt c0) (Z.to_nat (z - fmt c0))).
  set (c1 := if live then with_dst (with_fmt (with_len c0 (z - fmt c0)) s) _ else _).
  match goal with |- context [if live then with_dst _ (out err2 put2 ?x ?y) else ?z] =>
    set (c2 := if live then with_dst z (out err2 put2 x y) else z) end.
  assert (HC : exists o', c2 = re c1 o' /\ agree (dst c1) o').
  { unfold c1, c2. destruct live; [|exists o; auto].
    exists (out err2 put2 o tx). split; [reflexivity|]. now apply out_agree. }
  clearbody c1 c2. destruct HC as (o' & -> & HA').
  destruct (negb (z - fmt c0 =? 0)); [exists o'; auto|].
  unfold directive. rewrite parse_re. pose proof (parse_dst c1) as HD.
  destruct (parse m fuel live c1) as [[d c3]|r]; cbn [re_res step].
  2: { exists o'. split; [reflexivity|]. destruct HA'; auto. }
  apply (f_equal (fun q => fst (fst (fst q)))) in HD. cbn in HD.
  rewrite <- HD in HA'. destruct HA' as [HR|HE].
  - pose proof (act_agree d c3 o' HR) as HC. rewrite HD in HR.
    destruct (act err1 _ _ _ _ _ _ _ d c3) as [c4|r4], (act err2 _ _ _ _ _ _ _ d _) as [c5|r5];
      cbn in HC; try easy. subst. exists o'. auto.
  - assert (HB : live = true -> act err2 put2 fmt_fp strerror_msg utf8 m fuel live d (re c3 o') = inr Fail).
    { intros ->. unfold act. cbn [negb dst re]. now rewrite (Bad_err _ HE). }
    destruct live.
    + rewrite HB by reflexivity.
      destruct (act err1 _ _ _ _ _ _ _ d c3); cbn [dst re]; [assumption|]. exists o'. auto.
    + exists o'. split; [reflexivity|now right].
Qed.

(** The whole run. *)
Lemma printf_core_sim c o c1 r1 :
  agree (dst c) o ->
  printf_core err1 put1 fmt_fp strerror_msg utf8 m fuel live c = Some (c1, r1) ->
  exists c2 r2, printf_core err2 put2 fmt_fp strerror_msg utf8 m fuel live (re c o) = Some (c2, r2) /\
    ((exists o', c2 = re c1 o' /\ r1 = r2 /\ Rel (dst c1) o') \/ Bad (dst c2)).
Proof.
  unfold printf_core. fold round1 round2. generalize fuel at 1 2 as k. intros k; revert c o.
  induction k as [|k IH]; intros c o HA HE; [discriminate|]. cbn [loop] in *.
  pose proof (round_agree c o HA) as HR.
  destruct (round1 c) as [c3|[c3 r3]], (round2 (re c o)) as [c4|[c4 r4]]; try easy.
  - destruct HR as (o' & -> & HA'). now apply IH.
  - exists c4, r4. auto.
  - injection HE as -> ->. destruct HR as (o' & -> & [[-> HR]|HR]); eexists _, _;
      (split; [reflexivity|]); [left; eauto|now right].
Qed.
End Sim.

(** ** Digits *)

(** The digits of [x] in base [b], at most [k] of them, the first not zero. *)
Fixpoint digits (b : Z) (k : nat) (x : Z) : list Z :=
  match k with
  | Datatypes.O => []
  | S k => if x =? 0 then [] else digits b k (x / b) ++ [x mod b]
  end.

Section Digits.
Variable b : Z.
Hypothesis Hb : 2 <= b.

Lemma digits_step k x : 0 <= x < b ^ Z.of_nat (S k) -> 0 <= x / b < b ^ Z.of_nat k.
Proof.
  intros Hx. rewrite Nat2Z.inj_succ, Z.pow_succ_r in Hx by lia.
  split; [apply Z.div_pos; lia|]. apply Z.div_lt_upper_bound; lia.
Qed.

Lemma digits_value k x : 0 <= x < b ^ Z.of_nat k -> horner b (digits b k x) 0 = x.
Proof.
  revert x; induction k as [|k IH]; intros x Hx; cbn [digits]; [cbn in *; lia|].
  destruct (Z.eqb_spec x 0); [cbn; lia|]. rewrite horner_app, IH by now apply digits_step. cbn.
  pose proof (Z.div_mod x b ltac:(lia)). lia.
Qed.

Lemma digits_range k x : Forall (fun d => 0 <= d < b) (digits b k x).
Proof.
  revert x; induction k as [|k IH]; intros x; cbn [digits]; [constructor|].
  destruct (x =? 0); [constructor|]. apply Forall_app. split; [apply IH|].
  constructor; [apply Z.mod_pos_bound; lia|constructor].
Qed.

Lemma digits_length k j x :
  0 <= x < b ^ Z.of_nat j -> (length (digits b k x) <= j)%nat.
Proof.
  revert j x; induction k as [|k IH]; intros j x Hx; cbn [digits]; [cbn; lia|].
  destruct (Z.eqb_spec x 0); [cbn; lia|]. rewrite length_app. cbn.
  destruct j as [|j]; [cbn in Hx; lia|]. specialize (IH j (x / b) (digits_step _ _ Hx)). lia.
Qed.

Lemma digits_nonempty k x : 0 < x -> digits b (S k) x <> [].
Proof. intros Hx. cbn [digits]. destruct (Z.eqb_spec x 0); [lia|]. now destruct (digits b k (x / b)). Qed.

Lemma digits_head k x : 0 < x < b ^ Z.of_nat k -> 0 < hd 0 (digits b k x).
Proof.
  revert x; induction k as [|k IH]; intros x Hx; [cbn in Hx; lia|]. cbn [digits].
  replace (x =? 0) with false by lia.
  destruct (digits_step k x ltac:(lia)) as [H0 H1].
  destruct (Z.eq_dec (x / b) 0) as [E|E].
  - rewrite E. assert (Hs : x < b) by (apply Z.div_small_iff in E; lia).
    replace (digits b k 0) with (@nil Z) by (now destruct k). cbn. rewrite Z.mod_small; lia.
  - specialize (IH (x / b) ltac:(lia)). destruct (digits b k (x / b)); [cbn in IH; lia|exact IH].
Qed.
End Digits.

Lemma fmt_u_digits k y s :
  0 <= y -> fmt_u_loop k y s = map (Z.add 48) (digits 10 k y) ++ s.
Proof.
  revert y s; induction k as [|k IH]; intros y s Hy; cbn [fmt_u_loop digits]; [reflexivity|].
  destruct (Z.leb_spec 10 y).
  - replace (y =? 0) with false by lia.
    rewrite IH, map_app, <- app_assoc by (apply Z.div_pos; lia). reflexivity.
  - destruct (Z.eqb_spec y 0); [reflexivity|]. rewrite Z.div_small, Z.mod_small by lia.
    destruct k; reflexivity.
Qed.

Lemma fmt_o_digits k x s : 0 <= x -> fmt_o_loop k x s = map (Z.add 48) (digits 8 k x) ++ s.
Proof.
  revert x s; induction k as [|k IH]; intros x s Hx; cbn [fmt_o_loop digits]; [reflexivity|].
  destruct (x =? 0); [reflexivity|]. rewrite Z.shiftr_div_pow2 by lia. change (2 ^ 3) with 8.
  rewrite IH, map_app, <- app_assoc by (apply Z.div_pos; lia).
  change 7 with (Z.ones 3). now rewrite Z.land_ones by lia.
Qed.

Definition xdigit (lower d : Z) : Z := Z.lor (nth (Z.to_nat d) xdigits 0) lower.

Lemma fmt_x_digits k x lower s :
  0 <= x -> fmt_x_loop k x lower s = map (xdigit lower) (digits 16 k x) ++ s.
Proof.
  revert x s; induction k as [|k IH]; intros x s Hx; cbn [fmt_x_loop digits]; [reflexivity|].
  destruct (x =? 0); [reflexivity|]. rewrite Z.shiftr_div_pow2 by lia. change (2 ^ 4) with 16.
  rewrite IH, map_app, <- app_assoc by (apply Z.div_pos; lia).
  change 15 with (Z.ones 4). now rewrite Z.land_ones by lia.
Qed.

(** The conversions of integers: %u and %d, %o, and %x and %X produce the
    digits of the 64-bit argument in base 10, 8 and 16 (capitals or not), which
    read back give the argument, with no leading zero (none at all for 0, which
    the precision adds), and at most 20, 22 and 16 of them: they fit buf[24]. *)
Theorem fmt_digits x t :
  0 <= x < 2 ^ 64 ->
  fmt_u x = map (Z.add 48) (digits 10 BUF x) /\
  fmt_o x = map (Z.add 48) (digits 8 BUF x) /\
  fmt_x x (Z.land t 32) = map (xdigit (Z.land t 32)) (digits 16 BUF x) /\
  Forall (fun '(b, n) =>
    let ds := digits b BUF x in
    horner b ds 0 = x /\ Forall (fun d => 0 <= d < b) ds /\ (0 < x -> 0 < hd 0 ds) /\
    Z.of_nat (length ds) <= n) [(10, 20); (8, 22); (16, 16)].
Proof.
  intros Hx. unfold fmt_u, fmt_o, fmt_x.
  rewrite fmt_u_digits, fmt_o_digits, fmt_x_digits, !app_nil_r by lia.
  do 3 (split; [reflexivity|]).
  assert (HD : forall b n, 8 <= b -> 2 ^ 64 <= b ^ Z.of_nat n -> 2 ^ 64 <= b ^ Z.of_nat BUF ->
    let ds := digits b BUF x in
    horner b ds 0 = x /\ Forall (fun d => 0 <= d < b) ds /\ (0 < x -> 0 < hd 0 ds) /\
    Z.of_nat (length ds) <= Z.of_nat n).
  { intros b n Hb Hn HB. split; [apply digits_value; lia|]. split; [apply digits_range; lia|].
    split; [intros; apply digits_head; lia|]. apply inj_le, digits_length; lia. }
  apply Forall_cons; [|apply Forall_cons; [|apply Forall_cons; [|constructor]]];
    [apply (HD 10 20%nat)|apply (HD 8 22%nat)|apply (HD 16 16%nat)]; vm_compute; discriminate.
Qed.

(** ** The text of a format *)

Section Text.
Context {F : Type}.
Variable fmt_fp : F -> Z -> Z -> Z -> Z -> Z -> Z * list (list Z).
Variables (strerror_msg : Z) (utf8 : bool) (m : mem) (fuel : nat).

Notation tcore := (core (F:=F) (O:=list Z)).

Definition text_err (_ : list Z) : bool := false.

(** A destination that collects what is printed. *)
Definition text_core (live : bool) (c : tcore) : option (tcore * stop) :=
  printf_core text_err (@app Z) fmt_fp strerror_msg utf8 m fuel live c.

Notation tround live := (core_round text_err (@app Z) fmt_fp strerror_msg utf8 m fuel live).

(** *** The format is read within its bounds and to its end *)

Section Position.
Variables (s0 e : Z).
Hypothesis Hend : m e = 0.

Definition pos (s : Z) : Prop := s0 <= s <= e.

Lemma pos_next s : pos s -> m s <> 0 -> pos (s + 1).
Proof. unfold pos. intros Hs Hm. assert (s <> e) by congruence. lia. Qed.

Lemma digit_pos s : pos s -> isdigit (s8 (m s)) = true -> pos (s + 1).
Proof.
  intros Hs Hd. apply pos_next; [assumption|]. intros HE. rewrite HE in Hd. discriminate.
Qed.

Lemma char_pos s c : pos s -> m s = c -> c <> 0 -> pos (s + 1).
Proof. intros Hs <- Hc. now apply pos_next. Qed.

Lemma skip_text_pos k s : pos s -> s <= skip_text m k s /\ pos (skip_text m k s).
Proof.
  revert s; induction k as [|k IH]; intros s Hs; cbn [skip_text]; [auto with zarith|].
  destruct (Z.eqb_spec (m s) 0); cbn [negb andb]; [auto with zarith|].
  destruct (negb (m s =? 37)); [|auto with zarith].
  destruct (IH (s + 1)); [now apply pos_next|]. split; [lia|assumption].
Qed.

Lemma skip_percents_pos k z s :
  pos s -> let '(z', s') := skip_percents m k z s in
  z <= z' /\ z' - z <= s' - s /\ pos s' /\ (z' = z -> s' = s).
Proof.
  revert z s; induction k as [|k IH]; intros z s Hs; cbn [skip_percents];
    [split; [lia|]; split; [lia|]; auto|].
  destruct ((m s =? 37) && (m (s + 1) =? 37)) eqn:Epp; [|split; [lia|]; split; [lia|]; auto].
  assert (H2 : pos (s + 2)).
  { replace (s + 2) with (s + 1 + 1) by lia. apply (char_pos (s + 1) 37); [|lia|lia].
    apply (char_pos s 37); [assumption|lia|lia]. }
  specialize (IH (z + 1) (s + 2) H2).
  destruct (skip_percents m k (z + 1) (s + 2)) as [z' s'].
  destruct IH as (H3 & H4 & H5 & H6). split; [lia|]. split; [lia|]. split; [assumption|lia].
Qed.

Lemma getint_pos k i s : pos s -> s <= snd (getint_loop m k i s) /\ pos (snd (getint_loop m k i s)).
Proof.
  revert i s; induction k as [|k IH]; intros i s Hs; cbn [getint_loop]; [auto with zarith|].
  destruct (isdigit (s8 (m s))) eqn:Ed; [|cbn; auto with zarith].
  destruct (IH (getint_step i (m s)) (s + 1)); [now apply digit_pos|]. split; [lia|assumption].
Qed.

Lemma flags_pos k fl s : pos s -> s <= snd (flags_loop m k fl s) /\ pos (snd (flags_loop m k fl s)).
Proof.
  revert fl s; induction k as [|k IH]; intros fl s Hs; cbn [flags_loop]; [auto with zarith|].
  destruct (is_flag (m s)) eqn:Ef; [|cbn; auto with zarith].
  destruct (IH (Z.lor fl (Z.shiftl 1 (s8 (m s) - 32))) (s + 1)).
  - apply pos_next; [assumption|]. intros HE. rewrite HE in Ef. discriminate.
  - split; [lia|assumption].
Qed.

Lemma positional_pos s : pos s -> positional m s = true -> pos (s + 2).
Proof.
  unfold positional. intros Hs Hp. apply andb_true_iff in Hp as [Hd H36].
  replace (s + 2) with (s + 1 + 1) by lia. apply (char_pos (s + 1) 36); [|lia|lia].
  now apply digit_pos.
Qed.

Lemma parse_type_pos k st s :
  pos s -> match parse_type m k st s with inl (_, _, s') => s < s' /\ pos s' | inr _ => True end.
Proof.
  revert st s; induction k as [|k IH]; intros st s Hs; cbn [parse_type]; [exact I|].
  destruct (OOB (m s)) eqn:Eo; [exact I|].
  assert (Hs1 : pos (s + 1)).
  { apply pos_next; [assumption|]. intros HE. rewrite HE in Eo. discriminate. }
  destruct (_ && _).
  - specialize (IH (next_state st (m s)) (s + 1) Hs1).
    destruct (parse_type m k _ _) as [[[? ?] s']|]; [|exact I]. split; [lia|apply IH].
  - destruct (_ =? 0); [exact I|]. split; [lia|assumption].
Qed.

(** What reading does to the position. *)
Definition moves {A} (c : tcore) (r : (A * tcore) + stop) : Prop :=
  match r with inl (_, c') => fmt c <= fmt c' /\ pos (fmt c') | inr _ => True end.

Lemma star_pos live c b : pos (fmt c) -> moves c (star m live c b).
Proof.
  intros Hs. unfold star. destruct (positional m (fmt c)) eqn:Ep.
  - apply positional_pos in Ep; [|assumption]. destruct live, b; cbn; (split; [lia|assumption]).
  - destruct (negb (l10n c)); [|exact I]. destruct live; [|cbn; auto with zarith].
    destruct (pop_arg INT (ap c)) as [[a ap']|]; [cbn; auto with zarith|exact I].
Qed.

Lemma parse_width_pos live fl c : pos (fmt c) -> moves c (parse_width m fuel live fl c).
Proof.
  intros Hs. unfold parse_width. destruct (Z.eqb_spec (m (fmt c)) 42).
  - assert (Hs1 : pos (fmt c + 1)) by (apply (char_pos _ 42); [assumption..|lia]).
    pose proof (star_pos live (with_fmt c (fmt c + 1)) true Hs1) as HS.
    destruct (star m live _ true) as [[w c']|r]; [|exact I]. cbn in *.
    destruct (w <? 0); (split; [lia|apply HS]).
  - unfold getint. pose proof (getint_pos fuel 0 (fmt c) Hs) as HG.
    destruct (getint_loop m fuel 0 (fmt c)) as [w s]. cbn in HG.
    destruct (w <? 0); [exact I|exact HG].
Qed.

Lemma parse_prec_pos live c : pos (fmt c) -> moves c (parse_prec m fuel live c).
Proof.
  intros Hs. unfold parse_prec. destruct ((m (fmt c) =? 46) && (m (fmt c + 1) =? 42)) eqn:E1.
  - assert (Hs2 : pos (fmt c + 2)).
    { replace (fmt c + 2) with (fmt c + 1 + 1) by lia. apply (char_pos _ 42); [|lia|lia].
      apply (char_pos _ 46); [assumption|lia|lia]. }
    pose proof (star_pos live (with_fmt c (fmt c + 2)) false Hs2) as HS.
    destruct (star m live _ false) as [[w c']|r]; [|exact I]. cbn in *. split; [lia|apply HS].
  - destruct (Z.eqb_spec (m (fmt c)) 46).
    + assert (Hs1 : pos (fmt c + 1)) by (apply (char_pos _ 46); [assumption..|lia]).
      unfold getint. pose proof (getint_pos fuel 0 (fmt c + 1) Hs1) as HG.
      destruct (getint_loop m fuel 0 (fmt c + 1)) as [w s]. cbn in *. split; [lia|apply HG].
    + cbn. auto with zarith.
Qed.

Lemma parse_inv live (c c' : tcore) d :
  pos (fmt c) -> m (fmt c) = 37 -> parse m fuel live c = inl (d, c') ->
  exists c3 st argpos,
    fmt c < fmt c3 /\ pos (fmt c3) /\ outputs c3 = outputs c /\
    parse_type m 8 0 (fmt c3) = inl (d_ps d, st, fmt c') /\ d_t d = m (fmt c' - 1) /\
    take_arg live (with_fmt c3 (fmt c')) argpos st = inl (d_arg d, c').
Proof.
  intros Hs H37. unfold parse.
  assert (HA : fmt c < fmt (snd (parse_argpos m c)) /\ pos (fmt (snd (parse_argpos m c))) /\
               outputs (snd (parse_argpos m c)) = outputs c).
  { assert (Hs1 : pos (fmt c + 1)) by (apply (char_pos _ 37); [assumption..|lia]).
    unfold parse_argpos. destruct (positional m (fmt c + 1)) eqn:Ep; cbn; (split; [lia|]);
      (split; [|reflexivity]); [|assumption].
    apply positional_pos in Ep; [|assumption]. now replace (fmt c + 3) with (fmt c + 1 + 2) by lia. }
  destruct (parse_argpos m c) as [argpos c1]. cbn [snd] in HA. destruct HA as (HA1 & HA2 & HA3).
  pose proof (flags_pos fuel 0 (fmt c1) HA2) as HF.
  destruct (flags_loop m fuel 0 (fmt c1)) as [fl s]. cbn [snd] in HF.
  pose proof (parse_width_pos live fl (with_fmt c1 s) (proj2 HF)) as HW.
  pose proof (parse_width_dst m fuel live fl (with_fmt c1 s)) as HW'.
  destruct (parse_width m fuel live fl _) as [[[w fl'] c2]|r]; [|discriminate]. cbn in HW. cbn [step].
  pose proof (parse_prec_pos live c2 (proj2 HW)) as HP.
  pose proof (parse_prec_dst m fuel live c2) as HP'.
  destruct (parse_prec m fuel live c2) as [[[p xp] c3]|r]; [|discriminate]. cbn in HP. cbn [step].
  destruct (parse_type m 8 0 (fmt c3)) as [[[ps st] s']|r] eqn:ET; [|discriminate]. cbn [step].
  destruct (take_arg live _ argpos st) as [[a c4]|r] eqn:EA; [|discriminate]. cbn [step].
  intros HE. injection HE as <- <-. assert (HS : fmt c4 = s').
  { revert EA. unfold take_arg. destruct (st =? NOARG); [destruct (0 <=? argpos); [discriminate|]|].
    { now intros [= _ <-]. }
    destruct (0 <=? argpos); [destruct live; now intros [= _ <-]|]. destruct live; [|discriminate].
    destruct (pop_arg st _) as [[a' ap']|]; [|discriminate]. now intros [= _ <-]. }
  exists c3, st, argpos. rewrite HS. cbn [d_ps d_t d_arg]. split; [lia|]. split; [apply HP|].
  split; [etransitivity; [exact HP'|]; etransitivity; [exact HW'|exact HA3]|]. auto.
Qed.

Lemma parse_pos live (c c' : tcore) d :
  pos (fmt c) -> m (fmt c) = 37 -> parse m fuel live c = inl (d, c') ->
  fmt c < fmt c' /\ pos (fmt c').
Proof.
  intros Hs H37 HE. destruct (parse_inv _ _ _ _ Hs H37 HE) as (c3 & st & argpos & H1 & H2 & _ & H3 & _).
  pose proof (parse_type_pos 8 0 (fmt c3) H2) as HT. rewrite H3 in HT. split; [lia|apply HT].
Qed.

Lemma act_fmt live d (c c' : tcore) :
  act text_err (@app Z) fmt_fp strerror_msg utf8 m fuel live d c = inl c' -> fmt c' = fmt c.
Proof.
  unfold act. destruct live; cbn [negb text_err]; [|now intros [= <-]].
  destruct (d_arg d) as [a|]; [|easy].
  set (t := if _ && _ then _ else _). set (fl := if bit _ _ then _ else _).
  assert (HC : forall c2 l, convert text_err (@app Z) fmt_fp strerror_msg utf8 m fuel c a (d_ps d) t
                 (d_w d) (d_xp d) (d_p d) fl = inl (Done c2 l) -> fmt c2 = fmt c).
  { intros c2 l. unfold convert, conv_x, conv_o, conv_d, conv_u, conv_c, conv_s, conv_n, conv_S, ifmt_tail.
    repeat match goal with
    | |- (if ?b then _ else _) = _ -> _ => destruct b
    | |- (let '(_, _) := ?x in _) = _ -> _ => destruct x
    | |- (match ?x with AI _ => _ | AF _ => _ end) = _ -> _ => destruct x
    | |- (match ?x with Some _ => _ | None => _ end) = _ -> _ => destruct x as [[? ?]|]
    | |- inr _ = inl _ -> _ => easy
    | |- inl (Tail _ _ _ _) = inl _ -> _ => easy
    end; intros [= <- _]; try reflexivity. destruct (n_size (d_ps d) =? 0); reflexivity. }
  destruct (convert _ _ _ _ _ _ _ c _ _ _ _ _ _ _) as [[a1 q p1 f1|c2 l]|r]; cbn [step]; [| |easy].
  - unfold emit. destruct (_ <? _); [easy|]. destruct (_ <? _); [easy|]. intros HE. injection HE as <-. reflexivity.
  - intros HE. injection HE as <-. exact (HC c2 l eq_refl).
Qed.

Lemma skip_stops a :
  (0 < fuel)%nat -> pos a -> m a <> 0 -> skip_text m fuel a = a -> m a = 37.
Proof.
  intros Hf Hs Hnz Hska. destruct fuel as [|k]; [lia|]. cbn [skip_text] in Hska.
  replace (m a =? 0) with false in Hska by lia. cbn [negb andb] in Hska.
  destruct (Z.eqb_spec (m a) 37); [assumption|]. cbn [negb] in Hska.
  destruct (skip_text_pos k (a + 1)); [now apply pos_next|]. lia.
Qed.

Lemma round_pos live (c c' : tcore) :
  (0 < fuel)%nat -> pos (fmt c) -> tround live c = inl c' -> fmt c < fmt c' /\ pos (fmt c').
Proof.
  intros Hfuel Hs. unfold core_round. destruct (_ <? _); [easy|]. cbn [fmt with_cnt].
  destruct (Z.eqb_spec (m (fmt c)) 0) as [|Hnz]; [easy|].
  set (a := fmt c) in *. destruct (skip_text_pos fuel a Hs) as [Hle Hs1].
  pose proof (skip_percents_pos fuel (skip_text m fuel a) (skip_text m fuel a) Hs1) as HP.
  destruct (skip_percents _ _ _ _) as [z s] eqn:Esp. destruct HP as (Hz & Hzs & Hs2 & Heq).
  destruct (_ <? z - a); [easy|].
  set (c1 := if live then _ else _).
  assert (Hc1 : fmt c1 = s) by (unfold c1; now destruct live).
  destruct (Z.eqb_spec (z - a) 0) as [Hza|Hza]; cbn [negb].
  - assert (z = a) as -> by lia. assert (Hska : skip_text m fuel a = a) by lia.
    rewrite Hska in *. specialize (Heq eq_refl). rewrite Heq in Hc1.
    assert (H37 : m a = 37) by now apply skip_stops.
    unfold directive. destruct (parse m fuel live c1) as [[d c2]|r] eqn:EP; cbn [step]; [|easy].
    pose proof (parse_pos live c1 c2 d ltac:(now rewrite Hc1) ltac:(now rewrite Hc1) EP) as HPP.
    destruct (act _ _ _ _ _ _ _ _ d c2) as [c3|r] eqn:EA; [|easy].
    apply act_fmt in EA. intros [= <-]. rewrite EA. rewrite Hc1 in HPP. exact HPP.
  - intros [= <-]. rewrite Hc1. split; [lia|assumption].
Qed.
End Position.

(** The loop over a format ends. *)
Lemma text_core_total live (c : tcore) l :
  cstr m (fmt c) l -> (length l < fuel)%nat -> exists r, text_core live c = Some r.
Proof.
  intros Hc Hf. set (e := fmt c + Z.of_nat (length l)).
  assert (He : m e = 0).
  { pose proof (cstr_nth m (fmt c) l (length l) Hc ltac:(lia)) as HN.
    unfold e. rewrite HN. apply nth_overflow. lia. }
  destruct (loop_total (tround live) (fun c' => pos (fmt c) e (fmt c')) (fun _ => True)
              (fun c' => Z.to_nat (e - fmt c'))) with (fuel := fuel) (s := c) as (r & Hr & _).
  - intros c' Hp. destruct (tround live c') as [c2|r] eqn:ER; [|exact I].
    apply (round_pos (fmt c) e He) in ER; [|lia|assumption]. unfold pos in *. split; [apply ER|lia].
  - unfold pos, e. lia.
  - unfold e. lia.
  - exists r. exact Hr.
Qed.

(** *** The bytes of one conversion *)

(** The number of bytes pad prints. *)
Definition padding (w l fl : Z) : nat :=
  if negb (Z.land fl (Z.lor LEFT_ADJ ZERO_PAD) =? 0) then 0%nat else Z.to_nat (w - l).

(** Flags are tested bit by bit. *)
Lemma bit_shift x n : 0 <= n -> bit x (Z.shiftl 1 n) = Z.testbit x n.
Proof.
  intros Hn. unfold bit. rewrite Z.shiftl_1_l. destruct (Z.testbit x n) eqn:E.
  - apply negb_true_iff, Z.eqb_neq. intros H0. apply (f_equal (fun z => Z.testbit z n)) in H0.
    rewrite Z.land_spec, E, Z.pow2_bits_true, Z.bits_0 in H0 by assumption. discriminate.
  - apply negb_false_iff, Z.eqb_eq. apply Z.bits_inj'. intros k Hk.
    rewrite Z.land_spec, Z.bits_0, Z.pow2_bits_eqb by assumption.
    destruct (Z.eqb_spec n k) as [<-|]; [now rewrite E|apply andb_false_r].
Qed.

Lemma padding_bits w l fl :
  padding w l fl = if Z.testbit fl 13 || Z.testbit fl 16 then 0%nat else Z.to_nat (w - l).
Proof.
  unfold padding. rewrite <- (bit_shift fl 13), <- (bit_shift fl 16) by lia. unfold bit.
  change (Z.shiftl 1 13) with LEFT_ADJ. change (Z.shiftl 1 16) with ZERO_PAD.
  rewrite Z.land_lor_distr_r. 
  destruct (Z.eqb_spec (Z.land fl LEFT_ADJ) 0) as [->|H1], (Z.eqb_spec (Z.land fl ZERO_PAD) 0) as [->|H2];
    cbn [negb orb]; try reflexivity.
  all: match goal with |- context [?x =? 0] => destruct (Z.eqb_spec x 0) as [H0|] end; [|reflexivity];
    apply Z.lor_eq_0_iff in H0; tauto.
Qed.

(** The flag 0 does not go with the flag -. *)
Definition sane (fl : Z) : Prop := Z.testbit fl 13 && Z.testbit fl 16 = false.

Lemma sane_ldiff fl b : sane fl -> sane (Z.ldiff fl b).
Proof.
  unfold sane. rewrite !Z.ldiff_spec.
  destruct (Z.testbit fl 13), (Z.testbit fl 16), (Z.testbit b 13), (Z.testbit b 16); easy.
Qed.

Lemma pad_text (o : list Z) c w l fl :
  0 <= c < 256 -> pad text_err (@app Z) o c w l fl = o ++ repeat c (padding w l fl).
Proof.
  intros Hc. unfold pad, padding. destruct (negb _); [now rewrite app_nil_r|]. cbn [orb].
  destruct (Z.leb_spec w l).
  { replace (Z.to_nat (w - l)) with 0%nat by lia. now rewrite app_nil_r. }
  assert (HO : forall o n, out text_err (@app Z) o (repeat c n) = o ++ repeat c n).
  { intros o' n. unfold out, text_err. f_equal. rewrite map_repeat. f_equal. unfold u8. now apply Z.mod_small. }
  set (k := Z.to_nat _). assert (Hk : w - l < 256 * (Z.of_nat k + 1)).
  { subst k. rewrite Z2Nat.id by (apply Z.div_pos; lia). pose proof (Z.mod_pos_bound (w - l) 256 ltac:(lia)).
    pose proof (Z.div_mod (w - l) 256 ltac:(lia)). lia. }
  assert (Hp : 0 <= w - l) by lia. revert Hk Hp. generalize (w - l). clearbody k. revert o.
  induction k as [|k IH]; intros o z Hk Hp; cbn [while].
  - now rewrite HO.
  - cbn [fst snd]. destruct (Z.leb_spec 256 z); [|now rewrite HO].
    rewrite IH by lia. rewrite HO, <- app_assoc, <- repeat_app. do 2 f_equal. lia.
Qed.

Lemma out_text (o d : list Z) :
  Forall (fun b => 0 <= b < 256) d -> out text_err (@app Z) o d = o ++ d.
Proof.
  intros Hd. unfold out, text_err. f_equal. rewrite <- (map_id d) at 2. apply map_ext_in.
  intros b Hb. apply Z.mod_small. now apply (proj1 (Forall_forall _ _) Hd).
Qed.

Lemma if_ltb_max a b : (if a <? b then b else a) = Z.max a b.
Proof. destruct (Z.ltb_spec a b); lia. Qed.

(** The text of a conversion with the digits [a], at least [p] of them, in a
    field of [w]. *)
Definition layout (a prefix : list Z) (w p fl : Z) : list Z :=
  let za := Z.of_nat (length a) in
  let pl := Z.of_nat (length prefix) in
  let p := Z.max p za in
  let w := Z.max w (pl + p) in
  repeat 32 (padding w (pl + p) fl) ++ prefix ++
  repeat 48 (padding w (pl + p) (Z.lxor fl ZERO_PAD)) ++ repeat 48 (Z.to_nat (p - za)) ++ a ++
  repeat 32 (padding w (pl + p) (Z.lxor fl LEFT_ADJ)).

Lemma emit_text (c : tcore) a prefix w p fl :
  Forall (fun b => 0 <= b < 256) a -> Forall (fun b => 0 <= b < 256) prefix ->
  let pl := Z.of_nat (length prefix) in
  let q := Z.max p (Z.of_nat (length a)) in
  emit text_err (@app Z) c a prefix w p fl =
  if INT_MAX - pl <? q then inr Overflow
  else if INT_MAX - cnt c <? Z.max w (pl + q) then inr Overflow
  else inl (with_len (with_dst c (dst c ++ layout a prefix w p fl)) (Z.max w (pl + q))).
Proof.
  intros Ha Hp. unfold emit, layout. set (za := Z.of_nat (length a)). set (pl := Z.of_nat (length prefix)).
  cbv zeta. rewrite !if_ltb_max. set (q := Z.max p za). set (w' := Z.max w (pl + q)).
  destruct (INT_MAX - pl <? q); [reflexivity|]. destruct (INT_MAX - cnt c <? w'); [reflexivity|].
  rewrite !pad_text, !out_text by (assumption || lia). rewrite <- !app_assoc. do 6 f_equal.
Qed.

Lemma layout_length a prefix w p fl :
  sane fl ->
  Z.of_nat (length (layout a prefix w p fl))
  = Z.max w (Z.of_nat (length prefix) + Z.max p (Z.of_nat (length a))).
Proof.
  intros HS. unfold layout. set (q := Z.max p _). set (pl := Z.of_nat (length prefix)).
  rewrite !length_app, !repeat_length, !padding_bits, !Z.lxor_spec.
  change (Z.testbit ZERO_PAD 13) with false. change (Z.testbit ZERO_PAD 16) with true.
  change (Z.testbit LEFT_ADJ 13) with true. change (Z.testbit LEFT_ADJ 16) with false.
  unfold sane in HS. destruct (Z.testbit fl 13), (Z.testbit fl 16); cbn [xorb orb andb] in *;
    [discriminate|lia..].
Qed.

(** What a conversion comes to: bytes for the tail and flags that go together, or
    text that the conversion has printed and its count [l], exact unless the
    conversion is a wide one [w]. *)
Definition conv_ok (c : tcore) (w : bool) (r : conv (F:=F) (O:=list Z) + stop) : Prop :=
  match r with
  | inl (Tail a q _ fl) =>
      Forall (fun b => 0 <= b < 256) a /\ Forall (fun b => 0 <= b < 256) q /\ sane fl
  | inl (Done c' l) =>
      cnt c' = cnt c /\ fmt c' = fmt c /\ nl_arg c' = nl_arg c /\
      exists x, dst c' = dst c ++ x /\ Z.of_nat (length x) <= l /\
                (w = false -> Z.of_nat (length x) = l)
  | inr _ => True
  end.

Lemma fmt_u_bytes k y s :
  Forall (fun b => 0 <= b < 256) s -> 0 <= y -> Forall (fun b => 0 <= b < 256) (fmt_u_loop k y s).
Proof.
  revert y s; induction k as [|k IH]; intros y s Hs Hy; cbn [fmt_u_loop]; [assumption|].
  destruct (Z.leb_spec 10 y).
  - apply IH; [|apply Z.div_pos; lia]. constructor; [|assumption].
    pose proof (Z.mod_pos_bound y 10 ltac:(lia)). lia.
  - destruct (Z.eqb_spec y 0); [assumption|]. constructor; [lia|assumption].
Qed.

Lemma fmt_o_bytes k x s :
  Forall (fun b => 0 <= b < 256) s -> Forall (fun b => 0 <= b < 256) (fmt_o_loop k x s).
Proof.
  revert x s; induction k as [|k IH]; intros x s Hs; cbn [fmt_o_loop]; [assumption|].
  destruct (x =? 0); [assumption|]. apply IH. constructor; [|assumption].
  change 7 with (Z.ones 3). rewrite Z.land_ones by lia. pose proof (Z.mod_pos_bound x (2 ^ 3) ltac:(lia)). lia.
Qed.

Lemma Forall_firstn {A} (P : A -> Prop) i l : Forall P l -> Forall P (firstn i l).
Proof. rewrite <- (firstn_skipn i l) at 1. now intros [H _]%Forall_app. Qed.

Lemma Forall_skipn {A} (P : A -> Prop) i l : Forall P l -> Forall P (skipn i l).
Proof. rewrite <- (firstn_skipn i l) at 1. now intros [_ H]%Forall_app. Qed.

Lemma xdigit_byte k t : 0 <= Z.lor (nth k xdigits 0) (Z.land t 32) < 256.
Proof.
  assert (HX : In (nth k xdigits 0) (0 :: xdigits))
    by (destruct (nth_in_or_default k xdigits 0) as [Hin| ->]; [now right|now left]).
  change 32 with (2 ^ 5). rewrite land_bit by lia. revert HX.
  generalize (nth k xdigits 0). apply Forall_forall.
  destruct (Z.testbit t 5); repeat (apply Forall_cons; [vm_compute; easy|]); constructor.
Qed.

Lemma fmt_x_bytes k x t s :
  Forall (fun b => 0 <= b < 256) s ->
  Forall (fun b => 0 <= b < 256) (fmt_x_loop k x (Z.land t 32) s).
Proof.
  revert x s; induction k as [|k IH]; intros x s Hs; cbn [fmt_x_loop]; [assumption|].
  destruct (x =? 0); [assumption|]. apply IH. constructor; [apply xdigit_byte|assumption].
Qed.

Lemma prefix_bytes k pl : Forall (fun b => 0 <= b < 256) (prefix_at k pl).
Proof. apply Forall_firstn, Forall_skipn. repeat (apply Forall_cons; [lia|]). constructor. Qed.

Lemma ifmt_tail_ok c w i a q xp p fl :
  Forall (fun b => 0 <= b < 256) a -> Forall (fun b => 0 <= b < 256) q -> sane fl ->
  conv_ok c w (ifmt_tail i a q xp p fl).
Proof.
  intros Ha Hq Hs. unfold ifmt_tail. destruct (xp && _); [exact I|].
  assert (sane (if xp then Z.ldiff fl ZERO_PAD else fl)) by (destruct xp; [now apply sane_ldiff|assumption]).
  destruct (_ && _); cbn; auto.
Qed.

Lemma conv_s_ok c w a p fl : wf_mem m -> sane fl -> conv_ok c w (conv_s m a p fl).
Proof.
  intros Hwf Hs. unfold conv_s. destruct (a =? 0); [|destruct (_ && _); [exact I|]]; cbn;
    (split; [|split; [constructor|now apply sane_ldiff]]).
  - apply Forall_firstn. repeat (apply Forall_cons; [lia|]). constructor.
  - now apply bytes_at_forall.
Qed.

Lemma wide_size_grows n ws p k i l i' l' :
  wide_size utf8 n ws p k i l = Some (i', l') -> 0 <= l' -> i <= i'.
Proof.
  revert k i l; induction n as [|n IH]; intros k i l; cbn [wide_size]; [discriminate|].
  destruct (_ || _); [intros [= -> ->]; lia|].
  set (b := fst (wctomb utf8 (ws k))). destruct (_ || _) eqn:E; [intros HE; injection HE as -> _; lia|].
  intros HE Hl. apply IH in HE; [|assumption]. apply orb_false_iff in E as [E _]. lia.
Qed.

(** The second loop prints what the first one counted. *)
Lemma wide_out_text n ws p k i l i' l' (o : list Z) :
  wide_size utf8 n ws p k i l = Some (i', l') -> 0 <= l' -> 0 <= i -> i' <= INT_MAX ->
  exists x, wide_out text_err (@app Z) utf8 n ws i' k i o = o ++ x /\ Z.of_nat (length x) = i' - i.
Proof.
  intros HE Hl Hi Hmax. assert (Hle := wide_size_grows _ _ _ _ _ _ _ _ HE Hl). unfold INT_MAX in Hmax.
  revert k i l o HE Hi Hle; induction n as [|n IH]; intros k i l o; cbn [wide_size wide_out];
    [discriminate|]. intros HE Hi Hle.
  assert (Hnil : exists x, o = o ++ x /\ Z.of_nat (length x) = i - i)
    by (exists []; rewrite app_nil_r; split; [reflexivity|cbn; lia]).
  replace (u32 i') with i' by (unfold u32; symmetry; apply Z.mod_small; lia).
  destruct (ws k =? 0); [rewrite orb_true_r in HE|].
  { rewrite orb_true_r. injection HE as -> _. exact Hnil. }
  rewrite orb_false_r in *. destruct (negb (i <? u64 p)).
  { injection HE as -> _. rewrite Z.ltb_irrefl. exact Hnil. }
  pose proof (fun j => wide_size_grows n ws p (k + 1) j (fst (wctomb utf8 (ws k))) i' l') as HG.
  unfold wctomb in *. destruct (wcrtomb _ _ _ _) as [[r mb] e]. cbn [fst] in *.
  destruct (_ || _) eqn:E in HE.
  { injection HE as -> _. rewrite Z.ltb_irrefl. exact Hnil. }
  apply orb_false_iff in E as [El _]. specialize (HG _ HE Hl).
  destruct (Z.ltb_spec i i'); cbn [negb].
  - replace (i' <? i + s32 r) with false by lia.
    destruct (IH (k + 1) (i + s32 r) (s32 r) (out text_err (@app Z) o (bytes_at mb 0 (Z.to_nat (s32 r)))) HE)
      as (x & Hx & Hlen); [lia|lia|]. rewrite Hx. unfold out, text_err.
    eexists. rewrite <- app_assoc. split; [reflexivity|].
    rewrite length_app, length_map, bytes_at_length. lia.
  - exists []. rewrite app_nil_r. split; [reflexivity|cbn; lia].
Qed.

Lemma conv_S_ok (c : tcore) ws w p fl : sane fl -> conv_ok c true (conv_S text_err (@app Z) utf8 fuel c ws w p fl).
Proof.
  intros Hs. unfold conv_S. destruct (wide_size _ _ _ _ _ _ _) as [[i l]|] eqn:EW; [|exact I].
  destruct (Z.ltb_spec l 0); [exact I|]. destruct (Z.ltb_spec INT_MAX i); [exact I|].
  assert (Hi := wide_size_grows _ _ _ _ _ _ _ _ EW ltac:(assumption)).
  cbn [conv_ok cnt fmt dst nl_arg with_dst]. do 3 (split; [reflexivity|]).
  rewrite !pad_text by lia.
  destruct (wide_out_text fuel ws p 0 0 0 i l (dst c ++ repeat 32 (padding w i fl)) EW)
    as (x & -> & Hx); [assumption|lia|assumption|].
  eexists. rewrite <- !app_assoc. split; [reflexivity|]. split; [|discriminate].
  rewrite !length_app, !repeat_length, !padding_bits, !Z.lxor_spec, if_ltb_max.
  change (Z.testbit LEFT_ADJ 13) with true. change (Z.testbit LEFT_ADJ 16) with false.
  unfold sane in Hs. destruct (Z.testbit fl 13), (Z.testbit fl 16); cbn [xorb orb andb] in *;
    [discriminate|lia..].
Qed.

(** fmt_fp returns the number of bytes it prints. *)
Definition fp_counts : Prop :=
  forall x w p fl t ps, let '(l, ds) := fmt_fp x w p fl t ps in
    0 <= l -> Z.of_nat (length (concat ds)) = l.

Lemma outs_text ds (o : list Z) :
  fold_left (out text_err (@app Z)) ds o = o ++ map u8 (concat ds).
Proof.
  revert o; induction ds as [|d ds IH]; intros o; cbn [fold_left concat map]; [now rewrite app_nil_r|].
  rewrite IH, map_app, app_assoc. reflexivity.
Qed.

Definition is_wide (t : Z) : bool := (t =? 67) || (t =? 83).

Lemma convert_ok (c : tcore) a ps t w xp p fl :
  fp_counts -> wf_mem m -> sane fl -> len c = 0 -> 0 <= arg_i a ->
  conv_ok c (is_wide t)
    (convert text_err (@app Z) fmt_fp strerror_msg utf8 m fuel c a ps t w xp p fl).
Proof.
  intros Hfp Hwf Hs Hl Hi. unfold convert. cbv zeta. set (i := arg_i a) in *.
  assert (Hnil : Forall (fun b => 0 <= b < 256) []) by constructor.
  assert (HX : forall v xp p fl', sane fl' -> conv_ok c (is_wide t) (conv_x i v xp p fl')).
  { intros v xp' p' fl' Hf. apply ifmt_tail_ok; [now apply fmt_x_bytes| |assumption].
    destruct (_ && _); [apply prefix_bytes|assumption]. }
  assert (Hc : conv_ok c (is_wide t) (inl (conv_c i fl))).
  { cbn. split; [repeat constructor; apply u8_range|]. split; [constructor|now apply sane_ldiff]. }
  destruct (t =? 110).
  { cbn. destruct (n_size ps =? 0); cbn; do 3 (split; [reflexivity|]);
      exists []; rewrite app_nil_r; cbn; auto with zarith. }
  destruct (t =? 112).
  { apply HX. unfold sane in *. rewrite !Z.lor_spec. change (Z.testbit ALT_FORM 13) with false.
    change (Z.testbit ALT_FORM 16) with false. now rewrite !orb_false_r. }
  destruct (_ || _); [now apply HX|].
  destruct (t =? 111); [unfold conv_o; cbv zeta; apply ifmt_tail_ok; [now apply fmt_o_bytes|assumption..]|].
  destruct (_ || _).
  { unfold conv_d. destruct (INTMAX_MAX <? i); [|destruct (bit fl MARK_POS); [|destruct (bit fl PAD_POS)]];
      (apply ifmt_tail_ok; [apply fmt_u_bytes; [assumption|try assumption]|try apply prefix_bytes; assumption|assumption]).
    apply u64_range. }
  destruct (t =? 117); [apply ifmt_tail_ok; [now apply fmt_u_bytes|assumption..]|].
  destruct (t =? 99); [exact Hc|].
  destruct (t =? 109); [now apply conv_s_ok|]. destruct (t =? 115); [now apply conv_s_ok|].
  destruct (Z.eqb_spec t 67) as [->|]; [destruct (i =? 0); [exact Hc|now apply conv_S_ok]|].
  destruct (Z.eqb_spec t 83) as [->|]; [now apply conv_S_ok|].
  destruct a as [z|x]; [exact I|]. destruct (xp && _); [exact I|].
  specialize (Hfp x w p fl t ps). destruct (fmt_fp x w p fl t ps) as [l ds].
  destruct (Z.ltb_spec l 0); [exact I|]. cbn. do 3 (split; [reflexivity|]).
  rewrite outs_text. eexists. split; [reflexivity|]. rewrite length_map.
  rewrite Hfp by assumption. split; [lia|auto].
Qed.

(** *** How a pass ends *)

(** Reading a directive makes the function return only in the first pass, and
    then 0. *)
Definition no_ret {A} (r : A + stop) : Prop := match r with inr (Ret _) => False | _ => True end.

Lemma star_no_ret live (c : tcore) b : no_ret (star m live c b).
Proof.
  unfold star. destruct (positional _ _); [now destruct live, b|]. destruct (negb _); [|exact I].
  destruct live; [|exact I]. now destruct (pop_arg INT (ap c)) as [[? ?]|].
Qed.

Lemma parse_type_no_ret k st s : no_ret (parse_type m k st s).
Proof.
  revert st s; induction k as [|k IH]; intros st s; cbn [parse_type]; [exact I|].
  destruct (OOB _); [exact I|]. destruct (_ && _); [apply IH|]. now destruct (_ =? 0).
Qed.

Lemma parse_width_no_ret live fl (c : tcore) : no_ret (parse_width m fuel live fl c).
Proof.
  unfold parse_width. destruct (_ =? 42).
  - pose proof (star_no_ret live (with_fmt c (fmt c + 1)) true) as HS.
    destruct (star _ _ _ _) as [[w c']|[]]; cbn in *; try easy. now destruct (w <? 0).
  - destruct (getint _ _ _) as [w s]. now destruct (w <? 0).
Qed.

Lemma parse_prec_no_ret live (c : tcore) : no_ret (parse_prec m fuel live c).
Proof.
  unfold parse_prec. destruct (_ && _).
  - pose proof (star_no_ret live (with_fmt c (fmt c + 2)) false) as HS.
    now destruct (star _ _ _ _) as [[w c']|[]].
  - destruct (_ =? 46); [|exact I]. now destruct (getint _ _ _).
Qed.

Lemma take_arg_ret live (c : tcore) argpos st z :
  take_arg live c argpos st = inr (Ret z) -> live = false /\ z = 0.
Proof.
  unfold take_arg. destruct (_ =? NOARG); [now destruct (0 <=? argpos)|].
  destruct (0 <=? argpos); [now destruct live|]. destruct live; [|now intros [= <-]].
  now destruct (pop_arg _ _) as [[? ?]|].
Qed.

Lemma parse_ret live (c : tcore) z : parse m fuel live c = inr (Ret z) -> live = false /\ z = 0.
Proof.
  unfold parse. destruct (parse_argpos m c) as [argpos c1].
  destruct (flags_loop m fuel 0 (fmt c1)) as [fl s].
  pose proof (parse_width_no_ret live fl (with_fmt c1 s)) as HW.
  destruct (parse_width _ _ _ _ _) as [[[w fl'] c2]|[]]; cbn [step]; try contradiction; try discriminate.
  pose proof (parse_prec_no_ret live c2) as HP.
  destruct (parse_prec _ _ _ _) as [[[p xp] c3]|[]]; cbn [step]; try contradiction; try discriminate.
  pose proof (parse_type_no_ret 8 0 (fmt c3)) as HT.
  destruct (parse_type _ _ _ _) as [[[ps st] s']|[]]; cbn [step]; try contradiction; try discriminate.
  destruct (take_arg live _ argpos st) as [[a c4]|r] eqn:ET; cbn [step]; [discriminate|].
  intros [= ->]. exact (take_arg_ret _ _ _ _ _ ET).
Qed.

(** *** The count *)

Definition args_ok (c : tcore) : Prop := Forall (fun a : arg => 0 <= arg_i a) (nl_arg c).

Lemma pop_nonneg t l (a : arg (F:=F)) l' : pop_arg t l = Some (a, l') -> 0 <= arg_i a.
Proof.
  unfold pop_arg. destruct l as [|v l]; [discriminate|].
  destruct (pop_value t v) as [b|] eqn:E; [|discriminate]. intros [= <- _].
  unfold pop_value in E. destruct v as [z|x].
  - repeat (match type of E with (if ?b then _ else _) = _ => destruct b end);
      try discriminate; injection E as <-; cbn [arg_i];
      first [apply u64_range|apply u32_range|apply u8_range|unfold u16; apply Z.mod_pos_bound; lia].
  - destruct (_ || _); [|discriminate]. injection E as <-. cbn. lia.
Qed.

Lemma nth_nonneg (l : list (arg (F:=F))) i :
  Forall (fun a => 0 <= arg_i a) l -> 0 <= arg_i (nth i l (AI 0)).
Proof.
  intros Hl. destruct (nth_in_or_default i l (AI 0)) as [Hin| ->]; [|cbn; lia].
  now apply (proj1 (Forall_forall _ _) Hl).
Qed.

Lemma take_arg_ok live (c c' : tcore) argpos st a :
  args_ok c -> take_arg live c argpos st = inl (Some a, c') -> 0 <= arg_i a.
Proof.
  intros Ha. unfold take_arg.
  destruct (st =? NOARG); [destruct (0 <=? argpos); [easy|intros [= <- _]; cbn; lia]|].
  destruct (0 <=? argpos); [destruct live; [|easy]; intros [= <- _]; now apply nth_nonneg|].
  destruct live; [|easy]. destruct (pop_arg st _) as [[b l]|] eqn:EP; [|easy].
  intros [= <- _]. exact (pop_nonneg _ _ _ _ EP).
Qed.

(** The conversion character after the modifier l is taken into account. *)
Definition dir_char (d : dir (F:=F)) : Z :=
  if negb (d_ps d =? 0) && (Z.land (d_t d) 15 =? 3) then Z.ldiff (d_t d) 32 else d_t d.

Lemma act_count (c c' : tcore) d :
  fp_counts -> wf_mem m -> len c = 0 -> (forall a, d_arg d = Some a -> 0 <= arg_i a) ->
  act text_err (@app Z) fmt_fp strerror_msg utf8 m fuel true d c = inl c' ->
  cnt c' = cnt c /\ nl_arg c' = nl_arg c /\
  exists x, dst c' = dst c ++ x /\ Z.of_nat (length x) <= len c' /\
            (is_wide (dir_char d) = false -> Z.of_nat (length x) = len c').
Proof.
  intros Hfp Hwf Hl Ha. unfold act. cbn [negb text_err]. destruct (d_arg d) as [a|]; [|easy].
  specialize (Ha a eq_refl). fold (dir_char d). cbv zeta. set (fl := if bit _ _ then _ else _).
  assert (Hs : sane fl).
  { subst fl. unfold sane. pose proof (bit_shift (d_fl d) 13 ltac:(lia)) as HB.
    change (Z.shiftl 1 13) with LEFT_ADJ in HB. rewrite HB.
    destruct (Z.testbit (d_fl d) 13) eqn:E; [|now rewrite E].
    rewrite !Z.ldiff_spec. change (Z.testbit ZERO_PAD 16) with true. cbn. now rewrite !andb_false_r. }
  pose proof (convert_ok c a (d_ps d) (dir_char d) (d_w d) (d_xp d) (d_p d) fl Hfp Hwf Hs Hl Ha) as HC.
  destruct (convert _ _ _ _ _ _ _ c _ _ _ _ _ _ _) as [[b q p f|c2 l]|r]; cbn [step]; [| |easy].
  - destruct HC as (Hb & Hq & Hf). rewrite emit_text by assumption. cbv zeta.
    destruct (_ <? _); [discriminate|]. destruct (_ <? _); [discriminate|]. intros HE. injection HE as <-.
    cbn [cnt nl_arg dst len with_len with_dst]. split; [reflexivity|]. split; [reflexivity|].
    eexists. split; [reflexivity|]. rewrite layout_length by assumption. split; [lia|auto].
  - destruct HC as (Hc & _ & Hn & x & Hx). intros [= <-]. cbn. split; [assumption|]. split; [assumption|].
    exists x. exact Hx.
Qed.

(** A wide conversion shows in the format. *)
Definition narrow_at (s e : Z) : Prop :=
  forall x, s <= x < e -> m x <> 67 /\ m x <> 83 /\ (m x = 108 -> m (x + 1) <> 99 /\ m (x + 1) <> 115).

Lemma next_state_in st c : next_state st c <> 0 -> In (c, next_state st c) (nth (Z.to_nat st) states []).
Proof.
  unfold next_state. destruct (find _ _) as [[c' s']|] eqn:E; [|easy]. intros _.
  apply find_some in E as [Hin Hc]. cbn in *. now apply Z.eqb_eq in Hc as <-.
Qed.

Lemma next_LPRE st c : next_state st c = LPRE -> c = 108.
Proof.
  intros H. pose proof (next_state_in st c ltac:(rewrite H; discriminate)) as Hin. rewrite H in Hin.
  assert (HA : Forall (Forall (fun e => snd e = LPRE -> fst e = 108)) states).
  { repeat (apply Forall_cons; [repeat (apply Forall_cons; [cbn; (discriminate || auto)|]); constructor|]).
    constructor. }
  destruct (nth_in_or_default (Z.to_nat st) states []) as [HI|HI]; [|now rewrite HI in Hin].
  pose proof (proj1 (Forall_forall _ _) HA _ HI) as HB.
  exact (proj1 (Forall_forall _ _) HB _ Hin eq_refl).
Qed.

Lemma next_wide ps c :
  0 <= ps -> next_state ps c <> 0 -> c = 99 \/ c = 115 -> ps = BARE \/ ps = LPRE.
Proof.
  intros Hps H Hc. apply next_state_in in H. unfold BARE, LPRE.
  destruct (Z.to_nat ps) as [|[|k]] eqn:E; [lia..|].
  assert (HA : Forall (Forall (fun e => fst e <> 99 /\ fst e <> 115)) (skipn 2 states)).
  { repeat (apply Forall_cons; [repeat (apply Forall_cons; [cbn; lia|]); constructor|]). constructor. }
  change (nth (S (S k)) states []) with (nth k (skipn 2 states) []) in H.
  destruct (nth_in_or_default k (skipn 2 states) []) as [HI|HI]; [|now rewrite HI in H].
  pose proof (proj1 (Forall_forall _ _) HA _ HI) as HB.
  pose proof (proj1 (Forall_forall _ _) HB _ H). cbn in *. lia.
Qed.

Lemma parse_type_char k st s ps st' s' :
  parse_type m k st s = inl (ps, st', s') ->
  s <= s' - 1 /\ next_state ps (m (s' - 1)) <> 0 /\
  (ps = st /\ s' = s + 1 \/ 0 <= ps /\ s <= s' - 2 /\ exists st0, next_state st0 (m (s' - 2)) = ps).
Proof.
  revert st s; induction k as [|k IH]; intros st s; cbn [parse_type]; [discriminate|].
  destruct (OOB (m s)); [easy|]. destruct (_ && _) eqn:E.
  - intros HE. destruct (IH _ _ HE) as (H1 & H2 & H3). split; [lia|]. split; [assumption|]. right.
    destruct H3 as [[-> ->]|(Hps & H3 & st0 & H4)]; [|split; [assumption|]; split; [lia|eauto]].
    apply andb_true_iff in E as [E _]. split; [lia|]. split; [lia|]. exists st.
    now replace (s + 1 + 1 - 2) with s by lia.
  - destruct (Z.eqb_spec (next_state st (m s)) 0); [easy|]. intros [= -> <- <-].
    replace (s + 1 - 1) with s by lia. auto with zarith.
Qed.

(** In mask-and-compare form. *)
Lemma dir_char_wide (d : dir (F:=F)) :
  is_wide (dir_char d) = true ->
  d_t d = 67 \/ d_t d = 83 \/ d_ps d <> 0 /\ (d_t d = 99 \/ d_t d = 115).
Proof.
  unfold dir_char, is_wide. destruct (Z.eqb_spec (d_ps d) 0) as [|Hps]; cbn [negb andb]; [lia|].
  destruct (_ =? 3); [|lia]. intros HW.
  pose proof (Z.lor_ldiff_and (d_t d) 32) as HL. rewrite <- HL. change 32 with (2 ^ 5) at 2 4 6 8.
  rewrite land_bit by lia. apply orb_true_iff in HW as [HW|HW]; apply Z.eqb_eq in HW; rewrite HW;
    destruct (Z.testbit (d_t d) 5); vm_compute; auto.
Qed.

(** What a directive read within the format amounts to. *)
Lemma parse_ok live (c c' : tcore) d s0 e :
  m e = 0 -> pos s0 e (fmt c) -> m (fmt c) = 37 -> args_ok c ->
  parse m fuel live c = inl (d, c') ->
  outputs c' = outputs c /\ (forall a, d_arg d = Some a -> 0 <= arg_i a) /\
  (narrow_at s0 e -> is_wide (dir_char d) = false).
Proof.
  intros He Hp H37 Ha HE. pose proof (parse_dst m fuel live c) as HD. rewrite HE in HD.
  destruct (parse_inv s0 e He _ _ _ _ Hp H37 HE) as (c3 & st & argpos & H1 & H2 & H3 & HT & Ht & HA).
  split; [exact HD|]. split.
  - intros a Hd. rewrite Hd in HA. apply take_arg_ok in HA; [assumption|].
    unfold args_ok. apply (f_equal snd) in H3. cbn in *. now rewrite H3.
  - intros HN. destruct (is_wide _) eqn:EW; [|reflexivity]. exfalso. apply dir_char_wide in EW.
    pose proof (parse_type_pos s0 e He 8 0 (fmt c3) H2) as HTP. rewrite HT in HTP.
    destruct (parse_type_char _ _ _ _ _ _ HT) as (Hle & Hnz & HC). unfold pos in *. rewrite Ht in *.
    destruct (HN (fmt c' - 1) ltac:(lia)) as (N1 & N2 & _).
    destruct EW as [EW|[EW|[Hps EW]]]; [lia..|]. destruct HC as [[? _]|(Hps0 & Hle2 & st0 & Hst0)]; [easy|].
    destruct (next_wide _ _ Hps0 Hnz EW) as [?|HL]; [easy|]. rewrite HL in Hst0.
    apply next_LPRE in Hst0. destruct (HN (fmt c' - 2) ltac:(lia)) as (_ & _ & N3).
    specialize (N3 Hst0). replace (fmt c' - 2 + 1) with (fmt c' - 1) in N3 by lia. lia.
Qed.

Lemma act_no_ret live d (c : tcore) :
  no_ret (act text_err (@app Z) fmt_fp strerror_msg utf8 m fuel live d c).
Proof.
  unfold act. destruct (negb live); [exact I|]. cbn [text_err]. destruct (d_arg d) as [a|]; [|exact I].
  cbv zeta. fold (dir_char d). set (fl := if bit _ _ then _ else _).
  assert (HC : no_ret (convert text_err (@app Z) fmt_fp strerror_msg utf8 m fuel c a (d_ps d)
                         (dir_char d) (d_w d) (d_xp d) (d_p d) fl)).
  { unfold convert, conv_x, conv_o, conv_d, conv_u, conv_c, conv_s, conv_n, conv_S, ifmt_tail.
    repeat match goal with
    | |- no_ret (if ?b then _ else _) => destruct b
    | |- no_ret (let '(_, _) := ?x in _) => destruct x
    | |- no_ret (match ?x with AI _ => _ | AF _ => _ end) => destruct x
    | |- no_ret (match ?x with Some _ => _ | None => _ end) => destruct x as [[? ?]|]
    | |- no_ret (inl _) => exact I
    end; exact I. }
  destruct (convert _ _ _ _ _ _ _ c _ _ _ _ _ _ _) as [[b q p f|c2 l]|r]; cbn [step]; [|exact I|exact HC].
  unfold emit. destruct (_ <? _); [exact I|]. now destruct (_ <? _).
Qed.

Definition counted (P : Prop) (c : tcore) : Prop :=
  0 <= cnt c /\ 0 <= len c /\ args_ok c /\
  Z.of_nat (length (dst c)) <= cnt c + len c /\
  (P -> Z.of_nat (length (dst c)) = cnt c + len c).

Definition count_result (P : Prop) (d : list Z) (r : stop) : Prop :=
  match r with
  | Ret z => 0 <= z <= INT_MAX /\ Z.of_nat (length d) <= z /\ (P -> Z.of_nat (length d) = z)
  | _ => True
  end.

Lemma round_count (c : tcore) s0 e :
  fp_counts -> wf_mem m -> (0 < fuel)%nat -> m e = 0 -> pos s0 e (fmt c) ->
  counted (narrow_at s0 e) c ->
  match tround true c with
  | inl c' => counted (narrow_at s0 e) c'
  | inr (c', r) => count_result (narrow_at s0 e) (dst c') r
  end.
Proof.
  intros Hfp Hwf Hfuel He Hs (Hc & Hl & Ha & Hle & Heq). unfold core_round.
  destruct (Z.ltb_spec (INT_MAX - cnt c) (len c)); [exact I|]. cbn [fmt with_cnt].
  destruct (Z.eqb_spec (m (fmt c)) 0) as [|Hnz].
  { cbn. split; [lia|]. split; assumption. }
  set (a := fmt c) in *. destruct (skip_text_pos s0 e He fuel a Hs) as [Hle1 Hs1].
  pose proof (skip_percents_pos s0 e He fuel (skip_text m fuel a) (skip_text m fuel a) Hs1) as HP.
  destruct (skip_percents _ _ _ _) as [z s] eqn:Esp. destruct HP as (Hz & Hzs & Hs2 & Heqs).
  cbn [cnt with_cnt]. destruct (_ <? z - a); [exact I|]. set (c1 := with_dst _ _).
  assert (Hd1 : dst c1 = dst c ++ bytes_at m a (Z.to_nat (z - a)))
    by (apply out_text; now apply bytes_at_forall).
  assert (Hlen1 : Z.of_nat (length (dst c1)) = Z.of_nat (length (dst c)) + (z - a))
    by (rewrite Hd1, length_app, bytes_at_length; lia).
  destruct (Z.eqb_spec (z - a) 0) as [Hza|Hza]; cbn [negb].
  2: { split; [cbn; lia|]. split; [cbn; lia|]. split; [exact Ha|]. rewrite Hlen1. cbn. split; [lia|].
       intros HN. specialize (Heq HN). lia. }
  assert (z = a) as -> by lia. assert (Hska : skip_text m fuel a = a) by lia.
  rewrite Hska in *. specialize (Heqs eq_refl). subst s.
  assert (H37 : m a = 37) by now apply (skip_stops s0 e He).
  unfold directive. destruct (parse m fuel true c1) as [[d c2]|r] eqn:EP; cbn [step].
  2: { destruct r; try exact I. apply parse_ret in EP. now destruct EP. }
  destruct (parse_ok true c1 c2 d s0 e He Hs H37 Ha EP) as (HO & Hda & HN).
  assert (HO2 : dst c2 = dst c1 /\ cnt c2 = cnt c + len c /\ len c2 = 0 /\ nl_arg c2 = nl_arg c)
    by (unfold outputs in HO; injection HO as H1 H2 H3 H4; rewrite H1, H2, H3, H4; cbn; auto).
  destruct HO2 as (Hd2 & Hc2 & Hl2 & Hn2).
  destruct (act _ _ _ _ _ _ _ _ d c2) as [c3|r] eqn:EA.
  - destruct (act_count _ _ _ Hfp Hwf Hl2 Hda EA) as (Hc3 & Hn3 & x & Hd3 & Hx1 & Hx2).
    split; [lia|]. split; [lia|]. split; [unfold args_ok; now rewrite Hn3, Hn2|].
    rewrite Hd3, length_app, Hd2. split; [lia|]. intros HNN.
    specialize (Hx2 (HN HNN)). specialize (Heq HNN). lia.
  - pose proof (act_no_ret true d c2) as HNR. rewrite EA in HNR. now destruct r.
Qed.

Lemma types_ret (c c' : tcore) z : text_core false c = Some (c', Ret z) -> 0 <= z.
Proof.
  unfold text_core, printf_core. generalize fuel at 2 as k. intros k; revert c.
  induction k as [|k IH]; intros c; cbn [loop]; [discriminate|].
  destruct (tround false c) as [c1|[c1 r]] eqn:ER; [apply IH|]. intros [= -> ->].
  unfold core_round in ER. destruct (_ <? len c); [easy|]. destruct (m _ =? 0).
  - unfold finish in ER. destruct (negb _); [injection ER as _ <-; lia|].
    destruct (fetch _ _ _ _) as [[[? ?] ?]|]; [|easy].
    destruct (forallb _ _); [injection ER as _ <-; lia|easy].
  - destruct (skip_percents _ _ _ _) as [z1 s1]. destruct (_ <? z1 - _); [easy|].
    destruct (negb _); [easy|]. unfold directive in ER.
    destruct (parse _ _ _ _) as [[d c2]|r] eqn:EP; [easy|]. cbn [step] in ER.
    injection ER as _ ->. apply parse_ret in EP. lia.
Qed.

Lemma run_count (c c' : tcore) r s0 e :
  fp_counts -> wf_mem m -> (0 < fuel)%nat -> m e = 0 -> pos s0 e (fmt c) ->
  counted (narrow_at s0 e) c -> text_core true c = Some (c', r) ->
  count_result (narrow_at s0 e) (dst c') r.
Proof.
  intros Hfp Hwf Hfuel He. unfold text_core, printf_core. generalize fuel at 2 as k. intros k; revert c.
  induction k as [|k IH]; intros c Hp Hc; cbn [loop]; [discriminate|].
  pose proof (round_count c s0 e Hfp Hwf Hfuel He Hp Hc) as HR.
  destruct (tround true c) as [c1|[c1 r1]] eqn:ER.
  - apply IH; [|assumption]. now apply (round_pos s0 e He true c).
  - intros [= <- <-]. exact HR.
Qed.

(** The arguments the first pass fetches. *)
Lemma set_nth_nonneg (l : list (arg (F:=F))) i a :
  Forall (fun a => 0 <= arg_i a) l -> 0 <= arg_i a -> Forall (fun a => 0 <= arg_i a) (set_nth i a l).
Proof.
  intros Hl Ha. revert i; induction Hl as [|b l Hb Hl IH]; intros [|i]; cbn; constructor; auto.
Qed.

Lemma fetch_nonneg types i (va va' : list (@vararg F)) args i' args' :
  Forall (fun a => 0 <= arg_i a) args -> fetch i types va args = Some (i', va', args') ->
  Forall (fun a => 0 <= arg_i a) args'.
Proof.
  revert i va args; induction types as [|t types IH]; intros i va args Ha; cbn [fetch];
    [now intros [= _ _ <-]|].
  destruct (t =? 0); [now intros [= _ _ <-]|].
  destruct (pop_arg t va) as [[a va1]|] eqn:EP; [|discriminate].
  apply IH. apply set_nth_nonneg; [assumption|]. exact (pop_nonneg _ _ _ _ EP).
Qed.

Lemma types_args (c c' : tcore) r : args_ok c -> text_core false c = Some (c', r) -> args_ok c'.
Proof.
  unfold text_core, printf_core. generalize fuel at 2 as k. intros k; revert c.
  induction k as [|k IH]; intros c Ha; cbn [loop]; [discriminate|].
  assert (HR : match tround false c with inl c1 => args_ok c1 | inr (c1, _) => args_ok c1 end).
  { unfold core_round. destruct (_ <? len c); [exact Ha|]. destruct (m _ =? 0).
    - unfold finish. destruct (negb _); [exact Ha|].
      destruct (fetch _ _ _ _) as [[[? ?] ?]|] eqn:EF; [|exact Ha]. exact (fetch_nonneg _ _ _ _ _ _ _ Ha EF).
    - destruct (skip_percents _ _ _ _) as [z1 s1]. destruct (_ <? z1 - _); [exact Ha|].
      destruct (negb _); [exact Ha|]. unfold directive. set (c1 := with_fmt _ _).
      pose proof (parse_dst m fuel false c1) as HD.
      destruct (parse _ _ _ _) as [[d c2]|r1]; [|exact Ha]. cbn [step act negb].
      unfold args_ok. apply (f_equal snd) in HD. cbn in HD. now rewrite HD. }
  destruct (tround false c) as [c1|[c1 r1]]; [now apply IH|]. now intros [= <- <-].
Qed.

(** *** Both passes *)

Definition text_start (s : Z) (ap : list (@vararg F)) (args : list arg) : tcore :=
  mkcore [] 0 0 s false ap args (repeat 0 10) [].

(** What the format at [s] comes to: how it ends, the text, the stores of %n. *)
Definition format (s : Z) (ap : list (@vararg F)) : option (stop * list Z * list (Z * Z * Z)) :=
  let? (c, r) := text_core false (text_start s ap (repeat (AI 0) 10)) in
  if stop_value r <? 0 then Some (r, [], [])
  else
    let? (c, r) := text_core true (text_start s (Printf.ap c) (nl_arg c)) in
    Some (r, dst c, stores c).

Lemma format_total s ap l :
  cstr m s l -> (length l < fuel)%nat -> exists r d n, format s ap = Some (r, d, n).
Proof.
  intros Hc Hf. unfold format.
  destruct (text_core_total false (text_start s ap (repeat (AI 0) 10)) l Hc Hf) as [[c r] ->].
  cbn [bind]. destruct (stop_value r <? 0); [eauto|].
  destruct (text_core_total true (text_start s (Printf.ap c) (nl_arg c)) l Hc Hf) as [[c' r'] ->].
  cbn [bind]. eauto.
Qed.

(** No wide conversion in a format: neither C nor S, nor the modifier l with c or
    s. *)
Definition narrow (l : list Z) : Prop :=
  ~ In 67 l /\ ~ In 83 l /\
  forall i, nth i l 0 = 108 -> nth (S i) l 0 <> 99 /\ nth (S i) l 0 <> 115.

Lemma narrow_mem s l : cstr m s l -> narrow l -> narrow_at s (s + Z.of_nat (length l)).
Proof.
  intros Hc (H1 & H2 & H3) x Hx. set (i := Z.to_nat (x - s)).
  assert (Hi : (i < length l)%nat) by lia.
  pose proof (cstr_nth m s l i Hc ltac:(lia)) as HN.
  pose proof (cstr_nth m s l (S i) Hc ltac:(lia)) as HS.
  replace (s + Z.of_nat i) with x in HN by lia. replace (s + Z.of_nat (S i)) with (x + 1) in HS by lia.
  rewrite HN, HS. pose proof (nth_In l 0 Hi) as Hin.
  split; [intros E; rewrite E in Hin; auto|]. split; [intros E; rewrite E in Hin; auto|]. apply H3.
Qed.

Lemma format_count s ap l r d n :
  fp_counts -> wf_mem m -> cstr m s l -> (length l < fuel)%nat ->
  format s ap = Some (Ret r, d, n) ->
  0 <= r <= INT_MAX /\ Z.of_nat (length d) <= r /\ (narrow l -> Z.of_nat (length d) = r).
Proof.
  intros Hfp Hwf Hs Hfuel. unfold format.
  destruct (text_core false _) as [[c1 r1]|] eqn:E1; [|discriminate]. cbn [bind].
  destruct (Z.ltb_spec (stop_value r1) 0).
  { intros [= -> _ _]. apply types_ret in E1. cbn in *. lia. }
  destruct (text_core true _) as [[c2 r2]|] eqn:E2; [|discriminate]. cbn [bind]. intros [= -> <- _].
  set (e := s + Z.of_nat (length l)).
  assert (He : m e = 0).
  { pose proof (cstr_nth m s l (length l) Hs ltac:(lia)) as HN.
    unfold e. rewrite HN. apply nth_overflow. lia. }
  apply (run_count _ _ _ s e) in E2; try assumption; try lia.
  - destruct E2 as (H1 & H2 & H3). split; [assumption|]. split; [assumption|].
    intros HN. apply H3. now apply narrow_mem.
  - cbn. unfold pos, e. lia.
  - split; [cbn; lia|]. split; [cbn; lia|]. split; [|cbn; lia].
    apply types_args in E1; [exact E1|]. unfold args_ok. cbn [nl_arg text_start].
    apply Forall_forall. intros a Ha%repeat_spec. subst. cbn. lia.
Qed.
End Text.

(** Witnesses. *)
Lemma fmt_digits_witness :
  fmt_x 48879 32 = [98; 101; 101; 102] /\
  fmt_x 48879 (Z.land 120 32) = map (xdigit (Z.land 120 32)) (digits 16 BUF 48879).
Proof. split; [reflexivity|]. apply (fmt_digits 48879 120). split; [lia|reflexivity]. Defined.
