(* ===== verification/Directive.v ===== *)
(** * Directive: formats of plain directives

    A format that consists of text and of directives without flags, width or
    precision: its text is the text of its parts one after the other ([run],
    [run_format]), and what %d, %ld, %u and %x print is the number in decimal
    ([decimal]) or hexadecimal ([hexadecimal]). *)

From Stdlib Require Import ZArith Lia ZifyBool List Bool.
From S2P Require Import Prelude MemCopy Strings Ctype Utf8 IntScan Stdio Printf Format.
Import ListNotations.
Open Scope Z_scope.

Section Directive.
Context {F : Type}.
Variable fmt_fp : F -> Z -> Z -> Z -> Z -> Z -> Z * list (list Z).
Variables (strerror_msg : Z) (utf8 : bool) (m : mem) (fuel : nat).

Notation tcore := (core (F:=F) (O:=list Z)).
Notation tround live := (core_round text_err (@app Z) fmt_fp strerror_msg utf8 m fuel live).
Notation tact d := (act text_err (@app Z) fmt_fp strerror_msg utf8 m fuel true d).

(** [c] after [x] has been printed. *)
Definition printed (c : tcore) (x : list Z) : tcore :=
  with_len (with_dst c (dst c ++ x)) (Z.of_nat (length x)).

(** ** One directive *)

(** The directive between [s] and [s'] has no flags, width or precision and takes
    the argument [v]. *)
Record plain (s s' ps st : Z) (v : @vararg F) (a : arg (F:=F)) : Prop := {
  plain_percent : m s = 37;
  plain_body : is_flag (m (s + 1)) = false /\ isdigit (s8 (m (s + 1))) = false /\
               m (s + 1) <> 37 /\ m (s + 1) <> 42 /\ m (s + 1) <> 46;
  plain_type : parse_type m 8 0 (s + 1) = inl (ps, st, s');
  plain_arg : st <> NOARG;
  plain_value : pop_value st v = Some a
}.

Lemma plain_parse s s' ps st v a live (c : tcore) vs :
  plain s s' ps st v a -> (0 < fuel)%nat -> fmt c = s -> ap c = v :: vs ->
  parse m fuel live c =
  if live then inl (mkdir ps (m (s' - 1)) 0 0 false (-1) (Some a), with_ap (with_fmt c s') vs)
  else inr (Ret 0).
Proof.
  intros [H37 (Hf & Hd & _ & H42 & H46) Htype Hst Hpop] Hfuel Hc Hv.
  unfold parse, parse_argpos, positional. rewrite Hc, Hd. cbn [andb].
  destruct fuel as [|k] eqn:Ek; [lia|].
  cbn [fmt with_fmt flags_loop]. rewrite Hf. unfold parse_width. cbn [fmt with_fmt].
  replace (m (s + 1) =? 42) with false by lia. unfold getint. cbn [getint_loop]. rewrite Hd.
  change (0 <? 0) with false. cbn [step]. unfold parse_prec. cbn [fmt with_fmt].
  replace (m (s + 1) =? 46) with false by lia. cbn [andb step fmt with_fmt]. rewrite Htype.
  cbn [step]. unfold take_arg. replace (st =? NOARG) with false by lia.
  change (0 <=? -1) with false. cbn [ap with_fmt]. rewrite Hv. unfold pop_arg.
  destruct live; [now rewrite Hpop|reflexivity].
Qed.

(** It prints [x]. *)
Definition dir_prints (s s' : Z) (v : @vararg F) (x : list Z) : Prop :=
  exists ps st a, plain s s' ps st v a /\
    forall c : tcore, 0 <= cnt c -> Z.of_nat (length x) <= INT_MAX - cnt c ->
      tact (mkdir ps (m (s' - 1)) 0 0 false (-1) (Some a)) c = inl (printed c x).

(** ** Formats of several parts *)

(** The format at [s] has less than [n] parts; with the arguments [vs] they print
    [x]. *)
Inductive run : nat -> Z -> list (@vararg F) -> list Z -> Prop :=
| run_end s : m s = 0 -> run 1 s [] []
| run_text n s l vs x :
    l <> [] -> Forall (fun b => 0 < b < 256 /\ b <> 37) l -> bytes_at m s (length l) = l ->
    (length l < fuel)%nat -> m (s + Z.of_nat (length l)) <> 37 \/ m (s + Z.of_nat (length l) + 1) <> 37 ->
    (m (s + Z.of_nat (length l)) = 0 \/ m (s + Z.of_nat (length l)) = 37) ->
    run n (s + Z.of_nat (length l)) vs x -> run (S n) s vs (l ++ x)
| run_dir n s s' v vs x1 x :
    dir_prints s s' v x1 -> run n s' vs x -> run (S n) s (v :: vs) (x1 ++ x).

Lemma skip_text_run k s l :
  Forall (fun b => 0 < b < 256 /\ b <> 37) l -> bytes_at m s (length l) = l -> (length l < k)%nat ->
  (m (s + Z.of_nat (length l)) = 0 \/ m (s + Z.of_nat (length l)) = 37) ->
  skip_text m k s = s + Z.of_nat (length l).
Proof.
  revert k s; induction l as [|b l IH]; intros k s Hl Hb Hk He; destruct k as [|k]; cbn [length] in *; try lia.
  - rewrite Z.add_0_r in *. cbn [skip_text]. destruct He as [->| ->]; reflexivity.
  - inversion_clear Hl as [|? ? Hb1 Hl']. cbn [bytes_at] in Hb. injection Hb as Hb0 Hb.
    cbn [skip_text]. rewrite Hb0. replace (negb (b =? 0) && negb (b =? 37)) with true by lia.
    rewrite IH; [lia|assumption|assumption|lia|]. now replace (s + 1 + Z.of_nat (length l)) with (s + Z.of_nat (S (length l))) by lia.
Qed.

Lemma round_text live (c : tcore) l :
  let s := fmt c in let e := s + Z.of_nat (length l) in
  l <> [] -> Forall (fun b => 0 < b < 256 /\ b <> 37) l -> bytes_at m s (length l) = l ->
  (length l < fuel)%nat -> m e <> 37 \/ m (e + 1) <> 37 -> m e = 0 \/ m e = 37 ->
  cnt c + len c + Z.of_nat (length l) <= INT_MAX ->
  tround live c =
  inl (let c := with_fmt (with_len (with_cnt c (cnt c + len c)) (Z.of_nat (length l))) e in
       if live then with_dst c (dst c ++ l) else c).
Proof.
  intros s e Hne Hl Hb Hf H1 H2 Hmax. unfold core_round. fold s.
  replace (INT_MAX - cnt c <? len c) with false by lia. cbn [fmt with_cnt cnt]. fold s.
  assert (Hs : m s <> 0).
  { destruct l as [|b l]; [easy|]. cbn in Hb. injection Hb as -> _. apply Forall_inv in Hl. lia. }
  replace (m s =? 0) with false by lia.
  rewrite (skip_text_run fuel s l) by assumption. fold e.
  replace (skip_percents m fuel e e) with (e, e).
  2: { destruct fuel; [lia|]. cbn [skip_percents]. now replace ((m e =? 37) && (m (e + 1) =? 37)) with false by lia. }
  replace (e - s) with (Z.of_nat (length l)) by lia. rewrite Nat2Z.id, Hb.
  replace (_ <? Z.of_nat (length l)) with false by lia.
  destruct l as [|b l]; [easy|]. replace (Z.of_nat (length (b :: l)) =? 0) with false by (cbn [length]; lia).
  cbn [negb]. destruct live; [|reflexivity]. rewrite out_text; [reflexivity|].
  refine (Forall_impl _ _ Hl). cbn. lia.
Qed.

Lemma round_dir live (c : tcore) s' v vs x :
  dir_prints (fmt c) s' v x -> ap c = v :: vs -> (0 < fuel)%nat -> 0 <= cnt c + len c ->
  cnt c + len c + Z.of_nat (length x) <= INT_MAX ->
  let c1 := with_len (with_cnt c (cnt c + len c)) 0 in
  exists c2, fmt c2 = fmt c /\ ap c2 = ap c /\ nl_arg c2 = nl_arg c /\
  tround live c = if live then inl (printed (with_ap (with_fmt c1 s') vs) x) else inr (c2, Ret 0).
Proof.
  intros (ps & st & a & HP & HA) Hv Hf H0 Hmax c1.
  assert (HS : skip_text m fuel (fmt c) = fmt c /\ skip_percents m fuel (fmt c) (fmt c) = (fmt c, fmt c)).
  { destruct HP as [H37 (_ & _ & Hn & _) _ _ _]. destruct fuel as [|k]; [lia|]. cbn [skip_text skip_percents].
    rewrite H37. replace (m (fmt c + 1) =? 37) with false by lia. now split. }
  destruct HS as [HS1 HS2]. exists c1. do 3 (split; [reflexivity|]).
  unfold core_round. replace (INT_MAX - cnt c <? len c) with false by lia. cbn [fmt with_cnt cnt].
  rewrite (plain_percent _ _ _ _ _ _ HP). change (37 =? 0) with false. cbv iota.
  rewrite HS1, HS2, Z.sub_diag. replace (_ <? 0) with false by lia. change (negb (0 =? 0)) with false. cbv iota.
  set (c3 := if live then _ else _).
  assert (E3 : c3 = c1).
  { unfold c3, c1. destruct live; [|now destruct c]. unfold out. cbn [text_err Z.to_nat bytes_at map].
    rewrite app_nil_r. now destruct c. }
  rewrite E3. unfold directive. rewrite (plain_parse _ _ _ _ _ _ live c1 vs HP Hf eq_refl Hv).
  destruct live; [|reflexivity]. cbn [step]. rewrite HA; [reflexivity|exact H0|]. cbn. lia.
Qed.

(** The text of the whole. *)
Lemma run_core n s vs x : run n s vs x -> forall k (c : tcore),
  (n <= k)%nat -> (0 < fuel)%nat -> fmt c = s -> ap c = vs -> l10n c = false ->
  0 <= cnt c + len c -> 0 <= len c -> cnt c + len c + Z.of_nat (length x) <= INT_MAX ->
  exists c', loop (tround true) k c = Some (c', Ret (cnt c + len c + Z.of_nat (length x))) /\
             dst c' = dst c ++ x /\ stores c' = stores c.
Proof.
  induction 1 as [s H0|n s l vs x Hne Hl Hb Hlf H1 H2 HR IH|n s s' v vs x1 x HD HR IH];
    intros k c Hk Hf Hs Hv Hl10 Hc Hlen Hmax; (destruct k as [|k]; [lia|]).
  - exists (with_cnt c (cnt c + len c)). cbn [length] in *. rewrite Z.add_0_r in *.
    rewrite (loop_inr (tround true) k c (with_cnt c (cnt c + len c), Ret (cnt c + len c))).
    + split; [reflexivity|]. rewrite app_nil_r. split; reflexivity.
    + unfold core_round. replace (INT_MAX - cnt c <? len c) with false by lia.
      cbn [fmt with_cnt]. rewrite Hs, H0. reflexivity.
  - rewrite length_app in Hmax.
    erewrite loop_inl by (apply (round_text true c l); rewrite ?Hs; try assumption; lia). cbv zeta.
    rewrite Hs. set (c1 := with_dst _ _).
    destruct (IH k c1) as (c' & HL & HD & HS); try assumption; try reflexivity; try lia; cbn [cnt len c1 with_dst with_fmt with_len with_cnt]; try lia.
    exists c'. split; [|split; [rewrite HD; cbn; now rewrite <- app_assoc|exact HS]].
    rewrite HL. do 3 f_equal. cbn. rewrite length_app. lia.
  - rewrite length_app in Hmax.
    destruct (round_dir true c s' v vs x1) as (c2 & _ & _ & _ & HE); rewrite ?Hs; try assumption; try lia.
    erewrite loop_inl by exact HE. set (c1 := printed _ _).
    destruct (IH k c1) as (c' & HL & HDD & HS); try assumption; try reflexivity; try lia; cbn [cnt len c1 printed with_ap with_dst with_fmt with_len with_cnt]; try lia.
    exists c'. split; [|split; [rewrite HDD; cbn; now rewrite <- app_assoc|exact HS]].
    rewrite HL. do 3 f_equal. cbn. rewrite length_app. lia.
Qed.

Lemma run_types n s vs x : run n s vs x -> forall k (c : tcore),
  (n <= k)%nat -> (0 < fuel)%nat -> fmt c = s -> ap c = vs -> l10n c = false ->
  0 <= cnt c + len c -> 0 <= len c -> cnt c + len c + Z.of_nat (length x) <= INT_MAX ->
  exists c', loop (tround false) k c = Some (c', Ret 0) /\ Printf.ap c' = vs /\ nl_arg c' = nl_arg c.
Proof.
  induction 1 as [s H0|n s l vs x Hne Hl Hb Hlf H1 H2 HR IH|n s s' v vs x1 x HD HR IH];
    intros k c Hk Hf Hs Hv Hl10 Hc Hlen Hmax; (destruct k as [|k]; [lia|]).
  - exists (with_cnt c (cnt c + len c)).
    rewrite (loop_inr (tround false) k c (with_cnt c (cnt c + len c), Ret 0)).
    + split; [reflexivity|]. split; [exact Hv|reflexivity].
    + unfold core_round. cbn [length] in Hmax. replace (INT_MAX - cnt c <? len c) with false by lia.
      cbn [fmt with_cnt]. rewrite Hs, H0. unfold finish. cbn [l10n with_cnt]. now rewrite Hl10.
  - rewrite length_app in Hmax.
    erewrite loop_inl by (apply (round_text false c l); rewrite ?Hs; try assumption; lia). cbv zeta.
    rewrite Hs. set (c1 := with_fmt _ _).
    destruct (IH k c1) as (c' & HL & HA & HN); try assumption; try reflexivity; try lia; cbn [cnt len c1 with_fmt with_len with_cnt]; try lia.
    exists c'. auto.
  - rewrite length_app in Hmax.
    destruct (round_dir false c s' v vs x1) as (c2 & _ & HA & HN & HE); rewrite ?Hs; try assumption; try lia.
    exists c2. rewrite (loop_inr (tround false) k c _ HE). rewrite HA. auto.
Qed.

Theorem run_format n s vs x :
  run n s vs x -> (n <= fuel)%nat -> (0 < fuel)%nat -> Z.of_nat (length x) <= INT_MAX ->
  format fmt_fp strerror_msg utf8 m fuel s vs = Some (Ret (Z.of_nat (length x)), x, []).
Proof.
  intros HR Hn Hf Hmax. unfold format, text_core, printf_core.
  destruct (run_types n s vs x HR fuel (text_start s vs (repeat (AI 0) 10))) as (c1 & -> & HA & HN);
    try assumption; try reflexivity; cbn; try lia.
  cbn [bind stop_value]. change (0 <? 0) with false. cbv iota. rewrite HA.
  destruct (run_core n s vs x HR fuel (text_start s vs (nl_arg c1))) as (c2 & -> & HD & HS);
    try assumption; try reflexivity; cbn; try lia.
  cbn [bind]. rewrite HD, HS. reflexivity.
Qed.

(** ** What the integer conversions print *)

Lemma layout_plain a q i :
  (i = 0 -> a = []) ->
  layout a q 0 (Z.max (-1) (Z.of_nat (length a) + b2z (i =? 0))) 0 = q ++ (if i =? 0 then [48] else a).
Proof.
  intros Hi. unfold layout. rewrite !padding_bits, !Z.lxor_spec.
  change (Z.testbit 0 13) with false. change (Z.testbit 0 16) with false.
  change (Z.testbit ZERO_PAD 13) with false. change (Z.testbit ZERO_PAD 16) with true.
  change (Z.testbit LEFT_ADJ 13) with true. cbn [xorb orb repeat app].
  replace (Z.to_nat _) with 0%nat by lia. rewrite app_nil_r. cbn [repeat app]. f_equal.
  destruct (Z.eqb_spec i 0) as [E|E].
  - now rewrite (Hi E).
  - replace (Z.to_nat _) with 0%nat by (cbn [b2z]; lia). reflexivity.
Qed.

Lemma emit_plain (c : tcore) a q i :
  Forall (fun b => 0 <= b < 256) a -> Forall (fun b => 0 <= b < 256) q -> (i = 0 -> a = []) ->
  let x := q ++ (if i =? 0 then [48] else a) in
  0 <= cnt c -> Z.of_nat (length x) <= INT_MAX - cnt c ->
  emit text_err (@app Z) c a q 0 (Z.max (-1) (Z.of_nat (length a) + b2z (i =? 0))) 0 = inl (printed c x).
Proof.
  intros Ha Hq Hi x Hc Hx. rewrite emit_text by assumption. cbv zeta.
  set (p := Z.max (-1) _). pose proof (layout_length a q 0 p 0 eq_refl) as HL.
  unfold p in HL at 1. rewrite layout_plain in HL by assumption. fold x in HL. fold p in HL.
  replace (INT_MAX - Z.of_nat (length q) <? _) with false by lia.
  rewrite <- HL. replace (_ <? Z.of_nat (length x)) with false by lia.
  unfold p. now rewrite layout_plain.
Qed.

Lemma ifmt_plain i a q :
  ifmt_tail (F:=F) (O:=list Z) i a q false (-1) 0
  = inl (Tail a q (Z.max (-1) (Z.of_nat (length a) + b2z (i =? 0))) 0).
Proof. unfold ifmt_tail. cbn [andb]. now rewrite andb_false_r. Qed.

Lemma dir_prints_int s s' ps st v a i ds q :
  plain s s' ps st v a -> (ps = 0 \/ Z.land (m (s' - 1)) 15 <> 3) ->
  (forall c, convert text_err (@app Z) fmt_fp strerror_msg utf8 m fuel c a ps (m (s' - 1)) 0 false (-1) 0
             = ifmt_tail i ds q false (-1) 0) ->
  Forall (fun b => 0 <= b < 256) ds -> Forall (fun b => 0 <= b < 256) q -> (i = 0 -> ds = []) ->
  dir_prints s s' v (q ++ (if i =? 0 then [48] else ds)).
Proof.
  intros HP Hps HC Hds Hq Hi. exists ps, st, a. split; [exact HP|]. intros c Hc0 Hc.
  unfold act. cbn [negb text_err d_arg d_ps d_t d_fl d_w d_xp d_p].
  replace (negb (ps =? 0) && (Z.land (m (s' - 1)) 15 =? 3)) with false by lia.
  change (bit 0 LEFT_ADJ) with false. cbv iota zeta. rewrite HC, ifmt_plain. cbn [step].
  now apply emit_plain.
Qed.

(** The decimal and the hexadecimal form of an integer. *)
Definition decimal (z : Z) : list Z :=
  (if z <? 0 then [45] else []) ++
  (if z =? 0 then [48] else map (Z.add 48) (digits 10 BUF (Z.abs z))).
Definition hexadecimal (z : Z) : list Z :=
  if z =? 0 then [48] else map (xdigit 32) (digits 16 BUF z).

Lemma digit_bytes b x : 2 <= b <= 10 -> Forall (fun b => 0 <= b < 256) (map (Z.add 48) (digits b BUF x)).
Proof.
  intros Hb. apply Forall_map. refine (Forall_impl _ _ (digits_range b ltac:(lia) BUF x)). cbn. lia.
Qed.

Lemma minus_bytes z : Forall (fun b => 0 <= b < 256) (if z <? 0 then [45] else []).
Proof. destruct (z <? 0); repeat constructor; lia. Qed.

Lemma conv_d_plain z :
  - 2 ^ 63 <= z < 2 ^ 63 ->
  conv_d (F:=F) (O:=list Z) (u64 z) false (-1) 0
  = ifmt_tail (Z.abs z) (map (Z.add 48) (digits 10 BUF (Z.abs z))) (if z <? 0 then [45] else [])
              false (-1) 0.
Proof.
  intros Hz. unfold conv_d.
  assert (Hu : u64 z = if z <? 0 then z + 2 ^ 64 else z).
  { unfold u64. destruct (Z.ltb_spec z 0); [|apply Z.mod_small; lia].
    rewrite <- (Z_mod_plus_full z 1). apply Z.mod_small. lia. }
  assert (Hl : (INTMAX_MAX <? u64 z) = (z <? 0)).
  { rewrite Hu. unfold INTMAX_MAX. destruct (Z.ltb_spec z 0); lia. }
  assert (Ha : (if z <? 0 then u64 (- u64 z) else u64 z) = Z.abs z).
  { rewrite Hu. destruct (Z.ltb_spec z 0); [|lia]. unfold u64.
    rewrite <- (Z_mod_plus_full (- (z + 2 ^ 64)) 1). rewrite Z.mod_small by lia. lia. }
  change (bit 0 MARK_POS) with false. change (bit 0 PAD_POS) with false. cbv iota.
  rewrite Hl. set (i := u64 z) in *.
  assert (Hp : (if z <? 0 then (u64 (- i), prefix_at 0 1) else (i, []))
               = (Z.abs z, if z <? 0 then [45] else []))
    by (rewrite <- Ha; now destruct (z <? 0)).
  rewrite Hp. unfold fmt_u. now rewrite fmt_u_digits, app_nil_r by lia.
Qed.

Lemma abs_digits z : Z.abs z = 0 -> map (Z.add 48) (digits 10 BUF (Z.abs z)) = [].
Proof. now intros ->. Qed.

(** %d, %ld and %x at [s]. *)
Lemma dir_d s z :
  m s = 37 -> m (s + 1) = 100 -> - 2 ^ 31 <= z < 2 ^ 31 -> dir_prints s (s + 2) (VI z) (decimal z).
Proof.
  intros H0 H1 Hz. unfold decimal. replace (z =? 0) with (Z.abs z =? 0) by lia.
  apply (dir_prints_int s (s + 2) BARE INT (VI z) (AI (u64 z))).
  - split; [assumption| | |discriminate|].
    + rewrite H1. repeat (split; [reflexivity|]). lia.
    + cbn [parse_type]. rewrite H1. now replace (s + 1 + 1) with (s + 2) by lia.
    + unfold pop_value. change (INT =? INT) with true. cbv iota. do 3 f_equal. unfold s32. rewrite Z.mod_small; lia.
  - now left.
  - intros c. replace (s + 2 - 1) with (s + 1) by lia. rewrite H1, <- conv_d_plain by lia. reflexivity.
  - apply digit_bytes. lia.
  - apply minus_bytes.
  - apply abs_digits.
Qed.

Lemma dir_ld s z :
  m s = 37 -> m (s + 1) = 108 -> m (s + 2) = 100 -> - 2 ^ 63 <= z < 2 ^ 63 ->
  dir_prints s (s + 3) (VI z) (decimal z).
Proof.
  intros H0 H1 H2 Hz. unfold decimal. replace (z =? 0) with (Z.abs z =? 0) by lia.
  apply (dir_prints_int s (s + 3) LPRE LONG (VI z) (AI (u64 z))).
  - split; [assumption| | |discriminate|reflexivity].
    + rewrite H1. repeat (split; [reflexivity|]). lia.
    + cbn [parse_type]. rewrite H1. change (OOB 108) with false. change (next_state 0 108) with 1.
      change ((1 <=? 1) && (1 <=? STOP)) with true. cbv iota.
      replace (s + 1 + 1) with (s + 2) by lia. rewrite H2. now replace (s + 2 + 1) with (s + 3) by lia.
  - right. replace (s + 3 - 1) with (s + 2) by lia. now rewrite H2.
  - intros c. replace (s + 3 - 1) with (s + 2) by lia. rewrite H2, <- conv_d_plain by lia. reflexivity.
  - apply digit_bytes. lia.
  - apply minus_bytes.
  - apply abs_digits.
Qed.

Lemma dir_x s z :
  m s = 37 -> m (s + 1) = 120 -> 0 <= z < 2 ^ 32 -> dir_prints s (s + 2) (VI z) (hexadecimal z).
Proof.
  intros H0 H1 Hz. unfold hexadecimal.
  apply (dir_prints_int s (s + 2) BARE UINT (VI z) (AI z) z _ []).
  - split; [assumption| | |discriminate|].
    + rewrite H1. repeat (split; [reflexivity|]). lia.
    + cbn [parse_type]. rewrite H1. now replace (s + 1 + 1) with (s + 2) by lia.
    + unfold pop_value. change (UINT =? INT) with false. change (UINT =? UINT) with true. cbv iota.
      do 2 f_equal. unfold u32. apply Z.mod_small. lia.
  - now left.
  - intros c. replace (s + 2 - 1) with (s + 1) by lia. rewrite H1.
    change (convert text_err (@app Z) fmt_fp strerror_msg utf8 m fuel c (AI z) BARE 120 0 false (-1) 0)
      with (conv_x (F:=F) (O:=list Z) z 120 false (-1) 0).
    unfold conv_x, fmt_x. change (Z.land 120 32) with 32. rewrite fmt_x_digits, app_nil_r by lia.
    change (bit 0 ALT_FORM) with false. now rewrite andb_false_r.
  - apply Forall_map, Forall_forall. intros d _. exact (xdigit_byte (Z.to_nat d) 32).
  - constructor.
  - now intros ->.
Qed.

Lemma decimal_chars z :
  - 2 ^ 63 <= z < 2 ^ 63 -> Forall (fun b => 0 < b < 256) (decimal z) /\ (1 <= length (decimal z) <= 20)%nat.
Proof.
  intros Hz. unfold decimal. rewrite Forall_app, length_app.
  pose proof (digits_length 10 ltac:(lia) BUF 19 (Z.abs z) ltac:(lia)) as HL.
  assert (Hk : (length (if (z <? 0)%Z then [45%Z] else []) <= 1)%nat) by (destruct (z <? 0); cbn; lia).
  set (k := length _) in Hk |- *. split; [split|].
  - destruct (z <? 0); repeat constructor; lia.
  - destruct (z =? 0); [repeat constructor; lia|]. apply Forall_map.
    refine (Forall_impl _ _ (digits_range 10 ltac:(lia) BUF (Z.abs z))). cbn. lia.
  - destruct (Z.eqb_spec z 0); [cbn [length]; lia|]. rewrite length_map.
    pose proof (digits_nonempty 10 23 (Z.abs z) ltac:(lia)) as HN. change (S 23) with BUF in HN.
    destruct (digits 10 BUF (Z.abs z)); [easy|]. cbn [length] in *. lia.
Qed.

(** The format "%ld". *)
Lemma print_long s z :
  cstr m s [37; 108; 100] -> (1 < fuel)%nat -> - 2 ^ 63 <= z < 2 ^ 63 ->
  format fmt_fp strerror_msg utf8 m fuel s [VI z]
  = Some (Ret (Z.of_nat (length (decimal z))), decimal z, []).
Proof.
  intros (H0 & _ & H1 & _ & H2 & _ & H3) Hfuel Hz. replace (s + 1 + 1) with (s + 2) in * by lia.
  replace (s + 2 + 1) with (s + 3) in H3 by lia. destruct (decimal_chars z Hz) as [_ HL].
  apply (run_format 2); try lia.
  - rewrite <- (app_nil_r (decimal z)).
    apply (run_dir 1 s (s + 3) (VI z) [] (decimal z) []); [now apply dir_ld|now constructor].
  - unfold INT_MAX. lia.
Qed.
End Directive.
