(* ===== verification/Groups.v ===== *)
(** * Groups: IPv6 addresses as groups

    What inet_pton (Inet) reads from the texts that inet_ntop (Ntop) prints: groups
    in hexadecimal with colons between them ([joined]), one run of zero groups
    possibly shortened to two colons, and possibly the last two groups in dotted
    decimal.  [zero_run] and [colon_at] find the groups behind the runs of the
    characters colon and zero. *)

From Stdlib Require Import ZArith Lia ZifyBool List Bool.
From S2P Require Import Prelude Strings Ctype IntScan Inet Printf Format Directive.
Import ListNotations.
Open Scope Z_scope.

Definition group (v : Z) : Prop := 0 <= v < 2 ^ 16.

(** The groups with a colon after each, and with a colon between them. *)
Definition colons (gs : list Z) : list Z := flat_map (fun g => hexadecimal g ++ [58]) gs.
Fixpoint joined (gs : list Z) : list Z :=
  match gs with
  | [] => []
  | g :: gs' => match gs' with [] => hexadecimal g | _ => hexadecimal g ++ 58 :: joined gs' end
  end.

(** What follows the groups: nothing or, after the first number of a dotted
    decimal, its rest. *)
Definition tail_ok (t : list Z) : Prop := (t = [] \/ hd 0 t = 46) /\ ~ In 58 t.

Lemma cstr_app_r m s l l' : cstr m s (l ++ l') -> cstr m (s + Z.of_nat (length l)) l'.
Proof.
  intros Hs. replace l' with (skipn (length l) (l ++ l')).
  - apply cstr_skip; [assumption|]. rewrite length_app. lia.
  - now rewrite skipn_app, skipn_all, Nat.sub_diag.
Qed.

(** ** One group *)

(** The digits of a number, most significant first. *)
Definition hexdigits (g : Z) : list Z := if g =? 0 then [0] else digits 16 BUF g.

Lemma hexadecimal_digits g : hexadecimal g = map (xdigit 32) (hexdigits g).
Proof. unfold hexadecimal, hexdigits. now destruct (g =? 0). Qed.

Lemma hexdigits_ok g :
  group g -> Forall (fun d => 0 <= d < 16) (hexdigits g) /\ (1 <= length (hexdigits g) <= 4)%nat /\
             horner 16 (hexdigits g) 0 = g /\ (g <> 0 -> 0 < hd 0 (hexdigits g)).
Proof.
  unfold group, hexdigits. intros Hg. destruct (Z.eqb_spec g 0) as [->|Hn].
  - split; [repeat constructor; lia|]. split; [cbn; lia|]. split; [reflexivity|now intros []].
  - assert (HB : g < 16 ^ Z.of_nat BUF) by (change (16 ^ Z.of_nat BUF) with (2 ^ 96); lia).
    split; [apply digits_range; lia|]. split; [|split; [apply digits_value; lia|intros _; apply digits_head; lia]].
    pose proof (digits_length 16 ltac:(lia) BUF 4 g ltac:(lia)).
    pose proof (digits_nonempty 16 23 g ltac:(lia)) as H1. change (S 23) with BUF in H1.
    destruct (digits 16 BUF g); [easy|]. cbn [length] in *. lia.
Qed.

(** A fact of each digit. *)
Lemma sixteen (P : Z -> Prop) :
  P 0 -> P 1 -> P 2 -> P 3 -> P 4 -> P 5 -> P 6 -> P 7 -> P 8 -> P 9 -> P 10 -> P 11 -> P 12 ->
  P 13 -> P 14 -> P 15 -> forall d, 0 <= d < 16 -> P d.
Proof.
  intros. assert (Hd : In d [0; 1; 2; 3; 4; 5; 6; 7; 8; 9; 10; 11; 12; 13; 14; 15]) by (cbn; lia).
  cbn in Hd. repeat (destruct Hd as [<-|Hd]; [assumption|]). contradiction.
Qed.

Lemma xdigit_char d :
  0 <= d < 16 -> hexval (u32 (s8 (xdigit 32 d))) = d /\ 48 <= xdigit 32 d < 256 /\ xdigit 32 d <> 58.
Proof.
  revert d. apply (sixteen (fun d => hexval (u32 (s8 (xdigit 32 d))) = d /\ 48 <= xdigit 32 d < 256 /\ xdigit 32 d <> 58));
    vm_compute; repeat split; discriminate.
Qed.

Lemma xdigit_head d : 0 < d < 16 -> xdigit 32 d <> 48.
Proof.
  intros Hd. refine (sixteen (fun d => 0 < d < 16 -> xdigit 32 d <> 48) _ _ _ _ _ _ _ _ _ _ _ _ _ _ _ _ d _ Hd);
    [lia|intros _; vm_compute; discriminate..|lia].
Qed.

Lemma hexadecimal_chars g :
  group g -> Forall (fun b => 48 <= b < 256 /\ b <> 58) (hexadecimal g) /\ (1 <= length (hexadecimal g) <= 4)%nat.
Proof.
  intros Hg. destruct (hexdigits_ok g Hg) as (Hr & Hlen & _). rewrite hexadecimal_digits, length_map.
  split; [|exact Hlen]. apply Forall_map. refine (Forall_impl _ _ Hr). intros d Hd. now apply xdigit_char.
Qed.

Lemma hexadecimal_head g : group g -> g <> 0 -> hd 0 (hexadecimal g) <> 48.
Proof.
  intros Hg Hn. destruct (hexdigits_ok g Hg) as (Hr & Hlen & _ & Hh). specialize (Hh Hn).
  rewrite hexadecimal_digits. destruct (hexdigits g) as [|d ds]; [cbn in Hlen; lia|].
  apply Forall_inv in Hr. cbn in *. apply xdigit_head. lia.
Qed.

Lemma hex_loop_digits ds n m s j v rest :
  Forall (fun d => 0 <= d < 16) ds -> cstr m (s + j) (map (xdigit 32) ds ++ rest) -> (length ds <= n)%nat ->
  In (hd 0 rest) [0; 58; 46] ->
  hex_loop n m s j v = (horner 16 ds v, j + Z.of_nat (length ds)).
Proof.
  revert n j v; induction ds as [|d ds IH]; intros n j v Hds Hs Hn Hr; cbn [map app length] in *.
  - rewrite Z.add_0_r. destruct n as [|n]; [reflexivity|]. cbn [hex_loop].
    assert (Hm : m (s + j) = hd 0 rest) by (destruct rest; cbn in Hs; tauto). rewrite Hm.
    destruct Hr as [<-|[<-|[<-|[]]]]; reflexivity.
  - inversion_clear Hds as [|? ? Hd Hds']. destruct Hs as (Hm & _ & Hs). destruct n as [|n]; [lia|]. cbn [hex_loop].
    destruct (xdigit_char d Hd) as (E & _). rewrite Hm, E. replace (0 <=? d) with true by lia.
    rewrite IH; [|assumption|now replace (s + (j + 1)) with (s + j + 1) by lia|lia|assumption].
    change (horner 16 (d :: ds) v) with (horner 16 ds (v * 16 + d)). f_equal; [f_equal|]; lia.
Qed.

Lemma hex_loop_group g m s rest :
  group g -> cstr m s (hexadecimal g ++ rest) -> In (hd 0 rest) [0; 58; 46] ->
  hex_loop 4 m s 0 0 = (g, Z.of_nat (length (hexadecimal g))).
Proof.
  intros Hg Hs Hr. destruct (hexdigits_ok g Hg) as (Hd & Hlen & Hv & _). rewrite hexadecimal_digits in *.
  rewrite (hex_loop_digits (hexdigits g) 4 m s 0 0 rest); try assumption; [|now rewrite Z.add_0_r|lia].
  rewrite Hv, length_map. f_equal.
Qed.

(** ** The loop over the groups *)

Lemma set_ip_ok ip k v :
  length ip = 8%nat -> (k < 8)%nat ->
  length (set_ip ip (Z.of_nat k) v) = 8%nat /\ firstn (S k) (set_ip ip (Z.of_nat k) v) = firstn k ip ++ [v].
Proof.
  intros Hip Hk. unfold set_ip. change 7 with (Z.ones 3). rewrite Z.land_ones by lia.
  rewrite Z.mod_small by lia. rewrite Nat2Z.id. split.
  - rewrite length_app, length_firstn. cbn [length]. rewrite length_skipn. lia.
  - rewrite firstn_app, length_firstn, Hip. replace (Nat.min k 8) with k by lia.
    replace (S k - k)%nat with 1%nat by lia. rewrite firstn_all2 by (rewrite length_firstn; lia). reflexivity.
Qed.

Lemma round_group n m s k brk ip g rest :
  group g -> cstr m s (hexadecimal g ++ rest) -> In (hd 0 rest) [0; 58; 46] ->
  let i := Z.of_nat k in let ip1 := set_ip ip i g in let e := s + Z.of_nat (length (hexadecimal g)) in
  m e = hd 0 rest /\
  pton6_loop (S n) m s i brk ip =
  if (hd 0 rest =? 0) && ((0 <=? brk) || (i =? 7)) then Some (ip1, brk, i, false, s)
  else if i =? 7 then None
  else if negb (hd 0 rest =? 58) then
    if negb (hd 0 rest =? 46) || ((i <? 6) && (brk <? 0)) then None
    else Some (set_ip ip1 (i + 1) 0, brk, i + 1, true, s)
  else pton6_loop n m (s + Z.of_nat (length (hexadecimal g ++ [58]))) (i + 1) brk ip1.
Proof.
  intros Hg Hs Hr i ip1 e. destruct (hexadecimal_chars g Hg) as [Hc Hlen].
  assert (He : m e = hd 0 rest).
  { unfold e. rewrite (cstr_nth m s _ _ Hs), app_nth2, Nat.sub_diag by (rewrite ?length_app; lia). now destruct rest. }
  split; [exact He|]. cbn [pton6_loop]. rewrite (hex_loop_group g m s rest Hg Hs Hr).
  assert (H58 : (m s =? 58) = false).
  { destruct (hexadecimal g) as [|b l]; [cbn in Hlen; lia|]. cbn in Hs. apply Forall_inv in Hc.
    destruct Hs as (-> & _). lia. }
  rewrite H58. cbn [andb]. replace (Z.of_nat (length (hexadecimal g)) =? 0) with false by lia.
  fold ip1 e. rewrite He. rewrite length_app. cbn [length]. rewrite Nat2Z.inj_add.
  change (Z.of_nat 1) with 1. reflexivity.
Qed.

(** Groups with a colon after each. *)
Lemma loop_colons gs : forall n m s k brk ip R,
  Forall group gs -> cstr m s (colons gs ++ R) -> length ip = 8%nat -> (k + length gs <= 7)%nat ->
  exists ip', length ip' = 8%nat /\ firstn (k + length gs) ip' = firstn k ip ++ gs /\
    pton6_loop (length gs + n) m s (Z.of_nat k) brk ip
    = pton6_loop n m (s + Z.of_nat (length (colons gs))) (Z.of_nat (k + length gs)) brk ip'.
Proof.
  induction gs as [|g gs IH]; intros n m s k brk ip R Hgs Hs Hip Hk; cbn [length colons flat_map] in *.
  - exists ip. rewrite Nat.add_0_r, app_nil_r, Z.add_0_r. auto.
  - inversion_clear Hgs as [|? ? Hg Hgs']. fold (colons gs) in *. rewrite <- !app_assoc in Hs. cbn [app] in Hs.
    destruct (round_group (length gs + n) m s k brk ip g (58 :: colons gs ++ R) Hg Hs) as [_ E]; [cbn; tauto|].
    cbn [hd] in E. change (58 =? 0) with false in E. change (58 =? 58) with true in E. cbn [andb negb] in E.
    replace (Z.of_nat k =? 7) with false in E by lia.
    destruct (set_ip_ok ip k g Hip ltac:(lia)) as [Hlen Hfirst].
    set (e := s + Z.of_nat (length (hexadecimal g ++ [58]))) in *.
    assert (Hs' : cstr m e (colons gs ++ R)).
    { apply cstr_app_r. now rewrite <- app_assoc. }
    destruct (IH n m e (S k) brk (set_ip ip (Z.of_nat k) g) R Hgs' Hs' Hlen ltac:(lia)) as (ip' & Hl & Hf & E').
    exists ip'. split; [exact Hl|]. replace (k + S (length gs))%nat with (S k + length gs)%nat by lia.
    split; [rewrite Hf, Hfirst, <- app_assoc; reflexivity|].
    cbn [Nat.add]. rewrite E. replace (Z.of_nat k + 1) with (Z.of_nat (S k)) by lia.
    etransitivity; [exact E'|]. f_equal. rewrite !length_app. unfold e. rewrite length_app. lia.
Qed.

Lemma joined_last gs g : joined (gs ++ [g]) = colons gs ++ hexadecimal g.
Proof.
  induction gs as [|x gs IH]; [reflexivity|]. cbn [app joined colons flat_map]. fold (colons gs).
  rewrite IH, <- !app_assoc. now destruct gs.
Qed.

Lemma joined_app A B : B <> [] -> joined (A ++ B) = colons A ++ joined B.
Proof.
  intros HB. destruct (exists_last HB) as (B' & g & ->). rewrite app_assoc, !joined_last.
  unfold colons. now rewrite flat_map_app, <- app_assoc.
Qed.

(** What the groups and the tail leave in ip: a zero for the dotted decimal. *)
Definition with_tail (C t : list Z) : list Z := C ++ match t with [] => [] | _ => [0] end.

Lemma tail_head t : tail_ok t -> In (hd 0 t) [0; 58; 46].
Proof. intros [[->|H] _]; [cbn; tauto|rewrite H; cbn; tauto]. Qed.

(** The groups to the end of the text, or to the dotted decimal. *)
Lemma loop_joined C n m s k brk ip t :
  C <> [] -> Forall group C -> tail_ok t -> cstr m s (joined C ++ t) -> length ip = 8%nat ->
  (k + length (with_tail C t) <= 8)%nat -> 0 <= brk \/ (k + length (with_tail C t) = 8)%nat ->
  exists ip' e, length ip' = 8%nat /\
    firstn (k + length (with_tail C t)) ip' = firstn k ip ++ with_tail C t /\
    pton6_loop (length C + n) m s (Z.of_nat k) brk ip
    = Some (ip', brk, Z.of_nat (k + length (with_tail C t)) - 1, negb (hd 0 t =? 0), e) /\
    (t <> [] -> exists C' g, C = C' ++ [g] /\ cstr m e (hexadecimal g ++ t)).
Proof.
  intros HC HCg Ht Hs Hip Hk Hbrk. destruct (exists_last HC) as (C' & g & ->).
  apply Forall_app in HCg as [HC' Hg]. apply Forall_inv in Hg. rewrite joined_last, <- app_assoc in Hs.
  unfold with_tail in *. rewrite !length_app in *. cbn [length] in *.
  assert (Hk' : (k + length C' <= 7)%nat) by lia.
  destruct (loop_colons C' (S n) m s k brk ip _ HC' Hs Hip Hk') as (ip1 & Hl1 & Hf1 & E1).
  replace (length C' + 1 + n)%nat with (length C' + S n)%nat by lia. rewrite E1. clear E1.
  set (s1 := s + Z.of_nat (length (colons C'))).
  assert (Hs1 : cstr m s1 (hexadecimal g ++ t)) by now apply cstr_app_r.
  destruct (round_group n m s1 (k + length C') brk ip1 g t Hg Hs1 (tail_head t Ht)) as [He ->].
  destruct (set_ip_ok ip1 (k + length C') g Hl1 ltac:(lia)) as [Hl2 Hf2]. rewrite Hf1 in Hf2.
  destruct Ht as [[->|H46] _].
  - cbn [hd length] in *. change (0 =? 0) with true. cbn [andb negb].
    replace ((0 <=? brk) || (Z.of_nat (k + length C') =? 7)) with true by lia.
    do 2 eexists. split; [exact Hl2|]. rewrite app_nil_r. replace (k + (length C' + 1 + 0))%nat with (S (k + length C')) by lia.
    split; [now rewrite Hf2, <- app_assoc|]. split; [|now intros []]. do 3 f_equal. f_equal. lia.
  - destruct t as [|c t]; [discriminate|]. cbn [hd length] in *. subst c.
    change (46 =? 0) with false. change (46 =? 58) with false. change (46 =? 46) with true. cbn [andb negb orb].
    replace (Z.of_nat (k + length C') =? 7) with false by lia.
    replace ((Z.of_nat (k + length C') <? 6) && (brk <? 0)) with false by lia.
    destruct (set_ip_ok _ (S (k + length C')) 0 Hl2 ltac:(lia)) as [Hl3 Hf3]. rewrite Hf2 in Hf3.
    replace (Z.of_nat (S (k + length C'))) with (Z.of_nat (k + length C') + 1) in * by lia.
    do 2 eexists. split; [exact Hl3|]. replace (k + (length C' + 1 + 1))%nat with (S (S (k + length C'))) by lia.
    split; [now rewrite Hf3, <- !app_assoc|]. split; [do 3 f_equal; f_equal; lia|].
    intros _. exists C', g. auto.
Qed.

(** ** The whole address *)

(** pton6 after its loop. *)
Definition pton6_end (m : mem) (r : option (list Z * Z * Z * bool * Z)) : Z * list Z :=
  match r with
  | None => (0, [])
  | Some (ip, brk, i, need_v4, s) =>
      let ip := if 0 <=? brk then fill_gap ip brk i else ip in
      let a := group_bytes ip in
      if need_v4 then
        let '(r, b) := pton4 m s in
        let a := firstn 12 a ++ b ++ skipn (12 + length b) a in
        if r <=? 0 then (0, a) else (1, a)
      else (1, a)
  end.

(** The bytes of eight groups, the last four from the dotted decimal [b] if there
    is one. *)
Definition address (gs t b : list Z) : list Z :=
  match t with [] => group_bytes gs | _ => firstn 12 (group_bytes gs) ++ b end.

Lemma dots_inj vs vs' : Forall byte vs -> Forall byte vs' -> vs <> [] -> vs' <> [] -> dots vs = dots vs' -> vs = vs'.
Proof.
  revert vs'; induction vs as [|v vs IH]; intros [|v' vs'] H1 H2 N1 N2 E; try easy.
  inversion_clear H1 as [|? ? Hv Hvs]. inversion_clear H2 as [|? ? Hv' Hvs'].
  destruct (ldec 3 (dots (v :: vs)) 0 0) as [x j] eqn:Ex.
  destruct (num_dots v vs _ x j Hv eq_refl Ex) as (_ & Ev & _).
  destruct (num_dots v' vs' _ x j Hv' E Ex) as (_ & Ev' & _).
  assert (Evv : v' = v) by congruence. clear Ev Ev' Ex. rewrite Evv in *. f_equal. rewrite !dots_cons in E. apply app_inv_head in E.
  destruct vs as [|w vs], vs' as [|w' vs']; try easy. injection E as E. now apply IH.
Qed.

Lemma pton4_dots m s b : cstr m s (dots b) -> length b = 4%nat -> Forall byte b -> pton4 m s = (1, b).
Proof.
  intros Hs Hl Hb. unfold pton4. pose proof (pton4_loop_ok 4 m s 0 [] _ Hs ltac:(lia) ltac:(lia)) as H.
  destruct (pton4_loop 4 m s 0 []) as [r a]. destruct H as [(-> & vs & Hlen & Hvs & E & ->)|(_ & Hno)].
  - cbn [app]. f_equal. symmetry. apply dots_inj; [assumption..| | |assumption]; intros ->; discriminate.
  - now destruct (Hno b Hl Hb).
Qed.

(** The text of the last of the groups, with the tail, is the dotted decimal. *)
Definition dotted (C t b : list Z) : Prop :=
  t = [] \/ length b = 4%nat /\ Forall byte b /\ exists C' g, C = C' ++ [g] /\ hexadecimal g ++ t = dots b.

Lemma group_bytes_length gs : length (group_bytes gs) = (2 * length gs)%nat.
Proof. induction gs as [|g gs IH]; [reflexivity|]. cbn [group_bytes flat_map app length] in *. unfold group_bytes in IH. lia. Qed.

Lemma end_address m ip brk i e C t b :
  length (if 0 <=? brk then fill_gap ip brk i else ip) = 8%nat -> tail_ok t -> dotted C t b ->
  (t <> [] -> exists C' g, C = C' ++ [g] /\ cstr m e (hexadecimal g ++ t)) ->
  pton6_end m (Some (ip, brk, i, negb (hd 0 t =? 0), e))
  = (1, address (if 0 <=? brk then fill_gap ip brk i else ip) t b).
Proof.
  intros Hlen Ht Hd He. unfold pton6_end. set (gs := if 0 <=? brk then _ else _) in *.
  destruct t as [|c t]; [reflexivity|]. destruct Ht as [[|H46] _]; [discriminate|]. cbn [hd] in H46. subst c.
  destruct Hd as [|(Hb & Hbs & C1 & g1 & E1 & Hx)]; [discriminate|].
  destruct (He ltac:(discriminate)) as (C2 & g2 & E2 & Hs). rewrite E1 in E2.
  apply app_inj_tail in E2 as [_ <-]. rewrite Hx in Hs. cbn [hd]. change (negb (46 =? 0)) with true. cbv iota.
  rewrite (pton4_dots m e b Hs Hb Hbs). change (1 <=? 0) with false. cbv iota. f_equal. unfold address.
  rewrite Hb, (skipn_all2 (group_bytes gs)) by (rewrite group_bytes_length, Hlen; lia). now rewrite app_nil_r.
Qed.

Lemma starts_group g m s t : group g -> cstr m s (hexadecimal g ++ t) -> (m s =? 58) = false.
Proof.
  intros Hg Hs. destruct (hexadecimal_chars g Hg) as [Hc Hl].
  destruct (hexadecimal g) as [|c l]; [cbn in Hl; lia|]. apply Forall_inv in Hc. cbn in Hs. destruct Hs as (-> & _). lia.
Qed.

(** An address in full. *)
Lemma pton6_full ip m s gs t b :
  gs <> [] -> Forall group gs -> tail_ok t -> cstr m s (joined gs ++ t) -> length ip = 8%nat ->
  length (with_tail gs t) = 8%nat -> dotted gs t b ->
  pton6 ip m s = (1, address (with_tail gs t) t b).
Proof.
  intros Hne Hgs Ht Hs Hip Hlen Hd.
  destruct (loop_joined gs (8 - length gs) m s 0 (-1) ip t) as (ip' & e & Hl & Hf & HL & He); try assumption; try (right; lia); [lia|].
  assert (H58 : (m s =? 58) = false).
  { destruct gs as [|g gs]; [easy|]. apply Forall_inv in Hgs.
    assert (Hx : exists R, cstr m s (hexadecimal g ++ R)).
    { destruct gs; cbn [joined] in Hs; [eauto|]. rewrite <- app_assoc in Hs. eauto. }
    destruct Hx as [R Hx]. now apply (starts_group g m s R). }
  unfold pton6. rewrite H58. cbn [andb]. fold (pton6_end m (pton6_loop 8 m s 0 (-1) ip)).
  unfold with_tail in Hlen. rewrite length_app in Hlen.
  replace (length gs + (8 - length gs))%nat with 8%nat in HL by lia.
  change (Z.of_nat 0) with 0 in HL. rewrite HL, (end_address m ip' _ _ e gs t b); try assumption.
  change (0 <=? -1) with false. cbv iota. do 2 f_equal. cbn [firstn app Nat.add] in Hf. rewrite <- Hf.
  symmetry. apply firstn_all2. unfold with_tail. rewrite length_app. lia.
Qed.

Lemma fill_gap_ok ip A C :
  length ip = 8%nat -> firstn (length A + S (length C)) ip = A ++ 0 :: C -> (length A + length C <= 7)%nat ->
  fill_gap ip (Z.of_nat (length A)) (Z.of_nat (length A + length C))
  = A ++ repeat 0%Z (8 - length A - length C) ++ C.
Proof.
  intros Hip Hf Hk. unfold fill_gap. rewrite Nat2Z.id.
  assert (HA : firstn (length A) ip = A).
  { replace (length A) with (Nat.min (length A) (length A + S (length C))) by lia.
    rewrite <- firstn_firstn, Hf, firstn_app, firstn_all, Nat.sub_diag. apply app_nil_r. }
  assert (HC : firstn (S (length C)) (skipn (length A) ip) = 0 :: C).
  { rewrite firstn_skipn_comm, Hf, skipn_app, skipn_all, Nat.sub_diag. reflexivity. }
  rewrite HA. replace (Z.to_nat (_ + 1 - _)) with (S (length C)) by lia. rewrite HC.
  replace (Z.to_nat (7 - _)) with (7 - length A - length C)%nat by lia.
  replace (8 - length A - length C)%nat with (S (7 - length A - length C)) by lia.
  f_equal. change (0 :: C) with ([0] ++ C). rewrite app_assoc. f_equal.
  rewrite <- repeat_cons. reflexivity.
Qed.

(** The groups before the two colons; a colon at the start is skipped. *)
Lemma pton6_start ip m s A R :
  Forall group A -> cstr m s (joined A ++ 58 :: 58 :: R) ->
  exists s0, cstr m s0 (colons A ++ 58 :: R) /\ pton6 ip m s = pton6_end m (pton6_loop 8 m s0 0 (-1) ip).
Proof.
  intros HA Hs. destruct A as [|g A].
  - cbn [joined app colons flat_map] in *. exists (s + 1). destruct Hs as (H1 & _ & H2).
    split; [exact H2|]. destruct H2 as (H2 & _). unfold pton6. rewrite H1. change (58 =? 58) with true.
    cbv iota zeta. now rewrite H2.
  - destruct (exists_last (l := g :: A)) as (A' & x & E); [discriminate|].
    assert (Hs' : cstr m s (colons (g :: A) ++ 58 :: R)).
    { rewrite E in *. rewrite joined_last in Hs. unfold colons in *. rewrite flat_map_app. cbn [flat_map].
      rewrite app_nil_r, <- !app_assoc in *. exact Hs. }
    exists s. split; [exact Hs'|]. apply Forall_inv in HA. cbn [colons flat_map] in Hs'. rewrite <- !app_assoc in Hs'.
    unfold pton6. now rewrite (starts_group g m s _ HA Hs').
Qed.

(** The two colons and the groups after them. *)
Lemma loop_gap ip m s A C t b :
  Forall group C -> tail_ok t -> cstr m s (58 :: joined C ++ t) -> length ip = 8%nat ->
  firstn (length A) ip = A -> (C = [] -> t = []) -> (length A + length (with_tail C t) <= 7)%nat -> dotted C t b ->
  exists ip' i e, pton6_loop (S (7 - length A)) m s (Z.of_nat (length A)) (-1) ip
                  = Some (ip', Z.of_nat (length A), i, negb (hd 0 t =? 0), e) /\
    fill_gap ip' (Z.of_nat (length A)) i
    = A ++ repeat 0%Z (8 - length A - length (with_tail C t)) ++ with_tail C t /\
    (t <> [] -> exists C' g, C = C' ++ [g] /\ cstr m e (hexadecimal g ++ t)).
Proof.
  intros HC Ht (H58 & _ & Hs) Hip HA HCt Hlen Hd. cbn [pton6_loop]. rewrite H58.
  change ((58 =? 58) && (-1 <? 0)) with true. cbv iota.
  destruct (set_ip_ok ip (length A) 0 Hip ltac:(lia)) as [Hl2 Hf2]. rewrite HA in Hf2.
  destruct C as [|g C].
  - rewrite (HCt eq_refl) in *. cbn [joined app cstr with_tail length] in *. rewrite Hs. change (0 =? 0) with true.
    cbv iota. do 3 eexists. split; [reflexivity|]. split; [|now intros []].
    pose proof (fill_gap_ok _ A [] Hl2) as E. cbn [length] in E. rewrite !Nat.add_0_r in E. apply E; [|lia].
    rewrite Nat.add_1_r. exact Hf2.
  - assert (HW : (S (length C) <= length (with_tail (g :: C) t))%nat) by (unfold with_tail; rewrite length_app; cbn [length]; lia).
    assert (Hne : m (s + 1) <> 0).
    { pose proof (cstr_bytes _ _ _ Hs) as Hb. destruct (joined (g :: C) ++ t) as [|c l] eqn:El.
      - apply Forall_inv in HC. destruct (hexadecimal_chars g HC) as [_ Hx]. apply app_eq_nil in El as [El _].
        cbn [joined] in El. destruct C; [|apply app_eq_nil in El as [El _]]; rewrite El in Hx; cbn in Hx; lia.
      - cbn in Hs. destruct Hs as (-> & _). apply Forall_inv in Hb. lia. }
    replace (m (s + 1) =? 0) with false by lia. replace (Z.of_nat (length A) =? 7) with false by lia.
    replace (Z.of_nat (length A) + 1) with (Z.of_nat (S (length A))) by lia.
    destruct (loop_joined (g :: C) (6 - length A - length C) m (s + 1) (S (length A)) (Z.of_nat (length A))
                (set_ip ip (Z.of_nat (length A)) 0) t) as (ip' & e & Hl & Hf & HL & He);
      try exact Hs; try assumption; try discriminate; try lia.
    replace (length (g :: C) + (6 - length A - length C))%nat with (7 - length A)%nat in HL by (cbn [length]; lia).
    rewrite HL. clear HL. rewrite Hf2, <- app_assoc in Hf.
    do 3 eexists. split; [reflexivity|]. split; [|exact He].
    replace (Z.of_nat (S (length A) + length (with_tail (g :: C) t)) - 1) with (Z.of_nat (length A + length (with_tail (g :: C) t))) by lia.
    apply fill_gap_ok; [assumption| |lia]. cbn [app] in Hf. rewrite <- Hf. f_equal. lia.
Qed.

(** An address with a run of zeros shortened. *)
Lemma pton6_short ip m s A C t b :
  Forall group (A ++ C) -> tail_ok t -> cstr m s (joined A ++ 58 :: 58 :: joined C ++ t) -> length ip = 8%nat ->
  (C = [] -> t = []) -> (length A + length (with_tail C t) <= 7)%nat -> dotted C t b ->
  pton6 ip m s =
  (1, address (A ++ repeat 0%Z (8 - length A - length (with_tail C t)) ++ with_tail C t) t b).
Proof.
  intros HAC Ht Hs Hip HCt Hlen Hd. apply Forall_app in HAC as [HA HC].
  destruct (pton6_start ip m s A _ HA Hs) as (s0 & Hs0 & ->).
  destruct (loop_colons A (S (7 - length A)) m s0 0 (-1) ip _ HA Hs0 Hip ltac:(lia)) as (ip1 & Hl1 & Hf1 & E1).
  replace (length A + S (7 - length A))%nat with 8%nat in E1 by lia. change (Z.of_nat 0) with 0 in E1. rewrite E1. clear E1.
  cbn [Nat.add firstn app] in *.
  destruct (loop_gap ip1 m (s0 + Z.of_nat (length (colons A))) A C t b) as (ip' & i & e & -> & E & He); try assumption.
  { apply (cstr_app_r m s0 (colons A)). exact Hs0. }
  rewrite (end_address m ip' _ i e C t b); try assumption; replace (0 <=? Z.of_nat (length A)) with true by lia.
  - now rewrite E.
  - rewrite E, !length_app, repeat_length. lia.
Qed.

(** ** Runs of zero groups *)

Notation zc := (inb [58; 48]).

Lemma no_colon g t : group g -> tail_ok t -> ~ In 58 (hexadecimal g ++ t).
Proof.
  intros Hg [_ Ht] H. apply in_app_or in H as [H|H]; [|now apply Ht].
  destruct (hexadecimal_chars g Hg) as [Hc _]. rewrite Forall_forall in Hc. now destruct (Hc _ H).
Qed.

(** A colon of the text is between two groups. *)
Lemma colon_at gs t p :
  gs <> [] -> Forall group gs -> tail_ok t -> nth p (joined gs ++ t) 0 = 58 ->
  exists A B, A <> [] /\ B <> [] /\ gs = A ++ B /\ firstn p (joined gs ++ t) = joined A /\
              skipn p (joined gs ++ t) = 58 :: joined B ++ t.
Proof.
  intros Hne Hgs Ht. revert p; induction gs as [|g gs IH]; intros p Hp; [easy|].
  inversion_clear Hgs as [|? ? Hg Hgs']. destruct (hexadecimal_chars g Hg) as [Hc _].
  destruct gs as [|g2 gs].
  - cbn [joined] in Hp. exfalso. apply (no_colon g t Hg Ht). rewrite <- Hp.
    destruct (Nat.lt_ge_cases p (length (hexadecimal g ++ t))) as [H|H]; [now apply nth_In|].
    now rewrite nth_overflow in Hp by assumption.
  - change (joined (g :: g2 :: gs)) with (hexadecimal g ++ 58 :: joined (g2 :: gs)) in *. rewrite <- app_assoc in *.
    cbn [app] in *. set (h := hexadecimal g) in *. set (T := joined (g2 :: gs) ++ t) in *.
    destruct (Nat.lt_trichotomy p (length h)) as [H|[->|H]].
    + rewrite app_nth1 in Hp by assumption. rewrite Forall_forall in Hc. destruct (Hc (nth p h 0)); [now apply nth_In|easy].
    + exists [g], (g2 :: gs). rewrite firstn_app, firstn_all, skipn_app, skipn_all, Nat.sub_diag.
      repeat split; try discriminate. cbn. apply app_nil_r.
    + replace p with (length h + S (p - length h - 1))%nat in * by lia. set (q := (p - length h - 1)%nat) in *.
      rewrite app_nth2_plus in Hp. cbn [nth] in Hp.
      destruct (IH ltac:(discriminate) Hgs' q Hp) as (A & B & HA & HB & E & Ef & Es).
      exists (g :: A), B. split; [discriminate|]. split; [assumption|]. split; [cbn; now rewrite E|].
      rewrite firstn_app_2, skipn_app, skipn_all2 by lia.
      replace (length h + S q - length h)%nat with (S q) by lia. cbn [firstn skipn app]. fold T in Ef, Es. rewrite Ef, Es.
      split; [|reflexivity]. destruct A; [easy|reflexivity].
Qed.

(** The colons and zeros at the front of the text are the groups of zeros. *)
Lemma zero_run B t :
  B <> [] -> Forall group B -> tail_ok t ->
  exists k C, B = repeat 0%Z k ++ C /\
    let n := span zc (joined B ++ t) in
    skipn n (joined B ++ t) = joined C ++ t /\ (n <= 2 * k)%nat /\ (C = [] -> n + 1 <= 2 * k)%nat.
Proof.
  intros Hne HB Ht. induction B as [|g B IH]; [easy|]. inversion_clear HB as [|? ? Hg HB'].
  destruct (Z.eq_dec g 0) as [->|Hn].
  - destruct B as [|g2 B].
    + exists 1%nat, []. split; [reflexivity|]. change (joined [0] ++ t) with (48 :: t). cbn [span].
      change (zc 48) with true. cbv iota.
      replace (span zc t) with 0%nat; [cbn [skipn]; split; [reflexivity|lia]|].
      destruct Ht as [[->|H46] _]; [reflexivity|]. destruct t; [reflexivity|]. cbn in H46. now subst.
    + destruct (IH ltac:(discriminate) HB') as (k & C & E & Hs & Hk & HC). exists (S k), C. split; [cbn; now rewrite E|].
      change (joined (0 :: g2 :: B) ++ t) with (48 :: 58 :: joined (g2 :: B) ++ t). cbn [span].
      change (zc 48) with true. change (zc 58) with true. cbv iota. cbn [skipn]. split; [exact Hs|].
      split; [lia|]. intros EC. specialize (HC EC). lia.
  - exists 0%nat, (g :: B). split; [reflexivity|].
    assert (E : span zc (joined (g :: B) ++ t) = 0%nat).
    { destruct (hexadecimal_chars g Hg) as [Hc Hl]. pose proof (hexadecimal_head g Hg Hn) as Hh.
      assert (Hx : exists R, joined (g :: B) ++ t = hexadecimal g ++ R).
      { destruct B; cbn [joined]; rewrite <- ?app_assoc; eauto. }
      destruct Hx as [R ->]. destruct (hexadecimal g) as [|c l]; [cbn in Hl; lia|]. apply Forall_inv in Hc.
      cbn in *. replace (c =? 58) with false by lia. now replace (c =? 48) with false by lia. }
    rewrite E. cbn [skipn]. split; [reflexivity|]. split; [lia|discriminate].
Qed.

(** What inet_ntop may shorten: a run of more than three colons and zeros that
    starts the text or at a colon. *)
Definition candidate (T : list Z) (best max : nat) : Prop :=
  (best = 0%nat \/ nth best T 0 = 58) /\ max = span zc (skipn best T) /\ (3 < max)%nat.

Lemma candidate_groups gs t best max :
  gs <> [] -> Forall group gs -> tail_ok t -> candidate (joined gs ++ t) best max ->
  exists A k C, gs = A ++ repeat 0%Z k ++ C /\ (2 <= k)%nat /\
    firstn best (joined gs ++ t) = joined A /\ skipn (best + max) (joined gs ++ t) = joined C ++ t.
Proof.
  intros Hne Hgs Ht (Hb & -> & Hmax). rewrite Nat.add_comm, <- skipn_skipn. destruct Hb as [->|Hb].
  - cbn [skipn firstn] in *. destruct (zero_run gs t Hne Hgs Ht) as (k & C & E & Hs & Hk & HC).
    exists [], k, C. split; [exact E|]. split; [lia|]. split; [reflexivity|exact Hs].
  - destruct (colon_at gs t best Hne Hgs Ht Hb) as (A & B & HA & HB & E & Ef & Es). rewrite Es, Ef in *. subst gs.
    apply Forall_app in Hgs as [_ HgB]. destruct (zero_run B t HB HgB Ht) as (k & C & -> & Hs & Hk & HC).
    exists A, k, C. split; [reflexivity|]. cbn [span] in *. change (zc 58) with true in *. cbv iota in *.
    split; [lia|]. split; [reflexivity|exact Hs].
Qed.

(** inet_pton reads the text of the groups in full or with such a run shortened. *)
Theorem pton6_text ip m s gs t b x :
  gs <> [] -> Forall group gs -> tail_ok t -> length ip = 8%nat -> length (with_tail gs t) = 8%nat ->
  dotted gs t b -> (t <> [] -> nth 5 gs 0 <> 0) ->
  (x = joined gs ++ t \/ exists best max, candidate (joined gs ++ t) best max /\
     x = firstn best (joined gs ++ t) ++ 58 :: 58 :: skipn (best + max) (joined gs ++ t)) ->
  cstr m s x -> pton6 ip m s = (1, address (with_tail gs t) t b).
Proof.
  intros Hne Hgs Ht Hip Hlen Hd H5 [->|(best & max & HC & ->)] Hs; [now apply pton6_full|].
  destruct (candidate_groups gs t best max Hne Hgs Ht HC) as (A & k & C & E & Hk & Ef & Es).
  rewrite Ef, Es in Hs. subst gs. unfold with_tail in Hlen. rewrite !length_app, repeat_length in Hlen.
  assert (HCt : C = [] -> t = []).
  { intros ->. destruct t as [|c t]; [reflexivity|]. exfalso. cbn [length] in Hlen. apply H5; [discriminate|].
    rewrite app_nil_r, app_nth2 by lia. apply nth_repeat. }
  rewrite (pton6_short ip m s A C t b); try assumption.
  - f_equal. f_equal. unfold with_tail. rewrite length_app, <- !app_assoc.
    replace (8 - length A - _)%nat with k by lia. reflexivity.
  - rewrite !Forall_app in *. tauto.
  - unfold with_tail. rewrite length_app. lia.
  - destruct Hd as [->|(Hb & Hbs & C1 & g & E & Hx)]; [now left|].
    destruct t as [|c t]; [now left|]. right. split; [assumption|]. split; [assumption|].
    destruct C as [|c0 C] using rev_ind; [now discriminate HCt|]. exists C, c0. split; [reflexivity|].
    rewrite !app_assoc in E. apply app_inj_tail in E as [_ ->]. exact Hx.
Qed.
