(* ===== verification/Print.v ===== *)
(** * Print: printing to streams and to strings

    vfprintf on any stream whose write function keeps the promise of [Sink]
    (StreamOut) appends the text of the format (Format) to the text of the stream,
    or returns -1 with the error flag raised; vsnprintf leaves what fits of the
    text in the string, terminated, and returns the length of all of it.  A number
    printed with %ld is read back by strtol. *)

From Stdlib Require Import ZArith Lia ZifyBool List Bool.
From S2P Require Import Prelude MemCopy Strings Ctype Utf8 IntScan Stdio StreamOut Printf Format Directive.
Import ListNotations.
Open Scope Z_scope.

(** ** Streams *)

Section Stream.
Context {E F : Type} `{Sink E}.
Variable fmt_fp : F -> Z -> Z -> Z -> Z -> Z -> Z * list (list Z).
Variables (strerror_msg : Z) (utf8 : bool) (m : mem) (fuel : nat) (loc internal_buf : Z).
Implicit Types (s : st E) (t d : list Z).

(** Above [loc] there is nothing of the stream's. *)
Definition scratch s : Prop := forall x, loc <= x -> ~ owns x /\ ~ in_buffer (sf s) x.

(** The stream cannot fail. *)
Definition reliable (f : FILE) : Prop :=
  has f F_NOWR = false /\
  forall s b n k s', f_write s b n = Some (k, s') -> flags (sf s') = flags (sf s).

(** The stream [s0] with text [t] has been printed [d], or the printing failed. *)
Definition same_stream s0 s : Prop :=
  out_stream s /\ buf (sf s) = buf (sf s0) /\ buf_size (sf s) = buf_size (sf s0) /\
  lbf (sf s) = lbf (sf s0) /\ serr s = serr s0 /\
  (forall x, ~ owns x -> ~ in_buffer (sf s0) x -> x < loc -> sm s x = sm s0 x).

Definition stream_rel s0 t d (o : option (st E)) : Prop :=
  exists s, o = Some s /\ same_stream s0 s /\ text s (t ++ d) /\
            flags (sf s) = flags (sf s0) /\ has (sf s0) F_ERR = false.

Definition stream_bad s0 (o : option (st E)) : Prop :=
  exists s, o = Some s /\ same_stream s0 s /\ has (sf s) F_ERR = true /\
            (exists r, text s r) /\ ~ reliable (sf s0).

Lemma enter_flags s :
  has (sf s) F_NOWR = false -> exists s1, enter s = (0, s1) /\ flags (sf s1) = flags (sf s).
Proof.
  intros HN. unfold enter. destruct (wend (sf s) =? 0); [|eauto]. unfold __towrite.
  change (has (sf (on_file touch s)) F_NOWR) with (has (sf s) F_NOWR). rewrite HN. eauto.
Qed.

Lemma fwritex_flags p l s k s' :
  reliable (sf s) -> __fwritex p l s = Some (k, s') -> flags (sf s') = flags (sf s).
Proof.
  intros [HN HF]. unfold __fwritex. fold (enter s).
  destruct (enter_flags s HN) as (s1 & -> & <-). change (negb (0 =? 0)) with false. cbv iota.
  destruct (_ <? l); [apply HF|].
  destruct (_ =? 0); [now intros [= _ <-]|].
  destruct (f_write s1 p _) as [[n s2]|] eqn:EW; [|easy]. apply HF in EW. cbn [bind].
  destruct (n <? _); intros [= _ <-]; exact EW.
Qed.

Lemma stream_put_ok s0 t d o x :
  scratch s0 -> Forall (fun b => 0 <= b < 256) x -> stream_rel s0 t d o ->
  stream_rel s0 t (d ++ x) (stream_put loc o x) \/ stream_bad s0 (stream_put loc o x).
Proof.
  intros Hsc Hx (s & -> & (HO & HB & HZ & HL & He & Hm) & HT & HF & Hno). cbn [stream_put bind].
  assert (Hp : forall n, printable s loc n).
  { intros n y Hy. unfold in_buffer. rewrite HB, HZ. apply Hsc. lia. }
  destruct (scratch_list s (t ++ d) loc x HO HT (Hp _) Hx) as (HO1 & HT1 & _).
  set (s1 := on_mem _ s) in *.
  destruct (fwritex_ok s1 loc (Z.of_nat (length x)) (t ++ d)) as (k & s' & Hw & Hres);
    [assumption|assumption|lia|apply Hp|].
  rewrite Hw. cbn [bind]. rewrite Nat2Z.id in Hres.
  replace (bytes_at (sm s1) loc (length x)) with x in Hres by (symmetry; apply bytes_at_upd).
  assert (HK : forall s', kept s1 s' -> same_stream s0 s').
  { intros s2 (Km & Ke & KO & KB & KZ & KL). split; [assumption|].
    split; [rewrite KB; exact HB|]. split; [rewrite KZ; exact HZ|].
    split; [rewrite KL; exact HL|]. split; [rewrite Ke; exact He|].
    intros y Hy Hi Hl. rewrite Km; [|assumption|].
    - cbn. rewrite upd_list_out by lia. now apply Hm.
    - unfold in_buffer in *. cbn. now rewrite HB, HZ. }
  destruct Hres as [(_ & HG & HT' & HF')|(j & HBr & _)].
  - left. exists s'. split; [reflexivity|]. split; [now apply HK|].
    rewrite <- app_assoc in HT'. split; [assumption|]. split; [|assumption].
    rewrite HF'. exact HF.
  - right. exists s'. pose proof (broken_err _ _ _ _ _ HBr) as HE.
    destruct HBr as (HK' & HR & _ & HI & _). split; [reflexivity|]. split; [now apply HK|].
    split; [assumption|]. split.
    + exists (firstn j ((t ++ d) ++ x)), (firstn j ((t ++ d) ++ x)).
      rewrite idle_pending, app_nil_r by assumption. auto.
    + intros HRL. apply fwritex_flags in Hw.
      * unfold has in *. rewrite Hw in HE. cbn in HE. rewrite HF, Hno in HE. discriminate.
      * destruct HRL as [HN HW]. split; [|assumption]. unfold has in *. cbn. now rewrite HF.
Qed.

(** printf_core on a stream prints the text, or the stream is broken. *)
Lemma core_of_text s0 t c c1 r1 :
  scratch s0 -> stream_rel s0 t (dst c) (Some s0) ->
  text_core fmt_fp strerror_msg utf8 m fuel true c = Some (c1, r1) ->
  exists c2 r2, core_of fmt_fp strerror_msg utf8 m fuel loc true (re c (Some s0)) = Some (c2, r2) /\
    ((exists o, c2 = re c1 o /\ r1 = r2 /\ stream_rel s0 t (dst c1) o) \/ stream_bad s0 (dst c2)).
Proof.
  intros Hsc HR HE. unfold core_of.
  apply (printf_core_sim text_err (@app Z) stream_err (stream_put loc) fmt_fp strerror_msg utf8 m fuel
           true (stream_rel s0 t) (stream_bad s0)) with (c := c); try assumption.
  - now intros o (s & -> & _ & HB & _).
  - intros o1 o2 (s & -> & _ & _ & HF & Hno). split; [reflexivity|]. cbn. unfold has in *. now rewrite HF.
  - intros o1 o2 x Hx HR'. now apply stream_put_ok.
  - now left.
Qed.

(** The first pass does not touch the destination. *)
Lemma core_of_types c c1 r1 (o : option (st E)) :
  text_core fmt_fp strerror_msg utf8 m fuel false c = Some (c1, r1) ->
  core_of fmt_fp strerror_msg utf8 m fuel loc false (re c o) = Some (re c1 o, r1).
Proof.
  intros HE. unfold core_of.
  change (printf_core (O:=option (st E)) (fun _ => false) (fun o _ => o) fmt_fp strerror_msg utf8 m
            fuel false (re c o) = Some (re c1 o, r1)).
  destruct (printf_core_sim text_err (@app Z) (fun _ : option (st E) => false) (fun o _ => o)
              fmt_fp strerror_msg utf8 m fuel false (fun _ o' => o' = o) (fun _ => False))
    with (c := c) (o := o) (c1 := c1) (r1 := r1) as (c2 & r2 & H2 & Hres); try tauto; try (now left);
    try (intros; split; reflexivity); try (intros; now left).
  rewrite H2. destruct Hres as [(o' & -> & -> & ->)|[]]. reflexivity.
Qed.

(** vfprintf lends an unbuffered stream a buffer. *)
Definition lends : Prop :=
  0 < internal_buf /\ internal_buf + 80 < 2 ^ 63 /\
  forall x, internal_buf <= x < internal_buf + 80 -> ~ owns x.

Lemma clear_err (f : FILE) : has (clear f F_ERR) F_ERR = false.
Proof.
  unfold has, clear. cbn. apply negb_false_iff, Z.eqb_eq. apply Z.bits_inj'. intros n Hn.
  rewrite Z.land_spec, Z.ldiff_spec, Z.bits_0. now destruct (Z.testbit (flags f) n), (Z.testbit F_ERR n).
Qed.

Lemma raise_old (x : Z) : Z.lor (Z.ldiff x F_ERR) (Z.land x F_ERR) = x.
Proof.
  apply Z.bits_inj'. intros n Hn. rewrite Z.lor_spec, Z.ldiff_spec, Z.land_spec.
  now destruct (Z.testbit x n), (Z.testbit F_ERR n).
Qed.

Lemma nowr_kept (x : Z) : Z.land (Z.ldiff x F_ERR) F_NOWR = Z.land x F_NOWR.
Proof.
  change F_NOWR with (Z.ldiff F_NOWR F_ERR) at 2. apply Z.bits_inj'. intros n Hn.
  rewrite !Z.land_spec, !Z.ldiff_spec.
  now destruct (Z.testbit x n), (Z.testbit F_ERR n), (Z.testbit F_NOWR n).
Qed.

Lemma has_kept (f : FILE) b o : has f b = true -> has (raise f o) b = true.
Proof.
  unfold has, raise. cbn. rewrite !negb_true_iff, !Z.eqb_neq, Z.land_lor_distr_l.
  intros Hb HE. apply Z.lor_eq_0_iff in HE. tauto.
Qed.

Lemma prepare_ok s t :
  lends -> out_stream s -> text s t ->
  out_stream (prepare internal_buf s) /\ text (prepare internal_buf s) t.
Proof.
  intros (HI & Hmax & Hown) HO (r & HR & ->).
  pose proof HO as (Hb & Hz & Hbz & Ho & Hr & Hl & HM & Hwf). unfold prepare.
  change (buf_size (sf (on_file _ s))) with (buf_size (sf s)).
  destruct (Z.eqb_spec (buf_size (sf s)) 0) as [E0|_].
  - assert (HP : pending s = []).
    { apply pending_nil. destruct HM as [(? & ? & ?)|(? & ? & ?)]; lia. }
    set (s1 := on_file _ _).
    assert (HP1 : pending s1 = []) by (apply pending_nil; reflexivity).
    split; [|exists r; rewrite HP, HP1; split; [now apply (received_frame s)|reflexivity]].
    unfold out_stream. rewrite HP1. cbn. unfold in_buffer. cbn.
    split; [assumption|]. split; [lia|]. split; [lia|]. split; [assumption|]. split; [assumption|].
    split; [destruct Hl as [|[? _]]; auto|]. split; [now left|assumption].
  - split; [exact HO|]. exists r. split; [now apply (received_frame s)|reflexivity].
Qed.

Lemma reliable_flags (f f' : FILE) :
  Z.land (flags f') F_NOWR = Z.land (flags f) F_NOWR -> reliable f -> reliable f'.
Proof. unfold reliable, has. now intros ->. Qed.

Definition gave_back (saved : option Z) (ret : Z) s t (r : option (Z * st E)) : Prop :=
  exists ret' s', r = Some (ret', s') /\ serr s' = serr s /\
    (forall x, ~ owns x -> sm s' x = sm s x) /\
    match saved with
    | Some b => buf (sf s') = b /\ buf_size (sf s') = 0
    | None => buf (sf s') = buf (sf s) /\ buf_size (sf s') = buf_size (sf s)
    end /\
    ((ret' = ret /\ out_stream s' /\ text s' t /\ flags (sf s') = flags (sf s)) \/
     (ret' = -1 /\ has (sf s') F_ERR = true /\
      (has (sf s) F_ERR = false -> ~ reliable (sf s)))).

Lemma give_back_ok saved ret s t :
  out_stream s -> text s t -> match saved with Some b => 0 < b < 2 ^ 63 | None => True end ->
  gave_back saved ret s t (give_back saved ret s).
Proof.
  intros HO HT Hb. destruct saved as [b|]; cbn [give_back].
  2: { exists ret, s. auto 10. }
  destruct (f_write_flush s t HO HT) as (k & s' & Hw & He & Hwf & Hm & Hr & Hl & Hres).
  rewrite Hw. cbn [bind]. set (s2 := on_file _ s').
  exists (if wpos (sf s') =? 0 then -1 else ret), s2. split; [reflexivity|].
  split; [exact He|]. split; [exact Hm|]. split; [now split|].
  destruct Hres as [(Hp & HR & HF)|(Hp & HF)].
  - left. replace (wpos (sf s') =? 0) with false by lia.
    assert (HP : pending s2 = []) by (apply pending_nil; reflexivity).
    split; [reflexivity|]. split; [|split; [|exact HF]].
    + unfold out_stream. rewrite HP. cbn. unfold in_buffer. cbn. rewrite Hl.
      split; [lia|]. split; [lia|]. split; [lia|]. split; [intros x Hx; lia|]. split; [exact Hr|].
      split; [|split; [now left|exact Hwf]].
      destruct HO as (_ & _ & _ & _ & _ & [?|[? _]] & _); auto.
    + exists t. rewrite HP, app_nil_r. split; [|reflexivity]. now apply (received_frame s').
  - right. rewrite Hp, Z.eqb_refl. split; [reflexivity|].
    assert (HE : has (sf s') F_ERR = true).
    { unfold has. rewrite HF, Z.land_lor_distr_l. apply negb_true_iff, Z.eqb_neq.
      intros HE. apply Z.lor_eq_0_iff in HE. now destruct HE. }
    split; [exact HE|]. intros HN [_ HRL]. apply HRL in Hw. unfold has in *.
    rewrite Hw, HN in HE. discriminate.
Qed.

(** vfprintf prints the format [r], [d], [n] to [s] with text [t], or the stream
    failed. *)
Definition printed_to s t (r : stop) d (n : list (Z * Z * Z))
    (res : option (Z * st E * list (Z * Z * Z))) : Prop :=
  exists ret s' n', res = Some (ret, s', n') /\
    (forall x, ~ owns x -> ~ in_buffer (sf (prepare internal_buf s)) x -> x < loc ->
               sm s' x = sm s x) /\
    buf (sf s') = buf (sf s) /\ buf_size (sf s') = buf_size (sf s) /\
    ((ret = stop_value r /\ out_stream s' /\ text s' (t ++ d) /\
      flags (sf s') = flags (sf s) /\ serr s' = stop_errno r (serr s) /\ n' = n) \/
     (ret = -1 /\ has (sf s') F_ERR = true /\ ~ reliable (sf s))).

Notation vfprintf' := (vfprintf fmt_fp strerror_msg utf8 m fuel loc internal_buf).

(** From the end of the second pass to the end of vfprintf. *)
Lemma conclude_ok s t r d n s2 ret n2 :
  out_stream s -> out_stream s2 ->
  (forall x, ~ owns x -> ~ in_buffer (sf (prepare internal_buf s)) x -> x < loc ->
             sm s2 x = sm s x) ->
  (buf_size (sf s) <> 0 -> buf (sf s2) = buf (sf s) /\ buf_size (sf s2) = buf_size (sf s)) ->
  (ret = stop_value r /\ serr s2 = stop_errno r (serr s) /\ n2 = n /\ text s2 (t ++ d) /\
   flags (sf s2) = Z.ldiff (flags (sf s)) F_ERR \/
   has (sf s2) F_ERR = true /\ (exists t', text s2 t') /\ ~ reliable (sf s)) ->
  printed_to s t r d n
    (conclude (if buf_size (sf s) =? 0 then Some (buf (sf s)) else None)
              (Z.land (flags (sf s)) F_ERR) ret s2 n2).
Proof.
  intros HO HO2 Hm Hbuf Hres. unfold conclude.
  set (saved := if _ =? 0 then _ else _).
  assert (Hsv : match saved with Some b => 0 < b < 2 ^ 63 | None => True end).
  { subst saved. destruct HO as (? & ? & ? & _). destruct (_ =? 0); [lia|exact I]. }
  assert (HT : exists t2, text s2 t2 /\ (has (sf s2) F_ERR = false -> t2 = t ++ d)).
  { destruct Hres as [(_ & _ & _ & HT & _)|(HE & (t2 & HT) & _)]; [eauto|].
    exists t2. split; [assumption|]. rewrite HE. discriminate. }
  destruct HT as (t2 & HT & Ht2).
  destruct (give_back_ok saved ret s2 t2 HO2 HT Hsv) as (ret' & s3 & HG & He & Hm3 & Hb3 & HGB).
  rewrite HG. cbn [bind]. eexists _, _, n2. split; [reflexivity|].
  split; [intros x H1 H2 H3; cbn; rewrite Hm3 by assumption; now apply Hm|].
  assert (Hb4 : buf (sf s3) = buf (sf s) /\ buf_size (sf s3) = buf_size (sf s)).
  { subst saved. destruct (Z.eqb_spec (buf_size (sf s)) 0) as [E0|E0]; [now rewrite E0|].
    destruct (Hbuf E0) as [<- <-]. exact Hb3. }
  split; [exact (proj1 Hb4)|]. split; [exact (proj2 Hb4)|]. clear Hb3 Hb4.
  destruct Hres as [(Hret & Hse & Hn & _ & Hfl)|(HE & _ & HNR)].
  - assert (HE : has (sf s2) F_ERR = false).
    { unfold has. rewrite Hfl. exact (clear_err (sf s)). }
    destruct HGB as [(-> & HO3 & HT3 & HF3)|(-> & HE3 & HNR)].
    + left. assert (HE3 : has (sf s3) F_ERR = false) by (unfold has in *; now rewrite HF3).
      rewrite HE3, <- (Ht2 HE). split; [assumption|]. split; [exact HO3|].
      split; [destruct HT3 as (r3 & HR3 & ->); exists r3; split; [now apply (received_frame s3)|reflexivity]|].
      split; [cbn; rewrite HF3, Hfl; apply raise_old|]. split; [cbn; congruence|assumption].
    + right. rewrite HE3. split; [reflexivity|]. split; [now apply has_kept|].
      intros HR. apply HNR; [assumption|]. apply (reliable_flags (sf s)); [|assumption].
      rewrite Hfl. apply nowr_kept.
  - right. assert (HE3 : has (sf s3) F_ERR = true).
    { destruct HGB as [(_ & _ & _ & HF3)|(_ & HE3 & _)]; [|assumption].
      unfold has in *. now rewrite HF3. }
    rewrite HE3. split; [reflexivity|]. split; [now apply has_kept|assumption].
Qed.

Lemma prepare_file s :
  flags (sf (prepare internal_buf s)) = Z.ldiff (flags (sf s)) F_ERR /\
  sm (prepare internal_buf s) = sm s /\ serr (prepare internal_buf s) = serr s.
Proof. unfold prepare. destruct (_ =? 0); auto. Qed.

Lemma prepare_buf s :
  buf_size (sf s) <> 0 ->
  buf (sf (prepare internal_buf s)) = buf (sf s) /\
  buf_size (sf (prepare internal_buf s)) = buf_size (sf s).
Proof.
  intros Hn. unfold prepare. change (buf_size (sf (on_file _ s))) with (buf_size (sf s)).
  now destruct (Z.eqb_spec (buf_size (sf s)) 0).
Qed.

Lemma vfprintf_ok s t fm ap r d n :
  format fmt_fp strerror_msg utf8 m fuel fm ap = Some (r, d, n) ->
  lends -> out_stream s -> text s t -> scratch (prepare internal_buf s) ->
  printed_to s t r d n (vfprintf' fm ap s).
Proof.
  intros HF HL HO HT Hsc. unfold format in HF.
  destruct (text_core _ _ _ _ _ false _) as [[c1 r1]|] eqn:E1; [|discriminate]. cbn [bind] in HF.
  assert (E1' := E1). unfold vfprintf. apply (core_of_types _ _ _ None) in E1.
  change (re (text_start fm ap (repeat (AI 0) 10)) None) with (start (E:=E) None fm ap (repeat (AI 0) 10)) in E1.
  rewrite E1. cbn [bind]. destruct (Z.ltb_spec (stop_value r1) 0) as [Hneg|Hpos].
  { injection HF as Hr Hd Hn. subst r d n. eexists _, _, []. split; [reflexivity|]. split; [auto|].
    split; [reflexivity|]. split; [reflexivity|]. left.
    rewrite app_nil_r. destruct r1 as [z| | | | |]; [apply types_ret in E1'; cbn in Hneg; lia|..];
      (split; [reflexivity|]); (split; [exact HO|]); (split; [|auto]);
      destruct HT as (r0 & HR & ->); exists r0; (split; [now apply (received_frame s)|reflexivity]). }
  destruct (text_core _ _ _ _ _ true _) as [[c2 r2]|] eqn:E2; [|discriminate]. cbn [bind] in HF.
  injection HF as <- <- <-.
  destruct (prepare_ok s t HL HO HT) as [HO0 HT0].
  destruct (prepare_file s) as (HF0 & Hm0 & He0).
  change (Printf.ap (re c1 None)) with (Printf.ap c1). change (nl_arg (re c1 None)) with (nl_arg c1).
  set (s0 := prepare internal_buf s) in *.
  destruct (enter_ok s0 t HO0 HT0) as (e & s1 & HE & Hm1 & Hl1 & HK1 & Hres).
  fold (enter s0). rewrite HE.
  assert (HR0 : reliable (sf s) -> reliable (sf s0)).
  { apply reliable_flags. rewrite HF0. apply nowr_kept. }
  assert (HM1 : forall x, ~ owns x -> ~ in_buffer (sf s0) x -> x < loc -> sm s1 x = sm s x)
    by (intros; now rewrite Hm1, Hm0).
  destruct Hres as [(-> & HT1 & HF1 & HW1)|(He & HB)].
  2: { replace (negb (e =? 0)) with true by lia. cbn [bind].
    pose proof (broken_err _ _ _ _ _ (HB [])) as HE1.
    destruct (HB []) as ((_ & _ & HO1 & HB1 & HZ1 & _) & HR1 & _ & HI1 & _).
    apply conclude_ok; try assumption; [now rewrite HB1, HZ1; apply prepare_buf|]. right. split; [assumption|]. split.
    - eexists _, _. split; [exact HR1|]. now rewrite idle_pending.
    - intros HRL. destruct (enter_flags s0 (proj1 (HR0 HRL))) as (s2 & HE2 & _). congruence. }
  change (negb (0 =? 0)) with false. cbv iota.
  assert (Hno : has (sf s1) F_ERR = false).
  { unfold has. rewrite HF1, HF0. exact (clear_err (sf s)). }
  destruct HK1 as (_ & He1 & HO1 & HB1 & HZ1 & _).
  assert (Hib : forall x, in_buffer (sf s1) x <-> in_buffer (sf s0) x)
    by (intros; unfold in_buffer; now rewrite HB1, HZ1).
  destruct (core_of_text s1 t (text_start fm (Printf.ap c1) (nl_arg c1)) c2 r2) as (c3 & r3 & HC & Hres).
  { intros x Hx. rewrite Hib. now apply Hsc. }
  { exists s1. split; [reflexivity|]. split; [repeat (split; [auto|]); auto|].
    cbn [dst text_start]. rewrite app_nil_r. auto. }
  { exact E2. }
  change (start (Some s1) fm (Printf.ap c1) (nl_arg c1))
    with (re (text_start fm (Printf.ap c1) (nl_arg c1)) (Some s1)).
  rewrite HC. cbn [bind].
  assert (Hbuf : buf_size (sf s) <> 0 ->
                 buf (sf s1) = buf (sf s) /\ buf_size (sf s1) = buf_size (sf s))
    by (rewrite HB1, HZ1; apply prepare_buf).
  destruct Hres as [(o & -> & <- & s2 & -> & (HO2 & HB2 & HZ2 & _ & He2 & Hm2) & HT2 & HF2 & _)
                   |(s2 & Hd & (HO2 & HB2 & HZ2 & _ & He2 & Hm2) & HE2 & HT2 & HNR)].
  - cbn [dst re bind stores]. apply conclude_ok; [assumption|exact HO2| |cbn; now rewrite HB2, HZ2|left].
    + intros x H1 H2 H3. cbn. rewrite Hm2; [now apply HM1|assumption|now rewrite Hib|assumption].
    + cbn. rewrite He2, He1, He0. split; [reflexivity|]. split; [reflexivity|]. split; [reflexivity|].
      split; [|congruence]. destruct HT2 as (r0 & HR & ->). exists r0. split; [|reflexivity].
      now apply (received_frame s2).
  - rewrite Hd. cbn [bind]. apply conclude_ok; [assumption|exact HO2| |cbn; now rewrite HB2, HZ2|right].
    + intros x H1 H2 H3. cbn. rewrite Hm2; [now apply HM1|assumption|now rewrite Hib|assumption].
    + split; [exact HE2|]. split.
      * destruct HT2 as (t2 & r0 & HR & ->). exists (r0 ++ pending s2), r0. split; [|reflexivity].
        now apply (received_frame s2).
      * intros HRL. apply HNR. apply (reliable_flags (sf s0)); [now rewrite HF1|auto].
Qed.

End Stream.

(** ** Strings *)

Section SnPrintf.
Context {F : Type}.
Variable fmt_fp : F -> Z -> Z -> Z -> Z -> Z -> Z * list (list Z).
Variables (strerror_msg : Z) (utf8 : bool) (m : mem) (fuel : nat).
Variables (loc internal_buf fbuf dummy : Z).

(** The string vsnprintf writes: [room_of n] bytes and a terminator at
    [target s n]. *)
Definition target (s n : Z) : Z := if n =? 0 then dummy else s.
Definition room_of (n : Z) : nat := Z.to_nat (if n =? 0 then 0 else n - 1).

(** What vsnprintf owns on its stack lies apart from the string, and the bytes it
    prints from above both. *)
Definition apart (s n : Z) : Prop :=
  0 < fbuf < 2 ^ 63 /\ 0 < internal_buf /\ internal_buf + 80 <= loc /\ loc < 2 ^ 63 /\
  target s n + Z.of_nat (room_of n) < loc /\
  (target s n + Z.of_nat (room_of n) < internal_buf \/ internal_buf + 80 <= target s n).

Definition sn_printed (s n errno : Z) (r : stop) (d : list Z) (sts : list (Z * Z * Z))
    (res : option (Z * mem * Z * list (Z * Z * Z))) : Prop :=
  let k := Nat.min (room_of n) (length d) in
  exists m', res = Some (stop_value r, m', stop_errno r errno, sts) /\ wf_mem m' /\
    bytes_at m' (target s n) k = firstn (room_of n) d /\ m' (target s n + Z.of_nat k) = 0 /\
    forall x, x < loc -> ~ target s n <= x <= target s n + Z.of_nat (room_of n) ->
              ~ internal_buf <= x < internal_buf + 80 -> m' x = m x.

Lemma vsnprintf_ok s n fm ap errno r d sts :
  wf_mem m -> 0 <= n -> apart s n ->
  format fmt_fp strerror_msg utf8 m fuel fm ap = Some (r, d, sts) ->
  sn_printed s n errno r d sts
    (vsnprintf fmt_fp strerror_msg utf8 fuel loc internal_buf fbuf dummy m s n fm ap errno).
Proof.
  intros Hwf Hn (Hf & Hi & Hil & Hlm & HD & Hap) HF.
  set (D := target s n) in *. set (N := room_of n) in *.
  pose (sink := sn_sink D N). unfold vsnprintf.
  replace (if n =? 0 then mkcookie dummy 0 else mkcookie s (n - 1)) with (mkcookie D (Z.of_nat N))
    by (subst D N; unfold target, room_of; destruct (Z.eqb_spec n 0); f_equal; lia).
  set (st0 := mkst _ _ _ _).
  assert (HP : pending st0 = []) by (apply pending_nil; reflexivity).
  assert (HO : out_stream (H0 := sink) st0).
  { unfold out_stream. rewrite HP. cbn. unfold in_buffer. cbn.
    split; [lia|]. split; [lia|]. split; [lia|]. split; [intros x Hx; lia|]. split; [reflexivity|].
    split; [now left|]. split; [now left|]. now apply mset_wf. }
  assert (HT : text (H0 := sink) st0 []).
  { exists []. rewrite HP. split; [|reflexivity]. split.
    - split; [cbn; rewrite Nat.min_0_r; f_equal; lia|]. cbn. now rewrite Nat.min_0_r, firstn_nil.
    - cbn. apply mset_eq. }
  destruct (vfprintf_ok (H0 := sink) fmt_fp strerror_msg utf8 m fuel loc internal_buf st0 [] fm ap r d sts)
    as (ret & s' & n' & HV & Hm & _ & Hz & Hres); try assumption.
  - split; [assumption|]. split; [lia|]. intros x Hx. cbn. unfold sn_owns. lia.
  - intros x Hx. split; [cbn; unfold sn_owns; lia|]. unfold in_buffer.
    change (buf (sf (prepare internal_buf st0))) with internal_buf.
    change (buf_size (sf (prepare internal_buf st0))) with 80. lia.
  - rewrite HV. cbn [bind]. destruct Hres as [(-> & HO' & (r0 & [[HE HB] H0] & Hr0) & HFl & He & ->)|(_ & _ & HNR)].
    2: { exfalso. apply HNR. split; [reflexivity|]. intros s1 b k j s2 [= _ <-]. reflexivity. }
    assert (HP' : pending s' = []).
    { apply pending_nil. destruct HO' as (? & ? & _ & _ & _ & _ & HM & _).
      cbn in Hz. destruct HM as [(? & ? & ?)|(? & ? & ?)]; lia. }
    rewrite HP', app_nil_r in Hr0. cbn [app] in Hr0. subst r0.
    exists (sm s'). split; [now rewrite He|]. split; [apply HO'|]. rewrite HE in H0. cbn in H0.
    split; [exact HB|]. split; [exact H0|]. intros x Hx1 Hx2 Hx3. rewrite Hm; [|exact Hx2|exact Hx3|exact Hx1].
    cbn. apply mset_ne. unfold D. lia.
Qed.

(** *** Reading a number back *)

Lemma span_all p (l : list Z) : Forall (fun b => p b = true) l -> Strings.span p l = length l.
Proof. induction 1 as [|b l Hb _ IH]; [reflexivity|]. cbn [Strings.span length]. now rewrite Hb, IH. Qed.

Lemma digit_val_digit d : 0 <= d < 10 -> digit_val (48 + d) = d.
Proof. intros Hd. unfold digit_val. repeat (case_if || idtac); lia. Qed.

Lemma subject_digits ds neg :
  Forall (fun d => 0 <= d < 10) ds -> ds <> [] ->
  let l := (if neg : bool then [45] else []) ++ map (Z.add 48) ds in
  subject 10 l = Some (neg, horner 10 ds 0, length l).
Proof.
  intros Hds Hne. cbv zeta.
  assert (Hsp : Strings.span (fun c => digit_val c <? 10) (map (Z.add 48) ds) = length ds).
  { rewrite span_all, length_map; [reflexivity|]. apply Forall_map.
    refine (Forall_impl _ _ Hds). cbn. intros d Hd. rewrite digit_val_digit; lia. }
  assert (Hv : map digit_val (map (Z.add 48) ds) = ds).
  { rewrite map_map. rewrite <- (map_id ds) at 2. apply map_ext_in. intros d Hd.
    apply digit_val_digit. now apply (proj1 (Forall_forall _ _) Hds). }
  assert (Hh : forall l, hex_prefix 10 l = false).
  { intros l. unfold hex_prefix. now destruct l as [|? [|? [|? ?]]]. }
  destruct ds as [|d ds]; [easy|]. assert (Hd := Forall_inv Hds). cbn beta in Hd.
  unfold subject.
  assert (Hw : Strings.span isspace ((if neg then [45] else []) ++ map (Z.add 48) (d :: ds)) = 0%nat).
  { destruct neg; [reflexivity|]. cbn [app map Strings.span].
    replace (isspace (48 + d)) with false; [reflexivity|]. unfold isspace, u32. zlia. }
  rewrite Hw. cbn [skipn]. set (cs := map (Z.add 48) (d :: ds)) in *.
  assert (Hn : length cs = length (d :: ds)) by apply length_map.
  assert (Hsg : match (if neg then [45] else []) ++ cs with
    | [] => (false, 0%nat)
    | c :: _ => if c =? 45 then (true, 1%nat) else if c =? 43 then (false, 1%nat) else (false, 0%nat)
    end = (neg, if neg then 1%nat else 0%nat)).
  { destruct neg; [reflexivity|]. cbn. replace (48 + d =? 45) with false by lia.
    now replace (48 + d =? 43) with false by lia. }
  rewrite Hsg. assert (Hsk : skipn (if neg then 1%nat else 0%nat) ((if neg then [45] else []) ++ cs) = cs)
    by now destruct neg.
  rewrite Hsk, Hh. cbn [skipn]. replace (radix 10 cs) with 10 by (unfold radix; now rewrite Hh).
  rewrite Hsp, <- Hn, firstn_all, Hv. replace (length cs =? 0)%nat with false by (rewrite Hn; reflexivity).
  do 2 f_equal. rewrite length_app. destruct neg; reflexivity.
Qed.

Lemma subject_decimal z :
  - 2 ^ 63 <= z < 2 ^ 63 -> subject 10 (decimal z) = Some (z <? 0, Z.abs z, length (decimal z)).
Proof.
  intros Hz. unfold decimal. set (ds := if z =? 0 then [0] else digits 10 BUF (Z.abs z)).
  replace (if z =? 0 then [48] else map (Z.add 48) (digits 10 BUF (Z.abs z))) with (map (Z.add 48) ds)
    by (unfold ds; now destruct (z =? 0)).
  rewrite subject_digits.
  - do 3 f_equal. unfold ds. destruct (Z.eqb_spec z 0) as [->|]; [reflexivity|]. apply digits_value; [lia|].
    change (10 ^ Z.of_nat BUF) with 1000000000000000000000000. lia.
  - unfold ds. destruct (z =? 0); [repeat constructor; lia|apply digits_range; lia].
  - unfold ds. destruct (Z.eqb_spec z 0); [discriminate|]. apply digits_nonempty; lia.
Qed.

Lemma cstr_of_bytes (m' : mem) s (l : list Z) :
  bytes_at m' s (length l) = l -> m' (s + Z.of_nat (length l)) = 0 ->
  Forall (fun b => 0 < b < 256) l -> cstr m' s l.
Proof.
  revert s; induction l as [|b l IH]; intros s Hb H0 Hl; cbn in *; [now rewrite Z.add_0_r in H0|].
  injection Hb as Hb Hb'. split; [assumption|]. split; [now apply Forall_inv in Hl|].
  apply IH; [assumption| |now apply Forall_inv_tail in Hl]. rewrite <- H0. f_equal. lia.
Qed.


(** C32. Numbers survive printing and reading: vsnprintf with "%ld" into a string
    of more than 20 bytes prints any 64-bit integer in full, and strtol in base 10
    reads the same integer back, stops at the end of the text and leaves errno
    alone. *)
Theorem printf_strtol uflow s n fm z errno e :
  wf_mem m -> 20 < n -> 0 <= s -> apart s n -> cstr m fm [37; 108; 100] -> (20 < fuel)%nat ->
  - 2 ^ 63 <= z < 2 ^ 63 ->
  exists k m',
    vsnprintf fmt_fp strerror_msg utf8 fuel loc internal_buf fbuf dummy m s n fm [VI z] errno
    = Some (k, m', errno, []) /\
    strtol uflow fuel m' s 10 e = Some (z, s + k, e).
Proof.
  intros Hwf Hn Hs Ha Hc Hf Hz.
  pose proof (print_long fmt_fp strerror_msg utf8 m fuel fm z Hc ltac:(lia) Hz) as HF.
  destruct (vsnprintf_ok s n fm [VI z] errno _ _ _ Hwf ltac:(lia) Ha HF) as (m' & HV & Hwf' & HB & H0 & _).
  destruct (decimal_chars z Hz) as [HC HL].
  assert (Hr : (length (decimal z) <= room_of n)%nat).
  { unfold room_of. replace (n =? 0) with false by lia. lia. }
  destruct Ha as (_ & _ & _ & Hloc & Hend & _). unfold target in *. replace (n =? 0) with false in * by lia.
  rewrite Nat.min_r in HB, H0 by assumption. rewrite firstn_all2 in HB by assumption.
  exists (Z.of_nat (length (decimal z))), m'. split; [exact HV|].
  assert (Hst : cstr m' s (decimal z)) by now apply cstr_of_bytes.
  rewrite (strtol_value uflow m' s (decimal z) fuel Hwf' Hst); try (unfold SIZE_MAX; lia).
  rewrite subject_decimal by assumption. cbv zeta.
  replace (if z <? 0 then - Z.abs z else Z.abs z) with z by (destruct (Z.ltb_spec z 0); lia).
  unfold LLONG_MIN, LLONG_MAX.
  replace ((_ <=? z) && (z <=? _)) with true by lia. do 3 f_equal. lia.
Qed.
End SnPrintf.

(** ** Witnesses and examples *)

(** No floating-point conversions. *)
Definition no_fp : unit -> Z -> Z -> Z -> Z -> Z -> Z * list (list Z) := fun _ _ _ _ _ _ => (-1, []).

(** "%ld" at 1000. *)
Definition ld_mem : mem := upd_list (fun _ => 0) 1000 [37; 108; 100].

Lemma ld_wf : wf_mem ld_mem.
Proof. apply upd_list_wf; [intros ?; lia|repeat constructor; lia]. Qed.

Lemma ld_cstr : cstr ld_mem 1000 [37; 108; 100].
Proof. cbn. repeat split; lia. Qed.

Lemma ld_apart : apart 5000 4000 4900 6000 2000 21.
Proof.
  unfold apart, target, room_of. change (21 =? 0) with false. cbv iota.
  change (Z.of_nat (Z.to_nat (21 - 1))) with 20. lia.
Qed.

Lemma no_fp_counts : fp_counts no_fp.
Proof. intros x w p fl t ps. cbn. lia. Qed.



Lemma printf_strtol_witness :
  exists k m',
    vsnprintf no_fp 0 true 100 5000 4000 4900 6000 ld_mem 2000 21 1000 [VI (-9223372036854775808)] 7
    = Some (k, m', 7, []) /\
    strtol (fun t => (EOF, t)) 100 m' 2000 10 9 = Some (-9223372036854775808, 2000 + k, 9).
Proof.
  apply (printf_strtol no_fp 0 true ld_mem 100 5000 4000 4900 6000 (fun t => (EOF, t)) 2000 21 1000
           (-9223372036854775808) 7 9).
  - exact ld_wf.
  - lia.
  - lia.
  - exact ld_apart.
  - exact ld_cstr.
  - lia.
  - lia.
Defined.

Definition demo_print (fmt : list Z) (ap : list (@vararg unit)) : option (Z * list Z * Z) :=
  let m := upd_list (upd_list (fun _ => 0) 1000 fmt) 3000 [104; 105] in
  match vsnprintf no_fp 0 true 100 5000 6000 7000 7100 m 2000 100 1000 ap 0 with
  | Some (r, m, e, _) => Some (r, bytes_at m 2000 (Z.to_nat r + 1), e)
  | None => None
  end.

(** "%5d|%-4x|%.9s|%c%%", "%2$o %1$+d", "%#08X", "%p" of 4660 and "%y". *)
Example printf_run :
  demo_print [37; 53; 100; 124; 37; 45; 52; 120; 124; 37; 46; 57; 115; 124; 37; 99; 37; 37]
             [VI (-42); VI 255; VI 3000; VI 65]
  = Some (16, [32; 32; 45; 52; 50; 124; 102; 102; 32; 32; 124; 104; 105; 124; 65; 37; 0], 0) /\
  demo_print [37; 50; 36; 111; 32; 37; 49; 36; 43; 100] [VI 7; VI 9]
  = Some (5, [49; 49; 32; 43; 55; 0], 0) /\
  demo_print [37; 35; 48; 56; 88] [VI 255]
  = Some (8, [48; 88; 48; 48; 48; 48; 70; 70; 0], 0) /\
  demo_print [37; 112] [VI 4660] = Some (6, [48; 120; 49; 50; 51; 52; 0], 0) /\
  demo_print [37; 121] [VI 4660] = Some (-1, [0], EINVAL).
Proof. vm_compute. auto. Qed.
