(* ===== verification/Ntop.v ===== *)
(** * Ntop: printing addresses

    Models src/network/inet_ntop.c and inet_ntoa.c on the vsnprintf of Printf and
    the string functions of Strings.  The addresses of the string literals and of
    local variables are arguments.

    inet_pton (Inet) reads back what inet_ntop prints: the dotted decimal form of
    every IPv4 address, and for every IPv6 address the form with its longest run
    of zero groups shortened, or with the last 32 bits dotted. *)

From Stdlib Require Import ZArith Lia ZifyBool List Bool.
From S2P Require Import Prelude MemCopy Strings Ctype Utf8 IntScan Inet Stdio Printf Format Directive Groups Print.
Import ListNotations.
Open Scope Z_scope.

Definition EAFNOSUPPORT : Z := 97.
Definition ENOSPC : Z := 28.

(** ** The code *)

(** Where the string literals lie. *)
Record literals := mklits { lit_v4 : Z; lit_v6 : Z; lit_v6v4 : Z; lit_mapped : Z; lit_zeros : Z }.

Section Ntop.
Context {F : Type}.
Variable fmt_fp : F -> Z -> Z -> Z -> Z -> Z -> Z * list (list Z).
Variables (strerror_msg : Z) (utf8 : bool) (fuel : nat).
(** The stack of vsnprintf and vfprintf, and buf[100]. *)
Variables (loc internal_buf fbuf dummy buf : Z).
Variable lits : literals.

Notation snprintf m s n fm ap e :=
  (vsnprintf fmt_fp strerror_msg utf8 fuel loc internal_buf fbuf dummy m s n fm ap e).

(** The loop over buf: i, best and max. *)
Definition scan_round (m : mem) (t : Z * Z * Z) : (Z * Z * Z) + option (Z * Z * Z) :=
  let '(i, best, max) := t in
  if m (buf + i) =? 0 then inr (Some t)
  else if negb (i =? 0) && negb (m (buf + i) =? 58) then inl (i + 1, best, max)
  else
    match strspn fuel m (buf + i) (lit_zeros lits) with
    | None => inr None
    | Some j => if max + b2z (best =? 0) <? j then inl (i + 1, i, j) else inl (i + 1, best, max)
    end.

(** The longest run is replaced by "::". *)
Definition shorten (m : mem) : option mem :=
  let? r := loop (scan_round m) fuel (0, 0, 2) in
  let? (i, best, max) := r in
  Some (if 3 <? max then
          let m := m<{buf + best + 1 := 58}> in
          let m := m<{buf + best := 58}> in
          mcopy m (buf + best + 2) (buf + best + max) (i - best - max + 1)
        else m).

Definition inet_ntop (m : mem) (af a s l errno : Z) : option (Z * mem * Z) :=
  let b k : @vararg F := VI (m (a + k)) in
  let g k : @vararg F := VI (256 * m (a + k) + m (a + k + 1)) in
  if af =? AF_INET then
    let? (r, m, errno, _) := snprintf m s l (lit_v4 lits) [b 0; b 1; b 2; b 3] errno in
    if u32 r <? l then Some (s, m, errno) else Some (0, m, ENOSPC)
  else if af =? AF_INET6 then
    let? (_, m, errno, _) :=
      (if negb (memcmp m a (lit_mapped lits) 12 =? 0)
       then snprintf m buf 100 (lit_v6 lits) [g 0; g 2; g 4; g 6; g 8; g 10; g 12; g 14] errno
       else snprintf m buf 100 (lit_v6v4 lits)
                     [g 0; g 2; g 4; g 6; g 8; g 10; b 12; b 13; b 14; b 15] errno) in
    let? m := shorten m in
    let? n := strlen fuel m buf in
    if n <? l then let? (m, _) := strcpy fuel m s buf in Some (s, m, errno)
    else Some (0, m, ENOSPC)
  else Some (0, m, EAFNOSUPPORT).

(** The static buffer of inet_ntoa is the argument [sbuf]. *)
Definition inet_ntoa (m : mem) (a sbuf errno : Z) : option (Z * mem * Z) :=
  let b k : @vararg F := VI (m (a + k)) in
  let? (_, m, errno, _) := snprintf m sbuf 16 (lit_v4 lits) [b 0; b 1; b 2; b 3] errno in
  Some (sbuf, m, errno).
End Ntop.

(** "%d.%d.%d.%d", "%x:%x:%x:%x:%x:%x:%x:%x" and "%x:%x:%x:%x:%x:%x:%d.%d.%d.%d" *)
Definition fmt_v4 : list Z := [37; 100; 46; 37; 100; 46; 37; 100; 46; 37; 100].
Definition fmt_v6 : list Z :=
  [37; 120; 58; 37; 120; 58; 37; 120; 58; 37; 120; 58; 37; 120; 58; 37; 120; 58; 37; 120; 58; 37; 120].
Definition fmt_v6v4 : list Z :=
  [37; 120; 58; 37; 120; 58; 37; 120; 58; 37; 120; 58; 37; 120; 58; 37; 120; 58] ++ fmt_v4.

Definition mapped : list Z := [0; 0; 0; 0; 0; 0; 0; 0; 0; 0; 255; 255].

(** The literals in memory. *)
Definition has_literals (m : mem) (lits : literals) : Prop :=
  cstr m (lit_v4 lits) fmt_v4 /\ cstr m (lit_v6 lits) fmt_v6 /\ cstr m (lit_v6v4 lits) fmt_v6v4 /\
  bytes_at m (lit_mapped lits) 12 = mapped /\ cstr m (lit_zeros lits) [58; 48].

(** ** The text before shortening *)

(** A format of %d and %x with one character between them: the conversion, the
    argument and the separator of each. *)
Definition item : Type := Z * Z * list Z.
Definition item_fmt (it : item) : list Z := let '(c, _, sep) := it in 37 :: c :: sep.
Definition item_text (it : item) : list Z :=
  let '(c, v, sep) := it in (if c =? 100 then decimal v else hexadecimal v) ++ sep.

Definition item_ok (it : item) (rest : list item) : Prop :=
  let '(c, v, sep) := it in
  (c = 100 /\ - 2 ^ 31 <= v < 2 ^ 31 \/ c = 120 /\ 0 <= v < 2 ^ 32) /\
  match rest with [] => sep = [] | _ => exists b, sep = [b] /\ 0 < b < 256 /\ b <> 37 end.

Fixpoint items_ok (its : list item) : Prop :=
  match its with [] => False | [it] => item_ok it [] | it :: rest => item_ok it rest /\ items_ok rest end.

Section Items.
Context {F : Type}.
Variable fmt_fp : F -> Z -> Z -> Z -> Z -> Z -> Z * list (list Z).
Variables (strerror_msg : Z) (utf8 : bool) (m : mem) (fuel : nat).
Hypothesis Hfuel : (1 < fuel)%nat.

Notation run' := (run (F:=F) fmt_fp strerror_msg utf8 m fuel).
Notation arg_of := (fun it : item => let '(_, v, _) := it in VI (F:=F) v).

Lemma item_prints s c v sep rest :
  item_ok (c, v, sep) rest -> m s = 37 -> m (s + 1) = c ->
  dir_prints (F:=F) fmt_fp strerror_msg utf8 m fuel s (s + 2) (VI v)
    (if c =? 100 then decimal v else hexadecimal v).
Proof.
  intros [[[-> Hv]|[-> Hv]] _] H0 H1; [now apply dir_d|now apply dir_x].
Qed.

Lemma items_run its s :
  items_ok its -> cstr m s (flat_map item_fmt its) ->
  run' (2 * length its) s (map arg_of its) (flat_map item_text its).
Proof.
  revert s; induction its as [|[[c v] sep] rest IH]; intros s Hok Hs; [easy|].
  assert (Hit : item_ok (c, v, sep) rest) by (destruct rest; [exact Hok|apply Hok]).
  cbn [flat_map item_fmt app] in Hs. cbn [cstr] in Hs. destruct Hs as (H0 & _ & H1 & _ & Hs).
  replace (s + 1 + 1) with (s + 2) in Hs by lia.
  pose proof (item_prints s c v sep rest Hit H0 H1) as HP.
  cbn [map flat_map item_text]. rewrite <- app_assoc.
  destruct rest as [|it2 rest].
  - cbn [flat_map]. destruct Hit as [_ ->]. cbn [app cstr] in *. rewrite app_nil_r in *.
    change (2 * length [(c, v, @nil Z)])%nat with 2%nat.
    rewrite <- (app_nil_r (if c =? 100 then _ else _)). apply run_dir with (s' := s + 2); [assumption|now apply run_end].
  - destruct Hok as [_ Hok]. destruct Hit as (_ & b & -> & Hb & Hb37). cbn [app cstr] in Hs.
    destruct Hs as (H2 & _ & Hs). replace (s + 2 + 1) with (s + 3) in Hs by lia.
    specialize (IH (s + 3) Hok Hs). destruct it2 as [[c2 v2] sep2].
    assert (Hc2 : m (s + 3) = 37 /\ m (s + 4) <> 37).
    { cbn [flat_map item_fmt app cstr] in Hs. destruct Hs as (-> & _ & H4 & _). split; [reflexivity|].
      replace (s + 4) with (s + 3 + 1) by lia. rewrite H4.
      assert (Hi2 : item_ok (c2, v2, sep2) rest) by (destruct rest; [exact Hok|apply Hok]). destruct Hi2 as [Hi2 _]. lia. }
    match goal with |- run _ _ _ _ _ ?k _ _ _ =>
      replace k with (S (S (2 * length (A:=item) ((c2, v2, sep2) :: rest)))) by (cbn [length]; lia) end.
    apply run_dir with (s' := s + 2); [assumption|].
    apply run_text with (s := s + 2) (l := [b]); change (Z.of_nat (length [b])) with 1;
      replace (s + 2 + 1) with (s + 3) by lia; replace (s + 3 + 1) with (s + 4) by lia;
      try tauto; try discriminate.
    + constructor; [lia|constructor].
    + cbn. now rewrite H2.
Qed.

Lemma items_format its s :
  items_ok its -> cstr m s (flat_map item_fmt its) -> (2 * length its <= fuel)%nat ->
  Z.of_nat (length (flat_map item_text its)) <= INT_MAX ->
  format fmt_fp strerror_msg utf8 m fuel s (map arg_of its)
  = Some (Ret (Z.of_nat (length (flat_map item_text its))), flat_map item_text its, []).
Proof.
  intros Hok Hs Hf Hx. apply (run_format fmt_fp strerror_msg utf8 m fuel (2 * length its)); try assumption; [|lia].
  now apply items_run.
Qed.
End Items.

(** A byte in decimal, and as the digits of a group. *)
Definition hx (v : Z) : Z :=
  if v <? 10 then v else if v <? 100 then v / 10 * 16 + v mod 10
  else v / 100 * 256 + v / 10 mod 10 * 16 + v mod 10.

Lemma each_byte (P : Z -> bool) : forallb P (map Z.of_nat (seq 0 256)) = true -> forall v, byte v -> P v = true.
Proof.
  intros H v Hv. rewrite forallb_forall in H. apply H. apply in_map_iff. exists (Z.to_nat v).
  unfold byte in Hv. split; [lia|]. apply in_seq. lia.
Qed.

Lemma decimal_dec v : byte v -> decimal v = dec v /\ hexadecimal (hx v) = dec v.
Proof.
  intros Hv. pose proof (each_byte (fun v =>
    (if list_eq_dec Z.eq_dec (decimal v) (dec v) then true else false) &&
    (if list_eq_dec Z.eq_dec (hexadecimal (hx v)) (dec v) then true else false)) ltac:(vm_compute; reflexivity) v Hv) as H.
  cbv beta in H. apply andb_true_iff in H as [H1 H2].
  destruct (list_eq_dec Z.eq_dec (decimal v) (dec v)); [|discriminate].
  destruct (list_eq_dec Z.eq_dec (hexadecimal (hx v)) (dec v)); [|discriminate]. auto.
Qed.

Lemma hx_group v : byte v -> group (hx v).
Proof. unfold byte, group, hx. intros Hv. destruct (v <? 10); [zlia|]. destruct (v <? 100); zlia. Qed.

(** The arguments for an IPv4 address, eight groups, and six groups and an IPv4
    address. *)
Definition v4_items (b : list Z) : list item :=
  [(100, nth 0 b 0, [46]); (100, nth 1 b 0, [46]); (100, nth 2 b 0, [46]); (100, nth 3 b 0, [])].
Definition group_item (sep : list Z) (g : Z) : item := (120, g, sep).

Lemma v4_text b : length b = 4%nat -> Forall byte b -> flat_map item_text (v4_items b) = dots b.
Proof.
  intros Hl Hb. destruct b as [|b0 [|b1 [|b2 [|b3 [|]]]]]; try discriminate.
  repeat match goal with H : Forall _ (_ :: _) |- _ => inversion_clear H end.
  cbn [flat_map v4_items nth item_text dots Z.eqb Pos.eqb].
  rewrite (proj1 (decimal_dec b0 ltac:(assumption))), (proj1 (decimal_dec b1 ltac:(assumption))),
    (proj1 (decimal_dec b2 ltac:(assumption))), (proj1 (decimal_dec b3 ltac:(assumption))).
  now rewrite !app_nil_r, <- !app_assoc.
Qed.

Lemma group_text gs : flat_map item_text (map (group_item [58]) gs) = colons gs.
Proof.
  unfold colons. induction gs as [|g gs IH]; [reflexivity|]. cbn [map flat_map]. now rewrite IH.
Qed.

Lemma group_fmt gs : flat_map item_fmt (map (group_item [58]) gs) = flat_map (fun _ => [37; 120; 58]) gs.
Proof. induction gs as [|g gs IH]; [reflexivity|]. cbn [map flat_map]. now rewrite IH. Qed.

Lemma items_ok_groups gs rest : Forall group gs -> items_ok rest -> items_ok (map (group_item [58]) gs ++ rest).
Proof.
  intros Hgs Hr. induction Hgs as [|g gs Hg Hgs IH]; [exact Hr|]. cbn [map app items_ok].
  destruct (map (group_item [58]) gs ++ rest) as [|it its] eqn:E.
  - apply app_eq_nil in E as [_ ->]. contradiction.
  - split; [|exact IH]. unfold group in Hg. cbn [group_item item_ok]. split; [right; lia|]. exists 58. split; [reflexivity|lia].
Qed.

Lemma v4_items_ok b : length b = 4%nat -> Forall byte b -> items_ok (v4_items b).
Proof.
  intros Hl Hb. destruct b as [|b0 [|b1 [|b2 [|b3 [|]]]]]; try discriminate. unfold byte in Hb.
  repeat match goal with H : Forall _ (_ :: _) |- _ => inversion_clear H end.
  unfold v4_items. cbn [items_ok item_ok nth].
  repeat split; try (left; lia); exists 46; (split; [reflexivity|lia]).
Qed.

(** ** The longest run *)

(** The loop over a text, from its part [l] at [i] on, and what inet_ntop makes of
    the text. *)
Fixpoint scan_text (l : list Z) (i : nat) (best max : nat) : nat * nat :=
  match l with
  | [] => (best, max)
  | c :: l' =>
      if negb (i =? 0)%nat && negb (c =? 58) then scan_text l' (S i) best max
      else
        let j := span (inb [58; 48]) l in
        if (max + (if best =? 0 then 1 else 0) <? j)%nat then scan_text l' (S i) i j
        else scan_text l' (S i) best max
  end.
Definition short_text (T : list Z) : list Z :=
  let '(best, max) := scan_text T 0 0 2 in
  if (3 <? max)%nat then firstn best T ++ 58 :: 58 :: skipn (best + max) T else T.

(** best and max: nothing found, or a run to shorten. *)
Definition found (T : list Z) (r : nat * nat) : Prop := r = (0%nat, 2%nat) \/ candidate T (fst r) (snd r).

Lemma scan_text_found T l i best max :
  skipn i T = l -> found T (best, max) -> found T (scan_text l i best max).
Proof.
  revert i best max; induction l as [|c l IH]; intros i best max Hl Hf; cbn [scan_text]; [assumption|].
  assert (Hl' : skipn (S i) T = l) by (change (S i) with (1 + i)%nat; now rewrite <- skipn_skipn, Hl).
  destruct (negb _ && negb (c =? 58)) eqn:E; [now apply IH|].
  set (j := span (inb [58; 48]) (c :: l)). cbv zeta.
  destruct (Nat.ltb_spec (max + (if best =? 0 then 1 else 0)) j)%nat as [Hlt|_]; [|now apply IH].
  apply IH; [assumption|]. right. cbn [fst snd]. split; [|split; [now rewrite Hl|]].
  - destruct (Nat.eqb_spec i 0); [now left|]. right. cbn [negb andb] in E.
    replace (nth i T 0) with (hd 0 (skipn i T)); [rewrite Hl; cbn; lia|]. clear. revert i; induction T; intros [|i]; cbn; auto.
  - destruct Hf as [[= -> ->]|(_ & _ & Hx)]; cbn [fst snd] in *; [rewrite Nat.eqb_refl in Hlt|]; lia.
Qed.

Lemma short_text_ok T :
  short_text T = T \/ exists best max, candidate T best max /\
    short_text T = firstn best T ++ 58 :: 58 :: skipn (best + max) T.
Proof.
  unfold short_text. pose proof (scan_text_found T T 0 0 2 eq_refl (or_introl eq_refl)) as Hf.
  destruct (scan_text T 0 0 2) as [best max]. destruct Hf as [[= -> ->]|HC]; [now left|].
  right. exists best, max. split; [assumption|]. destruct HC as (_ & _ & Hx). cbn [fst snd] in Hx. now replace (3 <? max)%nat with true by lia.
Qed.

Lemma short_text_length T : (length (short_text T) <= length T)%nat.
Proof.
  destruct (short_text_ok T) as [->|(b & x & (_ & Ex & Hx) & ->)]; [lia|].
  pose proof (span_le (inb [58; 48]) (skipn b T)) as HL. rewrite length_skipn in HL.
  rewrite length_app, length_firstn. cbn [length]. rewrite length_skipn. lia.
Qed.

(** A string is where its bytes have been moved. *)
Lemma cstr_moved m m' s d l :
  cstr m s l -> (forall i, 0 <= i <= Z.of_nat (length l) -> m' (d + i) = m (s + i)) -> cstr m' d l.
Proof.
  revert s d; induction l as [|b l IH]; intros s d Hs H; cbn [cstr length] in *.
  - rewrite <- (Z.add_0_r d), H by lia. now rewrite Z.add_0_r.
  - destruct Hs as (Hb & Hr & Hs). split; [rewrite <- (Z.add_0_r d), H by lia; now rewrite Z.add_0_r|].
    split; [assumption|]. apply (IH (s + 1)); [assumption|]. intros i Hi. rewrite <- !Z.add_assoc. apply H. lia.
Qed.

Section Shorten.
Variables (m : mem) (fuel : nat) (buf : Z) (lits : literals) (T : list Z).
Hypothesis Hwf : wf_mem m.
Hypothesis HT : cstr m buf T.
Hypothesis Hz : cstr m (lit_zeros lits) [58; 48].
Hypothesis Hfuel : (length T + 2 < fuel)%nat.

Lemma scan_loop l : forall i best max k,
  cstr m (buf + Z.of_nat i) l -> (length l < k)%nat -> (length l < fuel)%nat ->
  loop (scan_round fuel buf lits m) k (Z.of_nat i, Z.of_nat best, Z.of_nat max)
  = Some (let '(best, max) := scan_text l i best max in
          Some (Z.of_nat (i + length l), Z.of_nat best, Z.of_nat max)).
Proof.
  induction l as [|c l IH]; intros i best max k Hs Hk Hf; (destruct k as [|k]; [lia|]).
  - cbn [scan_text length]. rewrite Nat.add_0_r. apply loop_inr. unfold scan_round. cbn in Hs. now rewrite Hs.
  - assert (HR : scan_round fuel buf lits m (Z.of_nat i, Z.of_nat best, Z.of_nat max) =
      inl (if negb (i =? 0)%nat && negb (c =? 58) then (Z.of_nat (S i), Z.of_nat best, Z.of_nat max)
           else let j := span (inb [58; 48]) (c :: l) in
             if (max + (if best =? 0 then 1 else 0) <? j)%nat then (Z.of_nat (S i), Z.of_nat i, Z.of_nat j)
             else (Z.of_nat (S i), Z.of_nat best, Z.of_nat max))).
    { pose proof Hs as (Hc & Hr & _). unfold scan_round. rewrite Hc. replace (c =? 0) with false by lia.
      replace (Z.of_nat i =? 0) with (i =? 0)%nat by lia. replace (Z.of_nat i + 1) with (Z.of_nat (S i)) by lia.
      destruct (negb _ && negb (c =? 58)); [reflexivity|].
      rewrite (strspn_cstr m _ _ (lit_zeros lits) [58; 48] fuel Hs Hz); [|assumption|cbn; lia].
      cbv zeta. set (j := span _ _). replace (Z.of_nat best =? 0) with (best =? 0)%nat by lia.
      replace (Z.of_nat max + b2z (best =? 0)%nat <? Z.of_nat j) with (max + (if best =? 0 then 1 else 0) <? j)%nat
        by (destruct (best =? 0)%nat; cbn [b2z]; lia).
      now destruct (_ <? j)%nat. }
    rewrite (loop_inl _ _ _ _ HR). cbn [scan_text]. cbn [length] in *. destruct Hs as (_ & _ & Hs).
    replace (buf + Z.of_nat i + 1) with (buf + Z.of_nat (S i)) in Hs by lia.
    replace (i + S (length l))%nat with (S i + length l)%nat by lia.
    cbv zeta. destruct (negb _ && negb (c =? 58)); [apply IH; (assumption || lia)|].
    destruct (_ <? _)%nat; apply IH; assumption || lia.
Qed.

Lemma shorten_ok :
  let x := short_text T in
  exists m', shorten fuel buf lits m = Some m' /\ cstr m' buf x /\ (length x <= length T)%nat /\
    wf_mem m' /\ forall y, ~ buf <= y <= buf + Z.of_nat (length T) -> m' y = m y.
Proof.
  unfold shorten, short_text. pose proof (scan_text_found T T 0 0 2 eq_refl (or_introl eq_refl)) as Hf.
  pose proof (scan_loop T 0 0 2 fuel) as HL. cbn [Nat.add] in HL. change (Z.of_nat 0) with 0 in HL.
  change (Z.of_nat 2) with 2 in HL. rewrite HL by (rewrite ?Z.add_0_r; assumption || lia). clear HL.
  destruct (scan_text T 0 0 2) as [b x]. cbn [bind]. cbv zeta. destruct Hf as [[= -> ->]|(Hb & Ex & Hx)].
  { exists m. change (3 <? Z.of_nat 2) with false. change (3 <? 2)%nat with false. auto. }
  cbn [fst snd] in *. replace (3 <? Z.of_nat x) with true by lia. replace (3 <? x)%nat with true by lia.
  assert (Hbx : (b + x <= length T)%nat).
  { pose proof (span_le (inb [58; 48]) (skipn b T)) as HL. rewrite length_skipn in HL. lia. }
  set (k := (length T - b - x)%nat). set (m1 := m<{buf + Z.of_nat b + 1 := 58}><{buf + Z.of_nat b := 58}>).
  assert (Hm1 : forall y, y <> buf + Z.of_nat b -> y <> buf + Z.of_nat b + 1 -> m1 y = m y)
    by (intros y H1 H2; unfold m1; now rewrite !mset_ne by lia).
  replace (Z.of_nat (length T) - Z.of_nat b - Z.of_nat x + 1) with (Z.of_nat k + 1) by lia.
  set (m2 := mcopy m1 _ _ _). exists m2. split; [reflexivity|].
  assert (Hlow : forall y, y < buf + Z.of_nat b + 2 -> m2 y = m1 y) by (intros y Hy; apply mcopy_out; lia).
  split; [|split; [|split]].
  - pose proof (cstr_bytes _ _ _ HT) as HB.
    assert (Hlb : length (firstn b T) = b) by (rewrite length_firstn; lia).
    apply cstr_app; [now apply firstn_bytes| |].
    + intros i Hi. rewrite Hlb in Hi. rewrite Hlow, Hm1 by lia. rewrite (cstr_nth m buf T) by (assumption || lia).
      rewrite nth_firstn. now replace (i <? b)%nat with true by lia.
    + rewrite Hlb. cbn [cstr]. rewrite !Hlow by lia. unfold m1 at 1. rewrite mset_eq. split; [reflexivity|]. split; [lia|].
      unfold m1 at 1. rewrite mset_ne, mset_eq by lia. split; [reflexivity|]. split; [lia|].
      replace (buf + Z.of_nat b + 1 + 1) with (buf + Z.of_nat b + 2) by lia.
      apply (cstr_moved m1 m2 (buf + Z.of_nat (b + x))).
      * apply (cstr_ext m); [|apply cstr_skip; [assumption|lia]]. intros y Hy. apply Hm1; lia.
      * intros i Hi. rewrite length_skipn in Hi. unfold m2, mcopy, within. replace ((_ <=? _) && _) with true by lia.
        f_equal. lia.
  - rewrite length_app, length_firstn. cbn [length]. rewrite length_skipn. lia.
  - apply mcopy_wf. unfold m1. apply mset_wf; [apply mset_wf; [assumption|lia]|lia].
  - intros y Hy. unfold m2. rewrite mcopy_out by lia. apply Hm1; lia.
Qed.
End Shorten.

(** ** The text of an address *)

Definition group_at (a : list Z) (i : nat) : Z := 256 * nth (2 * i) a 0 + nth (2 * i + 1) a 0.
Definition is_mapped (a : list Z) : bool := if list_eq_dec Z.eq_dec (firstn 12 a) mapped then true else false.

(** The text of the four bytes of an IPv4 address or the sixteen of an IPv6 address,
    before and after shortening. *)
Definition long_text (a : list Z) : list Z :=
  if is_mapped a then colons (map (group_at a) (seq 0 6)) ++ dots (skipn 12 a)
  else joined (map (group_at a) (seq 0 8)).
Definition ntop_text (a : list Z) : list Z :=
  if (length a =? 4)%nat then dots a else short_text (long_text a).

Lemma group_at_ok a i : Forall byte a -> group (group_at a i).
Proof.
  intros Ha. unfold group_at, group.
  assert (H : forall j, 0 <= nth j a 0 <= 255).
  { intros j. destruct (Nat.lt_ge_cases j (length a)) as [Hj|Hj].
    - rewrite Forall_forall in Ha. apply (Ha (nth j a 0)), nth_In, Hj.
    - rewrite nth_overflow by assumption. lia. }
  pose proof (H (2 * i)%nat). pose proof (H (2 * i + 1)%nat). lia.
Qed.

Lemma groups_ok a n k : Forall byte a -> Forall group (map (group_at a) (seq n k)).
Proof. intros Ha. apply Forall_map, Forall_forall. intros i _. now apply group_at_ok. Qed.

Lemma group_bytes_at a n : Forall byte a -> length a = (2 * n)%nat -> group_bytes (map (group_at a) (seq 0 n)) = a.
Proof.
  intros Ha. revert a Ha; induction n as [|n IH]; intros a Ha Hl.
  - now destruct a.
  - destruct a as [|x [|y a]]; cbn [length] in Hl; try lia.
    inversion_clear Ha as [|? ? Hx Ha1]. inversion_clear Ha1 as [|? ? Hy Ha2].
    cbn [seq map]. change (group_bytes (?g :: ?l)) with ([u8 (Z.shiftr g 8); u8 g] ++ group_bytes l).
    rewrite <- seq_shift, map_map, (map_ext _ (group_at a)).
    2: { intros i. unfold group_at. replace (2 * S i)%nat with (S (S (2 * i))) by lia. reflexivity. }
    rewrite IH by (assumption || lia). unfold group_at, u8, byte in *. cbn [nth Nat.mul Nat.add app].
    rewrite Z.shiftr_div_pow2 by lia. change (2 ^ 8) with 256.
    replace ((256 * x + y) / 256) with x by zlia. rewrite (Z.mod_small x) by lia.
    replace ((256 * x + y) mod 256) with y by zlia. reflexivity.
Qed.

(** inet_pton reads the text back. *)
Lemma pton_text ip m p a :
  length ip = 8%nat -> Forall byte a -> length a = 4%nat \/ length a = 16%nat -> cstr m p (ntop_text a) ->
  inet_pton ip m (if (length a =? 4)%nat then AF_INET else AF_INET6) p = (1, a).
Proof.
  intros Hip Ha [Hl|Hl] Hs; unfold ntop_text in Hs; rewrite Hl in *; cbn [Nat.eqb] in *.
  { unfold inet_pton. rewrite Z.eqb_refl. now apply pton4_dots. }
  change (inet_pton ip m AF_INET6 p) with (pton6 ip m p). unfold long_text, is_mapped in Hs.
  destruct (list_eq_dec Z.eq_dec (firstn 12 a) mapped) as [Em|_].
  - destruct (skipn 12 a) as [|b0 bs] eqn:Es; [apply (f_equal (@length Z)) in Es; rewrite length_skipn in Es; cbn in Es; lia|].
    set (b := b0 :: bs) in *. assert (Ea : a = mapped ++ b) by (rewrite <- Em, <- Es; symmetry; apply firstn_skipn).
    assert (Hb : Forall byte b) by (rewrite Ea in Ha; apply Forall_app in Ha; apply Ha).
    assert (Hlb : length b = 4%nat) by (rewrite Ea, length_app in Hl; cbn [mapped length] in Hl; lia).
    set (t := 46 :: dots bs). set (gs := [0; 0; 0; 0; 0; 65535] ++ [hx b0]).
    assert (Hb0 : byte b0) by now apply Forall_inv in Hb.
    assert (Hd : dots b = hexadecimal (hx b0) ++ t).
    { rewrite (proj2 (decimal_dec b0 Hb0)). unfold b. rewrite dots_cons. destruct bs; [discriminate Hlb|reflexivity]. }
    assert (ET : colons (map (group_at a) (seq 0 6)) ++ dots b = joined gs ++ t).
    { unfold gs. rewrite joined_last, Hd, <- app_assoc. rewrite Ea. reflexivity. }
    rewrite ET in Hs.
    rewrite (pton6_text ip m p gs t b (short_text (joined gs ++ t))); try assumption; try discriminate.
    + f_equal. rewrite Ea. reflexivity.
    + unfold gs. apply Forall_app. split; [repeat constructor; unfold group; lia|constructor; [now apply hx_group|constructor]].
    + split; [now right|]. unfold t. intros [H|H]; [discriminate|].
      apply Forall_inv_tail in Hb. revert H. clear - Hb. induction Hb as [|v vs Hv Hvs IH]; [easy|].
      rewrite dots_cons, <- (proj2 (decimal_dec v Hv)). intros H. apply in_app_or in H as [H|H].
      * destruct (hexadecimal_chars (hx v) (hx_group v Hv)) as [HC _]. rewrite Forall_forall in HC. now destruct (HC _ H).
      * destruct vs; [easy|]. destruct H as [H|H]; [discriminate|now apply IH].
    + reflexivity.
    + right. split; [assumption|]. split; [assumption|]. exists [0; 0; 0; 0; 0; 65535], (hx b0). auto.
    + apply short_text_ok.
  - set (gs := map (group_at a) (seq 0 8)) in *. rewrite <- (app_nil_r (joined gs)) in Hs.
    rewrite (pton6_text ip m p gs [] [] (short_text (joined gs ++ []))); try assumption; try reflexivity; try discriminate.
    + f_equal. unfold address, with_tail. rewrite app_nil_r. now apply group_bytes_at.
    + now apply groups_ok.
    + split; [now left|easy].
    + now left.
    + easy.
    + apply short_text_ok.
Qed.

(** ** The functions *)

Section Correct.
Context {F : Type}.
Variable fmt_fp : F -> Z -> Z -> Z -> Z -> Z -> Z * list (list Z).
Variables (strerror_msg : Z) (utf8 : bool) (fuel : nat).
Variables (loc internal_buf fbuf dummy buf : Z).
Variable lits : literals.
Variable m : mem.
Hypothesis Hwf : wf_mem m.
Hypothesis Hfuel : (100 < fuel)%nat.
Hypothesis Hlits : has_literals m lits.

Notation apart := (apart loc internal_buf fbuf dummy).

(** buf and the literal of strspn: below the stack of vsnprintf and apart from
    each other. *)
Definition frame : Prop :=
  apart buf 100 /\ lit_zeros lits + 2 < loc /\
  (lit_zeros lits + 2 < buf \/ buf + 100 <= lit_zeros lits) /\
  (lit_zeros lits + 2 < internal_buf \/ internal_buf + 80 <= lit_zeros lits).

Notation snprintf s n fm ap e :=
  (vsnprintf fmt_fp strerror_msg utf8 fuel loc internal_buf fbuf dummy m s n fm ap e).
Notation arg_of := (fun it : item => let '(_, v, _) := it in VI (F:=F) v).

Lemma snprintf_items s n fm its errno :
  items_ok its -> cstr m fm (flat_map item_fmt its) -> (length its <= 10)%nat ->
  let x := flat_map item_text its in
  Forall (fun b => 0 < b < 256) x -> (length x <= 45)%nat -> 0 <= n -> apart s n ->
  exists m', snprintf s n fm (map arg_of its) errno = Some (Z.of_nat (length x), m', errno, []) /\ wf_mem m' /\
    (Z.of_nat (length x) < n -> cstr m' s x) /\
    forall y, y < loc -> ~ target dummy s n <= y <= target dummy s n + Z.of_nat (room_of n) ->
              ~ internal_buf <= y < internal_buf + 80 -> m' y = m y.
Proof.
  intros Hok Hfm Hl x Hx Hlx Hn Ha.
  pose proof (items_format fmt_fp strerror_msg utf8 m fuel ltac:(lia) its fm Hok Hfm ltac:(lia)) as HF.
  fold x in HF. specialize (HF ltac:(unfold INT_MAX; lia)).
  destruct (vsnprintf_ok fmt_fp strerror_msg utf8 m fuel loc internal_buf fbuf dummy s n fm _ errno _ _ _ Hwf Hn Ha HF)
    as (m' & HV & Hwf' & HB & H0 & Hout).
  exists m'. split; [exact HV|]. split; [assumption|]. split; [|exact Hout]. intros Hlt.
  assert (Hr : (length x <= room_of n)%nat) by (unfold room_of; replace (n =? 0) with false by lia; lia).
  unfold target in *. replace (n =? 0) with false in * by lia.
  rewrite Nat.min_r in HB, H0 by assumption. rewrite firstn_all2 in HB by assumption. now apply cstr_of_bytes.
Qed.

Lemma byte_region a n : Forall byte (bytes_at m a n).
Proof. apply bytes_at_forall. intros y. specialize (Hwf y). unfold byte. lia. Qed.

(** An address is printed as [x] in a string of any size. *)
Definition prints (af a : Z) (x : list Z) : Prop :=
  forall s l errno, 0 <= l < 2 ^ 32 -> apart s l -> s + l <= buf \/ buf + 100 <= s ->
  exists m',
    inet_ntop fmt_fp strerror_msg utf8 fuel loc internal_buf fbuf dummy buf lits m af a s l errno
    = Some (if Z.of_nat (length x) <? l then (s, m', errno) else (0, m', ENOSPC)) /\
    (Z.of_nat (length x) < l -> cstr m' s x).

Lemma dec_chars v : byte v -> Forall (fun b => 0 < b < 256) (dec v) /\ (length (dec v) <= 3)%nat.
Proof.
  intros Hv. destruct (decimal_dec v Hv) as [_ <-]. unfold byte in Hv.
  destruct (hexadecimal_chars (hx v) (hx_group v Hv)) as [HC _]. split; [refine (Forall_impl _ _ HC); cbn; lia|].
  rewrite (proj2 (decimal_dec v Hv)). unfold dec. destruct (v <? 10); [cbn; lia|]. destruct (v <? 100); cbn; lia.
Qed.

Lemma dots_chars b :
  Forall byte b -> Forall (fun b => 0 < b < 256) (dots b) /\ (length (dots b) <= 4 * length b - 1)%nat.
Proof.
  induction 1 as [|v b Hv Hb [IH1 IH2]]; [split; [constructor|cbn; lia]|].
  destruct (dec_chars v Hv) as [H1 H2]. rewrite dots_cons, Forall_app, length_app. destruct b as [|w b].
  - split; [split; [assumption|constructor]|cbn; lia].
  - split; [split; [assumption|constructor; [lia|assumption]]|cbn [length] in *; lia].
Qed.

Lemma colons_chars gs :
  Forall group gs -> Forall (fun b => 0 < b < 256) (colons gs) /\ (length (colons gs) <= 5 * length gs)%nat.
Proof.
  unfold colons. induction 1 as [|g gs Hg Hgs [IH1 IH2]]; [split; [constructor|cbn; lia]|].
  destruct (hexadecimal_chars g Hg) as [HC HL]. cbn [flat_map]. rewrite !Forall_app, !length_app. split.
  - split; [split|assumption]; [refine (Forall_impl _ _ HC); cbn; lia|repeat constructor; lia].
  - cbn [length]. lia.
Qed.

(** The four bytes printed at [s]. *)
Lemma v4_snprintf a s l errno :
  0 <= l -> apart s l ->
  let x := dots (bytes_at m a 4) in
  exists m', snprintf s l (lit_v4 lits) [VI (m (a + 0)); VI (m (a + 1)); VI (m (a + 2)); VI (m (a + 3))] errno
             = Some (Z.of_nat (length x), m', errno, []) /\
    (Z.of_nat (length x) < l -> cstr m' s x) /\ (length x <= 15)%nat.
Proof.
  intros Hl Ha x. set (b := bytes_at m a 4) in x.
  assert (Hb : Forall byte b) by now apply byte_region.
  destruct (dots_chars b Hb) as [HC HL]. change (length b) with 4%nat in HL. fold x in HC, HL.
  destruct (snprintf_items s l (lit_v4 lits) (v4_items b) errno) as (m' & HV & _ & Hc & _);
    rewrite ?v4_text by (assumption || reflexivity); try assumption; try (fold x; lia).
  { now apply v4_items_ok. }
  { apply Hlits. }
  { cbn. lia. }
  rewrite v4_text in * by (assumption || reflexivity). fold x in HV, Hc.
  exists m'. split; [|split; [exact Hc|lia]].
  assert (E : map arg_of (v4_items b) = [VI (m (a + 0)); VI (m (a + 1)); VI (m (a + 2)); VI (m (a + 3))])
    by (cbn [v4_items map b bytes_at nth]; rewrite Z.add_0_r, <- !Z.add_assoc; reflexivity).
  now rewrite E in HV.
Qed.

Lemma v4_prints a : prints AF_INET a (dots (bytes_at m a 4)).
Proof.
  intros s l errno Hl Ha Hs. destruct (v4_snprintf a s l errno ltac:(lia) Ha) as (m' & HV & Hc & HL).
  exists m'. split; [|exact Hc]. unfold inet_ntop. rewrite Z.eqb_refl, HV. cbn [bind].
  unfold u32. rewrite Z.mod_small by lia. now destruct (_ <? l).
Qed.

Lemma ntoa_prints a errno sbuf :
  apart sbuf 16 ->
  exists m', inet_ntoa fmt_fp strerror_msg utf8 fuel loc internal_buf fbuf dummy lits m a sbuf errno
             = Some (sbuf, m', errno) /\ cstr m' sbuf (ntop_text (bytes_at m a 4)).
Proof.
  intros Ha. destruct (v4_snprintf a sbuf 16 errno ltac:(lia) Ha) as (m' & HV & Hc & HL).
  exists m'. unfold inet_ntoa. rewrite HV. split; [reflexivity|]. apply Hc. lia.
Qed.

(** The arguments for an IPv6 address, and the literal. *)
Definition v6_items (b : list Z) : list item :=
  if is_mapped b then map (group_item [58]) (map (group_at b) (seq 0 6)) ++ v4_items (skipn 12 b)
  else map (group_item [58]) (map (group_at b) (seq 0 7)) ++ [group_item [] (group_at b 7)].

Lemma v6_items_text b :
  length b = 16%nat -> Forall byte b ->
  items_ok (v6_items b) /\ flat_map item_text (v6_items b) = long_text b /\
  cstr m (if is_mapped b then lit_v6v4 lits else lit_v6 lits) (flat_map item_fmt (v6_items b)) /\
  (length (v6_items b) <= 10)%nat.
Proof.
  intros Hl Hb. unfold v6_items, long_text.
  assert (H4 : length (skipn 12 b) = 4%nat) by (rewrite length_skipn; lia).
  assert (Hb4 : Forall byte (skipn 12 b)) by (rewrite <- (firstn_skipn 12 b) in Hb; apply Forall_app in Hb; apply Hb).
  destruct Hlits as (_ & H6 & H64 & _). destruct (is_mapped b).
  - split; [apply items_ok_groups; [now apply groups_ok|now apply v4_items_ok]|].
    rewrite flat_map_app, group_text, v4_text by assumption. split; [reflexivity|].
    split; [|cbn; lia]. rewrite flat_map_app, group_fmt. exact H64.
  - pose proof (group_at_ok b 7 Hb) as H7. unfold group in H7.
    split; [apply items_ok_groups; [now apply groups_ok|cbn; split; [right; lia|reflexivity]]|].
    rewrite flat_map_app, group_text. split.
    + change (seq 0 8) with (seq 0 7 ++ [7%nat]). rewrite map_app. cbn [map]. rewrite joined_last.
      cbn [flat_map group_item item_text Z.eqb Pos.eqb]. now rewrite !app_nil_r.
    + split; [|cbn; lia]. rewrite flat_map_app, group_fmt. exact H6.
Qed.

Lemma long_text_chars b :
  length b = 16%nat -> Forall byte b ->
  Forall (fun b => 0 < b < 256) (long_text b) /\ (length (long_text b) <= 45)%nat.
Proof.
  intros Hl Hb. unfold long_text.
  assert (Hb4 : Forall byte (skipn 12 b)) by (rewrite <- (firstn_skipn 12 b) in Hb; apply Forall_app in Hb; apply Hb).
  destruct (is_mapped b).
  - rewrite Forall_app, length_app. destruct (dots_chars _ Hb4) as [H1 H2]. rewrite length_skipn, Hl in H2.
    destruct (colons_chars _ (groups_ok b 0 6 Hb)) as [H3 H4]. rewrite length_map, length_seq in H4. split; [now split|lia].
  - change (seq 0 8) with (seq 0 7 ++ [7%nat]). rewrite map_app. cbn [map]. rewrite joined_last, Forall_app, length_app.
    destruct (colons_chars _ (groups_ok b 0 7 Hb)) as [H3 H4]. rewrite length_map, length_seq in H4.
    destruct (hexadecimal_chars _ (group_at_ok b 7 Hb)) as [H1 H2].
    split; [split; [assumption|refine (Forall_impl _ _ H1); cbn; lia]|lia].
Qed.

Lemma lex_eq l r : lex l r = Eq <-> l = r.
Proof.
  revert r; induction l as [|x l IH]; intros [|y r]; cbn [lex]; try easy.
  destruct (Z.compare_spec x y) as [->|H|H]; [rewrite IH; split; congruence| |]; split; try discriminate;
    intros [= ? _]; lia.
Qed.

Lemma mapped_test a : (memcmp m a (lit_mapped lits) 12 =? 0) = is_mapped (bytes_at m a 16).
Proof.
  pose proof (memcmp_lex m a (lit_mapped lits) 12 ltac:(lia)) as H. change (Z.to_nat 12) with 12%nat in H.
  destruct Hlits as (_ & _ & _ & HM & _). rewrite HM in H. unfold is_mapped.
  rewrite bytes_at_firstn by lia. destruct (list_eq_dec Z.eq_dec (bytes_at m a 12) mapped) as [E|E].
  - apply lex_eq in E. rewrite E in H. apply Z.compare_eq in H. lia.
  - destruct (Z.eqb_spec (memcmp m a (lit_mapped lits) 12) 0) as [E0|]; [|reflexivity].
    rewrite E0 in H. now destruct (proj1 (lex_eq _ _) (eq_sym H)) in E.
Qed.

Lemma v6_args a :
  map arg_of (v6_items (bytes_at m a 16)) =
  let b k : @vararg F := VI (m (a + k)) in
  let g k : @vararg F := VI (256 * m (a + k) + m (a + k + 1)) in
  if is_mapped (bytes_at m a 16) then [g 0; g 2; g 4; g 6; g 8; g 10; b 12; b 13; b 14; b 15]
  else [g 0; g 2; g 4; g 6; g 8; g 10; g 12; g 14].
Proof.
  unfold v6_items. destruct (is_mapped _); cbn [bytes_at skipn v4_items seq map app group_item group_at nth Nat.mul Nat.add];
    rewrite ?Z.add_0_r, <- ?Z.add_assoc; reflexivity.
Qed.

(** inet_ntop after its snprintf. *)
Lemma v6_finish m1 T s l (errno : Z) :
  wf_mem m1 -> cstr m1 buf T -> cstr m1 (lit_zeros lits) [58; 48] -> (length T <= 45)%nat -> l < 2 ^ 32 ->
  s + l <= buf \/ buf + 100 <= s ->
  let x := short_text T in
  exists m',
    (let? m := shorten fuel buf lits m1 in
     let? n := strlen fuel m buf in
     if n <? l then let? (m, _) := strcpy fuel m s buf in Some (s, m, errno) else Some (0, m, ENOSPC))
    = Some (if Z.of_nat (length x) <? l then (s, m', errno) else (0, m', ENOSPC)) /\
    (Z.of_nat (length x) < l -> cstr m' s x).
Proof.
  intros Hwf1 HT Hz HL Hl Hs x.
  destruct (shorten_ok m1 fuel buf lits T Hwf1 HT Hz ltac:(lia)) as (m2 & -> & Hc & HL2 & Hwf2 & _).
  cbn [bind]. fold x in Hc, HL2. rewrite (strlen_cstr m2 buf x) by (assumption || lia). cbn [bind].
  destruct (Z.ltb_spec (Z.of_nat (length x)) l) as [Hlt|Hge].
  - destruct (stpcpy_cstr fuel m2 s buf x Hwf2 Hc ltac:(lia) ltac:(lia)) as (m3 & E & _ & Hc3).
    unfold strcpy. rewrite E. cbn [bind]. exists m3. auto.
  - exists m2. split; [reflexivity|lia].
Qed.

Lemma v6_prints a : frame -> prints AF_INET6 a (short_text (long_text (bytes_at m a 16))).
Proof.
  intros (Hbuf & Hz1 & Hz2 & Hz3) s l errno Hl Ha Hs. set (b := bytes_at m a 16).
  assert (Hb : Forall byte b) by now apply byte_region.
  destruct (v6_items_text b eq_refl Hb) as (Hok & HT & Hfm & Hlen).
  destruct (long_text_chars b eq_refl Hb) as [HC HL].
  destruct (snprintf_items buf 100 _ (v6_items b) errno Hok Hfm Hlen) as (m1 & HV & Hwf1 & Hc & Hout);
    rewrite ?HT; try assumption; try lia.
  rewrite HT in *. specialize (Hc ltac:(lia)). change (target dummy buf 100) with buf in Hout.
  change (Z.of_nat (room_of 100)) with 99 in Hout.
  assert (Hz : cstr m1 (lit_zeros lits) [58; 48]).
  { apply (cstr_ext m); [|apply Hlits]. intros y Hy. cbn in Hy. apply Hout; lia. }
  pose proof (v6_args a) as HA. fold b in HA. rewrite HA in HV. cbv zeta in HV.
  pose proof (mapped_test a) as HM. fold b in HM.
  unfold inet_ntop. change (AF_INET6 =? AF_INET) with false. rewrite Z.eqb_refl, HM. cbv iota zeta.
  destruct (is_mapped b); cbn [negb]; rewrite HV; cbn [bind]; apply v6_finish; assumption || lia.
Qed.

(** C28. inet_ntop, against its text and inet_pton: on any IPv4 or IPv6 address and
    any size [l] the call ends; it gives the string at [s] when the text and its
    terminator fit, which is then the text of the address ([ntop_text]), and
    otherwise 0 with ENOSPC; any other family is EAFNOSUPPORT.  The text has at
    most 45 bytes and inet_pton reads the address back from it, wherever it is.
    The static buffer of inet_ntoa is large enough for its text. *)
Theorem inet_ntop_correct ip a s l errno :
  frame -> length ip = 8%nat -> 0 <= l < 2 ^ 32 -> apart s l -> s + l <= buf \/ buf + 100 <= s ->
  let run af := inet_ntop fmt_fp strerror_msg utf8 fuel loc internal_buf fbuf dummy buf lits m af a s l errno in
  (forall af n, af = AF_INET /\ n = 4%nat \/ af = AF_INET6 /\ n = 16%nat ->
   let x := ntop_text (bytes_at m a n) in
   (length x <= 45)%nat /\
   (forall m' p, cstr m' p x -> inet_pton ip m' af p = (1, bytes_at m a n)) /\
   exists m', run af = Some (if Z.of_nat (length x) <? l then (s, m', errno) else (0, m', ENOSPC)) /\
              (Z.of_nat (length x) < l -> cstr m' s x)) /\
  (forall af, af <> AF_INET -> af <> AF_INET6 -> run af = Some (0, m, EAFNOSUPPORT)) /\
  (forall sbuf, apart sbuf 16 ->
   exists m', inet_ntoa fmt_fp strerror_msg utf8 fuel loc internal_buf fbuf dummy lits m a sbuf errno
              = Some (sbuf, m', errno) /\ cstr m' sbuf (ntop_text (bytes_at m a 4))).
Proof.
  intros HF Hip Hl Ha Hs run. split; [|split; [|now apply ntoa_prints]].
  - intros af n Hn x. assert (Hb : Forall byte (bytes_at m a n)) by now apply byte_region.
    assert (Hlen := bytes_at_length m a n). split; [|split].
    + unfold x, ntop_text. rewrite Hlen. destruct Hn as [[_ ->]|[_ ->]]; cbn [Nat.eqb].
      * destruct (dots_chars _ Hb) as [_ HL]. lia.
      * destruct (long_text_chars _ Hlen Hb) as [_ HL]. pose proof (short_text_length (long_text (bytes_at m a 16))). lia.
    + intros m' p Hc. pose proof (pton_text ip m' p _ Hip Hb ltac:(lia) Hc) as HP. rewrite Hlen in HP.
      destruct Hn as [[-> ->]|[-> ->]]; exact HP.
    + destruct Hn as [[-> ->]|[-> ->]]; [now apply v4_prints|now apply v6_prints].
  - intros af H1 H2. unfold run, inet_ntop. replace (af =? AF_INET) with false by lia.
    now replace (af =? AF_INET6) with false by lia.
Qed.
End Correct.

(** ** Examples *)

(** The literals, and an address. *)
Definition demo_lits : literals := mklits 1000 1100 1200 1300 1400.
Definition demo_mem (a : list Z) : mem :=
  upd_list (upd_list (upd_list (upd_list (upd_list (upd_list (fun _ => 0) 1000 fmt_v4) 1100 fmt_v6) 1200 fmt_v6v4)
    1300 mapped) 1400 [58; 48]) 1500 a.

(** 2001:db8:0:0:1:0:0:1, ::ffff:1.2.3.4 and 10.2.255.0. *)
Definition ntop_demo (af : Z) (a : list Z) : option (Z * list Z) :=
  match inet_ntop no_fp 0 true 100 5000 4000 4900 4950 4500 demo_lits (demo_mem a) af 1500 2000 46 0 with
  | Some (r, m, _) => Some (r, bytes_at m 2000 24)
  | None => None
  end.
Example ntop_demo_run :
  ntop_demo AF_INET6 [32; 1; 13; 184; 0; 0; 0; 0; 0; 1; 0; 0; 0; 0; 0; 1]
  = Some (2000, [50; 48; 48; 49; 58; 100; 98; 56; 58; 58; 49; 58; 48; 58; 48; 58; 49; 0; 0; 0; 0; 0; 0; 0]) /\
  ntop_demo AF_INET6 (mapped ++ [1; 2; 3; 4])
  = Some (2000, [58; 58; 102; 102; 102; 102; 58; 49; 46; 50; 46; 51; 46; 52; 0; 0; 0; 0; 0; 0; 0; 0; 0; 0]) /\
  ntop_demo AF_INET [10; 2; 255; 0]
  = Some (2000, [49; 48; 46; 50; 46; 50; 53; 53; 46; 48; 0; 0; 0; 0; 0; 0; 0; 0; 0; 0; 0; 0; 0; 0]).
Proof. vm_compute. auto. Qed.

Lemma demo_ok a :
  Forall byte a -> wf_mem (demo_mem a) /\ has_literals (demo_mem a) demo_lits.
Proof.
  intros Ha. split.
  - unfold demo_mem.
    repeat (apply upd_list_wf; [|repeat constructor; lia || (refine (Forall_impl _ _ Ha); unfold byte; lia)]).
    intros y. lia.
  - unfold has_literals. repeat split.
Qed.

(** The address ::1 printed, and read back. *)
Lemma inet_ntop_correct_witness :
  let a := repeat 0%Z 15 ++ [1%Z] in
  exists m', inet_ntop no_fp 0 true 101 4500 4000 4400 4450 3000 demo_lits (demo_mem a) AF_INET6 1500 2000 46 0
             = Some (2000, m', 0) /\ cstr m' 2000 [58; 58; 49] /\
             inet_pton (repeat 77%Z 8) m' AF_INET6 2000 = (1, a).
Proof.
  intros a. assert (Ha : Forall byte a) by (repeat constructor; unfold byte; lia).
  destruct (demo_ok a Ha) as [Hwf Hl].
  destruct (inet_ntop_correct no_fp 0 true 101 4500 4000 4400 4450 3000 demo_lits (demo_mem a) Hwf ltac:(lia) Hl
    (repeat 77%Z 8) 1500 2000 46 0) as [H _].
  - vm_compute. repeat split; try reflexivity; try discriminate; now (left + right).
  - reflexivity.
  - lia.
  - vm_compute. repeat split; try reflexivity; try discriminate; now (left + right).
  - left. lia.
  - destruct (H AF_INET6 16%nat) as (_ & Hp & m' & E & Hc); [right; now split|].
    assert (Ex : ntop_text (bytes_at (demo_mem a) 1500 16) = [58; 58; 49]) by (vm_compute; reflexivity).
    rewrite Ex in *. exists m'. split; [exact E|]. specialize (Hc eq_refl). split; [exact Hc|]. exact (Hp m' 2000 Hc).
Defined.
