(* ===== verification/Malloc.v ===== *)
(** * Malloc: the allocator

    Models src/malloc/mallocng (meta.h, malloc.c, free.c, realloc.c,
    aligned_alloc.c, malloc_usable_size.c, donate.c) and what is built on it in
    src/malloc (calloc.c, memalign.c, posix_memalign.c, reallocarray.c), for one
    thread at a time: the locks are not modelled and an a_cas succeeds.

    The memory that is handed out, with the headers of groups and slots in it, is
    the flat memory of bytes.  The metadata that is kept apart from it, the structs
    meta and meta_area, are records at addresses.  A failed assert (a_crash), a
    null or wild pointer to a struct meta, an index out of range and the end of the
    fuel are all [None].  The kernel is an argument ([Kernel]). *)

From stdpp Require Import gmap list.
From Stdlib Require Import ZArith Lia ZifyBool.
From S2P Require Import Prelude.
Open Scope Z_scope.

(** ** Constants and tables *)

Definition MMAP_THRESHOLD : Z := 131052.
Definition UNIT : Z := 16.
Definition IB : Z := 4.
Definition BOOTSTRAP_META_COUNT : Z := 24.
Definition PAGESIZE : Z := 4096.
(** sizeof(struct meta), sizeof(struct meta_area) without its slots. *)
Definition SIZEOF_META : Z := 40.
Definition SIZEOF_AREA : Z := 24.
(** sizeof(void * ) *)
Definition SIZEOF_PTR : Z := 8.

Definition size_classes : list Z :=
  [1; 2; 3; 4; 5; 6; 7; 8;
   9; 10; 12; 15;
   18; 20; 25; 31;
   36; 42; 50; 63;
   72; 84; 102; 127;
   146; 170; 204; 255;
   292; 340; 409; 511;
   584; 682; 818; 1023;
   1169; 1364; 1637; 2047;
   2340; 2730; 3276; 4095;
   4680; 5460; 6552; 8191].
Definition class_units (sc : Z) : Z := nth (Z.to_nat sc) size_classes 0.
Arguments class_units : simpl never.

Definition small_cnt_tab : list (list Z) :=
  [[30; 30; 30]; [31; 15; 15]; [20; 10; 10]; [31; 15; 7]; [25; 12; 6];
   [21; 10; 5]; [18; 8; 4]; [31; 15; 7]; [28; 14; 6]].
Definition med_cnt_tab : list Z := [28; 24; 20; 32].

(** a_ctz_32 (the instruction) and a_clz_32. *)
Definition a_ctz_32 (x : Z) : Z := Z.log2 (Z.land x (- x)).
Definition a_clz_32 (x : Z) : Z :=
  let x := Z.shiftr x 1 in
  let x := Z.lor x (Z.shiftr x 1) in
  let x := Z.lor x (Z.shiftr x 2) in
  let x := Z.lor x (Z.shiftr x 4) in
  let x := Z.lor x (Z.shiftr x 8) in
  let x := Z.lor x (Z.shiftr x 16) in
  31 - a_ctz_32 (u32 (x + 1)).

Definition size_to_class (n : Z) : Z :=
  let n := Z.shiftr (u64 (n + IB - 1)) 4 in
  if n <? 10 then n
  else
    let n := n + 1 in
    let i := (28 - a_clz_32 (u32 n)) * 4 + 8 in
    let i := if class_units (i + 1) <? n then i + 2 else i in
    if class_units i <? n then i + 1 else i.

(** (2u<<i)-1: the lowest i+1 bits. *)
Definition low_bits (i : Z) : Z := u32 (u32 (Z.shiftl 2 i) - 1).
(** x&-x *)
Definition lowest (x : Z) : Z := Z.land x (u32 (- x)).

(** ** State *)

(** struct meta, struct meta_area *)
Record meta : Type := Meta {
  prev : Z; next : Z; gmem : Z; avail_mask : Z; freed_mask : Z;
  last_idx : Z; freeable : Z; sizeclass : Z; maplen : Z }.
Record meta_area : Type := Area { check : Z; anext : Z; nslots : Z }.

(** struct malloc_context: what alloc_meta uses, the counters, and active. *)
Record meta_context : Type := Metas {
  secret : Z; init_done : bool; free_meta_head : Z; avail_meta : Z; avail_meta_count : Z;
  avail_meta_area_count : Z; meta_alloc_shift : Z; meta_area_tail : Z; avail_meta_areas : Z;
  bootstrap_meta_used : Z }.
Record counters : Type := Counters {
  mmap_counter : Z; usage_by_class : list Z; unmap_seq : list Z; bounces : list Z; cseq : Z }.

Record heap {K : Type} : Type := Heap {
  bytes : mem; metas : gmap Z meta; areas : gmap Z meta_area;
  mctx : meta_context; cnts : counters; active : list Z; errno : Z; kern : K }.
Arguments heap : clear implicits.

(** The system calls: an address or an error number. *)
Class Kernel (K : Type) := {
  k_mmap : Z -> K -> (Z + Z) * K;
  k_munmap : Z -> Z -> K -> (unit + Z) * K;
  k_mprotect : Z -> Z -> K -> (unit + Z) * K;
  k_mremap : Z -> Z -> Z -> K -> (Z + Z) * K }.

Definition ENOSYS : Z := 38.
Definition PTRDIFF_MAX : Z := 2 ^ 63 - 1.

Definition meta0 : meta := Meta 0 0 0 0 0 0 0 0 0.
Definition with_prev (v : Z) (m : meta) : meta :=
  Meta v (next m) (gmem m) (avail_mask m) (freed_mask m) (last_idx m) (freeable m) (sizeclass m) (maplen m).
Definition with_next (v : Z) (m : meta) : meta :=
  Meta (prev m) v (gmem m) (avail_mask m) (freed_mask m) (last_idx m) (freeable m) (sizeclass m) (maplen m).
Definition with_avail (v : Z) (m : meta) : meta :=
  Meta (prev m) (next m) (gmem m) v (freed_mask m) (last_idx m) (freeable m) (sizeclass m) (maplen m).
Definition with_freed (v : Z) (m : meta) : meta :=
  Meta (prev m) (next m) (gmem m) (avail_mask m) v (last_idx m) (freeable m) (sizeclass m) (maplen m).
Definition with_maplen (v : Z) (m : meta) : meta :=
  Meta (prev m) (next m) (gmem m) (avail_mask m) (freed_mask m) (last_idx m) (freeable m) (sizeclass m) v.
Definition with_gmem (v : Z) (m : meta) : meta :=
  Meta (prev m) (next m) v (avail_mask m) (freed_mask m) (last_idx m) (freeable m) (sizeclass m) (maplen m).
Definition with_group (mem avail freed last free sc : Z) (m : meta) : meta :=
  Meta (prev m) (next m) mem avail freed last free sc (maplen m).

Section Fields.
Context {K : Type}.

Definition with_bytes (v : mem) (s : heap K) : heap K :=
  Heap K v (metas s) (areas s) (mctx s) (cnts s) (active s) (errno s) (kern s).
Definition with_metas (v : gmap Z meta) (s : heap K) : heap K :=
  Heap K (bytes s) v (areas s) (mctx s) (cnts s) (active s) (errno s) (kern s).
Definition with_areas (v : gmap Z meta_area) (s : heap K) : heap K :=
  Heap K (bytes s) (metas s) v (mctx s) (cnts s) (active s) (errno s) (kern s).
Definition with_mctx (v : meta_context) (s : heap K) : heap K :=
  Heap K (bytes s) (metas s) (areas s) v (cnts s) (active s) (errno s) (kern s).
Definition with_cnts (v : counters) (s : heap K) : heap K :=
  Heap K (bytes s) (metas s) (areas s) (mctx s) v (active s) (errno s) (kern s).
Definition with_active (v : list Z) (s : heap K) : heap K :=
  Heap K (bytes s) (metas s) (areas s) (mctx s) (cnts s) v (errno s) (kern s).
Definition with_errno (v : Z) (s : heap K) : heap K :=
  Heap K (bytes s) (metas s) (areas s) (mctx s) (cnts s) (active s) v (kern s).
Definition with_kern (v : K) (s : heap K) : heap K :=
  Heap K (bytes s) (metas s) (areas s) (mctx s) (cnts s) (active s) (errno s) v.
End Fields.

(** ** The monad *)

Section Monad.
Context {K : Type}.

Definition M (A : Type) : Type := heap K -> option (A * heap K).
Definition ret {A} (a : A) : M A := fun s => Some (a, s).
Definition mbind {A B} (e : M A) (k : A -> M B) : M B :=
  fun s => match e s with Some (a, s) => k a s | None => None end.
Definition crash {A} : M A := fun _ => None.
Definition assert (b : bool) : M unit := fun s => if b then Some (tt, s) else None.
Definition gets {A} (f : heap K -> A) : M A := fun s => Some (f s, s).
Definition modify (f : heap K -> heap K) : M unit := fun s => Some (tt, f s).
(** An access that may be out of range. *)
Definition access {A} (o : option A) : M A := fun s => match o with Some a => Some (a, s) | None => None end.

Definition on_bytes (f : mem -> mem) : M unit := modify (fun s => with_bytes (f (bytes s)) s).
Definition on_metas (f : gmap Z meta -> gmap Z meta) : M unit := modify (fun s => with_metas (f (metas s)) s).
Definition on_areas (f : gmap Z meta_area -> gmap Z meta_area) : M unit :=
  modify (fun s => with_areas (f (areas s)) s).
Definition on_mctx (f : meta_context -> meta_context) : M unit := modify (fun s => with_mctx (f (mctx s)) s).
Definition on_cnts (f : counters -> counters) : M unit := modify (fun s => with_cnts (f (cnts s)) s).
Definition on_active (f : list Z -> list Z) : M unit := modify (fun s => with_active (f (active s)) s).
Definition set_errno (e : Z) : M unit := modify (with_errno e).

Definition get_byte (a : Z) : M Z := gets (fun s => bytes s a).
Definition get_word (n : nat) (a : Z) : M Z := gets (fun s => load n (bytes s) a).
Definition put_byte (a v : Z) : M unit := on_bytes (fun m => m<{a := u8 v}>).
Definition put_word (n : nat) (a v : Z) : M unit := on_bytes (fun m => store n m a v).

(** m->.. *)
Definition deref (m : Z) : M meta := fun s => match metas s !! m with Some x => Some (x, s) | None => None end.
Definition update (m : Z) (f : meta -> meta) : M unit :=
  mbind (deref m) (fun x => on_metas (fun s => <[m := f x]> s)).
End Monad.

Declare Scope heap_scope.
Delimit Scope heap_scope with heap.
Notation "'let!' x := e 'in' k" := (mbind e (fun x => k))
  (at level 10, x pattern, e at level 100, k at level 200) : heap_scope.
Notation "e ';;' k" := (mbind e (fun _ => k)) (at level 100, k at level 200, right associativity) : heap_scope.
Open Scope heap_scope.

(** The cells that hold the head of a list of groups: &ctx.free_meta_head and
    &ctx.active[sc]. *)
Inductive head_cell : Type := FreeMeta | Active (sc : Z).

Section Alloc.
Context {K : Type} `{Kernel K}.
(** Where ctx.bootstrap_meta lies, what get_random_secret gives, and what
    __malloc_replaced and __aligned_alloc_replaced say. *)
Variables (bootstrap_meta random_secret : Z) (malloc_replaced aligned_alloc_replaced : bool).

Notation M := (@M K).

(** ** The kernel *)

(** Whole pages, filled with zeros. *)
Definition page_up (n : Z) : Z := u64 (n + PAGESIZE - 1) / PAGESIZE * PAGESIZE.

Definition call {A} (f : K -> (A + Z) * K) : M (option A) :=
  let! (r, k) := gets (fun s => f (kern s)) in
  modify (with_kern k) ;;
  match r with
  | inl a => ret (Some a)
  | inr e => set_errno e ;; ret None
  end.

(** The kernel says EPERM when it is out of a limit. *)
Definition no_perm {A} (r : (A + Z) * K) : (A + Z) * K :=
  match r with (inr e, k) => (inr (if e =? EPERM then ENOMEM else e), k) | _ => r end.

Definition mmap (len : Z) : M (option Z) :=
  if PTRDIFF_MAX <=? len then set_errno ENOMEM ;; ret None
  else
    let! r := call (fun k => no_perm (k_mmap len k)) in
    match r with
    | Some p => on_bytes (fun m => mfill m p 0 (page_up len)) ;; ret (Some p)
    | None => ret None
    end.

Definition munmap (base len : Z) : M unit :=
  let! _ := call (k_munmap base len) in ret tt.

(** MREMAP_MAYMOVE: the bytes move along. *)
Definition mremap (base len needed : Z) : M (option Z) :=
  if PTRDIFF_MAX <=? needed then set_errno ENOMEM ;; ret None
  else
    let! r := call (k_mremap base len needed) in
    match r with
    | Some p =>
        on_bytes (fun m => mfill (mcopy m p base (Z.min len needed)) (p + Z.min len needed) 0 (needed - Z.min len needed)) ;;
        ret (Some p)
    | None => ret None
    end.

(** ** Lists of groups *)

Definition get_head (h : head_cell) : M Z :=
  match h with
  | FreeMeta => gets (fun s => free_meta_head (mctx s))
  | Active sc => let! l := gets active in access (l !! Z.to_nat sc)
  end.
Definition set_head (h : head_cell) (v : Z) : M unit :=
  match h with
  | FreeMeta => on_mctx (fun c => Metas (secret c) (init_done c) v (avail_meta c) (avail_meta_count c)
      (avail_meta_area_count c) (meta_alloc_shift c) (meta_area_tail c) (avail_meta_areas c) (bootstrap_meta_used c))
  | Active sc => on_active (fun l => <[Z.to_nat sc := v]> l)
  end.

Definition queue (phead : head_cell) (m : Z) : M unit :=
  let! x := deref m in
  assert (next x =? 0) ;;
  assert (prev x =? 0) ;;
  let! head := get_head phead in
  if negb (head =? 0) then
    update m (with_next head) ;;
    let! hd := deref head in
    update m (with_prev (prev hd)) ;;
    let! x := deref m in
    update (prev x) (with_next m) ;;
    let! x := deref m in
    update (next x) (with_prev m)
  else
    update m (with_next m) ;;
    update m (with_prev m) ;;
    set_head phead m.

Definition dequeue (phead : head_cell) (m : Z) : M unit :=
  let! x := deref m in
  (if negb (next x =? m) then
     update (prev x) (with_next (next x)) ;;
     let! x := deref m in
     update (next x) (with_prev (prev x)) ;;
     let! head := get_head phead in
     if head =? m then (let! x := deref m in set_head phead (next x)) else ret tt
   else set_head phead 0) ;;
  update m (with_next 0) ;;
  update m (with_prev 0).

Definition dequeue_head (phead : head_cell) : M Z :=
  let! m := get_head phead in
  if negb (m =? 0) then dequeue phead m ;; ret m else ret m.

Definition free_meta (m : Z) : M unit :=
  update m (fun _ => meta0) ;;
  queue FreeMeta m.

(** ** Groups and slots *)

(** g->mem->meta and g->mem->active_idx, five bits of a byte. *)
Definition get_active_idx (base : Z) : M Z := let! b := get_byte (base + 8) in ret (Z.land b 31).
Definition set_active_idx (base v : Z) : M unit :=
  let! b := get_byte (base + 8) in put_byte (base + 8) (Z.lor (Z.land b 224) (Z.land v 31)).
Definition storage (base : Z) : Z := base + UNIT.

Definition activate_group (m : Z) : M Z :=
  let! x := deref m in
  assert (avail_mask x =? 0) ;;
  let! i := get_active_idx (gmem x) in
  let act := low_bits i in
  let mask := freed_mask x in
  update m (with_freed (Z.land mask (Z.lnot act))) ;;
  update m (with_avail (Z.land mask act)) ;;
  ret (Z.land mask act).

Definition is_bootstrap_meta (m : Z) : M bool :=
  let! c := gets mctx in
  let start := bootstrap_meta in
  let end_ := start + bootstrap_meta_used c * SIZEOF_META in
  ret (if (m <? start) || (end_ <=? m) then false else (m - start) mod SIZEOF_META =? 0).

Definition get_slot_index (p : Z) : M Z := let! b := get_byte (p - 3) in ret (Z.land b 31).

(** The product UNIT*offset is an int. *)
Definition get_meta (p : Z) : M Z :=
  assert (Z.land p 15 =? 0) ;;
  let! offset := get_word 2 (p - 2) in
  let! index := get_slot_index p in
  let! b := get_byte (p - 4) in
  let! offset :=
    (if negb (b =? 0) then
       assert (offset =? 0) ;;
       let! offset := get_word 4 (p - 8) in
       assert (0xffff <? s32 offset) ;;
       ret (s32 offset)
     else ret offset) in
  let base := p - s32 (UNIT * offset) - UNIT in
  let! meta := get_word 8 base in
  let! x := deref meta in
  assert (gmem x =? base) ;;
  assert (index <=? last_idx x) ;;
  assert (Z.land (avail_mask x) (Z.shiftl 1 index) =? 0) ;;
  assert (Z.land (freed_mask x) (Z.shiftl 1 index) =? 0) ;;
  let area := Z.land meta (-4096) in
  let! bs := is_bootstrap_meta meta in
  (if bs then ret tt
   else
     let! l := gets areas in
     let! a := access (l !! area) in
     let! c := gets mctx in
     assert (check a =? secret c)) ;;
  (if sizeclass x <? 48 then
     assert (class_units (sizeclass x) * index <=? offset) ;;
     assert (offset <? class_units (sizeclass x) * (index + 1))
   else assert (sizeclass x =? 63)) ;;
  (if negb (maplen x =? 0) then assert (offset <=? u64 (maplen x * 4096) / UNIT - 1) else ret tt) ;;
  ret meta.

Definition get_nominal_size (p end_ : Z) : M Z :=
  let! b := get_byte (p - 3) in
  let reserved := Z.shiftr b 5 in
  let! reserved :=
    (if 5 <=? reserved then
       assert (reserved =? 5) ;;
       let! reserved := get_word 4 (end_ - 4) in
       assert (5 <=? reserved) ;;
       let! b := get_byte (end_ - 5) in
       assert (b =? 0) ;;
       ret reserved
     else ret reserved) in
  assert (reserved <=? u64 (end_ - p)) ;;
  let! b := get_byte (end_ - reserved) in
  assert (b =? 0) ;;
  let! b := get_byte end_ in
  assert (b =? 0) ;;
  ret (end_ - reserved - p).

Definition get_stride (x : meta) : Z :=
  if (last_idx x =? 0) && negb (maplen x =? 0) then u64 (maplen x * 4096) - UNIT
  else UNIT * class_units (sizeclass x).

Definition set_size (p end_ n : Z) : M unit :=
  let reserved := s32 (u64 (end_ - p - n)) in
  (if negb (reserved =? 0) then put_byte (end_ - reserved) 0 else ret tt) ;;
  let! reserved :=
    (if 5 <=? reserved then
       put_word 4 (end_ - 4) reserved ;;
       put_byte (end_ - 5) 0 ;;
       ret 5
     else ret reserved) in
  let! b := get_byte (p - 3) in
  put_byte (p - 3) (Z.land b 31 + Z.shiftl reserved 5).

Definition enframe (g idx n ctr : Z) : M Z :=
  let! x := deref g in
  let stride := get_stride x in
  let slack := u64 (stride - IB - n) / UNIT in
  let p := storage (gmem x) + stride * idx in
  let end_ := p + stride - IB in
  let! b := get_byte (p - 3) in
  let! w := get_word 2 (p - 2) in
  let off := Z.land (if negb (b =? 0) then w + 1 else ctr) 255 in
  let! b := get_byte (p - 4) in
  assert (b =? 0) ;;
  let! off :=
    (if slack <? off then
       let m := slack in
       let m := Z.lor m (Z.shiftr m 1) in
       let m := Z.lor m (Z.shiftr m 2) in
       let m := Z.lor m (Z.shiftr m 4) in
       let off := Z.land off m in
       let off := if slack <? off then off - (slack + 1) else off in
       assert (off <=? slack) ;;
       ret off
     else ret off) in
  let! p :=
    (if negb (off =? 0) then
       put_word 2 (p - 2) off ;;
       put_byte (p - 3) (Z.shiftl 7 5) ;;
       let p := p + UNIT * off in
       put_byte (p - 4) 0 ;;
       ret p
     else ret p) in
  put_word 2 (p - 2) ((p - storage (gmem x)) / UNIT) ;;
  put_byte (p - 3) idx ;;
  set_size p end_ n ;;
  ret p.

Definition size_overflows (n : Z) : M bool :=
  if SIZE_MAX / 2 - 4096 <=? n then set_errno ENOMEM ;; ret true else ret false.

(** ** Counters *)

Definition with_seq (v : Z) (c : counters) : counters :=
  Counters (mmap_counter c) (usage_by_class c) (unmap_seq c) (bounces c) v.
Definition with_bounces (v : list Z) (c : counters) : counters :=
  Counters (mmap_counter c) (usage_by_class c) (unmap_seq c) v (cseq c).

Definition step_seq : M unit :=
  on_cnts (fun c =>
    if cseq c =? 255 then Counters (mmap_counter c) (usage_by_class c) (repeat 0 32) (bounces c) 1
    else with_seq (cseq c + 1) c).

(** sc-7U *)
Definition bounce_idx (sc : Z) : Z := u32 (sc - 7).

Definition record_seq (sc : Z) : M unit :=
  if bounce_idx sc <? 32 then
    on_cnts (fun c => Counters (mmap_counter c) (usage_by_class c) (<[Z.to_nat (bounce_idx sc) := cseq c]> (unmap_seq c))
                               (bounces c) (cseq c))
  else ret tt.

Definition account_bounce (sc : Z) : M unit :=
  if bounce_idx sc <? 32 then
    let i := Z.to_nat (bounce_idx sc) in
    let! c := gets cnts in
    let! sq := access (unmap_seq c !! i) in
    if negb (sq =? 0) && (cseq c - sq <? 10) then
      let! b := access (bounces c !! i) in
      on_cnts (with_bounces (<[i := if b + 1 <? 100 then b + 1 else 150]> (bounces c)))
    else ret tt
  else ret tt.

Definition decay_bounces (sc : Z) : M unit :=
  if bounce_idx sc <? 32 then
    let i := Z.to_nat (bounce_idx sc) in
    let! c := gets cnts in
    let! b := access (bounces c !! i) in
    if negb (b =? 0) then on_cnts (with_bounces (<[i := b - 1]> (bounces c))) else ret tt
  else ret tt.

Definition is_bouncing (sc : Z) : M bool :=
  if bounce_idx sc <? 32 then
    let! c := gets cnts in
    let! b := access (bounces c !! Z.to_nat (bounce_idx sc)) in
    ret (100 <=? b)
  else ret false.

Definition get_usage (sc : Z) : M Z :=
  let! c := gets cnts in access (usage_by_class c !! Z.to_nat sc).
Definition add_usage (sc d : Z) : M unit :=
  let! u := get_usage sc in
  on_cnts (fun c => Counters (mmap_counter c) (<[Z.to_nat sc := u64 (u + d)]> (usage_by_class c)) (unmap_seq c)
                             (bounces c) (cseq c)).
Definition count_mmap : M unit :=
  on_cnts (fun c => Counters (u32 (mmap_counter c + 1)) (usage_by_class c) (unmap_seq c) (bounces c) (cseq c)).

(** ** alloc_meta *)

Definition init_ctx : M unit :=
  let! c := gets mctx in
  if init_done c then ret tt
  else on_mctx (fun c => Metas random_secret true (free_meta_head c) (avail_meta c) (avail_meta_count c)
         (avail_meta_area_count c) (meta_alloc_shift c) (meta_area_tail c) (avail_meta_areas c) (bootstrap_meta_used c)).

(** A struct meta for the first time: zeros of ctx or of a page. *)
Definition new_meta (m : Z) : M Z := on_metas (fun s => <[m := meta0]> s) ;; ret m.

(** A new stretch of meta areas: [false] is failure. *)
Definition map_areas : M bool :=
  let! c := gets mctx in
  if negb (avail_meta_area_count c =? 0) then ret true
  else
    let n := u64 (Z.shiftl 2 (meta_alloc_shift c)) in
    let! p := mmap (u64 (n * PAGESIZE)) in
    match p with
    | None => ret false
    | Some p =>
        on_mctx (fun c => Metas (secret c) (init_done c) (free_meta_head c) (avail_meta c) (avail_meta_count c)
          (u64 ((n - 1) * (PAGESIZE / 4096))) (meta_alloc_shift c + 1) (meta_area_tail c) (p + PAGESIZE)
          (bootstrap_meta_used c)) ;;
        ret true
    end.

(** A new meta area: [false] is failure. *)
Definition open_area : M bool :=
  let! ok := map_areas in
  if negb ok then ret false
  else
    let! c := gets mctx in
    let p := avail_meta_areas c in
    let need_unprotect := Z.land p (PAGESIZE - 1) =? 0 in
    let! ok :=
      (if need_unprotect then
         let! r := call (k_mprotect p PAGESIZE) in
         match r with
         | Some _ => ret true
         | None => let! e := gets errno in ret (e =? ENOSYS)
         end
       else ret true) in
    if negb ok then ret false
    else
      (if negb (meta_area_tail c =? 0) then
         let! l := gets areas in
         let! a := access (l !! meta_area_tail c) in
         on_areas (fun l => <[meta_area_tail c := Area (check a) p (nslots a)]> l)
       else ret tt) ;;
      let count := (4096 - SIZEOF_AREA) / SIZEOF_META in
      on_areas (fun l => <[p := Area (secret c) 0 count]> l) ;;
      on_mctx (fun c => Metas (secret c) (init_done c) (free_meta_head c) (p + SIZEOF_AREA) count
        (avail_meta_area_count c - 1) (meta_alloc_shift c) p (p + 4096) (bootstrap_meta_used c)) ;;
      ret true.

(** 0 is failure. *)
Definition alloc_meta : M Z :=
  init_ctx ;;
  let! m := dequeue_head FreeMeta in
  if negb (m =? 0) then ret m
  else
    let! c := gets mctx in
    if bootstrap_meta_used c <? BOOTSTRAP_META_COUNT then
      on_mctx (fun c => Metas (secret c) (init_done c) (free_meta_head c) (avail_meta c) (avail_meta_count c)
        (avail_meta_area_count c) (meta_alloc_shift c) (meta_area_tail c) (avail_meta_areas c) (bootstrap_meta_used c + 1)) ;;
      new_meta (bootstrap_meta + bootstrap_meta_used c * SIZEOF_META)
    else
      let! ok := (if avail_meta_count c =? 0 then open_area else ret true) in
      if negb ok then ret 0
      else
        let! c := gets mctx in
        on_mctx (fun c => Metas (secret c) (init_done c) (free_meta_head c) (avail_meta c + SIZEOF_META)
          (avail_meta_count c - 1) (avail_meta_area_count c) (meta_alloc_shift c) (meta_area_tail c)
          (avail_meta_areas c) (bootstrap_meta_used c)) ;;
        new_meta (avail_meta c).

(** ** Taking a slot *)

(** while ((span^(span+size-1)) < 4096) { cnt++; span += size; } *)
Fixpoint grow_span (fuel : nat) (size cnt span : Z) : option Z :=
  match fuel with
  | O => None
  | S fuel =>
      if s32 (Z.lxor span (s32 (span + size - 1))) <? 4096 then grow_span fuel size (cnt + 1) (s32 (span + size)) else Some cnt
  end.

(** More slots of the only group of the list. *)
Definition activate_more (m : Z) : M unit :=
  let! x := deref m in
  let! i := get_active_idx (gmem x) in
  let cnt := i + 2 in
  let size := class_units (sizeclass x) * UNIT in
  let! cnt := access (grow_span 65 size cnt (UNIT + size * cnt)) in
  let cnt := if last_idx x + 1 <? cnt then last_idx x + 1 else cnt in
  set_active_idx (gmem x) (cnt - 1).

(** The bits of the slot taken; 0 if there is none. *)
Definition take_lowest (m mask : Z) : M Z :=
  let first := lowest mask in
  update m (with_avail (u32 (mask - first))) ;;
  ret first.

(** try_avail with an empty avail_mask, from the group to use on. *)
Definition pick_group (pm : head_cell) (m : Z) : M Z :=
  let! x := deref m in
  let! m :=
    (if (freed_mask x =? low_bits (last_idx x)) && negb (freeable x =? 0) then
       set_head pm (next x) ;; ret (next x)
     else ret m) in
  let! x := deref m in
  let mask := freed_mask x in
  let! i := get_active_idx (gmem x) in
  if Z.land mask (low_bits i) =? 0 then
    if negb (next x =? m) then set_head pm (next x) ;; ret (next x)
    else activate_more m ;; ret m
  else ret m.

Definition try_avail (sc : Z) : M Z :=
  let pm := Active sc in
  let! m := get_head pm in
  if m =? 0 then ret 0
  else
    let! x := deref m in
    let mask := avail_mask x in
    if negb (mask =? 0) then take_lowest m mask
    else
      let! m :=
        (if freed_mask x =? 0 then dequeue pm m ;; get_head pm
         else set_head pm (next x) ;; ret (next x)) in
      if m =? 0 then ret 0
      else
        let! m := pick_group pm m in
        let! mask := activate_group m in
        assert (negb (mask =? 0)) ;;
        let! x := deref m in
        decay_bounces (sizeclass x) ;;
        take_lowest m mask.

(** ** A new group *)

(** while (cnt > 2 && 4*cnt > usage) cnt = (cnt+1) >> 1; *)
Definition halve_cnt (usage cnt : Z) : Z :=
  while (fun cnt => (2 <? cnt) && (usage <? 4 * cnt)) (fun cnt => Z.shiftr (cnt + 1) 1) 6 cnt.

(** The number of slots before the choice between a slot and a map. *)
Definition group_cnt (sc usage : Z) : Z :=
  let size := UNIT * class_units sc in
  let cnt :=
    if sc <? 9 then
      let row := nth (Z.to_nat sc) small_cnt_tab [] in
      let i := while (fun i => (Z.of_nat i <? 2) && (usage <? 4 * nth i row 0)) S 2 0%nat in
      halve_cnt usage (nth i row 0)
    else
      while (fun cnt => 65536 * UNIT <=? size * cnt) (fun cnt => Z.shiftr cnt 1) 6
        (halve_cnt usage (nth (Z.to_nat (Z.land sc 3)) med_cnt_tab 0)) in
  if (cnt =? 1) && (size * cnt + UNIT <=? PAGESIZE / 2) then 2 else cnt.

(** The number of slots of a mapped group when few are in use. *)
Definition reduce_cnt (sc usage cnt : Z) (nosmall : bool) : Z :=
  let size := UNIT * class_units sc in
  if (usage <? 4 * cnt) && negb nosmall then
    if (Z.land sc 3 =? 1) && (8 * PAGESIZE <? size * cnt) then 2
    else if (Z.land sc 3 =? 2) && (4 * PAGESIZE <? size * cnt) then 3
    else if (Z.land sc 3 =? 0) && (8 * PAGESIZE <? size * cnt) then 3
    else if (Z.land sc 3 =? 0) && (2 * PAGESIZE <? size * cnt) then 5
    else cnt
  else cnt.

(** needed += -needed & (pagesize-1) *)
Definition round_page (n : Z) : Z := u64 (n + Z.land (u64 (- n)) (PAGESIZE - 1)).

(** The number of slots of a mapped group and the size of the map. *)
Definition map_size (sc usage cnt req : Z) (nosmall : bool) : Z * Z :=
  let size := UNIT * class_units sc in
  let cnt := reduce_cnt sc usage cnt nosmall in
  let needed := round_page (size * cnt + UNIT) in
  if negb nosmall && (cnt <=? 7) then
    let req := round_page (u64 (req + (IB + UNIT))) in
    if (req <? size + UNIT) || ((4 * PAGESIZE <=? req) && (usage <? 2 * cnt)) then (1, req) else (cnt, needed)
  else (cnt, needed).

(** The part of alloc_group behind the choice: the fields of the group at [p]. *)
Definition open_group (m sc cnt active_idx p : Z) : M unit :=
  add_usage sc cnt ;;
  let avail := low_bits active_idx in
  let freed := u32 (low_bits (cnt - 1) - avail) in
  update m (with_group p avail freed (cnt - 1) 1 sc) ;;
  put_word 8 p m ;;
  set_active_idx p active_idx.

(** A group in memory of its own. *)
Definition map_group (m sc usage cnt req : Z) : M Z :=
  let size := UNIT * class_units sc in
  let! nosmall := is_bouncing sc in
  account_bounce sc ;;
  step_seq ;;
  let! usage :=
    (if (Z.land sc 1 =? 0) && (sc <? 32) then (let! u := get_usage (sc + 1) in ret (u64 (usage + u))) else ret usage) in
  let '(cnt, needed) := map_size sc usage cnt req nosmall in
  let! p := mmap needed in
  match p with
  | None => free_meta m ;; ret 0
  | Some p =>
      update m (with_maplen (Z.shiftr needed 12)) ;;
      count_mmap ;;
      let active_idx := s32 ((4096 - UNIT) / size - 1) in
      let active_idx := if cnt - 1 <? active_idx then cnt - 1 else active_idx in
      let active_idx := if active_idx <? 0 then 0 else active_idx in
      open_group m sc cnt active_idx p ;;
      ret m
  end.

(** for (int i=0; i<=cnt; i++) p[UNIT+i*size-4] = 0; *)
Fixpoint clear_ends (n : nat) (i p size : Z) : M unit :=
  match n with
  | O => ret tt
  | S n => put_byte (p + UNIT + i * size - 4) 0 ;; clear_ends n (i + 1) p size
  end.

(** A group in a slot of a larger class. *)
Definition slot_group (alloc_slot : Z -> Z -> M Z) (m sc cnt : Z) : M Z :=
  let size := UNIT * class_units sc in
  let req := UNIT + cnt * size - IB in
  let j := size_to_class req in
  let! idx := alloc_slot j req in
  if idx <? 0 then free_meta m ;; ret 0
  else
    let! g := get_head (Active j) in
    let! c := gets cnts in
    let! p := enframe g idx (UNIT * class_units j - IB) (mmap_counter c) in
    update m (with_maplen 0) ;;
    let! b := get_byte (p - 3) in
    put_byte (p - 3) (Z.lor (Z.land b 31) (Z.shiftl 6 5)) ;;
    clear_ends (Z.to_nat (cnt + 1)) 0 p size ;;
    open_group m sc cnt (cnt - 1) p ;;
    ret m.

(** 0 is failure. *)
Definition alloc_group (alloc_slot : Z -> Z -> M Z) (sc req : Z) : M Z :=
  let! m := alloc_meta in
  if m =? 0 then ret 0
  else
    let! usage := get_usage sc in
    let cnt := group_cnt sc usage in
    if PAGESIZE / 2 <? UNIT * class_units sc * cnt + UNIT then map_group m sc usage cnt req
    else slot_group alloc_slot m sc cnt.

(** The index of the slot, or -1; a group is in a slot of a larger class, so that
    the calls nest at most 48 deep. *)
Fixpoint alloc_slot_loop (fuel : nat) (sc req : Z) : M Z :=
  match fuel with
  | O => crash
  | S fuel =>
      let! first := try_avail sc in
      if negb (first =? 0) then ret (a_ctz_32 first)
      else
        let! g := alloc_group (alloc_slot_loop fuel) sc req in
        if g =? 0 then ret (-1)
        else
          let! x := deref g in
          update g (with_avail (u32 (avail_mask x - 1))) ;;
          queue (Active sc) g ;;
          ret 0
  end.
Definition alloc_slot (sc req : Z) : M Z := alloc_slot_loop 49 sc req.

(** ** malloc *)

(** A single allocation in memory of its own: the group, or 0. *)
Definition map_alloc (n : Z) : M Z :=
  let needed := u64 (n + IB + UNIT) in
  let! p := mmap needed in
  match p with
  | None => ret 0
  | Some p =>
      step_seq ;;
      let! g := alloc_meta in
      if g =? 0 then munmap p needed ;; ret 0
      else
        update g (with_group p 0 0 0 1 63) ;;
        update g (with_maplen (u64 (needed + 4095) / 4096)) ;;
        put_word 8 p g ;;
        count_mmap ;;
        ret g
  end.

(** The class to allocate from: the next one when that saves a group. *)
Definition coarse_class (sc : Z) : M Z :=
  let! g := get_head (Active sc) in
  let! u := get_usage sc in
  if (g =? 0) && (4 <=? sc) && (sc <? 32) && negb (sc =? 6) && (Z.land sc 1 =? 0) && (u =? 0) then
    let! usage := get_usage (Z.lor sc 1) in
    let! g1 := get_head (Active (Z.lor sc 1)) in
    let! none :=
      (if g1 =? 0 then ret true
       else let! x := deref g1 in ret ((avail_mask x =? 0) && (freed_mask x =? 0))) in
    let usage := if none then u64 (usage + 3) else usage in
    ret (if usage <=? 12 then Z.lor sc 1 else sc)
  else ret sc.

(** A slot of the head of the list, as long as its avail_mask has one; -1 if not. *)
Definition fast_slot (g : Z) : M Z :=
  if g =? 0 then ret (-1)
  else
    let! x := deref g in
    if lowest (avail_mask x) =? 0 then ret (-1)
    else (let! first := take_lowest g (avail_mask x) in ret (a_ctz_32 first)).

(** __libc_malloc_impl; 0 is failure. *)
Definition malloc (n : Z) : M Z :=
  let! over := size_overflows n in
  if over then ret 0
  else
    let! (g, idx) :=
      (if MMAP_THRESHOLD <=? n then (let! g := map_alloc n in ret (g, 0))
       else
         let! sc := coarse_class (size_to_class n) in
         let! g := get_head (Active sc) in
         let! idx := fast_slot g in
         if 0 <=? idx then ret (g, idx)
         else
           let! idx := alloc_slot sc n in
           if idx <? 0 then ret (0, 0)
           else (let! g := get_head (Active sc) in ret (g, idx))) in
    if g =? 0 then ret 0
    else
      let! c := gets cnts in
      enframe g idx n (mmap_counter c).

Definition is_allzero (p : Z) : M bool :=
  let! g := get_meta p in
  let! x := deref g in
  ret ((48 <=? sizeclass x) || (get_stride x <? UNIT * class_units (sizeclass x))).

(** ** free *)

(** struct mapinfo: what is to be unmapped, if anything. *)
Definition mapinfo : Type := Z * Z.

Definition free_group (nontrivial_free : Z -> Z -> M mapinfo) (g : Z) : M mapinfo :=
  let! x := deref g in
  let sc := sizeclass x in
  (if sc <? 48 then add_usage sc (- (last_idx x + 1)) else ret tt) ;;
  let! mi :=
    (if negb (maplen x =? 0) then
       step_seq ;;
       record_seq sc ;;
       ret (gmem x, u64 (maplen x * 4096))
     else
       let p := gmem x in
       let! m := get_meta p in
       let! idx := get_slot_index p in
       put_word 8 (gmem x) 0 ;;
       nontrivial_free m idx) in
  free_meta g ;;
  ret mi.

Definition okay_to_free (g : Z) : M bool :=
  let! x := deref g in
  let sc := sizeclass x in
  if freeable x =? 0 then ret false
  else if (48 <=? sc) || (get_stride x <? UNIT * class_units sc) then ret true
  else if maplen x =? 0 then ret true
  else if negb (next x =? g) then ret true
  else
    let! b := is_bouncing sc in
    if negb b then ret true
    else
      let cnt := last_idx x + 1 in
      let! usage := get_usage sc in
      ret ((9 * cnt <=? usage) && (cnt <? 20)).

(** Behind the freeing of a group the caller's slot of a larger class is freed: at
    most 48 calls deep. *)
Fixpoint nontrivial_free_loop (fuel : nat) (g i : Z) : M mapinfo :=
  match fuel with
  | O => crash
  | S fuel =>
      let! x := deref g in
      let self := u32 (Z.shiftl 1 i) in
      let sc := sizeclass x in
      let mask := Z.lor (freed_mask x) (avail_mask x) in
      let! ok := (if u32 (mask + self) =? low_bits (last_idx x) then okay_to_free g else ret false) in
      if ok then
        (if negb (next x =? 0) then
           assert (sc <? 48) ;;
           let! head := get_head (Active sc) in
           dequeue (Active sc) g ;;
           let! head' := get_head (Active sc) in
           if (head =? g) && negb (head' =? 0) then (let! _ := activate_group head' in ret tt) else ret tt
         else ret tt) ;;
        free_group (nontrivial_free_loop fuel) g
      else
        (if mask =? 0 then
           assert (sc <? 48) ;;
           let! head := get_head (Active sc) in
           if negb (head =? g) then queue (Active sc) g else ret tt
         else ret tt) ;;
        update g (fun x => with_freed (Z.lor (freed_mask x) self) x) ;;
        ret (0, 0)
  end.
Definition nontrivial_free (g i : Z) : M mapinfo := nontrivial_free_loop 50 g i.

(** madvise is compiled out (USE_MADV_FREE is 0). *)
Definition free (p : Z) : M unit :=
  if p =? 0 then ret tt
  else
    let! g := get_meta p in
    let! idx := get_slot_index p in
    let! x := deref g in
    let stride := get_stride x in
    let start := storage (gmem x) + stride * idx in
    let end_ := start + stride - IB in
    get_nominal_size p end_ ;;
    let self := u32 (Z.shiftl 1 idx) in
    let all := low_bits (last_idx x) in
    put_byte (p - 3) 255 ;;
    put_word 2 (p - 2) 0 ;;
    let! x := deref g in
    let freed := freed_mask x in
    let mask := Z.lor freed (avail_mask x) in
    assert (Z.land mask self =? 0) ;;
    if (freed =? 0) || (u32 (mask + self) =? all) then
      let! (base, len) := nontrivial_free g idx in
      if negb (len =? 0) then (let! e := gets errno in munmap base len ;; set_errno e) else ret tt
    else update g (with_freed (u32 (freed + self))).

(** ** realloc and the aligned forms *)

Definition malloc_usable_size (p : Z) : M Z :=
  if p =? 0 then ret 0
  else
    let! g := get_meta p in
    let! idx := get_slot_index p in
    let! x := deref g in
    let stride := get_stride x in
    let start := storage (gmem x) + stride * idx in
    let end_ := start + stride - IB in
    get_nominal_size p end_.

(** The large case in place: [None] is "not possible". *)
Definition remap (g p start n : Z) : M (option Z) :=
  let! x := deref g in
  if (48 <=? sizeclass x) && (MMAP_THRESHOLD <=? n) then
    assert (sizeclass x =? 63) ;;
    let base := p - start in
    let needed := Z.land (u64 (n + base + UNIT + IB + 4095)) (-4096) in
    let! new :=
      (if u64 (maplen x * 4096) =? needed then ret (Some (gmem x))
       else mremap (gmem x) (u64 (maplen x * 4096)) needed) in
    match new with
    | None => ret None
    | Some new =>
        update g (with_gmem new) ;;
        update g (with_maplen (needed / 4096)) ;;
        let p := storage new + base in
        let end_ := storage new + (needed - UNIT) - IB in
        put_byte end_ 0 ;;
        set_size p end_ n ;;
        ret (Some p)
    end
  else ret None.

Definition realloc (p n : Z) : M Z :=
  if p =? 0 then malloc n
  else
    let! over := size_overflows n in
    if over then ret 0
    else
      let! g := get_meta p in
      let! idx := get_slot_index p in
      let! x := deref g in
      let stride := get_stride x in
      let start := storage (gmem x) + stride * idx in
      let end_ := start + stride - IB in
      let! old_size := get_nominal_size p end_ in
      let avail_size := end_ - p in
      if (n <=? avail_size) && (n <? MMAP_THRESHOLD) && (sizeclass x <=? size_to_class n + 1) then
        set_size p end_ n ;; ret p
      else
        let! r := remap g p start n in
        match r with
        | Some p => ret p
        | None =>
            let! new := malloc n in
            if new =? 0 then ret 0
            else
              on_bytes (fun m => mcopy m new p (if n <? old_size then n else old_size)) ;;
              free p ;;
              ret new
        end.

Definition aligned_alloc (align len : Z) : M Z :=
  if negb (Z.land align (u64 (- align)) =? align) then set_errno EINVAL ;; ret 0
  else if (SIZE_MAX - align <? len) || (2 ^ 31 * UNIT <=? align) then set_errno ENOMEM ;; ret 0
  else if malloc_replaced && negb aligned_alloc_replaced then set_errno ENOMEM ;; ret 0
  else
    let align := if align <=? UNIT then UNIT else align in
    let! p := malloc (u64 (len + align - UNIT)) in
    if p =? 0 then ret 0
    else
      let! g := get_meta p in
      let! idx := get_slot_index p in
      let! x := deref g in
      let stride := get_stride x in
      let start := storage (gmem x) + stride * idx in
      let end_ := storage (gmem x) + stride * (idx + 1) - IB in
      let adj := Z.land (u64 (- p)) (align - 1) in
      if adj =? 0 then set_size p end_ len ;; ret p
      else
        let p := p + adj in
        let offset := u32 ((p - storage (gmem x)) / UNIT) in
        (if offset <=? 0xffff then
           put_word 2 (p - 2) offset ;;
           put_byte (p - 4) 0
         else
           put_word 2 (p - 2) 0 ;;
           put_word 4 (p - 8) offset ;;
           put_byte (p - 4) 1) ;;
        put_byte (p - 3) idx ;;
        set_size p end_ len ;;
        put_word 2 (start - 2) ((p - start) / UNIT) ;;
        put_byte (start - 3) (Z.shiftl 7 5) ;;
        ret p.

Definition memalign (align len : Z) : M Z := aligned_alloc align len.

(** The result and *res if it is written. *)
Definition posix_memalign (align len : Z) : M (Z * option Z) :=
  if align <? SIZEOF_PTR then ret (EINVAL, None)
  else
    let! mem := aligned_alloc align len in
    if mem =? 0 then (let! e := gets errno in ret (e, None)) else ret (0, Some mem).

Definition reallocarray (ptr m n : Z) : M Z :=
  if negb (n =? 0) && (SIZE_MAX / n <? m) then set_errno ENOMEM ;; ret 0
  else realloc ptr (u64 (m * n)).

(** ** calloc *)

(** The inner loop of mal0_clear, from pp down: the address where it leaves off,
    behind a word that is not zero or at the start of the page. *)
Fixpoint scan_page (n : nat) (m : mem) (pp : Z) : Z :=
  match n with
  | O => pp
  | S n => if negb (Z.lor (load 8 m (pp - 8)) (load 8 m (pp - 16)) =? 0) then pp else scan_page n m (pp - 16)
  end.

(** The outer loop: how many bytes at [p] are left to clear. *)
Fixpoint mal0_loop (fuel : nat) (p pp i : Z) : M Z :=
  match fuel with
  | O => crash
  | S fuel =>
      on_bytes (fun m => mfill m (pp - i) 0 i) ;;
      let pp := pp - i in
      if u64 (pp - p) <? 4096 then ret (u64 (pp - p))
      else
        let! m := gets bytes in
        let pp' := scan_page 256 m pp in
        mal0_loop fuel p pp' (4096 - (pp - pp'))
  end.
Definition mal0_clear (p n : Z) : M Z :=
  if n <? 4096 then ret n
  else mal0_loop (S (S (Z.to_nat (n / 4096)))) p (p + n) (Z.land (p + n) 4095).

Definition calloc (m n : Z) : M Z :=
  if negb (n =? 0) && (SIZE_MAX / n <? m) then set_errno ENOMEM ;; ret 0
  else
    let n := u64 (n * m) in
    let! p := malloc n in
    if p =? 0 then ret p
    else
      let! zero := (if malloc_replaced then ret false else is_allzero p) in
      if zero then ret p
      else
        let! n := mal0_clear p n in
        on_bytes (fun m => mfill m p 0 n) ;;
        ret p.

(** ** Donated memory *)

Fixpoint donate_loop (n : nat) (sc a b : Z) : M unit :=
  match n with
  | O => ret tt
  | S n =>
      if (0 <? sc) && (a <? b) then
        if b - a <? (class_units sc + 1) * UNIT then donate_loop n (sc - 4) a b
        else
          let! m := alloc_meta in
          update m (with_group a 0 1 0 0 sc) ;;
          put_word 8 a m ;;
          update m (with_maplen 0) ;;
          put_byte (a + UNIT - 4) 0 ;;
          put_byte (a + UNIT - 3) 255 ;;
          put_byte (storage a + class_units sc * UNIT - 4) 0 ;;
          queue (Active sc) m ;;
          donate_loop n (sc - 4) (a + (class_units sc + 1) * UNIT) b
      else ret tt
  end.
Definition donate (base len : Z) : M unit :=
  let a := base + Z.land (u64 (- base)) (UNIT - 1) in
  let b := base + len - Z.land (base + len) (UNIT - 1) in
  on_bytes (fun m => mfill m base 0 len) ;;
  donate_loop 12 47 a b.
End Alloc.
