(* ===== verification/Slots.v ===== *)
(** * Slots: size classes, frames and headers of Malloc

    The size class of a size is the smallest that fits it ([size_to_class_ok]); how
    large the groups of a class are ([group_cnt_ok], [map_size_ok]); and what the
    header of an allocation says: the frame that enframe and set_size write is the
    one get_meta and get_nominal_size read. *)

From stdpp Require Import gmap list.
From Stdlib Require Import ZArith Lia ZifyBool.
From S2P Require Import Prelude Malloc.
Open Scope Z_scope.
Open Scope heap_scope.

(** ** Bits *)

(** All bits of [x] from [t] down to [t - d + 1] are set, and none above. *)
Definition smeared (t d x : Z) : Prop :=
  forall i, 0 <= i -> (t - d < i <= t -> Z.testbit x i = true) /\ (t < i -> Z.testbit x i = false).

Lemma smear_step t d x : 0 <= d -> smeared t d x -> smeared t (2 * d) (Z.lor x (Z.shiftr x d)).
Proof.
  intros Hd H i Hi. rewrite Z.lor_spec, Z.shiftr_spec by lia. destruct (H i Hi) as [H1 H2].
  destruct (H (i + d)) as [H3 H4]; [lia|]. split; intros Ht.
  - destruct (Z.le_gt_cases i (t - d)); [rewrite H3 by lia; apply orb_true_r|now rewrite H1 by lia].
  - now rewrite H2, H4 by lia.
Qed.

Lemma smear_all t d x : 0 <= t < d -> smeared t d x -> x = Z.ones (t + 1).
Proof.
  intros Ht H. apply Z.bits_inj'; intros i Hi. rewrite Z.testbit_ones_nonneg by lia.
  destruct (H i Hi) as [H1 H2]. destruct (Z.ltb_spec i (t + 1)); [apply H1|apply H2]; lia.
Qed.

Lemma smear_start x : 0 < x -> smeared (Z.log2 x) 1 x.
Proof.
  intros Hx i Hi. split; intros Ht; [|apply Z.bits_above_log2; lia].
  replace i with (Z.log2 x) by lia. now apply Z.bit_log2.
Qed.

Lemma ctz_pow k : 0 <= k -> a_ctz_32 (2 ^ k) = k.
Proof.
  intros Hk. unfold a_ctz_32.
  replace (Z.land (2 ^ k) (- 2 ^ k)) with (2 ^ k); [now apply Z.log2_pow2|].
  rewrite Z.land_comm, land_bit by lia. replace (Z.testbit (- 2 ^ k) k) with true; [reflexivity|].
  rewrite <- (Z.mul_1_l (2 ^ k)) at 1. rewrite <- Z.mul_opp_l, Z.mul_pow2_bits, Z.sub_diag by lia. reflexivity.
Qed.

Lemma clz_log2 x : 0 < x < 2 ^ 31 -> a_clz_32 x = 31 - Z.log2 x.
Proof.
  intros Hx. unfold a_clz_32. destruct (Z.eq_dec x 1) as [->|H1]; [reflexivity|].
  set (y := Z.shiftr x 1). assert (Hy : 0 < y /\ Z.log2 y + 1 = Z.log2 x).
  { assert (1 <= Z.log2 x) by (change 1 with (Z.log2 2); apply Z.log2_le_mono; lia).
    unfold y. rewrite Z.log2_shiftr by lia. split; [|lia].
    rewrite Z.shiftr_div_pow2 by lia. change (2 ^ 1) with 2. zlia. }
  assert (Ht : 0 <= Z.log2 y < 30).
  { split; [apply Z.log2_nonneg|]. assert (Z.log2 x < 31) by (apply Z.log2_lt_pow2; lia). lia. }
  pose proof (smear_start y ltac:(lia)) as S1. apply (smear_step _ 1) in S1; [|lia].
  apply (smear_step _ 2) in S1; [|lia]. apply (smear_step _ 4) in S1; [|lia].
  apply (smear_step _ 8) in S1; [|lia]. apply (smear_step _ 16) in S1; [|lia]. change (2 * 16) with 32 in S1.
  change (2 * 8) with 16 in S1. change (2 * 4) with 8 in S1. change (2 * 2) with 4 in S1. change (2 * 1) with 2 in S1.
  apply smear_all in S1; [|lia]. rewrite S1, Z.ones_equiv.
  replace (Z.pred (2 ^ (Z.log2 y + 1)) + 1) with (2 ^ (Z.log2 y + 1)) by lia.
  assert (2 ^ (Z.log2 y + 1) <= 2 ^ 30) by (apply Z.pow_le_mono_r; lia).
  rewrite u32_small by lia. rewrite ctz_pow by lia. lia.
Qed.

(** ** Size classes *)

(** Evaluate the entries of the table at numbers. *)
Ltac eval_units :=
  repeat match goal with
  | |- context [class_units ?e] =>
      let v := eval vm_compute in (class_units e) in
      match v with Z0 => idtac | Zpos _ => idtac end; change (class_units e) with v
  end.

Ltac case_units u :=
  match goal with |- context [Zpos ?c <? u] => destruct (Z.ltb_spec (Zpos c) u) end.

(** The classes for sizes of [2^k] to [2^(k+1)] units. *)
Lemma class_of_units k u :
  3 <= k <= 12 -> 2 ^ k <= u < 2 ^ (k + 1) -> 10 < u <= 8191 ->
  let i := (k - 3) * 4 + 8 in
  let i := if class_units (i + 1) <? u then i + 2 else i in
  let sc := if class_units i <? u then i + 1 else i in
  8 < sc < 48 /\ u <= class_units sc /\ class_units (sc - 1) < u.
Proof.
  intros Hk Hu Hr. cbv zeta.
  assert (Hc : In k [3; 4; 5; 6; 7; 8; 9; 10; 11; 12]) by (cbn; lia). cbn in Hc.
  repeat (destruct Hc as [<-|Hc]; [repeat (eval_units; case_units u); eval_units; lia|]). contradiction.
Qed.

(** The class of a size is the smallest whose slots hold it. *)
Lemma size_to_class_ok n :
  0 <= n < MMAP_THRESHOLD ->
  let sc := size_to_class n in
  0 <= sc < 48 /\ n + IB <= UNIT * class_units sc /\ (0 < sc -> UNIT * class_units (sc - 1) < n + IB).
Proof.
  unfold MMAP_THRESHOLD, size_to_class, UNIT, IB. intros Hn. rewrite u64_small by lia.
  rewrite Z.shiftr_div_pow2 by lia. change (2 ^ 4) with 16. set (q := (n + 4 - 1) / 16).
  assert (Hq : 16 * q <= n + 3 < 16 * q + 16) by (unfold q; zlia).
  destruct (Z.ltb_spec q 10).
  - assert (Hc : In q [0; 1; 2; 3; 4; 5; 6; 7; 8; 9]) by (cbn; lia). cbn in Hc.
    repeat (destruct Hc as [<-|Hc]; [eval_units; lia|]). contradiction.
  - rewrite u32_small, clz_log2 by lia. set (k := Z.log2 (q + 1)).
    assert (Hk : 2 ^ k <= q + 1 < 2 ^ (k + 1)) by (apply Z.log2_spec; lia).
    assert (Hk3 : 3 <= k) by (change 3 with (Z.log2 8); apply Z.log2_le_mono; lia).
    assert (Hk12 : k <= 12) by (change 12 with (Z.log2 8191); apply Z.log2_le_mono; lia).
    pose proof (class_of_units k (q + 1) ltac:(lia) Hk ltac:(lia)) as HC. cbv zeta in HC |- *.
    replace (28 - (31 - k)) with (k - 3) by lia. lia.
Qed.

Lemma class_units_range sc : 0 <= sc < 48 -> 1 <= class_units sc <= 8191.
Proof.
  intros Hsc. unfold class_units.
  assert (H : Forall (fun u => 1 <= u <= 8191) size_classes) by (repeat constructor; lia).
  rewrite List.Forall_forall in H. apply H, nth_In. change (length size_classes) with 48%nat. lia.
Qed.

(** The classes are increasing. *)
Lemma class_units_mono a b : 0 <= a < b -> b < 48 -> class_units a < class_units b.
Proof.
  intros Ha Hb.
  assert (H : forallb (fun i => class_units (Z.of_nat i) <? class_units (Z.of_nat i + 1)) (seq 0 47) = true)
    by (vm_compute; reflexivity).
  rewrite forallb_forall in H.
  assert (Hs : forall i, 0 <= i < 47 -> class_units i < class_units (i + 1)).
  { intros i Hi. specialize (H (Z.to_nat i) ltac:(apply in_seq; lia)). rewrite Z2Nat.id in H by lia. lia. }
  replace b with (a + 1 + Z.of_nat (Z.to_nat (b - a - 1))) by lia.
  assert (Hb' : a + 1 + Z.of_nat (Z.to_nat (b - a - 1)) < 48) by lia. revert Hb'.
  induction (Z.to_nat (b - a - 1)) as [|k IH]; intros Hk; [rewrite Z.add_0_r; apply Hs; lia|].
  specialize (IH ltac:(lia)). specialize (Hs (a + 1 + Z.of_nat k) ltac:(lia)).
  replace (a + 1 + Z.of_nat (S k)) with (a + 1 + Z.of_nat k + 1) by lia. lia.
Qed.

(** ** The sizes of groups *)

Lemma halve_cnt_ok usage cnt :
  2 <= cnt <= 32 -> 2 <= halve_cnt usage cnt <= cnt /\ (halve_cnt usage cnt = 2 \/ 4 * halve_cnt usage cnt <= usage).
Proof.
  intros Hc. unfold halve_cnt.
  destruct (while_rule (fun cnt => (2 <? cnt) && (usage <? 4 * cnt)) (fun cnt => Z.shiftr (cnt + 1) 1)
    (fun c => 2 <= c <= cnt) (fun c => Z.to_nat (Z.log2 (c - 1))) 6 cnt) as [H1 H2].
  - intros c Hc' E. rewrite Z.shiftr_div_pow2 by lia. change (2 ^ 1) with 2.
    split; [zlia|]. assert (Hl : Z.log2 ((c + 1) / 2 - 1) < Z.log2 (c - 1)); [|pose proof (Z.log2_nonneg ((c + 1) / 2 - 1)); lia].
    apply Z.lt_le_trans with (Z.log2 (2 * ((c + 1) / 2 - 1))); [rewrite Z.log2_double by zlia; lia|].
    apply Z.log2_le_mono. zlia.
  - lia.
  - assert (Z.log2 (cnt - 1) <= Z.log2 31) by (apply Z.log2_le_mono; lia). change (Z.log2 31) with 4 in *. lia.
  - lia.
Qed.

(** The table entry before halving. *)
Lemma group_cnt_ok sc usage :
  0 <= sc < 48 -> 2 <= group_cnt sc usage <= 32 /\ UNIT * class_units sc * group_cnt sc usage < 65536 * UNIT /\
                  (sc < 9 -> UNIT * class_units sc * group_cnt sc usage <= 4080).
Proof.
  intros Hsc. unfold group_cnt. pose proof (class_units_range sc Hsc) as Hu.
  set (cnt0 := if sc <? 9 then _ else _).
  assert (H : 2 <= cnt0 <= 32 /\ UNIT * class_units sc * cnt0 < 65536 * UNIT /\
              (sc < 9 -> UNIT * class_units sc * cnt0 <= 4080)).
  { unfold cnt0. destruct (Z.ltb_spec sc 9).
    - set (i := while _ _ _ _). assert (Hi : (i <= 2)%nat).
      { unfold i. cbn [while]. repeat case_if; lia. }
      assert (HR : 2 <= nth i (nth (Z.to_nat sc) small_cnt_tab []) 0 <= 32 /\
        UNIT * class_units sc * nth i (nth (Z.to_nat sc) small_cnt_tab []) 0 <= 4080).
      { assert (Hs : In sc [0; 1; 2; 3; 4; 5; 6; 7; 8]) by (cbn; lia). cbn in Hs.
        destruct i as [|[|[|i]]]; [| | |lia];
          repeat (destruct Hs as [<-|Hs]; [vm_compute; repeat split; discriminate|]); contradiction. }
      destruct (halve_cnt_ok usage _ (proj1 HR)) as [H1 _]. unfold UNIT in *. split; [lia|]. split; [nia|]. intros _. nia.
    - assert (HM : 2 <= nth (Z.to_nat (Z.land sc 3)) med_cnt_tab 0 <= 32).
      { change 3 with (Z.ones 2). rewrite Z.land_ones by lia.
        pose proof (Z.mod_pos_bound sc (2 ^ 2) ltac:(lia)). assert (Hs : In (sc mod 2 ^ 2) [0; 1; 2; 3]) by (cbn in *; lia).
        cbn in Hs. repeat (destruct Hs as [<-|Hs]; [vm_compute; split; discriminate|]). contradiction. }
      destruct (halve_cnt_ok usage _ HM) as [HH _]. set (c := halve_cnt _ _) in *.
      destruct (while_rule (fun cnt => 65536 * UNIT <=? UNIT * class_units sc * cnt) (fun cnt => Z.shiftr cnt 1)
        (fun c => 2 <= c <= 32) (fun c => Z.to_nat (c / 8)) 6 c) as [H1 H2]; [|lia|zlia|split; [lia|split; lia]].
      intros x Hx E. rewrite Z.shiftr_div_pow2 by lia. change (2 ^ 1) with 2. unfold UNIT in E.
      assert (9 <= x) by nia. zlia. }
  destruct H as (H1 & H3 & H2). case_if; [lia|]. split; [assumption|]. split; assumption.
Qed.

Lemma round_page_ok n :
  0 <= n < 2 ^ 62 -> round_page n mod 4096 = 0 /\ n <= round_page n <= n + 4095.
Proof.
  intros Hn. unfold round_page, PAGESIZE. change (4096 - 1) with (Z.ones 12). rewrite Z.land_ones by lia.
  change (2 ^ 12) with 4096.
  assert (Hr : u64 (- n) mod 4096 = (- n) mod 4096).
  { unfold u64. change 18446744073709551616 with (4096 * 4503599627370496).
    now rewrite Z.rem_mul_r, Z.mul_comm, Z_mod_plus_full, Z.mod_mod by lia. }
  rewrite Hr. assert (H : 0 <= (- n) mod 4096 < 4096) by (apply Z.mod_pos_bound; lia).
  rewrite u64_small by lia. split; [zlia|lia].
Qed.

(** The number of slots of a mapped group, the size of the map, and how long its
    only slot is. *)
Lemma map_size_ok sc usage cnt req nosmall :
  0 <= sc < 48 -> 2 <= cnt <= 32 -> UNIT * class_units sc * cnt < 65536 * UNIT ->
  0 <= req -> req + IB <= UNIT * class_units sc ->
  let size := UNIT * class_units sc in
  let '(cnt', needed) := map_size sc usage cnt req nosmall in
  1 <= cnt' <= 32 /\ size * cnt' < 65536 * UNIT /\ needed mod 4096 = 0 /\ 4096 <= needed < 2 ^ 31 /\
  (2 <= cnt' -> size * cnt' + UNIT <= needed) /\
  (cnt' = 1 -> req + IB + UNIT <= needed /\
     (needed < size + UNIT /\ 256 <= class_units sc \/
      size + UNIT <= needed <= size + UNIT + 4095 /\ 767 <= class_units sc)).
Proof.
  intros Hsc Hcnt Hmax Hreq Hfit size. pose proof (class_units_range sc Hsc) as Hu. unfold map_size. fold size.
  set (c := reduce_cnt sc usage cnt nosmall).
  assert (Hs : 16 <= size <= 131056) by (unfold size, UNIT; lia). fold size in Hmax. unfold UNIT, IB in *.
  assert (Hc : 2 <= c <= 32 /\ size * c < 65536 * 16) by (unfold c, reduce_cnt; repeat case_if; lia).
  assert (Hn : 0 <= size * c + 16 < 2 ^ 31 - 5000) by nia.
  destruct (round_page_ok (size * c + 16) ltac:(lia)) as [R1 R2].
  rewrite (u64_small (req + _)) by lia. destruct (round_page_ok (req + (4 + 16)) ltac:(lia)) as [R3 R4].
  set (nd := round_page (size * c + 16)) in *. set (rq := round_page (req + (4 + 16))) in *. unfold PAGESIZE.
  assert (nd <> 0 /\ rq <> 0) by lia. assert (4096 <= nd /\ 4096 <= rq) by zlia.
  destruct (negb nosmall && (c <=? 7)); [|repeat split; try lia].
  destruct ((rq <? size + 16) || ((4 * 4096 <=? rq) && (usage <? 2 * c))) eqn:E; [|repeat split; lia].
  split; [lia|]. split; [lia|]. split; [assumption|]. split; [lia|]. split; [lia|]. intros _. split; [lia|].
  unfold size in *. destruct (Z.ltb_spec rq (16 * class_units sc + 16)); [left; zlia|right]. cbn [orb] in E. split; lia.
Qed.

(** ** Masks *)

Lemma low_bits_ones i : 0 <= i < 32 -> low_bits i = Z.ones (i + 1).
Proof.
  intros Hi. unfold low_bits. rewrite Z.shiftl_mul_pow2, Z.ones_equiv by lia.
  assert (Hp : 2 ^ (i + 1) = 2 * 2 ^ i) by (rewrite Z.pow_add_r by lia; lia). rewrite Hp.
  destruct (Z.eq_dec i 31) as [->|]; [reflexivity|].
  assert (0 < 2 ^ i <= 2 ^ 30) by (split; [lia|apply Z.pow_le_mono_r; lia]).
  rewrite (u32_small (2 * _)) by lia. rewrite u32_small by lia. lia.
Qed.

Lemma low_bits_spec i j : 0 <= i < 32 -> 0 <= j -> Z.testbit (low_bits i) j = (j <=? i).
Proof. intros Hi Hj. rewrite low_bits_ones, Z.testbit_ones_nonneg by lia. lia. Qed.

(** The lowest bit of a number. *)
Lemma least_bit n : forall x, (Z.to_nat x < n)%nat -> 0 < x -> exists k y, 0 <= k /\ 0 <= y /\ x = 2 ^ k * (2 * y + 1).
Proof.
  induction n as [|n IH]; intros x Hn Hx; [lia|].
  destruct (Z.eq_dec (x mod 2) 0) as [E|E].
  - destruct (IH (x / 2)) as (k & y & Hk & Hy & E2); [zlia|zlia|]. exists (k + 1), y. split; [lia|]. split; [assumption|].
    rewrite Z.pow_add_r by lia. change (2 ^ 1) with 2. rewrite (Z.div_mod x 2), E, E2 by lia. ring.
  - exists 0, (x / 2). split; [lia|]. split; [zlia|]. change (2 ^ 0) with 1. zlia.
Qed.

Lemma odd_low y : Z.land (2 * y + 1) (- (2 * y + 1)) = 1.
Proof.
  replace (- (2 * y + 1)) with (Z.lnot (2 * y)) by (unfold Z.lnot; lia).
  apply Z.bits_inj'; intros i Hi. rewrite Z.land_spec, Z.lnot_spec by lia.
  destruct (Z.eq_dec i 0) as [->|]; [rewrite Z.testbit_odd_0, Z.testbit_even_0; reflexivity|].
  replace i with (Z.succ (i - 1)) by lia. rewrite Z.testbit_odd_succ, Z.testbit_even_succ by lia.
  rewrite andb_negb_r. symmetry. apply (Z.bits_above_log2 1); cbn; lia.
Qed.

Lemma lowest_ok x :
  0 < x < 2 ^ 32 ->
  exists k, 0 <= k < 32 /\ lowest x = 2 ^ k /\ Z.testbit x k = true /\ forall j, 0 <= j < k -> Z.testbit x j = false.
Proof.
  intros Hx. destruct (least_bit (S (Z.to_nat x)) x ltac:(lia) ltac:(lia)) as (k & y & Hk & Hy & E).
  exists k. assert (H2 : 0 < 2 ^ k) by lia.
  assert (Hk32 : k < 32) by (apply Z.nle_gt; intros H32; assert (2 ^ 32 <= 2 ^ k) by (apply Z.pow_le_mono_r; lia); nia).
  split; [lia|]. split; [|split].
  - unfold lowest. assert (HL : Z.land x (u32 (- x)) = Z.land x (- x)).
    { unfold u32. change 4294967296 with (2 ^ 32). rewrite <- Z.land_ones by lia.
      rewrite (Z.land_comm (- x)), Z.land_assoc, Z.land_ones, Z.mod_small by lia. reflexivity. }
    rewrite HL, E. replace (2 ^ k * (2 * y + 1)) with (Z.shiftl (2 * y + 1) k) by (rewrite Z.shiftl_mul_pow2 by lia; ring).
    replace (- Z.shiftl (2 * y + 1) k) with (Z.shiftl (- (2 * y + 1)) k) by (rewrite !Z.shiftl_mul_pow2 by lia; ring).
    rewrite <- Z.shiftl_land, odd_low, Z.shiftl_1_l. reflexivity.
  - rewrite E, Z.mul_comm, Z.mul_pow2_bits, Z.sub_diag by lia. apply Z.testbit_odd_0.
  - intros j Hj. rewrite E, Z.mul_comm. apply Z.mul_pow2_bits_low. lia.
Qed.

Lemma lowest_0 x : 0 <= x < 2 ^ 32 -> lowest x = 0 -> x = 0.
Proof.
  intros Hx E. destruct (Z.eq_dec x 0); [assumption|]. destruct (lowest_ok x ltac:(lia)) as (k & Hk & E' & _). lia.
Qed.

(** Taking out and putting in one bit. *)
Lemma clear_bit x k : 0 <= k -> Z.testbit x k = true -> x - 2 ^ k = Z.clearbit x k.
Proof.
  intros Hk H. rewrite Z.clearbit_spec', <- Z.sub_nocarry_ldiff; [reflexivity|].
  apply Z.bits_inj'; intros i Hi. rewrite Z.ldiff_spec, Z.pow2_bits_eqb, Z.bits_0 by lia.
  destruct (Z.eqb_spec k i) as [<-|]; [now rewrite H|reflexivity].
Qed.

Lemma add_bit x k : 0 <= k -> Z.testbit x k = false -> x + 2 ^ k = Z.setbit x k.
Proof.
  intros Hk H. rewrite Z.setbit_spec', Z.add_nocarry_lxor.
  - apply Z.bits_inj'; intros i Hi. rewrite Z.lxor_spec, Z.lor_spec, Z.pow2_bits_eqb by lia.
    destruct (Z.eqb_spec k i) as [<-|]; [now rewrite H|now rewrite orb_false_r, xorb_false_r].
  - apply Z.bits_inj'; intros i Hi. rewrite Z.land_spec, Z.pow2_bits_eqb, Z.bits_0 by lia.
    destruct (Z.eqb_spec k i) as [<-|]; [now rewrite H|apply andb_false_r].
Qed.

(** A set of slots: the bits below [n]. *)
Definition bits_below (n x : Z) : Prop := 0 <= x /\ forall i, n <= i -> Z.testbit x i = false.

Lemma bits_below_range n x : 0 <= n -> bits_below n x -> 0 <= x < 2 ^ n.
Proof.
  intros Hn [H0 H]. split; [assumption|]. destruct (Z.eq_dec x 0) as [->|Hx]; [lia|].
  apply Z.log2_lt_pow2; [lia|]. apply Z.nle_gt. intros HL.
  specialize (H (Z.log2 x) HL). rewrite Z.bit_log2 in H by lia. discriminate.
Qed.

Lemma bits_eq n x y :
  bits_below n x -> bits_below n y -> (forall i, 0 <= i < n -> Z.testbit x i = Z.testbit y i) -> x = y.
Proof.
  intros [_ Hx] [_ Hy] H. apply Z.bits_inj'; intros i Hi.
  destruct (Z.lt_ge_cases i n); [apply H; lia|now rewrite Hx, Hy].
Qed.

Lemma bits_zero n x : bits_below n x -> (forall i, 0 <= i < n -> Z.testbit x i = false) -> x = 0.
Proof.
  intros Hx H. apply (bits_eq n); [assumption|split; [lia|intros; apply Z.bits_0]|].
  intros i Hi. now rewrite Z.bits_0, H.
Qed.

Lemma land_bit_zero x i : 0 <= i -> Z.land x (Z.shiftl 1 i) = 0 <-> Z.testbit x i = false.
Proof.
  intros Hi. rewrite Z.shiftl_1_l, land_bit by lia.
  destruct (Z.testbit x i); split; try easy. assert (0 < 2 ^ i) by lia. lia.
Qed.
