(* ===== verification/Frames.v ===== *)
(** * Frames: the headers of allocations

    What enframe, set_size, get_meta and get_nominal_size of Malloc do to the bytes
    of one slot: the header in front of an allocation ([hdr_enc]) says which slot of
    which group it is in, and the bytes behind it how long it is ([size_enc]). *)

From stdpp Require Import gmap list.
From Stdlib Require Import ZArith Lia ZifyBool.
From S2P Require Import Prelude Malloc Slots.
Open Scope Z_scope.
Open Scope heap_scope.

(** ** Running the monad

    [wp m s Q]: from [s] the code [m] runs to the end and leaves an answer and a
    state that satisfy [Q]. *)

Section Wp.
Context {K : Type}.
Notation M := (@M K).

Definition wp {A} (m : M A) (s : heap K) (Q : A -> heap K -> Prop) : Prop :=
  match m s with Some (a, s') => Q a s' | None => False end.

Lemma wp_run {A} (m : M A) s Q : wp m s Q -> exists a s', m s = Some (a, s') /\ Q a s'.
Proof. unfold wp. destruct (m s) as [[a s']|]; [eauto|easy]. Qed.

Lemma wp_eq {A} (m : M A) s a s' (Q : A -> heap K -> Prop) : m s = Some (a, s') -> Q a s' -> wp m s Q.
Proof. unfold wp. now intros ->. Qed.

Lemma wp_mono {A} (m : M A) s (Q Q' : A -> heap K -> Prop) :
  wp m s Q -> (forall a s', Q a s' -> Q' a s') -> wp m s Q'.
Proof. unfold wp. destruct (m s) as [[a s']|]; auto. Qed.

Lemma wp_bind {A B} (e : M A) (k : A -> M B) s Q : wp e s (fun a s' => wp (k a) s' Q) -> wp (mbind e k) s Q.
Proof. unfold wp, mbind. now destruct (e s) as [[a s']|]. Qed.

Lemma wp_ret {A} (a : A) s (Q : A -> heap K -> Prop) : Q a s -> wp (ret a) s Q.
Proof. auto. Qed.

Lemma wp_assert b s (Q : unit -> heap K -> Prop) : b = true -> Q tt s -> wp (assert b) s Q.
Proof. now intros ->. Qed.

Lemma wp_gets {A} (f : heap K -> A) s (Q : A -> heap K -> Prop) : Q (f s) s -> wp (gets f) s Q.
Proof. auto. Qed.

Lemma wp_modify f s (Q : unit -> heap K -> Prop) : Q tt (f s) -> wp (modify f) s Q.
Proof. auto. Qed.

Lemma wp_access {A} (o : option A) a s (Q : A -> heap K -> Prop) : o = Some a -> Q a s -> wp (access o) s Q.
Proof. now intros ->. Qed.

Lemma wp_deref m x s (Q : meta -> heap K -> Prop) : metas s !! m = Some x -> Q x s -> wp (deref m) s Q.
Proof. unfold wp, deref. now intros ->. Qed.

Lemma wp_update m f x s (Q : unit -> heap K -> Prop) :
  metas s !! m = Some x -> Q tt (with_metas (<[m := f x]> (metas s)) s) -> wp (update m f) s Q.
Proof. intros Hx H. unfold update. apply wp_bind. now apply (wp_deref m x). Qed.

Lemma wp_byte a s (Q : Z -> heap K -> Prop) : Q (bytes s a) s -> wp (get_byte a) s Q.
Proof. auto. Qed.
Lemma wp_word n a s (Q : Z -> heap K -> Prop) : Q (load n (bytes s) a) s -> wp (get_word n a) s Q.
Proof. auto. Qed.
Lemma wp_put_byte a v s (Q : unit -> heap K -> Prop) :
  Q tt (with_bytes ((bytes s)<{a := u8 v}>) s) -> wp (put_byte a v) s Q.
Proof. auto. Qed.
Lemma wp_put_word n a v s (Q : unit -> heap K -> Prop) :
  Q tt (with_bytes (store n (bytes s) a v) s) -> wp (put_word n a v) s Q.
Proof. auto. Qed.

Lemma with_bytes_same (s : heap K) : with_bytes (bytes s) s = s.
Proof. now destruct s. Qed.
End Wp.

(** One step of the code. *)
Ltac wp_step :=
  lazymatch goal with
  | |- wp (mbind _ _) _ _ => apply wp_bind
  | |- wp (ret _) _ _ => apply wp_ret
  | |- wp (assert _) _ _ => apply wp_assert
  | |- wp (gets _) _ _ => apply wp_gets
  | |- wp (modify _) _ _ => apply wp_modify
  | |- wp (on_bytes _) _ _ => apply wp_modify
  | |- wp (on_metas _) _ _ => apply wp_modify
  | |- wp (on_areas _) _ _ => apply wp_modify
  | |- wp (on_mctx _) _ _ => apply wp_modify
  | |- wp (on_cnts _) _ _ => apply wp_modify
  | |- wp (on_active _) _ _ => apply wp_modify
  | |- wp (set_errno _) _ _ => apply wp_modify
  | |- wp (get_byte _) _ _ => apply wp_byte
  | |- wp (get_word _ _) _ _ => apply wp_word
  | |- wp (put_byte _ _) _ _ => apply wp_put_byte
  | |- wp (put_word _ _ _) _ _ => apply wp_put_word
  end; cbv beta.
Ltac wp_steps := repeat wp_step.

(** ** Groups

    The place and the shape of a group: its address, the size and number of its
    slots, its class, and how many pages it has of its own. *)

Record geom : Type := Geom { gbase : Z; gstride : Z; gcnt : Z; gsc : Z; gpages : Z }.

(** The bytes of slot [i] lie between its start and the byte behind its end,
    which is the byte in front of the header of the next one. *)
Definition start (G : geom) (i : Z) : Z := gbase G + UNIT + gstride G * i.
Definition pin (G : geom) (i : Z) : Z := start G i - IB.

Definition own_pages (G : geom) : Prop := gpages G <> 0.
Definition single (G : geom) : Prop := gcnt G = 1 /\ own_pages G.

Record geom_ok (G : geom) : Prop := {
  go_cnt : 1 <= gcnt G <= 32;
  go_class : 0 <= gsc G < 48 \/ gsc G = 63 /\ single G;
  go_base : 0 < gbase G /\ gbase G mod 16 = 0;
  go_stride : 16 <= gstride G /\ gstride G mod 16 = 0;
  go_end : start G (gcnt G) <= 2 ^ 47;
  go_pages : 0 <= gpages G <= 2 ^ 35;
  go_mapped : own_pages G -> gbase G mod 4096 = 0 /\ start G (gcnt G) <= gbase G + gpages G * 4096;
  go_single : single G -> gstride G = gpages G * 4096 - UNIT;
  go_several : ~ single G -> gstride G = UNIT * class_units (gsc G) /\ gstride G * gcnt G < 65536 * UNIT;
  go_odd : single G -> gsc G < 48 ->
    gstride G < UNIT * class_units (gsc G) /\ 256 <= class_units (gsc G) \/
    UNIT * class_units (gsc G) <= gstride G <= UNIT * class_units (gsc G) + 4095 /\ 767 <= class_units (gsc G)
}.

(** The fields of a struct meta that say so. *)
Definition describes (x : meta) (G : geom) : Prop :=
  gmem x = gbase G /\ last_idx x = gcnt G - 1 /\ sizeclass x = gsc G /\ maplen x = gpages G /\ freeable x = 1.

Lemma stride_of x G : geom_ok G -> describes x G -> get_stride x = gstride G.
Proof.
  intros HG (Hm & Hl & Hc & Hp & _). unfold get_stride. rewrite Hl, Hc, Hp.
  pose proof (go_pages G HG). destruct (Z.eq_dec (gcnt G) 1) as [E1|E1]; [destruct (Z.eq_dec (gpages G) 0) as [E2|E2]|].
  - rewrite E2. replace ((gcnt G - 1 =? 0) && _) with false by lia.
    symmetry. apply (go_several G HG). intros [_ H1]. now apply H1.
  - replace ((gcnt G - 1 =? 0) && negb (gpages G =? 0)) with true by lia.
    rewrite (go_single G HG), u64_small by (split; assumption || lia). reflexivity.
  - replace ((gcnt G - 1 =? 0) && _) with false by lia. symmetry. apply (go_several G HG). intros [H1 _]. contradiction.
Qed.

Lemma pin_start G i : pin G (i + 1) = start G i + gstride G - IB.
Proof. unfold pin, start. lia. Qed.

Lemma start_aligned G i : geom_ok G -> start G i mod 16 = 0.
Proof.
  intros HG. unfold start, UNIT. destruct (go_base G HG) as [_ Hb]. destruct (go_stride G HG) as [_ Hs].
  rewrite (Z.div_mod (gbase G) 16), (Z.div_mod (gstride G) 16), Hb, Hs by lia.
  replace (_ + _) with ((gbase G / 16 + 1 + gstride G / 16 * i) * 16) by ring. apply Z_mod_mult.
Qed.

(** ** The size of an allocation *)

(** [n] bytes at [p] in a slot that ends at [end_]: the reserved bytes behind. *)
Definition size_enc (m : mem) (p end_ n : Z) : Prop :=
  let r := end_ - p - n in
  0 <= n /\ 0 <= r < 2 ^ 31 /\ Z.shiftr (m (p - 3)) 5 = Z.min r 5 /\
  (0 < r -> m (end_ - r) = 0) /\ (5 <= r -> load 4 m (end_ - 4) = r /\ m (end_ - 5) = 0).

Lemma load_store n m a v : 0 <= v < 256 ^ Z.of_nat n -> load n (store n m a v) a = v.
Proof.
  revert m a v; induction n as [|n IH]; intros m a v Hv; cbn [load store]; [cbn in Hv; lia|].
  rewrite Nat2Z.inj_succ, Z.pow_succ_r in Hv by lia. rewrite IH by zlia. rewrite store_lookup. unfold within.
  replace ((a + 1 <=? a) && _) with false by lia. rewrite mset_eq. zlia.
Qed.

Lemma store_out n m a v x : ~ a <= x < a + Z.of_nat n -> store n m a v x = m x.
Proof. intros Hx. rewrite store_lookup. unfold within. now replace ((a <=? x) && _) with false by lia. Qed.

Lemma load_ext n m m' a : (forall x, a <= x < a + Z.of_nat n -> m' x = m x) -> load n m' a = load n m a.
Proof.
  revert a; induction n as [|n IH]; intros a H; cbn [load]; [reflexivity|].
  rewrite H, IH by lia || (intros x Hx; apply H; lia). reflexivity.
Qed.

Section Frames.
Context {K : Type}.
Implicit Types s : heap K.

Lemma get_nominal_size_ok s p end_ n :
  wf_mem (bytes s) -> end_ < 2 ^ 63 -> 0 < p -> size_enc (bytes s) p end_ n -> bytes s end_ = 0 ->
  wp (get_nominal_size p end_) s (fun r s' => r = n /\ s' = s).
Proof.
  intros Hm He Hp (Hn & Hr & Hb & H0 & H5) Hend. set (r := end_ - p - n) in *.
  unfold get_nominal_size. wp_step. wp_step. rewrite Hb. wp_step.
  apply (wp_mono _ _ (fun a s' => a = r /\ s' = s)).
  - destruct (Z.leb_spec 5 (Z.min r 5)); wp_steps; try lia; (split; [lia|reflexivity]).
  - intros a s' [-> ->]. wp_steps.
    + rewrite u64_small by (unfold r in *; lia). unfold r in *. lia.
    + destruct (Z.eq_dec r 0) as [E|E]; [rewrite E, Z.sub_0_r; lia|]. now rewrite H0 by lia.
    + lia.
    + split; [unfold r; lia|reflexivity].
Qed.

(** set_size writes its code. *)
Lemma set_size_ok s p end_ n (Q : unit -> heap K -> Prop) :
  wf_mem (bytes s) -> 0 <= n -> 0 <= end_ - p - n < 2 ^ 31 ->
  (forall m, wf_mem m -> size_enc m p end_ n -> Z.land (m (p - 3)) 31 = Z.land (bytes s (p - 3)) 31 ->
     (forall b, b <> p - 3 -> ~ p + n <= b < end_ -> m b = bytes s b) -> Q tt (with_bytes m s)) ->
  wp (set_size p end_ n) s Q.
Proof.
  intros Hm Hn Hr HQ. unfold set_size. set (r := end_ - p - n) in *.
  rewrite u64_small, s32_small by lia.
  (* the bytes behind *)
  apply wp_bind. apply (wp_mono _ _ (fun _ s' => exists m, s' = with_bytes m s /\ wf_mem m /\
    (0 < r -> m (end_ - r) = 0) /\ forall b, ~ p + n <= b < end_ -> m b = bytes s b)).
  { destruct (Z.eqb_spec r 0) as [E|E]; cbn [negb]; wp_steps.
    - exists (bytes s). rewrite with_bytes_same. split; [reflexivity|]. split; [assumption|]. split; [lia|auto].
    - eexists. split; [reflexivity|]. split; [now apply mset_wf|]. split; [intros _; apply mset_eq|].
      intros b Hb. cbn. apply mset_ne. unfold r in *. lia. }
  intros _ s1 (m1 & -> & Hm1 & H1 & Ho1). apply wp_bind.
  apply (wp_mono _ _ (fun a s' => exists m, a = Z.min r 5 /\ s' = with_bytes m s /\ wf_mem m /\
    (0 < r -> m (end_ - r) = 0) /\ (5 <= r -> load 4 m (end_ - 4) = r /\ m (end_ - 5) = 0) /\
    forall b, ~ p + n <= b < end_ -> m b = bytes s b)).
  { destruct (Z.leb_spec 5 r) as [E|E]; wp_steps.
    - eexists. split; [lia|]. split; [reflexivity|]. cbn [bytes with_bytes].
      set (m2 := store 4 m1 (end_ - 4) r). assert (Hm2 : wf_mem m2) by now apply store_wf.
      split; [now apply mset_wf|]. split; [|split].
      + intros _. destruct (Z.eq_dec r 5) as [->|]; [apply mset_eq|]. rewrite mset_ne by lia.
        unfold m2. rewrite store_out by (unfold r in *; lia). apply H1. lia.
      + intros _. split; [|apply mset_eq]. rewrite (load_ext 4 m2) by (intros x Hx; apply mset_ne; lia).
        apply load_store. cbn. lia.
      + intros b Hb. rewrite mset_ne by (unfold r in *; lia). unfold m2. rewrite store_out by (unfold r in *; lia). now apply Ho1.
    - exists m1. split; [lia|]. split; [reflexivity|]. split; [assumption|]. split; [assumption|]. split; [lia|assumption]. }
  intros a s2 (m2 & -> & -> & Hm2 & H2 & H5 & Ho2). wp_steps. cbn [bytes with_bytes].
  assert (Hp3 : m2 (p - 3) = bytes s (p - 3)) by (apply Ho2; unfold r in *; lia).
  pose proof (Hm (p - 3)) as Hb. set (v := Z.land (m2 (p - 3)) 31 + Z.shiftl (Z.min r 5) 5).
  assert (HL : Z.land (m2 (p - 3)) 31 = m2 (p - 3) mod 32) by (change 31 with (Z.ones 5); apply Z.land_ones; lia).
  assert (Hv : v = m2 (p - 3) mod 32 + 32 * Z.min r 5) by (unfold v; rewrite HL, Z.shiftl_mul_pow2 by lia; lia).
  assert (Hv8 : 0 <= v < 256) by zlia. rewrite u8_small by assumption.
  apply (HQ (m2<{p - 3 := v}>)).
  - now apply mset_wf.
  - unfold size_enc. fold r. rewrite mset_eq. split; [assumption|]. split; [assumption|]. split; [|split].
    + rewrite Z.shiftr_div_pow2, Hv by lia. change (2 ^ 5) with 32. zlia.
    + intros Hr0. rewrite mset_ne by (unfold r in *; lia). now apply H2.
    + intros Hr5. destruct (H5 Hr5) as [HL4 H55]. rewrite mset_ne by (unfold r in *; lia). split; [|assumption].
      rewrite (load_ext 4 m2); [assumption|]. intros x Hx. apply mset_ne. unfold r in *. lia.
  - rewrite mset_eq, Hv. change 31 with (Z.ones 5). rewrite !Z.land_ones, Hp3 by lia. change (2 ^ 5) with 32. zlia.
  - intros b Hb1 Hb2. rewrite mset_ne by assumption. now apply Ho2.
Qed.

(** ** The header of an allocation *)

(** The header in front of [p] says: slot [i], at this distance from the group. *)
Definition hdr_enc (m : mem) (G : geom) (i p : Z) : Prop :=
  let off := (p - (gbase G + UNIT)) / UNIT in
  p mod 16 = 0 /\ 0 <= off < 2 ^ 27 /\ p <= start G (gcnt G) /\
  (gsc G < 48 -> class_units (gsc G) * i <= off < class_units (gsc G) * (i + 1)) /\
  Z.land (m (p - 3)) 31 = i /\
  (m (p - 4) = 0 /\ load 2 m (p - 2) = off \/
   m (p - 4) <> 0 /\ load 2 m (p - 2) = 0 /\ load 4 m (p - 8) = off /\ 0xffff < off).

(** What is left of a slot is shared out by the offset of the allocation. *)
Lemma offset_fits slack off :
  0 <= slack < off -> off < 256 ->
  let m := Z.lor slack (Z.shiftr slack 1) in
  let m := Z.lor m (Z.shiftr m 2) in
  let m := Z.lor m (Z.shiftr m 4) in
  let off := Z.land off m in
  0 <= (if slack <? off then off - (slack + 1) else off) <= slack.
Proof.
  intros Hs Ho. cbv zeta. destruct (Z.eq_dec slack 0) as [->|H0].
  { do 4 rewrite ?Z.shiftr_0_l, ?Z.lor_0_l. rewrite Z.land_0_r. change (0 <? 0) with false. lia. }
  set (t := Z.log2 slack). assert (Ht : 0 <= t < 8).
  { split; [apply Z.log2_nonneg|]. apply Z.log2_lt_pow2; lia. }
  assert (Hlog : 2 ^ t <= slack < 2 ^ (t + 1)) by (apply Z.log2_spec; lia).
  pose proof (smear_start slack ltac:(lia)) as S1. fold t in S1. apply (smear_step _ 1) in S1; [|lia].
  apply (smear_step _ 2) in S1; [|lia]. apply (smear_step _ 4) in S1; [|lia].
  apply smear_all in S1; [|lia]. change (2 * 2) with 4 in S1. change (2 * 1) with 2 in S1. rewrite S1.
  rewrite Z.land_ones by lia. rewrite Z.pow_add_r in Hlog by lia. change (2 ^ 1) with 2 in Hlog.
  assert (Hm : 0 <= off mod 2 ^ (t + 1) < 2 ^ (t + 1)) by (apply Z.mod_pos_bound; lia).
  rewrite Z.pow_add_r in Hm |- * by lia. change (2 ^ 1) with 2 in *. destruct (Z.ltb_spec slack (off mod (2 ^ t * 2))); lia.
Qed.

(** Room for [n] bytes in a slot, with the rest of it shorter than a class. *)
Definition fits (G : geom) (n : Z) : Prop :=
  0 <= n /\ n + IB <= gstride G < n + 2 ^ 18 /\
  (gsc G < 48 -> gstride G <= UNIT * class_units (gsc G) \/ gstride G - n + 2048 <= UNIT * class_units (gsc G)).

Lemma wp_enframe s g x G i n ctr (Q : Z -> heap K -> Prop) :
  metas s !! g = Some x -> describes x G -> geom_ok G -> 0 <= i < gcnt G -> fits G n ->
  wf_mem (bytes s) -> bytes s (pin G i) = 0 ->
  (forall m p, wf_mem m -> start G i <= p -> p + n <= pin G (i + 1) -> hdr_enc m G i p -> m (p - 4) = 0 ->
     size_enc m p (pin G (i + 1)) n -> (n = gstride G - IB -> p = start G i) ->
     (forall b, ~ pin G i < b < pin G (i + 1) -> m b = bytes s b) -> (forall b, p <= b < p + n -> m b = bytes s b) ->
     Q p (with_bytes m s)) ->
  wp (enframe g i n ctr) s Q.
Proof.
  intros Hx HD HG Hi (Hn & Hfit & Hcl) Hm Hpin HQ. unfold enframe. wp_step. apply (wp_deref g x _ _ Hx).
  rewrite (stride_of x G HG HD). destruct HD as (Hmem & _). rewrite Hmem.
  change (storage (gbase G) + gstride G * i) with (start G i).
  replace (start G i + gstride G - IB) with (pin G (i + 1)) by apply pin_start.
  pose proof (go_stride G HG) as [Hst Hst16]. pose proof (go_base G HG) as [Hb0 Hb16]. pose proof (start_aligned G i HG) as Hal.
  pose proof (go_end G HG) as Hend.
  assert (Hslot : start G i + gstride G <= start G (gcnt G)) by (unfold start; nia).
  assert (Hs0 : gbase G + UNIT <= start G i) by (unfold start, UNIT; nia).
  rewrite u64_small by (unfold IB in *; lia). set (slack := (gstride G - IB - n) / UNIT) in *.
  assert (Hsl : 0 <= slack /\ 16 * slack <= gstride G - 4 - n < 16 * slack + 16) by (unfold slack, IB, UNIT in *; zlia).
  unfold IB in Hfit.
  (* the offset *)
  do 8 wp_step.
  { replace (start G i - 4) with (pin G i) by (unfold pin, IB; lia). lia. }
  set (off0 := Z.land _ 255).
  assert (Hoff0 : 0 <= off0 < 256).
  { unfold off0. change 255 with (Z.ones 8). rewrite Z.land_ones by lia. apply Z.mod_pos_bound. lia. }
  wp_step. apply (wp_mono _ _ (fun off s' => 0 <= off <= slack /\ off < 256 /\ s' = s)).
  { destruct (Z.ltb_spec slack off0); [|wp_steps; split; [lia|split; [lia|reflexivity]]].
    pose proof (offset_fits slack off0 ltac:(lia) ltac:(lia)) as HO. cbv zeta in HO.
    wp_steps; [lia|]. split; [exact HO|]. split; [lia|reflexivity]. }
  intros off s' (Hoff & Hoff8 & ->).
  (* the address *)
  set (p := start G i + UNIT * off).
  assert (Hp : start G i <= p /\ p + n + 4 <= start G i + gstride G /\ p mod 16 = 0).
  { unfold p, UNIT. split; [lia|]. split; [lia|]. rewrite Z.mul_comm, Z_mod_plus_full. assumption. }
  wp_step. apply (wp_mono _ _ (fun p' s' => p' = p /\ exists m, s' = with_bytes m s /\ wf_mem m /\ m (p - 4) = 0 /\
    (forall b, ~ pin G i < b < pin G (i + 1) -> m b = bytes s b) /\ forall b, p <= b -> m b = bytes s b)).
  { rewrite pin_start. unfold pin, IB. destruct (Z.eqb_spec off 0) as [E|E]; cbn [negb]; wp_steps.
    - split; [unfold p, UNIT; lia|]. exists (bytes s). rewrite with_bytes_same. split; [reflexivity|]. split; [assumption|].
      split; [|split; auto]. unfold p. rewrite E, Z.mul_0_r, Z.add_0_r. exact Hpin.
    - split; [reflexivity|]. eexists. split; [reflexivity|]. cbn [bytes with_bytes]. fold p.
      split; [apply mset_wf; [apply mset_wf; [now apply store_wf|apply u8_range]|apply u8_range]|]. split; [apply mset_eq|].
      split; intros b Hb; unfold p, UNIT in *; rewrite !mset_ne, store_out by lia; reflexivity. }
  intros p' s' (-> & m1 & -> & Hm1 & Hz & Ho1 & Hc1). change (storage (gbase G)) with (gbase G + UNIT).
  wp_step. wp_step. wp_step. wp_step. cbn [bytes with_bytes].
  set (o := (p - (gbase G + UNIT)) / UNIT). set (m2 := (store 2 m1 (p - 2) o)<{p - 3 := u8 i}>).
  assert (Ho : 0 <= o < 65536 /\ (gsc G < 48 -> class_units (gsc G) * i <= o < class_units (gsc G) * (i + 1))).
  { assert (Eo : o = gstride G / 16 * i + off).
    { unfold o, p, start, UNIT. rewrite (Z.div_mod (gstride G) 16) at 1 by lia. rewrite Hst16.
      replace (_ - _) with ((gstride G / 16 * i + off) * 16) by ring. apply Z_div_mult. lia. }
    destruct (Z.eq_dec (gcnt G) 1) as [E1|E1]; [destruct (Z.eq_dec (gpages G) 0) as [E2|E2]|].
    - destruct (go_several G HG) as [E3 E4]; [intros [_ H1]; now apply H1|].
      assert (i = 0) by lia. subst i. rewrite Eo. rewrite E1 in E4. unfold UNIT in *. lia.
    - assert (i = 0) by lia. subst i. rewrite Eo. split; [lia|]. intros H48. specialize (Hcl H48). unfold UNIT in *. lia.
    - destruct (go_several G HG) as [E3 E4]; [intros [H1 _]; contradiction|].
      rewrite Eo, E3. unfold UNIT in *. replace (16 * class_units (gsc G) / 16) with (class_units (gsc G)) by zlia.
      rewrite E3 in *. split; [nia|]. intros _. nia. }
  destruct Ho as [Ho Hou].
  assert (Hm2 : wf_mem m2) by (unfold m2; apply mset_wf; [now apply store_wf|apply u8_range]).
  assert (Hm2o : forall b, b < p - 3 \/ p <= b -> m2 b = m1 b)
    by (intros b Hb; unfold m2; rewrite mset_ne, store_out by lia; reflexivity).
  wp_step. apply set_size_ok; [exact Hm2|assumption|rewrite pin_start; unfold IB, p, UNIT; lia|].
  cbn [bytes with_bytes]. intros m Hwf Hsz H31 Ho3. wp_step.
  change (with_bytes m (with_bytes m2 (with_bytes (store 2 m1 (p - 2) o) (with_bytes m1 s)))) with (with_bytes m s).
  rewrite pin_start in *. unfold IB in *.
  assert (Hz' : m (p - 4) = 0) by (rewrite Ho3, Hm2o by lia; assumption).
  apply HQ; try assumption; try lia.
  - unfold hdr_enc. fold o. split; [apply Hp|]. split; [lia|]. split; [lia|]. split; [exact Hou|]. split.
    + rewrite H31. unfold m2. rewrite mset_eq. change 31 with (Z.ones 5). rewrite Z.land_ones by lia.
      rewrite u8_small by (pose proof (go_cnt G HG); lia). apply Z.mod_small. pose proof (go_cnt G HG). change (2 ^ 5) with 32. lia.
    + left. split; [exact Hz'|]. rewrite (load_ext 2 (store 2 m1 (p - 2) o)); [apply load_store; cbn; lia|].
      intros x' Hx'. rewrite Ho3 by lia. unfold m2. apply mset_ne. lia.
  - intros b Hb. unfold pin, IB in Ho1, Hb. rewrite Ho3, Hm2o by (unfold p, UNIT in *; lia). apply Ho1. lia.
  - intros b Hb. rewrite Ho3, Hm2o by lia. apply Hc1. lia.
Qed.

(** A struct meta that get_meta accepts: in bootstrap_meta, or in a meta area with
    the secret. *)
Definition trusted (bootstrap : Z) s (g : Z) : Prop :=
  let u := bootstrap_meta_used (mctx s) in
  (bootstrap <= g < bootstrap + u * SIZEOF_META /\ (g - bootstrap) mod SIZEOF_META = 0) \/
  exists a, areas s !! Z.land g (-4096) = Some a /\ check a = secret (mctx s).

Lemma wp_slot_index s p i (Q : Z -> heap K -> Prop) :
  Z.land (bytes s (p - 3)) 31 = i -> Q i s -> wp (get_slot_index p) s Q.
Proof. intros <- HQ. exact HQ. Qed.

(** The size of a group of its own, in units, bounds the offsets. *)
Lemma offset_pages G p :
  geom_ok G -> own_pages G -> p <= start G (gcnt G) ->
  (p - (gbase G + UNIT)) / UNIT <= u64 (gpages G * 4096) / UNIT - 1.
Proof.
  intros HG Ho Hp. destruct (go_mapped G HG Ho) as [_ He]. pose proof (go_pages G HG). rewrite u64_small by lia.
  unfold UNIT in *. rewrite (Z.mul_comm (gpages G)). change 4096 with (16 * 256). rewrite <- Z.mul_assoc, Z.mul_comm, Z_div_mult by lia. zlia.
Qed.

Lemma wp_get_meta bootstrap s g x G i p (Q : Z -> heap K -> Prop) :
  metas s !! g = Some x -> describes x G -> geom_ok G -> trusted bootstrap s g -> wf_mem (bytes s) ->
  load 8 (bytes s) (gbase G) = g -> 0 <= i < gcnt G -> hdr_enc (bytes s) G i p ->
  Z.testbit (avail_mask x) i = false -> Z.testbit (freed_mask x) i = false ->
  Q g s -> wp (get_meta bootstrap p) s Q.
Proof.
  intros Hx HD HG HT Hm Hg Hi (Hp16 & Ho & Hpe & Hcl & Hidx & Henc) Ha Hf HQ.
  unfold get_meta. destruct HD as (Hmem & Hlast & Hsc & Hml & _). set (off := (p - (gbase G + UNIT)) / UNIT) in *.
  destruct (go_base G HG) as [Hb0 Hb16].
  assert (Hoff : UNIT * off = p - gbase G - UNIT).
  { unfold off, UNIT. pose proof (Z.div_mod (p - (gbase G + 16)) 16 ltac:(lia)).
    assert ((p - (gbase G + 16)) mod 16 = 0) by zlia. lia. }
  wp_step. wp_step. { change 15 with (Z.ones 4). rewrite Z.land_ones by lia. change (2 ^ 4) with 16. lia. }
  wp_step. wp_step. wp_step. apply (wp_slot_index _ _ i _ Hidx). wp_step. wp_step. wp_step.
  apply (wp_mono _ _ (fun o s' => o = off /\ s' = s)).
  { destruct Henc as [[H4 H2]|(H4 & H2 & H8 & Hbig)].
    - rewrite H4. change (negb (0 =? 0)) with false. wp_steps. split; [exact H2|reflexivity].
    - replace (negb (bytes s (p - 4) =? 0)) with true by lia. rewrite H2.
      wp_steps; rewrite ?H8, ?s32_small by lia; try lia. split; reflexivity. }
  intros o s' [-> ->]. rewrite s32_small by (unfold UNIT in *; lia). rewrite Hoff.
  replace (p - (p - gbase G - UNIT) - UNIT) with (gbase G) by lia.
  wp_step. wp_step. rewrite Hg. wp_step. apply (wp_deref g x _ _ Hx).
  pose proof (go_cnt G HG) as Hcnt.
  wp_step. wp_step; [lia|]. wp_step. wp_step; [lia|].
  wp_step. wp_step; [apply Z.eqb_eq; now apply land_bit_zero|].
  wp_step. wp_step; [apply Z.eqb_eq; now apply land_bit_zero|].
  wp_step. apply (wp_mono _ _ (fun b s' => s' = s /\ (b = true \/ exists a, areas s !! Z.land g (-4096) = Some a /\ check a = secret (mctx s)))).
  { unfold is_bootstrap_meta. wp_steps. split; [reflexivity|]. destruct HT as [[H1 H2]|H1]; [left|now right].
    replace ((g <? bootstrap) || _) with false by lia. lia. }
  intros b s' [-> Hb]. wp_step. apply (wp_mono _ _ (fun _ s' => s' = s)).
  { destruct b; wp_steps; [reflexivity|]. destruct Hb as [Hb|(a & Ea & Ec)]; [discriminate|].
    apply (wp_access _ a _ _ Ea). wp_steps; [lia|reflexivity]. }
  intros _ s' ->. rewrite Hsc, Hml. wp_step. apply (wp_mono _ _ (fun _ s' => s' = s)).
  { destruct (Z.ltb_spec (gsc G) 48) as [H48|H48]; wp_steps; try reflexivity;
      [specialize (Hcl H48); lia..|destruct (go_class G HG) as [H|[H _]]; lia]. }
  intros _ s' ->. wp_step. apply (wp_mono _ _ (fun _ s' => s' = s)).
  { destruct (Z.eqb_spec (gpages G) 0) as [E|E]; cbn [negb]; wp_steps; [reflexivity| |reflexivity].
    pose proof (offset_pages G p HG E Hpe). fold off in H. lia. }
  intros _ s' ->. wp_step. exact HQ.
Qed.
End Frames.
