(* ===== verification/Rings.v ===== *)
(** * Rings: the lists of groups of Malloc

    The struct metas of a list are linked in a ring; the cell of the list points to
    its first element.  queue appends an element, dequeue takes one out, and both
    change links only. *)

From stdpp Require Import gmap list.
From Stdlib Require Import ZArith Lia ZifyBool.
From S2P Require Import Prelude Malloc Slots Frames.
Open Scope Z_scope.
Open Scope heap_scope.

(** ** Rings of successors and predecessors *)

Section Path.
Variables nx pv : Z -> Z.

(** From [a] through [l] to [b]. *)
Fixpoint path (a : Z) (l : list Z) (b : Z) : Prop :=
  match l with
  | [] => nx a = b /\ pv b = a
  | x :: l => nx a = x /\ pv x = a /\ path x l b
  end.

Definition ring (l : list Z) : Prop := match l with [] => True | h :: t => path h t h end.

Lemma path_app a l1 x l2 b : path a (l1 ++ x :: l2) b <-> path a l1 x /\ path x l2 b.
Proof.
  revert a; induction l1 as [|y l1 IH]; intros a; cbn [app path]; [tauto|]. rewrite IH. tauto.
Qed.

Lemma ring_rotate a b : ring (a ++ b) -> ring (b ++ a).
Proof.
  destruct a as [|h t]; [rewrite app_nil_r; auto|]. destruct b as [|x u]; [rewrite app_nil_r; auto|].
  cbn [app ring]. intros HR. apply path_app in HR. apply path_app. tauto.
Qed.
End Path.

Lemma path_ext nx pv nx' pv' a l b :
  (forall k, In k (a :: l) -> nx' k = nx k) -> (forall k, In k (l ++ [b]) -> pv' k = pv k) ->
  path nx pv a l b -> path nx' pv' a l b.
Proof.
  revert a; induction l as [|x l IH]; intros a Hn Hp; cbn [path app] in *.
  - intros [E1 E2]. split; [rewrite Hn by now left|rewrite Hp by now left]; assumption.
  - intros (E1 & E2 & H). split; [rewrite (Hn a) by (now left); exact E1|]. split; [rewrite (Hp x) by (now left); exact E2|].
    apply IH; [intros k Hk; apply Hn; now right|intros k Hk; apply Hp; now right|assumption].
Qed.

Lemma ring_ext nx pv nx' pv' l :
  (forall k, In k l -> nx' k = nx k /\ pv' k = pv k) -> ring nx pv l -> ring nx' pv' l.
Proof.
  destruct l as [|h t]; [easy|]. cbn [ring]. intros H. apply path_ext; intros k Hk; [now apply H|].
  apply H. apply in_app_or in Hk. cbn in *. tauto.
Qed.

(** The last element before [b], linked to something else. *)
Lemma path_relink nx pv a l b m :
  path nx pv a l b -> NoDup (a :: l) ->
  let z := List.last (a :: l) a in
  nx z = b /\ pv b = z /\ In z (a :: l) /\
  forall nx' pv', (forall k, k <> z -> In k (a :: l) -> nx' k = nx k) -> (forall k, In k l -> pv' k = pv k) ->
    nx' z = m -> pv' m = z -> path nx' pv' a l m.
Proof.
  revert a; induction l as [|x l IH]; intros a HP Hnd; cbn zeta.
  - cbn in *. destruct HP as [H1 H2]. split; [assumption|]. split; [assumption|]. split; [now left|]. auto.
  - cbn [path] in HP. destruct HP as (H1 & H2 & H3). apply NoDup_cons in Hnd as [Ha Hnd].
    assert (Hlast : forall d, List.last (a :: x :: l) d = List.last (x :: l) x).
    { intros d. change (List.last (a :: x :: l) d) with (List.last (x :: l) d). clear. revert x d.
      induction l as [|y l IH]; intros x d; [reflexivity|].
      change (List.last (x :: y :: l) d) with (List.last (y :: l) d).
      change (List.last (x :: y :: l) x) with (List.last (y :: l) x). now rewrite (IH y d), (IH y x). }
    rewrite Hlast. destruct (IH x H3 Hnd) as (Z1 & Z2 & Z3 & Z4).
    split; [assumption|]. split; [assumption|]. split; [now right|]. intros nx' pv' Hn Hp E1 E2. cbn [path].
    split; [|split].
    + rewrite Hn; [assumption| |now left]. intros ->. apply Ha. apply list_elem_of_In. exact Z3.
    + rewrite Hp by (now left). assumption.
    + apply Z4; [|intros k Hk; apply Hp; now right|assumption|assumption].
      intros k Hk Hin. apply Hn; [assumption|now right].
Qed.

(** Appending [m]. *)
Lemma ring_append nx pv h t m nx' pv' :
  ring nx pv (h :: t) -> NoDup (h :: t) -> ~ In m (h :: t) ->
  nx' m = h -> pv' h = m -> nx' (pv h) = m -> pv' m = pv h ->
  (forall k, k <> m -> k <> pv h -> nx' k = nx k) -> (forall k, k <> m -> k <> h -> pv' k = pv k) ->
  ring nx' pv' (h :: t ++ [m]).
Proof.
  intros HR Hnd Hm E1 E2 E3 E4 Hn Hp. cbn [ring] in *. rewrite path_app.
  destruct (path_relink nx pv h t h m HR Hnd) as (Z1 & Z2 & Z3 & Z4). rewrite Z2 in *. split; [|cbn; auto].
  apply NoDup_cons in Hnd as [Hh Hnd]. apply Z4; try assumption.
  - intros k Hk Hin. apply Hn; [|assumption]. intros ->. contradiction.
  - intros k Hin. apply Hp; intros ->; [apply Hm; now right|]. apply Hh. now apply list_elem_of_In.
Qed.

(** Taking out [m]. *)
Lemma ring_remove nx pv l1 m l2 nx' pv' :
  ring nx pv (l1 ++ m :: l2) -> NoDup (l1 ++ m :: l2) -> l1 ++ l2 <> [] ->
  nx' (pv m) = nx m -> pv' (nx m) = pv m ->
  (forall k, k <> m -> k <> pv m -> nx' k = nx k) -> (forall k, k <> m -> k <> nx m -> pv' k = pv k) ->
  ring nx' pv' (l1 ++ l2) /\ In (nx m) (l1 ++ l2) /\ In (pv m) (l1 ++ l2).
Proof.
  intros HR Hnd Hne E1 E2 Hn Hp. apply ring_rotate in HR. cbn [app] in HR.
  assert (Hnd' : NoDup (m :: l2 ++ l1)) by (change (NoDup ((m :: l2) ++ l1)); now rewrite (Permutation_app_comm (m :: l2) l1)).
  assert (Hin : forall k, In k (l2 ++ l1) -> In k (l1 ++ l2)) by (intros k Hk; apply in_app_iff in Hk; apply in_app_iff; tauto).
  assert (H : ring nx' pv' (l2 ++ l1) /\ In (nx m) (l2 ++ l1) /\ In (pv m) (l2 ++ l1)).
  { destruct (l2 ++ l1) as [|x r] eqn:Er; [apply app_eq_nil in Er as [-> ->]; now destruct Hne|].
    cbn [ring path] in HR. destruct HR as (N1 & P1 & HP).
    apply NoDup_cons in Hnd' as [Hm Hnd']. apply NoDup_cons in Hnd' as [Hx Hnd''].
    destruct (path_relink nx pv x r m x HP) as (Z1 & Z2 & Z3 & Z4); [now apply NoDup_cons|].
    rewrite N1, Z2 in *. split; [|split; [now left|exact Z3]]. cbn [ring].
    assert (Hnm : forall k, In k (x :: r) -> k <> m) by (intros k Hk ->; apply Hm; now apply list_elem_of_In).
    apply Z4; try assumption.
    - intros k Hk Hin'. apply Hn; [now apply Hnm|assumption].
    - intros k Hin'. apply Hp; [apply Hnm; now right|]. intros ->. apply Hx. now apply list_elem_of_In. }
  destruct H as (H1 & H2 & H3). split; [now apply ring_rotate|]. auto.
Qed.

(** ** The links of struct metas *)

Definition nxt (ms : gmap Z meta) (k : Z) : Z := match ms !! k with Some x => next x | None => 0 end.
Definition prv (ms : gmap Z meta) (k : Z) : Z := match ms !! k with Some x => prev x | None => 0 end.
Definition known (ms : gmap Z meta) (k : Z) : Prop := is_Some (ms !! k).

(** The same but for links. *)
Definition relinked (ms ms' : gmap Z meta) : Prop :=
  forall k, match ms !! k, ms' !! k with
            | Some x, Some y => y = with_prev (prev y) (with_next (next y) x)
            | None, None => True
            | _, _ => False
            end.

Lemma relinked_refl ms : relinked ms ms.
Proof. intros k. destruct (ms !! k) as [[]|]; reflexivity || exact I. Qed.

Lemma relinked_trans ms1 ms2 ms3 : relinked ms1 ms2 -> relinked ms2 ms3 -> relinked ms1 ms3.
Proof.
  intros H1 H2 k. specialize (H1 k). specialize (H2 k).
  destruct (ms1 !! k) as [[]|], (ms2 !! k) as [[]|], (ms3 !! k) as [[]|]; try easy.
  injection H1 as -> -> -> -> -> -> ->. injection H2 as -> -> -> -> -> -> ->. reflexivity.
Qed.

(** [f] changes links only. *)
Definition link_only (f : meta -> meta) : Prop := forall x, f x = with_prev (prev (f x)) (with_next (next (f x)) x).

Lemma relinked_alter ms f k : link_only f -> relinked ms (alter f k ms).
Proof.
  intros Hf j. rewrite lookup_alter. case_decide as E.
  - subst. destruct (ms !! j); cbn; auto.
  - destruct (ms !! j) as [[]|]; reflexivity || exact I.
Qed.

Lemma known_alter ms f k j : known (alter f k ms) j <-> known ms j.
Proof.
  unfold known. rewrite lookup_alter. case_decide as E; [subst|reflexivity].
  destruct (ms !! j); cbn; split; intros [? H]; eauto; discriminate.
Qed.

Lemma nxt_alter_next ms k v j : known ms k -> nxt (alter (with_next v) k ms) j = if decide (k = j) then v else nxt ms j.
Proof. intros [x Hx]. unfold nxt. rewrite lookup_alter. case_decide as E; [subst; now rewrite Hx|reflexivity]. Qed.
Lemma prv_alter_next ms k v j : prv (alter (with_next v) k ms) j = prv ms j.
Proof. unfold prv. rewrite lookup_alter. case_decide as E; [subst; now destruct (ms !! j)|reflexivity]. Qed.
Lemma prv_alter_prev ms k v j : known ms k -> prv (alter (with_prev v) k ms) j = if decide (k = j) then v else prv ms j.
Proof. intros [x Hx]. unfold prv. rewrite lookup_alter. case_decide as E; [subst; now rewrite Hx|reflexivity]. Qed.
Lemma nxt_alter_prev ms k v j : nxt (alter (with_prev v) k ms) j = nxt ms j.
Proof. unfold nxt. rewrite lookup_alter. case_decide as E; [subst; now destruct (ms !! j)|reflexivity]. Qed.

Lemma link_next v : link_only (with_next v).
Proof. now intros []. Qed.
Lemma link_prev v : link_only (with_prev v).
Proof. now intros []. Qed.

Lemma relinked_known ms ms' k : relinked ms ms' -> known ms k <-> known ms' k.
Proof.
  intros H. specialize (H k). unfold known. destruct (ms !! k), (ms' !! k); split; intros [? E]; try easy; eauto.
Qed.

(** A list of groups. *)
Definition ring_ok (ms : gmap Z meta) (l : list Z) : Prop :=
  ring (nxt ms) (prv ms) l /\ NoDup l /\ forall k, In k l -> k <> 0 /\ known ms k.

Definition head_of (l : list Z) : Z := match l with [] => 0 | h :: _ => h end.

Section Rings.
Context {K : Type}.
Implicit Types s : heap K.

Definition cell_get (c : head_cell) s : option Z :=
  match c with FreeMeta => Some (free_meta_head (mctx s)) | Active sc => active s !! Z.to_nat sc end.
Definition cell_set (c : head_cell) (v : Z) s : heap K :=
  match c with
  | FreeMeta =>
      with_mctx (let m := mctx s in Metas (secret m) (init_done m) v (avail_meta m) (avail_meta_count m)
        (avail_meta_area_count m) (meta_alloc_shift m) (meta_area_tail m) (avail_meta_areas m) (bootstrap_meta_used m)) s
  | Active sc => with_active (<[Z.to_nat sc := v]> (active s)) s
  end.

Lemma cell_set_same c v s : cell_get c s = Some v -> cell_set c v s = s.
Proof.
  destruct c; cbn.
  - intros [= <-]. now destruct s as [? ? ? [] ? ? ? ?].
  - intros H. rewrite list_insert_id by assumption. now destruct s.
Qed.

Lemma cell_get_set c v s : cell_get c s <> None -> cell_get c (cell_set c v s) = Some v.
Proof.
  destruct c; cbn; [reflexivity|]. intros H. apply list_lookup_insert_eq.
  destruct (active s !! Z.to_nat sc) eqn:E; [|contradiction]. now apply lookup_lt_Some in E.
Qed.

Lemma wp_get_head c v s (Q : Z -> heap K -> Prop) : cell_get c s = Some v -> Q v s -> wp (get_head c) s Q.
Proof.
  destruct c; cbn [cell_get]; intros Hv HQ.
  - injection Hv as <-. exact HQ.
  - cbn. wp_steps. now apply (wp_access _ v).
Qed.

Lemma wp_set_head c v s (Q : unit -> heap K -> Prop) : Q tt (cell_set c v s) -> wp (set_head c v) s Q.
Proof. destruct c; auto. Qed.

Lemma wp_alter m f s (Q : unit -> heap K -> Prop) :
  known (metas s) m -> Q tt (with_metas (alter f m (metas s)) s) -> wp (update m f) s Q.
Proof.
  intros [x Hx] HQ. apply (wp_update m f x); [assumption|].
  replace (<[m:=f x]> (metas s)) with (alter f m (metas s)); [assumption|].
  apply map_eq. intros j. rewrite lookup_alter, lookup_insert. case_decide as E; [subst; now rewrite Hx|reflexivity].
Qed.

Lemma wp_links m s (Q : meta -> heap K -> Prop) :
  known (metas s) m ->
  (forall x, metas s !! m = Some x -> next x = nxt (metas s) m -> prev x = prv (metas s) m -> Q x s) -> wp (deref m) s Q.
Proof.
  intros [x Hx] HQ. apply (wp_deref m x); [assumption|]. apply HQ; [assumption|unfold nxt|unfold prv]; now rewrite Hx.
Qed.
End Rings.

Ltac alters :=
  repeat first
    [ rewrite nxt_alter_next by (rewrite ?known_alter; assumption)
    | rewrite prv_alter_prev by (rewrite ?known_alter; assumption)
    | rewrite prv_alter_next | rewrite nxt_alter_prev ].

Ltac kn := cbn [metas with_metas]; rewrite ?known_alter; assumption.

Section QueueDequeue.
Context {K : Type}.
Implicit Types s : heap K.

Lemma wp_queue c m l s (Q : unit -> heap K -> Prop) :
  cell_get c s = Some (head_of l) -> ring_ok (metas s) l -> known (metas s) m -> nxt (metas s) m = 0 ->
  prv (metas s) m = 0 -> m <> 0 -> ~ In m l ->
  (forall ms, ring_ok ms (l ++ [m]) -> relinked (metas s) ms ->
     (forall k, k <> m -> ~ In k l -> ms !! k = metas s !! k) ->
     Q tt (cell_set c (head_of (l ++ [m])) (with_metas ms s))) ->
  wp (queue c m) s Q.
Proof.
  intros Hc (HR & Hnd & Hl) Hm Hn Hp Hm0 Hml HQ. unfold queue.
  wp_step. apply wp_links; [assumption|]. intros x Hx Enx Epx. wp_step. wp_step; [lia|]. wp_step. wp_step; [lia|].
  wp_step. apply (wp_get_head c (head_of l)); [assumption|].
  set (ms := metas s) in *.
  destruct l as [|h t]; cbn [head_of] in *.
  - change (negb (0 =? 0)) with false. cbv iota.
    wp_step. apply wp_alter; [assumption|]. wp_step. apply wp_alter; [kn|]. apply wp_set_head.
    cbn [metas with_metas]. apply (HQ (alter (with_prev m) m (alter (with_next m) m ms))).
    + split; [|split; [apply NoDup_singleton|]].
      * cbn. alters. rewrite !decide_True by reflexivity. auto.
      * intros k [<-|[]]. split; [assumption|]. kn.
    + eapply relinked_trans; apply relinked_alter; [apply link_next|apply link_prev].
    + intros k Hk _. rewrite !lookup_alter_ne by congruence. reflexivity.
  - destruct (Hl h) as [Hh0 Hh]; [now left|]. replace (negb (h =? 0)) with true by lia. cbv iota.
    assert (Hhm : h <> m) by (intros ->; apply Hml; now left).
    set (z := prv ms h). assert (Hz : In z (h :: t)).
    { cbn [ring] in HR. destruct (path_relink _ _ h t h 0 HR Hnd) as (_ & Z2 & Z3 & _). unfold z. now rewrite Z2. }
    destruct (Hl z Hz) as [Hz0 Hzk]. assert (Hzm : z <> m) by (intros ->; contradiction).
    wp_step. apply wp_alter; [assumption|]. cbn [metas with_metas]. wp_step. apply wp_links; [kn|].
    cbn [metas with_metas]. intros hd _ _ Ehd. rewrite prv_alter_next in Ehd. fold ms z in Ehd. rewrite Ehd.
    wp_step. apply wp_alter; [kn|]. cbn [metas with_metas].
    wp_step. apply wp_links; [kn|]. cbn [metas with_metas]. fold ms. intros y _ _ Ey.
    rewrite prv_alter_prev in Ey by kn. rewrite decide_True in Ey by reflexivity. rewrite Ey.
    wp_step. apply wp_alter; [kn|]. cbn [metas with_metas].
    wp_step. apply wp_links; [kn|]. cbn [metas with_metas]. fold ms. intros w _ Ew _.
    rewrite nxt_alter_next in Ew by kn. rewrite decide_False in Ew by assumption.
    rewrite nxt_alter_prev, nxt_alter_next, decide_True in Ew by (assumption || reflexivity). rewrite Ew.
    apply wp_alter; [kn|]. cbn [metas with_metas]. fold ms.
    set (ms' := alter _ _ _).
    assert (HS : with_metas ms' (with_metas (alter (with_next m) z (alter (with_prev z) m (alter (with_next h) m ms)))
      (with_metas (alter (with_prev z) m (alter (with_next h) m ms)) (with_metas (alter (with_next h) m ms) s)))
      = cell_set c (head_of ((h :: t) ++ [m])) (with_metas ms' s)).
    { rewrite cell_set_same; [reflexivity|]. destruct c; exact Hc. }
    rewrite HS. apply HQ.
    + split; [|split].
      * cbn [app ring]. apply (ring_append (nxt ms) (prv ms) h t m (nxt ms') (prv ms') HR Hnd Hml); fold z; unfold ms'; alters.
        all: try (intros k Hk1 Hk2; alters); repeat case_decide; congruence.
      * apply NoDup_app. split; [assumption|]. split; [|apply NoDup_singleton].
        intros k Hk. rewrite list_elem_of_singleton. intros ->. apply Hml. now apply list_elem_of_In.
      * intros k Hk. apply in_app_or in Hk as [Hk|[<-|[]]].
        -- destruct (Hl k Hk). split; [assumption|]. unfold ms'. kn.
        -- split; [assumption|]. unfold ms'. kn.
    + unfold ms'. repeat (eapply relinked_trans; [|apply relinked_alter; apply link_next || apply link_prev]). apply relinked_refl.
    + intros k Hk Hin. unfold ms'. rewrite !lookup_alter_ne; [reflexivity|congruence..| |]; intros <-; apply Hin; [assumption|now left].
Qed.

Lemma wp_dequeue c m l1 l2 s (Q : unit -> heap K -> Prop) :
  cell_get c s = Some (head_of (l1 ++ m :: l2)) -> ring_ok (metas s) (l1 ++ m :: l2) ->
  (forall ms, ring_ok ms (l1 ++ l2) -> relinked (metas s) ms -> nxt ms m = 0 -> prv ms m = 0 ->
     (forall k, ~ In k (l1 ++ m :: l2) -> ms !! k = metas s !! k) ->
     Q tt (cell_set c (head_of (l1 ++ l2)) (with_metas ms s))) ->
  wp (dequeue c m) s Q.
Proof.
  intros Hc (HR & Hnd & Hl) HQ. unfold dequeue. set (ms := metas s) in *. set (l := l1 ++ m :: l2) in *.
  assert (Hml : In m l) by (apply in_or_app; right; now left).
  destruct (Hl m Hml) as [Hm0 Hm]. wp_step. apply wp_links; [assumption|]. intros x Hx Enx Epx. fold ms in Hx, Enx, Epx.
  assert (Hnd' : NoDup (l1 ++ l2) /\ ~ In m (l1 ++ l2)).
  { unfold l in Hnd. rewrite <- (Permutation_middle l1 l2 m) in Hnd. apply NoDup_cons in Hnd as [H1 H2].
    split; [assumption|]. now rewrite <- list_elem_of_In. }
  destruct Hnd' as [Hnd' Hmr].
  assert (Hin : forall k, In k (l1 ++ l2) -> In k l).
  { intros k Hk. unfold l. apply in_app_or in Hk. apply in_or_app. destruct Hk; [now left|right; now right]. }
  (* the links after both loops are closed, and m unlinked *)
  set (p := prv ms m) in *. set (n := nxt ms m) in *.
  assert (Hfin : forall ms1, ring (nxt ms1) (prv ms1) (l1 ++ l2) -> relinked ms ms1 ->
    (forall k, ~ In k l -> ms1 !! k = ms !! k) -> forall s1, metas s1 = ms1 ->
    cell_set c (head_of (l1 ++ l2)) (with_metas ms1 s) = s1 ->
    wp (update m (with_next 0) ;; update m (with_prev 0)) s1 Q).
  { intros ms1 HR1 HX1 HO1 s1 Es1 <-. assert (Hk1 : known ms1 m) by now apply (relinked_known ms ms1).
    assert (Em1 : metas (cell_set c (head_of (l1 ++ l2)) (with_metas ms1 s)) = ms1) by (destruct c; reflexivity).
    wp_step. apply wp_alter; [rewrite Em1; assumption|]. rewrite Em1. apply wp_alter; [kn|]. cbn [metas with_metas].
    set (ms2 := alter _ _ _).
    replace (with_metas ms2 _) with (cell_set c (head_of (l1 ++ l2)) (with_metas ms2 s)) by (destruct c; reflexivity).
    assert (HN : forall k, k <> m -> nxt ms2 k = nxt ms1 k /\ prv ms2 k = prv ms1 k).
    { intros k Hk. unfold ms2. rewrite nxt_alter_prev, nxt_alter_next, prv_alter_prev, prv_alter_next by kn.
      now rewrite !decide_False by congruence. }
    apply HQ.
    - split; [|split; [assumption|]].
      + revert HR1. apply ring_ext. intros k Hk. apply HN. intros ->. contradiction.
      + intros k Hk. destruct (Hl k (Hin k Hk)). split; [assumption|]. unfold ms2. rewrite !known_alter.
        now apply (relinked_known ms ms1).
    - apply (relinked_trans ms ms1); [assumption|]. unfold ms2.
      eapply relinked_trans; apply relinked_alter; [apply link_next|apply link_prev].
    - unfold ms2. rewrite nxt_alter_prev, nxt_alter_next, decide_True by (kn || reflexivity). reflexivity.
    - unfold ms2. rewrite prv_alter_prev, decide_True by (kn || reflexivity). reflexivity.
    - intros k Hk. unfold ms2. rewrite !lookup_alter_ne by (intros <-; contradiction). now apply HO1. }
  rewrite Enx. destruct (Z.eqb_spec n m) as [En|En]; cbn [negb].
  - (* the only element *)
    assert (El : l1 ++ l2 = []).
    { destruct (decide (l1 ++ l2 = [])) as [E|E]; [assumption|]. exfalso.
      destruct (ring_remove (nxt ms) (prv ms) l1 m l2 (fun k => if decide (k = p) then n else nxt ms k)
        (fun k => if decide (k = n) then p else prv ms k) HR Hnd E) as (_ & H & _).
      - now rewrite decide_True.
      - now rewrite decide_True.
      - intros k _ Hk. now rewrite decide_False.
      - intros k _ Hk. now rewrite decide_False.
      - fold n in H. rewrite En in H. contradiction. }
    wp_step. apply wp_set_head. apply (Hfin ms).
    + now rewrite El.
    + apply relinked_refl.
    + auto.
    + destruct c; reflexivity.
    + rewrite El. destruct c, s; reflexivity.
  - assert (El : l1 ++ l2 <> []).
    { intros E. apply app_eq_nil in E as [-> ->]. cbn in HR. apply En. apply HR. }
    destruct (ring_remove (nxt ms) (prv ms) l1 m l2 (fun k => if decide (k = p) then n else nxt ms k)
        (fun k => if decide (k = n) then p else prv ms k) HR Hnd El) as (HR' & Hn & Hp).
    { now rewrite decide_True. }
    { now rewrite decide_True. }
    { intros k _ Hk. now rewrite decide_False. }
    { intros k _ Hk. now rewrite decide_False. }
    fold n in Hn. fold p in Hp. destruct (Hl n (Hin n Hn)) as [Hn0 Hnk]. destruct (Hl p (Hin p Hp)) as [Hp0 Hpk].
    assert (Hpm : p <> m) by (intros E; apply Hmr; now rewrite <- E).
    rewrite Epx. wp_step. wp_step. apply wp_alter; [assumption|]. fold ms.
    wp_step. apply wp_links; [kn|]. cbn [metas with_metas]. intros y _ En1 Ep1.
    rewrite nxt_alter_next, decide_False in En1 by (kn || assumption). rewrite prv_alter_next in Ep1. fold n in En1. fold p in Ep1.
    rewrite En1, Ep1. wp_step. apply wp_alter; [kn|]. cbn [metas with_metas]. set (ms1 := alter _ _ _).
    set (s1 := with_metas ms1 _). assert (Es1 : s1 = with_metas ms1 s) by reflexivity. rewrite Es1.
    wp_step. apply (wp_get_head c (head_of l)); [destruct c; exact Hc|].
    assert (HR1 : ring (nxt ms1) (prv ms1) (l1 ++ l2)).
    { revert HR'. apply ring_ext. intros k Hk. unfold ms1. rewrite nxt_alter_prev, nxt_alter_next, prv_alter_prev, prv_alter_next by kn.
      repeat case_decide; split; congruence. }
    assert (HX1 : relinked ms ms1)
      by (unfold ms1; eapply relinked_trans; apply relinked_alter; [apply link_next|apply link_prev]).
    assert (HO1 : forall k, ~ In k l -> ms1 !! k = ms !! k).
    { intros k Hk. unfold ms1. rewrite !lookup_alter_ne; [reflexivity|intros <-; apply Hk, Hin; assumption..]. }
    assert (Hnm : nxt ms1 m = n).
    { unfold ms1. rewrite nxt_alter_prev, nxt_alter_next, decide_False by (kn || assumption). reflexivity. }
    destruct l1 as [|h t].
    + cbn [head_of app l] in *. unfold l. cbn [head_of app]. rewrite Z.eqb_refl.
      wp_step. apply wp_links; [unfold ms1; kn|]. cbn [metas with_metas]. intros w _ Ew _. rewrite Hnm in Ew. rewrite Ew.
      apply wp_set_head. apply (Hfin ms1); try assumption; [destruct c; reflexivity|].
      replace (head_of l2) with n; [reflexivity|]. destruct l2 as [|x2 l2]; [easy|]. cbn [ring path] in HR. destruct HR as [HR _]. rewrite <- HR. reflexivity.
    + unfold l. cbn [head_of app]. replace (h =? m) with false by (assert (h <> m); [intros ->; apply Hmr; now left|lia]).
      wp_step. apply (Hfin ms1); try assumption; [reflexivity|]. cbn [head_of app].
      apply cell_set_same. destruct c; exact Hc.
Qed.
End QueueDequeue.
