(* ===== verification/Layout.v ===== *)
(** * Layout: who owns each byte of the heap of Malloc

    A layout says which groups there are, what is in each of their slots, and who
    owns each byte: the header of a group, the byte in front of a slot that is
    always zero (a pin), a slot, what is left behind the last slot, or the
    metadata.  Because a byte has one owner, groups, slots and the blocks in them
    never overlap; because the code that works on a slot writes only bytes of that
    slot, what holds of the others stays true. *)

From stdpp Require Import gmap list.
From Stdlib Require Import ZArith Lia ZifyBool.
From S2P Require Import Prelude Malloc Slots Frames.
Open Scope Z_scope.

(** ** Layouts *)

(** A slot is free, taken while an operation works on it, a block of [n] bytes at
    [p], or the memory of a group. *)
Inductive content : Type := Free | Taken | Block (p n : Z) | Nest (c : Z).
Inductive owner : Type := OHdr (g : Z) | OPin (g : Z) | OSlot (g i : Z) | OWaste (g : Z) | OMeta.

(** A group: its geometry, its slots, the last slot that is active, the slot that
    it is in if it is in one, and where its memory ends. *)
Record group : Type := Group {
  geo : geom; cont : Z -> content; act : Z; up : option (Z * Z); top : Z }.

Record layout : Type := Layout { groups : gmap Z group; own : Z -> option owner }.

Definition slotted (A : group) (i : Z) : Prop := 0 <= i < gcnt (geo A).
Definition is_nest (c : content) : bool := match c with Nest _ => true | _ => false end.
Definition is_free (c : content) : bool := match c with Free => true | _ => false end.

(** A slot of the class of the group has room for every request of the class. *)
Definition roomy (G : geom) : Prop := gsc G < 48 /\ UNIT * class_units (gsc G) <= gstride G.

Definition block_in (G : geom) (i p n : Z) : Prop :=
  start G i <= p /\ 0 <= n /\ p + n <= pin G (i + 1) /\ p mod 16 = 0.

Record group_ok (L : layout) (g : Z) (A : group) : Prop := {
  gk_geom : geom_ok (geo A);
  gk_act : 0 <= act A < gcnt (geo A);
  gk_hdr b : gbase (geo A) <= b < gbase (geo A) + 12 -> own L b = Some (OHdr g);
  gk_pin i : 0 <= i <= gcnt (geo A) -> pin (geo A) i < top A -> own L (pin (geo A) i) = Some (OPin g);
  gk_top : pin (geo A) (gcnt (geo A)) <= top A;
  gk_rest b : pin (geo A) (gcnt (geo A)) < b < top A -> own L b = Some (OWaste g);
  gk_front i b : slotted A i -> pin (geo A) i < b < start (geo A) i -> own L b = Some (OSlot g i);
  gk_body i b : slotted A i -> is_nest (cont A i) = false -> start (geo A) i <= b < pin (geo A) (i + 1) ->
                own L b = Some (OSlot g i);
  gk_up : match up A with
          | None => own_pages (geo A) /\ top A = gbase (geo A) + gpages (geo A) * 4096
          | Some (h, j) =>
              gpages (geo A) = 0 /\ exists B, groups L !! h = Some B /\ slotted B j /\ cont B j = Nest g /\
                gbase (geo A) = start (geo B) j /\ top A = pin (geo B) (j + 1) /\ gsc (geo A) < gsc (geo B)
          end;
  gk_nest i c : slotted A i -> cont A i = Nest c -> exists C, groups L !! c = Some C /\ up C = Some (g, i);
  gk_active : act A < gcnt (geo A) - 1 -> 128 <= gstride (geo A);
  gk_inactive i : slotted A i -> act A < i -> cont A i = Free;
  gk_free i : slotted A i -> cont A i = Free -> roomy (geo A);
  gk_block i p n : slotted A i -> cont A i = Block p n -> block_in (geo A) i p n
}.

Definition layout_ok (L : layout) : Prop := forall g A, groups L !! g = Some A -> group_ok L g A.

(** The blocks of a layout. *)
Definition blocks (L : layout) (p n : Z) : Prop :=
  exists g A i, groups L !! g = Some A /\ slotted A i /\ cont A i = Block p n.

Lemma pin_lt_start G i : pin G i + 4 = start G i.
Proof. unfold pin, IB. lia. Qed.

Lemma pin_mono G i j : geom_ok G -> i < j -> start G i + 12 <= pin G j.
Proof. intros HG H. destruct (go_stride G HG). unfold pin, start, IB. nia. Qed.

Lemma pin0 G : pin G 0 = gbase G + 12.
Proof. unfold pin, start, UNIT, IB. lia. Qed.

Section Layout.
Variable L : layout.
Hypothesis HL : layout_ok L.

Lemma pin_below_top g A i : groups L !! g = Some A -> 0 <= i < gcnt (geo A) -> pin (geo A) i < top A.
Proof.
  intros HA Hi. pose proof (HL g A HA) as HK. pose proof (gk_top L g A HK).
  pose proof (pin_mono (geo A) i (gcnt (geo A)) (gk_geom L g A HK) ltac:(lia)). unfold pin, IB in *. lia.
Qed.

(** The last pin of a group in a slot may be the pin behind the slot. *)
Lemma pin_own g A i :
  groups L !! g = Some A -> 0 <= i <= gcnt (geo A) ->
  exists a, own L (pin (geo A) i) = Some (OPin a) /\
    (a = g \/ exists B j c, groups L !! a = Some B /\ slotted B j /\ cont B j = Nest c).
Proof.
  remember (Z.to_nat (64 - gsc (geo A))) as k eqn:Ek. revert g A i Ek.
  induction k as [k IH] using lt_wf_ind. intros g A i -> HA Hi. pose proof (HL g A HA) as HK.
  destruct (Z.lt_ge_cases (pin (geo A) i) (top A)) as [Ht|Ht]; [exists g; split; [now apply (gk_pin L g A HK)|now left]|].
  assert (i = gcnt (geo A)) by (destruct (Z.eq_dec i (gcnt (geo A))); [assumption|pose proof (pin_below_top g A i HA); lia]). subst i.
  pose proof (gk_top L g A HK) as Htop. pose proof (gk_geom L g A HK) as HG. pose proof (gk_up L g A HK) as HU.
  destruct (up A) as [[h j]|].
  - destruct HU as (_ & B & HB & Hj & Hc & _ & Et & Hs). pose proof (HL h B HB) as HKB.
    replace (pin (geo A) (gcnt (geo A))) with (pin (geo B) (j + 1)) by lia.
    assert (Hgs : 0 <= gsc (geo A) < gsc (geo B) /\ gsc (geo B) < 64).
    { destruct (go_class _ HG) as [?|[? _]], (go_class _ (gk_geom L h B HKB)) as [?|[? _]]; lia. }
    destruct (IH (Z.to_nat (64 - gsc (geo B))) ltac:(lia) h B (j + 1) eq_refl HB ltac:(unfold slotted in Hj; lia)) as (a & Ha & Hor).
    exists a. split; [assumption|]. right. destruct Hor as [->|Hor]; [|assumption]. exists B, j, g. auto.
  - destruct HU as [Hp Et]. pose proof (go_mapped _ HG Hp). unfold pin, IB in *. lia.
Qed.

(** A block lies in bytes of its slot, and a byte of a slot is of one slot. *)
Lemma block_own g A i p n b :
  groups L !! g = Some A -> slotted A i -> cont A i = Block p n -> p <= b < p + n -> own L b = Some (OSlot g i).
Proof.
  intros HA Hi Hc Hb. pose proof (HL g A HA) as HK. destruct (gk_block L g A HK i p n Hi Hc) as (H1 & H2 & H3 & _).
  apply (gk_body L g A HK); [assumption|now rewrite Hc|lia].
Qed.

Lemma block_start g A i p n :
  groups L !! g = Some A -> slotted A i -> cont A i = Block p n -> own L p = Some (OSlot g i).
Proof.
  intros HA Hi Hc. pose proof (HL g A HA) as HK. destruct (gk_block L g A HK i p n Hi Hc) as (H1 & H2 & H3 & H4).
  apply (gk_body L g A HK); [assumption|now rewrite Hc|]. split; [lia|].
  pose proof (start_aligned (geo A) (i + 1) (gk_geom L g A HK)). unfold pin, IB in *. zlia.
Qed.

Lemma block_unique p n g A i h B j m :
  groups L !! g = Some A -> slotted A i -> cont A i = Block p n ->
  groups L !! h = Some B -> slotted B j -> cont B j = Block p m -> g = h /\ A = B /\ i = j /\ n = m.
Proof.
  intros HA Hi Hc HB Hj Hd. pose proof (block_start g A i p n HA Hi Hc) as E1. pose proof (block_start h B j p m HB Hj Hd) as E2.
  rewrite E1 in E2. injection E2 as <- <-. rewrite HA in HB. injection HB as <-. rewrite Hc in Hd. injection Hd as <-. auto.
Qed.

(** Two blocks are one or have no byte in common. *)
Lemma blocks_disjoint p n q m b :
  blocks L p n -> blocks L q m -> p <= b < p + n -> q <= b < q + m -> p = q /\ n = m.
Proof.
  intros (g & A & i & HA & Hi & Hc) (h & B & j & HB & Hj & Hd) H1 H2.
  pose proof (block_own g A i p n b HA Hi Hc H1) as E1. pose proof (block_own h B j q m b HB Hj Hd H2) as E2.
  rewrite E1 in E2. injection E2 as <- <-. rewrite HA in HB. injection HB as <-. rewrite Hc in Hd. injection Hd as <- <-. auto.
Qed.
End Layout.

(** ** Changing a layout *)

Definition owner_of (g : Z) (o : owner) : Prop :=
  match o with OHdr h | OPin h | OSlot h _ | OWaste h => h = g | OMeta => False end.

Definition set_cont (A : group) (i : Z) (c : content) : group :=
  Group (geo A) (fun j => if j =? i then c else cont A j) (act A) (up A) (top A).
Definition set_act (A : group) (a : Z) : group := Group (geo A) (cont A) a (up A) (top A).
Definition put_group (L : layout) (g : Z) (A : group) : layout := Layout (<[g := A]> (groups L)) (own L).

(** What a slot may hold. *)
Definition slot_fine (A : group) (i : Z) (c : content) : Prop :=
  (act A < i -> c = Free) /\ (c = Free -> roomy (geo A)) /\ (forall p n, c = Block p n -> block_in (geo A) i p n).

(** A group stays well formed when only other bytes change owners, except for slots
    that become or stop being the memory of a group. *)
Lemma group_ok_ext L L' g A A' :
  group_ok L g A -> geo A' = geo A -> up A' = up A -> top A' = top A -> act A <= act A' < gcnt (geo A) ->
  (forall b o, owner_of g o -> own L b = Some o ->
     (forall i, o = OSlot g i -> slotted A i -> b < start (geo A) i \/ is_nest (cont A' i) = false) -> own L' b = Some o) ->
  (forall i b, slotted A i -> is_nest (cont A i) = true -> is_nest (cont A' i) = false ->
     start (geo A) i <= b < pin (geo A) (i + 1) -> own L' b = Some (OSlot g i)) ->
  (forall h j B, up A = Some (h, j) -> groups L !! h = Some B -> slotted B j -> cont B j = Nest g ->
     exists B', groups L' !! h = Some B' /\ geo B' = geo B /\ cont B' j = Nest g) ->
  (forall i c, slotted A i -> cont A' i = Nest c -> exists C, groups L' !! c = Some C /\ up C = Some (g, i)) ->
  (forall i, slotted A i -> cont A' i = cont A i \/ slot_fine A' i (cont A' i)) ->
  group_ok L' g A'.
Proof.
  intros HK Eg Eu Et Ha Hown Hopen Hup Hnest Hslots. pose proof (gk_geom L g A HK) as HG.
  split; rewrite ?Eg, ?Et; unfold slotted; rewrite ?Eg.
  - assumption.
  - pose proof (gk_act L g A HK). lia.
  - intros b Hb. apply Hown; [reflexivity|now apply (gk_hdr L g A HK)|discriminate].
  - intros i Hi Hp. apply Hown; [reflexivity|now apply (gk_pin L g A HK)|discriminate].
  - apply (gk_top L g A HK).
  - intros b Hb. apply Hown; [reflexivity|now apply (gk_rest L g A HK)|discriminate].
  - intros i b Hi Hb. apply Hown; [reflexivity|now apply (gk_front L g A HK)|]. intros j [= <-] _. left. lia.
  - intros i b Hi Hc Hb. destruct (is_nest (cont A i)) eqn:E; [now apply Hopen|].
    apply Hown; [reflexivity|now apply (gk_body L g A HK)|]. intros j [= <-] _. now right.
  - pose proof (gk_up L g A HK) as HU. rewrite Eu. destruct (up A) as [[h j]|] eqn:EU; [|assumption].
    destruct HU as (H1 & B & HB & Hj & Hc & Hb & Ht & Hs). split; [assumption|].
    destruct (Hup h j B eq_refl HB Hj Hc) as (B' & HB' & Eg' & Hc'). exists B'. unfold slotted in *. rewrite Eg'. auto 10.
  - assumption.
  - intros Hlt. apply (gk_active L g A HK). lia.
  - intros i Hi Hai. destruct (Hslots i Hi) as [E|[H _]]; [rewrite E; apply (gk_inactive L g A HK); [assumption|lia]|now apply H].
  - intros i Hi Hc. destruct (Hslots i Hi) as [E|(_ & H & _)]; [rewrite E in Hc; now apply (gk_free L g A HK i)|rewrite <- Eg; now apply H].
  - intros i p n Hi Hc. destruct (Hslots i Hi) as [E|(_ & _ & H)]; [rewrite E in Hc; now apply (gk_block L g A HK)|rewrite <- Eg; now apply H].
Qed.

Section Changes.
Variable L : layout.
Hypothesis HL : layout_ok L.

(** A group whose neighbours see no change. *)
Lemma put_group_ok g A A' :
  groups L !! g = Some A -> geo A' = geo A -> up A' = up A -> top A' = top A -> act A <= act A' < gcnt (geo A) ->
  (forall i, slotted A i -> cont A' i = cont A i \/
     is_nest (cont A i) = false /\ is_nest (cont A' i) = false /\ slot_fine A' i (cont A' i)) ->
  layout_ok (put_group L g A').
Proof.
  intros HA Eg Eu Et Ha Hs h B HB. cbn in HB. rewrite lookup_insert in HB. case_decide as E.
  - subst h. injection HB as <-. apply (group_ok_ext L _ g A); try assumption.
    + now apply HL.
    + intros b o _ Hb _. exact Hb.
    + intros i b Hi H1 H2. destruct (Hs i Hi) as [E|[E _]]; congruence.
    + intros h j B HU HB Hj Hc. cbn. rewrite lookup_insert. case_decide as E; [|eauto].
      subst h. rewrite HA in HB. injection HB as <-. exists A'. split; [reflexivity|]. split; [assumption|].
      destruct (Hs j Hj) as [E|[E _]]; [now rewrite E|rewrite Hc in E; discriminate].
    + intros i c Hi Hc. cbn. destruct (Hs i Hi) as [E|(_ & E & _)]; [|rewrite Hc in E; discriminate].
      rewrite E in Hc. destruct (gk_nest L g A (HL g A HA) i c Hi Hc) as (C & HC & HU). rewrite lookup_insert.
      case_decide as E2; [|eauto]. subst c. rewrite HA in HC. injection HC as <-. exists A'. now rewrite Eu.
    + intros i Hi. destruct (Hs i Hi) as [E|(_ & _ & E)]; [now left|now right].
  - pose proof (HL h B HB) as HK. pose proof (gk_act L h B HK). apply (group_ok_ext L _ h B); try reflexivity; try assumption.
    + lia.
    + intros b o _ Hb _. exact Hb.
    + intros i b _ H1 H2. congruence.
    + intros h' j B' HU HB' Hj Hc. cbn. rewrite lookup_insert. case_decide as E2; [|eauto].
      subst h'. rewrite HA in HB'. injection HB' as <-. exists A'. split; [reflexivity|]. split; [assumption|].
      destruct (Hs j Hj) as [E3|[E3 _]]; [now rewrite E3|rewrite Hc in E3; discriminate].
    + intros i c Hi Hc. cbn. destruct (gk_nest L h B HK i c Hi Hc) as (C & HC & HU). rewrite lookup_insert.
      case_decide as E2; [|eauto]. subst c. rewrite HA in HC. injection HC as <-. exists A'. now rewrite Eu.
    + now left.
Qed.

Lemma set_cont_ok g A i c :
  groups L !! g = Some A -> is_nest (cont A i) = false -> is_nest c = false -> slot_fine A i c ->
  layout_ok (put_group L g (set_cont A i c)).
Proof.
  intros HA Hc Hc' Hf. pose proof (gk_act L g A (HL g A HA)). apply (put_group_ok g A); try reflexivity; try assumption; [cbn; lia|].
  intros j Hj. cbn. destruct (Z.eqb_spec j i) as [->|]; [|now left]. right. auto.
Qed.

Lemma set_act_ok g A a : groups L !! g = Some A -> act A <= a < gcnt (geo A) -> layout_ok (put_group L g (set_act A a)).
Proof. intros HA Ha. apply (put_group_ok g A); try reflexivity; try assumption. now left. Qed.
End Changes.

(** ** New groups and groups that go *)

(** The owners of the memory of a group none of whose slots is a group. *)
Definition region_own (c : Z) (G : geom) (b : Z) : owner :=
  let d := b - pin G 0 in
  if d <? 0 then OHdr c
  else if gstride G * gcnt G <? d then OWaste c
  else if d mod gstride G =? 0 then OPin c else OSlot c (d / gstride G).

Definition in_region (A : group) (b : Z) : Prop := gbase (geo A) <= b < top A.

Definition claim (L : layout) (c : Z) (C : group) : Z -> option owner :=
  fun b => if within (gbase (geo C)) (top C - gbase (geo C)) b then Some (region_own c (geo C) b) else own L b.
Definition disclaim (L : layout) (A : group) (o : option owner) : Z -> option owner :=
  fun b => if within (gbase (geo A)) (top A - gbase (geo A)) b then o else own L b.

Lemma within_region A b : within (gbase (geo A)) (top A - gbase (geo A)) b = true <-> in_region A b.
Proof. unfold within, in_region. lia. Qed.

Lemma region_own_of c G b : owner_of c (region_own c G b).
Proof. unfold region_own. repeat case_if; reflexivity. Qed.

(** Where a byte of a region lies. *)
Lemma region_cases G b :
  geom_ok G -> gbase G <= b ->
  b < gbase G + 12 \/ (exists i, 0 <= i <= gcnt G /\ b = pin G i) \/
  (exists i, 0 <= i < gcnt G /\ pin G i < b < pin G (i + 1)) \/ pin G (gcnt G) < b.
Proof.
  intros HG Hb. destruct (go_stride G HG) as [Hs _]. destruct (Z.lt_ge_cases b (gbase G + 12)); [now left|right].
  destruct (Z.lt_ge_cases (pin G (gcnt G)) b) as [|Hc]; [now right; right|].
  set (d := b - pin G 0). assert (Hd : d = gstride G * (d / gstride G) + d mod gstride G) by (apply Z.div_mod; lia).
  pose proof (Z.mod_pos_bound d (gstride G) ltac:(lia)) as Hr. unfold d in *. clear d. rewrite pin0 in *.
  unfold pin, start, UNIT, IB in *. set (d := b - (gbase G + 12)) in *.
  assert (0 <= d / gstride G <= gcnt G) by (split; [apply Z.div_pos; lia|nia]).
  destruct (Z.eq_dec (d mod gstride G) 0) as [E|E].
  - left. exists (d / gstride G). lia.
  - right. left. exists (d / gstride G). nia.
Qed.

Section Regions.
Variables (c : Z) (G : geom).
Hypothesis HG : geom_ok G.

Lemma region_hdr b : b < gbase G + 12 -> region_own c G b = OHdr c.
Proof. intros Hb. unfold region_own. rewrite pin0. now replace (_ <? 0) with true by lia. Qed.

Lemma region_pin i : 0 <= i <= gcnt G -> region_own c G (pin G i) = OPin c.
Proof.
  intros Hi. destruct (go_stride G HG) as [Hs _]. unfold region_own.
  replace (pin G i - pin G 0) with (gstride G * i) by (unfold pin, start; lia).
  replace (gstride G * i <? 0) with false by lia. replace (gstride G * gcnt G <? gstride G * i) with false by nia.
  now rewrite Z.mul_comm, Z_mod_mult.
Qed.

Lemma region_slot i b : 0 <= i < gcnt G -> pin G i < b < pin G (i + 1) -> region_own c G b = OSlot c i.
Proof.
  intros Hi Hb. destruct (go_stride G HG) as [Hs _]. unfold region_own.
  set (r := b - pin G i). assert (Hr : 0 < r < gstride G) by (unfold r, pin, start in *; lia).
  replace (b - pin G 0) with (gstride G * i + r) by (unfold r, pin, start; lia).
  replace (gstride G * i + r <? 0) with false by nia. replace (gstride G * gcnt G <? gstride G * i + r) with false by nia.
  rewrite Z.add_comm, Z.mul_comm, Z_mod_plus_full, Z_div_plus_full, Z.mod_small, Z.div_small by lia.
  now replace (r =? 0) with false by lia.
Qed.

Lemma region_waste b : pin G (gcnt G) < b -> region_own c G b = OWaste c.
Proof.
  intros Hb. destruct (go_stride G HG) as [Hs _]. pose proof (go_cnt G HG). unfold region_own.
  assert (E : gstride G * gcnt G = pin G (gcnt G) - pin G 0) by (unfold pin, start; lia).
  replace (b - pin G 0 <? 0) with false by nia. now replace (_ <? _) with true by lia.
Qed.
End Regions.

(** What a new group has to be like. *)
Record fresh_ok (C : group) : Prop := {
  fr_geom : geom_ok (geo C);
  fr_act : 0 <= act C < gcnt (geo C);
  fr_top : pin (geo C) (gcnt (geo C)) <= top C;
  fr_active : act C < gcnt (geo C) - 1 -> 128 <= gstride (geo C);
  fr_slots : forall i, slotted C i -> is_nest (cont C i) = false /\ slot_fine C i (cont C i) }.

Lemma fresh_group_ok L c C :
  fresh_ok C -> (forall b, in_region C b -> own L b = Some (region_own c (geo C) b)) ->
  match up C with
  | None => own_pages (geo C) /\ top C = gbase (geo C) + gpages (geo C) * 4096
  | Some (h, j) =>
      gpages (geo C) = 0 /\ exists B, groups L !! h = Some B /\ slotted B j /\ cont B j = Nest c /\
        gbase (geo C) = start (geo B) j /\ top C = pin (geo B) (j + 1) /\ gsc (geo C) < gsc (geo B)
  end ->
  group_ok L c C.
Proof.
  intros HF Hown Hup. pose proof (fr_geom C HF) as HG. pose proof (fr_top C HF) as Ht. pose proof (go_cnt _ HG) as Hc.
  pose proof (pin_mono (geo C) 0 (gcnt (geo C)) HG ltac:(lia)) as H0. destruct (go_stride _ HG) as [Hst _].
  assert (Hb0 : start (geo C) 0 = gbase (geo C) + 16) by (unfold start, UNIT; lia).
  assert (Hin : forall i, 0 <= i <= gcnt (geo C) -> gbase (geo C) + 12 <= pin (geo C) i <= pin (geo C) (gcnt (geo C))).
  { intros i Hi. unfold pin, start, UNIT, IB. nia. }
  split; try assumption; try exact (fr_act C HF).
  - intros b Hb. rewrite Hown, region_hdr by (unfold in_region; lia). reflexivity.
  - intros i Hi Hp. specialize (Hin i Hi). rewrite Hown, region_pin by (assumption || unfold in_region; lia). reflexivity.
  - intros b Hb. rewrite Hown, region_waste by (assumption || unfold in_region; lia). reflexivity.
  - intros i b Hi Hb. assert (Hi1 : pin (geo C) (i + 1) = start (geo C) i + gstride (geo C) - IB) by apply pin_start.
    unfold IB in *. pose proof (Hin i ltac:(unfold slotted in Hi; lia)). pose proof (Hin (i + 1) ltac:(unfold slotted in Hi; lia)).
    rewrite Hown, (region_slot c (geo C) HG i) by (assumption || unfold in_region; lia). reflexivity.
  - intros i b Hi _ Hb. pose proof (pin_lt_start (geo C) i).
    pose proof (Hin i ltac:(unfold slotted in Hi; lia)). pose proof (Hin (i + 1) ltac:(unfold slotted in Hi; lia)).
    rewrite Hown, (region_slot c (geo C) HG i) by (assumption || unfold in_region; lia). reflexivity.
  - intros i d Hi Hd. destruct (fr_slots C HF i Hi) as [H _]. rewrite Hd in H. discriminate.
  - exact (fr_active C HF).
  - intros i Hi Ha. now apply (fr_slots C HF i Hi).
  - intros i Hi Hd. now apply (fr_slots C HF i Hi).
  - intros i p n Hi Hd. now apply (fr_slots C HF i Hi).
Qed.

(** The bytes of a group none of whose slots is a group are its own. *)
Lemma region_owned L c C b :
  group_ok L c C -> (forall i, slotted C i -> is_nest (cont C i) = false) -> in_region C b ->
  exists o, own L b = Some o /\ owner_of c o.
Proof.
  intros HK Hn Hb. pose proof (gk_geom L c C HK) as HG. unfold in_region in Hb.
  destruct (region_cases (geo C) b HG ltac:(lia)) as [H|[(i & Hi & E)|[(i & Hi & H)|H]]].
  - exists (OHdr c). split; [now apply (gk_hdr L c C HK)|reflexivity].
  - exists (OPin c). subst b. split; [apply (gk_pin L c C HK); [assumption|lia]|reflexivity].
  - exists (OSlot c i). split; [|reflexivity]. destruct (Z.lt_ge_cases b (start (geo C) i)).
    + now apply (gk_front L c C HK).
    + apply (gk_body L c C HK); [assumption|now apply Hn|lia].
  - exists (OWaste c). split; [now apply (gk_rest L c C HK)|reflexivity].
Qed.

Section Groups.
Variable L : layout.
Hypothesis HL : layout_ok L.

(** A group that does not change itself. *)
Lemma group_ok_other L' h B :
  groups L !! h = Some B ->
  (forall b o, owner_of h o -> own L b = Some o -> own L' b = Some o) ->
  (forall k j D, up B = Some (k, j) -> groups L !! k = Some D -> slotted D j -> cont D j = Nest h ->
     exists D', groups L' !! k = Some D' /\ geo D' = geo D /\ cont D' j = Nest h) ->
  (forall i c, slotted B i -> cont B i = Nest c -> exists C, groups L' !! c = Some C /\ up C = Some (h, i)) ->
  group_ok L' h B.
Proof.
  intros HB Hown Hup Hnest. pose proof (HL h B HB) as HK. pose proof (gk_act L h B HK).
  apply (group_ok_ext L L' h B); try reflexivity; try assumption.
  - lia.
  - intros b o Ho Hb _. now apply Hown.
  - congruence.
  - now left.
Qed.

Lemma claim_other c C h b o :
  (forall b, in_region C b -> forall o, own L b = Some o -> ~ owner_of h o) ->
  owner_of h o -> own L b = Some o -> claim L c C b = Some o.
Proof.
  intros HR Ho Hb. unfold claim. destruct (within _ _ b) eqn:E; [|assumption].
  apply within_region in E. now destruct (HR b E o Hb).
Qed.

Lemma disclaim_other C r h b o :
  (forall b, in_region C b -> forall o, own L b = Some o -> ~ owner_of h o) ->
  owner_of h o -> own L b = Some o -> disclaim L C r b = Some o.
Proof.
  intros HR Ho Hb. unfold disclaim. destruct (within _ _ b) eqn:E; [|assumption].
  apply within_region in E. now destruct (HR b E o Hb).
Qed.

Lemma claim_in c C b : in_region C b -> claim L c C b = Some (region_own c (geo C) b).
Proof. intros Hb. unfold claim. now rewrite (proj2 (within_region C b)). Qed.
Lemma disclaim_in C r b : in_region C b -> disclaim L C r b = r.
Proof. intros Hb. unfold disclaim. now rewrite (proj2 (within_region C b)). Qed.

Lemma owner_of_eq g h o : owner_of g o -> owner_of h o -> g = h.
Proof. destruct o; cbn; intuition congruence. Qed.

(** A group in memory of its own comes. *)
Definition add_mapped (c : Z) (C : group) : layout := Layout (<[c := C]> (groups L)) (claim L c C).

Lemma add_mapped_ok c C :
  groups L !! c = None -> fresh_ok C -> up C = None -> own_pages (geo C) ->
  top C = gbase (geo C) + gpages (geo C) * 4096 -> (forall b, in_region C b -> own L b = None) -> layout_ok (add_mapped c C).
Proof.
  intros Hc HF Hu Hp Ht Hfree h B HB. cbn in HB. rewrite lookup_insert in HB. case_decide as E.
  - subst h. injection HB as <-. apply fresh_group_ok; [assumption|apply claim_in|]. now rewrite Hu.
  - apply group_ok_other; [assumption| | |].
    + intros b o. apply claim_other. intros b' Hb' o' Ho'. rewrite Hfree in Ho' by assumption. discriminate.
    + intros k j D _ HD _ Hd. exists D. cbn. rewrite lookup_insert_ne by congruence. auto.
    + intros i d Hi Hd. destruct (gk_nest L h B (HL h B HB) i d Hi Hd) as (D & HD & HU). exists D. cbn.
      rewrite lookup_insert_ne by congruence. auto.
Qed.

(** A group in a slot comes. *)
Definition add_nested (c : Z) (C : group) (g : Z) (A : group) (i : Z) : layout :=
  Layout (<[c := C]> (<[g := set_cont A i (Nest c)]> (groups L))) (claim L c C).

Lemma add_nested_ok c C g A i :
  groups L !! c = None -> groups L !! g = Some A -> slotted A i -> cont A i = Taken -> fresh_ok C -> up C = Some (g, i) ->
  gpages (geo C) = 0 -> gbase (geo C) = start (geo A) i -> top C = pin (geo A) (i + 1) -> gsc (geo C) < gsc (geo A) ->
  layout_ok (add_nested c C g A i).
Proof.
  intros Hc HA Hi Ht HF Hu Hp Hb Htop Hs. pose proof (HL g A HA) as HK. assert (Hcg : c <> g) by congruence.
  assert (HR : forall b, in_region C b -> own L b = Some (OSlot g i)).
  { intros b Hb'. unfold in_region in Hb'. apply (gk_body L g A HK); [assumption|now rewrite Ht|lia]. }
  intros h B HB. cbn in HB. rewrite lookup_insert in HB. case_decide as E; [|rewrite lookup_insert in HB; case_decide as E2].
  - subst h. injection HB as <-. apply fresh_group_ok; [assumption|apply claim_in|]. rewrite Hu. split; [assumption|].
    exists (set_cont A i (Nest c)). cbn. rewrite lookup_insert_ne, lookup_insert_eq, Z.eqb_refl by assumption. auto 10.
  - subst h. injection HB as <-. pose proof (gk_act L g A HK). apply (group_ok_ext L _ g A); try reflexivity; try assumption.
    + cbn; lia.
    + intros b o Ho Hb' Hslot. cbn. unfold claim. destruct (within _ _ b) eqn:E3; [|assumption]. apply within_region in E3.
      rewrite (HR b E3) in Hb'. injection Hb' as <-. destruct (Hslot i eq_refl Hi) as [H1|H1]; [unfold in_region in E3; lia|].
      cbn in H1. rewrite Z.eqb_refl in H1. discriminate.
    + intros j b Hj. cbn. destruct (Z.eqb_spec j i) as [->|]; [discriminate|congruence].
    + intros k j D HU HD Hj Hd. assert (k <> g).
      { intros ->. pose proof (gk_up L g A HK) as HUA. rewrite HU in HUA. destruct HUA as (_ & D' & HD' & _ & _ & _ & _ & Hlt).
        rewrite HA in HD'. injection HD' as <-. lia. }
      exists D. cbn. rewrite !lookup_insert_ne by congruence. auto.
    + intros j d Hj. cbn. destruct (Z.eqb_spec j i) as [->|]; [intros [= <-]; exists C; rewrite lookup_insert_eq; auto|].
      intros Hd. destruct (gk_nest L g A HK j d Hj Hd) as (D & HD & HU). assert (d <> c) by congruence.
      rewrite lookup_insert_ne by congruence. rewrite lookup_insert. case_decide as E3; [|eauto].
      subst d. rewrite HA in HD. injection HD as <-. eexists. split; [reflexivity|]. exact HU.
    + intros j Hj. cbn. destruct (Z.eqb_spec j i) as [->|]; [right|now left]. split; [|split; [discriminate|discriminate]].
      cbn. intros Ha. rewrite (gk_inactive L g A HK i Hi Ha) in Ht. discriminate.
  - apply group_ok_other; [assumption| | |].
    + intros b o. apply claim_other. intros b' Hb' o' Ho'. rewrite HR in Ho' by assumption. injection Ho' as <-. cbn. congruence.
    + intros k j D HU HD Hj Hd. cbn. rewrite lookup_insert_ne by congruence. rewrite lookup_insert. case_decide as E3; [|eauto].
      subst k. rewrite HA in HD. injection HD as <-. eexists. split; [reflexivity|]. split; [reflexivity|]. cbn.
      destruct (Z.eqb_spec j i) as [->|]; [congruence|assumption].
    + intros j d Hj Hd. destruct (gk_nest L h B (HL h B HB) j d Hj Hd) as (D & HD & HU). cbn.
      rewrite lookup_insert_ne by congruence. rewrite lookup_insert. case_decide as E3; [|eauto].
      subst d. rewrite HA in HD. injection HD as <-. eexists. split; [reflexivity|]. exact HU.
Qed.

(** A group goes: its memory is given back, or the slot it was in is its own again. *)
Definition del_mapped (c : Z) (C : group) : layout := Layout (delete c (groups L)) (disclaim L C None).
Definition del_nested (c : Z) (C : group) (g : Z) (A : group) (i : Z) : layout :=
  Layout (<[g := set_cont A i Taken]> (delete c (groups L))) (disclaim L C (Some (OSlot g i))).

Lemma not_other c C h b o :
  groups L !! c = Some C -> (forall i, slotted C i -> is_nest (cont C i) = false) -> h <> c ->
  in_region C b -> own L b = Some o -> ~ owner_of h o.
Proof.
  intros HC Hn Hh Hb Ho Hc. destruct (region_owned L c C b (HL c C HC) Hn Hb) as (o' & E & H'). rewrite Ho in E. injection E as <-.
  apply Hh. exact (owner_of_eq h c o Hc H').
Qed.

Lemma del_mapped_ok c C :
  groups L !! c = Some C -> (forall i, slotted C i -> is_nest (cont C i) = false) -> up C = None -> layout_ok (del_mapped c C).
Proof.
  intros HC Hn Hu h B HB. cbn in HB. rewrite lookup_delete in HB. case_decide as E; [discriminate|].
  apply group_ok_other; [assumption| | |].
  - intros b o. apply disclaim_other. intros b' Hb' o' Ho'. now apply (not_other c C h b').
  - intros k j D HU HD Hj Hd. exists D. cbn. rewrite lookup_delete_ne; [auto|]. intros <-.
    rewrite HC in HD. injection HD as <-. specialize (Hn j Hj). rewrite Hd in Hn. discriminate.
  - intros j d Hj Hd. destruct (gk_nest L h B (HL h B HB) j d Hj Hd) as (D & HD & HU). exists D. cbn.
    rewrite lookup_delete_ne; [auto|]. congruence.
Qed.

Lemma del_nested_ok c C g A i :
  groups L !! c = Some C -> (forall i, slotted C i -> is_nest (cont C i) = false) -> up C = Some (g, i) ->
  groups L !! g = Some A -> slotted A i -> cont A i = Nest c -> layout_ok (del_nested c C g A i).
Proof.
  intros HC Hn Hu HA Hi Hci. pose proof (HL g A HA) as HK. pose proof (gk_up L c C (HL c C HC)) as HU. rewrite Hu in HU.
  destruct HU as (_ & A' & HA' & _ & _ & Hb & Ht & Hs). rewrite HA in HA'. injection HA' as <-.
  assert (Hcg : c <> g) by (intros ->; rewrite HC in HA; injection HA as <-; lia).
  intros h B HB. cbn in HB. rewrite lookup_insert in HB. case_decide as E.
  - subst h. injection HB as <-. pose proof (gk_act L g A HK). apply (group_ok_ext L _ g A); try reflexivity; try assumption.
    + cbn; lia.
    + intros b o Ho Hb' _. cbn. revert Ho Hb'. apply disclaim_other. intros b' Hb' o' Ho'. apply (not_other c C g b'); auto.
    + intros j b Hj. cbn. destruct (Z.eqb_spec j i) as [->|]; [|congruence]. intros _ _ Hb'. apply disclaim_in.
      unfold in_region. lia.
    + intros k j D HUg HD Hj Hd. assert (k <> g).
      { intros ->. pose proof (gk_up L g A HK) as HUA. rewrite HUg in HUA. destruct HUA as (_ & D' & HD' & _ & _ & _ & _ & Hlt).
        rewrite HA in HD'. injection HD' as <-. lia. }
      assert (k <> c).
      { intros ->. rewrite HC in HD. injection HD as <-. specialize (Hn j Hj). rewrite Hd in Hn. discriminate. }
      exists D. cbn. rewrite lookup_insert_ne, lookup_delete_ne by congruence. auto.
    + intros j d Hj. cbn. destruct (Z.eqb_spec j i) as [->|]; [discriminate|]. intros Hd.
      destruct (gk_nest L g A HK j d Hj Hd) as (D & HD & HU). assert (d <> c) by congruence.
      rewrite lookup_insert. case_decide as E3; [|rewrite lookup_delete_ne by congruence; eauto].
      subst d. rewrite HA in HD. injection HD as <-. eexists. split; [reflexivity|]. exact HU.
    + intros j Hj. cbn. destruct (Z.eqb_spec j i) as [->|]; [right|now left]. split; [|split; discriminate].
      cbn. intros Ha. rewrite (gk_inactive L g A HK i Hi Ha) in Hci. discriminate.
  - rewrite lookup_delete in HB. case_decide as E2; [discriminate|]. apply group_ok_other; [assumption| | |].
    + intros b o. apply disclaim_other. intros b' Hb' o' Ho'. now apply (not_other c C h b').
    + intros k j D HUg HD Hj Hd. assert (k <> c).
      { intros ->. rewrite HC in HD. injection HD as <-. specialize (Hn j Hj). rewrite Hd in Hn. discriminate. }
      cbn. rewrite lookup_insert. case_decide as E3; [|rewrite lookup_delete_ne by congruence; eauto].
      subst k. rewrite HA in HD. injection HD as <-. eexists. split; [reflexivity|]. split; [reflexivity|]. cbn.
      destruct (Z.eqb_spec j i) as [->|]; [congruence|assumption].
    + intros j d Hj Hd. destruct (gk_nest L h B (HL h B HB) j d Hj Hd) as (D & HD & HU). assert (d <> c) by congruence. cbn.
      rewrite lookup_insert. case_decide as E3; [|rewrite lookup_delete_ne by congruence; eauto].
      subst d. rewrite HA in HD. injection HD as <-. eexists. split; [reflexivity|]. exact HU.
Qed.
End Groups.

(** ** The bytes of a layout *)

(** What the bytes of a slot say. *)
Definition slot_mem (m : mem) (G : geom) (i : Z) (c : content) : Prop :=
  match c with
  | Block p n => hdr_enc m G i p /\ size_enc m p (pin G (i + 1)) n
  | Nest _ => hdr_enc m G i (start G i)
  | _ => True
  end.

Record group_mem (m : mem) (g : Z) (A : group) : Prop := {
  gm_link : load 8 m (gbase (geo A)) = g;
  gm_act : Z.land (m (gbase (geo A) + 8)) 31 = act A;
  gm_slot i : slotted A i -> slot_mem m (geo A) i (cont A i) }.

Definition pins_ok (L : layout) (m : mem) : Prop := forall b a, own L b = Some (OPin a) -> m b = 0.

Record mem_ok (L : layout) (m : mem) : Prop := {
  mo_wf : wf_mem m;
  mo_pins : pins_ok L m;
  mo_groups g A : groups L !! g = Some A -> group_mem m g A }.

Lemma hdr_enc_ext m m' G i p :
  geom_ok G -> hdr_enc m G i p -> start G i <= p -> m (pin G i) = 0 -> m' (pin G i) = 0 ->
  (forall b, pin G i < b < p -> m' b = m b) -> hdr_enc m' G i p.
Proof.
  intros HG (H16 & Hoff & Hend & Hu & Hi & Henc) Hp Hz Hz' Hext. pose proof (start_aligned G i HG) as Hal. unfold hdr_enc.
  split; [assumption|]. split; [assumption|]. split; [assumption|]. split; [assumption|]. unfold pin, IB in *.
  split; [now rewrite Hext by lia|]. destruct (Z.eq_dec p (start G i)) as [E|E].
  - subst p. left. destruct Henc as [[_ H]|[H _]]; [|contradiction]. split; [assumption|].
    rewrite (load_ext 2 m); [assumption|]. intros x Hx. apply Hext. lia.
  - assert (start G i + 16 <= p) by zlia. destruct Henc as [[H4 H2]|(H4 & H2 & H8)]; [left|right]; rewrite Hext by lia.
    + split; [assumption|]. rewrite (load_ext 2 m); [assumption|]. intros x Hx. apply Hext. lia.
    + split; [assumption|]. rewrite (load_ext 2 m), (load_ext 4 m); [auto| |]; intros x Hx; apply Hext; lia.
Qed.

Lemma size_enc_ext m m' p e n :
  size_enc m p e n -> m' (p - 3) = m (p - 3) -> (forall b, p + n <= b < e -> m' b = m b) -> size_enc m' p e n.
Proof.
  intros (H1 & H2 & H3 & H4 & H5) Hp Hext. unfold size_enc. rewrite Hp. split; [assumption|]. split; [assumption|].
  split; [assumption|]. split.
  - intros Hr. rewrite Hext by lia. now apply H4.
  - intros Hr. rewrite (load_ext 4 m), Hext by (lia || intros x Hx; apply Hext; lia). now apply H5.
Qed.

Lemma slot_mem_ext m m' G i c :
  geom_ok G -> slot_mem m G i c -> (forall p n, c = Block p n -> block_in G i p n) -> m (pin G i) = 0 -> m' (pin G i) = 0 ->
  (forall b, pin G i < b < start G i -> m' b = m b) ->
  (is_nest c = false -> forall b, start G i <= b < pin G (i + 1) -> m' b = m b) -> slot_mem m' G i c.
Proof.
  intros HG HS HB Hz Hz' Hf Hb. pose proof (pin_lt_start G i) as Hps. destruct c as [| |p n|c]; cbn in *; try exact I.
  - destruct HS as [HS1 HS2]. destruct (HB p n eq_refl) as (B1 & B2 & B3 & B4).
    assert (Hext : forall b, pin G i < b < pin G (i + 1) -> m' b = m b).
    { intros b Hb'. destruct (Z.lt_ge_cases b (start G i)); [apply Hf; lia|apply Hb; [reflexivity|lia]]. }
    split; [apply (hdr_enc_ext m); try assumption; intros b Hb'; apply Hext; lia|].
    apply (size_enc_ext m); [assumption|apply Hext; lia|]. intros b Hb'. apply Hext. lia.
  - apply (hdr_enc_ext m); try assumption. lia.
Qed.

Section Memory.
Variables (L : layout) (m : mem).
Hypothesis HL : layout_ok L.
Hypothesis HM : mem_ok L m.

Lemma pin_zero m' g A i : pins_ok L m' -> groups L !! g = Some A -> 0 <= i <= gcnt (geo A) -> m' (pin (geo A) i) = 0.
Proof. intros Hp HA Hi. destruct (pin_own L HL g A i HA Hi) as (a & Ha & _). now apply (Hp _ a). Qed.

(** Bytes of others may change. *)
Lemma group_mem_ext m' g A A' :
  groups L !! g = Some A -> pins_ok L m' -> geo A' = geo A -> act A' = act A ->
  (forall b, own L b = Some (OHdr g) -> m' b = m b) ->
  (forall i, slotted A i -> (cont A' i = cont A i /\ forall b, own L b = Some (OSlot g i) -> m' b = m b) \/
                            slot_mem m' (geo A) i (cont A' i)) ->
  group_mem m' g A'.
Proof.
  intros HA Hp Eg Ea Hh Hs. pose proof (HL g A HA) as HK. destruct (mo_groups L m HM g A HA) as [H1 H2 H3].
  split; rewrite ?Eg, ?Ea; unfold slotted; rewrite ?Eg.
  - rewrite (load_ext 8 m); [assumption|]. intros x Hx. apply Hh. apply (gk_hdr L g A HK). lia.
  - rewrite Hh; [assumption|]. apply (gk_hdr L g A HK). lia.
  - intros i Hi. destruct (Hs i Hi) as [[E Hb]|Hs']; [|assumption]. rewrite E.
    apply (slot_mem_ext m); try (now apply H3); try (intros; now apply (gk_block L g A HK)).
    + apply (gk_geom L g A HK).
    + apply (pin_zero m g A i); [apply HM|assumption|lia].
    + apply (pin_zero m' g A i); [assumption|assumption|lia].
    + intros b Hb'. apply Hb. now apply (gk_front L g A HK).
    + intros Hn b Hb'. apply Hb. now apply (gk_body L g A HK).
Qed.

(** The bytes of one slot change, and what is in it. *)
Lemma mem_write_slot m' g A i c :
  groups L !! g = Some A -> slotted A i -> wf_mem m' -> (forall b, own L b <> Some (OSlot g i) -> m' b = m b) ->
  slot_mem m' (geo A) i c -> mem_ok (put_group L g (set_cont A i c)) m'.
Proof.
  intros HA Hi Hwf Hext Hs.
  assert (Hp : pins_ok L m') by (intros b a Hb; rewrite Hext by congruence; now apply (mo_pins L m HM b a)).
  split; [assumption|exact Hp|]. intros h B HB. cbn in HB. rewrite lookup_insert in HB. case_decide as E.
  - subst h. injection HB as <-. apply (group_mem_ext m' g A); try reflexivity; try assumption.
    + intros b Hb. apply Hext. congruence.
    + intros j Hj. cbn. destruct (Z.eqb_spec j i) as [->|]; [now right|left]. split; [reflexivity|].
      intros b Hb. apply Hext. congruence.
  - apply (group_mem_ext m' h B); try reflexivity; try assumption.
    + intros b Hb. apply Hext. congruence.
    + intros j Hj. left. split; [reflexivity|]. intros b Hb. apply Hext. congruence.
Qed.

(** More slots are active. *)
Lemma mem_set_act m' g A a :
  groups L !! g = Some A -> wf_mem m' -> (forall b, b <> gbase (geo A) + 8 -> m' b = m b) ->
  Z.land (m' (gbase (geo A) + 8)) 31 = a -> mem_ok (put_group L g (set_act A a)) m'.
Proof.
  intros HA Hwf Hext Ha. pose proof (HL g A HA) as HK.
  assert (H8 : own L (gbase (geo A) + 8) = Some (OHdr g)) by (apply (gk_hdr L g A HK); lia).
  assert (Ho : forall b o, own L b = Some o -> o <> OHdr g -> m' b = m b).
  { intros b o Hb Ho. apply Hext. intros ->. congruence. }
  assert (Hp : pins_ok L m') by (intros b k Hb; rewrite (Ho b _ Hb) by discriminate; now apply (mo_pins L m HM b k)).
  split; [assumption|exact Hp|]. intros h B HB. cbn in HB. rewrite lookup_insert in HB. case_decide as E.
  - subst h. injection HB as <-. destruct (mo_groups L m HM g A HA) as [H1 H2 H3].
    split; cbn [geo set_act act cont]; [|assumption|].
    + rewrite (load_ext 8 m); [assumption|]. intros x Hx. apply Hext. lia.
    + intros i Hi. apply (slot_mem_ext m); try (now apply H3); try (intros; now apply (gk_block L g A HK)).
      * apply (gk_geom L g A HK).
      * unfold slotted in Hi. cbn in Hi. apply (pin_zero m g A i); [apply HM|assumption|lia].
      * unfold slotted in Hi. cbn in Hi. apply (pin_zero m' g A i); [assumption|assumption|lia].
      * intros b Hb'. apply (Ho b (OSlot g i)); [now apply (gk_front L g A HK)|discriminate].
      * intros Hn b Hb'. apply (Ho b (OSlot g i)); [now apply (gk_body L g A HK)|discriminate].
  - apply (group_mem_ext m' h B); try reflexivity; try assumption.
    + intros b Hb. apply (Ho b _ Hb). congruence.
    + intros j Hj. left. split; [reflexivity|]. intros b Hb. apply (Ho b _ Hb). discriminate.
Qed.

(** Groups come and go. *)
Lemma claim_pins c C :
  geom_ok (geo C) -> in_region C (gbase (geo C)) -> (forall i, 0 <= i <= gcnt (geo C) -> m (pin (geo C) i) = 0) ->
  forall b a, claim L c C b = Some (OPin a) -> m b = 0.
Proof.
  intros HG _ Hz b a. unfold claim. destruct (within _ _ b) eqn:E; [|apply (mo_pins L m HM)].
  apply within_region in E. unfold in_region in E. intros [= Hb].
  destruct (region_cases (geo C) b HG ltac:(lia)) as [H|[(i & Hi & ->)|[(i & Hi & H)|H]]].
  - rewrite region_hdr in Hb by lia. discriminate.
  - now apply Hz.
  - rewrite (region_slot c (geo C) HG i) in Hb by assumption. discriminate.
  - rewrite region_waste in Hb by assumption. discriminate.
Qed.

Lemma mem_add_mapped c C :
  group_mem m c C -> geom_ok (geo C) -> (forall i, 0 <= i <= gcnt (geo C) -> m (pin (geo C) i) = 0) ->
  mem_ok (add_mapped L c C) m.
Proof.
  intros HC HG Hz. split; [apply HM| |].
  - intros b a Hb. destruct (Z.lt_ge_cases (gbase (geo C)) (top C)) as [Hin|Hin].
    + now apply (claim_pins c C HG ltac:(unfold in_region; lia) Hz b a).
    + cbn in Hb. unfold claim in Hb. replace (within _ _ b) with false in Hb by (unfold within; lia). now apply (mo_pins L m HM b a).
  - intros h B HB. cbn in HB. rewrite lookup_insert in HB. case_decide as E; [injection HB as <-; now subst|].
    now apply (mo_groups L m HM).
Qed.

Lemma mem_add_nested c C g A i :
  groups L !! g = Some A -> slotted A i -> group_mem m c C -> geom_ok (geo C) ->
  (forall i, 0 <= i <= gcnt (geo C) -> m (pin (geo C) i) = 0) -> hdr_enc m (geo A) i (start (geo A) i) ->
  mem_ok (add_nested L c C g A i) m.
Proof.
  intros HA Hi HC HG Hz Hh. split; [apply HM| |].
  - intros b a Hb. destruct (Z.lt_ge_cases (gbase (geo C)) (top C)) as [Hin|Hin].
    + now apply (claim_pins c C HG ltac:(unfold in_region; lia) Hz b a).
    + cbn in Hb. unfold claim in Hb. replace (within _ _ b) with false in Hb by (unfold within; lia). now apply (mo_pins L m HM b a).
  - intros h B HB. cbn in HB. rewrite lookup_insert in HB. case_decide as E; [injection HB as <-; now subst|].
    rewrite lookup_insert in HB. case_decide as E2; [|now apply (mo_groups L m HM)].
    subst h. injection HB as <-. destruct (mo_groups L m HM g A HA) as [H1 H2 H3]. split; [assumption|assumption|].
    intros j Hj. cbn. destruct (Z.eqb_spec j i) as [->|]; [exact Hh|now apply H3].
Qed.

Lemma mem_del_mapped c C : groups L !! c = Some C -> mem_ok (del_mapped L c C) m.
Proof.
  intros HC. split; [apply HM| |].
  - intros b a Hb. cbn in Hb. unfold disclaim in Hb. destruct (within _ _ b); [discriminate|]. now apply (mo_pins L m HM b a).
  - intros h B HB. cbn in HB. rewrite lookup_delete in HB. case_decide; [discriminate|]. now apply (mo_groups L m HM).
Qed.

(** free_group takes the back link away. *)
Lemma mem_del_nested c C g A i m' :
  groups L !! c = Some C -> groups L !! g = Some A -> slotted A i -> c <> g -> wf_mem m' ->
  (forall b, own L b <> Some (OHdr c) -> m' b = m b) -> mem_ok (del_nested L c C g A i) m'.
Proof.
  intros HC HA Hi Hcg Hwf Hext.
  assert (Hp : pins_ok L m') by (intros b a Hb; rewrite Hext by congruence; now apply (mo_pins L m HM b a)).
  split; [assumption| |].
  - intros b a Hb. cbn in Hb. unfold disclaim in Hb. destruct (within _ _ b); [discriminate|]. now apply (Hp b a).
  - intros h B HB. cbn in HB. rewrite lookup_insert in HB. case_decide as E.
    + subst h. injection HB as <-. apply (group_mem_ext m' g A); try reflexivity; try assumption.
      * intros b Hb. apply Hext. congruence.
      * intros j Hj. cbn. destruct (Z.eqb_spec j i) as [->|]; [right; exact I|left]. split; [reflexivity|].
        intros b Hb. apply Hext. congruence.
    + rewrite lookup_delete in HB. case_decide as E2; [discriminate|].
      apply (group_mem_ext m' h B); try reflexivity; try assumption.
      * intros b Hb. apply Hext. congruence.
      * intros j Hj. left. split; [reflexivity|]. intros b Hb. apply Hext. congruence.
Qed.
End Memory.
