(* ===== verification/Heap.v ===== *)
(** * Heap: the invariant of the heap of Malloc

    The state of the allocator between two steps of its code ([heap_inv]): the
    layout of Layout, the struct metas that describe its groups, the lists they are
    in, and where new struct metas come from.  The first operations that keep it:
    the lists (queue, dequeue), alloc_meta and free_meta. *)

From stdpp Require Import gmap list.
From Stdlib Require Import ZArith Lia ZifyBool.
From S2P Require Import Prelude Malloc Slots Frames Rings Layout.
Open Scope Z_scope.
Open Scope heap_scope.

(** ** The kernel

    What the system calls promise: a new mapping covers bytes that were not mapped,
    in whole pages below 2^47; unmapping takes its pages away and nothing else; a
    failure changes nothing. *)

Class KernelLaws (K : Type) `{Kernel K} : Type := {
  mapped : K -> Z -> Prop;
  mmap_done len k p k' :
    k_mmap len k = (inl p, k') ->
    0 < len /\ 0 < p /\ p mod 4096 = 0 /\ p + len <= 2 ^ 47 /\
    (forall b, p <= b < p + page_up len -> ~ mapped k b) /\
    (forall b, mapped k' b <-> mapped k b \/ p <= b < p + page_up len);
  mmap_failed len k e k' : k_mmap len k = (inr e, k') -> forall b, mapped k' b <-> mapped k b;
  munmap_done base len k u k' :
    base mod 4096 = 0 -> k_munmap base len k = (inl u, k') ->
    forall b, mapped k' b <-> mapped k b /\ ~ base <= b < base + page_up len;
  munmap_failed base len k e k' : k_munmap base len k = (inr e, k') -> forall b, mapped k' b <-> mapped k b;
  mprotect_done a len k r k' : k_mprotect a len k = (r, k') -> forall b, mapped k' b <-> mapped k b;
  mremap_done base len new k p k' :
    base mod 4096 = 0 -> k_mremap base len new k = (inl p, k') ->
    0 < new /\ 0 < p /\ p mod 4096 = 0 /\ p + new <= 2 ^ 47 /\
    (forall b, p <= b < p + page_up new -> mapped k b -> base <= b < base + page_up len) /\
    (forall b, mapped k' b <-> mapped k b /\ ~ base <= b < base + page_up len \/ p <= b < p + page_up new);
  mremap_failed base len new k e k' : k_mremap base len new k = (inr e, k') -> forall b, mapped k' b <-> mapped k b }.

Lemma page_up_ok len : 0 <= len < 2 ^ 62 -> len <= page_up len <= len + 4095 /\ page_up len mod 4096 = 0.
Proof.
  intros Hl. unfold page_up, PAGESIZE. rewrite u64_small by lia. split; [zlia|]. apply Z_mod_mult.
Qed.

(** ** The invariant *)

Record ghost : Type := Ghost { lay : layout; qs : Z -> list Z; fl : list Z; limbo : list Z }.

(** The masks say which slots are free. *)
Definition masks_ok (x : meta) (A : group) : Prop :=
  bits_below (gcnt (geo A)) (avail_mask x) /\ bits_below (gcnt (geo A)) (freed_mask x) /\
  forall i, slotted A i ->
    is_free (cont A i) = Z.testbit (avail_mask x) i || Z.testbit (freed_mask x) i /\
    (Z.testbit (avail_mask x) i = true -> Z.testbit (freed_mask x) i = false /\ i <= act A).

Definition metas_ok (L : layout) (ms : gmap Z meta) : Prop :=
  forall g A, groups L !! g = Some A -> exists x, ms !! g = Some x /\ describes x (geo A) /\ masks_ok x A.

Definition no_free (A : group) : Prop := forall i, slotted A i -> is_free (cont A i) = false.
Definition inactive (A : group) : Prop := act A < gcnt (geo A) - 1.

(** The list of a class: all but its head have slots in their freed_mask only; a
    group that is not in it has no free slot; and at most one group of it is not
    all active. *)
Record class_ok (L : layout) (lb : list Z) (ms : gmap Z meta) (sc : Z) (l : list Z) : Prop := {
  co_ring : ring_ok ms l;
  co_groups g : In g l -> exists A, groups L !! g = Some A /\ gsc (geo A) = sc;
  co_tail g : In g (tail l) -> exists x, ms !! g = Some x /\ avail_mask x = 0 /\ freed_mask x <> 0;
  co_out g A : groups L !! g = Some A -> gsc (geo A) = sc -> ~ In g l -> ~ In g lb -> no_free A;
  co_inactive g A h B : In g l -> groups L !! g = Some A -> inactive A -> In h l -> groups L !! h = Some B -> inactive B -> g = h }.

(** A struct meta in [limbo] is in no list, by the work of a running operation. *)
Record lists_ok (G : ghost) (ms : gmap Z meta) (acts : list Z) (fmh : Z) : Prop := {
  lo_class sc : 0 <= sc < 48 -> class_ok (lay G) (limbo G) ms sc (qs G sc);
  lo_len : length acts = 48%nat;
  lo_head sc : 0 <= sc < 48 -> acts !! Z.to_nat sc = Some (head_of (qs G sc));
  lo_free : ring_ok ms (fl G);
  lo_free_head : fmh = head_of (fl G);
  lo_free_groups k : In k (fl G) -> groups (lay G) !! k = None;
  lo_idle k : known ms k -> ~ In k (fl G) -> (forall sc, 0 <= sc < 48 -> ~ In k (qs G sc)) -> nxt ms k = 0 /\ prv ms k = 0;
  lo_limbo : NoDup (limbo G);
  lo_limbo_in k : In k (limbo G) -> known ms k /\ ~ In k (fl G) /\ forall sc, 0 <= sc < 48 -> ~ In k (qs G sc) }.

(** ** Lists under change *)

Lemma ring_next_in nx pv l k : ring nx pv l -> In k l -> In (nx k) l.
Proof.
  intros HR Hk. apply in_split in Hk as (l1 & l2 & ->). apply ring_rotate in HR. cbn [app ring] in HR.
  enough (In (nx k) ((k :: l2) ++ l1)) as H by (apply in_app_or in H; apply in_or_app; cbn in *; tauto).
  cbn. destruct (l2 ++ l1) as [|x r]; cbn in HR.
  - left. now destruct HR.
  - right. left. now destruct HR.
Qed.

Lemma ring_linked ms l k : ring_ok ms l -> In k l -> nxt ms k <> 0.
Proof. intros (HR & _ & Hl) Hk. apply (Hl (nxt ms k)). now apply (ring_next_in _ (prv ms)). Qed.

Lemma ring_ok_ext ms ms' l :
  (forall k, In k l -> nxt ms' k = nxt ms k /\ prv ms' k = prv ms k /\ (known ms k -> known ms' k)) -> ring_ok ms l -> ring_ok ms' l.
Proof.
  intros Hk (H1 & H2 & H3). split; [|split; [assumption|]].
  - revert H1. apply ring_ext. intros k Hin. destruct (Hk k Hin) as (E1 & E2 & _). auto.
  - intros k Hin. destruct (H3 k Hin) as [H4 H5]. split; [assumption|]. now apply (Hk k Hin).
Qed.

Lemma class_ok_ext L L' lb lb' ms ms' sc l :
  class_ok L lb ms sc l -> ring_ok ms' l ->
  (forall g A, In g l -> groups L !! g = Some A -> exists A', groups L' !! g = Some A' /\ geo A' = geo A /\ act A <= act A') ->
  (forall g x, In g (tail l) -> ms !! g = Some x -> avail_mask x = 0 -> freed_mask x <> 0 ->
     exists y, ms' !! g = Some y /\ avail_mask y = 0 /\ freed_mask y <> 0) ->
  (forall g A, groups L' !! g = Some A -> gsc (geo A) = sc -> ~ In g l -> ~ In g lb' -> no_free A) ->
  class_ok L' lb' ms' sc l.
Proof.
  intros [H1 H2 H3 H4 H5] HR HA HT HO. split; try assumption.
  - intros g Hg. destruct (H2 g Hg) as (A & HgA & E). destruct (HA g A Hg HgA) as (A' & HA' & Eg & _). exists A'. now rewrite Eg.
  - intros g Hg. destruct (H3 g Hg) as (x & Hx & Ha & Hf). now apply (HT g x).
  - intros g A' h B' Hg HgA Hi Hh HhB Hi'. destruct (H2 g Hg) as (A & HA1 & _). destruct (H2 h Hh) as (B & HB1 & _).
    destruct (HA g A Hg HA1) as (A2 & E1 & E2 & E3). destruct (HA h B Hh HB1) as (B2 & E4 & E5 & E6).
    rewrite HgA in E1. injection E1 as <-. rewrite HhB in E4. injection E4 as <-. unfold inactive in *.
    apply (H5 g A h B); try assumption; unfold inactive; rewrite ?E2, ?E5 in *; lia.
Qed.

Lemma qs_class G ms acts f g A sc :
  lists_ok G ms acts f -> 0 <= sc < 48 -> In g (qs G sc) -> groups (lay G) !! g = Some A -> gsc (geo A) = sc.
Proof.
  intros HL Hs Hg HA. destruct (co_groups _ _ _ _ _ (lo_class _ _ _ _ HL sc Hs) g Hg) as (B & HB & E). congruence.
Qed.

Lemma qs_not_fl G ms acts f g sc : lists_ok G ms acts f -> 0 <= sc < 48 -> In g (qs G sc) -> ~ In g (fl G).
Proof.
  intros HL Hs Hg Hf. destruct (co_groups _ _ _ _ _ (lo_class _ _ _ _ HL sc Hs) g Hg) as (B & HB & E).
  rewrite (lo_free_groups _ _ _ _ HL g Hf) in HB. discriminate.
Qed.

Lemma qs_disjoint G ms acts f g a b :
  lists_ok G ms acts f -> 0 <= a < 48 -> 0 <= b < 48 -> In g (qs G a) -> In g (qs G b) -> a = b.
Proof.
  intros HL Ha Hb H1 H2. destruct (co_groups _ _ _ _ _ (lo_class _ _ _ _ HL a Ha) g H1) as (B & HB & <-).
  now apply (qs_class G ms acts f g B b HL).
Qed.

(** A group with links is in the list of its class. *)
Lemma linked_in G ms acts f k A :
  lists_ok G ms acts f -> known ms k -> groups (lay G) !! k = Some A -> geom_ok (geo A) -> nxt ms k <> 0 ->
  0 <= gsc (geo A) < 48 /\ In k (qs G (gsc (geo A))).
Proof.
  intros HL Hk HA HG Hn. assert (Hf : ~ In k (fl G)).
  { intros Hf. rewrite (lo_free_groups _ _ _ _ HL k Hf) in HA. discriminate. }
  destruct (decide (0 <= gsc (geo A) < 48)) as [Hc|Hc].
  - split; [assumption|]. destruct (in_dec Z.eq_dec k (qs G (gsc (geo A)))) as [|Hni]; [assumption|]. exfalso. apply Hn.
    apply (lo_idle _ _ _ _ HL k Hk Hf). intros sc Hs Hin. apply Hni.
    now rewrite (qs_class G ms acts f k A sc HL Hs Hin HA).
  - exfalso. apply Hn. apply (lo_idle _ _ _ _ HL k Hk Hf). intros sc Hs Hin. apply Hc.
    now rewrite (qs_class G ms acts f k A sc HL Hs Hin HA).
Qed.

(** The struct metas in no list. *)
Definition idle (G : ghost) (ms : gmap Z meta) (k : Z) : Prop :=
  known ms k /\ ~ In k (fl G) /\ forall sc, 0 <= sc < 48 -> ~ In k (qs G sc).

(** The lists stay; the groups and the struct metas may change. *)
Lemma lists_ext L Q F lb L' lb' ms ms' acts f :
  lists_ok (Ghost L Q F lb) ms acts f ->
  (forall k, known ms' k <-> known ms k) -> (forall k, nxt ms' k = nxt ms k /\ prv ms' k = prv ms k) ->
  (forall k, In k F -> groups L !! k = None -> groups L' !! k = None) ->
  (forall sc g A, 0 <= sc < 48 -> In g (Q sc) -> groups L !! g = Some A ->
     exists A', groups L' !! g = Some A' /\ geo A' = geo A /\ act A <= act A') ->
  (forall sc g x, 0 <= sc < 48 -> In g (tail (Q sc)) -> ms !! g = Some x -> avail_mask x = 0 -> freed_mask x <> 0 ->
     exists y, ms' !! g = Some y /\ avail_mask y = 0 /\ freed_mask y <> 0) ->
  (forall g A, groups L' !! g = Some A -> 0 <= gsc (geo A) < 48 -> ~ In g (Q (gsc (geo A))) -> ~ In g lb' -> no_free A) ->
  NoDup lb' -> (forall k, In k lb' -> idle (Ghost L Q F lb) ms k) ->
  lists_ok (Ghost L' Q F lb') ms' acts f.
Proof.
  intros HL Hk Hn Hf HA HT HO Hnd Hlb. destruct HL as [L1 L2 L3 L4 L5 L6 L7 L8 L9]. cbn in *.
  split; cbn; try assumption.
  - intros sc Hs. apply (class_ok_ext L L' lb lb' ms); [now apply L1| |intros; now apply (HA sc)|intros g x; now apply (HT sc)|].
    + apply (ring_ok_ext ms); [|apply (L1 sc Hs)]. intros k Hin. split; [apply Hn|]. split; [apply Hn|]. apply Hk.
    + intros g A HgA <- Hg Hgl. now apply (HO g).
  - apply (ring_ok_ext ms); [|assumption]. intros k Hin. split; [apply Hn|]. split; [apply Hn|]. apply Hk.
  - intros k Hin. apply Hf; [assumption|now apply L6].
  - intros k Hkn Hfk Hq. destruct (Hn k) as [-> ->]. apply L7; [now apply Hk|assumption|assumption].
  - intros k Hin. destruct (Hlb k Hin) as (E1 & E2 & E3). split; [now apply Hk|]. auto.
Qed.

(** *** One list changes *)

Definition set_q (Q : Z -> list Z) (sc : Z) (l : list Z) : Z -> list Z := fun k => if k =? sc then l else Q k.

Lemma set_q_eq Q sc l : set_q Q sc l sc = l.
Proof. unfold set_q. now rewrite Z.eqb_refl. Qed.
Lemma set_q_ne Q sc l k : k <> sc -> set_q Q sc l k = Q k.
Proof. unfold set_q. intros Hk. now replace (k =? sc) with false by lia. Qed.

(** Links of the members of the list and of [m] only. *)
Definition links_within (ms ms' : gmap Z meta) (l : list Z) (m : Z) : Prop :=
  (forall k, known ms' k <-> known ms k) /\ (forall k, k <> m -> ~ In k l -> ms' !! k = ms !! k).

Lemma links_same ms ms' l m k : links_within ms ms' l m -> k <> m -> ~ In k l -> nxt ms' k = nxt ms k /\ prv ms' k = prv ms k.
Proof. intros [_ Hl] Hk Hin. unfold nxt, prv. now rewrite Hl. Qed.

Lemma head_set sc Q l acts :
  length acts = 48%nat -> 0 <= sc < 48 -> (forall k, 0 <= k < 48 -> acts !! Z.to_nat k = Some (head_of (Q k))) ->
  forall k, 0 <= k < 48 -> <[Z.to_nat sc := head_of l]> acts !! Z.to_nat k = Some (head_of (set_q Q sc l k)).
Proof.
  intros Hlen Hs Hh k Hk. destruct (Z.eq_dec k sc) as [->|Hks].
  - rewrite set_q_eq. apply list_lookup_insert_eq. lia.
  - rewrite set_q_ne, list_lookup_insert_ne by lia. now apply Hh.
Qed.

Lemma lists_set_q L Q F lb L' lb' ms ms' acts f sc l' m :
  lists_ok (Ghost L Q F lb) ms acts f -> 0 <= sc < 48 -> class_ok L' lb' ms' sc l' -> links_within ms ms' (Q sc) m ->
  ~ In m F -> (forall k, 0 <= k < 48 -> k <> sc -> ~ In m (Q k)) ->
  (forall g, g <> m -> groups L' !! g = groups L !! g) ->
  (forall A, groups L' !! m = Some A -> gsc (geo A) = sc) ->
  (forall g, In g lb -> g = m \/ In g lb') -> (forall k, In k (Q sc) -> k = m \/ In k l') ->
  (~ In m l' -> nxt ms' m = 0 /\ prv ms' m = 0) ->
  NoDup lb' -> (forall k, In k lb' -> idle (Ghost L' (set_q Q sc l') F lb') ms' k) ->
  lists_ok (Ghost L' (set_q Q sc l') F lb') ms' (<[Z.to_nat sc := head_of l']> acts) f.
Proof.
  intros HL Hs HC HW HmF Hmq HLm Hmc Hlb Hsub Hm Hnd Hidle. destruct HL as [L1 L2 L3 L4 L5 L6 L7 L8 L9]. cbn in *.
  destruct HW as [Hkn Hsame].
  assert (HF : forall k, In k F -> ~ In k (Q sc)).
  { intros k Hk Hin. destruct (co_groups _ _ _ _ _ (L1 sc Hs) k Hin) as (B & HB & _). rewrite (L6 k Hk) in HB. discriminate. }
  assert (Hq : forall a k, 0 <= a < 48 -> a <> sc -> In k (Q a) -> k <> m /\ ~ In k (Q sc)).
  { intros a k Ha Has Hk. split; [intros ->; now apply (Hmq a)|]. intros Hin. apply Has.
    destruct (co_groups _ _ _ _ _ (L1 a Ha) k Hk) as (B & HB & <-). destruct (co_groups _ _ _ _ _ (L1 sc Hs) k Hin) as (B' & HB' & <-).
    congruence. }
  split; cbn; try assumption.
  - intros a Ha. destruct (Z.eq_dec a sc) as [->|Has]; [now rewrite set_q_eq|]. rewrite set_q_ne by assumption.
    apply (class_ok_ext L L' lb lb' ms); [now apply L1| | | |].
    + apply (ring_ok_ext ms); [|apply (L1 a Ha)]. intros k Hk. destruct (Hq a k Ha Has Hk) as [H1 H2].
      unfold nxt, prv. rewrite (Hsame k H1 H2), Hkn. auto.
    + intros g A Hg HgA. destruct (Hq a g Ha Has Hg) as [H1 _]. exists A. rewrite HLm by assumption. split; [assumption|]. split; [reflexivity|lia].
    + intros g x Hg Hx Hx1 Hx2. assert (Hg' : In g (Q a)) by (destruct (Q a); [destruct Hg|now right]).
      destruct (Hq a g Ha Has Hg') as [H1 H2]. exists x. now rewrite Hsame.
    + intros g A HgA Hc Hg Hgl. destruct (Z.eq_dec g m) as [->|Hgm]; [specialize (Hmc A HgA); congruence|].
      rewrite HLm in HgA by assumption. apply (co_out _ _ _ _ _ (L1 a Ha) g A HgA Hc Hg). intros Hgl'.
      destruct (Hlb g Hgl'); contradiction.
  - rewrite length_insert. assumption.
  - now apply head_set.
  - apply (ring_ok_ext ms); [|assumption]. intros k Hk. unfold nxt, prv.
    rewrite (Hsame k), Hkn; [auto|intros ->; contradiction|now apply HF].
  - intros k Hk. rewrite HLm by (intros ->; contradiction). now apply L6.
  - intros k Hk Hf Hnin. destruct (Z.eq_dec k m) as [->|Hkm].
    { apply Hm. specialize (Hnin sc Hs). now rewrite set_q_eq in Hnin. }
    assert (Hks : ~ In k (Q sc)).
    { intros Hin. destruct (Hsub k Hin) as [|Hl']; [contradiction|]. apply (Hnin sc Hs). now rewrite set_q_eq. }
    unfold nxt, prv. rewrite (Hsame k Hkm Hks). fold (nxt ms k) (prv ms k). apply L7; [now apply Hkn|assumption|].
    intros a Ha. destruct (Z.eq_dec a sc) as [->|Has]; [assumption|]. specialize (Hnin a Ha). now rewrite set_q_ne in Hnin.
Qed.

(** A group leaves its list. *)
Lemma lists_dequeue L Q F lb ms ms' acts f sc l1 m l2 :
  lists_ok (Ghost L Q F lb) ms acts f -> 0 <= sc < 48 -> Q sc = l1 ++ m :: l2 ->
  ring_ok ms' (l1 ++ l2) -> relinked ms ms' -> nxt ms' m = 0 -> prv ms' m = 0 ->
  (forall k, ~ In k (l1 ++ m :: l2) -> ms' !! k = ms !! k) ->
  lists_ok (Ghost L (set_q Q sc (l1 ++ l2)) F (m :: lb)) ms' (<[Z.to_nat sc := head_of (l1 ++ l2)]> acts) f.
Proof.
  intros HL Hs EQ HR HX Hn Hp Hsame. pose proof (lo_class _ _ _ _ HL sc Hs) as HC. cbn in HC. rewrite EQ in HC.
  assert (Hmin : In m (Q sc)) by (rewrite EQ; apply in_or_app; right; now left).
  assert (Hkn : forall k, known ms' k <-> known ms k) by (intros k; symmetry; now apply relinked_known).
  destruct (co_groups _ _ _ _ _ HC m) as (A & HA & Hc); [now rewrite <- EQ|].
  destruct (co_ring _ _ _ _ _ HC) as (_ & Hnd & Hall). rewrite <- Permutation_middle in Hnd. apply NoDup_cons in Hnd as [Hmn Hnd].
  rewrite list_elem_of_In in Hmn.
  assert (Hsub : forall k, In k (l1 ++ l2) -> In k (l1 ++ m :: l2)).
  { intros k Hk. apply in_app_or in Hk. apply in_or_app. destruct Hk; [now left|right; now right]. }
  assert (Hsub' : forall k, In k (l1 ++ m :: l2) -> k = m \/ In k (l1 ++ l2)).
  { intros k Hk. apply in_app_or in Hk as [Hk|[Hk|Hk]]; [right|now left|right]; apply in_or_app; auto. }
  assert (Hmq : forall k, 0 <= k < 48 -> k <> sc -> ~ In m (Q k)).
  { intros k Hk Hks Hin. apply Hks. exact (qs_disjoint _ _ _ _ m k sc HL Hk Hs Hin Hmin). }
  assert (HmF : ~ In m F) by exact (qs_not_fl _ _ _ _ m sc HL Hs Hmin).
  apply (lists_set_q L Q F lb L (m :: lb) ms ms' acts f sc (l1 ++ l2) m); try assumption; auto.
  - split; [assumption| | | |].
    + intros g Hg. apply (co_groups _ _ _ _ _ HC). now apply Hsub.
    + intros g Hg. assert (Hg' : In g (tail (l1 ++ m :: l2))).
      { destruct l1 as [|h l1]; cbn in *; [destruct l2; [destruct Hg|now right]|].
        apply in_app_or in Hg. apply in_or_app. destruct Hg; [now left|right; now right]. }
      destruct (co_tail _ _ _ _ _ HC g Hg') as (x & Hx & Ha & Hf). specialize (HX g). rewrite Hx in HX.
      destruct (ms' !! g) as [y|]; [|contradiction]. exists y. rewrite HX. auto.
    + intros g B HB Hgc Hg Hgl. apply (co_out _ _ _ _ _ HC g B HB Hgc).
      * intros Hin. destruct (Hsub' g Hin) as [->|]; [apply Hgl; now left|contradiction].
      * intros Hin. apply Hgl. now right.
    + intros g B h B' Hg HB Hi Hh HB' Hi'. apply (co_inactive _ _ _ _ _ HC g B h B'); auto.
  - split; [assumption|]. intros k _ Hk. apply Hsame. now rewrite <- EQ.
  - intros B HB. congruence.
  - intros g Hg. right. now right.
  - intros k Hk. rewrite EQ in Hk. now apply Hsub'.
  - apply NoDup_cons. split; [|apply (lo_limbo _ _ _ _ HL)]. rewrite list_elem_of_In. intros Hin.
    destruct (lo_limbo_in _ _ _ _ HL m Hin) as (_ & _ & Hq). now apply (Hq sc Hs).
  - assert (Hmk : known ms m) by (apply Hall; now rewrite <- EQ).
    intros k [<-|Hk]; unfold idle; cbn; rewrite Hkn.
    + split; [assumption|]. split; [assumption|]. intros a Ha. destruct (Z.eq_dec a sc) as [->|Has]; [now rewrite set_q_eq|].
      rewrite set_q_ne by assumption. now apply Hmq.
    + destruct (lo_limbo_in _ _ _ _ HL k Hk) as (E1 & E2 & E3). split; [assumption|]. split; [assumption|]. intros a Ha.
      destruct (Z.eq_dec a sc) as [->|Has]; [|rewrite set_q_ne by assumption; now apply E3].
      rewrite set_q_eq. intros Hin. apply (E3 sc Hs). cbn. rewrite EQ. now apply Hsub.
Qed.

(** A group in no list becomes the last of the list of its class. *)
Lemma lists_enqueue L Q F lb L' ms ms' acts f sc m A x :
  lists_ok (Ghost L Q F (m :: lb)) ms acts f -> 0 <= sc < 48 -> groups L' !! m = Some A -> gsc (geo A) = sc ->
  (forall g, g <> m -> groups L' !! g = groups L !! g) ->
  ring_ok ms' (Q sc ++ [m]) -> links_within ms ms' (Q sc) m ->
  (forall g y, In g (Q sc) -> ms !! g = Some y -> exists z, ms' !! g = Some z /\ avail_mask z = avail_mask y /\ freed_mask z = freed_mask y) ->
  ms' !! m = Some x -> (Q sc <> [] -> avail_mask x = 0 /\ freed_mask x <> 0 /\ ~ inactive A) ->
  lists_ok (Ghost L' (set_q Q sc (Q sc ++ [m])) F lb) ms' (<[Z.to_nat sc := head_of (Q sc ++ [m])]> acts) f.
Proof.
  intros HL Hs HA Hc HLm HR HW Hmask Hx Hnew. pose proof (lo_class _ _ _ _ HL sc Hs) as HC. cbn in HC.
  destruct (lo_limbo_in _ _ _ _ HL m) as (Hmk & HmF & Hmq); [now left|]. cbn in HmF, Hmq.
  pose proof (lo_limbo _ _ _ _ HL) as Hnd. cbn in Hnd. apply NoDup_cons in Hnd as [Hmlb Hnd]. rewrite list_elem_of_In in Hmlb.
  pose proof (Hmq sc Hs) as Hml. assert (Hmin : In m (Q sc ++ [m])) by (apply in_or_app; right; now left).
  apply (lists_set_q L Q F (m :: lb) L' lb ms ms' acts f sc (Q sc ++ [m]) m); try assumption; auto.
  - split; [assumption| | | |].
    + intros g Hg. apply in_app_or in Hg as [Hg|[<-|[]]]; [|now exists A]. rewrite HLm by (intros ->; contradiction).
      now apply (co_groups _ _ _ _ _ HC).
    + intros g Hg. destruct (Q sc) as [|h t] eqn:EQ; [destruct Hg|]. cbn in Hg. apply in_app_or in Hg as [Hg|[<-|[]]].
      * destruct (co_tail _ _ _ _ _ HC g Hg) as (y & Hy & Ha & Hf). destruct (Hmask g y) as (z & Hz & E1 & E2); [now right|assumption|].
        exists z. now rewrite E1, E2.
      * exists x. split; [assumption|]. destruct Hnew as (E1 & E2 & _); [discriminate|]. auto.
    + intros g B HB Hgc Hg Hgl. assert (Hgm : g <> m) by (intros ->; contradiction). rewrite HLm in HB by assumption.
      apply (co_out _ _ _ _ _ HC g B HB Hgc); [intros Hin; apply Hg, in_or_app; now left|]. intros [->|Hin]; contradiction.
    + assert (Hold : forall g B, In g (Q sc ++ [m]) -> groups L' !! g = Some B -> inactive B ->
        (g = m /\ Q sc = []) \/ (In g (Q sc) /\ groups L !! g = Some B)).
      { intros g B Hg HB Hi. apply in_app_or in Hg as [Hg|[<-|[]]].
        - right. split; [assumption|]. rewrite HLm in HB; [assumption|]. intros ->. contradiction.
        - left. split; [reflexivity|]. destruct (Q sc) as [|h t]; [reflexivity|]. exfalso.
          destruct Hnew as (_ & _ & Hni); [discriminate|]. congruence. }
      intros g B h B' Hg HB Hi Hh HB' Hi'.
      destruct (Hold g B Hg HB Hi) as [[-> E]|[H1 H2]], (Hold h B' Hh HB' Hi') as [[-> E']|[H3 H4]].
      * reflexivity.
      * rewrite E in H3. destruct H3.
      * rewrite E' in H1. destruct H1.
      * now apply (co_inactive _ _ _ _ _ HC g B h B').
  - intros B HB. congruence.
  - intros g [<-|Hg]; [now left|now right].
  - intros k Hk. right. apply in_or_app. now left.
  - contradiction.
  - intros k Hk. destruct (lo_limbo_in _ _ _ _ HL k) as (E1 & E2 & E3); [now right|]. cbn in *. unfold idle. cbn.
    rewrite (proj1 HW). split; [assumption|]. split; [assumption|]. intros a Ha.
    destruct (Z.eq_dec a sc) as [->|Has]; [|rewrite set_q_ne by assumption; now apply E3].
    rewrite set_q_eq. intros Hin. apply in_app_or in Hin as [Hin|[->|[]]]; [now apply (E3 sc Hs)|contradiction].
Qed.

(** The head of a list moves on. *)
Lemma lists_rotate L Q F lb ms acts f sc h t x :
  lists_ok (Ghost L Q F lb) ms acts f -> 0 <= sc < 48 -> Q sc = h :: t -> ms !! h = Some x -> avail_mask x = 0 ->
  freed_mask x <> 0 ->
  lists_ok (Ghost L (set_q Q sc (t ++ [h])) F lb) ms (<[Z.to_nat sc := head_of (t ++ [h])]> acts) f /\ next x = head_of (t ++ [h]).
Proof.
  intros HL Hs EQ Hx Ha Hf. pose proof (lo_class _ _ _ _ HL sc Hs) as HC. cbn in HC. rewrite EQ in HC.
  destruct (co_ring _ _ _ _ _ HC) as (HR & Hnd & Hall).
  assert (Hin : forall k, In k (t ++ [h]) <-> In k (h :: t)) by (intros k; rewrite in_app_iff; cbn; tauto).
  split.
  - assert (Hhin : In h (Q sc)) by (rewrite EQ; now left).
    apply (lists_set_q L Q F lb L lb ms ms acts f sc (t ++ [h]) h); try assumption; try reflexivity; auto.
    + split.
      * split; [exact (ring_rotate (nxt ms) (prv ms) [h] t HR)|]. split; [now rewrite (Permutation_app_comm t [h])|].
        intros k Hk. apply Hall. now apply Hin.
      * intros g Hg. apply (co_groups _ _ _ _ _ HC). now apply Hin.
      * intros g Hg. destruct t as [|b t]; [destruct Hg|]. cbn in Hg. apply in_app_or in Hg as [Hg|[<-|[]]].
        -- apply (co_tail _ _ _ _ _ HC). now right.
        -- exists x. auto.
      * intros g B HB Hgc Hg. apply (co_out _ _ _ _ _ HC g B HB Hgc). now rewrite <- Hin.
      * intros g B k B' Hg HB Hi Hk. apply (co_inactive _ _ _ _ _ HC g B k B'); try assumption; now apply Hin.
    + split; [reflexivity|auto].
    + exact (qs_not_fl _ _ _ _ h sc HL Hs Hhin).
    + intros k Hk Hks Hk'. apply Hks. exact (qs_disjoint _ _ _ _ h k sc HL Hk Hs Hk' Hhin).
    + intros B HB. exact (qs_class _ _ _ _ h B sc HL Hs Hhin HB).
    + intros k Hk. right. rewrite EQ in Hk. now apply Hin.
    + intros Hk. exfalso. apply Hk, Hin. now left.
    + apply (lo_limbo _ _ _ _ HL).
    + intros k Hk. destruct (lo_limbo_in _ _ _ _ HL k Hk) as (E1 & E2 & E3). split; [assumption|]. split; [assumption|].
      intros a Has. cbn. destruct (Z.eq_dec a sc) as [->|Hn]; [|rewrite set_q_ne by assumption; now apply E3].
      rewrite set_q_eq, Hin, <- EQ. now apply E3.
  - cbn in HR. replace (next x) with (nxt ms h) by (unfold nxt; now rewrite Hx).
    destruct t as [|b t]; cbn in HR |- *; apply HR.
Qed.

(** The list of free struct metas. *)
Lemma lists_free_meta L Q F lb ms ms' acts f m :
  lists_ok (Ghost L Q F (m :: lb)) ms acts f -> groups L !! m = None -> ring_ok ms' (F ++ [m]) -> links_within ms ms' F m ->
  lists_ok (Ghost L Q (F ++ [m]) lb) ms' acts (head_of (F ++ [m])).
Proof.
  intros HL Hg HR [Hkn Hsame]. pose proof (lo_limbo _ _ _ _ HL) as Hnd. cbn in Hnd. apply NoDup_cons in Hnd as [Hmlb Hnd].
  rewrite list_elem_of_In in Hmlb. destruct (lo_limbo_in _ _ _ _ HL m) as (Hmk & HmF & Hmq); [now left|]. cbn in HmF, Hmq.
  assert (Hq : forall a k, 0 <= a < 48 -> In k (Q a) -> ms' !! k = ms !! k).
  { intros a k Ha Hk. apply Hsame; [intros ->; now apply (Hmq a)|]. exact (qs_not_fl _ _ _ _ k a HL Ha Hk). }
  split; cbn; try assumption; try apply HL.
  - intros a Ha. pose proof (lo_class _ _ _ _ HL a Ha) as HC. cbn in HC.
    apply (class_ok_ext L L (m :: lb) lb ms); [assumption| | | |].
    + apply (ring_ok_ext ms); [|apply HC]. intros k Hk. unfold nxt, prv. rewrite (Hq a k Ha Hk), Hkn. auto.
    + intros g A _ HA. exists A. split; [assumption|]. split; [reflexivity|lia].
    + intros g x Hg' Hx Hx1 Hx2. exists x. rewrite (Hq a g Ha); [auto|]. destruct (Q a); [destruct Hg'|now right].
    + intros g A HA Hc Hg' Hgl. apply (co_out _ _ _ _ _ HC g A HA Hc Hg'). intros [->|Hin]; [congruence|contradiction].
  - reflexivity.
  - intros k Hk. apply in_app_or in Hk as [Hk|[<-|[]]]; [now apply (lo_free_groups _ _ _ _ HL)|assumption].
  - intros k Hk Hf Hnq. assert (HkF : ~ In k F /\ k <> m) by (split; intros HH; apply Hf, in_or_app; [now left|right; left; congruence]).
    unfold nxt, prv. rewrite Hsame by tauto. apply (lo_idle _ _ _ _ HL k); [now apply Hkn|tauto|assumption].
  - intros k Hk. destruct (lo_limbo_in _ _ _ _ HL k) as (E1 & E2 & E3); [now right|]. cbn in *. rewrite Hkn.
    split; [assumption|]. split; [|assumption]. intros Hin. apply in_app_or in Hin as [Hin|[->|[]]]; contradiction.
Qed.

Lemma lists_take_meta L Q F lb ms ms' acts f m :
  lists_ok (Ghost L Q (m :: F) lb) ms acts f -> ring_ok ms' F -> links_within ms ms' (m :: F) m ->
  nxt ms' m = 0 -> prv ms' m = 0 -> lists_ok (Ghost L Q F (m :: lb)) ms' acts (head_of F).
Proof.
  intros HL HR [Hkn Hsame] Hn Hp. destruct (lo_free _ _ _ _ HL) as (_ & Hnd & Hall). cbn in Hnd, Hall.
  apply NoDup_cons in Hnd as [HmF Hnd]. rewrite list_elem_of_In in HmF.
  assert (Hmq : forall a, 0 <= a < 48 -> ~ In m (Q a)) by (intros a Ha Hin; apply (qs_not_fl _ _ _ _ m a HL Ha Hin); now left).
  assert (Hq : forall a k, 0 <= a < 48 -> In k (Q a) -> ms' !! k = ms !! k).
  { intros a k Ha Hk. apply Hsame; [intros ->; now apply (Hmq a)|]. exact (qs_not_fl _ _ _ _ k a HL Ha Hk). }
  split; cbn; try assumption; try apply HL.
  - intros a Ha. pose proof (lo_class _ _ _ _ HL a Ha) as HC. cbn in HC.
    apply (class_ok_ext L L lb (m :: lb) ms); [assumption| | | |].
    + apply (ring_ok_ext ms); [|apply HC]. intros k Hk. unfold nxt, prv. rewrite (Hq a k Ha Hk), Hkn. auto.
    + intros g A _ HA. exists A. split; [assumption|]. split; [reflexivity|lia].
    + intros g x Hg' Hx Hx1 Hx2. exists x. rewrite (Hq a g Ha); [auto|]. destruct (Q a); [destruct Hg'|now right].
    + intros g A HA Hc Hg' Hgl. apply (co_out _ _ _ _ _ HC g A HA Hc Hg'). intros Hin. apply Hgl. now right.
  - reflexivity.
  - intros k Hk. apply (lo_free_groups _ _ _ _ HL). now right.
  - intros k Hk Hf Hnq. destruct (Z.eq_dec k m) as [->|Hkm]; [auto|]. assert (HkF : ~ In k (m :: F)) by (intros [|]; congruence).
    unfold nxt, prv. rewrite Hsame by assumption. apply (lo_idle _ _ _ _ HL k); [now apply Hkn|assumption|assumption].
  - apply NoDup_cons. split; [|apply HL]. rewrite list_elem_of_In. intros Hin.
    destruct (lo_limbo_in _ _ _ _ HL m Hin) as (_ & E & _). apply E. now left.
  - intros k [<-|Hk]; rewrite Hkn.
    + split; [apply Hall; now left|]. auto.
    + destruct (lo_limbo_in _ _ _ _ HL k Hk) as (E1 & E2 & E3). cbn in *. split; [assumption|]. split; [|assumption].
      intros Hin. apply E2. now right.
Qed.

(** An address that a new struct meta may get. *)
Definition unused (L : layout) (ms : gmap Z meta) (k : Z) : Prop := ~ known ms k /\ own L k = Some OMeta /\ k <> 0.

Section Heap.
Context {K : Type} `{KernelLaws K}.
Variables bootstrap random_secret : Z.
Implicit Types s : heap K.

Record env_ok (L : layout) (ms : gmap Z meta) (ars : gmap Z meta_area) (c : meta_context) (cn : counters) (k : K) : Prop := {
  eo_usage : length (usage_by_class cn) = 48%nat;
  eo_seq : length (unmap_seq cn) = 32%nat;
  eo_bounces : length (bounces cn) = 32%nat;
  eo_mapped b o : own L b = Some o -> mapped k b;
  eo_known g : known ms g -> own L g = Some OMeta /\ g <> 0 /\
    ((bootstrap <= g < bootstrap + bootstrap_meta_used c * SIZEOF_META /\ (g - bootstrap) mod SIZEOF_META = 0) \/
     is_Some (ars !! Z.land g (-4096)));
  eo_areas a x : ars !! a = Some x -> init_done c = true /\ Malloc.check x = secret c;
  eo_used : 0 <= bootstrap_meta_used c <= 24;
  eo_boot j : bootstrap_meta_used c <= j < 24 -> unused L ms (bootstrap + j * SIZEOF_META);
  eo_boot_first : bootstrap_meta_used c < 24 -> avail_meta_count c = 0 /\ avail_meta_area_count c = 0;
  eo_count : 0 <= avail_meta_count c;
  eo_avail i : 0 <= i < avail_meta_count c ->
    unused L ms (avail_meta c + i * SIZEOF_META) /\ is_Some (ars !! Z.land (avail_meta c + i * SIZEOF_META) (-4096));
  eo_below : avail_meta_count c <> 0 -> avail_meta c + avail_meta_count c * SIZEOF_META <= avail_meta_areas c;
  eo_area_count : 0 <= avail_meta_area_count c;
  eo_area_page : avail_meta_areas c mod 4096 = 0;
  eo_fresh g : avail_meta_areas c <= g < avail_meta_areas c + avail_meta_area_count c * 4096 -> unused L ms g;
  eo_tail : meta_area_tail c <> 0 -> is_Some (ars !! meta_area_tail c);
  eo_shift : 0 <= meta_alloc_shift c;
  eo_range g : own L g = Some OMeta -> 0 < g < 2 ^ 47 }.

Record heap_inv (G : ghost) s : Prop := {
  hi_layout : layout_ok (lay G);
  hi_mem : mem_ok (lay G) (bytes s);
  hi_metas : metas_ok (lay G) (metas s);
  hi_lists : lists_ok G (metas s) (active s) (free_meta_head (mctx s));
  hi_env : env_ok (lay G) (metas s) (areas s) (mctx s) (cnts s) (kern s) }.
End Heap.
