(* ===== verification/HeapOps.v ===== *)
(** * HeapOps: the steps that keep the invariant of the heap

    How the operations on struct metas, on the lists and on one group of Malloc
    change the layout of the heap: queue, dequeue, alloc_meta and free_meta, a
    change of what a slot holds, a group that comes or goes, and the counters. *)

From stdpp Require Import gmap list.
From Stdlib Require Import ZArith Lia ZifyBool.
From S2P Require Import Prelude Malloc Slots Frames Rings Layout Heap.
Open Scope Z_scope.
Open Scope heap_scope.

(** ** Struct metas *)

Lemma metas_relinked L ms ms' : relinked ms ms' -> metas_ok L ms -> metas_ok L ms'.
Proof.
  intros HX HM g A HA. destruct (HM g A HA) as (x & Hx & HD & HK). specialize (HX g). rewrite Hx in HX.
  destruct (ms' !! g) as [y|]; [|contradiction]. exists y. split; [reflexivity|]. rewrite HX. split; assumption.
Qed.

Lemma known_insert ms g x k : known ms g -> known (<[g := x]> ms) k <-> known ms k.
Proof.
  intros [y Hy]. unfold known. rewrite lookup_insert. case_decide as E; [|reflexivity]. subst.
  split; intros _; eexists; [exact Hy|reflexivity].
Qed.

Lemma links_insert ms g x y k :
  ms !! g = Some y -> next x = next y -> prev x = prev y ->
  nxt (<[g := x]> ms) k = nxt ms k /\ prv (<[g := x]> ms) k = prv ms k.
Proof.
  intros Hy E1 E2. unfold nxt, prv. rewrite lookup_insert. case_decide as E; [|auto]. subst. rewrite Hy. auto.
Qed.

(** The fields of a meta that a step does not write. *)
Definition same_links (x y : meta) : Prop := next y = next x /\ prev y = prev x.

Section Ops.
Context {K : Type} `{KernelLaws K}.
Variables bootstrap random_secret : Z.
Implicit Types s : heap K.
Notation env_ok := (@env_ok K _ _ bootstrap).
Notation heap_inv := (@heap_inv K _ _ bootstrap).

(** ** The environment *)

Lemma env_ext L L' ms ms' ars c cn cn' k k' :
  env_ok L ms ars c cn k ->
  (forall b, own L' b = Some OMeta <-> own L b = Some OMeta) -> (forall b o, own L' b = Some o -> mapped k' b) ->
  (forall g, known ms' g <-> known ms g) ->
  length (usage_by_class cn') = 48%nat -> length (unmap_seq cn') = 32%nat -> length (bounces cn') = 32%nat ->
  env_ok L' ms' ars c cn' k'.
Proof.
  intros HE HO HM HK H1 H2 H3.
  assert (HU : forall g, unused L ms g -> unused L' ms' g).
  { intros g (E1 & E2 & E3). unfold unused. rewrite HO, HK. auto. }
  split; try assumption; try apply HE.
  - intros g Hg. rewrite HO. apply HE. now apply HK.
  - intros j Hj. apply HU. now apply (eo_boot _ _ _ _ _ _ _ HE).
  - intros i Hi. destruct (eo_avail _ _ _ _ _ _ _ HE i Hi) as [E1 E2]. split; [now apply HU|assumption].
  - intros g Hg. apply HU. now apply (eo_fresh _ _ _ _ _ _ _ HE).
  - intros g. rewrite HO. apply (eo_range _ _ _ _ _ _ _ HE).
Qed.

Definition set_free_head (v : Z) (c : meta_context) : meta_context :=
  Metas (secret c) (init_done c) v (avail_meta c) (avail_meta_count c) (avail_meta_area_count c) (meta_alloc_shift c)
    (meta_area_tail c) (avail_meta_areas c) (bootstrap_meta_used c).

Lemma env_free_head L ms ars c cn k v : env_ok L ms ars c cn k -> env_ok L ms ars (set_free_head v c) cn k.
Proof. intros []. split; assumption. Qed.

(** A struct meta in the environment is one that get_meta trusts. *)
Lemma env_trusted G s g : heap_inv G s -> known (metas s) g -> trusted bootstrap s g.
Proof.
  intros [_ _ _ _ HE] Hg. destruct (eo_known _ _ _ _ _ _ _ HE g Hg) as (_ & _ & [H1|[a Ha]]); [now left|right].
  exists a. split; [assumption|]. now apply (eo_areas _ _ _ _ _ _ _ HE (Z.land g (-4096))).
Qed.

Lemma group_meta G s g A :
  heap_inv G s -> groups (lay G) !! g = Some A ->
  exists x, metas s !! g = Some x /\ describes x (geo A) /\ masks_ok x A /\ group_ok (lay G) g A /\ group_mem (bytes s) g A /\
            known (metas s) g /\ trusted bootstrap s g /\ own (lay G) g = Some OMeta /\ g <> 0.
Proof.
  intros HI HA. destruct (hi_metas _ _ _ HI g A HA) as (x & Hx & HD & HK). exists x. assert (Hk : known (metas s) g) by (exists x; exact Hx).
  destruct (eo_known _ _ _ _ _ _ _ (hi_env _ _ _ HI) g Hk) as (E1 & E2 & _).
  split; [assumption|]. split; [assumption|]. split; [assumption|]. split; [exact (hi_layout _ _ _ HI g A HA)|].
  split; [exact (mo_groups _ _ (hi_mem _ _ _ HI) g A HA)|]. split; [assumption|]. split; [exact (env_trusted G s g HI Hk)|auto].
Qed.

(** ** One group changes *)

Definition set_lay (L : layout) (G : ghost) : ghost := Ghost L (qs G) (fl G) (limbo G).

Lemma inv_group G s g A A' x x' m' :
  heap_inv G s -> groups (lay G) !! g = Some A -> metas s !! g = Some x -> same_links x x' ->
  geo A' = geo A -> act A <= act A' ->
  layout_ok (put_group (lay G) g A') -> mem_ok (put_group (lay G) g A') m' -> describes x' (geo A) -> masks_ok x' A' ->
  (forall sc, 0 <= sc < 48 -> In g (tail (qs G sc)) -> avail_mask x' = 0 /\ freed_mask x' <> 0) ->
  (0 <= gsc (geo A) < 48 -> ~ In g (qs G (gsc (geo A))) -> ~ In g (limbo G) -> no_free A') ->
  heap_inv (set_lay (put_group (lay G) g A') G) (with_metas (<[g := x']> (metas s)) (with_bytes m' s)).
Proof.
  intros HI HA Hx [Hn Hp] Eg Ea HL HM HD HK HT HO. destruct HI as [I1 I2 I3 I4 I5].
  assert (Hkn : forall k, known (<[g := x']> (metas s)) k <-> known (metas s) k) by (intros k; apply known_insert; eexists; eassumption).
  split; cbn; try assumption.
  - intros h B HB. cbn in HB. rewrite lookup_insert in HB. rewrite lookup_insert. case_decide as E; [|now apply I3].
    injection HB as <-. exists x'. rewrite Eg. auto.
  - destruct G as [L Q F lb]. cbn in *. apply (lists_ext L Q F lb _ lb (metas s)); cbn; try assumption.
    + intros k. now apply (links_insert _ _ _ x).
    + intros k Hk Hkn'. rewrite lookup_insert_ne; [assumption|]. congruence.
    + intros sc h B Hs Hh HB. rewrite lookup_insert. case_decide as E; [|exists B; split; [assumption|split; [reflexivity|lia]]].
      subst h. rewrite HA in HB. injection HB as <-. exists A'. auto.
    + intros sc h y Hs Hh Hy Hy1 Hy2. rewrite lookup_insert. case_decide as E; [|eauto].
      subst h. exists x'. split; [reflexivity|]. now apply (HT sc).
    + intros h B HB Hc Hq Hl. rewrite lookup_insert in HB. case_decide as E.
      * injection HB as <-. subst h. rewrite Eg in *. now apply HO.
      * pose proof (lo_class _ _ _ _ I4 (gsc (geo B)) Hc) as HC. now apply (co_out _ _ _ _ _ HC h B).
    + apply (lo_limbo _ _ _ _ I4).
    + intros k Hk. exact (lo_limbo_in _ _ _ _ I4 k Hk).
  - apply (env_ext (lay G) _ (metas s) _ _ _ (cnts s) _ (kern s)); try assumption; try apply I5. reflexivity.
Qed.

(** ** The lists *)

Lemma env_relinked L ms ms' ars c cn k : relinked ms ms' -> env_ok L ms ars c cn k -> env_ok L ms' ars c cn k.
Proof.
  intros HX HE. apply (env_ext L _ ms _ _ _ cn _ k); try assumption; try apply HE; try reflexivity.
  intros g. symmetry. now apply relinked_known.
Qed.

Lemma inv_dequeue G s sc l1 m l2 (Q : unit -> heap K -> Prop) :
  heap_inv G s -> 0 <= sc < 48 -> qs G sc = l1 ++ m :: l2 ->
  (forall ms, relinked (metas s) ms ->
     let s' := cell_set (Active sc) (head_of (l1 ++ l2)) (with_metas ms s) in
     heap_inv (Ghost (lay G) (set_q (qs G) sc (l1 ++ l2)) (fl G) (m :: limbo G)) s' -> Q tt s') ->
  wp (dequeue (Active sc) m) s Q.
Proof.
  intros HI Hs EQ HQ. destruct G as [L Qs F lb]. cbn in *. pose proof (hi_lists _ _ _ HI) as HL.
  pose proof (lo_class _ _ _ _ HL sc Hs) as HC. cbn in HC. rewrite EQ in HC.
  apply (wp_dequeue _ m l1 l2).
  - rewrite <- EQ. exact (lo_head _ _ _ _ HL sc Hs).
  - apply HC.
  - intros ms HR HX Hn Hp Hsame. apply HQ; [assumption|]. destruct HI as [I1 I2 I3 I4 I5]. split; cbn; try assumption.
    + now apply (metas_relinked L (metas s)).
    + now apply (lists_dequeue L Qs F lb (metas s) ms _ _ sc l1 m l2).
    + now apply (env_relinked L (metas s)).
Qed.

Lemma limbo_idle G s m :
  heap_inv G s -> In m (limbo G) -> known (metas s) m /\ nxt (metas s) m = 0 /\ prv (metas s) m = 0 /\ m <> 0 /\ ~ In m (fl G).
Proof.
  intros HI Hm. destruct (lo_limbo_in _ _ _ _ (hi_lists _ _ _ HI) m Hm) as (E1 & E2 & E3).
  destruct (lo_idle _ _ _ _ (hi_lists _ _ _ HI) m E1 E2 E3). destruct (eo_known _ _ _ _ _ _ _ (hi_env _ _ _ HI) m E1) as (_ & E4 & _). auto.
Qed.

(** The first group of a list. *)
Lemma inv_queue_first G s lb sc m A x (Q : unit -> heap K -> Prop) :
  heap_inv G s -> 0 <= sc < 48 -> qs G sc = [] -> limbo G = m :: lb -> groups (lay G) !! m = Some A -> gsc (geo A) = sc ->
  metas s !! m = Some x ->
  (forall ms, (forall k, k <> m -> ms !! k = metas s !! k) -> ms !! m = Some (with_prev m (with_next m x)) ->
     let s' := cell_set (Active sc) m (with_metas ms s) in
     heap_inv (Ghost (lay G) (set_q (qs G) sc [m]) (fl G) lb) s' -> Q tt s') ->
  wp (queue (Active sc) m) s Q.
Proof.
  intros HI Hs EQ El HA Hc Hx HQ. destruct (limbo_idle G s m HI) as (Hk & Hn & Hp & Hm0 & HmF); [rewrite El; now left|].
  destruct G as [L Qs F lb']. cbn in *. subst lb'. pose proof (hi_lists _ _ _ HI) as HL.
  apply (wp_queue _ m []); try assumption; [|split; [exact I|split; [constructor|intros ? []]]|easy|].
  - cbn. rewrite (lo_head _ _ _ _ HL sc Hs). cbn. now rewrite EQ.
  - intros ms HR HX Hsame. cbn [app head_of] in *.
    assert (Hms : ms !! m = Some (with_prev m (with_next m x))).
    { pose proof (HX m) as HXm. rewrite Hx in HXm. destruct (ms !! m) as [y|] eqn:Ey; [|contradiction]. f_equal.
      destruct HR as (HR & _). cbn in HR. unfold nxt, prv in HR. rewrite Ey in HR. destruct HR as [<- E2].
      rewrite HXm in E2 |- *. cbn in *. now rewrite E2. }
    apply HQ; [intros k Hk'; apply Hsame; auto|assumption|]. destruct HI as [I1 I2 I3 I4 I5]. split; cbn; try assumption.
    + now apply (metas_relinked L (metas s)).
    + replace [m] with (Qs sc ++ [m]) by now rewrite EQ. replace m with (head_of (Qs sc ++ [m])) at 2 by now rewrite EQ.
      apply (lists_enqueue L Qs F lb L (metas s) ms _ _ sc m A (with_prev m (with_next m x))); try assumption; try rewrite EQ; auto.
      * split; [intros k; symmetry; now apply relinked_known|]. auto.
      * intros g y [].
      * easy.
    + now apply (env_relinked L (metas s)).
Qed.

(** ** Struct metas for groups *)

(** A group without free slots, or memory that is no group, need not be in a list. *)
Lemma inv_drop G s m lb :
  heap_inv G s -> limbo G = m :: lb -> (forall A, groups (lay G) !! m = Some A -> no_free A) ->
  heap_inv (Ghost (lay G) (qs G) (fl G) lb) s.
Proof.
  intros [I1 I2 I3 I4 I5] El HN. destruct G as [L Q F lb']. cbn in *. subst lb'. split; cbn; try assumption.
  pose proof (lo_limbo _ _ _ _ I4) as Hnd. cbn in Hnd. apply NoDup_cons in Hnd as [_ Hnd].
  apply (lists_ext L Q F (m :: lb) L lb (metas s)); auto; try reflexivity.
  - intros sc g A _ _ HA. exists A. split; [assumption|]. split; [reflexivity|lia].
  - intros sc g x _ _ Hx Hx1 Hx2. eauto.
  - intros g A HA Hc Hq Hl. destruct (Z.eq_dec g m) as [->|Hg]; [now apply HN|].
    apply (co_out _ _ _ _ _ (lo_class _ _ _ _ I4 _ Hc) g A HA eq_refl Hq). intros [<-|]; contradiction.
  - intros k Hk. apply (lo_limbo_in _ _ _ _ I4 k). now right.
Qed.

Lemma inv_grab G s m :
  heap_inv G s -> idle G (metas s) m -> ~ In m (limbo G) -> heap_inv (Ghost (lay G) (qs G) (fl G) (m :: limbo G)) s.
Proof.
  intros [I1 I2 I3 I4 I5] Hm Hl. destruct G as [L Q F lb]. cbn in *. split; cbn; try assumption.
  apply (lists_ext L Q F lb L (m :: lb) (metas s)); auto; try reflexivity.
  - intros sc g A _ _ HA. exists A. split; [assumption|]. split; [reflexivity|lia].
  - intros sc g x _ _ Hx Hx1 Hx2. eauto.
  - intros g A HA Hc Hq Hl'. apply (co_out _ _ _ _ _ (lo_class _ _ _ _ I4 _ Hc) g A HA eq_refl Hq). intros Hin. apply Hl'. now right.
  - apply NoDup_cons. rewrite list_elem_of_In. split; [assumption|]. apply (lo_limbo _ _ _ _ I4).
  - intros k [<-|Hk]; [assumption|]. exact (lo_limbo_in _ _ _ _ I4 k Hk).
Qed.

Lemma inv_free_meta G s m lb (Q : unit -> heap K -> Prop) :
  heap_inv G s -> limbo G = m :: lb -> groups (lay G) !! m = None ->
  (forall ms c, 
     let s' := with_mctx c (with_metas ms s) in
     heap_inv (Ghost (lay G) (qs G) (fl G ++ [m]) lb) s' -> Q tt s') ->
  wp (free_meta m) s Q.
Proof.
  intros HI El HA HQ. destruct (limbo_idle G s m HI) as (Hk & Hn & Hp & Hm0 & HmF); [rewrite El; now left|].
  destruct G as [L Qs F lb']. cbn in *. subst lb'. destruct Hk as [x Hx]. unfold free_meta. wp_step.
  apply (wp_update m _ x); [assumption|]. set (ms1 := <[m := meta0]> (metas s)).
  assert (Hkn : forall k, known ms1 k <-> known (metas s) k) by (intros k; apply known_insert; now exists x).
  assert (Hln : forall k, nxt ms1 k = nxt (metas s) k /\ prv ms1 k = prv (metas s) k).
  { intros k. apply (links_insert _ m meta0 x); [assumption| |].
    - unfold nxt in Hn. rewrite Hx in Hn. now rewrite Hn.
    - unfold prv in Hp. rewrite Hx in Hp. now rewrite Hp. }
  pose proof (hi_lists _ _ _ HI) as HL.
  apply (wp_queue _ m F); cbn [metas with_metas]; try assumption.
  - cbn. f_equal. apply (lo_free_head _ _ _ _ HL).
  - apply (ring_ok_ext (metas s)); [|apply (lo_free _ _ _ _ HL)]. intros k _. rewrite Hkn. destruct (Hln k). auto.
  - apply Hkn. now exists x.
  - destruct (Hln m). congruence.
  - destruct (Hln m). congruence.
  - intros ms HR HX Hsame. apply (HQ ms (set_free_head (head_of (F ++ [m])) (mctx s))).
    destruct HI as [I1 I2 I3 I4 I5]. split; cbn; try assumption.
    + apply (metas_relinked L ms1); [assumption|]. intros g A HgA. destruct (I3 g A HgA) as (y & Hy & Hr). exists y.
      split; [|assumption]. unfold ms1. rewrite lookup_insert_ne; [assumption|]. congruence.
    + apply (lists_free_meta L Qs F lb (metas s) ms _ (free_meta_head (mctx s)) m); try assumption. split.
      * intros k. rewrite <- (relinked_known ms1 ms k HX). apply Hkn.
      * intros k Hk Hin. rewrite (Hsame k Hk Hin). unfold ms1. now rewrite lookup_insert_ne by congruence.
    + apply env_free_head. apply (env_relinked L ms1); [assumption|].
      apply (env_ext L _ (metas s) _ _ _ (cnts s) _ (kern s)); try assumption; try apply I5; reflexivity.
Qed.

(** ** Memory from the kernel *)

Lemma mem_unowned L m m' :
  layout_ok L -> mem_ok L m -> wf_mem m' -> (forall b o, own L b = Some o -> m' b = m b) -> mem_ok L m'.
Proof.
  intros HL HM Hwf Hext.
  assert (Hp : pins_ok L m') by (intros b a Hb; rewrite (Hext b _ Hb); now apply (mo_pins L m HM b a)).
  split; [assumption|exact Hp|]. intros g A HA. apply (group_mem_ext L m HL HM m' g A); try reflexivity; try assumption.
  - intros b Hb. now apply (Hext b _ Hb).
  - intros i Hi. left. split; [reflexivity|]. intros b Hb. now apply (Hext b _ Hb).
Qed.

Lemma env_kern L ms ars c cn k k' :
  env_ok L ms ars c cn k -> (forall b, mapped k b -> mapped k' b) -> env_ok L ms ars c cn k'.
Proof.
  intros HE Hk. apply (env_ext L _ ms _ _ _ cn _ k); try assumption; try apply HE; try reflexivity.
  intros b o Hb. apply Hk. now apply (eo_mapped _ _ _ _ _ _ _ HE b o).
Qed.

Lemma with_kern_same s : with_kern (kern s) s = s.
Proof. now destruct s. Qed.

Lemma inv_errno G s e : heap_inv G s -> heap_inv G (with_errno e s).
Proof. intros []. split; assumption. Qed.

Lemma inv_mmap G s len (Q : option Z -> heap K -> Prop) :
  heap_inv G s ->
  (forall e k', (forall b, mapped (kern s) b -> mapped k' b) ->
     let s' := with_errno e (with_kern k' s) in heap_inv G s' -> Q None s') ->
  (forall p k', 0 < len -> 0 < p -> p mod 4096 = 0 -> p + len <= 2 ^ 47 ->
     let s' := with_bytes (mfill (bytes s) p 0 (page_up len)) (with_kern k' s) in
     (forall b, p <= b < p + page_up len -> own (lay G) b = None /\ ~ mapped (kern s) b /\ mapped k' b /\ bytes s' b = 0) ->
     (forall b, mapped (kern s) b -> mapped k' b /\ bytes s' b = bytes s b) -> heap_inv G s' -> Q (Some p) s') ->
  wp (mmap len) s Q.
Proof.
  intros HI HQ0 HQ. unfold mmap. destruct (PTRDIFF_MAX <=? len).
  { wp_steps. specialize (HQ0 ENOMEM (kern s) (fun b Hb => Hb)). rewrite with_kern_same in HQ0. apply HQ0. now apply inv_errno. }
  destruct HI as [I1 I2 I3 I4 I5]. unfold call. wp_steps. unfold no_perm.
  destruct (k_mmap len (kern s)) as [[p|e] k'] eqn:E.
  - destruct (mmap_done len (kern s) p k' E) as (H1 & H2 & H3 & H4 & H5 & H6). wp_steps. cbn [bytes with_kern].
    assert (Hin : forall b, mfill (bytes s) p 0 (page_up len) b = if (p <=? b) && (b <? p + page_up len) then 0 else bytes s b) by reflexivity.
    apply HQ; try assumption; cbn [bytes with_bytes].
    + intros b Hb. split; [|split; [now apply H5|split; [apply H6; now right|]]].
      * destruct (own (lay G) b) as [o|] eqn:Eo; [|reflexivity]. destruct (H5 b Hb). now apply (eo_mapped _ _ _ _ _ _ _ I5 b o).
      * rewrite Hin. now replace ((p <=? b) && _) with true by lia.
    + intros b Hb. split; [apply H6; now left|]. rewrite Hin. destruct ((p <=? b) && _) eqn:E2; [|reflexivity].
      destruct (H5 b ltac:(lia) Hb).
    + split; cbn; try assumption.
      * apply (mem_unowned _ (bytes s)); try assumption; [apply mfill_wf; [apply I2|lia]|]. intros b o Hb.
        rewrite Hin. destruct ((p <=? b) && _) eqn:E2; [|reflexivity]. destruct (H5 b ltac:(lia)). now apply (eo_mapped _ _ _ _ _ _ _ I5 b o).
      * apply (env_kern _ _ _ _ _ (kern s)); [assumption|]. intros b Hb. apply H6. now left.
  - pose proof (mmap_failed len (kern s) e k' E) as H1. wp_steps.
    assert (Hk : forall b, mapped (kern s) b -> mapped k' b) by (intros b Hb; now apply H1).
    apply (HQ0 _ k' Hk). split; cbn; try assumption. now apply (env_kern _ _ _ _ _ (kern s)).
Qed.

(** What a new mapping of metadata changes, for those who do not own it. *)
Definition quiet (L : layout) s (L' : layout) s' : Prop :=
  forall b, mapped (kern s) b -> own L' b = own L b /\ bytes s' b = bytes s b /\ mapped (kern s') b.

Lemma quiet_refl L s : quiet L s L s.
Proof. intros b Hb. auto. Qed.

Lemma quiet_trans L1 s1 L2 s2 L3 s3 : quiet L1 s1 L2 s2 -> quiet L2 s2 L3 s3 -> quiet L1 s1 L3 s3.
Proof. intros H1 H2 b Hb. destruct (H1 b Hb) as (E1 & E2 & E3). destruct (H2 b E3) as (E4 & E5 & E6). split; [congruence|split; [congruence|assumption]]. Qed.

(** Unowned bytes become metadata. *)
Definition meta_own (L : layout) (p n : Z) : layout :=
  Layout (groups L) (fun b => if within p n b then Some OMeta else own L b).

Lemma meta_own_ok L p n : layout_ok L -> (forall b, p <= b < p + n -> own L b = None) -> layout_ok (meta_own L p n).
Proof.
  intros HL Hn h B HB. cbn in HB. apply (group_ok_other L HL); [assumption| | |].
  - intros b o _ Hb. cbn. unfold within. destruct ((p <=? b) && _) eqn:E; [|assumption]. rewrite Hn in Hb by lia. discriminate.
  - intros k j D _ HD _ Hd. exists D. auto.
  - intros i c Hi Hc. exact (gk_nest L h B (HL h B HB) i c Hi Hc).
Qed.

Lemma meta_own_mem L p n m : layout_ok L -> mem_ok L m -> mem_ok (meta_own L p n) m.
Proof.
  intros HL HM. split; [apply HM| |apply HM]. intros b a. cbn. destruct (within p n b); [discriminate|]. apply (mo_pins L m HM).
Qed.

Lemma lists_own L o Q F lb ms acts f :
  lists_ok (Ghost L Q F lb) ms acts f -> lists_ok (Ghost (Layout (groups L) o) Q F lb) ms acts f.
Proof.
  intros HL. apply (lists_ext L Q F lb _ lb ms); cbn; auto; try reflexivity.
  - intros sc g A _ _ HA. exists A. split; [assumption|]. split; [reflexivity|lia].
  - intros sc g x _ _ Hx H1 H2. eauto.
  - intros g A HA Hc Hq Hl. exact (co_out _ _ _ _ _ (lo_class _ _ _ _ HL _ Hc) g A HA eq_refl Hq Hl).
  - apply (lo_limbo _ _ _ _ HL).
  - exact (lo_limbo_in _ _ _ _ HL).
Qed.

(** *** New struct metas *)

Lemma lists_new_meta L Q F lb ms acts f k :
  lists_ok (Ghost L Q F lb) ms acts f -> metas_ok L ms -> ~ known ms k ->
  lists_ok (Ghost L Q F (k :: lb)) (<[k := meta0]> ms) acts f.
Proof.
  intros HL HM Hk. assert (Hkg : groups L !! k = None).
  { destruct (groups L !! k) as [A|] eqn:E; [|reflexivity]. destruct (HM k A E) as (x & Hx & _). destruct Hk. now exists x. }
  assert (HkF : ~ In k F) by (intros Hin; apply Hk; now apply (lo_free _ _ _ _ HL)).
  assert (Hkq : forall sc, 0 <= sc < 48 -> ~ In k (Q sc)).
  { intros sc Hs Hin. apply Hk. now apply (co_ring _ _ _ _ _ (lo_class _ _ _ _ HL sc Hs)). }
  assert (Hkl : ~ In k lb) by (intros Hin; apply Hk; now apply (lo_limbo_in _ _ _ _ HL)).
  assert (Hne : forall j, j <> k -> <[k := meta0]> ms !! j = ms !! j) by (intros j Hj; now rewrite lookup_insert_ne by congruence).
  assert (Hkn : forall j, known (<[k := meta0]> ms) j <-> j = k \/ known ms j).
  { intros j. unfold known. destruct (Z.eq_dec j k) as [->|Hj]; [rewrite lookup_insert_eq|rewrite Hne by assumption].
    - split; [now left|intros _; now exists meta0].
    - split; [now right|]. intros [|]; [contradiction|assumption]. }
  assert (Hlk : forall j, nxt (<[k := meta0]> ms) j = nxt ms j /\ prv (<[k := meta0]> ms) j = prv ms j).
  { intros j. unfold nxt, prv. destruct (Z.eq_dec j k) as [->|Hj]; [rewrite lookup_insert_eq|rewrite Hne by assumption; auto].
    destruct (ms !! k) as [y|] eqn:E; [destruct Hk; now exists y|auto]. }
  split; cbn; try assumption; try apply HL.
  - intros sc Hs. pose proof (lo_class _ _ _ _ HL sc Hs) as HC. cbn in HC. apply (class_ok_ext L L lb (k :: lb) ms); [assumption| | | |].
    + apply (ring_ok_ext ms); [|apply HC]. intros j Hj. destruct (Hlk j) as [E1 E2]. rewrite Hkn. auto.
    + intros g A _ HA. exists A. split; [assumption|]. split; [reflexivity|lia].
    + intros g x Hg Hx H1 H2. exists x. rewrite Hne; [auto|]. intros ->. apply Hk. now exists x.
    + intros g A HA Hc Hg Hgl. apply (co_out _ _ _ _ _ HC g A HA Hc Hg). intros Hin. apply Hgl. now right.
  - apply (ring_ok_ext ms); [|apply (lo_free _ _ _ _ HL)]. intros j Hj. destruct (Hlk j) as [E1 E2]. rewrite Hkn. auto.
  - intros j Hj Hf Hq. destruct (Hlk j) as [-> ->]. apply Hkn in Hj as [->|Hj].
    + unfold nxt, prv. destruct (ms !! k) as [y|] eqn:E; [destruct Hk; now exists y|auto].
    + now apply (lo_idle _ _ _ _ HL j).
  - apply NoDup_cons. rewrite list_elem_of_In. split; [assumption|]. apply (lo_limbo _ _ _ _ HL).
  - intros j [<-|Hj]; rewrite Hkn.
    + split; [now left|]. auto.
    + destruct (lo_limbo_in _ _ _ _ HL j Hj) as (E1 & E2 & E3). split; [now right|]. auto.
Qed.

Lemma metas_new L ms k : metas_ok L ms -> ~ known ms k -> metas_ok L (<[k := meta0]> ms).
Proof.
  intros HM Hk g A HA. destruct (HM g A HA) as (x & Hx & Hr). exists x. split; [|assumption].
  rewrite lookup_insert_ne; [assumption|]. intros ->. apply Hk. now exists x.
Qed.

(** *** alloc_meta *)

Definition set_own (o : Z -> option owner) (G : ghost) : ghost :=
  Ghost (Layout (groups (lay G)) o) (qs G) (fl G) (limbo G).

Lemma inv_own_id G s : heap_inv G s -> heap_inv (set_own (own (lay G)) G) s.
Proof. destruct G as [[gs o] Q F lb]. auto. Qed.

Lemma inv_init_ctx G s (Q : unit -> heap K -> Prop) :
  heap_inv G s ->
  (forall c, free_meta_head c = free_meta_head (mctx s) -> init_done c = true ->
     heap_inv G (with_mctx c s) -> Q tt (with_mctx c s)) ->
  wp (init_ctx random_secret) s Q.
Proof.
  intros HI HQ. unfold init_ctx. wp_steps. destruct (init_done (mctx s)) eqn:E.
  - wp_step. specialize (HQ (mctx s) eq_refl E). destruct s. now apply HQ.
  - wp_steps. apply HQ; try reflexivity. destruct HI as [I1 I2 I3 I4 I5]. split; cbn; try assumption.
    destruct I5. split; cbn; try assumption. intros a x Hx. destruct (eo_areas a x Hx). congruence.
Qed.

(** The state when no struct meta is left. *)
Record starved (G : ghost) s : Prop := {
  st_inv : heap_inv G s;
  st_init : init_done (mctx s) = true;
  st_boot : bootstrap_meta_used (mctx s) = 24;
  st_none : avail_meta_count (mctx s) = 0 }.

Lemma areas_size shift :
  0 <= shift -> 0 < u64 (u64 (Z.shiftl 2 shift) * 4096) <= 2 ^ 47 ->
  u64 (Z.shiftl 2 shift) = 2 ^ (shift + 1) /\ 2 <= 2 ^ (shift + 1) /\
  u64 (u64 (Z.shiftl 2 shift) * 4096) = 2 ^ (shift + 1) * 4096.
Proof.
  intros Hs Hl. rewrite Z.shiftl_mul_pow2 in * by lia.
  assert (Hp : 2 * 2 ^ shift = 2 ^ (shift + 1)) by (rewrite Z.pow_add_r by lia; lia). rewrite Hp in *. clear Hp.
  assert (H2 : 2 ^ 1 <= 2 ^ (shift + 1)) by (apply Z.pow_le_mono_r; lia). change (2 ^ 1) with 2 in H2.
  destruct (Z.lt_ge_cases shift 51) as [H51|H51].
  - assert (2 ^ (shift + 1) <= 2 ^ 51) by (apply Z.pow_le_mono_r; lia). rewrite (u64_small (2 ^ (shift + 1))) in * by lia.
    rewrite u64_small by lia. auto.
  - exfalso. assert (E : 2 ^ (shift + 1) = 2 ^ 52 * 2 ^ (shift - 51)) by (rewrite <- Z.pow_add_r by lia; f_equal; lia).
    assert (HZ : u64 (u64 (2 ^ (shift + 1)) * 4096) = 0); [|lia].
    unfold u64. rewrite Zmult_mod_idemp_l, E. change 18446744073709551616 with (2 ^ 52 * 4096).
    replace (2 ^ 52 * 2 ^ (shift - 51) * 4096) with (2 ^ (shift - 51) * (2 ^ 52 * 4096)) by ring. apply Z_mod_mult.
Qed.

Lemma starved_map_areas G s :
  starved G s ->
  wp map_areas s (fun ok s' => exists o, let G' := set_own o G in
    starved G' s' /\ quiet (lay G) s (lay G') s' /\ cnts s' = cnts s /\ active s' = active s /\
    (ok = true -> avail_meta_area_count (mctx s') <> 0)).
Proof.
  intros [HI Hin Hb Hz]. unfold map_areas. wp_steps.
  destruct (Z.eqb_spec (avail_meta_area_count (mctx s)) 0) as [E|E]; cbn [negb]; wp_steps.
  2:{ exists (own (lay G)). split; [split; try assumption; now apply inv_own_id|]. split; [intros b Hb'; auto|]. auto. }
  unfold PAGESIZE. set (len := u64 (u64 (Z.shiftl 2 (meta_alloc_shift (mctx s))) * 4096)).
  apply (inv_mmap G s len); [assumption| |].
  - intros e k' Hk s' HI'. wp_steps. exists (own (lay G)). split; [split; try assumption; now apply inv_own_id|].
    split; [intros b Hb'; auto|]. split; [reflexivity|]. split; [reflexivity|discriminate].
  - intros p k' Hl1 Hp Hp2 Hl2 s' Hnew Hold HI'. wp_steps. pose proof (eo_shift _ _ _ _ _ _ _ (hi_env _ _ _ HI)) as Hsh.
    destruct (areas_size _ Hsh ltac:(unfold len in *; lia)) as (E1 & E2 & E3). fold len in E3. rewrite E1 in *. set (n := 2 ^ (meta_alloc_shift (mctx s) + 1)) in *.
    assert (Hpu : page_up len = n * 4096).
    { destruct (page_up_ok len ltac:(lia)) as [P1 P2]. rewrite E3 in *. zlia. }
    rewrite Hpu in *. change (4096 / 4096) with 1. rewrite u64_small by lia. rewrite Z.mul_1_r.
    exists (own (meta_own (lay G) p (n * 4096))). unfold set_own. set (L' := Layout _ _).
    assert (EL : L' = meta_own (lay G) p (n * 4096)) by reflexivity. clearbody L'. subst L'. cbn [lay mctx with_mctx].
    split; [|split; [|split; [reflexivity|split; [reflexivity|intros _; cbn; lia]]]].
    + destruct HI' as [I1 I2 I3 I4 I5]. split; cbn; try assumption. split; cbn; try assumption.
      * apply meta_own_ok; [assumption|]. intros b Hb'. now apply Hnew.
      * now apply meta_own_mem.
      * apply lists_own. destruct G; assumption.
      * clear I5. destruct (hi_env _ _ _ HI) as [F1 F2 F3 F4 F5 F6 F7 F8 F9 F10 F11 F12 F13 F14 F15 F16 F17 F18].
        change (mctx s') with (mctx s). change (metas s') with (metas s) in *.
        assert (HO : forall b o, own (lay G) b = Some o -> within p (n * 4096) b = false).
        { intros b o Ho. unfold within. destruct ((p <=? b) && _) eqn:Ew; [|reflexivity].
          destruct (Hnew b ltac:(lia)) as [Hn _]. rewrite Hn in Ho. discriminate. }
        assert (HU : forall g, unused (lay G) (metas s) g -> unused (meta_own (lay G) p (n * 4096)) (metas s) g).
        { intros g (U1 & U2 & U3). split; [assumption|]. split; [|assumption]. cbn. now rewrite (HO g OMeta). }
        split; cbn; try assumption; try lia.
        -- intros b o. destruct (within p (n * 4096) b) eqn:Ew; [|intros Ho; apply Hold; now apply (F4 b o)]. intros _. apply Hnew. unfold within in Ew. lia.
        -- intros g Hg. destruct (F5 g Hg) as (K1 & K2 & K3). rewrite (HO g OMeta) by assumption. auto.
        -- zlia.
        -- intros g Hg. split; [|split; [|lia]].
           ++ intros Hg'. destruct (F5 g Hg') as (K1 & _). specialize (HO g _ K1). unfold within in HO. lia.
           ++ cbn. replace (within p (n * 4096) g) with true by (unfold within; lia). reflexivity.
        -- intros g. destruct (within p (n * 4096) g) eqn:Ew; [|apply F18]. unfold within in Ew. lia.
    + intros b Hb'. destruct (Hold b Hb') as [Ho1 Ho2]. split; [|split; [assumption|assumption]]. cbn.
      unfold within. destruct ((p <=? b) && _) eqn:Ew; [|reflexivity]. destruct (Hnew b ltac:(lia)) as (_ & Hn & _). contradiction.
Qed.

Lemma page_of p d : p mod 4096 = 0 -> 0 <= d < 4096 -> Z.land (p + d) (-4096) = p.
Proof.
  intros Hp Hd. change (-4096) with (Z.lnot (Z.ones 12)). rewrite <- Z.ldiff_land, Z.ldiff_ones_r by lia.
  rewrite Z.shiftl_mul_pow2, Z.shiftr_div_pow2 by lia. change (2 ^ 12) with 4096. zlia.
Qed.

(** The struct metas of a new area: those of its page behind the header. *)
Lemma env_open_area L ms ars ars' c cn k :
  env_ok L ms ars c cn k -> init_done c = true -> bootstrap_meta_used c = 24 -> avail_meta_count c = 0 ->
  avail_meta_area_count c <> 0 ->
  (forall a, is_Some (ars !! a) -> is_Some (ars' !! a)) -> is_Some (ars' !! avail_meta_areas c) ->
  (forall a x, ars' !! a = Some x -> Malloc.check x = secret c) ->
  env_ok L ms ars' (Metas (secret c) (init_done c) (free_meta_head c) (avail_meta_areas c + SIZEOF_AREA) 101
    (avail_meta_area_count c - 1) (meta_alloc_shift c) (avail_meta_areas c) (avail_meta_areas c + 4096)
    (bootstrap_meta_used c)) cn k.
Proof.
  intros [F1 F2 F3 F4 F5 F6 F7 F8 F9 F10 F11 F12 F13 F14 F15 F16 F17 F18] Hin Hb Hz Hne Hmono Hnew Hchk.
  split; cbn -[Z.land Z.mul Z.add]; try assumption; try lia.
  - intros g Hg. destruct (F5 g Hg) as (K1 & K2 & [K3|K3]); auto.
  - intros a x Hx. split; [assumption|]. now apply (Hchk a).
  - intros i Hi. unfold SIZEOF_AREA, SIZEOF_META in *. split; [apply F15; lia|].
    replace (avail_meta_areas c + 24 + i * 40) with (avail_meta_areas c + (24 + i * 40)) by ring.
    now rewrite page_of by (assumption || lia).
  - intros _. unfold SIZEOF_AREA, SIZEOF_META. lia.
  - zlia.
  - intros g Hg. apply F15. lia.
  - intros _. assumption.
Qed.

Lemma starved_mprotect G s a n (Q : option unit -> heap K -> Prop) :
  starved G s ->
  (forall r s', starved G s' -> quiet (lay G) s (lay G) s' -> cnts s' = cnts s -> active s' = active s ->
     mctx s' = mctx s -> areas s' = areas s -> Q r s') ->
  wp (call (k_mprotect a n)) s Q.
Proof.
  intros [[I1 I2 I3 I4 I5] S2 S3 S4] HQ. unfold call. wp_steps. destruct (k_mprotect a n (kern s)) as [r k'] eqn:E.
  pose proof (mprotect_done a n (kern s) r k' E) as Hk.
  assert (HE : env_ok (lay G) (metas s) (areas s) (mctx s) (cnts s) k') by (apply (env_kern _ _ _ _ _ (kern s)); [assumption|intros b; apply Hk]).
  wp_steps. destruct r as [[]|e]; wp_steps; apply HQ; try reflexivity; try (split; try assumption; split; assumption);
    intros b Hb; (split; [reflexivity|split; [reflexivity|now apply Hk]]).
Qed.

Lemma starved_open_area G s :
  starved G s ->
  wp open_area s (fun ok s' => exists o, let G' := set_own o G in
    heap_inv G' s' /\ quiet (lay G) s (lay G') s' /\ cnts s' = cnts s /\ active s' = active s /\
    (ok = true -> avail_meta_count (mctx s') <> 0) /\ bootstrap_meta_used (mctx s') = 24).
Proof.
  intros HS. unfold open_area. wp_step. eapply wp_mono; [now apply (starved_map_areas G s)|]. cbv beta.
  intros ok s1 (o & HS1 & Hq1 & Hc1 & Ha1 & Hok). set (G1 := set_own o G) in *.
  destruct ok; cbn [negb]; wp_steps.
  2:{ exists o. split; [apply HS1|]. split; [assumption|]. split; [assumption|]. split; [assumption|]. split; [discriminate|apply HS1]. }
  apply (wp_mono _ _ (fun _ s2 => starved G1 s2 /\ quiet (lay G1) s1 (lay G1) s2 /\ cnts s2 = cnts s1 /\ active s2 = active s1 /\
    mctx s2 = mctx s1 /\ areas s2 = areas s1)).
  { destruct (_ =? 0); [|wp_steps; split; [assumption|]; split; [apply quiet_refl|]; auto].
    wp_step. apply (starved_mprotect G1); [assumption|]. intros r s2 H2 Hq2 Hc2 Ha2 Hm2 Hr2.
    destruct r as [[]|]; wp_steps; auto 10. }
  intros ok2 s2 (HS2 & Hq2 & Hc2 & Ha2 & Hm2 & Hr2).
  assert (Hq : quiet (lay G) s (lay G1) s2) by exact (quiet_trans _ _ _ _ _ _ Hq1 Hq2).
  destruct ok2; cbn [negb]; wp_steps.
  2:{ exists o. split; [apply HS2|]. split; [assumption|]. split; [congruence|]. split; [congruence|]. split; [discriminate|apply HS2]. }
  destruct HS2 as [HI2 Hin2 Hb2 Hz2]. pose proof (hi_env _ _ _ HI2) as HE.
  (* the link from the last area *)
  set (p := avail_meta_areas (mctx s1)). assert (Ep : p = avail_meta_areas (mctx s2)) by now rewrite Hm2. clearbody p.
  rewrite <- Hm2 in *. clear Hm2.
  apply (wp_mono _ _ (fun _ s3 => exists ars, s3 = with_areas ars s2 /\ (forall a, is_Some (areas s2 !! a) -> is_Some (ars !! a)) /\
    (forall a x, ars !! a = Some x -> Malloc.check x = secret (mctx s2)))).
  { assert (Hchk : forall a x, areas s2 !! a = Some x -> Malloc.check x = secret (mctx s2)) by (intros a x Hx; now apply (eo_areas _ _ _ _ _ _ _ HE a)).
    destruct (Z.eqb_spec (meta_area_tail (mctx s2)) 0) as [E|E]; cbn [negb]; wp_steps.
    - exists (areas s2). split; [now destruct s2|]. auto.
    - destruct (eo_tail _ _ _ _ _ _ _ HE E) as [a Ea]. apply (wp_access _ a _ _ Ea). wp_steps. eexists. split; [reflexivity|].
      split; intros b; rewrite lookup_insert; case_decide as Ed; eauto.
      intros x [= <-]. cbn. exact (Hchk _ _ Ea). }
  intros _ s3 (ars & -> & Hmono & Hchk). wp_steps.
  exists o. cbn [areas with_areas mctx]. change ((4096 - SIZEOF_AREA) / SIZEOF_META) with 101. rewrite Ep.
  split; [|split; [exact Hq|split; [cbn; congruence|split; [cbn; congruence|split; [cbn; discriminate|exact Hb2]]]]].
  destruct HI2 as [I1 I2 I3 I4 I5]. split; cbn -[Z.add]; try assumption.
  apply (env_open_area _ _ (areas s2)); try assumption.
  - now apply Hok.
  - intros a Ha. rewrite lookup_insert. case_decide; eauto.
  - rewrite lookup_insert_eq. eauto.
  - intros a x. rewrite lookup_insert. case_decide as Ed; [intros [= <-]; reflexivity|apply Hchk].
Qed.

Lemma SIZEOF_META_40 : SIZEOF_META = 40.
Proof. reflexivity. Qed.

(** One more struct meta is in use. *)
Lemma env_new_boot L ms ars c cn k :
  env_ok L ms ars c cn k -> bootstrap_meta_used c < 24 ->
  env_ok L (<[bootstrap + bootstrap_meta_used c * SIZEOF_META := meta0]> ms) ars
    (Metas (secret c) (init_done c) (free_meta_head c) (avail_meta c) (avail_meta_count c) (avail_meta_area_count c)
      (meta_alloc_shift c) (meta_area_tail c) (avail_meta_areas c) (bootstrap_meta_used c + 1)) cn k.
Proof.
  intros [F1 F2 F3 F4 F5 F6 F7 F8 F9 F10 F11 F12 F13 F14 F15 F16 F17 F18] Hu. destruct (F9 Hu) as [Z1 Z2].
  set (m := bootstrap + bootstrap_meta_used c * SIZEOF_META). destruct (F8 (bootstrap_meta_used c) ltac:(lia)) as (U1 & U2 & U3).
  pose proof SIZEOF_META_40 as E40.
  split; cbn -[Z.land Z.mul Z.add]; try assumption; try lia.
  - intros g [x Hx]. rewrite lookup_insert in Hx. case_decide as E.
    + subst g. split; [assumption|]. split; [assumption|]. left. unfold m. rewrite E40 in *. split; [lia|].
      replace (bootstrap + _ - bootstrap) with (bootstrap_meta_used c * 40) by ring. apply Z_mod_mult.
    + destruct (F5 g) as (K1 & K2 & [K3|K3]); [eexists; exact Hx| |auto]. split; [assumption|]. split; [assumption|]. left. lia.
  - intros j Hj. destruct (F8 j ltac:(lia)) as (V1 & V2 & V3). split; [|auto]. intros [x Hx].
    rewrite lookup_insert_ne in Hx by (unfold m; lia). apply V1. eexists. exact Hx.
Qed.

Lemma env_new_avail L ms ars c cn k :
  env_ok L ms ars c cn k -> bootstrap_meta_used c = 24 -> avail_meta_count c <> 0 ->
  env_ok L (<[avail_meta c := meta0]> ms) ars
    (Metas (secret c) (init_done c) (free_meta_head c) (avail_meta c + SIZEOF_META) (avail_meta_count c - 1)
      (avail_meta_area_count c) (meta_alloc_shift c) (meta_area_tail c) (avail_meta_areas c) (bootstrap_meta_used c)) cn k.
Proof.
  intros [F1 F2 F3 F4 F5 F6 F7 F8 F9 F10 F11 F12 F13 F14 F15 F16 F17 F18] Hu Hn. specialize (F12 Hn).
  destruct (F11 0 ltac:(lia)) as [(U1 & U2 & U3) U4]. rewrite Z.mul_0_l, Z.add_0_r in *. pose proof SIZEOF_META_40 as E40. rewrite E40 in *.
  assert (HU : forall g, g <> avail_meta c -> unused L ms g -> unused L (<[avail_meta c := meta0]> ms) g).
  { intros g Hg (V1 & V2 & V3). split; [|auto]. intros [x Hx]. rewrite lookup_insert_ne in Hx by congruence. apply V1. eexists. exact Hx. }
  split; cbn -[Z.land Z.mul Z.add]; rewrite ?E40; try assumption; try lia.
  - intros g [x Hx]. rewrite lookup_insert in Hx. case_decide as E.
    + subst g. auto.
    + apply (F5 g). eexists. exact Hx.
  - intros i Hi. replace (avail_meta c + 40 + i * 40) with (avail_meta c + (i + 1) * 40) by ring.
    destruct (F11 (i + 1) ltac:(lia)) as [V1 V2]. split; [apply HU; [lia|assumption]|assumption].
  - intros g Hg. apply HU; [lia|now apply F15].
Qed.

Lemma inv_new_meta G s k c :
  heap_inv G s -> ~ known (metas s) k -> free_meta_head c = free_meta_head (mctx s) ->
  env_ok (lay G) (<[k := meta0]> (metas s)) (areas s) c (cnts s) (kern s) ->
  groups (lay G) !! k = None /\
  heap_inv (Ghost (lay G) (qs G) (fl G) (k :: limbo G)) (with_metas (<[k := meta0]> (metas s)) (with_mctx c s)).
Proof.
  intros [I1 I2 I3 I4 I5] Hk Hh HE. split.
  - destruct (groups (lay G) !! k) as [A|] eqn:E; [|reflexivity]. destruct (I3 k A E) as (x & Hx & _). destruct Hk. now exists x.
  - destruct G as [L Q F lb]. split; cbn in *; try assumption; [now apply metas_new|]. rewrite Hh. now apply lists_new_meta.
Qed.

Lemma inv_alloc_meta G s :
  heap_inv G s ->
  wp (alloc_meta bootstrap random_secret) s (fun m s' => exists o F,
    let G' := fun lb => Ghost (Layout (groups (lay G)) o) (qs G) F lb in
    quiet (lay G) s (lay (G' [])) s' /\ cnts s' = cnts s /\ active s' = active s /\
    (m = 0 -> heap_inv (G' (limbo G)) s') /\
    (m <> 0 -> groups (lay G) !! m = None /\ heap_inv (G' (m :: limbo G)) s')).
Proof.
  intros HI0. unfold alloc_meta. wp_step. apply (inv_init_ctx G s _ HI0). intros c Ec Hin HI.
  set (s1 := with_mctx c s) in *. assert (Hq1 : quiet (lay G) s (Layout (groups (lay G)) (own (lay G))) s1) by (intros b Hb; auto).
  apply wp_bind. unfold dequeue_head. destruct G as [L Q F lb]. pose proof (hi_lists _ _ _ HI) as HL. cbn [lay qs fl limbo] in *.
  wp_step. apply (wp_get_head FreeMeta (head_of F)); [cbn; f_equal; exact (lo_free_head _ _ _ _ HL)|].
  pose proof (lo_free _ _ _ _ HL) as HF. cbn in HF.
  destruct F as [|m F]; cbn [head_of].
  2:{ replace (negb (m =? 0)) with true by (destruct HF as (_ & _ & Hall); destruct (Hall m) as [Hm _]; [now left|lia]).
      wp_step. apply (wp_dequeue _ m [] F); [cbn; f_equal; exact (lo_free_head _ _ _ _ HL)|assumption|].
      intros ms HR HX Hn Hp Hsame. wp_step. replace (negb (m =? 0)) with true by (destruct HF as (_ & _ & Hall); destruct (Hall m) as [Hm _]; [now left|lia]).
      wp_step. exists (own L), F. cbn [app] in *. split; [exact Hq1|]. split; [reflexivity|]. split; [reflexivity|].
      split; [intros ->; destruct HF as (_ & _ & Hall); destruct (Hall 0) as [Hm _]; [now left|contradiction]|]. intros _.
      split; [apply (lo_free_groups _ _ _ _ HL); now left|]. destruct HI as [I1 I2 I3 I4 I5]. apply (inv_own_id (Ghost L Q F (m :: lb))).
      split; cbn; try assumption.
      - now apply (metas_relinked L (metas s1)).
      - apply (lists_take_meta L Q F lb (metas s1) ms _ (free_meta_head c)); try assumption.
        split; [intros k; symmetry; now apply relinked_known|]. intros k _ Hk. now apply Hsame.
      - change (env_ok L ms (areas s1) (set_free_head (head_of F) (mctx s1)) (cnts s1) (kern s1)). apply env_free_head.
        now apply (env_relinked L (metas s1)). }
  change (negb (0 =? 0)) with false. cbv iota. wp_step. change (negb (0 =? 0)) with false. cbv iota. wp_steps.
  destruct (Z.ltb_spec (bootstrap_meta_used (mctx s1)) BOOTSTRAP_META_COUNT) as [Hu|Hu]; unfold BOOTSTRAP_META_COUNT in Hu.
  - unfold new_meta. wp_steps. exists (own L), [].
    destruct (eo_boot _ _ _ _ _ _ _ (hi_env _ _ _ HI) (bootstrap_meta_used (mctx s1)) ltac:(lia)) as (U1 & U2 & U3).
    split; [exact Hq1|]. split; [reflexivity|]. split; [reflexivity|]. split; [contradiction|]. intros _.
    destruct (inv_new_meta _ s1 _ (Metas (secret c) (init_done c) (free_meta_head c) (avail_meta c) (avail_meta_count c)
      (avail_meta_area_count c) (meta_alloc_shift c) (meta_area_tail c) (avail_meta_areas c) (bootstrap_meta_used c + 1)) HI U1 eq_refl) as [N1 N2].
    { apply (env_new_boot L (metas s1) (areas s1) c); [apply (hi_env _ _ _ HI)|exact Hu]. }
    split; [exact N1|]. exact (inv_own_id _ _ N2).
  - pose proof (eo_used _ _ _ _ _ _ _ (hi_env _ _ _ HI)) as Hu2.
    apply wp_bind. apply (wp_mono _ _ (fun ok s2 => exists o, let G' := set_own o (Ghost L Q [] lb) in
      heap_inv G' s2 /\ quiet L s (lay G') s2 /\ cnts s2 = cnts s /\ active s2 = active s /\
      (ok = true -> avail_meta_count (mctx s2) <> 0) /\ bootstrap_meta_used (mctx s2) = 24)).
    { destruct (Z.eqb_spec (avail_meta_count (mctx s1)) 0) as [E|E].
      - eapply wp_mono; [apply (starved_open_area (Ghost L Q [] lb) s1)|].
        + split; [assumption|exact Hin|lia|assumption].
        + intros ok s2 (o & R1 & R2 & R3). exists o. split; [assumption|]. split; [|exact R3]. exact (quiet_trans _ _ _ _ _ _ Hq1 R2).
      - wp_step. exists (own L). split; [exact (inv_own_id _ _ HI)|]. split; [exact Hq1|]. split; [reflexivity|]. split; [reflexivity|].
        split; [auto|lia]. }
    intros ok s2 (o & HI2 & Hq2 & Hc2 & Ha2 & Hok & Hb2). destruct ok; cbn [negb]; unfold new_meta; wp_steps; exists o, [].
    2:{ split; [exact Hq2|]. split; [assumption|]. split; [assumption|]. split; [intros _; exact HI2|contradiction]. }
    specialize (Hok eq_refl). pose proof (hi_env _ _ _ HI2) as HE2.
    destruct (eo_avail _ _ _ _ _ _ _ HE2 0) as [(U1 & U2 & U3) _]; [pose proof (eo_count _ _ _ _ _ _ _ HE2); lia|].
    rewrite Z.mul_0_l, Z.add_0_r in *.
    split; [exact Hq2|]. split; [assumption|]. split; [assumption|]. split; [contradiction|]. intros _.
    refine (inv_new_meta _ s2 _ _ HI2 U1 _ (env_new_avail _ _ _ _ _ _ HE2 Hb2 Hok)). reflexivity.
Qed.

(** ** Counters *)

Lemma inv_counters G s cn :
  heap_inv G s -> length (usage_by_class cn) = 48%nat -> length (unmap_seq cn) = 32%nat -> length (bounces cn) = 32%nat ->
  heap_inv G (with_cnts cn s).
Proof.
  intros [I1 I2 I3 I4 I5] H1 H2 H3. split; try assumption. cbn.
  apply (env_ext (lay G) _ (metas s) _ _ _ (cnts s) _ (kern s)); try assumption; try reflexivity. apply I5.
Qed.

(** An operation on the counters only. *)
Definition counting {A} (m : @M K A) : Prop :=
  forall G s (Q : A -> heap K -> Prop), heap_inv G s ->
    (forall r cn, heap_inv G (with_cnts cn s) -> Q r (with_cnts cn s)) -> wp m s Q.

Ltac counter HI HQ :=
  destruct (hi_env _ _ _ HI) as [?C1 ?C2 ?C3]; wp_steps; try (apply HQ; apply inv_counters; cbn; rewrite ?length_insert, ?repeat_length; assumption || reflexivity).

Lemma with_cnts_same s : with_cnts (cnts s) s = s.
Proof. now destruct s. Qed.

Lemma counted G s : heap_inv G s -> heap_inv G (with_cnts (cnts s) s).
Proof. now rewrite with_cnts_same. Qed.

Lemma counting_ret {A} (f : heap K -> A) : counting (gets f).
Proof. intros G s Q HI HQ. wp_step. specialize (HQ (f s) (cnts s) (counted G s HI)). now rewrite with_cnts_same in HQ. Qed.

Lemma step_seq_counting : counting step_seq.
Proof. intros G s Q HI HQ. unfold step_seq. destruct (hi_env _ _ _ HI) as [C1 C2 C3]. wp_step. apply HQ. case_if; apply inv_counters; assumption || reflexivity. Qed.

Lemma count_mmap_counting : counting count_mmap.
Proof. intros G s Q HI HQ. unfold count_mmap. destruct (hi_env _ _ _ HI) as [C1 C2 C3]. wp_step. apply HQ. now apply inv_counters. Qed.

Lemma record_seq_counting sc : counting (record_seq sc).
Proof.
  intros G s Q HI HQ. unfold record_seq. destruct (hi_env _ _ _ HI) as [C1 C2 C3]. case_if; wp_step.
  - apply HQ. apply inv_counters; cbn; rewrite ?length_insert; assumption.
  - specialize (HQ tt (cnts s) (counted G s HI)). now rewrite with_cnts_same in HQ.
Qed.

Lemma bounce_lookup (l : list Z) sc : length l = 32%nat -> bounce_idx sc < 32 -> exists v, l !! Z.to_nat (bounce_idx sc) = Some v.
Proof. intros Hl Hb. apply lookup_lt_is_Some. pose proof (u32_range (sc - 7)). unfold bounce_idx in *. lia. Qed.

Lemma account_bounce_counting sc : counting (account_bounce sc).
Proof.
  intros G s Q HI HQ. unfold account_bounce. destruct (hi_env _ _ _ HI) as [C1 C2 C3].
  assert (HQ0 : Q tt s) by (specialize (HQ tt (cnts s) (counted G s HI)); now rewrite with_cnts_same in HQ).
  destruct (Z.ltb_spec (bounce_idx sc) 32) as [Hb|]; [|wp_step; exact HQ0]. wp_steps.
  destruct (bounce_lookup _ sc C2 Hb) as [v Hv]. apply (wp_access _ v _ _ Hv). case_if; [|wp_step; exact HQ0]. wp_step.
  destruct (bounce_lookup _ sc C3 Hb) as [w Hw]. apply (wp_access _ w _ _ Hw). wp_step. apply HQ. unfold with_bounces.
  apply inv_counters; cbn; rewrite ?length_insert; assumption.
Qed.

Lemma decay_bounces_counting sc : counting (decay_bounces sc).
Proof.
  intros G s Q HI HQ. unfold decay_bounces. destruct (hi_env _ _ _ HI) as [C1 C2 C3].
  assert (HQ0 : Q tt s) by (specialize (HQ tt (cnts s) (counted G s HI)); now rewrite with_cnts_same in HQ).
  destruct (Z.ltb_spec (bounce_idx sc) 32) as [Hb|]; [|wp_step; exact HQ0]. wp_steps.
  destruct (bounce_lookup _ sc C3 Hb) as [w Hw]. apply (wp_access _ w _ _ Hw). case_if; [|wp_step; exact HQ0]. wp_step. apply HQ. unfold with_bounces.
  apply inv_counters; cbn; rewrite ?length_insert; assumption.
Qed.

Lemma is_bouncing_counting sc : counting (is_bouncing sc).
Proof.
  intros G s Q HI HQ. unfold is_bouncing. destruct (hi_env _ _ _ HI) as [C1 C2 C3].
  assert (HQ0 : forall b, Q b s) by (intros b; specialize (HQ b (cnts s) (counted G s HI)); now rewrite with_cnts_same in HQ).
  destruct (Z.ltb_spec (bounce_idx sc) 32) as [Hb|]; [|wp_step; apply HQ0]. wp_steps.
  destruct (bounce_lookup _ sc C3 Hb) as [w Hw]. apply (wp_access _ w _ _ Hw). wp_step. apply HQ0.
Qed.

Lemma get_usage_counting sc : 0 <= sc < 48 -> counting (get_usage sc).
Proof.
  intros Hs G s Q HI HQ. unfold get_usage. destruct (hi_env _ _ _ HI) as [C1 C2 C3]. wp_steps.
  destruct (lookup_lt_is_Some_2 (usage_by_class (cnts s)) (Z.to_nat sc)) as [w Hw]; [lia|]. apply (wp_access _ w _ _ Hw).
  specialize (HQ w (cnts s) (counted G s HI)). now rewrite with_cnts_same in HQ.
Qed.

Lemma add_usage_counting sc d : 0 <= sc < 48 -> counting (add_usage sc d).
Proof.
  intros Hs G s Q HI HQ. unfold add_usage, get_usage. destruct (hi_env _ _ _ HI) as [C1 C2 C3]. wp_steps.
  destruct (lookup_lt_is_Some_2 (usage_by_class (cnts s)) (Z.to_nat sc)) as [w Hw]; [lia|]. apply (wp_access _ w _ _ Hw).
  wp_step. apply HQ. apply inv_counters; cbn; rewrite ?length_insert; assumption.
Qed.

(** ** Groups come and go *)

Lemma lists_groups L L' Q F lb ms acts f :
  lists_ok (Ghost L Q F lb) ms acts f ->
  (forall k, In k F -> groups L' !! k = None) ->
  (forall sc g A, 0 <= sc < 48 -> In g (Q sc) -> groups L !! g = Some A ->
     exists A', groups L' !! g = Some A' /\ geo A' = geo A /\ act A <= act A') ->
  (forall g A', groups L' !! g = Some A' -> In g lb \/ exists A, groups L !! g = Some A /\ geo A' = geo A /\ (no_free A -> no_free A')) ->
  lists_ok (Ghost L' Q F lb) ms acts f.
Proof.
  intros HL HF HA HO. apply (lists_ext L Q F lb L' lb ms); auto; try reflexivity.
  - intros sc g x _ _ Hx H1 H2. eauto.
  - intros g A' HA' Hc Hq Hl. destruct (HO g A' HA') as [|(A & HgA & Eg & Hf)]; [contradiction|]. apply Hf. rewrite Eg in *.
    exact (co_out _ _ _ _ _ (lo_class _ _ _ _ HL _ Hc) g A HgA eq_refl Hq Hl).
  - apply (lo_limbo _ _ _ _ HL).
  - exact (lo_limbo_in _ _ _ _ HL).
Qed.

Lemma no_free_set A i c : is_free c = false -> no_free A -> no_free (set_cont A i c).
Proof. intros Hc HA j Hj. cbn. case_if; [assumption|now apply HA]. Qed.

Lemma masks_set A i c x : is_free c = is_free (cont A i) -> masks_ok x A -> masks_ok x (set_cont A i c).
Proof.
  intros Hc (H1 & H2 & H3). split; [assumption|]. split; [assumption|]. intros j Hj. cbn.
  destruct (Z.eqb_spec j i) as [->|]; [rewrite Hc; now apply H3|now apply H3].
Qed.

Lemma region_not_meta c C b : owner_of c (region_own c (geo C) b) -> region_own c (geo C) b <> OMeta.
Proof. intros H1 H2. rewrite H2 in H1. exact H1. Qed.

Lemma inv_add_mapped G s c C x :
  heap_inv G s -> groups (lay G) !! c = None -> In c (limbo G) -> metas s !! c = Some x -> describes x (geo C) -> masks_ok x C ->
  fresh_ok C -> up C = None -> own_pages (geo C) -> top C = gbase (geo C) + gpages (geo C) * 4096 ->
  (forall b, in_region C b -> own (lay G) b = None /\ mapped (kern s) b) -> group_mem (bytes s) c C ->
  (forall i, 0 <= i <= gcnt (geo C) -> bytes s (pin (geo C) i) = 0) ->
  heap_inv (set_lay (add_mapped (lay G) c C) G) s.
Proof.
  intros [I1 I2 I3 I4 I5] Hc Hl Hx HD HK HF Hu Hp Ht Hr Hm Hz. destruct G as [L Q F lb]. cbn in *. split; cbn; try assumption.
  - apply add_mapped_ok; try assumption. intros b Hb. now apply Hr.
  - apply mem_add_mapped; try assumption. apply (fr_geom C HF).
  - intros g A HA. cbn in HA. rewrite lookup_insert in HA. case_decide as E; [injection HA as <-; subst g; eauto|now apply I3].
  - destruct (lo_limbo_in _ _ _ _ I4 c Hl) as (_ & HcF & HcQ). cbn in HcF, HcQ. apply (lists_groups L); try assumption; cbn.
    + intros k Hk. rewrite lookup_insert_ne by congruence. now apply (lo_free_groups _ _ _ _ I4).
    + intros sc g A Hs Hg HA. exists A. rewrite lookup_insert_ne by congruence. split; [assumption|]. split; [reflexivity|lia].
    + intros g A' HA'. rewrite lookup_insert in HA'. case_decide as E; [left; congruence|right; eauto].
  - apply (env_ext L _ (metas s) _ _ _ (cnts s) _ (kern s)); try assumption; try apply I5; try reflexivity.
    + intros b. cbn. unfold claim. destruct (within _ _ b) eqn:E; [|reflexivity]. apply within_region in E.
      destruct (Hr b E) as [-> _]. split; [|discriminate]. intros [= E2]. destruct (region_not_meta c C b (region_own_of _ _ _) E2).
    + intros b o. cbn. unfold claim. destruct (within _ _ b) eqn:E; [|apply (eo_mapped _ _ _ _ _ _ _ I5)]. apply within_region in E.
      intros _. now apply Hr.
Qed.

Lemma inv_add_nested G s c C x g A i :
  heap_inv G s -> groups (lay G) !! c = None -> In c (limbo G) -> metas s !! c = Some x -> describes x (geo C) -> masks_ok x C ->
  fresh_ok C -> groups (lay G) !! g = Some A -> slotted A i -> cont A i = Taken -> up C = Some (g, i) ->
  gpages (geo C) = 0 -> gbase (geo C) = start (geo A) i -> top C = pin (geo A) (i + 1) -> gsc (geo C) < gsc (geo A) ->
  group_mem (bytes s) c C -> (forall i, 0 <= i <= gcnt (geo C) -> bytes s (pin (geo C) i) = 0) ->
  hdr_enc (bytes s) (geo A) i (start (geo A) i) ->
  heap_inv (set_lay (add_nested (lay G) c C g A i) G) s.
Proof.
  intros [I1 I2 I3 I4 I5] Hc Hl Hx HD HK HF HA Hi Ht Hu Hp Hb Htop Hs Hm Hz Hh. destruct G as [L Q F lb]. cbn in *.
  assert (Hcg : c <> g) by congruence.
  assert (HR : forall b, in_region C b -> own L b = Some (OSlot g i)).
  { intros b Hb'. unfold in_region in Hb'. apply (gk_body L g A (I1 g A HA)); [assumption|now rewrite Ht|lia]. }
  split; cbn; try assumption.
  - now apply add_nested_ok.
  - apply mem_add_nested; try assumption. apply (fr_geom C HF).
  - intros h B HB. cbn in HB. rewrite lookup_insert in HB. case_decide as E; [injection HB as <-; subst h; eauto|].
    rewrite lookup_insert in HB. case_decide as E2; [|now apply I3]. injection HB as <-. subst h.
    destruct (I3 g A HA) as (y & Hy & HDy & HKy). exists y. split; [assumption|]. split; [assumption|].
    apply masks_set; [now rewrite Ht|assumption].
  - destruct (lo_limbo_in _ _ _ _ I4 c Hl) as (_ & HcF & HcQ). cbn in HcF, HcQ. apply (lists_groups L); try assumption; cbn.
    + intros k Hk. pose proof (lo_free_groups _ _ _ _ I4 k Hk) as Hn. cbn in Hn. rewrite !lookup_insert_ne by congruence. assumption.
    + intros sc h B Hsc Hh2 HB. assert (h <> c) by congruence. rewrite lookup_insert_ne by congruence. rewrite lookup_insert.
      case_decide as E; [|exists B; split; [assumption|split; [reflexivity|lia]]]. subst h. rewrite HA in HB. injection HB as <-.
      eexists. split; [reflexivity|]. split; [reflexivity|cbn; lia].
    + intros h B' HB'. rewrite lookup_insert in HB'. case_decide as E; [left; congruence|right].
      rewrite lookup_insert in HB'. case_decide as E2; [|eauto]. injection HB' as <-. subst h. exists A. split; [assumption|].
      split; [reflexivity|]. now apply no_free_set.
  - apply (env_ext L _ (metas s) _ _ _ (cnts s) _ (kern s)); try assumption; try apply I5; try reflexivity.
    + intros b. cbn. unfold claim. destruct (within _ _ b) eqn:E; [|reflexivity]. apply within_region in E. rewrite (HR b E).
      split; [|discriminate]. intros [= E2]. destruct (region_not_meta c C b (region_own_of _ _ _) E2).
    + intros b o. cbn. unfold claim. destruct (within _ _ b) eqn:E; [|apply (eo_mapped _ _ _ _ _ _ _ I5)]. apply within_region in E.
      intros _. exact (eo_mapped _ _ _ _ _ _ _ I5 b _ (HR b E)).
Qed.

Lemma inv_del_mapped G s c C :
  heap_inv G s -> groups (lay G) !! c = Some C -> In c (limbo G) -> (forall i, slotted C i -> is_nest (cont C i) = false) ->
  up C = None -> heap_inv (set_lay (del_mapped (lay G) c C) G) s.
Proof.
  intros [I1 I2 I3 I4 I5] HC Hl Hn Hu. destruct G as [L Q F lb]. cbn in *. split; cbn; try assumption.
  - now apply del_mapped_ok.
  - now apply mem_del_mapped.
  - intros g A HA. cbn in HA. rewrite lookup_delete in HA. case_decide; [discriminate|now apply I3].
  - destruct (lo_limbo_in _ _ _ _ I4 c Hl) as (_ & HcF & HcQ). cbn in HcF, HcQ. apply (lists_groups L); try assumption; cbn.
    + intros k Hk. rewrite lookup_delete_ne by congruence. now apply (lo_free_groups _ _ _ _ I4).
    + intros sc g A Hs Hg HA. exists A. rewrite lookup_delete_ne by (intros ->; now apply (HcQ sc)). split; [assumption|]. split; [reflexivity|lia].
    + intros g A' HA'. rewrite lookup_delete in HA'. case_decide as E; [discriminate|right; eauto].
  - apply (env_ext L _ (metas s) _ _ _ (cnts s) _ (kern s)); try assumption; try apply I5; try reflexivity.
    + intros b. cbn. unfold disclaim. destruct (within _ _ b) eqn:E; [|reflexivity]. apply within_region in E.
      destruct (region_owned L c C b (I1 c C HC) Hn E) as (o & -> & Ho). split; [discriminate|]. intros [= ->]. destruct Ho.
    + intros b o. cbn. unfold disclaim. destruct (within _ _ b); [discriminate|]. apply (eo_mapped _ _ _ _ _ _ _ I5).
Qed.

Lemma inv_del_nested G s c C g A i m' :
  heap_inv G s -> groups (lay G) !! c = Some C -> In c (limbo G) -> (forall i, slotted C i -> is_nest (cont C i) = false) ->
  up C = Some (g, i) -> groups (lay G) !! g = Some A -> slotted A i -> cont A i = Nest c -> wf_mem m' ->
  (forall b, own (lay G) b <> Some (OHdr c) -> m' b = bytes s b) ->
  heap_inv (set_lay (del_nested (lay G) c C g A i) G) (with_bytes m' s).
Proof.
  intros [I1 I2 I3 I4 I5] HC Hl Hn Hu HA Hi Hci Hwf Hext. destruct G as [L Q F lb]. cbn in *.
  pose proof (gk_up L c C (I1 c C HC)) as HU. rewrite Hu in HU. destruct HU as (_ & A' & HA' & _ & _ & _ & _ & Hlt).
  rewrite HA in HA'. injection HA' as <-. assert (Hcg : c <> g) by (intros ->; rewrite HC in HA; injection HA as <-; lia).
  split; cbn; try assumption.
  - now apply del_nested_ok.
  - now apply (mem_del_nested L (bytes s)).
  - intros h B HB. cbn in HB. rewrite lookup_insert in HB. case_decide as E.
    + injection HB as <-. subst h. destruct (I3 g A HA) as (y & Hy & HDy & HKy). exists y. split; [assumption|]. split; [assumption|].
      apply masks_set; [now rewrite Hci|assumption].
    + rewrite lookup_delete in HB. case_decide; [discriminate|now apply I3].
  - destruct (lo_limbo_in _ _ _ _ I4 c Hl) as (_ & HcF & HcQ). cbn in HcF, HcQ. apply (lists_groups L); try assumption; cbn.
    + intros k Hk. pose proof (lo_free_groups _ _ _ _ I4 k Hk) as Hkn. cbn in Hkn. rewrite lookup_insert_ne, lookup_delete_ne by congruence. assumption.
    + intros sc h B Hsc Hh HB. rewrite lookup_insert. case_decide as E.
      * subst h. rewrite HA in HB. injection HB as <-. eexists. split; [reflexivity|]. split; [reflexivity|cbn; lia].
      * exists B. rewrite lookup_delete_ne by (intros ->; now apply (HcQ sc)). split; [assumption|]. split; [reflexivity|lia].
    + intros h B' HB'. right. rewrite lookup_insert in HB'. case_decide as E.
      * injection HB' as <-. subst h. exists A. split; [assumption|]. split; [reflexivity|]. now apply no_free_set.
      * rewrite lookup_delete in HB'. case_decide as E2; [discriminate|eauto].
  - apply (env_ext L _ (metas s) _ _ _ (cnts s) _ (kern s)); try assumption; try apply I5; try reflexivity.
    + intros b. cbn. unfold disclaim. destruct (within _ _ b) eqn:E; [|reflexivity]. apply within_region in E.
      destruct (region_owned L c C b (I1 c C HC) Hn E) as (o & -> & Ho). split; [discriminate|]. intros [= ->]. destruct Ho.
    + intros b o. cbn. unfold disclaim. destruct (within _ _ b) eqn:E; [|apply (eo_mapped _ _ _ _ _ _ _ I5)]. apply within_region in E.
      destruct (region_owned L c C b (I1 c C HC) Hn E) as (o' & Ho' & _). intros _. exact (eo_mapped _ _ _ _ _ _ _ I5 b _ Ho').
Qed.
End Ops.
