(* ===== verification/HeapTake.v ===== *)
(** * HeapTake: a slot of the groups of a class

    try_avail of Malloc: it takes a free slot of the groups in the list of a class,
    turning the list and activating slots as it needs, and says that there is none
    only when the list is empty.  A struct meta that the code relies on is there,
    and every assertion holds. *)

From stdpp Require Import gmap list.
From Stdlib Require Import ZArith Lia ZifyBool.
From S2P Require Import Prelude Malloc Slots Frames Rings Layout Heap HeapOps.
Open Scope Z_scope.
Open Scope heap_scope.

(** ** What an operation leaves as it is *)

Definition same_blocks (L L' : layout) : Prop := forall p n, blocks L' p n <-> blocks L p n.

Definition is_block (c : content) : bool := match c with Block _ _ => true | _ => false end.

Lemma blocks_put L g A A' :
  groups L !! g = Some A -> geo A' = geo A ->
  (forall i, slotted A i -> cont A' i = cont A i \/ is_block (cont A i) = false /\ is_block (cont A' i) = false) ->
  same_blocks L (put_group L g A').
Proof.
  intros HA Eg Hc p n. split; intros (h & B & i & HB & Hi & Hb).
  - cbn in HB. rewrite lookup_insert in HB. case_decide as E; [|now exists h, B, i]. injection HB as <-. subst h.
    unfold slotted in Hi. rewrite Eg in Hi. exists g, A, i. split; [assumption|]. split; [assumption|].
    destruct (Hc i Hi) as [E|[_ E]]; [congruence|rewrite Hb in E; discriminate].
  - destruct (Z.eq_dec h g) as [->|Hh].
    + rewrite HA in HB. injection HB as <-. exists g, A', i. cbn. rewrite lookup_insert_eq. split; [reflexivity|]. unfold slotted.
      rewrite Eg. split; [assumption|]. destruct (Hc i Hi) as [E|[E _]]; [congruence|rewrite Hb in E; discriminate].
    + exists h, B, i. cbn. rewrite lookup_insert_ne by congruence. auto.
Qed.

Lemma put_group_id L g A : groups L !! g = Some A -> put_group L g A = L.
Proof. intros HA. unfold put_group. rewrite insert_id by assumption. now destruct L. Qed.

Section Take.
Context {K : Type} `{KernelLaws K}.
Variable bootstrap : Z.
Implicit Types s : heap K.
Notation heap_inv := (@heap_inv K _ _ bootstrap).

(** The blocks and their bytes, the struct metas in no list, and the lists of the
    classes below [sc]. *)
Record evolve (sc : Z) (G : ghost) s (G' : ghost) s' : Prop := {
  ev_blocks : same_blocks (lay G) (lay G');
  ev_keeps p n b : blocks (lay G) p n -> p <= b < p + n -> bytes s' b = bytes s b;
  ev_limbo : limbo G' = limbo G;
  ev_qs k : 0 <= k < sc -> qs G' k = qs G k;
  ev_none m : In m (limbo G) -> groups (lay G) !! m = None -> groups (lay G') !! m = None }.

Lemma evolve_refl sc G s : evolve sc G s G s.
Proof. split; auto. now intros p n. Qed.

Lemma evolve_trans sc G1 s1 G2 s2 G3 s3 : evolve sc G1 s1 G2 s2 -> evolve sc G2 s2 G3 s3 -> evolve sc G1 s1 G3 s3.
Proof.
  intros [E1 E2 E3 E4 E5] [F1 F2 F3 F4 F5]. split.
  - intros p n. rewrite (F1 p n). apply E1.
  - intros p n b Hp Hb. rewrite (F2 p n b), (E2 p n b); auto. now apply E1.
  - congruence.
  - intros k Hk. now rewrite F4, E4.
  - intros m Hm Hn. apply F5; [now rewrite E3|now apply E5].
Qed.

Lemma evolve_bytes sc G s G' s' s'' : evolve sc G s G' s' -> bytes s'' = bytes s' -> evolve sc G s G' s''.
Proof. intros [E1 E2 E3 E4 E5] Eb. split; auto. now rewrite Eb. Qed.

Lemma evolve_le a b G s G' s' : b <= a -> evolve a G s G' s' -> evolve b G s G' s'.
Proof. intros Hab [E1 E2 E3 E4 E5]. split; auto. intros k Hk. apply E4. lia. Qed.

(** ** The head of a list *)

Lemma head_not_tail G s sc g t k :
  heap_inv G s -> 0 <= sc < 48 -> qs G sc = g :: t -> 0 <= k < 48 -> ~ In g (tail (qs G k)).
Proof.
  intros HI Hs EQ Hk Hin. pose proof (hi_lists _ _ _ HI) as HL.
  assert (Hg : In g (qs G k)) by (destruct (qs G k); [destruct Hin|now right]).
  assert (k = sc) by (apply (qs_disjoint _ _ _ _ g k sc HL Hk Hs Hg); rewrite EQ; now left). subst k.
  destruct (co_ring _ _ _ _ _ (lo_class _ _ _ _ HL sc Hs)) as (_ & Hnd & _). rewrite EQ in *. cbn in Hin.
  apply NoDup_cons in Hnd as [Hn _]. apply Hn. now apply list_elem_of_In.
Qed.

Lemma head_group G s sc g t :
  heap_inv G s -> 0 <= sc < 48 -> qs G sc = g :: t ->
  exists A x, groups (lay G) !! g = Some A /\ gsc (geo A) = sc /\ metas s !! g = Some x /\ describes x (geo A) /\ masks_ok x A /\
    group_ok (lay G) g A /\ group_mem (bytes s) g A /\ g <> 0.
Proof.
  intros HI Hs EQ. pose proof (hi_lists _ _ _ HI) as HL.
  destruct (co_groups _ _ _ _ _ (lo_class _ _ _ _ HL sc Hs) g) as (A & HA & Hc); [rewrite EQ; now left|].
  destruct (group_meta bootstrap G s g A HI HA) as (x & Hx & HD & HK & HG & HM & _ & _ & _ & Hg). exists A, x. auto 10.
Qed.

(** A change to the first group of a list. *)
Lemma inv_head G s sc g t A A' x x' m' :
  heap_inv G s -> 0 <= sc < 48 -> qs G sc = g :: t ->
  groups (lay G) !! g = Some A -> metas s !! g = Some x -> same_links x x' -> geo A' = geo A -> act A <= act A' ->
  layout_ok (put_group (lay G) g A') -> mem_ok (put_group (lay G) g A') m' -> describes x' (geo A) -> masks_ok x' A' ->
  heap_inv (set_lay (put_group (lay G) g A') G) (with_metas (<[g := x']> (metas s)) (with_bytes m' s)).
Proof.
  intros HI Hs EQ HA Hx Hl Eg Ha HL HM HD HK. apply (inv_group bootstrap G s g A A' x x'); try assumption.
  - intros k Hk Hin. now destruct (head_not_tail G s sc g t k HI Hs EQ Hk).
  - intros _ Hn _. exfalso. apply Hn. rewrite (qs_class G _ _ _ g A sc (hi_lists _ _ _ HI) Hs); [rewrite EQ; now left|rewrite EQ; now left|assumption].
Qed.

(** ** Taking a slot *)

Lemma mask_range x A : geom_ok (geo A) -> masks_ok x A -> 0 <= avail_mask x < 2 ^ 32 /\ 0 <= freed_mask x < 2 ^ 32.
Proof.
  intros HG (H1 & H2 & _). pose proof (go_cnt _ HG).
  assert (2 ^ gcnt (geo A) <= 2 ^ 32) by (apply Z.pow_le_mono_r; lia).
  apply bits_below_range in H1; [|lia]. apply bits_below_range in H2; [|lia]. lia.
Qed.

Lemma bit_slot n x i : bits_below n x -> 0 <= i -> Z.testbit x i = true -> i < n.
Proof. intros [_ Hx] Hi Hb. apply Z.nle_gt. intros Hn. rewrite Hx in Hb by assumption. discriminate. Qed.

Lemma clearbit_below n x k : 0 <= k -> bits_below n x -> bits_below n (Z.clearbit x k).
Proof.
  intros Hk [H1 H2]. split.
  - rewrite Z.clearbit_spec'. apply Z.ldiff_nonneg. now left.
  - intros i Hi. destruct (Z.lt_ge_cases i 0) as [Hn|Hn]; [now apply Z.testbit_neg_r|]. rewrite Z.clearbit_eqb, H2 by lia. reflexivity.
Qed.

Lemma bits_below_sub n x k : 0 <= k -> Z.testbit x k = true -> bits_below n x -> bits_below n (x - 2 ^ k).
Proof. intros Hk Hb Hx. rewrite clear_bit by assumption. now apply clearbit_below. Qed.

Lemma testbit_sub x k i : 0 <= k -> 0 <= i -> Z.testbit x k = true -> Z.testbit (x - 2 ^ k) i = Z.testbit x i && negb (i =? k).
Proof. intros Hk Hi Hb. rewrite clear_bit by assumption. rewrite Z.clearbit_eqb by assumption. now rewrite Z.eqb_sym. Qed.

Lemma masks_take x A i :
  geom_ok (geo A) -> masks_ok x A -> slotted A i -> Z.testbit (avail_mask x) i = true ->
  masks_ok (with_avail (u32 (avail_mask x - 2 ^ i)) x) (set_cont A i Taken).
Proof.
  intros HG HK Hi Hb. pose proof (mask_range x A HG HK) as HR. destruct HK as (H1 & H2 & H3). unfold slotted in Hi.
  pose proof (go_cnt _ HG). assert (Hle : 2 ^ i <= avail_mask x).
  { destruct (Z.le_gt_cases (2 ^ i) (avail_mask x)) as [|Hlt]; [assumption|]. exfalso.
    assert (bits_below i (avail_mask x)) as [_ Hz].
    { split; [lia|]. intros j Hj. destruct (Z.eq_dec (avail_mask x) 0) as [->|]; [apply Z.bits_0|].
      apply Z.bits_above_log2; [lia|]. assert (Z.log2 (avail_mask x) < i) by (apply Z.log2_lt_pow2; lia). lia. }
    rewrite Hz in Hb by lia. discriminate. }
  assert (0 < 2 ^ i) by lia. rewrite u32_small by lia. split; [|split]; cbn; [now apply bits_below_sub; try lia|assumption|].
  intros j Hj. unfold slotted in Hj. cbn in Hj. rewrite testbit_sub by lia. destruct (H3 j Hj) as [E1 E2].
  destruct (Z.eqb_spec j i) as [->|]; cbn; rewrite ?andb_true_r, ?andb_false_r.
  - split; [|discriminate]. destruct (E2 Hb) as [-> _]. reflexivity.
  - auto.
Qed.

Lemma take_lowest_ok G s sc g t A x (Q : Z -> heap K -> Prop) :
  heap_inv G s -> 0 <= sc < 48 -> qs G sc = g :: t -> groups (lay G) !! g = Some A -> metas s !! g = Some x -> avail_mask x <> 0 ->
  (forall i s', slotted A i -> cont A i = Free -> s' = with_metas (<[g := with_avail (u32 (avail_mask x - 2 ^ i)) x]> (metas s)) s ->
     heap_inv (set_lay (put_group (lay G) g (set_cont A i Taken)) G) s' -> Q (2 ^ i) s') ->
  wp (take_lowest g (avail_mask x)) s Q.
Proof.
  intros HI Hs EQ HA Hx Hav HQ. destruct (group_meta bootstrap G s g A HI HA) as (x' & Hx' & HD & HK & HG & HM & _).
  rewrite Hx in Hx'. injection Hx' as <-. pose proof (gk_geom _ _ _ HG) as Hgeo. pose proof (mask_range x A Hgeo HK) as HR.
  destruct (lowest_ok (avail_mask x) ltac:(lia)) as (i & Hi & El & Hb & _).
  assert (Hsl : slotted A i) by (split; [lia|]; apply (bit_slot _ (avail_mask x)); [apply HK|lia|assumption]).
  pose proof HK as (_ & _ & H3). destruct (H3 i Hsl) as [E1 E2]. rewrite Hb in E1. cbn in E1.
  assert (Hf : cont A i = Free) by (destruct (cont A i); [reflexivity|discriminate..]).
  unfold take_lowest. rewrite El. wp_step. apply (wp_update g _ x); [assumption|]. wp_step.
  apply HQ; [assumption|assumption|reflexivity|]. destruct (E2 Hb) as [_ Hact].
  rewrite <- (with_bytes_same s) at 2. apply (inv_head G s sc g t A _ x); try assumption; try reflexivity.
  - split; reflexivity.
  - apply set_cont_ok; try assumption; [apply HI|now rewrite Hf|reflexivity|]. split; [lia|split; discriminate].
  - apply (mem_write_slot _ (bytes s)); try assumption; try apply HI; [|exact I]. auto.
  - now apply masks_take.
Qed.

(** ** Activating slots *)

Lemma bits_below_land n x y : 0 <= y -> bits_below n x -> bits_below n (Z.land x y).
Proof.
  intros Hy [H1 H2]. split; [apply Z.land_nonneg; now left|]. intros i Hi. rewrite Z.land_spec, H2 by assumption. reflexivity.
Qed.

Lemma bits_below_ldiff n x y : bits_below n x -> bits_below n (Z.land x (Z.lnot y)).
Proof. intros [H1 H2]. split; [apply Z.land_nonneg; now left|]. intros i Hi. rewrite Z.land_spec, H2 by assumption. reflexivity. Qed.

Lemma low_bits_nonneg i : 0 <= low_bits i.
Proof. unfold low_bits. apply u32_range. Qed.

(** The meta of a group whose active free slots became available. *)
Definition activated (x : meta) (a : Z) : meta :=
  with_avail (Z.land (freed_mask x) (low_bits a)) (with_freed (Z.land (freed_mask x) (Z.lnot (low_bits a))) x).

Lemma masks_activated x A : geom_ok (geo A) -> 0 <= act A < gcnt (geo A) -> masks_ok x A -> avail_mask x = 0 -> masks_ok (activated x (act A)) A.
Proof.
  intros HG Ha (H1 & H2 & H3) Hz. pose proof (go_cnt _ HG). unfold activated. split; [|split]; cbn.
  - now apply bits_below_land; [apply low_bits_nonneg|].
  - now apply bits_below_ldiff.
  - intros i Hi. destruct (H3 i Hi) as [E1 _]. rewrite Hz, Z.bits_0 in E1. unfold slotted in Hi.
    rewrite !Z.land_spec, Z.lnot_spec, low_bits_spec by lia. rewrite E1. cbn.
    destruct (Z.testbit (freed_mask x) i); destruct (Z.leb_spec i (act A)); cbn; split; auto; discriminate.
Qed.

Lemma wp_active_idx g A s (Q : Z -> heap K -> Prop) :
  group_mem (bytes s) g A -> Q (act A) s -> wp (get_active_idx (gbase (geo A))) s Q.
Proof. intros HM HQ. unfold get_active_idx. wp_steps. now rewrite (gm_act _ _ _ HM). Qed.

Lemma activate_ok G s sc g t A x (Q : Z -> heap K -> Prop) :
  heap_inv G s -> 0 <= sc < 48 -> qs G sc = g :: t -> groups (lay G) !! g = Some A -> metas s !! g = Some x -> avail_mask x = 0 ->
  (let s' := with_metas (<[g := activated x (act A)]> (metas s)) s in
   heap_inv G s' -> Q (Z.land (freed_mask x) (low_bits (act A))) s') ->
  wp (activate_group g) s Q.
Proof.
  intros HI Hs EQ HA Hx Hz HQ. destruct (group_meta bootstrap G s g A HI HA) as (x' & Hx' & HD & HK & HG & HM & _).
  rewrite Hx in Hx'. injection Hx' as <-. pose proof (gk_geom _ _ _ HG) as Hgeo.
  unfold activate_group. wp_step. apply (wp_deref g x _ _ Hx). wp_step. wp_step; [lia|]. wp_step.
  destruct HD as (Hmem & HD). rewrite Hmem. apply (wp_active_idx g A s _ HM). wp_step. apply (wp_update g _ x _ _ Hx).
  wp_step. apply (wp_update g _ (with_freed (Z.land (freed_mask x) (Z.lnot (low_bits (act A)))) x)).
  { cbn. now rewrite lookup_insert_eq. }
  wp_step. change (metas (with_metas ?a ?b)) with a. rewrite insert_insert_eq.
  change (with_metas ?a (with_metas ?b s)) with (with_metas a s). apply HQ.
  assert (EG : G = set_lay (put_group (lay G) g A) G) by (destruct G; unfold set_lay; cbn; now rewrite put_group_id).
  rewrite EG. rewrite <- (with_bytes_same s) at 2. apply (inv_head G s sc g t A A x); try assumption; try reflexivity.
  - split; reflexivity.
  - rewrite put_group_id by assumption. apply HI.
  - rewrite put_group_id by assumption. apply HI.
  - split; [assumption|exact HD].
  - apply masks_activated; try assumption. apply (gk_act _ _ _ HG).
Qed.

(** ** Turning the list *)

(** The first group of the list has free slots, all of them in its freed_mask. *)
Definition ready (G : ghost) s (sc m : Z) (x : meta) : Prop :=
  (exists t, qs G sc = m :: t) /\ metas s !! m = Some x /\ avail_mask x = 0 /\ freed_mask x <> 0.

(** Another list of the class. *)
Definition relisted (sc : Z) (G : ghost) (G' : ghost) : Prop :=
  lay G' = lay G /\ fl G' = fl G /\ limbo G' = limbo G /\ (forall k, k <> sc -> qs G' k = qs G k) /\
  (forall k, In k (qs G sc) <-> In k (qs G' sc)).

Lemma relisted_evolve sc G s G' s' : relisted sc G G' -> bytes s' = bytes s -> evolve sc G s G' s'.
Proof.
  intros (E1 & _ & E2 & E3 & _) Eb. split; [now rewrite E1|now rewrite Eb|assumption| |now rewrite E1]. intros k Hk. apply E3. lia.
Qed.

Lemma relisted_trans sc G1 G2 G3 : relisted sc G1 G2 -> relisted sc G2 G3 -> relisted sc G1 G3.
Proof.
  intros (A1 & A2 & A3 & A4 & A5) (B1 & B2 & B3 & B4 & B5). split; [congruence|]. split; [congruence|]. split; [congruence|].
  split; [intros k Hk; rewrite B4, A4; auto|]. intros k. rewrite A5. apply B5.
Qed.

(** Only the heads of the lists differ. *)
Definition reheaded s s' : Prop := exists l, s' = with_active l s.

Lemma rotate_ok G s sc m x (Q : unit -> heap K -> Prop) :
  heap_inv G s -> 0 <= sc < 48 -> ready G s sc m x ->
  (forall G' s' y, heap_inv G' s' -> relisted sc G G' -> reheaded s s' -> ready G' s' sc (next x) y -> Q tt s') ->
  wp (set_head (Active sc) (next x)) s Q.
Proof.
  intros HI Hs ((t & EQ) & Hx & Hz & Hf) HQ. destruct G as [L Qs F lb]. cbn [qs] in EQ. pose proof (hi_lists _ _ _ HI) as HL.
  destruct (lists_rotate L Qs F lb (metas s) (active s) _ sc m t x HL Hs EQ Hx Hz Hf) as [HL' En].
  apply wp_set_head. rewrite En. cbn [cell_set].
  assert (Hin : forall k, In k (qs (Ghost L Qs F lb) sc) <-> In k (t ++ [m])) by (intros k; cbn; rewrite EQ, in_app_iff; cbn; tauto).
  assert (Hy : exists y, metas s !! head_of (t ++ [m]) = Some y /\ avail_mask y = 0 /\ freed_mask y <> 0).
  { destruct t as [|b t]; cbn; [exists x; auto|]. pose proof (lo_class _ _ _ _ HL sc Hs) as HC. cbn in HC. rewrite EQ in HC.
    apply (co_tail _ _ _ _ _ HC). now left. }
  destruct Hy as (y & Hy & Hyz & Hyf).
  apply (HQ (Ghost L (set_q Qs sc (t ++ [m])) F lb) _ y).
  - destruct HI as [I1 I2 I3 I4 I5]. split; cbn; assumption.
  - split; [reflexivity|]. split; [reflexivity|]. split; [reflexivity|]. split; [intros k Hk; now apply set_q_ne|].
    intros k. rewrite Hin. cbn. now rewrite set_q_eq.
  - eexists. reflexivity.
  - rewrite En. split; [|auto]. cbn. rewrite set_q_eq. destruct t as [|b t]; cbn; eauto.
Qed.

(** ** More slots *)

(** Slots of at least 128 bytes: the next one that crosses a page comes before the
    65th. *)
Lemma grow_span_ends sc cnt :
  7 <= sc < 48 -> 2 <= cnt < 34 ->
  exists c, grow_span 65 (class_units sc * UNIT) cnt (UNIT + class_units sc * UNIT * cnt) = Some c /\ cnt <= c.
Proof.
  intros Hs Hc.
  assert (HT : forallb (fun sc => forallb (fun cnt =>
    match grow_span 65 (class_units sc * UNIT) cnt (UNIT + class_units sc * UNIT * cnt) with Some c => cnt <=? c | None => false end)
    (map Z.of_nat (seq 2 32))) (map Z.of_nat (seq 7 41)) = true) by (vm_compute; reflexivity).
  rewrite forallb_forall in HT. specialize (HT sc). rewrite forallb_forall in HT.
  assert (H1 : In sc (map Z.of_nat (seq 7 41))) by (rewrite <- (Z2Nat.id sc) by lia; apply in_map, in_seq; lia).
  assert (H2 : In cnt (map Z.of_nat (seq 2 32))) by (rewrite <- (Z2Nat.id cnt) by lia; apply in_map, in_seq; lia).
  specialize (HT H1 cnt H2). destruct (grow_span _ _ _ _) as [c|]; [|discriminate]. exists c. split; [reflexivity|lia].
Qed.

Lemma large_class sc : 0 <= sc < 48 -> 128 <= UNIT * class_units sc -> 7 <= sc.
Proof.
  intros Hs Hu. destruct (Z.le_gt_cases 7 sc) as [|Hlt]; [assumption|]. exfalso.
  assert (class_units sc < class_units 7) by (apply class_units_mono; lia). assert (E : class_units 7 = 8) by reflexivity. unfold UNIT in *. lia.
Qed.

Lemma active_bits b v : 0 <= b -> 0 <= v < 32 -> Z.land (u8 (Z.lor (Z.land b 224) (Z.land v 31))) 31 = v.
Proof.
  intros Hb Hv. unfold u8. change 256 with (2 ^ 8). rewrite <- Z.land_ones by lia. apply Z.bits_inj'; intros i Hi.
  change 31 with (Z.ones 5). change 224 with (Z.ones 8 - Z.ones 5). rewrite !Z.land_spec, Z.lor_spec, !Z.land_spec, !Z.testbit_ones_nonneg by lia.
  destruct (Z.ltb_spec i 5) as [Hi5|Hi5].
  - assert (E : Z.testbit (Z.ones 8 - Z.ones 5) i = false).
    { change (Z.ones 8 - Z.ones 5) with (7 * 2 ^ 5). apply Z.mul_pow2_bits_low. lia. }
    rewrite E. replace (i <? 8) with true by lia. now rewrite !andb_false_r, !andb_true_r.
  - rewrite !andb_false_r. symmetry. destruct (Z.eq_dec v 0) as [->|]; [apply Z.bits_0|].
    apply Z.bits_above_log2; [lia|]. assert (Z.log2 v < 5) by (apply Z.log2_lt_pow2; lia). lia.
Qed.

Lemma set_active_ok G s sc g t A x a (Q : unit -> heap K -> Prop) :
  heap_inv G s -> 0 <= sc < 48 -> qs G sc = g :: t -> groups (lay G) !! g = Some A -> metas s !! g = Some x ->
  act A <= a < gcnt (geo A) ->
  (forall m', let s' := with_bytes m' s in heap_inv (set_lay (put_group (lay G) g (set_act A a)) G) s' ->
     (forall b, own (lay G) b <> Some (OHdr g) -> m' b = bytes s b) -> Q tt s') ->
  wp (set_active_idx (gbase (geo A)) a) s Q.
Proof.
  intros HI Hs EQ HA Hx Ha HQ. destruct (group_meta bootstrap G s g A HI HA) as (x' & Hx' & HD & HK & HG & HM & _).
  rewrite Hx in Hx'. injection Hx' as <-. pose proof (gk_geom _ _ _ HG) as Hgeo. pose proof (go_cnt _ Hgeo).
  pose proof (mo_wf _ _ (hi_mem _ _ _ HI)) as Hwf.
  unfold set_active_idx. wp_steps. set (v := u8 (Z.lor _ _)). set (m' := _<{_ := v}>).
  assert (Ho : forall b, own (lay G) b <> Some (OHdr g) -> m' b = bytes s b).
  { intros b Hb. apply mset_ne. intros ->. apply Hb. apply (gk_hdr _ _ _ HG). lia. }
  apply HQ; [|exact Ho].
  assert (Es : with_bytes m' s = with_metas (<[g := x]> (metas s)) (with_bytes m' s)) by (rewrite insert_id by assumption; reflexivity).
  rewrite Es. apply (inv_head G s sc g t A _ x); try assumption; try reflexivity; try (now split).
  - cbn. lia.
  - apply set_act_ok; try assumption. apply HI.
  - apply (mem_set_act _ (bytes s)); try assumption; try apply HI.
    + apply mset_wf; [assumption|apply u8_range].
    + intros b Hb. now apply mset_ne.
    + unfold m'. rewrite mset_eq. apply active_bits; [apply Hwf|pose proof (gk_act _ _ _ HG); lia].
  - destruct HK as (K1 & K2 & K3). split; [assumption|]. split; [assumption|]. intros i Hi. destruct (K3 i Hi) as [E1 E2].
    split; [exact E1|]. intros Hb. destruct (E2 Hb). split; [assumption|cbn; lia].
Qed.

(** The slot behind the last active one becomes active. *)
Lemma activate_more_ok G s sc g x A (Q : unit -> heap K -> Prop) :
  heap_inv G s -> 0 <= sc < 48 -> ready G s sc g x -> groups (lay G) !! g = Some A -> inactive A ->
  (forall m' a, let G' := set_lay (put_group (lay G) g (set_act A a)) G in let s' := with_bytes m' s in
     heap_inv G' s' -> evolve sc G s G' s' -> ready G' s' sc g x -> act A < a < gcnt (geo A) ->
     Z.land (freed_mask x) (low_bits a) <> 0 -> Q tt s') ->
  wp (activate_more g) s Q.
Proof.
  intros HI Hs ((t & EQ) & Hx & Hz & Hf) HA Hin HQ. destruct (group_meta bootstrap G s g A HI HA) as (x' & Hx' & HD & HK & HG & HM & _).
  rewrite Hx in Hx'. injection Hx' as <-. pose proof (gk_geom _ _ _ HG) as Hgeo. pose proof (go_cnt _ Hgeo) as Hcnt.
  pose proof (gk_act _ _ _ HG) as Hact. unfold inactive in Hin.
  unfold activate_more. wp_step. apply (wp_deref g x _ _ Hx). destruct HD as (Hmem & Hlast & HD). rewrite Hmem, Hlast.
  wp_step. apply (wp_active_idx g A s _ HM).
  assert (Hsc : sizeclass x = sc) by (destruct HD as [-> _]; apply (qs_class G _ _ _ g A sc (hi_lists _ _ _ HI) Hs); [rewrite EQ; now left|assumption]).
  destruct (go_several _ Hgeo) as [Est _]; [intros [E1 _]; lia|].
  destruct (grow_span_ends sc (act A + 2)) as (cnt & Egs & Hc).
  { split; [apply large_class; [assumption|]|lia]. destruct HD as [Hgc _]. rewrite <- Hsc, Hgc, <- Est. apply (gk_active _ _ _ HG). lia. }
  { lia. }
  wp_step. apply (wp_access _ cnt); [now rewrite Hsc|].
  set (a := (if _ <? cnt then _ else cnt) - 1). assert (Ha : act A < a < gcnt (geo A)) by (unfold a; case_if; lia).
  apply (set_active_ok G s sc g t A x a); try assumption; [lia|]. intros m' s' HI' Ho.
  apply (HQ m' a); try assumption; cbn.
  - split; [|intros p n b (h & B & i & HB & Hi & Hc') Hb|reflexivity|reflexivity|].
    + apply (blocks_put _ g A); auto.
    + apply Ho. rewrite (block_own (lay G) (hi_layout _ _ _ HI) h B i p n b HB Hi Hc' Hb). discriminate.
    + intros k _ Hk. cbn. rewrite lookup_insert_ne by congruence. assumption.
  - split; [exists t; exact EQ|]. auto.
  - (* the next slot is free *)
    intros E. pose proof HK as (K1 & K2 & K3). assert (Hsl : slotted A (act A + 1)) by (unfold slotted; lia).
    destruct (K3 _ Hsl) as [E1 _]. rewrite (gk_inactive _ _ _ HG _ Hsl) in E1 by lia. rewrite Hz, Z.bits_0 in E1. cbn in E1.
    assert (Hb : Z.testbit (Z.land (freed_mask x) (low_bits a)) (act A + 1) = false) by (rewrite E; apply Z.bits_0).
    rewrite Z.land_spec, low_bits_spec, <- E1 in Hb by lia. cbn in Hb. lia.
Qed.

(** ** try_avail *)

Lemma ready_group G s sc m x :
  heap_inv G s -> 0 <= sc < 48 -> ready G s sc m x ->
  exists A, groups (lay G) !! m = Some A /\ gsc (geo A) = sc /\ describes x (geo A) /\ masks_ok x A /\ geom_ok (geo A) /\
    0 <= act A < gcnt (geo A) /\ group_mem (bytes s) m A.
Proof.
  intros HI Hs ((t & EQ) & Hx & _). destruct (head_group G s sc m t HI Hs EQ) as (A & x' & HA & Hc & Hx' & HD & HK & HG & HM & _).
  rewrite Hx in Hx'. injection Hx' as <-. exists A. split; [assumption|]. split; [assumption|]. split; [assumption|].
  split; [assumption|]. split; [apply (gk_geom _ _ _ HG)|]. split; [apply (gk_act _ _ _ HG)|assumption].
Qed.

(** A group all of whose slots are active. *)
Lemma all_active x A : masks_ok x A -> geom_ok (geo A) -> 0 <= act A < gcnt (geo A) -> ~ inactive A ->
  Z.land (freed_mask x) (low_bits (act A)) = freed_mask x.
Proof.
  intros (_ & H2 & _) HG Ha Hi. pose proof (go_cnt _ HG). unfold inactive in Hi. replace (act A) with (gcnt (geo A) - 1) by lia.
  rewrite low_bits_ones, Z.sub_add by lia. rewrite Z.land_ones by lia. apply Z.mod_small. now apply bits_below_range; [lia|].
Qed.

Definition picked (sc : Z) (G : ghost) s (m : Z) s' : Prop :=
  exists G' x A, heap_inv G' s' /\ evolve sc G s G' s' /\ ready G' s' sc m x /\ groups (lay G') !! m = Some A /\
    Z.land (freed_mask x) (low_bits (act A)) <> 0.

Lemma pick_group_ok G s sc m x :
  heap_inv G s -> 0 <= sc < 48 -> ready G s sc m x -> wp (pick_group (Active sc) m) s (picked sc G s).
Proof.
  intros HI Hs HR. unfold pick_group. wp_step. apply (wp_deref m x _ _ (proj1 (proj2 HR))). wp_step.
  (* past a group that is all free *)
  apply (wp_mono _ _ (fun m1 s1 => exists G1 x1, heap_inv G1 s1 /\ evolve sc G s G1 s1 /\ ready G1 s1 sc m1 x1)).
  { case_if; wp_steps; [|exists G, x; split; [assumption|]; split; [apply evolve_refl|assumption]].
    apply (rotate_ok G s sc m x); try assumption. intros G1 s1 y HI1 HX (l & ->) HR1. wp_step. exists G1, y.
    split; [assumption|]. split; [now apply relisted_evolve|assumption]. }
  intros m1 s1 (G1 & x1 & HI1 & HE1 & HR1). wp_step. apply (wp_deref m1 x1 _ _ (proj1 (proj2 HR1))).
  destruct (ready_group G1 s1 sc m1 x1 HI1 Hs HR1) as (A1 & HA1 & Hc1 & HD1 & HK1 & HG1 & Hact1 & HM1).
  wp_step. rewrite (proj1 HD1). apply (wp_active_idx m1 A1 s1 _ HM1).
  destruct (Z.eqb_spec (Z.land (freed_mask x1) (low_bits (act A1))) 0) as [E|E].
  2:{ wp_step. exists G1, x1, A1. auto. }
  assert (Hina : inactive A1).
  { destruct (Z.lt_ge_cases (act A1) (gcnt (geo A1) - 1)) as [|Hge]; [assumption|]. exfalso.
    rewrite (all_active x1 A1 HK1 HG1 Hact1) in E by (unfold inactive; lia). now apply HR1. }
  destruct (Z.eqb_spec (next x1) m1) as [En|En]; cbn [negb]; wp_step.
  - apply (activate_more_ok G1 s1 sc m1 x1 A1); try assumption. intros m' a G2 s2 HI2 HE2 HR2 Ha Hbits. wp_step.
    exists G2, x1, (set_act A1 a). split; [assumption|]. split; [exact (evolve_trans _ _ _ _ _ _ _ HE1 HE2)|]. split; [assumption|].
    split; [|assumption]. cbn. apply lookup_insert_eq.
  - apply (rotate_ok G1 s1 sc m1 x1); try assumption. intros G2 s2 y HI2 HX (l & ->) HR2. wp_step.
    destruct (ready_group G2 _ sc (next x1) y HI2 Hs HR2) as (A2 & HA2 & Hc2 & HD2 & HK2 & HG2 & Hact2 & HM2).
    exists G2, y, A2. split; [assumption|]. split; [exact (evolve_trans _ _ _ _ _ _ _ HE1 (relisted_evolve sc G1 s1 G2 (with_active l s1) HX eq_refl))|].
    split; [assumption|]. split; [assumption|]. rewrite (all_active y A2 HK2 HG2 Hact2); [apply HR2|].
    intros Hina2. apply En. destruct HX as (X1 & _ & _ & _ & X5). destruct HR2 as ((t2 & EQ2) & _). destruct HR1 as ((t1 & EQ1) & _).
    apply (co_inactive _ _ _ _ _ (lo_class _ _ _ _ (hi_lists _ _ _ HI2) sc Hs) _ A2 _ A1); try assumption.
    + rewrite EQ2. now left.
    + apply X5. rewrite EQ1. now left.
    + now rewrite X1.
Qed.

(** What try_avail and alloc_slot promise: slot [i] of the first group of the list
    is theirs. *)
Definition got (sc : Z) (G : ghost) s (i g : Z) (A : group) : Prop :=
  (exists t, qs G sc = g :: t) /\ groups (lay G) !! g = Some A /\ slotted A i /\ cont A i = Taken.

Definition took (sc : Z) (G : ghost) s (r : Z) s' : Prop :=
  exists G', heap_inv G' s' /\ evolve sc G s G' s' /\
    (r = 0 /\ qs G' sc = [] \/ exists i g A, r = 2 ^ i /\ 0 <= i < 32 /\ got sc G' s' i g A /\ roomy (geo A)).

Lemma take_took G0 s0 G s sc g t A x :
  heap_inv G s -> evolve sc G0 s0 G s -> 0 <= sc < 48 -> qs G sc = g :: t -> groups (lay G) !! g = Some A ->
  metas s !! g = Some x -> avail_mask x <> 0 -> wp (take_lowest g (avail_mask x)) s (took sc G0 s0).
Proof.
  intros HI HE Hs EQ HA Hx Ha. apply (take_lowest_ok G s sc g t A x); try assumption.
  intros i s' Hi Hf -> HI'. eexists. split; [exact HI'|]. pose proof (hi_layout _ _ _ HI g A HA) as HG. split.
  - apply (evolve_trans _ _ _ _ _ _ _ HE).
    split; [|reflexivity|reflexivity|reflexivity|intros k _ Hk; cbn; rewrite lookup_insert_ne by congruence; assumption].
    apply (blocks_put _ g A); [assumption|reflexivity|]. intros j Hj. cbn.
    destruct (Z.eqb_spec j i) as [->|]; [right|now left]. now rewrite Hf.
  - right. exists i, g, (set_cont A i Taken). pose proof (go_cnt _ (gk_geom _ _ _ HG)). split; [reflexivity|].
    split; [unfold slotted in Hi; lia|]. split; [|exact (gk_free _ _ _ HG i Hi Hf)].
    split; [exists t; exact EQ|]. split; [cbn; apply lookup_insert_eq|]. split; [exact Hi|]. cbn. now rewrite Z.eqb_refl.
Qed.

Lemma try_avail_ok G s sc : heap_inv G s -> 0 <= sc < 48 -> wp (try_avail sc) s (took sc G s).
Proof.
  intros HI Hs. unfold try_avail. wp_step. apply (wp_get_head _ (head_of (qs G sc))); [apply (lo_head _ _ _ _ (hi_lists _ _ _ HI) sc Hs)|].
  destruct (qs G sc) as [|h t] eqn:EQ; cbn [head_of].
  { change (0 =? 0) with true. cbv iota. wp_step. exists G. split; [assumption|]. split; [apply evolve_refl|]. now left. }
  destruct (head_group G s sc h t HI Hs EQ) as (A & x & HA & Hc & Hx & HD & HK & HG & HM & Hh0).
  replace (h =? 0) with false by lia. wp_step. apply (wp_deref h x _ _ Hx).
  destruct (Z.eqb_spec (avail_mask x) 0) as [Ez|Ez]; cbn [negb].
  2:{ apply (take_took G s G s sc h t A); try assumption. apply evolve_refl. }
  wp_step. apply (wp_mono _ _ (fun m s1 => exists G1, heap_inv G1 s1 /\ evolve sc G s G1 s1 /\
    (m = 0 /\ qs G1 sc = [] \/ m <> 0 /\ exists y, ready G1 s1 sc m y))).
  { destruct (Z.eqb_spec (freed_mask x) 0) as [Ef|Ef]; wp_step.
    - (* no slot is left: the group leaves the list *)
      apply (inv_dequeue bootstrap G s sc [] h t); try assumption. intros ms HX s1 HI1. cbn [app] in s1, HI1.
      assert (HI2 : heap_inv (Ghost (lay G) (set_q (qs G) sc t) (fl G) (limbo G)) s1).
      { refine (inv_drop bootstrap _ s1 h (limbo G) HI1 eq_refl _). intros B HB. cbn in HB. rewrite HA in HB. injection HB as <-.
        intros i Hi. destruct HK as (_ & _ & K3). destruct (K3 i Hi) as [-> _]. now rewrite Ez, Ef, Z.bits_0. }
      apply (wp_get_head _ (head_of t)).
      { apply (cell_get_set (Active sc)). cbn. intros E. pose proof (lo_len _ _ _ _ (hi_lists _ _ _ HI)). apply lookup_ge_None in E. lia. }
      exists (Ghost (lay G) (set_q (qs G) sc t) (fl G) (limbo G)). split; [exact HI2|].
      split; [split; cbn; [now intros p n|reflexivity|reflexivity|intros k Hk; apply set_q_ne; lia|auto]|]. cbn [qs]. rewrite set_q_eq.
      destruct t as [|b t]; [now left|right]. cbn [head_of].
      pose proof (lo_class _ _ _ _ (hi_lists _ _ _ HI2) sc Hs) as HC. cbn [qs] in HC. rewrite set_q_eq in HC.
      destruct (head_group _ s1 sc b t HI2 Hs) as (B & y & _ & _ & Hy & _ & _ & _ & _ & Hb0); [cbn; apply set_q_eq|].
      split; [assumption|]. exists y.
      pose proof (lo_class _ _ _ _ (hi_lists _ _ _ HI) sc Hs) as HC0. rewrite EQ in HC0.
      destruct (co_tail _ _ _ _ _ HC0 b) as (y0 & Hy0 & Hz0 & Hf0); [now left|]. specialize (HX b). rewrite Hy0 in HX.
      change (metas s1) with ms in Hy. rewrite Hy in HX. split; [exists t; cbn; apply set_q_eq|]. split; [exact Hy|].
      rewrite HX. cbn. auto.
    - apply (rotate_ok G s sc h x); try assumption; [split; [exists t; exact EQ|auto]|]. intros G1 s1 y HI1 HX (l & ->) HR1. wp_step.
      exists G1. split; [assumption|]. split; [now apply relisted_evolve|]. right. split; [|exists y; assumption].
      destruct HR1 as ((t1 & EQ1) & _). destruct (head_group G1 _ sc _ t1 HI1 Hs EQ1) as (_ & _ & _ & _ & _ & _ & _ & _ & _ & Hn0). exact Hn0. }
  intros m s1 (G1 & HI1 & HE1 & [[-> E1]|[Hm (y & HR1)]]).
  { change (0 =? 0) with true. cbv iota. wp_step. exists G1. auto. }
  replace (m =? 0) with false by lia. wp_step. eapply wp_mono; [apply (pick_group_ok G1 s1 sc m y HI1 Hs HR1)|].
  intros m2 s2 (G2 & x2 & A2 & HI2 & HE2 & ((t2 & EQ2) & Hx2 & Hz2 & Hf2) & HA2 & Hbits).
  wp_step. apply (activate_ok G2 s2 sc m2 t2 A2 x2); try assumption. intros s3 HI3.
  wp_step. wp_step; [lia|]. wp_step. apply (wp_deref m2 (activated x2 (act A2))); [cbn; apply lookup_insert_eq|].
  wp_step. apply (decay_bounces_counting bootstrap _ G2 s3); [assumption|]. intros _ cn HI4.
  apply (take_took G s G2 _ sc m2 t2 A2 (activated x2 (act A2))); try assumption.
  - apply (evolve_trans _ _ _ _ _ _ _ HE1). now apply (evolve_bytes _ _ _ _ s2).
  - cbn. apply lookup_insert_eq.
Qed.
End Take.
