(* ===== verification/HeapGrow.v ===== *)
(** * HeapGrow: new groups

    alloc_group and alloc_slot of Malloc: a group in a mapping of its own or in a
    slot of a larger class, which is found by the same means; what they leave is a
    taken slot of the first group of the list of the class. *)

From stdpp Require Import gmap list.
From Stdlib Require Import ZArith Lia ZifyBool.
From S2P Require Import Prelude Malloc Slots Frames Rings Layout Heap HeapOps HeapTake.
Open Scope Z_scope.
Open Scope heap_scope.

Section Grow.
Context {K : Type} `{KernelLaws K}.
Variables bootstrap random_secret : Z.
Implicit Types s : heap K.
Notation heap_inv := (@heap_inv K _ _ bootstrap).

Definition hold (m : Z) (G : ghost) : ghost := Ghost (lay G) (qs G) (fl G) (m :: limbo G).

(** ** Bytes and struct metas that are nobody's yet *)

Lemma inv_bytes G s m' : heap_inv G s -> mem_ok (lay G) m' -> heap_inv G (with_bytes m' s).
Proof. intros [I1 I2 I3 I4 I5] HM. split; assumption. Qed.

(** The bytes of a taken slot. *)
Lemma mem_taken L m m' g A i :
  layout_ok L -> mem_ok L m -> groups L !! g = Some A -> slotted A i -> cont A i = Taken -> wf_mem m' ->
  (forall b, own L b <> Some (OSlot g i) -> m' b = m b) -> mem_ok L m'.
Proof.
  intros HL HM HA Hi Hc Hwf Hext.
  assert (Hp : pins_ok L m') by (intros b a Hb; rewrite Hext by congruence; now apply (mo_pins L m HM b a)).
  split; [assumption|exact Hp|]. intros h B HB. apply (group_mem_ext L m HL HM m' h B); try reflexivity; try assumption.
  - intros b Hb. apply Hext. congruence.
  - intros j Hj. destruct (decide (h = g /\ j = i)) as [[-> ->]|Hn].
    + right. rewrite HA in HB. injection HB as <-. rewrite Hc. exact I.
    + left. split; [reflexivity|]. intros b Hb. apply Hext. rewrite Hb. intros [= -> ->]. now apply Hn.
Qed.

Lemma inv_taken_bytes G s m' g A i :
  heap_inv G s -> groups (lay G) !! g = Some A -> slotted A i -> cont A i = Taken -> wf_mem m' ->
  (forall b, own (lay G) b <> Some (OSlot g i) -> m' b = bytes s b) -> heap_inv G (with_bytes m' s).
Proof.
  intros HI HA Hi Hc Hwf Hext. apply inv_bytes; [assumption|]. apply (mem_taken _ (bytes s) m' g A i); try assumption; apply HI.
Qed.

Lemma inv_free_bytes G s m' :
  heap_inv G s -> wf_mem m' -> (forall b o, own (lay G) b = Some o -> m' b = bytes s b) -> heap_inv G (with_bytes m' s).
Proof.
  intros HI Hwf Hext. apply inv_bytes; [assumption|]. apply (mem_unowned _ (bytes s)); try assumption; apply HI.
Qed.

(** The struct meta of a group that is being made. *)
Lemma inv_limbo_meta G s m x x' :
  heap_inv G s -> In m (limbo G) -> groups (lay G) !! m = None -> metas s !! m = Some x -> same_links x x' ->
  heap_inv G (with_metas (<[m := x']> (metas s)) s).
Proof.
  intros [I1 I2 I3 I4 I5] Hm Hg Hx [Hn Hp]. assert (Hne : forall h B, groups (lay G) !! h = Some B -> h <> m) by (intros h B HB ->; congruence).
  assert (Hkn : forall k, known (<[m := x']> (metas s)) k <-> known (metas s) k) by (intros k; apply known_insert; eexists; eassumption).
  split; cbn; try assumption.
  - intros h B HB. rewrite lookup_insert_ne by (intros <-; now apply (Hne m B)). now apply I3.
  - destruct G as [L Q F lb]. cbn in *. destruct (lo_limbo_in _ _ _ _ I4 m Hm) as (_ & HmF & HmQ). cbn in HmF, HmQ.
    apply (lists_ext L Q F lb L lb (metas s)); cbn; auto.
    + intros k. now apply (links_insert _ _ _ x).
    + intros sc h B Hs Hh HB. exists B. split; [assumption|split; [reflexivity|lia]].
    + intros sc h y Hs Hh Hy Hy1 Hy2. exists y. rewrite lookup_insert_ne; [auto|]. intros <-. apply (HmQ sc Hs).
      destruct (Q sc); [destruct Hh|now right].
    + intros h B HB Hc Hq Hl. exact (co_out _ _ _ _ _ (lo_class _ _ _ _ I4 _ Hc) h B HB eq_refl Hq Hl).
    + apply (lo_limbo _ _ _ _ I4).
    + exact (lo_limbo_in _ _ _ _ I4).
  - apply (env_ext bootstrap (lay G) _ (metas s) _ _ _ (cnts s) _ (kern s)); try assumption; try apply I5. reflexivity.
Qed.

(** ** The fields of a new group *)

(** The struct meta that alloc_group fills in. *)
Definition group_meta_of (x : meta) (C : geom) (a : Z) : meta :=
  with_group (gbase C) (low_bits a) (u32 (low_bits (gcnt C - 1) - low_bits a)) (gcnt C - 1) 1 (gsc C) x.

(** All slots but the first are free. *)
Definition new_group (C : geom) (a : Z) (u : option (Z * Z)) (t : Z) : group :=
  Group C (fun i => if i =? 0 then Taken else Free) a u t.

Lemma wp_open_group G s m x C a (Q : unit -> heap K -> Prop) :
  heap_inv G s -> In m (limbo G) -> groups (lay G) !! m = None -> metas s !! m = Some x -> 0 <= gsc C < 48 ->
  wf_mem (bytes s) -> 0 <= m < 2 ^ 64 -> 0 <= a < 32 ->
  (forall s' m', wf_mem m' -> load 8 m' (gbase C) = m -> Z.land (m' (gbase C + 8)) 31 = a ->
     (forall b, ~ gbase C <= b < gbase C + 9 -> m' b = bytes s b) ->
     bytes s' = bytes s -> kern s' = kern s -> metas s' !! m = Some (group_meta_of x C a) -> heap_inv G s' -> Q tt (with_bytes m' s')) ->
  wp (open_group m (gsc C) (gcnt C) a (gbase C)) s Q.
Proof.
  intros HI Hm Hg Hx Hs Hwf Hm64 Ha HQ. unfold open_group. wp_step. apply (add_usage_counting bootstrap (gsc C) (gcnt C) Hs G s); [assumption|].
  intros _ cn HI1. wp_step. apply (wp_update m _ x); [exact Hx|]. wp_step. wp_step. unfold set_active_idx. wp_steps.
  cbn [bytes with_bytes metas with_metas cnts with_cnts].
  set (m1 := store 8 (bytes s) (gbase C) m). set (v := u8 (Z.lor _ _)).
  set (s1 := with_metas (<[m := group_meta_of x C a]> (metas s)) (with_cnts cn s)).
  apply (HQ s1 (m1<{gbase C + 8 := v}>)).
  - apply mset_wf; [now apply store_wf|apply u8_range].
  - rewrite (load_ext 8 m1) by (intros b Hb; apply mset_ne; lia). apply load_store. exact Hm64.
  - rewrite mset_eq. apply active_bits; [|assumption]. apply (store_wf 8 (bytes s) (gbase C) m Hwf).
  - intros b Hb. rewrite mset_ne by lia. apply store_out. lia.
  - reflexivity.
  - reflexivity.
  - apply lookup_insert_eq.
  - apply (inv_limbo_meta G (with_cnts cn s) m x); try assumption. split; reflexivity.
Qed.

(** ** A group before it is in its list *)

(** Its memory: a new mapping, or a taken slot of a larger class. *)
Definition located (G : ghost) s (C : group) : Prop :=
  match up C with
  | None => own_pages (geo C) /\ top C = gbase (geo C) + gpages (geo C) * 4096 /\
            forall b, in_region C b -> own (lay G) b = None /\ mapped (kern s) b
  | Some (g, i) =>
      gpages (geo C) = 0 /\ exists A, groups (lay G) !! g = Some A /\ slotted A i /\ cont A i = Taken /\
        gbase (geo C) = start (geo A) i /\ top C = pin (geo A) (i + 1) /\ gsc (geo C) < gsc (geo A) /\
        hdr_enc (bytes s) (geo A) i (start (geo A) i)
  end.

Record raised (sc req : Z) (G : ghost) s (m : Z) (G' : ghost) s' (C : geom) (a : Z) (u : option (Z * Z)) (t : Z) : Prop := {
  ra_inv : heap_inv G' s';
  ra_ev : evolve (sc + 1) G s G' s';
  ra_none : groups (lay G') !! m = None;
  ra_meta : exists x, metas s' !! m = Some (group_meta_of x C a) /\ maplen x = gpages C;
  ra_sc : gsc C = sc;
  ra_room : req + IB <= gstride C;
  ra_fresh : fresh_ok (new_group C a u t);
  ra_mem : load 8 (bytes s') (gbase C) = m /\ Z.land (bytes s' (gbase C + 8)) 31 = a;
  ra_pins i : 0 <= i <= gcnt C -> bytes s' (pin C i) = 0;
  ra_loc : located G' s' (new_group C a u t);
  ra_zero : gstride C < UNIT * class_units sc -> forall b, start C 0 <= b < pin C 1 -> bytes s' b = 0 }.

(** The masks of a new group whose first slot is taken. *)
Lemma low_bits_diff n a i : 0 <= a < n -> n <= 32 -> 0 <= i ->
  Z.testbit (u32 (low_bits (n - 1) - low_bits a)) i = (a <? i) && (i <? n).
Proof.
  intros Ha Hn Hi. rewrite !low_bits_ones, Z.sub_add by lia. rewrite !Z.ones_equiv.
  assert (2 ^ (a + 1) <= 2 ^ n) by (apply Z.pow_le_mono_r; lia). assert (2 ^ n <= 2 ^ 32) by (apply Z.pow_le_mono_r; lia).
  assert (0 < 2 ^ (a + 1)) by lia. rewrite u32_small by lia.
  replace (Z.pred (2 ^ n) - Z.pred (2 ^ (a + 1))) with (Z.ones (n - (a + 1)) * 2 ^ (a + 1)).
  2:{ rewrite Z.ones_equiv, <- Z.sub_1_r, Z.mul_sub_distr_r, <- Z.pow_add_r by lia. rewrite Z.sub_add. lia. }
  rewrite Z.mul_pow2_bits by lia. destruct (Z.ltb_spec a i) as [Hlt|Hlt]; cbn.
  - rewrite Z.testbit_ones_nonneg by lia. lia.
  - apply Z.testbit_neg_r. lia.
Qed.

Lemma masks_new C a x u t :
  geom_ok C -> 0 <= a < gcnt C ->
  masks_ok (with_avail (u32 (low_bits a - 1)) (group_meta_of x C a)) (new_group C a u t).
Proof.
  intros HG Ha. pose proof (go_cnt C HG) as Hc. assert (H1 : Z.testbit (low_bits a) 0 = true) by (rewrite low_bits_spec; lia).
  assert (Hlb : bits_below (gcnt C) (low_bits a)).
  { split; [apply low_bits_nonneg|]. intros i Hi. rewrite low_bits_spec by lia. lia. }
  assert (E : u32 (low_bits a - 1) = low_bits a - 2 ^ 0).
  { change (2 ^ 0) with 1. apply u32_small. pose proof (u32_range (u32 (Z.shiftl 2 a) - 1)). fold (low_bits a) in *.
    destruct (Z.eq_dec (low_bits a) 0) as [E|E]; [rewrite E in H1; discriminate|lia]. }
  rewrite E. split; [|split]; cbn [avail_mask freed_mask with_avail group_meta_of with_group geo new_group cont act].
  - now apply bits_below_sub.
  - split; [apply u32_range|]. intros i Hi. rewrite low_bits_diff by lia. lia.
  - intros i Hi. unfold slotted in Hi. cbn in Hi. rewrite testbit_sub, low_bits_spec, low_bits_diff by lia.
    destruct (Z.eqb_spec i 0) as [->|]; cbn; lia.
Qed.

(** The group becomes part of the layout. *)
Lemma adopt sc req G s m lb G' s' C a u t x :
  raised sc req G s m G' s' C a u t -> limbo G = m :: lb -> metas s' !! m = Some (group_meta_of x C a) -> maplen x = gpages C ->
  let x' := with_avail (u32 (low_bits a - 1)) (group_meta_of x C a) in
  let s'' := with_metas (<[m := x']> (metas s')) s' in
  exists L, heap_inv (set_lay L G') s'' /\ groups L !! m = Some (new_group C a u t) /\ same_blocks (lay G') L /\
    forall k, k <> m -> groups (lay G') !! k = None -> groups L !! k = None.
Proof.
  intros HR El Hx Hml x' s''. destruct HR as [HI HE Hn _ Hsc Hroom HF [HM1 HM2] Hpins Hloc _].
  pose proof (fr_geom _ HF) as HG. pose proof (fr_act _ HF) as Ha. cbn in HG, Ha.
  assert (Hm : In m (limbo G')) by (rewrite (ev_limbo _ _ _ _ _ HE), El; now left).
  assert (HI2 : heap_inv G' s'') by (apply (inv_limbo_meta G' s' m _ x' HI Hm Hn Hx); split; reflexivity).
  assert (HD : describes x' C) by (unfold describes, x'; cbn; auto).
  pose proof (masks_new C a x u t HG Ha) as HK.
  assert (HM : group_mem (bytes s'') m (new_group C a u t)).
  { split; cbn; [exact HM1|exact HM2|]. intros i _. cbn. destruct (i =? 0); exact I. }
  assert (Hmx : metas s'' !! m = Some x') by apply lookup_insert_eq.
  assert (Hfree : forall i p n, cont (new_group C a u t) i = Block p n -> False) by (intros i p n; cbn; destruct (i =? 0); discriminate).
  unfold located in Hloc. destruct u as [[g i]|]; cbn [up new_group] in Hloc.
  - destruct Hloc as (Hp & A & HA & Hi & Hc & Hb & Ht & Hs & Hh).
    exists (add_nested (lay G') m (new_group C a (Some (g, i)) t) g A i). split; [|split; [|split]].
    + now apply (inv_add_nested bootstrap G' s'' m (new_group C a (Some (g, i)) t) x' g A i).
    + cbn. apply lookup_insert_eq.
    + intros p n. split; intros (h & B & j & HB & Hj & Hcj).
      * cbn in HB. rewrite lookup_insert in HB. case_decide as E; [injection HB as <-; destruct (Hfree j p n Hcj)|].
        rewrite lookup_insert in HB. case_decide as E2; [|now exists h, B, j]. injection HB as <-. subst h. exists g, A, j.
        cbn in Hcj. destruct (Z.eqb_spec j i); [discriminate|auto].
      * assert (h <> m) by congruence. destruct (Z.eq_dec h g) as [->|].
        -- rewrite HA in HB. injection HB as <-. exists g, (set_cont A i (Nest m)), j. cbn.
           rewrite lookup_insert_ne, lookup_insert_eq by congruence. destruct (Z.eqb_spec j i) as [->|]; [congruence|auto].
        -- exists h, B, j. cbn. rewrite !lookup_insert_ne by congruence. auto.
    + intros k Hk Hkn. cbn. rewrite !lookup_insert_ne by congruence. assumption.
  - destruct Hloc as (Hp & Ht & Hr). exists (add_mapped (lay G') m (new_group C a None t)). split; [|split; [|split]].
    + now apply (inv_add_mapped bootstrap G' s'' m (new_group C a None t) x').
    + cbn. apply lookup_insert_eq.
    + intros p n. split; intros (h & B & j & HB & Hj & Hcj).
      * cbn in HB. rewrite lookup_insert in HB. case_decide as E; [injection HB as <-; destruct (Hfree j p n Hcj)|]. now exists h, B, j.
      * exists h, B, j. cbn. rewrite lookup_insert_ne by congruence. auto.
    + intros k Hk Hkn. cbn. rewrite lookup_insert_ne by congruence. assumption.
Qed.

(** ** A group in memory of its own *)

Definition mapped_geom (sc cnt needed p : Z) : geom :=
  Geom p (if cnt =? 1 then needed - UNIT else UNIT * class_units sc) cnt sc (needed / 4096).

Lemma mapped_geom_ok sc cnt needed p :
  0 <= sc < 48 -> 1 <= cnt <= 32 -> UNIT * class_units sc * cnt < 65536 * UNIT -> needed mod 4096 = 0 -> 4096 <= needed < 2 ^ 31 ->
  (2 <= cnt -> UNIT * class_units sc * cnt + UNIT <= needed) ->
  (cnt = 1 -> needed < UNIT * class_units sc + UNIT /\ 256 <= class_units sc \/
              UNIT * class_units sc + UNIT <= needed <= UNIT * class_units sc + UNIT + 4095 /\ 767 <= class_units sc) ->
  0 < p -> p mod 4096 = 0 -> p + needed <= 2 ^ 47 ->
  let C := mapped_geom sc cnt needed p in
  geom_ok C /\ own_pages C /\ gpages C * 4096 = needed /\ start C cnt <= p + needed.
Proof.
  intros Hs Hc Hmax Hn Hnr Hsev Hone Hp Hpm Hend C. pose proof (class_units_range sc Hs) as Hu.
  assert (Hpg : gpages C * 4096 = needed) by (cbn; zlia). assert (Hown : own_pages C) by (unfold own_pages; cbn; zlia).
  assert (Hst : start C cnt <= p + needed).
  { unfold start, UNIT in *. cbn. destruct (Z.eqb_spec cnt 1) as [->|]; unfold UNIT in *; [lia|]. specialize (Hsev ltac:(lia)).
 lia. }
  split; [|split; [assumption|split; assumption]]. unfold UNIT in *. split; cbn [gbase gcnt gsc gpages gstride C mapped_geom].
  - lia.
  - now left.
  - split; [assumption|zlia].
  - destruct (Z.eqb_spec cnt 1); unfold UNIT; [split; zlia|]. split; [lia|]. rewrite Z.mul_comm. apply Z_mod_mult.
  - change (start C cnt <= 2 ^ 47). lia.
  - cbn in Hpg. lia.
  - intros _. split; [assumption|]. cbn in Hpg. rewrite Hpg. exact Hst.
  - intros [E _]. cbn in E. subst cnt. change (1 =? 1) with true. cbv iota. cbn in Hpg. unfold UNIT. lia.
  - intros Hns. assert (cnt <> 1) by (intros ->; apply Hns; split; [reflexivity|exact Hown]).
    replace (cnt =? 1) with false by lia. split; [reflexivity|]. unfold UNIT. lia.
  - intros [E _] _. cbn in E. subst cnt. change (1 =? 1) with true. cbv iota. specialize (Hone eq_refl). unfold UNIT in *. lia.
Qed.

(** The first slots of a mapped group that are active: those of its first page. *)
Lemma first_active size cnt :
  16 <= size -> size mod 16 = 0 -> 1 <= cnt <= 32 ->
  let a := s32 ((4096 - UNIT) / size - 1) in
  let a := if cnt - 1 <? a then cnt - 1 else a in
  let a := if a <? 0 then 0 else a in 0 <= a < cnt /\ (a < cnt - 1 -> 128 <= size).
Proof.
  intros Hs Hm Hc. cbv zeta. assert (0 <= (4096 - UNIT) / size <= 255).
  { unfold UNIT. split; [apply Z.div_pos; lia|]. apply Z.lt_succ_r. apply Z.div_lt_upper_bound; lia. }
  assert (Hq : (4096 - UNIT) / size < 32 -> 128 <= size).
  { intros Hq. destruct (Z.le_gt_cases 128 size) as [|Hlt]; [assumption|]. exfalso. assert (size <= 112) by zlia.
    assert (32 <= (4096 - UNIT) / size) by (apply Z.div_le_lower_bound; unfold UNIT in *; lia). lia. }
  rewrite s32_small by lia. set (q := (4096 - UNIT) / size) in *. destruct (Z.ltb_spec (cnt - 1) (q - 1)); [destruct (Z.ltb_spec (cnt - 1) 0)|destruct (Z.ltb_spec (q - 1) 0)]; (split; [lia|intros; try apply Hq; lia]).
Qed.

Lemma new_group_fresh C a u t :
  geom_ok C -> 0 <= a < gcnt C -> pin C (gcnt C) <= t -> (a < gcnt C - 1 -> 128 <= gstride C) -> (2 <= gcnt C -> roomy C) -> fresh_ok (new_group C a u t).
Proof.
  intros HG Ha Ht Hact Hr. split; cbn; try assumption. intros i Hi. unfold slotted in Hi. cbn in Hi. destruct (Z.eqb_spec i 0) as [->|].
  - split; [reflexivity|]. split; [cbn; lia|split; discriminate].
  - split; [reflexivity|]. split; [reflexivity|]. split; [intros _; apply Hr; lia|discriminate].
Qed.

Definition raised_or_none (sc req : Z) (G : ghost) lb s (m r : Z) s' : Prop :=
  (r = 0 /\ exists G', heap_inv G' s' /\ evolve (sc + 1) (Ghost (lay G) (qs G) (fl G) lb) s G' s') \/
  (r = m /\ exists G' C a u t, raised sc req G s m G' s' C a u t).

Lemma free_held G s m lb sc G1 s1 :
  heap_inv G s -> limbo G = m :: lb -> heap_inv G1 s1 -> evolve (sc + 1) G s G1 s1 -> groups (lay G1) !! m = None ->
  wp (free_meta m) s1 (fun _ s' => exists G', heap_inv G' s' /\ evolve (sc + 1) (Ghost (lay G) (qs G) (fl G) lb) s G' s').
Proof.
  intros HI El HI1 [E1 E2 E3 E4 E5] Hn. apply (inv_free_meta bootstrap G1 s1 m lb); [assumption|congruence|assumption|].
  intros ms c s' HI'. eexists. split; [exact HI'|]. split; cbn; try assumption; try reflexivity.
  intros k Hk. apply E5. rewrite El. now right.
Qed.

Lemma map_group_ok G s sc usage cnt req m lb :
  heap_inv G s -> limbo G = m :: lb -> groups (lay G) !! m = None -> 0 <= sc < 48 ->
  0 <= req -> req + IB <= UNIT * class_units sc -> cnt = group_cnt sc usage ->
  wp (map_group m sc usage cnt req) s (raised_or_none sc req G lb s m).
Proof.
  intros HI El Hn Hs Hr0 Hreq Ecnt. pose proof (class_units_range sc Hs) as Hu. unfold map_group.
  wp_step. apply (is_bouncing_counting bootstrap sc G s); [assumption|]. intros nosmall cn1 HI1.
  wp_step. apply (account_bounce_counting bootstrap sc G _ _ HI1). intros _ cn2 HI2.
  wp_step. apply (step_seq_counting bootstrap G _ _ HI2). intros _ cn3 HI3. cbn [with_cnts] in *.
  wp_step. set (s0 := with_cnts cn3 (with_cnts cn2 (with_cnts cn1 s))) in *.
  apply (wp_mono _ _ (fun (usage' : Z) s1 => exists cn, s1 = with_cnts cn s /\ heap_inv G s1)).
  { destruct ((Z.land sc 1 =? 0) && (sc <? 32)) eqn:E; [|wp_step; exists cn3; auto].
    wp_step. apply (get_usage_counting bootstrap (sc + 1) ltac:(lia) G _ _ HI3). intros u cn HI4. wp_step. exists cn. auto. }
  intros usage' s1 (cn & -> & HI4). destruct (group_cnt_ok sc usage Hs) as (Hc & Hmax & _). rewrite <- Ecnt in *.
  pose proof (map_size_ok sc usage' cnt req nosmall Hs Hc Hmax Hr0 Hreq) as HMS. cbv zeta in HMS.
  destruct (map_size sc usage' cnt req nosmall) as [cnt' needed]. destruct HMS as (M1 & M2 & M3 & M4 & M5 & M6).
  wp_step. apply (inv_mmap bootstrap G (with_cnts cn s) needed); [assumption| |].
  - intros e k' Hk s2 HI5. wp_step. eapply wp_mono; [apply (free_held G s m lb sc G s2)|]; try assumption.
    + split; try reflexivity; [now intros p n|auto].
    + intros r s3 HG. wp_step. left. auto.
  - intros p k' _ Hp Hpm Hend s2 Hnew Hold HI5.
    assert (Hpu : page_up needed = needed) by (destruct (page_up_ok needed ltac:(lia)); zlia). rewrite Hpu in *.
    destruct (mapped_geom_ok sc cnt' needed p) as (HG & Hown & Hpg & Hst); try assumption; [intros E; now apply M6|].
    set (C := mapped_geom sc cnt' needed p) in *.
    destruct (limbo_idle bootstrap G s2 m HI5) as ((x & Hx) & _ & _ & Hm0 & _); [rewrite El; now left|].
    pose proof (hi_env _ _ _ HI5) as HE. assert (Hm64 : 0 <= m < 2 ^ 64).
    { destruct (eo_known _ _ _ _ _ _ _ HE m) as (Ho & _); [eexists; exact Hx|]. pose proof (eo_range _ _ _ _ _ _ _ HE m Ho). lia. }
    wp_step. apply (wp_update m _ x); [exact Hx|].
    assert (HI6 : heap_inv G (with_metas (<[m := with_maplen (Z.shiftr needed 12) x]> (metas s2)) s2)).
    { apply (inv_limbo_meta G s2 m x); try assumption; [rewrite El; now left|split; reflexivity]. }
    wp_step. apply (count_mmap_counting bootstrap G _ _ HI6). intros _ cn4 HI7. set (s3 := with_cnts cn4 _) in *.
    change (UNIT * class_units sc) with (UNIT * class_units (gsc C)) at 1.
    pose proof (first_active (UNIT * class_units (gsc C)) cnt' ltac:(unfold UNIT; cbn; lia) ltac:(unfold UNIT; zlia) ltac:(lia)) as Ha. cbv zeta in Ha.
    set (a := if _ <? 0 then 0 else _) in *. clearbody a.
    wp_step. change sc with (gsc C) at 1. change cnt' with (gcnt C) at 1. change p with (gbase C) at 1.
    apply (wp_open_group G s3 m (with_maplen (Z.shiftr needed 12) x) C a); try assumption.
    + rewrite El. now left.
    + cbn. apply lookup_insert_eq.
    + cbn. apply mfill_wf; [apply HI|lia].
    + lia.
    + intros s4 m' Hwf Hl8 Hact Hext Eb Ek Em HI8. wp_step. right. split; [reflexivity|].
      exists G, C, a, None, (p + needed).
      assert (Hz : forall b, p + 9 <= b < p + needed -> m' b = 0).
      { intros b Hb. rewrite Hext by (cbn; lia). now apply (Hnew b ltac:(lia)). }
      assert (Hpin : forall i, 0 <= i <= gcnt C -> p + 9 <= pin C i < p + needed).
      { intros i Hi. destruct (go_stride C HG) as [Hstr _]. cbn [gcnt C mapped_geom] in Hi, Hst.
        unfold pin, start, UNIT, IB in *. cbn [gbase C mapped_geom] in *. nia. }
      assert (Eown : forall b o, own (lay G) b = Some o -> m' b = bytes s b).
      { intros b o Ho. assert (Hb : ~ p <= b < p + needed) by (intros Hb; destruct (Hnew b Hb) as [Hno _]; rewrite Ho in Hno; discriminate).
        rewrite Hext by (cbn; lia). apply (Hold b). exact (eo_mapped _ _ _ _ _ _ _ (hi_env _ _ _ HI) b o Ho). }
      split; cbn [bytes with_bytes metas kern].
      * apply inv_free_bytes; [assumption|assumption|]. intros b o Ho. rewrite (Eown b o Ho), Eb. symmetry.
        apply (Hold b). exact (eo_mapped _ _ _ _ _ _ _ (hi_env _ _ _ HI) b o Ho).
      * split; try reflexivity; [now intros q n| |auto]. intros q n b (h & B & i & HB & Hi & Hc') Hb. apply (Eown b (OSlot h i)).
        exact (block_own (lay G) (hi_layout _ _ _ HI) h B i q n b HB Hi Hc' Hb).
      * assumption.
      * eexists. split; [exact Em|]. cbn. rewrite Z.shiftr_div_pow2 by lia. reflexivity.
      * reflexivity.
      * cbn. unfold UNIT, IB in *. destruct (Z.eqb_spec cnt' 1) as [->|]; [destruct (M6 eq_refl); lia|lia].
      * apply new_group_fresh; try assumption.
        -- exact (proj1 Ha).
        -- unfold pin, IB. cbn [gcnt C mapped_geom] in Hst |- *. lia.
        -- intros Hlt. cbn [gcnt C mapped_geom] in Hlt. destruct Ha as [Ha Ha2]. specialize (Ha2 Hlt).
           cbn [gstride gsc C mapped_geom] in Ha2 |- *. replace (cnt' =? 1) with false by lia. exact Ha2.
        -- intros Hc2. cbn [gcnt C mapped_geom] in Hc2. split; [cbn; lia|]. cbn. replace (cnt' =? 1) with false by lia. lia.
      * auto.
      * intros i Hi. apply Hz. specialize (Hpin i Hi). lia.
      * split; [exact Hown|]. split; [cbn [top new_group geo]; rewrite Hpg; reflexivity|]. intros b Hb. unfold in_region in Hb. cbn in Hb.
        destruct (Hnew b ltac:(lia)) as (H1' & _ & H3' & _). split; [assumption|]. cbn. rewrite Ek. exact H3'.
      * intros _ b Hb. apply Hz. pose proof (Hpin 0 ltac:(cbn; lia)). pose proof (Hpin 1 ltac:(cbn; lia)). rewrite pin0 in *.
        unfold start, UNIT in Hb. cbn [gbase C mapped_geom] in *. lia.
Qed.

(** ** A group in a slot *)

Definition served (sc req : Z) (G : ghost) s (idx : Z) s' : Prop :=
  exists G', heap_inv G' s' /\ evolve sc G s G' s' /\
    (idx < 0 \/ exists g A, 0 <= idx /\ got sc G' s' idx g A /\ req + IB <= gstride (geo A) /\
       (gstride (geo A) < UNIT * class_units sc ->
        forall b, start (geo A) idx <= b < pin (geo A) (idx + 1) -> bytes s' b = 0)).

Definition serves (alloc : Z -> Z -> @M K Z) (sc : Z) : Prop :=
  forall G s req, heap_inv G s -> 0 <= req -> req + IB <= UNIT * class_units sc -> wp (alloc sc req) s (served sc req G s).

Lemma wp_clear_ends n i p size s (Q : unit -> heap K -> Prop) :
  wf_mem (bytes s) ->
  (forall m', wf_mem m' -> (forall k, i <= k < i + Z.of_nat n -> m' (p + UNIT + k * size - 4) = 0) ->
     (forall b, m' b = bytes s b \/ m' b = 0 /\ exists k, i <= k < i + Z.of_nat n /\ b = p + UNIT + k * size - 4) ->
     Q tt (with_bytes m' s)) ->
  wp (clear_ends n i p size) s Q.
Proof.
  revert i s Q; induction n as [|n IH]; intros i s Q Hwf HQ; cbn [clear_ends].
  - wp_step. specialize (HQ (bytes s) Hwf). rewrite with_bytes_same in HQ. apply HQ; [lia|]. intros b. now left.
  - wp_step. wp_step. apply IH; [now apply mset_wf|]. cbn [bytes with_bytes]. intros m' Hwf' Hz Ho.
    change (with_bytes m' (with_bytes ?a s)) with (with_bytes m' s). apply HQ; [assumption| |].
    + intros k Hk. destruct (Z.eq_dec k i) as [->|]; [|apply Hz; lia].
      destruct (Ho (p + UNIT + i * size - 4)) as [->|[-> _]]; [|reflexivity]. apply mset_eq.
    + intros b. destruct (Ho b) as [->|[Hb (k & Hk & ->)]]; [|right; split; [assumption|exists k; split; [lia|reflexivity]]].
      destruct (Z.eq_dec b (p + UNIT + i * size - 4)) as [->|]; [|rewrite mset_ne by assumption; now left].
      rewrite mset_eq. right. split; [reflexivity|]. exists i. split; [lia|reflexivity].
Qed.

Lemma hdr_enc_small m m' G i p :
  hdr_enc m G i p -> m (p - 4) = 0 -> m' (p - 4) = 0 -> Z.land (m' (p - 3)) 31 = Z.land (m (p - 3)) 31 ->
  (forall b, p - 2 <= b < p -> m' b = m b) -> hdr_enc m' G i p.
Proof.
  intros (H1 & H2 & H3 & H4 & H5 & H6) Hz Hz' Hi Hext. split; [assumption|]. split; [assumption|]. split; [assumption|].
  split; [assumption|]. split; [congruence|]. left. split; [assumption|].
  rewrite (load_ext 2 m) by (intros x Hx; apply Hext; lia). destruct H6 as [[_ H6]|[H6 _]]; [assumption|contradiction].
Qed.

(** The class of the slot for a small group. *)
Lemma nest_class sc cnt :
  0 <= sc < 48 -> 2 <= cnt -> UNIT * class_units sc * cnt + UNIT <= 2048 ->
  let req := UNIT + cnt * (UNIT * class_units sc) - IB in let j := size_to_class req in
  0 <= req /\ sc < j < 48 /\ req + IB <= UNIT * class_units j /\ class_units j < 256.
Proof.
  intros Hs Hc Hm. cbv zeta. pose proof (class_units_range sc Hs) as Hu. set (req := UNIT + _ - IB).
  assert (Hreq : 0 <= req < MMAP_THRESHOLD /\ req + IB <= 2048 /\ UNIT * class_units sc < req + IB)
    by (unfold req, MMAP_THRESHOLD, UNIT, IB in *; nia).
  destruct (size_to_class_ok req ltac:(lia)) as (S1 & S2 & S3). set (j := size_to_class req) in *.
  assert (Hj : sc < j).
  { destruct (Z.lt_ge_cases sc j) as [|Hle]; [assumption|]. exfalso.
    assert (class_units j <= class_units sc) by (destruct (Z.eq_dec j sc) as [->|]; [lia|]; assert (class_units j < class_units sc) by (apply class_units_mono; lia); lia).
    unfold UNIT in *. lia. }
  split; [lia|]. split; [lia|]. split; [assumption|].
  assert (E24 : class_units 24 = 146) by reflexivity.
  assert (j <= 24).
  { destruct (Z.le_gt_cases j 24) as [|Hgt]; [assumption|]. specialize (S3 ltac:(lia)).
    assert (class_units 24 <= class_units (j - 1)) by (destruct (Z.eq_dec (j - 1) 24) as [->|]; [lia|]; assert (class_units 24 < class_units (j - 1)) by (apply class_units_mono; lia); lia).
    unfold UNIT in *. lia. }
  destruct (Z.eq_dec j 24) as [->|]; [lia|]. assert (class_units j < class_units 24) by (apply class_units_mono; lia). lia.
Qed.

Lemma not_single G s g A :
  heap_inv G s -> groups (lay G) !! g = Some A -> gsc (geo A) < 48 -> class_units (gsc (geo A)) < 256 ->
  ~ single (geo A) /\ gstride (geo A) = UNIT * class_units (gsc (geo A)).
Proof.
  intros HI HA Hc Hu. pose proof (gk_geom _ _ _ (hi_layout _ _ _ HI g A HA)) as HG.
  assert (Hns : ~ single (geo A)) by (intros Hsg; destruct (go_odd _ HG Hsg Hc) as [[_ ?]|[_ ?]]; lia).
  split; [assumption|]. now apply (go_several _ HG).
Qed.

(** The bits of the frame above the index. *)
Lemma tag_index b : 0 <= b < 256 -> Z.land (u8 (Z.lor (Z.land b 31) (Z.shiftl 6 5))) 31 = Z.land b 31.
Proof.
  intros Hb. unfold u8. change 256 with (2 ^ 8). rewrite <- Z.land_ones by lia. apply Z.bits_inj'; intros i Hi.
  change 31 with (Z.ones 5). rewrite !Z.land_spec, Z.lor_spec, Z.land_spec, !Z.testbit_ones_nonneg by lia.
  destruct (Z.ltb_spec i 5) as [Hi5|Hi5]; [|now rewrite !andb_false_r].
  rewrite Z.shiftl_spec_low by lia. replace (i <? 8) with true by lia. now rewrite !andb_true_r, orb_false_r.
Qed.

Definition nested_geom (sc cnt p : Z) : geom := Geom p (UNIT * class_units sc) cnt sc 0.

Lemma nested_geom_ok sc cnt p :
  0 <= sc < 48 -> 2 <= cnt <= 32 -> UNIT * class_units sc * cnt + UNIT <= 2048 -> 0 < p -> p mod 16 = 0 ->
  p + UNIT + UNIT * class_units sc * cnt <= 2 ^ 47 -> geom_ok (nested_geom sc cnt p).
Proof.
  intros Hs Hc Hm Hp Hp16 He. pose proof (class_units_range sc Hs) as Hu. unfold UNIT in *.
  split; cbn [gbase gcnt gsc gpages gstride nested_geom].
  - lia.
  - now left.
  - auto.
  - unfold UNIT. split; [lia|]. rewrite Z.mul_comm. apply Z_mod_mult.
  - unfold start, UNIT. cbn [gbase gcnt gstride nested_geom]. unfold UNIT. lia.
  - lia.
  - intros Hn. now destruct Hn.
  - intros [_ Hn]. now destruct Hn.
  - intros _. unfold UNIT. split; [reflexivity|lia].
  - intros [_ Hn]. now destruct Hn.
Qed.

(** The bytes of a slot that becomes a group. *)
Lemma slot_bytes G s g A i m' b :
  heap_inv G s -> groups (lay G) !! g = Some A -> slotted A i -> cont A i = Taken ->
  (forall b, pin (geo A) i < b < pin (geo A) (i + 1) \/ m' b = bytes s b \/ m' b = 0 /\ b = pin (geo A) (i + 1)) ->
  own (lay G) b <> Some (OSlot g i) -> m' b = bytes s b.
Proof.
  intros HI HA Hi Hc Hm Ho. pose proof (hi_layout _ _ _ HI g A HA) as HK. destruct (Hm b) as [Hb|[Hb|[Hb ->]]].
  - exfalso. apply Ho. destruct (Z.lt_ge_cases b (start (geo A) i)).
    + now apply (gk_front _ _ _ HK).
    + apply (gk_body _ _ _ HK); [assumption|now rewrite Hc|lia].
  - assumption.
  - rewrite Hb. symmetry. apply (pin_zero _ (hi_layout _ _ _ HI) (bytes s) g A (i + 1)); [apply (hi_mem _ _ _ HI)|assumption|unfold slotted in Hi; lia].
Qed.

Lemma slot_group_ok alloc G s sc usage cnt req m lb :
  (forall j, sc < j < 48 -> serves alloc j) ->
  heap_inv G s -> limbo G = m :: lb -> groups (lay G) !! m = None -> 0 <= sc < 48 ->
  0 <= req -> req + IB <= UNIT * class_units sc -> cnt = group_cnt sc usage -> UNIT * class_units sc * cnt + UNIT <= PAGESIZE / 2 ->
  wp (slot_group alloc m sc cnt) s (raised_or_none sc req G lb s m).
Proof.
  intros Halloc HI El Hn Hs Hr0 Hreq Ecnt Hsmall. change (PAGESIZE / 2) with 2048 in Hsmall.
  destruct (group_cnt_ok sc usage Hs) as (Hc & _). rewrite <- Ecnt in Hc. pose proof (class_units_range sc Hs) as Hu.
  destruct (nest_class sc cnt Hs ltac:(lia) Hsmall) as (N1 & N2 & N3 & N4). unfold slot_group.
  set (size := UNIT * class_units sc) in *. set (rq := UNIT + cnt * size - IB) in *. set (j := size_to_class rq) in *.
  wp_step. eapply wp_mono; [apply (Halloc j N2 G s rq HI N1 N3)|]. intros idx s1 (G1 & HI1 & HE1 & Hserved).
  assert (HE1' : evolve (sc + 1) G s G1 s1) by (apply (evolve_le j); [lia|assumption]).
  assert (El1 : limbo G1 = m :: lb) by (rewrite (ev_limbo _ _ _ _ _ HE1); exact El).
  assert (Hm1 : In m (limbo G1)) by (rewrite El1; now left).
  destruct (limbo_idle bootstrap G1 s1 m HI1 Hm1) as ((x & Hx) & _ & _ & Hm0 & _).
  assert (Hn1 : groups (lay G1) !! m = None) by (apply (ev_none _ _ _ _ _ HE1); [rewrite El; now left|assumption]).
  destruct (Z.ltb_spec idx 0) as [Hidx|Hidx].
  { wp_step. eapply wp_mono; [apply (free_held G s m lb sc G1 s1); assumption|]. intros u s2 HG. wp_step. left. auto. }
  destruct Hserved as [Hserved|(g & A & _ & ((t & EQ) & HA & Hi & Hcont) & Hroom & _)]; [lia|].
  pose proof (hi_layout _ _ _ HI1 g A HA) as HK. pose proof (gk_geom _ _ _ HK) as HG. pose proof (hi_lists _ _ _ HI1) as HL1.
  assert (Hgc : gsc (geo A) = j) by (apply (qs_class G1 _ _ _ g A j HL1); [lia|rewrite EQ; now left|assumption]).
  destruct (not_single G1 s1 g A HI1 HA) as [Hns Hstr]; [lia|rewrite Hgc; assumption|]. rewrite Hgc in Hstr.
  destruct (group_meta bootstrap G1 s1 g A HI1 HA) as (xg & Hxg & HD & HMk & _).
  assert (Hgm : g <> m) by congruence. pose proof (mo_wf _ _ (hi_mem _ _ _ HI1)) as Hwf.
  assert (Hpin : bytes s1 (pin (geo A) idx) = 0)
    by (apply (pin_zero _ (hi_layout _ _ _ HI1) (bytes s1) g A); [apply (hi_mem _ _ _ HI1)|assumption|unfold slotted in Hi; lia]).
  (* the frame of the slot *)
  wp_step. apply (wp_get_head _ g); [cbn; rewrite (lo_head _ _ _ _ HL1 j) by lia; now rewrite EQ|]. wp_step. wp_step.
  wp_step. apply (wp_enframe s1 g xg (geo A) idx); try assumption.
  { unfold fits. rewrite Hstr, Hgc. unfold UNIT, IB in *. split; [pose proof (class_units_range j ltac:(lia)); lia|]. split; [lia|]. intros _. now left. }
  intros m1 p Hwf1 Hps Hpe Hh1 Hz1 _ Hex Ho1 _. assert (Ep : p = start (geo A) idx) by (apply Hex; rewrite Hstr; reflexivity). clear Hex.
  destruct (go_stride _ HG) as [Hst16 Hstm]. destruct (go_base _ HG) as [Hb0 _]. pose proof (go_end _ HG) as Hend47.
  pose proof (start_aligned (geo A) idx HG) as Hal. pose proof (class_units_range j ltac:(lia)) as Huj.
  assert (Hpos : 0 < p /\ p + gstride (geo A) <= 2 ^ 47) by (rewrite Ep; unfold slotted, start, UNIT in *; nia).
  assert (Hend : pin (geo A) (idx + 1) = p + UNIT * class_units j - IB) by (rewrite pin_start, Hstr, Ep; reflexivity).
  assert (Hcap : UNIT + cnt * size <= UNIT * class_units j) by (unfold rq, IB in N3; lia).
  assert (Hsz : 16 <= size) by (unfold size, UNIT; lia). set (C := nested_geom sc cnt p). assert (HC : geom_ok C).
  { apply nested_geom_ok; try assumption; try lia. rewrite Ep. exact Hal. }
  (* its header *)
  wp_step. apply (wp_update m _ x); [exact Hx|]. do 4 wp_step. cbn [bytes with_metas with_bytes].
  set (v := u8 (Z.lor (Z.land (m1 (p - 3)) 31) (Z.shiftl 6 5))). set (m2 := m1<{p - 3 := v}>).
  assert (Hwf2 : wf_mem m2) by (apply mset_wf; [assumption|apply u8_range]).
  wp_step. apply wp_clear_ends; [exact Hwf2|]. cbn [bytes with_bytes]. intros m3 Hwf3 Hz3 Ho3.
  rewrite Z2Nat.id in * by lia. rewrite Z.add_0_l in *.
  set (s3 := with_metas (<[m := with_maplen 0 x]> (metas s1)) (with_bytes m3 s1)).
  change (with_bytes m3 _) with s3.
  assert (Hpin_i : pin (geo A) idx = p - 4) by (rewrite Ep; unfold pin, IB; lia).
  assert (Hb3 : forall b, pin (geo A) idx < b < pin (geo A) (idx + 1) \/ m3 b = bytes s1 b \/ m3 b = 0 /\ b = pin (geo A) (idx + 1)).
  { intros b. destruct (Z.lt_ge_cases (pin (geo A) idx) b) as [Hb1|Hb1]; [destruct (Z.lt_ge_cases b (pin (geo A) (idx + 1))) as [Hb2|Hb2]; [auto|]|];
      right; (destruct (Ho3 b) as [E|[E (k & Hk & Ek)]]; [left; rewrite E; unfold m2; rewrite mset_ne by lia; apply Ho1; lia|]).
    - right. split; [assumption|]. unfold UNIT, IB in *. nia.
    - exfalso. unfold UNIT, IB in *. nia. }
  assert (HI3 : heap_inv G1 s3).
  { apply (inv_limbo_meta G1 (with_bytes m3 s1) m x); try assumption; [|split; reflexivity].
    apply (inv_taken_bytes G1 s1 m3 g A idx); try assumption. intros b. now apply (slot_bytes G1 s1 g A idx). }
  change sc with (gsc C) at 1. change cnt with (gcnt C) at 1. change p with (gbase C) at 1.
  wp_step. apply (wp_open_group G1 s3 m (with_maplen 0 x) C (gcnt C - 1)); try assumption.
  { cbn. apply lookup_insert_eq. }
  { pose proof (hi_env _ _ _ HI1) as HE. destruct (eo_known _ _ _ _ _ _ _ HE m) as (Ho & _); [eexists; exact Hx|].
    pose proof (eo_range _ _ _ _ _ _ _ HE m Ho). lia. }
  { cbn. lia. }
  intros s4 m5 Hwf5 Hl8 Hact Hext Eb Ek Em HI4. wp_step. right. split; [reflexivity|].
  exists G1, C, (gcnt C - 1), (Some (g, idx)), (pin (geo A) (idx + 1)).
  assert (Hb5 : forall b, pin (geo A) idx < b < pin (geo A) (idx + 1) \/ m5 b = bytes s4 b \/ m5 b = 0 /\ b = pin (geo A) (idx + 1)).
  { intros b. destruct (Z.le_gt_cases (gbase C) b) as [Hb1|Hb1]; [destruct (Z.lt_ge_cases b (gbase C + 9)) as [Hb2|Hb2]|].
    - left. cbn [gbase C nested_geom] in *. unfold UNIT, IB in *. nia.
    - right. left. rewrite Hext by lia. now rewrite Eb.
    - right. left. rewrite Hext by lia. now rewrite Eb. }
  assert (Ho5 : forall b, own (lay G1) b <> Some (OSlot g idx) -> m5 b = bytes s4 b).
  { intros b Hb. exact (slot_bytes G1 s4 g A idx m5 b HI4 HA Hi Hcont Hb5 Hb). }
  assert (Ho1' : forall b, own (lay G1) b <> Some (OSlot g idx) -> m5 b = bytes s1 b).
  { intros b Hb. rewrite (Ho5 b Hb), Eb. exact (slot_bytes G1 s1 g A idx m3 b HI1 HA Hi Hcont Hb3 Hb). }
  split; cbn [bytes with_bytes metas kern].
  - now apply (inv_taken_bytes G1 s4 m5 g A idx).
  - apply (evolve_trans _ _ _ G1 s1); [assumption|]. split; try reflexivity; [now intros q n| |auto].
    intros q n b (h & B & i & HB & Hi' & Hc') Hb. apply Ho1'. rewrite (block_own (lay G1) (hi_layout _ _ _ HI1) h B i q n b HB Hi' Hc' Hb).
    intros [= -> ->]. congruence.
  - assumption.
  - eexists. split; [exact Em|reflexivity].
  - reflexivity.
  - exact Hreq.
  - apply new_group_fresh; [assumption|cbn; lia| |cbn; lia|].
    + rewrite Hend. unfold pin, start, IB, UNIT in *. cbn [gbase gcnt gstride C nested_geom]. fold size. unfold UNIT in *. lia.
    + intros _. split; [cbn; lia|]. cbn. lia.
  - auto.
  - intros i Hi'. cbn [gcnt C nested_geom] in Hi'. rewrite Hext.
    + change (bytes s3) with m3. replace (pin C i) with (p + UNIT + i * size - 4); [apply Hz3; lia|].
      unfold pin, start, UNIT, IB. cbn [gbase gstride C nested_geom]. fold size. lia.
    + assert (0 <= size * i) by (apply Z.mul_nonneg_nonneg; lia). unfold pin, start, UNIT, IB. cbn [gbase gstride C nested_geom].
      unfold UNIT. change (16 * class_units sc) with size. lia.
  - split; [reflexivity|]. exists A. split; [assumption|]. split; [assumption|]. split; [assumption|]. split; [exact Ep|]. split; [reflexivity|].
    split; [cbn; lia|]. cbn [bytes with_bytes]. rewrite <- Ep.
    assert (Hlow : forall b, p - 4 <= b < p -> m5 b = m2 b).
    { intros b Hb. rewrite Hext by (cbn; lia). change (bytes s3) with m3.
      destruct (Ho3 b) as [E|[E (k & Hk & Ek')]]; [exact E|]. exfalso. assert (0 <= k * size) by (apply Z.mul_nonneg_nonneg; lia). unfold UNIT in Ek'. lia. }
    apply (hdr_enc_small m1); try assumption.
    + rewrite Hlow by lia. unfold m2. rewrite mset_ne by lia. exact Hz1.
    + rewrite Hlow by lia. unfold m2. rewrite mset_eq. apply tag_index. apply Hwf1.
    + intros b Hb. rewrite Hlow by lia. apply mset_ne. lia.
  - cbn. intros Hlt. fold size in Hlt. lia.
Qed.

(** ** alloc_group and alloc_slot *)

Definition unheld (lb : list Z) (G : ghost) : ghost := Ghost (lay G) (qs G) (fl G) lb.

Lemma quiet_evolve sc G s o F lb s' :
  heap_inv G s -> quiet (lay G) s (Layout (groups (lay G)) o) s' -> limbo G = lb ->
  evolve sc G s (Ghost (Layout (groups (lay G)) o) (qs G) F lb) s'.
Proof.
  intros HI Hq <-. split; try reflexivity; [now intros p n| |auto].
  intros p n b (g & A & i & HA & Hi & Hc) Hb. apply (Hq b). apply (eo_mapped _ _ _ _ _ _ _ (hi_env _ _ _ HI) b (OSlot g i)).
  exact (block_own (lay G) (hi_layout _ _ _ HI) g A i p n b HA Hi Hc Hb).
Qed.

Definition grown (sc req : Z) (G : ghost) s (r : Z) s' : Prop :=
  (r = 0 /\ exists G', heap_inv G' s' /\ evolve (sc + 1) G s G' s') \/
  (r <> 0 /\ exists G1 s1 G' C a u t, limbo G1 = r :: limbo G /\ evolve (sc + 1) G s (unheld (limbo G) G1) s1 /\
     raised sc req G1 s1 r G' s' C a u t).

Lemma alloc_group_ok alloc G s sc req :
  (forall j, sc < j < 48 -> serves alloc j) -> heap_inv G s -> 0 <= sc < 48 -> 0 <= req -> req + IB <= UNIT * class_units sc ->
  wp (alloc_group bootstrap random_secret alloc sc req) s (grown sc req G s).
Proof.
  intros Halloc HI Hs Hr0 Hreq. unfold alloc_group. wp_step. eapply wp_mono; [now apply (inv_alloc_meta bootstrap random_secret G s)|].
  cbv beta zeta. intros m s1 (o & F & Hq & Hc1 & Ha1 & H0' & H1'). destruct (Z.eqb_spec m 0) as [->|Hm].
  { wp_step. left. split; [reflexivity|]. eexists. split; [now apply H0'|]. now apply quiet_evolve. }
  destruct (H1' Hm) as [Hn HI1]. clear H0' H1'. set (G1 := Ghost (Layout (groups (lay G)) o) (qs G) F (m :: limbo G)) in *.
  assert (HE1 : evolve (sc + 1) G s (unheld (limbo G) G1) s1) by exact (quiet_evolve (sc + 1) G s o F (limbo G) s1 HI Hq eq_refl).
  wp_step. apply (get_usage_counting bootstrap sc Hs G1 s1 _ HI1). intros usage cn HI2.
  assert (HE2 : evolve (sc + 1) G s (unheld (limbo G) G1) (with_cnts cn s1)) by now apply (evolve_bytes _ _ _ _ s1).
  apply (wp_mono _ _ (raised_or_none sc req G1 (limbo G) (with_cnts cn s1) m)).
  - destruct (Z.ltb_spec (PAGESIZE / 2) (UNIT * class_units sc * group_cnt sc usage + UNIT)).
    + now apply map_group_ok.
    + now apply (slot_group_ok alloc G1 _ sc usage).
  - intros r s' [(-> & G' & HI' & HE')|(-> & G' & C & a & u & t & HR)].
    + left. split; [reflexivity|]. exists G'. split; [assumption|]. exact (evolve_trans _ _ _ _ _ _ _ HE2 HE').
    + right. split; [assumption|]. exists G1, (with_cnts cn s1), G', C, a, u, t. auto.
Qed.

(** The only group of a list that was empty. *)
Lemma serve_new G s sc req G1 s1 m G' s' C a u t :
  0 <= sc < 48 -> qs G sc = [] ->
  limbo G1 = m :: limbo G -> evolve (sc + 1) G s (unheld (limbo G) G1) s1 -> raised sc req G1 s1 m G' s' C a u t ->
  wp (let! x := deref m in update m (with_avail (u32 (avail_mask x - 1))) ;; queue (Active sc) m ;; ret 0) s' (served sc req G s).
Proof.
  intros Hs EQ El HE1 HR. pose proof HR as [HI' HE' Hn' (x & Hx & Hml) Hsc Hroom HF _ _ _ Hz].
  assert (El' : limbo G' = m :: limbo G) by (rewrite (ev_limbo _ _ _ _ _ HE'); exact El).
  wp_step. apply (wp_deref m _ _ _ Hx). wp_step. apply (wp_update m _ _ _ _ Hx).
  destruct (adopt sc req G1 s1 m (limbo G) G' s' C a u t x HR El Hx Hml) as (L & HI2 & HL & HB & HN).
  set (s2 := with_metas _ s') in *. change (with_metas _ s') with s2.
  assert (EQ' : qs G' sc = []).
  { rewrite (ev_qs _ _ _ _ _ HE' sc) by lia. rewrite <- EQ. exact (ev_qs _ _ _ _ _ HE1 sc ltac:(lia)). }
  wp_step. apply (inv_queue_first bootstrap (set_lay L G') s2 (limbo G) sc m (new_group C a u t)
    (with_avail (u32 (low_bits a - 1)) (group_meta_of x C a))); try assumption; [apply lookup_insert_eq|].
  intros ms Hsame Hmm s3 HI3. wp_step. eexists. split; [exact HI3|].
  assert (Hmlb : ~ In m (limbo G)).
  { pose proof (lo_limbo _ _ _ _ (hi_lists _ _ _ HI')) as Hnd. rewrite El' in Hnd. apply NoDup_cons in Hnd as [Hnd _].
    now rewrite <- list_elem_of_In. }
  split.
  - destruct HE1 as [E1 E2 E3 E4 E5], HE' as [F1 F2 F3 F4 F5]. cbn in *. split; cbn.
    + intros p n. rewrite (HB p n), (F1 p n). apply E1.
    + intros p n b Hp Hb. transitivity (bytes s' b); [reflexivity|]. rewrite (F2 p n b), (E2 p n b); auto. now apply E1.
    + reflexivity.
    + intros k Hk. rewrite set_q_ne, F4, E4 by lia. reflexivity.
    + intros k Hk Hkn. apply HN; [intros ->; contradiction|]. apply F5; [rewrite El; now right|]. now apply E5.
  - right. exists m, (new_group C a u t). split; [lia|]. split; [|split; [exact Hroom|]].
    + split; [exists []; cbn; apply set_q_eq|]. split; [exact HL|]. split; [|reflexivity].
      unfold slotted. cbn. pose proof (go_cnt _ (fr_geom _ HF)) as Hc. cbn in Hc. lia.
    + cbn [geo new_group]. rewrite Z.add_0_l. exact Hz.
Qed.

Lemma alloc_slot_loop_ok fuel sc : 0 <= sc < 48 -> 48 - sc < Z.of_nat fuel -> serves (alloc_slot_loop bootstrap random_secret fuel) sc.
Proof.
  revert sc; induction fuel as [|fuel IH]; intros sc Hs Hf G s req HI Hr0 Hreq; [lia|]. cbn [alloc_slot_loop].
  wp_step. eapply wp_mono; [now apply (try_avail_ok bootstrap G s sc)|].
  intros r s1 (G1 & HI1 & HE1 & [[-> EQ]|(i & g & A & -> & Hi & Hgot & Hro)]).
  - change (negb (0 =? 0)) with false. cbv iota. wp_step.
    eapply wp_mono; [apply (alloc_group_ok (alloc_slot_loop bootstrap random_secret fuel) G1 s1 sc req); try assumption; intros j Hj; apply IH; lia|].
    intros m s2 [(-> & G2 & HI2 & HE2)|(Hm & G2 & s2' & G3 & C & a & u & t & El & HE2 & HR)].
    + change (0 =? 0) with true. cbv iota. wp_step. exists G2. split; [assumption|]. split; [|left; lia].
      apply (evolve_trans _ _ _ _ _ _ _ HE1). apply (evolve_le (sc + 1)); [lia|assumption].
    + replace (m =? 0) with false by lia. eapply wp_mono; [apply (serve_new G1 s1 sc req G2 s2' m G3 s2 C a u t); auto|].
      intros idx s3 (G4 & HI4 & HE4 & Hor). exists G4. split; [assumption|]. split; [|assumption].
      exact (evolve_trans _ _ _ _ _ _ _ HE1 HE4).
  - replace (negb (2 ^ i =? 0)) with true by (assert (0 < 2 ^ i) by lia; lia). wp_step. rewrite ctz_pow by lia.
    exists G1. split; [assumption|]. split; [assumption|]. right. exists g, A. split; [lia|]. split; [assumption|].
    destruct Hgot as ((t & EQ) & HA & Hsl & Hc). destruct Hro as [Hr1 Hr2].
    assert (Hgs : gsc (geo A) = sc) by (apply (qs_class G1 _ _ _ g A sc (hi_lists _ _ _ HI1) Hs); [rewrite EQ; now left|assumption]).
    rewrite Hgs in Hr2. split; lia.
Qed.

Lemma alloc_slot_ok sc : 0 <= sc < 48 -> serves (alloc_slot bootstrap random_secret) sc.
Proof. intros Hs. apply alloc_slot_loop_ok; [assumption|]. change (Z.of_nat 49) with 49. lia. Qed.
End Grow.
