(* ===== verification/HeapMalloc.v ===== *)
(** * HeapMalloc: malloc

    What a call of malloc promises ([malloc_spec]): it returns null, or a new block
    of the size asked for that overlaps no other, and it changes no block. *)

From stdpp Require Import gmap list.
From Stdlib Require Import ZArith Lia ZifyBool.
From S2P Require Import Prelude Malloc Slots Frames Rings Layout Heap HeapOps HeapTake HeapGrow.
Open Scope Z_scope.
Open Scope heap_scope.

Section Malloc.
Context {K : Type} `{KernelLaws K}.
Variables bootstrap random_secret : Z.
Implicit Types s : heap K.
Notation heap_inv := (@heap_inv K _ _ bootstrap).

(** ** What a slot holds *)

Lemma set_content G s g A i c m' :
  heap_inv G s -> groups (lay G) !! g = Some A -> slotted A i -> is_nest (cont A i) = false -> is_nest c = false ->
  is_free (cont A i) = false -> is_free c = false -> (forall p n, c = Block p n -> block_in (geo A) i p n) ->
  wf_mem m' -> (forall b, own (lay G) b <> Some (OSlot g i) -> m' b = bytes s b) -> slot_mem m' (geo A) i c ->
  heap_inv (set_lay (put_group (lay G) g (set_cont A i c)) G) (with_bytes m' s).
Proof.
  intros HI HA Hi Hn Hn' Hf Hf' Hb Hwf Hext Hs. destruct (group_meta bootstrap G s g A HI HA) as (x & Hx & HD & HK & HG & HM & _).
  assert (Es : with_bytes m' s = with_metas (<[g := x]> (metas s)) (with_bytes m' s)) by (rewrite insert_id by assumption; reflexivity).
  rewrite Es. apply (inv_group bootstrap G s g A _ x x); try assumption; try reflexivity.
  - split; reflexivity.
  - apply set_cont_ok; try assumption; [apply HI|]. split; [|split; [|assumption]].
    + intros Ha. rewrite (gk_inactive _ _ _ HG i Hi Ha) in Hf. discriminate.
    + intros ->. discriminate.
  - apply (mem_write_slot _ (bytes s)); try assumption; apply HI.
  - apply masks_set; [congruence|assumption].
  - intros sc Hs' Hin. destruct (co_tail _ _ _ _ _ (lo_class _ _ _ _ (hi_lists _ _ _ HI) sc Hs') g Hin) as (y & Hy & E1 & E2).
    rewrite Hx in Hy. injection Hy as <-. auto.
  - intros Hc Hq Hl. apply no_free_set; [assumption|]. exact (co_out _ _ _ _ _ (lo_class _ _ _ _ (hi_lists _ _ _ HI) _ Hc) g A HA eq_refl Hq Hl).
Qed.

(** A block comes into a slot that is taken. *)
Lemma blocks_new G s g A i p n :
  heap_inv G s -> groups (lay G) !! g = Some A -> slotted A i -> is_block (cont A i) = false -> is_nest (cont A i) = false ->
  block_in (geo A) i p n ->
  (forall q k, blocks (put_group (lay G) g (set_cont A i (Block p n))) q k <-> blocks (lay G) q k \/ q = p /\ k = n) /\
  (forall k, ~ blocks (lay G) p k).
Proof.
  intros HI HA Hi Hb Hn Hin. pose proof (hi_layout _ _ _ HI g A HA) as HG. split.
  - intros q k. split.
    + intros (h & B & j & HB & Hj & Hc). cbn in HB. rewrite lookup_insert in HB. case_decide as E.
      * injection HB as <-. subst h. cbn in Hc. destruct (Z.eqb_spec j i) as [Ej|Ej]; [injection Hc as <- <-; now right|].
        left. exists g, A, j. auto.
      * left. exists h, B, j. auto.
    + intros [(h & B & j & HB & Hj & Hc)|[-> ->]].
      * destruct (Z.eq_dec h g) as [->|].
        -- rewrite HA in HB. injection HB as <-. exists g, (set_cont A i (Block p n)), j. cbn. rewrite lookup_insert_eq.
           destruct (Z.eqb_spec j i) as [->|]; [rewrite Hc in Hb; discriminate|auto].
        -- exists h, B, j. cbn. rewrite lookup_insert_ne by congruence. auto.
      * exists g, (set_cont A i (Block p n)), i. cbn. rewrite lookup_insert_eq, Z.eqb_refl. auto.
  - intros k (h & B & j & HB & Hj & Hc). pose proof (block_start (lay G) (hi_layout _ _ _ HI) h B j p k HB Hj Hc) as Ho.
    destruct Hin as (H1' & H2' & H3' & H4').
    assert (Ho' : own (lay G) p = Some (OSlot g i)).
    { apply (gk_body _ _ _ HG); [assumption|assumption|]. split; [lia|].
      pose proof (start_aligned (geo A) (i + 1) (gk_geom _ _ _ HG)). unfold pin, IB in *. zlia. }
    rewrite Ho' in Ho. injection Ho as <- <-. rewrite HA in HB. injection HB as <-. rewrite Hc in Hb. discriminate.
Qed.

(** ** The specification *)

(** The slot of a block: it is not much larger than the block, and zero when
    is_allzero says so. *)
Definition as_asked (G : ghost) s (p n : Z) : Prop :=
  forall g A i, groups (lay G) !! g = Some A -> slotted A i -> cont A i = Block p n ->
    fits (geo A) n /\
    (48 <= gsc (geo A) \/ gstride (geo A) < UNIT * class_units (gsc (geo A)) -> forall b, p <= b < p + n -> bytes s b = 0).

Definition malloc_spec (n : Z) (G : ghost) s (p : Z) s' : Prop :=
  exists G', heap_inv G' s' /\ limbo G' = limbo G /\
    (forall q k b, blocks (lay G) q k -> q <= b < q + k -> bytes s' b = bytes s b) /\
    (p = 0 /\ same_blocks (lay G) (lay G') \/
     p <> 0 /\ p mod 16 = 0 /\ (forall k, ~ blocks (lay G) p k) /\ as_asked G' s' p n /\
     forall q k, blocks (lay G') q k <-> blocks (lay G) q k \/ q = p /\ k = n).

(** A taken slot becomes the block. *)
Lemma enframe_block G0 s0 G s g A i n ctr :
  heap_inv G s -> evolve 0 G0 s0 G s -> groups (lay G) !! g = Some A -> slotted A i -> cont A i = Taken -> fits (geo A) n ->
  (48 <= gsc (geo A) \/ gstride (geo A) < UNIT * class_units (gsc (geo A)) ->
   forall b, start (geo A) i <= b < pin (geo A) (i + 1) -> bytes s b = 0) ->
  wp (enframe g i n ctr) s (malloc_spec n G0 s0).
Proof.
  intros HI HE HA Hi Hc Hfit Hz. destruct (group_meta bootstrap G s g A HI HA) as (x & Hx & HD & HK & HG & HM & _).
  pose proof (gk_geom _ _ _ HG) as Hgeo. pose proof (mo_wf _ _ (hi_mem _ _ _ HI)) as Hwf.
  apply (wp_enframe s g x (geo A) i); try assumption.
  { apply (pin_zero _ (hi_layout _ _ _ HI) (bytes s) g A); [apply (hi_mem _ _ _ HI)|assumption|unfold slotted in Hi; lia]. }
  intros m p Hwf' Hp1 Hp2 Hh Hp4 Hsz _ Ho Hcn.
  assert (Hin : block_in (geo A) i p n) by (split; [assumption|split; [apply Hfit|split; [assumption|apply Hh]]]).
  assert (Hext : forall b, own (lay G) b <> Some (OSlot g i) -> m b = bytes s b).
  { intros b. apply (slot_bytes bootstrap G s g A i); try assumption. intros c.
    destruct (Z.lt_ge_cases (pin (geo A) i) c), (Z.lt_ge_cases c (pin (geo A) (i + 1))); [now left| | |];
      right; left; apply Ho; lia. }
  destruct (blocks_new G s g A i p n HI HA Hi) as [HB1 HB2]; [now rewrite Hc|now rewrite Hc|assumption|].
  assert (HI' : heap_inv (set_lay (put_group (lay G) g (set_cont A i (Block p n))) G) (with_bytes m s)).
  { apply set_content; try assumption; try reflexivity; try (now rewrite Hc); [|split; assumption]. now intros q k [= <- <-]. }
  eexists. split; [exact HI'|]. split; [exact (ev_limbo _ _ _ _ _ HE)|]. split.
  - intros q k b Hq Hb. cbn. rewrite Hext; [exact (ev_keeps _ _ _ _ _ HE q k b Hq Hb)|].
    apply (ev_blocks _ _ _ _ _ HE) in Hq. destruct Hq as (h & B & j & HB & Hj & Hcj).
    rewrite (block_own (lay G) (hi_layout _ _ _ HI) h B j q k b HB Hj Hcj Hb). intros [= -> ->]. congruence.
  - right. pose proof (go_base _ Hgeo) as [Hb0 _]. pose proof (go_stride _ Hgeo) as [Hst _].
    assert (Hp0 : 0 < p) by (unfold slotted, start, UNIT in *; nia).
    split; [lia|]. split; [apply Hh|]. split; [|split].
    + intros k Hk. apply (HB2 k). now apply (ev_blocks _ _ _ _ _ HE).
    + intros h B j HB Hj Hcj. destruct (block_unique _ (hi_layout _ _ _ HI') p n h B j g (set_cont A i (Block p n)) i n)
        as (-> & -> & -> & _); try assumption; [cbn; apply lookup_insert_eq|cbn; now rewrite Z.eqb_refl|].
      split; [exact Hfit|]. intros Hor b Hb. cbn. rewrite Hcn by assumption. apply Hz; [exact Hor|lia].
    + intros q k. cbn [lay set_lay]. rewrite (HB1 q k). now rewrite (ev_blocks _ _ _ _ _ HE q k).
Qed.

(** Room for a request of the class, or of the class below it. *)
Lemma request_fits G s sc i g A n :
  heap_inv G s -> 0 <= sc < 48 -> got sc G s i g A -> 0 <= n -> n + IB <= gstride (geo A) ->
  (2 <= sc -> UNIT * class_units (sc - 2) < n + IB) -> fits (geo A) n.
Proof.
  intros HI Hs ((t & EQ) & HA & Hi & Hc) Hn Hroom Hlow. pose proof (gk_geom _ _ _ (hi_layout _ _ _ HI g A HA)) as HG.
  assert (Hgc : gsc (geo A) = sc) by (apply (qs_class G _ _ _ g A sc (hi_lists _ _ _ HI) Hs); [rewrite EQ; now left|assumption]).
  pose proof (class_units_range sc Hs) as Hu. unfold fits. rewrite Hgc.
  assert (Hcase : gstride (geo A) <= UNIT * class_units sc \/
    single (geo A) /\ gstride (geo A) <= UNIT * class_units sc + 4095 /\ 767 <= class_units sc).
  { destruct (Z.eq_dec (gcnt (geo A)) 1) as [E1|E1]; [destruct (Z.eq_dec (gpages (geo A)) 0) as [E2|E2]|].
    - left. destruct (go_several _ HG) as [-> _]; [intros [_ Hp]; contradiction|]. rewrite Hgc. lia.
    - assert (Hsg : single (geo A)) by (split; assumption). destruct (go_odd _ HG Hsg ltac:(lia)) as [Ho|Ho]; rewrite Hgc in Ho; [left; lia|right].
      split; [assumption|]. lia.
    - left. destruct (go_several _ HG) as [-> _]; [intros [Hp _]; contradiction|]. rewrite Hgc. lia. }
  unfold UNIT, IB in *. split; [assumption|]. split; [lia|]. intros _. destruct Hcase as [Hle|(_ & Hle & Hu2)]; [now left|right].
  assert (E36 : class_units 35 = 1023) by reflexivity. assert (Hsc : 34 <= sc).
  { destruct (Z.le_gt_cases 34 sc) as [|Hlt]; [assumption|]. exfalso. assert (E33 : class_units 33 = 682) by reflexivity.
    assert (class_units sc <= class_units 33) by (destruct (Z.eq_dec sc 33) as [->|]; [lia|]; assert (class_units sc < class_units 33) by (apply class_units_mono; lia); lia).
    lia. }
  assert (Hlo : 511 <= class_units (sc - 2)).
  { assert (E31 : class_units 31 = 511) by reflexivity. destruct (Z.eq_dec (sc - 2) 31) as [->|]; [lia|].
    assert (class_units 31 < class_units (sc - 2)) by (apply class_units_mono; lia). lia. }
  specialize (Hlow ltac:(lia)). zlia.
Qed.

(** ** A slot of a group *)

Lemma fast_slot_ok G s sc :
  heap_inv G s -> 0 <= sc < 48 ->
  wp (fast_slot (head_of (qs G sc))) s (fun idx s' => exists G', heap_inv G' s' /\ evolve 0 G s G' s' /\ qs G' = qs G /\
    (idx < 0 \/ 0 <= idx /\ exists A, got sc G' s' idx (head_of (qs G sc)) A /\ roomy (geo A))).
Proof.
  intros HI Hs. assert (Hno : exists G', heap_inv G' s /\ evolve 0 G s G' s /\ qs G' = qs G /\
    (-1 < 0 \/ 0 <= -1 /\ exists A, got sc G' s (-1) (head_of (qs G sc)) A /\ roomy (geo A))).
  { exists G. split; [assumption|]. split; [apply evolve_refl|]. split; [reflexivity|left; lia]. }
  unfold fast_slot. destruct (qs G sc) as [|g t] eqn:EQ; cbn [head_of] in *; [change (0 =? 0) with true; cbv iota; wp_step; exact Hno|].
  destruct (head_group bootstrap G s sc g t HI Hs EQ) as (A & x & HA & Hc & Hx & HD & HK & HG & HM & Hg0).
  replace (g =? 0) with false by lia. wp_step. apply (wp_deref g x _ _ Hx). pose proof (mask_range x A (gk_geom _ _ _ HG) HK) as HR.
  destruct (Z.eqb_spec (lowest (avail_mask x)) 0) as [E|E]; [wp_step; exact Hno|]. wp_step.
  apply (take_lowest_ok bootstrap G s sc g t A); try assumption; [intros Ez; apply E; now rewrite Ez|].
  intros i s' Hi Hf -> HI'. wp_step. pose proof (go_cnt _ (gk_geom _ _ _ HG)). rewrite ctz_pow by (unfold slotted in Hi; lia).
  eexists. split; [exact HI'|]. split; [|split; [reflexivity|right; split; [unfold slotted in Hi; lia|]]].
  - split; [|reflexivity|reflexivity|reflexivity|intros k _ Hk; cbn; rewrite lookup_insert_ne by congruence; assumption].
    apply (blocks_put _ g A); [assumption|reflexivity|]. intros j Hj. cbn.
    destruct (Z.eqb_spec j i) as [->|]; [right|now left]. now rewrite Hf.
  - exists (set_cont A i Taken). split; [|exact (gk_free _ _ _ HG i Hi Hf)].
    split; [exists t; exact EQ|]. split; [cbn; apply lookup_insert_eq|]. split; [exact Hi|]. cbn. now rewrite Z.eqb_refl.
Qed.

(** The class of the request or the next one. *)
Lemma coarse_class_ok G s sc (Q : Z -> heap K -> Prop) :
  heap_inv G s -> 0 <= sc < 48 ->
  (forall sc' s' , heap_inv G s' -> bytes s' = bytes s -> sc <= sc' <= sc + 1 -> sc' < 48 -> Q sc' s') ->
  wp (coarse_class sc) s Q.
Proof.
  intros HI Hs HQ. unfold coarse_class.
  wp_step. apply (wp_get_head _ (head_of (qs G sc))); [apply (lo_head _ _ _ _ (hi_lists _ _ _ HI) sc Hs)|].
  wp_step. apply (get_usage_counting bootstrap sc Hs G s _ HI). intros u cn HI1.
  destruct (_ && _) eqn:E; [|wp_step; apply HQ; try assumption; try reflexivity; lia].
  assert (Hev : sc < 32 /\ Z.lor sc 1 = sc + 1).
  { split; [lia|]. assert (E1 : Z.land sc 1 = 0) by lia. change 1 with (Z.ones 1) in E1. rewrite Z.land_ones in E1 by lia. change (2 ^ 1) with 2 in E1.
    pose proof (lor_add 1 (sc / 2) 1 ltac:(lia) ltac:(change (2 ^ 1) with 2; lia)) as HL. change (2 ^ 1) with 2 in HL.
    replace (sc / 2 * 2) with sc in HL by zlia. exact HL. }
  destruct Hev as [H32 Elor]. rewrite Elor.
  wp_step. apply (get_usage_counting bootstrap (sc + 1) ltac:(lia) G _ _ HI1). intros usage cn2 HI2.
  wp_step. apply (wp_get_head _ (head_of (qs G (sc + 1)))); [apply (lo_head _ _ _ _ (hi_lists _ _ _ HI2) (sc + 1)); lia|].
  wp_step. apply (wp_mono _ _ (fun (_ : bool) s' => s' = with_cnts cn2 (with_cnts cn s))).
  - destruct (qs G (sc + 1)) as [|g t] eqn:EQ; cbn [head_of]; [change (0 =? 0) with true; cbv iota; wp_step; reflexivity|].
    destruct (head_group bootstrap G _ (sc + 1) g t HI2 ltac:(lia) EQ) as (A & x & HA & Hc & Hx & _ & _ & _ & _ & Hg0).
    replace (g =? 0) with false by lia. wp_step. apply (wp_deref g x _ _ Hx). wp_step. reflexivity.
  - intros none s' ->. wp_step. apply HQ; [assumption|reflexivity|case_if; lia|case_if; lia].
Qed.

(** ** Large blocks *)

Lemma inv_munmap G s base len :
  heap_inv G s -> base mod 4096 = 0 -> (forall b, base <= b < base + page_up len -> own (lay G) b = None) ->
  wp (munmap base len) s (fun _ s' => heap_inv G s' /\ bytes s' = bytes s).
Proof.
  intros [I1 I2 I3 I4 I5] Hb Hno. unfold munmap, call. wp_steps.
  assert (Hk : forall r k', k_munmap base len (kern s) = (r, k') -> forall b o, own (lay G) b = Some o -> mapped k' b).
  { intros r k' E b o Ho. pose proof (eo_mapped _ _ _ _ _ _ _ I5 b o Ho). destruct r as [u|e].
    - apply (munmap_done base len (kern s) u k' Hb E). split; [assumption|]. intros Hin. rewrite (Hno b Hin) in Ho. discriminate.
    - now apply (munmap_failed base len (kern s) e k' E). }
  destruct (k_munmap base len (kern s)) as [[u|e] k'] eqn:E; wp_steps; (split; [|reflexivity]); split; cbn; try assumption;
    apply (env_ext bootstrap (lay G) _ (metas s) _ _ _ (cnts s) _ (kern s)); try assumption; try apply I5; try reflexivity;
    exact (Hk _ _ eq_refl).
Qed.

Definition big_geom (p pages : Z) : geom := Geom p (pages * 4096 - UNIT) 1 63 pages.

Lemma big_geom_ok p pages : 0 < p -> p mod 4096 = 0 -> 1 <= pages -> p + pages * 4096 <= 2 ^ 47 -> geom_ok (big_geom p pages).
Proof.
  intros Hp Hpm Hpg He. split; cbn [gbase gcnt gsc gpages gstride big_geom].
  - lia.
  - right. split; [reflexivity|]. split; [reflexivity|]. unfold own_pages. cbn. lia.
  - split; [assumption|zlia].
  - unfold UNIT. split; [lia|zlia].
  - unfold start, UNIT. cbn [gbase gstride big_geom]. unfold UNIT. lia.
  - lia.
  - intros _. split; [assumption|]. unfold start, UNIT. cbn [gbase gstride big_geom]. unfold UNIT. lia.
  - reflexivity.
  - intros Hns. destruct Hns. split; [reflexivity|]. unfold own_pages. cbn. lia.
  - lia.
Qed.

(** The only slot of the group is taken, or there is none. *)
Definition big (n : Z) (G : ghost) s (g : Z) s' : Prop :=
  exists G', heap_inv G' s' /\ evolve 0 G s G' s' /\
    (g = 0 \/ g <> 0 /\ exists A, groups (lay G') !! g = Some A /\ slotted A 0 /\ cont A 0 = Taken /\ fits (geo A) n /\
       forall b, start (geo A) 0 <= b < pin (geo A) 1 -> bytes s' b = 0).

Lemma map_alloc_ok G s n : heap_inv G s -> 0 <= n < 2 ^ 63 -> wp (map_alloc bootstrap random_secret n) s (big n G s).
Proof.
  intros HI Hn. unfold map_alloc, IB, UNIT. rewrite u64_small by lia. set (needed := n + 4 + 16).
  wp_step. apply (inv_mmap bootstrap G s needed); [assumption| |].
  { intros e k' Hk s1 HI1. wp_step. exists G. split; [assumption|]. split; [now apply (evolve_bytes _ _ _ _ s); [apply evolve_refl|]|now left]. }
  intros p k' Hl Hp Hpm Hend s1 Hnew Hold HI1. assert (HE1 : evolve 0 G s G s1).
  { split; try reflexivity; [now intros q k| |auto]. intros q k b (h & B & i & HB & Hi & Hc) Hb. apply (Hold b).
    apply (eo_mapped _ _ _ _ _ _ _ (hi_env _ _ _ HI) b (OSlot h i)). exact (block_own (lay G) (hi_layout _ _ _ HI) h B i q k b HB Hi Hc Hb). }
  wp_step. apply (step_seq_counting bootstrap G s1 _ HI1). intros _ cn HI2. set (s2 := with_cnts cn s1) in *.
  wp_step. eapply wp_mono; [now apply (inv_alloc_meta bootstrap random_secret G s2)|].
  cbv beta zeta. intros g s3 (o & F & Hq & Hc3 & Ha3 & H0' & H1').
  assert (Hreg : forall b, p <= b < p + page_up needed -> o b = None /\ mapped (kern s3) b /\ bytes s3 b = 0).
  { intros b Hb. destruct (Hnew b Hb) as (N1 & N2 & N3 & N4). destruct (Hq b N3) as (Q1 & Q2 & Q3). split; [|split; [exact Q3|]].
    - cbn in Q1. rewrite Q1. exact N1.
    - rewrite Q2. exact N4. }
  assert (HE3 : forall lb, limbo G = lb -> evolve 0 G s (Ghost (Layout (groups (lay G)) o) (qs G) F lb) s3).
  { intros lb Elb. apply (evolve_trans _ _ _ G s2); [now apply (evolve_bytes _ _ _ _ s1)|]. exact (quiet_evolve bootstrap 0 G s2 o F lb s3 HI2 Hq Elb). }
  destruct (Z.eqb_spec g 0) as [->|Hg].
  { wp_step. eapply wp_mono; [apply (inv_munmap (Ghost (Layout (groups (lay G)) o) (qs G) F (limbo G)) s3 p needed); [now apply H0'|assumption|]|].
    - intros b Hb. now apply Hreg.
    - intros r s4 [HI4 Eb]. wp_step. eexists. split; [exact HI4|]. split; [apply (evolve_bytes _ _ _ _ s3); [now apply HE3|exact Eb]|now left]. }
  destruct (H1' Hg) as [Hgn HI3]. clear H0' H1'. set (G3 := Ghost (Layout (groups (lay G)) o) (qs G) F (g :: limbo G)) in *.
  destruct (limbo_idle bootstrap G3 s3 g HI3) as ((x & Hx) & _ & _ & _ & _); [now left|].
  assert (Hg64 : 0 <= g < 256 ^ Z.of_nat 8).
  { destruct (eo_known _ _ _ _ _ _ _ (hi_env _ _ _ HI3) g) as (Ho & _); [eexists; exact Hx|].
    pose proof (eo_range _ _ _ _ _ _ _ (hi_env _ _ _ HI3) g Ho). change (256 ^ Z.of_nat 8) with (2 ^ 64). lia. }
  set (pages := (needed + 4095) / 4096). assert (Hpages : page_up needed = pages * 4096 /\ 1 <= pages /\ needed <= pages * 4096 /\ p + pages * 4096 <= 2 ^ 47).
  { destruct (page_up_ok needed ltac:(lia)) as [P1 P2]. unfold page_up, PAGESIZE in *. rewrite u64_small in * by lia.
    replace (needed + 4096 - 1) with (needed + 4095) in * by ring. fold pages in P1, P2 |- *. split; [reflexivity|]. split; [unfold pages in *; zlia|]. split; [lia|]. zlia. }
  assert (Hpg4 : pages * 4096 <= needed + 4095) by (unfold pages; zlia).
  destruct Hpages as (Epu & Hpg1 & Hpg2 & Hpg3). rewrite Epu in *.
  rewrite u64_small by lia. fold pages.
  set (C := big_geom p pages). pose proof (big_geom_ok p pages Hp Hpm Hpg1 Hpg3 : geom_ok C) as HC.
  wp_step. apply (wp_update g _ x _ _ Hx). wp_step. apply (wp_update g _ (with_group p 0 0 0 1 63 x)); [apply lookup_insert_eq|].
  wp_step. wp_step. change (metas (with_metas ?a ?b)) with a. rewrite insert_insert_eq. cbn [bytes with_metas with_bytes].
  set (x' := with_maplen pages (with_group p 0 0 0 1 63 x)). set (m' := store 8 (bytes s3) p g).
  set (s4 := with_metas (<[g := x']> (metas s3)) (with_bytes m' s3)).
  change (with_bytes m' _) with s4.
  assert (Hext : forall b o', o b = Some o' -> m' b = bytes s3 b).
  { intros b o' Hb. apply store_out. intros Hin. destruct (Hreg b ltac:(lia)) as [Hno _]. congruence. }
  assert (HI4 : heap_inv G3 s4).
  { apply (inv_limbo_meta bootstrap G3 (with_bytes m' s3) g x); try assumption; [|now left|split; reflexivity].
    apply inv_free_bytes; try assumption. apply store_wf. apply (hi_mem _ _ _ HI3). }
  assert (Hm0 : forall b, p + 8 <= b < p + pages * 4096 -> m' b = 0).
  { intros b Hb. unfold m'. rewrite store_out by lia. apply (Hreg b). lia. }
  set (A := new_group C 0 None (p + pages * 4096)).
  assert (HI5 : heap_inv (set_lay (add_mapped (lay G3) g A) G3) s4).
  { apply (inv_add_mapped bootstrap G3 s4 g A x'); try assumption; try reflexivity.
    - now left.
    - apply lookup_insert_eq.
    - unfold describes. cbn. auto.
    - assert (Hbz : bits_below 1 0) by (split; [lia|intros; apply Z.bits_0]). split; [exact Hbz|]. split; [exact Hbz|]. intros i Hi. unfold slotted in Hi. cbn in Hi.
      replace i with 0 by lia. split; [reflexivity|discriminate].
    - apply new_group_fresh; try assumption; [cbn; lia|unfold pin, start, UNIT, IB; cbn; unfold UNIT; lia|cbn; lia|cbn; lia].
    - unfold own_pages. cbn. lia.
    - intros b Hb. unfold in_region in Hb. cbn in Hb. destruct (Hreg b ltac:(lia)) as (R1 & R2 & _). auto.
    - split; cbn [geo A new_group gbase C big_geom bytes s4 with_metas with_bytes].
      + apply load_store. exact Hg64.
      + rewrite Hm0 by lia. reflexivity.
      + intros i _. cbn. destruct (i =? 0); exact I.
    - intros i Hi. cbn in Hi. cbn [bytes s4 with_metas with_bytes]. apply Hm0. unfold pin, start, UNIT, IB. cbn. unfold UNIT. nia. }
  wp_step. apply (count_mmap_counting bootstrap _ s4 _ HI5). intros _ cn' HI6. wp_step.
  assert (HI7 : heap_inv (Ghost (add_mapped (lay G3) g A) (qs G) F (limbo G)) (with_cnts cn' s4)).
  { refine (inv_drop bootstrap _ _ g (limbo G) HI6 eq_refl _). intros B HB. cbn in HB. rewrite lookup_insert_eq in HB. injection HB as <-.
    intros i Hi. unfold slotted in Hi. cbn in Hi. replace i with 0 by lia. reflexivity. }
  eexists. split; [exact HI7|]. split.
  - destruct (HE3 (limbo G) eq_refl) as [E1 E2 E3 E4 E5]. split; cbn.
    + intros q k. rewrite <- (E1 q k). split; intros (h & B & j & HB & Hj & Hcj).
      * cbn in HB. rewrite lookup_insert in HB. case_decide as E; [injection HB as <-; cbn in Hcj; destruct (j =? 0); discriminate|]. now exists h, B, j.
      * exists h, B, j. cbn. rewrite lookup_insert_ne by (cbn in HB; congruence). auto.
    + intros q k b Hb Hin. rewrite <- (E2 q k b Hb Hin). destruct (proj2 (E1 q k) Hb) as (h & B & j & HB & Hj & Hcj).
      apply (Hext b (OSlot h j)). exact (block_own _ (hi_layout _ _ _ HI3) h B j q k b HB Hj Hcj Hin).
    + reflexivity.
    + exact E4.
    + intros k Hk Hkn. rewrite lookup_insert_ne; [assumption|]. intros <-.
      pose proof (lo_limbo _ _ _ _ (hi_lists _ _ _ HI3)) as Hnd. cbn in Hnd. apply NoDup_cons in Hnd as [Hnd _]. apply Hnd. now apply list_elem_of_In.
  - right. split; [assumption|]. exists A. split; [cbn; apply lookup_insert_eq|]. split; [unfold slotted; cbn; lia|]. split; [reflexivity|].
    cbn [geo A new_group]. split.
    + unfold fits. cbn [gstride gsc C big_geom]. unfold UNIT, IB in *. split; [lia|]. assert (needed = n + 20) by (unfold needed; lia). clearbody needed pages. split; lia.
    + intros b Hb. cbn. apply Hm0. unfold start, pin, UNIT, IB in Hb. cbn in Hb. unfold start, UNIT in Hb. cbn in Hb. unfold UNIT in Hb. lia.
Qed.

(** ** malloc *)

Lemma spec_null n G s G' s' : heap_inv G' s' -> evolve 0 G s G' s' -> malloc_spec n G s 0 s'.
Proof.
  intros HI HE. exists G'. split; [assumption|]. split; [apply HE|]. split; [apply HE|]. left. split; [reflexivity|apply HE].
Qed.

(** The slot for a request, and the group it is in; no group is failure. *)
Definition placed (n : Z) (G : ghost) s (r : Z * Z) s' : Prop :=
  exists G', heap_inv G' s' /\ evolve 0 G s G' s' /\
    (fst r = 0 \/ fst r <> 0 /\ exists A, groups (lay G') !! fst r = Some A /\ slotted A (snd r) /\ cont A (snd r) = Taken /\
       fits (geo A) n /\
       (48 <= gsc (geo A) \/ gstride (geo A) < UNIT * class_units (gsc (geo A)) ->
        forall b, start (geo A) (snd r) <= b < pin (geo A) (snd r + 1) -> bytes s' b = 0)).

Lemma got_placed G s G' s' sc n g idx A :
  heap_inv G' s' -> evolve 0 G s G' s' -> 0 <= sc < 48 -> got sc G' s' idx g A -> 0 <= n -> n + IB <= gstride (geo A) ->
  (2 <= sc -> UNIT * class_units (sc - 2) < n + IB) ->
  (gstride (geo A) < UNIT * class_units sc -> forall b, start (geo A) idx <= b < pin (geo A) (idx + 1) -> bytes s' b = 0) ->
  placed n G s (g, idx) s'.
Proof.
  intros HI HE Hs Hg Hn Hroom Hlow Hz. pose proof (request_fits G' s' sc idx g A n HI Hs Hg Hn Hroom Hlow) as Hfit.
  destruct Hg as ((t & EQ) & HA & Hi & Hc). exists G'. split; [assumption|]. split; [assumption|]. right. cbn.
  destruct (group_meta bootstrap G' s' g A HI HA) as (x & _ & _ & _ & _ & _ & _ & _ & _ & Hg0). split; [assumption|].
  exists A. split; [assumption|]. split; [assumption|]. split; [assumption|]. split; [assumption|].
  assert (Hgc : gsc (geo A) = sc) by (apply (qs_class G' _ _ _ g A sc (hi_lists _ _ _ HI) Hs); [rewrite EQ; now left|assumption]).
  rewrite Hgc. intros [H48|Hlt]; [lia|]. now apply Hz.
Qed.

Lemma small_placed G s n :
  heap_inv G s -> 0 <= n < MMAP_THRESHOLD ->
  wp (let! sc := coarse_class (size_to_class n) in let! g := get_head (Active sc) in let! idx := fast_slot g in
      if 0 <=? idx then ret (g, idx)
      else let! idx := alloc_slot bootstrap random_secret sc n in
           if idx <? 0 then ret (0, 0) else (let! g := get_head (Active sc) in ret (g, idx))) s (placed n G s).
Proof.
  intros HI Hn. destruct (size_to_class_ok n Hn) as (S1 & S2 & S3). wp_step. apply (coarse_class_ok G s _ _ HI S1).
  intros sc s1 HI1 Eb1 Hsc Hsc48.
  assert (Hreq : n + IB <= UNIT * class_units sc /\ (2 <= sc -> UNIT * class_units (sc - 2) < n + IB)).
  { destruct (Z.eq_dec sc (size_to_class n)) as [->|Hne].
    - split; [assumption|]. intros H2. specialize (S3 ltac:(lia)). unfold UNIT in *.
      assert (class_units (size_to_class n - 2) < class_units (size_to_class n - 1)) by (apply class_units_mono; lia). lia.
    - assert (Esc : sc = size_to_class n + 1) by lia. clear Hne. subst sc. unfold UNIT in *.
      assert (class_units (size_to_class n) < class_units (size_to_class n + 1)) by (apply class_units_mono; lia).
      split; [lia|]. intros H2. replace (size_to_class n + 1 - 2) with (size_to_class n - 1) by ring. apply S3. lia. }
  destruct Hreq as [Hreq Hlow]. assert (HE1 : evolve 0 G s G s1) by (apply (evolve_bytes _ _ _ _ s); [apply evolve_refl|assumption]).
  wp_step. apply (wp_get_head _ (head_of (qs G sc))); [apply (lo_head _ _ _ _ (hi_lists _ _ _ HI1)); lia|].
  wp_step. eapply wp_mono; [apply (fast_slot_ok G s1 sc HI1); lia|].
  intros idx s2 (G2 & HI2 & HE2 & Hqs & [Hidx|(Hidx & A & Hgot & Hroomy)]).
  - replace (0 <=? idx) with false by lia. wp_step. eapply wp_mono; [apply (alloc_slot_ok bootstrap random_secret sc ltac:(lia) G2 s2 n HI2); [lia|assumption]|].
    intros idx' s3 (G3 & HI3 & HE3 & Hor).
    assert (HE : evolve 0 G s G3 s3).
    { apply (evolve_trans _ _ _ _ _ _ _ HE1). apply (evolve_trans _ _ _ _ _ _ _ HE2). apply (evolve_le sc); [lia|assumption]. }
    destruct (Z.ltb_spec idx' 0) as [Hi|Hi].
    + wp_step. exists G3. split; [assumption|]. split; [assumption|now left].
    + destruct Hor as [|(g & A & _ & Hgot & Hroom & Hz)]; [lia|]. destruct Hgot as ((t & EQ) & Hgot).
      wp_step. apply (wp_get_head _ g); [pose proof (lo_head _ _ _ _ (hi_lists _ _ _ HI3) sc ltac:(lia)) as Hh; rewrite EQ in Hh; exact Hh|].
      wp_step. apply (got_placed G s G3 s3 sc n g idx' A); try assumption; try lia. split; [exists t; exact EQ|exact Hgot].
  - replace (0 <=? idx) with true by lia. wp_step. apply (got_placed G s G2 s2 sc n _ idx A); try assumption; try lia.
    + exact (evolve_trans _ _ _ _ _ _ _ HE1 HE2).
    + destruct Hgot as ((t & EQ) & HA & _). destruct Hroomy as [_ Hr].
      assert (Hgc : gsc (geo A) = sc) by (apply (qs_class G2 _ _ _ (head_of (qs G sc)) A sc (hi_lists _ _ _ HI2)); [lia|rewrite EQ; now left|assumption]).
      rewrite Hgc in Hr. lia.
    + destruct Hgot as ((t & EQ) & HA & _). destruct Hroomy as [_ Hr].
      assert (Hgc : gsc (geo A) = sc) by (apply (qs_class G2 _ _ _ (head_of (qs G sc)) A sc (hi_lists _ _ _ HI2)); [lia|rewrite EQ; now left|assumption]).
      rewrite Hgc in Hr. lia.
Qed.

Lemma malloc_ok G s n : heap_inv G s -> 0 <= n < 2 ^ 64 -> wp (malloc bootstrap random_secret n) s (malloc_spec n G s).
Proof.
  intros HI Hn. unfold malloc, size_overflows. wp_step. change (SIZE_MAX / 2 - 4096) with 9223372036854771711.
  destruct (Z.leb_spec 9223372036854771711 n) as [Ho|Ho].
  { wp_steps. apply (spec_null n G s G); [now apply (inv_errno bootstrap)|]. apply (evolve_bytes _ _ _ _ s); [apply evolve_refl|reflexivity]. }
  wp_step. wp_step. apply (wp_mono _ _ (placed n G s)).
  - destruct (Z.leb_spec MMAP_THRESHOLD n) as [Hbig|Hsmall]; [|now apply small_placed].
    wp_step. eapply wp_mono; [apply (map_alloc_ok G s n HI); lia|]. intros g s1 (G1 & HI1 & HE1 & Hor). wp_step.
    exists G1. split; [assumption|]. split; [assumption|]. destruct Hor as [->|(Hg & A & HA & Hi & Hc & Hf & Hz)]; [now left|right].
    split; [assumption|]. exists A. cbn [fst snd]. rewrite Z.add_0_l. auto 10.
  - intros [g idx] s1 (G1 & HI1 & HE1 & Hor). cbn [fst snd] in Hor. destruct (Z.eqb_spec g 0) as [->|Hg].
    + wp_step. now apply (spec_null n G s G1).
    + destruct Hor as [|(_ & A & HA & Hi & Hc & Hf & Hz)]; [contradiction|]. wp_step. wp_step.
      now apply (enframe_block G s G1 s1 g A idx).
Qed.
End Malloc.
