(* ===== verification/HeapFree.v ===== *)
(** * HeapFree: free

    A call of free on a block takes that block and no other away ([free_ok]): the
    slot becomes free, or its group goes, and the slot of a larger class that the
    group was in with it. *)

From stdpp Require Import gmap list.
From Stdlib Require Import ZArith Lia ZifyBool.
From S2P Require Import Prelude Malloc Slots Frames Rings Layout Heap HeapOps HeapTake HeapGrow HeapMalloc.
Open Scope Z_scope.
Open Scope heap_scope.

Section Free.
Context {K : Type} `{KernelLaws K}.
Variables bootstrap random_secret : Z.
Implicit Types s : heap K.
Notation heap_inv := (@heap_inv K _ _ bootstrap).

(** ** Masks *)

Lemma mask_bits x A : masks_ok x A ->
  bits_below (gcnt (geo A)) (Z.lor (freed_mask x) (avail_mask x)) /\
  forall i, slotted A i -> Z.testbit (Z.lor (freed_mask x) (avail_mask x)) i = is_free (cont A i).
Proof.
  intros (H1 & H2 & H3). split.
  - split; [apply Z.lor_nonneg; split; [apply H2|apply H1]|]. intros i Hi. rewrite Z.lor_spec. destruct H1 as [_ H1], H2 as [_ H2]. now rewrite H1, H2.
  - intros i Hi. destruct (H3 i Hi) as [E _]. rewrite Z.lor_spec, E. apply orb_comm.
Qed.

Lemma self_bit i : 0 <= i < 32 -> u32 (Z.shiftl 1 i) = 2 ^ i.
Proof.
  intros Hi. rewrite Z.shiftl_1_l. apply u32_small. assert (2 ^ i <= 2 ^ 31) by (apply Z.pow_le_mono_r; lia). lia.
Qed.

Lemma setbit_below n x i : 0 <= i < n -> bits_below n x -> bits_below n (Z.setbit x i).
Proof.
  intros Hi [H1 H2]. split; [rewrite Z.setbit_spec'; apply Z.lor_nonneg; split; [assumption|lia]|].
  intros j Hj. rewrite Z.setbit_eqb, H2 by lia. replace (i =? j) with false by lia. reflexivity.
Qed.

(** The last slot that was not free. *)
Lemma all_but_one n x i :
  n <= 32 -> 0 <= i < n -> bits_below n x -> Z.testbit x i = false -> u32 (x + 2 ^ i) = low_bits (n - 1) ->
  forall j, 0 <= j < n -> j <> i -> Z.testbit x j = true.
Proof.
  intros Hn Hi Hx Hb E j Hj Hji. rewrite add_bit in E by (assumption || lia).
  assert (Hr : 0 <= Z.setbit x i < 2 ^ n) by (apply bits_below_range; [lia|]; now apply setbit_below).
  assert (2 ^ n <= 2 ^ 32) by (apply Z.pow_le_mono_r; lia). rewrite u32_small in E by lia.
  assert (Ej : Z.testbit (Z.setbit x i) j = true) by (rewrite E, low_bits_spec by lia; lia).
  rewrite Z.setbit_eqb in Ej by lia. replace (i =? j) with false in Ej by lia. exact Ej.
Qed.

(** One more free slot. *)
Lemma masks_free x A i f :
  geom_ok (geo A) -> masks_ok x A -> slotted A i -> cont A i = Taken -> f = Z.setbit (freed_mask x) i ->
  masks_ok (with_freed f x) (set_cont A i Free) /\ f <> 0.
Proof.
  intros HG (H1 & H2 & H3) Hi Hc ->. pose proof (go_cnt _ HG). unfold slotted in Hi. split.
  - split; [assumption|]. split; [now apply setbit_below|]. intros j Hj. unfold slotted in Hj. cbn in Hj |- *.
    destruct (H3 j Hj) as [E1 E2]. rewrite Z.setbit_eqb by lia. destruct (Z.eqb_spec j i) as [->|Hji].
    + rewrite Z.eqb_refl. cbn. rewrite orb_true_r. split; [reflexivity|]. rewrite Hc in E1. cbn in E1. intros Ha. rewrite Ha in E1. discriminate.
    + replace (i =? j) with false by lia. auto.
  - intros E. assert (Hb : Z.testbit (Z.setbit (freed_mask x) i) i = true) by (rewrite Z.setbit_eqb, Z.eqb_refl by lia; reflexivity).
    rewrite E, Z.bits_0 in Hb. discriminate.
Qed.

Lemma taken_bits x A i : masks_ok x A -> slotted A i -> is_free (cont A i) = false ->
  Z.testbit (avail_mask x) i = false /\ Z.testbit (freed_mask x) i = false.
Proof. intros (_ & _ & H3) Hi Hc. destruct (H3 i Hi) as [E _]. rewrite Hc in E. symmetry in E. now apply orb_false_iff in E. Qed.

Lemma free_slot_exists x A : masks_ok x A -> Z.lor (freed_mask x) (avail_mask x) <> 0 -> exists j, slotted A j /\ cont A j = Free.
Proof.
  intros HK Hne. destruct (mask_bits x A HK) as [Hb Hbits]. set (m := Z.lor _ _) in *.
  assert (Hm : 0 < m) by (destruct Hb; lia). exists (Z.log2 m).
  assert (Hsl : slotted A (Z.log2 m)).
  { split; [apply Z.log2_nonneg|]. apply Z.nle_gt. intros Hle. destruct Hb as [_ Hb]. specialize (Hb _ Hle). rewrite Z.bit_log2 in Hb by assumption. discriminate. }
  split; [assumption|]. specialize (Hbits _ Hsl). rewrite Z.bit_log2 in Hbits by assumption. destruct (cont A (Z.log2 m)); [reflexivity|discriminate..].
Qed.

(** ** okay_to_free *)

Lemma okay_to_free_ok G s g A x (Q : bool -> heap K -> Prop) :
  heap_inv G s -> groups (lay G) !! g = Some A -> metas s !! g = Some x -> describes x (geo A) ->
  (forall b cn, (b = false -> roomy (geo A)) -> heap_inv G (with_cnts cn s) -> Q b (with_cnts cn s)) ->
  wp (okay_to_free g) s Q.
Proof.
  intros HI HA Hx HD HQ. pose proof (gk_geom _ _ _ (hi_layout _ _ _ HI g A HA)) as HG.
  assert (HQ0 : forall b, (b = false -> roomy (geo A)) -> Q b s).
  { intros b Hb. specialize (HQ b (cnts s) Hb (counted bootstrap G s HI)). now rewrite with_cnts_same in HQ. }
  unfold okay_to_free. wp_step. apply (wp_deref g x _ _ Hx). rewrite (stride_of x (geo A) HG HD).
  destruct HD as (_ & Hlast & Hsc & Hml & Hfr). rewrite Hsc, Hfr. change (1 =? 0) with false. cbv iota.
  destruct ((48 <=? gsc (geo A)) || _) eqn:E; [wp_step; now apply HQ0|].
  assert (Hr : roomy (geo A)) by (unfold roomy; lia).
  destruct (maplen x =? 0); [wp_step; apply HQ0; auto|]. destruct (negb (next x =? g)); [wp_step; apply HQ0; auto|].
  wp_step. apply (is_bouncing_counting bootstrap (gsc (geo A)) G s _ HI). intros b cn HI1.
  destruct (negb b); [wp_step; apply HQ; auto|]. assert (Hs : 0 <= gsc (geo A) < 48) by (destruct (go_class _ HG) as [|[? _]]; unfold roomy in Hr; lia).
  wp_step. apply (get_usage_counting bootstrap (gsc (geo A)) Hs G _ _ HI1). intros u cn2 HI2. wp_step. apply (HQ _ cn2); auto.
Qed.

(** The memory of a slot that holds nothing is as large as its class, as soon as the group is kept. *)
Lemma keep_roomy A : geom_ok (geo A) -> gcnt (geo A) <> 1 -> roomy (geo A).
Proof.
  intros HG Hc. destruct (go_several _ HG) as [E _]; [intros [E _]; contradiction|]. split; [|lia].
  destruct (go_class _ HG) as [|[_ [E1 _]]]; [lia|contradiction].
Qed.

(** ** A group leaves *)

Lemma unlinked_idle G s g A x :
  heap_inv G s -> groups (lay G) !! g = Some A -> metas s !! g = Some x -> next x = 0 -> idle G (metas s) g.
Proof.
  intros HI HA Hx Hn. pose proof (hi_lists _ _ _ HI) as HL. split; [exists x; exact Hx|]. split.
  - intros Hin. rewrite (lo_free_groups _ _ _ _ HL g Hin) in HA. discriminate.
  - intros sc Hs Hin. apply (ring_linked _ _ g (co_ring _ _ _ _ _ (lo_class _ _ _ _ HL sc Hs)) Hin). unfold nxt. now rewrite Hx.
Qed.

Definition detached (G : ghost) s (g : Z) s' : Prop :=
  exists G', heap_inv G' s' /\ lay G' = lay G /\ limbo G' = g :: limbo G /\ bytes s' = bytes s.

Lemma detach_ok G s g A x :
  heap_inv G s -> groups (lay G) !! g = Some A -> metas s !! g = Some x -> ~ In g (limbo G) ->
  wp (if negb (next x =? 0) then
        assert (sizeclass x <? 48) ;;
        let! head := get_head (Active (sizeclass x)) in
        dequeue (Active (sizeclass x)) g ;;
        let! head' := get_head (Active (sizeclass x)) in
        if (head =? g) && negb (head' =? 0) then (let! _ := activate_group head' in ret tt) else ret tt
      else ret tt) s (fun _ s' => detached G s g s').
Proof.
  intros HI HA Hx Hl. destruct (group_meta bootstrap G s g A HI HA) as (x' & Hx' & HD & HK & HG & _).
  rewrite Hx in Hx'. injection Hx' as <-. pose proof (hi_lists _ _ _ HI) as HL.
  destruct (Z.eqb_spec (next x) 0) as [En|En]; cbn [negb].
  { wp_step. eexists. split; [apply (inv_grab bootstrap G s g HI); [now apply (unlinked_idle G s g A x)|assumption]|]. auto. }
  destruct (linked_in G _ _ _ g A HL) as [Hs Hin]; [exists x; exact Hx|assumption|apply (gk_geom _ _ _ HG)|unfold nxt; now rewrite Hx|].
  destruct HD as (_ & _ & Hsc & _). rewrite Hsc. set (sc := gsc (geo A)) in *. apply in_split in Hin as (l1 & l2 & EQ).
  wp_step. wp_step; [lia|]. wp_step. apply (wp_get_head _ (head_of (qs G sc))); [now apply (lo_head _ _ _ _ HL)|]. rewrite EQ.
  wp_step. apply (inv_dequeue bootstrap G s sc l1 g l2); try assumption. intros ms HX s1 HI1. set (G1 := Ghost _ _ _ _) in HI1.
  wp_step. apply (wp_get_head _ (head_of (l1 ++ l2))).
  { apply (cell_get_set (Active sc)). cbn. intros E. pose proof (lo_len _ _ _ _ HL). apply lookup_ge_None in E. lia. }
  destruct (_ && _) eqn:E; [|wp_step; exists G1; split; [assumption|]; split; [reflexivity|]; split; reflexivity].
  assert (l1 = []) as ->.
  { destruct l1 as [|h l1]; [reflexivity|]. exfalso. cbn in E. assert (h = g) by lia. subst h.
    destruct (co_ring _ _ _ _ _ (lo_class _ _ _ _ HL sc Hs)) as (_ & Hnd & _). rewrite EQ in Hnd. cbn in Hnd.
    apply NoDup_cons in Hnd as [Hnd _]. apply Hnd. rewrite list_elem_of_In. apply in_or_app. right. now left. }
  cbn [app] in *. destruct l2 as [|h l2]; [cbn in E; lia|]. cbn [head_of] in *.
  assert (EQ1 : qs G1 sc = h :: l2) by apply set_q_eq.
  destruct (head_group bootstrap G1 s1 sc h l2 HI1 Hs EQ1) as (B & y & HB & _ & Hy & _).
  assert (Hz : avail_mask y = 0).
  { destruct (co_tail _ _ _ _ _ (lo_class _ _ _ _ HL sc Hs) h) as (z & Hz & Hz1 & _); [rewrite EQ; now left|].
    specialize (HX h). rewrite Hz in HX. change (metas s1) with ms in Hy. rewrite Hy in HX. now rewrite HX. }
  wp_step. apply (activate_ok bootstrap G1 s1 sc h l2 B y); try assumption. intros s2 HI2. wp_step.
  exists G1. split; [assumption|]. split; [reflexivity|]. split; reflexivity.
Qed.

(** ** free_group *)

(** What is to be unmapped is nobody's. *)
Definition unmappable (G : ghost) (mi : Z * Z) : Prop :=
  snd mi <> 0 -> fst mi mod 4096 = 0 /\ forall b, fst mi <= b < fst mi + page_up (snd mi) -> own (lay G) b = None.

Definition released (G : ghost) s (mi : mapinfo) s' : Prop :=
  exists G', heap_inv G' s' /\ evolve 0 G s G' s' /\ unmappable G' mi.

Definition frees (nontrivial : Z -> Z -> @M K mapinfo) (sc : Z) : Prop :=
  forall G s g A i, heap_inv G s -> groups (lay G) !! g = Some A -> gsc (geo A) = sc -> slotted A i -> cont A i = Taken ->
    (forall k, In k (limbo G) -> groups (lay G) !! k = None) -> wp (nontrivial g i) s (released G s).

Lemma free_last G s g lb mi :
  heap_inv G s -> limbo G = g :: lb -> groups (lay G) !! g = None -> unmappable G mi ->
  wp (free_meta g ;; ret mi) s (fun r s' => r = mi /\ exists G', heap_inv G' s' /\ lay G' = lay G /\ limbo G' = lb /\ bytes s' = bytes s).
Proof.
  intros HI El Hn Hu. wp_step. apply (inv_free_meta bootstrap G s g lb); try assumption. intros ms c s' HI'. wp_step.
  split; [reflexivity|]. eexists. split; [exact HI'|]. split; [reflexivity|]. split; reflexivity.
Qed.

Lemma no_blocks_del_mapped G s c C :
  heap_inv G s -> groups (lay G) !! c = Some C -> (forall i, slotted C i -> is_block (cont C i) = false) ->
  same_blocks (lay G) (del_mapped (lay G) c C).
Proof.
  intros HI HC Hn p n. split; intros (h & B & j & HB & Hj & Hcj); exists h, B, j.
  - cbn in HB. rewrite lookup_delete in HB. case_decide; [discriminate|]. auto.
  - cbn. rewrite lookup_delete_ne; [auto|]. intros <-. rewrite HC in HB. injection HB as <-. specialize (Hn j Hj). rewrite Hcj in Hn. discriminate.
Qed.

Lemma no_blocks_del_nested G s c C g A i :
  heap_inv G s -> groups (lay G) !! c = Some C -> (forall i, slotted C i -> is_block (cont C i) = false) ->
  c <> g -> groups (lay G) !! g = Some A -> is_block (cont A i) = false ->
  same_blocks (lay G) (del_nested (lay G) c C g A i).
Proof.
  intros HI HC Hn Hcg HA Hci p n. split; intros (h & B & j & HB & Hj & Hcj).
  - cbn in HB. rewrite lookup_insert in HB. case_decide as E.
    + injection HB as <-. subst h. exists g, A, j. cbn in Hcj. destruct (Z.eqb_spec j i); [discriminate|auto].
    + rewrite lookup_delete in HB. case_decide; [discriminate|]. exists h, B, j. auto.
  - assert (h <> c).
    { intros ->. rewrite HC in HB. injection HB as <-. specialize (Hn j Hj). rewrite Hcj in Hn. discriminate. }
    destruct (Z.eq_dec h g) as [->|].
    + rewrite HA in HB. injection HB as <-. exists g, (set_cont A i Taken), j. cbn. rewrite lookup_insert_eq.
      destruct (Z.eqb_spec j i) as [->|]; [rewrite Hcj in Hci; discriminate|auto].
    + exists h, B, j. cbn. rewrite lookup_insert_ne, lookup_delete_ne by congruence. auto.
Qed.

(** A group none of whose slots holds anything. *)
Lemma free_group_ok nontrivial G s g C lb :
  (forall sc, gsc (geo C) < sc -> sc < 64 -> frees nontrivial sc) ->
  heap_inv G s -> groups (lay G) !! g = Some C -> limbo G = g :: lb ->
  (forall i, slotted C i -> is_nest (cont C i) = false /\ is_block (cont C i) = false) ->
  (forall k, In k lb -> groups (lay G) !! k = None) ->
  wp (free_group bootstrap nontrivial g) s (released (Ghost (lay G) (qs G) (fl G) lb) s).
Proof.
  intros Hfree HI HC El Hn Hlb. destruct (group_meta bootstrap G s g C HI HC) as (x & Hx & HD & HK & HG & HM & _ & _ & _ & Hg0).
  pose proof (gk_geom _ _ _ HG) as Hgeo. destruct HD as (Hmem & Hlast & Hsc & Hml & _).
  assert (Hgl : In g (limbo G)) by (rewrite El; now left).
  unfold free_group. wp_step. apply (wp_deref g x _ _ Hx). rewrite Hsc, Hml, Hmem.
  wp_step. apply (wp_mono _ _ (fun _ s1 => exists cn, s1 = with_cnts cn s /\ heap_inv G s1)).
  { destruct (Z.ltb_spec (gsc (geo C)) 48) as [Hlt|Hlt].
    - assert (H48 : 0 <= gsc (geo C) < 48) by (destruct (go_class _ Hgeo) as [|[? _]]; lia).
      apply (add_usage_counting bootstrap _ _ H48 G s _ HI). intros _ cn HI1. exists cn. auto.
    - wp_step. exists (cnts s). rewrite with_cnts_same. auto. }
  intros u s1 (cn & -> & HI1). clear u. pose proof (gk_up _ _ _ HG) as HU.
  destruct (up C) as [[h j]|] eqn:EU.
  - (* in a slot *)
    destruct HU as (Hp & B & HB & Hj & Hc & Hbase & Htop & Hlt). rewrite Hp. change (negb (0 =? 0)) with false. cbv iota.
    destruct (group_meta bootstrap G _ h B HI1 HB) as (y & Hy & HDy & HKy & HGy & HMy & _ & HTy & _ & _).
    pose proof (gk_geom _ _ _ HGy) as HgeoB. pose proof (gm_slot _ _ _ HMy j Hj) as Hhdr. rewrite Hc in Hhdr. cbn in Hhdr.
    destruct (taken_bits y B j HKy Hj) as [Ha0 Hf0]; [now rewrite Hc|]. rewrite Hbase.
    wp_step. wp_step. apply (wp_get_meta bootstrap _ h y (geo B) j); try assumption; [apply (hi_mem _ _ _ HI1)|apply (gm_link _ _ _ HMy)|].
    wp_step. apply (wp_slot_index _ _ j); [apply Hhdr|]. wp_step. wp_step. cbn [bytes with_cnts].
    rewrite <- Hbase. set (m' := store 8 (bytes s) (gbase (geo C)) 0).
    assert (Hcg : g <> h) by (intros ->; rewrite HC in HB; injection HB as <-; lia).
    assert (Hext : forall b, own (lay G) b <> Some (OHdr g) -> m' b = bytes s b).
    { intros b Hb. apply store_out. intros Hin. apply Hb. apply (gk_hdr _ _ _ HG). lia. }
    assert (HI2 : heap_inv (set_lay (del_nested (lay G) g C h B j) G) (with_bytes m' (with_cnts cn s))).
    { apply (inv_del_nested bootstrap G (with_cnts cn s) g C h B j m'); try assumption; [apply Hn|].
      apply store_wf. apply (hi_mem _ _ _ HI). }
    set (G2 := set_lay (del_nested (lay G) g C h B j) G) in *.
    assert (HgN : groups (lay G2) !! g = None) by (cbn; rewrite lookup_insert_ne by congruence; apply lookup_delete_eq).
    assert (HlbN : forall k, In k lb -> groups (lay G2) !! k = None).
    { intros k Hk. cbn. rewrite lookup_insert_ne by (intros <-; rewrite (Hlb h Hk) in HB; discriminate).
      rewrite lookup_delete. case_decide; [reflexivity|now apply Hlb]. }
    assert (Hg64 : gsc (geo B) < 64) by (destruct (go_class _ HgeoB) as [|[? _]]; lia).
    eapply wp_mono; [apply (Hfree (gsc (geo B)) Hlt Hg64 G2 (with_bytes m' (with_cnts cn s)) h (set_cont B j Taken) j); try assumption|].
    + cbn. apply lookup_insert_eq.
    + reflexivity.
    + cbn. now rewrite Z.eqb_refl.
    + intros k Hk. cbn [limbo G2 set_lay] in Hk. rewrite El in Hk. destruct Hk as [<-|Hk]; [assumption|now apply HlbN].
    + intros mi s3 (G3 & HI3 & HE3 & Hun). eapply wp_mono; [apply (free_last G3 s3 g lb mi); try assumption|].
      * rewrite (ev_limbo _ _ _ _ _ HE3). exact El.
      * apply (ev_none _ _ _ _ _ HE3); [cbn; rewrite El; now left|assumption].
      * intros r s4 (-> & G4 & HI4 & EL4 & Elb & Eb). exists G4. split; [assumption|]. split; [|unfold unmappable; rewrite EL4; exact Hun].
        destruct HE3 as [E1 E2 E3 E4 E5]. split; [|intros p n b Hp2 Hb|assumption|intros; lia|].
        -- rewrite EL4. intros p n. rewrite (E1 p n). symmetry. cbn [lay G2 set_lay]. symmetry.
           apply (no_blocks_del_nested G s g C h B j HI HC); try assumption; [intros i Hi; now apply Hn|now rewrite Hc].
        -- rewrite Eb, (E2 p n b); try assumption.
           ++ cbn. apply Hext. destruct Hp2 as (k & D & i & HkD & Hi & Hci).
              rewrite (block_own _ (hi_layout _ _ _ HI) k D i p n b HkD Hi Hci Hb). discriminate.
           ++ apply (no_blocks_del_nested G s g C h B j HI HC); try assumption; [intros i Hi; now apply Hn|now rewrite Hc].
        -- intros k Hk _. rewrite EL4. apply E5; [cbn; rewrite El; now right|now apply HlbN].
  - (* in memory of its own *)
    destruct HU as [Hown Htop]. unfold own_pages in Hown. replace (negb (gpages (geo C) =? 0)) with true by lia. cbv iota.
    wp_step. wp_step. apply (step_seq_counting bootstrap G _ _ HI1). intros _ cn2 HI2.
    wp_step. apply (record_seq_counting bootstrap _ G _ _ HI2). intros _ cn3 HI3. wp_step.
    assert (HI4 : heap_inv (set_lay (del_mapped (lay G) g C) G) (with_cnts cn3 (with_cnts cn2 (with_cnts cn s)))).
    { apply inv_del_mapped; try assumption. apply Hn. }
    pose proof (go_pages _ Hgeo) as Hpg. destruct (go_mapped _ Hgeo Hown) as [Hal _]. rewrite u64_small by lia.
    eapply wp_mono; [apply (free_last _ _ g lb _ HI4 El)|].
    + cbn. apply lookup_delete_eq.
    + intros _. cbn [fst snd]. split; [assumption|]. intros b Hb. cbn [lay set_lay del_mapped own]. apply disclaim_in. unfold in_region.
      destruct (page_up_ok (gpages (geo C) * 4096) ltac:(lia)). rewrite Htop. zlia.
    + intros r s5 (-> & G5 & HI5 & EL5 & Elb & Eb). exists G5. split; [assumption|]. split.
      * split; [|intros p n b Hp2 Hb; now rewrite Eb|assumption|intros; lia|].
        -- rewrite EL5. apply (no_blocks_del_mapped G s g C HI HC). intros i Hi. now apply Hn.
        -- intros k Hk _. rewrite EL5. cbn. rewrite lookup_delete. case_decide; [reflexivity|now apply Hlb].
      * unfold unmappable. rewrite EL5. intros _. cbn [fst snd]. split; [assumption|]. intros b Hb. cbn [lay set_lay del_mapped own]. apply disclaim_in. unfold in_region.
        destruct (page_up_ok (gpages (geo C) * 4096) ltac:(lia)). rewrite Htop. zlia.
Qed.

(** ** A slot becomes free *)

(** What a group must be like to have a free slot more without changing lists. *)
Lemma slot_freed G s g A x i f :
  heap_inv G s -> groups (lay G) !! g = Some A -> metas s !! g = Some x -> slotted A i -> cont A i = Taken -> roomy (geo A) ->
  f = Z.setbit (freed_mask x) i -> (exists sc, 0 <= sc < 48 /\ In g (qs G sc)) ->
  let G' := set_lay (put_group (lay G) g (set_cont A i Free)) G in
  let s' := with_metas (<[g := with_freed f x]> (metas s)) s in
  heap_inv G' s' /\ evolve 0 G s G' s'.
Proof.
  intros HI HA Hx Hi Hc Hr Ef (sc & Hs & Hin) G' s'. destruct (group_meta bootstrap G s g A HI HA) as (x' & Hx' & HD & HK & HG & HM & _).
  rewrite Hx in Hx'. injection Hx' as <-. destruct (masks_free x A i f (gk_geom _ _ _ HG) HK Hi Hc Ef) as [HK' Hf].
  split.
  - unfold s'. rewrite <- (with_bytes_same s) at 2. apply (inv_group bootstrap G s g A _ x); try assumption; try reflexivity.
    + split; reflexivity.
    + apply set_cont_ok; try assumption; [apply HI|now rewrite Hc|reflexivity|]. split; [reflexivity|split; [auto|discriminate]].
    + apply (mem_write_slot _ (bytes s)); try assumption; try apply HI; [auto|exact I].
    + intros k Hk Hkin. destruct (co_tail _ _ _ _ _ (lo_class _ _ _ _ (hi_lists _ _ _ HI) k Hk) g Hkin) as (y & Hy & E1 & E2).
      rewrite Hx in Hy. injection Hy as <-. auto.
    + intros Hc' Hq _. exfalso. apply Hq. now rewrite (qs_class G _ _ _ g A sc (hi_lists _ _ _ HI) Hs Hin HA).
  - split; [|reflexivity|reflexivity|reflexivity|intros k _ Hk; cbn; rewrite lookup_insert_ne by congruence; assumption].
    apply (blocks_put _ g A); [assumption|reflexivity|]. intros j Hj. cbn. destruct (Z.eqb_spec j i) as [->|]; [right|now left]. now rewrite Hc.
Qed.

(** A full group gets its first free slot and goes to the end of the list. *)
Lemma requeue_ok G s g A x i (Q : mapinfo -> heap K -> Prop) :
  heap_inv G s -> groups (lay G) !! g = Some A -> metas s !! g = Some x -> slotted A i -> cont A i = Taken -> roomy (geo A) ->
  ~ In g (limbo G) -> Z.lor (freed_mask x) (avail_mask x) = 0 -> 0 <= gsc (geo A) < 48 -> ~ In g (qs G (gsc (geo A))) ->
  (forall G' s', heap_inv G' s' -> evolve 0 G s G' s' -> Q (0, 0) s') ->
  wp (queue (Active (gsc (geo A))) g) s (fun _ s1 => wp (update g (fun x => with_freed (Z.lor (freed_mask x) (2 ^ i)) x) ;; ret (0, 0)) s1 Q).
Proof.
  intros HI HA Hx Hi Hc Hr Hl Hmask Hs Hnq HQ. destruct (group_meta bootstrap G s g A HI HA) as (x' & Hx' & HD & HK & HG & HM & Hkn & _ & _ & Hg0).
  rewrite Hx in Hx'. injection Hx' as <-. set (sc := gsc (geo A)) in *. pose proof (hi_lists _ _ _ HI) as HL.
  assert (Hidle : idle G (metas s) g).
  { split; [assumption|]. split; [intros Hin; rewrite (lo_free_groups _ _ _ _ HL g Hin) in HA; discriminate|].
    intros k Hk Hin. apply Hnq. unfold sc. now rewrite (qs_class G _ _ _ g A k HL Hk Hin HA). }
  pose proof (inv_grab bootstrap G s g HI Hidle Hl) as HI1. destruct Hidle as (_ & HgF & HgQ).
  destruct (lo_idle _ _ _ _ HL g Hkn HgF HgQ) as [Hn Hp].
  apply Z.lor_eq_0_iff in Hmask as [Hf0 Ha0].
  apply (wp_queue _ g (qs G sc)); try assumption; [now apply (lo_head _ _ _ _ HL)|apply (co_ring _ _ _ _ _ (lo_class _ _ _ _ HL sc Hs))|].
  intros ms HR HX Hsame. set (l := qs G sc ++ [g]) in *.
  assert (Hx1 : exists x1, ms !! g = Some x1 /\ x1 = with_prev (prev x1) (with_next (next x1) x)).
  { specialize (HX g). rewrite Hx in HX. destruct (ms !! g) as [y|]; [|contradiction]. eauto. }
  destruct Hx1 as (x1 & Hx1 & Ex1). wp_step. apply (wp_update g _ x1); [destruct (Active sc); exact Hx1|]. wp_step.
  set (f := Z.lor (freed_mask x1) (2 ^ i)). set (ms' := <[g := with_freed f x1]> ms).
  assert (Ef : f = Z.setbit (freed_mask x1) i) by (unfold f; now rewrite Z.setbit_spec').
  assert (HK1 : masks_ok x1 A) by (rewrite Ex1; exact HK). assert (HD1 : describes x1 (geo A)) by (rewrite Ex1; exact HD).
  destruct (masks_free x1 A i f (gk_geom _ _ _ HG) HK1 Hi Hc Ef) as [HK' Hf].
  assert (Hlk : forall k, nxt ms' k = nxt ms k /\ prv ms' k = prv ms k) by (intros k; now apply (links_insert _ g _ x1)).
  assert (Hkn' : forall k, known ms' k <-> known (metas s) k).
  { intros k. unfold ms'. rewrite known_insert by (exists x1; exact Hx1). symmetry. now apply relinked_known. }
  set (L' := put_group (lay G) g (set_cont A i Free)).
  assert (Hne : forall k, k <> g -> ms' !! k = ms !! k) by (intros k Hk; unfold ms'; now rewrite lookup_insert_ne by congruence).
  refine (HQ (Ghost L' (set_q (qs G) sc l) (fl G) (limbo G)) _ _ _).
  - destruct HI as [I1 I2 I3 I4 I5]. split; cbn.
    + apply set_cont_ok; try assumption; [now rewrite Hc|reflexivity|]. split; [reflexivity|split; [auto|discriminate]].
    + apply (mem_write_slot _ (bytes s)); try assumption; [apply I2|auto|exact I].
    + intros h B HB. cbn in HB. rewrite lookup_insert in HB. case_decide as E.
      * injection HB as <-. subst h. exists (with_freed f x1). unfold ms'. rewrite lookup_insert_eq. auto.
      * destruct (I3 h B HB) as (y & Hy & HDy & HKy). specialize (HX h). rewrite Hy in HX. rewrite Hne by congruence.
        destruct (ms !! h) as [z|]; [|contradiction]. exists z. rewrite HX. auto.
    + destruct G as [L Qs F lb]. cbn in *. unfold l. apply (lists_enqueue L Qs F lb L' (metas s) ms' _ _ sc g (set_cont A i Free) (with_freed f x1)); try assumption.
      * apply (hi_lists _ _ _ HI1).
      * cbn. apply lookup_insert_eq.
      * reflexivity.
      * intros k Hk. cbn. now rewrite lookup_insert_ne by congruence.
      * apply (ring_ok_ext ms); [|exact HR]. intros k _. destruct (Hlk k) as [E1 E2]. split; [assumption|]. split; [assumption|].
        intros Hk. apply Hkn'. now apply (relinked_known (metas s) ms).
      * split; [assumption|]. intros k Hk Hin. rewrite Hne by assumption. now apply Hsame.
      * intros k y Hin Hy. assert (k <> g) by (intros ->; contradiction). rewrite Hne by assumption. specialize (HX k). rewrite Hy in HX.
        destruct (ms !! k) as [z|]; [|contradiction]. exists z. rewrite HX. auto.
      * unfold ms'. apply lookup_insert_eq.
      * intros _. cbn. split; [rewrite Ex1; exact Ha0|]. split; [assumption|]. unfold inactive. cbn. intros Hina.
        pose proof (gk_act _ _ _ HG). assert (Hsl : slotted A (gcnt (geo A) - 1)) by (unfold slotted; lia).
        destruct HK as (_ & _ & K3). destruct (K3 _ Hsl) as [E _]. rewrite (gk_inactive _ _ _ HG _ Hsl) in E by lia.
        rewrite Ha0, Hf0, Z.bits_0 in E. discriminate.
    + apply (env_ext bootstrap (lay G) _ (metas s) _ _ _ (cnts s) _ (kern s)); try assumption; try apply I5. reflexivity.
  - split; cbn; [|reflexivity|reflexivity|intros; lia|intros k _ Hk; rewrite lookup_insert_ne by congruence; assumption].
    apply (blocks_put _ g A); [assumption|reflexivity|]. intros j Hj. cbn. destruct (Z.eqb_spec j i) as [->|]; [right|now left]. now rewrite Hc.
Qed.

(** ** nontrivial_free *)

Lemma class_bound G s g A : heap_inv G s -> groups (lay G) !! g = Some A -> 0 <= gsc (geo A) < 64.
Proof. intros HI HA. destruct (go_class _ (gk_geom _ _ _ (hi_layout _ _ _ HI g A HA))) as [|[? _]]; lia. Qed.

(** A group with a free slot is in the list of its class. *)
Lemma free_in_list G s g A j :
  heap_inv G s -> groups (lay G) !! g = Some A -> slotted A j -> cont A j = Free -> ~ In g (limbo G) ->
  0 <= gsc (geo A) < 48 /\ In g (qs G (gsc (geo A))).
Proof.
  intros HI HA Hj Hf Hl. pose proof (hi_layout _ _ _ HI g A HA) as HG. destruct (gk_free _ _ _ HG j Hj Hf) as [H48 _].
  assert (Hs : 0 <= gsc (geo A) < 48) by (pose proof (class_bound G s g A HI HA); lia). split; [assumption|].
  destruct (in_dec Z.eq_dec g (qs G (gsc (geo A)))) as [|Hn]; [assumption|]. exfalso.
  pose proof (co_out _ _ _ _ _ (lo_class _ _ _ _ (hi_lists _ _ _ HI) _ Hs) g A HA eq_refl Hn Hl j Hj) as E. now rewrite Hf in E.
Qed.

Lemma full_at_head G s g A x t :
  heap_inv G s -> groups (lay G) !! g = Some A -> metas s !! g = Some x -> 0 <= gsc (geo A) < 48 ->
  Z.lor (freed_mask x) (avail_mask x) = 0 -> t = qs G (gsc (geo A)) -> In g t -> head_of t = g.
Proof.
  intros HI HA Hx Hs Hm -> Hin. apply Z.lor_eq_0_iff in Hm as [Hf _].
  pose proof (lo_class _ _ _ _ (hi_lists _ _ _ HI) _ Hs) as HC. destruct (qs G (gsc (geo A))) as [|h t]; [destruct Hin|].
  destruct Hin as [->|Hin]; [reflexivity|]. destruct (co_tail _ _ _ _ _ HC g Hin) as (y & Hy & _ & Hne). congruence.
Qed.

Lemma nontrivial_free_loop_ok fuel sc :
  0 < Z.of_nat fuel -> 49 - sc <= Z.of_nat fuel -> frees (nontrivial_free_loop bootstrap fuel) sc.
Proof.
  revert sc; induction fuel as [|fuel IH]; intros sc Hf0 Hf G s g A i HI HA Hsc Hi Hc Hlimbo; [lia|]. cbn [nontrivial_free_loop].
  destruct (group_meta bootstrap G s g A HI HA) as (x & Hx & HD & HK & HG & HM & Hkn & _ & _ & Hg0).
  pose proof (gk_geom _ _ _ HG) as Hgeo. pose proof (go_cnt _ Hgeo) as Hcnt. pose proof (hi_lists _ _ _ HI) as HL.
  destruct (mask_bits x A HK) as [Hmb Hmbits]. destruct HD as (Hmem & Hlast & Hscx & HD).
  assert (Hgl : ~ In g (limbo G)) by (intros Hin; rewrite (Hlimbo g Hin) in HA; discriminate).
  assert (Hself : u32 (Z.shiftl 1 i) = 2 ^ i) by (apply self_bit; unfold slotted in Hi; lia).
  wp_step. apply (wp_deref g x _ _ Hx). rewrite Hself, Hlast. set (mask := Z.lor (freed_mask x) (avail_mask x)) in *.
  assert (Hmi : Z.testbit mask i = false) by (rewrite Hmbits by assumption; now rewrite Hc).
  wp_step. apply (wp_mono _ _ (fun ok s1 => exists cn, s1 = with_cnts cn s /\ heap_inv G s1 /\
    (ok = true -> forall j, slotted A j -> j <> i -> cont A j = Free) /\ (ok = false -> roomy (geo A)))).
  { destruct (Z.eqb_spec (u32 (mask + 2 ^ i)) (low_bits (gcnt (geo A) - 1))) as [E|E].
    - apply (okay_to_free_ok G s g A x); try assumption; [split; auto|]. intros b cn Hb HI1. exists cn. split; [reflexivity|]. split; [assumption|].
      split; [|assumption]. intros _ j Hj Hji.
      pose proof (all_but_one _ mask i (proj2 Hcnt) Hi Hmb Hmi E j Hj Hji) as Hbit. rewrite Hmbits in Hbit by assumption.
      destruct (cont A j); [reflexivity|discriminate..].
    - wp_step. exists (cnts s). rewrite with_cnts_same. split; [reflexivity|]. split; [assumption|]. split; [discriminate|]. intros _.
      apply keep_roomy; [assumption|]. intros E1. apply E. assert (Ei : i = 0) by (unfold slotted in Hi; lia). subst i. rewrite E1.
      assert (Ez : mask = 0).
      { apply (bits_zero 1); [rewrite <- E1; assumption|]. intros j Hj. now replace j with 0 by lia. }
      rewrite Ez. reflexivity. }
  intros ok s1 (cn & -> & HI1 & Hok & Hnok). destruct ok.
  - (* the group goes *)
    specialize (Hok eq_refl). rewrite Hscx. apply wp_bind. rewrite <- Hscx.
    eapply wp_mono; [apply (detach_ok G (with_cnts cn s) g A x); assumption|]. intros u s2 (G2 & HI2 & EL2 & El2 & Eb2). clear u.
    assert (HA2 : groups (lay G2) !! g = Some A) by now rewrite EL2.
    eapply wp_mono; [apply (free_group_ok (nontrivial_free_loop bootstrap fuel) G2 s2 g A (limbo G)); try assumption|].
    + intros sc' Hlt H64. pose proof (class_bound G s g A HI HA). destruct (Z.lt_ge_cases sc 48) as [Hs|Hs]; [apply IH; lia|].
      exfalso. destruct (go_class _ Hgeo) as [|[E _]]; lia.
    + intros j Hj. destruct (Z.eq_dec j i) as [->|Hji]; [now rewrite Hc|]. now rewrite Hok.
    + intros k Hk. rewrite EL2. now apply Hlimbo.
    + intros mi s3 (G3 & HI3 & HE3 & Hun). exists G3. split; [assumption|]. split; [|assumption].
      destruct HE3 as [E1 E2 E3 E4 E5]. cbn in *. rewrite EL2 in *. split; cbn; try assumption; [|intros; lia].
      intros p n b Hp Hb. rewrite (E2 p n b Hp Hb), Eb2. reflexivity.
  - (* the slot is free *)
    specialize (Hnok eq_refl). assert (Hs : 0 <= gsc (geo A) < 48) by (pose proof (class_bound G s g A HI HA); destruct Hnok; lia).
    rewrite Hscx. destruct (Z.eqb_spec mask 0) as [Em|Em].
    + wp_step. wp_step. wp_step; [lia|]. wp_step. apply (wp_get_head _ (head_of (qs G (gsc (geo A))))); [now apply (lo_head _ _ _ _ HL)|].
      destruct (Z.eqb_spec (head_of (qs G (gsc (geo A)))) g) as [Eh|Eh]; cbn [negb].
      * assert (Hin : In g (qs G (gsc (geo A)))) by (destruct (qs G (gsc (geo A))); cbn in Eh; [congruence|now left]).
        wp_step. wp_step. apply (wp_update g _ x); [exact Hx|]. wp_step.
        destruct (slot_freed G (with_cnts cn s) g A x i (Z.lor (freed_mask x) (2 ^ i))) as [R1 R2]; try assumption;
          [now rewrite Z.setbit_spec'|now exists (gsc (geo A))|].
        eexists. split; [exact R1|]. split; [destruct R2 as [E1 E2 E3 E4 E5]; split; assumption|]. intros Hz. now destruct Hz.
      * apply (requeue_ok G (with_cnts cn s) g A x i); try assumption.
        -- intros Hin. apply Eh. now apply (full_at_head G s g A x).
        -- intros G4 s4 HI4 HE4. exists G4. split; [assumption|]. split; [|intros Hz; now destruct Hz].
           destruct HE4 as [E1 E2 E3 E4 E5]; split; assumption.
    + destruct (free_slot_exists x A HK Em) as (j & Hj & Hfj). destruct (free_in_list G s g A j HI HA Hj Hfj Hgl) as [_ Hin].
      wp_step. wp_step. wp_step. apply (wp_update g _ x); [exact Hx|]. wp_step.
      destruct (slot_freed G (with_cnts cn s) g A x i (Z.lor (freed_mask x) (2 ^ i))) as [R1 R2]; try assumption;
        [now rewrite Z.setbit_spec'|now exists (gsc (geo A))|].
      eexists. split; [exact R1|]. split; [destruct R2 as [E1 E2 E3 E4 E5]; split; assumption|]. intros Hz. now destruct Hz.
Qed.

(** ** free *)

(** The header of a block, for those who have its address. *)
Record block_at (G : ghost) s (p n g : Z) (A : group) (i : Z) (x : meta) : Prop := {
  ba_group : groups (lay G) !! g = Some A;
  ba_slot : slotted A i;
  ba_cont : cont A i = Block p n;
  ba_meta : metas s !! g = Some x;
  ba_desc : describes x (geo A);
  ba_masks : masks_ok x A;
  ba_ok : group_ok (lay G) g A;
  ba_hdr : hdr_enc (bytes s) (geo A) i p;
  ba_size : size_enc (bytes s) p (pin (geo A) (i + 1)) n;
  ba_in : block_in (geo A) i p n;
  ba_end : bytes s (pin (geo A) (i + 1)) = 0;
  ba_stride : get_stride x = gstride (geo A) }.

Lemma block_lookup G s p n : heap_inv G s -> blocks (lay G) p n -> exists g A i x, block_at G s p n g A i x.
Proof.
  intros HI (g & A & i & HA & Hi & Hc). destruct (group_meta bootstrap G s g A HI HA) as (x & Hx & HD & HK & HG & HM & _).
  exists g, A, i, x. pose proof (gm_slot _ _ _ HM i Hi) as Hs. rewrite Hc in Hs. destruct Hs as [Hs1 Hs2].
  split; try assumption.
  - now apply (gk_block _ _ _ HG).
  - apply (pin_zero _ (hi_layout _ _ _ HI) (bytes s) g A); [apply (hi_mem _ _ _ HI)|assumption|unfold slotted in Hi; lia].
  - now apply (stride_of x (geo A) (gk_geom _ _ _ HG)).
Qed.

Lemma wp_find_block G s p n g A i x (Q : Z -> heap K -> Prop) :
  heap_inv G s -> block_at G s p n g A i x -> Q g s -> wp (get_meta bootstrap p) s Q.
Proof.
  intros HI [HA Hi Hc Hx HD HK HG Hh Hsz Hin He _] HQ. destruct (taken_bits x A i HK Hi) as [H1' H2']; [now rewrite Hc|].
  destruct (group_meta bootstrap G s g A HI HA) as (_ & _ & _ & _ & _ & HM & _ & HT & _).
  apply (wp_get_meta bootstrap s g x (geo A) i); try assumption; [apply (gk_geom _ _ _ HG)|apply (hi_mem _ _ _ HI)|apply (gm_link _ _ _ HM)].
Qed.

(** The size that the frame of a block says. *)
Lemma wp_block_size G s p n g A i x (Q : Z -> heap K -> Prop) :
  heap_inv G s -> block_at G s p n g A i x -> Q n s -> wp (get_nominal_size p (pin (geo A) (i + 1))) s Q.
Proof.
  intros HI [HA Hi Hc Hx HD HK HG Hh Hsz Hin He _] HQ. pose proof (gk_geom _ _ _ HG) as Hgeo. pose proof (go_end _ Hgeo) as H47.
  destruct (go_base _ Hgeo) as [Hb0 _]. destruct (go_stride _ Hgeo) as [Hst _]. destruct Hin as (B1 & B2 & B3 & _).
  assert (Hend : pin (geo A) (i + 1) < 2 ^ 47) by (unfold pin, start, slotted, IB in *; nia).
  assert (Hp0 : 0 < p) by (unfold start, slotted, UNIT in *; nia).
  eapply wp_mono; [apply (get_nominal_size_ok s p _ n); try assumption; [apply (hi_mem _ _ _ HI)|lia]|].
  intros r s' [-> ->]. exact HQ.
Qed.

Lemma blocks_gone G s g A i p n :
  heap_inv G s -> groups (lay G) !! g = Some A -> slotted A i -> cont A i = Block p n ->
  forall q k, blocks (put_group (lay G) g (set_cont A i Taken)) q k <-> blocks (lay G) q k /\ q <> p.
Proof.
  intros HI HA Hi Hc q k. split.
  - intros (h & B & j & HB & Hj & Hcj). cbn in HB. rewrite lookup_insert in HB. case_decide as E.
    + injection HB as <-. subst h. cbn in Hcj. destruct (Z.eqb_spec j i) as [Ej|Ej]; [discriminate|].
      split; [exists g, A, j; auto|]. intros ->.
      destruct (block_unique _ (hi_layout _ _ _ HI) p k g A j g A i n HA Hj Hcj HA Hi Hc) as (_ & _ & Eq & _). contradiction.
    + split; [exists h, B, j; auto|]. intros ->.
      destruct (block_unique _ (hi_layout _ _ _ HI) p k h B j g A i n HB Hj Hcj HA Hi Hc) as (Eq & _). congruence.
  - intros [(h & B & j & HB & Hj & Hcj) Hq]. destruct (Z.eq_dec h g) as [->|].
    + rewrite HA in HB. injection HB as <-. exists g, (set_cont A i Taken), j. cbn. rewrite lookup_insert_eq.
      destruct (Z.eqb_spec j i) as [->|]; [congruence|auto].
    + exists h, B, j. cbn. rewrite lookup_insert_ne by congruence. auto.
Qed.

Definition free_spec (p : Z) (G : ghost) s s' : Prop :=
  exists G', heap_inv G' s' /\ limbo G' = limbo G /\
    (forall q k, blocks (lay G') q k <-> blocks (lay G) q k /\ q <> p) /\
    forall q k b, blocks (lay G) q k -> q <> p -> q <= b < q + k -> bytes s' b = bytes s b.

Lemma free_ok G s p n :
  heap_inv G s -> blocks (lay G) p n -> limbo G = [] -> wp (free bootstrap p) s (fun _ s' => free_spec p G s s').
Proof.
  intros HI Hp El. destruct (block_lookup G s p n HI Hp) as (g & A & i & x & HB). pose proof HB as [HA Hi Hc Hx HD HK HG Hh Hsz Hin He Est].
  pose proof (gk_geom _ _ _ HG) as Hgeo. pose proof (go_cnt _ Hgeo) as Hcnt. destruct (go_base _ Hgeo) as [Hb0 _]. destruct (go_stride _ Hgeo) as [Hst _].
  destruct Hin as (B1 & B2 & B3 & B4). assert (Hp0 : 0 < p) by (unfold start, slotted, UNIT in *; nia).
  unfold free. replace (p =? 0) with false by lia.
  wp_step. apply (wp_find_block G s p n g A i x _ HI HB). wp_step. apply (wp_slot_index s p i); [apply Hh|].
  wp_step. apply (wp_deref g x _ _ Hx). rewrite Est. destruct HD as (Hmem & Hlast & Hscx & HD). rewrite Hmem, Hlast.
  change (storage (gbase (geo A)) + gstride (geo A) * i) with (start (geo A) i). rewrite <- pin_start.
  wp_step. apply (wp_block_size G s p n g A i x); [assumption|assumption|].
  (* the header is spoiled *)
  wp_step. wp_step. wp_step. wp_step. cbn [bytes with_bytes]. set (m' := store 2 _ _ _). set (s1 := with_bytes m' s).
  change (with_bytes m' _) with s1.
  assert (Hext : forall b, own (lay G) b <> Some (OSlot g i) -> m' b = bytes s b).
  { intros b Hb. unfold m'. assert (Hnb : ~ p - 3 <= b < p).
    { intros Hr. apply Hb. pose proof (pin_lt_start (geo A) i). assert (Hp3 : pin (geo A) (i + 1) = start (geo A) i + gstride (geo A) - IB) by apply pin_start.
      destruct (Z.lt_ge_cases b (start (geo A) i)); [apply (gk_front _ _ _ HG); [assumption|lia]|apply (gk_body _ _ _ HG); [assumption|now rewrite Hc|lia]]. }
    rewrite store_out, mset_ne by lia. reflexivity. }
  assert (HI1 : heap_inv (set_lay (put_group (lay G) g (set_cont A i Taken)) G) s1).
  { apply (set_content bootstrap G s g A i Taken m'); try assumption; try reflexivity; try (now rewrite Hc); [discriminate|]. unfold m'. apply store_wf.
    apply mset_wf; [apply (hi_mem _ _ _ HI)|unfold u8; apply Z.mod_pos_bound; lia]. }
  set (G1 := set_lay (put_group (lay G) g (set_cont A i Taken)) G) in *. set (A1 := set_cont A i Taken) in *.
  assert (HA1 : groups (lay G1) !! g = Some A1) by (cbn; apply lookup_insert_eq).
  assert (Hc1 : cont A1 i = Taken) by (cbn; now rewrite Z.eqb_refl).
  assert (Hfin : forall G2 s2, heap_inv G2 s2 -> evolve 0 G1 s1 G2 s2 -> free_spec p G s s2).
  { intros G2 s2 HI2 [E1 E2 E3 E4 E5]. exists G2. split; [assumption|]. split; [exact E3|]. pose proof (blocks_gone G s g A i p n HI HA Hi Hc) as HG1. split.
    - intros q k. rewrite (E1 q k). apply HG1.
    - intros q k b Hq Hqp Hb. rewrite (E2 q k b); [|now apply HG1|assumption]. cbn. apply Hext.
      destruct Hq as (h & B & j & HB' & Hj & Hcj). rewrite (block_own _ (hi_layout _ _ _ HI) h B j q k b HB' Hj Hcj Hb).
      intros [= -> ->]. rewrite HA in HB'. injection HB' as <-. congruence. }
  assert (Hx1 : metas s1 !! g = Some x) by exact Hx.
  destruct (group_meta bootstrap G1 s1 g A1 HI1 HA1) as (x' & Hx' & _ & HK1 & _). rewrite Hx1 in Hx'. injection Hx' as <-.
  destruct (mask_bits x A1 HK1) as [Hmb Hmbits]. set (mask := Z.lor (freed_mask x) (avail_mask x)) in *.
  assert (Hmi : Z.testbit mask i = false) by (rewrite Hmbits by exact Hi; now rewrite Hc1).
  wp_step. apply (wp_deref g x _ _ Hx1). rewrite self_bit by (unfold slotted in Hi; lia). fold mask.
  wp_step. wp_step; [rewrite <- Z.shiftl_1_l; apply Z.eqb_eq, land_bit_zero; [apply Hi|assumption]|].
  destruct ((freed_mask x =? 0) || _) eqn:Eb.
  - wp_step. unfold nontrivial_free. eapply wp_mono; [apply (nontrivial_free_loop_ok 50 (gsc (geo A)) ltac:(lia) ltac:(pose proof (class_bound G s g A HI HA); lia) G1 s1 g A1 i); try assumption; try reflexivity|].
    + intros k Hk. cbn in Hk. rewrite El in Hk. destruct Hk.
    + intros [base len] s2 (G2 & HI2 & HE2 & Hun). destruct (Z.eqb_spec len 0) as [E0|E0]; cbn [negb].
      * wp_step. now apply (Hfin G2).
      * destruct (Hun E0) as [Hal Hno]. cbn [fst snd] in *. wp_step. wp_step. wp_step.
        eapply wp_mono; [apply (inv_munmap bootstrap G2 s2 base len); assumption|]. intros u s3 [HI3 Eb3]. wp_step.
        apply (Hfin G2); [now apply (inv_errno bootstrap)|]. now apply (evolve_bytes _ _ _ _ s2).
  - assert (Hne : mask <> 0).
    { intros E. apply Z.lor_eq_0_iff in E as [E _]. rewrite E in Eb. discriminate. }
    destruct (free_slot_exists x A1 HK1 Hne) as (j & Hj & Hfj).
    destruct (free_in_list G1 s1 g A1 j HI1 HA1 Hj Hfj) as [Hs Hin']; [cbn; now rewrite El|].
    apply (wp_update g _ x _ _ Hx1).
    destruct (slot_freed G1 s1 g A1 x i (u32 (freed_mask x + 2 ^ i))) as [R1 R2]; try assumption.
    + exact (gk_free _ _ _ (hi_layout _ _ _ HI1 g A1 HA1) j Hj Hfj).
    + destruct (taken_bits x A1 i HK1 Hi) as [_ Hfi]; [now rewrite Hc1|]. rewrite add_bit by (assumption || apply Hi). apply u32_small.
      assert (Hr : 0 <= Z.setbit (freed_mask x) i < 2 ^ gcnt (geo A)) by (apply bits_below_range; [lia|]; apply setbit_below; [exact Hi|apply HK]).
      assert (2 ^ gcnt (geo A) <= 2 ^ 32) by (apply Z.pow_le_mono_r; lia). lia.
    + exists (gsc (geo A1)). auto.
    + now apply (Hfin (set_lay (put_group (lay G1) g (set_cont A1 i Free)) G1)).
Qed.
End Free.
