(* ===== verification/HeapUse.v ===== *)
(** * HeapUse: what is built on malloc and free

    The user writes to a block, asks for its size ([usable_size_ok]), takes memory
    that is zero ([calloc_ok]) and changes the size of a block ([realloc_ok]). *)

From stdpp Require Import gmap list.
From Stdlib Require Import ZArith Lia ZifyBool.
From S2P Require Import Prelude MemCopy Malloc Slots Frames Rings Layout Heap HeapOps HeapTake HeapGrow HeapMalloc HeapFree.
Open Scope Z_scope.
Open Scope heap_scope.

Section Use.
Context {K : Type} `{KernelLaws K}.
Variables bootstrap random_secret : Z.
Implicit Types s : heap K.
Notation heap_inv := (@heap_inv K _ _ bootstrap).
Notation block_at := (@block_at K).

(** ** Writing to a block *)

(** The bytes of a slot change, not what they say. *)
Lemma mem_slot L m m' g A i :
  layout_ok L -> mem_ok L m -> groups L !! g = Some A -> slotted A i -> wf_mem m' ->
  (forall b, own L b <> Some (OSlot g i) -> m' b = m b) -> slot_mem m' (geo A) i (cont A i) -> mem_ok L m'.
Proof.
  intros HL HM HA Hi Hwf Hext Hs.
  assert (Hp : pins_ok L m') by (intros b a Hb; rewrite Hext by congruence; now apply (mo_pins L m HM b a)).
  split; [assumption|exact Hp|]. intros h B HB. apply (group_mem_ext L m HL HM m' h B); try reflexivity; try assumption.
  - intros b Hb. apply Hext. congruence.
  - intros j Hj. destruct (decide (h = g /\ j = i)) as [[-> ->]|Hn].
    + right. rewrite HA in HB. now injection HB as <-.
    + left. split; [reflexivity|]. intros b Hb. apply Hext. rewrite Hb. intros [= -> ->]. now apply Hn.
Qed.

Lemma inv_write G s p n m' :
  heap_inv G s -> blocks (lay G) p n -> wf_mem m' -> (forall b, ~ p <= b < p + n -> m' b = bytes s b) ->
  heap_inv G (with_bytes m' s).
Proof.
  intros HI Hp Hwf Hext. destruct (block_lookup bootstrap G s p n HI Hp) as (g & A & i & x & [HA Hi Hc Hx HD HK HG Hh Hsz Hin He Est]).
  destruct Hin as (B1 & B2 & B3 & B4).
  assert (Hown : forall b, own (lay G) b <> Some (OSlot g i) -> m' b = bytes s b).
  { intros b Hb. apply Hext. intros Hr. apply Hb. exact (block_own _ (hi_layout _ _ _ HI) g A i p n b HA Hi Hc Hr). }
  apply inv_bytes; [assumption|]. apply (mem_slot _ (bytes s) m' g A i); try assumption; try apply HI. rewrite Hc.
  assert (Hz : bytes s (pin (geo A) i) = 0).
  { apply (pin_zero _ (hi_layout _ _ _ HI) (bytes s) g A); [apply (hi_mem _ _ _ HI)|assumption|unfold slotted in Hi; lia]. }
  pose proof (pin_lt_start (geo A) i). split.
  - apply (hdr_enc_ext (bytes s)); try assumption; [apply (gk_geom _ _ _ HG)|rewrite Hext by lia; assumption|].
    intros b Hb. apply Hext. lia.
  - apply (size_enc_ext (bytes s)); [assumption|apply Hext; lia|]. intros b Hb. apply Hext. lia.
Qed.

(** ** malloc_usable_size *)

Lemma block_pos G s p n g A i x : heap_inv G s -> block_at G s p n g A i x -> 0 < p /\ pin (geo A) (i + 1) < 2 ^ 47.
Proof.
  intros HI [HA Hi Hc Hx HD HK HG Hh Hsz Hin He _]. pose proof (gk_geom _ _ _ HG) as Hgeo. pose proof (go_end _ Hgeo) as H47.
  destruct (go_base _ Hgeo) as [Hb0 _]. destruct (go_stride _ Hgeo) as [Hst _]. destruct Hin as (B1 & B2 & B3 & _).
  split; [unfold start, slotted, UNIT in *; nia|]. unfold pin, start, slotted, IB in *. nia.
Qed.

(** get_meta, get_slot_index and the frame of a block. *)
Lemma wp_block_frame {B} G s p n g A i x (k : Z -> Z -> meta -> M B) (Q : B -> heap K -> Prop) :
  heap_inv G s -> block_at G s p n g A i x -> wp (k g i x) s Q ->
  wp (let! g := get_meta bootstrap p in let! i := get_slot_index p in let! x := deref g in k g i x) s Q.
Proof.
  intros HI HB HQ. wp_step. apply (wp_find_block bootstrap G s p n g A i x _ HI HB). wp_step.
  apply (wp_slot_index s p i); [apply HB|]. wp_step. apply (wp_deref g x); [apply HB|]. exact HQ.
Qed.

Lemma usable_size_ok G s p n :
  heap_inv G s -> blocks (lay G) p n -> wp (malloc_usable_size bootstrap p) s (fun r s' => r = n /\ s' = s).
Proof.
  intros HI Hp. destruct (block_lookup bootstrap G s p n HI Hp) as (g & A & i & x & HB).
  destruct (block_pos G s p n g A i x HI HB) as [Hp0 _]. unfold malloc_usable_size. replace (p =? 0) with false by lia.
  apply (wp_block_frame G s p n g A i x _ _ HI HB). rewrite (ba_stride _ _ _ _ _ _ _ _ HB).
  destruct (ba_desc _ _ _ _ _ _ _ _ HB) as (Hmem & _). rewrite Hmem.
  change (storage (gbase (geo A)) + gstride (geo A) * i) with (start (geo A) i). rewrite <- pin_start.
  apply (wp_block_size bootstrap G s p n g A i x); auto.
Qed.

(** ** calloc *)

Lemma load_zero n m a : wf_mem m -> load n m a = 0 -> forall b, a <= b < a + Z.of_nat n -> m b = 0.
Proof.
  intros Hm. revert a; induction n as [|n IH]; intros a Hl b Hb; [lia|]. cbn [load] in Hl.
  pose proof (Hm a). pose proof (load_range n m (a + 1) Hm). destruct (Z.eq_dec b a) as [->|]; [lia|]. apply (IH (a + 1)); lia.
Qed.

Lemma scan_page_ok n m pp :
  wf_mem m -> let q := scan_page n m pp in pp - 16 * Z.of_nat n <= q <= pp /\ forall b, q <= b < pp -> m b = 0.
Proof.
  intros Hm. cbv zeta. revert pp; induction n as [|n IH]; intros pp; cbn [scan_page]; [split; [lia|intros; lia]|].
  destruct (Z.eqb_spec (Z.lor (load 8 m (pp - 8)) (load 8 m (pp - 16))) 0) as [E|E]; cbn [negb]; [|split; [lia|intros; lia]].
  apply Z.lor_eq_0_iff in E as [E1 E2]. destruct (IH (pp - 16)) as [H1' H2']. split; [lia|]. intros b Hb.
  destruct (Z.lt_ge_cases b (pp - 16)); [now apply H2'|].
  destruct (Z.lt_ge_cases b (pp - 8)); [apply (load_zero 8 m _ Hm E2)|apply (load_zero 8 m _ Hm E1)]; lia.
Qed.

(** What mal0_clear leaves: the first bytes, as many as it says, are to be cleared. *)
Definition cleared (p n : Z) s (k : Z) s' : Prop :=
  exists m, s' = with_bytes m s /\ wf_mem m /\ 0 <= k <= n /\ (forall b, ~ p <= b < p + n -> m b = bytes s b) /\
    forall b, p + k <= b < p + n -> m b = 0.

Lemma mal0_loop_ok fuel p n pp i s :
  wf_mem (bytes s) -> 0 <= p -> p + n < 2 ^ 63 -> 0 <= i -> p <= pp - i -> pp <= p + n -> (pp - i - p) / 4096 < Z.of_nat fuel ->
  (forall b, pp <= b < p + n -> bytes s b = 0) -> wp (mal0_loop fuel p pp i) s (cleared p n s).
Proof.
  intros Hwf Hp Hpn. revert pp i s Hwf; induction fuel as [|fuel IH]; intros pp i s Hwf Hi Hlo Hhi Hf Hz.
  { assert (0 <= (pp - i - p) / 4096) by (apply Z.div_pos; lia). lia. }
  cbn [mal0_loop]. wp_step. wp_step. set (m := mfill (bytes s) (pp - i) 0 i).
  assert (Hwf' : wf_mem m) by (apply mfill_wf; [assumption|lia]).
  assert (Hz' : forall b, pp - i <= b < p + n -> m b = 0).
  { intros b Hb. unfold m, mfill, within. case_if; [reflexivity|]. apply Hz. lia. }
  assert (Hext : forall b, ~ p <= b < p + n -> m b = bytes s b).
  { intros b Hb. unfold m, mfill, within. case_if; [lia|reflexivity]. }
  rewrite u64_small by lia. destruct (Z.ltb_spec (pp - i - p) 4096) as [Hlt|Hge].
  - wp_step. exists m. split; [reflexivity|]. split; [assumption|]. split; [lia|]. split; [assumption|]. intros b Hb. apply Hz'. lia.
  - wp_step. wp_step. cbn [bytes with_bytes]. destruct (scan_page_ok 256 m (pp - i) Hwf') as [Hs1 Hs2]. set (q := scan_page 256 m (pp - i)) in *.
    apply (wp_mono _ _ (cleared p n (with_bytes m s))).
    + apply IH; try assumption; try lia.
      * replace (q - (4096 - (pp - i - q)) - p) with (pp - i - p + (-1) * 4096) by ring. rewrite Z_div_plus_full by lia. lia.
      * intros b Hb. cbn. destruct (Z.lt_ge_cases b (pp - i)); [apply Hs2; lia|apply Hz'; lia].
    + intros k s' (m2 & -> & W1 & W2 & W3 & W4). exists m2. split; [reflexivity|]. split; [assumption|]. split; [assumption|]. split; [|assumption].
      intros b Hb. rewrite W3 by assumption. now apply Hext.
Qed.

Lemma mal0_clear_ok p n s : wf_mem (bytes s) -> 0 <= p -> 0 <= n -> p + n < 2 ^ 63 -> wp (mal0_clear p n) s (cleared p n s).
Proof.
  intros Hwf Hp Hn Hpn. unfold mal0_clear. destruct (Z.ltb_spec n 4096) as [Hlt|Hge].
  - wp_step. exists (bytes s). rewrite with_bytes_same. split; [reflexivity|]. split; [assumption|]. split; [lia|]. split; [auto|intros; lia].
  - change 4095 with (Z.ones 12). rewrite Z.land_ones by lia. change (2 ^ 12) with 4096.
    pose proof (Z.mod_pos_bound (p + n) 4096 ltac:(lia)). apply mal0_loop_ok; try assumption; try lia.
    assert (0 <= n / 4096) by (apply Z.div_pos; lia).
    assert ((p + n - (p + n) mod 4096 - p) / 4096 <= n / 4096) by (apply Z.div_le_mono; lia). lia.
Qed.

(** A new block whose bytes are all zero, or null. *)
Definition calloc_spec (n : Z) (G : ghost) s (p : Z) s' : Prop :=
  malloc_spec bootstrap n G s p s' /\ (p <> 0 -> forall b, p <= b < p + n -> bytes s' b = 0).

Lemma spec_write n G s p s' m' :
  p <> 0 -> malloc_spec bootstrap n G s p s' -> wf_mem m' -> (forall b, ~ p <= b < p + n -> m' b = bytes s' b) ->
  (forall b, p <= b < p + n -> m' b = 0) -> calloc_spec n G s p (with_bytes m' s').
Proof.
  intros Hp0 (G' & HI & El & Ek & [[Hp00 _]|(_ & H16 & Hnew & Has & Hb)]) Hwf Hext Hz; [contradiction|].
  assert (HB : blocks (lay G') p n) by (apply Hb; now right). split; [|auto].
  exists G'. split; [now apply (inv_write G' s' p n)|]. split; [assumption|]. split.
  - intros q k b Hq Hqb. cbn. rewrite Hext; [now apply (Ek q k)|]. intros Hpb.
    destruct (blocks_disjoint _ (hi_layout _ _ _ HI) q k p n b) as [Eq En]; try assumption; [apply Hb; now left|].
    subst. now apply (Hnew n).
  - right. split; [assumption|]. split; [assumption|]. split; [assumption|]. split; [|assumption].
    intros g A i HA Hi Hc. split; [now apply (Has g A i)|]. intros _ b Hb'. now apply Hz.
Qed.

Lemma wp_is_allzero G s p n g A i x (Q : bool -> heap K -> Prop) :
  heap_inv G s -> block_at G s p n g A i x ->
  Q ((48 <=? gsc (geo A)) || (gstride (geo A) <? UNIT * class_units (gsc (geo A)))) s -> wp (is_allzero bootstrap p) s Q.
Proof.
  intros HI HB HQ. unfold is_allzero. wp_step. apply (wp_find_block bootstrap G s p n g A i x _ HI HB).
  wp_step. apply (wp_deref g x); [apply HB|]. wp_step. rewrite (ba_stride _ _ _ _ _ _ _ _ HB).
  destruct (ba_desc _ _ _ _ _ _ _ _ HB) as (_ & _ & -> & _). exact HQ.
Qed.

Lemma calloc_ok malloc_replaced G s m n :
  heap_inv G s -> 0 <= m < 2 ^ 64 -> 0 <= n < 2 ^ 64 ->
  wp (calloc bootstrap random_secret malloc_replaced m n) s (calloc_spec (m * n) G s).
Proof.
  intros HI Hm Hn. unfold calloc. destruct (_ && _) eqn:Eo.
  { wp_steps. split; [|contradiction]. apply (spec_null bootstrap _ G s G); [now apply (inv_errno bootstrap)|].
    apply (evolve_bytes _ _ _ _ s); [apply evolve_refl|reflexivity]. }
  assert (Hmn : 0 <= m * n < 2 ^ 64).
  { split; [nia|]. destruct (Z.eq_dec n 0) as [->|Hn0]; [lia|]. assert (Hle : m <= SIZE_MAX / n) by lia.
    pose proof (Z.mul_div_le SIZE_MAX n ltac:(lia)). unfold SIZE_MAX in *. nia. }
  rewrite Z.mul_comm, u64_small by assumption. set (k := m * n) in *.
  wp_step. eapply wp_mono; [apply (malloc_ok bootstrap random_secret G s k HI Hmn)|]. intros p s1 HS.
  destruct (Z.eqb_spec p 0) as [->|Hp0]; [wp_step; split; [assumption|contradiction]|].
  pose proof HS as (G' & HI' & _ & _ & [[Hz _]|(_ & _ & _ & Hzero & Hb)]); [contradiction|].
  assert (HB : blocks (lay G') p k) by (apply Hb; now right).
  destruct (block_lookup bootstrap G' s1 p k HI' HB) as (g & A & i & x & HA). pose proof (block_pos G' s1 p k g A i x HI' HA) as [Hpp Hpe].
  wp_step. apply (wp_mono _ _ (fun z s' => s' = s1 /\ (z = true -> forall b, p <= b < p + k -> bytes s1 b = 0))).
  - destruct malloc_replaced; [wp_step; split; [reflexivity|discriminate]|].
    apply (wp_is_allzero G' s1 p k g A i x _ HI' HA). split; [reflexivity|]. intros Ez.
    apply (Hzero g A i); try apply HA. lia.
  - intros z s' [-> Hz]. destruct z; [wp_step; split; auto|].
    destruct (ba_in _ _ _ _ _ _ _ _ HA) as (_ & Hk & Hend & _).
    wp_step. eapply wp_mono; [apply (mal0_clear_ok p k s1); try lia; apply (hi_mem _ _ _ HI')|].
    intros r s2 (m2 & -> & W1 & W2 & W3 & W4). wp_step. wp_step. wp_step. cbn [bytes with_bytes].
    change (with_bytes ?a (with_bytes ?b ?c)) with (with_bytes a c). apply spec_write; try assumption.
    + apply mfill_wf; [assumption|lia].
    + intros b Hb'. rewrite <- W3 by assumption. unfold mfill, within. case_if; [lia|reflexivity].
    + intros b Hb'. unfold mfill, within. case_if; [reflexivity|]. apply W4. lia.
Qed.
End Use.
