(* ===== verification/HeapRealloc.v ===== *)
(** * HeapRealloc: realloc

    A block changes its size in its slot, moves with its pages (mremap), or moves to
    a new block ([realloc_ok]). *)

From stdpp Require Import gmap list.
From Stdlib Require Import ZArith Lia ZifyBool.
From S2P Require Import Prelude MemCopy Malloc Slots Frames Rings Layout Heap HeapOps HeapTake HeapGrow HeapMalloc HeapFree HeapUse.
Open Scope Z_scope.
Open Scope heap_scope.

Section Realloc.
Context {K : Type} `{KernelLaws K}.
Variables bootstrap random_secret : Z.
Implicit Types s : heap K.
Notation heap_inv := (@heap_inv K _ _ bootstrap).
Notation block_at := (@block_at K).

(** ** A new size in the same slot *)

(** The size is in the upper bits of the byte of the index. *)
Lemma hdr_enc_size m m' G i p :
  hdr_enc m G i p -> Z.land (m' (p - 3)) 31 = Z.land (m (p - 3)) 31 ->
  (forall b, p - 8 <= b < p -> b <> p - 3 -> m' b = m b) -> hdr_enc m' G i p.
Proof.
  intros (H1 & H2 & H3 & H4 & H5 & H6) Hi Hext. split; [assumption|]. split; [assumption|]. split; [assumption|].
  split; [assumption|]. split; [congruence|].
  rewrite Hext, (load_ext 2 m), (load_ext 4 m) by (try intros x Hx; try apply Hext; lia). exact H6.
Qed.

(** Block [p] has size [n] now. *)
Definition resized (L : layout) (p q n : Z) (L' : layout) : Prop :=
  forall r j, blocks L' r j <-> blocks L r j /\ r <> p \/ r = q /\ j = n.

Lemma blocks_resized L g A i p k q n :
  layout_ok L -> groups L !! g = Some A -> slotted A i -> cont A i = Block p k ->
  resized L p q n (put_group L g (set_cont A i (Block q n))).
Proof.
  intros HL HA Hi Hc r j. split.
  - intros (h & B & l & HB & Hl & Hcl). cbn in HB. rewrite lookup_insert in HB. case_decide as E.
    + injection HB as <-. subst h. cbn in Hcl. destruct (Z.eqb_spec l i) as [El|El]; [injection Hcl as <- <-; now right|].
      left. split; [exists g, A, l; auto|]. intros ->.
      destruct (block_unique _ HL p j g A l g A i k HA Hl Hcl HA Hi Hc) as (_ & _ & El' & _). contradiction.
    + left. split; [exists h, B, l; auto|]. intros ->.
      destruct (block_unique _ HL p j h B l g A i k HB Hl Hcl HA Hi Hc) as (Eh & _). congruence.
  - intros [[(h & B & l & HB & Hl & Hcl) Hr]|[-> ->]].
    + destruct (Z.eq_dec h g) as [->|].
      * rewrite HA in HB. injection HB as <-. exists g, (set_cont A i (Block q n)), l. cbn. rewrite lookup_insert_eq.
        destruct (Z.eqb_spec l i) as [->|]; [congruence|auto].
      * exists h, B, l. cbn. rewrite lookup_insert_ne by congruence. auto.
    + exists g, (set_cont A i (Block q n)), i. cbn. rewrite lookup_insert_eq, Z.eqb_refl. auto.
Qed.

(** What realloc promises of a block of size [k]: null, or the block of the new size
    with the bytes of the old one. *)
Definition realloc_spec (p k n : Z) (G : ghost) s (r : Z) s' : Prop :=
  exists G', heap_inv G' s' /\ limbo G' = limbo G /\
    (forall q j b, blocks (lay G) q j -> q <> p -> q <= b < q + j -> bytes s' b = bytes s b) /\
    (r = 0 /\ same_blocks (lay G) (lay G') /\ (forall b, p <= b < p + k -> bytes s' b = bytes s b) \/
     r <> 0 /\ r mod 16 = 0 /\ (r = p \/ forall j, ~ blocks (lay G) r j) /\ resized (lay G) p r n (lay G') /\
     forall d, 0 <= d < Z.min k n -> bytes s' (r + d) = bytes s (p + d)).

Lemma new_size_ok G s p k g A i x n :
  heap_inv G s -> block_at G s p k g A i x -> 0 <= n -> p + n <= pin (geo A) (i + 1) -> pin (geo A) (i + 1) - p - n < 2 ^ 31 ->
  wp (set_size p (pin (geo A) (i + 1)) n) s (fun _ s' => realloc_spec p k n G s p s').
Proof.
  intros HI HB Hn He Hr. destruct (block_pos bootstrap G s p k g A i x HI HB) as [Hp0 _].
  destruct HB as [HA Hi Hc Hx HD HK HG Hh Hsz Hin Hend Est]. destruct Hin as (B1 & B2 & B3 & B4).
  pose proof (pin_lt_start (geo A) i) as Hps.
  apply (set_size_ok s p _ n); [apply (hi_mem _ _ _ HI)|assumption|lia|]. intros m Hwf Hs Hidx Hext.
  assert (Hown : forall b, own (lay G) b <> Some (OSlot g i) -> m b = bytes s b).
  { intros b Hb. apply Hext.
    - intros ->. apply Hb. destruct (Z.lt_ge_cases (p - 3) (start (geo A) i)); [apply (gk_front _ _ _ HG); [assumption|lia]|].
      apply (gk_body _ _ _ HG); [assumption|now rewrite Hc|lia].
    - intros Hrg. apply Hb. apply (gk_body _ _ _ HG); [assumption|now rewrite Hc|lia]. }
  exists (set_lay (put_group (lay G) g (set_cont A i (Block p n))) G). split; [|split; [reflexivity|split]].
  - apply (set_content bootstrap G s g A i (Block p n)); try assumption; try reflexivity; try (now rewrite Hc).
    + intros q j [= <- <-]. split; [assumption|]. auto.
    + split; [|assumption]. apply (hdr_enc_size (bytes s)); [assumption|assumption|]. intros b Hb Hne. apply Hext; lia.
  - intros q j b (h & B & l & HB & Hl & Hcl) Hq Hb. cbn. apply Hown.
    rewrite (block_own _ (hi_layout _ _ _ HI) h B l q j b HB Hl Hcl Hb). intros [= -> ->]. rewrite HA in HB. injection HB as <-. congruence.
  - right. split; [lia|]. split; [assumption|]. split; [now left|]. split; [now apply (blocks_resized _ g A i p k p); [apply HI|..]|].
    intros d Hd. cbn. apply Hext; lia.
Qed.

(** ** A group that moves *)

Lemma inv_mremap G0 G s base len new (Q : option Z -> heap K -> Prop) :
  heap_inv G0 s -> heap_inv G s -> base mod 4096 = 0 -> 0 < len -> page_up len = len -> page_up new = new ->
  (forall b, base <= b < base + len -> own (lay G) b = None) ->
  (forall e k', let s' := with_errno e (with_kern k' s) in heap_inv G0 s' -> Q None s') ->
  (forall q k' m', 0 < q -> q mod 4096 = 0 -> q + new <= 2 ^ 47 ->
     let s' := with_bytes m' (with_kern k' s) in heap_inv G s' ->
     (forall b, q <= b < q + new -> own (lay G) b = None /\ mapped k' b) ->
     (forall d, 0 <= d < Z.min len new -> m' (q + d) = bytes s (base + d)) ->
     (forall b o, own (lay G) b = Some o -> m' b = bytes s b) -> Q (Some q) s') ->
  wp (mremap base len new) s Q.
Proof.
  intros HI0 HI Hb Hlen Epl Epn Hno HQ0 HQ. unfold mremap. destruct (PTRDIFF_MAX <=? new).
  { wp_steps. specialize (HQ0 ENOMEM (kern s)). rewrite with_kern_same in HQ0. apply HQ0. now apply (inv_errno bootstrap). }
  unfold call. wp_steps.
  destruct (k_mremap base len new (kern s)) as [[q|e] k'] eqn:E.
  - destruct (mremap_done base len new (kern s) q k' Hb E) as (H1' & H2' & H3' & H4' & H5' & H6'). rewrite Epl, Epn in *. wp_steps. cbn [bytes with_kern].
    set (m' := mfill _ _ _ _).
    assert (Hout : forall b, ~ q <= b < q + new -> m' b = bytes s b).
    { intros b Hr. unfold m', mfill, mcopy, within. repeat case_if; try lia; reflexivity. }
    assert (Hun : forall b, q <= b < q + new -> own (lay G) b = None).
    { intros b Hr. destruct (own (lay G) b) as [o|] eqn:Eo; [|reflexivity].
      rewrite Hno in Eo; [discriminate|]. apply H5'; [assumption|]. exact (eo_mapped _ _ _ _ _ _ _ (hi_env _ _ _ HI) b o Eo). }
    assert (Hown : forall b o, own (lay G) b = Some o -> m' b = bytes s b).
    { intros b o Ho. apply Hout. intros Hr. rewrite Hun in Ho by assumption. discriminate. }
    apply (HQ q k' m'); try assumption.
    + destruct HI as [I1 I2 I3 I4 I5]. split; cbn; try assumption.
      * apply (mem_unowned _ (bytes s)); try assumption. apply mfill_wf; [apply mcopy_wf; apply I2|lia].
      * apply (env_ext bootstrap (lay G) _ (metas s) _ _ _ (cnts s) _ (kern s)); try assumption; try apply I5; try reflexivity.
        intros b o Ho. apply H6'. left. split; [exact (eo_mapped _ _ _ _ _ _ _ I5 b o Ho)|]. intros Hr. rewrite Hno in Ho by assumption. discriminate.
    + intros b Hr. split; [now apply Hun|]. apply H6'. now right.
    + intros d Hd. unfold m', mfill, mcopy, within. repeat case_if; try lia. f_equal. lia.
  - pose proof (mremap_failed base len new (kern s) e k' E) as H1'. wp_steps. apply HQ0.
    destruct HI0 as [I1 I2 I3 I4 I5]. split; cbn; try assumption. apply (env_kern bootstrap _ _ _ _ _ (kern s)); [assumption|].
    intros b Hm. now apply H1'.
Qed.

(** The group of a large block, without its memory. *)
Definition unplaced (G : ghost) (g : Z) (A : group) : ghost := Ghost (del_mapped (lay G) g A) (qs G) (fl G) [g].

Lemma unplaced_own G s g A b o :
  heap_inv G s -> groups (lay G) !! g = Some A -> (forall i, slotted A i -> is_nest (cont A i) = false) ->
  (forall h, owner_of h o -> h <> g) -> own (lay G) b = Some o -> own (lay (unplaced G g A)) b = Some o.
Proof.
  intros HI HA Hn Ho Hb. cbn. unfold disclaim. destruct (within _ _ b) eqn:E; [|assumption]. apply within_region in E.
  destruct (region_owned _ g A b (hi_layout _ _ _ HI g A HA) Hn E) as (o' & Eo & Hg). rewrite Hb in Eo. injection Eo as <-.
  now destruct (Ho g Hg).
Qed.

(** The group of the block at its new place. *)
Definition placed_group (q pages p n : Z) : group :=
  Group (big_geom q pages) (fun j => if j =? 0 then Block p n else Free) 0 None (q + pages * 4096).

Lemma big_pin q pages : pin (big_geom q pages) 1 = q + pages * 4096 - 4.
Proof. unfold pin, start, big_geom, UNIT, IB. cbn [gbase gstride]. unfold UNIT. lia. Qed.
Lemma big_start q pages : start (big_geom q pages) 0 = q + 16.
Proof. unfold start, big_geom, UNIT. cbn [gbase gstride]. lia. Qed.

Lemma placed_fresh q pages p n :
  geom_ok (big_geom q pages) -> block_in (big_geom q pages) 0 p n -> fresh_ok (placed_group q pages p n).
Proof.
  intros HG Hb. split; [assumption|cbn; lia| |cbn; lia|].
  - cbn [geo placed_group top]. change (gcnt (big_geom q pages)) with 1. rewrite big_pin. lia.
  - intros j Hj. unfold slotted in Hj. cbn in Hj. replace j with 0 by lia. split; [reflexivity|]. split; [cbn; lia|].
    split; [discriminate|]. now intros a b [= <- <-].
Qed.

Lemma blocks_placed G g A p k q pages r n :
  layout_ok (lay G) -> groups (lay G) !! g = Some A -> gcnt (geo A) = 1 -> cont A 0 = Block p k ->
  resized (lay G) p r n (add_mapped (lay (unplaced G g A)) g (placed_group q pages r n)).
Proof.
  intros HL HA H1' Hc a j. assert (H0' : slotted A 0) by (unfold slotted; lia). split.
  - intros (h & B & l & HB & Hl & Hcl). cbn in HB. rewrite lookup_insert in HB. case_decide as E.
    + injection HB as <-. unfold slotted in Hl. cbn in Hl, Hcl. replace l with 0 in Hcl by lia. injection Hcl as <- <-. now right.
    + rewrite lookup_delete_ne in HB by assumption. left. split; [exists h, B, l; auto|]. intros ->.
      destruct (block_unique _ HL p j h B l g A 0 k HB Hl Hcl HA H0' Hc) as (Eh & _). congruence.
  - intros [[(h & B & l & HB & Hl & Hcl) Hr]|[-> ->]].
    + destruct (Z.eq_dec h g) as [->|].
      * rewrite HA in HB. injection HB as <-. replace l with 0 in Hcl by (unfold slotted in Hl; lia). congruence.
      * exists h, B, l. cbn. rewrite lookup_insert_ne, lookup_delete_ne by congruence. auto.
    + exists g, (placed_group q pages r n), 0. cbn. rewrite lookup_insert_eq. split; [reflexivity|]. split; [unfold slotted; cbn; lia|reflexivity].
Qed.

Lemma masks_placed x A q pages p k r n :
  gcnt (geo A) = 1 -> cont A 0 = Block p k -> masks_ok x A -> masks_ok x (placed_group q pages r n).
Proof.
  intros H1' Hc (M1 & M2 & M3). unfold masks_ok, slotted in *. rewrite H1' in *. split; [exact M1|]. split; [exact M2|].
  intros i Hi. cbn in Hi. replace i with 0 by lia. destruct (M3 0 ltac:(lia)) as [E1 E2]. rewrite Hc in E1. split; [exact E1|].
  intros E. rewrite E in E1. discriminate.
Qed.

Lemma load_shift n m m' a a' : (forall d, 0 <= d < Z.of_nat n -> m' (a' + d) = m (a + d)) -> load n m' a' = load n m a.
Proof.
  revert a a'; induction n as [|n IH]; intros a a' Hd; cbn [load]; [reflexivity|].
  specialize (Hd 0) as H0'. rewrite !Z.add_0_r in H0'. rewrite H0' by lia. f_equal. f_equal. apply IH. intros d Hd'.
  replace (a' + 1 + d) with (a' + (d + 1)) by ring. rewrite Hd by lia. f_equal. ring.
Qed.

(** The header moves with the group. *)
Lemma hdr_enc_moved m m' A0 q pages p :
  gsc A0 = 63 -> hdr_enc m A0 0 p -> start A0 0 <= p -> let p' := q + (p - gbase A0) in
  q mod 16 = 0 -> gbase A0 mod 16 = 0 -> p' <= q + pages * 4096 - 4 -> Z.land (m' (p' - 3)) 31 = Z.land (m (p - 3)) 31 ->
  (forall b, p - 8 <= b < p -> b <> p - 3 -> m' (q + (b - gbase A0)) = m b) -> hdr_enc m' (big_geom q pages) 0 p'.
Proof.
  intros H63 (E1 & E2 & _ & _ & E5 & E6) Hst p' Hq Hg Hp' Hidx Hext. unfold start, UNIT in Hst.
  assert (Eoff : (p' - (gbase (big_geom q pages) + UNIT)) / UNIT = (p - (gbase A0 + UNIT)) / UNIT).
  { f_equal. unfold p', big_geom, UNIT. cbn [gbase]. lia. }
  unfold hdr_enc. rewrite Eoff. split; [unfold p'; zlia|]. split; [assumption|]. split.
  - change (gcnt (big_geom q pages)) with 1. pose proof (big_pin q pages). unfold pin, IB in *. lia.
  - split; [cbn; lia|]. split; [congruence|].
    assert (E4 : m' (p' - 4) = m (p - 4)) by (rewrite <- Hext by lia; f_equal; unfold p'; ring).
    assert (L2 : load 2 m' (p' - 2) = load 2 m (p - 2)).
    { apply load_shift. intros d Hd. rewrite <- Hext by lia. f_equal. unfold p'. ring. }
    rewrite E4, L2. destruct E6 as [E6|(F1 & F2 & F3 & F4)]; [now left|right]. split; [assumption|]. split; [assumption|]. split; [|assumption].
    rewrite <- F3. apply load_shift. intros d Hd. rewrite <- Hext by lia. f_equal. unfold p'. ring.
Qed.

(** The memory of the group is at [q] now, and nobody's yet. *)
Definition relocated (G : ghost) s (g : Z) (A : group) (pages q : Z) s1 : Prop :=
  let G1 := unplaced G g A in
  heap_inv G1 s1 /\ metas s1 = metas s /\ 0 < q /\ q mod 4096 = 0 /\ q + pages * 4096 <= 2 ^ 47 /\
  (forall b, q <= b < q + pages * 4096 -> own (lay G1) b = None /\ mapped (kern s1) b) /\
  (forall d, 0 <= d < Z.min (gpages (geo A) * 4096) (pages * 4096) -> bytes s1 (q + d) = bytes s (gbase (geo A) + d)) /\
  (forall b o, own (lay G1) b = Some o -> bytes s1 b = bytes s b).

Lemma settle_ok G s p k g A x n q pages s1 :
  heap_inv G s -> block_at G s p k g A 0 x -> gsc (geo A) = 63 -> limbo G = [] -> relocated G s g A pages q s1 -> 1 <= pages -> 0 <= n ->
  let base := p - start (geo A) 0 in
  base + n + 20 <= pages * 4096 <= base + n + 20 + 4095 ->
  let e := pin (big_geom q pages) 1 in let p' := q + 16 + base in
  wp (update g (with_gmem q) ;; update g (with_maplen pages) ;; put_byte e 0 ;; set_size p' e n ;; ret (Some p')) s1
    (fun r s' => r = Some p' /\ realloc_spec p k n G s p' s').
Proof.
  intros HI HB H63 Elb HR Hpg Hn. cbv zeta. set (base := p - start (geo A) 0). intros Hsz.
  destruct HR as (HI1 & Em & Hq & Hqm & Hq47 & Hreg & Hcopy & Hkeep). set (G1 := unplaced G g A) in *. set (e := pin (big_geom q pages) 1). set (p' := q + 16 + base).
  pose proof (big_pin q pages : e = _) as He. destruct HB as [HA Hi Hc Hx HD HK HG Hh Hse Hin Hend Est]. destruct Hin as (B1 & B2 & B3 & B4).
  pose proof (gk_geom _ _ _ HG) as Hgeo. destruct (go_class _ Hgeo) as [|[_ Hsg]]; [lia|]. destruct Hsg as [H1' Hown].
  assert (Hst0 : start (geo A) 0 = gbase (geo A) + 16) by (unfold start, UNIT; lia).
  assert (Hpin1 : pin (geo A) 1 = gbase (geo A) + gpages (geo A) * 4096 - 4).
  { unfold pin, start, IB. rewrite (go_single _ Hgeo) by (split; assumption). unfold UNIT. lia. }
  change (0 + 1) with 1 in *. assert (Hb0 : 0 <= base) by (unfold base; lia).
  assert (Hpe : p = gbase (geo A) + 16 + base) by (unfold base; lia).
  assert (Hb16 : base mod 16 = 0).
  { pose proof (start_aligned (geo A) 0 Hgeo). unfold base in *. zlia. }
  assert (Hp16 : p' mod 16 = 0) by (unfold p'; zlia).
  assert (Hnest : forall i, slotted A i -> is_nest (cont A i) = false).
  { intros i Hi'. unfold slotted in Hi'. replace i with 0 by lia. now rewrite Hc. }
  pose proof (big_geom_ok q pages Hq Hqm Hpg Hq47) as HGn.
  assert (Hgp : 1 <= gpages (geo A)) by (pose proof (go_pages _ Hgeo); unfold own_pages in Hown; lia).
  (* the new frame *)
  wp_step. apply (wp_update g _ x); [now rewrite Em|]. wp_step. apply (wp_update g _ (with_gmem q x)); [apply lookup_insert_eq|].
  cbn [metas with_metas]. rewrite insert_insert_eq. set (x' := with_maplen pages (with_gmem q x)).
  wp_step. wp_step. wp_step. cbn [bytes with_metas]. set (m1 := (bytes s1)<{e := u8 0}>).
  assert (Hwf1 : wf_mem m1) by (apply mset_wf; [apply (hi_mem _ _ _ HI1)|now compute]).
  assert (Hc1 : forall b, gbase (geo A) <= b < p + Z.min k n -> b - gbase (geo A) < pages * 4096 - 4 -> m1 (q + (b - gbase (geo A))) = bytes s b).
  { intros b Hb Hb2. unfold m1. rewrite mset_ne by (unfold e in *; lia). rewrite Hcopy by lia. f_equal. lia. }
  apply set_size_ok; [exact Hwf1|assumption|unfold p' in *; lia|]. intros m Hwf Hs Hidx Hext. cbn [bytes with_bytes] in *. wp_step.
  change (with_bytes m _) with (with_metas (<[g := x']> (metas s1)) (with_bytes m s1)).
  assert (Hmq : forall d, 0 <= d < pages * 4096 -> q + d <> p' - 3 -> ~ p' + n <= q + d < e -> m (q + d) = m1 (q + d)) by (intros d _ E1 E2; now apply Hext).
  assert (Hlow : forall b, gbase (geo A) <= b < p + Z.min k n -> b <> p - 3 -> m (q + (b - gbase (geo A))) = bytes s b).
  { intros b Hb Hb2. rewrite Hmq by (unfold p' in *; lia). apply Hc1; lia. }
  split; [reflexivity|].
  assert (Hun : forall b o, own (lay G1) b = Some o -> ~ q <= b < q + pages * 4096).
  { intros b o Ho Hr. destruct (Hreg b Hr) as [Hno _]. congruence. }
  assert (Hkeep2 : forall b o, own (lay G1) b = Some o -> m b = bytes s b).
  { intros b o Ho. pose proof (Hun b o Ho). rewrite Hext by (unfold p' in *; lia). unfold m1. rewrite mset_ne by lia. now apply (Hkeep b o). }
  set (C := placed_group q pages p' n). assert (Hbin : block_in (big_geom q pages) 0 p' n).
  { unfold block_in. rewrite big_start. change (0 + 1) with 1. rewrite big_pin. unfold p' in *. lia. }
  assert (HgN : groups (lay G1) !! g = None) by (cbn; apply lookup_delete_eq).
  assert (HI3 : heap_inv G1 (with_metas (<[g := x']> (metas s1)) (with_bytes m s1))).
  { apply (inv_limbo_meta bootstrap G1 (with_bytes m s1) g x); try assumption; [|now left|cbn; now rewrite Em|split; reflexivity].
    apply inv_free_bytes; [assumption|assumption|]. intros b o Ho. rewrite (Hkeep2 b o Ho). symmetry. now apply (Hkeep b o). }
  assert (HI4 : heap_inv (set_lay (add_mapped (lay G1) g C) G1) (with_metas (<[g := x']> (metas s1)) (with_bytes m s1))).
  { apply (inv_add_mapped bootstrap G1 _ g C x'); try assumption; try reflexivity.
    - now left.
    - apply lookup_insert_eq.
    - destruct HD as (D1 & D2 & D3 & D4 & D5). unfold describes, x'. cbn. rewrite D2, D3. auto with lia.
    - apply (masks_placed x' A q pages p k p' n); assumption.
    - now apply placed_fresh.
    - unfold own_pages. cbn. lia.
    - pose proof (mo_groups _ _ (hi_mem _ _ _ HI) g A HA) as [G1' G2' _]. pose proof (gk_act _ _ _ HG) as Hact. rewrite H1' in Hact.
      split; cbn [geo C placed_group gbase big_geom act bytes with_metas with_bytes].
      + apply (eq_trans (y := load 8 (bytes s) (gbase (geo A)))); [|exact G1']. apply load_shift. intros d Hd. replace d with (gbase (geo A) + d - gbase (geo A)) at 1 by ring. apply Hlow; lia.
      + replace (q + 8) with (q + (gbase (geo A) + 8 - gbase (geo A))) by ring. rewrite Hlow by lia. lia.
      + intros j Hj. unfold slotted in Hj. cbn in Hj. replace j with 0 by lia. split; [|exact Hs].
        replace p' with (q + (p - gbase (geo A))) by (unfold p'; lia). apply (hdr_enc_moved (bytes s)); try assumption; try zlia.
        * replace (q + (p - gbase (geo A)) - 3) with (p' - 3) by (unfold p'; lia). rewrite Hidx.
          replace (p' - 3) with (q + (p - 3 - gbase (geo A))) by (unfold p'; lia). rewrite Hc1 by lia. reflexivity.
        * intros b Hb Hne. apply Hlow; lia.
    - intros i Hi'. change (gcnt (geo C)) with 1 in Hi'. cbn [bytes with_metas with_bytes geo C placed_group].
      assert (Ecase : i = 0 \/ i = 1) by lia. destruct Ecase as [-> | ->].
      + assert (Ep0 : pin (big_geom q pages) 0 = q + (pin (geo A) 0 - gbase (geo A))) by (rewrite !pin0; cbn; lia).
        rewrite Ep0, pin0. rewrite Hlow by lia. rewrite <- pin0.
        apply (pin_zero _ (hi_layout _ _ _ HI) (bytes s) g A); [apply (hi_mem _ _ _ HI)|assumption|lia].
      + fold e. rewrite Hext by (unfold p' in *; lia). unfold m1. now rewrite mset_eq. }
  assert (HI5 : heap_inv (Ghost (add_mapped (lay G1) g C) (qs G) (fl G) []) (with_metas (<[g := x']> (metas s1)) (with_bytes m s1))).
  { refine (inv_drop bootstrap _ _ g [] HI4 eq_refl _). intros B HB. cbn in HB. rewrite lookup_insert_eq in HB. injection HB as <-.
    intros j Hj. unfold slotted in Hj. cbn in Hj. now replace j with 0 by lia. }
  eexists. split; [exact HI5|]. split; [now rewrite Elb|]. split; [|right].
  - intros h j b Hb Hne Hin. cbn [bytes with_metas with_bytes]. destruct Hb as (r & B & l & HB & Hl & Hcl).
    assert (Hrg : r <> g).
    { intros ->. rewrite HA in HB. injection HB as <-. replace l with 0 in Hcl by (unfold slotted in Hl; lia). congruence. }
    apply (Hkeep2 b (OSlot r l)). apply (unplaced_own G s g A b); try assumption; [intros a [= <-]; exact Hrg|].
    exact (block_own _ (hi_layout _ _ _ HI) r B l h j b HB Hl Hcl Hin).
  - split; [unfold p'; lia|]. split; [assumption|]. split; [|split].
    + destruct (Z.eq_dec p' p) as [|Hpp]; [now left|right]. intros j (r & B & l & HB & Hl & Hcl).
      assert (Hrg : r <> g).
      { intros ->. rewrite HA in HB. injection HB as <-. replace l with 0 in Hcl by (unfold slotted in Hl; lia). congruence. }
      pose proof (block_start _ (hi_layout _ _ _ HI) r B l p' j HB Hl Hcl) as Ho.
      apply (Hun p' (OSlot r l)); [|unfold p' in *; lia]. apply (unplaced_own G s g A p'); try assumption. intros a [= <-]. exact Hrg.
    + apply (blocks_placed G g A p k q pages p' n); try assumption. apply HI.
    + intros d Hd. cbn [bytes with_metas with_bytes]. replace (p' + d) with (q + (p + d - gbase (geo A))) by (unfold p'; lia). apply Hlow; lia.
Qed.

Lemma unplace_ok G s p k g A i x :
  heap_inv G s -> block_at G s p k g A i x -> limbo G = [] -> gsc (geo A) = 63 ->
  i = 0 /\ heap_inv (unplaced G g A) s /\
  (forall b, gbase (geo A) <= b < gbase (geo A) + gpages (geo A) * 4096 ->
     own (lay (unplaced G g A)) b = None /\ mapped (kern s) b).
Proof.
  intros HI [HA Hi Hc Hx HD HK HG Hh Hse Hin Hend Est] Elb H63. pose proof (gk_geom _ _ _ HG) as Hgeo.
  destruct (go_class _ Hgeo) as [|[_ [H1' Hown]]]; [lia|]. assert (Ei : i = 0) by (unfold slotted in Hi; lia). subst i.
  split; [reflexivity|]. assert (Hnest : forall j, slotted A j -> is_nest (cont A j) = false).
  { intros j Hj. unfold slotted in Hj. replace j with 0 by lia. now rewrite Hc. }
  assert (Hup : up A = None /\ top A = gbase (geo A) + gpages (geo A) * 4096).
  { pose proof (gk_up _ _ _ HG) as HU. destruct (up A) as [[h j]|]; [destruct HU as [HU _]; contradiction|split; [reflexivity|apply HU]]. }
  destruct Hup as [Hup Htop]. split.
  - change (unplaced G g A) with (set_lay (del_mapped (lay (Ghost (lay G) (qs G) (fl G) [g])) g A) (Ghost (lay G) (qs G) (fl G) [g])).
    apply inv_del_mapped; try assumption; [|now left]. rewrite <- Elb. apply inv_grab; [assumption| |now rewrite Elb].
    split; [eexists; exact Hx|]. pose proof (hi_lists _ _ _ HI) as HL. split.
    + intros Hf. rewrite (lo_free_groups _ _ _ _ HL g Hf) in HA. discriminate.
    + intros sc Hs Hq. pose proof (qs_class G _ _ _ g A sc HL Hs Hq HA). lia.
  - intros b Hb. assert (Hr : in_region A b) by (unfold in_region; lia). split; [cbn; now apply disclaim_in|].
    destruct (region_owned _ g A b HG Hnest Hr) as (o & Ho & _). exact (eo_mapped _ _ _ _ _ _ _ (hi_env _ _ _ HI) b o Ho).
Qed.

Lemma round_pages n : Z.land n (-4096) = n / 4096 * 4096.
Proof.
  change (-4096) with (Z.lnot (Z.ones 12)). rewrite <- Z.ldiff_land, Z.ldiff_ones_r by lia.
  rewrite Z.shiftl_mul_pow2, Z.shiftr_div_pow2 by lia. reflexivity.
Qed.

Lemma page_up_pages n : 0 <= n <= 2 ^ 51 + 2 ^ 40 -> page_up (n * 4096) = n * 4096.
Proof. intros Hn. unfold page_up, PAGESIZE. rewrite u64_small by lia. zlia. Qed.

(** [None] is "not possible". *)
Lemma remap_ok G s p k g A i x n :
  heap_inv G s -> block_at G s p k g A i x -> limbo G = [] -> 0 <= n < 2 ^ 63 - 4097 ->
  wp (remap g p (start (geo A) i) n) s (fun r s' =>
    match r with Some q => realloc_spec p k n G s q s' | None => heap_inv G s' /\ bytes s' = bytes s end).
Proof.
  intros HI HB Elb Hn. pose proof HB as [HA Hi Hc Hx HD HK HG Hh Hse Hin Hend Est]. unfold remap.
  wp_step. apply (wp_deref g x _ _ Hx). destruct HD as (D1 & D2 & D3 & D4 & D5). rewrite D1, D3, D4.
  destruct ((48 <=? gsc (geo A)) && (MMAP_THRESHOLD <=? n)) eqn:Eb; [|wp_step; auto].
  pose proof (gk_geom _ _ _ HG) as Hgeo. assert (H63 : gsc (geo A) = 63) by (destruct (go_class _ Hgeo) as [|[]]; lia).
  destruct (unplace_ok G s p k g A i x HI HB Elb H63) as (-> & HI1 & Hreg).
  destruct (block_pos bootstrap G s p k g A 0 x HI HB) as [Hp0 Hp47]. destruct Hin as (B1 & B2 & B3 & B4).
  destruct (go_base _ Hgeo) as [Hb0 Hb16]. pose proof (go_pages _ Hgeo) as Hgp.
  assert (Hst0 : start (geo A) 0 = gbase (geo A) + 16) by (unfold start, UNIT; lia).
  wp_step. wp_step; [lia|]. set (base := p - start (geo A) 0). assert (Hbase : 0 <= base < 2 ^ 47) by (unfold base; lia).
  set (pages := (n + base + 16 + 4 + 4095) / 4096).
  assert (En : Z.land (u64 (n + base + UNIT + IB + 4095)) (-4096) = pages * 4096) by (unfold UNIT, IB; now rewrite u64_small, round_pages by lia).
  rewrite !En. assert (Hpg : 1 <= pages /\ base + n + 20 <= pages * 4096 <= base + n + 20 + 4095) by (unfold pages; zlia). destruct Hpg as [Hpg Hsz].
  rewrite u64_small by lia. clearbody pages.
  destruct (go_class _ Hgeo) as [|[_ [_ Hown]]]; [lia|]. destruct (go_mapped _ Hgeo Hown) as [Hbm _].
  wp_step. apply (wp_mono _ _ (fun r s1 => match r with None => heap_inv G s1 /\ bytes s1 = bytes s | Some q => relocated G s g A pages q s1 end)).
  - destruct (Z.eqb_spec (gpages (geo A) * 4096) (pages * 4096)) as [E|E].
    + wp_step. split; [exact HI1|]. rewrite <- E. split; [reflexivity|]. split; [assumption|]. split; [assumption|].
      split; [|split; [exact Hreg|auto]]. pose proof (go_end _ Hgeo).
      assert (pin (geo A) 1 = gbase (geo A) + gpages (geo A) * 4096 - 4).
      { unfold pin, start, IB. destruct (go_class _ Hgeo) as [|[_ Hsg]]; [lia|]. rewrite (go_single _ Hgeo Hsg). unfold UNIT. lia. }
      destruct (go_class _ Hgeo) as [|[_ [Hc1 _]]]; [lia|]. rewrite Hc1 in *. unfold pin, IB in *. lia.
    + apply (inv_mremap G (unplaced G g A)); try assumption; try lia; try (apply page_up_pages; lia).
      * unfold own_pages in Hown. lia.
      * intros b Hb. now apply Hreg.
      * intros e k' s' HI'. split; [exact HI'|reflexivity].
      * intros q k' m' Hq Hqm Hq47 s' HI' Hr Hcp Hkp. split; [exact HI'|]. split; [reflexivity|]. auto 10.
  - intros [q|] s1 HR; [|wp_step; exact HR]. rewrite Z.div_mul by lia.
    replace (storage q + (pages * 4096 - UNIT) - IB) with (pin (big_geom q pages) 1) by (rewrite big_pin; unfold storage, UNIT, IB; lia).
    change (storage q + base) with (q + 16 + base).
    eapply wp_mono; [apply (settle_ok G s p k g A x n q pages s1 HI HB H63 Elb HR Hpg); [lia|exact Hsz]|]. now intros r s2 [-> HS].
Qed.

(** ** realloc *)

(** The bytes of a block that stays. *)
Lemma free_after G s p k q n G1 s1 s2 m :
  heap_inv G s -> blocks (lay G) p k -> heap_inv G1 s1 -> limbo G1 = limbo G -> q <> 0 -> q mod 16 = 0 ->
  (forall j, ~ blocks (lay G) q j) ->
  (forall r j, blocks (lay G1) r j <-> blocks (lay G) r j \/ r = q /\ j = n) ->
  (forall r j b, blocks (lay G) r j -> r <= b < r + j -> bytes s1 b = bytes s b) ->
  m = mcopy (bytes s1) q p (Z.min k n) -> free_spec bootstrap p G1 (with_bytes m s1) s2 -> realloc_spec p k n G s q s2.
Proof.
  intros HI Hp HI1 El Hq0 Hq16 Hnew Hb Hk -> (G2 & HI2 & El2 & Hb2 & Hk2). cbn [bytes with_bytes] in Hk2.
  assert (Hpq : q <> p) by (intros ->; now apply (Hnew k)).
  assert (Bq : blocks (lay G1) q n) by (apply Hb; now right).
  assert (Hsz : 0 <= n).
  { destruct Bq as (h & B & i & HB & Hi & Hc). now destruct (gk_block _ _ _ (hi_layout _ _ _ HI1 h B HB) i q n Hi Hc) as (_ & ? & _). }
  assert (Hcp : forall b, mcopy (bytes s1) q p (Z.min k n) b = if within q (Z.min k n) b then bytes s1 (p + (b - q)) else bytes s1 b) by (intros b; unfold mcopy; case_if; [f_equal; lia|reflexivity]).
  exists G2. split; [assumption|]. split; [congruence|]. split.
  - intros r j b Hr Hrp Hin. assert (Hrq : r <> q) by (intros ->; now apply (Hnew j)).
    rewrite (Hk2 r j b); [|apply Hb; now left|assumption|assumption]. rewrite Hcp. unfold within. case_if; [|now apply (Hk r j)].
    destruct (blocks_disjoint _ (hi_layout _ _ _ HI1) r j q n b) as [Eq _]; try assumption; [apply Hb; now left|lia|contradiction].
  - right. split; [assumption|]. split; [assumption|]. split; [now right|]. split.
    + intros r j. rewrite (Hb2 r j), (Hb r j). split.
      * intros [[?|[-> ->]] ?]; auto.
      * intros [[? ?]|[-> ->]]; auto.
    + intros d Hd. rewrite (Hk2 q n (q + d)); [|assumption|assumption|lia]. rewrite Hcp. unfold within.
      replace ((q <=? q + d) && _) with true by lia. replace (q + d - q) with d by ring. apply (Hk p k); [assumption|lia].
Qed.

Lemma realloc_null G s p k n s' :
  blocks (lay G) p k -> malloc_spec bootstrap n G s 0 s' -> realloc_spec p k n G s 0 s'.
Proof.
  intros Hp (G' & HI & El & Hk & [[_ Hs]|(Hc & _)]); [|contradiction]. exists G'. split; [assumption|]. split; [assumption|].
  split; [intros q j b Hq _; now apply (Hk q j)|]. left. split; [reflexivity|]. split; [assumption|]. intros b Hb. now apply (Hk p k).
Qed.

Lemma realloc_spec_bytes p k n G s s1 r s' :
  bytes s1 = bytes s -> realloc_spec p k n G s1 r s' -> realloc_spec p k n G s r s'.
Proof. unfold realloc_spec. now intros ->. Qed.

Lemma realloc_ok G s p k n :
  heap_inv G s -> blocks (lay G) p k -> limbo G = [] -> 0 <= n < 2 ^ 64 ->
  wp (realloc bootstrap random_secret p n) s (fun r s' => realloc_spec p k n G s r s').
Proof.
  intros HI Hp Elb Hn. destruct (block_lookup bootstrap G s p k HI Hp) as (g & A & i & x & HB).
  destruct (block_pos bootstrap G s p k g A i x HI HB) as [Hp0 Hp47]. unfold realloc, size_overflows. replace (p =? 0) with false by lia.
  wp_step. change (SIZE_MAX / 2 - 4096) with 9223372036854771711. destruct (Z.leb_spec 9223372036854771711 n) as [Ho|Ho].
  { wp_steps. apply realloc_null; [assumption|]. apply (spec_null bootstrap n G s G); [now apply (inv_errno bootstrap)|].
    apply (evolve_bytes _ _ _ _ s); [apply evolve_refl|reflexivity]. }
  wp_step. pose proof HB as [HA Hi Hc Hx HD HK HG Hh Hse Hin Hend Est]. destruct Hin as (B1 & B2 & B3 & B4).
  pose proof (gk_geom _ _ _ HG) as Hgeo.
  wp_step. apply (wp_find_block bootstrap G s p k g A i x _ HI HB). wp_step. apply (wp_slot_index s p i); [apply HB|].
  wp_step. apply (wp_deref g x); [assumption|]. rewrite Est. destruct HD as (D1 & D2 & D3 & D4 & D5). rewrite D1.
  change (storage (gbase (geo A)) + gstride (geo A) * i) with (start (geo A) i). rewrite <- pin_start.
  wp_step. apply (wp_block_size bootstrap G s p k g A i x); [assumption|assumption|]. rewrite D3.
  destruct (_ && (gsc (geo A) <=? _)) eqn:Eb.
  - wp_step. eapply wp_mono; [apply (new_size_ok G s p k g A i x n HI HB); try lia|].
    + destruct (size_to_class_ok n ltac:(lia)) as (S1 & _). unfold MMAP_THRESHOLD in *.
      assert (H48 : 0 <= gsc (geo A) < 48) by (destruct (go_class _ Hgeo) as [|[]]; lia).
      pose proof (class_units_range _ H48). destruct (decide (single (geo A))) as [Hs|Hs].
      * destruct (go_odd _ Hgeo Hs ltac:(lia)) as [[Ho' _]|[Ho' _]]; unfold pin, start, UNIT, IB in *; nia.
      * destruct (go_several _ Hgeo Hs) as [Ho' _]. unfold pin, start, UNIT, IB in *; nia.
    + intros u s1 HS. wp_step. exact HS.
  - wp_step. eapply wp_mono; [apply (remap_ok G s p k g A i x n HI HB Elb); lia|]. intros [q|] s1 HS; [wp_step; exact HS|].
    destruct HS as [HI1 Eb1]. wp_step. eapply wp_mono; [apply (malloc_ok bootstrap random_secret G s1 n HI1 Hn)|]. intros q s2 HS.
    destruct (Z.eqb_spec q 0) as [->|Hq0].
    { wp_step. apply (realloc_spec_bytes p k n G s s1); [assumption|]. now apply realloc_null. }
    destruct HS as (G2 & HI2 & El2 & Hk2 & [[Hz _]|(_ & H16 & Hnew & _ & Hb2)]); [contradiction|].
    wp_step. wp_step. wp_step. replace (if n <? k then n else k) with (Z.min k n) by (destruct (Z.ltb_spec n k); lia).
    set (m := mcopy (bytes s2) q p (Z.min k n)). assert (Hbq : blocks (lay G2) q n) by (apply Hb2; now right).
    assert (HI3 : heap_inv G2 (with_bytes m s2)).
    { apply (inv_write bootstrap G2 s2 q n); try assumption; [apply mcopy_wf; apply (hi_mem _ _ _ HI2)|].
      intros b Hb. unfold m, mcopy, within. case_if; [lia|reflexivity]. }
    eapply wp_mono; [apply (free_ok bootstrap G2 (with_bytes m s2) p k HI3); [apply Hb2; now left|congruence]|]. intros u s3 HF. wp_step.
    apply (realloc_spec_bytes p k n G s s1); [assumption|]. now apply (free_after G s1 p k q n G2 s2 s3 m).
Qed.
End Realloc.
