(* ===== verification/HeapAlign.v ===== *)
(** * HeapAlign: aligned_alloc

    A block at a multiple of the alignment: a larger block is taken, and its header
    moves up inside the slot ([aligned_alloc_ok]). *)

From stdpp Require Import gmap list.
From Stdlib Require Import ZArith Lia ZifyBool.
From S2P Require Import Prelude MemCopy Malloc Slots Frames Rings Layout Heap HeapOps HeapTake HeapGrow HeapMalloc HeapFree HeapUse HeapRealloc.
Open Scope Z_scope.
Open Scope heap_scope.

Section Align.
Context {K : Type} `{KernelLaws K}.
Variables (bootstrap random_secret : Z) (malloc_replaced aligned_alloc_replaced : bool).
Implicit Types s : heap K.
Notation heap_inv := (@heap_inv K _ _ bootstrap).
Notation block_at := (@block_at K).

(** ** Powers of two *)

(** align & -align is align: 0 or a power of two. *)
Lemma power_of_two a :
  0 <= a < 2 ^ 64 -> Z.land a (u64 (- a)) = a -> a = 0 \/ exists j, 0 <= j < 64 /\ a = 2 ^ j.
Proof.
  intros Ha Hl. destruct (Z.eq_dec a 0) as [|Hnz]; [now left|right]. exists (Z.log2 a).
  assert (Hj : 0 <= Z.log2 a < 64) by (split; [apply Z.log2_nonneg|apply Z.log2_lt_pow2; lia]). split; [assumption|].
  apply Z.bits_inj'. intros n Hn. rewrite Z.pow2_bits_eqb by lia. destruct (Z.eqb_spec (Z.log2 a) n) as [<-|Hne].
  - apply Z.bit_log2. lia.
  - destruct (Z.lt_ge_cases (Z.log2 a) n) as [Hlt|Hge]; [now apply Z.bits_above_log2; lia|].
    destruct (Z.testbit a n) eqn:Eb; [|reflexivity]. exfalso.
    (* the highest bit would not be in -a *)
    assert (Eh : Z.testbit (u64 (- a)) (Z.log2 a) = true).
    { pose proof (Z.bit_log2 a ltac:(lia)) as Hb. rewrite <- Hl in Hb at 1. rewrite Z.land_spec in Hb. now apply andb_prop in Hb. }
    change (u64 (- a)) with ((- a) mod 2 ^ 64) in Eh. rewrite Z.mod_pow2_bits_low in Eh by lia.
    rewrite Z.bits_opp in Eh by lia. apply Bool.negb_true_iff in Eh. revert Eh.
    rewrite <- Bool.not_true_iff_false. intros Eh. apply Eh.
    assert (Hlow : 2 ^ Z.log2 a <= a - 1).
    { pose proof (Z.log2_spec a ltac:(lia)) as [Hlo _]. destruct (Z.eq_dec a (2 ^ Z.log2 a)) as [Ea|]; [|lia]. exfalso.
      rewrite Ea in Eb. rewrite Z.pow2_bits_false in Eb by lia. discriminate. }
    assert (El : Z.log2 (Z.pred a) = Z.log2 a).
    { apply Z.log2_unique; [lia|]. pose proof (Z.log2_spec a ltac:(lia)). lia. }
    rewrite <- El at 1. apply Z.bit_log2. lia.
Qed.

Lemma align_up p j : 0 <= j < 64 -> 0 <= p < 2 ^ 63 ->
  let adj := Z.land (u64 (- p)) (2 ^ j - 1) in 0 <= adj < 2 ^ j /\ (p + adj) mod 2 ^ j = 0.
Proof.
  intros Hj Hp. cbv zeta. replace (2 ^ j - 1) with (Z.ones j) by (rewrite Z.ones_equiv; lia).
  rewrite Z.land_ones by lia. assert (Hpow : 0 < 2 ^ j) by (apply Z.pow_pos_nonneg; lia).
  split; [apply Z.mod_pos_bound; lia|]. change (u64 (- p)) with ((- p) mod 2 ^ 64).
  replace (2 ^ 64) with (2 ^ j * 2 ^ (64 - j)) by (rewrite <- Z.pow_add_r by lia; f_equal; lia).
  assert (Hm : (- p) mod (2 ^ j * 2 ^ (64 - j)) mod 2 ^ j = (- p) mod 2 ^ j).
  { rewrite Z.rem_mul_r by (try apply Z.pow_pos_nonneg; lia). rewrite (Z.mul_comm (2 ^ j)), Z_mod_plus_full. apply Z.mod_mod. lia. }
  rewrite Hm, Z.add_mod_idemp_r by lia. now rewrite Z.add_opp_diag_r.
Qed.

(** ** The header of the block that moved *)

Lemma wp_offset p off s (Q : unit -> heap K -> Prop) :
  wf_mem (bytes s) -> 0 <= off < 2 ^ 27 ->
  (forall m, wf_mem m -> (forall b, ~ p - 8 <= b < p -> m b = bytes s b) ->
     (m (p - 4) = 0 /\ load 2 m (p - 2) = off \/ m (p - 4) <> 0 /\ load 2 m (p - 2) = 0 /\ load 4 m (p - 8) = off /\ 0xffff < off) ->
     Q tt (with_bytes m s)) ->
  wp (if off <=? 0xffff then put_word 2 (p - 2) off ;; put_byte (p - 4) 0
      else put_word 2 (p - 2) 0 ;; put_word 4 (p - 8) off ;; put_byte (p - 4) 1) s Q.
Proof.
  intros Hwf Hoff HQ. destruct (Z.leb_spec off 0xffff) as [Hs|Hs].
  - wp_step. wp_step. wp_step. cbn [bytes with_bytes]. apply (HQ ((store 2 (bytes s) (p - 2) off)<{p - 4 := u8 0}>)).
    + apply mset_wf; [now apply store_wf|apply u8_range].
    + intros b Hb. rewrite mset_ne, store_out by lia. reflexivity.
    + left. split; [apply mset_eq|]. rewrite (load_ext 2 (store 2 (bytes s) (p - 2) off)) by (intros x Hx; apply mset_ne; lia).
      apply load_store. change (256 ^ Z.of_nat 2) with 65536. lia.
  - wp_step. wp_step. wp_step. wp_step. wp_step. cbn [bytes with_bytes].
    set (m0 := store 2 (bytes s) (p - 2) 0). set (m1 := store 4 m0 (p - 8) off).
    apply (HQ (m1<{p - 4 := u8 1}>)).
    + apply mset_wf; [now apply store_wf, store_wf|apply u8_range].
    + intros b Hb. unfold m1, m0. rewrite mset_ne, !store_out by lia. reflexivity.
    + right. split; [rewrite mset_eq; discriminate|]. split; [|split; [|lia]].
      * rewrite (load_ext 2 m0); [apply load_store; change (256 ^ Z.of_nat 2) with 65536; lia|].
        intros x Hx. rewrite mset_ne by lia. unfold m1. rewrite store_out by lia. reflexivity.
      * rewrite (load_ext 4 m1) by (intros x Hx; apply mset_ne; lia). apply load_store. change (256 ^ Z.of_nat 4) with (2 ^ 32). lia.
Qed.

(** get_meta finds the class of the slot: the aligned address is in its first units. *)
Lemma aligned_units C i p len j p' :
  geom_ok C -> 0 <= i < gcnt C -> gsc C < 48 -> 4 <= j -> 0 <= len -> fits C (len + 2 ^ j - 16) -> start C i <= p ->
  p + (len + 2 ^ j - 16) <= pin C (i + 1) -> p <= p' <= p + 2 ^ j - 16 -> p' mod 2 ^ j = 0 -> p' - start C i < UNIT * class_units (gsc C).
Proof.
  intros HC Hi H48 Hj Hlen (_ & _ & Hf) Hp He Hp' Hm. specialize (Hf H48). rewrite pin_start in He. unfold UNIT, IB in *.
  destruct (Z.le_gt_cases (gstride C) (16 * class_units (gsc C))) as [Hs|Hs]; [lia|]. destruct Hf as [Hf|Hf]; [lia|].
  destruct (Z.le_gt_cases j 11) as [Hj11|Hj12].
  - assert (2 ^ j <= 2 ^ 11) by (apply Z.pow_le_mono_r; lia). lia.
  - destruct (decide (single C)) as [Hsg|Hsg]; [|destruct (go_several _ HC Hsg); unfold UNIT in *; lia].
    pose proof (go_single _ HC Hsg) as Est. destruct (go_mapped _ HC (proj2 Hsg)) as [Hb _].
    assert (Ei : i = 0) by (destruct Hsg; lia). subst i.
    assert (Hm4 : p' mod 4096 = 0).
    { replace (2 ^ j) with (4096 * 2 ^ (j - 12)) in Hm by (change 4096 with (2 ^ 12); rewrite <- Z.pow_add_r by lia; f_equal; lia).
      assert (0 < 2 ^ (j - 12)) by (apply Z.pow_pos_nonneg; lia). rewrite Z.rem_mul_r in Hm by lia.
      pose proof (Z.mod_pos_bound p' 4096 ltac:(lia)). pose proof (Z.mod_pos_bound (p' / 4096) (2 ^ (j - 12)) ltac:(lia)). nia. }
    destruct (go_odd _ HC Hsg H48) as [[Ho _]|[Ho _]]; unfold UNIT in *; [lia|]. unfold start, UNIT in *. zlia.
Qed.

Lemma slot_below C i : geom_ok C -> 0 <= i < gcnt C -> start C i <= gbase C + 2 ^ 20 /\ start C i + gstride C <= start C (gcnt C).
Proof.
  intros HC Hi. destruct (go_stride _ HC) as [Hst _]. split; [|unfold start; nia]. unfold start, UNIT.
  destruct (decide (single C)) as [[E1 _]|Hn]; [assert (i = 0) by lia; subst i; lia|]. destruct (go_several _ HC Hn) as [_ Hlt]. unfold UNIT in Hlt. nia.
Qed.

(** The block [p] of [n] bytes becomes the block [p'] of [len] bytes in its slot. *)
Lemma shift_ok G s p n g A i x p' len :
  heap_inv G s -> block_at G s p n g A i x -> fits (geo A) n -> p + 16 <= p' -> p' mod 16 = 0 -> 0 <= len -> p' + len <= p + n ->
  n - len <= 2 ^ 30 -> (gsc (geo A) < 48 -> p' - start (geo A) i < UNIT * class_units (gsc (geo A))) ->
  let C := geo A in let off := u32 ((p' - storage (gbase C)) / UNIT) in
  wp ((if off <=? 0xffff then put_word 2 (p' - 2) off ;; put_byte (p' - 4) 0
       else put_word 2 (p' - 2) 0 ;; put_word 4 (p' - 8) off ;; put_byte (p' - 4) 1) ;;
      put_byte (p' - 3) i ;; set_size p' (pin C (i + 1)) len ;;
      put_word 2 (start C i - 2) ((p' - start C i) / UNIT) ;; put_byte (start C i - 3) (Z.shiftl 7 5) ;; ret p') s
    (fun r s' => r = p' /\ exists m, s' = with_bytes m s /\
       heap_inv (set_lay (put_group (lay G) g (set_cont A i (Block p' len))) G) s' /\
       forall b, own (lay G) b <> Some (OSlot g i) -> m b = bytes s b).
Proof.
  intros HI HB (Hn0 & Hfit & _) Hpp H16 Hlen Hend' Hgap Hcls. cbv zeta. destruct (block_pos bootstrap G s p n g A i x HI HB) as [Hp0 Hp47].
  destruct HB as [HA Hi Hc Hx HD HK HG Hh Hsz Hin He Est]. destruct Hin as (B1 & B2 & B3 & B4).
  pose proof (gk_geom _ _ _ HG) as Hgeo. destruct (slot_below _ i Hgeo Hi) as [Hb20 Hbs].
  pose proof (go_cnt _ Hgeo) as Hcnt. pose proof (go_end _ Hgeo) as Hge. destruct (go_base _ Hgeo) as [Hg0 Hg16].
  destruct (go_stride _ Hgeo) as [Hst16 Hstm]. pose proof (start_aligned (geo A) i Hgeo) as Hsa.
  assert (Hs0 : gbase (geo A) + 16 <= start (geo A) i) by (unfold start, UNIT, slotted in *; nia).
  assert (Epin : pin (geo A) (i + 1) = start (geo A) i + gstride (geo A) - 4) by (rewrite pin_start; reflexivity).
  unfold IB in Hfit. set (e := pin (geo A) (i + 1)) in *. set (st := start (geo A) i) in *. unfold storage, UNIT.
  set (off0 := (p' - (gbase (geo A) + 16)) / 16).
  assert (Hoff : 0 <= off0 < 2 ^ 27) by (unfold off0; split; [apply Z.div_pos; lia|apply Z.div_lt_upper_bound; lia]).
  rewrite u32_small by lia.
  wp_step. apply (wp_offset p' off0 s); [apply (hi_mem _ _ _ HI)|assumption|]. intros m1 Hwf1 Ho1 Henc. wp_step. wp_step. cbn [bytes with_bytes].
  set (m2 := m1<{p' - 3 := u8 i}>). wp_step. apply set_size_ok; cbn [bytes with_bytes].
  { apply mset_wf; [assumption|apply u8_range]. } { assumption. } { lia. }
  intros m3 Hwf3 Hse3 Hidx Ho3. do 5 wp_step. cbn [bytes with_bytes].
  set (m4 := (store 2 m3 (st - 2) ((p' - st) / 16))<{st - 3 := u8 (Z.shiftl 7 5)}>).
  assert (Hwf4 : wf_mem m4) by (apply mset_wf; [now apply store_wf|apply u8_range]).
  assert (Ho4 : forall b, ~ st - 3 <= b < st -> m4 b = m3 b) by (intros b Hb; unfold m4; rewrite mset_ne, store_out by lia; reflexivity).
  assert (Ho2 : forall b, b <> p' - 3 -> m2 b = m1 b) by (intros b Hb; now apply mset_ne).
  split; [reflexivity|]. exists m4. split; [reflexivity|].
  assert (Hown : forall b, own (lay G) b <> Some (OSlot g i) -> m4 b = bytes s b).
  { intros b Hb. assert (Hnr : ~ st - 3 <= b < e).
    { intros Hr. apply Hb. destruct (Z.lt_ge_cases b st); [apply (gk_front _ _ _ HG); [assumption|unfold pin, IB; fold st; lia]|].
      apply (gk_body _ _ _ HG); [assumption|now rewrite Hc|fold st e; lia]. }
    rewrite Ho4, Ho3, Ho2, Ho1 by lia. reflexivity. }
  split; [|exact Hown].
  change (with_bytes m4 _) with (with_bytes m4 s). apply (set_content bootstrap G s g A i (Block p' len)); try assumption; try reflexivity; try (now rewrite Hc).
  - intros q k [= <- <-]. unfold block_in. fold st e. lia.
  - split; [|apply (size_enc_ext m3); [exact Hse3|apply Ho4; lia|intros b Hb; apply Ho4; fold e in Hb; lia]].
    unfold hdr_enc, UNIT. fold off0. split; [assumption|]. split; [assumption|].
    assert (Hpe : p' <= start (geo A) (gcnt (geo A))) by lia. split; [assumption|]. split.
    + intros H48. specialize (Hcls H48). unfold UNIT in Hcls. assert (Eoff : off0 = gstride (geo A) / 16 * i + (p' - st) / 16).
      { unfold off0, st, start, UNIT. replace (p' - (gbase (geo A) + 16)) with (gstride (geo A) * i + (p' - (gbase (geo A) + 16 + gstride (geo A) * i))) by ring.
        rewrite (Z.div_mod (gstride (geo A)) 16) at 1 by lia. rewrite Hstm.
        replace ((16 * (gstride (geo A) / 16) + 0) * i) with ((gstride (geo A) / 16 * i) * 16) by ring. now rewrite Z.add_comm, Z_div_plus_full, Z.add_comm by lia. }
      assert (Hq : 0 <= (p' - st) / 16 < class_units (gsc (geo A))) by (split; [apply Z.div_pos; lia|apply Z.div_lt_upper_bound; lia]).
      rewrite Eoff. destruct (decide (single (geo A))) as [[E1 _]|Hns]; [unfold slotted in Hi; assert (i = 0) by lia; subst i; lia|].
      destruct (go_several _ Hgeo Hns) as [E3 _]. unfold UNIT in E3. rewrite E3. replace (16 * class_units (gsc (geo A)) / 16) with (class_units (gsc (geo A))) by zlia. nia.
    + assert (E3 : Z.land (m4 (p' - 3)) 31 = i).
      { rewrite Ho4, Hidx by lia. unfold m2. rewrite mset_eq, u8_small by (unfold slotted in Hi; lia).
        change 31 with (Z.ones 5). rewrite Z.land_ones, Z.mod_small by (unfold slotted in Hi; change (2 ^ 5) with 32; lia). reflexivity. }
      split; [exact E3|]. assert (Hh4 : forall b, p' - 8 <= b < p' -> b <> p' - 3 -> m4 b = m1 b) by (intros b Hb Hne; rewrite Ho4, Ho3, Ho2 by lia; reflexivity).
      rewrite Hh4, (load_ext 2 m1), (load_ext 4 m1) by (try intros y Hy; try apply Hh4; lia). exact Henc.
Qed.

(** ** aligned_alloc *)

(** Null, or a new block at a multiple of the alignment. *)
Definition aligned_spec (align n : Z) (G : ghost) s (p : Z) s' : Prop :=
  exists G', heap_inv G' s' /\ limbo G' = limbo G /\
    (forall q k b, blocks (lay G) q k -> q <= b < q + k -> bytes s' b = bytes s b) /\
    (p = 0 /\ same_blocks (lay G) (lay G') \/
     p <> 0 /\ p mod 16 = 0 /\ (align <> 0 -> p mod align = 0) /\ (forall k, ~ blocks (lay G) p k) /\
     forall q k, blocks (lay G') q k <-> blocks (lay G) q k \/ q = p /\ k = n).

Lemma aligned_null align n G s e : heap_inv G s -> aligned_spec align n G s 0 (with_errno e s).
Proof.
  intros HI. exists G. split; [now apply (inv_errno bootstrap)|]. split; [reflexivity|]. split; [reflexivity|]. left. now split.
Qed.

(** The larger block becomes the block. *)
Lemma aligned_block align len n G s p0 G1 s1 p G2 s2 :
  heap_inv G1 s1 -> limbo G1 = limbo G -> (forall k, ~ blocks (lay G) p0 k) ->
  (forall q k, blocks (lay G1) q k <-> blocks (lay G) q k \/ q = p0 /\ k = n) ->
  (forall q k b, blocks (lay G) q k -> q <= b < q + k -> bytes s1 b = bytes s b) ->
  heap_inv G2 s2 -> limbo G2 = limbo G1 -> resized (lay G1) p0 p len (lay G2) ->
  (forall q k b, blocks (lay G1) q k -> q <> p0 -> q <= b < q + k -> bytes s2 b = bytes s1 b) ->
  p <> 0 -> p mod 16 = 0 -> (align <> 0 -> p mod align = 0) -> (p = p0 \/ forall k, ~ blocks (lay G1) p k) ->
  aligned_spec align len G s p s2.
Proof.
  intros HI1 El1 Hnew Hb1 Hk1 HI2 El2 Hb2 Hk2 Hp H16 Hal Hor. exists G2. split; [assumption|]. split; [congruence|]. split.
  - intros q k b Hq Hin. rewrite (Hk2 q k b); [now apply (Hk1 q k)|apply Hb1; now left|intros ->; now apply (Hnew k)|assumption].
  - right. split; [assumption|]. split; [assumption|]. split; [assumption|]. split.
    + destruct Hor as [->|Hno]; [assumption|]. intros k Hk. apply (Hno k). apply Hb1. now left.
    + intros q k. rewrite (Hb2 q k), (Hb1 q k). split.
      * intros [[[?|[-> ->]] ?]|?]; auto; contradiction.
      * intros [Hq|?]; [left|now right]. split; [now left|]. intros ->. now apply (Hnew k).
Qed.

Lemma adjust_ok G s G1 s1 align len j p :
  heap_inv G1 s1 -> limbo G1 = limbo G -> (forall k, ~ blocks (lay G) p k) ->
  (forall q k, blocks (lay G1) q k <-> blocks (lay G) q k \/ q = p /\ k = len + 2 ^ j - 16) ->
  (forall q k b, blocks (lay G) q k -> q <= b < q + k -> bytes s1 b = bytes s b) ->
  as_asked G1 s1 p (len + 2 ^ j - 16) -> p mod 16 = 0 -> 4 <= j <= 30 -> 0 <= len -> (align <> 0 -> (align | 2 ^ j)) ->
  wp (let! g := get_meta bootstrap p in let! idx := get_slot_index p in let! x := deref g in
      let stride := get_stride x in
      let start := storage (gmem x) + stride * idx in
      let end_ := storage (gmem x) + stride * (idx + 1) - IB in
      let adj := Z.land (u64 (- p)) (2 ^ j - 1) in
      if adj =? 0 then set_size p end_ len ;; ret p
      else
        let p := p + adj in
        let offset := u32 ((p - storage (gmem x)) / UNIT) in
        (if offset <=? 0xffff then put_word 2 (p - 2) offset ;; put_byte (p - 4) 0
         else put_word 2 (p - 2) 0 ;; put_word 4 (p - 8) offset ;; put_byte (p - 4) 1) ;;
        put_byte (p - 3) idx ;;
        set_size p end_ len ;;
        put_word 2 (start - 2) ((p - start) / UNIT) ;;
        put_byte (start - 3) (Z.shiftl 7 5) ;;
        ret p) s1 (fun r s' => aligned_spec align len G s r s').
Proof.
  intros HI1 El1 Hnew Hb1 Hk1 Has H16 Hj Hlen Hdiv. set (n := len + 2 ^ j - 16) in *. assert (En : n = len + 2 ^ j - 16) by reflexivity. clearbody n. assert (Hp : blocks (lay G1) p n) by (apply Hb1; now right).
  destruct (block_lookup bootstrap G1 s1 p n HI1 Hp) as (g & A & i & x & HB). destruct (block_pos bootstrap G1 s1 p n g A i x HI1 HB) as [Hp0 Hp47].
  pose proof HB as [HA Hi Hc Hx HD HK HG Hh Hsz Hin He Est]. destruct Hin as (B1 & B2 & B3 & B4). pose proof (gk_geom _ _ _ HG) as Hgeo.
  destruct (Has g A i HA Hi Hc) as [Hfit _]. pose proof Hfit as (_ & Hfit' & _).
  apply (wp_block_frame bootstrap G1 s1 p n g A i x _ _ HI1 HB). destruct HD as (D1 & _). rewrite Est, D1. cbv zeta.
  change (storage (gbase (geo A)) + gstride (geo A) * i) with (start (geo A) i).
  change (storage (gbase (geo A)) + gstride (geo A) * (i + 1) - IB) with (pin (geo A) (i + 1)).
  assert (Hpow : 16 <= 2 ^ j <= 2 ^ 30) by (split; [change 16 with (2 ^ 4)|]; apply Z.pow_le_mono_r; lia).
  pose proof (pin_start (geo A) i) as Epin. unfold IB in Epin, Hfit'.
  destruct (align_up p j ltac:(lia) ltac:(lia)) as [Ha1 Ha2]. set (adj := Z.land (u64 (- p)) (2 ^ j - 1)) in *.
  assert (Hal : align <> 0 -> (p + adj) mod align = 0).
  { intros Hz. apply Z.mod_divide; [assumption|]. apply (Z.divide_trans _ (2 ^ j)); [now apply Hdiv|]. apply Z.mod_divide; lia. }
  assert (Ha16 : (p + adj) mod 16 = 0).
  { apply Z.mod_divide; [lia|]. apply (Z.divide_trans _ (2 ^ j)); [|apply Z.mod_divide; lia].
    exists (2 ^ (j - 4)). change 16 with (2 ^ 4). rewrite <- Z.pow_add_r by lia. f_equal. lia. }
  assert (H16a : adj mod 16 = 0) by zlia. assert (Hjm : 2 ^ j mod 16 = 0).
  { replace (2 ^ j) with (2 ^ (j - 4) * 16) by (change 16 with (2 ^ 4); rewrite <- Z.pow_add_r by lia; f_equal; lia). apply Z_mod_mult. }
  destruct (Z.eqb_spec adj 0) as [E0|E0].
  - rewrite E0, Z.add_0_r in *. wp_step. eapply wp_mono; [apply (new_size_ok bootstrap G1 s1 p n g A i x len HI1 HB); lia|].
    intros u s2 (G2 & HI2 & El2 & Hk2 & [[Hz _]|(Hpz & _ & _ & Hr & _)]); [lia|]. wp_step.
    apply (aligned_block align len n G s p G1 s1 p G2 s2); auto.
  - assert (Hadj : 16 <= adj <= 2 ^ j - 16) by zlia.
    assert (Hlt : p + adj < pin (geo A) (i + 1)).
    { pose proof (start_aligned (geo A) (i + 1) Hgeo). unfold pin, IB in *. zlia. }
    eapply wp_mono; [apply (shift_ok G1 s1 p n g A i x (p + adj) len HI1 HB Hfit); try lia|].
    + intros H48. apply (aligned_units (geo A) i p len j); try rewrite <- En; try assumption; lia.
    + intros r s2 (-> & m & -> & HI2 & Hown).
      refine (aligned_block align len n G s p G1 s1 (p + adj) _ _ HI1 El1 Hnew Hb1 Hk1 HI2 eq_refl _ _ _ Ha16 Hal _); [|..|right].
      * apply (blocks_resized _ g A i p n); try assumption. apply HI1.
      * intros q k b (h & B & l & HB' & Hl & Hcl) Hq Hb. cbn. apply Hown.
        rewrite (block_own _ (hi_layout _ _ _ HI1) h B l q k b HB' Hl Hcl Hb). intros [= -> ->]. rewrite HA in HB'. injection HB' as <-. congruence.
      * lia.
      * intros k (h & B & l & HB' & Hl & Hcl). pose proof (block_start _ (hi_layout _ _ _ HI1) h B l _ k HB' Hl Hcl) as Ho.
        rewrite (gk_body _ _ _ HG i (p + adj) Hi) in Ho; [|now rewrite Hc|lia]. injection Ho as <- <-. rewrite HA in HB'. injection HB' as <-.
        rewrite Hc in Hcl. injection Hcl as Hpp _. lia.
Qed.

Lemma aligned_alloc_ok G s align len :
  heap_inv G s -> 0 <= align <= 2 ^ 30 -> 0 <= len < 2 ^ 64 ->
  wp (aligned_alloc bootstrap random_secret malloc_replaced aligned_alloc_replaced align len) s (fun p s' => aligned_spec align len G s p s').
Proof.
  intros HI Ha Hl. unfold aligned_alloc.
  destruct (Z.eqb_spec (Z.land align (u64 (- align))) align) as [E|E]; cbn [negb]; [|wp_steps; now apply aligned_null].
  destruct (_ || _) eqn:Eo; [wp_steps; now apply aligned_null|].
  destruct (_ && _); [wp_steps; now apply aligned_null|].
  assert (Hj : exists j, 4 <= j <= 30 /\ (if align <=? UNIT then UNIT else align) = 2 ^ j /\ (align <> 0 -> (align | 2 ^ j)) /\ len + 2 ^ j - 16 < 2 ^ 64).
  { unfold UNIT, SIZE_MAX in *. destruct (power_of_two align ltac:(lia) E) as [->|(k & Hk & ->)]; [exists 4; split; [lia|]; split; [reflexivity|split; [contradiction|lia]]|].
    destruct (Z.leb_spec (2 ^ k) 16) as [Hle|Hgt].
    - exists 4. split; [lia|]. split; [reflexivity|]. split; [|lia]. intros _. assert (Hk4 : k <= 4) by (apply (Z.pow_le_mono_r_iff 2); [lia..|exact Hle]).
      exists (2 ^ (4 - k)). rewrite <- Z.pow_add_r by lia. f_equal. lia.
    - exists k. split; [|split; [reflexivity|split; [intros _; apply Z.divide_refl|lia]]].
      assert (4 < k) by (apply (Z.pow_lt_mono_r_iff 2); [lia..|exact Hgt]).
      assert (k <= 30) by (apply (Z.pow_le_mono_r_iff 2); [lia..|apply Ha]). lia. }
  destruct Hj as (j & Hj & -> & Hdiv & Hlt). assert (Hpow : 2 ^ 4 <= 2 ^ j) by (apply Z.pow_le_mono_r; lia).
  assert (Hov : 0 <= len + 2 ^ j - UNIT < 2 ^ 64) by (unfold UNIT; lia).
  rewrite u64_small by exact Hov. wp_step. eapply wp_mono; [apply (malloc_ok bootstrap random_secret G s _ HI Hov)|].
  intros p s1 (G1 & HI1 & El1 & Hk1 & [[-> Hs]|(Hp & H16 & Hnew & Has & Hb1)]).
  - change (0 =? 0) with true. cbv iota. wp_step. exists G1. auto 10.
  - replace (p =? 0) with false by lia. now apply (adjust_ok G s G1 s1 align len j p).
Qed.
End Align.
