(* ===== verification/Allocator.v ===== *)
(** * Allocator: what malloc, free and realloc promise

    For those who call the allocator its state is the map of the blocks that are
    allocated ([heap_ok]).  The heap of a new process is such a state, every call keeps
    it, and so no client that only frees and writes what it was given runs into one
    of the assertions of the allocator ([run_ok]). *)

From stdpp Require Import gmap list.
From Stdlib Require Import ZArith Lia ZifyBool.
From S2P Require Import Prelude MemCopy Malloc Slots Frames Rings Layout Heap HeapOps HeapTake HeapGrow HeapMalloc HeapFree HeapUse HeapRealloc HeapAlign.
Open Scope Z_scope.
Open Scope heap_scope.

(** Address and size of the blocks that are allocated. *)
Notation block_map := (gmap Z Z).

Section Allocator.
Context {K : Type} `{KernelLaws K}.
Variables (bootstrap random_secret : Z) (malloc_replaced aligned_alloc_replaced : bool).
Implicit Types (s : heap K) (B : block_map).
Notation heap_inv := (@heap_inv K _ _ bootstrap).
Notation malloc := (malloc bootstrap random_secret).
Notation free := (free bootstrap).
Notation realloc := (realloc bootstrap random_secret).
Notation calloc := (calloc bootstrap random_secret malloc_replaced).
Notation aligned_alloc := (aligned_alloc bootstrap random_secret malloc_replaced aligned_alloc_replaced).

Definition heap_ok B s : Prop :=
  exists G, heap_inv G s /\ limbo G = [] /\ forall p n, B !! p = Some n <-> blocks (lay G) p n.

Definition in_block B (b : Z) : Prop := exists p n, B !! p = Some n /\ p <= b < p + n.

(** The bytes of the blocks stay. *)
Definition keeps B s s' : Prop := forall b, in_block B b -> bytes s' b = bytes s b.

(** Null, or a new block at a multiple of the alignment. *)
Definition delivered (align n : Z) B s (p : Z) s' : Prop :=
  keeps B s s' /\
  (p = 0 /\ heap_ok B s' \/
   p <> 0 /\ p mod 16 = 0 /\ (align <> 0 -> p mod align = 0) /\ B !! p = None /\
   (forall b, p <= b < p + n -> ~ in_block B b) /\ heap_ok (<[p := n]> B) s').

(** ** From the invariant *)

Lemma keeps_blocks B s s' L :
  (forall p n, B !! p = Some n <-> blocks L p n) ->
  (forall q k b, blocks L q k -> q <= b < q + k -> bytes s' b = bytes s b) -> keeps B s s'.
Proof. intros HB Hk b (p & n & Hp & Hb). apply (Hk p n); [now apply HB|assumption]. Qed.

Lemma aligned_delivered align n G B s p s' :
  limbo G = [] -> (forall q k, B !! q = Some k <-> blocks (lay G) q k) ->
  aligned_spec bootstrap align n G s p s' -> delivered align n B s p s'.
Proof.
  intros El HB (G' & HI & El' & Hk & Hor). split; [now apply (keeps_blocks B s s' (lay G))|].
  destruct Hor as [[-> Hs]|(Hp & H16 & Hal & Hnew & Hb)]; [left|right].
  - split; [reflexivity|]. exists G'. split; [assumption|]. split; [congruence|]. intros q k. now rewrite HB, (Hs q k).
  - split; [assumption|]. split; [assumption|]. split; [assumption|].
    assert (Hno : B !! p = None) by (destruct (B !! p) as [k|] eqn:E; [apply HB in E; now destruct (Hnew k)|reflexivity]).
    split; [assumption|]. split.
    + intros b Hb' (q & k & Hq & Hqb). apply HB in Hq.
      destruct (blocks_disjoint _ (hi_layout _ _ _ HI) p n q k b) as [-> _]; try assumption; [apply Hb; now right|apply Hb; now left|now apply (Hnew k)].
    + exists G'. split; [assumption|]. split; [congruence|]. intros q k. rewrite (Hb q k), <- HB, lookup_insert. case_decide as E.
      * subst q. rewrite Hno. split; [intros [= <-]; now right|intros [|[_ ->]]; [discriminate|reflexivity]].
      * split; [now left|]. intros [|[? _]]; congruence.
Qed.

Lemma malloc_aligned n G s p s' : malloc_spec bootstrap n G s p s' -> aligned_spec bootstrap 16 n G s p s'.
Proof.
  intros (G' & HI & El & Hk & Hor). exists G'. split; [assumption|]. split; [assumption|]. split; [assumption|].
  destruct Hor as [|(Hp & H16 & Hnew & _ & Hb)]; [now left|right]. auto.
Qed.

Lemma malloc_delivers B s n : heap_ok B s -> 0 <= n < 2 ^ 64 -> wp (malloc n) s (delivered 16 n B s).
Proof.
  intros (G & HI & El & HB) Hn. eapply wp_mono; [apply (malloc_ok bootstrap random_secret G s n HI Hn)|]. intros p s' HS.
  apply (aligned_delivered 16 n G); try assumption. now apply malloc_aligned.
Qed.

Lemma calloc_delivers B s m n :
  heap_ok B s -> 0 <= m < 2 ^ 64 -> 0 <= n < 2 ^ 64 ->
  wp (calloc m n) s (fun p s' => delivered 16 (m * n) B s p s' /\ (p <> 0 -> forall b, p <= b < p + m * n -> bytes s' b = 0)).
Proof.
  intros (G & HI & El & HB) Hm Hn. eapply wp_mono; [apply (calloc_ok bootstrap random_secret malloc_replaced G s m n HI Hm Hn)|].
  intros p s' [HS Hz]. split; [|exact Hz]. apply (aligned_delivered 16 _ G); try assumption. now apply malloc_aligned.
Qed.

Lemma aligned_alloc_delivers B s align n :
  heap_ok B s -> 0 <= align <= 2 ^ 30 -> 0 <= n < 2 ^ 64 -> wp (aligned_alloc align n) s (delivered align n B s).
Proof.
  intros (G & HI & El & HB) Ha Hn. eapply wp_mono; [apply aligned_alloc_ok; eassumption|]. intros p s' HS.
  now apply (aligned_delivered align n G).
Qed.

Lemma free_frees B s p :
  heap_ok B s -> p = 0 \/ is_Some (B !! p) ->
  wp (free p) s (fun _ s' => keeps (delete p B) s s' /\ heap_ok (delete p B) s').
Proof.
  intros (G & HI & El & HB) Hp. destruct (Z.eq_dec p 0) as [->|Hp0].
  { unfold Malloc.free. change (0 =? 0) with true. cbv iota. wp_step. split; [intros b _; reflexivity|]. exists G. split; [assumption|].
    split; [assumption|]. intros q k. rewrite <- HB, lookup_delete. case_decide as E; [subst q|reflexivity]. split; [discriminate|].
    intros E. apply HB in E. destruct (block_lookup bootstrap G s 0 k HI E) as (g & A & i & x & Hx).
    destruct (block_pos bootstrap G s 0 k g A i x HI Hx). lia. }
  destruct Hp as [|[n Hn]]; [contradiction|]. eapply wp_mono; [apply (free_ok bootstrap G s p n HI); [now apply HB|assumption]|].
  intros u s' (G' & HI' & El' & Hb & Hk). split.
  - intros b (q & k & Hq & Hqb). rewrite lookup_delete in Hq. case_decide; [discriminate|]. apply (Hk q k); [now apply HB|congruence|assumption].
  - exists G'. split; [assumption|]. split; [congruence|]. intros q k. rewrite (Hb q k), <- HB, lookup_delete.
    case_decide as E; [subst q|]; intuition congruence.
Qed.

(** The block [p] is the block [q] of [n] bytes, with the bytes it had; or null. *)
Definition reallocated (p k n : Z) B s (q : Z) s' : Prop :=
  (q = 0 /\ keeps B s s' /\ heap_ok B s') \/
  (q <> 0 /\ q mod 16 = 0 /\ keeps (delete p B) s s' /\ heap_ok (<[q := n]> (delete p B)) s' /\
   (q = p \/ B !! q = None) /\ forall d, 0 <= d < Z.min k n -> bytes s' (q + d) = bytes s (p + d)).

Lemma realloc_moves B s p k n :
  heap_ok B s -> B !! p = Some k -> 0 <= n < 2 ^ 64 -> wp (realloc p n) s (reallocated p k n B s).
Proof.
  intros (G & HI & El & HB) Hp Hn. eapply wp_mono; [apply (realloc_ok bootstrap random_secret G s p k n HI); [now apply HB|assumption|assumption]|].
  intros q s' (G' & HI' & El' & Hk & [(-> & Hs & Hkp)|(Hq0 & H16 & Hor & Hb & Hd)]); [left|right].
  - split; [reflexivity|]. split.
    + intros b (r & j & Hr & Hrb). destruct (Z.eq_dec r p) as [->|Hrp]; [apply Hkp; rewrite Hp in Hr; now injection Hr as <-|].
      apply (Hk r j); [now apply HB|assumption|assumption].
    + exists G'. split; [assumption|]. split; [congruence|]. intros r j. now rewrite HB, (Hs r j).
  - split; [assumption|]. split; [assumption|]. split; [|split; [|split; [|assumption]]].
    + intros b (r & j & Hr & Hrb). rewrite lookup_delete in Hr. case_decide; [discriminate|]. apply (Hk r j); [now apply HB|congruence|assumption].
    + exists G'. split; [assumption|]. split; [congruence|]. intros r j. rewrite (Hb r j), <- HB, lookup_insert, lookup_delete.
      assert (Hq : q <> p -> B !! q = None).
      { intros Hqp. destruct Hor as [|Hno]; [contradiction|]. destruct (B !! q) as [j'|] eqn:E; [apply HB in E; now destruct (Hno j')|reflexivity]. }
      repeat case_decide; subst; try (intuition congruence).
    + destruct Hor as [|Hno]; [now left|right]. destruct (B !! q) as [j'|] eqn:E; [apply HB in E; now destruct (Hno j')|reflexivity].
Qed.

Lemma write_ok B s b v : heap_ok B s -> in_block B b -> heap_ok B (with_bytes (bytes s)<{b := u8 v}> s).
Proof.
  intros (G & HI & El & HB) (p & n & Hp & Hb). exists G. split; [|split; assumption].
  apply (inv_write bootstrap G s p n); [assumption|now apply HB|apply mset_wf; [apply (hi_mem _ _ _ HI)|apply u8_range]|].
  intros c Hc. apply mset_ne. lia.
Qed.

(** ** The heap of a new process *)

(** ctx is zero; the rest of memory is as it is. *)
Definition start_heap (m : mem) (e : Z) (k : K) : heap K :=
  Heap K m ∅ ∅ (Metas 0 false 0 0 0 0 0 0 0 0) (Counters 0 (repeat 0 48) (repeat 0 32) (repeat 0 32) 0) (repeat 0 48) e k.

(** ctx.bootstrap_meta is mapped, at an address of user memory. *)
Definition bootstrap_ok (k : K) : Prop :=
  0 < bootstrap /\ bootstrap + 24 * SIZEOF_META <= 2 ^ 47 /\
  forall b, bootstrap <= b < bootstrap + 24 * SIZEOF_META -> mapped k b.

Definition start_layout : layout :=
  Layout ∅ (fun b => if within bootstrap (24 * SIZEOF_META) b then Some OMeta else None).

Lemma start_inv m e k : wf_mem m -> bootstrap_ok k -> heap_inv (Ghost start_layout (fun _ => []) [] []) (start_heap m e k).
Proof.
  intros Hm (Hb0 & Hb47 & Hb). unfold SIZEOF_META in *.
  assert (Hown : forall b o, own start_layout b = Some o -> o = OMeta /\ bootstrap <= b < bootstrap + 960).
  { intros b o. cbn. unfold within, SIZEOF_META. destruct ((bootstrap <=? b) && _) eqn:E; [|discriminate]. intros [= <-]. split; [reflexivity|lia]. }
  assert (Hring : ring_ok ∅ []) by (split; [exact I|split; [constructor|intros k' []]]).
  assert (Hempty : forall k', ~ known ∅ k') by (intros k' [x Hx]; discriminate).
  split; cbn [lay start_heap metas areas mctx cnts active kern bytes].
  - intros g A HA. discriminate.
  - split; [assumption| |intros g A HA; discriminate]. intros b a Ho. apply Hown in Ho as [Ho _]. discriminate.
  - intros g A HA. discriminate.
  - split; cbn; try assumption; try reflexivity; try (intros; contradiction).
    + intros sc Hs. split; cbn; try assumption; try (intros; contradiction). intros g A HA. discriminate.
    + intros sc Hs. apply (lookup_replicate_2 48 0). lia.
    + intros k' Hk. now destruct (Hempty k').
    + constructor.
  - split; cbn; try reflexivity; try lia; try (intros; discriminate); try (intros; lia).
    + intros b o Ho. apply Hb. exact (proj2 (Hown b o Ho)).
    + intros g Hg. now destruct (Hempty g).
    + intros j Hj. split; [apply Hempty|]. unfold SIZEOF_META. split; [|lia]. cbn. unfold within, SIZEOF_META. case_if; [reflexivity|lia].
    + intros g Ho. apply Hown in Ho as [_ Ho]. lia.
Qed.

Lemma start_ok m e k : wf_mem m -> bootstrap_ok k -> heap_ok ∅ (start_heap m e k).
Proof.
  intros Hm Hb. eexists. split; [apply (start_inv m e k Hm Hb)|]. split; [reflexivity|]. intros p n. split; [discriminate|].
  intros (g & A & i & HA & _). discriminate.
Qed.

(** ** Clients *)

Inductive request : Type :=
| Malloc (n : Z) | Calloc (m n : Z) | Aligned_alloc (align n : Z) | Realloc (p n : Z) | Free (p : Z) | Write (b v : Z).

Definition size_ok (n : Z) : bool := (0 <=? n) && (n <? 2 ^ 64).

Definition in_blockb B (b : Z) : bool := existsb (fun '(p, n) => (p <=? b) && (b <? p + n)) (map_to_list B).

(** Sizes are of type size_t; what is freed or resized was given; what is written
    is in a block.  Alignments go up to 2^30. *)
Definition legal B (r : request) : bool :=
  match r with
  | Malloc n => size_ok n
  | Calloc m n => size_ok m && size_ok n
  | Aligned_alloc a n => (0 <=? a) && (a <=? 2 ^ 30) && size_ok n
  | Realloc p n => (if p =? 0 then true else if B !! p then true else false) && size_ok n
  | Free p => if p =? 0 then true else if B !! p then true else false
  | Write b v => in_blockb B b
  end.

Definition add_block (p n : Z) B : block_map := if p =? 0 then B else <[p := n]> B.

(** The request, and what the client knows of its blocks after it. *)
Definition serve B (r : request) : @M K block_map :=
  match r with
  | Malloc n => let! p := malloc n in ret (add_block p n B)
  | Calloc m n => let! p := calloc m n in ret (add_block p (m * n) B)
  | Aligned_alloc a n => let! p := aligned_alloc a n in ret (add_block p n B)
  | Realloc p n => let! q := realloc p n in ret (if q =? 0 then B else <[q := n]> (delete p B))
  | Free p => free p ;; ret (delete p B)
  | Write b v => put_byte b v ;; ret B
  end.

(** A client chooses its request from its blocks and the memory. *)
Fixpoint run (client : nat -> block_map -> mem -> request) (steps : nat) B : @M K block_map :=
  match steps with
  | O => ret B
  | S steps =>
      let! m := gets bytes in
      let! B := serve B (client steps B m) in
      run client steps B
  end.

Definition well_behaved (client : nat -> block_map -> mem -> request) : Prop :=
  forall n B m, legal B (client n B m) = true.

Lemma in_blockb_ok B b : in_blockb B b = true -> in_block B b.
Proof.
  unfold in_blockb. intros Hb. apply existsb_exists in Hb as ([p n] & Hin & Hr). exists p, n. split; [|lia].
  apply elem_of_map_to_list. now apply list_elem_of_In.
Qed.

Lemma delivered_ok align n B s p s' : delivered align n B s p s' -> heap_ok (add_block p n B) s'.
Proof.
  intros [_ [[-> HB]|(Hp & _ & _ & _ & _ & HB)]]; unfold add_block; [exact HB|]. now replace (p =? 0) with false by lia.
Qed.

Lemma zero_not_block B s : heap_ok B s -> B !! 0 = None.
Proof.
  intros (G & HI & El & HB). destruct (B !! 0) as [k|] eqn:E; [|reflexivity]. apply HB in E.
  destruct (block_lookup bootstrap G s 0 k HI E) as (g & A & i & x & Hx). destruct (block_pos bootstrap G s 0 k g A i x HI Hx). lia.
Qed.

Lemma serve_ok B s r : heap_ok B s -> legal B r = true -> wp (serve B r) s heap_ok.
Proof.
  intros HB Hl. destruct r as [n|m n|a n|p n|p|b v]; cbn [legal serve] in *; unfold size_ok in *.
  - wp_step. eapply wp_mono; [apply malloc_delivers; [eassumption|lia]|]. intros p s' HD. wp_step. now apply (delivered_ok 16 n B s).
  - wp_step. eapply wp_mono; [apply calloc_delivers; [eassumption|lia|lia]|]. intros p s' [HD _]. wp_step. now apply (delivered_ok 16 (m * n) B s).
  - wp_step. eapply wp_mono; [apply aligned_alloc_delivers; [eassumption|lia|lia]|]. intros p s' HD. wp_step. now apply (delivered_ok a n B s).
  - wp_step. destruct (Z.eqb_spec p 0) as [->|Hp].
    + unfold Malloc.realloc. change (0 =? 0) with true. cbv iota. eapply wp_mono; [apply malloc_delivers; [eassumption|lia]|]. intros q s' HD.
      wp_step. rewrite (delete_id B) by exact (zero_not_block B s HB). now apply (delivered_ok 16 n B s).
    + destruct (B !! p) as [k|] eqn:E; [|discriminate]. eapply wp_mono; [apply (realloc_moves B s p k n HB E); lia|].
      intros q s' [(-> & _ & HB')|(Hq & _ & _ & HB' & _)]; wp_step; [exact HB'|]. now replace (q =? 0) with false by lia.
  - wp_step. eapply wp_mono; [apply (free_frees B s p HB)|].
    + destruct (Z.eqb_spec p 0); [now left|right]. destruct (B !! p); [eauto|discriminate].
    + intros u s' [_ HB']. wp_step. exact HB'.
  - wp_step. wp_step. wp_step. apply write_ok; [assumption|now apply in_blockb_ok].
Qed.

Lemma run_ok client steps B s : well_behaved client -> heap_ok B s -> wp (run client steps B) s heap_ok.
Proof.
  intros Hc. revert B s; induction steps as [|steps IH]; intros B s HB; cbn [run]; [wp_step; exact HB|].
  wp_step. wp_step. wp_step. eapply wp_mono; [apply serve_ok; [exact HB|apply Hc]|]. intros B' s' HB'. now apply IH.
Qed.
End Allocator.

(** ** What holds of the allocator *)

Section Claims.
Context {K : Type} `{KernelLaws K}.
Variables (bootstrap random_secret : Z) (malloc_replaced aligned_alloc_replaced : bool).
Implicit Types (s : heap K) (B : block_map).
Notation heap_ok := (heap_ok bootstrap).

(** C2. malloc returns, whatever was allocated and freed before and whatever the
    kernel answers: null, or a multiple of 16 at which the [n] bytes are in no other
    block.  The bytes of all blocks stay, and the heap is good for the next call. *)
Theorem malloc_correct B s n :
  heap_ok B s -> 0 <= n < 2 ^ 64 ->
  exists p s', malloc bootstrap random_secret n s = Some (p, s') /\ keeps B s s' /\
    (p = 0 /\ heap_ok B s' \/
     p <> 0 /\ p mod 16 = 0 /\ B !! p = None /\ (forall b, p <= b < p + n -> ~ in_block B b) /\ heap_ok (<[p := n]> B) s').
Proof.
  intros HB Hn. destruct (wp_run _ _ _ (malloc_delivers bootstrap random_secret B s n HB Hn)) as (p & s' & E & Hk & Hor).
  exists p, s'. split; [exact E|]. split; [exact Hk|]. destruct Hor as [|(H1 & H2 & _ & H3)]; auto.
Qed.

(** C3. free of a block, or of null, returns: none of its assertions fails, and
    neither does one of those of the groups that are freed behind it.  The block is
    gone, the others are there with their bytes. *)
Theorem free_correct B s p :
  heap_ok B s -> p = 0 \/ is_Some (B !! p) ->
  exists s', free bootstrap p s = Some (tt, s') /\ keeps (delete p B) s s' /\ heap_ok (delete p B) s'.
Proof.
  intros HB Hp. destruct (wp_run _ _ _ (free_frees bootstrap B s p HB Hp)) as ([] & s' & E & HQ). now exists s'.
Qed.

(** C4. realloc of a block returns: null, and nothing changed, or the block of the new
    size, at the same place (in its slot), with its pages elsewhere (mremap) or in a
    new block, with the bytes that the old and the new size have in common. *)
Theorem realloc_correct B s p k n :
  heap_ok B s -> B !! p = Some k -> 0 <= n < 2 ^ 64 ->
  exists q s', realloc bootstrap random_secret p n s = Some (q, s') /\
    (q = 0 /\ keeps B s s' /\ heap_ok B s' \/
     q <> 0 /\ q mod 16 = 0 /\ keeps (delete p B) s s' /\ heap_ok (<[q := n]> (delete p B)) s' /\
     (q = p \/ B !! q = None) /\ forall d, 0 <= d < Z.min k n -> bytes s' (q + d) = bytes s (p + d)).
Proof. intros HB Hp Hn. exact (wp_run _ _ _ (realloc_moves bootstrap random_secret B s p k n HB Hp Hn)). Qed.

(** C6. calloc returns: null, also when the product overflows, or a new block all of
    whose bytes are zero, though it clears only what may not be zero already. *)
Theorem calloc_correct B s m n :
  heap_ok B s -> 0 <= m < 2 ^ 64 -> 0 <= n < 2 ^ 64 ->
  exists p s', calloc bootstrap random_secret malloc_replaced m n s = Some (p, s') /\ keeps B s s' /\
    (p = 0 /\ heap_ok B s' \/
     p <> 0 /\ p mod 16 = 0 /\ B !! p = None /\ (forall b, p <= b < p + m * n -> ~ in_block B b /\ bytes s' b = 0) /\
     heap_ok (<[p := m * n]> B) s').
Proof.
  intros HB Hm Hn. destruct (wp_run _ _ _ (calloc_delivers bootstrap random_secret malloc_replaced B s m n HB Hm Hn)) as (p & s' & E & [Hk Hor] & Hz).
  exists p, s'. split; [exact E|]. split; [exact Hk|]. destruct Hor as [|(H1' & H2' & _ & H3' & H4' & H5')]; [now left|right].
  split; [assumption|]. split; [assumption|]. split; [assumption|]. split; [|assumption]. intros b Hb. split; [now apply H4'|now apply Hz].
Qed.



(** C25. In a good heap the blocks lie in user memory, at multiples of 16 and apart from
    each other, malloc_usable_size says the size that was asked for, and a write to a
    block leaves the heap good. *)
Theorem blocks_apart B s p n :
  heap_ok B s -> B !! p = Some n ->
  0 < p /\ p mod 16 = 0 /\ 0 <= n /\ p + n < 2 ^ 47 /\
  (forall q k b, B !! q = Some k -> p <= b < p + n -> q <= b < q + k -> q = p) /\
  malloc_usable_size bootstrap p s = Some (n, s) /\
  forall b v, p <= b < p + n -> heap_ok B (with_bytes (bytes s)<{b := u8 v}> s).
Proof.
  intros HB Hp. pose proof HB as (G & HI & El & HG). pose proof (proj1 (HG p n) Hp) as Hb.
  destruct (block_lookup bootstrap G s p n HI Hb) as (g & A & i & x & HA). destruct (block_pos bootstrap G s p n g A i x HI HA) as [Hp0 Hp47].
  destruct (ba_in _ _ _ _ _ _ _ _ HA) as (_ & Hn & He & H16). split; [assumption|]. split; [assumption|]. split; [assumption|]. split; [lia|]. split; [|split].
  - intros q k b Hq H1' H2'. apply HG in Hq. now destruct (blocks_disjoint _ (hi_layout _ _ _ HI) p n q k b Hb Hq H1' H2').
  - destruct (wp_run _ _ _ (usable_size_ok bootstrap G s p n HI Hb)) as (r & s' & E & -> & ->). exact E.
  - intros b v Hin. apply (write_ok bootstrap B s b v HB). now exists p, n.
Qed.
End Claims.

(** ** A kernel

    The pages that are mapped, and from where on none ever was: every mapping is new. *)

Module Pages.
Record pages : Type := Pages { brk : Z; used : Z -> bool }.
Definition is_mapped (k : pages) (b : Z) : Prop := used k b && (b <? brk k) = true.

Definition fresh (len : Z) (keep : Z -> bool) (k : pages) : (Z + Z) * pages :=
  if (0 <? len) && (0 <? brk k) && (brk k mod 4096 =? 0) && (brk k + len <=? 2 ^ 47) then
    (inl (brk k), Pages (brk k + page_up len) (fun b => used k b && (b <? brk k) && keep b || within (brk k) (page_up len) b))
  else (inr ENOMEM, k).
Definition unmap (base len b : Z) : bool := negb (within base (page_up len) b).

#[export] Instance pages_kernel : Kernel pages := {
  k_mmap len k := fresh len (fun _ => true) k;
  k_munmap base len k := (inl tt, Pages (brk k) (fun b => used k b && unmap base len b));
  k_mprotect _ _ k := (inl tt, k);
  k_mremap base len new k := fresh new (unmap base len) k }.

Lemma within_iff a n b : within a n b = true <-> a <= b < a + n.
Proof. unfold within. lia. Qed.

Lemma fresh_done len keep k p k' :
  fresh len keep k = (inl p, k') ->
  0 < len /\ 0 < p /\ p mod 4096 = 0 /\ p + len <= 2 ^ 47 /\ (forall b, p <= b < p + page_up len -> ~ is_mapped k b) /\
  forall b, is_mapped k' b <-> is_mapped k b /\ keep b = true \/ p <= b < p + page_up len.
Proof.
  unfold fresh. destruct (_ && _) eqn:E; [|discriminate]. intros [= <- <-]. unfold is_mapped. cbn [brk used].
  destruct (page_up_ok len ltac:(lia)) as [Hl _]. repeat (split; [lia|]). intros b. rewrite <- (within_iff (brk k)).
  destruct (within (brk k) (page_up len) b) eqn:Ew; [apply within_iff in Ew|].
  - rewrite Bool.orb_true_r. split; [now right|]. intros _. lia.
  - rewrite Bool.orb_false_r. destruct (used k b), (Z.ltb_spec b (brk k)), (keep b); cbn; try (intuition congruence).
    replace (b <? brk k + page_up len) with true by lia. intuition.
Qed.

Lemma fresh_failed len keep k e k' : fresh len keep k = (inr e, k') -> k' = k.
Proof. unfold fresh. destruct (_ && _); [discriminate|]. now intros [= _ <-]. Qed.

#[export] Instance pages_laws : KernelLaws pages.
Proof.
  refine (Build_KernelLaws pages pages_kernel is_mapped _ _ _ _ _ _ _).
  - intros len k p k' E. destruct (fresh_done _ _ _ _ _ E) as (H1 & H2 & H3 & H4 & H5 & H6).
    repeat (split; [assumption|]). intros b. rewrite H6. tauto.
  - intros len k e k' E b. now rewrite (fresh_failed _ _ _ _ _ E).
  - intros base len k u k' _ [= _ <-] b. unfold is_mapped, unmap. cbn [brk used]. rewrite <- within_iff.
    destruct (used k b), (b <? brk k), (within base (page_up len) b); cbn; intuition congruence.
  - intros base len k e k' E. discriminate.
  - intros a len k r k' [= _ <-] b. reflexivity.
  - intros base len new k p k' _ E. destruct (fresh_done _ _ _ _ _ E) as (H1 & H2 & H3 & H4 & H5 & H6).
    repeat (split; [assumption|]). split; [intros b Hb Hm; now destruct (H5 b Hb)|]. intros b. rewrite H6. unfold unmap. rewrite <- (within_iff base).
    destruct (within base (page_up len) b); cbn; intuition congruence.
  - intros base len new k e k' E b. now rewrite (fresh_failed _ _ _ _ _ E).
Defined.

(** ctx.bootstrap_meta at 4096. *)
Definition k0 : pages := Pages 65536 (fun b => within 4096 4096 b).
Definition h0 : heap pages := start_heap (fun _ => 0) 0 k0.

Lemma boot0 : bootstrap_ok 4096 k0.
Proof. split; [lia|]. split; [now vm_compute|]. intros b Hb. cbn. unfold is_mapped, within, SIZEOF_META in *. cbn. unfold within. lia. Qed.
Lemma mem0 : wf_mem (fun _ => 0).
Proof. intros b. lia. Qed.
Lemma ok0 : heap_ok 4096 ∅ h0.
Proof. exact (start_ok 4096 _ 0 k0 mem0 boot0). Qed.

(** The heap with a block of 100 bytes. *)
Definition block1 : Z * heap pages :=
  match malloc 4096 77 100 h0 with Some r => r | None => (0, h0) end.
Definition p1 : Z := fst block1.
Definition h1 : heap pages := snd block1.

Lemma block1_at : p1 = 65616.
Proof. vm_compute. reflexivity. Qed.
Lemma ok1 : heap_ok 4096 {[p1 := 100]} h1.
Proof.
  destruct (wp_run _ _ _ (malloc_delivers 4096 77 ∅ h0 100 ok0 ltac:(lia))) as (p & s' & E & _ & Hor).
  assert (Eb : block1 = (p, s')) by (unfold block1; now rewrite E).
  assert (Ep : p1 = p) by (unfold p1; now rewrite Eb). assert (Eh : h1 = s') by (unfold h1; now rewrite Eb).
  pose proof block1_at as Hp. rewrite Ep, Eh. destruct Hor as [[Hz _]|(_ & _ & _ & _ & _ & Hok)]; [congruence|exact Hok].
Qed.
Lemma has1 : ({[p1 := 100]} : block_map) !! p1 = Some 100.
Proof. apply lookup_insert_eq. Qed.
End Pages.
Import Pages.

Lemma malloc_correct_witness :
  exists p s', malloc 4096 77 100 h0 = Some (p, s') /\ (p = 0 \/ p mod 16 = 0 /\ heap_ok 4096 {[p := 100]} s').
Proof.
  destruct (malloc_correct 4096 77 ∅ h0 100 ok0 ltac:(lia)) as (p & s' & E & _ & Hor).
  exists p, s'. split; [exact E|clear E]. destruct Hor as [[-> _]|(_ & H16 & _ & _ & HB)]; [left; reflexivity|right; split; assumption].
Defined.

Lemma free_correct_witness :
  exists s', free 4096 p1 h1 = Some (tt, s') /\ heap_ok 4096 (delete p1 {[p1 := 100]}) s'.
Proof.
  destruct (free_correct 4096 {[p1 := 100]} h1 p1 ok1 (or_intror (ex_intro _ 100 has1))) as (s' & E & _ & HB).
  exists s'. split; assumption.
Defined.

Lemma realloc_correct_witness :
  exists q s', realloc 4096 77 p1 5000 h1 = Some (q, s') /\
    (q = 0 \/ forall d, 0 <= d < 100 -> bytes s' (q + d) = bytes h1 (p1 + d)).
Proof.
  destruct (realloc_correct 4096 77 {[p1 := 100]} h1 p1 100 5000 ok1 has1 ltac:(lia)) as (q & s' & E & Hor).
  exists q, s'. split; [exact E|clear E]. destruct Hor as [[-> _]|(_ & _ & _ & _ & _ & Hd)]; [left; reflexivity|right; exact Hd].
Defined.

Lemma calloc_correct_witness :
  exists p s', calloc 4096 77 false 10 20 h1 = Some (p, s') /\ (p = 0 \/ forall b, p <= b < p + 200 -> bytes s' b = 0).
Proof.
  destruct (calloc_correct 4096 77 false {[p1 := 100]} h1 10 20 ok1 ltac:(lia) ltac:(lia)) as (p & s' & E & _ & Hor).
  exists p, s'. split; [exact E|clear E]. destruct Hor as [[-> _]|(_ & _ & _ & Hz & _)]; [left; reflexivity|right]. intros b Hb. apply Hz. exact Hb.
Defined.


(** A client that writes to its first block and frees it, or asks for one. *)
Definition writer (n : nat) (B : block_map) (m : mem) : request :=
  match map_to_list B with
  | [] => Malloc (Z.of_nat n mod 1000)
  | (p, k) :: _ => if (k <=? 0) || Nat.even n then Free p else Write p (m p + 1)
  end.

Lemma writer_legal : well_behaved writer.
Proof.
  intros n B m. unfold writer. destruct (map_to_list B) as [|[p k] l] eqn:E.
  - cbn [legal]. unfold size_ok. pose proof (Z.mod_pos_bound (Z.of_nat n) 1000 ltac:(lia)). lia.
  - assert (Hp : B !! p = Some k) by (apply elem_of_map_to_list; rewrite E; left).
    destruct (_ || _) eqn:Ek; cbn [legal]; [rewrite Hp; now destruct (p =? 0)|]. unfold in_blockb. rewrite E. cbn.
    apply Bool.orb_false_iff in Ek as [Ek _]. lia.
Qed.


Lemma blocks_apart_witness :
  malloc_usable_size 4096 p1 h1 = Some (100, h1) /\
  heap_ok 4096 {[p1 := 100]} (with_bytes (bytes h1)<{p1 + 99 := u8 7}> h1).
Proof.
  destruct (blocks_apart 4096 {[p1 := 100]} h1 p1 100 ok1 has1) as (_ & _ & _ & _ & _ & Hu & Hw).
  split; [exact Hu|]. apply Hw. lia.
Defined.
